(* ===== verification/_CoqProject ===== *)
-Q . S2P
Prelude.v
CText.v
StdMap.v
SearchCache.v
SearchCacheProps.v
Wildcard.v
SqlTokenizer.v
SqlAst.v
SqlParser.v
SqlStatement.v
SqlParserProps.v
SqlStatementProps.v
SqlFrontEnd.v
MMapFormat.v
MMapIndex.v
MMapIndexProps.v
FilterLang.v
FilterLangProps.v
SqlFilter.v
IPFilter.v
IPFilterProps.v
ApiKeys.v
ApiKeysProps.v
ScopedSearch.v
UserAuth.v
UserAuthProps.v
HttpRoutes.v
HttpRoutesProps.v
HttpMessage.v
HttpGate.v
HttpGateProps.v
HttpConnection.v
HttpConnectionProps.v
HttpStreamProps.v
HttpDispatch.v
HttpDispatchProps.v
Timers.v
TimersProps.v
DocValues.v
DocValuesProps.v
FilterEval.v
FilterEvalProps.v
ResultShaping.v
ResultShapingProps.v
Segments.v
SegmentsInv.v
SegmentsOps.v
SegmentsRestart.v
SegmentsProps.v
LexicalTerms.v
LexicalIndex.v
LexicalTermsProps.v
LexicalIndexInv.v
LexicalIndexProps.v
LexicalIndexReads.v
LexicalIndexDisk.v
LexicalIndexRecovery.v
QueryMatch.v
EditDistance.v
QueryMatchProps.v
LexicalCache.v
LexicalCacheProps.v
RocksStore.v
DocumentStore.v
DocumentStoreProps.v
LexicalSearch.v
LexicalSearchProps.v
LazyIndex.v
LazyIndexProps.v
Regex.v
QueryObject.v
QueryParams.v
QueryParamsProps.v
QueryCleanup.v
