(* ===== verification/Prelude.v ===== *)
(** * hlquery: a verification development of the search engine's core logic

    hlquery is a search server in C++. A request reaches it as SQL text or as
    query parameters. The SQL front end (src/sql) turns a statement into a
    [SQLTranslationResult]: a search query with a filter string, sort order,
    pagination and aggregates, or a write. The filter string is the language
    the HTTP API also accepts; src/api/utils.cpp parses it and applies it to
    the hits. Documents are stored by collection
    (src/search/document_collection_store.cpp) over a storage engine
    (src/search/rocksdb_storage_engine.cpp) and its segments
    (src/search/segmented_document_router.cpp), and indexed in memory
    (src/search/lexical_index_writer.cpp). src/api/lexical.cpp plans a text query,
    expands it, looks it up and rechecks what was found. Hits come from the lexical index, whose
    on-disk form is the mapped posting index (src/search/mapped_posting_index.cpp): an
    immutable set of files, searched in place. LIKE conditions and wildcard searches use
    the matcher of src/utils/wildcard.cpp. Before any of this, the address of
    the client passes the IP filter (src/api/ipfilter.cpp), the bytes of the
    connection are cut into requests (src/api/httpserver.cpp), the request is
    mapped to a route (src/api/httproutes.cpp), its credentials are checked
    against the API keys (src/api/apikeymanager.cpp) and the users
    (src/api/userauth.cpp), and a handler is chosen, which may answer from the
    search cache (src/api/searchcache.cpp).

    ** Files

    - Prelude: bytes and byte strings, the [result] type, shared tactics and
      list lemmas, and the vocabulary of fuel ([fuel_stable], [settles]).
    - CText: what the sources use of the C and C++ libraries on text, in the
      "C" locale: <cctype>, searches, trimming, the order of [std::string],
      [strtod], [std::stod], [std::stoi], [std::stoll]. Doubles are binary64
      values of [SpecFloat].
    - Wildcard (Module [Wildcard]): src/utils/wildcard.cpp. C strings are byte
      lists without NUL. Theorems: the backtracking loop terminates and decides
      the declarative glob relation; [Match] and [MatchCaseSensitive] decide it
      on every pattern without an inner wildcard between two stars, and what
      they do on the others; [Filter] keeps the matching strings.
    - SqlTokenizer (Module [Tokenizer]): src/sql/tokenizer.cpp. Theorems: the
      tokens spell the text; their shapes, upper-case forms, parenthesis balance
      and number; quoting round trip; termination.
    - SqlAst (Module [Ast]): the records of include/sql/sql.h,
      include/sql/internal.h and src/sql/parser_internal.h. Of the search query
      only the members the front end writes are kept.
    - SqlParser (Module [SqlParser]): expressions of src/sql/parser.cpp, as
      computations of a state and error monad over the members of [Parser].
    - SqlStatement (Module [SqlStatement]): the clauses and statements of
      src/sql/parser.cpp and src/sql/parser_statements.cpp, the translation of
      the AST, and [SQLService] of src/sql/sql.cpp. [json::dump] of the vendored
      JSON library is an argument; it may refuse, an exception the parser does not
      catch (outcome [Throw]).
    - SqlParserProps, SqlStatementProps: relations kept by every function of the
      parser (classes [StepRel], [ParserRel], [CoreRel], [StatementRel],
      [AppendRel]) and the absence of fuel exhaustion.
    - SqlFrontEnd: theorems on [SQLService_Parse]: it ends on every text, with a
      result unless [json::dump] refuses the configuration of a statement with
      aggregates; a result is valid exactly when its error is empty, its type is the one the
      first keyword names, pagination is in range, the node budget bounds the
      result, HAVING is always rejected; [LooksLikeSelect] agrees with it.
    - MMapFormat (Module [MMapFormat]): little-endian scalars, the checksum,
      varints and the checked file envelope of mapped_posting_index.cpp.
      Theorems: round trips, rejection of truncation and of a changed payload
      byte, soundness of validation.
    - MMapIndex (Module [MMapIndex]): writer, loader, term lookup, posting
      decoders and searches of the mapped index, with the fast paths of
      postings_mmap_fastpath.cpp and simdutils.h. A read outside a mapping is
      the value [Fault]; scores are single-precision floats.
    - MMapIndexProps: the index answers like the term map it was written from
      ([index_refinement]), for exact, prefix and wildcard search and for the
      document count; decoding and lookup are memory-safe and terminate on
      arbitrary file contents, and the fast decoder agrees with the plain one unless the
      allocator refuses the number of postings the data announces.
    - FilterLang (Module [FilterLang]): [FilterExpressionParser] and
      [ApplyFilters] of src/api/utils.cpp, [ParseFilters] of
      src/api/queryparser.cpp. The evaluation of one condition on a document is
      an argument of [ApplyFilters]; FilterEval defines it.
    - FilterLangProps: the grammar of filter strings ([filter_text]), the
      completeness of the parser for it, the printing round trip, what both
      parsers guarantee of a condition, and the result of [ApplyFilters].
    - SqlFilter: the meaning of WHERE clauses ([where_tokens]) and the theorem
      that joins SQL parser, filter parser and filtering
      ([where_clause_selects]); the NOT that is ignored, and other corners.

    - IPFilter (Module [IpFilter]): src/api/ipfilter.cpp, the allow and deny
      lists in front of every request. DNS answers are arguments that may differ
      from query to query; exceptions and undefined behaviour are [None].
    - IPFilterProps: CIDR matching compares prefixes, the decision for a literal
      address is the one the configuration texts describe, the deny list comes
      first, and in every reachable state ([step]) all operations return and the
      caches keep their bounds.
    - StdMap: [std::map] with string keys as a sorted association list.
    - SearchCache (Module [SearchCache]): src/api/searchcache.cpp. The state is the
      store (entries, order heap, groups by collection), the clocks, the limits and
      the counters; the time is an argument. SearchCacheProps: a hit is fresh and
      belongs to the same credentials, the budget holds, eviction is least recently
      used, what is put can be got, and a collision of cache keys.
    - ApiKeys (Module [ApiKeys]): src/api/apikeymanager.cpp with the key records of
      include/api/apikeys.h. SHA-256 and AES are arguments; random bytes, and whether
      the directory can be made and the file written, are inputs; an operation that an
      exception leaves answers [None]. ApiKeysProps: in every state reachable by
      the operations validation is exact, deletion is final, a reported failure changes
      nothing while an exception skips the rollback, a saved file is read back, and the rate limit admits its quota and at
      most twice that in a minute.
    - ScopedSearch (Module [ScopedSearch]): how src/api/search.cpp joins the embedded
      filter of a key to that of the request; when this restricts, and how it is
      escaped.
    - UserAuth (Module [UserAuth]): src/api/userauth.cpp, with the handlers of
      users, the configuration sources and the encrypted file. UserAuthProps: the
      Base64 round trip, and that only registered users authenticate, from what
      [Initialize] loads when no name or token is repeated.
    - HttpRoutes (Module [HttpRoutes]): src/api/httproutes.cpp, the catalog and the
      resolver. HttpRoutesProps: every resolved request is in the catalog.
    - HttpMessage (Module [HttpMessage]): parsing of requests and rendering of
      responses in src/api/httpserver.cpp.
    - HttpGate (Module [HttpGate]): credentials, AuthorizeHttpRequest and the checks
      of ProcessSingleRequest before a handler. HttpGateProps: a key that is read
      without further blanks is confined to its scope, nothing is served without credentials, and the blank that escapes
      the scope.
    - HttpConnection (Module [HttpConnection]): the events of a connection. The
      handlers are an argument [serve]. HttpConnectionProps: parsed headers are
      clean, the connection is simulated by an ideal one with an unbounded list of
      responses, responses drain, and what is lost when a pipelined connection
      closes. HttpStreamProps: requests are served alike
      however their bytes are cut, and a field that splits a body.
    - HttpDispatch (Module [HttpDispatch]): the path tests that choose the handler
      and the table by action. HttpDispatchProps: both agree on the first spellings of
      the collection routes, and where they do not.
    - DocValues (Module [DocValues]): how src/api/utils.cpp reads numbers, points,
      distances and time stamps of documents. The class [Library] holds what is
      not under src/: JSON, trigonometry, [std::get_time]. DocValuesProps: the
      calendar and the round trip of time stamps.
    - FilterEval (Module [FilterEval]): [EvaluateFilterCondition]. FilterEvalProps:
      the operators fit together, and ranges are conjunctions.
    - ResultShaping (Module [ResultShaping]): sorting, grouping, pagination, field
      selection and highlighting of src/api/utils.cpp; [std::sort] is a relation.
      ResultShapingProps: when sorting is deterministic and when its comparison has
      cycles, pages partition the hits, groups have the first hits of their keys,
      highlighting only inserts marks.
    - Timers (Module [Timers]): src/runtime/timers.cpp and the threads that use it;
      a step is one critical section or the start of one callback. TimersProps: a
      cancelled timer never runs again under any interleaving, where a cancellation
      cannot end, what one tick does, and the time until the next timer.
    - Segments (Module [Segments]): src/search/segmented_document_router.cpp with the
      catalog of segments; documents are routed to one active and many sealed segments.
      A store is an instance of the class [Store], an ordered map that writes batches
      ([StoreLaws]); whether a write, a flush or a file operation succeeds, fails or takes
      effect although it reports an error is an input. SegmentsInv: the invariant of
      routes, tombstones and segments. SegmentsOps: what each operation does to the
      documents. SegmentsRestart: recovery from the directory. SegmentsProps: the store
      refines a map from keys to documents, across failures and restarts, and the active
      segment stays below its limits.
    - LexicalTerms (Module [LexicalTerms]) and LexicalIndex (Module [LexicalIndex]):
      src/search/lexical_index_writer.cpp. Terms of a text, postings, statistics, dirty
      marks, eviction, the flush to the files of MMapIndex as two steps between which
      other calls run, loading and the repair of interrupted flushes. Clock, boosts,
      memory estimate and the success of writes are inputs ([Env]). LexicalTermsProps:
      extracted terms are stable, scoped terms are told apart. LexicalIndexInv: one
      collection. LexicalIndexProps: every call keeps the tables those of the documents.
      LexicalIndexReads: frequencies and statistics are those of the documents.
      LexicalIndexDisk: clean collections are on disk. LexicalIndexRecovery: a restart
      serves what was clean, and nothing that was not written whole; in the process
      itself a failed write shows through the old mapping.
    - QueryMatch (Module [QueryMatch]): the matching of texts in src/api/lexical.cpp:
      terms and phrases, structured queries with their parser and evaluation, typing
      errors, candidate queries, requested fields and boosts. QueryMatchProps: a
      structured query selects what its clauses say. EditDistance: the two-row
      computation is the edit distance.
    - LexicalCache (Module [LexicalCache]): synonyms and stopwords of a collection, the
      expansion of queries and its cache, with queries and writers that interleave.
      LexicalCacheProps: an expansion is never built from what was read before an
      invalidation that precedes it, and what it consists of.
    - RocksStore (Module [RocksStore]): the storage engine with its size checks, plain or
      segmented. The class [Database] with [DatabaseLaws] is what it promises; the
      instance without segments is proved here.
    - DocumentStore (Module [DocumentStore]): documents, collections, counters and
      configurations of src/search/document_collection_store.cpp over a [Database].
      DocumentStoreProps: on identifiers without a colon it refines a map from collections
      and identifiers to documents, and its counters are exact.
    - LazyIndex (Module [LazyIndex]): the index builds on demand of the same file as tasks
      whose steps interleave with other calls, rebuilds, integrity reports, the load at
      startup and the removal of everything. LazyIndexProps: on runs within the conditions stated there an
      index marked complete is complete, removing everything ends, and examples of what the conditions are for.
    - LexicalSearch (Module [LexicalSearch]): [ProcessLexicalSearch] of
      src/api/lexical.cpp. LexicalSearchProps: hits satisfy the query, and the batches and
      limits of the scans do not change the answer.
    - Regex (Module [Regex]): the regular expressions of <regex> the sources use, as a
      backtracking matcher with its meaning. QueryObject (Module [QueryObject]): the query
      object of src/include/api/searchapi.h. QueryParams (Module [QueryParams]):
      src/api/queryparser.cpp but [ParseFilters], from parameters and JSON bodies to query
      objects, with the inline query syntax. QueryParamsProps: the bounds of every parsed
      query, lists, and examples of the inline syntax. QueryCleanup: the clean-up of
      operators against a reference over words.

    ** State, errors and fuel

    Parser members are a record passed through the monad [M]; a C++ function
    that returns false with an error text is a [Fail] with that text. Positions
    into a text are the rest of the text; positions into the token list stay
    numbers. Machine integers are [Z] with the wrap-around the code has where
    it can arise. Loops that are not structural take fuel, and running out is a
    value of its own that no operation of the code produces: one unit per byte
    or token for the loops, and three calls per byte or token plus three for
    the mutually recursive grammars, which a lemma per file shows to be enough
    ([SQLTokenize_total], [expression_grammar_fueled], [grammar_fueled] and the
    theorems named total or safe). The loop over pipelined requests takes the size
    of the buffer plus one, since each turn removes the end of the headers; the
    loops of highlighting take one unit per byte. The scans of a search take one unit
    per batch, and [FlushAll] one per key and one more. The repetitions of a regular
    expression, its matches in a text and the clean-up of a query take one unit per byte.
    Theorems that promise a result promise that
    it is returned.

    ** Not modelled

    Worker threads, TLS and the accept loop, the bodies of the API handlers, RocksDB
    itself, its options and statistics, logging, modules and clients, which are I/O or
    third-party code; ranking and hybrid fusion. Within the modelled files: rank weights
    of src/api/utils.cpp, the rendering of the route catalog as JSON, the prefix search
    that nothing calls, the [mmap] system calls themselves, compaction and statistics of
    segments, the scoring functions of the lexical index and its memory estimate, the
    start and shutdown of the document store and its flush thread, and the mutexes of
    keys. A call of the document store is one step, except for the builds of indexes.

    ** Extensions

    What could be added in the same style: rank weights, thread limits, the replication
    of src/api/distributed.cpp and the configuration reader. *)

From Stdlib Require Export ZArith Lia Ascii.
From stdpp Require Export prelude gmap strings list sorting pretty.

#[global] Open Scope Z_scope.

(** ** Byte strings

    [std::string], [std::vector<uint8_t>] and NUL-free C strings are all lists
    of bytes; a byte is Rocq's [ascii] (eight bits). *)

Abbreviation bytes := (list ascii).

Definition lit (s : string) : bytes := String.list_ascii_of_string s.

Declare Scope bytes_scope.
Delimit Scope bytes_scope with bytes.
Notation "# s" := (lit s%string) (at level 1, s at level 0, format "# s") : bytes_scope.
#[global] Open Scope bytes_scope.

(** The value of a byte, and the byte of a value modulo 256. *)

Definition code (c : ascii) : Z := Z.of_N (N_of_ascii c).

Definition chr (z : Z) : ascii := ascii_of_N (Z.to_N (z mod 256)).

Definition all_ascii : bytes := Eval vm_compute in (ascii_of_nat <$> seq 0 256).

(** ** Results of fallible code *)

Inductive result (A : Type) : Type :=
| Ok (a : A)
| Err (msg : bytes).
Arguments Ok {A} a.
Arguments Err {A} msg.

(** ** Tactics of the development *)

Ltac destr_in H :=
  match type of H with
  | context [match ?x with _ => _ end] =>
      lazymatch x with context [match _ with _ => _ end] => fail | _ => destruct x eqn:? end
  end.

Ltac destr_goal :=
  match goal with
  | |- context [match ?x with _ => _ end] =>
      lazymatch x with context [match _ with _ => _ end] => fail | _ => destruct x eqn:? end
  end.

(** ** Lemmas on bytes *)

Lemma code_range c : 0 <= code c < 256.
Proof.
  unfold code. pose proof (N_ascii_bounded c). lia.
Qed.

Lemma chr_code c : chr (code c) = c.
Proof.
  unfold chr. rewrite Z.mod_small by apply code_range.
  unfold code. rewrite N2Z.id. apply ascii_N_embedding.
Qed.

Lemma code_chr z : code (chr z) = z mod 256.
Proof.
  unfold chr, code. pose proof (Z.mod_pos_bound z 256).
  rewrite N_ascii_embedding; lia.
Qed.

Lemma code_inj a b : code a = code b -> a = b.
Proof. intros H. by rewrite <- (chr_code a), <- (chr_code b), H. Qed.

Lemma elem_of_all_ascii c : c ∈ all_ascii.
Proof.
  change all_ascii with (ascii_of_nat <$> seq 0 256). apply list_elem_of_fmap. exists (nat_of_ascii c).
  split; [by rewrite ascii_nat_embedding|].
  apply elem_of_seq. pose proof (nat_ascii_bounded c). lia.
Qed.

(** Exhaustive reasoning on bytes: a decidable fact that a computation over
    the 256 bytes (or pairs of bytes) confirms holds of every byte. *)

Lemma forall_ascii (p : ascii -> bool) :
  forallb p all_ascii = true -> forall c, p c = true.
Proof.
  intros H c. rewrite forallb_forall in H. apply H.
  apply list_elem_of_In, elem_of_all_ascii.
Qed.

Lemma forall_ascii2 (p : ascii -> ascii -> bool) :
  forallb (fun a => forallb (p a) all_ascii) all_ascii = true ->
  forall a b, p a b = true.
Proof.
  intros H a. apply forall_ascii. exact (forall_ascii _ H a).
Qed.

(** ** Lemmas on lists *)

Lemma app_suffix {A} (a y b w : list A) :
  a ++ y = b ++ w -> (length w <= length y)%nat -> exists z, y = z ++ w.
Proof.
  intros H Hl. exists (drop (length a) b).
  assert (length a <= length b)%nat.
  { apply (f_equal length) in H. rewrite !length_app in H. lia. }
  rewrite <- drop_app_le by done. by rewrite <- H, drop_app_length.
Qed.

(** Induction on the length of a list, for scans that drop several elements. *)

Lemma list_len_ind {A} (P : list A -> Prop) :
  (forall s, (forall t, (length t < length s)%nat -> P t) -> P s) -> forall s, P s.
Proof.
  intros H s. apply (well_founded_induction (well_founded_ltof _ (@length A))). exact H.
Qed.

(** ** Fuel

    A fuelled computation that, once it answers, keeps its answer with more
    fuel, and the answer it settles on. *)

Definition fuel_stable {A} (g : nat -> option A) : Prop := forall f x, g f = Some x -> g (S f) = Some x.

Definition settles {A} (g : nat -> option A) (x : A) : Prop := exists n, forall f, (n <= f)%nat -> g f = Some x.

Lemma fuel_stable_le {A} (g : nat -> option A) f f' x :
  fuel_stable g -> g f = Some x -> (f <= f')%nat -> g f' = Some x.
Proof. intros Hs Hx. induction 1; auto. Qed.

Lemma settles_at {A} (g : nat -> option A) f x : fuel_stable g -> g f <> None -> settles g x -> g f = Some x.
Proof.
  intros Hs Hf [n Hn]. destruct (g f) as [y|] eqn:E; [|done].
  pose proof (fuel_stable_le g f (Nat.max n f) y Hs E ltac:(lia)) as H. rewrite Hn in H by lia. congruence.
Qed.

(** A computation that spends one unit before it behaves like another. *)

Lemma settles_S {A} (g h : nat -> option A) x :
  (forall f, g (S f) = h f) -> settles h x -> settles g x.
Proof. intros H [n Hn]. exists (S n). intros [|f] Hf; [lia|]. rewrite H. apply Hn. lia. Qed.

(** [by_bytes p c] proves a goal that the test [p] decides for the byte [c] by
    running [p] on all bytes; [by_bytes2] does so for a pair of bytes. *)

Ltac by_bytes p c :=
  let H := fresh in
  assert (H : forallb p all_ascii = true) by (vm_compute; reflexivity);
  generalize (forall_ascii p H c); clear H;
  cbv beta; rewrite ?bool_decide_eq_true; try done.

Ltac by_bytes2 p a b :=
  let H := fresh in
  assert (H : forallb (fun x => forallb (p x) all_ascii) all_ascii = true)
    by (vm_compute; reflexivity);
  generalize (forall_ascii2 p H a b); clear H;
  cbv beta; rewrite ?bool_decide_eq_true; try done.
