(* ===== verification/CText.v ===== *)
(** * C and C++ text primitives

    The parts of the C and C++ standard libraries the modelled sources call on
    text: the <cctype> classification functions in the "C" locale (no source
    file changes the locale), NUL-terminated views of a [std::string], the
    [std::string] searches, and the number parsers [strtod], [std::stoi],
    [std::stoll] and [std::stod]. *)

From Stdlib Require Import SpecFloat.
From S2P Require Import Prelude.

(** ** <cctype>, "C" locale *)

Definition in_range (lo hi : Z) (c : ascii) : bool := (lo <=? code c) && (code c <=? hi).

Definition isspace (c : ascii) : bool := in_range 9 13 c || (code c =? 32).

Definition isdigit (c : ascii) : bool := in_range 48 57 c.

Definition isupper (c : ascii) : bool := in_range 65 90 c.

Definition islower (c : ascii) : bool := in_range 97 122 c.

Definition isalpha (c : ascii) : bool := isupper c || islower c.

Definition isalnum (c : ascii) : bool := isalpha c || isdigit c.

Definition isxdigit (c : ascii) : bool := isdigit c || in_range 65 70 c || in_range 97 102 c.

Definition toupper (c : ascii) : ascii := if islower c then chr (code c - 32) else c.

Definition tolower (c : ascii) : ascii := if isupper c then chr (code c + 32) else c.

(** ** Strings *)

Definition NUL : ascii := chr 0.

(** [s.size()]. *)

Definition size {A} (s : list A) : Z := Z.of_nat (length s).

(** Longest prefix of bytes satisfying a test, and what follows it. *)

Fixpoint span (p : ascii -> bool) (s : bytes) : bytes * bytes :=
  match s with
  | [] => ([], [])
  | c :: r => if p c then let (a, b) := span p r in (c :: a, b) else ([], s)
  end.

Definition skip_while (p : ascii -> bool) (s : bytes) : bytes := (span p s).2.

(** [s.c_str()] read as a C string: everything before the first NUL. *)

Definition cstr (s : bytes) : bytes := (span (fun c => negb (bool_decide (c = NUL))) s).1.

(** [s.find(c)]; [None] is [std::string::npos]. *)

Fixpoint find_char (p : ascii -> bool) (s : bytes) : option nat :=
  match s with
  | [] => None
  | c :: r => if p c then Some 0%nat else S <$> find_char p r
  end.

(** [t.compare(pos, |p|, p) == 0] where [s] is [t] from [pos] on. *)

Definition starts_with (p s : bytes) : bool := bool_decide (take (length p) s = p).

(** [s.find(p)] of a string. *)

Fixpoint find_sub (p s : bytes) : option nat :=
  if starts_with p s then Some 0%nat
  else match s with [] => None | _ :: r => S <$> find_sub p r end.

(** Erase the longest prefix and the longest suffix of bytes satisfying a
    test; [find_first_not_of] / [find_last_not_of] trimming. *)

Definition trim (p : ascii -> bool) (s : bytes) : bytes :=
  reverse (skip_while p (reverse (skip_while p s))).

(** [std::string] order: lexicographic on unsigned bytes. *)

Fixpoint str_compare (a b : bytes) : comparison :=
  match a, b with
  | [], [] => Eq
  | [], _ => Lt
  | _, [] => Gt
  | x :: a', y :: b' =>
      match Z.compare (code x) (code y) with Eq => str_compare a' b' | o => o end
  end.

Definition str_ltb (a b : bytes) : bool :=
  match str_compare a b with Lt => true | _ => false end.

Definition str_leb (a b : bytes) : bool :=
  match str_compare a b with Gt => false | _ => true end.

Definition to_string (z : Z) : bytes := lit (pretty z).

(** ** Number parsing *)

Definition digit_val (c : ascii) : Z :=
  if isdigit c then code c - 48
  else if in_range 65 70 c then code c - 55
  else if in_range 97 102 c then code c - 87 else 0.

Definition digits_val (base : Z) (ds : bytes) : Z :=
  foldl (fun acc c => acc * base + digit_val c) 0 ds.

Definition read_sign (s : bytes) : bool * bytes :=
  match s with
  | c :: r =>
      if bool_decide (c = "-"%char) then (true, r)
      else if bool_decide (c = "+"%char) then (false, r) else (false, s)
  | [] => (false, s)
  end.

Definition ci_prefix (p s : bytes) : option bytes :=
  if bool_decide (tolower <$> take (length p) s = p) then Some (drop (length p) s) else None.

(** What [strtod] read: an infinity, a NaN, or [(-1)^neg * m * base^e]. *)

Inductive fnum :=
| FInf (neg : bool)
| FNan
| FFin (neg : bool) (m : Z) (base : Z) (e : Z).

(** Optional exponent: [marker [+-] digits+]; without digits nothing is read. *)

Definition read_exponent (marker : ascii) (s : bytes) : Z * bytes :=
  match s with
  | c :: r =>
      if bool_decide (tolower c = marker) then
        let (neg, r1) := read_sign r in
        let (ds, r2) := span isdigit r1 in
        match ds with
        | [] => (0, s)
        | _ => ((if neg then -1 else 1) * digits_val 10 ds, r2)
        end
      else (0, s)
  | [] => (0, s)
  end.

(** Integer and fraction digits around an optional radix point. *)

Definition read_mantissa (isd : ascii -> bool) (s : bytes) : bytes * bytes * bytes :=
  let (ip, r1) := span isd s in
  match r1 with
  | c :: r1' =>
      if bool_decide (c = "."%char) then let (fp, r2) := span isd r1' in (ip, fp, r2)
      else (ip, [], r1)
  | [] => (ip, [], r1)
  end.

Definition strtod_dec (neg : bool) (s : bytes) : option (fnum * bytes) :=
  let '(ip, fp, r) := read_mantissa isdigit s in
  match ip ++ fp with
  | [] => None
  | ds =>
      let (e, r') := read_exponent "e"%char r in
      Some (FFin neg (digits_val 10 ds) 10 (e - Z.of_nat (length fp)), r')
  end.

(** After the [0x] of a hexadecimal literal; with no digit there, only the
    [0] is a number and the [x] is not read. *)

Definition strtod_hex (neg : bool) (x : ascii) (s : bytes) : fnum * bytes :=
  let '(ip, fp, r) := read_mantissa isxdigit s in
  match ip ++ fp with
  | [] => (FFin neg 0 10 0, x :: s)
  | ds =>
      let (e, r') := read_exponent "p"%char r in
      (FFin neg (digits_val 16 ds) 2 (e - 4 * Z.of_nat (length fp)), r')
  end.

Definition strtod_nan_tail (s : bytes) : bytes :=
  match s with
  | c :: r =>
      if bool_decide (c = "("%char) then
        match span (fun d => isalnum d || bool_decide (d = "_"%char)) r with
        | (_, d :: r') => if bool_decide (d = ")"%char) then r' else s
        | (_, []) => s
        end
      else s
  | [] => s
  end.

Definition strtod_number (neg : bool) (s : bytes) : option (fnum * bytes) :=
  match s with
  | z :: x :: r =>
      if bool_decide (z = "0"%char) && bool_decide (tolower x = "x"%char)
      then Some (strtod_hex neg x r) else strtod_dec neg s
  | _ => strtod_dec neg s
  end.

(** [strtod(s, &end)]: the number read and the unread rest; [None] when no
    conversion is performed (then [end == s]). *)

Definition strtod (s : bytes) : option (fnum * bytes) :=
  let (neg, r) := read_sign (skip_while isspace s) in
  match ci_prefix #"infinity" r with
  | Some r' => Some (FInf neg, r')
  | None =>
      match ci_prefix #"inf" r with
      | Some r' => Some (FInf neg, r')
      | None =>
          match ci_prefix #"nan" r with
          | Some r' => Some (FNan, strtod_nan_tail r')
          | None => strtod_number neg r
          end
      end
  end.

(** Two's complement result of a 32-bit signed operation. *)

Definition wrap_int32 (z : Z) : Z := (z + 2 ^ 31) mod 2 ^ 32 - 2 ^ 31.

Definition INT_MAX : Z := 2 ^ 31 - 1.

(** The binary64 nearest to what was read (ties to even). *)

Definition double : Set := spec_float.

Definition round_fnum (f : fnum) : double :=
  match f with
  | FInf neg => S754_infinity neg
  | FNan => S754_nan
  | FFin neg m base e =>
      match m with
      | Zpos p =>
          if 0 <=? e
          then binary_normalize 53 1024 ((if neg then -1 else 1) * (m * base ^ e)) 0 neg
          else match base ^ (- e) with
               | Zpos q => SFdiv 53 1024 (S754_finite neg p 0) (S754_finite false q 0)
               | _ => S754_nan
               end
      | _ => S754_zero neg
      end
  end.

(** The conversion of a finite literal is exact. *)

Definition exact_fnum (f : fnum) : bool :=
  match f, round_fnum f with
  | FFin _ m base e, S754_finite _ mr er =>
      m * base ^ Z.max e 0 * 2 ^ Z.max (- er) 0 =?
      Zpos mr * 2 ^ Z.max er 0 * base ^ Z.max (- e) 0
  | FFin _ m _ _, S754_zero _ => m =? 0
  | FFin _ _ _ _, _ => false
  | _, _ => true
  end.

(** [errno == ERANGE] after [strtod]: overflow, or an inexact result below the
    smallest normal double. *)

Definition fnum_erange (f : fnum) : bool :=
  match f with
  | FFin _ _ _ _ =>
      match round_fnum f with
      | S754_infinity _ => true
      | S754_zero _ => negb (exact_fnum f)
      | S754_finite _ mr er => (Zpos mr * 2 ^ Z.max (er + 1074) 0 <? 2 ^ 52) && negb (exact_fnum f)
      | S754_nan => false
      end
  | _ => false
  end.

(** [std::stod(s, &consumed)]; [None] is a thrown exception. *)

Definition stod (s : bytes) : option (double * nat) :=
  let t := cstr s in
  match strtod t with
  | None => None
  | Some (f, r) =>
      if fnum_erange f then None else Some (round_fnum f, (length t - length r)%nat)
  end.

(** [std::stoi] / [std::stoll] with base 10 for a signed [w]-bit target. *)

Definition sto_int (w : Z) (s : bytes) : option (Z * nat) :=
  let t := cstr s in
  let (neg, r) := read_sign (skip_while isspace t) in
  let (ds, r') := span isdigit r in
  match ds with
  | [] => None
  | _ =>
      let v := (if neg then -1 else 1) * digits_val 10 ds in
      if (- 2 ^ (w - 1) <=? v) && (v <? 2 ^ (w - 1))
      then Some (v, (length t - length r')%nat) else None
  end.

Definition stoi : bytes -> option (Z * nat) := sto_int 32.

Definition stoll : bytes -> option (Z * nat) := sto_int 64.

(** [std::stoull] with base 10: a minus sign negates modulo [2^64]. *)

Definition stoull (s : bytes) : option (Z * nat) :=
  let t := cstr s in
  let (neg, r) := read_sign (skip_while isspace t) in
  let (ds, r') := span isdigit r in
  match ds with
  | [] => None
  | _ =>
      let v := digits_val 10 ds in
      if v <? 2 ^ 64 then Some ((if neg then - v else v) mod 2 ^ 64, (length t - length r')%nat) else None
  end.

(** [std::from_chars] for an [unsigned long long]: the value and the bytes that
    follow the digits. *)

Definition from_chars (s : bytes) : option (Z * bytes) :=
  let (ds, r) := span isdigit s in
  match ds with
  | [] => None
  | _ => if digits_val 10 ds <? 2 ^ 64 then Some (digits_val 10 ds, r) else None
  end.

(** The pieces of [std::getline] with a separator: none after a final separator. *)

Fixpoint getlines (sep : ascii) (current s : bytes) : list bytes :=
  match s with
  | [] => if bool_decide (current = []) then [] else [current]
  | c :: r => if bool_decide (c = sep) then current :: getlines sep [] r else getlines sep (current ++ [c]) r
  end.

(** ** Lemmas *)

Lemma span_app p s : (span p s).1 ++ (span p s).2 = s.
Proof.
  induction s as [|c r IH]; [done|]. simpl. destruct (p c); [|done].
  destruct (span p r); simpl in *. by rewrite IH.
Qed.

Lemma span_all p s : Forall (fun c => p c = true) (span p s).1.
Proof.
  induction s as [|c r IH]; simpl; [constructor|]. destruct (p c) eqn:E; [|constructor].
  destruct (span p r); simpl in *. by constructor.
Qed.

Lemma span_rest p s c r : (span p s).2 = c :: r -> p c = false.
Proof.
  induction s as [|d s IH]; simpl; [done|]. destruct (p d) eqn:E.
  - destruct (span p s); simpl in *. done.
  - simpl. intros [= -> _]. done.
Qed.

Lemma span_split p a s :
  Forall (fun c => p c = true) a ->
  (forall c r, s = c :: r -> p c = false) ->
  span p (a ++ s) = (a, s).
Proof.
  intros Ha Hs. induction Ha as [|c a Hc Ha IH]; simpl.
  - destruct s as [|c r]; [done|]. simpl. by rewrite (Hs c r).
  - by rewrite Hc, IH.
Qed.

Lemma span_rest_length p s : (length (span p s).2 <= length s)%nat.
Proof.
  pose proof (f_equal length (span_app p s)) as H. rewrite length_app in H. lia.
Qed.

Lemma skip_while_stays p s : (forall c, head s = Some c -> p c = false) -> skip_while p s = s.
Proof. destruct s as [|c s]; [done|]. intros H. unfold skip_while. cbn [span]. by rewrite H. Qed.

Lemma skip_while_app p w s : Forall (fun c => p c = true) w -> skip_while p (w ++ s) = skip_while p s.
Proof.
  unfold skip_while. induction 1 as [|c w Hc Hw IH]; [done|].
  cbn [app span]. rewrite Hc, <- IH. by destruct (span p (w ++ s)).
Qed.

Lemma cstr_no_nul s : NUL ∉ cstr s.
Proof.
  unfold cstr. intros H. pose proof (span_all (fun c => negb (bool_decide (c = NUL))) s) as F.
  rewrite Forall_forall in F. specialize (F _ H). by rewrite bool_decide_true in F.
Qed.

Lemma cstr_id s : NUL ∉ s -> cstr s = s.
Proof.
  intros H. unfold cstr. rewrite <- (app_nil_r s) at 1.
  rewrite span_split; [done| |done].
  apply Forall_forall. intros c Hc. rewrite bool_decide_false; [done|]. by intros ->.
Qed.

Lemma starts_with_spec p s : starts_with p s = true <-> exists r, s = p ++ r.
Proof.
  unfold starts_with. rewrite bool_decide_eq_true. split.
  - intros H. exists (drop (length p) s). by rewrite <- H at 1; rewrite take_drop.
  - intros [r ->]. by rewrite take_app_length.
Qed.

Lemma find_sub_length p s n : find_sub p s = Some n -> (n + length p <= length s)%nat.
Proof.
  revert n. induction s as [|c s IH]; intros n; cbn [find_sub]; destruct (starts_with p _) eqn:E.
  - intros [= <-]. apply starts_with_spec in E as [r Hr]. rewrite Hr, length_app. lia.
  - done.
  - intros [= <-]. apply starts_with_spec in E as [r Hr]. rewrite Hr, length_app. lia.
  - destruct (find_sub p s) as [m|]; [|done]. intros [= <-]. specialize (IH m eq_refl). cbn [length]. lia.
Qed.

Lemma find_sub_at p s n : find_sub p s = Some n -> take (length p) (drop n s) = p.
Proof.
  revert n. induction s as [|c s IH]; intros n; cbn [find_sub]; destruct (starts_with p _) eqn:E.
  - intros [= <-]. unfold starts_with in E. by apply bool_decide_eq_true in E.
  - done.
  - intros [= <-]. unfold starts_with in E. by apply bool_decide_eq_true in E.
  - intros (m & Hm & ->)%fmap_Some. by apply IH.
Qed.

(** A text that [trim] leaves alone. *)

Definition edges (p : ascii -> bool) (s : bytes) : Prop :=
  exists c d, head s = Some c /\ last s = Some d /\ p c = false /\ p d = false.

Lemma trim_edges p w s : Forall (fun c => p c = true) w -> edges p s -> trim p (w ++ s) = s.
Proof.
  intros Hw (c & d & Hc & Hd & Pc & Pd). unfold trim. rewrite skip_while_app by done.
  rewrite (skip_while_stays p s) by (intros ? [= <-]%(eq_trans (eq_sym Hc)); done).
  rewrite skip_while_stays, reverse_involutive; [done|].
  intros x Hx. rewrite head_reverse, Hd in Hx. by injection Hx as <-.
Qed.

Lemma edges_app p a s : (exists c r, a = c :: r /\ p c = false) -> edges p s -> edges p (a ++ s).
Proof.
  intros (c & r & -> & Hc) (x & d & Hx & Hd & _ & Pd). exists c, d. split_and!; [done| |done|done].
  rewrite last_app. by rewrite Hd.
Qed.

Lemma find_char_None p s : find_char p s = None <-> Forall (fun c => p c = false) s.
Proof.
  induction s as [|c r IH]; simpl; [done|]. rewrite Forall_cons, <- IH.
  destruct (p c); [naive_solver|]. rewrite fmap_None. naive_solver.
Qed.

Lemma find_char_Some p s n :
  find_char p s = Some n <->
  exists a c b, s = a ++ c :: b /\ length a = n /\ Forall (fun d => p d = false) a /\ p c = true.
Proof.
  revert n. induction s as [|c r IH]; intros n; simpl.
  - split; [done|]. by intros ([|] & c & b & ? & _).
  - destruct (p c) eqn:E.
    + split.
      * intros [= <-]. by exists [], c, r.
      * intros ([|d a] & c' & b & Hs & <- & Ha & Hc); simplify_eq/=; [done|].
        inv Ha. congruence.
    + rewrite fmap_Some. split.
      * intros (m & Hm & ->). apply IH in Hm as (a & c' & b & -> & <- & Ha & Hc).
        exists (c :: a), c', b. naive_solver.
      * intros ([|d a] & c' & b & Hs & <- & Ha & Hc); simplify_eq/=; [congruence|].
        inv Ha. exists (length a). split; [|done]. apply IH. eauto 10.
Qed.

(** Case conversion only touches ASCII letters. *)

Lemma toupper_idemp c : toupper (toupper c) = toupper c.
Proof.
  by_bytes (fun c => bool_decide (toupper (toupper c) = toupper c)) c.
Qed.

(** ** The order on strings *)

Lemma str_compare_refl a : str_compare a a = Eq.
Proof. induction a as [|x a IH]; [done|]. simpl. by rewrite Z.compare_refl. Qed.

Lemma str_compare_eq a b : str_compare a b = Eq -> a = b.
Proof.
  revert b. induction a as [|x a IH]; intros [|y b]; simpl; try done.
  destruct (code x ?= code y) eqn:E; try done. apply Z.compare_eq, code_inj in E as ->. intros H. f_equal. by apply IH.
Qed.

Lemma str_compare_antisym a b : str_compare b a = CompOpp (str_compare a b).
Proof.
  revert b. induction a as [|x a IH]; intros [|y b]; simpl; try done.
  rewrite (Z.compare_antisym (code x) (code y)). destruct (code x ?= code y); simpl; [apply IH|done|done].
Qed.

Lemma str_compare_trans a b c : str_compare a b = Lt -> str_compare b c = Lt -> str_compare a c = Lt.
Proof.
  revert b c. induction a as [|x a IH]; intros [|y b] [|z c]; simpl; try done.
  destruct (code x ?= code y) eqn:E1; destruct (code y ?= code z) eqn:E2; try done.
  - apply Z.compare_eq, code_inj in E1 as ->. rewrite E2. apply IH.
  - apply Z.compare_eq, code_inj in E1 as ->. by rewrite E2.
  - apply Z.compare_eq, code_inj in E2 as <-. by rewrite E1.
  - intros _ _. assert ((code x ?= code z) = Lt) as ->; [|done]. rewrite Z.compare_lt_iff in *. lia.
Qed.

(** ** Decimal numbers *)

Definition is_digits (s : bytes) : Prop := Forall (fun c => isdigit c = true) s.

Lemma lit_string c s : lit (String c s) = c :: lit s.
Proof. done. Qed.

Lemma pretty_char_digit d : (d < 10)%N -> isdigit (pretty_N_char d) = true /\ digit_val (pretty_N_char d) = Z.of_N d.
Proof.
  intros H. assert (d ∈ (N.of_nat <$> seq 0 10)) as Hd.
  { apply list_elem_of_fmap. exists (N.to_nat d). split; [lia|]. apply elem_of_seq. lia. }
  revert d Hd H. apply (Forall_forall (fun d => (d < 10)%N -> _)). repeat constructor.
Qed.

Lemma digits_val_app a b : digits_val 10 (a ++ b) = digits_val 10 a * 10 ^ Z.of_nat (length b) + digits_val 10 b.
Proof.
  unfold digits_val. rewrite foldl_app. generalize (foldl (fun acc c => acc * 10 + digit_val c) 0 a). intros n.
  induction b as [|c b IH] using rev_ind; simpl; [lia|]. rewrite !foldl_app, length_app. simpl. rewrite IH.
  replace (Z.of_nat (length b + 1)) with (Z.of_nat (length b) + 1) by lia. rewrite Z.pow_add_r by lia. lia.
Qed.

Lemma pretty_go_value x s :
  is_digits (lit s) ->
  is_digits (lit (pretty_N_go x s)) /\
  digits_val 10 (lit (pretty_N_go x s)) = Z.of_N x * 10 ^ Z.of_nat (length (lit s)) + digits_val 10 (lit s).
Proof.
  revert s. induction (N.lt_wf_0 x) as [x _ IH]; intros s Hs.
  assert (x = 0 \/ 0 < x)%N as [->|Hx] by lia; [rewrite pretty_N_go_0; split; [done|lia]|].
  rewrite pretty_N_go_step by done.
  destruct (pretty_char_digit (x `mod` 10)%N) as [D1 D2]; [by apply N.mod_lt|].
  destruct (IH (x `div` 10)%N ltac:(by apply N.div_lt) (String (pretty_N_char (x `mod` 10)) s)) as [H1 H2]; [by constructor|].
  split; [done|]. rewrite H2, lit_string. change (?c :: lit s) with ([c] ++ lit s) at 2. rewrite digits_val_app, length_cons.
  assert (digits_val 10 [pretty_N_char (x `mod` 10)] = Z.of_N (x `mod` 10)) as -> by exact D2.
  pose proof (N.div_mod x 10 ltac:(done)) as Hd. rewrite Nat2Z.inj_succ, Z.pow_succ_r by lia.
  assert (Z.of_N x = 10 * Z.of_N (x `div` 10) + Z.of_N (x `mod` 10)) as -> by lia. lia.
Qed.

Lemma to_string_value z : 0 <= z -> is_digits (to_string z) /\ digits_val 10 (to_string z) = z /\ to_string z <> [].
Proof.
  intros Hz. destruct z as [|p|p]; [by repeat constructor| |lia].
  change (to_string (Zpos p)) with (lit (pretty_N_go (Npos p) "")).
  destruct (pretty_go_value (Npos p) "" ltac:(constructor)) as [H1 H2]. change (lit "") with (@nil ascii) in H2.
  change (digits_val 10 []) with 0 in H2. simpl length in H2.
  assert (digits_val 10 (lit (pretty_N_go (N.pos p) "")) = Z.pos p) as H3 by lia.
  split_and!; [done|done|]. intros E. rewrite E in H3. done.
Qed.

(** Reading the digits back, with leading zeros. *)

Lemma digits_val_zeros n s : digits_val 10 (replicate n "0"%char ++ s) = digits_val 10 s.
Proof. induction n as [|n IH]; [done|]. exact IH. Qed.

Lemma read_digits s :
  is_digits s -> s <> [] -> cstr s = s /\ skip_while isspace s = s /\ read_sign s = (false, s) /\ span isdigit s = (s, []).
Proof.
  intros Hs Hne. destruct s as [|c r]; [done|]. pose proof Hs as Hs'. inv Hs.
  assert (forall d, isdigit d = true -> d <> NUL /\ isspace d = false /\ d <> "-"%char /\ d <> "+"%char) as Hd.
  { intros d Hd. split_and!; [by intros ->| |by intros ->|by intros ->].
    assert (negb (isdigit d) || negb (isspace d) = true) as H0 by by_bytes (fun d => negb (isdigit d) || negb (isspace d)) d.
    rewrite Hd in H0. by apply negb_true_iff. }
  split_and!.
  - apply cstr_id. intros Hn. by destruct (Hd NUL (proj1 (Forall_forall _ _) Hs' _ Hn)) as [[] _].
  - apply skip_while_stays. intros d [= <-]. by apply Hd.
  - unfold read_sign. rewrite !bool_decide_false by by apply Hd. done.
  - rewrite <- (app_nil_r (c :: r)) at 1. by rewrite span_split.
Qed.

Lemma stoull_digits s : is_digits s -> s <> [] -> digits_val 10 s < 2 ^ 64 -> from_option fst 0 (stoull s) = digits_val 10 s.
Proof.
  intros Hs Hne Hlt. unfold stoull. destruct (read_digits s Hs Hne) as (-> & -> & -> & ->).
  destruct s as [|c r]; [done|]. rewrite (proj2 (Z.ltb_lt _ _)) by done. simpl. apply Z.mod_small. split; [|done].
  clear Hlt Hne. revert Hs. generalize (c :: r). clear. intros s. induction s as [|c s IH] using rev_ind; [done|].
  intros [H1 H2]%Forall_app. rewrite digits_val_app. specialize (IH H1). inv H2.
  assert (0 <= digits_val 10 [c]) by (unfold digits_val, digit_val; simpl; rewrite H3; revert H3; unfold isdigit, in_range; lia).
  nia.
Qed.

(** ** Skipping *)

Lemma skip_while_cons p c s : skip_while p (c :: s) = if p c then skip_while p s else c :: s.
Proof. unfold skip_while. simpl. destruct (p c); [|done]. by destruct (span p s). Qed.
