(* ===== verification/StdMap.v ===== *)
(** * std::map with string keys

    A [std::map<std::string, V>] is the list of its pairs in iteration order,
    which is the order of the keys. [put] is assignment through [operator[]],
    [find] is lookup. *)

From S2P Require Import Prelude CText.

Module StdMap.

Section Maps.
Context {V : Type}.
Implicit Types (m : list (bytes * V)) (k : bytes) (v : V).

Fixpoint put k v m : list (bytes * V) :=
  match m with
  | [] => [(k, v)]
  | (k', v') :: r =>
      match str_compare k k' with
      | Lt => (k, v) :: m
      | Eq => (k, v) :: r
      | Gt => (k', v') :: put k v r
      end
  end.

Fixpoint find k m : option V :=
  match m with
  | [] => None
  | (k', v') :: r => if bool_decide (k = k') then Some v' else find k r
  end.

Definition key_lt (a b : bytes * V) : Prop := str_compare a.1 b.1 = Lt.

Definition sorted m : Prop := StronglySorted key_lt m.

Lemma str_compare_neq (a b : bytes) : str_compare a b <> Eq -> a <> b.
Proof. intros H ->. apply H, str_compare_refl. Qed.

Lemma find_put k v m k' : find k' (put k v m) = if bool_decide (k' = k) then Some v else find k' m.
Proof.
  induction m as [|[k1 v1] m IH]; [done|]. cbn [put].
  destruct (str_compare k k1) eqn:E; [|done|].
  - apply str_compare_eq in E as ->. cbn. repeat case_bool_decide; congruence.
  - assert (k <> k1) by (apply str_compare_neq; congruence).
    cbn. rewrite IH. repeat case_bool_decide; congruence.
Qed.

Lemma put_keys k v m p : p ∈ put k v m -> p.1 = k \/ p ∈ m.
Proof.
  induction m as [|[k1 v1] m IH]; cbn [put].
  - intros ->%list_elem_of_singleton. by left.
  - destruct (str_compare k k1); set_solver.
Qed.

Lemma put_sorted k v m : sorted m -> sorted (put k v m).
Proof.
  unfold sorted. induction m as [|[k1 v1] m IH]; [repeat constructor|].
  intros Hs. apply StronglySorted_inv in Hs as [Hs Hm]. cbn [put].
  destruct (str_compare k k1) eqn:E.
  - apply str_compare_eq in E as ->. by constructor.
  - constructor; [by constructor|]. constructor; [done|].
    eapply Forall_impl; [exact Hm|]. intros [k2 v2] H. exact (str_compare_trans _ _ _ E H).
  - constructor; [by apply IH|]. apply Forall_forall. intros [k2 v2] [Hk|Hin]%put_keys.
    + cbn in Hk. subst k2. unfold key_lt. cbn. by rewrite str_compare_antisym, E.
    + rewrite Forall_forall in Hm. by apply Hm in Hin.
Qed.

Lemma put_Forall (P : bytes * V -> Prop) k v m : P (k, v) -> Forall P m -> Forall P (put k v m).
Proof.
  intros Hk Hm. induction Hm as [|[k1 v1] m H1 Hm IH]; cbn [put]; [by repeat constructor|].
  destruct (str_compare k k1); by repeat constructor.
Qed.

Lemma find_Forall (P : bytes * V -> Prop) k v m : Forall P m -> find k m = Some v -> exists k', P (k', v).
Proof. induction 1 as [|[k' v'] m Hx Hm IH]; simpl; [done|]. intros E. repeat destr_in E; simplify_eq; eauto. Qed.

End Maps.

End StdMap.
