(* ===== verification/SearchCache.v ===== *)
(** * Search response cache: src/api/searchcache.cpp, include/api/searchcache.h

    The variables at file scope are one record [Cache] of four groups: the
    stored entries, the clocks, the limits and the counters. Every operation
    holds [CacheMutex], so that a concurrent run is a sequence of operations.
    [CurrentMS], which is read before the lock is taken, is an argument.
    [json::parse(Body).dump()] of the vendored library is an argument,
    [None] standing for the exception. 64-bit counters wrap. *)

From S2P Require Import Prelude CText StdMap.

Module SearchCache.

(** ** Requests and responses (include/api/httpserver.h) *)

Record HttpRequest := mkRequest {
  Method : bytes;
  Path : bytes;
  Version : bytes;
  RequestHeaders : list (bytes * bytes);
  RequestBody : bytes;
  RemoteAddress : bytes;
  RemotePort : Z;
  QueryParams : list (bytes * bytes);
  APIKeyID : bytes;
  EmbeddedFilters : bytes;
  Authenticated : bool
}.

Record HttpResponse := mkResponse {
  StatusCode : Z;
  StatusText : bytes;
  Headers : list (bytes * bytes);
  Body : bytes
}.

(** ** State *)

Record CacheEntry := mkEntry {
  Response : HttpResponse;
  Collection : bytes;
  CreatedMS : Z;
  EntryEpoch : Z;
  CollectionGeneration : Z;
  OrderSequence : Z;
  SizeBytes : Z
}.

Record CacheOrderEntry := mkOrder { Key : bytes; Sequence : Z }.

Record Stored := mkStored {
  Entries : gmap bytes CacheEntry;
  EntryOrder : list CacheOrderEntry;
  KeysByCollection : gmap bytes (gset bytes);
  CacheSizeBytes : Z
}.

Record Clocks := mkClocks {
  GlobalEpoch : Z;
  MutationClock : Z;
  OrderClock : Z;
  CollectionGenerations : gmap bytes Z
}.

Record Limits := mkLimits { CacheTTLMS : Z; CacheMaxSizeBytes : Z }.

Record Counters := mkCounters { CacheHits : Z; CacheMisses : Z; CacheExpired : Z; CacheEvictions : Z }.

Record Cache := mkCache { stored : Stored; clocks : Clocks; limits : Limits; counters : Counters }.

Definition u64 (z : Z) : Z := z mod 2 ^ 64.

Definition kDefaultSearchCacheTTLMS : Z := 3600 * 1000.

Definition kDefaultSearchCacheMaxSize : Z := 512 * 1024 * 1024.

Definition empty_store : Stored := mkStored ∅ [] ∅ 0.

Definition initial : Cache :=
  mkCache empty_store (mkClocks 1 1 1 ∅) (mkLimits kDefaultSearchCacheTTLMS kDefaultSearchCacheMaxSize)
    (mkCounters 0 0 0 0).

(** [sizeof(CacheEntry)] with libstdc++ on a 64-bit machine. *)

Definition sizeof_CacheEntry : Z := 192.

(** ** Keys *)

Definition CanonicalParams (Params : list (bytes * bytes)) : bytes :=
  foldl (fun Result Entry =>
    (if bool_decide (Result = []) then Result else Result ++ #"&") ++ Entry.1 ++ #"=" ++ Entry.2) [] Params.

Definition newline : bytes := [chr 10].

Section Keys.
Variable parse_dump : bytes -> option bytes.

Definition CanonicalBody (b : bytes) : bytes :=
  if bool_decide (b = []) then b else default b (parse_dump b).

Definition BuildKey (Namespace : bytes) (Request : HttpRequest) : bytes :=
  Namespace ++ newline ++ Method Request ++ newline ++ Path Request ++ newline ++
  CanonicalParams (QueryParams Request) ++ newline ++ CanonicalBody (RequestBody Request) ++ newline ++
  EmbeddedFilters Request ++ newline ++ APIKeyID Request.

(** ** The store *)

Definition drop_from_group (groups : gmap bytes (gset bytes)) (Group k : bytes) : gmap bytes (gset bytes) :=
  match groups !! Group with
  | None => groups
  | Some keys =>
      let keys := keys ∖ {[k]} in
      if bool_decide (keys = ∅) then delete Group groups else <[Group := keys]> groups
  end.

Definition RemoveKeyLocked (k : bytes) (s : Stored) : Stored :=
  match Entries s !! k with
  | None => s
  | Some e =>
      mkStored (delete k (Entries s)) (EntryOrder s)
        (drop_from_group (KeysByCollection s) (Collection e) k)
        (if CacheSizeBytes s <? SizeBytes e then 0 else CacheSizeBytes s - SizeBytes e)
  end.

(** The test that an order entry is the latest of a stored entry. *)

Definition live (s : Stored) (o : CacheOrderEntry) : bool :=
  match Entries s !! Key o with
  | None => false
  | Some e => OrderSequence e =? Sequence o
  end.

Definition set_order (order : list CacheOrderEntry) (s : Stored) : Stored :=
  mkStored (Entries s) order (KeysByCollection s) (CacheSizeBytes s).

Fixpoint trim_loop (MaxSize : Z) (order : list CacheOrderEntry) (s : Stored) (Evictions : Z) : Stored * Z :=
  match order with
  | [] => (set_order [] s, Evictions)
  | Candidate :: rest =>
      if MaxSize <? CacheSizeBytes s then
        if live s Candidate
        then trim_loop MaxSize rest (RemoveKeyLocked (Key Candidate) s) (u64 (Evictions + 1))
        else trim_loop MaxSize rest s Evictions
      else (set_order order s, Evictions)
  end.

Definition set_stored (s : Stored) (c : Cache) : Cache := mkCache s (clocks c) (limits c) (counters c).

Definition set_evictions (n : Z) (k : Counters) : Counters :=
  mkCounters (CacheHits k) (CacheMisses k) (CacheExpired k) n.

Definition TrimLocked (c : Cache) : Cache :=
  let r := trim_loop (CacheMaxSizeBytes (limits c)) (EntryOrder (stored c)) (stored c) (CacheEvictions (counters c)) in
  mkCache r.1 (clocks c) (limits c) (set_evictions r.2 (counters c)).

Definition CompactOrder (s : Stored) : Stored :=
  if Z.of_nat (length (EntryOrder s)) <=? Z.of_nat (base.size (Entries s)) * 2 + 1024 then s
  else set_order (base.filter (fun o => live s o = true) (EntryOrder s)) s.

Definition CompactOrderLocked (c : Cache) : Cache := set_stored (CompactOrder (stored c)) c.

Definition EstimateEntrySize (k : bytes) (r : HttpResponse) : Z :=
  foldl (fun Size Header => Size + size Header.1 + size Header.2)
    (size k + size (Body r) + size (StatusText r)) (Headers r) + sizeof_CacheEntry.

Definition CurrentGeneration (t : Clocks) (Coll : bytes) : Z :=
  Z.max (GlobalEpoch t) (default 0 (CollectionGenerations t !! Coll)).

(** ** Operations *)

Definition Configure (TTLMS MaxSizeBytes : Z) (c : Cache) : Cache :=
  TrimLocked (mkCache (stored c) (clocks c) (mkLimits (Z.max 1 TTLMS) (Z.max 1 MaxSizeBytes)) (counters c)).

Record Stats := mkStats {
  Hits : Z; Misses : Z; Expired : Z; Evictions : Z; StatEntries : Z; StatSizeBytes : Z }.

Definition GetStats (c : Cache) : Stats :=
  mkStats (CacheHits (counters c)) (CacheMisses (counters c)) (CacheExpired (counters c))
    (CacheEvictions (counters c)) (Z.of_nat (base.size (Entries (stored c)))) (CacheSizeBytes (stored c)).

Definition GetGeneration (Coll : bytes) (c : Cache) : Z := CurrentGeneration (clocks c) Coll.

Definition too_old (NowMS MaxAge : Z) (e : CacheEntry) : bool :=
  (NowMS <? CreatedMS e) || (MaxAge <=? NowMS - CreatedMS e).

Definition set_header (name value : bytes) (r : HttpResponse) : HttpResponse :=
  mkResponse (StatusCode r) (StatusText r) (StdMap.put name value (Headers r)) (Body r).

Definition count_miss (expired : bool) (k : Counters) : Counters :=
  mkCounters (CacheHits k) (u64 (CacheMisses k + 1))
    (if expired then u64 (CacheExpired k + 1) else CacheExpired k) (CacheEvictions k).

Definition count_hit (k : Counters) : Counters :=
  mkCounters (u64 (CacheHits k + 1)) (CacheMisses k) (CacheExpired k) (CacheEvictions k).

Definition tick_order (t : Clocks) : Clocks :=
  mkClocks (GlobalEpoch t) (MutationClock t) (u64 (OrderClock t + 1)) (CollectionGenerations t).

Definition set_sequence (n : Z) (e : CacheEntry) : CacheEntry :=
  mkEntry (Response e) (Collection e) (CreatedMS e) (EntryEpoch e) (CollectionGeneration e) n (SizeBytes e).

(** A hit moves the entry to the end of the order. *)

Definition touch (k : bytes) (e : CacheEntry) (n : Z) (s : Stored) : Stored :=
  mkStored (<[k := set_sequence n e]> (Entries s)) (EntryOrder s ++ [mkOrder k n])
    (KeysByCollection s) (CacheSizeBytes s).

Definition Get (NowMS : Z) (Namespace : bytes) (Request : HttpRequest) (Coll : bytes) (c : Cache)
    : Cache * option HttpResponse :=
  let k := BuildKey Namespace Request in
  match Entries (stored c) !! k with
  | None => (mkCache (stored c) (clocks c) (limits c) (count_miss false (counters c)), None)
  | Some e =>
      let ExpiredFlag := too_old NowMS (CacheTTLMS (limits c)) e in
      let GlobalStale := negb (EntryEpoch e =? GlobalEpoch (clocks c)) in
      let CollectionStale := negb (CollectionGeneration e =? CurrentGeneration (clocks c) Coll) in
      if ExpiredFlag || GlobalStale || CollectionStale then
        (mkCache (RemoveKeyLocked k (stored c)) (clocks c) (limits c) (count_miss ExpiredFlag (counters c)), None)
      else
        let t := tick_order (clocks c) in
        (mkCache (CompactOrder (touch k e (OrderClock t) (stored c))) t (limits c) (count_hit (counters c)),
         Some (set_header #"X-HLQ-Cache" #"hit" (Response e)))
  end.

(** [Entries[Key] = Entry] and the bookkeeping around it. *)

Definition store_entry (k : bytes) (e : CacheEntry) (s : Stored) : Stored :=
  let s := RemoveKeyLocked k s in
  mkStored (<[k := e]> (Entries s)) (EntryOrder s ++ [mkOrder k (OrderSequence e)])
    (<[Collection e := {[k]} ∪ default ∅ (KeysByCollection s !! Collection e)]> (KeysByCollection s))
    (u64 (CacheSizeBytes s + SizeBytes e)).

Definition new_entry (NowMS : Z) (k Coll : bytes) (r : HttpResponse) (t : Clocks) : CacheEntry :=
  let r := set_header #"X-HLQ-Cache" #"stored" r in
  mkEntry r Coll NowMS (GlobalEpoch t) (CurrentGeneration t Coll) (OrderClock t) (EstimateEntrySize k r).

Definition Put (NowMS : Z) (Namespace : bytes) (Request : HttpRequest) (Coll : bytes) (r : HttpResponse)
    (ExpectedGeneration : Z) (c : Cache) : Cache :=
  if negb (StatusCode r =? 200) then c
  else if negb (ExpectedGeneration =? 0) && negb (ExpectedGeneration =? CurrentGeneration (clocks c) Coll) then c
  else
    let k := BuildKey Namespace Request in
    let t := tick_order (clocks c) in
    CompactOrderLocked (TrimLocked
      (mkCache (store_entry k (new_entry NowMS k Coll r t) (stored c)) t (limits c) (counters c))).

Definition InvalidateAll (c : Cache) : Cache :=
  let n := u64 (MutationClock (clocks c) + 1) in
  mkCache empty_store (mkClocks n n (OrderClock (clocks c)) (CollectionGenerations (clocks c)))
    (limits c) (counters c).

(** Removal of several keys, in the order the hash table lists them. *)

Definition remove_keys (keys : list bytes) (s : Stored) : Stored := foldl (fun s k => RemoveKeyLocked k s) s keys.

Definition EraseGroup (Group : bytes) (s : Stored) : Stored :=
  match KeysByCollection s !! Group with
  | None => s
  | Some keys => remove_keys (elements keys) s
  end.

Definition wildcard_scope : bytes := #"*".

Definition InvalidateCollection (Coll : bytes) (c : Cache) : Cache :=
  if bool_decide (Coll = []) then InvalidateAll c
  else
    let t := clocks c in
    let Generation := u64 (MutationClock t + 1) in
    mkCache (EraseGroup wildcard_scope (EraseGroup Coll (stored c)))
      (mkClocks (GlobalEpoch t) Generation (OrderClock t)
         (<[wildcard_scope := Generation]> (<[Coll := Generation]> (CollectionGenerations t))))
      (limits c) (counters c).

Definition FlushExpired (NowMS MaxAgeMS : Z) (c : Cache) : Cache * Z :=
  let old := (map_to_list (Entries (stored c))).*1 in
  let old := base.filter (fun k => from_option (too_old NowMS MaxAgeMS) false (Entries (stored c) !! k) = true) old in
  let s := remove_keys old (stored c) in
  let s := if bool_decide (Entries s = ∅) then set_order [] s else s in
  (set_stored s c, Z.of_nat (length old)).

(** ** Runs *)

Inductive op :=
| OpConfigure (TTLMS MaxSizeBytes : Z)
| OpGet (NowMS : Z) (Namespace : bytes) (Request : HttpRequest) (Coll : bytes)
| OpPut (NowMS : Z) (Namespace : bytes) (Request : HttpRequest) (Coll : bytes) (r : HttpResponse) (Expected : Z)
| OpInvalidateCollection (Coll : bytes)
| OpInvalidateAll
| OpFlushExpired (NowMS MaxAgeMS : Z).

Definition step (c : Cache) (o : op) : Cache :=
  match o with
  | OpConfigure ttl max => Configure ttl max c
  | OpGet now ns r Coll => (Get now ns r Coll c).1
  | OpPut now ns r Coll resp g => Put now ns r Coll resp g c
  | OpInvalidateCollection Coll => InvalidateCollection Coll c
  | OpInvalidateAll => InvalidateAll c
  | OpFlushExpired now age => (FlushExpired now age c).1
  end.

Definition run (ops : list op) : Cache := foldl step initial ops.

End Keys.

End SearchCache.
