(* ===== verification/SearchCacheProps.v ===== *)
(** * Properties of the search response cache

    The parts of the cache's invariant ([groups_ok], [order_ok], [size_ok],
    [clocks_ok]) and the lemma of each operation; then the theorems on runs:
    freshness, the memory budget, the order of eviction, the round trip of
    [Put] and [Get], and the separation of API keys. *)

From S2P Require Import Prelude CText StdMap SearchCache.

Module SearchCacheProps.
Import SearchCache.

(** ** The invariant of the store *)

Definition group (s : Stored) (g : bytes) : gset bytes := default ∅ (KeysByCollection s !! g).

(** The groups list exactly the stored keys of each collection. *)

Definition groups_ok (s : Stored) : Prop :=
  forall g k, k ∈ group s g <-> exists e, Entries s !! k = Some e /\ Collection e = g.

Definition seq_lt (a b : CacheOrderEntry) : Prop := Sequence a < Sequence b.

(** Every entry has its place in the order, which is by sequence number. *)

Definition order_ok (order : list CacheOrderEntry) (s : Stored) : Prop :=
  StronglySorted seq_lt order /\
  forall k e, Entries s !! k = Some e -> mkOrder k (OrderSequence e) ∈ order.

Definition total (m : gmap bytes CacheEntry) : Z := map_fold (fun _ e n => SizeBytes e + n) 0 m.

Definition size_ok (s : Stored) : Prop :=
  CacheSizeBytes s = total (Entries s) /\ map_Forall (fun _ e => 0 <= SizeBytes e) (Entries s).

Lemma total_insert m k e : m !! k = None -> total (<[k := e]> m) = SizeBytes e + total m.
Proof. intros H. apply (map_fold_insert_L (fun _ e n => SizeBytes e + n)); [intros; lia|done]. Qed.

Lemma total_delete m k e : m !! k = Some e -> total m = SizeBytes e + total (delete k m).
Proof.
  intros H. rewrite <- (total_insert (delete k m) k e) by apply lookup_delete_eq. f_equal. symmetry. by apply insert_delete_id.
Qed.

Lemma total_nonneg m : map_Forall (fun _ e => 0 <= SizeBytes e) m -> 0 <= total m.
Proof.
  induction m as [|k e m Hk IH] using map_ind; [done|]. intros H.
  rewrite total_insert by done. apply map_Forall_insert in H as [He Hm]; [|done]. specialize (IH Hm). lia.
Qed.

(** ** Removal *)

Lemma lookup_drop_from_group groups g k g' :
  default ∅ (drop_from_group groups g k !! g') =
  if bool_decide (g' = g) then default ∅ (groups !! g') ∖ {[k]} else default ∅ (groups !! g').
Proof.
  unfold drop_from_group. destruct (groups !! g) as [keys|] eqn:E.
  - case_bool_decide as Hk; [destruct (decide (g' = g)) as [->|Hn]|destruct (decide (g' = g)) as [->|Hn]].
    + rewrite lookup_delete_eq, E. rewrite bool_decide_eq_true_2 by done. cbn. set_solver.
    + rewrite lookup_delete_ne, bool_decide_eq_false_2 by done. done.
    + rewrite lookup_insert_eq, E. by rewrite bool_decide_eq_true_2 by done.
    + rewrite lookup_insert_ne, bool_decide_eq_false_2 by done. done.
  - case_bool_decide; [|done]. subst. rewrite E. cbn. set_solver.
Qed.

Lemma Entries_remove k s : Entries (RemoveKeyLocked k s) = delete k (Entries s).
Proof.
  unfold RemoveKeyLocked. destruct (Entries s !! k) eqn:E; [done|]. symmetry. by apply delete_id.
Qed.

Lemma EntryOrder_remove k s : EntryOrder (RemoveKeyLocked k s) = EntryOrder s.
Proof. unfold RemoveKeyLocked. by destruct (Entries s !! k). Qed.

Lemma groups_ok_remove k s : groups_ok s -> groups_ok (RemoveKeyLocked k s).
Proof.
  intros H g k'. rewrite Entries_remove. unfold RemoveKeyLocked, group.
  destruct (Entries s !! k) as [e|] eqn:E.
  - cbn [KeysByCollection]. rewrite lookup_drop_from_group.
    destruct (decide (k' = k)) as [->|Hk].
    + rewrite lookup_delete_eq. split; [|naive_solver].
      case_bool_decide as Hg; [set_solver|]. intros Hin. apply H in Hin as (e' & He' & Hc). congruence.
    + rewrite lookup_delete_ne by done. rewrite <- (H g k'). unfold group. case_bool_decide; set_solver.
  - rewrite delete_id by done. apply H.
Qed.

Lemma order_ok_remove order k s : order_ok order s -> order_ok order (RemoveKeyLocked k s).
Proof.
  intros [Hs H]. split; [done|]. intros k' e. rewrite Entries_remove, lookup_delete_Some. naive_solver.
Qed.

Lemma size_ok_remove k s : size_ok s -> size_ok (RemoveKeyLocked k s).
Proof.
  intros [Hs Hp]. split; [|rewrite Entries_remove; by apply map_Forall_delete].
  rewrite Entries_remove. unfold RemoveKeyLocked. destruct (Entries s !! k) as [e|] eqn:E.
  - cbn [CacheSizeBytes]. pose proof (total_delete _ _ _ E) as Ht.
    pose proof (total_nonneg (delete k (Entries s)) (map_Forall_delete _ _ _ Hp)).
    destruct (Z.ltb_spec (CacheSizeBytes s) (SizeBytes e)); lia.
  - by rewrite delete_id.
Qed.

Lemma lookup_remove_keys ks s k :
  Entries (remove_keys ks s) !! k = if bool_decide (k ∈ ks) then None else Entries s !! k.
Proof.
  unfold remove_keys. revert s. induction ks as [|k1 ks IH]; intros s; cbn [foldl].
  - by rewrite bool_decide_eq_false_2 by apply not_elem_of_nil.
  - rewrite IH, Entries_remove. repeat case_bool_decide; rewrite ?elem_of_cons, ?lookup_delete_Some in *; try done.
    + tauto.
    + destruct (decide (k = k1)) as [->|]; [apply lookup_delete_eq|tauto].
    + rewrite lookup_delete_ne; [done|]. naive_solver.
Qed.

(** What removal keeps, any list of removals keeps. *)

Lemma remove_keys_ind (P : Stored -> Prop) ks s :
  (forall k s, P s -> P (RemoveKeyLocked k s)) -> P s -> P (remove_keys ks s).
Proof. intros Hk. unfold remove_keys. revert s. induction ks; cbn; auto. Qed.

Lemma EntryOrder_remove_keys ks s : EntryOrder (remove_keys ks s) = EntryOrder s.
Proof. apply remove_keys_ind; [|done]. intros k s' <-. apply EntryOrder_remove. Qed.

Lemma remove_keys_app a b s : remove_keys (a ++ b) s = remove_keys b (remove_keys a s).
Proof. apply foldl_app. Qed.

(** Two removals of the same set of keys leave the same entries and size. *)

Lemma remove_keys_set ks ks' s :
  (forall k, k ∈ ks <-> k ∈ ks') -> size_ok s ->
  Entries (remove_keys ks s) = Entries (remove_keys ks' s) /\
  CacheSizeBytes (remove_keys ks s) = CacheSizeBytes (remove_keys ks' s).
Proof.
  intros Hk Hs.
  assert (He : Entries (remove_keys ks s) = Entries (remove_keys ks' s)).
  { apply map_eq. intros k. rewrite !lookup_remove_keys. by rewrite (bool_decide_ext _ _ (Hk k)). }
  split; [done|].
  destruct (remove_keys_ind size_ok ks s size_ok_remove Hs) as [-> _].
  destruct (remove_keys_ind size_ok ks' s size_ok_remove Hs) as [-> _]. by rewrite He.
Qed.

(** ** Trimming *)

Lemma live_spec s o :
  live s o = true <-> exists e, Entries s !! Key o = Some e /\ OrderSequence e = Sequence o.
Proof.
  unfold live. destruct (Entries s !! Key o) as [e|]; [rewrite Z.eqb_eq|]; naive_solver.
Qed.

Lemma seq_lt_elem o order a : StronglySorted seq_lt (o :: order) -> a ∈ order -> Sequence o < Sequence a.
Proof. intros [H _]%StronglySorted_cons Ha. rewrite Forall_forall in H. by apply H. Qed.

(** After the candidate at the front is evicted, the others are live as before. *)

Lemma live_after_evict s o order a :
  StronglySorted seq_lt (o :: order) -> live s o = true -> a ∈ order ->
  live (RemoveKeyLocked (Key o) s) a = live s a.
Proof.
  intros Hs Ho Ha. apply seq_lt_elem with (a := a) in Hs; [|done].
  apply live_spec in Ho as (e & He & Hse).
  unfold live. rewrite Entries_remove. destruct (decide (Key a = Key o)) as [Hk|Hk].
  - rewrite Hk, lookup_delete_eq, He. symmetry. apply Z.eqb_neq. lia.
  - by rewrite lookup_delete_ne by congruence.
Qed.

Lemma filter_live_after_evict s o order :
  StronglySorted seq_lt (o :: order) -> live s o = true ->
  base.filter (fun a => live (RemoveKeyLocked (Key o) s) a = true) order = base.filter (fun a => live s a = true) order.
Proof.
  intros Hs Ho. assert (H : forall a, a ∈ order -> live (RemoveKeyLocked (Key o) s) a = live s a)
    by (intros a; by apply live_after_evict with (order := order)).
  clear Hs. induction order as [|b order IH]; [done|].
  rewrite !filter_cons, H by set_solver. rewrite IH by set_solver. done.
Qed.

(** The keys evicted with a part of the order. *)

Definition evicted (s : Stored) (pre : list CacheOrderEntry) : list bytes :=
  Key <$> base.filter (fun o => live s o = true) pre.

(** Trimming evicts the live keys of a prefix of the order, the one it needs. *)

Lemma trim_loop_spec Max order s n :
  StronglySorted seq_lt order ->
  exists pre order',
    order = pre ++ order' /\
    (trim_loop Max order s n).1 = set_order order' (remove_keys (evicted s pre) s) /\
    (order' = [] \/ CacheSizeBytes (remove_keys (evicted s pre) s) <= Max) /\
    (forall ks k ks', evicted s pre = ks ++ k :: ks' -> Max < CacheSizeBytes (remove_keys ks s)).
Proof.
  revert s n. induction order as [|o order IH]; intros s n Hs; cbn [trim_loop].
  { exists [], []. repeat split; [by left|]. intros [|??] k ks'; discriminate. }
  destruct (Z.ltb_spec Max (CacheSizeBytes s)).
  2:{ exists [], (o :: order). repeat split; [by right|]. intros [|??] k ks'; discriminate. }
  pose proof Hs as [_ Hs']%StronglySorted_cons.
  destruct (live s o) eqn:Ho.
  - destruct (IH (RemoveKeyLocked (Key o) s) (u64 (n + 1)) Hs') as (pre & order' & -> & Ht & Hm & Hn).
    assert (He : evicted (RemoveKeyLocked (Key o) s) pre = evicted s pre).
    { unfold evicted. f_equal. apply filter_live_after_evict; [|done].
      rewrite app_comm_cons in Hs. by apply StronglySorted_app_1_l in Hs. }
    rewrite He in Ht, Hm, Hn.
    assert (Hc : evicted s (o :: pre) = Key o :: evicted s pre).
    { unfold evicted. by rewrite filter_cons_True. }
    exists (o :: pre), order'. rewrite Hc. repeat split; [exact Ht|exact Hm|].
    intros [|k1 ks] k ks'; cbn; [lia|]. intros [= <- Heq]. exact (Hn _ _ _ Heq).
  - destruct (IH s n Hs') as (pre & order' & -> & Ht & Hm & Hn).
    assert (Hc : evicted s (o :: pre) = evicted s pre).
    { unfold evicted. by rewrite filter_cons_False by (rewrite Ho; done). }
    exists (o :: pre), order'. rewrite Hc. repeat split; done.
Qed.

Lemma elem_of_evicted s pre k :
  k ∈ evicted s pre <-> exists e, Entries s !! k = Some e /\ mkOrder k (OrderSequence e) ∈ pre.
Proof.
  unfold evicted. rewrite list_elem_of_fmap. setoid_rewrite list_elem_of_filter. setoid_rewrite live_spec. split.
  - intros (o & -> & (e & He & Hs) & Ho). exists e. split; [done|]. rewrite Hs. by destruct o.
  - intros (e & He & Ho). exists (mkOrder k (OrderSequence e)). naive_solver.
Qed.

Lemma order_ok_suffix pre order s :
  order_ok (pre ++ order) s -> order_ok order (remove_keys (evicted s pre) s).
Proof.
  intros [Hs H]. split; [by apply StronglySorted_app_1_r in Hs|].
  intros k e. rewrite lookup_remove_keys. case_bool_decide as Hk; [done|]. intros He.
  specialize (H _ _ He). rewrite elem_of_app in H. destruct H as [H|H]; [|done].
  exfalso. apply Hk, elem_of_evicted. eauto.
Qed.

(** An entry whose place is not in the order is not there: the budget is met. *)

Lemma no_order_no_entries s : order_ok [] s -> Entries s = ∅.
Proof.
  intros [_ H]. apply map_empty. intros k. apply eq_None_not_Some. intros [e He].
  apply H in He. by apply not_elem_of_nil in He.
Qed.

(** ** Compaction *)

Lemma StronglySorted_filter {A} (R : A -> A -> Prop) (P : A -> Prop) `{!forall x, Decision (P x)} l :
  StronglySorted R l -> StronglySorted R (base.filter P l).
Proof.
  induction l as [|x l IH]; [done|]. intros [Hx Hs]%StronglySorted_cons. rewrite filter_cons.
  case_decide; [|by apply IH]. constructor; [by apply IH|].
  apply Forall_forall. intros y [_ Hy]%list_elem_of_filter. rewrite Forall_forall in Hx. by apply Hx.
Qed.

Lemma Entries_compact s : Entries (CompactOrder s) = Entries s.
Proof. unfold CompactOrder. by destr_goal. Qed.

Lemma CacheSizeBytes_compact s : CacheSizeBytes (CompactOrder s) = CacheSizeBytes s.
Proof. unfold CompactOrder. by destr_goal. Qed.

Lemma group_compact s g : group (CompactOrder s) g = group s g.
Proof. unfold CompactOrder. by destr_goal. Qed.

Lemma elem_of_compact s o : o ∈ EntryOrder (CompactOrder s) -> o ∈ EntryOrder s.
Proof. unfold CompactOrder. destr_goal; [done|]. cbn. by intros [_ H]%list_elem_of_filter. Qed.

Lemma order_ok_compact s : order_ok (EntryOrder s) s -> order_ok (EntryOrder (CompactOrder s)) (CompactOrder s).
Proof.
  intros [Hs H]. unfold CompactOrder. destr_goal; [done|]. split; cbn.
  - by apply StronglySorted_filter.
  - intros k e He. apply list_elem_of_filter. split; [|by apply H]. apply live_spec. eauto.
Qed.

(** ** The invariant of the cache *)

Record store_ok (t : Clocks) (s : Stored) : Prop := {
  so_groups : groups_ok s;
  so_order : order_ok (EntryOrder s) s;
  so_clock : Forall (fun o => Sequence o <= OrderClock t) (EntryOrder s);
  so_epoch : map_Forall (fun _ e => EntryEpoch e = GlobalEpoch t) (Entries s);
  so_fresh : map_Forall (fun _ e => CollectionGeneration e = CurrentGeneration t (Collection e)) (Entries s)
}.

Definition clocks_ok (t : Clocks) : Prop :=
  1 <= GlobalEpoch t <= MutationClock t /\ 1 <= OrderClock t /\
  map_Forall (fun _ n => n <= MutationClock t) (CollectionGenerations t).

(** No clock is past [n]: with [n] below the width of the counters, the next
    tick does not wrap. *)

Definition within (n : Z) (c : Cache) : Prop := MutationClock (clocks c) <= n /\ OrderClock (clocks c) <= n.

Definition cache_ok (c : Cache) : Prop := store_ok (clocks c) (stored c) /\ clocks_ok (clocks c).

Lemma u64_id z : 0 <= z < 2 ^ 64 -> u64 z = z.
Proof. apply Z.mod_small. Qed.

Lemma store_ok_empty t : store_ok t empty_store.
Proof.
  split; [| |by constructor|apply map_Forall_empty|apply map_Forall_empty].
  - intros g k. unfold group. cbn. rewrite lookup_empty. cbn. setoid_rewrite lookup_empty. set_solver.
  - split; [by constructor|]. intros k e. cbn. by rewrite lookup_empty.
Qed.

Lemma store_ok_remove t k s : store_ok t s -> store_ok t (RemoveKeyLocked k s).
Proof.
  intros [Hg Ho Hc He Hf]. split.
  - by apply groups_ok_remove.
  - rewrite EntryOrder_remove. by apply order_ok_remove.
  - by rewrite EntryOrder_remove.
  - rewrite Entries_remove. by apply map_Forall_delete.
  - rewrite Entries_remove. by apply map_Forall_delete.
Qed.

Lemma store_ok_remove_keys t ks s : store_ok t s -> store_ok t (remove_keys ks s).
Proof. apply remove_keys_ind. intros k s'. apply store_ok_remove. Qed.

(** A store with another order that still has every entry in its place. *)

Lemma store_ok_set_order t order s :
  store_ok t s -> order_ok order s -> Forall (fun o => Sequence o <= OrderClock t) order ->
  store_ok t (set_order order s).
Proof. by intros [Hg Ho Hc He Hf] H1 H2. Qed.

Lemma store_ok_trim t Max s n : store_ok t s -> store_ok t (trim_loop Max (EntryOrder s) s n).1.
Proof.
  intros H. destruct (trim_loop_spec Max (EntryOrder s) s n (proj1 (so_order _ _ H))) as (pre & order & Ho & -> & _).
  apply store_ok_set_order.
  - by apply store_ok_remove_keys.
  - apply order_ok_suffix. rewrite <- Ho. apply (so_order _ _ H).
  - pose proof (so_clock _ _ H) as Hc. rewrite Ho in Hc. by apply Forall_app in Hc as [_ Hc].
Qed.

Lemma store_ok_compact t s : store_ok t s -> store_ok t (CompactOrder s).
Proof.
  intros [Hg Ho Hc He Hf]. split; rewrite ?Entries_compact; try done.
  - intros g k. rewrite group_compact, Entries_compact. apply Hg.
  - by apply order_ok_compact.
  - apply Forall_forall. intros o Hin. rewrite Forall_forall in Hc. by apply Hc, elem_of_compact.
Qed.

(** A new sequence number goes to the end of the order. *)

Lemma order_ok_push t s s' k e :
  order_ok (EntryOrder s) s -> Forall (fun o => Sequence o <= OrderClock t) (EntryOrder s) ->
  Entries s' = <[k := e]> (Entries s) -> OrderClock t < OrderSequence e ->
  order_ok (EntryOrder s ++ [mkOrder k (OrderSequence e)]) s'.
Proof.
  intros [Hs Ho] Hc He Hlt. split.
  - apply StronglySorted_app_2; [|done|repeat constructor].
    intros a b Ha ->%list_elem_of_singleton. rewrite Forall_forall in Hc. specialize (Hc a Ha).
    unfold seq_lt. cbn. lia.
  - intros k' e'. rewrite He, lookup_insert_Some, elem_of_app, list_elem_of_singleton.
    intros [[<- <-]|[_ H]]; [by right|left; by apply Ho].
Qed.

Lemma seqs_push t n s k :
  Forall (fun o => Sequence o <= OrderClock t) (EntryOrder s) -> OrderClock t <= n ->
  Forall (fun o => Sequence o <= n) (EntryOrder s ++ [mkOrder k n]).
Proof.
  intros Hc Hn. apply Forall_app. split; [|repeat constructor; cbn; lia].
  eapply Forall_impl; [exact Hc|]. cbn. lia.
Qed.

Lemma OrderClock_tick t : 1 <= OrderClock t < 2 ^ 64 - 1 -> OrderClock (tick_order t) = OrderClock t + 1.
Proof. intros H. apply u64_id. lia. Qed.

Lemma store_ok_touch t k e s :
  store_ok t s -> 1 <= OrderClock t < 2 ^ 64 - 1 -> Entries s !! k = Some e ->
  store_ok (tick_order t) (touch k e (OrderClock (tick_order t)) s).
Proof.
  intros [Hg Ho Hc He Hf] Ht Hk. pose proof (OrderClock_tick t Ht) as Hn. split.
  - intros g k'. rewrite (Hg g k'). cbn [touch Entries]. setoid_rewrite lookup_insert_Some. split.
    + intros (e' & He' & Hc'). destruct (decide (k = k')) as [<-|]; [|naive_solver].
      exists (set_sequence (OrderClock (tick_order t)) e). split; [by left|]. by simplify_eq.
    + intros (e' & [[<- <-]|[_ He']] & Hc'); eauto.
  - apply (order_ok_push t s _ k (set_sequence (OrderClock (tick_order t)) e)); [done|done|done|].
    cbn [OrderSequence set_sequence]. lia.
  - apply (seqs_push t); [done|lia].
  - apply map_Forall_insert_2; [exact (He k e Hk)|done].
  - apply map_Forall_insert_2; [exact (Hf k e Hk)|done].
Qed.

Lemma group_insert s g k g' m order n :
  group (mkStored m order (<[g := {[k]} ∪ group s g]> (KeysByCollection s)) n) g' =
  if bool_decide (g' = g) then {[k]} ∪ group s g' else group s g'.
Proof.
  unfold group. cbn. case_bool_decide as Hg; [subst; by rewrite lookup_insert_eq|].
  by rewrite lookup_insert_ne.
Qed.

Lemma store_ok_store_entry t k e s :
  store_ok t s -> 1 <= OrderClock t < 2 ^ 64 - 1 ->
  EntryEpoch e = GlobalEpoch t -> CollectionGeneration e = CurrentGeneration t (Collection e) ->
  OrderSequence e = OrderClock (tick_order t) ->
  store_ok (tick_order t) (store_entry k e s).
Proof.
  intros H Ht He1 He2 He3. apply (store_ok_remove t k) in H. revert H. unfold store_entry.
  assert (Hk : Entries (RemoveKeyLocked k s) !! k = None) by (rewrite Entries_remove; apply lookup_delete_eq).
  revert Hk. generalize (RemoveKeyLocked k s). clear s. intros s Hk [Hg Ho Hc He Hf].
  pose proof (OrderClock_tick t Ht) as Hn. split.
  - intros g k'. change (default ∅ (KeysByCollection s !! Collection e)) with (group s (Collection e)).
    rewrite group_insert. cbn [Entries]. setoid_rewrite lookup_insert_Some.
    destruct (decide (k = k')) as [<-|Hne].
    + transitivity (g = Collection e); [|naive_solver].
      assert (k ∉ group s g) by (rewrite (Hg g k), Hk; naive_solver). case_bool_decide; set_solver.
    + transitivity (k' ∈ group s g); [case_bool_decide; set_solver|]. rewrite (Hg g k'). naive_solver.
  - apply (order_ok_push t s _ k e); [done|done|done|lia].
  - cbn [EntryOrder]. rewrite He3. apply (seqs_push t); [done|lia].
  - by apply map_Forall_insert_2.
  - by apply map_Forall_insert_2.
Qed.

(** ** Invalidation *)

Lemma lookup_EraseGroup s g k e :
  groups_ok s -> Entries (EraseGroup g s) !! k = Some e <-> Entries s !! k = Some e /\ Collection e <> g.
Proof.
  intros H. unfold EraseGroup. pose proof (H g k) as Hk. unfold group in Hk.
  destruct (KeysByCollection s !! g) as [keys|] eqn:E; cbn in Hk.
  - rewrite lookup_remove_keys. case_bool_decide as Hin; rewrite elem_of_elements in Hin; naive_solver.
  - split; [|by intros []]. intros He. split; [done|]. intros Hc. set_solver.
Qed.

Lemma store_ok_EraseGroup t g s : store_ok t s -> store_ok t (EraseGroup g s).
Proof. intros H. unfold EraseGroup. destr_goal; [|done]. by apply store_ok_remove_keys. Qed.

(** The clocks after a mutation of one collection. *)

Definition bump (Coll : bytes) (t : Clocks) : Clocks :=
  mkClocks (GlobalEpoch t) (u64 (MutationClock t + 1)) (OrderClock t)
    (<[wildcard_scope := u64 (MutationClock t + 1)]> (<[Coll := u64 (MutationClock t + 1)]> (CollectionGenerations t))).

Lemma CurrentGeneration_bump Coll t g :
  clocks_ok t -> MutationClock t < 2 ^ 64 - 1 ->
  CurrentGeneration (bump Coll t) g =
  if bool_decide (g = wildcard_scope \/ g = Coll) then MutationClock t + 1 else CurrentGeneration t g.
Proof.
  intros ([H1 H2] & _) Hn. unfold CurrentGeneration, bump. cbn. rewrite u64_id by lia.
  case_bool_decide as Hg; rewrite lookup_insert, lookup_insert; repeat case_decide; cbn; try naive_solver; lia.
Qed.

Lemma store_ok_InvalidateCollection t Coll s :
  store_ok t s -> clocks_ok t -> MutationClock t < 2 ^ 64 - 1 ->
  store_ok (bump Coll t) (EraseGroup wildcard_scope (EraseGroup Coll s)).
Proof.
  intros H Ht Hn. pose proof (store_ok_EraseGroup t Coll s H) as H1.
  destruct (store_ok_EraseGroup t wildcard_scope _ H1) as [Hg Ho Hc He Hf].
  split; [done|done|done|done|]. intros k e Hk. rewrite CurrentGeneration_bump by done.
  rewrite bool_decide_eq_false_2; [exact (Hf k e Hk)|].
  apply lookup_EraseGroup in Hk as [Hk Hw]; [|apply H1].
  apply lookup_EraseGroup in Hk as [_ Hc']; [|apply H]. tauto.
Qed.

Lemma InvalidateCollection_nonempty Coll c :
  Coll <> [] ->
  InvalidateCollection Coll c =
  mkCache (EraseGroup wildcard_scope (EraseGroup Coll (stored c))) (bump Coll (clocks c)) (limits c) (counters c).
Proof. intros H. unfold InvalidateCollection. by rewrite bool_decide_eq_false_2. Qed.

Lemma clocks_ok_bump Coll t : clocks_ok t -> MutationClock t < 2 ^ 64 - 1 -> clocks_ok (bump Coll t).
Proof.
  intros (H1 & H2 & H3) Hn. unfold bump. rewrite u64_id by lia. split_and!; cbn; [lia|lia|lia|].
  do 2 (apply map_Forall_insert_2; [lia|]). eapply map_Forall_impl; [exact H3|]. cbn. lia.
Qed.

(** ** Every operation keeps the invariant *)

Section Runs.
Variable parse_dump : bytes -> option bytes.

Abbreviation BuildKey := (BuildKey parse_dump).
Abbreviation Get := (Get parse_dump).
Abbreviation Put := (Put parse_dump).
Abbreviation step := (step parse_dump).
Abbreviation run := (run parse_dump).

Definition kept (n : Z) (c : Cache) : Prop := cache_ok c /\ within n c.

Lemma kept_store n s c k l :
  kept n c -> store_ok (clocks c) s -> kept n (mkCache s (clocks c) l k).
Proof. by intros [[_ Ht] Hw] Hs. Qed.

Lemma kept_tick n s c k l :
  kept n c -> n < 2 ^ 64 - 1 -> store_ok (tick_order (clocks c)) s ->
  kept (n + 1) (mkCache s (tick_order (clocks c)) l k).
Proof.
  intros [[_ (H1 & H2 & H3)] [Hw1 Hw2]] Hn Hs. unfold kept, cache_ok, within, clocks_ok.
  cbn [clocks stored GlobalEpoch MutationClock CollectionGenerations tick_order].
  pose proof (OrderClock_tick (clocks c) ltac:(lia)) as Ht. cbn [OrderClock tick_order] in Ht |- *.
  rewrite Ht. repeat split; try done; try lia; apply Hs.
Qed.

Lemma kept_le n m c : kept n c -> n <= m -> kept m c.
Proof. intros [H [H1 H2]] Hle. split; [done|]. split; lia. Qed.

Lemma kept_OrderClock n c : kept n c -> n < 2 ^ 64 - 1 -> 1 <= OrderClock (clocks c) < 2 ^ 64 - 1.
Proof. intros [[_ (_ & H & _)] [_ Hw]] Hn. lia. Qed.

Lemma TrimLocked_kept n c : kept n c -> kept n (TrimLocked c).
Proof. intros H. unfold TrimLocked. apply kept_store; [done|]. apply store_ok_trim, H. Qed.

Lemma CompactOrderLocked_kept n c : kept n c -> kept n (CompactOrderLocked c).
Proof. intros H. apply kept_store; [done|]. apply store_ok_compact, H. Qed.

Lemma Configure_kept n ttl max c : kept n c -> kept n (Configure ttl max c).
Proof. intros H. apply TrimLocked_kept. by apply kept_store; [|apply H]. Qed.

Lemma Get_kept n now ns r Coll c :
  kept n c -> n < 2 ^ 64 - 1 -> kept (n + 1) (Get now ns r Coll c).1.
Proof.
  intros H Hn. unfold SearchCache.Get. destruct (Entries (stored c) !! _) as [e|] eqn:E.
  - destr_goal; cbn [fst].
    + apply (kept_le n); [|lia]. apply kept_store; [done|]. apply store_ok_remove, H.
    + apply kept_tick; [done|done|]. apply store_ok_compact, store_ok_touch; [apply H| |done].
      by apply (kept_OrderClock n).
  - cbn [fst]. apply (kept_le n); [|lia]. by apply kept_store; [|apply H].
Qed.

Lemma Put_kept n now ns r Coll resp g c :
  kept n c -> n < 2 ^ 64 - 1 -> kept (n + 1) (Put now ns r Coll resp g c).
Proof.
  intros H Hn. unfold SearchCache.Put. do 2 (destr_goal; [apply (kept_le n); [done|lia]|]).
  apply CompactOrderLocked_kept, TrimLocked_kept. apply kept_tick; [done|done|].
  apply store_ok_store_entry; [apply H|by apply (kept_OrderClock n)|done|done|done].
Qed.

Lemma InvalidateAll_kept n c : kept n c -> n < 2 ^ 64 - 1 -> kept (n + 1) (InvalidateAll c).
Proof.
  intros [[_ (H1 & H2 & H3)] [Hw1 Hw2]] Hn. unfold InvalidateAll. rewrite u64_id by lia.
  split; [split; [apply store_ok_empty|]|split; cbn; lia].
  split_and!; cbn; [lia|lia|lia|]. eapply map_Forall_impl; [exact H3|]. cbn. lia.
Qed.

Lemma InvalidateCollection_kept n Coll c :
  kept n c -> n < 2 ^ 64 - 1 -> kept (n + 1) (InvalidateCollection Coll c).
Proof.
  intros H Hn. destruct (decide (Coll = [])) as [->|Hc]; [by apply InvalidateAll_kept|].
  rewrite InvalidateCollection_nonempty by done. destruct H as [[Hs Ht] [Hw1 Hw2]].
  split; [split; cbn [stored clocks]|].
  - apply store_ok_InvalidateCollection; [done|done|lia].
  - apply clocks_ok_bump; [done|lia].
  - destruct Ht as (Ht & _). split; unfold bump; cbn; rewrite ?u64_id; lia.
Qed.

Lemma FlushExpired_kept n now age c : kept n c -> kept n (FlushExpired now age c).1.
Proof.
  intros H. unfold FlushExpired. cbn [fst]. apply kept_store; [done|].
  match goal with |- context [remove_keys ?l _] => pose proof (store_ok_remove_keys _ l _ (proj1 (proj1 H))) as Hs end.
  case_bool_decide as He; [|exact Hs]. apply store_ok_set_order; [done| |constructor].
  split; [constructor|]. intros k e. by rewrite He, lookup_empty.
Qed.

Lemma step_kept n c o : kept n c -> n < 2 ^ 64 - 1 -> kept (n + 1) (step c o).
Proof.
  intros H Hn. destruct o; cbn [SearchCache.step].
  - apply (kept_le n); [by apply Configure_kept|lia].
  - by apply Get_kept.
  - by apply Put_kept.
  - by apply InvalidateCollection_kept.
  - by apply InvalidateAll_kept.
  - apply (kept_le n); [by apply FlushExpired_kept|lia].
Qed.

Lemma run_snoc h o : run (h ++ [o]) = step (run h) o.
Proof. unfold SearchCache.run. by rewrite foldl_app. Qed.

Lemma run_kept h : Z.of_nat (length h) < 2 ^ 64 - 2 -> kept (1 + Z.of_nat (length h)) (run h).
Proof.
  induction h as [|o h IH] using rev_ind.
  - intros _. split; [split; [apply store_ok_empty|]|split; cbn; lia].
    split_and!; cbn; [lia|lia|lia|]. apply map_Forall_empty.
  - rewrite length_app, run_snoc. cbn [length]. intros Hl.
    replace (1 + Z.of_nat (length h + 1)) with (1 + Z.of_nat (length h) + 1) by lia.
    apply step_kept; [apply IH|]; lia.
Qed.


(** ** Where an entry comes from *)

(** The mutations after which what was computed for a collection is stale. *)

Definition invalidates (Coll : bytes) (o : op) : bool :=
  match o with
  | OpInvalidateAll => true
  | OpInvalidateCollection g => bool_decide (g = [] \/ Coll = wildcard_scope \/ Coll = g)
  | _ => false
  end.

(** A [Put] of the key that passes the guards. *)

Definition accepts (c : Cache) (k : bytes) (o : op) : bool :=
  match o with
  | OpPut _ ns r Coll resp g =>
      bool_decide (BuildKey ns r = k) && (StatusCode resp =? 200) && ((g =? 0) || (g =? GetGeneration Coll c))
  | _ => false
  end.

(** Equal up to the sequence number that a hit refreshes. *)

Definition same_entry (a b : CacheEntry) : Prop := a = set_sequence (OrderSequence a) b.

Lemma trim_lookup Max order s n k e :
  StronglySorted seq_lt order ->
  Entries (trim_loop Max order s n).1 !! k = Some e -> Entries s !! k = Some e.
Proof.
  intros Hs. destruct (trim_loop_spec Max order s n Hs) as (pre & order' & -> & -> & _).
  cbn. rewrite lookup_remove_keys. by case_bool_decide.
Qed.

Lemma Put_rejected now ns r Coll resp g c :
  accepts c (BuildKey ns r) (OpPut now ns r Coll resp g) = false -> Put now ns r Coll resp g c = c.
Proof.
  unfold accepts, SearchCache.Put. rewrite bool_decide_eq_true_2 by done. intros H.
  destruct (Z.eqb_spec (StatusCode resp) 200); [|done]. cbn in H |- *. unfold GetGeneration in H.
  by destruct (g =? 0), (g =? CurrentGeneration (clocks c) Coll).
Qed.

Lemma Put_accepted now ns r Coll resp g c :
  accepts c (BuildKey ns r) (OpPut now ns r Coll resp g) = true ->
  Put now ns r Coll resp g c =
  CompactOrderLocked (TrimLocked (mkCache
    (store_entry (BuildKey ns r) (new_entry now (BuildKey ns r) Coll resp (tick_order (clocks c))) (stored c))
    (tick_order (clocks c)) (limits c) (counters c))).
Proof.
  unfold accepts, SearchCache.Put. rewrite bool_decide_eq_true_2 by done. intros H.
  destruct (Z.eqb_spec (StatusCode resp) 200); [|done]. cbn in H |- *. unfold GetGeneration in H.
  by destruct (g =? 0), (g =? CurrentGeneration (clocks c) Coll).
Qed.

Lemma Put_lookup n now ns r Coll resp g c k e :
  kept n c -> n < 2 ^ 64 - 1 -> Entries (stored (Put now ns r Coll resp g c)) !! k = Some e ->
  (Entries (stored c) !! k = Some e /\ accepts c k (OpPut now ns r Coll resp g) = false) \/
  (accepts c k (OpPut now ns r Coll resp g) = true /\ e = new_entry now k Coll resp (tick_order (clocks c))).
Proof.
  intros Hc Hn. set (k' := BuildKey ns r).
  destruct (accepts c k' (OpPut now ns r Coll resp g)) eqn:Ha.
  2:{ rewrite Put_rejected by done. intros He. left. split; [done|].
      revert Ha. unfold accepts. rewrite bool_decide_eq_true_2 by done. case_bool_decide; [done|].
      done. }
  rewrite Put_accepted by done. unfold CompactOrderLocked, TrimLocked.
  cbn [stored set_stored]. rewrite Entries_compact. intros He%trim_lookup.
  - revert He. unfold store_entry. cbn [Entries]. rewrite lookup_insert_Some, Entries_remove, lookup_delete_Some.
    intros [[<- <-]|[Hne [_ He]]]; [by right|]. left. split; [done|].
    unfold accepts. by rewrite bool_decide_eq_false_2.
  - apply (store_ok_store_entry (clocks c) k' _ (stored c)); [apply Hc|by apply (kept_OrderClock n)|done|done|done].
Qed.

Lemma Get_lookup now ns r Coll c k e :
  Entries (stored (Get now ns r Coll c).1) !! k = Some e ->
  exists e', Entries (stored c) !! k = Some e' /\ same_entry e e'.
Proof.
  assert (Hsame : forall e', same_entry e' e') by (by intros []).
  unfold SearchCache.Get. destruct (Entries (stored c) !! BuildKey ns r) as [e1|] eqn:E; [|cbn; eauto].
  destr_goal; cbn [fst stored].
  - rewrite Entries_remove, lookup_delete_Some. naive_solver.
  - rewrite Entries_compact. cbn [touch Entries]. rewrite lookup_insert_Some.
    intros [[<- <-]|[_ H]]; [|by eauto]. exists e1. split; [done|]. by destruct e1.
Qed.

(** An entry after a step was there before and the step did not invalidate it,
    or the step stored it. *)

Lemma step_lookup n c o k e :
  kept n c -> n < 2 ^ 64 - 1 -> Entries (stored (step c o)) !! k = Some e ->
  (exists e', Entries (stored c) !! k = Some e' /\ same_entry e e' /\
     invalidates (Collection e) o = false /\ accepts c k o = false) \/
  (exists now ns r Coll resp g, o = OpPut now ns r Coll resp g /\ accepts c k o = true /\
     e = new_entry now k Coll resp (tick_order (clocks c))).
Proof.
  intros Hc Hn. assert (Hsame : forall e', same_entry e' e') by (by intros []).
  destruct o as [ttl max|now ns r Coll|now ns r Coll resp g|Coll| |now age]; cbn [SearchCache.step]; intros He.
  - left. apply trim_lookup in He; [|apply Hc]. exists e. by split_and!.
  - left. apply Get_lookup in He as (e' & He & Hs). exists e'. by split_and!.
  - apply (Put_lookup n) in He as [[He Ha]|[Ha He]]; [| |done|done].
    + left. exists e. by split_and!.
    + right. exists now, ns, r, Coll, resp, g. done.
  - left. exists e. destruct (decide (Coll = [])) as [->|Hne].
    { change (Entries _) with (∅ : gmap bytes CacheEntry) in He. by rewrite lookup_empty in He. }
    rewrite InvalidateCollection_nonempty in He by done. cbn [stored] in He.
    apply lookup_EraseGroup in He as [He Hw]; [|apply store_ok_EraseGroup with (t := clocks c), Hc].
    apply lookup_EraseGroup in He as [He Hc']; [|apply Hc].
    split_and!; [done|done| |done]. apply bool_decide_eq_false_2. naive_solver.
  - change (Entries _) with (∅ : gmap bytes CacheEntry) in He. by rewrite lookup_empty in He.
  - left. exists e. revert He. unfold FlushExpired. cbn [fst set_stored stored].
    case_bool_decide; cbn [set_order Entries]; rewrite lookup_remove_keys; case_bool_decide; done.
Qed.

(** ** Generations *)

Lemma GetGeneration_step n c o Coll :
  kept n c -> n < 2 ^ 64 - 1 ->
  GetGeneration Coll (step c o) = if invalidates Coll o then MutationClock (clocks c) + 1 else GetGeneration Coll c.
Proof.
  intros [[Hs Ht] [Hw _]] Hn. unfold GetGeneration.
  assert (HAll : CurrentGeneration (clocks (InvalidateAll c)) Coll = MutationClock (clocks c) + 1).
  { destruct Ht as (H1 & _ & H3). unfold InvalidateAll, CurrentGeneration. cbn. rewrite u64_id by lia.
    destruct (CollectionGenerations (clocks c) !! Coll) as [m|] eqn:E; cbn; [|lia].
    specialize (H3 _ _ E). cbn in H3. lia. }
  destruct o as [ttl max|now ns r Coll'|now ns r Coll' resp g|Coll'| |now age]; cbn [SearchCache.step invalidates]; try done.
  - unfold SearchCache.Get. repeat destr_goal; done.
  - unfold SearchCache.Put. repeat destr_goal; done.
  - destruct (decide (Coll' = [])) as [->|Hne]; [rewrite bool_decide_eq_true_2 by tauto; exact HAll|].
    rewrite InvalidateCollection_nonempty by done. cbn [clocks]. rewrite CurrentGeneration_bump by (done || lia).
    apply reflexive_eq. do 2 case_bool_decide; naive_solver.
Qed.

Lemma GetGeneration_le n c Coll : kept n c -> GetGeneration Coll c <= MutationClock (clocks c).
Proof.
  intros [[_ (H1 & _ & H3)] _]. unfold GetGeneration, CurrentGeneration.
  destruct (_ !! Coll) as [m|] eqn:E; cbn; [specialize (H3 _ _ E); cbn in H3|]; lia.
Qed.

(** A generation that a later state still shows was not passed by a mutation. *)

Lemma generation_unchanged h0 h Coll :
  Z.of_nat (length (h0 ++ h)) < 2 ^ 64 - 2 ->
  GetGeneration Coll (run h0) <= GetGeneration Coll (run (h0 ++ h)) /\
  (GetGeneration Coll (run (h0 ++ h)) = GetGeneration Coll (run h0) ->
   Forall (fun o => invalidates Coll o = false) h).
Proof.
  induction h as [|o h IH] using rev_ind; rewrite ?app_nil_r; [done|].
  rewrite app_assoc, run_snoc, length_app. cbn [length]. intros Hl.
  pose proof (run_kept (h0 ++ h) ltac:(lia)) as Hk.
  destruct (IH ltac:(lia)) as [Hle Hf].
  rewrite (GetGeneration_step _ _ _ _ Hk) by lia. pose proof (GetGeneration_le _ _ Coll Hk).
  destruct (invalidates Coll o) eqn:Ho; [split; lia|]. split; [done|]. intros He.
  apply Forall_app. split; [by apply Hf|]. by repeat constructor.
Qed.


(** ** Freshness *)

(** [e], stored under [k], goes back to the [Put] that ends [h1], and what
    followed, [h2], neither stored the key again nor invalidated it. *)

Definition stored_by (h : list op) (k : bytes) (e : CacheEntry) : Prop :=
  exists h1 ns r resp g h2,
    h = h1 ++ OpPut (CreatedMS e) ns r (Collection e) resp g :: h2 /\
    accepts (run h1) k (OpPut (CreatedMS e) ns r (Collection e) resp g) = true /\
    Response e = set_header #"X-HLQ-Cache" #"stored" resp /\
    Forall (fun o => invalidates (Collection e) o = false) h2 /\
    (forall h3 o h4, h2 = h3 ++ o :: h4 ->
       accepts (run (h1 ++ OpPut (CreatedMS e) ns r (Collection e) resp g :: h3)) k o = false).

Lemma snoc_eq_mid {A} (l : list A) x h3 o h4 :
  l ++ [x] = h3 ++ o :: h4 -> (h4 = [] /\ l = h3 /\ x = o) \/ (exists h4', h4 = h4' ++ [x] /\ l = h3 ++ o :: h4').
Proof.
  destruct h4 as [|y h4'] using rev_ind; intros H.
  - left. by apply app_inj_tail in H as [-> ->].
  - right. rewrite app_comm_cons, app_assoc in H. apply app_inj_tail in H as [-> ->]. eauto.
Qed.

Lemma stored_by_snoc h k e e' o :
  stored_by h k e' -> same_entry e e' -> invalidates (Collection e) o = false -> accepts (run h) k o = false ->
  stored_by (h ++ [o]) k e.
Proof.
  intros (h1 & ns & r & resp & g & h2 & -> & Ha & Hr & Hf & Hn) Hs Hi Ho. rewrite Hs in Hi |- *.
  exists h1, ns, r, resp, g, (h2 ++ [o]). cbn [Collection CreatedMS Response set_sequence].
  split_and!; [by rewrite <- app_assoc|done|done|apply Forall_app; split; [done|by repeat constructor]|].
  intros h3 o' h4 [(-> & <- & <-)|(h4' & -> & ->)]%snoc_eq_mid; [exact Ho|exact (Hn _ _ _ eq_refl)].
Qed.

Lemma run_stored_by h k e :
  Z.of_nat (length h) < 2 ^ 64 - 2 -> Entries (stored (run h)) !! k = Some e -> stored_by h k e.
Proof.
  revert k e. induction h as [|o h IH] using rev_ind; intros k e.
  { change (Entries _) with (∅ : gmap bytes CacheEntry). by rewrite lookup_empty. }
  rewrite length_app, run_snoc. cbn [length]. intros Hl He.
  apply (step_lookup (1 + Z.of_nat (length h))) in He; [|apply run_kept; lia|lia].
  destruct He as [(e' & He & Hs & Hi & Ha)|(now & ns & r & Coll & resp & g & -> & Ha & ->)].
  - eapply stored_by_snoc; [apply IH; [lia|exact He]|done|done|done].
  - exists h, ns, r, resp, g, []. split_and!; [done|done|done|by constructor|]. intros [|??] ??; discriminate.
Qed.

Lemma Get_hit now ns r Coll c resp :
  (Get now ns r Coll c).2 = Some resp ->
  exists e, Entries (stored c) !! BuildKey ns r = Some e /\
    CreatedMS e <= now < CreatedMS e + CacheTTLMS (limits c) /\
    GetGeneration Coll c = CollectionGeneration e /\
    resp = set_header #"X-HLQ-Cache" #"hit" (Response e).
Proof.
  unfold SearchCache.Get. destruct (_ !! _) as [e|]; [|done].
  destruct (too_old now (CacheTTLMS (limits c)) e) eqn:Ho; [done|].
  destruct (EntryEpoch e =? GlobalEpoch (clocks c)); [|done].
  destruct (Z.eqb_spec (CollectionGeneration e) (CurrentGeneration (clocks c) Coll)) as [Hg|]; [|done].
  cbn [orb negb snd]. intros H. apply (inj Some) in H as <-. exists e.
  apply orb_false_iff in Ho as [H1%Z.ltb_ge H2%Z.leb_gt].
  split_and!; [done|lia|lia|by unfold GetGeneration|done].
Qed.

(** C6. No stale response is served. When a lookup at the end of any sequence of
    cache operations hits, the response is that of an earlier successful [Put]
    of the same key, younger than the time to live; no later operation stored
    the key again or invalidated the collection it was stored for; and if its
    expected generation was read from the cache at an earlier moment, the
    collection was not invalidated between that moment and the [Put] either. *)
Theorem cache_freshness h now ns r Coll resp :
  Z.of_nat (length h) < 2 ^ 64 - 2 ->
  (Get now ns r Coll (run h)).2 = Some resp ->
  exists h1 t ns' r' Coll' resp' g h2,
    h = h1 ++ OpPut t ns' r' Coll' resp' g :: h2 /\
    BuildKey ns' r' = BuildKey ns r /\ StatusCode resp' = 200 /\
    resp = set_header #"X-HLQ-Cache" #"hit" (set_header #"X-HLQ-Cache" #"stored" resp') /\
    t <= now < t + CacheTTLMS (limits (run h)) /\
    Forall (fun o => invalidates Coll' o = false) h2 /\
    (forall h3 o h4, h2 = h3 ++ o :: h4 ->
       accepts (run (h1 ++ OpPut t ns' r' Coll' resp' g :: h3)) (BuildKey ns r) o = false) /\
    (forall h0 mid, h1 = h0 ++ mid -> g = GetGeneration Coll' (run h0) ->
       Forall (fun o => invalidates Coll' o = false) mid).
Proof.
  intros Hl (e & He & Ht & _ & ->)%Get_hit.
  apply run_stored_by in He as (h1 & ns' & r' & resp' & g & h2 & -> & Ha & -> & Hf & Hn); [|done].
  exists h1, (CreatedMS e), ns', r', (Collection e), resp', g, h2.
  unfold accepts in Ha. apply andb_true_iff in Ha as [[Hk%bool_decide_eq_true Hs%Z.eqb_eq]%andb_true_iff Hg].
  split_and!; try done; try lia. intros h0 mid -> ->.
  rewrite !length_app in Hl. apply (generation_unchanged h0); [rewrite length_app; lia|].
  pose proof (run_kept h0 ltac:(lia)) as [[_ (H1 & _)] _].
  assert (1 <= GetGeneration (Collection e) (run h0)) by (unfold GetGeneration, CurrentGeneration; lia).
  apply orb_true_iff in Hg as [Hg%Z.eqb_eq|Hg%Z.eqb_eq]; [lia|done].
Qed.


(** ** The memory budget *)

(** Sizes an address space has room for. *)

Definition fits (o : op) : Prop :=
  match o with
  | OpConfigure _ max => max <= 2 ^ 62
  | OpPut _ ns r _ resp _ => EstimateEntrySize (BuildKey ns r) (set_header #"X-HLQ-Cache" #"stored" resp) <= 2 ^ 62
  | _ => True
  end.

Definition affordable (l : Limits) (s : Stored) : Prop :=
  size_ok s /\ CacheSizeBytes s <= CacheMaxSizeBytes l /\ 1 <= CacheMaxSizeBytes l <= 2 ^ 62.

Lemma affordable_empty l : 1 <= CacheMaxSizeBytes l <= 2 ^ 62 -> affordable l empty_store.
Proof. intros H. split; [split; [done|apply map_Forall_empty]|]. cbn. lia. Qed.

Lemma EstimateEntrySize_nonneg k resp : 0 <= EstimateEntrySize k resp.
Proof.
  unfold EstimateEntrySize, sizeof_CacheEntry.
  enough (forall n, 0 <= n -> 0 <= foldl (fun Size Header => Size + size Header.1 + size Header.2) n (Headers resp)) as H.
  { specialize (H (size k + size (Body resp) + size (StatusText resp))). unfold size in *. lia. }
  induction (Headers resp) as [|hd l IH]; intros n Hn; cbn [foldl]; [done|]. apply IH. unfold size. lia.
Qed.

Lemma size_ok_remove_keys ks s : size_ok s -> size_ok (remove_keys ks s).
Proof. apply remove_keys_ind, size_ok_remove. Qed.

Lemma CacheSizeBytes_remove_keys ks s : size_ok s -> CacheSizeBytes (remove_keys ks s) <= CacheSizeBytes s.
Proof.
  intros Hs. enough (size_ok (remove_keys ks s) /\ CacheSizeBytes (remove_keys ks s) <= CacheSizeBytes s) by tauto.
  apply (remove_keys_ind (fun s' => size_ok s' /\ CacheSizeBytes s' <= CacheSizeBytes s)); [|done].
  intros k s' [H Hle]. split; [by apply size_ok_remove|]. revert Hle. unfold RemoveKeyLocked.
  destruct (Entries s' !! k) as [e|] eqn:E; [|done]. cbn. destruct H as [H Hp]. pose proof (total_nonneg _ Hp).
  specialize (Hp _ _ E). cbn in Hp. intros. destruct (Z.ltb_spec (CacheSizeBytes s') (SizeBytes e)); lia.
Qed.

(** Trimming reaches the budget: were the order used up, nothing would be stored. *)

Lemma trim_budget Max s n :
  order_ok (EntryOrder s) s -> size_ok s -> 0 <= Max ->
  size_ok (trim_loop Max (EntryOrder s) s n).1 /\ CacheSizeBytes (trim_loop Max (EntryOrder s) s n).1 <= Max.
Proof.
  intros Ho Hs Hm. destruct (trim_loop_spec Max (EntryOrder s) s n (proj1 Ho)) as (pre & order & Hp & -> & Hb & _).
  pose proof (size_ok_remove_keys (evicted s pre) s Hs) as Hs'. split; [exact Hs'|].
  destruct Hb as [->|Hb]; [|exact Hb]. cbn [set_order CacheSizeBytes]. destruct Hs' as [-> _].
  rewrite Hp in Ho. apply order_ok_suffix, no_order_no_entries in Ho. rewrite Ho. exact Hm.
Qed.

Lemma TrimLocked_affordable c :
  store_ok (clocks c) (stored c) -> size_ok (stored c) -> 1 <= CacheMaxSizeBytes (limits c) <= 2 ^ 62 ->
  affordable (limits c) (stored (TrimLocked c)).
Proof.
  intros Hs Hz Hm. destruct (trim_budget (CacheMaxSizeBytes (limits c)) (stored c) (CacheEvictions (counters c)))
    as [H1 H2]; [apply Hs|done|lia|]. exact (conj H1 (conj H2 Hm)).
Qed.

Lemma store_entry_size k e s :
  size_ok s -> 0 <= SizeBytes e -> CacheSizeBytes s + SizeBytes e < 2 ^ 64 -> size_ok (store_entry k e s).
Proof.
  intros Hs He Hb. unfold store_entry.
  pose proof (size_ok_remove k s Hs) as [Ht Hp]. pose proof (CacheSizeBytes_remove_keys [k] s Hs) as Hle.
  cbn in Hle. assert (Hk : Entries (RemoveKeyLocked k s) !! k = None) by (rewrite Entries_remove; apply lookup_delete_eq).
  split; cbn [CacheSizeBytes Entries].
  - rewrite total_insert by done. pose proof (total_nonneg _ Hp). rewrite u64_id by lia. lia.
  - by apply map_Forall_insert_2.
Qed.

Lemma step_affordable n c o :
  kept n c -> n < 2 ^ 64 - 1 -> fits o ->
  affordable (limits c) (stored c) -> affordable (limits (step c o)) (stored (step c o)).
Proof.
  intros Hk Hn Hf (Hs & Hb & Hm). pose proof (proj1 (proj1 Hk)) as Hok.
  assert (Hrem : forall ks, affordable (limits c) (remove_keys ks (stored c))).
  { intros ks. split_and!; [by apply size_ok_remove_keys| |lia|lia].
    pose proof (CacheSizeBytes_remove_keys ks _ Hs). lia. }
  destruct o as [ttl max|now ns r Coll|now ns r Coll resp g|Coll| |now age]; cbn [SearchCache.step fits] in *.
  - apply (TrimLocked_affordable (mkCache (stored c) (clocks c) (mkLimits (Z.max 1 ttl) (Z.max 1 max)) (counters c)));
      cbn; [done|done|lia].
  - unfold SearchCache.Get. destruct (Entries (stored c) !! BuildKey ns r) as [e|] eqn:E; [|exact (Hrem [])].
    destr_goal; cbn [fst limits stored]; [exact (Hrem [BuildKey ns r])|].
    unfold affordable, size_ok. rewrite Entries_compact, CacheSizeBytes_compact. cbn [touch Entries CacheSizeBytes].
    destruct Hs as [Hs Hp]. split_and!; [| |lia|lia|lia].
    + rewrite Hs, (total_delete _ _ _ E), <- (insert_delete_eq (Entries (stored c))), total_insert by apply lookup_delete_eq.
      done.
    + apply map_Forall_insert_2; [exact (Hp _ _ E)|done].
  - destruct (accepts c (BuildKey ns r) (OpPut now ns r Coll resp g)) eqn:Ha;
      [rewrite Put_accepted by done|rewrite Put_rejected by done; exact (Hrem [])].
    unfold CompactOrderLocked, set_stored, affordable, size_ok. cbn [stored limits].
    rewrite Entries_compact, CacheSizeBytes_compact.
    match goal with |- context [TrimLocked ?c1] => apply (TrimLocked_affordable c1) end; cbn [limits clocks stored].
    + apply store_ok_store_entry; [done|by apply (kept_OrderClock n)|done|done|done].
    + apply store_entry_size; [done|apply EstimateEntrySize_nonneg|]. cbn [SizeBytes new_entry]. lia.
    + done.
  - unfold InvalidateCollection. case_bool_decide; [by apply affordable_empty|].
    cbn [limits stored]. unfold EraseGroup. repeat destr_goal; rewrite <- ?remove_keys_app; try apply Hrem; exact (Hrem []).
  - by apply affordable_empty.
  - unfold FlushExpired. cbn [fst set_stored limits stored]. case_bool_decide; apply Hrem.
Qed.

Lemma run_affordable h :
  Z.of_nat (length h) < 2 ^ 64 - 2 -> Forall fits h -> affordable (limits (run h)) (stored (run h)).
Proof.
  intros Hl Hf. induction h as [|o h IH] using rev_ind.
  { apply affordable_empty. cbn. unfold kDefaultSearchCacheMaxSize. lia. }
  rewrite run_snoc. apply Forall_app in Hf as [Hh Ho%Forall_inv]. rewrite length_app in Hl. cbn in Hl.
  apply (step_affordable (1 + Z.of_nat (length h))); [apply run_kept; lia|lia|exact Ho|]. apply IH; [lia|exact Hh].
Qed.

(** The memory budget holds at all times. After any sequence of operations
    whose sizes an address space has room for, the byte count the cache reports
    is the sum of the sizes of its entries and is at most the configured
    maximum, however small the last configuration made it. *)
Theorem cache_budget h :
  Z.of_nat (length h) < 2 ^ 64 - 2 -> Forall fits h ->
  StatSizeBytes (GetStats (run h)) = total (Entries (stored (run h))) /\
  StatSizeBytes (GetStats (run h)) <= CacheMaxSizeBytes (limits (run h)).
Proof. intros Hl Hf. destruct (run_affordable h Hl Hf) as ([H _] & Hb & _). by split. Qed.

(** ** Eviction *)

(** What trimming does to a store in terms of its entries. *)

Lemma trim_evicts Max s n k e k' e' :
  order_ok (EntryOrder s) s ->
  Entries s !! k = Some e -> Entries (trim_loop Max (EntryOrder s) s n).1 !! k = None ->
  Entries (trim_loop Max (EntryOrder s) s n).1 !! k' = Some e' ->
  OrderSequence e < OrderSequence e'.
Proof.
  intros Ho He. destruct (trim_loop_spec Max (EntryOrder s) s n (proj1 Ho)) as (pre & order & Hp & -> & _).
  cbn [set_order Entries]. rewrite !lookup_remove_keys.
  case_bool_decide as Hk; [|congruence]. case_bool_decide as Hk'; [done|]. intros _ He'.
  apply elem_of_evicted in Hk as (e1 & He1 & Hin). simplify_eq.
  assert (Hin' : mkOrder k' (OrderSequence e') ∈ order).
  { destruct Ho as [_ Ho]. specialize (Ho _ _ He'). rewrite Hp, elem_of_app in Ho. destruct Ho as [Hpre|]; [|done].
    exfalso. apply Hk', elem_of_evicted. eauto. }
  destruct Ho as [Hs _]. rewrite Hp in Hs.
  exact (StronglySorted_app_1_elem_of seq_lt _ _ _ _ Hs Hin Hin').
Qed.

Lemma sorted_last_notin order o : StronglySorted seq_lt (order ++ [o]) -> o ∉ order.
Proof.
  intros Hs Hin. pose proof (StronglySorted_app_1_elem_of seq_lt _ _ _ o Hs Hin ltac:(set_solver)) as H.
  unfold seq_lt in H. lia.
Qed.

(** With every older entry evicted, one is left. *)

Lemma evict_all_but_last s order k e :
  order_ok (order ++ [mkOrder k (OrderSequence e)]) s -> Entries s !! k = Some e ->
  Entries (remove_keys (evicted s order) s) = {[k := e]}.
Proof.
  intros [Hs Ho] He. apply map_eq. intros k1. rewrite lookup_remove_keys.
  destruct (decide (k1 = k)) as [->|Hne].
  - rewrite lookup_singleton_eq, bool_decide_eq_false_2; [done|]. rewrite elem_of_evicted.
    intros (e1 & He1 & Hin). simplify_eq. by apply sorted_last_notin in Hs.
  - rewrite lookup_singleton_ne by done. case_bool_decide as Hin; [done|].
    apply eq_None_not_Some. intros [e1 He1]. apply Hin, elem_of_evicted. exists e1. split; [done|].
    specialize (Ho _ _ He1). rewrite elem_of_app, list_elem_of_singleton in Ho. destruct Ho as [|[= ??]]; done.
Qed.

(** The most recent entry stays, if it fits alone. *)

Lemma trim_keeps_last Max s n k e order :
  order_ok (EntryOrder s) s -> size_ok s -> EntryOrder s = order ++ [mkOrder k (OrderSequence e)] ->
  Entries s !! k = Some e -> SizeBytes e <= Max ->
  Entries (trim_loop Max (EntryOrder s) s n).1 !! k = Some e.
Proof.
  intros Ho Hs Hl He Hm. destruct (trim_loop_spec Max (EntryOrder s) s n (proj1 Ho)) as (pre & order' & Hp & -> & _ & Hn).
  cbn [set_order Entries]. rewrite lookup_remove_keys. case_bool_decide as Hk; [exfalso|done].
  rewrite Hl in Hp, Ho. destruct order' as [|o order' _] using rev_ind.
  - rewrite app_nil_r in Hp. subst pre.
    assert (Hlast : evicted s (order ++ [mkOrder k (OrderSequence e)]) = evicted s order ++ [k]).
    { unfold evicted. rewrite filter_app, fmap_app. f_equal. rewrite filter_cons_True; [done|].
      apply live_spec. eauto. }
    specialize (Hn _ _ _ Hlast). destruct (size_ok_remove_keys (evicted s order) s Hs) as [Hsz _].
    rewrite (evict_all_but_last s order k e Ho He) in Hsz. unfold total in Hsz.
    rewrite map_fold_singleton in Hsz. lia.
  - apply elem_of_evicted in Hk as (e1 & He1 & Hin). simplify_eq. rewrite app_assoc in Hp.
    apply app_inj_tail in Hp as [-> _]. apply (sorted_last_notin _ _ (proj1 Ho)), elem_of_app. by left.
Qed.

(** The store a [Put] hands to the trimming loop. *)

Definition put_store (now : Z) (ns : bytes) (r : HttpRequest) (Coll : bytes) (resp : HttpResponse) (c : Cache) : Stored :=
  store_entry (BuildKey ns r) (new_entry now (BuildKey ns r) Coll resp (tick_order (clocks c))) (stored c).

Lemma Put_Entries now ns r Coll resp g c :
  accepts c (BuildKey ns r) (OpPut now ns r Coll resp g) = true ->
  let s := put_store now ns r Coll resp c in
  Entries (stored (Put now ns r Coll resp g c)) =
  Entries (trim_loop (CacheMaxSizeBytes (limits c)) (EntryOrder s) s (CacheEvictions (counters c))).1.
Proof.
  intros H. rewrite Put_accepted by done. unfold CompactOrderLocked, TrimLocked. cbn [stored set_stored].
  by rewrite Entries_compact.
Qed.

Lemma put_store_order_ok n now ns r Coll resp c :
  kept n c -> n < 2 ^ 64 - 1 ->
  let s := put_store now ns r Coll resp c in order_ok (EntryOrder s) s.
Proof.
  intros Hc Hn. apply (store_ok_store_entry (clocks c)); [apply Hc|by apply (kept_OrderClock n)|done|done|done].
Qed.

(** Eviction is least recently used. If storing a response evicts an entry,
    every entry that stays was stored or hit more recently: its sequence number
    is greater than that of the evicted one. *)
Theorem Put_evicts_lru h now ns r Coll resp g k e k' e' :
  Z.of_nat (length h) < 2 ^ 64 - 2 ->
  Entries (stored (run h)) !! k = Some e ->
  Entries (stored (Put now ns r Coll resp g (run h))) !! k = None ->
  Entries (stored (Put now ns r Coll resp g (run h))) !! k' = Some e' ->
  OrderSequence e < OrderSequence e'.
Proof.
  intros Hl He. pose proof (run_kept h Hl) as Hk.
  destruct (accepts (run h) (BuildKey ns r) (OpPut now ns r Coll resp g)) eqn:Ha;
    [|rewrite Put_rejected by done; congruence].
  rewrite Put_Entries by done. pose proof (put_store_order_ok _ now ns r Coll resp _ Hk ltac:(lia)) as Ho.
  destruct (decide (k = BuildKey ns r)) as [->|Hne].
  - intros Hnone He'. pose proof (trim_evicts _ _ _ _ _ _ _ Ho (lookup_insert_eq _ _ _) Hnone He') as Hlt.
    etransitivity; [|exact Hlt]. cbn [new_entry OrderSequence].
    rewrite OrderClock_tick by (eapply kept_OrderClock; [exact Hk|lia]).
    destruct Hk as [[[_ [_ Hord] Hclk _ _] _] _]. specialize (Hord _ _ He).
    rewrite Forall_forall in Hclk. specialize (Hclk _ Hord). cbn in Hclk. lia.
  - intros Hnone He'. eapply trim_evicts; [exact Ho| |exact Hnone|exact He'].
    cbn [put_store store_entry Entries]. rewrite lookup_insert_ne by done. by rewrite Entries_remove, lookup_delete_ne.
Qed.

Lemma Put_Get_hit h now now' ns r Coll resp g :
  Z.of_nat (length h) < 2 ^ 64 - 2 -> Forall fits h ->
  StatusCode resp = 200 -> g = 0 \/ g = GetGeneration Coll (run h) ->
  EstimateEntrySize (BuildKey ns r) (set_header #"X-HLQ-Cache" #"stored" resp) <= CacheMaxSizeBytes (limits (run h)) ->
  now <= now' < now + CacheTTLMS (limits (run h)) ->
  (Get now' ns r Coll (Put now ns r Coll resp g (run h))).2 =
  Some (set_header #"X-HLQ-Cache" #"hit" (set_header #"X-HLQ-Cache" #"stored" resp)).
Proof.
  intros Hl Hf Hst Hg Hsz Ht. pose proof (run_kept h Hl) as Hk. pose proof (run_affordable h Hl Hf) as (Hs & Hb & Hm).
  assert (Ha : accepts (run h) (BuildKey ns r) (OpPut now ns r Coll resp g) = true).
  { unfold accepts. rewrite bool_decide_eq_true_2, Hst by done. apply orb_true_iff. rewrite !Z.eqb_eq. tauto. }
  pose proof (put_store_order_ok _ now ns r Coll resp _ Hk ltac:(lia)) as Ho.
  assert (He : Entries (stored (Put now ns r Coll resp g (run h))) !! BuildKey ns r =
    Some (new_entry now (BuildKey ns r) Coll resp (tick_order (clocks (run h))))).
  { rewrite Put_Entries by done. eapply trim_keeps_last; [exact Ho| |reflexivity|apply lookup_insert_eq|exact Hsz].
    apply store_entry_size; [done|apply EstimateEntrySize_nonneg|]. cbn [SizeBytes new_entry]. lia. }
  unfold SearchCache.Get. rewrite He.
  assert (Hc : clocks (Put now ns r Coll resp g (run h)) = tick_order (clocks (run h))) by by rewrite Put_accepted.
  assert (Hlim : limits (Put now ns r Coll resp g (run h)) = limits (run h)) by by rewrite Put_accepted.
  rewrite Hc, Hlim. unfold too_old, new_entry. cbn [CreatedMS EntryEpoch CollectionGeneration Response].
  rewrite !Z.eqb_refl, (proj2 (Z.ltb_ge _ _)), (proj2 (Z.leb_gt _ _)) by lia. done.
Qed.

(** What is put can be got. A successful response whose expected generation
    is current and whose size fits the budget is returned by the next lookup of
    its key within the time to live, marked as a hit, whatever had to be evicted
    for it. *)
Theorem Put_then_Get h now now' ns r Coll resp g :
  Z.of_nat (length h) < 2 ^ 64 - 2 -> Forall fits h ->
  StatusCode resp = 200 -> g = 0 \/ g = GetGeneration Coll (run h) ->
  EstimateEntrySize (BuildKey ns r) (set_header #"X-HLQ-Cache" #"stored" resp) <= CacheMaxSizeBytes (limits (run h)) ->
  now <= now' < now + CacheTTLMS (limits (run h)) ->
  (Get now' ns r Coll (Put now ns r Coll resp g (run h))).2 =
  Some (set_header #"X-HLQ-Cache" #"hit" (set_header #"X-HLQ-Cache" #"stored" resp)).
Proof. exact (Put_Get_hit h now now' ns r Coll resp g). Qed.


(** ** Keys *)

(** Cutting at the last or at the first separator. *)

Lemma cut_last (sep : ascii) a b x y :
  sep ∉ x -> sep ∉ y -> a ++ [sep] ++ x = b ++ [sep] ++ y -> a = b /\ x = y.
Proof.
  revert y. induction x as [|c x IH] using rev_ind; intros y Hx Hy H.
  - destruct y as [|d y _] using rev_ind.
    + apply app_inj_tail in H as [-> _]. done.
    + rewrite !app_assoc in H. rewrite app_nil_r in H. apply app_inj_tail in H as [_ <-]. set_solver.
  - destruct y as [|d y _] using rev_ind.
    + rewrite !app_assoc, app_nil_r in H. apply app_inj_tail in H as [_ ->]. set_solver.
    + rewrite !(app_assoc _ _ [_]) in H. apply app_inj_tail in H as [H ->].
      destruct (IH y) as [-> ->]; [set_solver|set_solver|exact H|done].
Qed.

Lemma cut_first (sep : ascii) a b x y :
  sep ∉ a -> sep ∉ b -> a ++ [sep] ++ x = b ++ [sep] ++ y -> a = b /\ x = y.
Proof.
  revert b. induction a as [|c a IH]; intros [|d b] Ha Hb H; cbn in H.
  - by apply (inj2 cons) in H as [_ ->].
  - apply (inj2 cons) in H as [-> _]. set_solver.
  - apply (inj2 cons) in H as [-> _]. set_solver.
  - apply (inj2 cons) in H as [-> H]. destruct (IH b) as [-> ->]; set_solver.
Qed.

Definition amp : ascii := "&"%char.

Definition eqs : ascii := "="%char.

(** A pair that its text determines. *)

Definition clean_pair (p : bytes * bytes) : Prop :=
  (amp ∉ p.1 /\ eqs ∉ p.1 /\ chr 10 ∉ p.1) /\ (amp ∉ p.2 /\ eqs ∉ p.2 /\ chr 10 ∉ p.2).

Definition pair_text (p : bytes * bytes) : bytes := p.1 ++ [eqs] ++ p.2.

Fixpoint params_text (ps : list (bytes * bytes)) : bytes :=
  match ps with
  | [] => []
  | p :: ps => pair_text p ++ match ps with [] => [] | _ => [amp] ++ params_text ps end
  end.

Lemma CanonicalParams_text ps : CanonicalParams ps = params_text ps.
Proof.
  unfold CanonicalParams.
  assert (Hgen : forall ps acc, acc <> [] ->
    foldl (fun Result Entry => (if bool_decide (Result = []) then Result else Result ++ #"&") ++ Entry.1 ++ #"=" ++ Entry.2)
      acc ps = acc ++ match ps with [] => [] | _ => [amp] ++ params_text ps end).
  { clear ps. induction ps as [|p ps IH]; intros acc Hacc; cbn [foldl]; [by rewrite app_nil_r|].
    rewrite bool_decide_eq_false_2 by done. rewrite IH by (by destruct acc).
    cbn [params_text]. unfold pair_text. by rewrite <- !app_assoc. }
  destruct ps as [|p ps]; [done|]. cbn [foldl]. rewrite bool_decide_eq_true_2 by done. cbn [app params_text].
  rewrite Hgen; [done|]. by destruct p.1.
Qed.

Lemma pair_text_inj p q : clean_pair p -> clean_pair q -> pair_text p = pair_text q -> p = q.
Proof.
  destruct p, q. intros [(_ & H1 & _) _] [(_ & H2 & _) _] H. apply (cut_first _ _ _ _ _ H1 H2) in H as [Ha Hb].
  cbn in Ha, Hb. by subst.
Qed.

Lemma pair_text_no_amp p : clean_pair p -> amp ∉ pair_text p.
Proof.
  intros [(?&?&?) (?&?&?)]. unfold pair_text. rewrite !not_elem_of_app. split; [done|]. split; [|done].
  by intros ?%list_elem_of_singleton.
Qed.

Lemma params_text_inj ps qs :
  Forall clean_pair ps -> Forall clean_pair qs -> params_text ps = params_text qs -> ps = qs.
Proof.
  assert (Hne : forall p (t : bytes), pair_text p ++ t <> []) by (by intros [[] ?] ?).
  revert qs. induction ps as [|p ps IH]; intros [|q qs] Hp Hq H; cbn [params_text] in H.
  - done.
  - by destruct (Hne _ _ (eq_sym H)).
  - by destruct (Hne _ _ H).
  - apply Forall_cons in Hp as [Hp Hps]. apply Forall_cons in Hq as [Hq Hqs].
    pose proof (pair_text_no_amp p Hp). pose proof (pair_text_no_amp q Hq).
    destruct ps as [|p1 ps], qs as [|q1 qs]; rewrite ?app_nil_r in H.
    + f_equal. by apply pair_text_inj.
    + rewrite H in *. set_solver.
    + rewrite <- H in *. set_solver.
    + apply cut_first in H as [Hh Ht]; [|done|done]. f_equal; [by apply pair_text_inj|]. by apply IH.
Qed.

Lemma params_text_no_newline ps : Forall clean_pair ps -> chr 10 ∉ params_text ps.
Proof.
  induction 1 as [|p ps [(?&?&?) (?&?&?)] _ IH]; cbn [params_text]; [apply not_elem_of_nil|].
  unfold pair_text. rewrite !not_elem_of_app, not_elem_of_cons. split_and!; try done; [apply not_elem_of_nil|].
  destruct ps; [apply not_elem_of_nil|]. rewrite not_elem_of_app, not_elem_of_cons.
  split_and!; [done|apply not_elem_of_nil|done].
Qed.

(** The lines before the body are clean, as a request target has them unless its
    parameters decode to separators. *)

Definition clean_target (ns : bytes) (r : HttpRequest) : Prop :=
  chr 10 ∉ ns /\ chr 10 ∉ Method r /\ chr 10 ∉ Path r /\ Forall clean_pair (QueryParams r).

(** The lines of a key up to the body. *)

Definition key_head (ns : bytes) (r : HttpRequest) : bytes :=
  ns ++ newline ++ Method r ++ newline ++ Path r ++ newline ++
  CanonicalParams (QueryParams r) ++ newline ++ CanonicalBody parse_dump (RequestBody r).

Lemma BuildKey_lines ns r :
  BuildKey ns r = (key_head ns r ++ newline ++ EmbeddedFilters r) ++ newline ++ APIKeyID r.
Proof. unfold SearchCache.BuildKey, key_head. by rewrite <- !app_assoc. Qed.

Lemma key_head_inj ns r ns' r' :
  clean_target ns r -> clean_target ns' r' -> key_head ns r = key_head ns' r' ->
  ns = ns' /\ Method r = Method r' /\ Path r = Path r' /\ QueryParams r = QueryParams r' /\
  CanonicalBody parse_dump (RequestBody r) = CanonicalBody parse_dump (RequestBody r').
Proof.
  intros (H1 & H2 & H3 & H4) (H1' & H2' & H3' & H4') H. unfold key_head in H. rewrite !CanonicalParams_text in H.
  apply cut_first in H as [-> H]; [|done|done].
  apply cut_first in H as [-> H]; [|done|done].
  apply cut_first in H as [-> H]; [|done|done].
  apply cut_first in H as [H ->]; [|by apply params_text_no_newline|by apply params_text_no_newline].
  by apply params_text_inj in H as ->.
Qed.

(** The credentials a request carries are single lines. *)

Definition line_credentials (r : HttpRequest) : Prop := chr 10 ∉ APIKeyID r /\ chr 10 ∉ EmbeddedFilters r.

Lemma BuildKey_scope ns r ns' r' :
  line_credentials r -> line_credentials r' -> BuildKey ns r = BuildKey ns' r' ->
  APIKeyID r = APIKeyID r' /\ EmbeddedFilters r = EmbeddedFilters r' /\ key_head ns r = key_head ns' r'.
Proof.
  intros [Hk Hf] [Hk' Hf'] H. rewrite !BuildKey_lines in H.
  apply cut_last in H as [H ->]; [|done|done]. by apply cut_last in H as [-> ->].
Qed.

Definition op_credentials (o : op) : Prop :=
  match o with OpPut _ _ r _ _ _ => line_credentials r | _ => True end.

(** A cached response never crosses credentials. If the key identifiers and
    the embedded filters of all requests are single lines, a hit is the response
    stored for a request with the same API key and the same embedded filters;
    and if the targets of both requests are free of the separators, it was the
    same namespace, method, path, parameters and canonical body. *)
Theorem cache_isolation h now ns r Coll resp :
  Z.of_nat (length h) < 2 ^ 64 - 2 -> Forall op_credentials h -> line_credentials r ->
  (Get now ns r Coll (run h)).2 = Some resp ->
  exists t ns' r' Coll' resp' g,
    OpPut t ns' r' Coll' resp' g ∈ h /\
    resp = set_header #"X-HLQ-Cache" #"hit" (set_header #"X-HLQ-Cache" #"stored" resp') /\
    APIKeyID r' = APIKeyID r /\ EmbeddedFilters r' = EmbeddedFilters r /\
    (clean_target ns' r' -> clean_target ns r ->
     ns' = ns /\ Method r' = Method r /\ Path r' = Path r /\ QueryParams r' = QueryParams r /\
     CanonicalBody parse_dump (RequestBody r') = CanonicalBody parse_dump (RequestBody r)).
Proof.
  intros Hl Hops Hr (e & He & _ & _ & ->)%Get_hit.
  apply run_stored_by in He as (h1 & ns' & r' & resp' & g & h2 & -> & Ha & -> & _); [|done].
  exists (CreatedMS e), ns', r', (Collection e), resp', g.
  apply Forall_app in Hops as [_ [Hr' _]%Forall_cons].
  unfold accepts in Ha. apply andb_true_iff in Ha as [[Hk%bool_decide_eq_true _]%andb_true_iff _].
  destruct (BuildKey_scope _ _ _ _ Hr' Hr Hk) as (HA & HE & HH).
  split_and!; [set_solver|done|done|done|]. intros H1 H2. by apply key_head_inj.
Qed.

(** The parameters of a request are not determined by its cache key: a value
    that holds an ampersand and an equals sign reads like two parameters. A
    response cached for the one request is served for the other, which has
    different parameters. *)
Theorem cache_parameter_collision now ns m path a x b y resp :
  StatusCode resp = 200 ->
  EstimateEntrySize (BuildKey ns (mkRequest m path [] [] [] [] 0 [(a, x); (b, y)] [] [] false))
    (set_header #"X-HLQ-Cache" #"stored" resp) <= kDefaultSearchCacheMaxSize ->
  let r2 := mkRequest m path [] [] [] [] 0 [(a, x); (b, y)] [] [] false in
  let r1 := mkRequest m path [] [] [] [] 0 [(a, x ++ #"&" ++ b ++ #"=" ++ y)] [] [] false in
  forall Coll,
  (Get now ns r1 Coll (run [OpPut now ns r2 Coll resp 0])).2 =
  Some (set_header #"X-HLQ-Cache" #"hit" (set_header #"X-HLQ-Cache" #"stored" resp)).
Proof.
  intros Hs Hz r2 r1 Coll.
  assert (Hk : BuildKey ns r1 = BuildKey ns r2).
  { unfold SearchCache.BuildKey, r1, r2. cbn [QueryParams Method Path RequestBody EmbeddedFilters APIKeyID].
    rewrite !CanonicalParams_text. unfold params_text, pair_text. cbn [fst snd]. by rewrite !app_nil_r, <- !app_assoc. }
  unfold SearchCache.Get. rewrite Hk.
  apply (Put_Get_hit [] now now ns r2 Coll resp 0); [done|by constructor|done|by left|done|].
  cbn. unfold kDefaultSearchCacheTTLMS. lia.
Qed.

End Runs.

(** ** Concrete runs *)

Definition no_json (b : bytes) : option bytes := None.

Definition a_request (q : bytes) : HttpRequest :=
  mkRequest #"GET" #"/collections/books/documents/search" #"HTTP/1.1" [] [] #"127.0.0.1" 40000 [(#"q", q)] #"k1" [] true.

Definition a_response (b : bytes) : HttpResponse := mkResponse 200 #"OK" [(#"Content-Type", #"application/json")] b.

Definition marked (b : bytes) : HttpResponse :=
  set_header #"X-HLQ-Cache" #"hit" (set_header #"X-HLQ-Cache" #"stored" (a_response b)).

(** A mutation, then two responses stored under the generation it produced. *)

Definition a_history : list op :=
  [OpInvalidateCollection #"books";
   OpPut 1000 #"search" (a_request #"moby") #"books" (a_response #"[1]") 2;
   OpPut 1001 #"search" (a_request #"ahab") #"books" (a_response #"[2]") 2;
   OpInvalidateCollection #"films"].

Lemma cache_freshness_witness :
  exists h1 t ns r Coll resp g h2,
    a_history = h1 ++ OpPut t ns r Coll resp g :: h2 /\ t <= 1500 /\
    marked #"[1]" = set_header #"X-HLQ-Cache" #"hit" (set_header #"X-HLQ-Cache" #"stored" resp).
Proof.
  destruct (cache_freshness no_json a_history 1500 #"search" (a_request #"moby") #"books" (marked #"[1]"))
    as (h1 & t & ns & r & Coll & resp & g & h2 & Hh & _ & _ & Hr & Ht & _).
  - vm_compute. reflexivity.
  - vm_compute. reflexivity.
  - exists h1, t, ns, r, Coll, resp, g, h2. split; [exact Hh|]. split; [lia|exact Hr].
Defined.

Lemma a_history_fits : Forall (fits no_json) a_history.
Proof. repeat constructor; vm_compute; discriminate. Qed.

Lemma cache_budget_witness :
  StatSizeBytes (GetStats (run no_json (a_history ++ [OpConfigure 1000 400]))) = 300 /\
  StatSizeBytes (GetStats (run no_json (a_history ++ [OpConfigure 1000 400]))) <=
  CacheMaxSizeBytes (limits (run no_json (a_history ++ [OpConfigure 1000 400]))).
Proof.
  split; [vm_compute; reflexivity|].
  apply (cache_budget no_json (a_history ++ [OpConfigure 1000 400])); [vm_compute; reflexivity|].
  apply Forall_app. split; [exact a_history_fits|]. constructor; [vm_compute; discriminate|constructor].
Defined.

(** With room for two entries, the third evicts the one not hit since. *)

Definition a_full_history : list op :=
  OpConfigure 1000 800 :: a_history ++ [OpGet 1100 #"search" (a_request #"moby") #"books"].

Lemma Put_evicts_lru_witness :
  exists e e',
    Entries (stored (run no_json a_full_history)) !! BuildKey no_json #"search" (a_request #"ahab") = Some e /\
    Entries (stored (Put no_json 1200 #"search" (a_request #"whale") #"books" (a_response #"[3]") 0
                       (run no_json a_full_history))) !! BuildKey no_json #"search" (a_request #"moby") = Some e' /\
    OrderSequence e < OrderSequence e'.
Proof.
  eexists _, _. split; [vm_compute; reflexivity|]. split; [vm_compute; reflexivity|].
  apply (Put_evicts_lru no_json a_full_history 1200 #"search" (a_request #"whale") #"books" (a_response #"[3]") 0
           (BuildKey no_json #"search" (a_request #"ahab")) _ (BuildKey no_json #"search" (a_request #"moby")));
    vm_compute; reflexivity.
Defined.

Lemma Put_then_Get_witness :
  (Get no_json 1300 #"search" (a_request #"whale") #"books"
     (Put no_json 1200 #"search" (a_request #"whale") #"books" (a_response #"[3]") 2 (run no_json a_history))).2 =
  Some (marked #"[3]").
Proof.
  apply (Put_then_Get no_json a_history 1200 1300 #"search" (a_request #"whale") #"books" (a_response #"[3]") 2).
  - vm_compute. reflexivity.
  - exact a_history_fits.
  - reflexivity.
  - right. vm_compute. reflexivity.
  - vm_compute. discriminate.
  - split; vm_compute; [discriminate|reflexivity].
Defined.

Lemma a_request_credentials q : line_credentials (a_request q).
Proof. split; cbn [a_request APIKeyID EmbeddedFilters]; by apply (bool_decide_unpack _). Qed.

Lemma cache_isolation_witness :
  exists t ns r Coll resp g, OpPut t ns r Coll resp g ∈ a_history /\ APIKeyID r = #"k1".
Proof.
  destruct (cache_isolation no_json a_history 1500 #"search" (a_request #"moby") #"books" (marked #"[1]"))
    as (t & ns & r & Coll & resp & g & Hin & _ & Hk & _).
  - vm_compute. reflexivity.
  - repeat constructor; apply a_request_credentials.
  - apply a_request_credentials.
  - vm_compute. reflexivity.
  - exists t, ns, r, Coll, resp, g. split; [exact Hin|exact Hk].
Defined.

Lemma cache_parameter_collision_witness :
  let r1 := mkRequest #"GET" #"/search" [] [] [] [] 0 [(#"q", #"whale&z=1")] [] [] false in
  let r2 := mkRequest #"GET" #"/search" [] [] [] [] 0 [(#"q", #"whale"); (#"z", #"1")] [] [] false in
  (Get no_json 1000 #"search" r1 #"books" (run no_json [OpPut 1000 #"search" r2 #"books" (a_response #"[1]") 0])).2 =
  Some (marked #"[1]").
Proof.
  intros r1 r2.
  apply (cache_parameter_collision no_json 1000 #"search" #"GET" #"/search" #"q" #"whale" #"z" #"1" (a_response #"[1]"));
    vm_compute; [reflexivity|discriminate].
Defined.

End SearchCacheProps.
