(* ===== verification/Wildcard.v ===== *)
(** * Wildcard patterns: src/utils/wildcard.cpp

    [Wildcard::Match] and its case-sensitive twin dispatch on the shape of the
    normalised pattern to an exact, prefix, suffix or substring comparison, and
    to a greedy matcher with one backtracking point for the rest. The model
    keeps that dispatch; the specification is the declarative relation [glob].

    A [const char *] is the list of the bytes from the pointer to the
    terminating NUL, so [*p] is [deref p] and [p + 1] is [tail p]. *)

From S2P Require Import Prelude CText.

Module Wildcard.

Definition star : ascii := "*"%char.
Definition quest : ascii := "?"%char.

Definition is_star (c : ascii) : bool := bool_decide (c = star).
Definition is_quest (c : ascii) : bool := bool_decide (c = quest).

(** ** NormalizePattern *)

Fixpoint has_double_star (p : bytes) : bool :=
  match p with
  | a :: ((b :: _) as r) => (is_star a && is_star b) || has_double_star r
  | _ => false
  end.

Fixpoint collapse (LastWasStar : bool) (p : bytes) : bytes :=
  match p with
  | [] => []
  | c :: r =>
      if is_star c then
        if LastWasStar then collapse LastWasStar r else c :: collapse true r
      else c :: collapse false r
  end.

Definition NormalizePattern (Pattern : bytes) : bytes :=
  match Pattern with
  | [] => Pattern
  | _ => if has_double_star Pattern then collapse false Pattern else Pattern
  end.

(** ** Byte comparison *)

Definition CharEqualCaseInsensitive (a b : ascii) : bool :=
  if negb (Z.land (Z.lor (code a) (code b)) 128 =? 0) then bool_decide (tolower a = tolower b)
  else if bool_decide (a = b) then true
  else (Z.lxor (code a) (code b) =? 32) && (islower a || isupper a).

Definition CharEqual (a b : ascii) : bool := bool_decide (a = b).

(** [*p] of a C string. *)

Definition deref (p : bytes) : ascii := match p with [] => NUL | c :: _ => c end.

(** The loop [for (i = 0; i < n; ++i) if (!eq(s[i], p[i])) return false] of the
    prefix, suffix and substring tests; both pointers have [n] bytes left. *)

Fixpoint equal_n (eq : ascii -> ascii -> bool) (n : nat) (s p : bytes) : bool :=
  match n with
  | O => true
  | S m => if negb (eq (deref s) (deref p)) then false else equal_n eq m (tail s) (tail p)
  end.

(** [memcmp(s, p, n) == 0]. *)

Definition memcmp_eq (n : nat) (s p : bytes) : bool := bool_decide (take n s = take n p).

(** ** The tests of the case-insensitive family *)

Fixpoint MatchExact_loop (Str Pattern : bytes) : bool :=
  match Str, Pattern with
  | c :: Str', d :: Pattern' =>
      if negb (CharEqualCaseInsensitive c d) then false else MatchExact_loop Str' Pattern'
  | _, _ => bool_decide (deref Str = deref Pattern)
  end.

Definition MatchExact (Str Pattern : bytes) : bool :=
  if bool_decide (Str = Pattern) then true else MatchExact_loop Str Pattern.

Definition MatchPrefix (Str Pattern : bytes) (PrefixLen : nat) : bool :=
  if (length Str <? PrefixLen)%nat then false
  else if memcmp_eq PrefixLen Str Pattern then true
  else equal_n CharEqualCaseInsensitive PrefixLen Str Pattern.

Definition MatchSuffix (Str Pattern : bytes) (StrLen SuffixLen : nat) : bool :=
  if (StrLen <? SuffixLen)%nat then false
  else
    let StrSuffix := drop (StrLen - SuffixLen) Str in
    let PatternSuffix := drop 1 Pattern in
    if memcmp_eq SuffixLen StrSuffix PatternSuffix then true
    else equal_n CharEqualCaseInsensitive SuffixLen StrSuffix PatternSuffix.

(** The candidate offsets are [0 .. StrLen - SubstrLen]: [n] of them remain. *)

Fixpoint MatchContains_loop (n : nat) (Str SubPattern : bytes) (SubstrLen : nat) : bool :=
  match n with
  | O => false
  | S m =>
      if memcmp_eq SubstrLen Str SubPattern then true
      else if equal_n CharEqualCaseInsensitive SubstrLen Str SubPattern then true
      else MatchContains_loop m (tail Str) SubPattern SubstrLen
  end.

Definition MatchContains (Str Pattern : bytes) (StrLen SubstrLen : nat) : bool :=
  if (StrLen <? SubstrLen)%nat then false
  else MatchContains_loop (S (StrLen - SubstrLen)) Str (drop 1 Pattern) SubstrLen.

(** ** The general matcher

    [Star] is [None] before the first star; afterwards it carries [Star + 1]
    (the pattern after the star) and [StrCheckpoint]. [None] is exhausted fuel,
    which [wildcard_fuel] excludes. *)

Fixpoint MatchWildcard_loop (eq : ascii -> ascii -> bool) (fuel : nat)
    (Str Pattern : bytes) (Star : option (bytes * bytes)) : option bool :=
  match fuel with
  | O => None
  | S fuel' =>
      match Str with
      | [] => Some (bool_decide (skip_while is_star Pattern = []))
      | c :: Str' =>
          if is_star (deref Pattern) then
            MatchWildcard_loop eq fuel' Str (tail Pattern) (Some (tail Pattern, Str))
          else if is_quest (deref Pattern) || eq c (deref Pattern) then
            MatchWildcard_loop eq fuel' Str' (tail Pattern) Star
          else match Star with
               | Some (AfterStar, StrCheckpoint) =>
                   MatchWildcard_loop eq fuel' (tail StrCheckpoint) AfterStar
                     (Some (AfterStar, tail StrCheckpoint))
               | None => Some false
               end
      end
  end.

(** The pattern suffix after the last star shrinks, or else the checkpoint
    advances, or else the string does. *)

Definition wildcard_fuel (Str Pattern : bytes) : nat :=
  S ((length Pattern + 1) * ((length Str + 2) * (length Str + 2))
     + ((length Str + 2) * (length Str + 2))).

Definition run_wildcard (eq : ascii -> ascii -> bool) (Str Pattern : bytes) : bool :=
  match MatchWildcard_loop eq (wildcard_fuel Str Pattern) Str Pattern None with
  | Some b => b
  | None => false
  end.

Definition MatchWildcard : bytes -> bytes -> bool := run_wildcard CharEqualCaseInsensitive.

(** ** The case-sensitive family *)

Definition MatchExactCaseSensitive (Str Pattern : bytes) : bool := bool_decide (Str = Pattern).

Definition MatchPrefixCaseSensitive (Str Pattern : bytes) (PrefixLen : nat) : bool :=
  if (length Str <? PrefixLen)%nat then false else memcmp_eq PrefixLen Str Pattern.

Definition MatchSuffixCaseSensitive (Str Pattern : bytes) (StrLen SuffixLen : nat) : bool :=
  if (StrLen <? SuffixLen)%nat then false
  else memcmp_eq SuffixLen (drop (StrLen - SuffixLen) Str) (drop 1 Pattern).

Fixpoint MatchContainsCaseSensitive_loop (n : nat) (Str SubPattern : bytes) (SubstrLen : nat) : bool :=
  match n with
  | O => false
  | S m =>
      if memcmp_eq SubstrLen Str SubPattern then true
      else MatchContainsCaseSensitive_loop m (tail Str) SubPattern SubstrLen
  end.

Definition MatchContainsCaseSensitive (Str Pattern : bytes) (StrLen SubstrLen : nat) : bool :=
  if (StrLen <? SubstrLen)%nat then false
  else MatchContainsCaseSensitive_loop (S (StrLen - SubstrLen)) Str (drop 1 Pattern) SubstrLen.

Definition MatchWildcardCaseSensitive : bytes -> bytes -> bool := run_wildcard CharEqual.

(** ** Dispatch *)

Definition is_wild (c : ascii) : bool := is_star c || is_quest c.

(** [Normalized.find('*') == npos && Normalized.find('?') == npos]. *)

Definition no_wildcards (p : bytes) : bool :=
  bool_decide (find_char is_star p = None) && bool_decide (find_char is_quest p = None).

Definition front_star (p : bytes) : bool := is_star (deref p).
Definition back_star (p : bytes) : bool := match last p with Some c => is_star c | None => false end.

Definition MatchInternal (Str Pattern : bytes) : bool :=
  if bool_decide (Pattern = #"*") then true
  else
    let Normalized := NormalizePattern Pattern in
    if no_wildcards Normalized then MatchExact Str Normalized
    else
      let StrLen := length Str in
      if front_star Normalized && back_star Normalized && (2 <? length Normalized)%nat then
        MatchContains Str Normalized StrLen (length Normalized - 2)
      else if front_star Normalized && bool_decide (find_char is_wild (drop 1 Normalized) = None) then
        MatchSuffix Str Normalized StrLen (length Normalized - 1)
      else if back_star Normalized &&
              bool_decide (find_char is_wild Normalized = Some (length Normalized - 1)%nat) then
        MatchPrefix Str Normalized (length Normalized - 1)
      else MatchWildcard Str Normalized.

(** [Wildcard::Match] on two [std::string]s, through their [c_str()]. *)

Definition Match (Str Pattern : bytes) : bool := MatchInternal (cstr Str) (cstr Pattern).

(** [Wildcard::MatchCaseSensitive] on C strings ([None] is [nullptr]). *)

Definition MatchCaseSensitive_cstr (StrP PatternP : option bytes) : bool :=
  match StrP, PatternP with
  | Some Str, Some Pattern =>
      if bool_decide (Pattern = #"*") then true
      else
        let Normalized := NormalizePattern Pattern in
        if no_wildcards Normalized then MatchExactCaseSensitive Str Normalized
        else
          let StrLen := length Str in
          if front_star Normalized && back_star Normalized && (2 <? length Normalized)%nat then
            MatchContainsCaseSensitive Str Normalized StrLen (length Normalized - 2)
          else if front_star Normalized && bool_decide (find_char is_wild (drop 1 Normalized) = None) then
            MatchSuffixCaseSensitive Str Normalized StrLen (length Normalized - 1)
          else if back_star Normalized &&
                  bool_decide (find_char is_wild Normalized = Some (length Normalized - 1)%nat) then
            MatchPrefixCaseSensitive Str Normalized (length Normalized - 1)
          else MatchWildcardCaseSensitive Str Normalized
  | _, _ => false
  end.

Definition MatchCaseSensitive (Str Pattern : bytes) : bool :=
  MatchCaseSensitive_cstr (Some (cstr Str)) (Some (cstr Pattern)).

(** [Wildcard::Match] on C strings. *)

Definition Match_cstr (StrP PatternP : option bytes) : bool :=
  match StrP, PatternP with
  | Some Str, Some Pattern => MatchInternal Str Pattern
  | _, _ => false
  end.

Definition Filter (Strings : list bytes) (Pattern : bytes) : list bytes :=
  foldl (fun Matches Value => if Match Value Pattern then Matches ++ [Value] else Matches) [] Strings.

(** ** Specification: what a pattern matches *)

Inductive glob (eq : ascii -> ascii -> bool) : bytes -> bytes -> Prop :=
| glob_nil : glob eq [] []
| glob_star_skip p s : glob eq p s -> glob eq (star :: p) s
| glob_star_take p c s : glob eq (star :: p) s -> glob eq (star :: p) (c :: s)
| glob_quest p c s : glob eq p s -> glob eq (quest :: p) (c :: s)
| glob_char p d c s :
    d <> star -> d <> quest -> eq c d = true -> glob eq p s -> glob eq (d :: p) (c :: s).

(** A pattern whose dispatch is not the one its shape calls for: it starts and
    ends with a star and has a further wildcard in between. *)

Definition inner_wildcard (Normalized : bytes) : bool :=
  front_star Normalized && back_star Normalized && (2 <? length Normalized)%nat &&
  existsb is_wild (drop 1 (take (length Normalized - 1) Normalized)).

(** ** The matcher agrees with the specification *)

Section Matcher.

Context (ceq : ascii -> ascii -> bool).

(** No byte of a C string compares equal to the terminating NUL. *)

Context (ceq_nul : forall c, c <> NUL -> ceq c NUL = false).

(** [seg q u]: the star-free pattern [q] matches exactly [u], byte by byte. *)

Definition seg : bytes -> bytes -> Prop :=
  Forall2 (fun d c => d <> star /\ (d = quest \/ ceq c d = true)).

Lemma is_star_spec c : is_star c = true <-> c = star.
Proof. apply bool_decide_eq_true. Qed.

Lemma is_quest_spec c : is_quest c = true <-> c = quest.
Proof. apply bool_decide_eq_true. Qed.

Lemma is_star_false c : is_star c = false <-> c <> star.
Proof. apply bool_decide_eq_false. Qed.

Lemma is_quest_false c : is_quest c = false <-> c <> quest.
Proof. apply bool_decide_eq_false. Qed.

Lemma glob_empty p : glob ceq p [] <-> skip_while is_star p = [].
Proof.
  unfold skip_while. split.
  - intros H. remember [] as s eqn:Hs. induction H; try done.
    simpl. destruct (span is_star p). by apply IHglob.
  - induction p as [|d p IH]; simpl; [constructor|].
    destruct (is_star d) eqn:E; [|done]. apply is_star_spec in E as ->.
    destruct (span is_star p). simpl. intros Hp. apply glob_star_skip. auto.
Qed.

Lemma glob_star p s : glob ceq (star :: p) s <-> exists u t, s = u ++ t /\ glob ceq p t.
Proof.
  split.
  - intros H. remember (star :: p) as q eqn:Hq. induction H; simplify_eq.
    + by exists [], s.
    + destruct IHglob as (u & t & -> & Ht); [done|]. by exists (c :: u), t.
  - intros (u & t & -> & Ht). induction u as [|c u IH]; simpl;
      [by apply glob_star_skip|by apply glob_star_take].
Qed.

Lemma glob_star_app p u s : glob ceq (star :: p) s -> glob ceq (star :: p) (u ++ s).
Proof.
  rewrite !glob_star. intros (v & t & -> & Ht). exists (u ++ v), t. by rewrite app_assoc.
Qed.

Lemma glob_star_step p c s :
  glob ceq (star :: p) (c :: s) <-> glob ceq p (c :: s) \/ glob ceq (star :: p) s.
Proof.
  rewrite !glob_star. split.
  - intros ([|d u] & t & Hs & Ht); simplify_eq/=; [by left|]. right. by exists u, t.
  - intros [H|(u & t & -> & Ht)]; [by exists [], (c :: s)|by exists (c :: u), t].
Qed.

(** One step of the pattern over a byte it does or does not match. *)

Lemma glob_cons d p c s :
  d <> star ->
  glob ceq (d :: p) (c :: s) <-> (is_quest d || ceq c d = true) /\ glob ceq p s.
Proof.
  intros Hd. split.
  - intros H. inv H; [by split|]. split; [|done].
    match goal with He : ceq _ _ = true |- _ => rewrite He end. by rewrite orb_true_r.
  - intros [Hm Hg]. destruct (decide (d = quest)) as [->|Hq]; [by constructor|].
    apply is_quest_false in Hq as Hq'. rewrite Hq' in Hm. by constructor.
Qed.

Lemma glob_app_seg q p s u :
  seg q u -> glob ceq (q ++ p) s -> exists v t, s = v ++ t /\ length v = length q /\ glob ceq p t.
Proof.
  intros Hseg. revert s. induction Hseg as [|d c q u [Hd Hm] Hseg IH]; simpl; intros s H.
  - by exists [], s.
  - destruct s as [|c' s]; [by inv H|].
    apply glob_cons in H as [_ H]; [|done].
    destruct (IH _ H) as (v & t & -> & Hl & Ht). exists (c' :: v), t. simpl. auto with lia.
Qed.

(** What is left to decide in a loop state: the current attempt succeeds, or a
    later one from the last star does. *)

Definition pending (Pattern Str : bytes) (Star : option (bytes * bytes)) : Prop :=
  glob ceq Pattern Str \/
  match Star with None => False | Some (a, ck) => glob ceq (star :: a) (tail ck) end.

(** The current attempt has matched a star-free part of the pattern. *)

Definition attempt (Pattern Str : bytes) (Star : option (bytes * bytes)) : Prop :=
  match Star with
  | None => True
  | Some (a, ck) => exists q u, a = q ++ Pattern /\ ck = u ++ Str /\ seg q u
  end.

Definition loop_measure (B : nat) (Str Pattern : bytes) (Star : option (bytes * bytes)) : nat :=
  match Star with
  | None => (length Pattern + 1) * (B * B) + length Str
  | Some (a, ck) => length a * (B * B) + length ck * B + length Str
  end.

(** Meeting a star makes every earlier checkpoint irrelevant. *)

Lemma pending_new_star p c s Star :
  attempt (star :: p) (c :: s) Star ->
  pending (star :: p) (c :: s) Star <-> pending p (c :: s) (Some (p, c :: s)).
Proof.
  unfold pending at 2. simpl tail. rewrite <- glob_star_step.
  intros Ha. unfold pending. split; [|by left].
  intros [H|H]; [done|]. destruct Star as [[a ck]|]; [|done].
  destruct Ha as (q & u & -> & -> & Hseg).
  apply glob_star in H as (x & t & Hx & Ht).
  apply (glob_app_seg _ _ _ _ Hseg) in Ht as (v & w & -> & Hl & Hw).
  apply Forall2_length in Hseg as Hlen.
  rewrite (app_assoc x v w) in Hx.
  assert (exists z, c :: s = z ++ w) as [z Hz].
  { destruct u as [|c' u]; simpl in Hx.
    - exists (c :: x ++ v). by rewrite Hx.
    - apply (app_suffix u _ _ _ Hx). apply (f_equal length) in Hx. revert Hx Hlen.
      rewrite !length_app. simpl. lia. }
  rewrite Hz. by apply glob_star_app.
Qed.

(** An attempt that has matched everything leaves nothing to a later one. *)

Lemma pending_end p Star :
  attempt p [] Star -> pending p [] Star <-> glob ceq p [].
Proof.
  intros Ha. unfold pending. split; [|by left].
  intros [H|H]; [done|]. destruct Star as [[a ck]|]; [|done].
  destruct Ha as (q & u & -> & -> & Hseg). rewrite app_nil_r in H.
  apply glob_star in H as (x & t & Hx & Ht).
  apply (glob_app_seg _ _ _ _ Hseg) in Ht as (v & w & -> & Hl & Hw).
  apply Forall2_length in Hseg. destruct u as [|c u]; simpl in *.
  - symmetry in Hx. apply app_eq_nil in Hx as [_ Hx]. by apply app_eq_nil in Hx as [_ ->].
  - apply (f_equal length) in Hx. rewrite !length_app in Hx. lia.
Qed.

(** A mismatch moves the checkpoint on by one byte. *)

Lemma pending_backtrack p s a ck :
  ~ glob ceq p s ->
  pending p s (Some (a, ck)) <-> pending a (tail ck) (Some (a, tail ck)).
Proof.
  intros Hno. unfold pending. destruct (tail ck) as [|c t]; simpl.
  - rewrite (glob_star a []). split; [|intros [H|H]; right; [by exists [], []|done]].
    intros [H|(u & t & Hu & Ht)]; [done|]. symmetry in Hu. apply app_eq_nil in Hu as [-> ->]. auto.
  - rewrite glob_star_step. tauto.
Qed.

Lemma tail_sub (s : bytes) c : c ∈ tail s -> c ∈ s.
Proof. destruct s; [done|]. simpl. rewrite elem_of_cons. auto. Qed.

(** Each of the three moves of the loop decreases the measure. *)

Lemma measure_new_star B c s p Star :
  (length (c :: s) < B)%nat -> attempt (star :: p) (c :: s) Star ->
  (loop_measure B (c :: s) p (Some (p, c :: s)) < loop_measure B (c :: s) (star :: p) Star)%nat.
Proof.
  intros HB Ha. unfold loop_measure. destruct Star as [[a ck]|].
  - destruct Ha as (q & u & -> & -> & _). rewrite !length_app.
    change (length (star :: p)) with (S (length p)).
    generalize dependent (length (c :: s)). generalize (length p) (length q) (length u). nia.
  - change (length (star :: p)) with (S (length p)).
    generalize dependent (length (c :: s)). generalize (length p). nia.
Qed.

Lemma measure_advance B c s d p Star :
  (loop_measure B s p Star < loop_measure B (c :: s) (d :: p) Star)%nat.
Proof.
  unfold loop_measure.
  change (length (c :: s)) with (S (length s)). change (length (d :: p)) with (S (length p)).
  destruct Star as [[a ck]|]; [lia|]. generalize (length s) (length p). nia.
Qed.

Lemma measure_backtrack B s p a ck :
  (length ck < B)%nat -> ck <> [] ->
  (loop_measure B (tail ck) a (Some (a, tail ck)) < loop_measure B s p (Some (a, ck)))%nat.
Proof.
  intros HB Hne. unfold loop_measure. destruct ck as [|c t]; [done|].
  change (length (c :: t)) with (S (length t)) in *. simpl tail.
  revert HB. generalize (length t) (length s) (length a). nia.
Qed.

Lemma MatchWildcard_loop_correct B fuel : forall Str Pattern Star,
  (loop_measure B Str Pattern Star < fuel)%nat ->
  (length Str < B)%nat -> NUL ∉ Str -> attempt Pattern Str Star ->
  (forall a ck, Star = Some (a, ck) -> (length ck < B)%nat /\ NUL ∉ ck) ->
  exists b, MatchWildcard_loop ceq fuel Str Pattern Star = Some b /\
            (b = true <-> pending Pattern Str Star).
Proof.
  induction fuel as [|fuel IH]; intros Str Pattern Star Hf HB Hn Ha Hck; [lia|].
  destruct Str as [|c Str]; cbn [MatchWildcard_loop].
  { eexists; split; [done|]. by rewrite bool_decide_eq_true, pending_end, glob_empty. }
  assert (c <> NUL /\ NUL ∉ Str) as [Hc HnS] by (rewrite elem_of_cons in Hn; naive_solver).
  destruct (is_star (deref Pattern)) eqn:Est.
  { apply is_star_spec in Est. destruct Pattern as [|d p]; [done|]. simpl in Est. subst d.
    destruct (IH (c :: Str) p (Some (p, c :: Str))) as (b & Hb & Hspec); simpl tail.
    - pose proof (measure_new_star B c Str p Star HB Ha). lia.
    - done.
    - done.
    - exists [], []. repeat split; try done. constructor.
    - naive_solver.
    - exists b. split; [done|]. rewrite Hspec. symmetry. by apply pending_new_star. }
  destruct (is_quest (deref Pattern) || ceq c (deref Pattern)) eqn:Em.
  { destruct Pattern as [|d p]; simpl in *.
    { rewrite ceq_nul in Em; done. }
    apply is_star_false in Est. apply orb_true_iff in Em as Em'.
    destruct (IH Str p Star) as (b & Hb & Hspec).
    - pose proof (measure_advance B c Str d p Star). lia.
    - lia.
    - done.
    - destruct Star as [[a ck]|]; [|done]. destruct Ha as (q & u & -> & -> & Hseg).
      exists (q ++ [d]), (u ++ [c]). rewrite <- !app_assoc. repeat split; [done..|].
      apply Forall2_app; [done|]. constructor; [|constructor].
      split; [done|]. destruct Em' as [E|E]; [left; by apply is_quest_spec|by right].
    - done.
    - exists b. split; [done|]. rewrite Hspec. unfold pending. rewrite glob_cons by done.
      rewrite Em. tauto. }
  assert (~ glob ceq Pattern (c :: Str)) as Hno.
  { intros H. destruct Pattern as [|d p]; [by inv H|]. simpl in *.
    apply is_star_false in Est. apply glob_cons in H as [H _]; [|done]. congruence. }
  destruct Star as [[a ck]|].
  2: { exists false. split; [done|]. unfold pending. split; [done|]. intros [H|H]; done. }
  destruct (Hck a ck eq_refl) as [Hlck Hnck].
  assert (ck <> []) as Hne by (destruct Ha as (q & u & _ & -> & _); by destruct u).
  assert (length (tail ck) < length ck)%nat as Htl by (destruct ck; simpl; [done|lia]).
  destruct (IH (tail ck) a (Some (a, tail ck))) as (b & Hb & Hspec).
  - pose proof (measure_backtrack B (c :: Str) Pattern a ck Hlck Hne). lia.
  - lia.
  - intros H. by apply Hnck, tail_sub.
  - exists [], []. repeat split; try done. constructor.
  - intros a' ck' [= <- <-]. split; [lia|]. intros H. by apply Hnck, tail_sub.
  - exists b. split; [done|]. rewrite Hspec. symmetry. by apply pending_backtrack.
Qed.

Lemma run_wildcard_correct Str Pattern :
  NUL ∉ Str -> run_wildcard ceq Str Pattern = true <-> glob ceq Pattern Str.
Proof.
  intros Hn.
  destruct (MatchWildcard_loop_correct (length Str + 2) (wildcard_fuel Str Pattern) Str Pattern None)
    as (b & Hb & Hspec); try done.
  - unfold loop_measure, wildcard_fuel. nia.
  - lia.
  - unfold run_wildcard. rewrite Hb, Hspec. unfold pending. tauto.
Qed.

End Matcher.

(** ** The specialised tests *)

(** A wildcard-free pattern [q] matches [u]. *)

Definition lits (ceq : ascii -> ascii -> bool) : bytes -> bytes -> Prop :=
  Forall2 (fun d c => ceq c d = true).

(** What the dispatch relies on, for a family of tests over a byte comparison. *)

Record tests := Tests {
  t_exact : bytes -> bytes -> bool;
  t_prefix : bytes -> bytes -> nat -> bool;
  t_suffix : bytes -> bytes -> nat -> nat -> bool;
  t_contains : bytes -> bytes -> nat -> nat -> bool;
  t_wild : bytes -> bytes -> bool
}.

Class TestsOk (ceq : ascii -> ascii -> bool) (T : tests) : Prop := {
  exact_ok s p : NUL ∉ s -> NUL ∉ p -> t_exact T s p = true <-> lits ceq p s;
  prefix_ok s q r :
    t_prefix T s (q ++ r) (length q) = true <-> exists u t, s = u ++ t /\ lits ceq q u;
  suffix_ok s x q :
    t_suffix T s (x :: q) (length s) (length q) = true <-> exists u t, s = u ++ t /\ lits ceq q t;
  contains_ok s x q r :
    t_contains T s (x :: q ++ r) (length s) (length q) = true <->
    exists u v t, s = u ++ v ++ t /\ lits ceq q v;
  wild_ok s p : NUL ∉ s -> t_wild T s p = true <-> glob ceq p s
}.

Definition insensitive_tests : tests :=
  Tests MatchExact MatchPrefix MatchSuffix MatchContains MatchWildcard.

Definition sensitive_tests : tests :=
  Tests MatchExactCaseSensitive MatchPrefixCaseSensitive MatchSuffixCaseSensitive
    MatchContainsCaseSensitive MatchWildcardCaseSensitive.

(** The dispatch shared by the two families. *)

Definition dispatch (T : tests) (Str Pattern : bytes) : bool :=
  if bool_decide (Pattern = #"*") then true
  else
    let Normalized := NormalizePattern Pattern in
    if no_wildcards Normalized then t_exact T Str Normalized
    else if front_star Normalized && back_star Normalized && (2 <? length Normalized)%nat then
      t_contains T Str Normalized (length Str) (length Normalized - 2)
    else if front_star Normalized && bool_decide (find_char is_wild (drop 1 Normalized) = None) then
      t_suffix T Str Normalized (length Str) (length Normalized - 1)
    else if back_star Normalized &&
            bool_decide (find_char is_wild Normalized = Some (length Normalized - 1)%nat) then
      t_prefix T Str Normalized (length Normalized - 1)
    else t_wild T Str Normalized.

Lemma MatchInternal_dispatch s p : MatchInternal s p = dispatch insensitive_tests s p.
Proof. reflexivity. Qed.

Lemma MatchCaseSensitive_dispatch s p :
  MatchCaseSensitive_cstr (Some s) (Some p) = dispatch sensitive_tests s p.
Proof. reflexivity. Qed.

Lemma CharEqualCaseInsensitive_tolower a b :
  CharEqualCaseInsensitive a b = bool_decide (tolower a = tolower b).
Proof.
  by_bytes2 (fun a b => bool_decide
    (CharEqualCaseInsensitive a b = bool_decide (tolower a = tolower b))) a b.
Qed.

Section Tests.

Context (ceq : ascii -> ascii -> bool).
Context (ceq_refl : forall c, ceq c c = true).

Lemma lits_refl q : lits ceq q q.
Proof. apply Forall2_same_length_lookup. split; [done|]. intros i x y. naive_solver. Qed.

Lemma lits_length q u : lits ceq q u -> length q = length u.
Proof. apply Forall2_length. Qed.

Lemma equal_n_lits n s p :
  (n <= length s)%nat -> (n <= length p)%nat ->
  equal_n ceq n s p = true <-> lits ceq (take n p) (take n s).
Proof.
  revert s p. induction n as [|n IH]; intros s p Hs Hp; simpl.
  - split; [constructor|done].
  - destruct s as [|c s]; simpl in *; [lia|]. destruct p as [|d p]; simpl in *; [lia|].
    destruct (ceq c d) eqn:E; simpl.
    + rewrite IH by lia. split; [by constructor|by inversion 1].
    + split; [done|]. intros H. inversion H. congruence.
Qed.

Lemma memcmp_lits n s p : memcmp_eq n s p = true -> lits ceq (take n p) (take n s).
Proof. unfold memcmp_eq. rewrite bool_decide_eq_true. intros ->. apply lits_refl. Qed.

(** Fast path or slow path, the comparison of [n] bytes is [lits]. *)

Lemma compare_n_lits n s p :
  (n <= length s)%nat -> (n <= length p)%nat ->
  (if memcmp_eq n s p then true else equal_n ceq n s p) = true <-> lits ceq (take n p) (take n s).
Proof.
  intros Hs Hp. destruct (memcmp_eq n s p) eqn:E; [|by apply equal_n_lits].
  split; [|done]. intros _. by apply memcmp_lits.
Qed.

(** Candidate offsets of a substring search. *)

Lemma offsets_step (P : bytes -> bytes -> Prop) c s q :
  (exists u v t, c :: s = u ++ v ++ t /\ P q v) <->
  (exists v t, c :: s = v ++ t /\ P q v) \/ (exists u v t, s = u ++ v ++ t /\ P q v).
Proof.
  split.
  - intros ([|d u] & v & t & Hs & Hv); simplify_eq/=; [left|right]; eauto 10.
  - intros [(v & t & -> & Hv)|(u & v & t & -> & Hv)]; [by exists [], v, t|].
    by exists (c :: u), v, t.
Qed.

Lemma prefix_take q s :
  (exists v t, s = v ++ t /\ lits ceq q v) <->
  (length q <= length s)%nat /\ lits ceq q (take (length q) s).
Proof.
  split.
  - intros (v & t & -> & Hv). pose proof (lits_length _ _ Hv) as Hl.
    rewrite length_app. split; [lia|]. by rewrite Hl, take_app_length.
  - intros [Hl Hv]. exists (take (length q) s), (drop (length q) s).
    by rewrite take_drop.
Qed.

Lemma contains_loop_lits (test : bytes -> bool) n s q :
  (forall t, (length q <= length t)%nat -> test t = true <-> lits ceq q (take (length q) t)) ->
  n = S (length s - length q) -> (length q <= length s)%nat ->
  forall loop : nat -> bytes -> bool,
  (forall m t, loop (S m) t = if test t then true else loop m (tail t)) ->
  (forall t, loop 0%nat t = false) ->
  loop n s = true <-> exists u v t, s = u ++ v ++ t /\ lits ceq q v.
Proof.
  intros Ht -> Hl loop HS H0. revert Hl.
  induction s as [|c s IH]; intros Hl; rewrite HS.
  - simpl in Hl. destruct q; [|simpl in Hl; lia].
    rewrite (proj2 (Ht [] (Nat.le_refl _))) by constructor.
    split; [|done]. intros _. exists [], [], []. split; [done|constructor].
  - rewrite offsets_step, prefix_take. destruct (test (c :: s)) eqn:E.
    + apply Ht in E; [|done]. split; [|done]. intros _. left. done.
    + assert (~ lits ceq q (take (length q) (c :: s))) as Hno.
      { intros H. apply Ht in H; [congruence|done]. }
      simpl tail. destruct (decide (length q <= length s)%nat) as [Hle|Hgt].
      * replace (length (c :: s) - length q)%nat with (S (length s - length q)) by (simpl; lia).
        rewrite IH by done. split; [by right|]. intros [[_ H]|H]; done.
      * replace (length (c :: s) - length q)%nat with 0%nat by (simpl in *; lia).
        rewrite H0. split; [done|]. intros [[_ H]|(u & v & t & -> & Hv)]; [done|].
        apply lits_length in Hv. rewrite !length_app in Hgt. lia.
Qed.

End Tests.

Lemma CharEqualCaseInsensitive_refl c : CharEqualCaseInsensitive c c = true.
Proof. rewrite CharEqualCaseInsensitive_tolower. by apply bool_decide_eq_true. Qed.

Lemma CharEqualCaseInsensitive_nul c : c <> NUL -> CharEqualCaseInsensitive c NUL = false.
Proof.
  by_bytes (fun c => bool_decide (c <> NUL -> CharEqualCaseInsensitive c NUL = false)) c.
Qed.

Lemma CharEqual_nul c : c <> NUL -> CharEqual c NUL = false.
Proof. intros H. by apply bool_decide_eq_false. Qed.

Lemma lits_CharEqual q u : lits CharEqual q u <-> q = u.
Proof.
  split; [|intros ->; apply lits_refl; intros c; by apply bool_decide_eq_true].
  intros H. induction H as [|d c q u Hd H IH]; [done|].
  apply bool_decide_eq_true in Hd. by subst.
Qed.

Lemma MatchExact_loop_lits s p :
  NUL ∉ s -> NUL ∉ p -> MatchExact_loop s p = true <-> lits CharEqualCaseInsensitive p s.
Proof.
  revert p. induction s as [|c s IH]; intros [|d p] Hs Hp; simpl.
  - split; [constructor|done].
  - rewrite bool_decide_eq_true, elem_of_cons in *. split; [naive_solver|inversion 1].
  - rewrite bool_decide_eq_true, elem_of_cons in *. split; [naive_solver|inversion 1].
  - rewrite elem_of_cons in *. destruct (CharEqualCaseInsensitive c d) eqn:E; simpl.
    + rewrite IH by naive_solver. split; [by constructor|by inversion 1].
    + split; [done|]. inversion 1. congruence.
Qed.

(** The tail of a string whose length is known splits it. *)

Lemma suffix_drop (P : bytes -> Prop) (s : bytes) n :
  (n <= length s)%nat ->
  (exists u t, s = u ++ t /\ length t = n /\ P t) <-> P (drop (length s - n) s).
Proof.
  intros Hn. split.
  - intros (u & t & -> & Hl & Ht). rewrite length_app.
    replace (length u + length t - n)%nat with (length u) by lia. by rewrite drop_app_length.
  - intros H. exists (take (length s - n) s), (drop (length s - n) s).
    rewrite take_drop, length_drop. repeat split; [|done]. lia.
Qed.

Lemma suffix_lits ceq q s :
  (exists u t, s = u ++ t /\ lits ceq q t) <->
  (length q <= length s)%nat /\ lits ceq q (drop (length s - length q) s).
Proof.
  split.
  - intros (u & t & -> & Ht). pose proof (lits_length _ _ _ Ht) as Hl.
    rewrite !length_app. split; [lia|].
    replace (length u + length t - length q)%nat with (length u) by lia. by rewrite drop_app_length.
  - intros [Hl Ht]. exists (take (length s - length q) s), (drop (length s - length q) s).
    by rewrite take_drop.
Qed.

Lemma take_drop_all n (s : bytes) : (n <= length s)%nat -> take n (drop (length s - n) s) = drop (length s - n) s.
Proof. intros Hn. apply take_ge. rewrite length_drop. lia. Qed.

#[export] Instance insensitive_ok : TestsOk CharEqualCaseInsensitive insensitive_tests.
Proof.
  pose proof CharEqualCaseInsensitive_refl as Hr. constructor; simpl.
  - intros s p Hs Hp. unfold MatchExact. case_bool_decide as E.
    + subst. split; [|done]. intros _. by apply lits_refl.
    + by apply MatchExact_loop_lits.
  - intros s q r. rewrite prefix_take. unfold MatchPrefix. case_match eqn:E.
    + apply Nat.ltb_lt in E. split; [done|lia].
    + apply Nat.ltb_ge in E. rewrite compare_n_lits by (rewrite ?length_app; auto; lia).
      rewrite take_app_length. tauto.
  - intros s x q. rewrite suffix_lits. unfold MatchSuffix. case_match eqn:E.
    + apply Nat.ltb_lt in E. split; [done|lia].
    + apply Nat.ltb_ge in E. cbn [drop].
      rewrite compare_n_lits by (rewrite ?length_drop; auto; lia).
      rewrite take_drop_all by lia. rewrite (take_ge q) by lia. tauto.
  - intros s x q r. unfold MatchContains. case_match eqn:E.
    + apply Nat.ltb_lt in E. split; [done|]. intros (u & v & t & -> & Hv).
      apply lits_length in Hv. rewrite !length_app in E. lia.
    + apply Nat.ltb_ge in E. cbn [drop].
      apply (contains_loop_lits CharEqualCaseInsensitive
        (fun t => if memcmp_eq (length q) t (q ++ r) then true
                  else equal_n CharEqualCaseInsensitive (length q) t (q ++ r))
        _ s q) with (loop := fun n t => MatchContains_loop n t (q ++ r) (length q)); try done.
      * intros t Ht. rewrite compare_n_lits by (rewrite ?length_app; auto; lia).
        by rewrite take_app_length.
      * intros m t. simpl. by destruct (memcmp_eq _ _ _).
  - intros s p Hs. apply run_wildcard_correct; [|done]. apply CharEqualCaseInsensitive_nul.
Qed.

#[export] Instance sensitive_ok : TestsOk CharEqual sensitive_tests.
Proof.
  constructor; simpl.
  - intros s p _ _. unfold MatchExactCaseSensitive. rewrite bool_decide_eq_true, lits_CharEqual. done.
  - intros s q r. rewrite prefix_take, lits_CharEqual. unfold MatchPrefixCaseSensitive.
    case_match eqn:E.
    + apply Nat.ltb_lt in E. split; [done|lia].
    + apply Nat.ltb_ge in E. unfold memcmp_eq. rewrite bool_decide_eq_true, take_app_length.
      naive_solver.
  - intros s x q. rewrite suffix_lits, lits_CharEqual. unfold MatchSuffixCaseSensitive.
    case_match eqn:E.
    + apply Nat.ltb_lt in E. split; [done|lia].
    + apply Nat.ltb_ge in E. unfold memcmp_eq. cbn [drop].
      rewrite bool_decide_eq_true, take_drop_all by lia. rewrite (take_ge q) by lia. naive_solver.
  - intros s x q r. unfold MatchContainsCaseSensitive. case_match eqn:E.
    + apply Nat.ltb_lt in E. split; [done|]. intros (u & v & t & -> & Hv).
      apply lits_length in Hv. rewrite !length_app in E. lia.
    + apply Nat.ltb_ge in E. cbn [drop].
      apply (contains_loop_lits CharEqual (fun t => memcmp_eq (length q) t (q ++ r)) _ s q)
        with (loop := fun n t => MatchContainsCaseSensitive_loop n t (q ++ r) (length q)); try done.
      intros t Ht. unfold memcmp_eq. rewrite bool_decide_eq_true, lits_CharEqual, take_app_length.
      naive_solver.
  - intros s p Hs. apply run_wildcard_correct; [|done]. apply CharEqual_nul.
Qed.

(** ** Normalisation *)

Lemma glob_cong ceq d p p' :
  (forall s, glob ceq p s <-> glob ceq p' s) -> forall s, glob ceq (d :: p) s <-> glob ceq (d :: p') s.
Proof.
  intros H s. destruct (decide (d = star)) as [->|Hd].
  - rewrite !glob_star. setoid_rewrite H. done.
  - destruct s as [|c s].
    + rewrite !glob_empty. unfold skip_while. simpl. apply is_star_false in Hd. by rewrite Hd.
    + by rewrite !glob_cons, H.
Qed.

Lemma glob_star_star ceq p s : glob ceq (star :: star :: p) s <-> glob ceq (star :: p) s.
Proof.
  split; [|by apply glob_star_skip].
  rewrite (glob_star ceq (star :: p)). intros (u & t & -> & Ht). by apply glob_star_app.
Qed.

Lemma glob_collapse ceq p :
  (forall s, glob ceq (collapse false p) s <-> glob ceq p s) /\
  (forall s, glob ceq (star :: collapse true p) s <-> glob ceq (star :: p) s).
Proof.
  induction p as [|c r [IHf IHt]]; [done|]. simpl. destruct (is_star c) eqn:E.
  - apply is_star_spec in E as ->. split; intros s; [apply IHt|].
    by rewrite IHt, glob_star_star.
  - split; intros s; [by apply glob_cong|]. by do 2 apply glob_cong.
Qed.

Lemma glob_NormalizePattern ceq p s : glob ceq (NormalizePattern p) s <-> glob ceq p s.
Proof.
  unfold NormalizePattern. destruct p as [|c r]; [done|].
  destruct (has_double_star _); [|done]. apply glob_collapse.
Qed.

Lemma collapse_sub b p c : c ∈ collapse b p -> c ∈ p.
Proof.
  revert b. induction p as [|d r IH]; intros b; simpl; [done|].
  destruct (is_star d), b; rewrite ?elem_of_cons; naive_solver.
Qed.

Lemma NormalizePattern_sub p c : c ∈ NormalizePattern p -> c ∈ p.
Proof.
  unfold NormalizePattern. destruct p as [|d r]; [done|].
  destruct (has_double_star _); [|done]. apply collapse_sub.
Qed.

(** A normalised pattern has no two stars in a row. *)

Lemma collapse_no_double p :
  has_double_star (collapse false p) = false /\
  (has_double_star (star :: collapse true p) = false).
Proof.
  induction p as [|c r [IHf IHt]]; [done|]. simpl collapse.
  destruct (is_star c) eqn:E; [by apply is_star_spec in E as ->|].
  assert (has_double_star (c :: collapse false r) = false) as Hc.
  { simpl. destruct (collapse false r) eqn:E'; [done|]. by rewrite E, IHf. }
  split; [done|]. change (is_star star && is_star c || has_double_star (c :: collapse false r) = false).
  by rewrite E, Hc.
Qed.

Lemma NormalizePattern_no_double p : has_double_star (NormalizePattern p) = false.
Proof.
  unfold NormalizePattern. destruct p as [|c r]; [done|].
  destruct (has_double_star (c :: r)) eqn:E; [apply collapse_no_double|done].
Qed.

(** ** The dispatch is exact, outside the inner-wildcard shape *)

Definition plain (q : bytes) : Prop := Forall (fun c => is_wild c = false) q.

Lemma glob_plain_app ceq q p s :
  plain q -> glob ceq (q ++ p) s <-> exists u t, s = u ++ t /\ lits ceq q u /\ glob ceq p t.
Proof.
  intros Hq. revert s. induction Hq as [|d q Hd Hq IH]; intros s; simpl.
  - split; [intros H; exists [], s; split_and!; [done|constructor|done]|].
    intros (u & t & -> & Hu & Ht). by inv Hu.
  - apply orb_false_iff in Hd as [Hs Hqu]. apply is_star_false in Hs as Hs'. split.
    + intros H. destruct s as [|c s]; [by inv H|]. apply glob_cons in H as [Hm H]; [|done].
      rewrite Hqu in Hm. apply IH in H as (u & t & -> & Hu & Ht).
      exists (c :: u), t. repeat split; [|done]. by constructor.
    + intros (u & t & -> & Hu & Ht). inv Hu. simpl. apply glob_cons; [done|].
      rewrite Hqu. simpl. split; [done|]. apply IH. eauto.
Qed.

Lemma glob_plain ceq q s : plain q -> glob ceq q s <-> lits ceq q s.
Proof.
  intros Hq. rewrite <- (app_nil_r q) at 1. rewrite glob_plain_app by done. split.
  - intros (u & t & -> & Hu & Ht). inv Ht. by rewrite app_nil_r.
  - intros H. exists s, []. rewrite app_nil_r. split_and!; [done|done|constructor].
Qed.

Lemma glob_single_star ceq s : glob ceq [star] s.
Proof. apply glob_star. exists s, []. rewrite app_nil_r. split; [done|constructor]. Qed.

Lemma no_wildcards_plain p : no_wildcards p = true <-> plain p.
Proof.
  unfold no_wildcards, plain, is_wild.
  rewrite andb_true_iff, !bool_decide_eq_true, !find_char_None, !Forall_forall.
  setoid_rewrite orb_false_iff. naive_solver.
Qed.

Lemma back_star_spec p : back_star p = true <-> exists q, p = q ++ [star].
Proof.
  unfold back_star. split.
  - destruct (last p) as [c|] eqn:E; [|done]. apply last_Some in E as [q ->].
    rewrite is_star_spec. intros ->. by exists q.
  - intros [q ->]. by rewrite last_snoc.
Qed.

Lemma front_star_spec p : front_star p = true <-> exists q, p = star :: q.
Proof.
  unfold front_star. destruct p as [|c q]; simpl.
  - split; [done|]. by intros [q ?].
  - rewrite is_star_spec. split; [intros ->; by exists q|]. by intros [? [= -> _]].
Qed.

Lemma existsb_plain q : existsb is_wild q = false <-> plain q.
Proof.
  unfold plain. induction q as [|c q IH]; simpl; [done|].
  rewrite orb_false_iff, Forall_cons, IH. done.
Qed.

Lemma contains_shape p :
  front_star p && back_star p && (2 <? length p)%nat = true ->
  exists q, p = star :: q ++ [star] /\ length q = (length p - 2)%nat /\
            inner_wildcard p = existsb is_wild q.
Proof.
  intros H. apply andb_true_iff in H as Hc. unfold inner_wildcard. rewrite H. simpl.
  rewrite andb_true_iff in Hc. destruct Hc as [[Hf Hb] Hl]. apply Nat.ltb_lt in Hl.
  apply front_star_spec in Hf as [q ->]. apply back_star_spec in Hb as [r Hr].
  destruct r as [|d r]; simplify_eq/=.
  exists r. rewrite length_app. simpl. split_and!; [done|lia|].
  replace (length r + 1 - 0)%nat with (S (length r)) by lia. simpl.
  by rewrite take_app_length, drop_0.
Qed.

Lemma dispatch_correct ceq T `{!TestsOk ceq T} s p :
  NUL ∉ s -> NUL ∉ p -> inner_wildcard (NormalizePattern p) = false ->
  dispatch T s p = true <-> glob ceq p s.
Proof.
  intros Hs Hp Hin. unfold dispatch. case_bool_decide as Ep.
  { subst. split; [|done]. intros _. apply glob_single_star. }
  rewrite <- (glob_NormalizePattern ceq p).
  assert (NUL ∉ NormalizePattern p) as Hn by (intros H; by apply Hp, NormalizePattern_sub).
  generalize dependent (NormalizePattern p). intros n Hin Hn. cbv zeta.
  destruct (no_wildcards n) eqn:E1.
  { apply no_wildcards_plain in E1. by rewrite exact_ok, glob_plain. }
  destruct (front_star n && back_star n && (2 <? length n)%nat) eqn:E2.
  { destruct (contains_shape n E2) as (q & -> & Hl & Hw). rewrite Hw in Hin.
    apply existsb_plain in Hin. rewrite <- Hl, contains_ok, glob_star.
    setoid_rewrite (glob_plain_app ceq q [star]); [|done]. split.
    - intros (u & v & t & -> & Hv). exists u, (v ++ t). split; [done|].
      exists v, t. repeat split; try done. apply glob_single_star.
    - intros (u & ? & -> & v & t & -> & Hv & _). by exists u, v, t. }
  destruct (front_star n && bool_decide (find_char is_wild (drop 1 n) = None)) eqn:E3.
  { apply andb_true_iff in E3 as [Hf Hw]. apply front_star_spec in Hf as [q ->].
    apply bool_decide_eq_true, find_char_None in Hw. simpl in Hw.
    replace (length (star :: q) - 1)%nat with (length q) by (simpl; lia).
    rewrite suffix_ok, glob_star. by setoid_rewrite (glob_plain ceq q); [|done]. }
  destruct (back_star n && bool_decide (find_char is_wild n = Some (length n - 1)%nat)) eqn:E4.
  { apply andb_true_iff in E4 as [Hb Hw]. apply back_star_spec in Hb as [q ->].
    apply bool_decide_eq_true, find_char_Some in Hw as (a & c & b & Ha & Hl & Hpl & _).
    rewrite length_app in *. simpl in *.
    replace (length q + 1 - 1)%nat with (length q) in * by lia.
    apply app_inj_1 in Ha as [<- _]; [|done].
    rewrite prefix_ok, glob_plain_app by done. split.
    - intros (u & t & -> & Hu). exists u, t. repeat split; try done. apply glob_single_star.
    - intros (u & t & -> & Hu & _). by exists u, t. }
  by apply wild_ok.
Qed.

(** ** Properties *)

(** The greedy loop with a single backtracking point terminates within the
    stated fuel and decides the declarative meaning of the pattern, for any
    pattern and any C string, case-insensitively. *)
Theorem MatchWildcard_decides_glob Str Pattern :
  NUL ∉ Str ->
  exists b,
    MatchWildcard_loop CharEqualCaseInsensitive (wildcard_fuel Str Pattern) Str Pattern None = Some b /\
    (b = true <-> glob CharEqualCaseInsensitive Pattern Str).
Proof.
  intros Hn.
  destruct (MatchWildcard_loop_correct _ CharEqualCaseInsensitive_nul (length Str + 2)
    (wildcard_fuel Str Pattern) Str Pattern None) as (b & Hb & Hspec); try done.
  - unfold loop_measure, wildcard_fuel. nia.
  - lia.
  - exists b. split; [done|]. rewrite Hspec. unfold pending. tauto.
Qed.

Lemma MatchWildcard_decides_glob_witness :
  NUL ∉ #"mississippi" /\
  exists b, MatchWildcard_loop CharEqualCaseInsensitive
              (wildcard_fuel #"mississippi" #"m*IS?ip*") #"mississippi" #"m*IS?ip*" None = Some b /\
            (b = true <-> glob CharEqualCaseInsensitive #"m*IS?ip*" #"mississippi").
Proof.
  assert (NUL ∉ #"mississippi") as H by (apply (bool_decide_unpack _); vm_compute; exact I).
  split; [exact H|]. exact (MatchWildcard_decides_glob _ _ H).
Defined.

(** [Wildcard::Match]: for every pattern that does not combine a leading
    star, a trailing star and a further wildcard, the whole dispatch (exact,
    substring, suffix, prefix, general) answers true exactly when the
    C string matches the pattern, ignoring ASCII case. *)
Theorem Match_glob Str Pattern :
  inner_wildcard (NormalizePattern (cstr Pattern)) = false ->
  Match Str Pattern = true <-> glob CharEqualCaseInsensitive (cstr Pattern) (cstr Str).
Proof.
  intros Hin. unfold Match. rewrite MatchInternal_dispatch.
  apply (dispatch_correct _ _); [apply cstr_no_nul..|done].
Qed.

Lemma Match_glob_witness :
  inner_wildcard (NormalizePattern (cstr #"**Lap?op")) = false /\
  (Match #"my laptop" #"**Lap?op" = true <->
   glob CharEqualCaseInsensitive (cstr #"**Lap?op") (cstr #"my laptop")).
Proof. split; [vm_compute; reflexivity|]. apply (Match_glob #"my laptop" #"**Lap?op"). vm_compute. reflexivity. Defined.

(** [Wildcard::MatchCaseSensitive]: the same for the case-sensitive family. *)
Theorem MatchCaseSensitive_glob Str Pattern :
  inner_wildcard (NormalizePattern (cstr Pattern)) = false ->
  MatchCaseSensitive Str Pattern = true <-> glob CharEqual (cstr Pattern) (cstr Str).
Proof.
  intros Hin. unfold MatchCaseSensitive. rewrite MatchCaseSensitive_dispatch.
  apply (dispatch_correct _ _); [apply cstr_no_nul..|done].
Qed.

Lemma MatchCaseSensitive_glob_witness :
  inner_wildcard (NormalizePattern (cstr #"*apto*")) = false /\
  (MatchCaseSensitive #"laptop" #"*apto*" = true <-> glob CharEqual (cstr #"*apto*") (cstr #"laptop")).
Proof. split; [vm_compute; reflexivity|]. apply (MatchCaseSensitive_glob #"laptop" #"*apto*"). vm_compute. reflexivity. Defined.

(** In the remaining shape ([*...*] with another wildcard inside) the
    dispatch takes the substring branch and compares the inner wildcards as
    literal bytes: the answer is whether the inner text itself occurs. *)
Theorem Match_inner_wildcard_is_literal Str Pattern inner :
  NormalizePattern (cstr Pattern) = star :: inner ++ [star] -> inner <> [] ->
  existsb is_wild inner = true ->
  Match Str Pattern = true <->
  exists u v t, cstr Str = u ++ v ++ t /\ lits CharEqualCaseInsensitive inner v.
Proof.
  intros Hn Hne Hw. unfold Match. rewrite MatchInternal_dispatch. unfold dispatch.
  rewrite bool_decide_false.
  2: { intros E. rewrite E in Hn. apply (f_equal length) in Hn. revert Hn Hne.
       simpl. rewrite length_app. destruct inner; simpl; [done|lia]. }
  cbv zeta. rewrite Hn.
  replace (no_wildcards _) with false.
  2: { symmetry. apply not_true_iff_false. rewrite no_wildcards_plain. intros H. by inv H. }
  assert (front_star (star :: inner ++ [star]) = true) as -> by (apply front_star_spec; eauto).
  assert (back_star (star :: inner ++ [star]) = true) as -> by (apply back_star_spec; by exists (star :: inner)).
  assert ((2 <? length (star :: inner ++ [star]))%nat = true) as ->.
  { apply Nat.ltb_lt. simpl. rewrite length_app. destruct inner; simpl; [done|lia]. }
  cbn [andb].
  replace (length (star :: inner ++ [star]) - 2)%nat with (length inner)
    by (simpl; rewrite length_app; simpl; lia).
  apply contains_ok.
Qed.

Lemma Match_inner_wildcard_is_literal_witness :
  NormalizePattern (cstr #"*a?c*") = star :: #"a?c" ++ [star] /\
  (Match #"xabcy" #"*a?c*" = true <->
   exists u v t, cstr #"xabcy" = u ++ v ++ t /\ lits CharEqualCaseInsensitive #"a?c" v).
Proof.
  split; [vm_compute; reflexivity|].
  apply (Match_inner_wildcard_is_literal #"xabcy" #"*a?c*" #"a?c"); vm_compute; [reflexivity|discriminate|reflexivity].
Defined.

(** Consequently [Wildcard::Match] misses matches: [*a?c*] matches the
    text [xabcy] by the meaning of its wildcards, and the code answers false. *)
Theorem Match_inner_wildcard_misses :
  glob CharEqualCaseInsensitive (cstr #"*a?c*") (cstr #"xabcy") /\
  Match #"xabcy" #"*a?c*" = false.
Proof.
  split; [|vm_compute; reflexivity].
  apply (run_wildcard_correct _ CharEqualCaseInsensitive_nul); [apply cstr_no_nul|].
  vm_compute. reflexivity.
Qed.

(** [Wildcard::Filter] keeps, in order, exactly the strings that match. *)
Theorem Filter_keeps_matches Strings Pattern :
  inner_wildcard (NormalizePattern (cstr Pattern)) = false ->
  Filter Strings Pattern `sublist_of` Strings /\
  forall Value, Value ∈ Filter Strings Pattern <->
    Value ∈ Strings /\ glob CharEqualCaseInsensitive (cstr Pattern) (cstr Value).
Proof.
  intros Hin.
  assert (forall l acc,
    foldl (fun Matches Value => if Match Value Pattern then Matches ++ [Value] else Matches) acc l =
    acc ++ List.filter (fun v => Match v Pattern) l) as Hf.
  { induction l as [|v l IH]; intros acc; simpl; [by rewrite app_nil_r|].
    rewrite IH. destruct (Match v Pattern); [by rewrite <- app_assoc|done]. }
  unfold Filter. rewrite Hf. simpl. split.
  - clear Hf. induction Strings as [|v l IH]; simpl; [constructor|].
    destruct (Match v Pattern); by constructor.
  - intros v. rewrite !list_elem_of_In, filter_In. unfold Match.
    rewrite MatchInternal_dispatch, (dispatch_correct CharEqualCaseInsensitive insensitive_tests); [done|apply cstr_no_nul..|done].
Qed.

Lemma Filter_keeps_matches_witness :
  Filter [ #"Apple"; #"pear"; #"apricot"] #"ap*" `sublist_of` [ #"Apple"; #"pear"; #"apricot"] /\
  Filter [ #"Apple"; #"pear"; #"apricot"] #"ap*" = [ #"Apple"; #"apricot"].
Proof.
  split; [|vm_compute; reflexivity].
  apply (Filter_keeps_matches [ #"Apple"; #"pear"; #"apricot"] #"ap*"). vm_compute. reflexivity.
Defined.

End Wildcard.
