(* ===== verification/SqlTokenizer.v ===== *)
(** * SQL tokenizer: src/sql/tokenizer.cpp

    The lexer of the SQL front end and the literal helpers the parser shares
    with it. [SQLTokenize] reports failure through [*error] and an empty token
    vector; the model returns [Err message] or [Ok tokens]. The loop index into
    [sql_text] is the list of bytes still to be read. *)

From S2P Require Import Prelude CText.

Module Tokenizer.

(** One token: its text as written (quotes included) and its upper-case form. *)

Record SQLToken := mkToken { Text : bytes; Upper : bytes }.

#[export] Instance SQLToken_eq_dec : EqDecision SQLToken.
Proof. solve_decision. Defined.

(** ** Limits *)

Definition SQLMaxQueryBytes : Z := 32768.
Definition SQLMaxTokens : Z := 1024.
Definition SQLMaxParenthesisDepth : Z := 64.
Definition SQLMaxIdentifierBytes : Z := 256.
Definition SQLMaxQuotedLiteralBytes : Z := 4096.

(** ** Classification helpers *)

Definition CanStartSignedNumber (tokens : list SQLToken) : bool :=
  match last tokens with
  | None => true
  | Some t =>
      bool_decide (Upper t ∈ [ #"LIMIT"; #"OFFSET"; #"BETWEEN"; #"AND"]) ||
      bool_decide (Text t ∈ [ #"("; #","; #"="; #"!="; #"<>"; #">"; #">="; #"<"; #"<="])
  end.

Definition disallowed_control (c : ascii) : bool :=
  ((code c <? 32) && negb (isspace c)) || (code c =? 127).

Definition SQLContainsDisallowedControlCharacters (sql_text : bytes) : bool :=
  existsb disallowed_control sql_text.

Definition SQLCanAppendToken (tokens : list SQLToken) : result unit :=
  if SQLMaxTokens <=? size tokens
  then Err #"SQL query exceeds the maximum supported token count."
  else Ok tt.

Definition SQLTrimWhitespace (value : bytes) : bytes := trim isspace value.

Definition SQLToUpperASCII (value : bytes) : bytes := toupper <$> value.

Definition SQLIsIdentifierStart (c : ascii) : bool :=
  isalpha c || bool_decide (c = "_"%char) || bool_decide (c = "$"%char).

Definition SQLIsIdentifierChar (c : ascii) : bool :=
  isalnum c || bool_decide (c = "_"%char) || bool_decide (c = "$"%char) ||
  bool_decide (c = "-"%char) || bool_decide (c = "."%char).

(** [strtod] consumes the whole C string. *)

Definition SQLIsNumericLiteral (value : bytes) : bool :=
  match value with
  | [] => false
  | _ =>
      match strtod (cstr value) with
      | Some (_, rest) => bool_decide (rest = [])
      | None => bool_decide (cstr value = [])
      end
  end.

(** ** Quotes *)

Definition squote : ascii := "'"%char.
Definition dquote : ascii := chr 34.
Definition backtick : ascii := "`"%char.

Definition is_quote (c : ascii) : bool :=
  bool_decide (c = squote) || bool_decide (c = dquote) || bool_decide (c = backtick).

(** The un-doubling loop of [SQLStripQuotes]. *)

Fixpoint unescape (q : ascii) (inner : bytes) : bytes :=
  match inner with
  | [] => []
  | c :: r =>
      match r with
      | d :: r' => if bool_decide (c = q) && bool_decide (d = q) then q :: unescape q r'
                   else c :: unescape q r
      | [] => [c]
      end
  end.

Definition SQLStripQuotes (value : bytes) : bytes :=
  match value, last value with
  | first :: _ :: _, Some lastc =>
      if is_quote first && bool_decide (first = lastc) then
        let inner := take (length value - 2) (drop 1 value) in
        if bool_decide (first = backtick) then inner else unescape first inner
      else value
  | _, _ => value
  end.

Definition filter_delimiters : bytes := #"&|[]{}(),:".

Definition SQLIsSafeFilterLiteral (value : bytes) : bool :=
  forallb (fun c => bool_decide (c ∉ filter_delimiters)) value.

(** ** Scanning one token *)

(** The body of a quoted literal after its opening quote: the bytes up to and
    including the closing quote, and the rest; [None] when it never closes. *)

Fixpoint scan_quoted (q : ascii) (s : bytes) : option (bytes * bytes) :=
  match s with
  | [] => None
  | current :: r =>
      if bool_decide (current = q) then
        match r with
        | d :: r' =>
            if bool_decide (d = q) && negb (bool_decide (q = backtick)) then
              match scan_quoted q r' with
              | Some (body, rest) => Some (current :: d :: body, rest)
              | None => None
              end
            else Some ([current], r)
        | [] => Some ([current], r)
        end
      else
        match scan_quoted q r with
        | Some (body, rest) => Some (current :: body, rest)
        | None => None
        end
  end.

(** The digits of a number and at most one dot. *)

Fixpoint scan_digits_dot (seen_dot : bool) (s : bytes) : bytes * bytes :=
  match s with
  | current :: r =>
      if isdigit current then
        let (a, b) := scan_digits_dot seen_dot r in (current :: a, b)
      else if bool_decide (current = "."%char) then
        if seen_dot then ([], s)
        else let (a, b) := scan_digits_dot true r in (current :: a, b)
      else ([], s)
  | [] => ([], s)
  end.

Definition is_sign (c : ascii) : bool :=
  bool_decide (c = "-"%char) || bool_decide (c = "+"%char).

(** The exponent part: [None] when the marker is there without digits. *)

Definition scan_exponent (s : bytes) : option (bytes * bytes) :=
  match s with
  | e :: r =>
      if bool_decide (e = "e"%char) || bool_decide (e = "E"%char) then
        let '(sg, r1) := match r with
                         | c :: r' => if is_sign c then ([c], r') else ([], r)
                         | [] => ([], r)
                         end in
        let (ds, r2) := span isdigit r1 in
        match ds with [] => None | _ => Some (e :: sg ++ ds, r2) end
      else Some ([], s)
  | [] => Some ([], s)
  end.

Definition invalid_number : bytes := #"Invalid numeric literal in SQL query.".

Definition ends_with_dot (text : bytes) : bool := bool_decide (last text = Some "."%char).

(** A number whose first byte is [c]. *)

Definition scan_number (c : ascii) (s : bytes) : result (bytes * bytes) :=
  let (mant, r1) := scan_digits_dot false s in
  match scan_exponent r1 with
  | None => Err invalid_number
  | Some (ex, r2) =>
      let text := c :: mant ++ ex in
      if bool_decide (text = #"-") || bool_decide (text = #"+") then Err invalid_number
      else if ends_with_dot text then Err invalid_number
      else Ok (text, r2)
  end.

(** A sign starts a number when a digit follows and a value may stand here. *)

Definition starts_number (tokens : list SQLToken) (c : ascii) (s : bytes) : bool :=
  isdigit c ||
  (is_sign c && match s with d :: _ => isdigit d | [] => false end && CanStartSignedNumber tokens).

Definition two_char_operator (c : ascii) (s : bytes) : option (bytes * bytes) :=
  match s with
  | d :: r => if bool_decide ([c; d] ∈ [ #">="; #"<="; #"!="; #"<>"]) then Some ([c; d], r) else None
  | [] => None
  end.

Definition one_char_token (c : ascii) : bool := bool_decide (c ∈ #",()*;=><").

(** [tokens.push_back] behind [SQLCanAppendToken]. *)

Definition append_token (tokens : list SQLToken) (text upper : bytes) : result (list SQLToken) :=
  match SQLCanAppendToken tokens with
  | Ok _ => Ok (tokens ++ [mkToken text upper])
  | Err e => Err e
  end.

(** Parenthesis accounting of the one-character tokens. *)

Definition adjust_depth (c : ascii) (depth : Z) : result Z :=
  if bool_decide (c = "("%char) then
    if SQLMaxParenthesisDepth <? depth + 1
    then Err #"SQL query exceeds the maximum supported parenthesis depth."
    else Ok (depth + 1)
  else if bool_decide (c = ")"%char) then
    if depth =? 0 then Err #"SQL query contains an unmatched closing parenthesis."
    else Ok (depth - 1)
  else Ok depth.

(** ** One iteration of the main loop *)

Record lex_state := LexState { lx_tokens : list SQLToken; lx_depth : Z; lx_rest : bytes }.

Definition emit (st : lex_state) (text upper rest : bytes) (depth : Z) : result lex_state :=
  match append_token (lx_tokens st) text upper with
  | Ok ts => Ok (LexState ts depth rest)
  | Err e => Err e
  end.

Definition lex_quoted (st : lex_state) (c : ascii) (s : bytes) : result lex_state :=
  match scan_quoted c s with
  | None => Err #"Unterminated quoted string in SQL query."
  | Some (body, rest) =>
      let text := c :: body in
      if SQLMaxQuotedLiteralBytes <? size text
      then Err #"SQL quoted literal exceeds the maximum supported length."
      else emit st text (SQLToUpperASCII text) rest (lx_depth st)
  end.

Definition lex_identifier (st : lex_state) (c : ascii) (s : bytes) : result lex_state :=
  let (more, rest) := span SQLIsIdentifierChar s in
  let text := c :: more in
  if SQLMaxIdentifierBytes <? size text
  then Err #"SQL identifier exceeds the maximum supported length."
  else emit st text (SQLToUpperASCII text) rest (lx_depth st).

Definition lex_number (st : lex_state) (c : ascii) (s : bytes) : result lex_state :=
  match scan_number c s with
  | Err e => Err e
  | Ok (text, rest) => emit st text (SQLToUpperASCII text) rest (lx_depth st)
  end.

Definition lex_symbol (st : lex_state) (c : ascii) (s : bytes) : result lex_state :=
  match two_char_operator c s with
  | Some (op, rest) => emit st op op rest (lx_depth st)
  | None =>
      if one_char_token c then
        match adjust_depth c (lx_depth st) with
        | Err e => Err e
        | Ok depth => emit st [c] (SQLToUpperASCII [c]) s depth
        end
      else Err (#"Unsupported SQL token near '" ++ [c] ++ #"'.")
  end.

Definition lex_step (st : lex_state) (c : ascii) (s : bytes) : result lex_state :=
  if isspace c then Ok (LexState (lx_tokens st) (lx_depth st) s)
  else if is_quote c then lex_quoted st c s
  else if SQLIsIdentifierStart c then lex_identifier st c s
  else if starts_number (lx_tokens st) c s then lex_number st c s
  else lex_symbol st c s.

(** The main loop; [None] is exhausted fuel, excluded by [SQLTokenize_total]. *)

Fixpoint tokenize_loop (fuel : nat) (st : lex_state) : option (result (list SQLToken)) :=
  match lx_rest st with
  | [] => Some (if lx_depth st =? 0 then Ok (lx_tokens st)
                else Err #"SQL query contains unmatched parentheses.")
  | c :: s =>
      match fuel with
      | O => None
      | S fuel' =>
          match lex_step st c s with
          | Err e => Some (Err e)
          | Ok st' => tokenize_loop fuel' st'
          end
      end
  end.

Definition SQLTokenize (sql_text : bytes) : result (list SQLToken) :=
  if SQLMaxQueryBytes <? size sql_text
  then Err #"SQL query exceeds the maximum supported length."
  else if SQLContainsDisallowedControlCharacters sql_text
  then Err #"SQL query contains disallowed control characters."
  else match tokenize_loop (length sql_text) (LexState [] 0 sql_text) with
       | Some r => r
       | None => Err []
       end.

(** ** Specification *)

(** [interleave ts s]: the text [s] is the tokens' texts in order, separated
    only by white space. *)

Inductive interleave : list SQLToken -> bytes -> Prop :=
| il_nil : interleave [] []
| il_space ts s c : interleave ts s -> isspace c = true -> interleave ts (s ++ [c])
| il_token ts s t : interleave ts s -> interleave (ts ++ [t]) (s ++ Text t).

(** The shapes a token can have. *)

Inductive token_shape : bytes -> Prop :=
| shape_quoted q body :
    is_quote q = true -> scan_quoted q body = Some (body, []) ->
    size (q :: body) <= SQLMaxQuotedLiteralBytes -> token_shape (q :: body)
| shape_identifier c more :
    SQLIsIdentifierStart c = true -> Forall (fun d => SQLIsIdentifierChar d = true) more ->
    size (c :: more) <= SQLMaxIdentifierBytes -> token_shape (c :: more)
| shape_number c more :
    isdigit c = true \/ is_sign c = true -> SQLIsNumericLiteral (c :: more) = true ->
    token_shape (c :: more)
| shape_operator op :
    op ∈ [ #">="; #"<="; #"!="; #"<>"; #","; #"("; #")"; #"*"; #";"; #"="; #">"; #"<"] ->
    token_shape op.

Definition token_ok (t : SQLToken) : Prop :=
  token_shape (Text t) /\ Upper t = SQLToUpperASCII (Text t).

(** Parenthesis depth along a token list, within [0 .. SQLMaxParenthesisDepth]. *)

Fixpoint check_depth (d : Z) (ts : list SQLToken) : option Z :=
  match ts with
  | [] => Some d
  | t :: r =>
      if bool_decide (Text t = #"(") then
        if SQLMaxParenthesisDepth <? d + 1 then None else check_depth (d + 1) r
      else if bool_decide (Text t = #")") then
        if d =? 0 then None else check_depth (d - 1) r
      else check_depth d r
  end.

(** A string literal as a client writes it: quotes doubled, quotes around. *)

Definition escape (q : ascii) (s : bytes) : bytes :=
  s ≫= (fun c => if bool_decide (c = q) then [q; q] else [c]).

Definition sql_quote (q : ascii) (s : bytes) : bytes := q :: escape q s ++ [q].

(** ** Lemmas: scanning *)

Lemma scan_quoted_app q s body rest :
  scan_quoted q s = Some (body, rest) -> s = body ++ rest /\ scan_quoted q body = Some (body, []).
Proof.
  revert body rest. induction s as [s IH] using list_len_ind. intros body rest.
  destruct s as [|c r]; simpl; [done|]. case_bool_decide as Hc.
  - destruct r as [|d r']; [by intros [= <- <-]; simpl; rewrite bool_decide_true|].
    case_match eqn:E.
    + apply andb_true_iff in E as [Hd Hb]. destruct (scan_quoted q r') as [[b r0]|] eqn:E'; [|done].
      intros [= <- <-]. apply IH in E' as [-> Hb']; [|simpl; lia].
      simpl. by rewrite bool_decide_true, Hd, Hb, Hb' by done.
    + intros [= <- <-]. simpl. by rewrite bool_decide_true by done.
  - destruct (scan_quoted q r) as [[b r0]|] eqn:E'; [|done].
    intros [= <- <-]. apply IH in E' as [-> Hb']; [|simpl; lia].
    simpl. by rewrite bool_decide_false, Hb' by done.
Qed.

Lemma scan_digits_dot_app b s : (scan_digits_dot b s).1 ++ (scan_digits_dot b s).2 = s.
Proof.
  revert b. induction s as [|c r IH]; intros b; simpl; [done|].
  destruct (isdigit c).
  - specialize (IH b). destruct (scan_digits_dot b r). simpl in *. by rewrite IH.
  - case_bool_decide; [|done]. destruct b; [done|].
    specialize (IH true). destruct (scan_digits_dot true r). simpl in *. by rewrite IH.
Qed.

(** The mantissa is digits, or digits, a dot and digits. *)

Definition digits (s : bytes) : Prop := Forall (fun c => isdigit c = true) s.

Lemma scan_digits_dot_shape b s :
  let m := (scan_digits_dot b s).1 in
  digits m \/ (b = false /\ exists ip fp, m = ip ++ "."%char :: fp /\ digits ip /\ digits fp).
Proof.
  simpl. revert b. induction s as [|c r IH]; intros b; simpl; [by left; constructor|].
  destruct (isdigit c) eqn:Ed.
  - specialize (IH b). destruct (scan_digits_dot b r) as [m r']. simpl in *.
    destruct IH as [H|(-> & ip & fp & -> & Hi & Hf)]; [left; by constructor|].
    right. split; [done|]. exists (c :: ip), fp. split_and!; [done|by constructor|done].
  - case_bool_decide as Ec; [|left; constructor]. destruct b; [left; constructor|].
    specialize (IH true). destruct (scan_digits_dot true r) as [m r']. simpl in *.
    destruct IH as [H|[? _]]; [|done]. right. split; [done|]. subst c.
    exists [], m. split_and!; [done|constructor|done].
Qed.

Lemma scan_exponent_app s ex rest : scan_exponent s = Some (ex, rest) -> s = ex ++ rest.
Proof.
  unfold scan_exponent. destruct s as [|e r]; [by intros [= <- <-]|].
  case_match; [|by intros [= <- <-]].
  assert (forall sg r1 ds r2, r = sg ++ r1 -> span isdigit r1 = (ds, r2) -> r = sg ++ ds ++ r2) as Hs.
  { intros sg r1 ds r2 -> Hsp. pose proof (span_app isdigit r1) as H1. rewrite Hsp in H1. simpl in H1.
    by rewrite H1. }
  destruct r as [|c r'].
  - simpl. done.
  - destruct (is_sign c).
    + destruct (span isdigit r') as [ds r2] eqn:E. specialize (Hs [c] r' ds r2 eq_refl E).
      destruct ds; [done|]. intros [= <- <-]. simpl in *. by rewrite <- Hs.
    + destruct (span isdigit (c :: r')) as [ds r2] eqn:E.
      specialize (Hs [] (c :: r') ds r2 eq_refl E).
      destruct ds; [done|]. intros [= <- <-]. simpl in *. by rewrite <- Hs.
Qed.

Lemma scan_number_app c s text rest :
  scan_number c s = Ok (text, rest) -> c :: s = text ++ rest.
Proof.
  unfold scan_number. pose proof (scan_digits_dot_app false s) as Hm.
  destruct (scan_digits_dot false s) as [m r1]. simpl in Hm.
  destruct (scan_exponent r1) as [[ex r2]|] eqn:E; [|done].
  apply scan_exponent_app in E. do 2 (case_match; [done|]).
  intros [= <- <-]. simpl. rewrite <- Hm, E. by rewrite <- app_assoc.
Qed.

(** ** Lemmas: a numeric token is a numeric literal *)

Definition exp_shape (ex : bytes) : Prop :=
  ex = [] \/
  exists e sg ds, ex = e :: sg ++ ds /\ (e = "e"%char \/ e = "E"%char) /\
                  (sg = [] \/ exists c, sg = [c] /\ is_sign c = true) /\ digits ds /\ ds <> [].

Lemma scan_exponent_shape s ex rest : scan_exponent s = Some (ex, rest) -> exp_shape ex.
Proof.
  unfold scan_exponent. destruct s as [|e r]; [by intros [= <- <-]; left|].
  destruct (_ || _) eqn:He; [|by intros [= <- <-]; left].
  apply orb_true_iff in He. rewrite !bool_decide_eq_true in He.
  assert (forall sg r1, (sg = [] \/ exists c, sg = [c] /\ is_sign c = true) ->
    (let (ds, r2) := span isdigit r1 in
     match ds with [] => None | _ => Some (e :: sg ++ ds, r2) end) = Some (ex, rest) -> exp_shape ex) as Hx.
  { intros sg r1 Hsg. pose proof (span_all isdigit r1) as Hd.
    destruct (span isdigit r1) as [ds r2]. simpl in Hd. destruct ds as [|d ds]; [done|].
    intros [= <- <-]. right. exists e, sg, (d :: ds). done. }
  destruct r as [|c r']; [by apply (Hx [] []); left|].
  destruct (is_sign c) eqn:Es.
  - apply (Hx [c] r'). right. eauto.
  - apply (Hx [] (c :: r')). by left.
Qed.

Lemma digit_facts c :
  isdigit c = true ->
  isspace c = false /\ is_sign c = false /\ isalpha c = false /\ c <> "."%char /\ c <> NUL /\
  tolower c <> "i"%char /\ tolower c <> "n"%char /\ tolower c <> "x"%char /\ tolower c <> "e"%char.
Proof.
  by_bytes (fun c => bool_decide (isdigit c = true ->
    isspace c = false /\ is_sign c = false /\ isalpha c = false /\ c <> "."%char /\ c <> NUL /\
    tolower c <> "i"%char /\ tolower c <> "n"%char /\ tolower c <> "x"%char /\ tolower c <> "e"%char)) c.
Qed.

Lemma sign_facts c :
  is_sign c = true -> isspace c = false /\ c <> NUL /\ (c = "-"%char \/ c = "+"%char).
Proof.
  by_bytes (fun c => bool_decide (is_sign c = true -> isspace c = false /\ c <> NUL /\
    (c = "-"%char \/ c = "+"%char))) c.
Qed.

Lemma read_sign_digits d r : isdigit d = true -> read_sign (d :: r) = (false, d :: r).
Proof.
  intros Hd. apply digit_facts in Hd as (_ & Hs & _). unfold read_sign.
  unfold is_sign in Hs. apply orb_false_iff in Hs as [-> ->]. done.
Qed.

Lemma read_exponent_shape ex : exp_shape ex -> exists e, read_exponent "e"%char ex = (e, []).
Proof.
  intros [->|(e & sg & ds & -> & He & Hsg & Hd & Hne)]; [by exists 0|]. unfold read_exponent.
  rewrite bool_decide_true by (destruct He; subst; reflexivity).
  assert (exists neg, read_sign (sg ++ ds) = (neg, ds)) as [neg ->].
  { destruct Hsg as [->|(c & -> & Hc)]; simpl.
    - destruct ds as [|d ds]; [done|]. inv Hd. by eexists; apply read_sign_digits.
    - apply sign_facts in Hc as (_ & _ & [-> | ->]); by eexists. }
  rewrite <- (app_nil_r ds), span_split by (done || intros; done).
  destruct ds; [done|]. eauto.
Qed.

Lemma exp_shape_head ex c r :
  exp_shape ex -> ex = c :: r -> isdigit c = false /\ c <> "."%char /\ tolower c <> "x"%char.
Proof.
  intros [->|(e & sg & ds & -> & [-> | ->] & _)] ?; simplify_eq; by split_and!.
Qed.

(** [frac]: nothing, or a dot and digits. *)

Definition frac_shape (fr : bytes) : Prop := fr = [] \/ exists fp, fr = "."%char :: fp /\ digits fp.

Lemma strtod_dec_shape neg d ip fr ex :
  isdigit d = true -> digits ip -> frac_shape fr -> exp_shape ex ->
  exists f, strtod_dec neg ((d :: ip) ++ fr ++ ex) = Some (f, []).
Proof.
  intros Hd Hip Hfr Hex. destruct (read_exponent_shape ex Hex) as [e He].
  assert (digits (d :: ip)) as Hip' by (by constructor).
  unfold strtod_dec, read_mantissa. destruct Hfr as [->|(fp & -> & Hfp)].
  - rewrite app_nil_l, (span_split _ _ ex Hip').
    2: { intros c r Hc. by apply (exp_shape_head ex c r Hex). }
    destruct ex as [|c r]; [simpl; eauto|].
    rewrite bool_decide_false by (eapply exp_shape_head; eauto).
    simpl app. rewrite He. eauto.
  - rewrite (span_split _ _ (("."%char :: fp) ++ ex) Hip'); [|by intros c r [= <- _]].
    cbn [app]. rewrite bool_decide_true by done.
    rewrite (span_split _ fp ex Hfp).
    2: { intros c r Hc. by apply (exp_shape_head ex c r Hex). }
    simpl app. rewrite He. eauto.
Qed.

Lemma ci_prefix_none p d r : hd d p <> tolower d -> p <> [] -> ci_prefix p (d :: r) = None.
Proof.
  intros Hd Hp. unfold ci_prefix. rewrite bool_decide_false; [done|].
  destruct p; [done|]. simpl in *. congruence.
Qed.

Lemma strtod_shape sg d ip fr ex :
  (sg = [] \/ exists c, sg = [c] /\ is_sign c = true) ->
  isdigit d = true -> digits ip -> frac_shape fr -> exp_shape ex ->
  exists f, strtod (sg ++ (d :: ip) ++ fr ++ ex) = Some (f, []).
Proof.
  intros Hsg Hd Hip Hfr Hex. pose proof (digit_facts d Hd) as (Hsp & _ & _ & _ & _ & Hi & Hn & _).
  set (body := (d :: ip) ++ fr ++ ex).
  assert (exists neg, read_sign (skip_while isspace (sg ++ body)) = (neg, body)) as [neg Hs].
  { unfold skip_while. destruct Hsg as [->|(c & -> & Hc)]; simpl.
    - rewrite Hsp. simpl. eexists. by apply (read_sign_digits d (ip ++ fr ++ ex)).
    - apply sign_facts in Hc as (-> & _ & [-> | ->]); simpl; eauto. }
  unfold strtod. rewrite Hs. unfold body. cbn [app].
  rewrite !ci_prefix_none by (done || vm_compute; congruence).
  unfold strtod_number. destruct (strtod_dec_shape neg d ip fr ex Hd Hip Hfr Hex) as [f Hf].
  exists f. cbn [app] in *. destruct (ip ++ fr ++ ex) as [|x r] eqn:E; [done|].
  rewrite (bool_decide_false (tolower x = _)), andb_false_r; [done|].
  destruct ip as [|y ip]; [destruct Hfr as [->|(fp & -> & _)]|]; simplify_eq/=.
  - by apply (exp_shape_head (x :: r) x r Hex).
  - done.
  - inv Hip. match goal with H : isdigit _ = true |- _ => by apply digit_facts in H as (?&?&?&?&?&?&?&?&?) end.
Qed.

Lemma scan_number_numeric c s text rest :
  (isdigit c = true \/ (is_sign c = true /\ exists d r, s = d :: r /\ isdigit d = true)) ->
  NUL ∉ s ->
  scan_number c s = Ok (text, rest) -> exists more, text = c :: more /\ SQLIsNumericLiteral text = true.
Proof.
  intros Hc Hnul Hsc. pose proof (scan_number_app c s text rest Hsc) as Happ.
  unfold scan_number in Hsc.
  pose proof (scan_digits_dot_shape false s) as Hm.
  simpl in Hm. destruct (scan_digits_dot false s) as [m r1] eqn:Esd. simpl in *.
  destruct (scan_exponent r1) as [[ex r2]|] eqn:E; [|done].
  apply scan_exponent_shape in E. do 2 (case_match; [done|]). simplify_eq.
  exists (m ++ ex). split; [done|].
  assert (exists ip fr, m = ip ++ fr /\ digits ip /\ frac_shape fr) as (ip & fr & -> & Hip & Hfr).
  { destruct Hm as [Hm|(_ & ip & fp & -> & Hi & Hf)].
    - exists m, []. rewrite app_nil_r. split_and!; [done|done|by left].
    - exists ip, ("."%char :: fp). split_and!; [done|done|right; eauto]. }
  assert (cstr (c :: (ip ++ fr) ++ ex) = c :: (ip ++ fr) ++ ex) as Hcs.
  { apply cstr_id. intros Hin. assert (NUL ∈ c :: s) as Hin'.
    { rewrite Happ. apply elem_of_app. by left. }
    apply elem_of_cons in Hin' as [<-|?]; [|done]. destruct Hc as [H'|[H' _]]; vm_compute in H'; done. }
  unfold SQLIsNumericLiteral. rewrite Hcs.
  assert (exists f, strtod (c :: (ip ++ fr) ++ ex) = Some (f, [])) as [f ->]; [|by apply bool_decide_eq_true].
  rewrite <- app_assoc. destruct Hc as [Hc|(Hc & d & r & -> & Hd)].
  - apply (strtod_shape [] c ip fr ex); [by left|done..].
  - simpl in Esd. rewrite Hd in Esd. destruct (scan_digits_dot false r) as [m' r'].
    simplify_eq. destruct ip as [|d' ip].
    + exfalso. destruct Hfr as [->|(fp & -> & _)]; by simplify_eq/=.
    + simplify_eq/=. inv Hip. eapply (strtod_shape [c]); [right; eauto|done..].
Qed.

(** ** Lemmas: one iteration *)

Lemma check_depth_snoc d ts t :
  check_depth d (ts ++ [t]) = match check_depth d ts with Some d' => check_depth d' [t] | None => None end.
Proof.
  revert d. induction ts as [|u ts IH]; intros d; [done|]. cbn [app check_depth].
  case_bool_decide; [destruct (_ <? _); [done|apply IH]|].
  case_bool_decide; [destruct (_ =? _); [done|apply IH]|apply IH].
Qed.

Lemma check_depth_other d t : Text t <> #"(" -> Text t <> #")" -> check_depth d [t] = Some d.
Proof. intros H1 H2. simpl. by rewrite !bool_decide_false. Qed.

Lemma adjust_depth_check c d d' u :
  adjust_depth c d = Ok d' -> check_depth d [mkToken [c] u] = Some d'.
Proof.
  unfold adjust_depth. cbn [check_depth Text].
  destruct (decide (c = "("%char)) as [->|H1].
  { rewrite !(bool_decide_true (_ = _)) by done. case_match; naive_solver. }
  rewrite (bool_decide_false (c = "("%char)), (bool_decide_false ([c] = #"(")) by (done || (vm_compute; congruence)).
  destruct (decide (c = ")"%char)) as [->|H2].
  { rewrite !(bool_decide_true (_ = _)) by done. case_match; naive_solver. }
  rewrite (bool_decide_false (c = ")"%char)), (bool_decide_false ([c] = #")")) by (done || (vm_compute; congruence)).
  naive_solver.
Qed.

Lemma emit_ok st text upper rest depth st' :
  emit st text upper rest depth = Ok st' ->
  st' = LexState (lx_tokens st ++ [mkToken text upper]) depth rest /\ size (lx_tokens st) < SQLMaxTokens.
Proof.
  unfold emit, append_token, SQLCanAppendToken. destruct (SQLMaxTokens <=? size (lx_tokens st)) eqn:E; [done|].
  intros [= <-]. split; [done|]. by apply Z.leb_gt in E.
Qed.

(** The first byte of a token that is not a symbol rules the parentheses out. *)

Lemma not_paren c more : c <> "("%char -> c <> ")"%char -> c :: more <> #"(" /\ c :: more <> #")".
Proof. intros H1 H2. split; vm_compute; congruence. Qed.

Lemma head_classes c :
  (is_quote c = true -> c <> "("%char /\ c <> ")"%char) /\
  (SQLIsIdentifierStart c = true -> c <> "("%char /\ c <> ")"%char) /\
  (isdigit c = true \/ is_sign c = true -> c <> "("%char /\ c <> ")"%char).
Proof.
  by_bytes (fun c => bool_decide (
    (is_quote c = true -> c <> "("%char /\ c <> ")"%char) /\
    (SQLIsIdentifierStart c = true -> c <> "("%char /\ c <> ")"%char) /\
    (isdigit c = true \/ is_sign c = true -> c <> "("%char /\ c <> ")"%char))) c.
Qed.

(** What a token-producing iteration does. *)

Definition emits (st st' : lex_state) (c : ascii) (s : bytes) : Prop :=
  exists t, lx_tokens st' = lx_tokens st ++ [t] /\ c :: s = Text t ++ lx_rest st' /\ Text t <> [] /\
            token_ok t /\ size (lx_tokens st) < SQLMaxTokens /\
            check_depth (lx_depth st) [t] = Some (lx_depth st').

Lemma lex_quoted_emits st c s st' :
  is_quote c = true -> lex_quoted st c s = Ok st' -> emits st st' c s.
Proof.
  intros Hq. unfold lex_quoted. destruct (scan_quoted c s) as [[body rest]|] eqn:E; [|done].
  apply scan_quoted_app in E as [-> Hb]. destruct (_ <? _) eqn:El; [done|]. apply Z.ltb_ge in El.
  intros H. apply emit_ok in H as [-> Hn]. destruct (proj1 (head_classes c) Hq) as [H1 H2].
  destruct (not_paren c body H1 H2). eexists. split_and!; simpl; [done..| |done|by apply check_depth_other].
  split; [by apply shape_quoted|done].
Qed.

Lemma lex_identifier_emits st c s st' :
  SQLIsIdentifierStart c = true -> lex_identifier st c s = Ok st' -> emits st st' c s.
Proof.
  intros Hc. unfold lex_identifier. pose proof (span_app SQLIsIdentifierChar s) as Ha.
  pose proof (span_all SQLIsIdentifierChar s) as Hall.
  destruct (span SQLIsIdentifierChar s) as [more rest]. simpl in *.
  destruct (_ <? _) eqn:El; [done|]. apply Z.ltb_ge in El.
  intros H. apply emit_ok in H as [-> Hn].
  destruct (proj1 (proj2 (head_classes c)) Hc) as [H1 H2].
  destruct (not_paren c more H1 H2). eexists. split_and!; simpl; [done|by rewrite <- Ha|done| |done|by apply check_depth_other].
  split; [by apply shape_identifier|done].
Qed.

Lemma lex_number_emits st c s st' :
  starts_number (lx_tokens st) c s = true -> NUL ∉ s ->
  lex_number st c s = Ok st' -> emits st st' c s.
Proof.
  intros Hc Hnul. unfold lex_number. destruct (scan_number c s) as [[text rest]|] eqn:E; [|done].
  pose proof (scan_number_app _ _ _ _ E) as Ha. intros H. apply emit_ok in H as [-> Hn].
  assert (isdigit c = true \/ (is_sign c = true /\ exists d r, s = d :: r /\ isdigit d = true)) as Hst.
  { unfold starts_number in Hc. apply orb_true_iff in Hc as [?|Hc]; [by left|right].
    rewrite !andb_true_iff in Hc. destruct Hc as [[? Hd] _]. split; [done|].
    destruct s as [|d r]; [done|]. eauto. }
  destruct (scan_number_numeric c s text rest Hst Hnul E) as (more & -> & Hnum).
  assert (isdigit c = true \/ is_sign c = true) as Hcc by naive_solver.
  destruct (proj2 (proj2 (head_classes c)) Hcc) as [H1 H2].
  destruct (not_paren c more H1 H2). eexists. split_and!; simpl; [done..| |done|by apply check_depth_other].
  split; [by apply shape_number|done].
Qed.

Lemma two_char_upper op : op ∈ [ #">="; #"<="; #"!="; #"<>"] -> op = SQLToUpperASCII op /\ op <> #"(" /\ op <> #")".
Proof.
  rewrite !elem_of_cons. intros H. destruct_or?; subst; try (split_and!; vm_compute; congruence).
  by apply not_elem_of_nil in H.
Qed.

Lemma one_char_shape c : one_char_token c = true -> token_shape [c].
Proof.
  unfold one_char_token. rewrite bool_decide_eq_true. intros H. apply shape_operator.
  change ([c] ∈ [ #">="; #"<="; #"!="; #"<>"; #","; #"("; #")"; #"*"; #";"; #"="; #">"; #"<"]).
  change (c ∈ [","; "("; ")"; "*"; ";"; "="; ">"; "<"]%char) in H.
  rewrite !elem_of_cons in *. destruct_or?; subst; auto 20. by apply not_elem_of_nil in H.
Qed.

Lemma lex_symbol_emits st c s st' : lex_symbol st c s = Ok st' -> emits st st' c s.
Proof.
  unfold lex_symbol. destruct (two_char_operator c s) as [[op rest]|] eqn:E.
  - unfold two_char_operator in E. destruct s as [|d r]; [done|].
    case_bool_decide as Hin; [|done]. injection E as <- <-.
    intros H. apply emit_ok in H as [-> Hn]. destruct (two_char_upper _ Hin) as (Hu & H1 & H2).
    eexists. split_and!; simpl; [done..| |done|by apply check_depth_other].
    split; [|done]. apply shape_operator. simpl. rewrite !elem_of_cons in *.
    destruct_or? Hin; auto 20.
  - destruct (one_char_token c) eqn:Ec; [|done].
    destruct (adjust_depth c (lx_depth st)) as [d|] eqn:Ed; [|done].
    intros H. apply emit_ok in H as [-> Hn].
    eexists. split_and!; simpl; [done..| |done|by apply adjust_depth_check].
    split; [|done]. by apply one_char_shape.
Qed.

Lemma lex_step_progress st c s st' :
  NUL ∉ s -> lex_step st c s = Ok st' ->
  (isspace c = true /\ st' = LexState (lx_tokens st) (lx_depth st) s) \/ emits st st' c s.
Proof.
  intros Hnul. unfold lex_step. destruct (isspace c); [naive_solver|].
  destruct (is_quote c) eqn:Eq; [right; by apply lex_quoted_emits|].
  destruct (SQLIsIdentifierStart c) eqn:Ei; [right; by apply lex_identifier_emits|].
  destruct (starts_number _ c s) eqn:En; [right; by apply lex_number_emits|].
  right. by apply lex_symbol_emits.
Qed.

Lemma emits_rest st st' c s : emits st st' c s -> exists a, c :: s = a ++ lx_rest st' /\ a <> [].
Proof. intros (t & _ & H & Hne & _). eauto. Qed.

(** ** The loop invariant *)

Record lex_inv (s0 : bytes) (st : lex_state) : Prop := {
  inv_split : exists consumed, s0 = consumed ++ lx_rest st /\ interleave (lx_tokens st) consumed;
  inv_tokens : Forall token_ok (lx_tokens st);
  inv_depth : check_depth 0 (lx_tokens st) = Some (lx_depth st);
  inv_size : size (lx_tokens st) <= SQLMaxTokens
}.

Lemma lex_inv_init s0 : lex_inv s0 (LexState [] 0 s0).
Proof. split; simpl; [exists []; split; [done|constructor]|constructor|done|done]. Qed.

Lemma lex_inv_step s0 st c s st' :
  lex_inv s0 st -> lx_rest st = c :: s -> NUL ∉ s -> lex_step st c s = Ok st' -> lex_inv s0 st'.
Proof.
  intros [(consumed & -> & Hil) Hok Hd Hsz] Hr Hnul Hstep. rewrite Hr.
  apply lex_step_progress in Hstep as [[Hsp ->]|(t & Ht & Hs & _ & Htok & Hlt & Hdep)]; [| |done].
  - split; simpl; try done. exists (consumed ++ [c]). rewrite <- app_assoc. split; [done|]. by constructor.
  - split; rewrite ?Ht.
    + exists (consumed ++ Text t). rewrite <- app_assoc, <- Hs. split; [done|]. by constructor.
    + apply Forall_app. split; [done|]. by constructor.
    + by rewrite check_depth_snoc, Hd.
    + unfold size in *. rewrite length_app. simpl. lia.
Qed.

Lemma tokenize_loop_inv s0 fuel st :
  (length (lx_rest st) <= fuel)%nat -> NUL ∉ lx_rest st -> lex_inv s0 st ->
  exists r, tokenize_loop fuel st = Some r /\
            forall ts, r = Ok ts -> lex_inv s0 (LexState ts 0 []).
Proof.
  revert st. induction fuel as [|fuel IH]; intros st Hf Hnul Hinv;
    destruct (lx_rest st) as [|c s] eqn:Er; cbn [tokenize_loop]; rewrite Er.
  1,3: eexists; split; [done|]; intros ts; destruct (lx_depth st =? 0) eqn:Ed; [|done];
    intros [= <-]; apply Z.eqb_eq in Ed; destruct Hinv as [H1 H2 H3 H4];
    rewrite Er in H1; rewrite Ed in H3; by split.
  - simpl in Hf. lia.
  - destruct (lex_step st c s) as [st'|e] eqn:E; [|by eexists].
    assert (NUL ∉ s) as Hns by (intros H; apply Hnul; by right).
    assert (exists a, c :: s = a ++ lx_rest st' /\ a <> []) as (a & Ha & Hne).
    { destruct (lex_step_progress st c s st' Hns E) as [[_ ->]|He]; [by exists [c]|by eapply emits_rest]. }
    apply IH.
    + apply (f_equal length) in Ha. rewrite length_app in Ha. simpl in *. destruct a; [done|simpl in Ha; lia].
    + intros H. apply Hnul. rewrite Ha. apply elem_of_app. by right.
    + by eapply lex_inv_step.
Qed.

Lemma no_control_no_nul s : SQLContainsDisallowedControlCharacters s = false -> NUL ∉ s.
Proof.
  unfold SQLContainsDisallowedControlCharacters. intros H Hin.
  apply not_true_iff_false in H. apply H. apply existsb_exists. exists NUL.
  split; [by apply list_elem_of_In|done].
Qed.

Lemma SQLTokenize_inv s ts : SQLTokenize s = Ok ts -> lex_inv s (LexState ts 0 []).
Proof.
  unfold SQLTokenize. destruct (_ <? _); [done|].
  destruct (SQLContainsDisallowedControlCharacters s) eqn:Ec; [done|].
  destruct (tokenize_loop_inv s (length s) (LexState [] 0 s)) as (r & -> & Hr);
    [done|by apply no_control_no_nul|apply lex_inv_init|]. apply Hr.
Qed.

(** ** Lemmas: errors *)

Lemma emit_error st text upper rest depth e : emit st text upper rest depth = Err e -> e <> [].
Proof.
  unfold emit, append_token. destruct (SQLCanAppendToken _) eqn:E; [done|]. intros [= <-].
  unfold SQLCanAppendToken in E. destruct (_ <=? _) in E; by simplify_eq.
Qed.

Lemma scan_number_error c s e : scan_number c s = Err e -> e <> [].
Proof.
  unfold scan_number. destruct (scan_digits_dot _ _). destruct (scan_exponent _) as [[??]|]; [|by intros [= <-]].
  destruct (_ || _); [by intros [= <-]|]. destruct (ends_with_dot _); [by intros [= <-]|done].
Qed.

Lemma adjust_depth_error c d e : adjust_depth c d = Err e -> e <> [].
Proof. unfold adjust_depth. repeat (case_match; try done); by intros [= <-]. Qed.

Lemma lex_step_error st c s e : lex_step st c s = Err e -> e <> [].
Proof.
  unfold lex_step, lex_quoted, lex_identifier, lex_number, lex_symbol.
  repeat case_match; intros He; simplify_eq;
    eauto using emit_error, scan_number_error, adjust_depth_error.
Qed.

Lemma tokenize_loop_error fuel : forall st e, tokenize_loop fuel st = Some (Err e) -> e <> [].
Proof.
  induction fuel as [|fuel IH]; intros st e; cbn [tokenize_loop]; destruct (lx_rest st) as [|c s];
    [by destruct (_ =? _); intros [= <-]|done|by destruct (_ =? _); intros [= <-]|].
  destruct (lex_step st c s) eqn:E; [apply IH|]. intros [= <-]. by eapply lex_step_error.
Qed.

Lemma SQLTokenize_error_text s e : SQLTokenize s = Err e -> e <> [].
Proof.
  unfold SQLTokenize. destruct (_ <? _); [by intros [= <-]|].
  destruct (SQLContainsDisallowedControlCharacters s) eqn:Ec; [by intros [= <-]|].
  destruct (tokenize_loop_inv s (length s) (LexState [] 0 s)) as (r & E & _);
    [done|by apply no_control_no_nul|apply lex_inv_init|].
  rewrite E. intros ->. by eapply tokenize_loop_error.
Qed.

(** ** Lemmas: quoting *)

Lemma escape_cons q c s : escape q (c :: s) = (if bool_decide (c = q) then [q; q] else [c]) ++ escape q s.
Proof. reflexivity. Qed.

Lemma unescape_escape q s : unescape q (escape q s) = s.
Proof.
  induction s as [|c s IH]; [done|]. rewrite escape_cons. case_bool_decide as Hc.
  - simpl. rewrite !bool_decide_true by done. simpl. by rewrite IH, Hc.
  - cbn [app]. destruct (escape q s) as [|d r] eqn:E; [simpl in *; by rewrite <- IH|].
    change (unescape q (c :: d :: r)) with
      (if bool_decide (c = q) && bool_decide (d = q) then q :: unescape q r else c :: unescape q (d :: r)).
    by rewrite (bool_decide_false (c = q)), IH.
Qed.

Lemma scan_quoted_escape q s rest :
  q <> backtick -> (forall r, rest <> q :: r) ->
  scan_quoted q (escape q s ++ q :: rest) = Some (escape q s ++ [q], rest).
Proof.
  intros Hq Hr. induction s as [|c s IH].
  - simpl. rewrite (bool_decide_true (q = q)) by done. destruct rest as [|d r]; [done|].
    rewrite (bool_decide_false (d = q)); [done|]. intros ->. by apply (Hr r).
  - rewrite escape_cons. case_bool_decide as Hc; cbn [app scan_quoted].
    + rewrite !(bool_decide_true (q = q)), (bool_decide_false (q = backtick)) by done. simpl. by rewrite IH.
    + by rewrite (bool_decide_false (c = q)), IH.
Qed.

Lemma SQLStripQuotes_quote q s : is_quote q = true -> q <> backtick -> SQLStripQuotes (sql_quote q s) = s.
Proof.
  intros Hq Hb. unfold SQLStripQuotes, sql_quote.
  assert (last (q :: escape q s ++ [q]) = Some q) as Hl by (by rewrite app_comm_cons, last_snoc).
  destruct (escape q s ++ [q]) as [|d r] eqn:E; [by destruct (escape q s)|].
  rewrite Hl, Hq, (bool_decide_true (q = q)), (bool_decide_false (q = backtick)) by done.
  cbn [andb drop length]. rewrite <- E.
  replace (S (S (length r)) - 2)%nat with (length (escape q s)).
  - by rewrite take_app_length, unescape_escape.
  - apply (f_equal length) in E. rewrite length_app in E. simpl in E. lia.
Qed.

Lemma no_control_escape q s :
  disallowed_control q = false -> SQLContainsDisallowedControlCharacters s = false ->
  SQLContainsDisallowedControlCharacters (sql_quote q s) = false.
Proof.
  unfold SQLContainsDisallowedControlCharacters, sql_quote. intros Hq Hs. simpl. rewrite Hq. simpl.
  rewrite existsb_app. simpl. rewrite Hq. rewrite !orb_false_r.
  induction s as [|c s IH]; [done|]. rewrite escape_cons, existsb_app. simpl in Hs.
  apply orb_false_iff in Hs as [Hc Hs]. rewrite IH by done.
  case_bool_decide; simpl; by rewrite ?Hq, ?Hc.
Qed.

(** ** Properties *)

(** Tokenizing terminates on every text that passes the two initial checks:
    as many loop iterations as the text has bytes are enough, so the fuel of
    the model never runs out. *)
Theorem SQLTokenize_total sql_text :
  SQLContainsDisallowedControlCharacters sql_text = false ->
  exists r, tokenize_loop (length sql_text) (LexState [] 0 sql_text) = Some r.
Proof.
  intros Hc. destruct (tokenize_loop_inv sql_text (length sql_text) (LexState [] 0 sql_text)) as (r & Hr & _);
    [done|by apply no_control_no_nul|apply lex_inv_init|]. eauto.
Qed.

Lemma SQLTokenize_total_witness :
  SQLContainsDisallowedControlCharacters #"SELECT a FROM t WHERE b='x' )" = false /\
  exists r, tokenize_loop (length #"SELECT a FROM t WHERE b='x' )")
              (LexState [] 0 #"SELECT a FROM t WHERE b='x' )") = Some r.
Proof.
  split; [vm_compute; reflexivity|].
  apply (SQLTokenize_total #"SELECT a FROM t WHERE b='x' )"). vm_compute. reflexivity.
Defined.

(** Tokenizing loses nothing and invents nothing: the query text is the
    texts of its tokens, in order, with only white space between them. *)
Theorem SQLTokenize_lossless sql_text ts :
  SQLTokenize sql_text = Ok ts -> interleave ts sql_text.
Proof.
  intros H. apply SQLTokenize_inv in H as [(consumed & Hs & Hil) _ _ _].
  simpl in *. rewrite app_nil_r in Hs. by subst.
Qed.

Lemma SQLTokenize_lossless_witness :
  exists ts, SQLTokenize #"DELETE FROM t  WHERE a>=-1.5e3;" = Ok ts /\ interleave ts #"DELETE FROM t  WHERE a>=-1.5e3;".
Proof.
  eexists. assert (SQLTokenize #"DELETE FROM t  WHERE a>=-1.5e3;" = Ok _) as H by (vm_compute; reflexivity).
  split; [exact H|]. exact (SQLTokenize_lossless _ _ H).
Defined.

(** C40. Every accepted query respects the limits and the token grammar: at most
    1024 tokens, each a quoted literal of at most 4096 bytes, an identifier of
    at most 256 bytes, a number [strtod] reads entirely, or an operator, with
    its upper-case form; parentheses are balanced and nested at most 64 deep. *)
Theorem SQLTokenize_wellformed sql_text ts :
  SQLTokenize sql_text = Ok ts ->
  size ts <= SQLMaxTokens /\ Forall token_ok ts /\ check_depth 0 ts = Some 0.
Proof. intros H. by apply SQLTokenize_inv in H as [_ H1 H2 H3]. Qed.

Lemma SQLTokenize_wellformed_witness :
  exists ts, SQLTokenize #"SELECT COUNT(*) FROM t WHERE (a = 'b')" = Ok ts /\
    size ts <= SQLMaxTokens /\ Forall token_ok ts /\ check_depth 0 ts = Some 0.
Proof.
  eexists. assert (SQLTokenize #"SELECT COUNT(*) FROM t WHERE (a = 'b')" = Ok _) as H by (vm_compute; reflexivity).
  split; [exact H|]. exact (SQLTokenize_wellformed _ _ H).
Defined.

(** Round trip of string literals: a value written with doubled quotes
    inside single or double quotes is one token, and [SQLStripQuotes] gives the
    value back, whatever bytes it has (quotes and SQL syntax included), up to
    the control-character and length limits. *)
Theorem quoted_literal_roundtrip q value :
  is_quote q = true -> q <> backtick ->
  SQLContainsDisallowedControlCharacters value = false ->
  size (sql_quote q value) <= SQLMaxQuotedLiteralBytes ->
  exists t, SQLTokenize (sql_quote q value) = Ok [t] /\ SQLStripQuotes (Text t) = value.
Proof.
  intros Hq Hb Hc Hl. exists (mkToken (sql_quote q value) (SQLToUpperASCII (sql_quote q value))).
  split; [|by apply SQLStripQuotes_quote].
  assert (disallowed_control q = false /\ isspace q = false) as [Hdq Hsp].
  { revert Hq. by_bytes (fun q => bool_decide (is_quote q = true -> disallowed_control q = false /\ isspace q = false)) q. }
  unfold SQLTokenize. unfold SQLMaxQuotedLiteralBytes in Hl.
  replace (SQLMaxQueryBytes <? size (sql_quote q value)) with false
    by (symmetry; apply Z.ltb_ge; unfold SQLMaxQueryBytes; lia).
  rewrite no_control_escape by done.
  unfold sql_quote at 1 2. cbn [tokenize_loop length lx_rest]. unfold lex_step. rewrite Hsp, Hq.
  unfold lex_quoted. rewrite scan_quoted_escape by done.
  replace (SQLMaxQuotedLiteralBytes <? size (q :: escape q value ++ [q])) with false
    by (symmetry; apply Z.ltb_ge; done).
  unfold emit, append_token, SQLCanAppendToken. cbn -[sql_quote]. 
  destruct (length _); done.
Qed.

Lemma quoted_literal_roundtrip_witness :
  size (sql_quote squote #"it's (a) test") <= SQLMaxQuotedLiteralBytes /\
  exists t, SQLTokenize (sql_quote squote #"it's (a) test") = Ok [t] /\ SQLStripQuotes (Text t) = #"it's (a) test".
Proof.
  split; [vm_compute; discriminate|].
  apply (quoted_literal_roundtrip squote #"it's (a) test"); vm_compute; first [reflexivity | discriminate].
Defined.

End Tokenizer.
