(* ===== verification/SqlAst.v ===== *)
(** * SQL data model: include/sql/sql.h, include/sql/internal.h, src/sql/parser_internal.h

    The public translation result, the statement AST the parser builds beside
    it, the members of the [Parser] class, and the JSON values both carry. Each
    record is followed by one setter per member the code assigns. *)

From S2P Require Import Prelude CText SqlTokenizer.

Module Ast.

(** ** JSON values

    [nlohmann::json] as the parser uses it: scalars, and objects kept, like the
    library's default [std::map], in key order. *)

Inductive json :=
| JNull
| JBool (b : bool)
| JInt (z : Z)
| JDouble (d : double)
| JStr (s : bytes)
| JObj (members : list (bytes * json)).

Fixpoint members_set (k : bytes) (v : json) (ms : list (bytes * json)) : list (bytes * json) :=
  match ms with
  | [] => [(k, v)]
  | (k', v') :: r =>
      match str_compare k k' with
      | Lt => (k, v) :: ms
      | Eq => (k', v) :: r
      | Gt => (k', v') :: members_set k v r
      end
  end.

Fixpoint members_get (k : bytes) (ms : list (bytes * json)) : option json :=
  match ms with
  | [] => None
  | (k', v') :: r => if bool_decide (k = k') then Some v' else members_get k r
  end.

(** [obj[k] = v]; a null value becomes an object first. *)

Definition json_set (k : bytes) (v : json) (obj : json) : json :=
  match obj with
  | JObj ms => JObj (members_set k v ms)
  | _ => JObj [(k, v)]
  end.

(** [obj[k]], the reference a further [operator[]] writes through: a missing
    member is a fresh null. *)

Definition json_get (k : bytes) (obj : json) : json :=
  match obj with
  | JObj ms => match members_get k ms with Some v => v | None => JNull end
  | _ => JNull
  end.

(** ** The public result *)

(** One projected field of a translated SELECT. *)

Record SQLSelectField := mkSelectField {
  sf_SourceName : bytes;
  sf_OutputName : bytes
}.

(** One aggregate expression of a translated SELECT. *)

Record SQLAggregateSpec := mkAggregateSpec {
  ag_FunctionName : bytes;
  ag_FieldName : bytes;
  ag_OutputName : bytes;
  ag_CountAll : bool;
  ag_Distinct : bool
}.

Inductive StatementType :=
| Unknown | Select | Insert | Delete | Update | Drop | ShowCollections.

#[export] Instance StatementType_eq_dec : EqDecision StatementType.
Proof. solve_decision. Defined.

(** The members of [ComprehensiveSearchQuery] the SQL front end assigns. *)

Record SearchQuery := mkQuery {
  q_Q : bytes;
  q_FilterBy : bytes;
  q_PerPage : Z;
  q_Page : Z;
  q_Offset : Z;
  q_SortBy : list bytes;
  q_Highlight : bool;
  q_IncludeFields : list bytes;
  q_GroupBy : list bytes;
  q_Aggregations : bytes
}.

Definition set_q_Q (v : bytes) (r : SearchQuery) : SearchQuery :=
  mkQuery v (q_FilterBy r) (q_PerPage r) (q_Page r) (q_Offset r) (q_SortBy r) (q_Highlight r)
    (q_IncludeFields r) (q_GroupBy r) (q_Aggregations r).

Definition set_q_FilterBy (v : bytes) (r : SearchQuery) : SearchQuery :=
  mkQuery (q_Q r) v (q_PerPage r) (q_Page r) (q_Offset r) (q_SortBy r) (q_Highlight r)
    (q_IncludeFields r) (q_GroupBy r) (q_Aggregations r).

Definition set_q_PerPage (v : Z) (r : SearchQuery) : SearchQuery :=
  mkQuery (q_Q r) (q_FilterBy r) v (q_Page r) (q_Offset r) (q_SortBy r) (q_Highlight r)
    (q_IncludeFields r) (q_GroupBy r) (q_Aggregations r).

Definition set_q_Page (v : Z) (r : SearchQuery) : SearchQuery :=
  mkQuery (q_Q r) (q_FilterBy r) (q_PerPage r) v (q_Offset r) (q_SortBy r) (q_Highlight r)
    (q_IncludeFields r) (q_GroupBy r) (q_Aggregations r).

Definition set_q_Offset (v : Z) (r : SearchQuery) : SearchQuery :=
  mkQuery (q_Q r) (q_FilterBy r) (q_PerPage r) (q_Page r) v (q_SortBy r) (q_Highlight r)
    (q_IncludeFields r) (q_GroupBy r) (q_Aggregations r).

Definition set_q_SortBy (v : list bytes) (r : SearchQuery) : SearchQuery :=
  mkQuery (q_Q r) (q_FilterBy r) (q_PerPage r) (q_Page r) (q_Offset r) v (q_Highlight r)
    (q_IncludeFields r) (q_GroupBy r) (q_Aggregations r).

Definition set_q_Highlight (v : bool) (r : SearchQuery) : SearchQuery :=
  mkQuery (q_Q r) (q_FilterBy r) (q_PerPage r) (q_Page r) (q_Offset r) (q_SortBy r) v
    (q_IncludeFields r) (q_GroupBy r) (q_Aggregations r).

Definition set_q_IncludeFields (v : list bytes) (r : SearchQuery) : SearchQuery :=
  mkQuery (q_Q r) (q_FilterBy r) (q_PerPage r) (q_Page r) (q_Offset r) (q_SortBy r)
    (q_Highlight r) v (q_GroupBy r) (q_Aggregations r).

Definition set_q_GroupBy (v : list bytes) (r : SearchQuery) : SearchQuery :=
  mkQuery (q_Q r) (q_FilterBy r) (q_PerPage r) (q_Page r) (q_Offset r) (q_SortBy r)
    (q_Highlight r) (q_IncludeFields r) v (q_Aggregations r).

Definition set_q_Aggregations (v : bytes) (r : SearchQuery) : SearchQuery :=
  mkQuery (q_Q r) (q_FilterBy r) (q_PerPage r) (q_Page r) (q_Offset r) (q_SortBy r)
    (q_Highlight r) (q_IncludeFields r) (q_GroupBy r) v.

Definition default_query : SearchQuery := mkQuery [] [] 10 1 0 [] false [] [] [].

(** [struct SQLTranslationResult]. *)

Record SQLTranslationResult := mkResult {
  r_Type : StatementType;
  r_Valid : bool;
  r_AggregateOnly : bool;
  r_GroupedAggregates : bool;
  r_Distinct : bool;
  r_HasExplicitLimit : bool;
  r_Error : bytes;
  r_Collection : bytes;
  r_HavingFilter : bytes;
  r_InsertDocument : json;
  r_Query : SearchQuery;
  r_SelectFields : list SQLSelectField;
  r_AggregateSpecs : list SQLAggregateSpec
}.

Definition set_r_Type (v : StatementType) (r : SQLTranslationResult) : SQLTranslationResult :=
  mkResult v (r_Valid r) (r_AggregateOnly r) (r_GroupedAggregates r) (r_Distinct r)
    (r_HasExplicitLimit r) (r_Error r) (r_Collection r) (r_HavingFilter r) (r_InsertDocument r)
    (r_Query r) (r_SelectFields r) (r_AggregateSpecs r).

Definition set_r_Valid (v : bool) (r : SQLTranslationResult) : SQLTranslationResult :=
  mkResult (r_Type r) v (r_AggregateOnly r) (r_GroupedAggregates r) (r_Distinct r)
    (r_HasExplicitLimit r) (r_Error r) (r_Collection r) (r_HavingFilter r) (r_InsertDocument r)
    (r_Query r) (r_SelectFields r) (r_AggregateSpecs r).

Definition set_r_AggregateOnly (v : bool) (r : SQLTranslationResult) : SQLTranslationResult :=
  mkResult (r_Type r) (r_Valid r) v (r_GroupedAggregates r) (r_Distinct r) (r_HasExplicitLimit r)
    (r_Error r) (r_Collection r) (r_HavingFilter r) (r_InsertDocument r) (r_Query r)
    (r_SelectFields r) (r_AggregateSpecs r).

Definition set_r_GroupedAggregates (v : bool) (r : SQLTranslationResult) : SQLTranslationResult :=
  mkResult (r_Type r) (r_Valid r) (r_AggregateOnly r) v (r_Distinct r) (r_HasExplicitLimit r)
    (r_Error r) (r_Collection r) (r_HavingFilter r) (r_InsertDocument r) (r_Query r)
    (r_SelectFields r) (r_AggregateSpecs r).

Definition set_r_Distinct (v : bool) (r : SQLTranslationResult) : SQLTranslationResult :=
  mkResult (r_Type r) (r_Valid r) (r_AggregateOnly r) (r_GroupedAggregates r) v
    (r_HasExplicitLimit r) (r_Error r) (r_Collection r) (r_HavingFilter r) (r_InsertDocument r)
    (r_Query r) (r_SelectFields r) (r_AggregateSpecs r).

Definition set_r_HasExplicitLimit (v : bool) (r : SQLTranslationResult) : SQLTranslationResult :=
  mkResult (r_Type r) (r_Valid r) (r_AggregateOnly r) (r_GroupedAggregates r) (r_Distinct r) v
    (r_Error r) (r_Collection r) (r_HavingFilter r) (r_InsertDocument r) (r_Query r)
    (r_SelectFields r) (r_AggregateSpecs r).

Definition set_r_Error (v : bytes) (r : SQLTranslationResult) : SQLTranslationResult :=
  mkResult (r_Type r) (r_Valid r) (r_AggregateOnly r) (r_GroupedAggregates r) (r_Distinct r)
    (r_HasExplicitLimit r) v (r_Collection r) (r_HavingFilter r) (r_InsertDocument r) (r_Query r)
    (r_SelectFields r) (r_AggregateSpecs r).

Definition set_r_Collection (v : bytes) (r : SQLTranslationResult) : SQLTranslationResult :=
  mkResult (r_Type r) (r_Valid r) (r_AggregateOnly r) (r_GroupedAggregates r) (r_Distinct r)
    (r_HasExplicitLimit r) (r_Error r) v (r_HavingFilter r) (r_InsertDocument r) (r_Query r)
    (r_SelectFields r) (r_AggregateSpecs r).

Definition set_r_HavingFilter (v : bytes) (r : SQLTranslationResult) : SQLTranslationResult :=
  mkResult (r_Type r) (r_Valid r) (r_AggregateOnly r) (r_GroupedAggregates r) (r_Distinct r)
    (r_HasExplicitLimit r) (r_Error r) (r_Collection r) v (r_InsertDocument r) (r_Query r)
    (r_SelectFields r) (r_AggregateSpecs r).

Definition set_r_InsertDocument (v : json) (r : SQLTranslationResult) : SQLTranslationResult :=
  mkResult (r_Type r) (r_Valid r) (r_AggregateOnly r) (r_GroupedAggregates r) (r_Distinct r)
    (r_HasExplicitLimit r) (r_Error r) (r_Collection r) (r_HavingFilter r) v (r_Query r)
    (r_SelectFields r) (r_AggregateSpecs r).

Definition set_r_Query (v : SearchQuery) (r : SQLTranslationResult) : SQLTranslationResult :=
  mkResult (r_Type r) (r_Valid r) (r_AggregateOnly r) (r_GroupedAggregates r) (r_Distinct r)
    (r_HasExplicitLimit r) (r_Error r) (r_Collection r) (r_HavingFilter r) (r_InsertDocument r) v
    (r_SelectFields r) (r_AggregateSpecs r).

Definition set_r_SelectFields (v : list SQLSelectField) (r : SQLTranslationResult) : SQLTranslationResult :=
  mkResult (r_Type r) (r_Valid r) (r_AggregateOnly r) (r_GroupedAggregates r) (r_Distinct r)
    (r_HasExplicitLimit r) (r_Error r) (r_Collection r) (r_HavingFilter r) (r_InsertDocument r)
    (r_Query r) v (r_AggregateSpecs r).

Definition set_r_AggregateSpecs (v : list SQLAggregateSpec) (r : SQLTranslationResult) : SQLTranslationResult :=
  mkResult (r_Type r) (r_Valid r) (r_AggregateOnly r) (r_GroupedAggregates r) (r_Distinct r)
    (r_HasExplicitLimit r) (r_Error r) (r_Collection r) (r_HavingFilter r) (r_InsertDocument r)
    (r_Query r) (r_SelectFields r) v.

Definition default_result : SQLTranslationResult :=
  mkResult Unknown false false false false false [] [] [] (JObj []) default_query [] [].

Definition upd_query (f : SearchQuery -> SearchQuery) (r : SQLTranslationResult) : SQLTranslationResult :=
  set_r_Query (f (r_Query r)) r.

(** ** The statement AST *)

(** One ORDER BY expression. *)

Record SQLASTOrderByItem := mkOrderBy {
  ob_Field : bytes;
  ob_Direction : bytes
}.

Inductive ItemType := ItemWildcard | ItemField | ItemAggregate.

#[export] Instance ItemType_eq_dec : EqDecision ItemType.
Proof. solve_decision. Defined.

(** One item of a SELECT list. *)

Record SQLASTSelectItem := mkSelectItem {
  si_Type : ItemType;
  si_SourceName : bytes;
  si_OutputName : bytes;
  si_FunctionName : bytes;
  si_CountAll : bool;
  si_Distinct : bool
}.

(** [struct SQLASTStatement]. *)

Record SQLASTStatement := mkStatement {
  st_Type : StatementType;
  st_Valid : bool;
  st_Distinct : bool;
  st_HasExplicitLimit : bool;
  st_Collection : bytes;
  st_FilterBy : bytes;
  st_HavingFilter : bytes;
  st_Limit : Z;
  st_Offset : Z;
  st_SelectItems : list SQLASTSelectItem;
  st_GroupBy : list bytes;
  st_OrderBy : list SQLASTOrderByItem;
  st_InsertDocument : json
}.

Definition set_st_Type (v : StatementType) (r : SQLASTStatement) : SQLASTStatement :=
  mkStatement v (st_Valid r) (st_Distinct r) (st_HasExplicitLimit r) (st_Collection r)
    (st_FilterBy r) (st_HavingFilter r) (st_Limit r) (st_Offset r) (st_SelectItems r)
    (st_GroupBy r) (st_OrderBy r) (st_InsertDocument r).

Definition set_st_Valid (v : bool) (r : SQLASTStatement) : SQLASTStatement :=
  mkStatement (st_Type r) v (st_Distinct r) (st_HasExplicitLimit r) (st_Collection r)
    (st_FilterBy r) (st_HavingFilter r) (st_Limit r) (st_Offset r) (st_SelectItems r)
    (st_GroupBy r) (st_OrderBy r) (st_InsertDocument r).

Definition set_st_Distinct (v : bool) (r : SQLASTStatement) : SQLASTStatement :=
  mkStatement (st_Type r) (st_Valid r) v (st_HasExplicitLimit r) (st_Collection r) (st_FilterBy r)
    (st_HavingFilter r) (st_Limit r) (st_Offset r) (st_SelectItems r) (st_GroupBy r)
    (st_OrderBy r) (st_InsertDocument r).

Definition set_st_HasExplicitLimit (v : bool) (r : SQLASTStatement) : SQLASTStatement :=
  mkStatement (st_Type r) (st_Valid r) (st_Distinct r) v (st_Collection r) (st_FilterBy r)
    (st_HavingFilter r) (st_Limit r) (st_Offset r) (st_SelectItems r) (st_GroupBy r)
    (st_OrderBy r) (st_InsertDocument r).

Definition set_st_Collection (v : bytes) (r : SQLASTStatement) : SQLASTStatement :=
  mkStatement (st_Type r) (st_Valid r) (st_Distinct r) (st_HasExplicitLimit r) v (st_FilterBy r)
    (st_HavingFilter r) (st_Limit r) (st_Offset r) (st_SelectItems r) (st_GroupBy r)
    (st_OrderBy r) (st_InsertDocument r).

Definition set_st_FilterBy (v : bytes) (r : SQLASTStatement) : SQLASTStatement :=
  mkStatement (st_Type r) (st_Valid r) (st_Distinct r) (st_HasExplicitLimit r) (st_Collection r) v
    (st_HavingFilter r) (st_Limit r) (st_Offset r) (st_SelectItems r) (st_GroupBy r)
    (st_OrderBy r) (st_InsertDocument r).

Definition set_st_HavingFilter (v : bytes) (r : SQLASTStatement) : SQLASTStatement :=
  mkStatement (st_Type r) (st_Valid r) (st_Distinct r) (st_HasExplicitLimit r) (st_Collection r)
    (st_FilterBy r) v (st_Limit r) (st_Offset r) (st_SelectItems r) (st_GroupBy r) (st_OrderBy r)
    (st_InsertDocument r).

Definition set_st_Limit (v : Z) (r : SQLASTStatement) : SQLASTStatement :=
  mkStatement (st_Type r) (st_Valid r) (st_Distinct r) (st_HasExplicitLimit r) (st_Collection r)
    (st_FilterBy r) (st_HavingFilter r) v (st_Offset r) (st_SelectItems r) (st_GroupBy r)
    (st_OrderBy r) (st_InsertDocument r).

Definition set_st_Offset (v : Z) (r : SQLASTStatement) : SQLASTStatement :=
  mkStatement (st_Type r) (st_Valid r) (st_Distinct r) (st_HasExplicitLimit r) (st_Collection r)
    (st_FilterBy r) (st_HavingFilter r) (st_Limit r) v (st_SelectItems r) (st_GroupBy r)
    (st_OrderBy r) (st_InsertDocument r).

Definition set_st_SelectItems (v : list SQLASTSelectItem) (r : SQLASTStatement) : SQLASTStatement :=
  mkStatement (st_Type r) (st_Valid r) (st_Distinct r) (st_HasExplicitLimit r) (st_Collection r)
    (st_FilterBy r) (st_HavingFilter r) (st_Limit r) (st_Offset r) v (st_GroupBy r) (st_OrderBy r)
    (st_InsertDocument r).

Definition set_st_GroupBy (v : list bytes) (r : SQLASTStatement) : SQLASTStatement :=
  mkStatement (st_Type r) (st_Valid r) (st_Distinct r) (st_HasExplicitLimit r) (st_Collection r)
    (st_FilterBy r) (st_HavingFilter r) (st_Limit r) (st_Offset r) (st_SelectItems r) v
    (st_OrderBy r) (st_InsertDocument r).

Definition set_st_OrderBy (v : list SQLASTOrderByItem) (r : SQLASTStatement) : SQLASTStatement :=
  mkStatement (st_Type r) (st_Valid r) (st_Distinct r) (st_HasExplicitLimit r) (st_Collection r)
    (st_FilterBy r) (st_HavingFilter r) (st_Limit r) (st_Offset r) (st_SelectItems r)
    (st_GroupBy r) v (st_InsertDocument r).

Definition set_st_InsertDocument (v : json) (r : SQLASTStatement) : SQLASTStatement :=
  mkStatement (st_Type r) (st_Valid r) (st_Distinct r) (st_HasExplicitLimit r) (st_Collection r)
    (st_FilterBy r) (st_HavingFilter r) (st_Limit r) (st_Offset r) (st_SelectItems r)
    (st_GroupBy r) (st_OrderBy r) v.

Definition default_statement : SQLASTStatement :=
  mkStatement Unknown false false false [] [] [] 10 0 [] [] [] (JObj []).

(** ** The members of [class Parser]

    [p_Result] is the [SQLTranslationResult] the parsing functions receive by
    reference; keeping it with the members makes every function one state
    transformer. *)

(** [class Parser]. *)

Record Parser := mkParser {
  p_Tokens : list Tokenizer.SQLToken;
  p_Position : nat;
  p_CollectionName : bytes;
  p_TableAlias : bytes;
  p_SelectedFields : list bytes;
  p_SelectedOutputFields : list SQLSelectField;
  p_CurrentAggregateSpecs : list SQLAggregateSpec;
  p_SelectAliases : gmap bytes bytes;
  p_AggregateConfig : json;
  p_ParsedStatement : SQLASTStatement;
  p_ASTNodeCount : Z;
  p_ExpressionDepth : Z;
  p_Result : SQLTranslationResult
}.

Definition set_p_Position (v : nat) (r : Parser) : Parser :=
  mkParser (p_Tokens r) v (p_CollectionName r) (p_TableAlias r) (p_SelectedFields r)
    (p_SelectedOutputFields r) (p_CurrentAggregateSpecs r) (p_SelectAliases r)
    (p_AggregateConfig r) (p_ParsedStatement r) (p_ASTNodeCount r) (p_ExpressionDepth r)
    (p_Result r).

Definition set_p_CollectionName (v : bytes) (r : Parser) : Parser :=
  mkParser (p_Tokens r) (p_Position r) v (p_TableAlias r) (p_SelectedFields r)
    (p_SelectedOutputFields r) (p_CurrentAggregateSpecs r) (p_SelectAliases r)
    (p_AggregateConfig r) (p_ParsedStatement r) (p_ASTNodeCount r) (p_ExpressionDepth r)
    (p_Result r).

Definition set_p_TableAlias (v : bytes) (r : Parser) : Parser :=
  mkParser (p_Tokens r) (p_Position r) (p_CollectionName r) v (p_SelectedFields r)
    (p_SelectedOutputFields r) (p_CurrentAggregateSpecs r) (p_SelectAliases r)
    (p_AggregateConfig r) (p_ParsedStatement r) (p_ASTNodeCount r) (p_ExpressionDepth r)
    (p_Result r).

Definition set_p_SelectedFields (v : list bytes) (r : Parser) : Parser :=
  mkParser (p_Tokens r) (p_Position r) (p_CollectionName r) (p_TableAlias r) v
    (p_SelectedOutputFields r) (p_CurrentAggregateSpecs r) (p_SelectAliases r)
    (p_AggregateConfig r) (p_ParsedStatement r) (p_ASTNodeCount r) (p_ExpressionDepth r)
    (p_Result r).

Definition set_p_SelectedOutputFields (v : list SQLSelectField) (r : Parser) : Parser :=
  mkParser (p_Tokens r) (p_Position r) (p_CollectionName r) (p_TableAlias r)
    (p_SelectedFields r) v (p_CurrentAggregateSpecs r) (p_SelectAliases r) (p_AggregateConfig r)
    (p_ParsedStatement r) (p_ASTNodeCount r) (p_ExpressionDepth r) (p_Result r).

Definition set_p_CurrentAggregateSpecs (v : list SQLAggregateSpec) (r : Parser) : Parser :=
  mkParser (p_Tokens r) (p_Position r) (p_CollectionName r) (p_TableAlias r) (p_SelectedFields r)
    (p_SelectedOutputFields r) v (p_SelectAliases r) (p_AggregateConfig r) (p_ParsedStatement r)
    (p_ASTNodeCount r) (p_ExpressionDepth r) (p_Result r).

Definition set_p_SelectAliases (v : gmap bytes bytes) (r : Parser) : Parser :=
  mkParser (p_Tokens r) (p_Position r) (p_CollectionName r) (p_TableAlias r) (p_SelectedFields r)
    (p_SelectedOutputFields r) (p_CurrentAggregateSpecs r) v (p_AggregateConfig r)
    (p_ParsedStatement r) (p_ASTNodeCount r) (p_ExpressionDepth r) (p_Result r).

Definition set_p_AggregateConfig (v : json) (r : Parser) : Parser :=
  mkParser (p_Tokens r) (p_Position r) (p_CollectionName r) (p_TableAlias r) (p_SelectedFields r)
    (p_SelectedOutputFields r) (p_CurrentAggregateSpecs r) (p_SelectAliases r) v
    (p_ParsedStatement r) (p_ASTNodeCount r) (p_ExpressionDepth r) (p_Result r).

Definition set_p_ParsedStatement (v : SQLASTStatement) (r : Parser) : Parser :=
  mkParser (p_Tokens r) (p_Position r) (p_CollectionName r) (p_TableAlias r) (p_SelectedFields r)
    (p_SelectedOutputFields r) (p_CurrentAggregateSpecs r) (p_SelectAliases r)
    (p_AggregateConfig r) v (p_ASTNodeCount r) (p_ExpressionDepth r) (p_Result r).

Definition set_p_ASTNodeCount (v : Z) (r : Parser) : Parser :=
  mkParser (p_Tokens r) (p_Position r) (p_CollectionName r) (p_TableAlias r) (p_SelectedFields r)
    (p_SelectedOutputFields r) (p_CurrentAggregateSpecs r) (p_SelectAliases r)
    (p_AggregateConfig r) (p_ParsedStatement r) v (p_ExpressionDepth r) (p_Result r).

Definition set_p_ExpressionDepth (v : Z) (r : Parser) : Parser :=
  mkParser (p_Tokens r) (p_Position r) (p_CollectionName r) (p_TableAlias r) (p_SelectedFields r)
    (p_SelectedOutputFields r) (p_CurrentAggregateSpecs r) (p_SelectAliases r)
    (p_AggregateConfig r) (p_ParsedStatement r) (p_ASTNodeCount r) v (p_Result r).

Definition set_p_Result (v : SQLTranslationResult) (r : Parser) : Parser :=
  mkParser (p_Tokens r) (p_Position r) (p_CollectionName r) (p_TableAlias r) (p_SelectedFields r)
    (p_SelectedOutputFields r) (p_CurrentAggregateSpecs r) (p_SelectAliases r)
    (p_AggregateConfig r) (p_ParsedStatement r) (p_ASTNodeCount r) (p_ExpressionDepth r) v.

Definition new_Parser (tokens : list Tokenizer.SQLToken) : Parser :=
  mkParser tokens 0 [] [] [] [] [] ∅ (JObj []) default_statement 0 0 default_result.

Definition upd_result (f : SQLTranslationResult -> SQLTranslationResult) (p : Parser) : Parser :=
  set_p_Result (f (p_Result p)) p.

Definition upd_statement (f : SQLASTStatement -> SQLASTStatement) (p : Parser) : Parser :=
  set_p_ParsedStatement (f (p_ParsedStatement p)) p.

End Ast.
