(* ===== verification/SqlParser.v ===== *)
(** * SQL parser: src/sql/parser.cpp

    The recursive-descent parser of [class Parser]: token access, references,
    predicates, boolean expressions, the SELECT clauses and the SELECT
    statement. A member function [bool f(..., std::string *error)] is a
    computation of the monad [M]: it transforms the parser members and either
    delivers its output, or fails with the text left in [*error]. Loops and the
    mutual recursion of the expression grammar take fuel; [OutOfFuel] is not an
    outcome of the code, and SqlParserProps shows it does not arise. [Throw] is an
    exception that leaves the parser. *)

From S2P Require Import Prelude CText SqlTokenizer SqlAst.
Import Tokenizer Ast.

Module SqlParser.

(** ** The parser monad *)

Inductive outcome (A : Type) : Type :=
| Done (a : A)
| Fail (msg : bytes)
| OutOfFuel
| Throw.
Arguments Done {A} a.
Arguments Fail {A} msg.
Arguments OutOfFuel {A}.
Arguments Throw {A}.

Definition M (A : Type) : Type := Parser -> Parser * outcome A.

Definition mret {A} (a : A) : M A := fun p => (p, Done a).
Definition mfail {A} (msg : bytes) : M A := fun p => (p, Fail msg).
Definition mfuel {A} : M A := fun p => (p, OutOfFuel).
Definition mthrow {A} : M A := fun p => (p, Throw).
Definition mget {A} (f : Parser -> A) : M A := fun p => (p, Done (f p)).
Definition mmodify (f : Parser -> Parser) : M unit := fun p => (f p, Done tt).

Definition mbind {A B} (m : M A) (k : A -> M B) : M B :=
  fun p => match m p with
           | (p', Done a) => k a p'
           | (p', Fail msg) => (p', Fail msg)
           | (p', OutOfFuel) => (p', OutOfFuel)
           | (p', Throw) => (p', Throw)
           end.

(** [if (!m) { *error = msg; return false; }] *)

Definition orfail {A} (msg : bytes) (m : M A) : M A :=
  fun p => match m p with
           | (p', Fail _) => (p', Fail msg)
           | r => r
           end.

Declare Scope parser_scope.
Delimit Scope parser_scope with parser.
Notation "x <- m ;; k" := (mbind m (fun x => k)) (at level 100, m at next level, right associativity) : parser_scope.
Notation "m ;;; k" := (mbind m (fun _ => k)) (at level 100, right associativity) : parser_scope.
Open Scope parser_scope.

(** ** Limits *)

Definition SQLMaxASTNodes : Z := 256.
Definition SQLMaxExpressionDepth : Z := 32.
Definition SQLMaxInListValues : Z := 100.

(** ** Value tokens *)

Definition reserved_keywords : list bytes :=
  [ #"AND"; #"AS"; #"BETWEEN"; #"BY"; #"CONTAINS"; #"DELETE"; #"DESC"; #"DROP"; #"FETCH"; #"FIRST";
    #"FROM"; #"GROUP"; #"HAVING"; #"ILIKE"; #"IN"; #"INSERT"; #"INTO"; #"IS"; #"LIKE"; #"LIMIT";
    #"NEXT"; #"NOT"; #"OFFSET"; #"ONLY"; #"OR"; #"ORDER"; #"ROW"; #"ROWS"; #"SELECT"; #"SHOW";
    #"UPDATE"; #"VALUES"; #"WHERE"].

Definition SQLIsReservedValueKeyword (upper : bytes) : bool := bool_decide (upper ∈ reserved_keywords).

Definition front_is_quote (text : bytes) : bool :=
  match text with c :: _ => is_quote c | [] => false end.

Definition invalid_value_tokens : list bytes :=
  [ #","; #"("; #")"; #"*"; #";"; #"="; #"!="; #"<>"; #">"; #">="; #"<"; #"<="].

Definition SQLCanUseTokenAsValue (token : SQLToken) : bool :=
  if front_is_quote (Text token) then true
  else if bool_decide (Text token ∈ invalid_value_tokens) then false
  else if bool_decide (Upper token ∈ [ #"TRUE"; #"FALSE"; #"NULL"]) then true
  else negb (SQLIsReservedValueKeyword (Upper token)).

(** ** Budgets *)

Definition TryConsumeASTNode (label : bytes) : M unit :=
  mmodify (fun p => set_p_ASTNodeCount (p_ASTNodeCount p + 1) p) ;;;
  n <- mget p_ASTNodeCount ;;
  if SQLMaxASTNodes <? n
  then mfail (#"SQL query exceeds the maximum supported " ++ label ++ #" count.")
  else mret tt.

Definition EnterExpressionGroup : M unit :=
  mmodify (fun p => set_p_ExpressionDepth (p_ExpressionDepth p + 1) p) ;;;
  d <- mget p_ExpressionDepth ;;
  if SQLMaxExpressionDepth <? d
  then mfail #"SQL query exceeds the maximum supported expression nesting depth."
  else mret tt.

Definition LeaveExpressionGroup : M unit :=
  mmodify (fun p => if 0 <? p_ExpressionDepth p then set_p_ExpressionDepth (p_ExpressionDepth p - 1) p else p).

(** ** Token access *)

Definition AtEnd (p : Parser) : bool := (length (p_Tokens p) <=? p_Position p)%nat.

Definition Peek (p : Parser) : option SQLToken := if AtEnd p then None else p_Tokens p !! p_Position p.

Definition PeekAt (offset : nat) (p : Parser) : option SQLToken :=
  let index := (p_Position p + offset)%nat in
  if (length (p_Tokens p) <=? index)%nat then None else p_Tokens p !! index.

Definition PeekText (p : Parser) : bytes := match Peek p with Some t => Text t | None => [] end.

Definition PeekUpper (p : Parser) : bytes := match Peek p with Some t => Upper t | None => [] end.

Definition Advance : M (option SQLToken) :=
  fun p => if AtEnd p then (p, Done None)
           else (set_p_Position (S (p_Position p)) p, Done (p_Tokens p !! p_Position p)).

Definition MatchKeyword (keyword : bytes) : M bool :=
  u <- mget PeekUpper ;;
  if negb (bool_decide (u = keyword)) then mret false else Advance ;;; mret true.

Definition peek_is (text : bytes) : M bool := mget (fun p => bool_decide (PeekText p = text)).

Definition CanReadClause (clause_name : bytes) (clause_rank : Z) (clauses : Z * gset bytes) : M (Z * gset bytes) :=
  let (current_rank, seen_clauses) := clauses in
  if bool_decide (clause_name ∈ seen_clauses) then mfail (#"Duplicate SQL " ++ clause_name ++ #" clause.")
  else if clause_rank <? current_rank then mfail (#"SQL " ++ clause_name ++ #" clause appears out of order.")
  else mret (clause_rank, {[clause_name]} ∪ seen_clauses).

Definition IsClauseKeyword (keyword : bytes) : bool :=
  bool_decide (keyword ∈ [ #"FROM"; #"WHERE"; #"ORDER"; #"GROUP"; #"LIMIT"; #"OFFSET"; #"FETCH"; #"HAVING";
    #"UNION"; #"INTERSECT"; #"EXCEPT"; #"ASC"; #"DESC"; #"AND"; #"OR"]).

Definition PeekStartsClause (p : Parser) : bool :=
  IsClauseKeyword (PeekUpper p) || bool_decide (PeekText p ∈ [ #","; #";"; #")"]).

(** ** Identifiers, references and values *)

Definition ParseIdentifier : M bytes :=
  tok <- mget Peek ;;
  match tok with
  | None => mfail []
  | Some token =>
      match Text token with
      | [] => mfail []
      | c :: _ =>
          if bool_decide (c = backtick) then
            let out := SQLStripQuotes (Text token) in
            Advance ;;; if bool_decide (out = []) then mfail [] else mret out
          else if SQLIsIdentifierStart c then Advance ;;; mret (Text token)
          else mfail []
      end
  end.

(** [identifier.find('.')] and the two halves around it. *)

Definition split_dot (identifier : bytes) : option (bytes * bytes) :=
  match find_char (fun c => bool_decide (c = "."%char)) identifier with
  | None => None
  | Some dot_pos => Some (take dot_pos identifier, drop (S dot_pos) identifier)
  end.

Definition qualifier_known (qualifier : bytes) (p : Parser) : bool :=
  (negb (bool_decide (p_TableAlias p = [])) && bool_decide (qualifier = p_TableAlias p)) ||
  (negb (bool_decide (p_CollectionName p = [])) && bool_decide (qualifier = p_CollectionName p)).

Definition no_table_yet (p : Parser) : bool :=
  bool_decide (p_TableAlias p = []) && bool_decide (p_CollectionName p = []).

Definition unknown_qualifier (qualifier identifier : bytes) : bytes :=
  #"Unknown table qualifier '" ++ qualifier ++ #"' in field reference '" ++ identifier ++ #"'.".

Definition ParseFieldReference : M bytes :=
  identifier <- ParseIdentifier ;;
  match split_dot identifier with
  | None => mret identifier
  | Some (qualifier, field_name) =>
      if bool_decide (field_name = [])
      then mfail (#"Invalid qualified field reference '" ++ identifier ++ #"'.")
      else
        fresh <- mget no_table_yet ;;
        known <- mget (qualifier_known qualifier) ;;
        if fresh then mret field_name
        else if known then mret field_name
        else mfail (unknown_qualifier qualifier identifier)
  end.

Definition aggregate_names : list bytes := [ #"AVG"; #"COUNT"; #"MAX"; #"MIN"; #"STATS"; #"SUM"].

Definition IsAggregateSelectItem (p : Parser) : bool :=
  match Peek p, PeekAt 1 p with
  | Some function_token, Some open_paren =>
      bool_decide (Text open_paren = #"(") && bool_decide (Upper function_token ∈ aggregate_names)
  | _, _ => false
  end.

Definition ToLowerASCII (value : bytes) : bytes := tolower <$> value.

Definition ToLowerAggregateName (function_name field_name : bytes) (count_all distinct_values : bool) : bytes :=
  let prefix := ToLowerASCII function_name in
  if count_all then prefix ++ #"_all"
  else if distinct_values then prefix ++ #"_distinct_" ++ field_name
  else prefix ++ #"_" ++ field_name.

(** The function name, DISTINCT marker and argument shared by the aggregate
    select item and the aggregate reference: name, field, COUNT-star, DISTINCT. *)

Definition aggregate_argument (function_name : bytes) : M (bytes * bool * bool) :=
  distinct_values <- MatchKeyword #"DISTINCT" ;;
  is_star <- peek_is #"*" ;;
  arg <- (if bool_decide (function_name = #"COUNT") && is_star then
            if (distinct_values : bool) then mfail #"COUNT(DISTINCT *) is not supported by hlquery SQL."
            else Advance ;;; mret ([], true)
          else
            field_name <- orfail (#"Expected field name inside aggregate function '" ++ function_name ++ #"'.")
                            ParseFieldReference ;;
            mret (field_name, false)) ;;
  close <- peek_is #")" ;;
  if negb close then mfail (#"Expected ')' after aggregate function '" ++ function_name ++ #"'.")
  else Advance ;;; mret (arg.1, arg.2, distinct_values).

Definition open_paren_after (function_name : bytes) : M unit :=
  open <- peek_is #"(" ;;
  if negb open then mfail (#"Expected '(' after aggregate function '" ++ function_name ++ #"'.")
  else Advance ;;; mret tt.

Definition same_aggregate (function_name field_name : bytes) (count_all distinct_values : bool)
    (spec : SQLAggregateSpec) : bool :=
  bool_decide (ag_FunctionName spec = function_name) && bool_decide (ag_FieldName spec = field_name) &&
  Bool.eqb (ag_CountAll spec) count_all && Bool.eqb (ag_Distinct spec) distinct_values.

Definition ParseAggregateReference : M bytes :=
  tok <- Advance ;;
  match tok with
  | None => mfail []
  | Some function_token =>
      let function_name := SQLToUpperASCII (Text function_token) in
      open_paren_after function_name ;;;
      arg <- aggregate_argument function_name ;;
      let '(field_name, count_all, distinct_values) := arg in
      specs <- mget p_CurrentAggregateSpecs ;;
      match List.find (same_aggregate function_name field_name count_all distinct_values) specs with
      | Some spec => mret (ag_OutputName spec)
      | None =>
          mfail (#"Aggregate expression '" ++ ToLowerAggregateName function_name field_name count_all distinct_values ++
                 #"' must appear in the SELECT list before it can be used in HAVING.")
      end
  end.

(** The output name of the selected field with a given source name. *)

Definition output_of_source (allow_aggregate_refs : bool) (name : bytes) (p : Parser) : bytes :=
  if allow_aggregate_refs then
    match List.find (fun f => bool_decide (sf_SourceName f = name)) (p_SelectedOutputFields p) with
    | Some f => sf_OutputName f
    | None => name
    end
  else name.

Definition ParsePredicateReference (allow_aggregate_refs : bool) : M bytes :=
  agg <- mget IsAggregateSelectItem ;;
  if allow_aggregate_refs && agg then ParseAggregateReference
  else
    identifier <- ParseIdentifier ;;
    aliases <- mget p_SelectAliases ;;
    match aliases !! SQLToUpperASCII identifier with
    | Some output => mret output
    | None =>
        match split_dot identifier with
        | None => mget (output_of_source allow_aggregate_refs identifier)
        | Some (qualifier, field_name) =>
            if bool_decide (field_name = [])
            then mfail (#"Invalid qualified field reference '" ++ identifier ++ #"'.")
            else
              fresh <- mget no_table_yet ;;
              known <- mget (qualifier_known qualifier) ;;
              if fresh then mret field_name
              else if known then mget (output_of_source allow_aggregate_refs field_name)
              else mfail (unknown_qualifier qualifier identifier)
        end
    end.

Definition ParseValue : M bytes :=
  tok <- mget Peek ;;
  match tok with
  | None => mfail []
  | Some token =>
      if negb (SQLCanUseTokenAsValue token) then mfail []
      else
        Advance ;;;
        if front_is_quote (Text token) then mret (SQLStripQuotes (Text token))
        else if bool_decide (Upper token = #"TRUE") then mret #"true"
        else if bool_decide (Upper token = #"FALSE") then mret #"false"
        else if bool_decide (Upper token = #"NULL") then mret #"NULL"
        else mret (Text token)
  end.

(** ** Rendering predicates as filter clauses *)

Definition unsafe_literal : bytes :=
  #"String literals containing ',', parentheses, logical filter delimiters, or range delimiters are not supported by hlquery SQL yet.".

Definition ValidateFilterLiteral (value : bytes) : M unit :=
  if SQLIsNumericLiteral value then mret tt
  else if negb (SQLIsSafeFilterLiteral value) then mfail unsafe_literal
  else mret tt.

Definition BuildRenderedComparison (field_name op value : bytes) : M bytes :=
  if bool_decide (SQLToUpperASCII value = #"NULL") then
    if bool_decide (op ∈ [ #"="; #":="]) then mret (field_name ++ #":ISNULL")
    else if bool_decide (op = #"!=") then mret (field_name ++ #":ISNOTNULL")
    else mfail #"NULL only supports =, !=, IS NULL, and IS NOT NULL comparisons."
  else
    ValidateFilterLiteral value ;;;
    let numeric_value := SQLIsNumericLiteral value in
    let rendered_op := if bool_decide (op = #"=") && negb numeric_value then #":=" else op in
    mret (field_name ++ #":" ++ rendered_op ++ value).

Definition ParseBetween (field_name : bytes) (negate : bool) : M bytes :=
  low_value <- orfail #"BETWEEN expects a lower bound value." ParseValue ;;
  has_and <- MatchKeyword #"AND" ;;
  if negb has_and then mfail #"BETWEEN expects AND between the lower and upper bound."
  else
    high_value <- orfail #"BETWEEN expects an upper bound value." ParseValue ;;
    ValidateFilterLiteral low_value ;;;
    ValidateFilterLiteral high_value ;;;
    if negate
    then mret (#"(" ++ field_name ++ #":<" ++ low_value ++ #"||" ++ field_name ++ #":>" ++ high_value ++ #")")
    else mret (field_name ++ #":[" ++ low_value ++ #" TO " ++ high_value ++ #"]").

(** The loop of [ConvertSQLLikePattern]; [escape_next] is its flag. *)

Fixpoint convert_like (escape_next : bool) (value : bytes) : bytes :=
  match value with
  | [] => if escape_next then #"\" else []
  | c :: r =>
      if escape_next then c :: convert_like false r
      else if bool_decide (c = "\"%char) then convert_like true r
      else if bool_decide (c = "%"%char) then "*"%char :: convert_like false r
      else if bool_decide (c = "_"%char) then "?"%char :: convert_like false r
      else c :: convert_like false r
  end.

Definition ConvertSQLLikePattern (value : bytes) : bytes := convert_like false value.

Definition ParseLike (field_name : bytes) (case_insensitive negate : bool) : M bytes :=
  value <- orfail #"LIKE expects a string or scalar pattern." ParseValue ;;
  ValidateFilterLiteral value ;;;
  let pattern := ConvertSQLLikePattern value in
  ValidateFilterLiteral pattern ;;;
  if bool_decide (pattern = []) then mfail #"LIKE pattern cannot be empty."
  else mret (field_name ++ #":" ++ (if negate then #"NOT_" else []) ++
             (if case_insensitive then #"ILIKE:" else #"LIKE:") ++ pattern).

Definition ParseContains (field_name : bytes) (negate : bool) : M bytes :=
  value <- orfail #"CONTAINS expects a string or scalar value." ParseValue ;;
  ValidateFilterLiteral value ;;;
  if bool_decide (value = []) then mfail #"CONTAINS value cannot be empty."
  else mret (field_name ++ #":" ++ (if negate then #"NOT_LIKE:" else #"LIKE:") ++ #"*" ++ value ++ #"*").

Definition ParseIsPredicate (field_name : bytes) : M bytes :=
  negate <- MatchKeyword #"NOT" ;;
  is_null <- MatchKeyword #"NULL" ;;
  if (is_null : bool) then mret (field_name ++ #":" ++ (if (negate : bool) then #"ISNOTNULL" else #"ISNULL"))
  else
    is_true <- MatchKeyword #"TRUE" ;;
    if (is_true : bool) then BuildRenderedComparison field_name (if (negate : bool) then #"!=" else #"=") #"true"
    else
      is_false <- MatchKeyword #"FALSE" ;;
      if (is_false : bool) then BuildRenderedComparison field_name (if (negate : bool) then #"!=" else #"=") #"false"
      else mfail #"IS only supports NULL, TRUE, and FALSE in hlquery SQL.".

(** The loop of [ParseInList] over the values. *)

Fixpoint in_list_loop (fuel : nat) (field_name : bytes) (negate : bool) (rendered_terms : list bytes) : M (list bytes) :=
  match fuel with
  | O => mfuel
  | S fuel' =>
      at_end <- mget AtEnd ;;
      if (at_end : bool) then mret rendered_terms
      else if SQLMaxInListValues <=? size rendered_terms
      then mfail #"IN lists exceed the maximum supported value count."
      else
        value <- orfail #"IN expects one or more values inside parentheses." ParseValue ;;
        rendered <- BuildRenderedComparison field_name (if negate then #"!=" else #"=") value ;;
        let rendered_terms := rendered_terms ++ [rendered] in
        close <- peek_is #")" ;;
        if (close : bool) then mret rendered_terms
        else
          comma <- peek_is #"," ;;
          if negb comma then mfail #"IN value lists must be comma-separated."
          else Advance ;;; in_list_loop fuel' field_name negate rendered_terms
  end.

Fixpoint join (connector : bytes) (terms : list bytes) : bytes :=
  match terms with
  | [] => []
  | [t] => t
  | t :: r => t ++ connector ++ join connector r
  end.

(** Enough fuel for any loop that reads a token per iteration. *)

Definition token_fuel (p : Parser) : nat := S (length (p_Tokens p) - p_Position p).

Definition ParseInList (field_name : bytes) (negate : bool) : M bytes :=
  open <- peek_is #"(" ;;
  if negb open then mfail #"IN expects a parenthesized value list."
  else
    Advance ;;;
    fuel <- mget token_fuel ;;
    rendered_terms <- in_list_loop fuel field_name negate [] ;;
    close <- peek_is #")" ;;
    if negb close then mfail #"IN expects a closing ')' after the value list."
    else
      Advance ;;;
      if bool_decide (rendered_terms = []) then mfail #"IN expects at least one value."
      else
        let expression := join (if negate then #"&&" else #"||") rendered_terms in
        mret (if 1 <? size rendered_terms then #"(" ++ expression ++ #")" else expression).

(** ** Comparisons *)

(** The predicates after [field NOT]. *)

Definition ParseNotPredicate (field_name : bytes) : M bytes :=
  b <- MatchKeyword #"IN" ;; if (b : bool) then ParseInList field_name true else
  b <- MatchKeyword #"BETWEEN" ;; if (b : bool) then ParseBetween field_name true else
  b <- MatchKeyword #"LIKE" ;; if (b : bool) then ParseLike field_name false true else
  b <- MatchKeyword #"ILIKE" ;; if (b : bool) then ParseLike field_name true true else
  b <- MatchKeyword #"CONTAINS" ;; if (b : bool) then ParseContains field_name true else
  mfail (#"Unsupported SQL predicate after NOT for field '" ++ field_name ++ #"'.").

Definition comparison_operators : list bytes := [ #"="; #"!="; #">"; #">="; #"<"; #"<="].

(** [op] of an operator token under an outer NOT. *)

Definition negate_operator (negate : bool) (op : bytes) : M bytes :=
  if negate then
    if bool_decide (op = #"=") then mret #"!="
    else if bool_decide (op = #"!=") then mret #"="
    else mfail #"NOT only supports equality comparisons in hlquery SQL."
  else mret op.

Definition ParseOperatorComparison (negate : bool) (field_name : bytes) : M bytes :=
  at_end <- mget AtEnd ;;
  if (at_end : bool) then mfail (#"Expected operator after field '" ++ field_name ++ #"'.")
  else
    tok <- Advance ;;
    let op := match tok with Some t => Upper t | None => [] end in
    let op := if bool_decide (op = #"<>") then #"!=" else op in
    if bool_decide (op ∈ [ #"LIKE"; #"IN"])
    then mfail (#"Operator '" ++ op ++ #"' is not supported by hlquery SQL yet.")
    else if negb (bool_decide (op ∈ comparison_operators))
    then mfail (#"Unsupported operator '" ++ match tok with Some t => Text t | None => [] end ++ #"' in WHERE clause.")
    else
      op <- negate_operator negate op ;;
      value <- orfail (#"Expected comparison value after operator '" ++ op ++ #"'.") ParseValue ;;
      BuildRenderedComparison field_name op value.

Definition ParseComparison (allow_aggregate_refs : bool) : M bytes :=
  TryConsumeASTNode #"comparison" ;;;
  negate <- MatchKeyword #"NOT" ;;
  field_name <- orfail (if allow_aggregate_refs
                        then #"Expected field name or aggregate expression in HAVING clause."
                        else #"Expected field name in WHERE clause.")
                  (ParsePredicateReference allow_aggregate_refs) ;;
  b <- MatchKeyword #"NOT" ;; if (b : bool) then ParseNotPredicate field_name else
  b <- MatchKeyword #"IN" ;; if (b : bool) then ParseInList field_name false else
  b <- MatchKeyword #"BETWEEN" ;; if (b : bool) then ParseBetween field_name false else
  b <- MatchKeyword #"LIKE" ;; if (b : bool) then ParseLike field_name false false else
  b <- MatchKeyword #"ILIKE" ;; if (b : bool) then ParseLike field_name true false else
  b <- MatchKeyword #"CONTAINS" ;; if (b : bool) then ParseContains field_name false else
  b <- MatchKeyword #"IS" ;; if (b : bool) then ParseIsPredicate field_name else
  ParseOperatorComparison negate field_name.

(** ** Boolean expressions

    One fuel unit per call. [ParseExpression] and [ParseAndExpression] are the
    first operand followed by a loop over OR / AND. *)

(** Run [m]; whether it succeeds or fails, leave the expression group. *)

Definition leaving {A} (m : M A) : M A :=
  fun p => match m p with
           | (p', Fail msg) => ((LeaveExpressionGroup p').1, Fail msg)
           | (p', Done a) => (p', Done a)
           | (p', OutOfFuel) => (p', OutOfFuel)
           | (p', Throw) => (p', Throw)
           end.

Fixpoint ParseExpression (fuel : nat) (aggs : bool) {struct fuel} : M bytes :=
  match fuel with
  | O => mfuel
  | S f => out <- ParseAndExpression f aggs ;; or_loop f aggs out
  end
with or_loop (fuel : nat) (aggs : bool) (out : bytes) {struct fuel} : M bytes :=
  match fuel with
  | O => mfuel
  | S f =>
      u <- mget PeekUpper ;;
      if bool_decide (u = #"OR") then
        Advance ;;;
        rhs <- ParseAndExpression f aggs ;;
        or_loop f aggs (out ++ #"||" ++ rhs)
      else mret out
  end
with ParseAndExpression (fuel : nat) (aggs : bool) {struct fuel} : M bytes :=
  match fuel with
  | O => mfuel
  | S f => out <- ParsePrimaryExpression f aggs ;; and_loop f aggs out
  end
with and_loop (fuel : nat) (aggs : bool) (out : bytes) {struct fuel} : M bytes :=
  match fuel with
  | O => mfuel
  | S f =>
      u <- mget PeekUpper ;;
      if bool_decide (u = #"AND") then
        Advance ;;;
        rhs <- ParsePrimaryExpression f aggs ;;
        and_loop f aggs (out ++ #"&&" ++ rhs)
      else mret out
  end
with ParsePrimaryExpression (fuel : nat) (aggs : bool) {struct fuel} : M bytes :=
  match fuel with
  | O => mfuel
  | S f =>
      u <- mget PeekUpper ;;
      next_token <- mget (PeekAt 1) ;;
      let negated_group := bool_decide (u = #"NOT") &&
        match next_token with Some t => bool_decide (Text t = #"(") | None => false end in
      if negated_group then
        Advance ;;;
        inner <- ParsePrimaryExpression f aggs ;;
        mret (#"!" ++ inner)
      else
        open <- peek_is #"(" ;;
        if (open : bool) then
          EnterExpressionGroup ;;;
          Advance ;;;
          out <- leaving (ParseExpression f aggs) ;;
          close <- peek_is #")" ;;
          if negb close then LeaveExpressionGroup ;;; mfail #"Expected ')' to close WHERE expression."
          else Advance ;;; LeaveExpressionGroup ;;; mret (#"(" ++ out ++ #")")
        else ParseComparison aggs
  end.

(** Three calls per nesting level or connective, and two to finish. *)

Definition expression_fuel (p : Parser) : nat := (4 * (length (p_Tokens p) - p_Position p) + 4)%nat.

End SqlParser.
