(* ===== verification/SqlStatement.v ===== *)
(** * SQL statements: src/sql/parser.cpp, src/sql/parser_statements.cpp, src/sql/sql.cpp

    The SELECT list and its clauses, the statement parsers, the conversion of
    the AST into the public result, and the [SQLService] entry points. *)

From S2P Require Import Prelude CText SqlTokenizer SqlAst SqlParser.
Import Tokenizer Ast SqlParser.

Module SqlStatement.

#[local] Open Scope parser_scope.

Definition result_do (f : SQLTranslationResult -> SQLTranslationResult) : M unit := mmodify (upd_result f).
Definition query_do (f : SearchQuery -> SearchQuery) : M unit := result_do (upd_query f).
Definition statement_do (f : SQLASTStatement -> SQLASTStatement) : M unit := mmodify (upd_statement f).

(** ** Aliases and ordering references *)

Definition ParseOptionalAlias : M bytes :=
  as_kw <- MatchKeyword #"AS" ;;
  if (as_kw : bool) then ParseIdentifier
  else
    stop <- mget (fun p => AtEnd p || PeekStartsClause p) ;;
    if (stop : bool) then mret []
    else
      tok <- mget Peek ;;
      match tok with
      | Some token =>
          match Text token with
          | c :: _ => if SQLIsIdentifierStart c then Advance ;;; mret (Text token) else mret []
          | [] => mret []
          end
      | None => mret []
      end.

(** A reference by position: [Some ordinal] when the token is a whole positive
    integer that fits an [int]. *)

Definition ordinal_of (text : bytes) : option Z :=
  if SQLIsNumericLiteral text then
    match stoi text with
    | Some (ordinal, consumed) =>
        if bool_decide (consumed = length text) && (0 <? ordinal) then Some ordinal else None
    | None => None
    end
  else None.

Definition ParseOrderingIdentifier : M bytes :=
  identifier <- ParseIdentifier ;;
  aliases <- mget p_SelectAliases ;;
  match aliases !! SQLToUpperASCII identifier with
  | Some output => mret output
  | None =>
      match split_dot identifier with
      | None => mret identifier
      | Some (qualifier, field_name) =>
          known <- mget (qualifier_known qualifier) ;;
          if (known : bool) then mret field_name else mfail (unknown_qualifier qualifier identifier)
      end
  end.

Definition ParseOrderingReference : M bytes :=
  tok <- mget Peek ;;
  match tok with
  | None => mfail []
  | Some token =>
      match ordinal_of (Text token) with
      | Some ordinal =>
          Advance ;;;
          fields <- mget p_SelectedFields ;;
          if size fields <? ordinal
          then mfail (#"ORDER/GROUP BY position " ++ to_string ordinal ++ #" is out of range for the SELECT list.")
          else match fields !! Z.to_nat (ordinal - 1) with
               | Some f => mret f
               | None => mfail []
               end
      | None => ParseOrderingIdentifier
      end
  end.

(** ** Integers *)

Definition ParseNonNegativeInt (store : Z -> M unit) (label : bytes) : M Z :=
  at_end <- mget AtEnd ;;
  if (at_end : bool) then mfail (#"Expected integer value after " ++ label ++ #".")
  else
    tok <- Advance ;;
    match tok with
    | None => mfail []
    | Some token =>
        match stoi (Text token) with
        | Some (parsed, consumed) =>
            if negb (bool_decide (consumed = length (Text token))) || (parsed <? 0)
            then mfail (label ++ #" expects a non-negative integer.")
            else store parsed ;;; mret parsed
        | None => mfail (label ++ #" expects a non-negative integer.")
        end
    end.

Definition ParsePositiveInt (store : Z -> M unit) (label : bytes) : M Z :=
  out <- ParseNonNegativeInt store label ;;
  if out <=? 0 then mfail (label ++ #" must be greater than zero.") else mret out.

(** A target that is a local variable of the caller. *)

Definition local_int : Z -> M unit := fun _ => mret tt.

(** [per_page], and the offset of the two-argument form. *)

Definition ParseLimitClause : M (Z * option Z) :=
  first_value <- ParsePositiveInt local_int #"LIMIT" ;;
  comma <- peek_is #"," ;;
  if (comma : bool) then
    Advance ;;;
    second_value <- ParsePositiveInt local_int #"LIMIT" ;;
    query_do (set_q_PerPage second_value) ;;;
    mret (second_value, Some first_value)
  else
    query_do (set_q_PerPage first_value) ;;;
    mret (first_value, None).

Definition ParseFetchClause : M Z :=
  u <- mget PeekUpper ;;
  (if bool_decide (u ∈ [ #"FIRST"; #"NEXT"]) then Advance ;;; mret tt else mret tt) ;;;
  per_page <- ParsePositiveInt (fun v => query_do (set_q_PerPage v)) #"FETCH" ;;
  u <- mget PeekUpper ;;
  if negb (bool_decide (u ∈ [ #"ROW"; #"ROWS"])) then mfail #"FETCH expects ROW or ROWS after the limit value."
  else
    Advance ;;;
    only <- MatchKeyword #"ONLY" ;;
    if negb only then mfail #"FETCH expects ONLY after ROW or ROWS." else mret per_page.

(** ** The SELECT list *)

Definition aggregate_body (field_name : bytes) (count_all distinct_values : bool) : json :=
  let body := JObj [] in
  let body := if negb count_all && negb (bool_decide (field_name = []))
              then json_set #"field" (JStr field_name) body else body in
  if distinct_values then json_set #"distinct" (JBool true) body else body.

Definition add_alias (name : bytes) (p : Parser) : Parser :=
  set_p_SelectAliases (<[SQLToUpperASCII name := name]> (p_SelectAliases p)) p.

Definition add_selected (name : bytes) (p : Parser) : Parser :=
  set_p_SelectedFields (p_SelectedFields p ++ [name]) p.

Definition add_item (item : SQLASTSelectItem) : Parser -> Parser :=
  upd_statement (fun st => set_st_SelectItems (st_SelectItems st ++ [item]) st).

Definition ParseAggregateSelectItem : M unit :=
  tok <- Advance ;;
  match tok with
  | None => mfail #"Expected aggregate function after SELECT."
  | Some function_token =>
      let function_name := SQLToUpperASCII (Text function_token) in
      open_paren_after function_name ;;;
      arg <- aggregate_argument function_name ;;
      let '(field_name, count_all, distinct_values) := arg in
      alias_name <- orfail #"Expected alias name after aggregate expression." ParseOptionalAlias ;;
      if negb (bool_decide (function_name = #"COUNT")) && bool_decide (field_name = [])
      then mfail (function_name ++ #" requires a field name.")
      else
        let aggregation_name :=
          if bool_decide (alias_name = [])
          then ToLowerAggregateName function_name field_name count_all distinct_values else alias_name in
        mmodify (fun p =>
          set_p_AggregateConfig
            (json_set aggregation_name
               (json_set (ToLowerASCII function_name) (aggregate_body field_name count_all distinct_values)
                  (json_get aggregation_name (p_AggregateConfig p)))
               (p_AggregateConfig p)) p) ;;;
        TryConsumeASTNode #"aggregate expression" ;;;
        mmodify (add_selected aggregation_name) ;;;
        mmodify (add_alias aggregation_name) ;;;
        mmodify (fun p => set_p_CurrentAggregateSpecs
          (p_CurrentAggregateSpecs p ++
             [mkAggregateSpec function_name field_name aggregation_name count_all distinct_values]) p) ;;;
        mmodify (add_item (mkSelectItem ItemAggregate field_name aggregation_name function_name
                             count_all distinct_values))
  end.

Definition ParseFieldSelectItem : M unit :=
  field_name <- orfail #"Expected field list after SELECT." ParseFieldReference ;;
  alias_name <- orfail #"Expected alias name after AS." ParseOptionalAlias ;;
  let output_name := if bool_decide (alias_name = []) then field_name else alias_name in
  TryConsumeASTNode #"SELECT field" ;;;
  mmodify (add_selected output_name) ;;;
  mmodify (fun p => set_p_SelectedOutputFields
    (p_SelectedOutputFields p ++ [mkSelectField field_name output_name]) p) ;;;
  mmodify (add_alias output_name) ;;;
  mmodify (add_item (mkSelectItem ItemField field_name output_name [] false false)).

(** A comma-separated sequence of items, as all the list loops read it:
    [while (!AtEnd()) { item; if (PeekText() != ",") break; Advance(); }] *)

Fixpoint comma_loop (fuel : nat) (item : M unit) : M unit :=
  match fuel with
  | O => mfuel
  | S fuel' =>
      at_end <- mget AtEnd ;;
      if (at_end : bool) then mret tt
      else
        item ;;;
        comma <- peek_is #"," ;;
        if negb comma then mret tt else Advance ;;; comma_loop fuel' item
  end.

Definition comma_list (item : M unit) : M unit := fuel <- mget token_fuel ;; comma_loop fuel item.

Definition select_item : M unit :=
  agg <- mget IsAggregateSelectItem ;;
  if (agg : bool) then ParseAggregateSelectItem else ParseFieldSelectItem.

Definition ParseSelectList : M unit :=
  is_star <- peek_is #"*" ;;
  if (is_star : bool) then
    Advance ;;; mmodify (add_item (mkSelectItem ItemWildcard [] #"*" [] false false))
  else
    comma_list select_item ;;;
    items <- mget (fun p => st_SelectItems (p_ParsedStatement p)) ;;
    match items with
    | [] => mfail #"SELECT field list cannot be empty."
    | _ => mret tt
    end.

(** ** Clauses *)

Definition ParseCollection : M unit :=
  collection_name <- orfail #"Expected collection name after FROM." ParseIdentifier ;;
  result_do (set_r_Collection collection_name) ;;;
  mmodify (set_p_CollectionName collection_name) ;;;
  statement_do (set_st_Collection collection_name) ;;;
  alias_name <- orfail #"Expected table alias after AS." ParseOptionalAlias ;;
  if bool_decide (alias_name = []) then mret tt else mmodify (set_p_TableAlias alias_name).

Definition expression (aggs : bool) : M bytes := fuel <- mget expression_fuel ;; ParseExpression fuel aggs.

Definition ParseWhere : M unit :=
  filter_expression <- expression false ;;
  query_do (set_q_FilterBy filter_expression) ;;;
  statement_do (set_st_FilterBy filter_expression).

Definition ParseHaving : M unit :=
  specs <- mget (fun p => r_AggregateSpecs (p_Result p)) ;;
  match specs with
  | [] => mfail #"HAVING requires aggregate expressions in the SELECT list."
  | _ =>
      filter_expression <- expression true ;;
      result_do (set_r_HavingFilter filter_expression) ;;;
      statement_do (set_st_HavingFilter filter_expression)
  end.

(** The source name of the output name among [result.SelectFields]. *)

Definition source_of_output (fields : list SQLSelectField) (name : bytes) : bytes :=
  match List.find (fun f => bool_decide (sf_OutputName f = name)) fields with
  | Some f => sf_SourceName f
  | None => name
  end.

Definition group_item : M unit :=
  field_name <- orfail #"Expected field name in GROUP BY clause." ParseOrderingReference ;;
  fields <- mget (fun p => r_SelectFields (p_Result p)) ;;
  let field_name := source_of_output fields field_name in
  TryConsumeASTNode #"GROUP BY item" ;;;
  query_do (fun q => set_q_GroupBy (q_GroupBy q ++ [field_name]) q) ;;;
  statement_do (fun st => set_st_GroupBy (st_GroupBy st ++ [field_name]) st).

Definition ParseGroupBy : M unit :=
  comma_list group_item ;;;
  group_by <- mget (fun p => q_GroupBy (r_Query (p_Result p))) ;;
  match group_by with [] => mfail [] | _ => mret tt end.

(** The optional ASC or DESC. *)

Definition order_direction : M bytes :=
  u <- mget PeekUpper ;;
  if bool_decide (u ∈ [ #"ASC"; #"DESC"]) then
    tok <- Advance ;;
    mret (match tok with
          | Some t => if bool_decide (SQLToUpperASCII (Text t) = #"DESC") then #"desc" else #"asc"
          | None => #"asc"
          end)
  else mret #"asc".

Definition order_item : M unit :=
  field_name <- orfail #"Expected field name in ORDER BY clause." ParseOrderingReference ;;
  direction <- order_direction ;;
  TryConsumeASTNode #"ORDER BY item" ;;;
  query_do (fun q => set_q_SortBy (q_SortBy q ++ [field_name ++ #":" ++ direction]) q) ;;;
  statement_do (fun st => set_st_OrderBy (st_OrderBy st ++ [mkOrderBy field_name direction]) st).

Definition ParseOrderBy : M unit :=
  comma_list order_item ;;;
  sort_by <- mget (fun p => q_SortBy (r_Query (p_Result p))) ;;
  match sort_by with [] => mfail [] | _ => mret tt end.

(** ** One clause of a SELECT or DELETE statement

    [clauses] is the pair of [clause_rank] and [seen_clauses]. Each definition
    is the body of one [if (MatchKeyword(...))] of the clause loops; the ranks
    differ between the two statements and are arguments. *)

Definition clauses : Type := Z * gset bytes.

Definition where_clause (rank : Z) (cl : clauses) : M clauses :=
  cl <- CanReadClause #"WHERE" rank cl ;; ParseWhere ;;; mret cl.

Definition order_clause (rank : Z) (cl : clauses) : M clauses :=
  cl <- CanReadClause #"ORDER BY" rank cl ;;
  by_kw <- MatchKeyword #"BY" ;;
  if negb by_kw then mfail #"Expected BY after ORDER." else ParseOrderBy ;;; mret cl.

Definition group_clause (rank : Z) (cl : clauses) : M clauses :=
  cl <- CanReadClause #"GROUP BY" rank cl ;;
  by_kw <- MatchKeyword #"BY" ;;
  if negb by_kw then mfail #"Expected BY after GROUP." else ParseGroupBy ;;; mret cl.

Definition having_clause (rank : Z) (cl : clauses) : M clauses :=
  cl <- CanReadClause #"HAVING" rank cl ;; ParseHaving ;;; mret cl.

Definition store_offset (offset : Z) : M unit :=
  query_do (set_q_Offset offset) ;;; statement_do (set_st_Offset offset).

(** LIMIT in a SELECT marks the AST before the value is read. *)

Definition select_limit_clause (cl : clauses) : M clauses :=
  cl <- CanReadClause #"LIMIT" 5 cl ;;
  result_do (set_r_HasExplicitLimit true) ;;;
  statement_do (set_st_HasExplicitLimit true) ;;;
  lim <- ParseLimitClause ;;
  statement_do (set_st_Limit lim.1) ;;;
  match lim.2 with
  | Some parsed_offset => store_offset parsed_offset ;;; mret (6, {[#"OFFSET"]} ∪ cl.2)
  | None => mret cl
  end.

Definition delete_limit_clause (cl : clauses) : M clauses :=
  cl <- CanReadClause #"LIMIT" 3 cl ;;
  result_do (set_r_HasExplicitLimit true) ;;;
  lim <- ParseLimitClause ;;
  cl <- match lim.2 with
        | Some parsed_offset => store_offset parsed_offset ;;; mret (4, {[#"OFFSET"]} ∪ cl.2)
        | None => mret cl
        end ;;
  statement_do (set_st_HasExplicitLimit true) ;;;
  statement_do (set_st_Limit lim.1) ;;;
  mret cl.

Definition skip_rows : M unit :=
  u <- mget PeekUpper ;;
  if bool_decide (u ∈ [ #"ROW"; #"ROWS"]) then Advance ;;; mret tt else mret tt.

Definition select_offset_clause (cl : clauses) : M clauses :=
  cl <- CanReadClause #"OFFSET" 6 cl ;;
  offset <- ParseNonNegativeInt (fun v => query_do (set_q_Offset v)) #"OFFSET" ;;
  statement_do (set_st_Offset offset) ;;;
  skip_rows ;;; mret cl.

Definition delete_offset_clause (cl : clauses) : M clauses :=
  cl <- CanReadClause #"OFFSET" 4 cl ;;
  pending_offset <- ParseNonNegativeInt local_int #"OFFSET" ;;
  skip_rows ;;;
  store_offset pending_offset ;;; mret cl.

Definition fetch_clause (rank : Z) (statement_first : bool) (cl : clauses) : M clauses :=
  if bool_decide (#"LIMIT" ∈ cl.2) then mfail #"SQL FETCH cannot be combined with LIMIT."
  else
    cl <- CanReadClause #"FETCH" rank cl ;;
    result_do (set_r_HasExplicitLimit true) ;;;
    (if statement_first then statement_do (set_st_HasExplicitLimit true) else mret tt) ;;;
    per_page <- ParseFetchClause ;;
    (if statement_first then mret tt else statement_do (set_st_HasExplicitLimit true)) ;;;
    statement_do (set_st_Limit per_page) ;;;
    mret cl.

Definition trailing_tokens : bytes := #"Unexpected trailing tokens after ';'.".

(** [;] ends the statement; anything else is an unknown clause. *)

Definition end_clause : M unit :=
  semi <- peek_is #";" ;;
  if (semi : bool) then
    Advance ;;;
    at_end <- mget AtEnd ;;
    if negb at_end then mfail trailing_tokens else mret tt
  else
    near <- mget PeekText ;;
    mfail (#"Unsupported SQL clause near '" ++ near ++ #"'.").

(** The clause loop: [None] when the statement has ended. *)

Definition select_clause (cl : clauses) : M (option clauses) :=
  b <- MatchKeyword #"WHERE" ;; if (b : bool) then cl <- where_clause 1 cl ;; mret (Some cl) else
  b <- MatchKeyword #"ORDER" ;; if (b : bool) then cl <- order_clause 4 cl ;; mret (Some cl) else
  b <- MatchKeyword #"GROUP" ;; if (b : bool) then cl <- group_clause 2 cl ;; mret (Some cl) else
  b <- MatchKeyword #"HAVING" ;; if (b : bool) then cl <- having_clause 3 cl ;; mret (Some cl) else
  b <- MatchKeyword #"LIMIT" ;; if (b : bool) then cl <- select_limit_clause cl ;; mret (Some cl) else
  b <- MatchKeyword #"OFFSET" ;; if (b : bool) then cl <- select_offset_clause cl ;; mret (Some cl) else
  b <- MatchKeyword #"FETCH" ;; if (b : bool) then cl <- fetch_clause 7 true cl ;; mret (Some cl) else
  end_clause ;;; mret None.

Definition delete_clause (cl : clauses) : M (option clauses) :=
  b <- MatchKeyword #"WHERE" ;; if (b : bool) then cl <- where_clause 1 cl ;; mret (Some cl) else
  b <- MatchKeyword #"ORDER" ;; if (b : bool) then cl <- order_clause 2 cl ;; mret (Some cl) else
  b <- MatchKeyword #"LIMIT" ;; if (b : bool) then cl <- delete_limit_clause cl ;; mret (Some cl) else
  b <- MatchKeyword #"OFFSET" ;; if (b : bool) then cl <- delete_offset_clause cl ;; mret (Some cl) else
  b <- MatchKeyword #"FETCH" ;; if (b : bool) then cl <- fetch_clause 5 false cl ;; mret (Some cl) else
  end_clause ;;; mret None.

Fixpoint clause_loop (fuel : nat) (clause : clauses -> M (option clauses)) (cl : clauses) : M unit :=
  match fuel with
  | O => mfuel
  | S fuel' =>
      at_end <- mget AtEnd ;;
      if (at_end : bool) then mret tt
      else
        next <- clause cl ;;
        match next with
        | Some cl' => clause_loop fuel' clause cl'
        | None => mret tt
        end
  end.

Definition all_clauses (clause : clauses -> M (option clauses)) : M unit :=
  fuel <- mget token_fuel ;; clause_loop fuel clause (0, ∅).

(** ** From the AST to the public result *)

Section Translation.

(** [nlohmann::json::dump()], which serialises the aggregation configuration;
    [None] is its exception, for a string that is not UTF-8. *)

Context (json_dump : json -> option bytes).

Definition item_is (ty : ItemType) (item : SQLASTSelectItem) : bool := bool_decide (si_Type item = ty).

Definition fields_of (items : list SQLASTSelectItem) : list SQLSelectField :=
  (fun i => mkSelectField (si_SourceName i) (si_OutputName i)) <$> List.filter (item_is ItemField) items.

Definition aggregates_of (items : list SQLASTSelectItem) : list SQLAggregateSpec :=
  (fun i => mkAggregateSpec (si_FunctionName i) (si_SourceName i) (si_OutputName i) (si_CountAll i) (si_Distinct i))
    <$> List.filter (item_is ItemAggregate) items.

Definition BuildTranslationResultFromAST (template_result : SQLTranslationResult) (statement : SQLASTStatement)
    (aggregate_config : json) : option SQLTranslationResult :=
  let q := r_Query template_result in
  let fields := fields_of (st_SelectItems statement) in
  let aggregates := aggregates_of (st_SelectItems statement) in
  let page := if 0 <? st_Limit statement
              then wrap_int32 (Z.quot (st_Offset statement) (st_Limit statement) + 1) else 1 in
  match (match aggregates with [] => Some (q_Aggregations q) | _ => json_dump aggregate_config end) with
  | None => None
  | Some aggregations =>
      Some (mkResult (st_Type statement) (st_Valid statement) (r_AggregateOnly template_result)
        (r_GroupedAggregates template_result) (st_Distinct statement) (st_HasExplicitLimit statement)
        (r_Error template_result) (st_Collection statement) (st_HavingFilter statement) (st_InsertDocument statement)
        (mkQuery (q_Q q) (st_FilterBy statement) (st_Limit statement) page (st_Offset statement)
           ((fun o => ob_Field o ++ #":" ++ ob_Direction o) <$> st_OrderBy statement)
           (q_Highlight q) (sf_SourceName <$> fields) (st_GroupBy statement) aggregations)
        fields aggregates)
  end.

Definition build_result : M SQLTranslationResult :=
  r <- mget (fun p => BuildTranslationResultFromAST (p_Result p) (p_ParsedStatement p) (p_AggregateConfig p)) ;;
  match r with
  | Some r => mret r
  | None => mthrow
  end.

(** ** SELECT *)

(** [SortEntry.rfind(':')]: the part before the last colon and the part after. *)

Definition rsplit_colon (entry : bytes) : option (bytes * bytes) :=
  match find_char (fun c => bool_decide (c = ":"%char)) (reverse entry) with
  | None => None
  | Some n => Some (take (length entry - S n) entry, drop (length entry - n) entry)
  end.

(** ORDER BY entries that name an output alias go back to the source field. *)

Definition normalize_sort (fields : list SQLSelectField) (entry : bytes) : bytes :=
  let '(sort_field, sort_direction) :=
    match rsplit_colon entry with Some fd => fd | None => (entry, #"asc") end in
  match List.find (fun f => bool_decide (sf_OutputName f = sort_field)) fields with
  | Some f => sf_SourceName f ++ #":" ++ sort_direction
  | None => entry
  end.

Definition normalize_order_by (r : SQLTranslationResult) : SQLTranslationResult :=
  if r_GroupedAggregates r then r
  else upd_query (fun q => set_q_SortBy (normalize_sort (r_SelectFields r) <$> q_SortBy q) q) r.

(** Mixed aggregate and field items: GROUP BY must cover the fields. *)

Definition check_grouping : M unit :=
  st <- mget p_ParsedStatement ;;
  if st_Distinct st
  then mfail #"DISTINCT with aggregate SELECT expressions is not supported by hlquery SQL yet."
  else match st_GroupBy st with
  | [] => mfail #"Mixing aggregate expressions with regular selected fields requires GROUP BY in hlquery SQL."
  | group_by =>
      match List.find (fun i => item_is ItemField i && negb (bool_decide (si_SourceName i ∈ group_by)))
              (st_SelectItems st) with
      | Some i => mfail (#"Selected field '" ++ si_SourceName i ++
                         #"' must appear in GROUP BY when aggregate expressions are present.")
      | None =>
          result_do (set_r_GroupedAggregates true) ;;;
          if existsb (fun i => item_is ItemAggregate i && bool_decide (si_FunctionName i = #"STATS"))
               (st_SelectItems st)
          then mfail #"STATS() is not supported together with GROUP BY in hlquery SQL yet."
          else mret tt
      end
  end.

Definition finish_select : M SQLTranslationResult :=
  items <- mget (fun p => st_SelectItems (p_ParsedStatement p)) ;;
  let has_aggregate := existsb (item_is ItemAggregate) items in
  let has_field := existsb (item_is ItemField) items in
  (if has_aggregate && negb has_field
   then result_do (set_r_AggregateOnly true) ;;; statement_do (set_st_Limit 1)
   else mret tt) ;;;
  (if has_aggregate && has_field then check_grouping else mret tt) ;;;
  statement_do (set_st_Valid true) ;;;
  r <- build_result ;;
  mret (normalize_order_by r).

Definition star_query : M unit := query_do (set_q_Q #"*") ;;; query_do (set_q_Highlight false).

Definition ParseSelectStatement : M SQLTranslationResult :=
  distinct <- MatchKeyword #"DISTINCT" ;;
  result_do (set_r_Distinct distinct) ;;;
  statement_do (set_st_Distinct distinct) ;;;
  ParseSelectList ;;;
  from <- MatchKeyword #"FROM" ;;
  if negb from then mfail #"SQL query must include FROM <collection>."
  else
    ParseCollection ;;;
    star_query ;;;
    all_clauses select_clause ;;;
    finish_select.

(** ** INSERT *)

Definition ParseInsertValue : M json :=
  at_end <- mget AtEnd ;;
  if (at_end : bool) then mfail #"Expected value in INSERT VALUES list."
  else
    tok <- Advance ;;
    match tok with
    | None => mfail #"Expected value in INSERT VALUES list."
    | Some token =>
        let unsupported := mfail (#"Unsupported INSERT value '" ++ Text token ++ #"'.") in
        let as_double := match stod (Text token) with
                         | Some (d, _) => mret (JDouble d)
                         | None => unsupported
                         end in
        if front_is_quote (Text token) then mret (JStr (SQLStripQuotes (Text token)))
        else if bool_decide (Upper token = #"TRUE") then mret (JBool true)
        else if bool_decide (Upper token = #"FALSE") then mret (JBool false)
        else if bool_decide (Upper token = #"NULL") then mret JNull
        else if SQLIsNumericLiteral (Text token) then
          match find_char (fun c => bool_decide (c ∈ #".eE")) (Text token) with
          | None => match stoll (Text token) with
                    | Some (n, _) => mret (JInt n)
                    | None => as_double
                    end
          | Some _ => as_double
          end
        else unsupported
    end.

(** The field list: distinct names, in order. *)

Fixpoint insert_fields_loop (fuel : nat) (field_names : list bytes) : M (list bytes) :=
  match fuel with
  | O => mfuel
  | S fuel' =>
      at_end <- mget AtEnd ;;
      if (at_end : bool) then mret field_names
      else
        field_name <- orfail #"Expected field name in INSERT field list." ParseIdentifier ;;
        if bool_decide (field_name ∈ field_names)
        then mfail (#"Duplicate field '" ++ field_name ++ #"' in INSERT field list.")
        else
          let field_names := field_names ++ [field_name] in
          comma <- peek_is #"," ;;
          if (comma : bool) then Advance ;;; insert_fields_loop fuel' field_names else mret field_names
  end.

(** The VALUES list: [value_index] values stored so far. *)

Fixpoint insert_values_loop (fuel : nat) (field_names : list bytes) (value_index : nat) (document : json) : M (nat * json) :=
  match fuel with
  | O => mfuel
  | S fuel' =>
      at_end <- mget AtEnd ;;
      if (at_end : bool) then mret (value_index, document)
      else match field_names !! value_index with
      | None => mfail #"INSERT VALUES count exceeds field count."
      | Some field_name =>
          value <- ParseInsertValue ;;
          let document := json_set field_name value document in
          comma <- peek_is #"," ;;
          if (comma : bool) then Advance ;;; insert_values_loop fuel' field_names (S value_index) document
          else mret (S value_index, document)
      end
  end.

Definition expect (text msg : bytes) : M unit :=
  ok <- peek_is text ;;
  if negb ok then mfail msg else Advance ;;; mret tt.

Definition expect_keyword (keyword msg : bytes) : M unit :=
  ok <- MatchKeyword keyword ;;
  if negb ok then mfail msg else mret tt.

(** Field list and VALUES list of an INSERT. *)

Definition ParseInsertBody : M json :=
  expect #"(" #"SQL INSERT must include a field list in parentheses." ;;;
  fuel <- mget token_fuel ;;
  field_names <- insert_fields_loop fuel [] ;;
  match field_names with
  | [] => mfail #"INSERT field list cannot be empty."
  | _ =>
      expect #")" #"Expected ')' after INSERT field list." ;;;
      expect_keyword #"VALUES" #"SQL INSERT must include VALUES (...)." ;;;
      expect #"(" #"Expected '(' after VALUES in SQL INSERT." ;;;
      fuel <- mget token_fuel ;;
      values <- insert_values_loop fuel field_names 0 (JObj []) ;;
      expect #")" #"Expected ')' after INSERT VALUES list." ;;;
      if negb (bool_decide (values.1 = length field_names))
      then mfail #"INSERT field count must match VALUES count."
      else mret values.2
  end.

Definition ParseInsertStatement : M SQLTranslationResult :=
  expect_keyword #"INTO" #"SQL insert must use INSERT INTO <collection> (...) VALUES (...)." ;;;
  collection_name <- orfail #"SQL INSERT must include a collection name after INTO." ParseIdentifier ;;
  result_do (set_r_Collection collection_name) ;;;
  mmodify (set_p_CollectionName collection_name) ;;;
  statement_do (set_st_Collection collection_name) ;;;
  insert_document <- ParseInsertBody ;;
  at_end <- mget AtEnd ;;
  semi <- peek_is #";" ;;
  (if semi || negb at_end then end_clause else mret tt) ;;;
  result_do (set_r_InsertDocument insert_document) ;;;
  statement_do (set_st_InsertDocument insert_document) ;;;
  statement_do (set_st_Valid true) ;;;
  build_result.

(** ** DELETE, UPDATE, DROP, SHOW *)

Definition ParseDeleteStatement : M SQLTranslationResult :=
  is_star <- peek_is #"*" ;;
  (if (is_star : bool) then Advance ;;; mret tt else mret tt) ;;;
  expect_keyword #"FROM" #"SQL delete must use DELETE FROM <collection> ..." ;;;
  ParseCollection ;;;
  star_query ;;;
  all_clauses delete_clause ;;;
  statement_do (set_st_Valid true) ;;;
  build_result.

Definition skip_semicolon : M unit :=
  semi <- peek_is #";" ;;
  if (semi : bool) then Advance ;;; mret tt else mret tt.

Definition ParseUpdateStatement : M SQLTranslationResult :=
  collection_name <- orfail #"SQL UPDATE must include a collection name." ParseIdentifier ;;
  result_do (set_r_Collection collection_name) ;;;
  statement_do (set_st_Collection collection_name) ;;;
  skip_semicolon ;;;
  at_end <- mget AtEnd ;;
  if negb at_end then mfail #"Unexpected trailing tokens after unsupported SQL UPDATE statement."
  else mfail #"SQL UPDATE is not supported by hlquery yet.".

Definition ParseDropStatement : M SQLTranslationResult :=
  table <- MatchKeyword #"TABLE" ;;
  (if (table : bool) then mret true else MatchKeyword #"COLLECTION") ;;;
  collection_name <- orfail #"SQL DROP must include a collection name." ParseIdentifier ;;
  result_do (set_r_Collection collection_name) ;;;
  statement_do (set_st_Collection collection_name) ;;;
  skip_semicolon ;;;
  at_end <- mget AtEnd ;;
  if negb at_end then mfail #"Unexpected trailing tokens after SQL DROP statement."
  else
    statement_do (set_st_Valid true) ;;;
    result_do (set_r_Valid true) ;;;
    mget p_Result.

Definition statement_type (ty : StatementType) : M unit :=
  result_do (set_r_Type ty) ;;; statement_do (set_st_Type ty).

Definition ParseShowStatement : M SQLTranslationResult :=
  cols <- MatchKeyword #"COLS" ;;
  listed <- (if (cols : bool) then mret true else MatchKeyword #"COLLECTIONS") ;;
  if (listed : bool) then
    statement_type ShowCollections ;;;
    result_do (set_r_Valid true) ;;;
    skip_semicolon ;;;
    at_end <- mget AtEnd ;;
    if negb at_end then result_do (set_r_Valid false) ;;; mfail trailing_tokens
    else mget p_Result
  else mfail #"Unsupported SQL statement 'SHOW'.".

(** ** Parser::Parse *)

Definition ParseStatement : M SQLTranslationResult :=
  b <- MatchKeyword #"SELECT" ;; if (b : bool) then statement_type Select ;;; ParseSelectStatement else
  b <- MatchKeyword #"DELETE" ;; if (b : bool) then statement_type Delete ;;; ParseDeleteStatement else
  b <- MatchKeyword #"INSERT" ;; if (b : bool) then statement_type Insert ;;; ParseInsertStatement else
  b <- MatchKeyword #"UPDATE" ;; if (b : bool) then statement_type Update ;;; ParseUpdateStatement else
  b <- MatchKeyword #"DROP" ;; if (b : bool) then statement_type Drop ;;; ParseDropStatement else
  b <- MatchKeyword #"SHOW" ;; if (b : bool) then ParseShowStatement else
  mfail #"Only SELECT, INSERT, DELETE, UPDATE, DROP, and SHOW statements are recognized by hlquery SQL.".

(** A failed parse returns the result as built so far, with the error text;
    [Err] is the exception of [dump], which the parser does not catch, and [None] exhausted
    fuel. *)

Definition dump_error : bytes := #"[json.exception.type_error.316]".

Definition Parser_Parse (tokens : list SQLToken) : option (result SQLTranslationResult) :=
  match ParseStatement (new_Parser tokens) with
  | (_, Done r) => Some (Ok r)
  | (p, Fail msg) => Some (Ok (set_r_Error msg (p_Result p)))
  | (_, OutOfFuel) => None
  | (_, Throw) => Some (Err dump_error)
  end.

(** ** SQLService *)

Definition SQLService_Parse (sql_text : bytes) : option (result SQLTranslationResult) :=
  match SQLTokenize sql_text with
  | Err error => Some (Ok (set_r_Error error default_result))
  | Ok tokens =>
      match Parser_Parse tokens with
      | Some (Ok r) =>
          Some (Ok (if negb (r_Valid r) && bool_decide (r_Error r = [])
                    then set_r_Error #"Invalid SQL query." r else r))
      | thrown => thrown
      end
  end.

Definition SQLService_ParseSelect (sql_text : bytes) : option (result SQLTranslationResult) :=
  match SQLService_Parse sql_text with
  | Some (Ok r) =>
      Some (Ok (if r_Valid r && negb (bool_decide (r_Type r = Select))
                then set_r_Error #"Expected SELECT statement." (set_r_Valid false r) else r))
  | thrown => thrown
  end.

End Translation.

Definition LooksLikeSelect (sql_text : bytes) : bool :=
  match skip_while isspace sql_text with
  | [] => false
  | c :: s =>
      if negb (SQLIsIdentifierStart c) then false
      else bool_decide (SQLToUpperASCII (c :: (span SQLIsIdentifierChar s).1) = #"SELECT")
  end.

End SqlStatement.
