(* ===== verification/SqlParserProps.v ===== *)
(** * SQL parser: what its functions preserve and why they terminate

    Reasoning principles for the parser monad: relations every computation
    keeps ([keeps]), postconditions on delivered values ([delivers]) and the
    absence of fuel exhaustion ([fueled]); then the corresponding facts for the
    functions of SqlParser. *)

From S2P Require Import Prelude CText SqlTokenizer SqlAst SqlParser.
Import Tokenizer Ast SqlParser.

Module ParserProps.

#[local] Open Scope parser_scope.

(** ** Relations kept by computations *)

(** [R true] relates the states around a computation that delivers a value,
    [R false] those around one that fails. *)

Definition is_done {A} (o : outcome A) : bool := match o with Done _ => true | _ => false end.

Definition keeps (R : bool -> relation Parser) {A} (m : M A) : Prop := forall p, R (is_done (m p).2) p (m p).1.

Class StepRel (R : bool -> relation Parser) : Prop := {
  sr_refl b p : R b p p;
  sr_trans b c p q r : R b p q -> R c q r -> R (b && c) p r
}.

(** ** Postconditions on values *)

Definition delivers {A} (m : M A) (Q : A -> Prop) : Prop := forall p p' a, m p = (p', Done a) -> Q a.

(** ** Fuel *)

Definition runs {A} (o : outcome A) : Prop := match o with OutOfFuel | Throw => False | _ => True end.

(** Neither is fuel exhausted nor does an exception leave the computation. *)

Definition fueled {A} (m : M A) (p : Parser) : Prop := runs (m p).2.

Definition total {A} (m : M A) : Prop := forall p, fueled m p.

Create HintDb keeps.
Create HintDb total.

Section Keeps.

Context (R : bool -> relation Parser) `{!StepRel R}.

Lemma keeps_ret {A} (a : A) : keeps R (mret a).
Proof. intros p. apply sr_refl. Qed.

Lemma keeps_fail {A} msg : keeps R (mfail msg : M A).
Proof. intros p. apply sr_refl. Qed.

Lemma keeps_fuel {A} : keeps R (mfuel : M A).
Proof. intros p. apply sr_refl. Qed.

Lemma keeps_throw {A} : keeps R (mthrow : M A).
Proof. intros p. apply sr_refl. Qed.

Lemma keeps_get {A} (f : Parser -> A) : keeps R (mget f).
Proof. intros p. apply sr_refl. Qed.

Lemma keeps_modify f : (forall p, R true p (f p)) -> keeps R (mmodify f).
Proof. intros H p. apply H. Qed.

Lemma keeps_bind_val {A B} (m : M A) (Q : A -> Prop) (k : A -> M B) :
  keeps R m -> delivers m Q -> (forall a, Q a -> keeps R (k a)) -> keeps R (mbind m k).
Proof.
  intros Hm HQ Hk p. unfold mbind. specialize (Hm p).
  destruct (m p) as [p' [a|msg| |]] eqn:E; simpl in *; [|done..].
  eapply (sr_trans true); [done|]. apply Hk. by eapply HQ.
Qed.

Lemma keeps_bind {A B} (m : M A) (k : A -> M B) :
  keeps R m -> (forall a, keeps R (k a)) -> keeps R (mbind m k).
Proof. intros Hm Hk. apply (keeps_bind_val m (fun _ => True)); [done|done|]. auto. Qed.

Lemma keeps_orfail {A} msg (m : M A) : keeps R m -> keeps R (orfail msg m).
Proof. intros Hm p. unfold orfail. specialize (Hm p). by destruct (m p) as [p' [a|?| |]]. Qed.

End Keeps.

#[export] Hint Resolve keeps_ret keeps_fail keeps_fuel keeps_throw keeps_get : keeps.

(** Structural decomposition of a [keeps] goal; the database supplies the
    calls, [keeps_prim] the primitive updates. *)

Ltac keeps_step :=
  lazymatch goal with
  | |- keeps _ (mbind _ _) => apply keeps_bind; [typeclasses eauto| |intros ?]
  | |- keeps _ (orfail _ _) => apply keeps_orfail
  | |- keeps _ (if ?b then _ else _) => destruct b
  | |- keeps _ (match ?x with _ => _ end) => destruct x
  | |- keeps _ (mmodify _) => apply keeps_modify; intros ?
  | |- keeps _ _ => solve [auto with keeps typeclass_instances]
  end.

Ltac keeps_tac := cbv zeta; repeat keeps_step.

(** ** Values *)

Lemma delivers_bind {A B} (m : M A) (k : A -> M B) (Q : B -> Prop) :
  (forall a, delivers (k a) Q) -> delivers (mbind m k) Q.
Proof.
  intros Hk p p' b. unfold mbind. destruct (m p) as [p1 [a|msg| |]] eqn:E; [|done..].
  apply Hk.
Qed.

Lemma delivers_bind_val {A B} (m : M A) (k : A -> M B) (P : A -> Prop) (Q : B -> Prop) :
  delivers m P -> (forall a, P a -> delivers (k a) Q) -> delivers (mbind m k) Q.
Proof.
  intros Hm Hk p p' b. unfold mbind. destruct (m p) as [p1 [a|msg| |]] eqn:E; [|done..].
  apply Hk. by eapply Hm.
Qed.

Lemma delivers_ret {A} (a : A) (Q : A -> Prop) : Q a -> delivers (mret a) Q.
Proof. intros H p p' b [= _ <-]. done. Qed.

Lemma delivers_fail {A} msg (Q : A -> Prop) : delivers (mfail msg) Q.
Proof. by intros p p' b [=]. Qed.

(** ** Fuel *)

Lemma fueled_bind {A B} (m : M A) (k : A -> M B) p :
  fueled m p -> (forall a p', m p = (p', Done a) -> fueled (k a) p') -> fueled (mbind m k) p.
Proof.
  unfold fueled, mbind. intros Hm Hk. destruct (m p) as [p' [a|msg| |]] eqn:E; simpl in *; [|done..].
  by apply Hk.
Qed.

Lemma fueled_orfail {A} msg (m : M A) p : fueled m p -> fueled (orfail msg m) p.
Proof. unfold fueled, orfail. by destruct (m p) as [p' [a|?| |]]. Qed.

Lemma total_ret {A} (a : A) : total (mret a).
Proof. by intros p. Qed.

Lemma total_fail {A} msg : total (mfail msg : M A).
Proof. by intros p. Qed.

Lemma total_get {A} (f : Parser -> A) : total (mget f).
Proof. by intros p. Qed.

Lemma total_modify f : total (mmodify f).
Proof. by intros p. Qed.

Lemma total_bind {A B} (m : M A) (k : A -> M B) :
  total m -> (forall a, total (k a)) -> total (mbind m k).
Proof. intros Hm Hk p. apply fueled_bind; [done|]. intros. apply Hk. Qed.

Lemma total_orfail {A} msg (m : M A) : total m -> total (orfail msg m).
Proof. intros Hm p. by apply fueled_orfail. Qed.

#[export] Hint Resolve total_ret total_fail total_get total_modify : total.

Ltac total_step :=
  lazymatch goal with
  | |- total (mbind _ _) => apply total_bind; [|intros ?]
  | |- total (orfail _ _) => apply total_orfail
  | |- total (if ?b then _ else _) => destruct b
  | |- total (match ?x with _ => _ end) => destruct x
  | |- total _ => solve [auto with total]
  end.

Ltac total_tac := cbv zeta; repeat total_step.

(** ** The functions of the expression grammar

    They read tokens and count nodes and nesting; any preorder stable under
    these three effects is kept by all of them. *)

Class ParserRel (R : bool -> relation Parser) : Prop := {
  pr_step :: StepRel R;
  pr_advance p : AtEnd p = false -> R true p (set_p_Position (S (p_Position p)) p);
  pr_nodes l : keeps R (TryConsumeASTNode l);
  pr_depth p n : R true p (set_p_ExpressionDepth n p)
}.

Section Functions.

Context (R : bool -> relation Parser) `{!ParserRel R}.

Lemma keeps_Advance : keeps R Advance.
Proof. intros p. unfold Advance. destruct (AtEnd p) eqn:E; simpl; [apply sr_refl|by apply pr_advance]. Qed.

Lemma keeps_peek_is t : keeps R (peek_is t).
Proof. apply keeps_get, _. Qed.

Hint Resolve keeps_Advance keeps_peek_is : keeps.

Lemma keeps_MatchKeyword k : keeps R (MatchKeyword k).
Proof. unfold MatchKeyword. keeps_tac. Qed.

Lemma keeps_TryConsumeASTNode l : keeps R (TryConsumeASTNode l).
Proof. apply pr_nodes. Qed.

Lemma keeps_EnterExpressionGroup : keeps R EnterExpressionGroup.
Proof. unfold EnterExpressionGroup. keeps_tac. apply pr_depth. Qed.

Lemma keeps_LeaveExpressionGroup : keeps R LeaveExpressionGroup.
Proof. unfold LeaveExpressionGroup. keeps_tac. destruct (_ <? _); [apply pr_depth|apply sr_refl]. Qed.

Lemma keeps_CanReadClause n r c : keeps R (CanReadClause n r c).
Proof. unfold CanReadClause. keeps_tac. Qed.

Lemma keeps_ParseIdentifier : keeps R ParseIdentifier.
Proof. unfold ParseIdentifier. keeps_tac. Qed.

Hint Resolve keeps_MatchKeyword keeps_TryConsumeASTNode keeps_ParseIdentifier keeps_CanReadClause
  keeps_EnterExpressionGroup keeps_LeaveExpressionGroup : keeps.

Lemma keeps_ParseFieldReference : keeps R ParseFieldReference.
Proof. unfold ParseFieldReference. keeps_tac. Qed.

Hint Resolve keeps_ParseFieldReference : keeps.

Lemma keeps_aggregate_argument f : keeps R (aggregate_argument f).
Proof. unfold aggregate_argument. keeps_tac. Qed.

Lemma keeps_open_paren_after f : keeps R (open_paren_after f).
Proof. unfold open_paren_after. keeps_tac. Qed.

Hint Resolve keeps_aggregate_argument keeps_open_paren_after : keeps.

Lemma keeps_ParseAggregateReference : keeps R ParseAggregateReference.
Proof. unfold ParseAggregateReference. keeps_tac. Qed.

Lemma keeps_ParseValue : keeps R ParseValue.
Proof. unfold ParseValue. keeps_tac. Qed.

Lemma keeps_ValidateFilterLiteral v : keeps R (ValidateFilterLiteral v).
Proof. unfold ValidateFilterLiteral. keeps_tac. Qed.

Hint Resolve keeps_ParseAggregateReference keeps_ParseValue keeps_ValidateFilterLiteral : keeps.

Lemma keeps_ParsePredicateReference a : keeps R (ParsePredicateReference a).
Proof. unfold ParsePredicateReference. keeps_tac. Qed.

Lemma keeps_BuildRenderedComparison f o v : keeps R (BuildRenderedComparison f o v).
Proof. unfold BuildRenderedComparison. keeps_tac. Qed.

Hint Resolve keeps_ParsePredicateReference keeps_BuildRenderedComparison : keeps.

Lemma keeps_ParseBetween f n : keeps R (ParseBetween f n).
Proof. unfold ParseBetween. keeps_tac. Qed.

Lemma keeps_ParseLike f c n : keeps R (ParseLike f c n).
Proof. unfold ParseLike. keeps_tac. Qed.

Lemma keeps_ParseContains f n : keeps R (ParseContains f n).
Proof. unfold ParseContains. keeps_tac. Qed.

Lemma keeps_ParseIsPredicate f : keeps R (ParseIsPredicate f).
Proof. unfold ParseIsPredicate. keeps_tac. Qed.

Lemma keeps_in_list_loop fuel f n ts : keeps R (in_list_loop fuel f n ts).
Proof. revert ts. induction fuel; intros ts; simpl; keeps_tac. Qed.

Hint Resolve keeps_in_list_loop : keeps.

Lemma keeps_ParseInList f n : keeps R (ParseInList f n).
Proof. unfold ParseInList. keeps_tac. Qed.

Hint Resolve keeps_ParseBetween keeps_ParseLike keeps_ParseContains keeps_ParseIsPredicate keeps_ParseInList : keeps.

Lemma keeps_ParseNotPredicate f : keeps R (ParseNotPredicate f).
Proof. unfold ParseNotPredicate. keeps_tac. Qed.

Lemma keeps_negate_operator n o : keeps R (negate_operator n o).
Proof. unfold negate_operator. keeps_tac. Qed.

Hint Resolve keeps_ParseNotPredicate keeps_negate_operator : keeps.

Lemma keeps_ParseOperatorComparison n f : keeps R (ParseOperatorComparison n f).
Proof. unfold ParseOperatorComparison. keeps_tac. Qed.

Hint Resolve keeps_ParseOperatorComparison : keeps.

Lemma keeps_ParseComparison a : keeps R (ParseComparison a).
Proof. unfold ParseComparison. keeps_tac. Qed.

Hint Resolve keeps_ParseComparison : keeps.

Lemma keeps_leaving {A} (m : M A) : keeps R m -> keeps R (leaving m).
Proof.
  intros Hm p. unfold leaving. specialize (Hm p). destruct (m p) as [p' [a|msg| |]]; simpl in *; try done.
  eapply (sr_trans false true); [done|]. apply (keeps_LeaveExpressionGroup p').
Qed.

Lemma keeps_expression_grammar fuel : forall a,
  keeps R (ParseExpression fuel a) /\ (forall out, keeps R (or_loop fuel a out)) /\
  keeps R (ParseAndExpression fuel a) /\ (forall out, keeps R (and_loop fuel a out)) /\
  keeps R (ParsePrimaryExpression fuel a).
Proof.
  induction fuel as [|fuel IH]; intros a; simpl; [split_and!; intros; keeps_tac|].
  destruct (IH a) as (H1 & H2 & H3 & H4 & H5).
  split_and!; intros; keeps_tac. by apply keeps_leaving.
Qed.

Lemma keeps_ParseExpression fuel a : keeps R (ParseExpression fuel a).
Proof. apply keeps_expression_grammar. Qed.

End Functions.

#[export] Hint Resolve keeps_Advance keeps_peek_is keeps_MatchKeyword keeps_TryConsumeASTNode
  keeps_CanReadClause keeps_ParseIdentifier keeps_ParseFieldReference keeps_aggregate_argument
  keeps_open_paren_after keeps_ParseAggregateReference keeps_ParseValue keeps_ValidateFilterLiteral
  keeps_ParsePredicateReference keeps_BuildRenderedComparison keeps_in_list_loop keeps_ParseInList
  keeps_ParseComparison keeps_EnterExpressionGroup keeps_LeaveExpressionGroup keeps_ParseExpression : keeps.

(** ** Progress

    Every computation only moves forward in a fixed token list. *)

Definition forward (p p' : Parser) : Prop :=
  p_Tokens p' = p_Tokens p /\ (p_Position p <= p_Position p')%nat.

Definition moves : bool -> relation Parser := fun _ => forward.

(** Tokens not yet read. *)

Definition unread (p : Parser) : nat := (length (p_Tokens p) - p_Position p)%nat.

#[export] Instance moves_step : StepRel moves.
Proof.
  split; unfold moves, forward; [by intros b p|].
  intros _ _ p q r [-> ?] [-> ?]. split; [done|lia].
Qed.

#[export] Instance moves_parser : ParserRel moves.
Proof.
  split; try apply _.
  - intros p _. split; simpl; [done|lia].
  - intros l. unfold TryConsumeASTNode. keeps_tac. by split.
  - intros p n. by split.
Qed.

Lemma forward_unread p p' : forward p p' -> (unread p' <= unread p)%nat.
Proof. unfold forward, unread. intros [-> ?]. lia. Qed.

Lemma keeps_forward {A} (m : M A) p p' o : keeps moves m -> m p = (p', o) -> forward p p'.
Proof. intros Hm E. specialize (Hm p). by rewrite E in Hm. Qed.

Lemma Peek_not_end p t : Peek p = Some t -> AtEnd p = false.
Proof. unfold Peek. by destruct (AtEnd p). Qed.

Lemma PeekUpper_not_end p u : PeekUpper p = u -> u <> [] -> AtEnd p = false.
Proof. unfold PeekUpper, Peek. destruct (AtEnd p); [by intros <-|done]. Qed.

Lemma PeekText_not_end p u : PeekText p = u -> u <> [] -> AtEnd p = false.
Proof. unfold PeekText, Peek. destruct (AtEnd p); [by intros <-|done]. Qed.

Lemma unread_advance p :
  AtEnd p = false -> S (unread (set_p_Position (S (p_Position p)) p)) = unread p.
Proof. unfold AtEnd, unread. simpl. intros ?%Nat.leb_gt. lia. Qed.

(** ** Termination *)

Lemma fueled_bind_forward {A B} (m : M A) (k : A -> M B) p :
  fueled m p -> keeps moves m -> (forall a p', (unread p' <= unread p)%nat -> fueled (k a) p') ->
  fueled (mbind m k) p.
Proof.
  intros Hm Hk H. apply fueled_bind; [done|]. intros a p' E. apply H.
  apply forward_unread. by eapply keeps_forward.
Qed.

(** After a token test that succeeded, [Advance] consumes a token. *)

Lemma fueled_advance {B} (k : option SQLToken -> M B) p :
  AtEnd p = false ->
  (forall t p', (S (unread p') <= unread p)%nat -> fueled (k t) p') -> fueled (mbind Advance k) p.
Proof.
  intros E H. unfold fueled, mbind, Advance. rewrite E. apply H. by rewrite unread_advance.
Qed.

Lemma total_Advance : total Advance.
Proof. intros p. unfold fueled, Advance. by destruct (AtEnd p). Qed.

Lemma total_peek_is t : total (peek_is t).
Proof. by intros p. Qed.

#[export] Hint Resolve total_Advance total_peek_is : total.

Lemma total_MatchKeyword k : total (MatchKeyword k).
Proof. unfold MatchKeyword. total_tac. Qed.

Lemma total_TryConsumeASTNode l : total (TryConsumeASTNode l).
Proof. unfold TryConsumeASTNode. total_tac. Qed.

Lemma total_EnterExpressionGroup : total EnterExpressionGroup.
Proof. unfold EnterExpressionGroup. total_tac. Qed.

Lemma total_LeaveExpressionGroup : total LeaveExpressionGroup.
Proof. unfold LeaveExpressionGroup. total_tac. Qed.

Lemma total_CanReadClause n r c : total (CanReadClause n r c).
Proof. unfold CanReadClause. total_tac. Qed.

Lemma total_ParseIdentifier : total ParseIdentifier.
Proof. unfold ParseIdentifier. total_tac. Qed.

#[export] Hint Resolve total_MatchKeyword total_TryConsumeASTNode total_EnterExpressionGroup
  total_LeaveExpressionGroup total_CanReadClause total_ParseIdentifier : total.

Lemma total_ParseFieldReference : total ParseFieldReference.
Proof. unfold ParseFieldReference. total_tac. Qed.

#[export] Hint Resolve total_ParseFieldReference : total.

Lemma total_aggregate_argument f : total (aggregate_argument f).
Proof. unfold aggregate_argument. total_tac. Qed.

Lemma total_open_paren_after f : total (open_paren_after f).
Proof. unfold open_paren_after. total_tac. Qed.

#[export] Hint Resolve total_aggregate_argument total_open_paren_after : total.

Lemma total_ParsePredicateReference a : total (ParsePredicateReference a).
Proof. unfold ParsePredicateReference, ParseAggregateReference. total_tac. Qed.

Lemma total_ParseValue : total ParseValue.
Proof. unfold ParseValue. total_tac. Qed.

Lemma total_ValidateFilterLiteral v : total (ValidateFilterLiteral v).
Proof. unfold ValidateFilterLiteral. total_tac. Qed.

#[export] Hint Resolve total_ParsePredicateReference total_ParseValue total_ValidateFilterLiteral : total.

Lemma total_BuildRenderedComparison f o v : total (BuildRenderedComparison f o v).
Proof. unfold BuildRenderedComparison. total_tac. Qed.

#[export] Hint Resolve total_BuildRenderedComparison : total.

(** Fuel obligations: [total] goals by the database, loops by arithmetic. *)

Ltac by_total :=
  match goal with
  | |- fueled ?m ?p => generalize p; change (total m); solve [total_tac]
  end.

Ltac fuel_step :=
  lazymatch goal with
  | |- fueled (mbind (mget _) _) _ => apply fueled_bind; [done|intros ? ? [= <- <-]]
  | |- fueled (mbind (peek_is _) _) _ => apply fueled_bind; [done|intros ? ? [= <- <-]]
  | |- fueled (mbind Advance _) _ =>
      apply fueled_advance; [|intros ? ? ?]
  | |- fueled (mbind _ _) _ =>
      apply fueled_bind_forward; [try by_total|solve [keeps_tac]|intros ? ? ?]
  | |- fueled (if ?b then _ else _) _ => destruct b eqn:?
  | |- fueled _ _ => by_total
  end.

Ltac not_end :=
  match goal with
  | H : bool_decide (PeekText ?p = _) = true |- AtEnd ?p = false =>
      apply bool_decide_eq_true in H; by apply (PeekText_not_end _ _ H)
  | H : negb (bool_decide (PeekText ?p = _)) = false |- AtEnd ?p = false =>
      apply negb_false_iff, bool_decide_eq_true in H; by apply (PeekText_not_end _ _ H)
  | H : bool_decide (PeekUpper ?p = _) = true |- AtEnd ?p = false =>
      apply bool_decide_eq_true in H; by apply (PeekUpper_not_end _ _ H)
  end.

Lemma in_list_loop_fueled fuel f n : forall ts p,
  (unread p < fuel)%nat -> fueled (in_list_loop fuel f n ts) p.
Proof.
  induction fuel as [|fuel IH]; intros ts p Hf; [lia|]. cbn [in_list_loop].
  repeat fuel_step; [not_end|]. apply IH. lia.
Qed.

Lemma total_ParseInList f n : total (ParseInList f n).
Proof.
  intros p. unfold ParseInList. fuel_step. fuel_step; [fuel_step|]. fuel_step; [not_end|]. fuel_step.
  apply fueled_bind_forward; [|apply keeps_in_list_loop, _|intros; by_total].
  apply in_list_loop_fueled. unfold token_fuel, unread. lia.
Qed.

#[export] Hint Resolve total_ParseInList : total.

Lemma total_ParseComparison a : total (ParseComparison a).
Proof.
  unfold ParseComparison, ParseNotPredicate, ParseBetween, ParseLike, ParseContains, ParseIsPredicate,
    ParseOperatorComparison, negate_operator.
  total_tac.
Qed.

#[export] Hint Resolve total_ParseComparison : total.

Lemma fueled_leaving {A} (m : M A) p : fueled m p -> fueled (leaving m) p.
Proof. unfold fueled, leaving. by destruct (m p) as [p' [a|?| |]]. Qed.

Lemma EnterExpressionGroup_same p p' a :
  EnterExpressionGroup p = (p', Done a) -> AtEnd p' = AtEnd p /\ unread p' = unread p.
Proof.
  unfold EnterExpressionGroup, mbind, mmodify, mget. destr_goal; by intros [= <- _].
Qed.

(** Fuel that suffices for each function of the expression grammar. *)

Lemma expression_grammar_fueled fuel a : forall p,
  ((3 * unread p + 3 <= fuel)%nat -> fueled (ParseExpression fuel a) p) /\
  ((3 * unread p + 1 <= fuel)%nat -> forall out, fueled (or_loop fuel a out) p) /\
  ((3 * unread p + 2 <= fuel)%nat -> fueled (ParseAndExpression fuel a) p) /\
  ((3 * unread p + 1 <= fuel)%nat -> forall out, fueled (and_loop fuel a out) p) /\
  ((3 * unread p + 1 <= fuel)%nat -> fueled (ParsePrimaryExpression fuel a) p).
Proof.
  pose proof (keeps_expression_grammar moves) as K.
  induction fuel as [|fuel IH]; intros p; [split_and!; intros; lia|].
  cbn [ParseExpression or_loop ParseAndExpression and_loop ParsePrimaryExpression].
  destruct (K fuel a) as (K1 & K2 & K3 & K4 & K5).
  split_and!; intros Hf; intros.
  - apply fueled_bind_forward; [|done|intros; apply IH; lia]. apply IH. lia.
  - do 2 fuel_step; [|fuel_step]. fuel_step; [not_end|].
    apply fueled_bind_forward; [|done|intros; apply IH; lia]. apply IH. lia.
  - apply fueled_bind_forward; [|done|intros; apply IH; lia]. apply IH. lia.
  - do 2 fuel_step; [|fuel_step]. fuel_step; [not_end|].
    apply fueled_bind_forward; [|done|intros; apply IH; lia]. apply IH. lia.
  - do 3 fuel_step.
    + match goal with H : _ && _ = true |- _ => apply andb_true_iff in H as [H _] end.
      fuel_step; [not_end|]. apply fueled_bind_forward; [|done|intros; fuel_step]. apply IH. lia.
    + fuel_step. fuel_step; [|fuel_step].
      apply fueled_bind; [by_total|intros ? p1 E1].
      apply EnterExpressionGroup_same in E1. fuel_step; [destruct E1 as [-> _]; not_end|].
      apply fueled_bind_forward; [|apply keeps_leaving; [apply _|done]|intros; by_total].
      apply fueled_leaving, IH. lia.
Qed.

End ParserProps.
