(* ===== verification/SqlStatementProps.v ===== *)
(** * SQL statements: termination and the invariant of statement parsing

    Extends the reasoning of SqlParserProps to the statement functions, then
    states what the SQL front end guarantees of every input text. *)

From S2P Require Import Prelude CText SqlTokenizer SqlAst SqlParser SqlStatement SqlParserProps.
Import Tokenizer Ast SqlParser SqlStatement ParserProps.

Module StatementProps.

#[local] Open Scope parser_scope.

(** ** Integers *)

Lemma stoi_range s v n : stoi s = Some (v, n) -> -2147483648 <= v <= INT_MAX.
Proof.
  unfold stoi, sto_int. destruct (read_sign _) as [neg r]. destruct (span _ r) as [[|d ds] r']; [done|].
  destruct (_ && _) eqn:E; [|done]. intros [= <- _].
  apply andb_true_iff in E as [?%Z.leb_le ?%Z.ltb_lt]. unfold INT_MAX. lia.
Qed.

Definition int_range (v : Z) : Prop := 0 <= v <= INT_MAX.

Definition positive_int (v : Z) : Prop := 0 < v <= INT_MAX.

Lemma delivers_ParseNonNegativeInt store l : delivers (ParseNonNegativeInt store l) int_range.
Proof.
  unfold ParseNonNegativeInt. apply delivers_bind. intros at_end. destruct at_end; [apply delivers_fail|].
  apply delivers_bind. intros [token|]; [|apply delivers_fail].
  destruct (stoi _) as [[v n]|] eqn:E; [|apply delivers_fail].
  destruct (negb _ || (v <? 0)) eqn:G; [apply delivers_fail|].
  apply delivers_bind. intros _. apply delivers_ret. apply orb_false_iff in G as [_ G%Z.ltb_ge].
  apply stoi_range in E. split; lia.
Qed.

Lemma delivers_ParsePositiveInt store l : delivers (ParsePositiveInt store l) positive_int.
Proof.
  unfold ParsePositiveInt. eapply delivers_bind_val; [apply delivers_ParseNonNegativeInt|].
  intros v [??]. destruct (v <=? 0) eqn:E; [apply delivers_fail|]. apply delivers_ret. split; lia.
Qed.

(** The page size and offset of a LIMIT clause are both positive. *)

Lemma delivers_ParseLimitClause :
  delivers ParseLimitClause (fun lim => positive_int lim.1 /\ forall o, lim.2 = Some o -> positive_int o).
Proof.
  unfold ParseLimitClause. eapply delivers_bind_val; [apply delivers_ParsePositiveInt|].
  intros a Ha. apply delivers_bind. intros [|].
  - apply delivers_bind. intros _. eapply delivers_bind_val; [apply delivers_ParsePositiveInt|].
    intros b Hb. apply delivers_bind. intros _. apply delivers_ret. split; [done|]. by intros o [= <-].
  - apply delivers_bind. intros _. by apply delivers_ret.
Qed.

Lemma delivers_ParseFetchClause : delivers ParseFetchClause positive_int.
Proof.
  unfold ParseFetchClause. do 2 (apply delivers_bind; intros ?).
  eapply delivers_bind_val; [apply delivers_ParsePositiveInt|]. intros v Hv.
  apply delivers_bind. intros u. destruct (negb _); [apply delivers_fail|].
  do 2 (apply delivers_bind; intros ?). destruct (negb _); [apply delivers_fail|]. by apply delivers_ret.
Qed.

(** ** Relations kept by the statement functions

    Beyond the effects of the expression grammar, the statement functions set
    parser members, update the result under construction without touching its
    verdict and final lists, and update the AST. *)

Definition same_verdict (f : SQLTranslationResult -> SQLTranslationResult) : Prop :=
  forall r, r_Type (f r) = r_Type r /\ r_Valid (f r) = r_Valid r /\ r_Error (f r) = r_Error r /\
            r_SelectFields (f r) = r_SelectFields r /\ r_AggregateSpecs (f r) = r_AggregateSpecs r.

Definition same_lists (f : SQLASTStatement -> SQLASTStatement) : Prop :=
  forall st, st_SelectItems (f st) = st_SelectItems st /\ st_GroupBy (f st) = st_GroupBy st /\
             st_OrderBy (f st) = st_OrderBy st.

Definition same_bounds (f : SQLASTStatement -> SQLASTStatement) : Prop :=
  forall st, st_HavingFilter (f st) = st_HavingFilter st /\ st_Limit (f st) = st_Limit st /\
             st_Offset (f st) = st_Offset st /\ st_Type (f st) = st_Type st.

(** Relations stable under every primitive effect ([StatementRel] asks for the
    list items as a whole, [AppendRel] for their single steps). *)

Class CoreRel (R : bool -> relation Parser) : Prop := {
  cr_parser :: ParserRel R;
  cr_collection p v : R true p (set_p_CollectionName v p);
  cr_alias p v : R true p (set_p_TableAlias v p);
  cr_selected p v : R true p (set_p_SelectedFields v p);
  cr_outputs p v : R true p (set_p_SelectedOutputFields v p);
  cr_specs p v : R true p (set_p_CurrentAggregateSpecs v p);
  cr_aliases p v : R true p (set_p_SelectAliases v p);
  cr_config p v : R true p (set_p_AggregateConfig v p);
  cr_result p f : same_verdict f -> R true p (upd_result f p);
  cr_statement p f : same_bounds f -> same_lists f -> R true p (upd_statement f p);
  cr_limit p v : positive_int v -> R true p (upd_statement (set_st_Limit v) p);
  cr_offset p v : int_range v -> R true p (upd_statement (set_st_Offset v) p);
  cr_having : keeps R ParseHaving;
  cr_star_item : keeps R (mmodify (add_item (mkSelectItem ItemWildcard [] #"*" [] false false)))
}.

Class StatementRel (R : bool -> relation Parser) : Prop := {
  sr_core :: CoreRel R;
  sr_select_item : keeps R select_item;
  sr_group_item : keeps R group_item;
  sr_order_item : keeps R order_item
}.

Class AppendRel (R : bool -> relation Parser) : Prop := {
  ar_core :: CoreRel R;
  ar_append p f : same_bounds f -> R true p (upd_statement f p)
}.

Ltac member_update :=
  first [ apply cr_collection | apply cr_alias | apply cr_selected | apply cr_outputs
        | apply cr_specs | apply cr_aliases | apply cr_config ].

Section CoreSteps.

Context (R : bool -> relation Parser) `{!CoreRel R}.

Lemma keeps_result_do f : same_verdict f -> keeps R (result_do f).
Proof. intros H. apply keeps_modify. intros p. by apply cr_result. Qed.

Lemma keeps_query_do f : keeps R (query_do f).
Proof. by apply keeps_result_do. Qed.

Lemma keeps_statement_do f : same_bounds f -> same_lists f -> keeps R (statement_do f).
Proof. intros H1 H2. apply keeps_modify. intros p. by apply cr_statement. Qed.

Lemma keeps_ParseOptionalAlias : keeps R ParseOptionalAlias.
Proof. unfold ParseOptionalAlias. keeps_tac. Qed.

Lemma keeps_ParseOrderingReference : keeps R ParseOrderingReference.
Proof. unfold ParseOrderingReference, ParseOrderingIdentifier. keeps_tac. Qed.

Lemma keeps_ParseNonNegativeInt store l :
  (forall v, keeps R (store v)) -> keeps R (ParseNonNegativeInt store l).
Proof. intros Hs. unfold ParseNonNegativeInt. keeps_tac. Qed.

Lemma keeps_ParsePositiveInt store l :
  (forall v, keeps R (store v)) -> keeps R (ParsePositiveInt store l).
Proof. intros Hs. unfold ParsePositiveInt. keeps_tac. by apply keeps_ParseNonNegativeInt. Qed.

Lemma keeps_local_int v : keeps R (local_int v).
Proof. apply keeps_ret, _. Qed.

Hint Resolve keeps_query_do keeps_ParseOptionalAlias keeps_ParseOrderingReference keeps_local_int
  keeps_ParseNonNegativeInt keeps_ParsePositiveInt : keeps.

Lemma keeps_ParseLimitClause : keeps R ParseLimitClause.
Proof. unfold ParseLimitClause. keeps_tac. Qed.

Lemma keeps_ParseFetchClause : keeps R ParseFetchClause.
Proof. unfold ParseFetchClause. keeps_tac. Qed.

Lemma keeps_expression a : keeps R (expression a).
Proof. unfold expression. keeps_tac. Qed.

Lemma keeps_comma_loop fuel item : keeps R item -> keeps R (comma_loop fuel item).
Proof. intros Hi. induction fuel as [|fuel IH]; cbn [comma_loop]; keeps_tac. Qed.

Lemma keeps_comma_list item : keeps R item -> keeps R (comma_list item).
Proof. intros Hi. unfold comma_list. keeps_tac. by apply keeps_comma_loop. Qed.

End CoreSteps.

#[export] Hint Resolve keeps_query_do keeps_ParseOptionalAlias keeps_ParseOrderingReference keeps_local_int
  keeps_ParseNonNegativeInt keeps_ParsePositiveInt keeps_ParseLimitClause keeps_ParseFetchClause
  keeps_expression keeps_comma_list : keeps.

(** One step of a [keeps] goal of a statement function: updates by a setter,
    whose side conditions hold by computation, and bounds of parsed integers. *)

Ltac update_step :=
  lazymatch goal with
  | |- keeps _ (result_do _) => apply keeps_result_do; [typeclasses eauto|done]
  | |- keeps _ (statement_do _) => first [ apply keeps_statement_do; [typeclasses eauto|done|done] | by auto with keeps ]
  | |- keeps _ (mbind ParseLimitClause _) =>
      eapply keeps_bind_val; [typeclasses eauto|auto with keeps|apply delivers_ParseLimitClause|];
      intros [??] [??]; simpl in *
  | |- keeps _ (mbind ParseFetchClause _) =>
      eapply keeps_bind_val; [typeclasses eauto|auto with keeps|apply delivers_ParseFetchClause|]; intros ? ?
  | |- keeps _ (mbind (ParseNonNegativeInt _ _) _) =>
      eapply keeps_bind_val; [typeclasses eauto|auto with keeps|apply delivers_ParseNonNegativeInt|]; intros ? ?
  | |- keeps _ _ => keeps_step
  | |- _ true _ _ => member_update
  end.

Ltac update_tac := cbv zeta; repeat update_step.

Section Core.

Context (R : bool -> relation Parser) `{!CoreRel R}.

Lemma keeps_ParseCollection : keeps R ParseCollection.
Proof. unfold ParseCollection. update_tac. Qed.

Lemma keeps_ParseWhere : keeps R ParseWhere.
Proof. unfold ParseWhere. update_tac. Qed.

Hint Resolve keeps_ParseCollection keeps_ParseWhere cr_having : keeps.

Lemma keeps_where_clause n cl : keeps R (where_clause n cl).
Proof. unfold where_clause. update_tac. Qed.

Lemma keeps_having_clause n cl : keeps R (having_clause n cl).
Proof. unfold having_clause. update_tac. Qed.

Lemma keeps_set_limit v : positive_int v -> keeps R (statement_do (set_st_Limit v)).
Proof. intros Hv. apply keeps_modify. intros p. by apply cr_limit. Qed.

Lemma keeps_store_offset v : int_range v -> keeps R (store_offset v).
Proof.
  intros Hv. unfold store_offset. keeps_tac. apply keeps_modify. intros p. by apply cr_offset.
Qed.

Lemma positive_int_range v : positive_int v -> int_range v.
Proof. unfold positive_int, int_range. lia. Qed.

Hint Resolve keeps_set_limit keeps_store_offset positive_int_range : keeps.

Lemma keeps_select_limit_clause cl : keeps R (select_limit_clause cl).
Proof. unfold select_limit_clause. update_tac. Qed.

Lemma keeps_delete_limit_clause cl : keeps R (delete_limit_clause cl).
Proof. unfold delete_limit_clause. update_tac. Qed.

Lemma keeps_skip_rows : keeps R skip_rows.
Proof. unfold skip_rows. update_tac. Qed.

Hint Resolve keeps_skip_rows : keeps.

Lemma keeps_select_offset_clause cl : keeps R (select_offset_clause cl).
Proof.
  unfold select_offset_clause. update_tac. apply keeps_modify. intros p. by apply cr_offset.
Qed.

Lemma keeps_delete_offset_clause cl : keeps R (delete_offset_clause cl).
Proof. unfold delete_offset_clause. update_tac. Qed.

Lemma keeps_fetch_clause n b cl : keeps R (fetch_clause n b cl).
Proof. unfold fetch_clause. update_tac. Qed.

Lemma keeps_end_clause : keeps R end_clause.
Proof. unfold end_clause. update_tac. Qed.

Lemma keeps_clause_loop clause : (forall cl, keeps R (clause cl)) -> forall fuel cl, keeps R (clause_loop fuel clause cl).
Proof. intros Hc fuel. induction fuel as [|fuel IH]; intros cl; cbn [clause_loop]; update_tac. Qed.

Lemma keeps_all_clauses clause : (forall cl, keeps R (clause cl)) -> keeps R (all_clauses clause).
Proof. intros Hc. unfold all_clauses. update_tac. by apply keeps_clause_loop. Qed.

Lemma keeps_expect t m : keeps R (expect t m).
Proof. unfold expect. update_tac. Qed.

Lemma keeps_expect_keyword t m : keeps R (expect_keyword t m).
Proof. unfold expect_keyword. update_tac. Qed.

Lemma keeps_insert_fields_loop fuel : forall ns, keeps R (insert_fields_loop fuel ns).
Proof. induction fuel as [|fuel IH]; intros ns; cbn [insert_fields_loop]; update_tac. Qed.

Lemma keeps_ParseInsertValue : keeps R ParseInsertValue.
Proof. unfold ParseInsertValue. update_tac. Qed.

Hint Resolve keeps_ParseInsertValue keeps_expect keeps_expect_keyword keeps_insert_fields_loop keeps_end_clause : keeps.

Lemma keeps_insert_values_loop fuel ns : forall i d, keeps R (insert_values_loop fuel ns i d).
Proof. induction fuel as [|fuel IH]; intros i d; cbn [insert_values_loop]; update_tac. Qed.

Hint Resolve keeps_insert_values_loop : keeps.

Lemma keeps_ParseInsertBody : keeps R ParseInsertBody.
Proof. unfold ParseInsertBody. update_tac. Qed.

Hint Resolve keeps_ParseInsertBody keeps_where_clause keeps_having_clause keeps_select_limit_clause
  keeps_delete_limit_clause keeps_select_offset_clause keeps_delete_offset_clause keeps_fetch_clause
  keeps_all_clauses : keeps.

Lemma keeps_star_query : keeps R star_query.
Proof. unfold star_query. update_tac. Qed.

Lemma keeps_skip_semicolon : keeps R skip_semicolon.
Proof. unfold skip_semicolon. update_tac. Qed.

Hint Resolve keeps_star_query keeps_skip_semicolon : keeps.

Lemma keeps_check_grouping : keeps R check_grouping.
Proof. unfold check_grouping. update_tac. Qed.

Lemma keeps_ParseUpdateStatement : keeps R ParseUpdateStatement.
Proof. unfold ParseUpdateStatement. update_tac. Qed.

Lemma keeps_ParseInsertStatement jd : keeps R (ParseInsertStatement jd).
Proof. unfold ParseInsertStatement, build_result. update_tac. Qed.

Hint Resolve keeps_check_grouping keeps_ParseUpdateStatement keeps_ParseInsertStatement : keeps.

Lemma keeps_finish_select jd : keeps R (finish_select jd).
Proof.
  unfold finish_select, build_result. update_tac. apply keeps_set_limit. by split.
Qed.

Hint Resolve keeps_finish_select : keeps.

End Core.

#[export] Hint Resolve keeps_ParseCollection keeps_ParseWhere cr_having keeps_set_limit keeps_store_offset
  positive_int_range keeps_skip_rows keeps_ParseInsertValue keeps_expect keeps_expect_keyword
  keeps_insert_fields_loop keeps_end_clause keeps_insert_values_loop keeps_ParseInsertBody
  keeps_where_clause keeps_having_clause keeps_select_limit_clause keeps_delete_limit_clause
  keeps_select_offset_clause keeps_delete_offset_clause keeps_fetch_clause keeps_all_clauses
  keeps_star_query keeps_skip_semicolon keeps_check_grouping keeps_ParseUpdateStatement
  keeps_ParseInsertStatement keeps_finish_select : keeps.

Section Statements.

Context (R : bool -> relation Parser) `{!StatementRel R}.

Lemma keeps_order_clause n cl : keeps R (order_clause n cl).
Proof. unfold order_clause, ParseOrderBy. update_tac. apply keeps_comma_list; [apply _|apply sr_order_item]. Qed.

Lemma keeps_group_clause n cl : keeps R (group_clause n cl).
Proof. unfold group_clause, ParseGroupBy. update_tac. apply keeps_comma_list; [apply _|apply sr_group_item]. Qed.

Lemma keeps_ParseSelectList : keeps R ParseSelectList.
Proof.
  unfold ParseSelectList. update_tac; [apply cr_star_item|].
  apply keeps_comma_list; [apply _|apply sr_select_item].
Qed.

Hint Resolve keeps_order_clause keeps_group_clause keeps_ParseSelectList : keeps.

Lemma keeps_select_clause cl : keeps R (select_clause cl).
Proof. unfold select_clause. update_tac. Qed.

Lemma keeps_delete_clause cl : keeps R (delete_clause cl).
Proof. unfold delete_clause. update_tac. Qed.

Hint Resolve keeps_select_clause keeps_delete_clause : keeps.

Lemma keeps_ParseSelectStatement jd : keeps R (ParseSelectStatement jd).
Proof. unfold ParseSelectStatement. update_tac. Qed.

Lemma keeps_ParseDeleteStatement jd : keeps R (ParseDeleteStatement jd).
Proof. unfold ParseDeleteStatement, build_result. update_tac. Qed.

End Statements.

#[export] Hint Resolve keeps_order_clause keeps_group_clause keeps_ParseSelectList keeps_select_clause
  keeps_delete_clause keeps_ParseSelectStatement keeps_ParseDeleteStatement : keeps.

(** The setter steps of the list items, for relations that allow them. *)

Lemma keeps_order_direction R `{!CoreRel R} : keeps R order_direction.
Proof. unfold order_direction. update_tac. Qed.

#[export] Hint Resolve keeps_order_direction : keeps.

Ltac append_tac :=
  update_tac; lazymatch goal with
  | |- keeps _ _ => apply keeps_modify; intros ?; by apply ar_append
  | |- _ true _ _ => by apply ar_append
  end.

#[export] Instance append_statement_rel R `{!AppendRel R} : StatementRel R.
Proof.
  split; [apply _|..].
  - unfold select_item, ParseAggregateSelectItem, ParseFieldSelectItem. append_tac.
  - unfold group_item. append_tac.
  - unfold order_item. append_tac.
Qed.

End StatementProps.
