(* ===== verification/SqlFrontEnd.v ===== *)
(** * SQL front end: guarantees of SQLService

    Termination on every text, the agreement of verdict and error, the bounds
    of pagination and of the AST, and what each statement can yield. *)

From S2P Require Import Prelude CText SqlTokenizer SqlAst SqlParser SqlStatement SqlParserProps SqlStatementProps.
Import Tokenizer Ast SqlParser SqlStatement ParserProps StatementProps.

Module SqlFrontEnd.

#[local] Open Scope parser_scope.

(** ** Progress of the statement functions *)

#[export] Instance moves_append : AppendRel moves.
Proof.
  split; [split; try apply _|]; try by intros.
  unfold ParseHaving, expression. keeps_tac; by intros.
Qed.

(** ** Termination *)

Lemma total_comma_list item : total item -> keeps moves item -> total (comma_list item).
Proof.
  intros Ht Hk p. unfold comma_list. fuel_step.
  assert (unread p < token_fuel p)%nat as Hf by (unfold token_fuel, unread; lia).
  revert Hf. generalize (token_fuel p). intros fuel. revert p.
  induction fuel as [|fuel IH]; intros p Hf; [lia|]. cbn [comma_loop].
  do 2 fuel_step; [fuel_step|]. apply fueled_bind_forward; [apply Ht|done|intros _ p' ?].
  do 2 fuel_step; [fuel_step|]. fuel_step; [not_end|]. apply IH. lia.
Qed.

Lemma total_expression a : total (expression a).
Proof.
  intros p. unfold expression. fuel_step. apply expression_grammar_fueled.
  unfold expression_fuel, unread. lia.
Qed.

Lemma total_result_do f : total (result_do f).
Proof. apply total_modify. Qed.

Lemma total_statement_do f : total (statement_do f).
Proof. apply total_modify. Qed.

Lemma total_query_do f : total (query_do f).
Proof. apply total_modify. Qed.

Hint Resolve total_expression total_result_do total_statement_do total_query_do : total.

Lemma total_ParseOptionalAlias : total ParseOptionalAlias.
Proof. unfold ParseOptionalAlias. total_tac. Qed.

Lemma total_ParseOrderingReference : total ParseOrderingReference.
Proof. unfold ParseOrderingReference, ParseOrderingIdentifier. total_tac. Qed.

Hint Resolve total_ParseOptionalAlias total_ParseOrderingReference : total.

Lemma total_select_item : total select_item.
Proof. unfold select_item, ParseAggregateSelectItem, ParseFieldSelectItem. total_tac. Qed.

Lemma total_group_item : total group_item.
Proof. unfold group_item. total_tac. Qed.

Lemma total_order_item : total order_item.
Proof. unfold order_item, order_direction. total_tac. Qed.

Lemma total_ParseSelectList : total ParseSelectList.
Proof.
  unfold ParseSelectList. total_tac. apply total_comma_list; [apply total_select_item|apply sr_select_item].
Qed.

Lemma total_ParseGroupBy : total ParseGroupBy.
Proof.
  unfold ParseGroupBy. total_tac. apply total_comma_list; [apply total_group_item|apply sr_group_item].
Qed.

Lemma total_ParseOrderBy : total ParseOrderBy.
Proof.
  unfold ParseOrderBy. total_tac. apply total_comma_list; [apply total_order_item|apply sr_order_item].
Qed.

Lemma total_ParseNonNegativeInt store l : (forall v, total (store v)) -> total (ParseNonNegativeInt store l).
Proof. intros. unfold ParseNonNegativeInt. total_tac. Qed.

Lemma total_ParsePositiveInt store l : (forall v, total (store v)) -> total (ParsePositiveInt store l).
Proof. intros. unfold ParsePositiveInt. total_tac. by apply total_ParseNonNegativeInt. Qed.

Lemma total_local_int v : total (local_int v).
Proof. apply total_ret. Qed.

Hint Resolve total_ParseSelectList total_ParseGroupBy total_ParseOrderBy total_ParseNonNegativeInt
  total_ParsePositiveInt total_local_int : total.

Lemma total_end_clause : total end_clause.
Proof. unfold end_clause. total_tac. Qed.

Hint Resolve total_end_clause : total.

Lemma total_clauses cl : total (select_clause cl) /\ total (delete_clause cl).
Proof.
  unfold select_clause, delete_clause, where_clause, order_clause, group_clause, having_clause,
    select_limit_clause, delete_limit_clause, select_offset_clause, delete_offset_clause, fetch_clause,
    ParseWhere, ParseHaving, ParseLimitClause, ParseFetchClause, store_offset, skip_rows.
  split; total_tac.
Qed.

(** A clause that leaves the loop running has consumed its keyword. *)

Definition progresses (m : M (option clauses)) : Prop :=
  forall p p' cl, m p = (p', Done (Some cl)) -> (unread p' < unread p)%nat.

Lemma progresses_keyword kw (m k : M (option clauses)) :
  kw <> [] -> keeps moves m -> progresses k ->
  progresses (b <- MatchKeyword kw ;; if (b : bool) then m else k).
Proof.
  intros Hkw Hm Hk p p' cl. unfold mbind at 1, MatchKeyword. unfold mbind, mget.
  destruct (bool_decide (PeekUpper p = kw)) eqn:E; simpl; [|apply Hk].
  apply bool_decide_eq_true in E. apply PeekUpper_not_end in E; [|done].
  unfold Advance, mret. rewrite E. intros Em. apply keeps_forward, forward_unread in Em; [|done].
  pose proof (unread_advance p E). lia.
Qed.

Lemma progresses_end : progresses (end_clause ;;; mret None).
Proof. intros p p' cl. unfold mbind at 1. destruct (end_clause p) as [? []]; done. Qed.

Lemma select_clause_progresses cl : progresses (select_clause cl).
Proof.
  unfold select_clause. repeat (apply progresses_keyword; [done|keeps_tac|]). apply progresses_end.
Qed.

Lemma delete_clause_progresses cl : progresses (delete_clause cl).
Proof.
  unfold delete_clause. repeat (apply progresses_keyword; [done|keeps_tac|]). apply progresses_end.
Qed.

Lemma total_all_clauses clause :
  (forall cl, total (clause cl)) -> (forall cl, progresses (clause cl)) -> total (all_clauses clause).
Proof.
  intros Ht Hp p. unfold all_clauses. fuel_step.
  assert (unread p < token_fuel p)%nat as Hf by (unfold token_fuel, unread; lia).
  revert Hf. generalize (0, ∅ : gset bytes), (token_fuel p). intros cl fuel. revert p cl.
  induction fuel as [|fuel IH]; intros p cl Hf; [lia|]. cbn [clause_loop].
  do 2 fuel_step; [fuel_step|]. apply fueled_bind; [apply Ht|].
  intros [cl'|] p' E; [|fuel_step]. apply IH. apply Hp in E. lia.
Qed.

Lemma total_insert_fields_loop fuel : forall ns p, (unread p < fuel)%nat -> fueled (insert_fields_loop fuel ns) p.
Proof.
  induction fuel as [|fuel IH]; intros ns p Hf; [lia|]. cbn [insert_fields_loop].
  repeat fuel_step; [not_end|]. apply IH. lia.
Qed.

Lemma total_ParseInsertValue : total ParseInsertValue.
Proof. unfold ParseInsertValue. total_tac. Qed.

Hint Resolve total_ParseInsertValue : total.

Lemma total_insert_values_loop fuel ns : forall i d p,
  (unread p < fuel)%nat -> fueled (insert_values_loop fuel ns i d) p.
Proof.
  induction fuel as [|fuel IH]; intros i d p Hf; [lia|]. cbn [insert_values_loop].
  do 2 fuel_step; [fuel_step|]. destruct (ns !! i); [|fuel_step].
  repeat fuel_step; [not_end|]. apply IH. lia.
Qed.

Lemma total_expect t m : total (expect t m).
Proof. unfold expect. total_tac. Qed.

Lemma total_expect_keyword t m : total (expect_keyword t m).
Proof. unfold expect_keyword. total_tac. Qed.

Hint Resolve total_expect total_expect_keyword : total.

Lemma total_ParseInsertBody : total ParseInsertBody.
Proof.
  intros p. unfold ParseInsertBody. do 2 fuel_step.
  apply fueled_bind_forward; [|keeps_tac|intros ns p1 ?].
  { apply total_insert_fields_loop. unfold token_fuel, unread. lia. }
  destruct ns as [|n ns]; [fuel_step|]. do 4 fuel_step.
  apply fueled_bind_forward; [|keeps_tac|intros; by_total].
  apply total_insert_values_loop. unfold token_fuel, unread. lia.
Qed.

Hint Resolve total_ParseInsertBody : total.

Lemma total_ParseCollection : total ParseCollection.
Proof. unfold ParseCollection. total_tac. Qed.

Lemma total_select_clauses : total (all_clauses select_clause).
Proof. apply total_all_clauses; intros; [apply total_clauses|apply select_clause_progresses]. Qed.

Lemma total_delete_clauses : total (all_clauses delete_clause).
Proof. apply total_all_clauses; intros; [apply total_clauses|apply delete_clause_progresses]. Qed.

Hint Resolve total_ParseCollection total_select_clauses total_delete_clauses : total.

Section Terminates.

Context (json_dump : json -> option bytes).

(** The one exception: a statement with aggregates whose configuration [dump]
    refuses. *)

Definition dump_refused (p : Parser) : Prop :=
  aggregates_of (st_SelectItems (p_ParsedStatement p)) <> [] /\ json_dump (p_AggregateConfig p) = None.

Definition ends_clean {A} (m : M A) : Prop := forall p,
  match m p with
  | (_, OutOfFuel) => False
  | (p', Throw) => dump_refused p'
  | _ => True
  end.

Lemma ends_clean_total {A} (m : M A) : total m -> ends_clean m.
Proof. intros Hm p. specialize (Hm p). revert Hm. unfold fueled. by destruct (m p) as [? []]. Qed.

Lemma ends_clean_bind {A B} (m : M A) (k : A -> M B) :
  ends_clean m -> (forall a, ends_clean (k a)) -> ends_clean (mbind m k).
Proof.
  intros Hm Hk p. specialize (Hm p). unfold mbind. destruct (m p) as [p' [a|msg| |]]; [apply Hk|done..].
Qed.

Lemma ends_clean_build : ends_clean (build_result json_dump).
Proof.
  intros p. unfold build_result, mbind, mget, dump_refused. unfold BuildTranslationResultFromAST.
  destruct (aggregates_of _) eqn:Ea; [done|]. destruct (json_dump _) eqn:E; [done|]. simpl. by rewrite Ea.
Qed.

Ltac clean_step :=
  lazymatch goal with
  | |- ends_clean (build_result _) => apply ends_clean_build
  | |- ends_clean (mbind _ _) => apply ends_clean_bind; [|intros ?]
  | |- ends_clean (if ?b then _ else _) => destruct b
  | |- ends_clean _ => apply ends_clean_total; total_step
  end.

Lemma ends_clean_ParseStatement : ends_clean (ParseStatement json_dump).
Proof.
  unfold ParseStatement, ParseSelectStatement, ParseDeleteStatement, ParseInsertStatement, ParseUpdateStatement,
    ParseDropStatement, ParseShowStatement, statement_type, star_query, finish_select,
    check_grouping, skip_semicolon.
  cbv zeta. repeat clean_step; total_tac.
Qed.

End Terminates.

(** ** The invariant of a statement under construction *)

Definition fresh (ty : StatementType) (p : Parser) : Prop :=
  r_Type (p_Result p) = ty /\ st_Type (p_ParsedStatement p) = ty /\
  r_Valid (p_Result p) = false /\ r_Error (p_Result p) = [] /\
  r_SelectFields (p_Result p) = [] /\ r_AggregateSpecs (p_Result p) = [] /\
  st_HavingFilter (p_ParsedStatement p) = [] /\
  positive_int (st_Limit (p_ParsedStatement p)) /\ int_range (st_Offset (p_ParsedStatement p)).

Definition preserving (I : Parser -> Prop) : bool -> relation Parser := fun _ p q => I p -> I q.

#[export] Instance preserving_step I : StepRel (preserving I).
Proof. split; unfold preserving; auto. Qed.

#[export] Instance fresh_append ty : AppendRel (preserving (fresh ty)).
Proof.
  assert (forall p f, same_verdict f -> preserving (fresh ty) true p (upd_result f p)).
  { unfold preserving, fresh. intros p f Hf (?&?&?&?&?&?&?). simpl.
    destruct (Hf (p_Result p)) as (-> & -> & -> & -> & ->). done. }
  assert (forall p f, same_bounds f -> preserving (fresh ty) true p (upd_statement f p)).
  { unfold preserving, fresh. intros p f Hf (?&?&?&?&?&?&?&?&?). simpl.
    destruct (Hf (p_ParsedStatement p)) as (-> & -> & -> & ->). done. }
  split; [split|]; try (by intros p v ?); auto.
  - split; [apply _|by intros p _ ?| |by intros p n ?]. intros l. unfold TryConsumeASTNode. keeps_tac. by intros ?.
  - intros p v Hv (?&?&?&?&?&?&?&?&?). done.
  - intros p v Hv (?&?&?&?&?&?&?&?&?). done.
  - intros p Hp. unfold ParseHaving, mbind, mget.
    destruct (r_AggregateSpecs (p_Result p)) eqn:E; [done|].
    destruct Hp as (_&_&_&_&_&Hp&_). congruence.
  - apply keeps_modify. intros p. unfold add_item. by apply H0.
Qed.

(** What a delivered result satisfies. *)

Definition page_of (offset limit : Z) : Z := wrap_int32 (Z.quot offset limit + 1).

Lemma page_in_range offset limit :
  positive_int limit -> int_range offset ->
  limit = 1 /\ offset = INT_MAX \/
  page_of offset limit = offset / limit + 1 /\ 1 <= page_of offset limit <= INT_MAX.
Proof.
  unfold positive_int, int_range, page_of, wrap_int32, INT_MAX. intros Hl Ho.
  rewrite Z.quot_div_nonneg by lia.
  assert (offset / limit <= offset) by (apply Z.div_le_upper_bound; nia).
  assert (0 <= offset / limit) by (apply Z.div_pos; lia).
  assert (offset / limit < 2147483647 \/ limit = 1 /\ offset = 2147483647) as [H1|H1]; [|right|left; lia].
  { destruct (decide (limit = 1)) as [->|]; [rewrite Z.div_1_r; lia|].
    left. apply Z.div_lt_upper_bound; lia. }
  rewrite Z.mod_small by lia. lia.
Qed.

Definition well_formed (ty : StatementType) (r : SQLTranslationResult) : Prop :=
  r_Type r = ty /\ r_Valid r = true /\ r_Error r = [] /\ r_HavingFilter r = [] /\
  positive_int (q_PerPage (r_Query r)) /\ int_range (q_Offset (r_Query r)) /\
  q_Page (r_Query r) = page_of (q_Offset (r_Query r)) (q_PerPage (r_Query r)).

Definition outcome_ok (ty : StatementType) (po : Parser * outcome SQLTranslationResult) : Prop :=
  match po with
  | (_, Done r) => well_formed ty r
  | (p, Fail _) => r_Valid (p_Result p) = false
  | (_, OutOfFuel) | (_, Throw) => True
  end.

Definition satisfies (I : Parser -> Prop) (ty : StatementType) (m : M SQLTranslationResult) : Prop :=
  forall p, I p -> outcome_ok ty (m p).

Section Satisfies.

Context (I : Parser -> Prop) (ty : StatementType) (Hinvalid : forall p, I p -> r_Valid (p_Result p) = false).

Lemma satisfies_bind {A} (m : M A) k :
  keeps (preserving I) m -> (forall a, satisfies I ty (k a)) -> satisfies I ty (mbind m k).
Proof.
  intros Hm Hk p Hp. specialize (Hm p Hp). unfold mbind.
  destruct (m p) as [p' [a|msg| |]]; simpl in *; [by apply Hk|by apply Hinvalid|done..].
Qed.

Lemma satisfies_fail msg : satisfies I ty (mfail msg).
Proof. intros p Hp. by apply Hinvalid. Qed.

End Satisfies.

Lemma fresh_invalid ty p : fresh ty p -> r_Valid (p_Result p) = false.
Proof. by intros (_ & _ & ? & _). Qed.

Ltac sat_step :=
  lazymatch goal with
  | |- satisfies _ _ (mfail _) => apply satisfies_fail; eauto using fresh_invalid
  | |- satisfies _ _ (if ?b then _ else _) => destruct b
  | |- satisfies _ _ (mbind _ _) => apply satisfies_bind; [eauto using fresh_invalid|update_tac|intros ?]
  end.

Section Verdict.

Context (json_dump : json -> option bytes) (ty : StatementType).

Lemma satisfies_build :
  satisfies (fresh ty) ty (statement_do (set_st_Valid true) ;;; build_result json_dump).
Proof.
  intros p (?&?&?&?&?&?&?&?&?). unfold statement_do, build_result, mbind, mmodify, mget.
  destruct (BuildTranslationResultFromAST _ _ _ _) as [r|] eqn:E; [|exact Logic.I].
  revert E. unfold BuildTranslationResultFromAST. destruct (match aggregates_of _ with [] => _ | _ => _ end); [|done]. intros [= <-].
  cbn -[Z.ltb Z.quot Z.add wrap_int32 lit]. unfold well_formed. cbn -[Z.ltb Z.quot Z.add wrap_int32 lit].
  split_and!; try done. unfold positive_int in *. by rewrite (proj2 (Z.ltb_lt _ _)) by lia.
Qed.

Lemma satisfies_normalize :
  satisfies (fresh ty) ty (statement_do (set_st_Valid true) ;;; r <- build_result json_dump ;; mret (normalize_order_by r)).
Proof.
  intros p Hp. pose proof (satisfies_build p Hp) as H. revert H.
  unfold statement_do, build_result, mbind, mmodify, mget, mret, outcome_ok, normalize_order_by.
  destruct (BuildTranslationResultFromAST _ _ _ _) as [r|]; [|intros _; exact Logic.I]. unfold mret. by destruct (r_GroupedAggregates r).
Qed.

Lemma satisfies_ParseSelectStatement : satisfies (fresh ty) ty (ParseSelectStatement json_dump).
Proof.
  unfold ParseSelectStatement. repeat sat_step. unfold finish_select.
  sat_step. cbv zeta. sat_step; [apply keeps_set_limit; [apply _|by split]|]. sat_step. apply satisfies_normalize.
Qed.

Lemma satisfies_ParseDeleteStatement : satisfies (fresh ty) ty (ParseDeleteStatement json_dump).
Proof. unfold ParseDeleteStatement. repeat first [apply satisfies_build|sat_step]. Qed.

Lemma satisfies_ParseInsertStatement : satisfies (fresh ty) ty (ParseInsertStatement json_dump).
Proof. unfold ParseInsertStatement. repeat first [apply satisfies_build|sat_step]. Qed.

Lemma satisfies_ParseUpdateStatement : satisfies (fresh ty) ty ParseUpdateStatement.
Proof. unfold ParseUpdateStatement. repeat sat_step. Qed.

(** DROP and SHOW answer with the result they have built, whose query is still
    the default one. *)

Definition bare (p : Parser) : Prop :=
  fresh ty p /\ r_HavingFilter (p_Result p) = [] /\ r_Query (p_Result p) = default_query.

#[local] Instance bare_parser : ParserRel (preserving bare).
Proof.
  split; [apply _|by intros p _ ?| |by intros p n ?].
  intros l. unfold TryConsumeASTNode. keeps_tac. by intros ?.
Qed.

Lemma bare_invalid p : bare p -> r_Valid (p_Result p) = false.
Proof. by intros [(_ & _ & ? & _) _]. Qed.

Lemma bare_result f :
  same_verdict f -> (forall r, r_HavingFilter (f r) = r_HavingFilter r) -> (forall r, r_Query (f r) = r_Query r) ->
  keeps (preserving bare) (result_do f).
Proof.
  intros Hf Hh Hq p (Hp & Ep & Eq). split; [by apply (cr_result (R := preserving (fresh ty)))|].
  simpl. by rewrite Hh, Hq.
Qed.

Lemma bare_statement f : same_bounds f -> keeps (preserving bare) (statement_do f).
Proof. intros Hf p (Hp & Hr). split; [by apply (ar_append (R := preserving (fresh ty)))|done]. Qed.

Lemma satisfies_bare_valid :
  satisfies bare ty (statement_do (set_st_Valid true) ;;; result_do (set_r_Valid true) ;;; mget p_Result).
Proof.
  intros p ((?&?&?&?&?&?&?&?&?) & ? & Hq).
  unfold statement_do, result_do, mbind, mmodify, mget, outcome_ok, well_formed. simpl. by rewrite Hq.
Qed.

Ltac bare_step :=
  lazymatch goal with
  | |- satisfies _ _ (mfail _) => apply satisfies_fail; exact bare_invalid
  | |- satisfies _ _ (if ?b then _ else _) => destruct b
  | |- satisfies _ _ (mbind (result_do _) _) =>
      apply satisfies_bind; [exact bare_invalid|by apply bare_result|intros _]
  | |- satisfies _ _ (mbind (statement_do _) _) =>
      apply satisfies_bind; [exact bare_invalid|by apply bare_statement|intros _]
  | |- satisfies _ _ (mbind _ _) =>
      apply satisfies_bind; [exact bare_invalid|keeps_tac|intros ?]
  end.

Lemma satisfies_ParseDropStatement : satisfies bare ty ParseDropStatement.
Proof.
  unfold ParseDropStatement, skip_semicolon. repeat first [apply satisfies_bare_valid|bare_step].
Qed.

(** The result SHOW delivers or leaves behind on trailing tokens. *)

Lemma satisfies_ParseShowStatement : satisfies bare ShowCollections ParseShowStatement.
Proof.
  unfold ParseShowStatement, skip_semicolon. do 3 bare_step; [|bare_step].
  intros p ((?&?&?&?&?&?&?&?&?) & ? & Hq).
  unfold statement_type, peek_is, Advance, result_do, statement_do, mbind, mmodify, mget, mret, mfail.
  repeat destr_goal; simplify_eq; simpl; unfold well_formed; simpl; rewrite ?Hq; done.
Qed.

End Verdict.

(** ** The node budget

    Every list element and comparison of a statement is paid for by one AST
    node, of which a statement has [SQLMaxASTNodes]. *)

Definition listed (st : SQLASTStatement) : Z :=
  size (List.filter (fun i => negb (item_is ItemWildcard i)) (st_SelectItems st)) +
  size (st_GroupBy st) + size (st_OrderBy st).

Definition charged (k : Z) (p q : Parser) : Prop :=
  (p_ASTNodeCount p <= SQLMaxASTNodes -> p_ASTNodeCount q <= SQLMaxASTNodes) /\
  listed (p_ParsedStatement q) - listed (p_ParsedStatement p) <= p_ASTNodeCount q - p_ASTNodeCount p + k.

Definition budget (done : bool) : relation Parser := fun p q => if done then charged 0 p q else True.

#[export] Instance budget_step : StepRel budget.
Proof.
  split; [intros [] p; [|done]; split; [done|lia]|].
  intros [] [] p q r; simpl; [|done..]. unfold charged. intros [] []. split; [tauto|lia].
Qed.

(** [spends k m]: on success [m] lists at most [k] elements more than it pays for. *)

Definition spends (k : Z) {A} (m : M A) : Prop := forall p p' a, m p = (p', Done a) -> charged k p p'.

Lemma spends_keeps {A} (m : M A) : spends 0 m <-> keeps budget m.
Proof.
  split.
  - intros H p. destruct (m p) as [p' [a|msg| |]] eqn:E; simpl; [by eapply H|done..].
  - intros H p p' a E. specialize (H p). by rewrite E in H.
Qed.

Lemma spends_bind k1 k2 {A B} (m : M A) (k : A -> M B) :
  spends k1 m -> (forall a, spends k2 (k a)) -> spends (k1 + k2) (mbind m k).
Proof.
  intros Hm Hk p p' b. unfold mbind. destruct (m p) as [p1 [a|msg| |]] eqn:E; [|done..].
  intros Ek. apply Hm in E as []. apply Hk in Ek as []. split; [tauto|lia].
Qed.

Lemma spends_fail k {A} msg : spends k (mfail msg : M A).
Proof. by intros p p' a [=]. Qed.

Lemma TryConsumeASTNode_spends l : spends (-1) (TryConsumeASTNode l).
Proof.
  intros p p' a. unfold TryConsumeASTNode, mbind, mmodify, mget. simpl.
  destruct (_ <? _) eqn:E; [done|]. apply Z.ltb_ge in E. intros [= <-]. split; simpl; [done|lia].
Qed.

#[export] Instance budget_parser : ParserRel budget.
Proof.
  split; [apply _|..].
  - intros p _. split; simpl; [done|lia].
  - intros l. apply spends_keeps. intros p p' a [? ?]%TryConsumeASTNode_spends. split; [done|lia].
  - intros p n. split; simpl; [done|lia].
Qed.

Lemma charged_same (k : Z) p q :
  0 <= k -> p_ASTNodeCount q = p_ASTNodeCount p ->
  listed (p_ParsedStatement q) <= listed (p_ParsedStatement p) + k -> charged k p q.
Proof. unfold charged. intros ? -> ?. split; [done|lia]. Qed.

Lemma listed_same f st : same_lists f -> listed (f st) = listed st.
Proof. intros H. unfold listed. by destruct (H st) as (-> & -> & ->). Qed.

#[export] Instance budget_core : CoreRel budget.
Proof.
  assert (forall p f, same_lists f -> budget true p (upd_statement f p)) as Hst.
  { intros p f Hf. apply charged_same; [done|done|]. simpl. rewrite listed_same by done. lia. }
  split; try apply _;
    try (intros p v; try intros ?; apply charged_same; simpl; [done|done|lia]);
    try (intros p f; intros; by apply Hst).
  - unfold ParseHaving, expression. keeps_tac; apply keeps_modify; intros p; [apply charged_same; simpl; [done|done|lia]|by apply Hst].
  - apply keeps_modify. intros p. apply charged_same; [done|done|]. unfold listed, add_item. simpl.
    rewrite List.filter_app. simpl. rewrite app_nil_r. lia.
Qed.

(** The items: the node comes first, the element is appended last. *)

Ltac spend_step :=
  lazymatch goal with
  | |- spends _ (mfail _) => apply spends_fail
  | |- spends _ (if ?b then _ else _) => destruct b
  | |- spends _ (match ?x with _ => _ end) => destruct x
  | |- spends 0 (mbind (TryConsumeASTNode _) _) =>
      apply (spends_bind (-1) 1); [apply TryConsumeASTNode_spends|intros _]
  | |- spends ?k (mbind _ _) => apply (spends_bind 0 k); [apply spends_keeps; update_tac|intros ?]
  end.

Lemma spends_append f :
  (forall st, listed (f st) <= listed st + 1) -> spends 1 (mmodify (upd_statement f)).
Proof. intros H p p' a [= <-]. apply charged_same; [done|done|]. simpl. apply H. Qed.

Lemma size_snoc {A} (l : list A) x : size (l ++ [x]) = size l + 1.
Proof. unfold size. rewrite length_app. simpl. lia. Qed.

Lemma listed_add_item i st : listed (set_st_SelectItems (st_SelectItems st ++ [i]) st) <= listed st + 1.
Proof.
  unfold listed. simpl. rewrite List.filter_app. simpl. destruct (negb _); [rewrite size_snoc|rewrite app_nil_r]; lia.
Qed.

#[export] Instance budget_statement : StatementRel budget.
Proof.
  split; [apply _|..]; apply spends_keeps.
  - unfold select_item, ParseAggregateSelectItem, ParseFieldSelectItem. repeat (spend_step; cbv zeta).
    all: apply spends_append; apply listed_add_item.
  - unfold group_item. repeat (spend_step; cbv zeta). apply spends_append. intros st. unfold listed. simpl.
    rewrite size_snoc. lia.
  - unfold order_item. repeat (spend_step; cbv zeta). apply spends_append. intros st. unfold listed. simpl.
    rewrite size_snoc. lia.
Qed.

(** What a SELECT result lists. *)

Definition result_size (r : SQLTranslationResult) : Z :=
  size (r_SelectFields r) + size (r_AggregateSpecs r) + size (q_GroupBy (r_Query r)) + size (q_SortBy (r_Query r)).

Lemma listed_items items :
  size (fields_of items) + size (aggregates_of items) =
  size (List.filter (fun i => negb (item_is ItemWildcard i)) items).
Proof.
  unfold fields_of, aggregates_of, size. rewrite !length_fmap. induction items as [|i items IH]; [done|].
  simpl. unfold item_is in *. destruct (si_Type i); simpl in *; lia.
Qed.

Lemma size_fmap {A B} (g : A -> B) (l : list A) : size (g <$> l) = size l.
Proof. unfold size. by rewrite length_fmap. Qed.

Lemma result_size_build jd t st c r :
  BuildTranslationResultFromAST jd t st c = Some r -> result_size r = listed st.
Proof.
  unfold BuildTranslationResultFromAST. destruct (match aggregates_of _ with [] => _ | _ => _ end); [|done]. intros [= <-].
  unfold result_size, listed. simpl. by rewrite listed_items, size_fmap.
Qed.

Lemma result_size_normalize r : result_size (normalize_order_by r) = result_size r.
Proof. unfold normalize_order_by, result_size. destruct (r_GroupedAggregates r); [done|]. simpl. by rewrite size_fmap. Qed.

Definition ends {A} (m : M A) (Q : Parser -> A -> Prop) : Prop := forall p p' a, m p = (p', Done a) -> Q p' a.

Lemma ends_bind {A B} (m : M A) (k : A -> M B) Q : (forall a, ends (k a) Q) -> ends (mbind m k) Q.
Proof. intros Hk p p' b. unfold mbind. destruct (m p) as [p1 [a|msg| |]]; [|done..]. apply Hk. Qed.

Lemma select_result_size jd :
  ends (ParseSelectStatement jd) (fun p r => result_size r = listed (p_ParsedStatement p)).
Proof.
  unfold ParseSelectStatement. do 5 (apply ends_bind; intros ?). destruct (negb _); [by intros p p' b [=]|].
  do 3 (apply ends_bind; intros ?). unfold finish_select. cbv zeta. do 4 (apply ends_bind; intros ?).
  intros p p' r. unfold build_result, mbind, mget, mret.
  destruct (BuildTranslationResultFromAST _ _ _ _) as [r0|] eqn:E; [|done]. intros [= <- <-].
  rewrite result_size_normalize. by eapply result_size_build.
Qed.

Lemma select_budget jd p p' r :
  p_ASTNodeCount p = 0 -> listed (p_ParsedStatement p) = 0 ->
  ParseSelectStatement jd p = (p', Done r) -> result_size r <= SQLMaxASTNodes.
Proof.
  intros Hn Hl E. rewrite (select_result_size jd p p' r E).
  pose proof (keeps_ParseSelectStatement budget jd p) as Hb. rewrite E in Hb. destruct Hb as [Hb1 Hb2].
  unfold SQLMaxASTNodes in *. simpl in *. lia.
Qed.

(** ** Dispatch on the first keyword *)

(** The statement type a leading keyword can lead to in a valid result. *)

Definition keyword_type (keyword : bytes) : option StatementType :=
  if bool_decide (keyword = #"SELECT") then Some Select
  else if bool_decide (keyword = #"DELETE") then Some Delete
  else if bool_decide (keyword = #"INSERT") then Some Insert
  else if bool_decide (keyword = #"DROP") then Some Drop
  else if bool_decide (keyword = #"SHOW") then Some ShowCollections
  else None.

(** What the parser makes of a token list, by its first keyword. *)

Definition dispatched (keyword : bytes) (po : Parser * outcome SQLTranslationResult) : Prop :=
  match po with
  | (_, Done r) => exists ty, keyword_type keyword = Some ty /\ well_formed ty r
  | (p, Fail _) => r_Valid (p_Result p) = false
  | (_, OutOfFuel) | (_, Throw) => True
  end.

Lemma dispatched_ok keyword ty po :
  keyword_type keyword = Some ty -> outcome_ok ty po -> dispatched keyword po.
Proof. intros Hk. destruct po as [p [r|msg| |]]; simpl; eauto. Qed.

Lemma dispatched_keyword (kw : bytes) (m k : M SQLTranslationResult) p :
  kw <> [] ->
  (PeekUpper p = kw -> dispatched kw (m (set_p_Position (S (p_Position p)) p))) ->
  (PeekUpper p <> kw -> dispatched (PeekUpper p) (k p)) ->
  dispatched (PeekUpper p) ((b <- MatchKeyword kw ;; if (b : bool) then m else k) p).
Proof.
  intros Hkw Hm Hk. unfold mbind at 1, MatchKeyword. unfold mbind, mget.
  destruct (bool_decide (PeekUpper p = kw)) eqn:E; simpl.
  - apply bool_decide_eq_true in E. rewrite E. unfold Advance, mret.
    rewrite (PeekUpper_not_end p kw) by done. by apply Hm.
  - apply bool_decide_eq_false in E. by apply Hk.
Qed.

Section Service.

Context (json_dump : json -> option bytes).

Lemma bare_new tokens pos : bare Unknown (set_p_Position pos (new_Parser tokens)).
Proof. by repeat split. Qed.

Lemma keyword_type_select u : keyword_type u = Some Select -> u = #"SELECT".
Proof. unfold keyword_type. repeat case_bool_decide; naive_solver. Qed.

Lemma ParseStatement_select tokens :
  PeekUpper (new_Parser tokens) = #"SELECT" ->
  ParseStatement json_dump (new_Parser tokens) =
  (statement_type Select ;;; ParseSelectStatement json_dump) (set_p_Position 1 (new_Parser tokens)).
Proof.
  intros H. unfold ParseStatement. unfold mbind at 1, MatchKeyword. unfold mbind at 1, mget.
  rewrite bool_decide_eq_true_2 by done. simpl. unfold mbind at 1, Advance.
  by rewrite (PeekUpper_not_end _ _ H).
Qed.

Lemma bare_typed ty p : bare Unknown p -> bare ty (statement_type ty p).1.
Proof. by intros ((?&?&?&?&?&?&?&?&?) & ? & ?). Qed.

Lemma dispatched_typed keyword ty (I : Parser -> Prop) m p :
  keyword_type keyword = Some ty -> (forall q, bare ty q -> I q) -> bare Unknown p -> satisfies I ty m ->
  dispatched keyword ((statement_type ty ;;; m) p).
Proof.
  intros Hk HI Hp Hm. eapply dispatched_ok; [done|]. apply Hm, HI. by apply (bare_typed ty p).
Qed.

Lemma ParseUpdateStatement_fails : delivers ParseUpdateStatement (fun _ => False).
Proof.
  unfold ParseUpdateStatement. do 5 (apply delivers_bind; intros ?). destruct (negb _); apply delivers_fail.
Qed.

Lemma update_dispatched p : bare Unknown p -> dispatched #"UPDATE" ((statement_type Update ;;; ParseUpdateStatement) p).
Proof.
  intros Hp. pose proof (satisfies_ParseUpdateStatement Update _ (proj1 (bare_typed Update p Hp))) as Hs.
  change (outcome_ok Update ((statement_type Update ;;; ParseUpdateStatement) p)) in Hs.
  unfold dispatched. destruct ((_ ;;; _) p) as [p' [r|msg| |]] eqn:E; [|done..].
  exfalso. eapply (delivers_bind (statement_type Update) (fun _ => ParseUpdateStatement) (fun _ => False)); [|done].
  intros _. apply ParseUpdateStatement_fails.
Qed.

Lemma ParseStatement_dispatched tokens :
  dispatched (PeekUpper (new_Parser tokens)) (ParseStatement json_dump (new_Parser tokens)).
Proof.
  pose proof (bare_new tokens 1) as Hb.
  unfold ParseStatement. repeat (apply dispatched_keyword; [done|intros _|intros ?]).
  - eapply (dispatched_typed _ _ (fresh Select)); [done|by intros ? []|done|apply satisfies_ParseSelectStatement].
  - eapply (dispatched_typed _ _ (fresh Delete)); [done|by intros ? []|done|apply satisfies_ParseDeleteStatement].
  - eapply (dispatched_typed _ _ (fresh Insert)); [done|by intros ? []|done|apply satisfies_ParseInsertStatement].
  - by apply update_dispatched.
  - eapply (dispatched_typed _ _ (bare Drop)); [done|done|done|apply satisfies_ParseDropStatement].
  - eapply dispatched_ok; [done|]. by apply (satisfies_ParseShowStatement Unknown).
  - done.
Qed.

(** C39. The SQL front end comes to an end on every byte string: the tokenizer
    and the recursive-descent parser terminate, and [SQLService::Parse] returns a
    result, unless [json::dump] refuses, with an exception that nothing in the
    parser catches, the aggregate configuration collected by a statement whose
    select list has aggregates. *)
Theorem SQLService_Parse_total (sql_text : bytes) :
  (exists r, SQLService_Parse json_dump sql_text = Some (Ok r)) \/
  (SQLService_Parse json_dump sql_text = Some (Err dump_error) /\
   exists tokens p, SQLTokenize sql_text = Ok tokens /\
     ParseStatement json_dump (new_Parser tokens) = (p, Throw) /\
     aggregates_of (st_SelectItems (p_ParsedStatement p)) <> [] /\ json_dump (p_AggregateConfig p) = None).
Proof.
  unfold SQLService_Parse. destruct (SQLTokenize sql_text) as [tokens|msg]; [|by left; eexists].
  unfold Parser_Parse. pose proof (ends_clean_ParseStatement json_dump (new_Parser tokens)) as Hc.
  destruct (ParseStatement json_dump (new_Parser tokens)) as [p [r|msg| |]] eqn:E; [by left; eexists..|done|].
  right. destruct Hc. eauto 10.
Qed.

(** The shape of every answer. *)

Lemma SQLService_Parse_answer sql_text r :
  SQLService_Parse json_dump sql_text = Some (Ok r) ->
  (r_Valid r = false /\ r_Error r <> []) \/
  (exists tokens ty, SQLTokenize sql_text = Ok tokens /\
     (exists p', ParseStatement json_dump (new_Parser tokens) = (p', Done r)) /\
     keyword_type (PeekUpper (new_Parser tokens)) = Some ty /\ well_formed ty r).
Proof.
  unfold SQLService_Parse. destruct (SQLTokenize sql_text) as [tokens|msg] eqn:Et.
  - pose proof (ParseStatement_dispatched tokens) as Hd. unfold Parser_Parse.
    destruct (ParseStatement _ _) as [p [r0|msg| |]] eqn:Ep; simpl in *; [| |done..]; intros [= <-].
    + destruct Hd as (ty & Hk & Hw). destruct (id Hw) as (_ & Hv & _).
      right. exists tokens, ty. rewrite Hv. simpl. by eauto.
    + left. rewrite Hd. simpl. by destruct (bool_decide (msg = [])) eqn:E; simpl; [|apply bool_decide_eq_false in E].
  - intros [= <-]. left. split; [done|]. simpl. by eapply SQLTokenize_error_text.
Qed.

(** C19. A result is valid exactly when it carries no error text, whatever the
    input: no failed parse is reported as valid, none is silent, and a parse
    that succeeds leaves no stale message. *)
Theorem SQLService_Parse_verdict (sql_text : bytes) (r : SQLTranslationResult) :
  SQLService_Parse json_dump sql_text = Some (Ok r) -> (r_Valid r = true <-> r_Error r = []).
Proof.
  intros [[Hv He] | (tokens & ty & _ & _ & _ & _ & Hv & He & _)]%SQLService_Parse_answer; [|done].
  rewrite Hv. by split.
Qed.

(** The statement type of a valid result is the one its first keyword
    names, and a statement that starts with UPDATE, or with no statement
    keyword, is never valid. *)
Theorem SQLService_Parse_dispatch (sql_text : bytes) (r : SQLTranslationResult) (tokens : list SQLToken) :
  SQLService_Parse json_dump sql_text = Some (Ok r) -> SQLTokenize sql_text = Ok tokens ->
  r_Valid r = true -> keyword_type (PeekUpper (new_Parser tokens)) = Some (r_Type r).
Proof.
  intros [[Hv He] | (tokens' & ty & Et & _ & Hk & Ht & _)]%SQLService_Parse_answer Et' Hr; [congruence|].
  rewrite Et in Et'. simplify_eq. done.
Qed.

(** Pagination of every valid result: the page size is a positive [int],
    the offset a non-negative [int], and the page number is the page the offset
    falls in, counted from 1. The one exception is [LIMIT 1 OFFSET 2147483647],
    for which the computation leaves the range of [int]. *)
Theorem SQLService_Parse_pagination (sql_text : bytes) (r : SQLTranslationResult) :
  SQLService_Parse json_dump sql_text = Some (Ok r) -> r_Valid r = true ->
  let q := r_Query r in
  0 < q_PerPage q <= INT_MAX /\ 0 <= q_Offset q <= INT_MAX /\
  (q_PerPage q = 1 /\ q_Offset q = INT_MAX \/
   q_Page q = q_Offset q / q_PerPage q + 1 /\ 1 <= q_Page q <= INT_MAX).
Proof.
  intros [[Hv _] | (tokens & ty & _ & _ & _ & _ & _ & _ & _ & Hl & Ho & Hp)]%SQLService_Parse_answer Hr; [congruence|].
  intros q. fold q in Hl, Ho, Hp. unfold positive_int, int_range in *. split; [done|]. split; [done|].
  rewrite Hp. by apply page_in_range.
Qed.

(** No valid result carries a HAVING filter: [ParseHaving] consults the
    aggregate specifications of the result, which are filled only after all
    clauses are parsed, so every HAVING clause is rejected. *)
Theorem SQLService_Parse_no_having (sql_text : bytes) (r : SQLTranslationResult) :
  SQLService_Parse json_dump sql_text = Some (Ok r) -> r_Valid r = true -> r_HavingFilter r = [].
Proof.
  intros [[Hv _] | (tokens & ty & _ & _ & _ & _ & _ & _ & Hh & _)]%SQLService_Parse_answer Hr; [congruence|done].
Qed.

(** The AST budget bounds what a valid SELECT asks for: selected fields,
    aggregates, grouping and ordering expressions together never exceed
    [SQLMaxASTNodes]. *)
Theorem SQLService_Parse_budget (sql_text : bytes) (r : SQLTranslationResult) :
  SQLService_Parse json_dump sql_text = Some (Ok r) -> r_Valid r = true -> r_Type r = Select ->
  result_size r <= SQLMaxASTNodes.
Proof.
  intros [[? _]|(tokens & ty & Et & [p' Ep] & Hk & Hty & _)]%SQLService_Parse_answer Hv Ht; [congruence|].
  assert (ty = Select) as -> by congruence. apply keyword_type_select in Hk.
  rewrite (ParseStatement_select _ Hk) in Ep. by eapply select_budget in Ep.
Qed.

End Service.

(** ** Witnesses *)

Definition parsed (sql_text : bytes) : SQLTranslationResult :=
  match SQLService_Parse (fun _ => Some []) sql_text with Some (Ok r) => r | _ => default_result end.

Lemma SQLService_Parse_verdict_witness :
  let sql := #"SELECT name FROM products WHERE price > 10 LIMIT 5" in
  SQLService_Parse (fun _ => Some []) sql = Some (Ok (parsed sql)) /\
  (r_Valid (parsed sql) = true <-> r_Error (parsed sql) = []).
Proof.
  split; [vm_compute; reflexivity|].
  apply (SQLService_Parse_verdict (fun _ => Some []) #"SELECT name FROM products WHERE price > 10 LIMIT 5").
  vm_compute. reflexivity.
Defined.

Lemma SQLService_Parse_dispatch_witness :
  let sql := #"DELETE FROM products WHERE price > 10" in
  let tokens := match SQLTokenize sql with Ok ts => ts | Err _ => [] end in
  r_Valid (parsed sql) = true /\ keyword_type (PeekUpper (new_Parser tokens)) = Some (r_Type (parsed sql)).
Proof.
  split; [vm_compute; reflexivity|].
  apply (SQLService_Parse_dispatch (fun _ => Some []) #"DELETE FROM products WHERE price > 10");
    vm_compute; reflexivity.
Defined.

Lemma SQLService_Parse_pagination_witness :
  let q := r_Query (parsed #"SELECT name FROM products LIMIT 5 OFFSET 12") in
  q_PerPage q = 5 /\ q_Page q = 3 /\ 0 < q_PerPage q <= INT_MAX.
Proof.
  split; [vm_compute; reflexivity|]. split; [vm_compute; reflexivity|].
  apply (SQLService_Parse_pagination (fun _ => Some []) #"SELECT name FROM products LIMIT 5 OFFSET 12");
    vm_compute; reflexivity.
Defined.

(** A dump that refuses stops a statement with an aggregate, and no other. *)

Example refused_dump_throws :
  SQLService_Parse (fun _ => None) #"SELECT MAX(price) FROM products" = Some (Err dump_error) /\
  SQLService_Parse (fun _ => None) #"SELECT price FROM products" = Some (Ok (parsed #"SELECT price FROM products")).
Proof. by vm_compute. Qed.

(** The corner the page computation does not survive. *)

Example pagination_overflow :
  q_Page (r_Query (parsed #"SELECT name FROM products LIMIT 1 OFFSET 2147483647")) = -2147483648.
Proof. vm_compute. reflexivity. Qed.

Lemma SQLService_Parse_no_having_witness :
  r_HavingFilter (parsed #"SELECT category, COUNT(*) FROM products GROUP BY category") = [].
Proof.
  apply (SQLService_Parse_no_having (fun _ => Some []) #"SELECT category, COUNT(*) FROM products GROUP BY category");
    vm_compute; reflexivity.
Defined.

Example having_rejected :
  r_Error (parsed #"SELECT category, COUNT(*) FROM products GROUP BY category HAVING COUNT(*) > 1") =
  #"HAVING requires aggregate expressions in the SELECT list.".
Proof. vm_compute. reflexivity. Qed.

Lemma SQLService_Parse_budget_witness :
  result_size (parsed #"SELECT category, COUNT(*) FROM products GROUP BY category ORDER BY category") = 4 /\
  result_size (parsed #"SELECT category, COUNT(*) FROM products GROUP BY category ORDER BY category") <= SQLMaxASTNodes.
Proof.
  split; [vm_compute; reflexivity|].
  apply (SQLService_Parse_budget (fun _ => Some []) #"SELECT category, COUNT(*) FROM products GROUP BY category ORDER BY category");
    vm_compute; reflexivity.
Defined.

(** ** LooksLikeSelect and the parser agree *)

Lemma skip_while_head p s c r : skip_while p s = c :: r -> p c = false.
Proof.
  induction s as [|d s IH]; [done|]. rewrite skip_while_cons. destruct (p d) eqn:E; [done|]. by intros [= <- _].
Qed.

Lemma lex_step_no_nul st c s st' :
  NUL ∉ c :: s -> lex_step st c s = Ok st' -> NUL ∉ lx_rest st'.
Proof.
  intros Hn E. assert (NUL ∉ s) as Hns by (intros ?; apply Hn; by right).
  apply lex_step_progress in E as [[_ ->]|He]; [done| |done].
  apply emits_rest in He as (a & Ha & _). intros Hin. apply Hn. rewrite Ha. apply elem_of_app. by right.
Qed.

(** Tokens found so far stay in front. *)

Lemma tokenize_loop_prefix fuel : forall st ts,
  NUL ∉ lx_rest st -> tokenize_loop fuel st = Some (Ok ts) -> lx_tokens st `prefix_of` ts.
Proof.
  induction fuel as [|fuel IH]; intros st ts Hn; cbn [tokenize_loop]; destruct (lx_rest st) as [|c s] eqn:Er;
    try (destruct (_ =? _); [|done]; intros [= <-]; done); [done|].
  destruct (lex_step st c s) as [st'|e] eqn:E; [|done]. intros H.
  assert (NUL ∉ s) as Hns by (intros ?; apply Hn; by right).
  pose proof (lex_step_no_nul _ _ _ _ Hn E) as Hn'. specialize (IH st' ts Hn' H).
  apply lex_step_progress in E as [[_ ->]|(t & Ht & _)]; [done| |done].
  etrans; [|exact IH]. rewrite Ht. by apply prefix_app_r.
Qed.

(** The loop starts by skipping white space. *)

Lemma tokenize_loop_spaces s : forall fuel ts,
  tokenize_loop fuel (LexState [] 0 s) = Some (Ok ts) ->
  exists fuel', tokenize_loop fuel' (LexState [] 0 (skip_while isspace s)) = Some (Ok ts).
Proof.
  induction s as [|c s IH]; intros fuel ts; [by exists fuel|]. rewrite skip_while_cons.
  destruct (isspace c) eqn:E; [|by exists fuel].
  destruct fuel as [|fuel]; [done|]. cbn [tokenize_loop]. simpl lx_rest. cbv iota.
  unfold lex_step. rewrite E. apply IH.
Qed.

Lemma select_head c s : SQLToUpperASCII (c :: s) = #"SELECT" -> is_quote c = false /\ SQLIsIdentifierStart c = true.
Proof.
  intros [= H _]. revert H.
  by_bytes (fun c => negb (bool_decide (toupper c = "S"%char)) || (negb (is_quote c) && SQLIsIdentifierStart c)) c.
  intros [?%negb_true_iff%bool_decide_eq_false|[?%negb_true_iff ?]%andb_true_iff]%orb_true_iff ?; done.
Qed.

(** The first token of a text whose first byte is not a space. *)

Lemma first_token c s st :
  isspace c = false -> NUL ∉ s -> lex_step (LexState [] 0 (c :: s)) c s = Ok st ->
  exists t, lx_tokens st = [t] /\
    (Upper t = #"SELECT" <->
     SQLIsIdentifierStart c = true /\ SQLToUpperASCII (c :: (span SQLIsIdentifierChar s).1) = #"SELECT").
Proof.
  intros Hsp Hnul Hst. pose proof Hst as Hem.
  apply lex_step_progress in Hem as [[? _]|(t & Ht & Hcs & Hne & [_ Hup] & _)]; [congruence| |done].
  simpl in Ht. exists t. split; [done|].
  assert (exists more, Text t = c :: more) as [more Hmore].
  { destruct (Text t); [done|]. simpl in Hcs. injection Hcs as -> _. eauto. }
  unfold lex_step in Hst. rewrite Hsp in Hst.
  rewrite Hup. destruct (is_quote c) eqn:Eq; [|destruct (SQLIsIdentifierStart c) eqn:Ei].
  - split; [intros Hs|intros [_ Hs]]; [rewrite Hmore in Hs|]; apply select_head in Hs as []; congruence.
  - unfold lex_identifier in Hst. destruct (span SQLIsIdentifierChar s) as [w rest] eqn:Es. simpl.
    destruct (_ <? _); [done|]. apply emit_ok in Hst as [-> _]. simpl in Ht. injection Ht as <-. simpl in *.
    clear. tauto.
  - split; [intros Hs|by intros [? _]]. rewrite Hmore in Hs. apply select_head in Hs as []. congruence.
Qed.

(** [LooksLikeSelect], which routes a text without tokenizing it, agrees
    with the parser: on every text that tokenizes it answers true exactly when
    the parser will take the SELECT branch. *)
Theorem LooksLikeSelect_agrees (sql_text : bytes) (tokens : list SQLToken) :
  SQLTokenize sql_text = Ok tokens ->
  LooksLikeSelect sql_text = bool_decide (PeekUpper (new_Parser tokens) = #"SELECT").
Proof.
  unfold SQLTokenize. destruct (_ <? _); [done|].
  destruct (SQLContainsDisallowedControlCharacters sql_text) eqn:Ec; [done|].
  destruct (tokenize_loop _ _) as [[ts|]|] eqn:El; [|done..]. intros [= <-].
  apply tokenize_loop_spaces in El as [fuel El].
  assert (NUL ∉ skip_while isspace sql_text) as Hn.
  { pose proof (no_control_no_nul _ Ec) as Hn. rewrite <- (span_app isspace sql_text) in Hn.
    unfold skip_while. intros ?. apply Hn, elem_of_app. by right. }
  unfold LooksLikeSelect. destruct (skip_while isspace sql_text) as [|c s] eqn:Es.
  - destruct fuel; injection El as <-; done.
  - apply skip_while_head in Es. destruct fuel as [|fuel]; [done|]. cbn [tokenize_loop] in El. simpl lx_rest in El.
    cbv iota in El. destruct (lex_step _ c s) as [st|] eqn:E; [|done].
    pose proof (lex_step_no_nul _ _ _ _ Hn E) as Hn'.
    apply not_elem_of_cons in Hn as [_ Hn]. destruct (first_token c s st Es Hn E) as (t & Ht & Hiff).
    assert (exists ts', ts = t :: ts') as [ts' ->].
    { apply tokenize_loop_prefix in El as [ts' ->]; [|done]. rewrite Ht. by exists ts'. }
    change (PeekUpper (new_Parser (t :: ts'))) with (Upper t).
    destruct (SQLIsIdentifierStart c); simpl.
    + apply bool_decide_ext. rewrite Hiff. clear. tauto.
    + symmetry. apply bool_decide_eq_false. rewrite Hiff. by intros [? _].
Qed.

Lemma LooksLikeSelect_agrees_witness :
  let sql := #"  select a FROM t" in
  LooksLikeSelect sql = true /\
  LooksLikeSelect sql =
    bool_decide (PeekUpper (new_Parser (match SQLTokenize sql with Ok ts => ts | Err _ => [] end)) = #"SELECT").
Proof.
  split; [vm_compute; reflexivity|].
  apply (LooksLikeSelect_agrees #"  select a FROM t"). vm_compute. reflexivity.
Defined.

End SqlFrontEnd.
