(* ===== verification/MMapFormat.v ===== *)
(** * Memory-mapped index: scalars, checksums, varints and the file envelope

    The serialisation layer of src/search/mapped_posting_index.cpp: scalars in
    the little-endian layout the files use, the FNV checksums, the
    variable-length integers of the postings, and the 40-byte header that
    [WriteMMapFile] puts in front of every payload and [ValidateMMapFile]
    checks. A mapped region is a list of bytes; a pointer into it is the rest of
    the list. Reading past the end is [None] in [load], never a silent value. *)

From S2P Require Import Prelude CText.

Module MMapFormat.

(** ** Little-endian scalars *)

Fixpoint le (n : nat) (v : Z) : bytes :=
  match n with
  | O => []
  | S n' => chr v :: le n' (v / 256)
  end.

Fixpoint of_le (s : bytes) : Z :=
  match s with
  | [] => 0
  | c :: r => code c + 256 * of_le r
  end.

(** [std::memcpy(&value, ptr, n)] from the region that starts at [p]. *)

Definition load (n : nat) (p : bytes) : option Z :=
  if (length p <? n)%nat then None else Some (of_le (take n p)).

Definition u32 (v : Z) : Z := v mod 2 ^ 32.
Definition u64 (v : Z) : Z := v mod 2 ^ 64.

(** ** Checksums *)

Definition kFnv64Offset : Z := 14695981039346656037.
Definition kFnv64Prime : Z := 1099511628211.
Definition kFnv32Offset : Z := 2166136261.
Definition kFnv32Prime : Z := 16777619.

Definition StableChecksum64 (Data : bytes) : Z :=
  fold_left (fun Hash c => u64 (Z.lxor Hash (code c) * kFnv64Prime)) Data kFnv64Offset.

Definition StableHash32 (Value : bytes) : Z :=
  fold_left (fun Hash c => u32 (Z.lxor Hash (code c) * kFnv32Prime)) Value kFnv32Offset.

(** ** Variable-length integers *)

(** The loop of [WriteVarint]; a 32-bit value takes at most five bytes. *)

Fixpoint varint_loop (fuel : nat) (Value : Z) : bytes :=
  match fuel with
  | O => []
  | S fuel' =>
      if 128 <=? Value then chr (Z.lor Value 128) :: varint_loop fuel' (Z.shiftr Value 7)
      else [chr Value]
  end.

Definition WriteVarint (Value : Z) : bytes := varint_loop 5 Value.

Definition has_more (c : ascii) : bool := Z.testbit (code c) 7.

(** [DeltaValue |= static_cast<uint32_t>(c & 0x7F) << ShiftValue] *)

Definition add_bits (DeltaValue ShiftValue : Z) (c : ascii) : Z :=
  Z.lor DeltaValue (u32 (Z.shiftl (Z.land (code c) 127) ShiftValue)).

(** The continuation bytes, as [DecodePostings] reads them: delta, shift and
    the remaining region. *)

Fixpoint varint_more (DeltaValue ShiftValue : Z) (Ptr : bytes) : Z * Z * bytes :=
  match Ptr with
  | [] => (DeltaValue, ShiftValue, [])
  | c :: r =>
      if has_more c then
        if 32 <=? ShiftValue + 7 then (add_bits DeltaValue ShiftValue c, ShiftValue + 7, r)
        else varint_more (add_bits DeltaValue ShiftValue c) (ShiftValue + 7) r
      else (DeltaValue, ShiftValue, Ptr)
  end.

(** The last byte of a varint. *)

Definition varint_last (st : Z * Z * bytes) : Z * bytes :=
  let '(DeltaValue, ShiftValue, Ptr) := st in
  match Ptr with
  | c :: r => if ShiftValue <? 32 then (add_bits DeltaValue ShiftValue c, r) else (DeltaValue, Ptr)
  | [] => (DeltaValue, [])
  end.

Definition read_varint (Ptr : bytes) : Z * bytes := varint_last (varint_more 0 0 Ptr).

(** The variant of [DecodePostingsOptimized]: one-byte values first, and a
    continuation loop bounded by the shift. *)

Fixpoint varint_more_optimized (DeltaValue ShiftValue : Z) (Ptr : bytes) : Z * Z * bytes :=
  match Ptr with
  | [] => (DeltaValue, ShiftValue, [])
  | c :: r =>
      if has_more c && (ShiftValue <? 28)
      then varint_more_optimized (add_bits DeltaValue ShiftValue c) (ShiftValue + 7) r
      else (DeltaValue, ShiftValue, Ptr)
  end.

Definition read_varint_optimized (Ptr : bytes) : Z * bytes :=
  match Ptr with
  | c :: r => if has_more c then varint_last (varint_more_optimized 0 0 Ptr) else (code c, r)
  | [] => varint_last (varint_more_optimized 0 0 [])
  end.

(** ** The file envelope *)

Definition kMMapIndexVersion : Z := 1.
Definition kMMapIndexEndianMarker : Z := 16909060.
Definition kMMapFileHeaderSize : Z := 40.

Definition kTermsMagic : bytes := #"HLQTERM1".
Definition kTermMapMagic : bytes := #"HLQTMAP1".
Definition kTermIndexMagic : bytes := #"HLQTIDX1".
Definition kPostingsMagic : bytes := #"HLQPOST1".

(** The bytes [WriteMMapFile] writes. *)

Definition WriteMMapFile (Magic Payload : bytes) : bytes :=
  Magic ++ le 4 kMMapIndexVersion ++ le 4 kMMapFileHeaderSize ++ le 4 kMMapIndexEndianMarker ++ le 4 0 ++
  le 8 (size Payload) ++ le 8 (StableChecksum64 Payload) ++ Payload.

(** [ReadValue] of a [n]-byte scalar. *)

Definition ReadValue (n : nat) (Base : bytes) (Offset : nat) : option Z :=
  let Size := length Base in
  if (Size <? Offset)%nat || (Size - Offset <? n)%nat then None else load n (drop Offset Base).

(** The payload of a valid file. *)

Definition ValidateMMapFile (Base Magic : bytes) : option bytes :=
  if size Base <? kMMapFileHeaderSize then None
  else if negb (bool_decide (take 8 Base = Magic)) then None
  else match ReadValue 4 Base 8, ReadValue 4 Base 12, ReadValue 4 Base 16, ReadValue 8 Base 24, ReadValue 8 Base 32 with
  | Some Version, Some HeaderSize, Some Endian, Some StoredPayloadSize, Some StoredChecksum =>
      if negb (Version =? kMMapIndexVersion) || negb (HeaderSize =? kMMapFileHeaderSize) ||
         negb (Endian =? kMMapIndexEndianMarker) then None
      else if size Base - HeaderSize <? StoredPayloadSize then None
      else
        let Payload := take (Z.to_nat StoredPayloadSize) (drop (Z.to_nat HeaderSize) Base) in
        if negb (StableChecksum64 Payload =? StoredChecksum) then None else Some Payload
  | _, _, _, _, _ => None
  end.

(** [HasMappedBytes] for a pointer at or before the end of its region. *)

Definition HasMappedBytes (Ptr : bytes) (Length : Z) : bool := Length <=? size Ptr.

(** ** Lemmas: scalars *)

Lemma length_le n v : length (le n v) = n.
Proof. revert v. induction n as [|n IH]; intros v; simpl; [done|]. by rewrite IH. Qed.

Lemma of_le_le n v : of_le (le n v) = v mod 2 ^ (8 * Z.of_nat n).
Proof.
  revert v. induction n as [|n IH]; intros v; [by rewrite Z.mod_1_r|].
  cbn [le of_le]. rewrite code_chr, IH.
  replace (8 * Z.of_nat (S n)) with (8 + 8 * Z.of_nat n) by lia.
  rewrite Z.pow_add_r by lia. change (2 ^ 8) with 256.
  rewrite (Z.rem_mul_r v 256 (2 ^ (8 * Z.of_nat n))) by lia. lia.
Qed.

Lemma of_le_small n v : 0 <= v < 2 ^ (8 * Z.of_nat n) -> of_le (le n v) = v.
Proof. intros H. rewrite of_le_le. by apply Z.mod_small. Qed.

Lemma load_app n v rest : 0 <= v < 2 ^ (8 * Z.of_nat n) -> load n (le n v ++ rest) = Some v.
Proof.
  intros H. unfold load. rewrite length_app, length_le.
  rewrite (proj2 (Nat.ltb_ge _ _)) by lia.
  rewrite take_app_length' by (by rewrite length_le). by rewrite of_le_small.
Qed.

Lemma load_some n p : (n <= length p)%nat -> load n p = Some (of_le (take n p)).
Proof. intros H. unfold load. by rewrite (proj2 (Nat.ltb_ge _ _)). Qed.

Lemma of_le_range s : 0 <= of_le s < 2 ^ (8 * size s).
Proof.
  induction s as [|c r IH]; [done|]. cbn [of_le]. pose proof (code_range c).
  replace (8 * size (c :: r)) with (8 + 8 * size r) by (unfold size; simpl; lia).
  rewrite Z.pow_add_r by (unfold size; lia). change (2 ^ 8) with 256. lia.
Qed.

Lemma load_range n p v : load n p = Some v -> 0 <= v < 2 ^ (8 * Z.of_nat n).
Proof.
  unfold load. destruct (_ <? _)%nat eqn:E; [done|]. apply Nat.ltb_ge in E. intros [= <-].
  pose proof (of_le_range (take n p)) as H. unfold size in H. by rewrite length_take_le in H.
Qed.

(** ** Lemmas: varints *)

(** A byte without the continuation bit is its own low seven bits. *)

Lemma last_byte_bits c : has_more c = false -> add_bits 0 0 c = code c.
Proof.
  unfold has_more, add_bits.
  by_bytes (fun c => Z.testbit (code c) 7 || (Z.lor 0 (u32 (Z.shiftl (Z.land (code c) 127) 0)) =? code c)) c.
  intros H E. rewrite E in H. simpl in H. by apply Z.eqb_eq in H.
Qed.

Lemma varint_more_optimized_eq DeltaValue ShiftValue Ptr :
  ShiftValue ∈ [0; 7; 14; 21] ->
  varint_last (varint_more DeltaValue ShiftValue Ptr) =
  varint_last (varint_more_optimized DeltaValue ShiftValue Ptr).
Proof.
  (* the fifth byte ends both loops *)
  assert (forall d p, varint_last (varint_more d 28 p) = varint_last (varint_more_optimized d 28 p)) as H28.
  { intros d [|c r]; [done|]. cbn [varint_more varint_more_optimized]. destruct (has_more c); [by destruct r|done]. }
  assert (forall sh, sh ∈ [0; 7; 14; 21] ->
            (forall d p, varint_last (varint_more d (sh + 7) p) = varint_last (varint_more_optimized d (sh + 7) p)) ->
            forall d p, varint_last (varint_more d sh p) = varint_last (varint_more_optimized d sh p)) as Hstep.
  { intros sh Hsh IH d [|c r]; [done|]. cbn [varint_more varint_more_optimized].
    destruct (has_more c); [|done].
    assert (sh <= 21) as Hlt by (rewrite !elem_of_cons, elem_of_nil in Hsh; lia).
    rewrite (proj2 (Z.leb_gt _ _)), (proj2 (Z.ltb_lt _ _)) by lia. apply IH. }
  assert (forall d p, varint_last (varint_more d 21 p) = varint_last (varint_more_optimized d 21 p)) as H21
    by (apply Hstep; [set_solver|exact H28]).
  assert (forall d p, varint_last (varint_more d 14 p) = varint_last (varint_more_optimized d 14 p)) as H14
    by (apply Hstep; [set_solver|exact H21]).
  assert (forall d p, varint_last (varint_more d 7 p) = varint_last (varint_more_optimized d 7 p)) as H7
    by (apply Hstep; [set_solver|exact H14]).
  intros Hs. rewrite !elem_of_cons, elem_of_nil in Hs. destruct Hs as [-> | [-> | [-> | [-> | []]]]]; auto.
  by apply Hstep; [set_solver|exact H7].
Qed.

Lemma read_varint_optimized_eq Ptr : read_varint_optimized Ptr = read_varint Ptr.
Proof.
  destruct Ptr as [|c r]; [done|]. unfold read_varint_optimized, read_varint.
  destruct (has_more c) eqn:E; [symmetry; apply varint_more_optimized_eq; set_solver|].
  cbn [varint_more varint_last]. rewrite E. cbn [varint_last]. by rewrite last_byte_bits.
Qed.

(** The bytes of a varint, read back seven bits at a time: with [n] seven-bit
    groups already collected in [d], the rest of the value lands above them. *)

Lemma low_bits v : Z.land (code (chr (Z.lor v 128))) 127 = v mod 128.
Proof.
  rewrite code_chr. change 127 with (Z.ones 7). change 256 with (2 ^ 8).
  rewrite Z.land_ones by lia. change 128 with (2 ^ 7) at 2.
  apply Z.bits_inj'. intros n Hn. destruct (decide (n < 7)).
  - rewrite !Z.mod_pow2_bits_low by lia. rewrite Z.lor_spec.
    change 128 with (2 ^ 7). rewrite Z.pow2_bits_false by lia. by rewrite orb_false_r.
  - by rewrite !Z.mod_pow2_bits_high by lia.
Qed.

Lemma more_bit v : has_more (chr (Z.lor v 128)) = true.
Proof.
  unfold has_more. rewrite code_chr. change 256 with (2 ^ 8). rewrite Z.mod_pow2_bits_low by lia.
  rewrite Z.lor_spec. change 128 with (2 ^ 7). by rewrite Z.pow2_bits_true, orb_true_r.
Qed.

Lemma small_byte v : 0 <= v < 128 -> has_more (chr v) = false /\ Z.land (code (chr v)) 127 = v.
Proof.
  intros H. unfold has_more. rewrite code_chr, Z.mod_small by lia. split.
  - apply Z.bits_above_log2; [lia|]. destruct (decide (v = 0)) as [->|]; [done|].
    apply Z.log2_lt_pow2; lia.
  - change 127 with (Z.ones 7). rewrite Z.land_ones by lia. by apply Z.mod_small.
Qed.

Lemma add_group d sh x : 0 <= d < 2 ^ sh -> 0 <= sh -> 0 <= x -> x * 2 ^ sh < 2 ^ 32 ->
  Z.lor d (u32 (Z.shiftl x sh)) = d + x * 2 ^ sh.
Proof.
  intros Hd Hsh Hx Hlt. unfold u32. rewrite Z.shiftl_mul_pow2 by lia. rewrite Z.mod_small by nia.
  rewrite <- Z.shiftl_mul_pow2 by lia.
  assert (Z.land d (Z.shiftl x sh) = 0) as Hz.
  { apply Z.bits_inj'. intros n Hn. rewrite Z.land_spec, Z.bits_0.
    destruct (decide (n < sh)).
    - rewrite Z.shiftl_spec_low by lia. by rewrite andb_false_r.
    - destruct (decide (d = 0)) as [->|]; [by rewrite Z.bits_0|].
      rewrite (Z.bits_above_log2 d n); [done|lia|]. apply Z.log2_lt_pow2; [lia|].
      apply Z.lt_le_trans with (2 ^ sh); [lia|]. apply Z.pow_le_mono_r; lia. }
  rewrite <- Z.lxor_lor by done. rewrite <- Z.add_nocarry_lxor by done. reflexivity.
Qed.

Lemma varint_loop_read fuel : forall d sh v rest,
  0 <= d < 2 ^ sh -> 0 <= sh < 32 -> 0 <= v < 2 ^ (7 * Z.of_nat fuel) -> v * 2 ^ sh < 2 ^ 32 ->
  (fuel = 0%nat -> 0 < v) ->
  varint_last (varint_more d sh (varint_loop fuel v ++ rest)) = (d + v * 2 ^ sh, rest).
Proof.
  induction fuel as [|fuel IH]; intros d sh v rest Hd Hsh Hv Hlt H0.
  { specialize (H0 eq_refl). simpl in Hv. lia. }
  cbn [varint_loop]. destruct (128 <=? v) eqn:E.
  - apply Z.leb_le in E. cbn [app varint_more]. rewrite more_bit. unfold add_bits. rewrite low_bits.
    assert (v = v mod 128 + 128 * (v / 128)) as Hdec by (pose proof (Z.div_mod v 128); lia).
    pose proof (Z.mod_pos_bound v 128).
    assert (1 <= v / 128) by (apply Z.div_le_lower_bound; lia).
    assert (2 ^ (sh + 7) = 128 * 2 ^ sh) as Hp by (rewrite Z.pow_add_r by lia; lia).
    assert (0 < 2 ^ sh) by (apply Z.pow_pos_nonneg; lia).
    rewrite add_group by nia.
    assert (sh + 7 < 32).
    { destruct (decide (sh + 7 < 32)); [done|]. assert (2 ^ 32 <= 2 ^ (sh + 7)) by (apply Z.pow_le_mono_r; lia). nia. }
    rewrite (proj2 (Z.leb_gt _ _)) by lia. rewrite Z.shiftr_div_pow2 by lia. change (2 ^ 7) with 128.
    rewrite IH; [f_equal; rewrite Hp; nia|nia|lia| |nia|lia].
    split; [lia|]. apply Z.div_lt_upper_bound; [lia|].
    replace (7 * Z.of_nat (S fuel)) with (7 + 7 * Z.of_nat fuel) in Hv by lia.
    rewrite Z.pow_add_r in Hv by lia. change (2 ^ 7) with 128 in Hv. lia.
  - apply Z.leb_gt in E. destruct (small_byte v) as [Hm Hb]; [lia|].
    cbn [app varint_more]. rewrite Hm. cbn [varint_last]. rewrite (proj2 (Z.ltb_lt _ _)) by lia.
    unfold add_bits. rewrite Hb. by rewrite add_group by lia.
Qed.

Lemma read_varint_write v rest : 0 <= v < 2 ^ 32 -> read_varint (WriteVarint v ++ rest) = (v, rest).
Proof.
  intros H. unfold read_varint, WriteVarint. rewrite varint_loop_read by (simpl; lia). f_equal. lia.
Qed.

(** Reading consumes at least a byte and never moves backwards. *)

Lemma varint_more_length d sh p : (length (varint_more d sh p).2 <= length p)%nat.
Proof.
  revert d sh. induction p as [|c r IH]; intros d sh; [done|]. cbn [varint_more].
  destruct (has_more c); [|done]. destruct (_ <=? _); simpl; [lia|]. specialize (IH (add_bits d sh c) (sh + 7)). lia.
Qed.

Lemma read_varint_length c r : (length (read_varint (c :: r)).2 <= length r)%nat.
Proof.
  unfold read_varint. cbn [varint_more]. destruct (has_more c); [|done].
  change (32 <=? 0 + 7) with false. cbv iota.
  pose proof (varint_more_length (add_bits 0 0 c) (0 + 7) r) as H.
  destruct (varint_more _ _ r) as [[d sh] p]. simpl in *. destruct p as [|c' r']; simpl in *; [lia|].
  destruct (_ <? _); simpl; lia.
Qed.

(** ** Lemmas: the envelope *)

Definition envelope (Magic : bytes) (n k : Z) (body : bytes) : bytes :=
  Magic ++ le 4 kMMapIndexVersion ++ le 4 kMMapFileHeaderSize ++ le 4 kMMapIndexEndianMarker ++ le 4 0 ++
  le 8 n ++ le 8 k ++ body.

Lemma ReadValue_app n v pre rest Offset :
  length pre = Offset -> 0 <= v < 2 ^ (8 * Z.of_nat n) -> ReadValue n (pre ++ le n v ++ rest) Offset = Some v.
Proof.
  intros <- Hv. unfold ReadValue. rewrite !length_app, length_le.
  rewrite (proj2 (Nat.ltb_ge _ _)), (proj2 (Nat.ltb_ge _ _)) by lia. simpl.
  rewrite drop_app_length. by apply load_app.
Qed.

Lemma length_envelope Magic n k body : length Magic = 8%nat -> length (envelope Magic n k body) = (40 + length body)%nat.
Proof. intros H. unfold envelope. rewrite !length_app, !length_le, H. lia. Qed.

Lemma envelope_body Magic n k body : length Magic = 8%nat -> drop 40 (envelope Magic n k body) = body.
Proof.
  intros H. unfold envelope. rewrite !app_assoc. apply drop_app_length'. by rewrite !length_app, !length_le, H.
Qed.

Lemma validate_envelope Magic n k body :
  length Magic = 8%nat -> 0 <= n < 2 ^ 64 -> 0 <= k < 2 ^ 64 ->
  ValidateMMapFile (envelope Magic n k body) Magic =
  if size body <? n then None
  else if StableChecksum64 (take (Z.to_nat n) body) =? k then Some (take (Z.to_nat n) body) else None.
Proof.
  intros HM Hn Hk. unfold ValidateMMapFile. pose proof (length_envelope Magic n k body HM) as HL.
  assert (size (envelope Magic n k body) = 40 + size body) as HS by (unfold size; lia).
  assert (ReadValue 4 (envelope Magic n k body) 8 = Some kMMapIndexVersion) as ->.
  { unfold envelope. by apply ReadValue_app. }
  assert (ReadValue 4 (envelope Magic n k body) 12 = Some kMMapFileHeaderSize) as ->.
  { unfold envelope. rewrite app_assoc. apply ReadValue_app; [by rewrite length_app, HM|done]. }
  assert (ReadValue 4 (envelope Magic n k body) 16 = Some kMMapIndexEndianMarker) as ->.
  { unfold envelope. do 2 rewrite app_assoc. apply ReadValue_app; [by rewrite !length_app, HM|done]. }
  assert (ReadValue 8 (envelope Magic n k body) 24 = Some n) as ->.
  { unfold envelope. do 4 rewrite app_assoc. apply ReadValue_app; [by rewrite !length_app, HM|done]. }
  assert (ReadValue 8 (envelope Magic n k body) 32 = Some k) as ->.
  { unfold envelope. do 5 rewrite app_assoc.
    apply ReadValue_app; [by rewrite !length_app, !length_le, HM|done]. }
  rewrite HS, (proj2 (Z.ltb_ge _ _)) by (unfold kMMapFileHeaderSize, size; lia).
  rewrite bool_decide_eq_true_2 by (unfold envelope; by apply take_app_length').
  cbn [negb]. rewrite !Z.eqb_refl. cbn [negb orb].
  replace (40 + size body - kMMapFileHeaderSize) with (size body) by (unfold kMMapFileHeaderSize; lia).
  change (Z.to_nat kMMapFileHeaderSize) with 40%nat. rewrite envelope_body by done.
  destruct (size body <? n); [done|]. by destruct (_ =? k).
Qed.

Lemma StableChecksum64_range Data : 0 <= StableChecksum64 Data < 2 ^ 64.
Proof.
  unfold StableChecksum64. assert (0 <= kFnv64Offset < 2 ^ 64) as H by done. revert H.
  generalize kFnv64Offset. induction Data as [|c r IH]; intros h H; [done|].
  apply IH. unfold u64. apply Z.mod_pos_bound. lia.
Qed.

Lemma WriteMMapFile_envelope Magic Payload :
  WriteMMapFile Magic Payload = envelope Magic (size Payload) (StableChecksum64 Payload) Payload.
Proof. done. Qed.

Lemma validate_written Magic Payload body :
  length Magic = 8%nat -> size Payload < 2 ^ 64 ->
  ValidateMMapFile (envelope Magic (size Payload) (StableChecksum64 Payload) body) Magic =
  if size body <? size Payload then None
  else if StableChecksum64 (take (length Payload) body) =? StableChecksum64 Payload
       then Some (take (length Payload) body) else None.
Proof.
  intros HM Hs. rewrite validate_envelope; [|done|unfold size in *; lia|apply StableChecksum64_range].
  unfold size. by rewrite Nat2Z.id.
Qed.

Lemma validate_roundtrip Magic Payload :
  length Magic = 8%nat -> size Payload < 2 ^ 64 ->
  ValidateMMapFile (WriteMMapFile Magic Payload) Magic = Some Payload.
Proof.
  intros HM Hs. rewrite WriteMMapFile_envelope, validate_written by done.
  rewrite Z.ltb_irrefl, firstn_all, Z.eqb_refl. done.
Qed.

(** ** Lemmas: the checksum *)

(** The multiplier is odd, so multiplication by it is invertible. *)

Definition kFnv64Inverse : Z := 14886173955864302971.

Lemma prime_inverse x : u64 (u64 (x * kFnv64Prime) * kFnv64Inverse) = u64 x.
Proof.
  unfold u64. rewrite Z.mul_mod_idemp_l by lia. rewrite <- Z.mul_assoc.
  rewrite <- Z.mul_mod_idemp_r by lia. change ((kFnv64Prime * kFnv64Inverse) mod 2 ^ 64) with 1.
  by rewrite Z.mul_1_r.
Qed.

Lemma lxor_range a b n : 0 <= n -> 0 <= a < 2 ^ n -> 0 <= b < 2 ^ n -> 0 <= Z.lxor a b < 2 ^ n.
Proof.
  intros Hn Ha Hb. split; [by apply Z.lxor_nonneg; lia|].
  assert (Z.lxor a b = Z.lxor a b mod 2 ^ n) as ->; [|by apply Z.mod_pos_bound, Z.pow_pos_nonneg].
  apply Z.bits_inj'. intros i Hi. destruct (decide (i < n)).
  - by rewrite Z.mod_pow2_bits_low by lia.
  - rewrite Z.mod_pow2_bits_high by lia. rewrite Z.lxor_spec.
    rewrite <- (Z.mod_small a (2 ^ n)), <- (Z.mod_small b (2 ^ n)) by lia.
    by rewrite !Z.mod_pow2_bits_high by lia.
Qed.

Lemma code_range64 c : 0 <= code c < 2 ^ 64.
Proof. pose proof (code_range c). lia. Qed.

Lemma checksum_step_inj h h' c d :
  0 <= h < 2 ^ 64 -> 0 <= h' < 2 ^ 64 ->
  u64 (Z.lxor h (code c) * kFnv64Prime) = u64 (Z.lxor h' (code d) * kFnv64Prime) ->
  Z.lxor h (code c) = Z.lxor h' (code d).
Proof.
  intros Hh Hh' H. apply (f_equal (fun x => u64 (x * kFnv64Inverse))) in H. rewrite !prime_inverse in H.
  unfold u64 in H. by rewrite !Z.mod_small in H by (apply lxor_range; [lia|done|apply code_range64]).
Qed.

Lemma lxor_cancel_r a b c : Z.lxor a c = Z.lxor b c -> a = b.
Proof. intros H. apply (f_equal (fun x => Z.lxor x c)) in H. by rewrite !Z.lxor_assoc, Z.lxor_nilpotent, !Z.lxor_0_r in H. Qed.

Lemma lxor_cancel_l a b c : Z.lxor c a = Z.lxor c b -> a = b.
Proof. rewrite !(Z.lxor_comm c). apply lxor_cancel_r. Qed.

Lemma checksum_fold_inj r : forall h h',
  0 <= h < 2 ^ 64 -> 0 <= h' < 2 ^ 64 -> h <> h' ->
  fold_left (fun Hash c => u64 (Z.lxor Hash (code c) * kFnv64Prime)) r h <>
  fold_left (fun Hash c => u64 (Z.lxor Hash (code c) * kFnv64Prime)) r h'.
Proof.
  induction r as [|c r IH]; intros h h' Hh Hh' Hne; [done|]. simpl. apply IH; try (apply Z.mod_pos_bound; lia).
  intros E. apply Hne. apply checksum_step_inj in E; [|done..]. by eapply lxor_cancel_r.
Qed.

Lemma checksum_one_byte a c d b :
  c <> d -> StableChecksum64 (a ++ c :: b) <> StableChecksum64 (a ++ d :: b).
Proof.
  intros Hne. pose proof (StableChecksum64_range a) as Ha. unfold StableChecksum64 in *. rewrite !fold_left_app.
  simpl. apply checksum_fold_inj; try (apply Z.mod_pos_bound; lia).
  intros E. apply checksum_step_inj in E; [|done..]. apply Hne, code_inj. by eapply lxor_cancel_l.
Qed.

Lemma insert_envelope Magic n k body i d :
  length Magic = 8%nat -> <[(40 + i)%nat := d]> (envelope Magic n k body) = envelope Magic n k (<[i := d]> body).
Proof.
  intros HM. unfold envelope. rewrite !app_assoc. rewrite insert_app_r_alt.
  - by rewrite !length_app, !length_le, HM, Nat.add_comm, Nat.add_sub.
  - rewrite !length_app, !length_le, HM. lia.
Qed.

Lemma validate_payload_byte Magic Payload i c d :
  length Magic = 8%nat -> size Payload < 2 ^ 64 -> Payload !! i = Some c -> c <> d ->
  ValidateMMapFile (<[(40 + i)%nat := d]> (WriteMMapFile Magic Payload)) Magic = None.
Proof.
  intros HM Hs Hi Hne. rewrite WriteMMapFile_envelope, insert_envelope, validate_written by done.
  pose proof (take_drop_middle _ _ _ Hi) as Hsplit. pose proof (lookup_lt_Some _ _ _ Hi) as Hlt.
  assert (<[i:=d]> Payload = take i Payload ++ d :: drop (S i) Payload) as Hins.
  { rewrite <- Hsplit at 1. rewrite insert_app_r_alt; rewrite length_take_le by lia; [|lia].
    by rewrite Nat.sub_diag. }
  destruct (_ <? _); [done|].
  rewrite take_ge by (rewrite length_insert; lia). rewrite Hins.
  rewrite (proj2 (Z.eqb_neq _ _)); [done|]. intros E. symmetry in E. revert E.
  rewrite <- Hsplit at 1. by apply checksum_one_byte.
Qed.

Lemma validate_truncated Magic Payload n :
  length Magic = 8%nat -> size Payload < 2 ^ 64 -> (n < 40 + length Payload)%nat ->
  ValidateMMapFile (take n (WriteMMapFile Magic Payload)) Magic = None.
Proof.
  intros HM Hs Hn. rewrite WriteMMapFile_envelope. destruct (decide (n < 40)%nat) as [Hlt|Hge].
  - unfold ValidateMMapFile. rewrite (proj2 (Z.ltb_lt _ _)); [done|].
    unfold size, kMMapFileHeaderSize. rewrite length_take. lia.
  - assert (take n (envelope Magic (size Payload) (StableChecksum64 Payload) Payload) =
            envelope Magic (size Payload) (StableChecksum64 Payload) (take (n - 40) Payload)) as ->.
    { unfold envelope. rewrite !app_assoc. rewrite take_app_ge; rewrite !length_app, !length_le, HM; [done|lia]. }
    rewrite validate_written by done. rewrite (proj2 (Z.ltb_lt _ _)); [done|].
    unfold size. rewrite length_take. lia.
Qed.

Lemma varint_loop_size n : forall w, size (varint_loop n w) <= Z.of_nat n.
Proof.
  unfold size. induction n as [|n IH]; intros w; simpl; [done|].
  destruct (128 <=? w); simpl; [specialize (IH (Z.shiftr w 7))|]; lia.
Qed.

Lemma ReadValue_load n Base Offset v : ReadValue n Base Offset = Some v -> load n (drop Offset Base) = Some v.
Proof. unfold ReadValue. by destruct (_ || _). Qed.

(** ** Properties *)

(** A 32-bit value survives the variable-length encoding, whatever follows
    it, with either of the two decoders, and takes at most five bytes. *)
Theorem varint_roundtrip (v : Z) (rest : bytes) :
  0 <= v < 2 ^ 32 ->
  read_varint (WriteVarint v ++ rest) = (v, rest) /\
  read_varint_optimized (WriteVarint v ++ rest) = (v, rest) /\ size (WriteVarint v) <= 5.
Proof.
  intros Hv. rewrite read_varint_optimized_eq, read_varint_write by done. split; [done|]. split; [done|].
  apply (varint_loop_size 5).
Qed.

Lemma varint_roundtrip_witness :
  WriteVarint 300 = [chr 172; chr 2] /\ read_varint (WriteVarint 300 ++ #"rest") = (300, #"rest").
Proof. split; [vm_compute; reflexivity|]. apply (varint_roundtrip 300 #"rest"). lia. Defined.

(** C37. A payload comes back from the file it was written to, and the reader
    accepts no proper prefix of that file and no file in which one payload byte
    was changed. *)
Theorem envelope_integrity (Magic Payload : bytes) :
  length Magic = 8%nat -> size Payload < 2 ^ 64 ->
  ValidateMMapFile (WriteMMapFile Magic Payload) Magic = Some Payload /\
  (forall n, (n < length (WriteMMapFile Magic Payload))%nat ->
     ValidateMMapFile (take n (WriteMMapFile Magic Payload)) Magic = None) /\
  (forall i c d, Payload !! i = Some c -> c <> d ->
     ValidateMMapFile (<[(40 + i)%nat := d]> (WriteMMapFile Magic Payload)) Magic = None).
Proof.
  intros HM Hs. split; [by apply validate_roundtrip|]. split.
  - intros n Hn. rewrite WriteMMapFile_envelope, length_envelope in Hn by done. by apply validate_truncated.
  - intros i c d Hi Hne. by eapply validate_payload_byte.
Qed.

Lemma envelope_integrity_witness :
  ValidateMMapFile (WriteMMapFile kTermsMagic #"abc") kTermsMagic = Some #"abc".
Proof.
  refine (proj1 (envelope_integrity kTermsMagic #"abc" _ _)); vm_compute; reflexivity.
Defined.

(** Whatever the file holds, a payload that [ValidateMMapFile] hands out
    lies inside the mapped file, right behind the header, under the expected
    magic, and matches the checksum the header stores. *)
Theorem ValidateMMapFile_sound (Base Magic Payload : bytes) :
  ValidateMMapFile Base Magic = Some Payload ->
  exists header rest, Base = header ++ Payload ++ rest /\ size header = kMMapFileHeaderSize /\
    take 8 Base = Magic /\ load 8 (drop 32 Base) = Some (StableChecksum64 Payload) /\
    load 8 (drop 24 Base) = Some (size Payload).
Proof.
  unfold ValidateMMapFile. destruct (size Base <? kMMapFileHeaderSize) eqn:Es; [done|]. apply Z.ltb_ge in Es.
  destruct (bool_decide (take 8 Base = Magic)) eqn:Em; [|done]. apply bool_decide_eq_true in Em. cbn [negb].
  destruct (ReadValue 4 Base 8) as [v|]; [|done]. destruct (ReadValue 4 Base 12) as [h|]; [|done].
  destruct (ReadValue 4 Base 16) as [e|]; [|done].
  destruct (ReadValue 8 Base 24) as [n|] eqn:En; [|done]. destruct (ReadValue 8 Base 32) as [k|] eqn:Ek; [|done].
  destruct (_ || _) eqn:E; [done|]. apply orb_false_iff in E as [[_ Eh]%orb_false_iff _].
  apply negb_false_iff, Z.eqb_eq in Eh as ->.
  destruct (size Base - kMMapFileHeaderSize <? n) eqn:El; [done|]. apply Z.ltb_ge in El.
  destruct (_ =? k) eqn:Ec; [|done]. apply Z.eqb_eq in Ec. intros [= <-].
  apply ReadValue_load in En, Ek. pose proof (load_range _ _ _ En) as Hn.
  change (Z.to_nat kMMapFileHeaderSize) with 40%nat in *. unfold kMMapFileHeaderSize, size in *.
  exists (take 40 Base), (drop (Z.to_nat n) (drop 40 Base)). rewrite !take_drop. split_and!; try done.
  - rewrite length_take. lia.
  - by rewrite Ec.
  - rewrite length_take, length_drop. rewrite En. f_equal. lia.
Qed.

Lemma ValidateMMapFile_sound_witness :
  exists header rest, WriteMMapFile kTermsMagic #"abc" = header ++ #"abc" ++ rest /\
    size header = kMMapFileHeaderSize /\ take 8 (WriteMMapFile kTermsMagic #"abc") = kTermsMagic /\
    load 8 (drop 32 (WriteMMapFile kTermsMagic #"abc")) = Some (StableChecksum64 #"abc") /\
    load 8 (drop 24 (WriteMMapFile kTermsMagic #"abc")) = Some (size #"abc").
Proof. apply (ValidateMMapFile_sound _ kTermsMagic #"abc"). vm_compute. reflexivity. Defined.

End MMapFormat.
