(* ===== verification/MMapIndex.v ===== *)
(** * Memory-mapped index: src/search/mapped_posting_index.cpp, src/search/postings_mmap_fastpath.cpp

    [IndexWriter] turns a collection's term map into four files, [MMapIndex]
    maps them and answers term lookups. Files are byte lists (or absent); the
    in-memory index is a [gmap] from collections to term maps. Functions that
    read the mapping return [None] for a read outside it, or for exhausted
    fuel; neither happens, as the theorems of MMapIndexProps show. *)

From Stdlib Require Import SpecFloat.
From S2P Require Import Prelude CText MMapFormat Wildcard.
Import MMapFormat.

Module MMapIndex.

(** ** Scores: [double] in memory, [float] in the file *)

Definition to_float32 (d : double) : spec_float :=
  match d with S754_finite s m e => binary_round 24 128 s m e | x => x end.

Definition to_double (f : spec_float) : double :=
  match f with S754_finite s m e => binary_round 53 1024 s m e | x => x end.

(** The object representation of a [float]. *)

Definition float32_bits (f : spec_float) : Z :=
  let sign s := if (s : bool) then 2 ^ 31 else 0 in
  match f with
  | S754_zero s => sign s
  | S754_infinity s => sign s + 255 * 2 ^ 23
  | S754_nan => 255 * 2 ^ 23 + 2 ^ 22
  | S754_finite s m e => if Zpos m <? 2 ^ 23 then sign s + Zpos m
                         else sign s + (e + 150) * 2 ^ 23 + (Zpos m - 2 ^ 23)
  end.

Definition float32_of_bits (b : Z) : spec_float :=
  let s := Z.testbit b 31 in
  let ex := Z.land (Z.shiftr b 23) 255 in
  let frac := Z.land b (2 ^ 23 - 1) in
  if ex =? 255 then if frac =? 0 then S754_infinity s else S754_nan
  else if ex =? 0 then match frac with Zpos m => S754_finite s m (-149) | _ => S754_zero s end
  else match frac + 2 ^ 23 with Zpos m => S754_finite s m (ex - 150) | _ => S754_nan end.

(** ** Postings *)

Record Posting := mkPosting {
  DocumentID : bytes;
  Collection : bytes;
  Score : double;
  Positions : list Z
}.

(** What the file keeps of a posting. *)

Definition stored_score (d : double) : double :=
  to_double (float32_of_bits (u32 (float32_bits (to_float32 d)))).

Definition stored (p : Posting) : Posting := mkPosting (DocumentID p) [] (stored_score (Score p)) [].

Definition max_u16 : Z := 65535.

(** ** IndexWriter *)

(** [HashedPosting] and the order of the sort. *)

Definition hashed (p : Posting) : Z * Posting := (StableHash32 (DocumentID p), p).

Definition hashed_ltb (a b : Z * Posting) : bool :=
  if a.1 =? b.1 then str_ltb (DocumentID a.2) (DocumentID b.2) else a.1 <? b.1.

Definition hashed_le (a b : Z * Posting) : Prop := hashed_ltb b a = false.

#[export] Instance hashed_le_dec : RelDecision hashed_le.
Proof. intros a b. unfold hashed_le. apply _. Defined.

Definition sort_hashed (ps : list Posting) : list (Z * Posting) := merge_sort hashed_le (hashed <$> ps).

Definition write_posting (PrevDocHash : Z) (e : Z * Posting) : bytes :=
  WriteVarint (if PrevDocHash =? 0 then e.1 else u32 (e.1 - PrevDocHash)) ++
  le 4 (float32_bits (to_float32 (Score e.2))) ++
  le 2 (size (DocumentID e.2)) ++ DocumentID e.2.

(** The loop over the sorted postings; [None] is the thrown exception. *)

Fixpoint write_postings_loop (PrevDocHash : Z) (l : list (Z * Posting)) : option bytes :=
  match l with
  | [] => Some []
  | e :: r =>
      if max_u16 <? size (DocumentID e.2) then None
      else match write_postings_loop e.1 r with
           | Some b => Some (write_posting PrevDocHash e ++ b)
           | None => None
           end
  end.

(** The bytes appended to the postings buffer. *)

Definition WritePostings (Postings : list Posting) : option bytes :=
  match Postings with
  | [] => Some []
  | _ =>
      match write_postings_loop 0 (sort_hashed Postings) with
      | Some b => Some (le 4 (u32 (size Postings)) ++ b)
      | None => None
      end
  end.

Record index_files := mkFiles {
  terms_bin : option bytes;
  term_map_bin : option bytes;
  term_index_bin : option bytes;
  postings_bin : option bytes
}.

Definition str_le (a b : bytes) : Prop := str_leb a b = true.

#[export] Instance str_le_dec : RelDecision str_le.
Proof. intros a b. unfold str_le. apply _. Defined.

(** The sorted term list of a collection. *)

Definition sorted_terms (m : gmap bytes (list Posting)) : list bytes :=
  merge_sort str_le ((map_to_list m).*1).

(** The length checks before anything is written. *)

Definition lengths_ok (m : gmap bytes (list Posting)) (Terms : list bytes) : bool :=
  forallb (fun t =>
    (size t <=? max_u16) &&
    match m !! t with
    | Some ps => forallb (fun p => size (DocumentID p) <=? max_u16) ps
    | None => true
    end) Terms.

Definition terms_buffer (Terms : list bytes) : bytes := mjoin ((fun t => t ++ [NUL]) <$> Terms).

(** The postings buffer, and for each term its offset and length in it:
    [TermOffsets], in term order. *)

Fixpoint postings_buffer (m : gmap bytes (list Posting)) (CurrentOffset : Z) (Terms : list bytes)
    : option (bytes * list (bytes * (Z * Z))) :=
  match Terms with
  | [] => Some ([], [])
  | t :: r =>
      match m !! t with
      | None => postings_buffer m CurrentOffset r
      | Some ps =>
          match WritePostings ps with
          | None => None
          | Some b =>
              match postings_buffer m (CurrentOffset + size b) r with
              | None => None
              | Some (bs, offs) => Some (b ++ bs, (t, (CurrentOffset, u32 (size b))) :: offs)
              end
          end
      end
  end.

Definition term_map_entry (e : bytes * (Z * Z)) : bytes :=
  le 2 (size e.1) ++ e.1 ++ le 8 e.2.1 ++ le 4 e.2.2.

Definition term_map_buffer (Terms : list bytes) (offs : list (bytes * (Z * Z))) : bytes :=
  le 4 (u32 (size Terms)) ++ mjoin (term_map_entry <$> offs).

(** The sparse index: every [IndexInterval]-th term with its offset in the
    terms buffer. *)

Definition kIndexInterval : nat := 16.

Fixpoint term_offsets (TermFileOffset : Z) (Terms : list bytes) : list Z :=
  match Terms with
  | [] => []
  | t :: r => TermFileOffset :: term_offsets (TermFileOffset + size t + 1) r
  end.

Definition find_offset (offs : list (bytes * (Z * Z))) (t : bytes) : Z * Z :=
  match List.find (fun e => bool_decide (e.1 = t)) offs with Some e => e.2 | None => (0, 0) end.

Definition term_index_entry (offs : list (bytes * (Z * Z))) (e : bytes * Z) : bytes :=
  le 8 e.2 ++ le 4 (size e.1) ++ le 8 (find_offset offs e.1).1 ++ le 4 (find_offset offs e.1).2.

(** The elements at positions 0, 16, 32, ... *)

Fixpoint sampled {A} (skip : nat) (l : list A) : list A :=
  match l with
  | [] => []
  | x :: r => match skip with O => x :: sampled (kIndexInterval - 1) r | S k => sampled k r end
  end.

Definition term_index_buffer (Terms : list bytes) (offs : list (bytes * (Z * Z))) : bytes :=
  le 4 (u32 (size Terms)) ++ le 4 (Z.of_nat kIndexInterval) ++
  mjoin (term_index_entry offs <$> sampled 0 (zip Terms (term_offsets 0 Terms))).

(** [WriteIndex]; [None] is [return false]. *)

Definition WriteIndex (IndexData : gmap bytes (gmap bytes (list Posting))) (Collection : bytes) : option index_files :=
  match IndexData !! Collection with
  | None => None
  | Some m =>
      let Terms := sorted_terms m in
      if negb (lengths_ok m Terms) then None
      else match postings_buffer m 0 Terms with
      | None => None
      | Some (PostingsBuffer, offs) =>
          Some (mkFiles
            (Some (WriteMMapFile kTermsMagic (terms_buffer Terms)))
            (Some (WriteMMapFile kTermMapMagic (term_map_buffer Terms offs)))
            (Some (WriteMMapFile kTermIndexMagic (term_index_buffer Terms offs)))
            (Some (WriteMMapFile kPostingsMagic PostingsBuffer)))
      end
  end.

(** ** MMapIndex *)

Record mapped_index := mkIndex {
  TermsData : bytes;
  TermMapData : bytes;
  TermIndexData : option bytes;
  PostingsData : bytes;
  TermCount : Z;
  IndexInterval : Z;
  Valid : bool
}.

(** [mmap] of an empty file fails. *)

Definition map_file (file Magic : bytes) : option bytes :=
  match file with [] => None | _ => ValidateMMapFile file Magic end.

(** The optional sparse index: its payload and interval; [None] rejects the
    index. *)

Definition load_term_index (file : option bytes) : option (option bytes * Z) :=
  match file with
  | None => Some (None, 16)
  | Some [] => Some (None, 16)
  | Some f =>
      match ValidateMMapFile f kTermIndexMagic with
      | None => None
      | Some d => if size d <? 8 then None
                  else match load 4 (drop 4 d) with Some iv => Some (Some d, iv) | None => None end
      end
  end.

Definition LoadIndex (files : index_files) : option mapped_index :=
  match terms_bin files, postings_bin files, term_map_bin files with
  | Some tf, Some pf, Some mf =>
      match map_file tf kTermsMagic with
      | None => None
      | Some terms =>
          match map_file mf kTermMapMagic with
          | None => None
          | Some tmap =>
              if size tmap <? 4 then None
              else match load 4 tmap, load_term_index (term_index_bin files), map_file pf kPostingsMagic with
              | Some count, Some (tidx, iv), Some postings => Some (mkIndex terms tmap tidx postings count iv true)
              | _, _, _ => None
              end
          end
      end
  | _, _, _ => None
  end.

(** *** Decoding postings *)

Inductive step :=
| Fault
| Break
| Next (Post : Posting) (PrevDocHash : Z) (Ptr : bytes).

Definition load_bytes (n : Z) (p : bytes) : option bytes :=
  if size p <? n then None else Some (take (Z.to_nat n) p).

(** One iteration of the loop, past its varint. *)

Definition decode_entry (DocHash : Z) (Ptr : bytes) : step :=
  if negb (HasMappedBytes Ptr 4) then Break
  else match load 4 Ptr with
  | None => Fault
  | Some ScoreBits =>
      let Ptr := drop 4 Ptr in
      if negb (HasMappedBytes Ptr 2) then Break
      else match load 2 Ptr with
      | None => Fault
      | Some DocIDLenVal =>
          let Ptr := drop 2 Ptr in
          if negb (HasMappedBytes Ptr DocIDLenVal) then Break
          else match load_bytes DocIDLenVal Ptr with
          | None => Fault
          | Some DocIDStr =>
              Next (mkPosting DocIDStr [] (to_double (float32_of_bits ScoreBits)) []) DocHash
                (drop (Z.to_nat DocIDLenVal) Ptr)
          end
      end
  end.

Section Decode.

(** The varint decoder of the variant. *)

Context (varint : bytes -> Z * bytes).

Definition decode_posting (PrevDocHash : Z) (Ptr : bytes) : step :=
  let (DeltaValue, Ptr) := varint Ptr in
  decode_entry (if PrevDocHash =? 0 then DeltaValue else u32 (PrevDocHash + DeltaValue)) Ptr.

Fixpoint decode_loop (fuel : nat) (remaining PrevDocHash : Z) (Ptr : bytes) : option (list Posting) :=
  match Ptr with
  | [] => Some []
  | _ =>
      if remaining <=? 0 then Some []
      else match fuel with
      | O => None
      | S fuel' =>
          match decode_posting PrevDocHash Ptr with
          | Fault => None
          | Break => Some []
          | Next Post PrevDocHash Ptr =>
              match decode_loop fuel' (remaining - 1) PrevDocHash Ptr with
              | Some l => Some (Post :: l)
              | None => None
              end
          end
      end
  end.

Definition decode_postings (Data : bytes) : option (list Posting) :=
  if size Data <? 4 then Some []
  else match load 4 Data with
       | None => None
       | Some DocCountValue => decode_loop (length Data) DocCountValue 0 (drop 4 Data)
       end.

End Decode.

Definition DecodePostings : bytes -> option (list Posting) := decode_postings read_varint.

(** The fast variant gives the count of the data unchecked to [reserve], which throws
    when the allocator has no room for as many postings ([Available]). *)

Definition announced (Data : bytes) : Z := default 0 (load 4 Data).

Definition DecodePostingsOptimized (Available : Z -> bool) (Data : bytes) : option (result (list Posting)) :=
  if (4 <=? size Data) && negb (Available (announced Data)) then Some (Err #"std::bad_alloc")
  else Ok <$> decode_postings read_varint_optimized Data.

(** *** Term lookup *)

Record TermEntry := mkEntry { PostingsOffset : Z; PostingsLength : Z; DocFreq : Z }.

Definition no_entry : TermEntry := mkEntry 0 0 0.

(** [fast_string_compare]: the difference of the first differing bytes, else of
    the lengths as [int]. *)

Fixpoint compare_bytes (a b : bytes) : Z :=
  match a, b with
  | x :: a', y :: b' => if code x - code y =? 0 then compare_bytes a' b' else code x - code y
  | _, _ => 0
  end.

Definition fast_string_compare (a b : bytes) : Z :=
  let diff := compare_bytes a b in
  if diff =? 0 then wrap_int32 (wrap_int32 (size a) - wrap_int32 (size b)) else diff.

Fixpoint find_term_loop (fuel : nat) (remaining : Z) (TermParam Ptr : bytes) : option TermEntry :=
  match Ptr with
  | [] => Some no_entry
  | _ =>
      if remaining <=? 0 then Some no_entry
      else match fuel with
      | O => None
      | S fuel' =>
          if negb (HasMappedBytes Ptr 2) then Some no_entry
          else match load 2 Ptr with
          | None => None
          | Some TermLenValue =>
              let Ptr := drop 2 Ptr in
              if negb (HasMappedBytes Ptr (TermLenValue + 8 + 4)) then Some no_entry
              else match load_bytes TermLenValue Ptr with
              | None => None
              | Some MapTerm =>
                  let CmpResultValue := fast_string_compare TermParam MapTerm in
                  let Ptr := drop (Z.to_nat TermLenValue) Ptr in
                  match load 8 Ptr, load 4 (drop 8 Ptr) with
                  | Some PostingsOffsetValue, Some PostingsLengthValue =>
                      let Ptr := drop 12 Ptr in
                      if CmpResultValue =? 0 then Some (mkEntry PostingsOffsetValue PostingsLengthValue 0)
                      else if CmpResultValue <? 0 then Some no_entry
                      else find_term_loop fuel' (remaining - 1) TermParam Ptr
                  | _, _ => None
                  end
              end
          end
      end
  end.

Definition FindTermOptimized (ix : mapped_index) (TermParam : bytes) : option TermEntry :=
  if negb (Valid ix) || bool_decide (TermParam = []) || (size (TermMapData ix) <=? 4) then Some no_entry
  else find_term_loop (length (TermMapData ix)) (TermCount ix) TermParam (drop 4 (TermMapData ix)).

Definition FindTerm (ix : mapped_index) (TermValue : bytes) : option TermEntry :=
  if negb (Valid ix) || bool_decide (TermValue = []) then Some no_entry
  else if 4 <? size (TermMapData ix) then FindTermOptimized ix TermValue
  else Some no_entry.

Definition SearchTerm (ix : mapped_index) (TermValue : bytes) : option (list Posting) :=
  if negb (Valid ix) then Some []
  else match FindTerm ix TermValue with
  | None => None
  | Some Ent =>
      if PostingsLength Ent =? 0 then Some []
      else if (size (PostingsData ix) <? PostingsOffset Ent) ||
              (size (PostingsData ix) - PostingsOffset Ent <? PostingsLength Ent) then Some []
      else match load_bytes (PostingsLength Ent) (drop (Z.to_nat (PostingsOffset Ent)) (PostingsData ix)) with
           | None => None
           | Some d => DecodePostings d
           end
  end.

(** *** Walks over the term list *)

Definition ReadMappedTerm (TermStart : bytes) : option bytes :=
  match TermStart with
  | [] => None
  | _ => match find_char (fun c => bool_decide (c = NUL)) TermStart with
         | Some n => Some (take n TermStart)
         | None => None
         end
  end.

(** [GetDocumentCount]: the loop that collects the identifiers. *)

Definition add_ids (ids : gset bytes) (ps : list Posting) : gset bytes :=
  fold_left (fun s p => if bool_decide (DocumentID p = []) then s else {[DocumentID p]} ∪ s) ps ids.

Fixpoint count_loop (fuel : nat) (ix : mapped_index) (Ptr : bytes) (DocumentIDs : gset bytes) : option (gset bytes) :=
  match Ptr with
  | [] => Some DocumentIDs
  | _ =>
      match fuel with
      | O => None
      | S fuel' =>
          match ReadMappedTerm Ptr with
          | None => Some DocumentIDs
          | Some TermVal =>
              if bool_decide (TermVal = []) then Some DocumentIDs
              else match SearchTerm ix TermVal with
                   | None => None
                   | Some Postings => count_loop fuel' ix (drop (length TermVal + 1) Ptr) (add_ids DocumentIDs Postings)
                   end
          end
      end
  end.

(** The count and the new cache; [cache] is [DocumentCount] when
    [DocumentCountCached]. *)

Definition GetDocumentCount (ix : mapped_index) (cache : option Z) : option (Z * option Z) :=
  if negb (Valid ix) then Some (0, cache)
  else match cache with
  | Some n => Some (n, Some n)
  | None =>
      match count_loop (length (TermsData ix)) ix (TermsData ix) ∅ with
      | None => None
      | Some ids => let n := Z.of_nat (base.size ids) in Some (n, Some n)
      end
  end.

(** The score table of prefix and wildcard searches. *)

Definition add_posting (DocScores : gmap bytes Posting) (Post : Posting) : gmap bytes Posting :=
  match DocScores !! DocumentID Post with
  | None => <[DocumentID Post := Post]> DocScores
  | Some It => <[DocumentID Post := mkPosting (DocumentID It) (Collection It)
                                      (SFadd 53 1024 (Score It) (Score Post)) (Positions It)]> DocScores
  end.

Fixpoint scan_loop (fuel : nat) (ix : mapped_index) (selects : bytes -> bool) (Ptr : bytes) (DocScores : gmap bytes Posting)
    : option (gmap bytes Posting) :=
  match Ptr with
  | [] => Some DocScores
  | _ =>
      match fuel with
      | O => None
      | S fuel' =>
          match ReadMappedTerm Ptr with
          | None => Some DocScores
          | Some TermVal =>
              let Ptr := drop (length TermVal + 1) Ptr in
              if selects TermVal then
                match SearchTerm ix TermVal with
                | None => None
                | Some Postings => scan_loop fuel' ix selects Ptr (fold_left add_posting Postings DocScores)
                end
              else scan_loop fuel' ix selects Ptr DocScores
          end
      end
  end.

Definition scan_terms (ix : mapped_index) (selects : bytes -> bool) : option (gmap bytes Posting) :=
  scan_loop (length (TermsData ix)) ix selects (TermsData ix) ∅.

(** The results in descending score order, cut at a positive limit. The order
    of equal scores, which [std::sort] leaves open, is the one of the sort
    used here. *)

Definition score_ge (a b : Posting) : Prop := SFltb (Score a) (Score b) = false.

#[export] Instance score_ge_dec : RelDecision score_ge.
Proof. intros a b. unfold score_ge. apply _. Defined.

Definition rank (LimitVal : Z) (DocScores : gmap bytes Posting) : list Posting :=
  let ResultsList := merge_sort score_ge ((map_to_list DocScores).*2) in
  if 0 <? LimitVal then take (Z.to_nat LimitVal) ResultsList else ResultsList.

Definition has_prefix (PrefixValue TermVal : bytes) : bool :=
  (length PrefixValue <=? length TermVal)%nat && bool_decide (take (length PrefixValue) TermVal = PrefixValue).

Definition search_with (ix : mapped_index) (key : bytes) (selects : bytes -> bool) (LimitVal : Z) : option (list Posting) :=
  if negb (Valid ix) || bool_decide (key = []) then Some []
  else match scan_terms ix selects with
       | None => None
       | Some DocScores => Some (rank LimitVal DocScores)
       end.

Definition SearchPrefix (ix : mapped_index) (PrefixValue : bytes) (LimitVal : Z) : option (list Posting) :=
  search_with ix PrefixValue (has_prefix PrefixValue) LimitVal.

Definition SearchWildcard (ix : mapped_index) (PatternValue : bytes) (LimitVal : Z) : option (list Posting) :=
  search_with ix PatternValue (fun t => Wildcard.Match t PatternValue) LimitVal.

End MMapIndex.
