(* ===== verification/MMapIndexProps.v ===== *)
(** * Memory-mapped index: safety, round trips and refinement

    Decoding never reads outside the mapping, the two decoders agree, postings
    survive the file format, and a written and reloaded index answers term
    lookups like the map it was written from. *)

From Stdlib Require Import SpecFloat.
From S2P Require Import Prelude CText MMapFormat Wildcard MMapIndex.
Import MMapFormat MMapIndex.

Module MMapIndexProps.

(** ** Single-precision scores *)

Lemma digits2_pos_bounds m : 2 ^ (Zpos (digits2_pos m) - 1) <= Zpos m < 2 ^ Zpos (digits2_pos m).
Proof.
  induction m as [p IH|p IH|]; cbn [digits2_pos]; [| |done];
    rewrite Pos2Z.inj_succ; (assert (Zpos (digits2_pos p) = 1 + (Zpos (digits2_pos p) - 1)) as E by lia);
    replace (Z.succ (Z.pos (digits2_pos p)) - 1) with (1 + (Zpos (digits2_pos p) - 1)) by lia;
    rewrite Z.pow_succ_r by lia; rewrite (Z.pow_add_r 2 1) by lia; lia.
Qed.

(** Mantissa and exponent of a representable [float]. *)

Lemma binary32_cases m e :
  valid_binary 24 128 (S754_finite false m e) = true ->
  (e = -149 /\ 0 < Zpos m < 2 ^ 23) \/ (-149 <= e <= 104 /\ 2 ^ 23 <= Zpos m < 2 ^ 24).
Proof.
  unfold valid_binary, bounded, canonical_mantissa, fexp, emin. intros H. apply andb_true_iff in H as [H1 H2].
  apply Zeq_bool_eq in H1. apply Z.leb_le in H2. pose proof (digits2_pos_bounds m) as Hd.
  set (d := Zpos (digits2_pos m)) in *. assert (d <= 24) by lia. destruct (decide (d = 24)) as [Hd24|].
  - right. split; [lia|]. rewrite Hd24 in Hd. exact Hd.
  - left. assert (2 ^ d <= 2 ^ 23) by (apply Z.pow_le_mono_r; lia). lia.
Qed.

Lemma float32_fields (s : bool) ex frac :
  0 <= ex < 256 -> 0 <= frac < 2 ^ 23 ->
  let b := (if s then 2 ^ 31 else 0) + ex * 2 ^ 23 + frac in
  u32 b = b /\ Z.testbit b 31 = s /\ Z.land (Z.shiftr b 23) 255 = ex /\ Z.land b (2 ^ 23 - 1) = frac.
Proof.
  intros He Hf b. assert (0 <= b < 2 ^ 32) as Hb by (unfold b; destruct s; lia).
  split; [by apply Z.mod_small|]. 
  assert (b / 2 ^ 23 = (if s then 256 else 0) + ex) as Hq.
  { symmetry. apply (Z.div_unique_pos b _ _ frac); unfold b; destruct s; lia. }
  split_and!.
  - rewrite Z.testbit_eqb by lia. 
    assert (b / 2 ^ 31 = if s then 1 else 0) as ->.
    { symmetry. apply (Z.div_unique_pos b _ _ (ex * 2 ^ 23 + frac)); unfold b; destruct s; lia. }
    by destruct s.
  - rewrite Z.shiftr_div_pow2, Hq by lia. change 255 with (Z.ones 8). rewrite Z.land_ones by lia.
    destruct s; [|by rewrite Z.mod_small by lia]. change (2 ^ 8) with 256.
    replace (256 + ex) with (ex + 1 * 256) by lia. rewrite Z.mod_add by lia. by rewrite Z.mod_small by lia.
  - change (2 ^ 23 - 1) with (Z.ones 23). rewrite Z.land_ones by lia. symmetry.
    apply (Z.mod_unique_pos b _ (b / 2 ^ 23)); [lia|]. rewrite Hq. unfold b. destruct s; lia.
Qed.

(** The object representation of a [float] loses nothing: every
    representable single-precision value, zeros, subnormals, infinities and NaN
    included, is read back from its 32 bits. *)
Theorem float32_roundtrip (f : spec_float) :
  valid_binary 24 128 f = true -> float32_of_bits (u32 (float32_bits f)) = f.
Proof.
  destruct f as [s|s| |s m e]; intros Hv; try (by destruct s); [done|].
  apply (binary32_cases m e) in Hv. unfold float32_bits. destruct (Zpos m <? 2 ^ 23) eqn:Em.
  - apply Z.ltb_lt in Em. destruct Hv as [[-> Hm]|]; [|lia].
    destruct (float32_fields s 0 (Zpos m)) as (H1 & H2 & H3 & H4); [lia|lia|].
    rewrite Z.mul_0_l, Z.add_0_r in *. unfold float32_of_bits. by rewrite H1, H2, H3, H4.
  - apply Z.ltb_ge in Em. destruct Hv as [[? ?]|[He Hm]]; [lia|].
    destruct (float32_fields s (e + 150) (Zpos m - 2 ^ 23)) as (H1 & H2 & H3 & H4); [lia|lia|].
    unfold float32_of_bits. rewrite H1, H2, H3, H4. rewrite (proj2 (Z.eqb_neq _ _)) by lia.
    rewrite (proj2 (Z.eqb_neq _ _)) by lia. replace (Z.pos m - 2 ^ 23 + 2 ^ 23) with (Zpos m) by lia.
    f_equal. lia.
Qed.

Lemma float32_roundtrip_witness :
  float32_of_bits (u32 (float32_bits (S754_finite true 12582912 (-23)))) = S754_finite true 12582912 (-23).
Proof. apply float32_roundtrip. vm_compute. reflexivity. Defined.

#[local] Opaque to_double to_float32 float32_bits float32_of_bits.

(** ** Reads stay inside the mapping *)

Lemma HasMappedBytes_load n p : HasMappedBytes p (Z.of_nat n) = true -> load n p = Some (of_le (take n p)).
Proof. unfold HasMappedBytes, size. intros H%Z.leb_le. apply load_some. lia. Qed.

Lemma HasMappedBytes_bytes n p : HasMappedBytes p n = true -> load_bytes n p = Some (take (Z.to_nat n) p).
Proof. unfold HasMappedBytes, load_bytes. intros H%Z.leb_le. by rewrite (proj2 (Z.ltb_ge _ _)). Qed.

Lemma HasMappedBytes_le n x y : HasMappedBytes (le n x ++ y) (Z.of_nat n) = true.
Proof. unfold HasMappedBytes, size. rewrite length_app, length_le. apply Z.leb_le. lia. Qed.

Lemma decode_entry_safe h p : decode_entry h p <> Fault.
Proof.
  unfold decode_entry. destruct (HasMappedBytes p 4) eqn:E1; [|done]. cbn [negb].
  rewrite (HasMappedBytes_load 4) by done. cbv zeta.
  destruct (HasMappedBytes (drop 4 p) 2) eqn:E2; [|done]. cbn [negb].
  rewrite (HasMappedBytes_load 2) by done.
  destruct (HasMappedBytes (drop 2 (drop 4 p)) _) eqn:E3; [|done]. cbn [negb].
  by rewrite HasMappedBytes_bytes.
Qed.

Lemma decode_entry_length h p post prev p' : decode_entry h p = Next post prev p' -> (length p' <= length p)%nat.
Proof.
  unfold decode_entry. destruct (negb _); [done|]. destruct (load 4 p) as [bits|]; [|done]. cbv zeta.
  destruct (negb _); [done|]. destruct (load 2 _) as [len|]; [|done].
  destruct (negb _); [done|]. destruct (load_bytes _ _) as [id|]; [|done].
  intros H. injection H as _ _ <-. rewrite !length_drop. lia.
Qed.

(** A decoder consumes at least one byte of a non-empty region. *)

Class VarintReader (varint : bytes -> Z * bytes) : Prop :=
  varint_consumes c r : (length (varint (c :: r)).2 <= length r)%nat.

#[export] Instance read_varint_reader : VarintReader read_varint.
Proof. intros c r. apply read_varint_length. Qed.

#[export] Instance read_varint_optimized_reader : VarintReader read_varint_optimized.
Proof. intros c r. rewrite read_varint_optimized_eq. apply read_varint_length. Qed.

Section Decode.

Context (varint : bytes -> Z * bytes) `{!VarintReader varint}.

Lemma decode_loop_safe fuel : forall remaining prev p,
  (length p <= fuel)%nat -> exists l, decode_loop varint fuel remaining prev p = Some l.
Proof.
  induction fuel as [|fuel IH]; intros remaining prev [|c r] Hf; cbn [decode_loop]; [by eexists|simpl in Hf; lia|by eexists|].
  destruct (remaining <=? 0); [by eexists|]. unfold decode_posting.
  pose proof (varint_consumes (varint := varint) c r) as Hc. destruct (varint (c :: r)) as [delta p1]. simpl in Hc.
  pose proof (decode_entry_safe (if prev =? 0 then delta else u32 (prev + delta)) p1) as Hsafe.
  destruct (decode_entry _ p1) as [| |post prev' p'] eqn:E; [done|by eexists|].
  apply decode_entry_length in E. simpl in Hf.
  destruct (IH (remaining - 1) prev' p') as [l ->]; [lia|]. by eexists.
Qed.

Lemma decode_postings_safe Data : exists l, decode_postings varint Data = Some l.
Proof.
  unfold decode_postings. destruct (size Data <? 4) eqn:E; [by eexists|]. apply Z.ltb_ge in E.
  rewrite load_some by (unfold size in E; lia). apply decode_loop_safe. rewrite length_drop. lia.
Qed.

End Decode.

Lemma decode_loop_ext v1 v2 : (forall p, v1 p = v2 p) -> forall fuel remaining prev p,
  decode_loop v1 fuel remaining prev p = decode_loop v2 fuel remaining prev p.
Proof.
  intros Hv fuel. induction fuel as [|fuel IH]; intros remaining prev [|c r]; try done. cbn [decode_loop].
  unfold decode_posting. rewrite Hv. destruct (remaining <=? 0); [done|].
  destruct (v2 (c :: r)) as [d p1]. destruct (decode_entry _ p1); try done. by rewrite IH.
Qed.

(** ** Round trip of one posting list *)

Lemma StableHash32_range s : 0 <= StableHash32 s < 2 ^ 32.
Proof.
  unfold StableHash32. assert (0 <= kFnv32Offset < 2 ^ 32) as H by done. revert H.
  generalize kFnv32Offset. induction s as [|c r IH]; intros h H; [done|].
  apply IH. unfold u32. apply Z.mod_pos_bound. lia.
Qed.

Lemma decode_entry_write h e rest :
  size (DocumentID e) <= max_u16 ->
  decode_entry h (le 4 (float32_bits (to_float32 (Score e))) ++ le 2 (size (DocumentID e)) ++ DocumentID e ++ rest) =
  Next (stored e) h rest.
Proof.
  intros Hlen. unfold decode_entry, max_u16 in *.
  rewrite (HasMappedBytes_le 4), load_some by (rewrite length_app, length_le; lia).
  rewrite take_app_length', drop_app_length' by (by rewrite length_le). rewrite of_le_le. cbn [negb]. cbv zeta.
  rewrite (HasMappedBytes_le 2), load_app by (unfold size in *; simpl; lia). cbn [negb].
  rewrite drop_app_length' by (by rewrite length_le).
  assert (HasMappedBytes (DocumentID e ++ rest) (size (DocumentID e)) = true) as H3.
  { unfold HasMappedBytes, size. rewrite length_app. apply Z.leb_le. lia. }
  rewrite H3, HasMappedBytes_bytes by done. cbn [negb]. unfold size. rewrite Nat2Z.id.
  by rewrite take_app_length, drop_app_length.
Qed.

Definition hash_ok (e : Z * Posting) : Prop := 0 <= e.1 < 2 ^ 32 /\ size (DocumentID e.2) <= max_u16.

Lemma delta_roundtrip prev h :
  0 <= prev < 2 ^ 32 -> 0 <= h < 2 ^ 32 ->
  let delta := if prev =? 0 then h else u32 (h - prev) in
  0 <= delta < 2 ^ 32 /\ (if prev =? 0 then delta else u32 (prev + delta)) = h.
Proof.
  intros Hp Hh. simpl. destruct (prev =? 0); [done|]. unfold u32. split; [by apply Z.mod_pos_bound|].
  rewrite Zplus_mod_idemp_r. replace (prev + (h - prev)) with h by lia. by apply Z.mod_small.
Qed.

Lemma write_posting_nonempty prev e rest : write_posting prev e ++ rest <> [].
Proof.
  unfold write_posting, WriteVarint. set (v := if prev =? 0 then _ else _). cbn [varint_loop].
  by destruct (128 <=? v).
Qed.

Lemma decode_loop_write l : forall fuel remaining prev b rest,
  (length l <= fuel)%nat -> remaining = size l -> 0 <= prev < 2 ^ 32 -> Forall hash_ok l ->
  write_postings_loop prev l = Some b ->
  decode_loop read_varint fuel remaining prev (b ++ rest) = Some (stored ∘ snd <$> l).
Proof.
  induction l as [|e l IH]; intros fuel remaining prev b rest Hf -> Hp Hok; simpl.
  - intros [= <-]. simpl. destruct fuel; by destruct rest.
  - apply Forall_cons in Hok as [[Hh Hl] Hok]. destruct (_ <? _); [done|].
    destruct (write_postings_loop e.1 l) as [b'|] eqn:E; [|done]. intros [= <-]. rewrite <- app_assoc.
    destruct fuel as [|fuel]; [simpl in Hf; lia|].
    pose proof (write_posting_nonempty prev e (b' ++ rest)) as Hne.
    destruct (write_posting prev e ++ b' ++ rest) as [|c r] eqn:Ew; [done|]. cbn [decode_loop].
    rewrite (proj2 (Z.leb_gt _ _)) by (unfold size; simpl; lia). rewrite <- Ew. clear Ew.
    unfold decode_posting, write_posting. rewrite <- !app_assoc.
    destruct (delta_roundtrip prev e.1 Hp Hh) as [Hd1 Hd2].
    rewrite read_varint_write by done. rewrite Hd2, decode_entry_write by done.
    rewrite (IH fuel (size (e :: l) - 1) e.1 b' rest); [done|simpl in Hf; lia|unfold size; simpl; lia|done|done|done].
Qed.

Lemma length_write_loop l : forall prev b, write_postings_loop prev l = Some b -> (length l <= length b)%nat.
Proof.
  induction l as [|e l IH]; intros prev b; simpl; [lia|]. destruct (_ <? _); [done|].
  destruct (write_postings_loop e.1 l) as [b'|] eqn:E; [|done]. intros [= <-]. apply IH in E.
  rewrite length_app. unfold write_posting. rewrite !length_app, !length_le. lia.
Qed.

(** The order in which postings are stored and returned. *)

Definition hash_order (ps : list Posting) : list Posting := snd <$> sort_hashed ps.

Lemma sort_hashed_perm ps : sort_hashed ps ≡ₚ hashed <$> ps.
Proof. apply merge_sort_Permutation. Qed.

Lemma sort_hashed_ok ps :
  Forall (fun p => size (DocumentID p) <= max_u16) ps -> Forall hash_ok (sort_hashed ps).
Proof.
  intros H. rewrite sort_hashed_perm. apply Forall_fmap. eapply Forall_impl; [exact H|].
  intros p Hp. split; [apply StableHash32_range|done].
Qed.

Lemma decode_written ps b :
  WritePostings ps = Some b -> Forall (fun p => size (DocumentID p) <= max_u16) ps -> size ps < 2 ^ 32 ->
  DecodePostings b = Some (stored <$> hash_order ps).
Proof.
  unfold WritePostings, DecodePostings, decode_postings. intros Hw Hok Hs.
  destruct ps as [|p ps']; [by injection Hw as <-|]. set (ps := p :: ps') in *.
  destruct (write_postings_loop 0 (sort_hashed ps)) as [b'|] eqn:E; [|done].
  assert (b = le 4 (u32 (size ps)) ++ b') as -> by congruence. clear Hw.
  assert (size ps = Z.of_nat (length (sort_hashed ps))) as Hlen.
  { unfold size. rewrite sort_hashed_perm, length_fmap. done. }
  rewrite (proj2 (Z.ltb_ge (size (le 4 (u32 (size ps)) ++ b')) 4)) by (unfold size; rewrite length_app, length_le; simpl; lia).
  unfold u32. rewrite Z.mod_small by (unfold size in *; lia).
  rewrite load_app by (change (8 * Z.of_nat 4) with 32; unfold size in *; lia). rewrite drop_app_length' by (by rewrite length_le).
  rewrite <- (app_nil_r b') at 2. erewrite decode_loop_write; [|..|exact E].
  - unfold hash_order. by rewrite <- list_fmap_compose.
  - rewrite length_app, length_le. apply length_write_loop in E. lia.
  - done.
  - lia.
  - by apply sort_hashed_ok.
Qed.

Lemma WritePostings_nil ps : WritePostings ps = Some [] -> ps = [].
Proof.
  unfold WritePostings. destruct ps as [|p ps]; [done|]. by destruct (write_postings_loop _ _).
Qed.

Lemma WritePostings_size ps b : WritePostings ps = Some b -> size ps <= size b.
Proof.
  unfold WritePostings. destruct ps as [|p ps']; [by intros [= <-]|]. set (ps := p :: ps').
  destruct (write_postings_loop 0 (sort_hashed ps)) as [b'|] eqn:E; [|done]. intros H.
  assert (b = le 4 (u32 (size ps)) ++ b') as -> by congruence.
  apply length_write_loop in E. rewrite sort_hashed_perm, length_fmap in E.
  unfold size. rewrite length_app. lia.
Qed.

(** ** Comparison of terms *)

Definition str_lt (a b : bytes) : Prop := str_compare a b = Lt.

Definition compare_sign (a b : bytes) : Z :=
  let diff := compare_bytes a b in if diff =? 0 then size a - size b else diff.

Lemma compare_sign_spec a b : (compare_sign a b ?= 0) = str_compare a b.
Proof.
  revert b. induction a as [|x a IH]; intros [|y b]; try done. unfold compare_sign in *. cbn [compare_bytes str_compare].
  destruct (code x - code y =? 0) eqn:E.
  - apply Z.eqb_eq in E. assert (code x = code y) as -> by lia. rewrite Z.compare_refl, <- IH.
    replace (size (x :: a) - size (y :: b)) with (size a - size b) by (unfold size; simpl; lia). done.
  - rewrite E. apply Z.eqb_neq in E. destruct (Z.compare_spec (code x) (code y)); [lia| |];
      [by rewrite (proj2 (Z.compare_lt_iff _ _)) by lia|by rewrite (proj2 (Z.compare_gt_iff _ _)) by lia].
Qed.

Lemma fast_string_compare_spec a b :
  size a < 2 ^ 31 -> size b < 2 ^ 31 -> (fast_string_compare a b ?= 0) = str_compare a b.
Proof.
  intros Ha Hb. rewrite <- compare_sign_spec. unfold fast_string_compare, compare_sign.
  destruct (_ =? 0); [|done]. unfold wrap_int32, size in *. f_equal.
  rewrite !(Z.mod_small (Z.of_nat _ + _)) by lia. rewrite Z.mod_small; lia.
Qed.

(** ** Term map lookups *)

Definition entry_ok (e : bytes * (Z * Z)) : Prop :=
  size e.1 <= max_u16 /\ 0 <= e.2.1 < 2 ^ 64 /\ 0 <= e.2.2 < 2 ^ 32.

Definition entry_of (offs : list (bytes * (Z * Z))) (t : bytes) : TermEntry :=
  let e := find_offset offs t in mkEntry e.1 e.2 0.

Lemma find_offset_cons e offs t : find_offset (e :: offs) t = if bool_decide (e.1 = t) then e.2 else find_offset offs t.
Proof. unfold find_offset. simpl. by destruct (bool_decide (e.1 = t)). Qed.

Lemma find_offset_none offs t : t ∉ offs.*1 -> find_offset offs t = (0, 0).
Proof.
  induction offs as [|e offs IH]; [done|]. rewrite find_offset_cons. cbn. intros Hn.
  rewrite not_elem_of_cons in Hn. destruct Hn as [Hne Hn]. rewrite bool_decide_eq_false_2 by congruence. by apply IH.
Qed.

Lemma find_term_entry fuel remaining T t o n rest :
  entry_ok (t, (o, n)) -> 0 < remaining ->
  find_term_loop (S fuel) remaining T (term_map_entry (t, (o, n)) ++ rest) =
  (if fast_string_compare T t =? 0 then Some (mkEntry o n 0)
   else if fast_string_compare T t <? 0 then Some no_entry
   else find_term_loop fuel (remaining - 1) T rest).
Proof.
  intros (Ht & Ho & Hn) Hr. simpl in Ht, Ho, Hn. unfold max_u16 in Ht.
  destruct (term_map_entry (t, (o, n)) ++ rest) as [|c r] eqn:E; [done|].
  cbn [find_term_loop]. rewrite <- E. clear E c r. unfold term_map_entry. cbn [fst snd]. rewrite <- !app_assoc.
  rewrite (proj2 (Z.leb_gt _ _)) by lia. rewrite (HasMappedBytes_le 2). cbn [negb].
  rewrite load_app by (unfold size in *; simpl; lia). rewrite drop_app_length' by (by rewrite length_le).
  assert (HasMappedBytes (t ++ le 8 o ++ le 4 n ++ rest) (size t + 8 + 4) = true) as ->.
  { unfold HasMappedBytes, size. rewrite !length_app, !length_le. apply Z.leb_le. lia. }
  cbn [negb]. unfold load_bytes.
  rewrite (proj2 (Z.ltb_ge _ _)) by (unfold size; rewrite !length_app; lia).
  replace (Z.to_nat (size t)) with (length t) by (unfold size; lia).
  rewrite take_app_length, drop_app_length. cbv zeta.
  rewrite load_app by done. rewrite drop_app_length' by (by rewrite length_le). rewrite load_app by done.
  rewrite (app_assoc (le 8 o)), drop_app_length' by (by rewrite length_app, !length_le). done.
Qed.

Lemma entry_of_cons_ne e offs T : e.1 <> T -> entry_of (e :: offs) T = entry_of offs T.
Proof. intros H. unfold entry_of. by rewrite find_offset_cons, bool_decide_eq_false_2. Qed.

Lemma entry_of_smaller e offs T :
  str_lt T e.1 -> Forall (str_lt e.1) (offs.*1) -> entry_of (e :: offs) T = no_entry.
Proof.
  intros Hlt Hall. unfold entry_of. rewrite find_offset_none; [done|]. cbn [fmap list_fmap].
  rewrite elem_of_cons. unfold str_lt in *. intros [-> |Hin].
  - by rewrite str_compare_refl in Hlt.
  - rewrite Forall_forall in Hall. specialize (Hall _ Hin).
    pose proof (str_compare_trans _ _ _ Hlt Hall) as H. by rewrite str_compare_refl in H.
Qed.

Lemma find_term_loop_write T : size T < 2 ^ 31 -> forall offs fuel remaining rest,
  (length offs <= fuel)%nat -> remaining = size offs -> Forall entry_ok offs -> StronglySorted str_lt (offs.*1) ->
  find_term_loop fuel remaining T (mjoin (term_map_entry <$> offs) ++ rest) = Some (entry_of offs T).
Proof.
  intros HT. induction offs as [|[t [o n]] offs IH]; intros fuel remaining rest Hf -> Hok Hs.
  { simpl. by destruct fuel, rest. }
  apply Forall_cons in Hok as [He Hok]. apply StronglySorted_inv in Hs as [Hs Hlt].
  destruct fuel as [|fuel]; [simpl in Hf; lia|].
  change (mjoin (term_map_entry <$> (t, (o, n)) :: offs)) with
    (term_map_entry (t, (o, n)) ++ mjoin (term_map_entry <$> offs)).
  rewrite <- app_assoc, find_term_entry by (done || unfold size; simpl; lia).
  assert (size t < 2 ^ 31) as Ht by (destruct He as [Ht _]; simpl in Ht; unfold max_u16 in Ht; lia).
  pose proof (fast_string_compare_spec T t HT Ht) as Hc.
  destruct (fast_string_compare T t =? 0) eqn:E0.
  - apply Z.eqb_eq in E0. rewrite E0 in Hc. symmetry in Hc. apply str_compare_eq in Hc as ->.
    unfold entry_of. by rewrite find_offset_cons, bool_decide_eq_true_2.
  - apply Z.eqb_neq in E0. destruct (fast_string_compare T t <? 0) eqn:E1.
    + apply Z.ltb_lt in E1. rewrite (proj2 (Z.compare_lt_iff _ _)) in Hc by done.
      by rewrite (entry_of_smaller (t, (o, n))).
    + apply Z.ltb_ge in E1. rewrite IH; [|simpl in Hf; lia|unfold size; simpl; lia|done|done].
      rewrite entry_of_cons_ne; [done|]. simpl. intros <-. by rewrite str_compare_refl, Z.compare_eq_iff in Hc.
Qed.

(** Lookups in any term map, written by this program or not, stay inside it. *)

Lemma find_term_loop_safe T fuel : forall remaining p,
  (length p <= fuel)%nat -> exists e, find_term_loop fuel remaining T p = Some e /\ 0 <= PostingsOffset e.
Proof.
  induction fuel as [|fuel IH]; intros remaining [|c r] Hf; cbn [find_term_loop];
    [by eexists|simpl in Hf; lia|by eexists|].
  destruct (remaining <=? 0); [by eexists|]. destruct (HasMappedBytes (c :: r) 2) eqn:E1; [|by eexists]. cbn [negb].
  rewrite (HasMappedBytes_load 2) by done. cbv zeta.
  pose proof (of_le_range (take 2 (c :: r))) as Hr.
  set (len := of_le (take 2 (c :: r))) in *. set (p := drop 2 (c :: r)).
  assert (length p < length (c :: r))%nat as Hp by (unfold p; rewrite length_drop; simpl; lia).
  destruct (HasMappedBytes p (len + 8 + 4)) eqn:E2; [|by eexists]. cbn [negb].
  unfold HasMappedBytes in E2. apply Z.leb_le in E2. unfold size in E2.
  unfold load_bytes. rewrite (proj2 (Z.ltb_ge _ _)) by (unfold size; lia).
  rewrite (load_some 8) by (rewrite length_drop; lia). rewrite (load_some 4) by (rewrite !length_drop; lia).
  destruct (_ =? 0); [eexists; split; [done|apply of_le_range]|]. destruct (_ <? 0); [by eexists|]. apply IH.
  rewrite !length_drop. simpl in *. lia.
Qed.

Lemma FindTerm_safe ix T : exists e, FindTerm ix T = Some e /\ 0 <= PostingsOffset e.
Proof.
  unfold FindTerm, FindTermOptimized. destruct (negb (Valid ix)); [by eexists|]. cbn [orb].
  destruct (bool_decide (T = [])); [by eexists|]. destruct (4 <? _); [|by eexists].
  cbn [orb]. destruct (_ <=? 4); [by eexists|]. apply find_term_loop_safe. rewrite length_drop. lia.
Qed.

(** ** The sorted term list *)

#[export] Instance str_le_total : Total str_le.
Proof.
  intros a b. unfold str_le, str_leb. rewrite (str_compare_antisym a b). destruct (str_compare a b); simpl; auto.
Qed.

#[export] Instance str_le_trans : Transitive str_le.
Proof.
  intros a b c. unfold str_le, str_leb. destruct (str_compare a b) eqn:E1; [|..|done].
  - apply str_compare_eq in E1 as ->. done.
  - destruct (str_compare b c) eqn:E2; [|..|done].
    + apply str_compare_eq in E2 as <-. by rewrite E1.
    + by rewrite (str_compare_trans _ _ _ E1 E2).
Qed.

Lemma strictly_sorted l : NoDup l -> StronglySorted str_le l -> StronglySorted str_lt l.
Proof.
  induction l as [|a l IH]; intros Hnd Hs; [constructor|].
  apply NoDup_cons in Hnd as [Ha Hnd]. apply StronglySorted_inv in Hs as [Hs Hall]. constructor; [by apply IH|].
  rewrite Forall_forall in *. intros b Hb. specialize (Hall b Hb). unfold str_le, str_leb, str_lt in *.
  destruct (str_compare a b) eqn:E; try done. apply str_compare_eq in E as ->. done.
Qed.

Section Terms.

Context (m : gmap bytes (list Posting)).

Lemma sorted_terms_perm : sorted_terms m ≡ₚ (map_to_list m).*1.
Proof. apply merge_sort_Permutation. Qed.

Lemma elem_of_sorted_terms t : t ∈ sorted_terms m <-> is_Some (m !! t).
Proof.
  rewrite sorted_terms_perm, list_elem_of_fmap. split.
  - intros ([t' ps] & -> & H). apply elem_of_map_to_list in H. eauto.
  - intros [ps H]. exists (t, ps). split; [done|]. by apply elem_of_map_to_list.
Qed.

Lemma sorted_terms_strict : StronglySorted str_lt (sorted_terms m).
Proof.
  apply strictly_sorted.
  - rewrite sorted_terms_perm. apply NoDup_fst_map_to_list.
  - apply StronglySorted_merge_sort; apply _.
Qed.

Lemma size_sorted_terms : size (sorted_terms m) = Z.of_nat (base.size m).
Proof. unfold size. rewrite sorted_terms_perm, length_fmap, length_map_to_list. done. Qed.

(** The empty term precedes every other. *)

Lemma empty_term_first : is_Some (m !! []) -> exists r, sorted_terms m = [] :: r.
Proof.
  intros H. apply elem_of_sorted_terms in H. pose proof sorted_terms_strict as Hs.
  destruct (sorted_terms m) as [|t r]; [by apply not_elem_of_nil in H|].
  apply elem_of_cons in H as [<- |H]; [by eexists|].
  apply StronglySorted_inv in Hs as [_ Hall]. rewrite Forall_forall in Hall. specialize (Hall [] H).
  unfold str_lt in Hall. by destruct t.
Qed.

(** ** The postings buffer *)

Lemma postings_buffer_spec Terms : forall cur b offs,
  postings_buffer m cur Terms = Some (b, offs) -> (forall t, t ∈ Terms -> is_Some (m !! t)) ->
  offs.*1 = Terms /\
  (forall t, t ∈ Terms -> exists ps bt pre post, m !! t = Some ps /\ WritePostings ps = Some bt /\
     b = pre ++ bt ++ post /\ find_offset offs t = (cur + size pre, u32 (size bt))).
Proof.
  induction Terms as [|t r IH]; intros cur b offs; cbn [postings_buffer].
  { intros [= <- <-] _. split; [done|]. intros t Ht. by apply not_elem_of_nil in Ht. }
  intros H Hin. destruct (Hin t) as [ps Hps]; [by left|]. rewrite Hps in H.
  destruct (WritePostings ps) as [bt|] eqn:Ew; [|done].
  destruct (postings_buffer m (cur + size bt) r) as [[bs offs']|] eqn:E; [|done].
  assert (b = bt ++ bs) as -> by congruence.
  assert (offs = (t, (cur, u32 (size bt))) :: offs') as -> by congruence.
  apply IH in E as [Ho Hr]; [|intros; apply Hin; by right]. split; [cbn; by rewrite Ho|].
  intros t' Ht'. rewrite find_offset_cons. cbn [fst snd]. destruct (bool_decide (t = t')) eqn:Et.
  - apply bool_decide_eq_true in Et as <-. exists ps, bt, [], bs. split_and!; try done. f_equal. unfold size. simpl. lia.
  - apply bool_decide_eq_false in Et. apply elem_of_cons in Ht' as [-> |Ht']; [done|].
    destruct (Hr t' Ht') as (ps' & bt' & pre & post & H1 & H2 & -> & H4).
    exists ps', bt', (bt ++ pre), post. rewrite H4. split_and!; try done; [by rewrite <- app_assoc|].
    f_equal. unfold size. rewrite length_app. lia.
Qed.

Lemma postings_buffer_ok Terms : forall cur b offs,
  postings_buffer m cur Terms = Some (b, offs) -> 0 <= cur ->
  Forall (fun e => 0 <= e.2.1 <= cur + size b /\ 0 <= e.2.2 < 2 ^ 32) offs.
Proof.
  induction Terms as [|t r IH]; intros cur b offs; cbn [postings_buffer]; [by intros [= <- <-]|].
  destruct (m !! t) as [ps|]; [|apply IH]. destruct (WritePostings ps) as [bt|]; [|done].
  destruct (postings_buffer m (cur + size bt) r) as [[bs offs']|] eqn:E; [|done]. intros H Hc.
  assert (b = bt ++ bs) as -> by congruence.
  assert (offs = (t, (cur, u32 (size bt))) :: offs') as -> by congruence.
  assert (size (bt ++ bs) = size bt + size bs) as Hs by (unfold size; rewrite length_app; lia).
  constructor.
  - cbn. split; [unfold size in *; lia|]. unfold u32. by apply Z.mod_pos_bound.
  - rewrite Hs. apply IH in E; [|unfold size; lia]. eapply Forall_impl; [exact E|]. cbn. intros e. lia.
Qed.

Lemma WritePostings_some ps :
  Forall (fun p => size (DocumentID p) <= max_u16) ps -> exists b, WritePostings ps = Some b.
Proof.
  intros Hok. unfold WritePostings. destruct ps as [|p ps']; [by eexists|].
  apply sort_hashed_ok in Hok. revert Hok. generalize (sort_hashed (p :: ps')), 0. intros l.
  intros prev Hok. assert (exists b, write_postings_loop prev l = Some b) as [b ->]; [|by eexists].
  revert prev. induction Hok as [|e l [_ He] _ IH]; intros prev; [by eexists|]. simpl.
  rewrite (proj2 (Z.ltb_ge _ _)) by done. destruct (IH e.1) as [b ->]. by eexists.
Qed.

Lemma lengths_ok_spec Terms :
  lengths_ok m Terms = true -> forall t, t ∈ Terms ->
  size t <= max_u16 /\ (forall ps, m !! t = Some ps -> Forall (fun p => size (DocumentID p) <= max_u16) ps).
Proof.
  unfold lengths_ok. rewrite forallb_forall. intros H t Ht. apply list_elem_of_In, H, andb_true_iff in Ht as [H1 H2].
  split; [by apply Z.leb_le|]. intros ps Hps. rewrite Hps, forallb_forall in H2. apply Forall_forall.
  intros p Hp. apply Z.leb_le, H2. by apply list_elem_of_In.
Qed.

Lemma postings_buffer_some Terms : lengths_ok m Terms = true -> forall cur, exists r, postings_buffer m cur Terms = Some r.
Proof.
  intros Hok. pose proof (lengths_ok_spec _ Hok) as Hsp. clear Hok.
  induction Terms as [|t r IH]; intros cur; cbn [postings_buffer]; [by eexists|].
  assert (forall c, exists x, postings_buffer m c r = Some x) as IH' by (apply IH; intros; apply Hsp; by right).
  destruct (m !! t) as [ps|] eqn:E; [|apply IH'].
  destruct (WritePostings_some ps) as [b ->]; [eapply Hsp; [by left|done]|].
  destruct (IH' (cur + size b)) as [[bs offs] ->]. by eexists.
Qed.

End Terms.

(** ** Writing, loading and looking up *)

Definition files_fit (files : index_files) : Prop :=
  Forall (fun f => match f with Some b => size b < 2 ^ 32 | None => True end)
    [terms_bin files; term_map_bin files; term_index_bin files; postings_bin files].

Lemma files_fit_some a b c d :
  files_fit (mkFiles (Some a) (Some b) (Some c) (Some d)) ->
  size a < 2 ^ 32 /\ size b < 2 ^ 32 /\ size c < 2 ^ 32 /\ size d < 2 ^ 32.
Proof. unfold files_fit. rewrite !Forall_cons. tauto. Qed.

Lemma size_written Magic Payload :
  length Magic = 8%nat -> size (WriteMMapFile Magic Payload) = 40 + size Payload.
Proof. intros H. rewrite WriteMMapFile_envelope. unfold size. rewrite length_envelope by done. lia. Qed.

Lemma map_written Magic Payload :
  length Magic = 8%nat -> size (WriteMMapFile Magic Payload) < 2 ^ 32 ->
  map_file (WriteMMapFile Magic Payload) Magic = Some Payload.
Proof.
  intros HM Hs. rewrite size_written in Hs by done. unfold map_file.
  destruct (WriteMMapFile Magic Payload) as [|c r] eqn:E.
  - apply (f_equal size) in E. rewrite size_written in E by done. unfold size in E. simpl in E. lia.
  - rewrite <- E. apply validate_roundtrip; [done|lia].
Qed.

Lemma length_entries (offs : list (bytes * (Z * Z))) : (length offs <= length (mjoin (term_map_entry <$> offs)))%nat.
Proof.
  induction offs as [|e offs IH]; [done|].
  change (mjoin (term_map_entry <$> e :: offs)) with (term_map_entry e ++ mjoin (term_map_entry <$> offs)).
  rewrite length_app. unfold term_map_entry at 1. rewrite !length_app, !length_le. simpl length at 1. lia.
Qed.

(** The state a freshly written index is mapped to. *)

Definition written_index (m : gmap bytes (list Posting)) (pb : bytes) (offs : list (bytes * (Z * Z))) : mapped_index :=
  let Terms := sorted_terms m in
  mkIndex (terms_buffer Terms) (term_map_buffer Terms offs) (Some (term_index_buffer Terms offs)) pb (size Terms) 16 true.

Section Refinement.

Context (m : gmap bytes (list Posting)) (pb : bytes) (offs : list (bytes * (Z * Z))).

Hypothesis Hlen : lengths_ok m (sorted_terms m) = true.
Hypothesis Hpb : postings_buffer m 0 (sorted_terms m) = Some (pb, offs).
Hypothesis Hfit_map : size (term_map_buffer (sorted_terms m) offs) < 2 ^ 32.
Hypothesis Hfit_pb : size pb < 2 ^ 32.

Lemma written_offs : offs.*1 = sorted_terms m.
Proof. eapply postings_buffer_spec in Hpb as [H _]; [done|]. intros t. by rewrite elem_of_sorted_terms. Qed.

Lemma size_offs : size offs = size (sorted_terms m).
Proof. rewrite <- written_offs. unfold size. by rewrite length_fmap. Qed.

Lemma term_count_fits : 0 <= size (sorted_terms m) < 2 ^ 32.
Proof.
  rewrite <- size_offs. pose proof (length_entries offs). unfold term_map_buffer, size in *.
  rewrite length_app in Hfit_map. lia.
Qed.

Lemma written_entries_ok : Forall entry_ok offs.
Proof.
  pose proof (postings_buffer_ok _ _ _ _ _ Hpb ltac:(lia)) as Hok. rewrite Forall_forall in Hok |- *.
  intros e He. destruct (Hok e He) as [[Ho1 Ho2] Hl]. split_and!; [|done|lia|lia|lia].
  apply (lengths_ok_spec m _ Hlen). rewrite <- written_offs. by apply list_elem_of_fmap_2.
Qed.

Lemma FindTerm_written T :
  T <> [] -> size T < 2 ^ 31 -> FindTerm (written_index m pb offs) T = Some (entry_of offs T).
Proof.
  intros HT HsT. unfold FindTerm, FindTermOptimized. cbn [Valid written_index TermMapData TermCount negb].
  rewrite bool_decide_eq_false_2 by done. cbn [orb].
  assert (drop 4 (term_map_buffer (sorted_terms m) offs) = mjoin (term_map_entry <$> offs)) as Hd.
  { unfold term_map_buffer. apply drop_app_length'. by rewrite length_le. }
  assert (length (term_map_buffer (sorted_terms m) offs) = 4 + length (mjoin (term_map_entry <$> offs)))%nat as Hl.
  { unfold term_map_buffer. by rewrite length_app, length_le. }
  destruct (4 <? size (term_map_buffer (sorted_terms m) offs)) eqn:E.
  - rewrite (proj2 (Z.leb_gt _ _)) by (by apply Z.ltb_lt in E). rewrite Hd.
    rewrite <- (app_nil_r (mjoin _)). apply find_term_loop_write; [done| |by rewrite size_offs|apply written_entries_ok|].
    + pose proof (length_entries offs). lia.
    + rewrite written_offs. apply sorted_terms_strict.
  - apply Z.ltb_ge in E. pose proof (length_entries offs). unfold size in E.
    destruct offs as [|e offs']; [done|]. simpl in *. lia.
Qed.

Lemma SearchTerm_written T :
  T <> [] -> size T < 2 ^ 31 ->
  SearchTerm (written_index m pb offs) T = Some (stored <$> hash_order (default [] (m !! T))).
Proof.
  intros HT HsT. unfold SearchTerm. cbn [Valid written_index negb]. rewrite FindTerm_written by done.
  cbn [PostingsData written_index]. destruct (decide (T ∈ sorted_terms m)) as [Hin|Hin].
  - eapply postings_buffer_spec in Hpb as [_ Hsp]; [|intros t; by rewrite elem_of_sorted_terms].
    destruct (Hsp T Hin) as (ps & bt & pre & post & Hm & Hw & Hb & Hf).
    destruct (lengths_ok_spec m _ Hlen T Hin) as [_ Hids]. specialize (Hids ps Hm). rewrite Hm. change (default [] (Some ps)) with ps.
    assert (size pb = size pre + size bt + size post) as Hsz by (rewrite Hb; unfold size; rewrite !length_app; lia).
    assert (u32 (size bt) = size bt) as Hu by (unfold u32; apply Z.mod_small; unfold size in *; lia).
    unfold entry_of. rewrite Hf, Hu. cbn [fst snd PostingsLength PostingsOffset].
    destruct (size bt =? 0) eqn:E0.
    + apply Z.eqb_eq in E0. destruct bt; [|done]. apply WritePostings_nil in Hw as ->. done.
    + assert (0 <= size pre /\ 0 <= size bt /\ 0 <= size post) as (? & ? & ?) by (unfold size; lia).
      rewrite (proj2 (Z.ltb_ge (size pb) (0 + size pre))) by lia.
      rewrite (proj2 (Z.ltb_ge (size pb - (0 + size pre)) (size bt))) by lia. cbn [orb].
      assert (Z.to_nat (0 + size pre) = length pre) as -> by (unfold size; lia).
      rewrite Hb, drop_app_length. unfold load_bytes.
      rewrite (proj2 (Z.ltb_ge _ _)) by (unfold size; rewrite !length_app; lia).
      assert (Z.to_nat (size bt) = length bt) as -> by (unfold size; lia). rewrite take_app_length.
      apply decode_written; [done|done|]. apply WritePostings_size in Hw. lia.
  - unfold entry_of. rewrite find_offset_none by (by rewrite written_offs).
    rewrite elem_of_sorted_terms in Hin. apply eq_None_not_Some in Hin. by rewrite Hin.
Qed.

End Refinement.

Lemma load_written m pb offs :
  postings_buffer m 0 (sorted_terms m) = Some (pb, offs) ->
  let Terms := sorted_terms m in
  let files := mkFiles (Some (WriteMMapFile kTermsMagic (terms_buffer Terms)))
                 (Some (WriteMMapFile kTermMapMagic (term_map_buffer Terms offs)))
                 (Some (WriteMMapFile kTermIndexMagic (term_index_buffer Terms offs)))
                 (Some (WriteMMapFile kPostingsMagic pb)) in
  files_fit files -> LoadIndex files = Some (written_index m pb offs).
Proof.
  intros Hpb Terms files (F1 & F2 & F3 & F4)%files_fit_some.
  assert (0 <= size Terms < 2 ^ 32) as Hc.
  { apply (term_count_fits m pb offs Hpb). rewrite size_written in F2 by done. unfold Terms in F2. lia. }
  unfold LoadIndex. cbn [terms_bin term_map_bin term_index_bin postings_bin files].
  rewrite !map_written by done.
  assert (size (term_map_buffer Terms offs) <? 4 = false) as ->.
  { apply Z.ltb_ge. unfold term_map_buffer, size. rewrite length_app, length_le. lia. }
  assert (load 4 (term_map_buffer Terms offs) = Some (size Terms)) as ->.
  { unfold term_map_buffer, u32. rewrite Z.mod_small by done. by apply load_app. }
  assert (load_term_index (Some (WriteMMapFile kTermIndexMagic (term_index_buffer Terms offs))) =
          Some (Some (term_index_buffer Terms offs), 16)) as ->; [|done].
  pose proof (map_written kTermIndexMagic (term_index_buffer Terms offs) eq_refl F3) as Hm. unfold map_file in Hm.
  unfold load_term_index. destruct (WriteMMapFile kTermIndexMagic _) as [|c r]; [done|]. rewrite Hm.
  rewrite (proj2 (Z.ltb_ge _ _)).
  - unfold term_index_buffer. rewrite drop_app_length' by (by rewrite length_le). by rewrite load_app.
  - unfold term_index_buffer, size. rewrite !length_app, !length_le. lia.
Qed.

Lemma WriteIndex_inv IndexData C m files :
  IndexData !! C = Some m -> WriteIndex IndexData C = Some files ->
  exists pb offs, lengths_ok m (sorted_terms m) = true /\ postings_buffer m 0 (sorted_terms m) = Some (pb, offs) /\
    files = mkFiles (Some (WriteMMapFile kTermsMagic (terms_buffer (sorted_terms m))))
              (Some (WriteMMapFile kTermMapMagic (term_map_buffer (sorted_terms m) offs)))
              (Some (WriteMMapFile kTermIndexMagic (term_index_buffer (sorted_terms m) offs)))
              (Some (WriteMMapFile kPostingsMagic pb)).
Proof.
  intros Hm. unfold WriteIndex. rewrite Hm. cbv zeta. destruct (lengths_ok m (sorted_terms m)) eqn:El; [|done]. cbn [negb].
  destruct (postings_buffer m 0 (sorted_terms m)) as [[pb offs]|] eqn:Ep; [|done]. intros H. exists pb, offs.
  split_and!; [done..|congruence].
Qed.

(** ** Walks over the written terms *)

Definition nul_free (m : gmap bytes (list Posting)) : Prop := forall t, is_Some (m !! t) -> NUL ∉ t.

Lemma ReadMappedTerm_app t rest : NUL ∉ t -> ReadMappedTerm (t ++ NUL :: rest) = Some t.
Proof.
  intros Hn. unfold ReadMappedTerm.
  assert (find_char (fun c => bool_decide (c = NUL)) (t ++ NUL :: rest) = Some (length t)) as Hf.
  { induction t as [|c t IH]; [done|]. apply not_elem_of_cons in Hn as [Hc Hn]. simpl.
    rewrite bool_decide_eq_false_2 by congruence. by rewrite IH. }
  destruct (t ++ NUL :: rest) eqn:E; [by destruct t|]. rewrite Hf, <- E. by rewrite take_app_length.
Qed.

Lemma terms_buffer_cons t r : terms_buffer (t :: r) = t ++ NUL :: terms_buffer r.
Proof. unfold terms_buffer. cbn. by rewrite <- app_assoc. Qed.

Lemma drop_term t r : drop (length t + 1) (t ++ NUL :: terms_buffer r) = terms_buffer r.
Proof. rewrite Nat.add_comm, <- drop_drop, (cons_middle NUL t), app_assoc. rewrite drop_drop. apply drop_app_length'. rewrite length_app. simpl. lia. Qed.

Section Walks.

Context (m : gmap bytes (list Posting)) (ix : mapped_index).

Definition found (t : bytes) : list Posting := stored <$> hash_order (default [] (m !! t)).

Hypothesis Hsearch : forall t, t <> [] -> is_Some (m !! t) -> SearchTerm ix t = Some (found t).

Lemma scan_loop_terms selects Terms : forall fuel tbl,
  (forall t, t ∈ Terms -> NUL ∉ t /\ is_Some (m !! t) /\ (selects t = true -> t <> [])) ->
  (length (terms_buffer Terms) <= fuel)%nat ->
  scan_loop fuel ix selects (terms_buffer Terms) tbl =
  Some (fold_left add_posting (t ← List.filter selects Terms; found t) tbl).
Proof.
  induction Terms as [|t r IH]; intros fuel tbl Hok Hf; [by destruct fuel|].
  destruct (Hok t) as (Hn & Hm & Hne); [by left|]. rewrite terms_buffer_cons in *.
  destruct fuel as [|fuel]; [rewrite length_app in Hf; simpl in Hf; lia|].
  destruct (t ++ NUL :: terms_buffer r) as [|c s] eqn:E; [by destruct t|]. cbn [scan_loop]. rewrite <- E in *.
  rewrite ReadMappedTerm_app, drop_term by done. rewrite length_app in Hf. simpl in Hf. simpl.
  assert (forall t', t' ∈ r -> NUL ∉ t' /\ is_Some (m !! t') /\ (selects t' = true -> t' <> [])) as Hok'
    by (intros; apply Hok; by right).
  destruct (selects t) eqn:Es; simpl.
  - rewrite Hsearch by auto. rewrite IH by (done || lia). by rewrite fold_left_app.
  - by rewrite IH by (done || lia).
Qed.

Lemma count_loop_terms Terms : forall fuel ids,
  (forall t, t ∈ Terms -> NUL ∉ t /\ is_Some (m !! t) /\ t <> []) ->
  (length (terms_buffer Terms) <= fuel)%nat ->
  count_loop fuel ix (terms_buffer Terms) ids = Some (add_ids ids (t ← Terms; found t)).
Proof.
  induction Terms as [|t r IH]; intros fuel ids Hok Hf; [by destruct fuel|].
  destruct (Hok t) as (Hn & Hm & Hne); [by left|]. rewrite terms_buffer_cons in *.
  destruct fuel as [|fuel]; [rewrite length_app in Hf; simpl in Hf; lia|].
  destruct (t ++ NUL :: terms_buffer r) as [|c s] eqn:E; [by destruct t|]. cbn [count_loop]. rewrite <- E in *.
  rewrite ReadMappedTerm_app, drop_term by done. rewrite length_app in Hf. simpl in Hf.
  rewrite bool_decide_eq_false_2, Hsearch by done.
  rewrite IH; [|intros; apply Hok; by right|lia]. simpl. unfold add_ids. by rewrite fold_left_app.
Qed.

End Walks.

(** ** Score tables *)

Definition keyed (tbl : gmap bytes Posting) : Prop := forall d p, tbl !! d = Some p -> DocumentID p = d.

Lemma add_posting_keyed tbl p : keyed tbl -> keyed (add_posting tbl p).
Proof.
  intros Hk d q. unfold add_posting. destruct (tbl !! DocumentID p) as [It|] eqn:E;
    rewrite lookup_insert_Some; intros [[<- <-]|[_ Hq]]; simpl; auto.
Qed.

Lemma dom_add_posting tbl p : dom (add_posting tbl p) = {[DocumentID p]} ∪ dom tbl.
Proof.
  unfold add_posting. destruct (tbl !! DocumentID p) as [It|] eqn:E; by rewrite dom_insert_L.
Qed.

Lemma table_spec ps : forall tbl,
  keyed tbl -> keyed (fold_left add_posting ps tbl) /\
  dom (fold_left add_posting ps tbl) = list_to_set (DocumentID <$> ps) ∪ dom tbl.
Proof.
  induction ps as [|p ps IH]; intros tbl Hk; simpl; [split; [done|set_solver]|].
  destruct (IH (add_posting tbl p)) as [H1 H2]; [by apply add_posting_keyed|]. split; [done|].
  rewrite H2, dom_add_posting. set_solver.
Qed.

Lemma rank_all tbl : keyed tbl ->
  NoDup (DocumentID <$> rank 0 tbl) /\ forall d, d ∈ DocumentID <$> rank 0 tbl <-> d ∈ dom tbl.
Proof.
  intros Hk. unfold rank. simpl.
  assert (DocumentID <$> merge_sort score_ge (map_to_list tbl).*2 ≡ₚ (map_to_list tbl).*1) as Hp.
  { rewrite merge_sort_Permutation, <- list_fmap_compose. apply Permutation_refl'. apply list_fmap_ext.
    intros i [d p] Hi. simpl. apply Hk, elem_of_map_to_list, list_elem_of_lookup. by exists i. }
  split; [rewrite Hp; apply NoDup_fst_map_to_list|]. intros d. rewrite Hp, elem_of_dom, list_elem_of_fmap. split.
  - intros ([d' p] & -> & Hi). apply elem_of_map_to_list in Hi. eauto.
  - intros [p Hd]. exists (d, p). split; [done|]. by apply elem_of_map_to_list.
Qed.

Lemma elem_of_hash_order p ps : p ∈ hash_order ps <-> p ∈ ps.
Proof.
  unfold hash_order. rewrite sort_hashed_perm, <- list_fmap_compose. by rewrite list_fmap_id.
Qed.

(** The documents of the selected terms. *)

Definition listed_under (m : gmap bytes (list Posting)) (selects : bytes -> bool) (d : bytes) : Prop :=
  exists t ps p, m !! t = Some ps /\ selects t = true /\ p ∈ ps /\ DocumentID p = d.

Lemma found_ids m selects d :
  d ∈ DocumentID <$> (t ← List.filter selects (sorted_terms m); found m t) <-> listed_under m selects d.
Proof.
  rewrite list_elem_of_fmap. setoid_rewrite list_elem_of_bind. unfold listed_under. split.
  - intros (p & -> & t & Hp & Ht). apply list_elem_of_In, filter_In in Ht as [Ht Hs].
    apply list_elem_of_In, elem_of_sorted_terms in Ht as [ps Hm]. unfold found in Hp. rewrite Hm in Hp.
    apply list_elem_of_fmap in Hp as (q & -> & Hq). apply (proj1 (elem_of_hash_order _ _)) in Hq. exists t, ps, q. split_and!; [done|done|exact Hq|done].
  - intros (t & ps & p & Hm & Hs & Hp & <-). exists (stored p). split; [done|]. exists t. split.
    + unfold found. rewrite Hm. by apply list_elem_of_fmap_2, elem_of_hash_order.
    + apply list_elem_of_In, filter_In. split; [|done]. apply list_elem_of_In, elem_of_sorted_terms. eauto.
Qed.

(** A search that selects only non-empty terms. *)

Lemma search_with_written m pb offs key selects :
  lengths_ok m (sorted_terms m) = true -> postings_buffer m 0 (sorted_terms m) = Some (pb, offs) ->
  size (term_map_buffer (sorted_terms m) offs) < 2 ^ 32 -> size pb < 2 ^ 32 ->
  nul_free m -> key <> [] -> (is_Some (m !! []) -> selects [] = false) ->
  exists res, NoDup (DocumentID <$> res) /\ (forall d, d ∈ DocumentID <$> res <-> listed_under m selects d) /\
    forall LimitVal, search_with (written_index m pb offs) key selects LimitVal =
      Some (if 0 <? LimitVal then take (Z.to_nat LimitVal) res else res).
Proof.
  intros Hlen Hpb F2 F4 Hnul Hkey Hemp.
  set (tbl := fold_left add_posting (t ← List.filter selects (sorted_terms m); found m t) ∅).
  destruct (table_spec (t ← List.filter selects (sorted_terms m); found m t) ∅) as [Hk Hd];
    [by intros d p; rewrite lookup_empty|]. fold tbl in Hk, Hd.
  exists (rank 0 tbl). destruct (rank_all tbl Hk) as [Hnd Hin]. split; [done|]. split.
  - intros d. rewrite Hin, Hd, dom_empty_L, union_empty_r_L, elem_of_list_to_set. apply found_ids.
  - intros LimitVal. unfold search_with. cbn [Valid written_index negb]. rewrite bool_decide_eq_false_2 by done. cbn [orb].
    unfold scan_terms. cbn [TermsData written_index].
    rewrite (scan_loop_terms m _) with (Terms := sorted_terms m); [done| | |done].
    + intros t Ht [ps Hm]. apply SearchTerm_written; [done..|].
      destruct (lengths_ok_spec m _ Hlen t) as [Hs _]; [apply elem_of_sorted_terms; eauto|]. unfold max_u16 in Hs. lia.
    + intros t Ht. apply elem_of_sorted_terms in Ht. split_and!; [by apply Hnul|done|].
      intros Hs ->. by rewrite Hemp in Hs.
Qed.

(** ** Properties *)

(** C1. The index on disk refines the term map it was written from: the files
    load, and for every non-empty term [SearchTerm] returns exactly the postings
    of that term, in hash order and with the score rounded to a [float]; a term
    that is not in the map has no postings. *)
Theorem index_refinement (IndexData : gmap bytes (gmap bytes (list Posting))) (C : bytes)
    (m : gmap bytes (list Posting)) (files : index_files) :
  IndexData !! C = Some m -> WriteIndex IndexData C = Some files -> files_fit files ->
  exists ix, LoadIndex files = Some ix /\ TermCount ix = Z.of_nat (base.size m) /\
    forall T, T <> [] -> size T < 2 ^ 31 ->
      SearchTerm ix T = Some (stored <$> hash_order (default [] (m !! T))).
Proof.
  intros Hm Hw Hfit. destruct (WriteIndex_inv _ _ _ _ Hm Hw) as (pb & offs & Hlen & Hpb & ->).
  exists (written_index m pb offs). split; [by apply load_written|]. split; [apply size_sorted_terms|].
  apply files_fit_some in Hfit as (_ & F2 & _ & F4).
  rewrite size_written in F2, F4 by done. intros T HT HsT.
  apply SearchTerm_written; try done; unfold size in *; lia.
Qed.

(** A posting list survives its encoding: decoding what [WritePostings]
    wrote gives the postings back, sorted by document hash, none lost and none
    invented. *)
Theorem postings_roundtrip (ps : list Posting) :
  Forall (fun p => size (DocumentID p) <= max_u16) ps -> size ps < 2 ^ 32 ->
  exists b, WritePostings ps = Some b /\ DecodePostings b = Some (stored <$> hash_order ps) /\
            hash_order ps ≡ₚ ps.
Proof.
  intros Hok Hs. destruct (WritePostings_some ps Hok) as [b Hb]. exists b. split; [done|].
  split; [by apply decode_written|]. unfold hash_order. rewrite sort_hashed_perm, <- list_fmap_compose.
  by rewrite list_fmap_id.
Qed.

Lemma decode_postings_optimized Data : decode_postings read_varint_optimized Data = DecodePostings Data.
Proof.
  unfold DecodePostings, decode_postings. destruct (_ <? _); [done|].
  destruct (load 4 Data); [|done]. apply decode_loop_ext. apply read_varint_optimized_eq.
Qed.

(** C31. Decoding is memory safe and terminates on any bytes whatever, corrupt
    postings included: it delivers a list and never reads past the region. The
    fast decoder returns the same list as the plain one, unless the allocator
    refuses the number of postings that the data announces, which is then an
    exception; with room for every count it always returns it. *)
Theorem DecodePostings_safe (Data : bytes) :
  (exists l, DecodePostings Data = Some l) /\
  (forall Available, DecodePostingsOptimized Available Data =
     if (4 <=? size Data) && negb (Available (announced Data)) then Some (Err #"std::bad_alloc") else Ok <$> DecodePostings Data) /\
  DecodePostingsOptimized (fun _ => true) Data = Ok <$> DecodePostings Data.
Proof.
  split; [apply (decode_postings_safe read_varint)|]. rewrite <- decode_postings_optimized. split; [done|].
  unfold DecodePostingsOptimized. by rewrite andb_false_r.
Qed.

(** Eight bytes may announce more postings than any memory holds. *)

Example announced_without_bounds :
  announced (replicate 8 (chr 255)) = 2 ^ 32 - 1 /\ DecodePostings (replicate 8 (chr 255)) = Some [].
Proof. vm_compute. by split. Qed.

(** Term lookups are memory safe and terminate on any mapped contents,
    corrupt term maps and postings included. *)
Theorem SearchTerm_safe (ix : mapped_index) (T : bytes) : exists l, SearchTerm ix T = Some l.
Proof.
  unfold SearchTerm. destruct (Valid ix); [|by eexists]. cbn [negb].
  destruct (FindTerm_safe ix T) as (e & -> & He). destruct (_ =? 0); [by eexists|].
  destruct (size (PostingsData ix) <? PostingsOffset e) eqn:E1; [by eexists|].
  destruct (_ <? PostingsLength e) eqn:E2; [by eexists|]. cbn [orb]. apply Z.ltb_ge in E1, E2. unfold load_bytes.
  rewrite (proj2 (Z.ltb_ge _ _)); [apply (decode_postings_safe read_varint)|].
  unfold size in *. rewrite length_drop. lia.
Qed.

(** Prefix search on a written index, for terms without NUL bytes: it
    returns each document that some term with the prefix lists, once, and no
    other; a positive limit keeps the front of that list. *)
Theorem index_prefix_search (IndexData : gmap bytes (gmap bytes (list Posting))) (C : bytes)
    (m : gmap bytes (list Posting)) (files : index_files) (PrefixValue : bytes) :
  IndexData !! C = Some m -> WriteIndex IndexData C = Some files -> files_fit files -> nul_free m ->
  PrefixValue <> [] ->
  exists ix res, LoadIndex files = Some ix /\ NoDup (DocumentID <$> res) /\
    (forall d, d ∈ DocumentID <$> res <-> listed_under m (has_prefix PrefixValue) d) /\
    forall LimitVal, SearchPrefix ix PrefixValue LimitVal =
      Some (if 0 <? LimitVal then take (Z.to_nat LimitVal) res else res).
Proof.
  intros Hm Hw Hfit Hnul Hp. destruct (WriteIndex_inv _ _ _ _ Hm Hw) as (pb & offs & Hlen & Hpb & ->).
  pose proof (load_written m pb offs Hpb Hfit) as Hload.
  apply files_fit_some in Hfit as (_ & F2 & _ & F4). rewrite size_written in F2, F4 by done.
  destruct (search_with_written m pb offs PrefixValue (has_prefix PrefixValue)) as (res & H1 & H2 & H3);
    [done|done|lia|lia|done|done|by destruct PrefixValue|].
  by exists (written_index m pb offs), res.
Qed.

(** Wildcard search on a written index, for non-empty terms without NUL
    bytes: it returns each document that some matching term lists, once, and no
    other, where a term matches when [Wildcard::Match] says so. *)
Theorem index_wildcard_search (IndexData : gmap bytes (gmap bytes (list Posting))) (C : bytes)
    (m : gmap bytes (list Posting)) (files : index_files) (PatternValue : bytes) :
  IndexData !! C = Some m -> WriteIndex IndexData C = Some files -> files_fit files -> nul_free m ->
  m !! [] = None -> PatternValue <> [] ->
  exists ix res, LoadIndex files = Some ix /\ NoDup (DocumentID <$> res) /\
    (forall d, d ∈ DocumentID <$> res <-> listed_under m (fun t => Wildcard.Match t PatternValue) d) /\
    forall LimitVal, SearchWildcard ix PatternValue LimitVal =
      Some (if 0 <? LimitVal then take (Z.to_nat LimitVal) res else res).
Proof.
  intros Hm Hw Hfit Hnul He Hp. destruct (WriteIndex_inv _ _ _ _ Hm Hw) as (pb & offs & Hlen & Hpb & ->).
  pose proof (load_written m pb offs Hpb Hfit) as Hload.
  apply files_fit_some in Hfit as (_ & F2 & _ & F4). rewrite size_written in F2, F4 by done.
  destruct (search_with_written m pb offs PatternValue (fun t => Wildcard.Match t PatternValue))
    as (res & H1 & H2 & H3); [done|done|lia|lia|done|done|by rewrite He; intros []|].
  by exists (written_index m pb offs), res.
Qed.

(** The distinct, non-empty document identifiers of a term map. *)

Definition document_ids (m : gmap bytes (list Posting)) : gset bytes :=
  list_to_set (List.filter (fun d => negb (bool_decide (d = []))) (DocumentID <$> (t ← sorted_terms m; found m t))).

Lemma add_ids_spec ps : forall ids,
  add_ids ids ps = list_to_set (List.filter (fun d => negb (bool_decide (d = []))) (DocumentID <$> ps)) ∪ ids.
Proof.
  induction ps as [|p ps IH]; intros ids; simpl; [set_solver|]. rewrite IH.
  destruct (bool_decide (DocumentID p = [])); simpl; set_solver.
Qed.

(** The document count of a written index is the number of distinct,
    non-empty document identifiers of its term map when the map has no empty
    term; an empty term, which sorts first, ends the walk at once and the count
    is 0. *)
Theorem index_document_count (IndexData : gmap bytes (gmap bytes (list Posting))) (C : bytes)
    (m : gmap bytes (list Posting)) (files : index_files) :
  IndexData !! C = Some m -> WriteIndex IndexData C = Some files -> files_fit files -> nul_free m ->
  exists ix, LoadIndex files = Some ix /\
    let n := if bool_decide (m !! [] = None) then Z.of_nat (base.size (document_ids m)) else 0 in
    GetDocumentCount ix None = Some (n, Some n).
Proof.
  intros Hm Hw Hfit Hnul. destruct (WriteIndex_inv _ _ _ _ Hm Hw) as (pb & offs & Hlen & Hpb & ->).
  exists (written_index m pb offs). split; [by apply load_written|].
  apply files_fit_some in Hfit as (_ & F2 & _ & F4). rewrite size_written in F2, F4 by done.
  unfold GetDocumentCount. cbn [Valid written_index negb TermsData].
  destruct (bool_decide (m !! [] = None)) eqn:He.
  - apply bool_decide_eq_true in He. rewrite (count_loop_terms m _) with (Terms := sorted_terms m); [| | |done].
    + rewrite add_ids_spec, union_empty_r_L. done.
    + intros t Ht [ps Hps]. apply SearchTerm_written; [done|done|lia|lia|done|].
      destruct (lengths_ok_spec m _ Hlen t) as [Hs _]; [apply elem_of_sorted_terms; eauto|]. unfold max_u16 in Hs. lia.
    + intros t Ht. apply elem_of_sorted_terms in Ht. split_and!; [by apply Hnul|done|]. intros ->.
      rewrite He in Ht. by destruct Ht.
  - apply bool_decide_eq_false in He.
    assert (exists r, sorted_terms m = [] :: r) as [r ->].
    { apply empty_term_first. destruct (m !! []) eqn:E; [by eexists|done]. }
    done.
Qed.

(** ** Witnesses: a collection with three terms *)

Definition one : double := S754_finite false 4503599627370496 (-52).

Definition sample_map : gmap bytes (list Posting) :=
  <[ #"red" := [mkPosting #"d1" #"items" one []; mkPosting #"d2" #"items" one []] ]>
  (<[ #"reel" := [mkPosting #"d2" #"items" one []] ]>
  (<[ #"sky" := [mkPosting #"d3" #"items" one []] ]> ∅)).

Definition sample_data : gmap bytes (gmap bytes (list Posting)) := {[ #"items" := sample_map ]}.

Definition sample_files : index_files :=
  match WriteIndex sample_data #"items" with Some fs => fs | None => mkFiles None None None None end.

Lemma sample_lookup : sample_data !! #"items" = Some sample_map.
Proof. vm_compute. reflexivity. Qed.

Lemma sample_written : WriteIndex sample_data #"items" = Some sample_files.
Proof. vm_compute. reflexivity. Qed.

Lemma sample_fits : files_fit sample_files.
Proof. unfold files_fit. repeat (constructor; [vm_compute; reflexivity|]). constructor. Defined.

Lemma sample_nul_free : nul_free sample_map.
Proof.
  assert (map_Forall (fun t _ => NUL ∉ t) sample_map) as H by (refine (bool_decide_eq_true_1 _ _); vm_compute; reflexivity).
  intros t [ps Hps]. exact (H t ps Hps).
Qed.

Lemma index_refinement_witness :
  exists ix, LoadIndex sample_files = Some ix /\ TermCount ix = 3 /\
    forall T, T <> [] -> size T < 2 ^ 31 ->
      SearchTerm ix T = Some (stored <$> hash_order (default [] (sample_map !! T))).
Proof.
  apply (index_refinement sample_data #"items" sample_map sample_files);
    [exact sample_lookup|exact sample_written|exact sample_fits].
Defined.

Lemma postings_roundtrip_witness :
  let ps := [mkPosting #"d1" #"items" one []; mkPosting #"d2" #"items" one []] in
  exists b, WritePostings ps = Some b /\ DecodePostings b = Some (stored <$> hash_order ps) /\ hash_order ps ≡ₚ ps.
Proof.
  apply postings_roundtrip; [|vm_compute; reflexivity].
  repeat (constructor; [vm_compute; discriminate|]). constructor.
Defined.

Lemma index_prefix_search_witness :
  exists ix res, LoadIndex sample_files = Some ix /\ NoDup (DocumentID <$> res) /\
    (forall d, d ∈ DocumentID <$> res <-> listed_under sample_map (has_prefix #"re") d) /\
    forall LimitVal, SearchPrefix ix #"re" LimitVal =
      Some (if 0 <? LimitVal then take (Z.to_nat LimitVal) res else res).
Proof.
  apply (index_prefix_search sample_data #"items" sample_map sample_files #"re");
    [exact sample_lookup|exact sample_written|exact sample_fits|exact sample_nul_free|discriminate].
Defined.

Lemma index_wildcard_search_witness :
  exists ix res, LoadIndex sample_files = Some ix /\ NoDup (DocumentID <$> res) /\
    (forall d, d ∈ DocumentID <$> res <-> listed_under sample_map (fun t => Wildcard.Match t #"r*d") d) /\
    forall LimitVal, SearchWildcard ix #"r*d" LimitVal =
      Some (if 0 <? LimitVal then take (Z.to_nat LimitVal) res else res).
Proof.
  apply (index_wildcard_search sample_data #"items" sample_map sample_files #"r*d");
    [exact sample_lookup|exact sample_written|exact sample_fits|exact sample_nul_free
    |vm_compute; reflexivity|discriminate].
Defined.

Lemma index_document_count_witness :
  exists ix, LoadIndex sample_files = Some ix /\ GetDocumentCount ix None = Some (3, Some 3).
Proof.
  apply (index_document_count sample_data #"items" sample_map sample_files);
    [exact sample_lookup|exact sample_written|exact sample_fits|exact sample_nul_free].
Defined.

(** A concrete lookup, end to end. *)

Example sample_search :
  match LoadIndex sample_files with
  | Some ix => option_map (fmap (fun p => (DocumentID p, Score p))) (SearchTerm ix #"red")
  | None => None
  end = Some [(#"d2", one); (#"d1", one)].
Proof. vm_compute. reflexivity. Qed.

End MMapIndexProps.
