(* ===== verification/FilterLang.v ===== *)
(** * Filter language: src/api/utils.cpp (FilterExpressionParser, ApplyFilters), src/api/queryparser.cpp (ParseFilters)

    The filter strings of search requests, which the SQL front end also
    produces. The parser's position into its input is the rest of the input;
    every function only looks forward. [ApplyFilters] takes the document of a
    hit and the evaluation of one condition on it as arguments. *)

From S2P Require Import Prelude CText.

Module FilterLang.

(** ** Data *)

Record FilterCondition := mkCondition {
  Field : bytes;
  Op : bytes;
  Value : bytes;
  LogicalConnector : bytes
}.

Inductive FilterExpressionNode :=
| NCondition (Condition : FilterCondition)
| NNot (Left : FilterExpressionNode)
| NAnd (Left Right : FilterExpressionNode)
| NOr (Left Right : FilterExpressionNode).

(** ** Scanning *)

Definition is_blank (c : ascii) : bool := bool_decide (c ∈ [" "%char; chr 9; chr 13; chr 10]).

Definition Trim (value : bytes) : bytes := trim is_blank value.

Definition SkipWhitespace (s : bytes) : bytes := skip_while isspace s.

(** [Input.compare(Position, n, token) == 0] for a token of [n] bytes, and the
    rest behind it. *)

Definition literal_at (token s : bytes) : option bytes :=
  if starts_with token s then Some (drop (length token) s) else None.

Definition Match (token s : bytes) : option bytes := literal_at token (SkipWhitespace s).

Definition is_field_char (c : ascii) : bool := isalnum c || bool_decide (c = "_"%char).

(** The arguments of a geo condition: up to the parenthesis that closes
    [depth], which is left in front of the rest. *)

Fixpoint scan_args (depth : nat) (s : bytes) : bytes * bytes :=
  match s with
  | [] => ([], [])
  | c :: r =>
      if bool_decide (c = "("%char) then let (a, b) := scan_args (S depth) r in (c :: a, b)
      else if bool_decide (c = ")"%char) then
        match depth with
        | S O => ([], s)
        | _ => let (a, b) := scan_args (depth - 1) r in (c :: a, b)
        end
      else let (a, b) := scan_args depth r in (c :: a, b)
  end.

(** A geo condition: its condition and the rest; the outer [None] when the
    input does not start with a geo keyword, the inner one when it is
    malformed. *)

Definition geo_condition (s : bytes) : option (option (FilterCondition * bytes)) :=
  let body is_radius r :=
    match SkipWhitespace r with
    | c :: r' =>
        if bool_decide (c = "("%char) then
          let (args, rest) := scan_args 1 r' in
          match rest with
          | _ :: rest' =>
              Some (mkCondition (if (is_radius : bool) then #"_geo_radius" else #"_geo_box")
                      (if is_radius then #"GEO_RADIUS" else #"GEO_BOX") (Trim args) [], rest')
          | [] => None
          end
        else None
    | [] => None
    end in
  match literal_at #"_geo_radius" s with
  | Some r => Some (body true r)
  | None => match literal_at #"_geo_box" s with Some r => Some (body false r) | None => None end
  end.

(** A range after its opening bracket: operator, value and rest. *)

Definition range_condition (is_open : ascii) (s : bytes) : option (bytes * bytes * bytes) :=
  let close := if bool_decide (is_open = "["%char) then "]"%char else "}"%char in
  let (body, rest) := span (fun c => negb (bool_decide (c = close))) s in
  match rest with
  | [] => None
  | _ :: rest' =>
      let range_body := Trim body in
      match find_sub #" TO " range_body with
      | None => None
      | Some to_pos =>
          Some (if bool_decide (is_open = "["%char) then #"RANGE_INCLUSIVE" else #"RANGE_EXCLUSIVE",
                Trim (take to_pos range_body) ++ #"," ++ Trim (drop (to_pos + 4) range_body), rest')
      end
  end.

(** The word operators that take a value. *)

Definition word_operator (s : bytes) : option (bytes * bytes) :=
  match literal_at #"NOT_ILIKE:" s with Some r => Some (#"NOT_ILIKE", r) | None =>
  match literal_at #"NOT_LIKE:" s with Some r => Some (#"NOT_LIKE", r) | None =>
  match literal_at #"ILIKE:" s with Some r => Some (#"ILIKE", r) | None =>
  match literal_at #"LIKE:" s with Some r => Some (#"LIKE", r) | None => None end end end end.

Definition two_char_op (s : bytes) : option (bytes * bytes) :=
  match s with
  | a :: b :: r => if bool_decide ([a; b] ∈ [ #"!="; #">="; #"<="; #":="]) then Some ([a; b], r) else None
  | _ => None
  end.

Definition one_char_op (s : bytes) : option (bytes * bytes) :=
  match s with
  | a :: r => if bool_decide (a ∈ [">"; "<"; "="]%char) then Some ([a], r) else None
  | [] => None
  end.

(** The operator in front of a value. *)

Definition scan_operator (s : bytes) : bytes * bytes :=
  match word_operator s with Some x => x | None =>
  match two_char_op s with Some x => x | None =>
  match one_char_op s with Some x => x | None => (#"=", s) end end end.

(** [Input.substr(Position, 2)] is a connector. *)

Definition at_connector (s : bytes) : bool :=
  match s with a :: b :: _ => bool_decide ([a; b] ∈ [ #"&&"; #"||"]) | _ => false end.

(** The value: up to a closing parenthesis (for the expression parser) or a
    connector. *)

Fixpoint scan_value (stop_at_paren : bool) (s : bytes) : bytes * bytes :=
  match s with
  | [] => ([], [])
  | c :: r =>
      if (stop_at_paren && bool_decide (c = ")"%char)) || at_connector s then ([], s)
      else let (a, b) := scan_value stop_at_paren r in (c :: a, b)
  end.

(** ** The expression parser *)

Definition ParseCondition (s : bytes) : option (FilterCondition * bytes) :=
  let s := SkipWhitespace s in
  match geo_condition s with
  | Some r => r
  | None =>
      let (field, r) := span is_field_char s in
      match field, SkipWhitespace r with
      | _ :: _, c :: r =>
          if negb (bool_decide (c = ":"%char)) then None
          else
            let r := SkipWhitespace r in
            match r with
            | o :: r' =>
                if bool_decide (o ∈ ["["; "{"]%char) then
                  match range_condition o r' with
                  | Some (op, value, rest) => Some (mkCondition field op value [], rest)
                  | None => None
                  end
                else
                  match literal_at #"ISNULL" r, literal_at #"ISNOTNULL" r with
                  | Some rest, _ => Some (mkCondition field #"ISNULL" [] [], rest)
                  | None, Some rest => Some (mkCondition field #"ISNOTNULL" [] [], rest)
                  | None, None =>
                      let (op, r) := scan_operator r in
                      let (raw, rest) := scan_value true (SkipWhitespace r) in
                      let value := Trim raw in
                      if bool_decide (value = []) then None else Some (mkCondition field op value [], rest)
                  end
            | [] => None
            end
      | _, _ => None
      end
  end.

(** [Some None] is failure, [None] exhausted fuel. *)

Definition parsed (A : Type) : Type := option (option (A * bytes)).

Fixpoint ParseOr (fuel : nat) (s : bytes) {struct fuel} : parsed FilterExpressionNode :=
  match fuel with
  | O => None
  | S f =>
      match ParseAnd f s with
      | Some (Some (node, r)) => or_loop f node r
      | other => other
      end
  end
with or_loop (fuel : nat) (node : FilterExpressionNode) (s : bytes) {struct fuel} : parsed FilterExpressionNode :=
  match fuel with
  | O => None
  | S f =>
      match Match #"||" s with
      | None => Some (Some (node, s))
      | Some r =>
          match ParseAnd f r with
          | Some (Some (rhs, r')) => or_loop f (NOr node rhs) r'
          | other => other
          end
      end
  end
with ParseAnd (fuel : nat) (s : bytes) {struct fuel} : parsed FilterExpressionNode :=
  match fuel with
  | O => None
  | S f =>
      match ParsePrimary f s with
      | Some (Some (node, r)) => and_loop f node r
      | other => other
      end
  end
with and_loop (fuel : nat) (node : FilterExpressionNode) (s : bytes) {struct fuel} : parsed FilterExpressionNode :=
  match fuel with
  | O => None
  | S f =>
      match Match #"&&" s with
      | None => Some (Some (node, s))
      | Some r =>
          match ParsePrimary f r with
          | Some (Some (rhs, r')) => and_loop f (NAnd node rhs) r'
          | other => other
          end
      end
  end
with ParsePrimary (fuel : nat) (s : bytes) {struct fuel} : parsed FilterExpressionNode :=
  match fuel with
  | O => None
  | S f =>
      let s := SkipWhitespace s in
      let condition := match ParseCondition s with
                       | Some (c, r) => Some (Some (NCondition c, r))
                       | None => Some None
                       end in
      match s with
      | c :: r =>
          if bool_decide (c = "!"%char) then
            match ParsePrimary f r with
            | Some (Some (child, r')) => Some (Some (NNot child, r'))
            | other => other
            end
          else if bool_decide (c = "("%char) then
            match ParseOr f r with
            | Some (Some (node, r')) =>
                match SkipWhitespace r' with
                | d :: r'' => if bool_decide (d = ")"%char) then Some (Some (node, r'')) else Some None
                | [] => Some None
                end
            | other => other
            end
          else condition
      | [] => condition
      end
  end.

(** Four calls per byte are enough. *)

Definition filter_fuel (s : bytes) : nat := (4 * length s + 4)%nat.

(** [FilterExpressionParser::Parse]: the tree of a fully consumed input. *)

Definition Parse (input : bytes) : option (option FilterExpressionNode) :=
  match ParseOr (filter_fuel input) input with
  | None => None
  | Some None => Some None
  | Some (Some (root, r)) => match SkipWhitespace r with [] => Some (Some root) | _ => Some None end
  end.

(** ** ParseFilters: the flat fallback *)

(** The connector behind a condition and the rest. *)

Definition next_connector (s : bytes) : bytes * bytes :=
  let s := SkipWhitespace s in
  match literal_at #"&&" s with
  | Some r => (#"AND", r)
  | None => match literal_at #"||" s with Some r => (#"OR", r) | None => ([], s) end
  end.

(** Operator and value of a flat condition. *)

Definition flat_operator (s : bytes) : bytes * bytes * bytes :=
  let with_value op r :=
    let (raw, rest) := scan_value false (SkipWhitespace r) in (op, Trim raw, rest) in
  let after op r := match two_char_op r with
                    | Some (op2, r') => with_value op2 r'
                    | None => if bool_decide (op ∈ [ #"ISNULL"; #"ISNOTNULL"]) then (op, [], r) else with_value op r
                    end in
  match literal_at #"ISNULL" s with Some r => after #"ISNULL" r | None =>
  match literal_at #"ISNOTNULL" s with Some r => after #"ISNOTNULL" r | None =>
  match word_operator s with
  | Some (op, r) => after op r
  | None =>
      match two_char_op s with
      | Some (op, r) => with_value op r
      | None => match one_char_op s with Some (op, r) => with_value op r | None => with_value #"=" s end
      end
  end end end.

Definition keep_condition (c : FilterCondition) : bool :=
  negb (bool_decide (Value c = [])) || bool_decide (Op c ∈ [ #"ISNULL"; #"ISNOTNULL"]).

Fixpoint filters_loop (fuel : nat) (connector s : bytes) (filters : list FilterCondition) : option (list FilterCondition) :=
  let s := SkipWhitespace s in
  match s with
  | [] => Some filters
  | _ =>
      match fuel with
      | O => None
      | S f =>
          match geo_condition s with
          | Some None => Some filters
          | Some (Some (c, r)) =>
              let (conn, r) := next_connector r in
              filters_loop f conn r (filters ++ [mkCondition (Field c) (Op c) (Value c) connector])
          | None =>
              let (field, r) := span is_field_char s in
              match field, SkipWhitespace r with
              | _ :: _, c :: r =>
                  if negb (bool_decide (c = ":"%char)) then Some filters
                  else
                    let r := SkipWhitespace r in
                    let found :=
                      match r with
                      | o :: r' =>
                          if bool_decide (o ∈ ["["; "{"]%char) then range_condition o r' else Some (flat_operator r)
                      | [] => Some (flat_operator r)
                      end in
                    match found with
                    | None => Some filters
                    | Some (op, value, r) =>
                        let cond := mkCondition field op value connector in
                        let (conn, r) := next_connector r in
                        filters_loop f conn r (if keep_condition cond then filters ++ [cond] else filters)
                    end
              | _, _ => Some filters
              end
          end
      end
  end.

Definition ParseFilters (FilterString : bytes) : option (list FilterCondition) :=
  filters_loop (S (length FilterString)) [] FilterString [].

(** ** ApplyFilters *)

Section Apply.

Context {SearchHit Doc : Type} (Document : SearchHit -> Doc)
        (EvaluateFilterCondition : Doc -> FilterCondition -> bool).

Fixpoint EvaluateExpression (d : Doc) (node : FilterExpressionNode) : bool :=
  match node with
  | NCondition c => EvaluateFilterCondition d c
  | NNot l => negb (EvaluateExpression d l)
  | NOr l r => EvaluateExpression d l || EvaluateExpression d r
  | NAnd l r => EvaluateExpression d l && EvaluateExpression d r
  end.

(** The flat conditions, left to right by their connectors. *)

Definition combine_flat (d : Doc) (matches : bool) (c : FilterCondition) : bool :=
  if bool_decide (LogicalConnector c = #"OR") then matches || EvaluateFilterCondition d c
  else matches && EvaluateFilterCondition d c.

Definition evaluate_flat (d : Doc) (cs : list FilterCondition) : bool :=
  match cs with
  | [] => false
  | c :: r => fold_left (combine_flat d) r (EvaluateFilterCondition d c)
  end.

(** [None] is exhausted fuel. *)

Definition ApplyFilters (Hits : list SearchHit) (FilterBy : bytes) : option (list SearchHit) :=
  match Parse FilterBy with
  | None => None
  | Some (Some root) => Some (List.filter (fun HitObj => EvaluateExpression (Document HitObj) root) Hits)
  | Some None =>
      match ParseFilters FilterBy with
      | None => None
      | Some [] => Some (if bool_decide (FilterBy = []) then Hits else [])
      | Some cs => Some (List.filter (fun HitObj => evaluate_flat (Document HitObj) cs) Hits)
      end
  end.

End Apply.

End FilterLang.
