(* ===== verification/FilterLangProps.v ===== *)
(** * Filter language: what its parsers accept, and why they terminate

    The grammar of filter strings as an inductive relation between trees and
    texts, the completeness of the expression parser for it, the termination of
    both parsers, and the result of [ApplyFilters]. *)

From S2P Require Import Prelude CText FilterLang.
Import FilterLang.

Module FilterLangProps.

(** ** The grammar of filter strings *)

Definition spaces (w : bytes) : Prop := Forall (fun c => isspace c = true) w.

Definition blanks (w : bytes) : Prop := Forall (fun c => is_blank c = true) w.

Definition field_name (f : bytes) : bool :=
  negb (bool_decide (f = [])) && forallb is_field_char f &&
  negb (starts_with #"_geo_radius" f) && negb (starts_with #"_geo_box" f).

(** No position of a value stops its scan. *)

Fixpoint free_of_stops (v : bytes) : bool :=
  match v with
  | [] => true
  | c :: r => negb (bool_decide (c = ")"%char)) && negb (at_connector v) && free_of_stops r
  end.

(** A text without white space at its ends. *)

Definition trimmed (v : bytes) : bool :=
  match head v, last v with
  | Some c, Some d => negb (isspace c) && negb (is_blank d)
  | _, _ => false
  end.

Definition value_text (v : bytes) : bool :=
  trimmed v && free_of_stops v && negb (bool_decide (last v ∈ [Some "&"; Some "|"]%char)).

(** Operators with a value and their spelling. *)

Definition value_operators : list (bytes * bytes) :=
  [(#"!=", #"!="); (#">=", #">="); (#"<=", #"<="); (#":=", #":="); (#">", #">"); (#"<", #"<"); (#"=", #"=");
   (#"NOT_ILIKE", #"NOT_ILIKE:"); (#"NOT_LIKE", #"NOT_LIKE:"); (#"ILIKE", #"ILIKE:"); (#"LIKE", #"LIKE:")].

(** What follows [>] or [<] must not turn it into [>=] or [<=]. *)

Definition operator_apart (t x : bytes) : bool :=
  negb (bool_decide (t ∈ [ #">"; #"<"])) || negb (starts_with #"=" x).

(** A value that can follow the colon directly. *)

Definition operator_starts : list bytes :=
  [ #"["; #"{"; #"ISNULL"; #"ISNOTNULL"; #"NOT_ILIKE:"; #"NOT_LIKE:"; #"ILIKE:"; #"LIKE:"; #"!="; #">="; #"<="; #":=";
    #">"; #"<"; #"="].

Definition bare_value (v : bytes) : bool := forallb (fun p => negb (starts_with p v)) operator_starts.

Definition open_of (inclusive : bool) : ascii := if inclusive then "["%char else "{"%char.

Definition close_of (inclusive : bool) : ascii := if inclusive then "]"%char else "}"%char.

(** The bounds of a range: trimmed, without the closing bracket, and the lower
    one without an earlier separator. *)

Definition range_text (inclusive : bool) (lo hi : bytes) : bool :=
  trimmed lo && trimmed hi && forallb (fun c => negb (bool_decide (c = close_of inclusive))) (lo ++ hi) &&
  bool_decide (find_sub #" TO " (lo ++ #" TO ") = Some (length lo)).

(** Parenthesis depth along a text; [None] when the outer one closes. *)

Fixpoint paren_depth (depth : nat) (s : bytes) : option nat :=
  match s with
  | [] => Some depth
  | c :: r =>
      if bool_decide (c = "("%char) then paren_depth (S depth) r
      else if bool_decide (c = ")"%char) then match depth with S (S d) => paren_depth (S d) r | _ => None end
      else paren_depth depth r
  end.

Inductive condition_text : FilterCondition -> bytes -> Prop :=
| ct_value f op t v w1 w2 w3 :
    field_name f = true -> spaces w1 -> spaces w2 -> spaces w3 -> (op, t) ∈ value_operators ->
    operator_apart t (w3 ++ v) = true -> value_text v = true ->
    condition_text (mkCondition f op v []) (f ++ w1 ++ #":" ++ w2 ++ t ++ w3 ++ v)
| ct_bare f v w1 w2 :
    field_name f = true -> spaces w1 -> spaces w2 -> bare_value v = true -> value_text v = true ->
    condition_text (mkCondition f #"=" v []) (f ++ w1 ++ #":" ++ w2 ++ v)
| ct_null f op w1 w2 :
    field_name f = true -> spaces w1 -> spaces w2 -> op ∈ [ #"ISNULL"; #"ISNOTNULL"] ->
    condition_text (mkCondition f op [] []) (f ++ w1 ++ #":" ++ w2 ++ op)
| ct_range f inclusive lo hi w1 w2 :
    field_name f = true -> spaces w1 -> spaces w2 -> range_text inclusive lo hi = true ->
    condition_text (mkCondition f (if inclusive then #"RANGE_INCLUSIVE" else #"RANGE_EXCLUSIVE") (lo ++ #"," ++ hi) [])
      (f ++ w1 ++ #":" ++ w2 ++ [open_of inclusive] ++ lo ++ #" TO " ++ hi ++ [close_of inclusive])
| ct_geo (radius : bool) args w :
    spaces w -> paren_depth 1 args = Some 1%nat ->
    condition_text
      (mkCondition (if radius then #"_geo_radius" else #"_geo_box") (if radius then #"GEO_RADIUS" else #"GEO_BOX")
         (Trim args) [])
      ((if radius then #"_geo_radius" else #"_geo_box") ++ w ++ #"(" ++ args ++ #")").

(** Binding strength: [!] and groups, then [&&], then [||], both to the left;
    white space around operands. *)

Inductive level := LPrimary | LAnd | LOr.

Inductive filter_text : level -> FilterExpressionNode -> bytes -> Prop :=
| ft_condition c s : condition_text c s -> filter_text LPrimary (NCondition c) s
| ft_not n s : filter_text LPrimary n s -> filter_text LPrimary (NNot n) (#"!" ++ s)
| ft_group n s : filter_text LOr n s -> filter_text LPrimary n (#"(" ++ s ++ #")")
| ft_before w n s : spaces w -> filter_text LPrimary n s -> filter_text LPrimary n (w ++ s)
| ft_after w n s : blanks w -> filter_text LPrimary n s -> filter_text LPrimary n (s ++ w)
| ft_primary n s : filter_text LPrimary n s -> filter_text LAnd n s
| ft_and l r s t : filter_text LAnd l s -> filter_text LPrimary r t -> filter_text LAnd (NAnd l r) (s ++ #"&&" ++ t)
| ft_conjunction n s : filter_text LAnd n s -> filter_text LOr n s
| ft_or l r s t : filter_text LOr l s -> filter_text LAnd r t -> filter_text LOr (NOr l r) (s ++ #"||" ++ t).

(** Trees whose conditions can be written down, and the shortest text of such a
    tree. *)

Definition like_operators : list bytes := [ #"NOT_ILIKE"; #"NOT_LIKE"; #"ILIKE"; #"LIKE"].

Definition print_condition (c : FilterCondition) : bytes :=
  Field c ++ #":" ++ Op c ++ (if bool_decide (Op c ∈ like_operators) then #":" else []) ++ Value c.

Definition printable_condition (c : FilterCondition) : bool :=
  field_name (Field c) && bool_decide (LogicalConnector c = []) &&
  ((bool_decide (Op c ∈ [ #"ISNULL"; #"ISNOTNULL"]) && bool_decide (Value c = [])) ||
   (bool_decide (Op c ∈ value_operators.*1) && operator_apart (Op c) (Value c) && value_text (Value c))).

Fixpoint printable (n : FilterExpressionNode) : bool :=
  match n with
  | NCondition c => printable_condition c
  | NNot a => printable a
  | NAnd a b | NOr a b => printable a && printable b
  end.

Definition parenthesize (b : bool) (s : bytes) : bytes := if b then #"(" ++ s ++ #")" else s.

Fixpoint print (l : level) (n : FilterExpressionNode) : bytes :=
  match n with
  | NCondition c => print_condition c
  | NNot a => #"!" ++ print LPrimary a
  | NAnd a b =>
      parenthesize (match l with LPrimary => true | _ => false end) (print LAnd a ++ #"&&" ++ print LPrimary b)
  | NOr a b =>
      parenthesize (match l with LOr => false | _ => true end) (print LOr a ++ #"||" ++ print LAnd b)
  end.

(** The operators [EvaluateFilterCondition] distinguishes, those that go
    without a value, and what both parsers guarantee of a condition. *)

Definition known_operators : list bytes :=
  [ #"GEO_RADIUS"; #"GEO_BOX"; #"ISNULL"; #"ISNOTNULL"; #"LIKE"; #"ILIKE"; #"NOT_LIKE"; #"NOT_ILIKE";
    #"RANGE_INCLUSIVE"; #"RANGE_EXCLUSIVE"; #"="; #":="; #"!="; #">"; #">="; #"<"; #"<="].

Definition condition_ok (c : FilterCondition) : Prop :=
  Field c <> [] /\ Op c ∈ known_operators /\
  (Value c = [] -> Op c ∈ [ #"GEO_RADIUS"; #"GEO_BOX"; #"ISNULL"; #"ISNOTNULL"]).

Fixpoint node_ok (n : FilterExpressionNode) : Prop :=
  match n with
  | NCondition c => condition_ok c /\ LogicalConnector c = []
  | NNot a => node_ok a
  | NAnd a b | NOr a b => node_ok a /\ node_ok b
  end.

(** What may follow an operand: white space, then the end, a closing
    parenthesis or a connector. *)

Definition hard_stop (h : bytes) : bool :=
  match h with [] => true | c :: _ => bool_decide (c = ")"%char) || at_connector h end.

Definition delimiter (rest : bytes) : Prop :=
  exists w h, rest = w ++ h /\ blanks w /\ hard_stop h = true.

(** ** Progress of the scanners *)

Lemma SkipWhitespace_le s : (length (SkipWhitespace s) <= length s)%nat.
Proof. apply span_rest_length. Qed.

Lemma literal_at_spec t s r : literal_at t s = Some r <-> s = t ++ r.
Proof.
  unfold literal_at. split.
  - destruct (starts_with t s) eqn:E; [|done]. apply starts_with_spec in E as [r' ->].
    intros [= <-]. by rewrite drop_app_length.
  - intros ->. assert (starts_with t (t ++ r) = true) as -> by (apply starts_with_spec; eauto).
    by rewrite drop_app_length.
Qed.

Lemma literal_at_length t s r : literal_at t s = Some r -> length s = (length t + length r)%nat.
Proof. intros ->%literal_at_spec. by rewrite length_app. Qed.

Lemma Match_length t s r : Match t s = Some r -> (length t + length r <= length s)%nat.
Proof. unfold Match. intros H%literal_at_length. pose proof (SkipWhitespace_le s). lia. Qed.

Lemma scan_args_length d s : (length (scan_args d s).2 <= length s)%nat.
Proof.
  revert d. induction s as [|c r IH]; intros d; cbn [scan_args]; [done|].
  pose proof (IH (S d)). pose proof (IH d). pose proof (IH (d - 1)%nat).
  repeat case_bool_decide; [|destruct d as [|[|d]]|]; cbn [Nat.sub] in *;
    try match goal with |- context [scan_args ?e r] => destruct (scan_args e r) end; simpl in *; lia.
Qed.

Lemma scan_value_length b s : (length (scan_value b s).2 <= length s)%nat.
Proof.
  induction s as [|c r IH]; [done|]. cbn [scan_value].
  destruct (_ || _); [done|]. destruct (scan_value b r). simpl in *. lia.
Qed.

Lemma span_length p s a b : span p s = (a, b) -> length s = (length a + length b)%nat.
Proof. intros H. pose proof (span_app p s) as E. rewrite H in E. simpl in E. by rewrite <- E, length_app. Qed.

Lemma geo_condition_length s c r : geo_condition s = Some (Some (c, r)) -> (length r < length s)%nat.
Proof.
  unfold geo_condition. intros H.
  assert (forall b x, literal_at b s = Some x -> (length x <= length s)%nat) as L.
  { intros b x Hx%literal_at_length. lia. }
  repeat destr_in H; simplify_eq;
    repeat match goal with E : literal_at _ s = Some _ |- _ => apply L in E end;
    match goal with
    | E : SkipWhitespace ?x = _ :: ?l, E' : scan_args 1 ?l = _ |- _ =>
        pose proof (SkipWhitespace_le x) as E1; rewrite E in E1;
        pose proof (scan_args_length 1 l) as E2; rewrite E' in E2; simpl in *; lia
    end.
Qed.

Lemma range_condition_length o s op v r : range_condition o s = Some (op, v, r) -> (length r < length s)%nat.
Proof.
  unfold range_condition. destruct (span _ s) as [a b] eqn:E. apply span_length in E.
  destruct b as [|x b]; [done|]. destruct (find_sub _ _); [|done]. intros [= _ _ <-]. simpl in *. lia.
Qed.

Lemma word_operator_length s op r : word_operator s = Some (op, r) -> (length r <= length s)%nat.
Proof.
  unfold word_operator. intros H. repeat destr_in H; simplify_eq;
    match goal with E : literal_at _ _ = Some _ |- _ => apply literal_at_length in E; lia end.
Qed.

Lemma two_char_op_length s op r : two_char_op s = Some (op, r) -> (length r <= length s)%nat.
Proof. unfold two_char_op. intros H. repeat destr_in H; simplify_eq/=; lia. Qed.

Lemma one_char_op_length s op r : one_char_op s = Some (op, r) -> (length r <= length s)%nat.
Proof. unfold one_char_op. intros H. repeat destr_in H; simplify_eq/=; lia. Qed.

Lemma scan_operator_length s op r : scan_operator s = (op, r) -> (length r <= length s)%nat.
Proof.
  unfold scan_operator. intros H. destruct (word_operator s) as [[]|] eqn:?; simplify_eq; [by eapply word_operator_length|].
  destruct (two_char_op s) as [[]|] eqn:?; simplify_eq; [by eapply two_char_op_length|].
  destruct (one_char_op s) as [[]|] eqn:?; simplify_eq; [by eapply one_char_op_length|done].
Qed.

Lemma scanned_value_length b s raw r : scan_value b (SkipWhitespace s) = (raw, r) -> (length r <= length s)%nat.
Proof.
  intros H. pose proof (scan_value_length b (SkipWhitespace s)) as L. rewrite H in L. simpl in L.
  pose proof (SkipWhitespace_le s). lia.
Qed.

Lemma flat_operator_length s op v r : flat_operator s = (op, v, r) -> (length r <= length s)%nat.
Proof.
  unfold flat_operator. intros H.
  repeat destr_in H; simplify_eq;
    repeat match goal with
    | E : literal_at _ _ = Some _ |- _ => apply literal_at_length in E
    | E : word_operator _ = Some _ |- _ => apply word_operator_length in E
    | E : two_char_op _ = Some _ |- _ => apply two_char_op_length in E
    | E : one_char_op _ = Some _ |- _ => apply one_char_op_length in E
    | E : scan_value _ (SkipWhitespace _) = _ |- _ => apply scanned_value_length in E
    end; lia.
Qed.

Lemma next_connector_length s c r : next_connector s = (c, r) -> (length r <= length s)%nat.
Proof.
  unfold next_connector. pose proof (SkipWhitespace_le s). intros H'.
  repeat destr_in H'; simplify_eq;
    repeat match goal with E : literal_at _ _ = Some _ |- _ => apply literal_at_length in E end; lia.
Qed.

Lemma ParseCondition_length s c r : ParseCondition s = Some (c, r) -> (length r < length s)%nat.
Proof.
  unfold ParseCondition. pose proof (SkipWhitespace_le s). set (s' := SkipWhitespace s) in *.
  destruct (geo_condition s') as [o|] eqn:G.
  { intros ->. apply geo_condition_length in G. lia. }
  destruct (span is_field_char s') as [field r0] eqn:E. apply span_length in E.
  destruct field as [|f0 field]; [done|]. pose proof (SkipWhitespace_le r0).
  destruct (SkipWhitespace r0) as [|c0 r1]; [done|]. destruct (negb _); [done|].
  pose proof (SkipWhitespace_le r1). destruct (SkipWhitespace r1) as [|o r2]; [done|]. cbn [length] in *.
  case_bool_decide.
  { destruct (range_condition o r2) as [[[op v] rest]|] eqn:R; [|done].
    intros [= _ <-]. apply range_condition_length in R. lia. }
  destruct (literal_at #"ISNULL" (o :: r2)) eqn:L1; [intros [= _ <-]; apply literal_at_length in L1; simpl in *; lia|].
  destruct (literal_at #"ISNOTNULL" (o :: r2)) eqn:L2; [intros [= _ <-]; apply literal_at_length in L2; simpl in *; lia|].
  destruct (scan_operator (o :: r2)) as [op r3] eqn:O. apply scan_operator_length in O.
  destruct (scan_value true _) as [raw rest] eqn:V. apply scanned_value_length in V.
  case_bool_decide; [done|]. intros [= _ <-]. simpl in *. lia.
Qed.

(** ** Termination *)

(** Every function of the grammar reads something; the loops read nothing or
    something. *)

Lemma grammar_reads fuel :
  (forall s n r, ParseOr fuel s = Some (Some (n, r)) -> (length r < length s)%nat) /\
  (forall m s n r, or_loop fuel m s = Some (Some (n, r)) -> (length r <= length s)%nat) /\
  (forall s n r, ParseAnd fuel s = Some (Some (n, r)) -> (length r < length s)%nat) /\
  (forall m s n r, and_loop fuel m s = Some (Some (n, r)) -> (length r <= length s)%nat) /\
  (forall s n r, ParsePrimary fuel s = Some (Some (n, r)) -> (length r < length s)%nat).
Proof.
  induction fuel as [|f (IH1 & IH2 & IH3 & IH4 & IH5)]; [by split_and!|].
  cbn [ParseOr or_loop ParseAnd and_loop ParsePrimary].
  split_and!; intros; repeat destr_in H; simplify_eq;
    repeat match goal with
    | E : Match _ _ = Some _ |- _ => apply Match_length in E; cbn [length lit String.list_ascii_of_string] in E
    | E : ParseOr _ _ = Some (Some _) |- _ => apply IH1 in E
    | E : ParseAnd _ _ = Some (Some _) |- _ => apply IH3 in E
    | E : ParsePrimary _ _ = Some (Some _) |- _ => apply IH5 in E
    | E : or_loop _ _ _ = Some (Some _) |- _ => apply IH2 in E
    | E : and_loop _ _ _ = Some (Some _) |- _ => apply IH4 in E
    | E : ParseCondition _ = Some _ |- _ => apply ParseCondition_length in E
    | E : SkipWhitespace ?x = _ |- _ =>
        let L := fresh in pose proof (SkipWhitespace_le x) as L; rewrite E in L; clear E; cbn [length] in L
    end; cbn [length] in *; lia.
Qed.

(** The fuel each function needs for its input. *)

Lemma grammar_fueled fuel :
  (forall s, (3 * length s + 3 <= fuel)%nat -> ParseOr fuel s <> None) /\
  (forall m s, (3 * length s + 1 <= fuel)%nat -> or_loop fuel m s <> None) /\
  (forall s, (3 * length s + 2 <= fuel)%nat -> ParseAnd fuel s <> None) /\
  (forall m s, (3 * length s + 1 <= fuel)%nat -> and_loop fuel m s <> None) /\
  (forall s, (3 * length s + 1 <= fuel)%nat -> ParsePrimary fuel s <> None).
Proof.
  induction fuel as [|f (IH1 & IH2 & IH3 & IH4 & IH5)]; [split_and!; intros; lia|].
  destruct (grammar_reads f) as (R1 & _ & R3 & _ & R5).
  cbn [ParseOr or_loop ParseAnd and_loop ParsePrimary].
  split_and!; intros;
    repeat match goal with
    | |- context [SkipWhitespace ?x] =>
        let L := fresh in pose proof (SkipWhitespace_le x) as L; destruct (SkipWhitespace x); cbn [length] in L
    | |- context [match Match ?t ?x with _ => _ end] =>
        let E := fresh in destruct (Match t x) eqn:E; [apply Match_length in E; cbn [length lit String.list_ascii_of_string] in E|]
    | |- context [match ParseOr f ?x with _ => _ end] =>
        let E := fresh in destruct (ParseOr f x) as [[[]|]|] eqn:E; [apply R1 in E| |exfalso; revert E; apply IH1; lia]
    | |- context [match ParseAnd f ?x with _ => _ end] =>
        let E := fresh in destruct (ParseAnd f x) as [[[]|]|] eqn:E; [apply R3 in E| |exfalso; revert E; apply IH3; lia]
    | |- context [match ParsePrimary f ?x with _ => _ end] =>
        let E := fresh in destruct (ParsePrimary f x) as [[[]|]|] eqn:E; [apply R5 in E| |exfalso; revert E; apply IH5; lia]
    | |- or_loop _ _ _ <> None => apply IH2; lia
    | |- and_loop _ _ _ <> None => apply IH4; lia
    | _ => first [done | destr_goal]
    end.
Qed.

(** One call of each function, as an equation. *)

Lemma ParseOr_S f s :
  ParseOr (S f) s = match ParseAnd f s with Some (Some (node, r)) => or_loop f node r | other => other end.
Proof. done. Qed.

Lemma or_loop_S f node s :
  or_loop (S f) node s =
  match Match #"||" s with
  | None => Some (Some (node, s))
  | Some r => match ParseAnd f r with Some (Some (rhs, r')) => or_loop f (NOr node rhs) r' | other => other end
  end.
Proof. done. Qed.

Lemma ParseAnd_S f s :
  ParseAnd (S f) s = match ParsePrimary f s with Some (Some (node, r)) => and_loop f node r | other => other end.
Proof. done. Qed.

Lemma and_loop_S f node s :
  and_loop (S f) node s =
  match Match #"&&" s with
  | None => Some (Some (node, s))
  | Some r => match ParsePrimary f r with Some (Some (rhs, r')) => and_loop f (NAnd node rhs) r' | other => other end
  end.
Proof. done. Qed.

Definition condition_node (s : bytes) : parsed FilterExpressionNode :=
  match ParseCondition s with Some (c, r) => Some (Some (NCondition c, r)) | None => Some None end.

Lemma ParsePrimary_S f s :
  ParsePrimary (S f) s =
  match SkipWhitespace s with
  | c :: r =>
      if bool_decide (c = "!"%char) then
        match ParsePrimary f r with Some (Some (child, r')) => Some (Some (NNot child, r')) | other => other end
      else if bool_decide (c = "("%char) then
        match ParseOr f r with
        | Some (Some (node, r')) =>
            match SkipWhitespace r' with
            | d :: r'' => if bool_decide (d = ")"%char) then Some (Some (node, r'')) else Some None
            | [] => Some None
            end
        | other => other
        end
      else condition_node (SkipWhitespace s)
  | [] => condition_node (SkipWhitespace s)
  end.
Proof. done. Qed.

(** More fuel does not change an answer. *)

Lemma grammar_stable fuel :
  (forall s x, ParseOr fuel s = Some x -> ParseOr (S fuel) s = Some x) /\
  (forall m s x, or_loop fuel m s = Some x -> or_loop (S fuel) m s = Some x) /\
  (forall s x, ParseAnd fuel s = Some x -> ParseAnd (S fuel) s = Some x) /\
  (forall m s x, and_loop fuel m s = Some x -> and_loop (S fuel) m s = Some x) /\
  (forall s x, ParsePrimary fuel s = Some x -> ParsePrimary (S fuel) s = Some x).
Proof.
  induction fuel as [|f (IH1 & IH2 & IH3 & IH4 & IH5)]; [by split_and!|].
  split_and!; intros *;
    first [rewrite (ParseOr_S f), (ParseOr_S (S f)) | rewrite (or_loop_S f), (or_loop_S (S f))
          | rewrite (ParseAnd_S f), (ParseAnd_S (S f)) | rewrite (and_loop_S f), (and_loop_S (S f))
          | rewrite (ParsePrimary_S f), (ParsePrimary_S (S f))];
    intros H;
    repeat match goal with
    | |- context [match Match ?t ?x with _ => _ end] => destruct (Match t x)
    | |- context [match SkipWhitespace ?x with _ => _ end] => destruct (SkipWhitespace x)
    | |- context [if ?b then _ else _] => destruct b
    | H : context [match ParseOr f ?x with _ => _ end] |- _ =>
        let E := fresh in destruct (ParseOr f x) as [?|] eqn:E; [rewrite (IH1 _ _ E)|done]; clear E
    | H : context [match ParseAnd f ?x with _ => _ end] |- _ =>
        let E := fresh in destruct (ParseAnd f x) as [?|] eqn:E; [rewrite (IH3 _ _ E)|done]; clear E
    | H : context [match ParsePrimary f ?x with _ => _ end] |- _ =>
        let E := fresh in destruct (ParsePrimary f x) as [?|] eqn:E; [rewrite (IH5 _ _ E)|done]; clear E
    | H : context [match ?o with Some _ => _ | None => _ end] |- _ => is_var o; destruct o as [[]|]
    | _ => first [done | by apply IH2 | by apply IH4]
    end.
Qed.

Lemma ParseOr_stable s : fuel_stable (fun f => ParseOr f s).
Proof. intros f x. apply grammar_stable. Qed.

Lemma Parse_settles s n r :
  settles (fun f => ParseOr f s) (Some (n, r)) -> SkipWhitespace r = [] -> Parse s = Some (Some n).
Proof.
  intros Hs Hr. unfold Parse.
  assert (ParseOr (filter_fuel s) s = Some (Some (n, r))) as ->; [|by rewrite Hr].
  apply (settles_at (fun f => ParseOr f s)); [apply ParseOr_stable| |done].
  apply grammar_fueled. unfold filter_fuel. lia.
Qed.

Lemma Parse_answers s : Parse s <> None.
Proof.
  unfold Parse. destruct (ParseOr _ s) as [[[n r]|]|] eqn:E; [by destruct (SkipWhitespace r)|done|].
  exfalso. revert E. apply grammar_fueled. unfold filter_fuel. lia.
Qed.

(** Each iteration of the flat parser reads the condition's first byte. *)

Lemma filters_loop_answers fuel : forall conn s acc,
  (length s < fuel)%nat -> filters_loop fuel conn s acc <> None.
Proof.
  induction fuel as [|f IH]; intros conn s acc Hf; [lia|]. cbn [filters_loop].
  pose proof (SkipWhitespace_le s) as Hs. destruct (SkipWhitespace s) as [|x s'] eqn:Es; [done|].
  set (t := x :: s') in *.
  assert (forall r acc', (length r < length t)%nat ->
    (let (conn', r') := next_connector r in filters_loop f conn' r' acc') <> None) as Hnext.
  { intros r acc' Hr. destruct (next_connector r) as [k r'] eqn:E. apply next_connector_length in E.
    apply IH. lia. }
  destruct (geo_condition t) as [[[c r]|]|] eqn:G; [|done|].
  { apply geo_condition_length in G. by apply Hnext. }
  destruct (span is_field_char t) as [[|f0 field] r] eqn:E; [done|]. apply span_length in E.
  pose proof (SkipWhitespace_le r). destruct (SkipWhitespace r) as [|c0 r1]; [done|].
  destruct (negb _); [done|]. pose proof (SkipWhitespace_le r1). cbn [length] in *.
  set (u := SkipWhitespace r1) in *.
  destruct (match u with [] => _ | _ => _ end) as [[[op v] r2]|] eqn:F; [|done].
  apply Hnext. destruct u as [|o r3].
  - apply (inj Some), flat_operator_length in F. lia.
  - cbn [length] in *. case_bool_decide; [apply range_condition_length in F; lia|].
    apply (inj Some), flat_operator_length in F. cbn [length] in F. lia.
Qed.

Lemma ParseFilters_answers s : ParseFilters s <> None.
Proof. apply filters_loop_answers. lia. Qed.

(** ** Scanning the grammar's texts *)

Lemma blank_space c : is_blank c = true -> isspace c = true.
Proof. by_bytes (fun c => negb (is_blank c) || isspace c) c. by destruct (is_blank c), (isspace c). Qed.

Lemma field_char_space c : is_field_char c = true -> isspace c = false.
Proof. by_bytes (fun c => negb (is_field_char c) || negb (isspace c)) c. by destruct (is_field_char c), (isspace c). Qed.

Lemma SkipWhitespace_app w s : spaces w -> SkipWhitespace (w ++ s) = SkipWhitespace s.
Proof. apply skip_while_app. Qed.

Lemma SkipWhitespace_cons c s : isspace c = false -> SkipWhitespace (c :: s) = c :: s.
Proof. intros H. unfold SkipWhitespace, skip_while. cbn [span]. by rewrite H. Qed.

Lemma at_connector_head a s : at_connector (a :: s) = true -> a = "&"%char \/ a = "|"%char.
Proof.
  destruct s as [|b s]; [done|]. cbn [at_connector]. rewrite bool_decide_eq_true.
  rewrite !elem_of_cons. intros [[= -> _]|[[= -> _]|?%not_elem_of_nil]]; auto; done.
Qed.

Lemma hard_stop_skip h : hard_stop h = true -> SkipWhitespace h = h.
Proof.
  destruct h as [|c h]; [done|]. cbn [hard_stop]. intros H. apply SkipWhitespace_cons.
  apply orb_true_iff in H as [->%bool_decide_eq_true|[->| ->]%at_connector_head]; done.
Qed.

Lemma delimiter_hard rest : delimiter rest -> hard_stop (SkipWhitespace rest) = true.
Proof.
  intros (w & h & -> & Hw & Hh). rewrite SkipWhitespace_app, hard_stop_skip; [done|done|].
  eapply Forall_impl; [done|]. apply blank_space.
Qed.

Lemma hard_delimiter h : hard_stop h = true -> delimiter h.
Proof. intros H. exists [], h. by split_and!; [|constructor|]. Qed.

Lemma delimiter_blanks w rest : blanks w -> delimiter rest -> delimiter (w ++ rest).
Proof.
  intros Hw (w' & h & -> & Hw' & Hh). exists (w ++ w'), h.
  split_and!; [by rewrite app_assoc|by apply Forall_app|done].
Qed.

Lemma scan_blanks w h : blanks w -> hard_stop h = true -> (scan_value true (w ++ h)) = (w, h).
Proof.
  intros Hw Hh. induction Hw as [|c w Hc Hw IH].
  - destruct h as [|c h]; [done|]. cbn [app scan_value hard_stop andb] in *. by rewrite Hh.
  - cbn [app scan_value]. rewrite IH, bool_decide_false by (by intros ->).
    destruct (at_connector _) eqn:E; [|done]. by apply at_connector_head in E as [->| ->].
Qed.

Lemma scan_value_text v rest w h :
  free_of_stops v = true -> last v <> Some "&"%char -> last v <> Some "|"%char ->
  rest = w ++ h -> blanks w -> hard_stop h = true -> scan_value true (v ++ rest) = (v ++ w, h).
Proof.
  intros Hv Ha Ho -> Hw Hh. induction v as [|c v IH]; [exact (scan_blanks w h Hw Hh)|].
  cbn [free_of_stops app scan_value] in *. apply andb_true_iff in Hv as [[Hp Hc]%andb_true_iff Hv].
  destruct (bool_decide (c = ")"%char)); [done|]. cbn [andb orb].
  assert (at_connector (c :: v ++ w ++ h) = false) as ->.
  { destruct v as [|d v]; [|by apply negb_true_iff in Hc]. apply not_true_iff_false.
    intros [->| ->]%at_connector_head; done. }
  rewrite IH; [done|done|..]; by destruct v.
Qed.

Lemma Trim_trimmed v w : trimmed v = true -> blanks w -> Trim (v ++ w) = v.
Proof.
  unfold trimmed. intros H Hw. destruct (head v) as [c|] eqn:Hc; [|done]. destruct (last v) as [d|] eqn:Hd; [|done].
  apply andb_true_iff in H as [H1%negb_true_iff H2%negb_true_iff].
  unfold Trim, trim. rewrite (skip_while_stays _ (v ++ w)).
  - rewrite reverse_app, skip_while_app by (by apply Forall_reverse).
    rewrite skip_while_stays; [by rewrite reverse_involutive|].
    intros e. rewrite head_reverse, Hd. by intros [= <-].
  - intros e. destruct v; [done|]. simpl in *. intros [= <-]. injection Hc as <-.
    destruct (is_blank a) eqn:E; [|done]. by rewrite (blank_space _ E) in H1.
Qed.

Lemma Trim_id v : trimmed v = true -> Trim v = v.
Proof. intros H. rewrite <- (app_nil_r v) at 1. apply Trim_trimmed; [done|constructor]. Qed.

Lemma trimmed_nonempty v : trimmed v = true -> v <> [].
Proof. by destruct v. Qed.

(** Two literals that differ at a common position. *)

Fixpoint conflict (p q : bytes) : bool :=
  match p, q with
  | a :: p', b :: q' => negb (bool_decide (a = b)) || conflict p' q'
  | _, _ => false
  end.

Lemma literal_at_conflict p q x : conflict p q = true -> literal_at p (q ++ x) = None.
Proof.
  intros H. destruct (literal_at p (q ++ x)) as [r|] eqn:E; [|done]. apply literal_at_spec in E. exfalso.
  revert q x E H. induction p as [|a p IH]; intros [|b q] x; simpl; try done.
  intros [= -> E] H. rewrite bool_decide_true in H by done. by eapply IH.
Qed.

(** A literal found in front of a byte it does not contain was complete before. *)

Lemma starts_with_before p f c r : c ∉ p -> starts_with p (f ++ c :: r) = true -> starts_with p f = true.
Proof.
  intros Hc [x E]%starts_with_spec. apply starts_with_spec.
  apply app_eq_inv in E as [(k & -> & E)|(k & -> & E)]; [by eauto|].
  destruct k as [|d k]; [exists []; by rewrite !app_nil_r|]. simplify_eq/=. set_solver.
Qed.

(** ** Conditions *)

(** What [ParseCondition] does behind the field and its colon. *)

Definition condition_tail (field r : bytes) : option (FilterCondition * bytes) :=
  match r with
  | o :: r' =>
      if bool_decide (o ∈ ["["; "{"]%char) then
        match range_condition o r' with
        | Some (op, value, rest) => Some (mkCondition field op value [], rest)
        | None => None
        end
      else
        match literal_at #"ISNULL" r, literal_at #"ISNOTNULL" r with
        | Some rest, _ => Some (mkCondition field #"ISNULL" [] [], rest)
        | None, Some rest => Some (mkCondition field #"ISNOTNULL" [] [], rest)
        | None, None =>
            let (op, r) := scan_operator r in
            let (raw, rest) := scan_value true (SkipWhitespace r) in
            let value := Trim raw in
            if bool_decide (value = []) then None else Some (mkCondition field op value [], rest)
        end
  | [] => None
  end.

Lemma field_name_shape f :
  field_name f = true ->
  exists c r, f = c :: r /\ Forall (fun c => is_field_char c = true) f /\
    starts_with #"_geo_radius" f = false /\ starts_with #"_geo_box" f = false.
Proof.
  unfold field_name. rewrite !andb_true_iff, !negb_true_iff, bool_decide_eq_false, forallb_forall.
  intros [[[Hn Hf] H1] H2]. destruct f as [|c r]; [done|]. exists c, r. split_and!; try done.
  apply Forall_forall. intros x Hx. apply Hf. by apply list_elem_of_In.
Qed.

Lemma not_field_char_head w x : spaces w ->
  forall c r, w ++ #":" ++ x = c :: r -> is_field_char c = false.
Proof.
  intros [|c w' Hc Hw] c' r'; simpl; intros [= <- _]; [done|].
  destruct (is_field_char c) eqn:E; [|done]. by rewrite (field_char_space _ E) in Hc.
Qed.

Lemma no_literal p f x :
  starts_with p f = false -> (forall c r, x = c :: r -> c ∉ p) -> literal_at p (f ++ x) = None.
Proof.
  intros Hf Hx. destruct (literal_at p (f ++ x)) as [r|] eqn:E; [|done].
  apply literal_at_spec in E. apply not_true_iff_false in Hf. destruct Hf.
  destruct x as [|c x]; [apply starts_with_spec; exists r; by rewrite <- E, app_nil_r|].
  apply (starts_with_before _ _ c x); [by eapply Hx|]. apply starts_with_spec. eauto.
Qed.

Lemma geo_keywords_field_chars kw c : kw ∈ [ #"_geo_radius"; #"_geo_box"] -> c ∈ kw -> is_field_char c = true.
Proof.
  intros Hk Hc. assert (forallb is_field_char kw = true) as H.
  { rewrite !elem_of_cons in Hk. destruct Hk as [->|[->|?%not_elem_of_nil]]; done. }
  rewrite forallb_forall in H. by apply H, list_elem_of_In.
Qed.

Lemma field_not_geo f x :
  starts_with #"_geo_radius" f = false -> starts_with #"_geo_box" f = false ->
  (forall c r, x = c :: r -> is_field_char c = false) -> geo_condition (f ++ x) = None.
Proof.
  intros H1 H2 Hx. unfold geo_condition. rewrite !no_literal; try done; intros d y Hd Hk; apply Hx in Hd;
    match type of Hk with _ ∈ ?kw => enough (is_field_char d = true) by congruence;
      apply (geo_keywords_field_chars kw); [repeat constructor|done] end.
Qed.

Lemma ParseCondition_field f w1 w2 x :
  field_name f = true -> spaces w1 -> spaces w2 -> SkipWhitespace x = x ->
  ParseCondition (f ++ w1 ++ #":" ++ w2 ++ x) = condition_tail f x.
Proof.
  intros Hf H1 H2 Hx. pose proof (not_field_char_head w1 (w2 ++ x) H1) as Hc.
  apply field_name_shape in Hf as (c & r & Ef & Hf & Hr & Hb). unfold ParseCondition.
  assert (SkipWhitespace (f ++ w1 ++ #":" ++ w2 ++ x) = f ++ w1 ++ #":" ++ w2 ++ x) as ->.
  { subst f. apply SkipWhitespace_cons, field_char_space. by inv Hf. }
  rewrite (field_not_geo f (w1 ++ #":" ++ w2 ++ x)) by done.
  rewrite (span_split is_field_char f _ Hf Hc), SkipWhitespace_app by done.
  subst f. change (#":" ++ w2 ++ x) with (":"%char :: w2 ++ x). rewrite SkipWhitespace_cons by done.
  rewrite SkipWhitespace_app, Hx by done. by destruct x.
Qed.

(** *** The value of a condition *)

Lemma value_text_parts v :
  value_text v = true ->
  trimmed v = true /\ free_of_stops v = true /\ last v <> Some "&"%char /\ last v <> Some "|"%char.
Proof.
  unfold value_text. rewrite !andb_true_iff, negb_true_iff, bool_decide_eq_false.
  rewrite !elem_of_cons. naive_solver.
Qed.

Lemma trimmed_skip v x : trimmed v = true -> SkipWhitespace (v ++ x) = v ++ x.
Proof.
  unfold trimmed. destruct v as [|c v]; [done|]. cbn [head]. destruct (last _); [|done].
  intros [H%negb_true_iff _]%andb_true_iff. by apply SkipWhitespace_cons.
Qed.

Lemma scanned_value v rest w : value_text v = true -> delimiter rest -> spaces w ->
  exists raw h, scan_value true (SkipWhitespace (w ++ v ++ rest)) = (raw, h) /\
    Trim raw = v /\ SkipWhitespace h = SkipWhitespace rest.
Proof.
  intros (Ht & Hs & Ha & Ho)%value_text_parts (w' & h & -> & Hw' & Hh) Hw.
  rewrite SkipWhitespace_app, trimmed_skip by done.
  exists (v ++ w'), h. split_and!; [by eapply scan_value_text|by apply Trim_trimmed|].
  symmetry. apply SkipWhitespace_app. eapply Forall_impl; [done|apply blank_space].
Qed.

Lemma scan_operator_text op t x :
  (op, t) ∈ value_operators -> operator_apart t x = true -> scan_operator (t ++ x) = (op, x).
Proof.
  intros Hin Ha. unfold scan_operator, word_operator. unfold value_operators in Hin.
  rewrite !elem_of_cons in Hin.
  destruct Hin as [E|[E|[E|[E|[E|[E|[E|[E|[E|[E|[E|?%not_elem_of_nil]]]]]]]]]]]; [..|done];
    injection E as -> ->;
    repeat (rewrite literal_at_conflict by done);
    try (match goal with |- context [literal_at ?p (?p ++ x)] =>
           assert (literal_at p (p ++ x) = Some x) as -> by by apply literal_at_spec end; done);
    try done.
  all: destruct x as [|c x]; [done|].
  all: cbn [app two_char_op one_char_op];
    rewrite (bool_decide_false ([_; c] ∈ _)); [done|].
  all: rewrite !elem_of_cons; intros Hin.
  3: destruct Hin as [E|[E|[E|[E|?%not_elem_of_nil]]]]; done.
  all: assert (c = "="%char) as -> by (destruct Hin as [E|[E|[E|[E|?%not_elem_of_nil]]]]; [by inversion E..|done]).
  all: done.
Qed.

(** *** Each form of condition *)

Lemma condition_tail_value f op t w v rest :
  (op, t) ∈ value_operators -> spaces w -> operator_apart t (w ++ v) = true -> value_text v = true -> delimiter rest ->
  exists r', condition_tail f (t ++ w ++ v ++ rest) = Some (mkCondition f op v [], r') /\
    SkipWhitespace r' = SkipWhitespace rest.
Proof.
  intros Hop Hw Ha Hv Hd. destruct (scanned_value v rest w Hv Hd Hw) as (raw & h & Es & Et & Eh).
  assert (operator_apart t (w ++ v ++ rest) = true) as Ha'.
  { revert Ha. unfold operator_apart. apply value_text_parts, proj1, trimmed_nonempty in Hv.
    destruct (bool_decide _); [|done]. cbn [negb orb]. rewrite app_assoc.
    destruct (w ++ v) as [|c y] eqn:E; [by destruct w, v|]. done. }
  exists h. split; [|done].
  assert (condition_tail f (t ++ w ++ v ++ rest) =
    let (op, r) := scan_operator (t ++ w ++ v ++ rest) in
    let (raw, rest) := scan_value true (SkipWhitespace r) in
    if bool_decide (Trim raw = []) then None else Some (mkCondition f op (Trim raw) [], rest)) as ->.
  { clear -Hop. unfold value_operators in Hop. rewrite !elem_of_cons in Hop.
    destruct Hop as [E|[E|[E|[E|[E|[E|[E|[E|[E|[E|[E|?%not_elem_of_nil]]]]]]]]]]]; [..|done]; by injection E as -> ->. }
  rewrite (scan_operator_text op t _ Hop Ha'), Es, Et, bool_decide_false; [done|].
  by apply value_text_parts, proj1, trimmed_nonempty in Hv.
Qed.

Lemma delimiter_head rest c r :
  delimiter rest -> rest = c :: r -> is_blank c = true \/ c ∈ [")"; "&"; "|"]%char.
Proof.
  intros (w & h & -> & Hw & Hh) E. destruct Hw as [|d w Hd Hw]; simplify_eq/=; [|by left].
  right. apply orb_true_iff in Hh as [->%bool_decide_eq_true|[->| ->]%at_connector_head]; set_solver.
Qed.

Lemma bare_literal p v rest :
  p ∈ operator_starts -> bare_value v = true -> delimiter rest -> literal_at p (v ++ rest) = None.
Proof.
  intros Hp Hv Hd. apply no_literal.
  - unfold bare_value in Hv. rewrite forallb_forall in Hv. by apply negb_true_iff, Hv, list_elem_of_In.
  - intros c r Hr Hc. apply (delimiter_head _ _ _ Hd) in Hr.
    assert (forallb (fun p => forallb (fun c => negb (is_blank c || bool_decide (c ∈ [")"; "&"; "|"]%char))) p)
              operator_starts = true) as H by (vm_compute; reflexivity).
    rewrite forallb_forall in H. specialize (H p ltac:(by apply list_elem_of_In)).
    rewrite forallb_forall in H. specialize (H c ltac:(by apply list_elem_of_In)).
    apply negb_true_iff, orb_false_iff in H as [H1 H2%bool_decide_eq_false]. destruct Hr; congruence.
Qed.

Lemma two_char_op_literal s op r : two_char_op s = Some (op, r) ->
  exists p, p ∈ [ #"!="; #">="; #"<="; #":="] /\ literal_at p s = Some r.
Proof.
  unfold two_char_op. destruct s as [|a [|b s]]; try done. case_bool_decide as H; [|done].
  intros [= <- <-]. exists [a; b]. split; [done|]. by apply literal_at_spec.
Qed.

Lemma one_char_op_literal s op r : one_char_op s = Some (op, r) ->
  exists p, p ∈ [ #">"; #"<"; #"="] /\ literal_at p s = Some r.
Proof.
  unfold one_char_op. destruct s as [|a s]; try done. case_bool_decide as H; [|done].
  intros [= <- <-]. exists [a]. split; [set_solver|]. by apply literal_at_spec.
Qed.

Lemma condition_tail_bare f v rest :
  bare_value v = true -> value_text v = true -> delimiter rest ->
  exists r', condition_tail f (v ++ rest) = Some (mkCondition f #"=" v [], r') /\
    SkipWhitespace r' = SkipWhitespace rest.
Proof.
  intros Hb Hv Hd. destruct (scanned_value v rest [] Hv Hd ltac:(constructor)) as (raw & h & Es & Et & Eh).
  rewrite app_nil_l in Es. exists h. split; [|done].
  pose proof (value_text_parts _ Hv) as (Ht & _). apply trimmed_nonempty in Ht.
  assert (forall p, p ∈ operator_starts -> literal_at p (v ++ rest) = None) as L by (intros; by apply bare_literal).
  assert (scan_operator (v ++ rest) = (#"=", v ++ rest)) as So.
  { unfold scan_operator, word_operator. rewrite !L by set_solver.
    destruct (two_char_op (v ++ rest)) as [[op r]|] eqn:E2.
    { apply two_char_op_literal in E2 as (p & Hp & E). rewrite L in E; [done|]. set_solver. }
    destruct (one_char_op (v ++ rest)) as [[op r]|] eqn:E1; [|done].
    apply one_char_op_literal in E1 as (p & Hp & E). rewrite L in E; [done|]. set_solver. }
  unfold condition_tail. destruct (v ++ rest) as [|o y] eqn:E; [by destruct v|].
  rewrite bool_decide_false.
  - rewrite !L by set_solver. by rewrite So, Es, Et, bool_decide_false.
  - intros Ho. assert (literal_at [o] (o :: y) = Some y) as H by by apply literal_at_spec.
    rewrite L in H; [done|]. set_solver.
Qed.

Lemma condition_tail_null f op rest :
  op ∈ [ #"ISNULL"; #"ISNOTNULL"] -> condition_tail f (op ++ rest) = Some (mkCondition f op [] [], rest).
Proof.
  rewrite !elem_of_cons. intros [->|[->|?%not_elem_of_nil]]; done.
Qed.

Lemma starts_with_le p x y : (length p <= length x)%nat -> starts_with p (x ++ y) = starts_with p x.
Proof. intros H. unfold starts_with. by rewrite take_app_le. Qed.

Lemma find_sub_app p a b : find_sub p (a ++ p) = Some (length a) -> find_sub p (a ++ p ++ b) = Some (length a).
Proof.
  rewrite app_assoc. induction a as [|c a IH]; cbn [app length].
  - intros _. assert (starts_with p (p ++ b) = true) as H by (apply starts_with_spec; eauto).
    by destruct (p ++ b); cbn [find_sub]; rewrite H.
  - cbn [find_sub]. change (c :: (a ++ p) ++ b) with ((c :: a ++ p) ++ b).
    rewrite starts_with_le by (simpl; rewrite length_app; lia).
    destruct (starts_with _ _); [done|]. destruct (find_sub p (a ++ p)) as [k|]; [|done].
    intros [= ->]. by rewrite IH.
Qed.

Lemma trimmed_join a b m : trimmed a = true -> trimmed b = true -> trimmed (a ++ m ++ b) = true.
Proof.
  unfold trimmed. destruct a as [|c a]; [done|]. cbn [app head]. intros Ha Hb.
  destruct (last (c :: a)); [|done]. apply andb_true_iff in Ha as [-> _].
  rewrite app_comm_cons, app_assoc, last_app. destruct (head b), (last b); [|done..].
  by apply andb_true_iff in Hb as [_ ->].
Qed.

Lemma range_condition_text inclusive lo hi rest :
  range_text inclusive lo hi = true ->
  range_condition (open_of inclusive) (lo ++ #" TO " ++ hi ++ [close_of inclusive] ++ rest) =
  Some (if inclusive then #"RANGE_INCLUSIVE" else #"RANGE_EXCLUSIVE", lo ++ #"," ++ hi, rest).
Proof.
  unfold range_text. rewrite !andb_true_iff, forallb_app, andb_true_iff, !forallb_forall, bool_decide_eq_true.
  intros [[[Hl Hh] [Hcl Hch]] Hto]. unfold range_condition.
  replace (if bool_decide (open_of inclusive = _) then _ else _) with (close_of inclusive) by (by destruct inclusive).
  replace (lo ++ #" TO " ++ hi ++ [close_of inclusive] ++ rest)
    with ((lo ++ #" TO " ++ hi) ++ close_of inclusive :: rest) by (by rewrite <- !app_assoc).
  rewrite span_split.
  - rewrite (Trim_id (lo ++ _ ++ hi)) by by apply trimmed_join.
    rewrite find_sub_app by done. rewrite take_app_length, drop_app_add.
    change (drop 4 (#" TO " ++ hi)) with hi. rewrite !Trim_id by done. by destruct inclusive.
  - apply Forall_app; split; [|apply Forall_app; split]; apply Forall_forall; intros c Hc.
    + apply Hcl. by apply list_elem_of_In.
    + destruct inclusive; revert c Hc; apply Forall_forall; repeat constructor.
    + apply Hch. by apply list_elem_of_In.
  - intros c r [= <- _]. by rewrite bool_decide_true.
Qed.

Lemma condition_tail_range f inclusive lo hi rest :
  range_text inclusive lo hi = true ->
  condition_tail f ([open_of inclusive] ++ lo ++ #" TO " ++ hi ++ [close_of inclusive] ++ rest) =
  Some (mkCondition f (if inclusive then #"RANGE_INCLUSIVE" else #"RANGE_EXCLUSIVE") (lo ++ #"," ++ hi) [], rest).
Proof.
  intros H. pose proof (range_condition_text _ _ _ rest H) as R.
  change (condition_tail f (open_of inclusive :: lo ++ #" TO " ++ hi ++ [close_of inclusive] ++ rest) =
    Some (mkCondition f (if inclusive then #"RANGE_INCLUSIVE" else #"RANGE_EXCLUSIVE") (lo ++ #"," ++ hi) [], rest)).
  unfold condition_tail. rewrite bool_decide_true by (destruct inclusive; set_solver). by rewrite R.
Qed.

Lemma scan_args_text args rest : forall d,
  paren_depth (S d) args = Some 1%nat -> scan_args (S d) (args ++ #")" ++ rest) = (args, #")" ++ rest).
Proof.
  induction args as [|c args IH]; intros d; cbn [paren_depth app].
  - intros [= ->]. done.
  - intros H. cbn [scan_args]. case_bool_decide; [by rewrite (IH (S d))|]. case_bool_decide.
    + destruct d as [|d]; [done|]. cbn [Nat.sub]. by rewrite (IH d).
    + by rewrite (IH d).
Qed.

Lemma geo_condition_text (radius : bool) args w rest :
  spaces w -> paren_depth 1 args = Some 1%nat ->
  geo_condition ((if radius then #"_geo_radius" else #"_geo_box") ++ w ++ #"(" ++ args ++ #")" ++ rest) =
  Some (Some (mkCondition (if radius then #"_geo_radius" else #"_geo_box") (if radius then #"GEO_RADIUS" else #"GEO_BOX")
         (Trim args) [], rest)).
Proof.
  intros Hw Hd. unfold geo_condition. pose proof (scan_args_text args rest 0 Hd) as E.
  assert (forall k x, literal_at k (k ++ x) = Some x) as L by (intros; by apply literal_at_spec).
  destruct radius; [|rewrite literal_at_conflict by done]; rewrite L, SkipWhitespace_app by done;
    change (#"(" ++ ?x) with ("("%char :: x); rewrite SkipWhitespace_cons, E by done; done.
Qed.

(** Every condition text is read as its condition. *)

Lemma ParseCondition_text c s rest :
  condition_text c s -> delimiter rest ->
  exists r', ParseCondition (s ++ rest) = Some (c, r') /\ SkipWhitespace r' = SkipWhitespace rest.
Proof.
  intros Hc Hd. destruct Hc as [f op t v w1 w2 w3 Hf H1 H2 H3 Hop Ha Hv|f v w1 w2 Hf H1 H2 Hb Hv
    |f op w1 w2 Hf H1 H2 Hop|f inclusive lo hi w1 w2 Hf H1 H2 Hr|radius args w Hw Hp]; rewrite <- !app_assoc.
  - rewrite ParseCondition_field; [by apply condition_tail_value|done..|].
    unfold value_operators in Hop. rewrite !elem_of_cons in Hop.
    destruct Hop as [E|[E|[E|[E|[E|[E|[E|[E|[E|[E|[E|?%not_elem_of_nil]]]]]]]]]]]; [..|done]; by injection E as -> ->.
  - rewrite ParseCondition_field; [by apply condition_tail_bare|done..|].
    by apply trimmed_skip, value_text_parts.
  - exists rest. split; [|done]. rewrite ParseCondition_field, condition_tail_null; try done.
    rewrite !elem_of_cons in Hop. by destruct Hop as [->|[->|?%not_elem_of_nil]].
  - exists rest. split; [|done]. rewrite ParseCondition_field, condition_tail_range; try done.
    by destruct inclusive.
  - exists rest. split; [|done]. unfold ParseCondition. pose proof (geo_condition_text radius args w rest Hw Hp) as G.
    assert (forall x, SkipWhitespace ((if radius then #"_geo_radius" else #"_geo_box") ++ x) =
      (if radius then #"_geo_radius" else #"_geo_box") ++ x) as -> by (by destruct radius).
    by rewrite G.
Qed.

(** ** Completeness of the expression parser *)

Definition no_and (rest : bytes) : Prop := Match #"&&" rest = None.

Definition parses (l : level) (n : FilterExpressionNode) (s : bytes) : Prop :=
  forall rest, delimiter rest -> (l = LOr -> no_and rest) ->
  exists r', SkipWhitespace r' = SkipWhitespace rest /\
  match l with
  | LPrimary => settles (fun f => ParsePrimary f (s ++ rest)) (Some (n, r'))
  | LAnd => forall x, settles (fun f => and_loop f n r') x -> settles (fun f => ParseAnd f (s ++ rest)) x
  | LOr => forall x, settles (fun f => or_loop f n r') x -> settles (fun f => ParseOr f (s ++ rest)) x
  end.

Lemma settles_ret {A} (x : A) : settles (fun _ => Some x) x.
Proof. by exists 0%nat. Qed.

(** Running one function of the grammar, then another on what it left. *)

Lemma settles_bind (g : nat -> parsed FilterExpressionNode) (k : nat -> FilterExpressionNode -> bytes -> parsed FilterExpressionNode) n r x :
  settles g (Some (n, r)) -> settles (fun f => k f n r) x ->
  settles (fun f => match g f with Some (Some (node, r)) => k f node r | other => other end) x.
Proof.
  intros [a Ha] [b Hb]. exists (Nat.max a b). intros f Hf. rewrite Ha, Hb by lia. done.
Qed.

Lemma Match_skip t r rest : SkipWhitespace r = SkipWhitespace rest -> Match t r = Match t rest.
Proof. unfold Match. by intros ->. Qed.

Lemma Match_here t x c t' : t = c :: t' -> isspace c = false -> Match t (t ++ x) = Some x.
Proof.
  intros -> Hc. unfold Match. rewrite <- app_comm_cons, SkipWhitespace_cons by done. by apply literal_at_spec.
Qed.

Lemma and_loop_stops n r : Match #"&&" r = None -> settles (fun f => and_loop f n r) (Some (n, r)).
Proof. intros H. eapply settles_S; [intros f; rewrite and_loop_S, H; done|apply settles_ret]. Qed.

Lemma or_loop_stops n r : Match #"||" r = None -> settles (fun f => or_loop f n r) (Some (n, r)).
Proof. intros H. eapply settles_S; [intros f; rewrite or_loop_S, H; done|apply settles_ret]. Qed.

Lemma ParsePrimary_spaces w x f : spaces w -> ParsePrimary f (w ++ x) = ParsePrimary f x.
Proof. intros Hw. destruct f as [|f]; [done|]. by rewrite !ParsePrimary_S, SkipWhitespace_app. Qed.

Lemma condition_text_head c s : condition_text c s -> exists d r, s = d :: r /\ is_field_char d = true.
Proof.
  intros Hc. destruct Hc as [f op t v w1 w2 w3 Hf| f v w1 w2 Hf|f op w1 w2 Hf|f inclusive lo hi w1 w2 Hf|[] args w Hw Hp];
    try (apply field_name_shape in Hf as (d & r & -> & Hf & _); exists d; eexists; split; [done|by inv Hf]);
    by eexists _, _.
Qed.

Lemma parses_condition c s : condition_text c s -> parses LPrimary (NCondition c) s.
Proof.
  intros Hc rest Hd _. destruct (ParseCondition_text c s rest Hc Hd) as (r' & E & Hr). exists r'. split; [done|].
  destruct (condition_text_head c s Hc) as (d & y & -> & Hf).
  eapply settles_S; [|apply settles_ret]. intros f. rewrite ParsePrimary_S.
  rewrite <- app_comm_cons, SkipWhitespace_cons by by apply field_char_space.
  rewrite !bool_decide_false by (by intros ->). unfold condition_node. by rewrite app_comm_cons, E.
Qed.

Lemma hard_close rest : hard_stop (#")" ++ rest) = true.
Proof. done. Qed.

Lemma hard_and rest : hard_stop (#"&&" ++ rest) = true.
Proof. done. Qed.

Lemma hard_or rest : hard_stop (#"||" ++ rest) = true.
Proof. done. Qed.

Lemma parses_group n s : parses LOr n s -> parses LPrimary n (#"(" ++ s ++ #")").
Proof.
  intros IH rest _ _. destruct (IH (#")" ++ rest)) as (r' & Hr & H); [by apply hard_delimiter|done|].
  exists rest. split; [done|]. rewrite (hard_stop_skip _ (hard_close rest)) in Hr.
  eapply settles_S.
  { intros f. rewrite ParsePrimary_S. rewrite <- !app_assoc. change (#"(" ++ ?x) with ("("%char :: x).
    rewrite SkipWhitespace_cons by done. rewrite bool_decide_false, bool_decide_true by done. done. }
  eapply (settles_bind _ (fun _ node r => _) n r'); [|cbv beta; rewrite Hr; apply settles_ret].
  apply H, or_loop_stops. unfold Match. by rewrite Hr.
Qed.

Lemma parses_not n s : parses LPrimary n s -> parses LPrimary (NNot n) (#"!" ++ s).
Proof.
  intros IH rest Hd _. destruct (IH rest Hd ltac:(done)) as (r' & Hr & H). exists r'. split; [done|].
  eapply settles_S.
  { intros f. rewrite ParsePrimary_S. rewrite <- !app_assoc. change (#"!" ++ ?x) with ("!"%char :: x).
    rewrite SkipWhitespace_cons by done. rewrite bool_decide_true by done. done. }
  eapply (settles_bind _ (fun _ node r => _) n r'); [done|apply settles_ret].
Qed.

Lemma parses_and_step l r s t :
  parses LAnd l s -> parses LPrimary r t -> parses LAnd (NAnd l r) (s ++ #"&&" ++ t).
Proof.
  intros IHl IHr rest Hd _. destruct (IHr rest Hd ltac:(done)) as (r2 & Hr2 & H2).
  destruct (IHl (#"&&" ++ t ++ rest)) as (r1 & Hr1 & H1); [by apply hard_delimiter|done|].
  exists r2. split; [done|]. intros x Hx. rewrite <- !app_assoc. apply H1.
  apply (settles_S _ (fun f => match ParsePrimary f (t ++ rest) with
    | Some (Some (rhs, r')) => and_loop f (NAnd l rhs) r' | other => other end)).
  - intros f. rewrite and_loop_S, (Match_skip _ _ _ Hr1), (Match_here #"&&" _ "&"%char #"&"); done.
  - by apply (settles_bind _ (fun f rhs r' => and_loop f (NAnd l rhs) r') r r2).
Qed.

Lemma parses_and_first n s : parses LPrimary n s -> parses LAnd n s.
Proof.
  intros IH rest Hd _. destruct (IH rest Hd ltac:(done)) as (r' & Hr & H). exists r'. split; [done|].
  intros x Hx. eapply settles_S; [intros f; apply ParseAnd_S|]. by apply (settles_bind _ and_loop n r').
Qed.

Lemma ParseAnd_settles n s rest :
  parses LAnd n s -> delimiter rest -> no_and rest ->
  exists r', SkipWhitespace r' = SkipWhitespace rest /\ settles (fun f => ParseAnd f (s ++ rest)) (Some (n, r')).
Proof.
  intros H Hd Hn. destruct (H rest Hd ltac:(done)) as (r' & Hr & Hx). exists r'. split; [done|].
  apply Hx, and_loop_stops. by rewrite (Match_skip _ _ _ Hr).
Qed.

Lemma parses_or_first n s : parses LAnd n s -> parses LOr n s.
Proof.
  intros IH rest Hd Hn. destruct (ParseAnd_settles n s rest IH Hd (Hn eq_refl)) as (r' & Hr & H).
  exists r'. split; [done|]. intros x Hx. eapply settles_S; [intros f; apply ParseOr_S|].
  by apply (settles_bind _ or_loop n r').
Qed.

Lemma parses_or_step l r s t :
  parses LOr l s -> parses LAnd r t -> parses LOr (NOr l r) (s ++ #"||" ++ t).
Proof.
  intros IHl IHr rest Hd Hn. destruct (ParseAnd_settles r t rest IHr Hd (Hn eq_refl)) as (r2 & Hr2 & H2).
  destruct (IHl (#"||" ++ t ++ rest)) as (r1 & Hr1 & H1); [by apply hard_delimiter|done|].
  exists r2. split; [done|]. intros x Hx. rewrite <- !app_assoc. apply H1.
  apply (settles_S _ (fun f => match ParseAnd f (t ++ rest) with
    | Some (Some (rhs, r')) => or_loop f (NOr l rhs) r' | other => other end)).
  - intros f. rewrite or_loop_S, (Match_skip _ _ _ Hr1), (Match_here #"||" _ "|"%char #"|"); done.
  - by apply (settles_bind _ (fun f rhs r' => or_loop f (NOr l rhs) r') r r2).
Qed.

Lemma filter_text_parses l n s : filter_text l n s -> parses l n s.
Proof.
  induction 1 as [c s Hc|n s H IH|n s H IH|w n s Hw H IH|w n s Hw H IH|n s H IH|l r s t H1 IH1 H2 IH2|n s H IH|l r s t H1 IH1 H2 IH2].
  - by apply parses_condition.
  - by apply parses_not.
  - by apply parses_group.
  - intros rest Hd Hl. destruct (IH rest Hd Hl) as (r' & Hr & [m Hm]). exists r'. split; [done|].
    exists m. intros f Hf. rewrite <- app_assoc, ParsePrimary_spaces by done. auto.
  - intros rest Hd Hl. destruct (IH (w ++ rest)) as (r' & Hr & H'); [by apply delimiter_blanks|done|].
    exists r'. rewrite <- app_assoc. split; [|done]. rewrite Hr. apply SkipWhitespace_app.
    eapply Forall_impl; [done|apply blank_space].
  - by apply parses_and_first.
  - by apply parses_and_step.
  - by apply parses_or_first.
  - by apply parses_or_step.
Qed.

Lemma Parse_text n s : filter_text LOr n s -> Parse s = Some (Some n).
Proof.
  intros H. destruct (filter_text_parses _ _ _ H []) as (r' & Hr & Hx); [by apply hard_delimiter|done|].
  rewrite app_nil_r in Hx. apply (Parse_settles s n r'); [|done].
  apply Hx, or_loop_stops. by rewrite (Match_skip _ _ [] Hr).
Qed.

(** ** Printing *)

Lemma filter_text_lift n s : filter_text LPrimary n s -> forall l, filter_text l n s.
Proof. intros H [| |]; [done|by constructor|by do 2 constructor]. Qed.

Lemma print_condition_text c : printable_condition c = true -> condition_text c (print_condition c).
Proof.
  destruct c as [f op v k]. unfold printable_condition, print_condition. cbn [Field Op Value LogicalConnector].
  rewrite !andb_true_iff, orb_true_iff, !andb_true_iff, !bool_decide_eq_true.
  intros [[Hf ->] [[Hop ->]|[[Hop Ha] Hv]]].
  - rewrite bool_decide_false, !app_nil_r.
    + apply (ct_null f op [] []); [done|constructor..|done].
    + rewrite !elem_of_cons in Hop. destruct Hop as [->|[->|?%not_elem_of_nil]]; [..|done];
        match goal with |- ~ ?P => by apply (bool_decide_eq_false_1 P) end.
  - set (t := op ++ (if bool_decide (op ∈ like_operators) then #":" else [])).
    assert ((op, t) ∈ value_operators /\ operator_apart t v = true) as [Ht Ha'].
    { apply list_elem_of_fmap in Hop as ([o t'] & -> & Hin). cbn [fst] in *. subst t.
      unfold value_operators in *. rewrite !elem_of_cons in Hin.
      destruct Hin as [E|[E|[E|[E|[E|[E|[E|[E|[E|[E|[E|?%not_elem_of_nil]]]]]]]]]]]; [..|done];
        injection E as -> ->; (split; [match goal with |- ?P => by apply (bool_decide_eq_true_1 P) end|done]). }
    rewrite (app_assoc op). apply (ct_value f op t v [] [] []); try done; constructor.
Qed.

Lemma print_text n : printable n = true -> forall l, filter_text l n (print l n).
Proof.
  induction n as [c|a IH|a IHa b IHb|a IHa b IHb]; cbn [printable print]; intros H.
  - by apply filter_text_lift, ft_condition, print_condition_text.
  - apply filter_text_lift, ft_not. by apply IH.
  - apply andb_true_iff in H as [Ha Hb].
    assert (filter_text LAnd (NAnd a b) (print LAnd a ++ #"&&" ++ print LPrimary b)) as T by (apply ft_and; auto).
    intros [| |]; cbn [parenthesize]; [by apply ft_group, ft_conjunction|done|by constructor].
  - apply andb_true_iff in H as [Ha Hb].
    assert (filter_text LOr (NOr a b) (print LOr a ++ #"||" ++ print LAnd b)) as T by (apply ft_or; auto).
    intros [| |]; cbn [parenthesize]; [by apply ft_group|by apply ft_primary, ft_group|done].
Qed.

(** ** What the parsers guarantee of a condition *)

Ltac known_op := match goal with |- ?P => by apply (bool_decide_eq_true_1 P) end.

Lemma geo_condition_ok s c r : geo_condition s = Some (Some (c, r)) -> condition_ok c /\ LogicalConnector c = [].
Proof.
  unfold geo_condition. intros H.
  repeat destr_in H; simplify_eq; (split; [split_and!; [done|known_op|intros _; known_op]|done]).
Qed.

Lemma range_condition_ok o s op v r k f :
  range_condition o s = Some (op, v, r) -> f <> [] -> condition_ok (mkCondition f op v k).
Proof.
  unfold range_condition. intros H Hf. repeat destr_in H; simplify_eq;
    (split_and!; cbn [Field Op Value]; [done|known_op|]); intros E; by destruct (Trim (take _ _)).
Qed.

Lemma word_operator_known s op r : word_operator s = Some (op, r) -> op ∈ known_operators.
Proof. unfold word_operator. intros H. repeat destr_in H; simplify_eq; known_op. Qed.

Lemma two_char_op_known s op r : two_char_op s = Some (op, r) -> op ∈ known_operators.
Proof.
  unfold two_char_op. destruct s as [|a [|b s]]; try done. case_bool_decide as H; [|done]. intros [= <- _].
  rewrite !elem_of_cons in H. destruct H as [->|[->|[->|[->|?%not_elem_of_nil]]]]; [known_op..|done].
Qed.

Lemma one_char_op_known s op r : one_char_op s = Some (op, r) -> op ∈ known_operators.
Proof.
  unfold one_char_op. destruct s as [|a s]; try done. case_bool_decide as H; [|done]. intros [= <- _].
  rewrite !elem_of_cons in H. destruct H as [->|[->|[->|?%not_elem_of_nil]]]; [known_op..|done].
Qed.

Lemma scan_operator_known s op r : scan_operator s = (op, r) -> op ∈ known_operators.
Proof.
  unfold scan_operator. intros H. destruct (word_operator s) as [[]|] eqn:?; simplify_eq; [by eapply word_operator_known|].
  destruct (two_char_op s) as [[]|] eqn:?; simplify_eq; [by eapply two_char_op_known|].
  destruct (one_char_op s) as [[]|] eqn:?; simplify_eq; [by eapply one_char_op_known|known_op].
Qed.

Lemma flat_operator_known s op v r : flat_operator s = (op, v, r) -> op ∈ known_operators.
Proof.
  unfold flat_operator. intros H. repeat destr_in H; simplify_eq;
    first [known_op | by eapply two_char_op_known | by eapply one_char_op_known | by eapply word_operator_known].
Qed.

Lemma ParseCondition_ok s c r : ParseCondition s = Some (c, r) -> condition_ok c /\ LogicalConnector c = [].
Proof.
  unfold ParseCondition. destruct (geo_condition _) as [o|] eqn:G; [intros ->; by eapply geo_condition_ok|].
  destruct (span is_field_char _) as [[|f0 field] r0]; [done|]. destruct (SkipWhitespace r0) as [|c0 r1]; [done|].
  destruct (negb _); [done|]. destruct (SkipWhitespace r1) as [|o r2]; [done|]. case_bool_decide.
  { destruct (range_condition o r2) as [[[op v] rest]|] eqn:R; [|done]. intros [= <- _].
    split; [by eapply range_condition_ok|done]. }
  destruct (literal_at #"ISNULL" (o :: r2)); [intros [= <- _]; split; [split_and!; [done|known_op|intros _; known_op]|done]|].
  destruct (literal_at #"ISNOTNULL" (o :: r2)); [intros [= <- _]; split; [split_and!; [done|known_op|intros _; known_op]|done]|].
  destruct (scan_operator (o :: r2)) as [op r3] eqn:O. destruct (scan_value true _) as [raw rest].
  case_bool_decide; [done|]. intros [= <- _]. split; [split_and!; [done|by eapply scan_operator_known|done]|done].
Qed.

Lemma grammar_ok fuel :
  (forall s n r, ParseOr fuel s = Some (Some (n, r)) -> node_ok n) /\
  (forall m s n r, node_ok m -> or_loop fuel m s = Some (Some (n, r)) -> node_ok n) /\
  (forall s n r, ParseAnd fuel s = Some (Some (n, r)) -> node_ok n) /\
  (forall m s n r, node_ok m -> and_loop fuel m s = Some (Some (n, r)) -> node_ok n) /\
  (forall s n r, ParsePrimary fuel s = Some (Some (n, r)) -> node_ok n).
Proof.
  induction fuel as [|f (IH1 & IH2 & IH3 & IH4 & IH5)]; [by split_and!|].
  split_and!; intros;
    match goal with E : _ = Some (Some _) |- _ =>
      first [rewrite ParseOr_S in E | rewrite or_loop_S in E | rewrite ParseAnd_S in E | rewrite and_loop_S in E
            | rewrite ParsePrimary_S in E];
      unfold condition_node in E; repeat destr_in E; simplify_eq
    end; cbn [node_ok]; eauto using ParseCondition_ok;
    first [eapply IH2; [|done] | eapply IH4; [|done]]; first [by eauto | split; by eauto].
Qed.

Lemma Parse_ok s n : Parse s = Some (Some n) -> node_ok n.
Proof.
  unfold Parse. destruct (ParseOr _ s) as [[[m r]|]|] eqn:E; [|done..]. destruct (SkipWhitespace r); [|done].
  intros [= <-]. exact (proj1 (grammar_ok _) _ _ _ E).
Qed.

Lemma filters_loop_ok fuel : forall conn s acc cs,
  Forall condition_ok acc -> filters_loop fuel conn s acc = Some cs -> Forall condition_ok cs.
Proof.
  induction fuel as [|f IH]; intros conn s acc cs Hacc; cbn [filters_loop];
    destruct (SkipWhitespace s) as [|x s'] eqn:Es; try (by intros [= <-]).
  destruct (geo_condition _) as [[[c r]|]|] eqn:G; [|by intros [= <-]|].
  { destruct (next_connector r). apply IH, Forall_app; split; [done|].
    apply geo_condition_ok in G as [G _]. constructor; [exact G|constructor]. }
  destruct (span is_field_char _) as [[|f0 field] r]; [by intros [= <-]|].
  destruct (SkipWhitespace r) as [|c0 r1]; [by intros [= <-]|]. destruct (negb _); [by intros [= <-]|].
  set (u := SkipWhitespace r1). destruct (match u with [] => _ | _ => _ end) as [[[op v] r2]|] eqn:F; [|by intros [= <-]].
  destruct (next_connector r2). destruct (keep_condition _) eqn:K; [|by apply IH].
  apply IH, Forall_app. split; [done|]. constructor; [|constructor].
  assert (flat_operator u = (op, v, r2) -> condition_ok (mkCondition (f0 :: field) op v conn)) as Hflat.
  { intros Hop%flat_operator_known. split_and!; [done..|]. intros Hv. unfold keep_condition in K.
    cbn [Value Op] in *. rewrite Hv, bool_decide_true in K by done. apply bool_decide_eq_true in K. set_solver. }
  destruct u as [|o r3]; [by apply (inj Some) in F; apply Hflat|].
  case_bool_decide; [by eapply range_condition_ok|by apply (inj Some) in F; apply Hflat].
Qed.

Lemma ParseFilters_ok s cs : ParseFilters s = Some cs -> Forall condition_ok cs.
Proof. apply filters_loop_ok. constructor. Qed.

(** ** ApplyFilters *)

(** The test [ApplyFilters] runs on a document, by the filter string alone. *)

Definition keeps_document {Doc} (EvaluateFilterCondition : Doc -> FilterCondition -> bool) (FilterBy : bytes) (d : Doc) : bool :=
  match Parse FilterBy, ParseFilters FilterBy with
  | Some (Some root), _ => EvaluateExpression EvaluateFilterCondition d root
  | _, Some (c :: cs) => evaluate_flat EvaluateFilterCondition d (c :: cs)
  | _, _ => bool_decide (FilterBy = [])
  end.

Lemma filter_const_true {A} (l : list A) : List.filter (fun _ => true) l = l.
Proof. induction l as [|x l IH]; [done|]. simpl. by rewrite IH. Qed.

Lemma filter_const_false {A} (l : list A) : List.filter (fun _ => false) l = [].
Proof. by induction l. Qed.

Lemma ApplyFilters_keeps {SearchHit Doc} (Document : SearchHit -> Doc) EvaluateFilterCondition Hits FilterBy :
  ApplyFilters Document EvaluateFilterCondition Hits FilterBy =
  Some (List.filter (fun h => keeps_document EvaluateFilterCondition FilterBy (Document h)) Hits).
Proof.
  unfold ApplyFilters, keeps_document. pose proof (Parse_answers FilterBy). pose proof (ParseFilters_answers FilterBy).
  destruct (Parse FilterBy) as [[root|]|]; [done| |done].
  destruct (ParseFilters FilterBy) as [[|c cs]|]; [|done..].
  case_bool_decide; by rewrite ?filter_const_true, ?filter_const_false.
Qed.

(** ** A condition without a value *)

Lemma scan_operator_equals x : scan_operator (#":=" ++ x) = (#":=", x).
Proof. apply scan_operator_text; [known_op|done]. Qed.

Lemma no_value_condition f rest :
  field_name f = true -> ParseCondition (f ++ #"::=&&" ++ rest) = None.
Proof.
  intros Hf. change (#"::=&&" ++ rest) with ([] ++ #":" ++ [] ++ #":=" ++ (#"&&" ++ rest)).
  rewrite ParseCondition_field; [|done|constructor..|done]. unfold condition_tail.
  change (#":=" ++ ?x) with (":"%char :: "="%char :: x) at 1. cbv iota. rewrite bool_decide_false by set_solver.
  rewrite !literal_at_conflict by done. by rewrite scan_operator_equals.
Qed.

Lemma no_value_fails f rest : field_name f = true -> Parse (f ++ #"::=&&" ++ rest) = Some None.
Proof.
  intros Hf. pose proof (no_value_condition f rest Hf) as Hc. pose proof Hf as Hf'.
  apply field_name_shape in Hf' as (c & r & E & Ha & _). rewrite E in *. inv Ha.
  unfold Parse. assert (ParseOr (filter_fuel ((c :: r) ++ #"::=&&" ++ rest)) ((c :: r) ++ #"::=&&" ++ rest) = Some None) as ->; [|done].
  unfold filter_fuel. replace (4 * _ + 4)%nat with (S (S (S (4 * length ((c :: r) ++ #"::=&&" ++ rest) + 1)))) by lia.
  rewrite ParseOr_S, ParseAnd_S, ParsePrimary_S. cbn [app]. rewrite SkipWhitespace_cons by by apply field_char_space.
  rewrite !bool_decide_false by (by intros ->). unfold condition_node. cbn [app] in Hc. by rewrite Hc.
Qed.

(** ** Properties *)

(** C28. The expression parser reads every text of the filter grammar, with
    white space around operands and after colons and operators, as the tree the
    grammar gives it: [!] and groups bind tightest, then [&&], then [||]. *)
Theorem Parse_complete n s : filter_text LOr n s -> Parse s = Some (Some n).
Proof. apply Parse_text. Qed.

Lemma Parse_complete_witness :
  Parse #"a:=1 || !b: >2&&c::=x y " =
  Some (Some (NOr (NCondition (mkCondition #"a" #"=" #"1" []))
    (NAnd (NNot (NCondition (mkCondition #"b" #">" #"2" []))) (NCondition (mkCondition #"c" #":=" #"x y" []))))).
Proof.
  refine (Parse_complete _ (#"a:=1 " ++ #"||" ++ (#" !b: >2" ++ #"&&" ++ #"c::=x y ")) _).
  apply ft_or; [apply ft_conjunction, ft_primary|apply ft_and; [apply ft_primary|]].
  - apply (ft_after #" " _ #"a:=1"); [repeat constructor|]. apply ft_condition.
    apply (ct_value #"a" #"=" #"=" #"1" [] [] []); try done; repeat constructor.
  - apply (ft_before #" " _ #"!b: >2"); [repeat constructor|]. apply (ft_not _ #"b: >2"), ft_condition.
    apply (ct_value #"b" #">" #">" #"2" [] #" " []); try done; repeat constructor.
  - apply (ft_after #" " _ #"c::=x y"); [repeat constructor|]. apply ft_condition.
    apply (ct_value #"c" #":=" #":=" #"x y" [] [] []); try done; repeat constructor.
Defined.

(** A filter tree printed with the fewest parentheses is parsed back to
    the same tree. *)
Theorem filter_roundtrip n : printable n = true -> Parse (print LOr n) = Some (Some n).
Proof. intros H. by apply Parse_text, print_text. Qed.

Lemma filter_roundtrip_witness :
  Parse #"!(a:ISNULL||b:LIKE:x*)&&c:>=5" =
  Some (Some (NAnd (NNot (NOr (NCondition (mkCondition #"a" #"ISNULL" [] []))
                              (NCondition (mkCondition #"b" #"LIKE" #"x*" []))))
                   (NCondition (mkCondition #"c" #">=" #"5" [])))).
Proof.
  exact (filter_roundtrip (NAnd (NNot (NOr (NCondition (mkCondition #"a" #"ISNULL" [] []))
                              (NCondition (mkCondition #"b" #"LIKE" #"x*" []))))
                   (NCondition (mkCondition #"c" #">=" #"5" []))) eq_refl).
Defined.

(** Every condition in an accepted expression, and every condition of the
    flat fallback, has a field, an operator that the evaluation of conditions
    distinguishes, and a value unless its operator takes none or is a geo
    operator. *)
Theorem filter_conditions_ok s :
  (forall n, Parse s = Some (Some n) -> node_ok n) /\ (forall cs, ParseFilters s = Some cs -> Forall condition_ok cs).
Proof. split; [apply Parse_ok|apply ParseFilters_ok]. Qed.

(** ApplyFilters always returns; its result is the hits, in their order,
    whose document passes one test that the filter string alone determines: the
    parsed expression; without one, the flat conditions combined from the left;
    without conditions, everything for the empty filter and nothing for any
    other. *)
Theorem ApplyFilters_total {SearchHit Doc} (Document : SearchHit -> Doc) EvaluateFilterCondition FilterBy :
  exists keep, (forall Hits,
    ApplyFilters Document EvaluateFilterCondition Hits FilterBy = Some (List.filter (fun h => keep (Document h)) Hits)) /\
    forall d,
      (forall n, Parse FilterBy = Some (Some n) -> keep d = EvaluateExpression EvaluateFilterCondition d n) /\
      (forall c cs, Parse FilterBy = Some None -> ParseFilters FilterBy = Some (c :: cs) ->
        keep d = fold_left (combine_flat EvaluateFilterCondition d) cs (EvaluateFilterCondition d c)) /\
      (Parse FilterBy = Some None -> ParseFilters FilterBy = Some [] -> keep d = bool_decide (FilterBy = [])).
Proof.
  exists (keeps_document EvaluateFilterCondition FilterBy). split; [intros; apply ApplyFilters_keeps|].
  intros d. unfold keeps_document. split_and!; [by intros n ->|by intros c cs -> ->|by intros -> ->].
Qed.

(** An equality with an empty value, in front of further conditions, makes
    the expression parser give up, and the flat fallback goes on as if the
    condition were not there: it returns the conditions of the rest alone. *)
Theorem empty_value_dropped f rest :
  field_name f = true ->
  Parse (f ++ #"::=&&" ++ rest) = Some None /\
  ParseFilters (f ++ #"::=&&" ++ rest) = filters_loop (length (f ++ #"::=&&" ++ rest)) #"AND" rest [].
Proof.
  intros Hf. split; [by apply no_value_fails|]. unfold ParseFilters.
  pose proof (not_field_char_head [] (#":=&&" ++ rest) ltac:(constructor)) as Hc.
  apply field_name_shape in Hf as (c & r & E & Ha & H1 & H2). cbn [filters_loop].
  assert (SkipWhitespace (f ++ #"::=&&" ++ rest) = f ++ #"::=&&" ++ rest) as ->.
  { subst f. apply SkipWhitespace_cons, field_char_space. by inv Ha. }
  rewrite (field_not_geo f (#"::=&&" ++ rest)) by done.
  change (#"::=&&" ++ rest) with ([] ++ #":" ++ #":=&&" ++ rest). rewrite (span_split is_field_char f _ Ha Hc).
  subst f. done.
Qed.

Lemma empty_value_dropped_witness :
  Parse #"name::=&&price:>5" = Some None /\
  ParseFilters #"name::=&&price:>5" = Some [mkCondition #"price" #">" #"5" #"AND"].
Proof.
  destruct (empty_value_dropped #"name" #"price:>5" eq_refl) as [H1 H2].
  split; [exact H1|]. refine (eq_trans H2 _). vm_compute. reflexivity.
Defined.

End FilterLangProps.
