(* ===== verification/SqlFilter.v ===== *)
(** * From a SQL WHERE clause to the hits it selects

    What a WHERE clause means, as a relation between its tokens and a filter
    tree, and the agreement of three components on it: the SQL parser accepts
    the tokens and renders a filter string, the filter parser reads that string
    as the tree, and [ApplyFilters] keeps the hits for which the tree holds. *)

From S2P Require Import Prelude CText SqlTokenizer SqlAst SqlParser SqlStatement SqlParserProps FilterLang FilterLangProps.
Import Tokenizer Ast SqlParser SqlStatement ParserProps FilterLang FilterLangProps.

Module SqlFilter.

#[local] Open Scope parser_scope.

(** ** The meaning of predicates *)

(** The value a token stands for. *)

Definition value_of (v : SQLToken) : bytes :=
  if front_is_quote (Text v) then SQLStripQuotes (Text v)
  else if bool_decide (Upper v = #"TRUE") then #"true"
  else if bool_decide (Upper v = #"FALSE") then #"false"
  else if bool_decide (Upper v = #"NULL") then #"NULL"
  else Text v.

(** A value the filter language can carry: a number, or a text without the
    filter delimiters; in both cases without white space at its ends. *)

Definition carried (value : bytes) : bool :=
  (SQLIsNumericLiteral value || SQLIsSafeFilterLiteral value) && value_text value &&
  negb (bool_decide (SQLToUpperASCII value = #"NULL")).

Definition value_token (v : SQLToken) (value : bytes) : Prop :=
  SQLCanUseTokenAsValue v = true /\ value = value_of v.

(** A bare column name, or the alias of one. *)

Definition plain_identifier (text : bytes) : bool :=
  match text with c :: _ => SQLIsIdentifierStart c && forallb is_field_char text | [] => false end.

Definition field_token (aliases : gmap bytes bytes) (f : SQLToken) (field : bytes) : Prop :=
  plain_identifier (Text f) = true /\ Upper f = SQLToUpperASCII (Text f) /\ Upper f <> #"NOT" /\
  field = default (Text f) (aliases !! SQLToUpperASCII (Text f)) /\ field_name field = true.

(** [field op value] as a filter condition; texts are compared exactly. *)

Definition rendered_operator (op value : bytes) : bytes :=
  if bool_decide (op = #"=") && negb (SQLIsNumericLiteral value) then #":=" else op.

Definition comparison (field op value : bytes) : FilterExpressionNode :=
  NCondition (mkCondition field (rendered_operator op value) value []).

(** The comparison operator a token spells. *)

Definition operator_token (o : SQLToken) (op : bytes) : Prop :=
  op = (if bool_decide (Upper o = #"<>") then #"!=" else Upper o) /\ op ∈ comparison_operators.

Definition comparable (op value : bytes) : Prop := carried value = true /\ operator_apart op value = true.

(** IN: one comparison per value, in a chain; NOT IN: their conjunction. *)

Definition membership (negate : bool) (field first : bytes) (more : list bytes) : FilterExpressionNode :=
  let op := if negate then #"!=" else #"=" in
  fold_left (fun n v => (if negate then NAnd else NOr) n (comparison field op v)) more (comparison field op first).

(** The tokens of [, v] for each further value of an IN list. *)

Inductive more_values : list SQLToken -> list bytes -> Prop :=
| mv_nil : more_values [] []
| mv_cons c v value ts values :
    Text c = #"," -> value_token v value -> carried value = true -> more_values ts values ->
    more_values (c :: v :: ts) (value :: values).

Definition keyword (t : SQLToken) (k : bytes) : Prop := Upper t = k.

Inductive predicate_tokens (aliases : gmap bytes bytes) : FilterExpressionNode -> list SQLToken -> Prop :=
| pt_compare f field o op v value :
    field_token aliases f field -> operator_token o op -> value_token v value -> comparable op value ->
    predicate_tokens aliases (comparison field op value) [f; o; v]
| pt_not_equal t f field o op v value :
    keyword t #"NOT" -> Text t <> #"(" -> field_token aliases f field -> operator_token o op -> op ∈ [ #"="; #"!="] ->
    value_token v value -> carried value = true ->
    predicate_tokens aliases (comparison field (if bool_decide (op = #"=") then #"!=" else #"=") value) [t; f; o; v]
| pt_equals_null f field o op v value :
    field_token aliases f field -> operator_token o op -> op ∈ [ #"="; #"!="] ->
    value_token v value -> SQLToUpperASCII value = #"NULL" ->
    predicate_tokens aliases
      (NCondition (mkCondition field (if bool_decide (op = #"=") then #"ISNULL" else #"ISNOTNULL") [] [])) [f; o; v]
| pt_is_null f field i n :
    field_token aliases f field -> keyword i #"IS" -> keyword n #"NULL" ->
    predicate_tokens aliases (NCondition (mkCondition field #"ISNULL" [] [])) [f; i; n]
| pt_is_not_null f field i t n :
    field_token aliases f field -> keyword i #"IS" -> keyword t #"NOT" -> keyword n #"NULL" ->
    predicate_tokens aliases (NCondition (mkCondition field #"ISNOTNULL" [] [])) [f; i; t; n]
| pt_is_bool (negate b : bool) f field i t w :
    field_token aliases f field -> keyword i #"IS" -> keyword t #"NOT" -> keyword w (if b then #"TRUE" else #"FALSE") ->
    predicate_tokens aliases (comparison field (if negate then #"!=" else #"=") (if b then #"true" else #"false"))
      ([f; i] ++ (if negate then [t] else []) ++ [w])
| pt_in (negate : bool) f field t i o v value ts values c :
    field_token aliases f field -> keyword t #"NOT" -> keyword i #"IN" -> Text o = #"(" ->
    value_token v value -> carried value = true -> more_values ts values -> Text c = #")" ->
    1 + Z.of_nat (length values) <= SQLMaxInListValues ->
    predicate_tokens aliases (membership negate field value values)
      ([f] ++ (if negate then [t] else []) ++ [i; o; v] ++ ts ++ [c])
| pt_between f field b v lo a w hi :
    field_token aliases f field -> keyword b #"BETWEEN" -> value_token v lo -> keyword a #"AND" -> value_token w hi ->
    carried lo = true -> carried hi = true -> range_text true lo hi = true ->
    predicate_tokens aliases (NCondition (mkCondition field #"RANGE_INCLUSIVE" (lo ++ #"," ++ hi) [])) [f; b; v; a; w]
| pt_not_between f field t b v lo a w hi :
    field_token aliases f field -> keyword t #"NOT" -> keyword b #"BETWEEN" -> value_token v lo -> keyword a #"AND" ->
    value_token w hi -> comparable #"<" lo -> comparable #">" hi ->
    predicate_tokens aliases
      (NOr (NCondition (mkCondition field #"<" lo [])) (NCondition (mkCondition field #">" hi []))) [f; t; b; v; a; w]
| pt_like (negate ci : bool) f field t l v value :
    field_token aliases f field -> keyword t #"NOT" -> keyword l (if ci then #"ILIKE" else #"LIKE") ->
    value_token v value -> carried value = true -> carried (ConvertSQLLikePattern value) = true ->
    predicate_tokens aliases
      (NCondition (mkCondition field ((if negate then #"NOT_" else []) ++ (if ci then #"ILIKE" else #"LIKE"))
         (ConvertSQLLikePattern value) []))
      ([f] ++ (if negate then [t] else []) ++ [l; v])
| pt_contains (negate : bool) f field t l v value :
    field_token aliases f field -> keyword t #"NOT" -> keyword l #"CONTAINS" -> value_token v value ->
    carried value = true ->
    predicate_tokens aliases
      (NCondition (mkCondition field (if negate then #"NOT_LIKE" else #"LIKE") (#"*" ++ value ++ #"*") []))
      ([f] ++ (if negate then [t] else []) ++ [l; v]).

Definition parenthesis (t : SQLToken) (text : bytes) : Prop := Text t = text /\ Upper t = text.

(** ** The meaning of WHERE expressions

    AND binds tighter than OR, NOT applies to a group. The two numbers are the
    predicates and the nesting of the expression. *)

Inductive where_tokens (aliases : gmap bytes bytes) :
    level -> FilterExpressionNode -> list SQLToken -> Z -> Z -> Prop :=
| wt_predicate n ts : predicate_tokens aliases n ts -> where_tokens aliases LPrimary n ts 1 0
| wt_group n o ts c k d :
    where_tokens aliases LOr n ts k d -> parenthesis o #"(" -> parenthesis c #")" ->
    where_tokens aliases LPrimary n (o :: ts ++ [c]) k (d + 1)
| wt_not n t o ts c k d :
    where_tokens aliases LOr n ts k d -> keyword t #"NOT" -> parenthesis o #"(" -> parenthesis c #")" ->
    where_tokens aliases LPrimary (NNot n) (t :: o :: ts ++ [c]) k (d + 1)
| wt_primary n ts k d : where_tokens aliases LPrimary n ts k d -> where_tokens aliases LAnd n ts k d
| wt_and l r ts a us k k' d d' :
    where_tokens aliases LAnd l ts k d -> keyword a #"AND" -> where_tokens aliases LPrimary r us k' d' ->
    where_tokens aliases LAnd (NAnd l r) (ts ++ a :: us) (k + k') (Z.max d d')
| wt_conjunction n ts k d : where_tokens aliases LAnd n ts k d -> where_tokens aliases LOr n ts k d
| wt_or l r ts o us k k' d d' :
    where_tokens aliases LOr l ts k d -> keyword o #"OR" -> where_tokens aliases LAnd r us k' d' ->
    where_tokens aliases LOr (NOr l r) (ts ++ o :: us) (k + k') (Z.max d d').

(** ** Running the parser

    [cur p pre ts n d] is the parser [p] that has read the tokens [pre] and has
    [ts] in front of it, with [n] nodes counted at nesting [d]. *)

Definition cur (p : Parser) (pre ts : list SQLToken) (n d : Z) : Parser :=
  mkParser (pre ++ ts) (length pre) (p_CollectionName p) (p_TableAlias p) (p_SelectedFields p)
    (p_SelectedOutputFields p) (p_CurrentAggregateSpecs p) (p_SelectAliases p) (p_AggregateConfig p)
    (p_ParsedStatement p) n d (p_Result p).

Lemma cur_self p pre ts :
  p_Tokens p = pre ++ ts -> p_Position p = length pre -> p = cur p pre ts (p_ASTNodeCount p) (p_ExpressionDepth p).
Proof. destruct p. cbn. by intros -> ->. Qed.

Section Cursor.

Context (p : Parser) (pre : list SQLToken) (n d : Z).

Lemma cur_AtEnd t ts : AtEnd (cur p pre (t :: ts) n d) = false.
Proof. apply Nat.leb_gt. cbn [p_Tokens p_Position cur]. rewrite length_app. simpl. lia. Qed.

Lemma cur_Peek t ts : Peek (cur p pre (t :: ts) n d) = Some t.
Proof. unfold Peek. rewrite cur_AtEnd. cbn [p_Tokens p_Position cur]. by apply list_lookup_middle. Qed.

Lemma cur_PeekUpper t ts : PeekUpper (cur p pre (t :: ts) n d) = Upper t.
Proof. unfold PeekUpper. by rewrite cur_Peek. Qed.

Lemma cur_PeekText t ts : PeekText (cur p pre (t :: ts) n d) = Text t.
Proof. unfold PeekText. by rewrite cur_Peek. Qed.

Lemma cur_next t u ts : PeekAt 1 (cur p pre (t :: u :: ts) n d) = Some u.
Proof.
  unfold PeekAt. cbn [p_Tokens p_Position cur].
  rewrite (proj2 (Nat.leb_gt _ _)) by (rewrite length_app; simpl; lia).
  rewrite lookup_app_r by lia. by replace (length pre + 1 - length pre)%nat with 1%nat by lia.
Qed.

Lemma cur_PeekUpper_end : PeekUpper (cur p pre [] n d) = [].
Proof.
  unfold PeekUpper, Peek, AtEnd. cbn [p_Tokens p_Position cur]. rewrite app_nil_r.
  by rewrite (proj2 (Nat.leb_le _ _)).
Qed.

Lemma run_Advance t ts :
  Advance (cur p pre (t :: ts) n d) = (cur p (pre ++ [t]) ts n d, Done (Some t)).
Proof.
  unfold Advance. rewrite cur_AtEnd. unfold cur, set_p_Position.
  cbn [p_Tokens p_Position p_CollectionName p_TableAlias p_SelectedFields p_SelectedOutputFields
    p_CurrentAggregateSpecs p_SelectAliases p_AggregateConfig p_ParsedStatement p_ASTNodeCount p_ExpressionDepth p_Result].
  rewrite list_lookup_middle by done. rewrite <- app_assoc, length_app, Nat.add_1_r. done.
Qed.

Lemma run_MatchKeyword k t ts :
  MatchKeyword k (cur p pre (t :: ts) n d) =
  if bool_decide (Upper t = k) then (cur p (pre ++ [t]) ts n d, Done true) else (cur p pre (t :: ts) n d, Done false).
Proof.
  unfold MatchKeyword, mbind, mget. rewrite cur_PeekUpper. case_bool_decide; cbn [negb]; [|done].
  by rewrite run_Advance.
Qed.

Lemma run_ParseValue v value ts :
  value_token v value -> ParseValue (cur p pre (v :: ts) n d) = (cur p (pre ++ [v]) ts n d, Done value).
Proof.
  intros [Hv ->]. unfold ParseValue, value_of, mbind, mget. rewrite cur_Peek, Hv. cbn [negb].
  rewrite run_Advance. by repeat case_match.
Qed.

Lemma run_field f field ts :
  field_token (p_SelectAliases p) f field ->
  ParsePredicateReference false (cur p pre (f :: ts) n d) = (cur p (pre ++ [f]) ts n d, Done field).
Proof.
  intros (Hp & Hu & Hn & -> & Hf). unfold ParsePredicateReference, ParseIdentifier, mbind, mget. cbn [andb].
  rewrite cur_Peek. unfold plain_identifier in Hp. destruct (Text f) as [|c text] eqn:Et; [done|].
  apply andb_true_iff in Hp as [Hc Ha]. rewrite bool_decide_false by (by intros ->). rewrite Hc, run_Advance.
  cbn [p_SelectAliases cur]. unfold mret. destruct (_ !! _); [done|]. cbn [default].
  assert (split_dot (c :: text) = None) as ->; [|done]. unfold split_dot.
  rewrite (proj2 (find_char_None _ _)); [done|]. apply Forall_forall. intros x Hx.
  rewrite forallb_forall in Ha. specialize (Ha x ltac:(by apply list_elem_of_In)).
  apply bool_decide_eq_false. intros ->. done.
Qed.

End Cursor.

(** ** Rendering *)

Lemma carried_parts value :
  carried value = true ->
  (SQLIsNumericLiteral value = true \/ SQLIsSafeFilterLiteral value = true) /\ value_text value = true /\
  SQLToUpperASCII value <> #"NULL".
Proof. unfold carried. rewrite !andb_true_iff, orb_true_iff, negb_true_iff, bool_decide_eq_false. tauto. Qed.

Lemma run_ValidateFilterLiteral value q : carried value = true -> ValidateFilterLiteral value q = (q, Done tt).
Proof.
  intros ([Hn|Hs] & _ & _)%carried_parts; unfold ValidateFilterLiteral; [by rewrite Hn|].
  destruct (SQLIsNumericLiteral value); [done|]. by rewrite Hs.
Qed.

Definition render (field op value : bytes) : bytes := field ++ #":" ++ rendered_operator op value ++ value.

Lemma run_BuildRenderedComparison field op value q :
  carried value = true -> BuildRenderedComparison field op value q = (q, Done (render field op value)).
Proof.
  intros Hc. unfold BuildRenderedComparison. pose proof (carried_parts _ Hc) as (_ & _ & Hn).
  rewrite bool_decide_false by done. unfold mbind. by rewrite run_ValidateFilterLiteral.
Qed.

Lemma render_text field op value :
  field_name field = true -> op ∈ comparison_operators -> comparable op value ->
  filter_text LPrimary (comparison field op value) (render field op value).
Proof.
  intros Hf Hop [Hc Ha]. apply ft_condition. apply carried_parts in Hc as (_ & Hv & _).
  apply (ct_value field (rendered_operator op value) (rendered_operator op value) value [] [] []);
    [done|constructor..| | |done].
  - unfold rendered_operator. unfold comparison_operators in Hop. rewrite !elem_of_cons in Hop.
    destruct Hop as [->|[->|[->|[->|[->|[->|?%not_elem_of_nil]]]]]]; [..|done];
      cbn [andb]; rewrite ?(bool_decide_true (#"=" = #"=")) by done; try destruct (SQLIsNumericLiteral value);
      match goal with |- ?P => by apply (bool_decide_eq_true_1 P) end.
  - unfold rendered_operator. destruct (_ && _); done.
Qed.

(** ** Symbolic execution *)

Lemma bind_done {A B} (m : M A) (k : A -> M B) q q' a : m q = (q', Done a) -> mbind m k q = k a q'.
Proof. unfold mbind. by intros ->. Qed.

Lemma bind_orfail {A B} msg (m : M A) (k : A -> M B) q q' a : m q = (q', Done a) -> mbind (orfail msg m) k q = k a q'.
Proof. unfold mbind, orfail. by intros ->. Qed.

Lemma bind_get {A B} (f : Parser -> A) (k : A -> M B) q : mbind (mget f) k q = k (f q) q.
Proof. done. Qed.

Lemma bind_peek_is {B} text (k : bool -> M B) q : mbind (peek_is text) k q = k (bool_decide (PeekText q = text)) q.
Proof. done. Qed.

(** Tests between literals. *)

Ltac decide_literals :=
  repeat match goal with
  | |- context [@bool_decide (lit ?a = lit ?b) ?dec] =>
      let v := eval vm_compute in (@bool_decide (lit a = lit b) dec) in
      change (@bool_decide (lit a = lit b) dec) with v; cbv beta iota; cbn [negb andb orb]
  | |- context [@bool_decide (lit ?a ∈ ?l) ?dec] =>
      let v := eval vm_compute in (@bool_decide (lit a ∈ l) dec) in
      lazymatch v with true => idtac | false => idtac end;
      change (@bool_decide (lit a ∈ l) dec) with v; cbv beta iota; cbn [negb andb orb]
  end.

(** One step of a parser run whose next token is known; [H : Upper t = _] and
    [H : Text t = _] decide the tests. *)

Ltac sql_step :=
  lazymatch goal with
  | |- mbind (MatchKeyword _) _ _ = _ =>
      erewrite bind_done; [|rewrite run_MatchKeyword;
        match goal with H : Upper ?t = _ |- context [Upper ?t] => rewrite H end; decide_literals; reflexivity]
  | |- mbind (peek_is _) _ _ = _ =>
      rewrite bind_peek_is, cur_PeekText; match goal with H : Text ?t = _ |- context [Text ?t] => rewrite H end; decide_literals
  | |- mbind (mget AtEnd) _ _ = _ => rewrite bind_get, cur_AtEnd; cbv iota
  | |- mbind (mget _) _ _ = _ => rewrite bind_get
  | |- mbind Advance _ _ = _ => erewrite bind_done by apply run_Advance
  | |- mbind (orfail _ ParseValue) _ _ = _ => erewrite bind_orfail by (by apply run_ParseValue)
  | |- mbind (ValidateFilterLiteral _) _ _ = _ => erewrite bind_done by (by apply run_ValidateFilterLiteral)
  | |- BuildRenderedComparison _ _ _ _ = _ => rewrite run_BuildRenderedComparison by done
  end; cbn beta iota delta [negb].

(** What [ParseComparison] does behind the field. *)

Definition predicate_tail (negate : bool) (field_name : bytes) : M bytes :=
  b <- MatchKeyword #"NOT" ;; if (b : bool) then ParseNotPredicate field_name else
  b <- MatchKeyword #"IN" ;; if (b : bool) then ParseInList field_name false else
  b <- MatchKeyword #"BETWEEN" ;; if (b : bool) then ParseBetween field_name false else
  b <- MatchKeyword #"LIKE" ;; if (b : bool) then ParseLike field_name false false else
  b <- MatchKeyword #"ILIKE" ;; if (b : bool) then ParseLike field_name true false else
  b <- MatchKeyword #"CONTAINS" ;; if (b : bool) then ParseContains field_name false else
  b <- MatchKeyword #"IS" ;; if (b : bool) then ParseIsPredicate field_name else
  ParseOperatorComparison negate field_name.

Lemma run_TryConsumeASTNode l p pre ts n d :
  n + 1 <= SQLMaxASTNodes -> TryConsumeASTNode l (cur p pre ts n d) = (cur p pre ts (n + 1) d, Done tt).
Proof.
  intros H. unfold TryConsumeASTNode, mbind, mmodify, mget.
  change (set_p_ASTNodeCount (p_ASTNodeCount (cur p pre ts n d) + 1) (cur p pre ts n d)) with (cur p pre ts (n + 1) d).
  cbn [p_ASTNodeCount cur]. by rewrite (proj2 (Z.ltb_ge _ _)).
Qed.

Lemma run_ParseComparison p pre f field ts n d :
  field_token (p_SelectAliases p) f field -> n + 1 <= SQLMaxASTNodes ->
  ParseComparison false (cur p pre (f :: ts) n d) = predicate_tail false field (cur p (pre ++ [f]) ts (n + 1) d).
Proof.
  intros Hf Hn. unfold ParseComparison. erewrite bind_done by (by apply run_TryConsumeASTNode). cbv beta.
  erewrite bind_done; [|rewrite run_MatchKeyword, bool_decide_false by apply Hf; reflexivity].
  by erewrite bind_orfail by (by apply run_field).
Qed.

Lemma run_NotComparison p pre t f field ts n d :
  keyword t #"NOT" -> field_token (p_SelectAliases p) f field -> n + 1 <= SQLMaxASTNodes ->
  ParseComparison false (cur p pre (t :: f :: ts) n d) = predicate_tail true field (cur p ((pre ++ [t]) ++ [f]) ts (n + 1) d).
Proof.
  unfold keyword. intros Ht Hf Hn. unfold ParseComparison. erewrite bind_done by (by apply run_TryConsumeASTNode). cbv beta.
  sql_step. by erewrite bind_orfail by (by apply run_field).
Qed.

(** *** Predicates *)

Lemma run_ParseBetween field negate p pre v lo a w hi ts n d :
  value_token v lo -> keyword a #"AND" -> value_token w hi -> carried lo = true -> carried hi = true ->
  ParseBetween field negate (cur p pre (v :: a :: w :: ts) n d) =
  (cur p (((pre ++ [v]) ++ [a]) ++ [w]) ts n d,
   Done (if negate then #"(" ++ field ++ #":<" ++ lo ++ #"||" ++ field ++ #":>" ++ hi ++ #")"
         else field ++ #":[" ++ lo ++ #" TO " ++ hi ++ #"]")).
Proof.
  unfold keyword. intros Hv Ha Hw Hl Hh. unfold ParseBetween. do 5 sql_step. by destruct negate.
Qed.

Lemma carried_nonempty value : carried value = true -> value <> [].
Proof. intros (_ & (Ht & _)%value_text_parts & _)%carried_parts. by apply trimmed_nonempty. Qed.

Lemma run_ParseLike field ci negate p pre v value ts n d :
  value_token v value -> carried value = true -> carried (ConvertSQLLikePattern value) = true ->
  ParseLike field ci negate (cur p pre (v :: ts) n d) =
  (cur p (pre ++ [v]) ts n d,
   Done (field ++ #":" ++ (if negate then #"NOT_" else []) ++ (if ci then #"ILIKE:" else #"LIKE:") ++
         ConvertSQLLikePattern value)).
Proof.
  intros Hv Hc Hp. unfold ParseLike. do 2 sql_step. cbv zeta. sql_step.
  by rewrite bool_decide_false by by apply carried_nonempty.
Qed.

Lemma run_ParseContains field negate p pre v value ts n d :
  value_token v value -> carried value = true ->
  ParseContains field negate (cur p pre (v :: ts) n d) =
  (cur p (pre ++ [v]) ts n d, Done (field ++ #":" ++ (if negate then #"NOT_LIKE:" else #"LIKE:") ++ #"*" ++ value ++ #"*")).
Proof.
  intros Hv Hc. unfold ParseContains. do 2 sql_step. by rewrite bool_decide_false by by apply carried_nonempty.
Qed.

(** The rendered terms of an IN list. *)

Definition in_terms (negate : bool) (field : bytes) (values : list bytes) : list bytes :=
  render field (if negate then #"!=" else #"=") <$> values.

Lemma run_in_list_loop field negate p c rest n d : forall ts values fuel pre v value acc,
  more_values ts values -> value_token v value -> carried value = true -> Text c = #")" ->
  (length values < fuel)%nat -> size acc + 1 + Z.of_nat (length values) <= SQLMaxInListValues ->
  in_list_loop fuel field negate acc (cur p pre (v :: ts ++ c :: rest) n d) =
  (cur p (pre ++ v :: ts) (c :: rest) n d, Done (acc ++ in_terms negate field (value :: values))).
Proof.
  intros ts values fuel. revert ts values.
  induction fuel as [|fuel IH]; intros ts values pre v value acc Hm Hv Hc Ht Hf Hs; [lia|].
  cbn [in_list_loop]. sql_step. rewrite (proj2 (Z.leb_gt _ _)) by (unfold SQLMaxInListValues in *; lia).
  sql_step. erewrite bind_done by (by apply run_BuildRenderedComparison). cbv beta zeta.
  destruct Hm as [|k v' value' ts' values' Hk Hv' Hc' Hm].
  - cbn [app]. sql_step. done.
  - cbn [app]. sql_step. sql_step. sql_step.
    cbn [length] in *. rewrite (IH ts' values' _ v' value'); try done; try lia.
    + rewrite <- !app_assoc. done.
    + unfold size in *. rewrite length_app. cbn [length]. lia.
Qed.

Lemma run_ParseInList field negate p pre o v value ts values c rest n d :
  Text o = #"(" -> value_token v value -> carried value = true -> more_values ts values -> Text c = #")" ->
  1 + Z.of_nat (length values) <= SQLMaxInListValues ->
  ParseInList field negate (cur p pre ([o; v] ++ ts ++ c :: rest) n d) =
  (cur p (pre ++ [o; v] ++ ts ++ [c]) rest n d,
   Done (let terms := in_terms negate field (value :: values) in
         let expression := join (if negate then #"&&" else #"||") terms in
         if 1 <? size terms then #"(" ++ expression ++ #")" else expression)).
Proof.
  intros Ho Hv Hc Hm Ht Hs. unfold ParseInList. cbn [app]. do 3 sql_step.
  erewrite bind_done.
  2: { eapply (run_in_list_loop field negate p c rest n d ts values _ _ v value []); try done.
       - unfold token_fuel. cbn [p_Tokens p_Position cur]. rewrite !length_app. cbn [length]. rewrite length_app.
         assert (length values <= length ts)%nat by (clear -Hm; induction Hm; simpl; lia). lia. }
  cbv beta. do 2 sql_step. cbn [app]. rewrite bool_decide_false by done. cbv zeta. unfold mret.
  by rewrite <- !app_assoc.
Qed.

Lemma run_ParseOperatorComparison negate field p pre o op v value ts n d op' :
  operator_token o op -> value_token v value -> (negate = true -> op ∈ [ #"="; #"!="]) ->
  op' = (if negate then if bool_decide (op = #"=") then #"!=" else #"=" else op) ->
  ParseOperatorComparison negate field (cur p pre (o :: v :: ts) n d) =
  BuildRenderedComparison field op' value (cur p ((pre ++ [o]) ++ [v]) ts n d).
Proof.
  intros [Eo Hop] Hv Hneg Hop'. unfold ParseOperatorComparison. do 2 sql_step. cbv zeta. rewrite <- Eo.
  rewrite (bool_decide_false (op ∈ [ #"LIKE"; #"IN"])), (bool_decide_true (op ∈ _)) by
    (done || (unfold comparison_operators in Hop; rewrite !elem_of_cons in Hop;
     by destruct Hop as [->|[->|[->|[->|[->|[->|?%not_elem_of_nil]]]]]]; apply (bool_decide_eq_false_1 (_ ∈ _)))).
  cbn [negb]. assert (forall q, negate_operator negate op q = (q, Done op')) as E.
  { intros q. unfold negate_operator. subst op'. destruct negate; [|done].
    specialize (Hneg eq_refl). rewrite !elem_of_cons in Hneg. by destruct Hneg as [->|[->|?%not_elem_of_nil]]. }
  erewrite bind_done by apply E. cbv beta. sql_step. done.
Qed.

(** ** Texts of the rendered predicates *)

Lemma field_token_name al f field : field_token al f field -> field_name field = true.
Proof. by intros (_ & _ & _ & _ & ?). Qed.

Lemma operator_text field op t value :
  field_name field = true -> (op, t) ∈ value_operators -> operator_apart t value = true -> value_text value = true ->
  filter_text LPrimary (NCondition (mkCondition field op value [])) (field ++ #":" ++ t ++ value).
Proof.
  intros Hf Ht Ha Hv. apply ft_condition.
  apply (ct_value field op t value [] [] []); [done|constructor..|done|done|done].
Qed.

Lemma null_text field op :
  field_name field = true -> op ∈ [ #"ISNULL"; #"ISNOTNULL"] ->
  filter_text LPrimary (NCondition (mkCondition field op [] [])) (field ++ #":" ++ op).
Proof. intros Hf Hop. apply ft_condition. apply (ct_null field op [] []); [done|constructor..|done]. Qed.

Lemma free_of_stops_app a b :
  free_of_stops a = true -> free_of_stops b = true -> last a <> Some "&"%char -> last a <> Some "|"%char ->
  free_of_stops (a ++ b) = true.
Proof.
  intros Ha Hb H1 H2. induction a as [|c a IH]; [done|]. cbn [free_of_stops app] in *.
  apply andb_true_iff in Ha as [[Hp Hc]%andb_true_iff Ha]. rewrite Hp, IH; try done; [|by destruct a..].
  rewrite andb_true_r, andb_true_l. destruct a as [|c' a]; [|done].
  apply negb_true_iff, not_true_iff_false. intros [->| ->]%at_connector_head; done.
Qed.

Lemma starred_text value : value_text value = true -> value_text (#"*" ++ value ++ #"*") = true.
Proof.
  intros (Ht & Hs & Ha & Ho)%value_text_parts. unfold value_text, trimmed.
  assert (last (#"*" ++ value ++ #"*") = Some "*"%char) as -> by (rewrite app_assoc; apply last_snoc).
  change (head (#"*" ++ value ++ #"*")) with (Some "*"%char). cbv iota.
  rewrite (free_of_stops_app #"*" (value ++ #"*")); [done|done| |done..]. by apply free_of_stops_app.
Qed.

(** A chain of comparisons in an IN list. *)

Lemma join_cons c t r : join c (t :: r) = t ++ concat ((fun u => c ++ u) <$> r).
Proof.
  revert t. induction r as [|u r IH]; intros t; [cbn; by rewrite app_nil_r|].
  change (join c (t :: u :: r)) with (t ++ c ++ join c (u :: r)). rewrite IH. cbn [fmap list_fmap concat]. by rewrite <- app_assoc.
Qed.

Lemma membership_text (negate : bool) field (first : bytes) more :
  field_name field = true -> Forall (fun v => carried v = true) (first :: more) ->
  filter_text (if negate then LAnd else LOr) (membership negate field first more)
    (join (if negate then #"&&" else #"||") (in_terms negate field (first :: more))).
Proof.
  intros Hf Hc. inv Hc as [|? ? H1 Hm]. unfold in_terms, membership. cbn [fmap list_fmap].
  set (op := if negate then #"!=" else #"="). rewrite join_cons.
  assert (forall v, carried v = true -> filter_text LPrimary (comparison field op v) (render field op v)) as T.
  { intros v Hv. apply render_text; [done|destruct negate; set_solver|]. split; [done|by destruct negate]. }
  assert (filter_text (if negate then LAnd else LOr) (comparison field op first) (render field op first)) as T1
    by (apply filter_text_lift; auto).
  revert T1. generalize (comparison field op first) (render field op first). clear H1.
  induction Hm as [|v more Hv Hm IH]; intros m s Hms; cbn [fmap list_fmap concat fold_left]; [by rewrite app_nil_r|].
  rewrite app_assoc. apply IH. destruct negate; [by apply ft_and; [|apply T]|].
  apply ft_or; [done|]. by apply ft_primary, T.
Qed.

Lemma in_list_text (negate : bool) field (first : bytes) more :
  field_name field = true -> Forall (fun v => carried v = true) (first :: more) ->
  filter_text LPrimary (membership negate field first more)
    (let terms := in_terms negate field (first :: more) in
     let expression := join (if negate then #"&&" else #"||") terms in
     if 1 <? size terms then #"(" ++ expression ++ #")" else expression).
Proof.
  intros Hf Hc. cbv zeta. destruct more as [|v more].
  - inv Hc. change (1 <? size _) with false. apply render_text; [done|destruct negate; set_solver|].
    split; [done|by destruct negate].
  - replace (1 <? size _) with true
      by (symmetry; apply Z.ltb_lt; unfold size, in_terms; rewrite length_fmap; cbn [length]; lia).
    apply ft_group. pose proof (membership_text negate field first (v :: more) Hf Hc) as T.
    destruct negate; [by apply ft_conjunction|done].
Qed.

Lemma more_values_carried ts values : more_values ts values -> Forall (fun v => carried v = true) values.
Proof. induction 1; by constructor. Qed.

(** ** Every predicate is accepted and rendered as its meaning *)

Definition predicate_accepted (al : gmap bytes bytes) (m : FilterExpressionNode) (ts : list SQLToken) : Prop :=
  exists s, filter_text LPrimary m s /\ forall p pre rest n d,
    p_SelectAliases p = al -> n + 1 <= SQLMaxASTNodes ->
    ParseComparison false (cur p pre (ts ++ rest) n d) = (cur p (pre ++ ts) rest (n + 1) d, Done s).

Lemma operator_not_keyword o op k :
  operator_token o op -> k ∈ [ #"NOT"; #"IN"; #"BETWEEN"; #"LIKE"; #"ILIKE"; #"CONTAINS"; #"IS"] -> Upper o <> k.
Proof.
  intros [-> Hop] Hk E. rewrite E in Hop. unfold comparison_operators in Hop. rewrite !elem_of_cons in Hk.
  destruct Hk as [->|[->|[->|[->|[->|[->|[->|?%not_elem_of_nil]]]]]]]; try done; revert Hop;
    match goal with |- ?P -> False => by apply (bool_decide_eq_false_1 P) end.
Qed.

Lemma run_tail_operator negate field p pre o op v value ts n d op' :
  operator_token o op -> value_token v value -> (negate = true -> op ∈ [ #"="; #"!="]) ->
  op' = (if negate then if bool_decide (op = #"=") then #"!=" else #"=" else op) ->
  predicate_tail negate field (cur p pre (o :: v :: ts) n d) =
  BuildRenderedComparison field op' value (cur p ((pre ++ [o]) ++ [v]) ts n d).
Proof.
  intros Ho Hv Hneg Hop'. unfold predicate_tail.
  do 7 (erewrite bind_done;
    [|rewrite run_MatchKeyword, bool_decide_false by (eapply operator_not_keyword; [done|set_solver]); reflexivity];
    cbv beta iota).
  by eapply run_ParseOperatorComparison.
Qed.

Lemma accepted_compare al f field o op v value :
  field_token al f field -> operator_token o op -> value_token v value -> comparable op value ->
  predicate_accepted al (comparison field op value) [f; o; v].
Proof.
  intros Hf Ho Hv Hc. exists (render field op value). split.
  { apply render_text; [by eapply field_token_name|apply Ho|done]. }
  intros p pre rest n d <- Hn. cbn [app]. rewrite (run_ParseComparison p pre f field) by done.
  erewrite run_tail_operator by done. rewrite run_BuildRenderedComparison by apply Hc. by rewrite <- !app_assoc.
Qed.

Lemma accepted_not_equal al t f field o op v value :
  keyword t #"NOT" -> field_token al f field -> operator_token o op -> op ∈ [ #"="; #"!="] ->
  value_token v value -> carried value = true ->
  predicate_accepted al (comparison field (if bool_decide (op = #"=") then #"!=" else #"=") value) [t; f; o; v].
Proof.
  intros Ht Hf Ho Hop Hv Hc. exists (render field (if bool_decide (op = #"=") then #"!=" else #"=") value). split.
  { apply render_text; [by eapply field_token_name|case_bool_decide; set_solver|].
    split; [done|by case_bool_decide]. }
  intros p pre rest n d <- Hn. cbn [app]. rewrite (run_NotComparison p pre t f field) by done.
  erewrite run_tail_operator by done. rewrite run_BuildRenderedComparison by done. by rewrite <- !app_assoc.
Qed.

Lemma accepted_equals_null al f field o op v value :
  field_token al f field -> operator_token o op -> op ∈ [ #"="; #"!="] ->
  value_token v value -> SQLToUpperASCII value = #"NULL" ->
  predicate_accepted al
    (NCondition (mkCondition field (if bool_decide (op = #"=") then #"ISNULL" else #"ISNOTNULL") [] [])) [f; o; v].
Proof.
  intros Hf Ho Hop Hv Hn. exists (field ++ #":" ++ (if bool_decide (op = #"=") then #"ISNULL" else #"ISNOTNULL")). split.
  { apply null_text; [by eapply field_token_name|case_bool_decide; set_solver]. }
  intros p pre rest n d <- Hb. cbn [app]. rewrite (run_ParseComparison p pre f field) by done.
  erewrite run_tail_operator by done. unfold BuildRenderedComparison. rewrite bool_decide_true by done.
  rewrite <- !app_assoc. rewrite !elem_of_cons in Hop. by destruct Hop as [->|[->|?%not_elem_of_nil]].
Qed.

Lemma accepted_is_null al f field i n :
  field_token al f field -> keyword i #"IS" -> keyword n #"NULL" ->
  predicate_accepted al (NCondition (mkCondition field #"ISNULL" [] [])) [f; i; n].
Proof.
  unfold keyword. intros Hf Hi Hn. exists (field ++ #":" ++ #"ISNULL"). split.
  { apply null_text; [by eapply field_token_name|set_solver]. }
  intros p pre rest k d <- Hb. cbn [app]. rewrite (run_ParseComparison p pre f field) by done.
  unfold predicate_tail, ParseIsPredicate. repeat sql_step. by rewrite <- !app_assoc.
Qed.

Lemma accepted_is_not_null al f field i t n :
  field_token al f field -> keyword i #"IS" -> keyword t #"NOT" -> keyword n #"NULL" ->
  predicate_accepted al (NCondition (mkCondition field #"ISNOTNULL" [] [])) [f; i; t; n].
Proof.
  unfold keyword. intros Hf Hi Ht Hn. exists (field ++ #":" ++ #"ISNOTNULL"). split.
  { apply null_text; [by eapply field_token_name|set_solver]. }
  intros p pre rest k d <- Hb. cbn [app]. rewrite (run_ParseComparison p pre f field) by done.
  unfold predicate_tail, ParseIsPredicate. repeat sql_step. by rewrite <- !app_assoc.
Qed.

Lemma accepted_is_bool al (negate b : bool) f field i t w :
  field_token al f field -> keyword i #"IS" -> keyword t #"NOT" -> keyword w (if b then #"TRUE" else #"FALSE") ->
  predicate_accepted al (comparison field (if negate then #"!=" else #"=") (if b then #"true" else #"false"))
    ([f; i] ++ (if negate then [t] else []) ++ [w]).
Proof.
  unfold keyword. intros Hf Hi Ht Hw.
  assert (carried (if b then #"true" else #"false") = true) as Hc by (destruct b; by vm_compute).
  exists (render field (if negate then #"!=" else #"=") (if b then #"true" else #"false")). split.
  { apply render_text; [by eapply field_token_name|destruct negate; set_solver|]. split; [done|by destruct negate]. }
  intros p pre rest k d <- Hb. cbn [app]. rewrite (run_ParseComparison p pre f field) by done.
  unfold predicate_tail, ParseIsPredicate.
  destruct negate, b; cbn [app]; repeat sql_step; by rewrite <- !app_assoc.
Qed.

Lemma accepted_in al (negate : bool) f field t i o v value ts values c :
  field_token al f field -> keyword t #"NOT" -> keyword i #"IN" -> Text o = #"(" ->
  value_token v value -> carried value = true -> more_values ts values -> Text c = #")" ->
  1 + Z.of_nat (length values) <= SQLMaxInListValues ->
  predicate_accepted al (membership negate field value values)
    ([f] ++ (if negate then [t] else []) ++ [i; o; v] ++ ts ++ [c]).
Proof.
  unfold keyword. intros Hf Ht Hi Ho Hv Hc Hm Hk Hs. eexists. split.
  { apply in_list_text; [by eapply field_token_name|]. constructor; [done|by eapply more_values_carried]. }
  intros p pre rest n d <- Hn. cbn [app]. rewrite (run_ParseComparison p pre f field) by done.
  unfold predicate_tail, ParseNotPredicate. rewrite <- !app_assoc.
  destruct negate; cbn [app]; repeat sql_step; rewrite <- !app_assoc; cbn [app];
    match goal with |- ParseInList _ _ (cur ?p ?pre _ ?n ?d) = _ =>
      pose proof (run_ParseInList field true p pre o v value ts values c rest n d Ho Hv Hc Hm Hk Hs) as Rt;
      pose proof (run_ParseInList field false p pre o v value ts values c rest n d Ho Hv Hc Hm Hk Hs) as Rf end;
    cbn [app] in Rt, Rf; rewrite ?Rt, ?Rf; by rewrite <- !app_assoc.
Qed.

Lemma accepted_between al f field b v lo a w hi :
  field_token al f field -> keyword b #"BETWEEN" -> value_token v lo -> keyword a #"AND" -> value_token w hi ->
  carried lo = true -> carried hi = true -> range_text true lo hi = true ->
  predicate_accepted al (NCondition (mkCondition field #"RANGE_INCLUSIVE" (lo ++ #"," ++ hi) [])) [f; b; v; a; w].
Proof.
  intros Hf Hb Hv Ha Hw Hl Hh Hr. unfold keyword in Hb. exists (field ++ #":[" ++ lo ++ #" TO " ++ hi ++ #"]"). split.
  { apply ft_condition. apply (ct_range field true lo hi [] []); [by eapply field_token_name|constructor..|done]. }
  intros p pre rest n d <- Hn. cbn [app]. rewrite (run_ParseComparison p pre f field) by done.
  unfold predicate_tail. do 3 sql_step. rewrite (run_ParseBetween field false p _ v lo a w hi) by done.
  by rewrite <- !app_assoc.
Qed.

Lemma accepted_not_between al f field t b v lo a w hi :
  field_token al f field -> keyword t #"NOT" -> keyword b #"BETWEEN" -> value_token v lo -> keyword a #"AND" ->
  value_token w hi -> comparable #"<" lo -> comparable #">" hi ->
  predicate_accepted al
    (NOr (NCondition (mkCondition field #"<" lo [])) (NCondition (mkCondition field #">" hi []))) [f; t; b; v; a; w].
Proof.
  intros Hf Ht Hb Hv Ha Hw [Hl Hl'] [Hh Hh']. unfold keyword in Ht, Hb. pose proof (field_token_name _ _ _ Hf) as Hn.
  exists (#"(" ++ ((field ++ #":" ++ #"<" ++ lo) ++ #"||" ++ (field ++ #":" ++ #">" ++ hi)) ++ #")"). split.
  { apply ft_group, ft_or; [apply ft_conjunction, ft_primary|apply ft_primary]; apply operator_text; try done;
      [known_op|by apply carried_parts|known_op|by apply carried_parts]. }
  intros p pre rest n d <- Hn'. cbn [app]. rewrite (run_ParseComparison p pre f field) by done.
  unfold predicate_tail, ParseNotPredicate. do 3 sql_step. rewrite (run_ParseBetween field true p _ v lo a w hi) by done.
  by rewrite <- !app_assoc.
Qed.

Lemma accepted_like al (negate ci : bool) f field t l v value :
  field_token al f field -> keyword t #"NOT" -> keyword l (if ci then #"ILIKE" else #"LIKE") ->
  value_token v value -> carried value = true -> carried (ConvertSQLLikePattern value) = true ->
  predicate_accepted al
    (NCondition (mkCondition field ((if negate then #"NOT_" else []) ++ (if ci then #"ILIKE" else #"LIKE"))
       (ConvertSQLLikePattern value) []))
    ([f] ++ (if negate then [t] else []) ++ [l; v]).
Proof.
  unfold keyword. intros Hf Ht Hl Hv Hc Hp.
  exists (field ++ #":" ++ (((if negate then #"NOT_" else []) ++ (if ci then #"ILIKE:" else #"LIKE:")) ++ ConvertSQLLikePattern value)).
  split.
  { apply operator_text; [by eapply field_token_name|destruct negate, ci; known_op|by destruct negate, ci|by apply carried_parts]. }
  intros p pre rest n d <- Hn. cbn [app]. rewrite (run_ParseComparison p pre f field) by done.
  unfold predicate_tail, ParseNotPredicate.
  destruct negate, ci; cbn [app]; repeat sql_step; rewrite (run_ParseLike field _ _ p _ v value) by done;
    by rewrite <- !app_assoc.
Qed.

Lemma accepted_contains al (negate : bool) f field t l v value :
  field_token al f field -> keyword t #"NOT" -> keyword l #"CONTAINS" -> value_token v value -> carried value = true ->
  predicate_accepted al
    (NCondition (mkCondition field (if negate then #"NOT_LIKE" else #"LIKE") (#"*" ++ value ++ #"*") []))
    ([f] ++ (if negate then [t] else []) ++ [l; v]).
Proof.
  unfold keyword. intros Hf Ht Hl Hv Hc.
  exists (field ++ #":" ++ (if negate then #"NOT_LIKE:" else #"LIKE:") ++ #"*" ++ value ++ #"*"). split.
  { apply operator_text; [by eapply field_token_name|destruct negate; known_op|by destruct negate|].
    by apply starred_text, carried_parts. }
  intros p pre rest n d <- Hn. cbn [app]. rewrite (run_ParseComparison p pre f field) by done.
  unfold predicate_tail, ParseNotPredicate.
  destruct negate; cbn [app]; repeat sql_step; rewrite (run_ParseContains field _ p _ v value) by done;
    by rewrite <- !app_assoc.
Qed.

Lemma predicate_run al m ts : predicate_tokens al m ts -> predicate_accepted al m ts.
Proof.
  intros [ ]; [by eapply accepted_compare|by eapply accepted_not_equal|by eapply accepted_equals_null
    |by eapply accepted_is_null|by eapply accepted_is_not_null|by eapply accepted_is_bool|by eapply accepted_in
    |by eapply accepted_between|by eapply accepted_not_between|by eapply accepted_like|by eapply accepted_contains].
Qed.

(** ** Fuel of the expression grammar *)

Definition extends {A} (m m' : M A) : Prop := forall p, fueled m p -> m' p = m p.

Lemma extends_refl {A} (m : M A) : extends m m.
Proof. by intros p. Qed.

Lemma extends_bind {A B} (m m' : M A) (k k' : A -> M B) :
  extends m m' -> (forall a, extends (k a) (k' a)) -> extends (mbind m k) (mbind m' k').
Proof.
  intros Hm Hk p. unfold fueled, mbind. intros H. rewrite (Hm p); [|unfold fueled; by destruct (m p) as [? []]].
  destruct (m p) as [p' [a|msg| |]]; [|done..]. by apply Hk.
Qed.

Lemma extends_leaving {A} (m m' : M A) : extends m m' -> extends (leaving m) (leaving m').
Proof.
  intros Hm p. unfold fueled, leaving. intros H. rewrite (Hm p); [done|]. unfold fueled. by destruct (m p) as [? []].
Qed.

Ltac extends_tac :=
  repeat lazymatch goal with
  | |- extends (mbind _ _) (mbind _ _) => apply extends_bind; [|intros ?]
  | |- extends (leaving _) (leaving _) => apply extends_leaving
  | |- extends (if ?b then _ else _) (if ?b then _ else _) => destruct b
  | |- extends ?m ?m => apply extends_refl
  end.

(** One call of each function, as an equation. *)

Lemma ParseExpression_S f a :
  ParseExpression (S f) a = (out <- ParseAndExpression f a ;; SqlParser.or_loop f a out).
Proof. done. Qed.

Lemma sql_or_loop_S f a out :
  SqlParser.or_loop (S f) a out =
  (u <- mget PeekUpper ;;
   if bool_decide (u = #"OR") then
     Advance ;;; rhs <- ParseAndExpression f a ;; SqlParser.or_loop f a (out ++ #"||" ++ rhs)
   else mret out).
Proof. done. Qed.

Lemma ParseAndExpression_S f a :
  ParseAndExpression (S f) a = (out <- ParsePrimaryExpression f a ;; SqlParser.and_loop f a out).
Proof. done. Qed.

Lemma sql_and_loop_S f a out :
  SqlParser.and_loop (S f) a out =
  (u <- mget PeekUpper ;;
   if bool_decide (u = #"AND") then
     Advance ;;; rhs <- ParsePrimaryExpression f a ;; SqlParser.and_loop f a (out ++ #"&&" ++ rhs)
   else mret out).
Proof. done. Qed.

Lemma ParsePrimaryExpression_S f a :
  ParsePrimaryExpression (S f) a =
  (u <- mget PeekUpper ;;
   next_token <- mget (PeekAt 1) ;;
   if bool_decide (u = #"NOT") && match next_token with Some t => bool_decide (Text t = #"(") | None => false end then
     Advance ;;; inner <- ParsePrimaryExpression f a ;; mret (#"!" ++ inner)
   else
     open <- peek_is #"(" ;;
     if (open : bool) then
       EnterExpressionGroup ;;;
       Advance ;;;
       out <- leaving (ParseExpression f a) ;;
       close <- peek_is #")" ;;
       if negb close then LeaveExpressionGroup ;;; mfail #"Expected ')' to close WHERE expression."
       else Advance ;;; LeaveExpressionGroup ;;; mret (#"(" ++ out ++ #")")
     else ParseComparison a).
Proof. done. Qed.

Lemma grammar_extends fuel a :
  extends (ParseExpression fuel a) (ParseExpression (S fuel) a) /\
  (forall out, extends (SqlParser.or_loop fuel a out) (SqlParser.or_loop (S fuel) a out)) /\
  extends (ParseAndExpression fuel a) (ParseAndExpression (S fuel) a) /\
  (forall out, extends (SqlParser.and_loop fuel a out) (SqlParser.and_loop (S fuel) a out)) /\
  extends (ParsePrimaryExpression fuel a) (ParsePrimaryExpression (S fuel) a).
Proof.
  induction fuel as [|f (IH1 & IH2 & IH3 & IH4 & IH5)]; [by split_and!; intros; intros p|].
  split_and!; intros;
    first [rewrite (ParseExpression_S f), (ParseExpression_S (S f)) | rewrite (sql_or_loop_S f), (sql_or_loop_S (S f))
          | rewrite (ParseAndExpression_S f), (ParseAndExpression_S (S f)) | rewrite (sql_and_loop_S f), (sql_and_loop_S (S f))
          | rewrite (ParsePrimaryExpression_S f), (ParsePrimaryExpression_S (S f))];
    extends_tac; auto.
Qed.

(** With enough fuel, [g] takes the parser [q] to [q'] and delivers [a]. *)

Definition reaches {A} (g : nat -> M A) (q q' : Parser) (a : A) : Prop :=
  exists b, forall f, (b <= f)%nat -> g f q = (q', Done a).

Lemma reaches_S {A} (g : nat -> M A) h q q1 q' a :
  (forall f, g (S f) q = h f q1) -> reaches h q1 q' a -> reaches g q q' a.
Proof. intros H [b Hb]. exists (S b). intros [|f] Hf; [lia|]. rewrite H. apply Hb. lia. Qed.

Lemma reaches_bind {A B} (g : nat -> M A) (k : nat -> A -> M B) q q1 a q' b :
  reaches g q q1 a -> reaches (fun f => k f a) q1 q' b -> reaches (fun f => mbind (g f) (k f)) q q' b.
Proof.
  intros [x Hx] [y Hy]. exists (Nat.max x y). intros f Hf. rewrite (bind_done _ _ _ q1 a) by (apply Hx; lia).
  apply Hy. lia.
Qed.

Lemma reaches_const {A} (m : M A) q q' a : m q = (q', Done a) -> reaches (fun _ => m) q q' a.
Proof. intros H. by exists 0%nat. Qed.

Lemma ParseExpression_reaches q q' s :
  reaches (fun f => ParseExpression f false) q q' s -> ParseExpression (expression_fuel q) false q = (q', Done s).
Proof.
  intros [b Hb]. assert (fueled (ParseExpression (expression_fuel q) false) q) as Hf.
  { apply expression_grammar_fueled. unfold expression_fuel, unread. lia. }
  rewrite <- (Hb (Nat.max b (expression_fuel q))) by lia. symmetry.
  assert (expression_fuel q <= Nat.max b (expression_fuel q))%nat as Hle by lia.
  induction Hle as [|f Hle IH]; [done|].
  destruct (grammar_extends f false) as [E _]. rewrite E; [done|]. unfold fueled. by rewrite IH.
Qed.

(** ** Expressions *)

Definition head_upper (ts : list SQLToken) : bytes := match ts with t :: _ => Upper t | [] => [] end.

Lemma cur_head_upper p pre ts n d : PeekUpper (cur p pre ts n d) = head_upper ts.
Proof. destruct ts as [|t ts]; [apply cur_PeekUpper_end|apply cur_PeekUpper]. Qed.

Definition where_accepted (al : gmap bytes bytes) (l : level) (m : FilterExpressionNode) (ts : list SQLToken) (k dep : Z) : Prop :=
  exists s, filter_text l m s /\ forall p pre rest n d,
    p_SelectAliases p = al -> n + k <= SQLMaxASTNodes -> 0 <= d -> d + dep <= SQLMaxExpressionDepth ->
    (l = LOr -> head_upper rest <> #"AND") ->
    let q := cur p pre (ts ++ rest) n d in
    let q1 := cur p (pre ++ ts) rest (n + k) d in
    match l with
    | LPrimary => reaches (fun f => ParsePrimaryExpression f false) q q1 s
    | LAnd => forall q' out, reaches (fun f => SqlParser.and_loop f false s) q1 q' out ->
                             reaches (fun f => ParseAndExpression f false) q q' out
    | LOr => forall q' out, reaches (fun f => SqlParser.or_loop f false s) q1 q' out ->
                            reaches (fun f => ParseExpression f false) q q' out
    end.

Lemma where_tokens_pos al l m ts k dep : where_tokens al l m ts k dep -> 1 <= k /\ 0 <= dep.
Proof. induction 1; lia. Qed.

Lemma and_loop_ends p pre rest n d out :
  head_upper rest <> #"AND" ->
  reaches (fun f => SqlParser.and_loop f false out) (cur p pre rest n d) (cur p pre rest n d) out.
Proof.
  intros H. apply (reaches_S _ (fun _ => mret out) _ (cur p pre rest n d)); [|by apply reaches_const].
  intros f. by rewrite sql_and_loop_S, bind_get, cur_head_upper, bool_decide_false.
Qed.

Lemma or_loop_ends p pre rest n d out :
  head_upper rest <> #"OR" ->
  reaches (fun f => SqlParser.or_loop f false out) (cur p pre rest n d) (cur p pre rest n d) out.
Proof.
  intros H. apply (reaches_S _ (fun _ => mret out) _ (cur p pre rest n d)); [|by apply reaches_const].
  intros f. by rewrite sql_or_loop_S, bind_get, cur_head_upper, bool_decide_false.
Qed.

(** How a predicate starts: not with a parenthesis, and a NOT in front of it is
    not followed by one. *)

Lemma plain_not_paren text : plain_identifier text = true -> text <> #"(".
Proof. by intros H ->. Qed.

Lemma predicate_first al m ts :
  predicate_tokens al m ts ->
  exists t ts', ts = t :: ts' /\ Text t <> #"(" /\
    (Upper t = #"NOT" -> exists u ts'', ts' = u :: ts'' /\ Text u <> #"(").
Proof.
  intros H. destruct H;
    try match goal with Hf : field_token _ ?f _ |- exists t ts', ?f :: _ = _ /\ _ =>
      destruct Hf as (Hp & _ & Hu & _); exists f; eexists; split; [reflexivity|]; split; [by apply plain_not_paren|done] end;
    try match goal with Hf : field_token _ ?f _ |- exists t ts', [?f] ++ _ = _ /\ _ =>
      destruct Hf as (Hp & _ & Hu & _); exists f; eexists; split; [reflexivity|]; split; [by apply plain_not_paren|done] end;
    try match goal with Hf : field_token _ ?f _ |- exists t ts', [?f; _] ++ _ = _ /\ _ =>
      destruct Hf as (Hp & _ & Hu & _); exists f; eexists; split; [reflexivity|]; split; [by apply plain_not_paren|done] end.
  eexists _, _. split_and!; [reflexivity|done|]. intros _. eexists _, _. split; [reflexivity|].
  apply plain_not_paren. by destruct H1.
Qed.

Lemma accepted_predicate al m ts : predicate_tokens al m ts -> where_accepted al LPrimary m ts 1 0.
Proof.
  intros H. destruct (predicate_run _ _ _ H) as (s & Hs & Hr). exists s. split; [done|].
  intros p pre rest n d Hal Hn Hd Hdep _. cbv zeta.
  apply (reaches_S _ (fun _ => ParseComparison false) _ (cur p pre (ts ++ rest) n d));
    [|by apply reaches_const, Hr].
  intros f. rewrite ParsePrimaryExpression_S, !bind_get.
  destruct (predicate_first _ _ _ H) as (t & ts' & -> & Ht & Hnot). cbn [app].
  rewrite cur_PeekUpper.
  assert ((bool_decide (Upper t = #"NOT") &&
    match PeekAt 1 (cur p pre (t :: ts' ++ rest) n d) with Some t => bool_decide (Text t = #"(") | None => false end) = false) as ->.
  { case_bool_decide as E; [|done]. destruct (Hnot E) as (u & ts'' & -> & Hu). cbn [app].
    by rewrite cur_next, bool_decide_false. }
  by rewrite bind_peek_is, cur_PeekText, bool_decide_false.
Qed.

Lemma run_Enter p pre ts n d :
  d + 1 <= SQLMaxExpressionDepth -> EnterExpressionGroup (cur p pre ts n d) = (cur p pre ts n (d + 1), Done tt).
Proof.
  intros H. unfold EnterExpressionGroup, mbind, mmodify, mget.
  change (set_p_ExpressionDepth (p_ExpressionDepth (cur p pre ts n d) + 1) (cur p pre ts n d)) with (cur p pre ts n (d + 1)).
  cbn [p_ExpressionDepth cur]. by rewrite (proj2 (Z.ltb_ge _ _)).
Qed.

Lemma run_Leave p pre ts n d :
  0 <= d -> LeaveExpressionGroup (cur p pre ts n (d + 1)) = (cur p pre ts n d, Done tt).
Proof.
  intros H. unfold LeaveExpressionGroup, mmodify. cbn [p_ExpressionDepth cur].
  rewrite (proj2 (Z.ltb_lt _ _)) by lia. f_equal.
  change (set_p_ExpressionDepth (d + 1 - 1) (cur p pre ts n (d + 1))) with (cur p pre ts n (d + 1 - 1)).
  by replace (d + 1 - 1) with d by lia.
Qed.

Lemma reaches_leaving {A} (g : nat -> M A) q q' a : reaches g q q' a -> reaches (fun f => leaving (g f)) q q' a.
Proof. intros [b Hb]. exists b. intros f Hf. unfold leaving. by rewrite Hb. Qed.

Lemma where_accepted_expression al ts k dep s :
  (forall p pre rest n d,
    p_SelectAliases p = al -> n + k <= SQLMaxASTNodes -> 0 <= d -> d + dep <= SQLMaxExpressionDepth ->
    (LOr = LOr -> head_upper rest <> #"AND") -> forall q' out,
    reaches (fun f => SqlParser.or_loop f false s) (cur p (pre ++ ts) rest (n + k) d) q' out ->
    reaches (fun f => ParseExpression f false) (cur p pre (ts ++ rest) n d) q' out) ->
  forall p pre rest n d,
    p_SelectAliases p = al -> n + k <= SQLMaxASTNodes -> 0 <= d -> d + dep <= SQLMaxExpressionDepth ->
    head_upper rest <> #"AND" -> head_upper rest <> #"OR" ->
    reaches (fun f => ParseExpression f false) (cur p pre (ts ++ rest) n d) (cur p (pre ++ ts) rest (n + k) d) s.
Proof. intros H p pre rest n d Hal Hn Hd Hdep Ha Ho. apply H; try done. by apply or_loop_ends. Qed.

Lemma group_reaches o ts c s p pre rest n k d :
  parenthesis o #"(" -> parenthesis c #")" -> 0 <= d -> d + 1 <= SQLMaxExpressionDepth ->
  reaches (fun f => ParseExpression f false) (cur p (pre ++ [o]) (ts ++ c :: rest) n (d + 1))
    (cur p ((pre ++ [o]) ++ ts) (c :: rest) k (d + 1)) s ->
  reaches (fun f => ParsePrimaryExpression f false) (cur p pre (o :: ts ++ c :: rest) n d)
    (cur p (pre ++ o :: ts ++ [c]) rest k d) (#"(" ++ s ++ #")").
Proof.
  intros [Ho Ho'] [Hc Hc'] Hd Hd' H.
  apply (reaches_S _ (fun f => mbind (leaving (ParseExpression f false)) (fun out =>
    close <- peek_is #")" ;;
    if negb close then LeaveExpressionGroup ;;; mfail #"Expected ')' to close WHERE expression."
    else Advance ;;; LeaveExpressionGroup ;;; mret (#"(" ++ out ++ #")"))) _ (cur p (pre ++ [o]) (ts ++ c :: rest) n (d + 1))).
  - intros f. rewrite ParsePrimaryExpression_S, !bind_get, cur_PeekUpper, Ho', bool_decide_false by done. cbn [andb].
    rewrite bind_peek_is, cur_PeekText, Ho, bool_decide_true by done. cbv iota.
    erewrite bind_done by (by apply run_Enter). cbv beta. by erewrite bind_done by apply run_Advance.
  - eapply reaches_bind; [by apply reaches_leaving|]. apply reaches_const. sql_step. sql_step.
    erewrite bind_done by (by apply run_Leave). unfold mret. by rewrite <- !app_assoc.
Qed.

Lemma accepted_group al m o ts c k dep :
  where_accepted al LOr m ts k dep -> parenthesis o #"(" -> parenthesis c #")" -> 0 <= dep ->
  where_accepted al LPrimary m (o :: ts ++ [c]) k (dep + 1).
Proof.
  intros (s & Hs & H) Ho Hc Hpos. exists (#"(" ++ s ++ #")"). split; [by apply ft_group|].
  intros p pre rest n d Hal Hn Hd Hdep _. cbv zeta. cbn [app]. rewrite <- app_assoc.
  apply group_reaches; [done..|lia|]. destruct Hc as [_ Hc].
  apply (where_accepted_expression _ _ _ _ _ H); try done; try lia; cbn [head_upper]; by rewrite Hc.
Qed.

Lemma accepted_not al m t o ts c k dep :
  where_accepted al LOr m ts k dep -> keyword t #"NOT" -> parenthesis o #"(" -> parenthesis c #")" -> 0 <= dep ->
  where_accepted al LPrimary (NNot m) (t :: o :: ts ++ [c]) k (dep + 1).
Proof.
  intros H Ht Ho Hc Hpos. destruct (accepted_group _ _ o _ c _ _ H Ho Hc Hpos) as (s & Hs & Hg).
  exists (#"!" ++ s). split; [by apply ft_not|]. intros p pre rest n d Hal Hn Hd Hdep _. cbv zeta. cbn [app].
  apply (reaches_S _ (fun f => inner <- ParsePrimaryExpression f false ;; mret (#"!" ++ inner)) _
    (cur p (pre ++ [t]) (o :: (ts ++ [c]) ++ rest) n d)).
  - intros f. rewrite ParsePrimaryExpression_S, !bind_get, cur_PeekUpper, Ht, cur_next, (proj1 Ho), !bool_decide_true by done.
    cbn [andb]. by erewrite bind_done by apply run_Advance.
  - eapply reaches_bind; [apply (Hg p (pre ++ [t]) rest n d); done|]. apply reaches_const. unfold mret.
    by rewrite <- app_assoc.
Qed.

Lemma accepted_and_first al m ts k dep : where_accepted al LPrimary m ts k dep -> where_accepted al LAnd m ts k dep.
Proof.
  intros (s & Hs & H). exists s. split; [by apply ft_primary|]. intros p pre rest n d Hal Hn Hd Hdep _ q q1 q' out Hl.
  apply (reaches_S _ (fun f => out <- ParsePrimaryExpression f false ;; SqlParser.and_loop f false out) _ q); [done|].
  eapply (reaches_bind _ (fun f out => SqlParser.and_loop f false out)); [by apply H|done].
Qed.

Lemma accepted_and al l r ts a us k k' d d' :
  where_accepted al LAnd l ts k d -> keyword a #"AND" -> where_accepted al LPrimary r us k' d' ->
  1 <= k' -> 0 <= d -> 0 <= d' -> where_accepted al LAnd (NAnd l r) (ts ++ a :: us) (k + k') (Z.max d d').
Proof.
  intros (s & Hs & Hl) Ha (t & Ht & Hr) Hk Hd0 Hd0'. exists (s ++ #"&&" ++ t). split; [by apply ft_and|].
  intros p pre rest n e Hal Hn He Hdep _ q q1 q' out Hloop. subst q q1. rewrite <- app_assoc. cbn [app].
  apply Hl; [done|lia|lia|lia|done|].
  apply (reaches_S _ (fun f => rhs <- ParsePrimaryExpression f false ;; SqlParser.and_loop f false (s ++ #"&&" ++ rhs)) _
    (cur p ((pre ++ ts) ++ [a]) (us ++ rest) (n + k) e)).
  - intros f. rewrite sql_and_loop_S, bind_get, cur_PeekUpper, Ha, bool_decide_true by done.
    by erewrite bind_done by apply run_Advance.
  - eapply (reaches_bind _ (fun f rhs => SqlParser.and_loop f false (s ++ #"&&" ++ rhs))); [apply Hr; done || lia|].
    rewrite <- !app_assoc in *. cbn [app] in *. by rewrite <- Z.add_assoc.
Qed.

Lemma accepted_or_first al m ts k dep : where_accepted al LAnd m ts k dep -> where_accepted al LOr m ts k dep.
Proof.
  intros (s & Hs & H). exists s. split; [by apply ft_conjunction|]. intros p pre rest n d Hal Hn Hd Hdep Hr q q1 q' out Hl.
  apply (reaches_S _ (fun f => out <- ParseAndExpression f false ;; SqlParser.or_loop f false out) _ q); [done|].
  eapply (reaches_bind _ (fun f out => SqlParser.or_loop f false out)); [|done].
  apply H; try done. by apply and_loop_ends, Hr.
Qed.

Lemma accepted_or al l r ts o us k k' d d' :
  where_accepted al LOr l ts k d -> keyword o #"OR" -> where_accepted al LAnd r us k' d' ->
  1 <= k' -> 0 <= d -> 0 <= d' -> where_accepted al LOr (NOr l r) (ts ++ o :: us) (k + k') (Z.max d d').
Proof.
  intros (s & Hs & Hl) Ho (t & Ht & Hr) Hk Hd0 Hd0'. exists (s ++ #"||" ++ t). split; [by apply ft_or|].
  intros p pre rest n e Hal Hn He Hdep Hrest q q1 q' out Hloop. subst q q1. rewrite <- app_assoc. cbn [app].
  apply Hl; [done|lia|lia|lia| |]. { intros _. cbn [head_upper]. by rewrite Ho. }
  apply (reaches_S _ (fun f => rhs <- ParseAndExpression f false ;; SqlParser.or_loop f false (s ++ #"||" ++ rhs)) _
    (cur p ((pre ++ ts) ++ [o]) (us ++ rest) (n + k) e)).
  - intros f. rewrite sql_or_loop_S, bind_get, cur_PeekUpper, Ho, bool_decide_true by done.
    by erewrite bind_done by apply run_Advance.
  - eapply (reaches_bind _ (fun f rhs => SqlParser.or_loop f false (s ++ #"||" ++ rhs))).
    + apply Hr; try done; try lia. by apply and_loop_ends, Hrest.
    + rewrite <- !app_assoc in *. cbn [app] in *. by rewrite <- Z.add_assoc.
Qed.

Lemma where_run al l m ts k dep : where_tokens al l m ts k dep -> where_accepted al l m ts k dep.
Proof.
  induction 1; repeat match goal with H : where_tokens _ _ _ _ _ _ |- _ => apply where_tokens_pos in H as [??] end.
  - by apply accepted_predicate.
  - by apply accepted_group.
  - by apply accepted_not.
  - by apply accepted_and_first.
  - by apply accepted_and.
  - by apply accepted_or_first.
  - by apply accepted_or.
Qed.

(** ** Properties *)

(** C2. A WHERE clause selects the hits it describes. The SQL parser accepts
    every well-formed WHERE expression that fits the node and nesting budgets,
    stops behind it, and stores a filter string; the filter parser reads that
    string as the expression's tree (AND before OR, NOT on groups, IN as a
    chain of equalities, BETWEEN as an inclusive range, LIKE with SQL wildcards
    converted), and filtering with it keeps exactly the hits for which the tree
    holds, whatever the evaluation of single conditions. *)
Theorem where_clause_selects {SearchHit Doc} (Document : SearchHit -> Doc) EvaluateFilterCondition
    p pre ts rest m k dep :
  where_tokens (p_SelectAliases p) LOr m ts k dep ->
  p_Tokens p = pre ++ ts ++ rest -> p_Position p = length pre ->
  p_ASTNodeCount p + k <= SQLMaxASTNodes -> 0 <= p_ExpressionDepth p ->
  p_ExpressionDepth p + dep <= SQLMaxExpressionDepth -> head_upper rest ∉ [ #"AND"; #"OR"] ->
  exists p' FilterBy,
    ParseWhere p = (p', Done tt) /\ p_Position p' = length (pre ++ ts) /\
    q_FilterBy (r_Query (p_Result p')) = FilterBy /\ st_FilterBy (p_ParsedStatement p') = FilterBy /\
    Parse FilterBy = Some (Some m) /\
    forall Hits, ApplyFilters Document EvaluateFilterCondition Hits FilterBy =
      Some (List.filter (fun h => EvaluateExpression EvaluateFilterCondition (Document h) m) Hits).
Proof.
  intros Hw Ht Hp Hn Hd Hdep Hrest. destruct (where_run _ _ _ _ _ _ Hw) as (s & Hs & H).
  assert (head_upper rest <> #"AND" /\ head_upper rest <> #"OR") as [Ha Ho] by set_solver.
  pose proof (where_accepted_expression _ _ _ _ _ H p pre rest _ _ eq_refl Hn Hd Hdep Ha Ho) as R.
  rewrite <- (cur_self p pre (ts ++ rest) Ht Hp) in R. apply ParseExpression_reaches in R.
  pose proof (Parse_text _ _ Hs) as Hparse.
  eexists _, s. split_and!.
  - unfold ParseWhere, expression. erewrite bind_done by exact R. reflexivity.
  - reflexivity.
  - reflexivity.
  - reflexivity.
  - done.
  - intros Hits. rewrite ApplyFilters_keeps. unfold keeps_document. by rewrite Hparse.
Qed.

Definition tok (text : bytes) : SQLToken := mkToken text (SQLToUpperASCII text).

(** A concrete evaluation of conditions: the document carries the value. *)

Definition carries (d : gmap bytes bytes) (c : FilterCondition) : bool := bool_decide (d !! Field c = Some (Value c)).

Definition witness_tokens : list SQLToken :=
  tok <$> [ #"price"; #"="; #"5"; #"OR"; #"NOT"; #"("; #"brand"; #"IN"; #"("; #"'x'"; #","; #"'y'"; #")"; #")"].

Definition witness_tree : FilterExpressionNode :=
  NOr (NCondition (mkCondition #"price" #"=" #"5" []))
      (NNot (NOr (NCondition (mkCondition #"brand" #":=" #"x" [])) (NCondition (mkCondition #"brand" #":=" #"y" [])))).

Lemma where_clause_selects_witness :
  exists p' FilterBy,
    ParseWhere (new_Parser witness_tokens) = (p', Done tt) /\ p_Position p' = 14%nat /\
    q_FilterBy (r_Query (p_Result p')) = FilterBy /\ st_FilterBy (p_ParsedStatement p') = FilterBy /\
    Parse FilterBy = Some (Some witness_tree) /\
    forall Hits : list (gmap bytes bytes), ApplyFilters id carries Hits FilterBy =
      Some (List.filter (fun h => EvaluateExpression carries (id h) witness_tree) Hits).
Proof.
  apply (where_clause_selects id carries (new_Parser witness_tokens) [] witness_tokens [] witness_tree 2 1);
    [|try (vm_compute; congruence)..|by apply not_elem_of_nil || set_solver].
  apply (wt_or _ _ _ (take 3 witness_tokens) (tok #"OR") (drop 4 witness_tokens) 1 1 0 1); [|done|].
  - apply wt_conjunction, wt_primary, wt_predicate.
    apply (pt_compare _ (tok #"price") #"price" (tok #"=") #"=" (tok #"5") #"5"); split_and!; try done; known_op.
  - apply wt_primary.
    apply (wt_not _ _ (tok #"NOT") (tok #"(") (take 7 (drop 6 witness_tokens)) (tok #")") 1 0); [|done..].
    apply wt_conjunction, wt_primary, wt_predicate.
    apply (pt_in _ false (tok #"brand") #"brand" (tok #"NOT") (tok #"IN") (tok #"(") (tok #"'x'") #"x"
      [tok #","; tok #"'y'"] [ #"y"] (tok #")")); try done.
    apply mv_cons; [done..|constructor].
Defined.

(** A NOT in front of a predicate other than a comparison is ignored: for
    IN, BETWEEN, LIKE, ILIKE, CONTAINS and IS, [NOT field ...] parses to the
    very result of [field ...], so the clause selects the rows it should
    exclude. *)
Theorem leading_NOT_ignored p pre t f field i ts n d :
  keyword t #"NOT" -> field_token (p_SelectAliases p) f field ->
  Upper i ∈ [ #"IN"; #"BETWEEN"; #"LIKE"; #"ILIKE"; #"CONTAINS"; #"IS"] -> n + 1 <= SQLMaxASTNodes ->
  ParseComparison false (cur p pre (t :: f :: i :: ts) n d) =
  ParseComparison false (cur p (pre ++ [t]) (f :: i :: ts) n d).
Proof.
  intros Ht Hf Hi Hn. rewrite (run_NotComparison p pre t f field), (run_ParseComparison p (pre ++ [t]) f field) by done.
  unfold predicate_tail. rewrite !elem_of_cons in Hi.
  destruct Hi as [Hi|[Hi|[Hi|[Hi|[Hi|[Hi|?%not_elem_of_nil]]]]]]; [..|done];
    repeat (erewrite bind_done; [|rewrite run_MatchKeyword, Hi; decide_literals; reflexivity]; cbv beta iota); done.
Qed.

Lemma leading_NOT_ignored_witness :
  let p := new_Parser [] in
  ParseComparison false (cur p [] (tok <$> [ #"NOT"; #"brand"; #"IN"; #"("; #"'x'"; #")"]) 0 0) =
  ParseComparison false (cur p [tok #"NOT"] (tok <$> [ #"brand"; #"IN"; #"("; #"'x'"; #")"]) 0 0).
Proof.
  intros p. apply (leading_NOT_ignored p [] (tok #"NOT") (tok #"brand") #"brand" (tok #"IN")); try done.
  known_op.
Defined.

(** ** Corners *)

Definition filter_of (sql_text : bytes) : bytes :=
  match SQLService_Parse (fun _ => Some []) sql_text with Some (Ok r) => q_FilterBy (r_Query r) | _ => [] end.

(** An empty string literal makes the rendered filter unreadable, and the flat
    fallback drops its condition: the clause selects by price alone. *)

Example empty_literal_condition_lost :
  let f := filter_of #"SELECT * FROM products WHERE name = '' AND price > 5" in
  f = #"name::=&&price:>5" /\ Parse f = Some None /\
  ParseFilters f = Some [mkCondition #"price" #">" #"5" #"AND"].
Proof. vm_compute. done. Qed.

(** A quoted text that spells NULL is taken for the null value. *)

Example quoted_null_is_null : filter_of #"SELECT * FROM products WHERE name = 'null'" = #"name:ISNULL".
Proof. vm_compute. done. Qed.

(** A literal that starts with an equals sign changes the operator. *)

Example literal_changes_operator :
  Parse (filter_of #"SELECT * FROM products WHERE name > '=a'") =
  Some (Some (NCondition (mkCondition #"name" #">=" #"a" []))).
Proof. vm_compute. done. Qed.

(** GROUP BY does not see the aliases of the select list. *)

Example group_by_alias_rejected :
  match SQLService_Parse (fun _ => Some []) #"SELECT category AS c, COUNT(*) FROM products GROUP BY c" with
  | Some (Ok r) => r_Valid r = false
  | _ => False
  end.
Proof. vm_compute. done. Qed.

End SqlFilter.
