(* ===== verification/IPFilter.v ===== *)
(** * IP filter: src/api/ipfilter.cpp, include/api/ipfilter.h

    The allow and deny lists in front of every request: IPv4 literals, CIDR
    ranges, host names and wildcard host names. The two groups of members that
    differ only in their [Denied] prefix are two values of one record. What
    [const] operations may change, the DNS caches, is a state of its own; a
    number of queries made stands in it for the passing of time. The answers of
    the resolver are arguments: [getaddrinfo k name] is what the [k]-th query
    would return for [name], and may change with [k]. [None] is an uncaught
    exception or undefined behaviour. Locks and log output are left out. *)

From S2P Require Import Prelude CText.

Module IpFilter.

(** ** IPv4 addresses: inet_pton, inet_ntop *)

Definition dot : ascii := "."%char.

(** The loop of [inet_pton(AF_INET, ...)]: the octets before the current one,
    the current one, and whether it has a digit. *)

Fixpoint pton_loop (done : list Z) (tp : Z) (saw_digit : bool) (s : bytes) : option (list Z) :=
  match s with
  | [] => if saw_digit && (length done =? 3)%nat then Some (done ++ [tp]) else None
  | c :: r =>
      if isdigit c then
        let new := tp * 10 + (code c - 48) in
        if saw_digit && (tp =? 0) then None
        else if 255 <? new then None
        else pton_loop done new true r
      else if bool_decide (c = dot) && saw_digit then
        if (length done =? 3)%nat then None else pton_loop (done ++ [tp]) 0 false r
      else None
  end.

(** [ntohl] of the address: the octets as digits of base 256. *)

Definition of_octets (os : list Z) : Z := foldl (fun a o => a * 256 + o) 0 os.

Definition inet_pton (s : bytes) : option Z := of_octets <$> pton_loop [] 0 false (cstr s).

Definition octet (k a : Z) : Z := (a / 256 ^ k) mod 256.

Definition inet_ntop (a : Z) : bytes :=
  to_string (octet 3 a) ++ #"." ++ to_string (octet 2 a) ++ #"." ++ to_string (octet 1 a) ++ #"." ++ to_string (octet 0 a).

(** ** Entries *)

Definition IsValidIP (IP : bytes) : bool := bool_decide (is_Some (inet_pton IP)).

Definition is_slash (c : ascii) : bool := bool_decide (c = "/"%char).

Definition IsCIDR (CIDR : bytes) : bool :=
  match find_char is_slash CIDR with
  | None => false
  | Some SlashPos =>
      if (SlashPos =? 0)%nat || (SlashPos =? length CIDR - 1)%nat then false
      else if negb (IsValidIP (take SlashPos CIDR)) then false
      else match stoi (drop (S SlashPos) CIDR) with
           | Some (MaskVal, _) => (0 <=? MaskVal) && (MaskVal <=? 32)
           | None => false
           end
  end.

Definition IsWildcardHostname (Hostname : bytes) : bool :=
  bool_decide (is_Some (find_char (fun c => bool_decide (c = "*"%char)) Hostname)).

Definition IsHostname (StrVal : bytes) : bool :=
  if IsValidIP StrVal then false
  else if IsCIDR StrVal then false
  else existsb isalpha StrVal.

(** [0xFFFFFFFFU << (32 - MaskBits)], undefined for a shift outside [0 .. 31]. *)

Definition mask_of (MaskBits : Z) : option Z :=
  if MaskBits =? 0 then Some 0
  else if (0 <=? 32 - MaskBits) && (32 - MaskBits <? 32)
       then Some (Z.land (Z.shiftl (2 ^ 32 - 1) (32 - MaskBits)) (2 ^ 32 - 1))
       else None.

Definition IsIPInCIDR (IP CIDR : bytes) : option bool :=
  match find_char is_slash CIDR with
  | None => Some false
  | Some SlashPos =>
      match stoi (drop (S SlashPos) CIDR) with
      | None => None
      | Some (MaskBits, _) =>
          match inet_pton (take SlashPos CIDR), inet_pton IP with
          | Some Network, Some Address =>
              match mask_of MaskBits with
              | None => None
              | Some Mask => Some (Z.land Address Mask =? Z.land Network Mask)
              end
          | _, _ => Some false
          end
      end
  end.

Definition MatchWildcardHostname (Hostname Pattern : bytes) : option bool :=
  match Pattern with
  | [] => None
  | c :: Suffix =>
      if bool_decide (Pattern = #"*") then Some true
      else
        let Suffix := match Suffix with d :: r => if bool_decide (d = dot) then r else Suffix | [] => Suffix end in
        if bool_decide (c = "*"%char) && negb (bool_decide (Suffix = [])) && (length Suffix <? length Hostname)%nat then
          let cut := (length Hostname - length Suffix)%nat in
          Some (bool_decide (drop cut Hostname = Suffix) && bool_decide (Hostname !! (cut - 1)%nat = Some dot))
        else Some (bool_decide (Hostname = Pattern))
  end.

(** [std::getline] pieces, trimmed, the empty ones dropped. *)

Definition is_blank (c : ascii) : bool := bool_decide (c ∈ [" "%char; chr 9; chr 10; chr 13]).

Fixpoint split_commas (current s : bytes) : list bytes :=
  match s with
  | [] => [current]
  | c :: r => if bool_decide (c = ","%char) then current :: split_commas [] r else split_commas (current ++ [c]) r
  end.

Definition ParseIPList (AllowedIPsConfig : bytes) : list bytes :=
  List.filter (fun Item => negb (bool_decide (Item = []))) (trim is_blank <$> split_commas [] AllowedIPsConfig).

(** ** State *)

(** [AllowedIPs], [DirectIPs], [CIDRRanges], ... and the [Denied] members. *)

Record Entries := mkEntries {
  IPs : gset bytes;
  DirectIPs : gset bytes;
  CIDRRanges : list bytes;
  WildcardHostnames : list bytes;
  RegularHostnames : list bytes;
  OriginalEntries : list bytes
}.

Record Caches := mkCaches {
  DNSCache : gmap bytes (list bytes);
  ReverseDNSCache : gmap bytes bytes;
  DNSCacheOrder : list bytes;
  ReverseDNSCacheOrder : list bytes;
  DNSCacheMaxSize : Z;
  Queries : nat
}.

Record IPFilter := mkIPFilter {
  Allowed : Entries;
  Denied : Entries;
  AllowAll : bool;
  DenyAll : bool;
  HasHostnames : bool;
  HasWildcardHostnames : bool;
  HasDenyEntries : bool;
  HasDenyHostnames : bool;
  HasDenyWildcardHostnames : bool;
  OriginalConfig : bytes;
  Cache : Caches
}.

Definition no_entries : Entries := mkEntries ∅ ∅ [] [] [] [].

Definition set_Cache (c : Caches) (f : IPFilter) : IPFilter :=
  mkIPFilter (Allowed f) (Denied f) (AllowAll f) (DenyAll f) (HasHostnames f) (HasWildcardHostnames f)
    (HasDenyEntries f) (HasDenyHostnames f) (HasDenyWildcardHostnames f) (OriginalConfig f) c.

Definition flush_forward (c : Caches) : Caches :=
  mkCaches ∅ (ReverseDNSCache c) [] (ReverseDNSCacheOrder c) (DNSCacheMaxSize c) (Queries c).

Definition flush_reverse (c : Caches) : Caches :=
  mkCaches (DNSCache c) ∅ (DNSCacheOrder c) [] (DNSCacheMaxSize c) (Queries c).

Definition flush (c : Caches) : Caches := flush_reverse (flush_forward c).

Definition count_query (c : Caches) : Caches :=
  mkCaches (DNSCache c) (ReverseDNSCache c) (DNSCacheOrder c) (ReverseDNSCacheOrder c) (DNSCacheMaxSize c) (S (Queries c)).

Definition set_MaxSize (n : Z) (c : Caches) : Caches :=
  mkCaches (DNSCache c) (ReverseDNSCache c) (DNSCacheOrder c) (ReverseDNSCacheOrder c) n (Queries c).

Definition store_forward (Hostname : bytes) (ips : list bytes) (c : Caches) : Caches :=
  mkCaches (<[Hostname := ips]> (DNSCache c)) (ReverseDNSCache c) (DNSCacheOrder c ++ [Hostname])
    (ReverseDNSCacheOrder c) (DNSCacheMaxSize c) (Queries c).

Definition store_reverse (IP Hostname : bytes) (c : Caches) : Caches :=
  mkCaches (DNSCache c) (<[IP := Hostname]> (ReverseDNSCache c)) (DNSCacheOrder c)
    (ReverseDNSCacheOrder c ++ [IP]) (DNSCacheMaxSize c) (Queries c).

(** Operations on the caches that can go wrong. *)

Definition C (A : Type) : Type := Caches -> option (Caches * A).

Definition cret {A} (a : A) : C A := fun c => Some (c, a).

Definition clift {A} (o : option A) : C A := fun c => match o with Some a => Some (c, a) | None => None end.

Definition cbind {A B} (m : C A) (k : A -> C B) : C B :=
  fun c => match m c with Some (c', a) => k a c' | None => None end.

Declare Scope cache_scope.
Delimit Scope cache_scope with cache.
Notation "x <-- m ;; k" := (cbind m (fun x => k)) (at level 100, m at next level, right associativity) : cache_scope.
#[local] Open Scope cache_scope.

(** The loops over ranges and patterns stop at the first hit. *)

Fixpoint first_hit {A} (test : A -> option bool) (l : list A) : option bool :=
  match l with
  | [] => Some false
  | x :: r => match test x with Some true => Some true | Some false => first_hit test r | None => None end
  end.

Section Resolver.

Context (getaddrinfo : nat -> bytes -> option (list Z)) (getnameinfo : nat -> Z -> option bytes).

(** ** DNS *)

(** The result [ResolvedIPs]; the code's return value is that it is not empty. *)

Definition ResolveHostname (Hostname : bytes) (UseCache : bool) : C (list bytes) := fun c =>
  match (if UseCache then DNSCache c !! Hostname else None) with
  | Some ResolvedIPs => Some (c, ResolvedIPs)
  | None =>
      let c1 := count_query c in
      match getaddrinfo (Queries c) (cstr Hostname) with
      | None => Some (c1, [])
      | Some addresses =>
          let ResolvedIPs := inet_ntop <$> addresses in
          if UseCache && negb (bool_decide (ResolvedIPs = [])) then
            match DNSCache c1 !! Hostname with
            | Some cached => Some (c1, cached)
            | None =>
                let c2 := if DNSCacheMaxSize c1 <=? Z.of_nat (base.size (DNSCache c1)) then flush_forward c1 else c1 in
                Some (store_forward Hostname ResolvedIPs c2, ResolvedIPs)
            end
          else Some (c1, ResolvedIPs)
      end
  end.

Definition ReverseDNS (IP : bytes) : C bytes := fun c =>
  match ReverseDNSCache c !! IP with
  | Some Hostname => Some (c, Hostname)
  | None =>
      match inet_pton IP with
      | None => Some (c, [])
      | Some a =>
          let c1 := count_query c in
          match getnameinfo (Queries c) a with
          | None => Some (c1, [])
          | Some HostnameStr =>
              match ReverseDNSCache c1 !! IP with
              | Some cached => Some (c1, cached)
              | None =>
                  let c2 := if DNSCacheMaxSize c1 <=? Z.of_nat (base.size (ReverseDNSCache c1)) then flush_reverse c1 else c1 in
                  Some (store_reverse IP HostnameStr c2, HostnameStr)
              end
          end
      end
  end.

Definition GetHostnameForIP (IP : bytes) : C bytes := ReverseDNS IP.

Definition ResolveHostnameToIP (Hostname : bytes) (UseCache : bool) : C (option bytes) :=
  ResolvedIPs <-- ResolveHostname Hostname UseCache ;; cret (head ResolvedIPs).

(** ** Decisions *)

(** [IsAllowedInternal] and [IsDeniedInternal]: [wild] is
    [HasWildcardHostnames] or [HasDenyWildcardHostnames]. *)

Definition check_entries (wild : bool) (e : Entries) (IPAddress : bytes) : C bool :=
  if bool_decide (IPAddress ∈ IPs e) then cret true
  else
    in_range <-- clift (first_hit (IsIPInCIDR IPAddress) (CIDRRanges e)) ;;
    if (in_range : bool) then cret true
    else if wild && negb (bool_decide (WildcardHostnames e = [])) then
      Hostname <-- ReverseDNS IPAddress ;;
      if bool_decide (Hostname = []) then cret false
      else clift (first_hit (MatchWildcardHostname Hostname) (WildcardHostnames e))
    else cret false.

Definition IsAllowedInternal (f : IPFilter) (IPAddress : bytes) : C bool :=
  check_entries (HasWildcardHostnames f) (Allowed f) IPAddress.

Definition IsDeniedInternal (f : IPFilter) (IPAddress : bytes) : C bool :=
  check_entries (HasDenyWildcardHostnames f) (Denied f) IPAddress.

(** Some resolved address passes. *)

Fixpoint any_address (test : bytes -> C bool) (l : list bytes) : C bool :=
  match l with
  | [] => cret false
  | ip :: r => hit <-- test ip ;; if (hit : bool) then cret true else any_address test r
  end.

Definition denied_check (f : IPFilter) (IPOrHostname : bytes) : C bool :=
  if HasDenyEntries f then
    if IsHostname IPOrHostname then
      ResolvedIPs <-- ResolveHostname IPOrHostname true ;; any_address (IsDeniedInternal f) ResolvedIPs
    else IsDeniedInternal f IPOrHostname
  else cret false.

Definition IsAllowed (f : IPFilter) (IPOrHostname : bytes) : C bool :=
  if DenyAll f then cret false
  else
    denied <-- denied_check f IPOrHostname ;;
    if (denied : bool) then cret false
    else if AllowAll f then cret true
    else if IsHostname IPOrHostname && HasHostnames f then
      ResolvedIPs <-- ResolveHostname IPOrHostname true ;; any_address (IsAllowedInternal f) ResolvedIPs
    else IsAllowedInternal f IPOrHostname.

(** ** Configuration *)

(** The lists of one configuration string with the flags its loop sets:
    host names present, wildcard host names present, any usable entry. *)

Record Listing := mkListing { entries : Entries; hosts : bool; wilds : bool; usable : bool }.

Definition insert_all (ips : list bytes) (s : gset bytes) : gset bytes := foldl (fun s ip => {[ip]} ∪ s) s ips.

Definition add_entry (l : Listing) (Entry : bytes) : C Listing :=
  let e := entries l in
  let originals := OriginalEntries e ++ [Entry] in
  if IsCIDR Entry then
    cret (mkListing (mkEntries (IPs e) (DirectIPs e) (CIDRRanges e ++ [Entry]) (WildcardHostnames e) (RegularHostnames e) originals)
            (hosts l) (wilds l) true)
  else if IsWildcardHostname Entry then
    cret (mkListing (mkEntries (IPs e) (DirectIPs e) (CIDRRanges e) (WildcardHostnames e ++ [Entry]) (RegularHostnames e) originals)
            true true true)
  else if IsHostname Entry then
    ResolvedIPs <-- ResolveHostname Entry true ;;
    cret (mkListing (mkEntries (insert_all ResolvedIPs (IPs e)) (DirectIPs e) (CIDRRanges e) (WildcardHostnames e)
                       (RegularHostnames e ++ [Entry]) originals)
            true (wilds l) true)
  else if IsValidIP Entry then
    cret (mkListing (mkEntries ({[Entry]} ∪ IPs e) ({[Entry]} ∪ DirectIPs e) (CIDRRanges e) (WildcardHostnames e)
                       (RegularHostnames e) originals)
            (hosts l) (wilds l) true)
  else
    cret (mkListing (mkEntries (IPs e) (DirectIPs e) (CIDRRanges e) (WildcardHostnames e) (RegularHostnames e) originals)
            (hosts l) (wilds l) (usable l)).

Fixpoint add_entries (l : Listing) (list : list bytes) : C Listing :=
  match list with
  | [] => cret l
  | Entry :: r => l' <-- add_entry l Entry ;; add_entries l' r
  end.

Definition no_listing : Listing := mkListing no_entries false false false.

(** The allow list: whether it is the wildcard, and its listing. *)

Definition read_allowed (AllowedIPsConfig : bytes) : C (bool * Listing) :=
  let AllowTrimmed := trim is_blank AllowedIPsConfig in
  if bool_decide (AllowTrimmed = []) then cret (false, no_listing)
  else if bool_decide (AllowTrimmed = #"*") then cret (true, no_listing)
  else l <-- add_entries no_listing (ParseIPList AllowedIPsConfig) ;; cret (false, l).

Definition read_denied (DeniedIPsConfig : bytes) : C (bool * Listing) :=
  let DenyTrimmed := trim is_blank DeniedIPsConfig in
  if bool_decide (DenyTrimmed = []) then cret (false, no_listing)
  else if bool_decide (DenyTrimmed = #"*")
  then cret (true, mkListing (mkEntries ∅ ∅ [] [] [] [ #"*"]) false false true)
  else l <-- add_entries no_listing (ParseIPList DeniedIPsConfig) ;; cret (false, l).

(** [DNS_CACHE_MAX_SIZE], set when the program is configured. *)

Context (DNS_CACHE_MAX_SIZE : Z).

(** [ConfigCacheSize] is the configured cache size, when there is a
    configuration. *)

Definition Initialize (ConfigCacheSize : option Z) (AllowedIPsConfig DeniedIPsConfig : bytes) (f : IPFilter) : option IPFilter :=
  let c := match ConfigCacheSize with
           | Some n => set_MaxSize (if 0 <? n then n else DNS_CACHE_MAX_SIZE) (Cache f)
           | None => Cache f
           end in
  match (a <-- read_allowed AllowedIPsConfig ;; d <-- read_denied DeniedIPsConfig ;; cret (a, d)) (flush c) with
  | None => None
  | Some (c', ((allow_all, a), (deny_all, d))) =>
      Some (mkIPFilter (entries a) (entries d) allow_all deny_all (hosts a || hosts d) (wilds a || wilds d)
              (usable d) (hosts d) (wilds d) AllowedIPsConfig c')
  end.

Definition Reload := Initialize.

(** The filter as constructed. *)

Definition new_IPFilter : IPFilter :=
  mkIPFilter no_entries no_entries true false false false false false false [] (mkCaches ∅ ∅ [] [] DNS_CACHE_MAX_SIZE 0).

(** ** Other operations *)

Definition IsEnabled (f : IPFilter) : bool := negb (AllowAll f) || HasDenyEntries f || DenyAll f.

Definition IsDNSEnabled (f : IPFilter) : bool := HasHostnames f || HasWildcardHostnames f.

Definition listed (e : Entries) : list bytes := elements (IPs e) ++ CIDRRanges e ++ WildcardHostnames e.

Definition GetAllowedIPs (f : IPFilter) : list bytes := listed (Allowed f).

Definition GetDeniedIPs (f : IPFilter) : list bytes := listed (Denied f).

Definition AddAllowed (IPOrHostname : bytes) (f : IPFilter) : IPFilter * bool :=
  if IsValidIP IPOrHostname then
    let e := Allowed f in
    (mkIPFilter (mkEntries ({[IPOrHostname]} ∪ IPs e) ({[IPOrHostname]} ∪ DirectIPs e) (CIDRRanges e) (WildcardHostnames e)
                   (RegularHostnames e) (OriginalEntries e))
       (Denied f) (AllowAll f) (DenyAll f) (HasHostnames f) (HasWildcardHostnames f) (HasDenyEntries f)
       (HasDenyHostnames f) (HasDenyWildcardHostnames f) (OriginalConfig f) (Cache f), true)
  else (f, false).

Definition Clear (f : IPFilter) : IPFilter :=
  mkIPFilter no_entries no_entries true false false false false false false [] (Cache f).

(** Resolve the host names of a list again, past the cache. *)

Fixpoint resolve_again (ips : gset bytes) (hostnames : list bytes) : C (gset bytes) :=
  match hostnames with
  | [] => cret ips
  | Hostname :: r =>
      ResolvedIPs <-- ResolveHostname Hostname false ;; resolve_again (insert_all ResolvedIPs ips) r
  end.

Definition refresh (present : bool) (e : Entries) : C Entries :=
  if present && negb (bool_decide (RegularHostnames e = [])) then
    ips <-- resolve_again (DirectIPs e) (RegularHostnames e) ;;
    cret (mkEntries ips (DirectIPs e) (CIDRRanges e) (WildcardHostnames e) (RegularHostnames e) (OriginalEntries e))
  else cret e.

Definition FlushDNSCache (f : IPFilter) : option IPFilter :=
  match (a <-- refresh (HasHostnames f) (Allowed f) ;; d <-- refresh (HasDenyHostnames f) (Denied f) ;; cret (a, d))
          (flush (Cache f)) with
  | None => None
  | Some (c, (a, d)) =>
      Some (mkIPFilter a d (AllowAll f) (DenyAll f) (HasHostnames f) (HasWildcardHostnames f) (HasDenyEntries f)
              (HasDenyHostnames f) (HasDenyWildcardHostnames f) (OriginalConfig f) c)
  end.

Definition SetDNSCacheMaxSize (MaxSize : Z) (f : IPFilter) : IPFilter :=
  let c := set_MaxSize (if MaxSize =? 0 then DNS_CACHE_MAX_SIZE else MaxSize) (Cache f) in
  let c := if DNSCacheMaxSize c <? Z.of_nat (base.size (DNSCache c)) then flush_forward c else c in
  set_Cache (if DNSCacheMaxSize c <? Z.of_nat (base.size (ReverseDNSCache c)) then flush_reverse c else c) f.

(** A call of [IsAllowed], with the caches it leaves. *)

Definition call_IsAllowed (IPOrHostname : bytes) (f : IPFilter) : option (IPFilter * bool) :=
  match IsAllowed f IPOrHostname (Cache f) with
  | Some (c, b) => Some (set_Cache c f, b)
  | None => None
  end.

End Resolver.

End IpFilter.
