(* ===== verification/IPFilterProps.v ===== *)
(** * IP filter: addresses, ranges, decisions, and the states that can arise

    The text form of addresses is canonical, CIDR matching compares prefixes,
    the decision for a literal address is the one the two configuration strings
    describe, and no sequence of operations leads to an exception or to caches
    beyond their limit. *)

From S2P Require Import Prelude CText IPFilter.
Import IpFilter.

Module IpFilterProps.

#[local] Open Scope cache_scope.

(** ** What a configuration string covers *)

(** Network and prefix length of a CIDR entry. *)

Definition cidr_parts (entry : bytes) : option (Z * Z) :=
  match find_char is_slash entry with
  | None => None
  | Some SlashPos =>
      match inet_pton (take SlashPos entry), stoi (drop (S SlashPos) entry) with
      | Some network, Some (bits, _) => Some (network, bits)
      | _, _ => None
      end
  end.

Definition same_prefix (bits a b : Z) : bool := a / 2 ^ (32 - bits) =? b / 2 ^ (32 - bits).

Definition entry_covers (entry : bytes) (a : Z) : bool :=
  if IsCIDR entry then
    match cidr_parts entry with Some (network, bits) => same_prefix bits a network | None => false end
  else bool_decide (inet_pton entry = Some a).

Definition config_covers (config : bytes) (a : Z) : bool :=
  bool_decide (trim is_blank config = #"*") || existsb (fun e => entry_covers e a) (ParseIPList config).

(** A configuration of addresses and ranges only, or the wildcard. *)

Definition plain_config (config : bytes) : bool :=
  bool_decide (trim is_blank config = #"*") || forallb (fun e => IsCIDR e || IsValidIP e) (ParseIPList config).

(** ** States that can arise *)

(** Caches within their limit, with the eviction order listing their keys. *)

Definition cache_ok (c : Caches) : Prop :=
  0 < DNSCacheMaxSize c /\
  Z.of_nat (base.size (DNSCache c)) <= DNSCacheMaxSize c /\ Z.of_nat (base.size (ReverseDNSCache c)) <= DNSCacheMaxSize c /\
  NoDup (DNSCacheOrder c) /\ list_to_set (DNSCacheOrder c) = dom (DNSCache c) /\
  NoDup (ReverseDNSCacheOrder c) /\ list_to_set (ReverseDNSCacheOrder c) = dom (ReverseDNSCache c).

(** Ranges that parse, patterns that have a first byte. *)

Definition entries_ok (e : Entries) : Prop :=
  Forall (fun r => IsCIDR r = true) (CIDRRanges e) /\ Forall (fun p => p <> []) (WildcardHostnames e).

Definition no_checks (e : Entries) : Prop :=
  IPs e = ∅ /\ CIDRRanges e = [] /\ WildcardHostnames e = [] /\ RegularHostnames e = [].

Definition listing_ok (l : Listing) : Prop :=
  entries_ok (entries l) /\ (usable l = false -> no_checks (entries l)) /\
  (wilds l = false -> WildcardHostnames (entries l) = []) /\ (hosts l = false -> RegularHostnames (entries l) = []).

(** The flags that let a check be skipped are right. *)

Definition filter_ok (f : IPFilter) : Prop :=
  entries_ok (Allowed f) /\ entries_ok (Denied f) /\ cache_ok (Cache f) /\
  (HasDenyEntries f = false -> no_checks (Denied f)) /\
  (HasWildcardHostnames f = false -> WildcardHostnames (Allowed f) = []) /\
  (HasDenyWildcardHostnames f = false -> WildcardHostnames (Denied f) = []).

Section Steps.

Context (getaddrinfo : nat -> bytes -> option (list Z)) (getnameinfo : nat -> Z -> option bytes) (DNS_CACHE_MAX_SIZE : Z).

Inductive step : relation IPFilter :=
| step_Initialize size allow deny f f' :
    Initialize getaddrinfo DNS_CACHE_MAX_SIZE size allow deny f = Some f' -> step f f'
| step_AddAllowed ip f : step f (AddAllowed ip f).1
| step_Clear f : step f (Clear f)
| step_FlushDNSCache f f' : FlushDNSCache getaddrinfo f = Some f' -> step f f'
| step_SetDNSCacheMaxSize n f : 0 <= n -> step f (SetDNSCacheMaxSize DNS_CACHE_MAX_SIZE n f)
| step_IsAllowed ip f f' b : call_IsAllowed getaddrinfo getnameinfo ip f = Some (f', b) -> step f f'
| step_GetHostnameForIP ip f c h : GetHostnameForIP getnameinfo ip (Cache f) = Some (c, h) -> step f (set_Cache c f)
| step_ResolveHostnameToIP name b f c r :
    ResolveHostnameToIP getaddrinfo name b (Cache f) = Some (c, r) -> step f (set_Cache c f).

Definition reachable (f : IPFilter) : Prop := rtc step (new_IPFilter DNS_CACHE_MAX_SIZE) f.

End Steps.

(** ** Octets *)

(** The digits of one octet, as the loop of [inet_pton] accumulates them. *)

Fixpoint read_octet (tp : Z) (saw_digit : bool) (ds : bytes) : option Z :=
  match ds with
  | [] => Some tp
  | c :: r =>
      let new := tp * 10 + (code c - 48) in
      if saw_digit && (tp =? 0) then None else if 255 <? new then None else read_octet new true r
  end.

Lemma pton_loop_digits done ds r : forall tp saw,
  Forall (fun c => isdigit c = true) ds -> ds <> [] ->
  pton_loop done tp saw (ds ++ r) =
  match read_octet tp saw ds with Some v => pton_loop done v true r | None => None end.
Proof.
  induction ds as [|c ds IH]; intros tp saw Hd Hn; [done|]. inv Hd as [|? ? Hc Hd'].
  cbn [app pton_loop read_octet]. rewrite Hc. destruct (saw && _); [done|]. destruct (255 <? _); [done|].
  destruct ds as [|c' ds]; [done|]. by rewrite (IH _ true).
Qed.

Lemma read_octet_range tp saw ds v : 0 <= tp <= 255 -> Forall (fun c => isdigit c = true) ds ->
  read_octet tp saw ds = Some v -> 0 <= v <= 255.
Proof.
  revert tp saw. induction ds as [|c ds IH]; intros tp saw Ht Hd; cbn [read_octet]; [by intros [= <-]|].
  inv Hd as [|? ? Hc Hd']. destruct (saw && _); [done|]. destruct (255 <? _) eqn:E; [done|].
  apply IH; [|done]. apply Z.ltb_ge in E. unfold isdigit, in_range in Hc. lia.
Qed.

Definition digit_chars : bytes := #"0123456789".

Lemma isdigit_elem c : isdigit c = true -> c ∈ digit_chars.
Proof.
  by_bytes (fun c => negb (isdigit c) || bool_decide (c ∈ digit_chars)) c.
  destruct (isdigit c); [|done]. cbn [negb orb]. by rewrite bool_decide_eq_true.
Qed.

(** Reading an octet and printing it are inverse: a check of the 256 values and
    of the digit strings of at most three digits. *)

Lemma print_octet v : 0 <= v <= 255 ->
  Forall (fun c => isdigit c = true) (to_string v) /\ to_string v <> [] /\ read_octet 0 false (to_string v) = Some v.
Proof.
  intros Hv.
  assert (forallb (fun n => let s := to_string (Z.of_nat n) in
    forallb isdigit s && negb (bool_decide (s = [])) && bool_decide (read_octet 0 false s = Some (Z.of_nat n)))
    (seq 0 256) = true) as H by (vm_compute; reflexivity).
  rewrite forallb_forall in H. specialize (H (Z.to_nat v)). rewrite in_seq, Z2Nat.id in H by lia.
  specialize (H ltac:(lia)). cbv zeta in H.
  apply andb_true_iff in H as [[H1 H2]%andb_true_iff H3%bool_decide_eq_true]. split_and!.
  - rewrite forallb_forall in H1. apply Forall_forall. intros c Hc. by apply H1, list_elem_of_In.
  - by apply negb_true_iff, bool_decide_eq_false in H2.
  - done.
Qed.

Lemma read_octet_long tp ds v : 100 <= tp -> Forall (fun c => isdigit c = true) ds ->
  read_octet tp true ds = Some v -> ds = [].
Proof.
  destruct ds as [|c ds]; [done|]. intros Ht Hd. inv Hd as [|? ? Hc Hd']. cbn [read_octet].
  destruct (true && _); [done|]. destruct (255 <? _) eqn:E; [done|]. apply Z.ltb_ge in E.
  unfold isdigit, in_range in Hc. lia.
Qed.

Definition octet_texts : list bytes :=
  ((fun a => [a]) <$> digit_chars) ++
  (a ← digit_chars; b ← digit_chars; [[a; b]]) ++
  (a ← digit_chars; b ← digit_chars; c ← digit_chars; [[a; b; c]]).

Lemma octet_text_elem ds v : ds <> [] -> Forall (fun c => isdigit c = true) ds ->
  read_octet 0 false ds = Some v -> ds ∈ octet_texts.
Proof.
  intros Hn Hd Hr. destruct ds as [|a ds]; [done|]. inv Hd as [|? ? Ha Hd']. unfold octet_texts.
  destruct ds as [|b ds].
  { apply elem_of_app; left. apply list_elem_of_fmap. exists a. split; [done|by apply isdigit_elem]. }
  inv Hd' as [|? ? Hb Hd]. apply elem_of_app; right.
  destruct ds as [|c ds].
  { apply elem_of_app; left. apply list_elem_of_bind; exists a; split; [|by apply isdigit_elem].
    apply list_elem_of_bind; exists b; split; [by apply list_elem_of_singleton|by apply isdigit_elem]. }
  inv Hd as [|? ? Hc Hd']. apply elem_of_app; right.
  cbn [read_octet andb] in Hr. repeat (destr_in Hr; [done|]).
  apply read_octet_long in Hr; [|unfold isdigit, in_range in *; lia|done]. subst ds.
  apply list_elem_of_bind; exists a; split; [|by apply isdigit_elem].
  apply list_elem_of_bind; exists b; split; [|by apply isdigit_elem].
  apply list_elem_of_bind; exists c; split; [by apply list_elem_of_singleton|by apply isdigit_elem].
Qed.

Lemma octet_canonical ds v : ds <> [] -> Forall (fun c => isdigit c = true) ds ->
  read_octet 0 false ds = Some v -> ds = to_string v.
Proof.
  intros Hn Hd Hr. pose proof (octet_text_elem ds v Hn Hd Hr) as Hin.
  assert (forallb (fun ds => match read_octet 0 false ds with Some v => bool_decide (ds = to_string v) | None => true end)
    octet_texts = true) as H by (vm_compute; reflexivity).
  rewrite forallb_forall in H. specialize (H ds ltac:(by apply list_elem_of_In)). rewrite Hr in H.
  by apply bool_decide_eq_true in H.
Qed.

(** ** Addresses *)

Lemma of_octets_4 a b c d : of_octets [a; b; c; d] = ((a * 256 + b) * 256 + c) * 256 + d.
Proof. unfold of_octets. simpl. lia. Qed.

Lemma octets_of a : 0 <= a < 2 ^ 32 ->
  Forall (fun o => 0 <= o <= 255) [octet 3 a; octet 2 a; octet 1 a; octet 0 a] /\
  of_octets [octet 3 a; octet 2 a; octet 1 a; octet 0 a] = a.
Proof.
  intros Ha. unfold octet. change (256 ^ 0) with 1. change (256 ^ 1) with 256.
  change (256 ^ 2) with (256 * 256). change (256 ^ 3) with (256 * 256 * 256). rewrite Z.div_1_r. split.
  - repeat constructor; match goal with |- context [?x mod 256] => pose proof (Z.mod_pos_bound x 256); lia end.
  - rewrite of_octets_4, <- !Z.div_div by lia.
    pose proof (Z.div_mod a 256). pose proof (Z.div_mod (a / 256) 256). pose proof (Z.div_mod (a / 256 / 256) 256).
    rewrite (Z.mod_small (a / 256 / 256 / 256) 256); [lia|].
    rewrite !Z.div_div by lia. split; [apply Z.div_pos; lia|]. apply Z.div_lt_upper_bound; lia.
Qed.

Lemma octet_of a b c d : 0 <= a <= 255 -> 0 <= b <= 255 -> 0 <= c <= 255 -> 0 <= d <= 255 ->
  let n := of_octets [a; b; c; d] in
  0 <= n < 2 ^ 32 /\ octet 3 n = a /\ octet 2 n = b /\ octet 1 n = c /\ octet 0 n = d.
Proof.
  intros Ha Hb Hc Hd. cbv zeta. rewrite of_octets_4. split; [lia|]. unfold octet.
  change (256 ^ 0) with 1. change (256 ^ 1) with 256. change (256 ^ 2) with (256 * 256). change (256 ^ 3) with (256 * 256 * 256).
  assert (forall x y, 0 <= y <= 255 -> (x * 256 + y) / 256 = x) as Ed
    by (intros; symmetry; apply (Z.div_unique _ _ _ y); lia).
  assert (forall x y, 0 <= y <= 255 -> (x * 256 + y) mod 256 = y) as Em
    by (intros; symmetry; apply (Z.mod_unique _ _ x); lia).
  rewrite Z.div_1_r, <- !Z.div_div by lia. rewrite !Ed by done.
  rewrite !Em by done. split_and!; try done. apply Z.mod_small. lia.
Qed.

Lemma isdigit_dot : isdigit dot = false.
Proof. done. Qed.

Lemma to_string_no_nul v : 0 <= v <= 255 -> NUL ∉ to_string v.
Proof.
  intros (Hd & _)%print_octet Hin. rewrite Forall_forall in Hd. apply Hd in Hin. by vm_compute in Hin.
Qed.

Lemma inet_pton_ntop a : 0 <= a < 2 ^ 32 -> inet_pton (inet_ntop a) = Some a.
Proof.
  intros Ha. destruct (octets_of a Ha) as [Ho Ea]. unfold inet_pton, inet_ntop.
  apply Forall_cons in Ho as [H3 Ho]. apply Forall_cons in Ho as [H2 Ho]. apply Forall_cons in Ho as [H1 Ho].
  apply Forall_cons in Ho as [H0 _].
  rewrite cstr_id.
  2: { rewrite !elem_of_app. intros [H|[H|[H|[H|[H|[H|H]]]]]];
       solve [by eapply to_string_no_nul in H | apply list_elem_of_singleton in H; by vm_compute in H]. }
  destruct (print_octet _ H3) as (D3 & N3 & R3), (print_octet _ H2) as (D2 & N2 & R2),
    (print_octet _ H1) as (D1 & N1 & R1), (print_octet _ H0) as (D0 & N0 & R0).
  rewrite pton_loop_digits, R3 by done. change (#"." ++ ?x) with (dot :: x). cbn [pton_loop].
  rewrite isdigit_dot, bool_decide_true by done. cbn [andb length Nat.eqb app].
  rewrite pton_loop_digits, R2 by done. change (#"." ++ ?x) with (dot :: x). cbn [pton_loop].
  rewrite isdigit_dot, bool_decide_true by done. cbn [andb length Nat.eqb app].
  rewrite pton_loop_digits, R1 by done. change (#"." ++ ?x) with (dot :: x). cbn [pton_loop].
  rewrite isdigit_dot, bool_decide_true by done. cbn [andb length Nat.eqb app].
  rewrite <- (app_nil_r (to_string (octet 0 a))), pton_loop_digits, R0 by done. cbn [pton_loop andb length Nat.eqb app].
  cbn [fmap option_fmap option_map]. by rewrite Ea.
Qed.

(** What the loop has read when it succeeds: an octet, then the end or a dot. *)

Lemma pton_loop_inv done s os :
  pton_loop done 0 false s = Some os ->
  exists v rest, 0 <= v <= 255 /\ s = to_string v ++ rest /\
    ((rest = [] /\ length done = 3%nat /\ os = done ++ [v]) \/
     (exists rest', rest = dot :: rest' /\ length done <> 3%nat /\ pton_loop (done ++ [v]) 0 false rest' = Some os)).
Proof.
  intros H. destruct (span isdigit s) as [ds rest] eqn:E.
  pose proof (span_app isdigit s) as Es. pose proof (span_all isdigit s) as Hd.
  assert (forall c r, rest = c :: r -> isdigit c = false) as Hr.
  { intros c r Hc. apply (span_rest isdigit s c r). by rewrite E. }
  rewrite E in Es, Hd. cbn [fst snd] in *. subst s. destruct ds as [|d ds].
  { exfalso. cbn [app] in H. destruct rest as [|c r]; [done|]. cbn [pton_loop] in H.
    by rewrite (Hr c r), andb_false_r in H. }
  rewrite pton_loop_digits in H by done. destruct (read_octet 0 false (d :: ds)) as [v|] eqn:Ev; [|done].
  exists v, rest. split; [by apply (read_octet_range 0 false (d :: ds))|].
  split; [by rewrite (octet_canonical (d :: ds) v)|].
  destruct rest as [|c r]; cbn [pton_loop] in H.
  - left. destruct (length done =? 3)%nat eqn:E3; [|done]. apply Nat.eqb_eq in E3. cbn [andb] in H. naive_solver.
  - right. rewrite (Hr c r) in H by done. case_bool_decide as Hc; [|done]. cbn [andb] in H. subst c.
    destruct (length done =? 3)%nat eqn:E3; [done|]. apply Nat.eqb_neq in E3. eauto.
Qed.

Lemma inet_pton_canonical s a : NUL ∉ s -> inet_pton s = Some a -> 0 <= a < 2 ^ 32 /\ s = inet_ntop a.
Proof.
  intros Hn H. unfold inet_pton in H. rewrite cstr_id in H by done.
  apply fmap_Some in H as (os & H & ->).
  apply pton_loop_inv in H as (v3 & s3 & H3 & -> & [(_ & ? & _)|(r3 & -> & _ & H)]); [done|].
  apply pton_loop_inv in H as (v2 & s2 & H2 & -> & [(_ & ? & _)|(r2 & -> & _ & H)]); [done|].
  apply pton_loop_inv in H as (v1 & s1 & H1 & -> & [(_ & ? & _)|(r1 & -> & _ & H)]); [done|].
  apply pton_loop_inv in H as (v0 & s0 & H0 & -> & [(-> & _ & ->)|(r0 & -> & ? & H)]); [|done].
  destruct (octet_of v3 v2 v1 v0 H3 H2 H1 H0) as (Hr & E3 & E2 & E1 & E0).
  cbn [app]. split; [done|]. unfold inet_ntop. by rewrite E3, E2, E1, E0, app_nil_r.
Qed.

Lemma inet_pton_range s a : inet_pton s = Some a -> 0 <= a < 2 ^ 32.
Proof.
  intros H. apply (inet_pton_canonical (cstr s)); [apply cstr_no_nul|].
  unfold inet_pton in *. by rewrite (cstr_id (cstr s)) by apply cstr_no_nul.
Qed.

(** ** CIDR ranges *)

Lemma land_mask a k : 0 <= a < 2 ^ 32 -> 0 <= k < 32 ->
  Z.land a (Z.land (Z.shiftl (2 ^ 32 - 1) k) (2 ^ 32 - 1)) = (a / 2 ^ k) * 2 ^ k.
Proof.
  intros Ha Hk. rewrite <- Z.shiftr_div_pow2, <- Z.shiftl_mul_pow2 by lia.
  replace (2 ^ 32 - 1) with (Z.ones 32) by (rewrite Z.ones_equiv; lia).
  apply Z.bits_inj'. intros i Hi. rewrite !Z.land_spec, Z.shiftl_spec, Z.shiftl_spec by lia.
  destruct (decide (i < k)) as [Hlt|Hge].
  { rewrite !(Z.testbit_neg_r _ (i - k)) by lia. by rewrite andb_false_l, andb_false_r. }
  rewrite Z.shiftr_spec by lia. replace (i - k + k) with i by lia.
  destruct (decide (i < 32)) as [H32|H32].
  - rewrite !Z.ones_spec_low by lia. by rewrite !andb_true_r.
  - rewrite (Z.ones_spec_high 32 i) by lia. rewrite !andb_false_r. symmetry.
    apply Z.bits_above_log2; [lia|]. destruct (decide (a = 0)) as [->|]; [simpl; lia|].
    assert (Z.log2 a < 32); [|lia]. apply Z.log2_lt_pow2; lia.
Qed.

Lemma mask_prefix bits a b : 0 <= a < 2 ^ 32 -> 0 <= b < 2 ^ 32 -> 0 <= bits <= 32 ->
  exists m, mask_of bits = Some m /\ (Z.land a m =? Z.land b m) = same_prefix bits a b.
Proof.
  intros Ha Hb Hbits. unfold mask_of, same_prefix. destruct (bits =? 0) eqn:E0.
  - apply Z.eqb_eq in E0 as ->. exists 0. rewrite !Z.land_0_r. split; [done|].
    rewrite !(Z.div_small _ (2 ^ (32 - 0))) by lia. done.
  - apply Z.eqb_neq in E0. replace ((0 <=? 32 - bits) && (32 - bits <? 32)) with true by lia.
    eexists. split; [done|]. rewrite !land_mask by lia.
    apply eq_true_iff_eq. rewrite !Z.eqb_eq. split; [|by intros ->].
    intros H. apply Z.mul_reg_r in H; [done|]. apply Z.pow_nonzero; lia.
Qed.

Lemma IsCIDR_parts entry : IsCIDR entry = true ->
  exists network bits, cidr_parts entry = Some (network, bits) /\ 0 <= network < 2 ^ 32 /\ 0 <= bits <= 32.
Proof.
  unfold IsCIDR, cidr_parts. destruct (find_char _ _) as [pos|]; [|done]. destruct (_ || _); [done|].
  unfold IsValidIP. case_bool_decide as Hv; [|done]. destruct Hv as [n Hn]. cbn [negb].
  destruct (stoi _) as [[bits k]|]; [|done]. intros [H1%Z.leb_le H2%Z.leb_le]%andb_true_iff.
  rewrite Hn. exists n, bits. split; [done|]. split; [by apply inet_pton_range in Hn|done].
Qed.

Lemma IsIPInCIDR_prefix ip entry network bits :
  cidr_parts entry = Some (network, bits) -> 0 <= network < 2 ^ 32 -> 0 <= bits <= 32 ->
  IsIPInCIDR ip entry = Some (match inet_pton ip with Some a => same_prefix bits a network | None => false end).
Proof.
  unfold cidr_parts, IsIPInCIDR. destruct (find_char _ _) as [pos|]; [|done].
  destruct (inet_pton (take pos entry)) as [n|]; [|done]. destruct (stoi _) as [[b k]|]; [|done].
  intros [= -> ->] Hn Hb. destruct (inet_pton ip) as [a|] eqn:Ea; [|done].
  apply inet_pton_range in Ea. destruct (mask_prefix bits a network Ea Hn Hb) as (m & -> & ->). done.
Qed.

Lemma IsIPInCIDR_covers ip a entry :
  IsCIDR entry = true -> inet_pton ip = Some a -> IsIPInCIDR ip entry = Some (entry_covers entry a).
Proof.
  intros Hc Ha. destruct (IsCIDR_parts entry Hc) as (n & b & Hp & Hn & Hb).
  rewrite (IsIPInCIDR_prefix ip entry n b) by done. unfold entry_covers. by rewrite Hc, Hp, Ha.
Qed.

(** ** Reading plain lists *)

Lemma first_hit_exists {A} (test : A -> option bool) (b : A -> bool) l :
  Forall (fun x => test x = Some (b x)) l -> first_hit test l = Some (existsb b l).
Proof.
  induction 1 as [|x l Hx Hl IH]; [done|]. cbn [first_hit existsb]. rewrite Hx. by destruct (b x).
Qed.

Lemma ntop_no_star a : 0 <= a < 2 ^ 32 -> "*"%char ∉ inet_ntop a.
Proof.
  intros [Ho _]%octets_of. unfold inet_ntop. rewrite !elem_of_app.
  assert (forall v, 0 <= v <= 255 -> "*"%char ∉ to_string v) as Hd.
  { intros v (Hv & _)%print_octet Hin. rewrite Forall_forall in Hv. by apply Hv in Hin. }
  apply Forall_cons in Ho as [H3 Ho]. apply Forall_cons in Ho as [H2 Ho]. apply Forall_cons in Ho as [H1 Ho].
  apply Forall_cons in Ho as [H0 _].
  intros [H|[H|[H|[H|[H|[H|H]]]]]]; solve [by eapply Hd in H | by apply list_elem_of_singleton in H].
Qed.

Lemma IsValidIP_address ip : IsValidIP ip = true -> exists a, inet_pton ip = Some a.
Proof. unfold IsValidIP. by rewrite bool_decide_eq_true. Qed.

Lemma valid_not_wildcard ip : NUL ∉ ip -> IsValidIP ip = true -> IsWildcardHostname ip = false.
Proof.
  intros Hn [a Ha]%IsValidIP_address. apply inet_pton_canonical in Ha as [Hr ->]; [|done].
  apply bool_decide_eq_false. rewrite (proj2 (find_char_None _ _)); [by intros [? ?]|].
  apply Forall_forall. intros c Hc. apply bool_decide_eq_false. intros ->. by apply (ntop_no_star a).
Qed.

Lemma valid_not_hostname ip : IsValidIP ip = true -> IsHostname ip = false.
Proof. unfold IsHostname. by intros ->. Qed.

(** Equal addresses have equal texts. *)

Lemma same_address ip1 ip2 a : NUL ∉ ip1 -> NUL ∉ ip2 ->
  inet_pton ip2 = Some a -> (inet_pton ip1 = Some a <-> ip1 = ip2).
Proof.
  intros H1 H2 Ha. split; [|by intros ->]. intros Hb.
  apply inet_pton_canonical in Ha as [_ ->]; [|done]. by apply inet_pton_canonical in Hb as [_ ->].
Qed.

Lemma skip_while_elem p s x : x ∈ skip_while p s -> x ∈ s.
Proof. intros H. rewrite <- (span_app p s). apply elem_of_app. by right. Qed.

Lemma trim_elem p s x : x ∈ trim p s -> x ∈ s.
Proof.
  unfold trim. rewrite elem_of_reverse. intros H%skip_while_elem. rewrite elem_of_reverse in H.
  by apply skip_while_elem in H.
Qed.

Lemma split_commas_elem cur s item x : item ∈ split_commas cur s -> x ∈ item -> x ∈ cur \/ x ∈ s.
Proof.
  revert cur. induction s as [|c s IH]; intros cur; cbn [split_commas].
  - intros ->%list_elem_of_singleton. by left.
  - case_bool_decide; [intros [->|H']%elem_of_cons|intros H'].
    + by left.
    + intros Hx. destruct (IH _ H' Hx) as [?%not_elem_of_nil|?]; [done|]. right. by right.
    + intros Hx. destruct (IH _ H' Hx) as [[?| ->%list_elem_of_singleton]%elem_of_app|?]; [by left|right; by left|right; by right].
Qed.

Lemma ParseIPList_elem config item x : item ∈ ParseIPList config -> x ∈ item -> x ∈ config.
Proof.
  unfold ParseIPList. rewrite list_elem_of_In, List.filter_In.
  intros [Hi _] Hx. apply list_elem_of_In, list_elem_of_fmap in Hi as (raw & -> & Hr).
  apply trim_elem in Hx. by destruct (split_commas_elem _ _ _ _ Hr Hx) as [?%not_elem_of_nil|].
Qed.

Lemma ParseIPList_no_nul config : NUL ∉ config -> Forall (fun e => NUL ∉ e) (ParseIPList config).
Proof. intros H. apply Forall_forall. intros e He Hn. apply H. by eapply ParseIPList_elem. Qed.

(** The entries of a list of addresses and ranges. *)

Definition plain_listing (l : Listing) (es : list bytes) : Listing :=
  let e := entries l in
  mkListing (mkEntries (list_to_set (List.filter (fun x => negb (IsCIDR x)) es) ∪ IPs e)
               (list_to_set (List.filter (fun x => negb (IsCIDR x)) es) ∪ DirectIPs e)
               (CIDRRanges e ++ List.filter IsCIDR es) (WildcardHostnames e) (RegularHostnames e) (OriginalEntries e ++ es))
    (hosts l) (wilds l) (usable l || negb (bool_decide (es = []))).

Lemma add_entries_plain getaddrinfo es : forall l c,
  Forall (fun e => NUL ∉ e /\ IsCIDR e || IsValidIP e = true) es ->
  add_entries getaddrinfo l es c = Some (c, plain_listing l es).
Proof.
  induction es as [|x es IH]; intros l c Hes; cbn [add_entries].
  { destruct l as [[] h w u]. unfold plain_listing. cbn. rewrite !(left_id_L ∅ (∪)), !app_nil_r, orb_false_r. done. }
  inv Hes as [|? ? [Hn Hx] Hes']. unfold cbind, add_entry. destruct (IsCIDR x) eqn:Ec.
  - cbn [cret]. rewrite IH by done. unfold plain_listing. cbn [entries IPs DirectIPs CIDRRanges WildcardHostnames
      RegularHostnames OriginalEntries hosts wilds usable List.filter]. rewrite Ec. cbn [negb].
    rewrite <- !app_assoc, (bool_decide_false (x :: es = [])) by done. by rewrite orb_true_r.
  - cbn [orb] in Hx. rewrite valid_not_wildcard, valid_not_hostname, Hx by done. cbn [cret]. rewrite IH by done.
    unfold plain_listing. cbn [entries IPs DirectIPs CIDRRanges WildcardHostnames
      RegularHostnames OriginalEntries hosts wilds usable List.filter]. rewrite Ec. cbn [negb list_to_set].
    rewrite <- !app_assoc, (bool_decide_false (x :: es = [])), orb_true_r by done.
    f_equal; f_equal; f_equal; f_equal; set_solver.
Qed.

Lemma trim_nil p s : trim p s = [] -> Forall (fun c => p c = true) s.
Proof.
  unfold trim. intros H. apply (f_equal reverse) in H. rewrite reverse_involutive in H. cbn in H.
  set (t := skip_while p s) in *. assert (t = []) as Ht.
  { destruct t as [|c r] eqn:E; [done|]. exfalso.
    assert (p c = false) as Hc by (apply (span_rest p s c r); exact E).
    rewrite reverse_cons in H. revert H. generalize (reverse r). intros u. unfold skip_while.
    induction u as [|d u IH]; cbn [app span]; [by rewrite Hc|]. destruct (p d); [|done].
    by destruct (span p (u ++ [c])). }
  rewrite <- (span_app p s). change ((span p s).2) with t. rewrite Ht, app_nil_r. apply span_all.
Qed.

Lemma split_commas_none cur s : Forall (fun c => is_blank c = true) s -> split_commas cur s = [cur ++ s].
Proof.
  intros H. revert cur. induction H as [|c s Hc Hs IH]; intros cur; cbn [split_commas]; [by rewrite app_nil_r|].
  rewrite bool_decide_false by (by intros ->). rewrite IH. by rewrite <- app_assoc.
Qed.

Lemma ParseIPList_blank config : trim is_blank config = [] -> ParseIPList config = [].
Proof.
  intros H. unfold ParseIPList. rewrite (split_commas_none []) by by apply trim_nil.
  cbn [app fmap list_fmap]. by rewrite H.
Qed.

(** ** The decision for a literal address *)

Lemma existsb_split (es : list bytes) (p q : bytes -> bool) :
  existsb p es = existsb p (List.filter (fun x => negb (q x)) es) || existsb p (List.filter q es).
Proof.
  induction es as [|x es IH]; [done|]. cbn [existsb List.filter]. rewrite IH. destruct (q x); cbn [negb existsb].
  - by destruct (p x), (existsb p (List.filter (fun x => negb (q x)) es)), (existsb p (List.filter q es)).
  - by rewrite orb_assoc.
Qed.

Lemma plain_check getnameinfo wild ip a es c :
  NUL ∉ ip -> inet_pton ip = Some a -> Forall (fun e => NUL ∉ e /\ IsCIDR e || IsValidIP e = true) es ->
  check_entries getnameinfo wild (entries (plain_listing no_listing es)) ip c =
  Some (c, existsb (fun e => entry_covers e a) es).
Proof.
  intros Hn Ha Hes. rewrite (existsb_split es _ IsCIDR). unfold check_entries, plain_listing.
  cbn [entries IPs CIDRRanges WildcardHostnames no_listing no_entries app].
  set (plain := List.filter (fun x => negb (IsCIDR x)) es).
  assert (bool_decide (ip ∈ (list_to_set plain ∪ ∅ : gset bytes)) = existsb (fun e => entry_covers e a) plain) as ->.
  { apply eq_true_iff_eq. rewrite bool_decide_eq_true, existsb_exists. rewrite union_empty_r_L, elem_of_list_to_set. split.
    - intros Hin. exists ip. split; [by apply list_elem_of_In|]. unfold entry_covers.
      apply list_elem_of_In, List.filter_In in Hin as [_ ->%negb_true_iff]. by apply bool_decide_eq_true.
    - intros (e & He & Hc). pose proof He as [Hin Hcidr%negb_true_iff]%List.filter_In.
      unfold entry_covers in Hc. rewrite Hcidr in Hc. apply bool_decide_eq_true in Hc.
      rewrite Forall_forall in Hes. destruct (Hes e ltac:(by apply list_elem_of_In)) as [Hne _].
      apply (same_address e ip a) in Hc as ->; [by apply list_elem_of_In|done..]. }
  destruct (existsb _ plain); [done|]. cbn [orb]. unfold cbind, clift.
  rewrite (first_hit_exists _ (fun e => entry_covers e a)).
  - destruct (existsb _ _); [done|]. by rewrite bool_decide_true, andb_false_r.
  - apply Forall_forall. intros e [_ He]%list_elem_of_In%List.filter_In. by apply IsIPInCIDR_covers.
Qed.

Section Decision.

Context (getaddrinfo : nat -> bytes -> option (list Z)) (getnameinfo : nat -> Z -> option bytes) (DNS_CACHE_MAX_SIZE : Z).

Lemma plain_entries config : NUL ∉ config -> plain_config config = true -> trim is_blank config <> #"*" ->
  Forall (fun e => NUL ∉ e /\ IsCIDR e || IsValidIP e = true) (ParseIPList config).
Proof.
  intros Hn Hp Hs. unfold plain_config in Hp. rewrite bool_decide_false in Hp by done. cbn [orb] in Hp.
  rewrite forallb_forall in Hp. pose proof (ParseIPList_no_nul config Hn) as Hf. rewrite Forall_forall in Hf.
  apply Forall_forall. intros e He. split; [by apply Hf|]. by apply Hp, list_elem_of_In.
Qed.

Lemma read_allowed_plain config c : NUL ∉ config -> plain_config config = true ->
  read_allowed getaddrinfo config c =
  Some (c, (bool_decide (trim is_blank config = #"*"),
            if bool_decide (trim is_blank config = #"*") then no_listing else plain_listing no_listing (ParseIPList config))).
Proof.
  intros Hn Hp. unfold read_allowed. case_bool_decide as H0.
  { rewrite H0, (ParseIPList_blank config H0). done. }
  case_bool_decide as Hs; [done|]. unfold cbind. by rewrite add_entries_plain by by apply plain_entries.
Qed.

Lemma read_denied_plain config c : NUL ∉ config -> plain_config config = true ->
  exists l, read_denied getaddrinfo config c = Some (c, (bool_decide (trim is_blank config = #"*"), l)) /\
    (trim is_blank config <> #"*" -> l = plain_listing no_listing (ParseIPList config)) /\ wilds l = false.
Proof.
  intros Hn Hp. unfold read_denied. case_bool_decide as H0.
  { exists no_listing. rewrite H0, (ParseIPList_blank config H0). done. }
  case_bool_decide as Hs; [by eexists|]. unfold cbind. rewrite add_entries_plain by by apply plain_entries.
  by eexists.
Qed.

Lemma decide_plain allow deny size f f' ip a :
  NUL ∉ allow -> NUL ∉ deny -> NUL ∉ ip -> plain_config allow = true -> plain_config deny = true ->
  inet_pton ip = Some a -> Initialize getaddrinfo DNS_CACHE_MAX_SIZE size allow deny f = Some f' ->
  call_IsAllowed getaddrinfo getnameinfo ip f' = Some (f', config_covers allow a && negb (config_covers deny a)).
Proof.
  intros Na Nd Ni Pa Pd Ha HI. unfold Initialize in HI. set (c0 := flush _) in HI. unfold cbind in HI.
  rewrite read_allowed_plain in HI by done. destruct (read_denied_plain deny c0 Nd Pd) as (d & Ed & Hd & Hw).
  rewrite Ed in HI. unfold cret in HI. apply (inj Some) in HI as <-.
  assert (IsHostname ip = false) as Hh.
  { apply valid_not_hostname. unfold IsValidIP. apply bool_decide_eq_true. eauto. }
  unfold call_IsAllowed, IsAllowed, denied_check, IsDeniedInternal, IsAllowedInternal, config_covers.
  cbn [Cache DenyAll HasDenyEntries AllowAll Allowed Denied HasWildcardHostnames HasDenyWildcardHostnames HasHostnames].
  rewrite Hh. case_bool_decide as Hds; cbn [orb negb]; [by rewrite andb_false_r|].
  specialize (Hd Hds) as ->. cbn [usable plain_listing no_listing orb].
  set (es := ParseIPList deny) in *. pose proof (plain_entries deny Nd Pd Hds) as Hes.
  assert ((if negb (bool_decide (es = [])) then check_entries getnameinfo false (entries (plain_listing no_listing es)) ip
           else cret false) c0 = Some (c0, existsb (fun e => entry_covers e a) es)) as Hden.
  { case_bool_decide as He; [by rewrite He|]. cbn [negb]. by apply plain_check. }
  unfold cbind at 1. cbn [wilds hosts plain_listing no_listing] in *.
  rewrite Hden. destruct (existsb _ es); cbn [negb]; [by rewrite andb_false_r|]. rewrite andb_true_r.
  destruct (bool_decide_reflect (trim is_blank allow = #"*")) as [Has|Has]; [done|]. cbn [orb andb].
  by rewrite (plain_check _ _ _ a) by (done || by apply plain_entries).
Qed.

End Decision.

(** ** Operations on the caches *)

(** [m] returns from every good cache, leaves a good cache, and what it
    delivers satisfies [Q]. *)

Definition runs {A} (m : C A) (Q : A -> Prop) : Prop :=
  forall c, cache_ok c -> exists c' a, m c = Some (c', a) /\ cache_ok c' /\ Q a.

Lemma runs_ret {A} (a : A) (Q : A -> Prop) : Q a -> runs (cret a) Q.
Proof. intros H c Hc. by exists c, a. Qed.

Lemma runs_lift {A} (o : option A) (Q : A -> Prop) a : o = Some a -> Q a -> runs (clift o) Q.
Proof. intros -> H c Hc. by exists c, a. Qed.

Lemma runs_bind {A B} (m : C A) (k : A -> C B) (P : A -> Prop) (Q : B -> Prop) :
  runs m P -> (forall a, P a -> runs (k a) Q) -> runs (cbind m k) Q.
Proof.
  intros Hm Hk c Hc. destruct (Hm c Hc) as (c1 & a & E & Hc1 & Ha). unfold cbind. rewrite E. by apply Hk.
Qed.

Lemma cache_ok_count c : cache_ok c -> cache_ok (count_query c).
Proof. done. Qed.

Lemma cache_ok_flush_forward c : cache_ok c -> cache_ok (flush_forward c).
Proof.
  intros (H1 & H2 & H3 & H4 & H5 & H6 & H7). split_and!; cbn; try done;
    first [by rewrite dom_empty_L | apply NoDup_nil_2 | rewrite map_size_empty; lia].
Qed.

Lemma cache_ok_flush_reverse c : cache_ok c -> cache_ok (flush_reverse c).
Proof.
  intros (H1 & H2 & H3 & H4 & H5 & H6 & H7). split_and!; cbn; try done;
    first [by rewrite dom_empty_L | apply NoDup_nil_2 | rewrite map_size_empty; lia].
Qed.

Lemma order_extend {V} (m : gmap bytes V) order k v :
  m !! k = None -> NoDup order -> list_to_set order = dom m ->
  NoDup (order ++ [k]) /\ list_to_set (order ++ [k]) = dom (<[k := v]> m).
Proof.
  intros Hk Hn Hd. split.
  - apply NoDup_app. split_and!; [done| |apply NoDup_singleton].
    intros x Hx ->%list_elem_of_singleton. apply not_elem_of_dom in Hk. apply Hk. rewrite <- Hd.
    by apply elem_of_list_to_set.
  - rewrite dom_insert_L, <- Hd, list_to_set_app_L. cbn. set_solver.
Qed.

Lemma cache_ok_store_forward k v c :
  cache_ok c -> DNSCache c !! k = None -> Z.of_nat (base.size (DNSCache c)) < DNSCacheMaxSize c ->
  cache_ok (store_forward k v c).
Proof.
  intros (H1 & H2 & H3 & H4 & H5 & H6 & H7) Hk Hs.
  destruct (order_extend (DNSCache c) (DNSCacheOrder c) k v Hk H4 H5) as [Hn Hd].
  repeat split; cbn [store_forward DNSCacheMaxSize DNSCache ReverseDNSCache DNSCacheOrder ReverseDNSCacheOrder]; try done.
  rewrite map_size_insert_None by done. lia.
Qed.

Lemma cache_ok_store_reverse k v c :
  cache_ok c -> ReverseDNSCache c !! k = None -> Z.of_nat (base.size (ReverseDNSCache c)) < DNSCacheMaxSize c ->
  cache_ok (store_reverse k v c).
Proof.
  intros (H1 & H2 & H3 & H4 & H5 & H6 & H7) Hk Hs.
  destruct (order_extend (ReverseDNSCache c) (ReverseDNSCacheOrder c) k v Hk H6 H7) as [Hn Hd].
  repeat split; cbn [store_reverse DNSCacheMaxSize DNSCache ReverseDNSCache DNSCacheOrder ReverseDNSCacheOrder]; try done.
  rewrite map_size_insert_None by done. lia.
Qed.

Section Runs.

Context (getaddrinfo : nat -> bytes -> option (list Z)) (getnameinfo : nat -> Z -> option bytes).

Lemma runs_ResolveHostname h b : runs (ResolveHostname getaddrinfo h b) (fun _ => True).
Proof.
  intros c Hc. unfold ResolveHostname.
  destruct (if b then DNSCache c !! h else None) as [ips|] eqn:El; [by eauto|].
  destruct (getaddrinfo _ _) as [addresses|]; [|eauto 6 using cache_ok_count].
  destruct b; cbn [andb]; [|eauto 6 using cache_ok_count].
  destruct (negb _); [|eauto 6 using cache_ok_count]. cbn [count_query DNSCache]. rewrite El.
  eexists _, _. split_and!; [done| |done]. set (c1 := count_query c). assert (cache_ok c1) as Hc1 by done.
  destruct (_ <=? _) eqn:E.
  - apply cache_ok_store_forward; [by apply cache_ok_flush_forward|by apply lookup_empty|].
    cbn. rewrite map_size_empty. by destruct Hc1.
  - apply cache_ok_store_forward; [done..|]. apply Z.leb_gt in E. exact E.
Qed.

Lemma runs_ReverseDNS ip : runs (ReverseDNS getnameinfo ip) (fun _ => True).
Proof.
  intros c Hc. unfold ReverseDNS. destruct (ReverseDNSCache c !! ip) as [h|] eqn:El; [by eauto|].
  destruct (inet_pton ip) as [a|]; [|by eauto]. destruct (getnameinfo _ _) as [h|]; [|eauto 6 using cache_ok_count].
  cbn [count_query ReverseDNSCache]. rewrite El.
  eexists _, _. split_and!; [done| |done]. set (c1 := count_query c). assert (cache_ok c1) as Hc1 by done.
  destruct (_ <=? _) eqn:E.
  - apply cache_ok_store_reverse; [by apply cache_ok_flush_reverse|by apply lookup_empty|].
    cbn. rewrite map_size_empty. by destruct Hc1.
  - apply cache_ok_store_reverse; [done..|]. apply Z.leb_gt in E. exact E.
Qed.

Lemma first_hit_total {A} (test : A -> option bool) l :
  Forall (fun x => is_Some (test x)) l -> is_Some (first_hit test l).
Proof. induction 1 as [|x l [b Hb] Hl IH]; [by eexists|]. cbn [first_hit]. rewrite Hb. by destruct b; [eexists|]. Qed.

Lemma IsIPInCIDR_total ip r : IsCIDR r = true -> is_Some (IsIPInCIDR ip r).
Proof. intros (n & b & Hp & Hn & Hb)%IsCIDR_parts. rewrite (IsIPInCIDR_prefix ip r n b) by done. by eexists. Qed.

Lemma MatchWildcardHostname_total h p : p <> [] -> is_Some (MatchWildcardHostname h p).
Proof. intros Hp. destruct p as [|c p]; [done|]. cbn [MatchWildcardHostname]. repeat case_match; by eexists. Qed.

Lemma runs_check_entries wild e ip : entries_ok e -> runs (check_entries getnameinfo wild e ip) (fun _ => True).
Proof.
  intros [Hr Hp]. unfold check_entries. case_bool_decide; [by apply runs_ret|].
  destruct (first_hit_total (IsIPInCIDR ip) (CIDRRanges e)) as [b Hb].
  { eapply Forall_impl; [done|]. intros r. apply IsIPInCIDR_total. }
  apply (runs_bind _ _ (fun _ => True)); [by eapply runs_lift|]. intros [] _; [by apply runs_ret|].
  destruct (wild && _); [|by apply runs_ret].
  apply (runs_bind _ _ (fun _ => True)); [apply runs_ReverseDNS|]. intros h _. case_bool_decide; [by apply runs_ret|].
  destruct (first_hit_total (MatchWildcardHostname h) (WildcardHostnames e)) as [b' Hb'].
  { eapply Forall_impl; [done|]. intros p. apply MatchWildcardHostname_total. }
  by eapply runs_lift.
Qed.

Lemma runs_any_address test l :
  (forall ip, runs (test ip) (fun _ => True)) -> runs (any_address test l) (fun _ => True).
Proof.
  intros Ht. induction l as [|ip l IH]; cbn [any_address]; [by apply runs_ret|].
  apply (runs_bind _ _ (fun _ => True)); [apply Ht|]. intros [] _; [by apply runs_ret|done].
Qed.

Lemma runs_IsAllowed f ip : entries_ok (Allowed f) -> entries_ok (Denied f) ->
  runs (IsAllowed getaddrinfo getnameinfo f ip) (fun _ => True).
Proof.
  intros Ha Hd. unfold IsAllowed, denied_check. destruct (DenyAll f); [by apply runs_ret|].
  apply (runs_bind _ _ (fun _ => True)).
  - destruct (HasDenyEntries f); [|by apply runs_ret]. destruct (IsHostname ip); [|by apply runs_check_entries].
    apply (runs_bind _ _ (fun _ => True)); [apply runs_ResolveHostname|]. intros ips _.
    apply runs_any_address. intros. by apply runs_check_entries.
  - intros [] _; [by apply runs_ret|]. destruct (AllowAll f); [by apply runs_ret|].
    destruct (IsHostname ip && _); [|by apply runs_check_entries].
    apply (runs_bind _ _ (fun _ => True)); [apply runs_ResolveHostname|]. intros ips _.
    apply runs_any_address. intros. by apply runs_check_entries.
Qed.

Lemma no_listing_ok : listing_ok no_listing.
Proof. repeat split; constructor. Qed.

Lemma wildcard_nonempty e : IsWildcardHostname e = true -> e <> [].
Proof. intros H ->. by apply bool_decide_eq_true in H as [? ?]. Qed.

Lemma runs_add_entry l e : listing_ok l -> runs (add_entry getaddrinfo l e) listing_ok.
Proof.
  intros ([Hr Hp] & Hu & Hw & Hh). unfold add_entry.
  destruct (IsCIDR e) eqn:Ec.
  { apply runs_ret. repeat split; cbn; try done. apply Forall_app. by repeat constructor. }
  destruct (IsWildcardHostname e) eqn:Ew.
  { apply runs_ret. repeat split; cbn; try done. apply Forall_app. repeat constructor; [done|by apply wildcard_nonempty]. }
  destruct (IsHostname e).
  { apply (runs_bind _ _ (fun _ => True)); [apply runs_ResolveHostname|]. intros ips _. by apply runs_ret. }
  destruct (IsValidIP e); by apply runs_ret.
Qed.

Lemma runs_add_entries es : forall l, listing_ok l -> runs (add_entries getaddrinfo l es) listing_ok.
Proof.
  induction es as [|e es IH]; intros l Hl; cbn [add_entries]; [by apply runs_ret|].
  apply (runs_bind _ _ listing_ok); [by apply runs_add_entry|apply IH].
Qed.

Lemma runs_read_allowed config : runs (read_allowed getaddrinfo config) (fun x => listing_ok x.2).
Proof.
  unfold read_allowed. do 2 (case_bool_decide; [apply runs_ret, no_listing_ok|]).
  apply (runs_bind _ _ listing_ok); [apply runs_add_entries, no_listing_ok|]. intros l Hl. by apply runs_ret.
Qed.

Lemma runs_read_denied config : runs (read_denied getaddrinfo config) (fun x => listing_ok x.2).
Proof.
  unfold read_denied. case_bool_decide; [apply runs_ret, no_listing_ok|].
  case_bool_decide; [apply runs_ret; repeat split; constructor|].
  apply (runs_bind _ _ listing_ok); [apply runs_add_entries, no_listing_ok|]. intros l Hl. by apply runs_ret.
Qed.

Lemma runs_resolve_again names : forall ips, runs (resolve_again getaddrinfo ips names) (fun _ => True).
Proof.
  induction names as [|h names IH]; intros ips; cbn [resolve_again]; [by apply runs_ret|].
  apply (runs_bind _ _ (fun _ => True)); [apply runs_ResolveHostname|]. intros r _. apply IH.
Qed.

(** A refresh changes nothing but the resolved addresses, and those only when
    there are host names. *)

Lemma runs_refresh present e : runs (refresh getaddrinfo present e) (fun e' =>
  CIDRRanges e' = CIDRRanges e /\ WildcardHostnames e' = WildcardHostnames e /\ RegularHostnames e' = RegularHostnames e /\
  (RegularHostnames e = [] -> e' = e)).
Proof.
  unfold refresh. destruct present; [|by apply runs_ret]. cbn [andb]. case_bool_decide; [by apply runs_ret|]. cbn [negb].
  apply (runs_bind _ _ (fun _ => True)); [apply runs_resolve_again|]. intros ips _. by apply runs_ret.
Qed.

(** ** The invariant *)

Context (DNS_CACHE_MAX_SIZE : Z) (HMax : 0 < DNS_CACHE_MAX_SIZE).

Lemma cache_ok_empty q max : 0 < max -> cache_ok (mkCaches ∅ ∅ [] [] max q).
Proof.
  intros H. split_and!; cbn; try done; first [by rewrite dom_empty_L | apply NoDup_nil_2 | rewrite map_size_empty; lia].
Qed.

Lemma new_ok : filter_ok (new_IPFilter DNS_CACHE_MAX_SIZE).
Proof. repeat split; try constructor; try by apply cache_ok_empty. Qed.

Lemma Initialize_ok size allow deny f : filter_ok f ->
  exists f', Initialize getaddrinfo DNS_CACHE_MAX_SIZE size allow deny f = Some f' /\ filter_ok f'.
Proof.
  intros (_ & _ & Hc & _). unfold Initialize. set (c := match size with Some _ => _ | None => _ end).
  assert (cache_ok (flush c)) as Hf.
  { apply cache_ok_empty. cbn. subst c. destruct size as [n|]; [|apply Hc]. cbn. destruct (0 <? n) eqn:E; lia. }
  assert (runs (a <-- read_allowed getaddrinfo allow ;; d <-- read_denied getaddrinfo deny ;; cret (a, d))
    (fun x => listing_ok x.1.2 /\ listing_ok x.2.2)) as R.
  { eapply runs_bind; [apply runs_read_allowed|]. intros a Ha. eapply runs_bind; [apply runs_read_denied|].
    intros d Hd. by apply runs_ret. }
  destruct (R _ Hf) as (c' & [[aa a] [da d]] & E & Hc' & Ha & Hd). rewrite E. eexists. split; [done|].
  destruct Ha as (Ha1 & Ha2 & Ha3 & Ha4), Hd as (Hd1 & Hd2 & Hd3 & Hd4). cbn [fst snd] in *.
  split_and!; cbn; try done. by intros [H1 _]%orb_false_iff; apply Ha3.
Qed.

Lemma FlushDNSCache_ok f : filter_ok f -> exists f', FlushDNSCache getaddrinfo f = Some f' /\ filter_ok f'.
Proof.
  intros (Ha & Hd & Hc & H1 & H2 & H3). unfold FlushDNSCache.
  assert (cache_ok (flush (Cache f))) as Hf by (apply cache_ok_empty; apply Hc).
  destruct (runs_bind _ (fun a => d <-- refresh getaddrinfo (HasDenyHostnames f) (Denied f) ;; cret (a, d)) _
    (fun x => (CIDRRanges x.1 = CIDRRanges (Allowed f) /\ WildcardHostnames x.1 = WildcardHostnames (Allowed f)) /\
      CIDRRanges x.2 = CIDRRanges (Denied f) /\ WildcardHostnames x.2 = WildcardHostnames (Denied f) /\
      (RegularHostnames (Denied f) = [] -> x.2 = Denied f))
    (runs_refresh (HasHostnames f) (Allowed f))) with (c := flush (Cache f)) as (c' & [a d] & E & Hc' & Hx); [|done|].
  { intros a (E1 & E2 & _). eapply runs_bind; [apply runs_refresh|]. intros d (E3 & E4 & _ & E5). by apply runs_ret. }
  rewrite E. eexists. split; [done|]. cbn [fst snd] in Hx. destruct Hx as ([E1 E2] & E3 & E4 & E5).
  unfold filter_ok, entries_ok in *. cbn. rewrite E1, E2, E3, E4. split_and!; try apply Ha; try apply Hd; try done.
  intros Hn. destruct (H1 Hn) as (? & ? & ? & Hr). rewrite (E5 Hr). by split_and!.
Qed.

Lemma SetDNSCacheMaxSize_ok n f : 0 <= n -> filter_ok f -> filter_ok (SetDNSCacheMaxSize DNS_CACHE_MAX_SIZE n f).
Proof.
  intros Hn (Ha & Hd & Hc & H1 & H2 & H3). split_and!; cbn; try done.
  set (max := if n =? 0 then _ else _). assert (0 < max) as Hm by (subst max; destruct (n =? 0) eqn:E; lia).
  destruct Hc as (C1 & C2 & C3 & C4 & C5 & C6 & C7).
  destruct (max <? _) eqn:E1; cbn; destruct (max <? Z.of_nat (base.size (ReverseDNSCache (Cache f)))) eqn:E2;
    rewrite ?Z.ltb_ge in E1, E2; split_and!; cbn; try done;
    first [by rewrite dom_empty_L | apply NoDup_nil_2 | rewrite map_size_empty; lia | lia].
Qed.

Lemma set_Cache_ok c f : cache_ok c -> filter_ok f -> filter_ok (set_Cache c f).
Proof. intros Hc (Ha & Hd & _ & H1 & H2 & H3). by split_and!. Qed.

Lemma step_ok f f' : filter_ok f -> step getaddrinfo getnameinfo DNS_CACHE_MAX_SIZE f f' -> filter_ok f'.
Proof.
  intros Hf Hs. pose proof Hf as (Ha & Hd & Hc & H1 & H2 & H3). destruct Hs as [size allow deny f f' E|ip f|f|f f' E|n f Hn|ip f f' b E|ip f c h E|name b f c r E].
  - destruct (Initialize_ok size allow deny f Hf) as (g & Eg & Hg). congruence.
  - unfold AddAllowed. by destruct (IsValidIP ip).
  - repeat split; try constructor; apply Hc.
  - destruct (FlushDNSCache_ok f Hf) as (g & Eg & Hg). congruence.
  - by apply SetDNSCacheMaxSize_ok.
  - unfold call_IsAllowed in E. destruct (runs_IsAllowed f ip Ha Hd (Cache f) Hc) as (c & b' & Er & Hc' & _).
    rewrite Er in E. injection E as <- _. by apply set_Cache_ok.
  - destruct (runs_ReverseDNS ip (Cache f) Hc) as (c' & h' & Er & Hc' & _).
    apply set_Cache_ok; [|done]. unfold GetHostnameForIP in E. congruence.
  - unfold ResolveHostnameToIP, cbind in E. destruct (runs_ResolveHostname name b (Cache f) Hc) as (c' & l & Er & Hc' & _).
    apply set_Cache_ok; [|done]. rewrite Er in E. unfold cret in E. congruence.
Qed.

Lemma reachable_ok f : reachable getaddrinfo getnameinfo DNS_CACHE_MAX_SIZE f -> filter_ok f.
Proof.
  unfold reachable. intros H. pose proof new_ok as Hn. revert Hn. induction H as [|f g h Hs H IH]; [done|].
  intros Hf. apply IH. by eapply step_ok.
Qed.

End Runs.

(** ** The deny list comes first *)

Lemma first_hit_none {A} (test : A -> option bool) l : first_hit test l = Some false -> Forall (fun x => test x = Some false) l.
Proof.
  induction l as [|x l IH]; [constructor|]. cbn [first_hit]. destruct (test x) as [[]|] eqn:E; [done| |done].
  intros H. constructor; [done|by apply IH].
Qed.

Lemma check_entries_false getnameinfo wild e ip c c' :
  check_entries getnameinfo wild e ip c = Some (c', false) ->
  ip ∉ IPs e /\ Forall (fun r => IsIPInCIDR ip r = Some false) (CIDRRanges e).
Proof.
  unfold check_entries. case_bool_decide as Hi; [done|]. unfold cbind, clift.
  destruct (first_hit _ _) as [[]|] eqn:E; [done| |done]. intros _. split; [done|by apply first_hit_none].
Qed.

(** ** Properties *)

(** C20. After a configuration of addresses and CIDR ranges (or the wildcard),
    the filter lets a client address through exactly when the allow
    configuration covers it and the deny configuration does not; a range covers
    the addresses that share its prefix. The decision asks no DNS server and
    changes no state. Configuring returns for every pair of texts. *)
Theorem ip_filter_decides getaddrinfo getnameinfo DNS_CACHE_MAX_SIZE size allow deny f :
  0 < DNS_CACHE_MAX_SIZE -> reachable getaddrinfo getnameinfo DNS_CACHE_MAX_SIZE f ->
  exists f', Initialize getaddrinfo DNS_CACHE_MAX_SIZE size allow deny f = Some f' /\
  (NUL ∉ allow -> NUL ∉ deny -> plain_config allow = true -> plain_config deny = true ->
   forall ip a, NUL ∉ ip -> inet_pton ip = Some a ->
   call_IsAllowed getaddrinfo getnameinfo ip f' = Some (f', config_covers allow a && negb (config_covers deny a))).
Proof.
  intros HM Hr%reachable_ok; [|done]. destruct (Initialize_ok getaddrinfo DNS_CACHE_MAX_SIZE HM size allow deny f Hr) as (f' & E & _).
  exists f'. split; [done|]. intros. by eapply decide_plain.
Qed.

Definition no_resolver : nat -> bytes -> option (list Z) := fun _ _ => None.
Definition no_names : nat -> Z -> option bytes := fun _ _ => None.

Lemma ip_filter_decides_witness :
  exists f', Initialize no_resolver 64 None #"10.0.0.0/8, 192.168.1.7" #"10.1.0.0/16" (new_IPFilter 64) = Some f' /\
    call_IsAllowed no_resolver no_names #"10.2.3.4" f' = Some (f', true) /\
    call_IsAllowed no_resolver no_names #"10.1.3.4" f' = Some (f', false).
Proof.
  destruct (ip_filter_decides no_resolver no_names 64 None #"10.0.0.0/8, 192.168.1.7" #"10.1.0.0/16" (new_IPFilter 64))
    as (f' & E & H); [lia|apply rtc_refl|].
  assert (forall s : bytes, bool_decide (NUL ∈ s) = false -> NUL ∉ s) as N by (intros s; apply bool_decide_eq_false_1).
  assert (forall ip a, NUL ∉ ip -> inet_pton ip = Some a ->
   call_IsAllowed no_resolver no_names ip f' =
   Some (f', config_covers #"10.0.0.0/8, 192.168.1.7" a && negb (config_covers #"10.1.0.0/16" a))) as D
    by (apply H; [apply N; vm_compute; reflexivity..|vm_compute; reflexivity|vm_compute; reflexivity]).
  exists f'. split; [exact E|]. split.
  - refine (eq_trans (D #"10.2.3.4" 167904004 _ _) _); [apply N|..]; vm_compute; reflexivity.
  - refine (eq_trans (D #"10.1.3.4" 167838468 _ _) _); [apply N|..]; vm_compute; reflexivity.
Defined.

(** Whatever sequence of operations and DNS answers came before, every
    operation of the filter returns: no range makes [std::stoi] throw or shifts
    by an undefined amount and no pattern is empty. The DNS caches stay within
    their limit with an eviction order that lists their keys once, and the flag
    that skips the deny check is only off when there is nothing to deny. *)
Theorem ip_filter_safe getaddrinfo getnameinfo DNS_CACHE_MAX_SIZE f :
  0 < DNS_CACHE_MAX_SIZE -> reachable getaddrinfo getnameinfo DNS_CACHE_MAX_SIZE f ->
  (forall ip, call_IsAllowed getaddrinfo getnameinfo ip f <> None) /\
  (forall size allow deny, Initialize getaddrinfo DNS_CACHE_MAX_SIZE size allow deny f <> None) /\
  FlushDNSCache getaddrinfo f <> None /\ cache_ok (Cache f) /\ (HasDenyEntries f = false -> no_checks (Denied f)).
Proof.
  intros HM Hr%reachable_ok; [|done]. pose proof Hr as (Ha & Hd & Hc & H1 & _). split_and!; try done.
  - intros ip. unfold call_IsAllowed.
    destruct (runs_IsAllowed getaddrinfo getnameinfo f ip Ha Hd (Cache f) Hc) as (c & b & -> & _). done.
  - intros size allow deny.
    by destruct (Initialize_ok getaddrinfo DNS_CACHE_MAX_SIZE HM size allow deny f Hr) as (f' & -> & _).
  - by destruct (FlushDNSCache_ok getaddrinfo f Hr) as (f' & -> & _).
Qed.

Lemma ip_filter_safe_witness :
  let f := SetDNSCacheMaxSize 64 2 (Clear (new_IPFilter 64)) in
  (forall ip, call_IsAllowed no_resolver no_names ip f <> None) /\ cache_ok (Cache f).
Proof.
  intros f. destruct (ip_filter_safe no_resolver no_names 64 f) as (H1 & _ & _ & H2 & _); [lia| |split; assumption].
  apply (rtc_l _ _ (Clear (new_IPFilter 64))); [constructor|].
  apply (rtc_l _ _ f); [constructor; lia|apply rtc_refl].
Defined.

(** The deny list takes precedence: an address that is let through is not
    on the list of denied addresses and in no denied range, and deny-all is
    off, whatever the allow list says. *)
Theorem deny_takes_precedence getaddrinfo getnameinfo DNS_CACHE_MAX_SIZE f f' ip :
  0 < DNS_CACHE_MAX_SIZE -> reachable getaddrinfo getnameinfo DNS_CACHE_MAX_SIZE f -> IsValidIP ip = true ->
  call_IsAllowed getaddrinfo getnameinfo ip f = Some (f', true) ->
  DenyAll f = false /\ ip ∉ IPs (Denied f) /\ Forall (fun r => IsIPInCIDR ip r = Some false) (CIDRRanges (Denied f)).
Proof.
  intros HM Hr%reachable_ok Hv; [|done]. destruct Hr as (_ & _ & _ & H1 & _).
  unfold call_IsAllowed, IsAllowed, denied_check. destruct (DenyAll f); [done|].
  destruct (HasDenyEntries f).
  - rewrite valid_not_hostname by done. unfold cbind at 1.
    destruct (IsDeniedInternal _ f ip (Cache f)) as [[c []]|] eqn:E; [done| |done].
    intros _. split; [done|]. by apply check_entries_false in E.
  - intros _. destruct (H1 eq_refl) as (-> & -> & _). split_and!; [done|set_solver|constructor].
Qed.

Lemma deny_takes_precedence_witness :
  exists f, Initialize no_resolver 64 None #"*" #"10.1.0.0/16" (new_IPFilter 64) = Some f /\
    Forall (fun r => IsIPInCIDR #"10.2.3.4" r = Some false) (CIDRRanges (Denied f)).
Proof.
  destruct (Initialize no_resolver 64 None #"*" #"10.1.0.0/16" (new_IPFilter 64)) as [f|] eqn:E;
    [|vm_compute in E; discriminate].
  exists f. split; [reflexivity|].
  refine (proj2 (proj2 (deny_takes_precedence no_resolver no_names 64 f f #"10.2.3.4" _ _ _ _))); [lia| |vm_compute; reflexivity|].
  - apply (rtc_l _ _ f); [|apply rtc_refl]. exact (step_Initialize no_resolver no_names 64 None _ _ _ _ E).
  - vm_compute in E. injection E as <-. vm_compute. reflexivity.
Defined.

(** An address is in a CIDR range exactly when the two addresses agree on
    the range's prefix, and the test neither throws nor shifts out of range. *)
Theorem cidr_membership ip a entry :
  IsCIDR entry = true -> inet_pton ip = Some a ->
  exists network bits, cidr_parts entry = Some (network, bits) /\ 0 <= bits <= 32 /\
    IsIPInCIDR ip entry = Some (a / 2 ^ (32 - bits) =? network / 2 ^ (32 - bits)).
Proof.
  intros (n & b & Hp & Hn & Hb)%IsCIDR_parts Ha. exists n, b. split_and!; try done; try lia.
  by rewrite (IsIPInCIDR_prefix ip entry n b), Ha by done.
Qed.

Lemma cidr_membership_witness :
  IsIPInCIDR #"172.16.5.4" #"172.16.0.0/12" = Some true /\
  exists network bits, cidr_parts #"172.16.0.0/12" = Some (network, bits) /\ 0 <= bits <= 32 /\
    IsIPInCIDR #"172.16.5.4" #"172.16.0.0/12" = Some (2886731012 / 2 ^ (32 - bits) =? network / 2 ^ (32 - bits)).
Proof.
  split; [vm_compute; reflexivity|].
  apply (cidr_membership #"172.16.5.4" 2886731012 #"172.16.0.0/12"); vm_compute; reflexivity.
Defined.

End IpFilterProps.
