(* ===== verification/ApiKeys.v ===== *)
(** * API keys: include/api/apikeys.h, src/api/apikeymanager.cpp, src/common/cryptoutils.cpp

    Scoped API keys: the key record and its scope queries, the manager's tables,
    the request windows of the rate limit, and the encrypted file the keys are
    kept in. Hash tables are finite maps; an action is kept as the value of its
    enumerator, since a file may hold others. Time points are nanoseconds since
    the epoch, as [std::chrono::system_clock] counts them; the clock is an
    argument in milliseconds. SHA-256, AES in CBC mode and the random generator
    are OpenSSL's and are arguments; so is the outcome of writing the file. *)

From S2P Require Import Prelude CText MMapFormat.

Module ApiKeys.
Import MMapFormat.

(** ** Keys *)

Inductive APIKeyAction :=
| SEARCH | CREATE | UPDATE | DELETE | COLLECTIONS_LIST | COLLECTIONS_CREATE | COLLECTIONS_DELETE | IMPORT | ALL.

Definition action_code (a : APIKeyAction) : Z :=
  match a with
  | SEARCH => 0 | CREATE => 1 | UPDATE => 2 | DELETE => 3 | COLLECTIONS_LIST => 4
  | COLLECTIONS_CREATE => 5 | COLLECTIONS_DELETE => 6 | IMPORT => 7 | ALL => 8
  end.

Record CollectionScope := mkScope { Actions : gset Z; EmbeddedFilters : bytes }.

Record APIKey := mkKey {
  ID : bytes;
  KeyHash : bytes;
  Description : bytes;
  Scopes : gmap bytes CollectionScope;
  ExpiresAt : Z;
  HasExpiration : bool;
  RateLimitPerMinute : Z;
  AllowHanalyzer : bool;
  CreatedAt : Z;
  LastUsedAt : Z;
  UseCount : Z
}.

Definition of_ms (ms : Z) : Z := ms * 10 ^ 6.

(** The constructor [APIKey()]. *)

Definition new_APIKey (NowMS : Z) : APIKey :=
  mkKey [] [] [] ∅ 0 false 1000 false (of_ms NowMS) (of_ms NowMS) 0.

Definition IsExpired (NowMS : Z) (k : APIKey) : bool :=
  if negb (HasExpiration k) then false else ExpiresAt k <? of_ms NowMS.

Definition wildcard : bytes := #"*".

Definition GetScopeForCollection (CollectionName : bytes) (k : APIKey) : option CollectionScope :=
  match Scopes k !! CollectionName with
  | Some s => Some s
  | None => Scopes k !! wildcard
  end.

Definition HasAction (CollectionName : bytes) (ActionVal : APIKeyAction) (k : APIKey) : bool :=
  match GetScopeForCollection CollectionName k with
  | None => false
  | Some s => bool_decide (action_code ALL ∈ Actions s) || bool_decide (action_code ActionVal ∈ Actions s)
  end.

Definition CanAccessCollection (CollectionName : bytes) (k : APIKey) : bool :=
  bool_decide (is_Some (GetScopeForCollection CollectionName k)).

Definition GetEmbeddedFilters (CollectionName : bytes) (k : APIKey) : bytes :=
  match GetScopeForCollection CollectionName k with Some s => EmbeddedFilters s | None => [] end.

(** ** Text of bytes *)

Definition HexChars : bytes := #"0123456789abcdef".

Definition hex_digit (v : Z) : ascii := default NUL (HexChars !! Z.to_nat v).

Fixpoint HexBytes (Data : bytes) : bytes :=
  match Data with
  | [] => []
  | c :: r => hex_digit (Z.land (Z.shiftr (code c) 4) 15) :: hex_digit (Z.land (code c) 15) :: HexBytes r
  end.

Definition Hex (b : bytes) : bytes := HexBytes b.

(** ** State *)

Record RateLimitTracker := mkTracker { WindowStart : Z; RequestCount : Z }.

Record Manager := mkManager {
  Keys : gmap bytes APIKey;
  HashToID : gmap bytes bytes;
  RateLimits : gmap bytes RateLimitTracker;
  KeysDat : option bytes
}.

Definition no_keys : Manager := mkManager ∅ ∅ ∅ None.

Definition set_tables (keys : gmap bytes APIKey) (hashes : gmap bytes bytes) (m : Manager) : Manager :=
  mkManager keys hashes (RateLimits m) (KeysDat m).

(** ** Encryption *)

Section Crypto.
Variable sha256 : bytes -> bytes.
Variable aes_encrypt aes_decrypt : bytes -> bytes -> bytes -> option bytes.

Definition HashKey (Key : bytes) : bytes := Hex (sha256 Key).

(** [IV] is [None] when the random generator fails. *)

Definition AES256Encrypt (IV : option bytes) (plaintext key : bytes) : bytes :=
  match IV with
  | None => []
  | Some iv =>
      match aes_encrypt (sha256 key) iv plaintext with
      | None => []
      | Some c => iv ++ c
      end
  end.

Definition AES256Decrypt (ciphertext key : bytes) : bytes :=
  if size ciphertext <? 16 then []
  else default [] (aes_decrypt (sha256 key) (take 16 ciphertext) (drop 16 ciphertext)).

(** The key material, from the environment or the default. *)

Variable environment : option bytes.

Definition GetKeysEncryptionKey : bytes :=
  match environment with
  | Some ((_ :: _) as e) => e
  | _ => #"hlquery-api-keys-encryption-key-v1"
  end.

(** ** The file: writing *)

Definition WriteString (s : bytes) : bytes := let Len := u32 (size s) in le 4 Len ++ take (Z.to_nat Len) s.

Definition write_bool (b : bool) : bytes := [chr (if b then 1 else 0)].

Definition write_scope (p : bytes * CollectionScope) : bytes :=
  WriteString p.1 ++ le 4 (u32 (size (elements (Actions p.2)))) ++
  mjoin ((fun a => le 4 (u32 a)) <$> elements (Actions p.2)) ++ WriteString (EmbeddedFilters p.2).

Definition write_key (k : APIKey) : bytes :=
  WriteString (ID k) ++ WriteString (KeyHash k) ++ WriteString (Description k) ++
  le 4 (u32 (size (map_to_list (Scopes k)))) ++ mjoin (write_scope <$> map_to_list (Scopes k)) ++
  write_bool (HasExpiration k) ++ le 8 (ExpiresAt k) ++ le 4 (RateLimitPerMinute k) ++
  write_bool (AllowHanalyzer k) ++ le 4 (UseCount k).

Definition write_snapshot (Snapshot : list APIKey) : bytes :=
  le 4 (u32 (size Snapshot)) ++ mjoin (write_key <$> Snapshot).

(** What a save meets: the random generator and the file system. The call of
    [create_directories] without an error code throws when it fails. *)

Record Outcome := mkOutcome { RandomIV : option bytes; DirectoryMade : bool; FileWritten : bool }.

(** The new contents of the file; or the save fails, which leaves the old file in
    place; or it throws. *)

Inductive SaveResult :=
| Saved (file : bytes)
| NotSaved
| Thrown.

Definition SaveKeySnapshotToEncryptedFile (io : Outcome) (Snapshot : list APIKey) : SaveResult :=
  let Encrypted := AES256Encrypt (RandomIV io) (write_snapshot Snapshot) GetKeysEncryptionKey in
  if bool_decide (Encrypted = []) then NotSaved
  else if negb (DirectoryMade io) then Thrown
  else if FileWritten io then Saved Encrypted else NotSaved.

Definition snapshot (keys : gmap bytes APIKey) : list APIKey := (map_to_list keys).*2.

(** An operation answers [None] when an exception leaves it. *)

Definition SaveKeysToEncryptedFile (io : Outcome) (m : Manager) : Manager * option bool :=
  match SaveKeySnapshotToEncryptedFile io (snapshot (Keys m)) with
  | Saved file => (mkManager (Keys m) (HashToID m) (RateLimits m) (Some file), Some true)
  | NotSaved => (m, Some false)
  | Thrown => (m, None)
  end.

(** ** The file: reading *)

Definition kMaxKeysDatSize : Z := 64 * 1024 * 1024.
Definition kMaxKeyCount : Z := 100000.
Definition kMaxScopeCount : Z := 10000.
Definition kMaxActionCount : Z := 1024.
Definition kMaxKeyIdLen : Z := 256.
Definition kMaxKeyHashLen : Z := 256.
Definition kMaxKeyDescriptionLen : Z := 4096.
Definition kMaxCollectionNameLen : Z := 256.
Definition kMaxEmbeddedFiltersLen : Z := 64 * 1024.

(** A reader takes the rest of the stream; [None] is a failed read or check. *)

Definition reader (A : Type) : Type := bytes -> option (A * bytes).

Definition rbind {A B} (m : reader A) (f : A -> reader B) : reader B :=
  fun s => match m s with Some (a, r) => f a r | None => None end.

Definition rret {A} (a : A) : reader A := fun s => Some (a, s).

Definition rguard (b : bool) : reader unit := fun s => if b then Some (tt, s) else None.

Local Notation "x <- m ;; k" := (rbind m (fun x => k)) (at level 100, m at next level, right associativity).

Definition ReadBytes (n : nat) : reader bytes :=
  fun s => if (length s <? n)%nat then None else Some (take n s, drop n s).

Definition ReadUnsigned (n : nat) : reader Z := b <- ReadBytes n ;; rret (of_le b).

(** The two's complement value of [n] bytes. *)

Definition signed (n : nat) (v : Z) : Z := let w := 8 * Z.of_nat n in if v <? 2 ^ (w - 1) then v else v - 2 ^ w.

Definition ReadSigned (n : nat) : reader Z := v <- ReadUnsigned n ;; rret (signed n v).

Definition ReadBool : reader bool := v <- ReadUnsigned 1 ;; rret (negb (v =? 0)).

Definition ReadString (MaxLen : Z) : reader bytes :=
  Len <- ReadUnsigned 4 ;; _ <- rguard (Len <=? MaxLen) ;; ReadBytes (Z.to_nat Len).

(** [count] items of a loop. *)

Fixpoint read_items {A} (count : nat) (item : reader A) : reader (list A) :=
  match count with
  | O => rret []
  | S n => a <- item ;; l <- read_items n item ;; rret (a :: l)
  end.

Definition read_scope : reader (bytes * CollectionScope) :=
  ColName <- ReadString kMaxCollectionNameLen ;;
  ActionCount <- ReadUnsigned 4 ;;
  _ <- rguard (ActionCount <=? kMaxActionCount) ;;
  actions <- read_items (Z.to_nat ActionCount) (ReadSigned 4) ;;
  Filters <- ReadString kMaxEmbeddedFiltersLen ;;
  rret (ColName, mkScope (list_to_set actions) Filters).

Definition put_scopes (l : list (bytes * CollectionScope)) : gmap bytes CollectionScope :=
  foldl (fun m p => <[p.1 := p.2]> m) ∅ l.

Definition read_key (NowMS : Z) : reader APIKey :=
  id <- ReadString kMaxKeyIdLen ;;
  hash <- ReadString kMaxKeyHashLen ;;
  desc <- ReadString kMaxKeyDescriptionLen ;;
  ScopeCount <- ReadUnsigned 4 ;;
  _ <- rguard (ScopeCount <=? kMaxScopeCount) ;;
  scopes <- read_items (Z.to_nat ScopeCount) read_scope ;;
  has_exp <- ReadBool ;;
  expires <- ReadSigned 8 ;;
  rate <- ReadSigned 4 ;;
  hanalyzer <- ReadBool ;;
  uses <- ReadSigned 4 ;;
  rret (mkKey id hash desc (put_scopes scopes) expires has_exp (if rate <=? 0 then 1000 else rate) hanalyzer
          (of_ms NowMS) (of_ms NowMS) uses).

Definition add_key (k : APIKey) (m : Manager) : Manager :=
  set_tables (<[ID k := k]> (Keys m)) (<[KeyHash k := ID k]> (HashToID m)) m.

(** The loop over the keys: those read before a failure stay in the tables. *)

Fixpoint load_keys (NowMS : Z) (count : nat) (s : bytes) (m : Manager) : Manager * bool :=
  match count with
  | O => (m, true)
  | S n =>
      match read_key NowMS s with
      | None => (m, false)
      | Some (k, rest) => load_keys NowMS n rest (add_key k m)
      end
  end.

Definition load_plaintext (NowMS : Z) (Plaintext : bytes) (m : Manager) : Manager * bool :=
  match ReadUnsigned 4 Plaintext with
  | None => (m, false)
  | Some (KeyCount, rest) =>
      if kMaxKeyCount <? KeyCount then (m, false)
      else load_keys NowMS (Z.to_nat KeyCount) rest (set_tables ∅ ∅ m)
  end.

Definition LoadKeysFromEncryptedFile (NowMS : Z) (m : Manager) : Manager * bool :=
  match KeysDat m with
  | None => (m, false)
  | Some Encrypted =>
      if size Encrypted <=? 0 then (m, false)
      else if kMaxKeysDatSize <? size Encrypted then (m, false)
      else
        let Plaintext := AES256Decrypt Encrypted GetKeysEncryptionKey in
        if bool_decide (Plaintext = []) then (m, false)
        else load_plaintext NowMS Plaintext m
  end.

Definition Initialize (NowMS : Z) (m : Manager) : Manager * bool :=
  let m := set_tables ∅ ∅ m in
  match KeysDat m with
  | Some _ => LoadKeysFromEncryptedFile NowMS m
  | None => (m, true)
  end.

(** ** Operations on keys *)

Definition set_identity (id hash : bytes) (k : APIKey) : APIKey :=
  mkKey id hash (Description k) (Scopes k) 0 false (RateLimitPerMinute k) (AllowHanalyzer k)
    (CreatedAt k) (LastUsedAt k) (UseCount k).

(** An operation that changes the tables, saves a snapshot, and undoes the change
    when the save reports failure; an exception skips that. *)

Definition persist (io : Outcome) (undo : Manager -> Manager) (m : Manager) : Manager * option bool :=
  match SaveKeySnapshotToEncryptedFile io (snapshot (Keys m)) with
  | Saved file => (mkManager (Keys m) (HashToID m) (RateLimits m) (Some file), Some true)
  | NotSaved => (undo m, Some false)
  | Thrown => (m, None)
  end.

Definition undo_create (id hash : bytes) (m : Manager) : Manager :=
  match Keys m !! id with
  | Some k => if bool_decide (KeyHash k = hash) then set_tables (delete id (Keys m)) (delete hash (HashToID m)) m else m
  | None => m
  end.

(** [RandomKey] and [RandomID] are the 32 and 8 random bytes; the result is the
    identifier written back to [KeySpec] and the raw key, empty on failure and
    [None] for an exception. *)

Definition CreateKey (io : Outcome) (RandomKey RandomID : bytes) (KeySpec : APIKey) (m : Manager)
    : Manager * (bytes * option bytes) :=
  let RawKey := Hex RandomKey in
  let Hashed := HashKey RawKey in
  let id := if bool_decide (ID KeySpec = []) then Hex RandomID else ID KeySpec in
  let r := persist io (undo_create id Hashed) (add_key (set_identity id Hashed KeySpec) m) in
  (r.1, (id, (fun saved : bool => if saved then RawKey else []) <$> r.2)).

Definition GetKey (KeyID : bytes) (m : Manager) : option APIKey := Keys m !! KeyID.

Definition ValidateKey (NowMS : Z) (KeyString : bytes) (m : Manager) : option APIKey :=
  match HashToID m !! HashKey KeyString with
  | None => None
  | Some id =>
      match Keys m !! id with
      | None => None
      | Some k => if IsExpired NowMS k then None else Some k
      end
  end.

Definition ListKeys (m : Manager) : list APIKey := snapshot (Keys m).

Definition forget_window (KeyID : bytes) (m : Manager) : Manager :=
  mkManager (Keys m) (HashToID m) (delete KeyID (RateLimits m)) (KeysDat m).

Definition DeleteKey (io : Outcome) (KeyID : bytes) (m : Manager) : Manager * option bool :=
  match Keys m !! KeyID with
  | None => (m, Some false)
  | Some Previous =>
      let r := persist io (add_key Previous)
                 (set_tables (delete KeyID (Keys m)) (delete (KeyHash Previous) (HashToID m)) m) in
      match r.2 with Some true => (forget_window KeyID r.1, Some true) | _ => r end
  end.

Definition update_fields (KeySpec k : APIKey) : APIKey :=
  mkKey (ID k) (KeyHash k) (Description KeySpec) (Scopes KeySpec) (ExpiresAt KeySpec) (HasExpiration KeySpec)
    (RateLimitPerMinute KeySpec) (AllowHanalyzer KeySpec) (CreatedAt k) (LastUsedAt k) (UseCount k).

Definition undo_update (KeyID : bytes) (Previous : APIKey) (m : Manager) : Manager :=
  set_tables (<[KeyID := Previous]> (Keys m)) (<[KeyHash Previous := KeyID]> (HashToID m)) m.

Definition UpdateKey (io : Outcome) (KeyID : bytes) (KeySpec : APIKey) (m : Manager) : Manager * option bool :=
  match Keys m !! KeyID with
  | None => (m, Some false)
  | Some Previous =>
      persist io (undo_update KeyID Previous)
        (set_tables (<[KeyID := update_fields KeySpec Previous]> (Keys m)) (HashToID m) m)
  end.

Definition use_key (NowMS : Z) (k : APIKey) : APIKey :=
  mkKey (ID k) (KeyHash k) (Description k) (Scopes k) (ExpiresAt k) (HasExpiration k) (RateLimitPerMinute k)
    (AllowHanalyzer k) (CreatedAt k) (of_ms NowMS) (wrap_int32 (UseCount k + 1)).

Definition UpdateLastUsed (NowMS : Z) (KeyID : bytes) (m : Manager) : Manager :=
  match Keys m !! KeyID with
  | None => m
  | Some k => set_tables (<[KeyID := use_key NowMS k]> (Keys m)) (HashToID m) m
  end.

(** ** Rate limit *)

Definition minute : Z := 60 * 10 ^ 9.

Definition effective_limit (k : APIKey) : Z := if RateLimitPerMinute k <=? 0 then 1000 else RateLimitPerMinute k.

Definition set_window (KeyID : bytes) (t : RateLimitTracker) (m : Manager) : Manager :=
  mkManager (Keys m) (HashToID m) (<[KeyID := t]> (RateLimits m)) (KeysDat m).

(** The request window at a moment: the tracker, restarted after a minute. *)

Definition window_at (Now : Z) (t : RateLimitTracker) : RateLimitTracker :=
  if 1 <=? Z.quot (Now - WindowStart t) minute then mkTracker Now 0 else t.

Definition CheckRateLimit (NowMS : Z) (KeyID : bytes) (m : Manager) : Manager * bool :=
  match Keys m !! KeyID with
  | None => (m, false)
  | Some k =>
      let Limit := effective_limit k in
      let Tracker := window_at (of_ms NowMS) (default (mkTracker 0 0) (RateLimits m !! KeyID)) in
      if Limit <=? RequestCount Tracker then (set_window KeyID Tracker m, false)
      else (set_window KeyID (mkTracker (WindowStart Tracker) (RequestCount Tracker + 1)) m, true)
  end.

End Crypto.

End ApiKeys.
