(* ===== verification/ApiKeysProps.v ===== *)
(** * Properties of API keys

    Reading undoes writing, so keys survive a restart; the two tables of the
    manager agree in every reachable state, so validation accepts exactly the
    registered, unexpired keys; failed saves are undone; the rate limit admits at
    most its quota per window and recovers. *)

From S2P Require Import Prelude CText MMapFormat ApiKeys.

Module ApiKeysProps.
Import MMapFormat ApiKeys.

(** ** Reading what was written *)

(** The reader returns [a] from the text [w] and leaves what follows. *)

Definition reads {A} (r : reader A) (w : bytes) (a : A) : Prop := forall rest, r (w ++ rest) = Some (a, rest).

Lemma reads_bind {A B} (m : reader A) (f : A -> reader B) w w' a b :
  reads m w a -> reads (f a) w' b -> reads (rbind m f) (w ++ w') b.
Proof. intros Hm Hf rest. unfold rbind. rewrite <- app_assoc, Hm. apply Hf. Qed.

Lemma reads_last {A B} (m : reader A) (f : A -> reader B) w a b :
  reads m w a -> reads (f a) [] b -> reads (rbind m f) w b.
Proof. intros Hm Hf. rewrite <- (app_nil_r w). by eapply reads_bind. Qed.

Lemma reads_ret {A} (a : A) : reads (rret a) [] a.
Proof. by intros rest. Qed.

Lemma reads_guard {B} b (f : unit -> reader B) w x : b = true -> reads (f tt) w x -> reads (rbind (rguard b) f) w x.
Proof. intros -> H rest. apply H. Qed.

Lemma reads_bytes n w : length w = n -> reads (ReadBytes n) w w.
Proof.
  intros <- rest. unfold ReadBytes. rewrite length_app. destruct (Nat.ltb_spec (length w + length rest) (length w)); [lia|].
  by rewrite take_app_length, drop_app_length.
Qed.

Lemma reads_unsigned n v : 0 <= v < 2 ^ (8 * Z.of_nat n) -> reads (ReadUnsigned n) (le n v) v.
Proof.
  intros Hv. eapply reads_last; [apply reads_bytes, length_le|]. rewrite of_le_small by done. apply reads_ret.
Qed.

Definition in_signed (n : nat) (v : Z) : Prop := - 2 ^ (8 * Z.of_nat n - 1) <= v < 2 ^ (8 * Z.of_nat n - 1).

Lemma reads_signed n v : (0 < n)%nat -> in_signed n v -> reads (ReadSigned n) (le n v) v.
Proof.
  intros Hn Hv. unfold in_signed in Hv. set (w := 8 * Z.of_nat n) in *.
  assert (Hw : 2 ^ w = 2 * 2 ^ (w - 1)) by (rewrite <- Z.pow_succ_r by lia; f_equal; lia).
  eapply reads_last; [eapply reads_last; [apply reads_bytes, length_le|apply reads_ret]|].
  rewrite of_le_le. fold w.
  assert (He : signed n (v mod 2 ^ w) = v); [|rewrite He; apply reads_ret].
  unfold signed. fold w. destruct (decide (0 <= v)).
  - rewrite Z.mod_small by lia. destruct (Z.ltb_spec v (2 ^ (w - 1))); lia.
  - rewrite <- (Z.mod_unique v (2 ^ w) (-1) (v + 2 ^ w)) by lia.
    destruct (Z.ltb_spec (v + 2 ^ w) (2 ^ (w - 1))); lia.
Qed.

Lemma reads_bool b : reads ReadBool (write_bool b) b.
Proof. by destruct b. Qed.

Lemma u32_small z : 0 <= z < 2 ^ 32 -> u32 z = z.
Proof. apply Z.mod_small. Qed.

Lemma reads_string Max s : size s <= Max -> Max < 2 ^ 32 -> reads (ReadString Max) (WriteString s) s.
Proof.
  intros Hs Hm. unfold WriteString, ReadString. assert (0 <= size s) by (unfold size; lia).
  rewrite u32_small by lia. replace (take (Z.to_nat (size s)) s) with s by (unfold size; rewrite take_ge; [done|lia]).
  eapply reads_bind; [apply reads_unsigned; change (8 * Z.of_nat 4) with 32; lia|].
  apply reads_guard; [by apply Z.leb_le|]. apply reads_bytes. unfold size. lia.
Qed.

Lemma ReadString_long Max s rest : Max < size s < 2 ^ 32 -> ReadString Max (WriteString s ++ rest) = None.
Proof.
  intros Hs. assert (0 <= size s) by (unfold size; lia). unfold ReadString, WriteString, rbind.
  rewrite <- app_assoc, u32_small by lia.
  rewrite (reads_unsigned 4) by (change (8 * Z.of_nat 4) with 32; lia).
  unfold rguard. by rewrite (proj2 (Z.leb_gt _ _)) by lia.
Qed.

Lemma reads_items {A} (item : reader A) (w : A -> bytes) (f : A -> A) l :
  Forall (fun a => reads item (w a) (f a)) l -> reads (read_items (length l) item) (mjoin (w <$> l)) (f <$> l).
Proof.
  induction 1 as [|a l Ha _ IH]; [apply reads_ret|]. cbn [length read_items fmap list_fmap mjoin list_join].
  eapply reads_bind; [exact Ha|]. eapply reads_last; [exact IH|apply reads_ret].
Qed.

(** ** Keys in the file *)

Definition storable_scope (p : bytes * CollectionScope) : Prop :=
  size p.1 <= kMaxCollectionNameLen /\ size (elements (Actions p.2)) <= kMaxActionCount /\
  set_Forall (in_signed 4) (Actions p.2) /\ size (EmbeddedFilters p.2) <= kMaxEmbeddedFiltersLen.

(** The lengths the reader accepts and the ranges of the members' types. *)

Definition storable (k : APIKey) : Prop :=
  (size (ID k) <= kMaxKeyIdLen /\ size (KeyHash k) <= kMaxKeyHashLen /\ size (Description k) <= kMaxKeyDescriptionLen) /\
  size (map_to_list (Scopes k)) <= kMaxScopeCount /\ map_Forall (fun c s => storable_scope (c, s)) (Scopes k) /\
  (in_signed 8 (ExpiresAt k) /\ in_signed 4 (RateLimitPerMinute k) /\ in_signed 4 (UseCount k)).

(** A key as the reader makes it: the times of creation and last use are not in
    the file, and a limit that is not positive is the default one. *)

Definition reloaded (NowMS : Z) (k : APIKey) : APIKey :=
  mkKey (ID k) (KeyHash k) (Description k) (Scopes k) (ExpiresAt k) (HasExpiration k) (effective_limit k)
    (AllowHanalyzer k) (of_ms NowMS) (of_ms NowMS) (UseCount k).

Lemma le_u32 v : le 4 (u32 v) = le 4 v.
Proof.
  assert (H : forall n v, le n (v mod 2 ^ (8 * Z.of_nat n)) = le n v).
  { clear v. induction n as [|n IH]; intros v; cbn [le]; [done|].
    assert (Hp : 2 ^ (8 * Z.of_nat (S n)) = 256 * 2 ^ (8 * Z.of_nat n)).
    { replace (8 * Z.of_nat (S n)) with (8 + 8 * Z.of_nat n) by lia. by rewrite Z.pow_add_r by lia. }
    rewrite Hp, Z.rem_mul_r by lia. f_equal.
    - apply code_inj. rewrite !code_chr, (Z.mul_comm 256), Z_mod_plus_full. apply Z.mod_mod. lia.
    - rewrite <- (IH (v / 256)). f_equal. rewrite (Z.mul_comm 256), Z.div_add by lia.
      by rewrite (Z.div_small (v mod 256)) by (apply Z.mod_pos_bound; lia). }
  apply (H 4%nat).
Qed.

Lemma size_to_nat {A} (l : list A) : Z.to_nat (size l) = length l.
Proof. unfold size. lia. Qed.

Lemma size_nonneg {A} (l : list A) : 0 <= size l.
Proof. unfold size. lia. Qed.

Lemma reads_scope p : storable_scope p -> reads read_scope (write_scope p) p.
Proof.
  destruct p as [c [acts fs]]. intros (Hc & Hn & Ha & Hf). cbn [fst snd Actions EmbeddedFilters] in *.
  pose proof (size_nonneg (elements acts)). unfold read_scope, write_scope. cbn [fst snd Actions EmbeddedFilters].
  eapply reads_bind; [apply reads_string; [exact Hc|done]|].
  eapply reads_bind; [apply reads_unsigned; rewrite u32_small; unfold kMaxActionCount in *; change (8 * Z.of_nat 4) with 32; lia|].
  rewrite u32_small by (unfold kMaxActionCount in *; lia).
  apply reads_guard; [by apply Z.leb_le|]. rewrite size_to_nat.
  eapply reads_bind.
  { apply (reads_items (ReadSigned 4) (fun a => le 4 (u32 a)) id). apply Forall_forall. intros a Hin.
    rewrite le_u32. apply reads_signed; [lia|]. apply Ha, elem_of_elements, Hin. }
  eapply reads_last; [apply reads_string; [exact Hf|done]|]. rewrite list_fmap_id, list_to_set_elements_L. apply reads_ret.
Qed.

Lemma put_scopes_spec l : NoDup l.*1 -> put_scopes l = list_to_map l.
Proof.
  unfold put_scopes. intros Hd.
  enough (H : forall m, (forall p, p ∈ l -> m !! p.1 = None) ->
    foldl (fun (m : gmap bytes CollectionScope) p => <[p.1 := p.2]> m) m l = list_to_map l ∪ m).
  { rewrite H; [apply map_union_empty|]. intros. apply lookup_empty. }
  induction l as [|[c s] l IH]; intros m Hm; cbn [foldl list_to_map foldr]; [by rewrite map_empty_union|].
  cbn [fmap list_fmap] in Hd. apply NoDup_cons in Hd as [Hc Hd]. rewrite (IH Hd).
  - cbn [fst snd]. rewrite <- insert_union_l, insert_union_r; [done|].
    apply not_elem_of_list_to_map_1. exact Hc.
  - intros p Hp. cbn [fst snd]. rewrite lookup_insert_ne; [apply Hm; by right|].
    intros Heq. cbn in Heq. apply Hc. apply list_elem_of_fmap. exists p. done.
Qed.

Lemma put_scopes_map (m : gmap bytes CollectionScope) : put_scopes (map_to_list m) = m.
Proof. rewrite put_scopes_spec by apply NoDup_fst_map_to_list. apply list_to_map_to_list. Qed.

Lemma reads_key NowMS k : storable k -> reads (read_key NowMS) (write_key k) (reloaded NowMS k).
Proof.
  intros ((H1 & H2 & H3) & Hn & Hs & H4 & H5 & H6). pose proof (size_nonneg (map_to_list (Scopes k))).
  unfold read_key, write_key. unfold kMaxScopeCount in *.
  eapply reads_bind; [apply reads_string; [exact H1|done]|].
  eapply reads_bind; [apply reads_string; [exact H2|done]|].
  eapply reads_bind; [apply reads_string; [exact H3|done]|].
  eapply reads_bind; [apply reads_unsigned; rewrite u32_small; change (8 * Z.of_nat 4) with 32; lia|].
  rewrite u32_small by lia. apply reads_guard; [by apply Z.leb_le|]. rewrite size_to_nat.
  eapply reads_bind.
  { apply (reads_items read_scope write_scope id). apply Forall_forall. intros [c s] Hin%elem_of_map_to_list.
    apply reads_scope. exact (Hs _ _ Hin). }
  rewrite list_fmap_id.
  eapply reads_bind; [apply reads_bool|].
  eapply reads_bind; [apply reads_signed; [lia|exact H4]|].
  eapply reads_bind; [apply reads_signed; [lia|exact H5]|].
  eapply reads_bind; [apply reads_bool|].
  eapply reads_last; [apply reads_signed; [lia|exact H6]|]. rewrite put_scopes_map. apply reads_ret.
Qed.

Lemma load_keys_written NowMS l rest m :
  Forall storable l ->
  load_keys NowMS (length l) (mjoin (write_key <$> l) ++ rest) m =
  (foldl (fun m k => add_key k m) m (reloaded NowMS <$> l), true).
Proof.
  intros Hl. revert m. induction Hl as [|k l Hk Hl IH]; intros m; [done|].
  cbn [length load_keys fmap list_fmap mjoin list_join foldl].
  rewrite <- app_assoc, (reads_key NowMS k Hk). apply IH.
Qed.

(** ** The tables agree *)

(** Every key is filed under its identifier and indexed by its hash, and every
    index entry leads to the key with that hash. *)

Definition index_ok (m : Manager) : Prop :=
  (forall id k, Keys m !! id = Some k -> ID k = id /\ HashToID m !! KeyHash k = Some id) /\
  (forall h id, HashToID m !! h = Some id -> exists k, Keys m !! id = Some k /\ KeyHash k = h).

Definition same_tables (m m' : Manager) : Prop := Keys m' = Keys m /\ HashToID m' = HashToID m.

Lemma index_ok_same m m' : same_tables m m' -> index_ok m -> index_ok m'.
Proof. intros [H1 H2] [Ha Hb]. split; rewrite H1, H2; assumption. Qed.

Lemma index_ok_add k m :
  Keys m !! ID k = None -> HashToID m !! KeyHash k = None -> index_ok m -> index_ok (add_key k m).
Proof.
  intros Hk Hh [Ha Hb]. split; cbn [add_key set_tables Keys HashToID].
  - intros id k'. rewrite lookup_insert_Some. intros [[<- <-]|[Hne H]]; [by rewrite lookup_insert_eq|].
    apply Ha in H as [H1 H2]. split; [done|]. rewrite lookup_insert_ne; [done|]. congruence.
  - intros h id. rewrite lookup_insert_Some. intros [[<- <-]|[Hne H]].
    + exists k. by rewrite lookup_insert_eq.
    + apply Hb in H as (k' & H1 & H2). exists k'. rewrite lookup_insert_ne; [done|]. congruence.
Qed.

(** One key in the place of another with the same identifier and hash. *)

Lemma index_ok_replace id k k' m :
  Keys m !! id = Some k -> ID k' = ID k -> KeyHash k' = KeyHash k -> index_ok m ->
  index_ok (set_tables (<[id := k']> (Keys m)) (HashToID m) m).
Proof.
  intros Hk Hi Hh [Ha Hb]. split; cbn [set_tables Keys HashToID].
  - intros id' k1. rewrite lookup_insert_Some. intros [[<- <-]|[_ H]]; [|by apply Ha].
    rewrite Hi, Hh. by apply Ha.
  - intros h id' H. apply Hb in H as (k1 & H1 & H2).
    destruct (decide (id' = id)) as [->|Hne]; [|exists k1; by rewrite lookup_insert_ne].
    exists k'. rewrite lookup_insert_eq. simplify_eq. done.
Qed.

Lemma index_ok_delete id k m :
  Keys m !! id = Some k -> index_ok m ->
  index_ok (set_tables (delete id (Keys m)) (delete (KeyHash k) (HashToID m)) m).
Proof.
  intros Hk [Ha Hb]. destruct (Ha _ _ Hk) as [Hi Hh]. split; cbn [set_tables Keys HashToID].
  - intros id' k'. rewrite lookup_delete_Some. intros [Hne H]. destruct (Ha _ _ H) as [H1 H2].
    split; [done|]. rewrite lookup_delete_ne; [done|]. congruence.
  - intros h id'. rewrite lookup_delete_Some. intros [Hne H]. destruct (Hb _ _ H) as (k' & H1 & H2).
    exists k'. rewrite lookup_delete_ne; [done|]. intros ->. congruence.
Qed.

Section Ops.
Variable sha256 : bytes -> bytes.
Variable aes_encrypt aes_decrypt : bytes -> bytes -> bytes -> option bytes.
Variable environment : option bytes.

Abbreviation HashKey := (HashKey sha256).
Abbreviation ValidateKey := (ValidateKey sha256).
Abbreviation CreateKey := (CreateKey sha256 aes_encrypt environment).
Abbreviation DeleteKey := (DeleteKey sha256 aes_encrypt environment).
Abbreviation UpdateKey := (UpdateKey sha256 aes_encrypt environment).
Abbreviation persist := (persist sha256 aes_encrypt environment).
Abbreviation SaveKeysToEncryptedFile := (SaveKeysToEncryptedFile sha256 aes_encrypt environment).
Abbreviation Initialize := (Initialize sha256 aes_decrypt environment).

(** A save leaves the tables, with the file written or, when it throws, as it was; or
    the change is undone. It never touches the rest. *)

Lemma persist_cases io undo m :
  (exists file, persist io undo m = (mkManager (Keys m) (HashToID m) (RateLimits m) (Some file), Some true)) \/
  persist io undo m = (undo m, Some false) \/ persist io undo m = (m, None).
Proof. unfold ApiKeys.persist. destr_goal; eauto. Qed.

(** The identifier a new key gets. *)

Definition created_id (RandomID : bytes) (spec : APIKey) : bytes :=
  if bool_decide (ID spec = []) then Hex RandomID else ID spec.

(** The random bytes collide with nothing. *)

Definition fresh (RandomKey RandomID : bytes) (spec : APIKey) (m : Manager) : Prop :=
  Keys m !! created_id RandomID spec = None /\ HashToID m !! HashKey (Hex RandomKey) = None.

Lemma undo_create_fresh k m :
  Keys m !! ID k = None -> HashToID m !! KeyHash k = None ->
  same_tables m (undo_create (ID k) (KeyHash k) (add_key k m)).
Proof.
  intros Hk Hh. unfold undo_create, add_key. cbn [set_tables Keys HashToID].
  rewrite lookup_insert_eq, bool_decide_eq_true_2 by done.
  split; cbn [set_tables Keys HashToID]; rewrite delete_insert_eq, delete_id; done.
Qed.

Lemma undo_delete id k m :
  Keys m !! id = Some k -> index_ok m ->
  same_tables m (add_key k (set_tables (delete id (Keys m)) (delete (KeyHash k) (HashToID m)) m)).
Proof.
  intros Hk [Ha _]. destruct (Ha _ _ Hk) as [Hi Hh]. unfold add_key. cbn [set_tables Keys HashToID]. rewrite Hi.
  split; cbn [Keys HashToID]; by apply insert_delete_id.
Qed.

Lemma undo_update_same id k k' m :
  Keys m !! id = Some k -> index_ok m ->
  same_tables m (undo_update id k (set_tables (<[id := k']> (Keys m)) (HashToID m) m)).
Proof.
  intros Hk [Ha _]. destruct (Ha _ _ Hk) as [Hi Hh]. unfold undo_update. cbn [set_tables Keys HashToID].
  split; cbn [Keys HashToID]; [rewrite insert_insert_eq|]; by apply insert_id.
Qed.

(** The three writing operations: done and saved; as if not called; or done, not saved,
    and ended by an exception. *)

Lemma CreateKey_cases io rk ri spec m :
  fresh rk ri spec m ->
  let k := set_identity (created_id ri spec) (HashKey (Hex rk)) spec in
  let r := CreateKey io rk ri spec m in
  (same_tables (add_key k m) r.1 /\ r.2 = (created_id ri spec, Some (Hex rk))) \/
  (same_tables m r.1 /\ r.2 = (created_id ri spec, Some [])) \/
  (r.1 = add_key k m /\ r.2 = (created_id ri spec, None)).
Proof.
  intros [H1 H2] k. unfold ApiKeys.CreateKey. fold (created_id ri spec).
  destruct (persist_cases io (undo_create (created_id ri spec) (HashKey (Hex rk))) (add_key k m)) as [[file He]|[He|He]];
    fold k; rewrite He; cbn [fst snd fmap option_fmap option_map]; [by left|right; left|by right; right].
  split; [|done]. apply (undo_create_fresh k); done.
Qed.

Lemma DeleteKey_cases io id k m :
  Keys m !! id = Some k -> index_ok m ->
  let r := DeleteKey io id m in
  (r.2 = Some true /\ Keys r.1 = delete id (Keys m) /\ HashToID r.1 = delete (KeyHash k) (HashToID m) /\
   RateLimits r.1 = delete id (RateLimits m)) \/
  (r.2 = Some false /\ same_tables m r.1) \/
  (r.2 = None /\ r.1 = set_tables (delete id (Keys m)) (delete (KeyHash k) (HashToID m)) m).
Proof.
  intros Hk Hm. unfold ApiKeys.DeleteKey. rewrite Hk.
  destruct (persist_cases io (add_key k) (set_tables (delete id (Keys m)) (delete (KeyHash k) (HashToID m)) m)) as [[file He]|[He|He]];
    rewrite He; cbn [fst snd]; [by left|right; left|by right; right]. split; [done|]. by apply undo_delete.
Qed.

Lemma UpdateKey_cases io id spec k m :
  Keys m !! id = Some k -> index_ok m ->
  let r := UpdateKey io id spec m in
  (r.2 = Some true /\ Keys r.1 = <[id := update_fields spec k]> (Keys m) /\ HashToID r.1 = HashToID m) \/
  (r.2 = Some false /\ same_tables m r.1) \/
  (r.2 = None /\ r.1 = set_tables (<[id := update_fields spec k]> (Keys m)) (HashToID m) m).
Proof.
  intros Hk Hm. unfold ApiKeys.UpdateKey. rewrite Hk.
  destruct (persist_cases io (undo_update id k) (set_tables (<[id := update_fields spec k]> (Keys m)) (HashToID m) m))
    as [[file He]|[He|He]]; rewrite He; cbn [fst snd]; [by left|right; left|by right; right]. split; [done|]. by apply undo_update_same.
Qed.

(** ** Runs *)

Inductive kop :=
| OpCreate (io : Outcome) (RandomKey RandomID : bytes) (spec : APIKey)
| OpDelete (io : Outcome) (id : bytes)
| OpUpdate (io : Outcome) (id : bytes) (spec : APIKey)
| OpUsed (NowMS : Z) (id : bytes)
| OpCheck (NowMS : Z) (id : bytes)
| OpSave (io : Outcome).

Definition kstep (m : Manager) (o : kop) : Manager :=
  match o with
  | OpCreate io rk ri spec => (CreateKey io rk ri spec m).1
  | OpDelete io id => (DeleteKey io id m).1
  | OpUpdate io id spec => (UpdateKey io id spec m).1
  | OpUsed now id => UpdateLastUsed now id m
  | OpCheck now id => (CheckRateLimit now id m).1
  | OpSave io => (SaveKeysToEncryptedFile io m).1
  end.

(** Creations draw random bytes that are not in use. *)

Definition admissible (m : Manager) (o : kop) : Prop :=
  match o with OpCreate _ rk ri spec => fresh rk ri spec m | _ => True end.

(** The states reached from [m0] by operations that all satisfy [P]. *)

Inductive reachable (P : kop -> Prop) (m0 : Manager) : Manager -> Prop :=
| reach_refl : reachable P m0 m0
| reach_step m o : reachable P m0 m -> P o -> admissible m o -> reachable P m0 (kstep m o).

Definition any_op (o : kop) : Prop := True.

Lemma CheckRateLimit_tables now id m : same_tables m (CheckRateLimit now id m).1.
Proof. unfold CheckRateLimit. repeat destr_goal; done. Qed.

Lemma Save_tables io m : same_tables m (SaveKeysToEncryptedFile io m).1.
Proof. unfold ApiKeys.SaveKeysToEncryptedFile. by destr_goal. Qed.

Lemma kstep_index_ok m o : admissible m o -> index_ok m -> index_ok (kstep m o).
Proof.
  intros Ha Hm. destruct o as [io rk ri spec|io id|io id spec|now id|now id|io]; cbn [kstep].
  - destruct (CreateKey_cases io rk ri spec m Ha) as [[Hs _]|[[Hs _]|[Hs _]]]; [|by eapply index_ok_same|rewrite Hs];
      destruct Ha as [H1 H2]; [eapply index_ok_same; [exact Hs|]|]; by apply index_ok_add.
  - destruct (Keys m !! id) as [k|] eqn:E; [|unfold ApiKeys.DeleteKey; by rewrite E].
    destruct (DeleteKey_cases io id k m E Hm) as [(_ & H1 & H2 & _)|[[_ Hs]|[_ Hs]]];
      [|by eapply index_ok_same|rewrite Hs; exact (index_ok_delete _ _ _ E Hm)].
    eapply index_ok_same; [|exact (index_ok_delete _ _ _ E Hm)]. done.
  - destruct (Keys m !! id) as [k|] eqn:E; [|unfold ApiKeys.UpdateKey; by rewrite E].
    destruct (UpdateKey_cases io id spec k m E Hm) as [(_ & H1 & H2)|[[_ Hs]|[_ Hs]]];
      [|by eapply index_ok_same|rewrite Hs; exact (index_ok_replace id k (update_fields spec k) m E eq_refl eq_refl Hm)].
    eapply index_ok_same; [|exact (index_ok_replace id k (update_fields spec k) m E eq_refl eq_refl Hm)]. done.
  - unfold UpdateLastUsed. destruct (Keys m !! id) as [k|] eqn:E; [|done]. by eapply index_ok_replace.
  - eapply index_ok_same; [apply CheckRateLimit_tables|done].
  - eapply index_ok_same; [apply Save_tables|done].
Qed.

Lemma reachable_index_ok P m0 m : index_ok m0 -> reachable P m0 m -> index_ok m.
Proof. induction 2; [done|]. by apply kstep_index_ok; auto. Qed.

Lemma no_keys_index_ok : index_ok no_keys.
Proof. split; intros ??; cbn; by rewrite lookup_empty. Qed.

Lemma started_index_ok m : reachable any_op no_keys m -> index_ok m.
Proof. apply reachable_index_ok, no_keys_index_ok. Qed.

#[local] Hint Resolve started_index_ok : core.

(** C32. Validation is exact. In every state the manager reaches from empty tables,
    with random bytes that are not in use, a token is accepted as the key [k] if
    and only if [k] is registered, its hash is the hash of the token, and it has
    not expired; so no token is accepted for a key that was deleted or never
    created. *)
Theorem ValidateKey_exact m now token k :
  reachable any_op no_keys m ->
  ValidateKey now token m = Some k <->
  GetKey (ID k) m = Some k /\ KeyHash k = HashKey token /\ IsExpired now k = false.
Proof.
  intros Hm%started_index_ok. destruct Hm as [Ha Hb]. unfold ApiKeys.ValidateKey, GetKey. split.
  - destruct (HashToID m !! HashKey token) as [id|] eqn:Eh; [|done].
    destruct (Keys m !! id) as [k'|] eqn:Ek; [|done]. destruct (IsExpired now k') eqn:Ex; [done|].
    intros [= <-]. destruct (Ha _ _ Ek) as [-> _]. destruct (Hb _ _ Eh) as (k1 & H1 & H2). split_and!; congruence.
  - intros (Hk & Hh & Hx). destruct (Ha _ _ Hk) as [_ Hi]. rewrite <- Hh, Hi, Hk, Hx. done.
Qed.

(** The hash of a key that is not indexed stays so until it is created. *)

Definition creates (h : bytes) (o : kop) : Prop :=
  match o with OpCreate _ rk _ _ => HashKey (Hex rk) = h | _ => False end.

Lemma kstep_hash_absent h m o :
  index_ok m -> admissible m o -> ~ creates h o -> HashToID m !! h = None -> HashToID (kstep m o) !! h = None.
Proof.
  intros Hm Ha Hc Hh. destruct o as [io rk ri spec|io id|io id spec|now id|now id|io]; cbn [kstep creates] in *.
  - destruct (CreateKey_cases io rk ri spec m Ha) as [[[_ Hs] _]|[[[_ Hs] _]|[Hs _]]]; rewrite Hs; [|done|];
      cbn; by rewrite lookup_insert_ne.
  - destruct (Keys m !! id) as [k|] eqn:E; [|unfold ApiKeys.DeleteKey; by rewrite E].
    destruct (DeleteKey_cases io id k m E Hm) as [(_ & _ & Hs & _)|[[_ [_ Hs]]|[_ Hs]]]; rewrite Hs; [|done|];
      by apply lookup_delete_None; right.
  - destruct (Keys m !! id) as [k|] eqn:E; [|unfold ApiKeys.UpdateKey; by rewrite E].
    destruct (UpdateKey_cases io id spec k m E Hm) as [(_ & _ & Hs)|[[_ [_ Hs]]|[_ Hs]]]; by rewrite Hs.
  - unfold UpdateLastUsed. by destr_goal.
  - destruct (CheckRateLimit_tables now id m) as [_ Hs]. by rewrite Hs.
  - destruct (Save_tables io m) as [_ Hs]. by rewrite Hs.
Qed.

(** C7. A deleted key stays rejected. Once [DeleteKey] has reported success, every
    token with the hash of the deleted key is refused, in all states reached
    afterwards by operations that do not create a key with the same hash. *)
Theorem deleted_key_rejected m io id k token m' now :
  reachable any_op no_keys m -> GetKey id m = Some k -> HashKey token = KeyHash k ->
  (DeleteKey io id m).2 = Some true ->
  reachable (fun o => ~ creates (KeyHash k) o) (DeleteKey io id m).1 m' ->
  ValidateKey now token m' = None.
Proof.
  intros Hm%started_index_ok Hk Ht Hd Hr.
  assert (H0 : index_ok (DeleteKey io id m).1) by exact (kstep_index_ok m (OpDelete io id) I Hm).
  assert (Hn : HashToID (DeleteKey io id m).1 !! KeyHash k = None).
  { destruct (DeleteKey_cases io id k m Hk Hm) as [(_ & _ & -> & _)|[[He _]|[He _]]]; [apply lookup_delete_eq|congruence..]. }
  unfold ApiKeys.ValidateKey. rewrite Ht. enough (HashToID m' !! KeyHash k = None) as -> by done.
  induction Hr as [|m1 o Hr IH Ho Ha]; [done|]. apply kstep_hash_absent; auto. by eapply reachable_index_ok.
Qed.

(** What an operation that does not name [id] leaves of its key. *)

Definition same_grant (k k' : APIKey) : Prop :=
  ID k' = ID k /\ KeyHash k' = KeyHash k /\ Description k' = Description k /\ Scopes k' = Scopes k /\
  ExpiresAt k' = ExpiresAt k /\ HasExpiration k' = HasExpiration k /\
  RateLimitPerMinute k' = RateLimitPerMinute k /\ AllowHanalyzer k' = AllowHanalyzer k.

Definition spares (id : bytes) (o : kop) : Prop :=
  match o with OpDelete _ id' | OpUpdate _ id' _ => id' <> id | _ => True end.

Lemma same_grant_refl k : same_grant k k.
Proof. by split_and!. Qed.

Lemma same_grant_use now k k' : same_grant k k' -> same_grant k (use_key now k').
Proof. intros H. exact H. Qed.

Lemma kstep_grant id k0 m o k :
  index_ok m -> admissible m o -> spares id o -> Keys m !! id = Some k -> same_grant k0 k ->
  exists k', Keys (kstep m o) !! id = Some k' /\ same_grant k0 k'.
Proof.
  intros Hm Ha Hs Hk Hg.
  destruct o as [io rk ri spec|io id'|io id' spec|now id'|now id'|io]; cbn [kstep spares] in *.
  - destruct (CreateKey_cases io rk ri spec m Ha) as [[[He _] _]|[[[He _] _]|[He _]]]; rewrite He; [|by eauto|];
      (exists k; split; [|done]; cbn; rewrite lookup_insert_ne; [done|]);
      destruct Ha as [Hf _]; cbn [set_identity ID]; congruence.
  - destruct (Keys m !! id') as [k1|] eqn:E; [|unfold ApiKeys.DeleteKey; rewrite E; by eauto].
    destruct (DeleteKey_cases io id' k1 m E Hm) as [(_ & He & _)|[[_ [He _]]|[_ He]]]; rewrite He; [|by eauto|];
      (cbn; rewrite lookup_delete_ne by done; eauto).
  - destruct (Keys m !! id') as [k1|] eqn:E; [|unfold ApiKeys.UpdateKey; rewrite E; by eauto].
    destruct (UpdateKey_cases io id' spec k1 m E Hm) as [(_ & He & _)|[[_ [He _]]|[_ He]]]; rewrite He; [|by eauto|];
      (cbn; rewrite lookup_insert_ne by done; eauto).
  - unfold UpdateLastUsed. destruct (Keys m !! id') as [k1|] eqn:E; [|by eauto]. cbn.
    destruct (decide (id' = id)) as [->|Hne]; [|rewrite lookup_insert_ne by done; by eauto].
    rewrite lookup_insert_eq. simplify_eq. eexists. split; [done|]. by apply same_grant_use.
  - destruct (CheckRateLimit_tables now id' m) as [He _]. rewrite He. eauto.
  - destruct (Save_tables io m) as [He _]. rewrite He. eauto.
Qed.

(** A created key works until it is deleted. When [CreateKey] returns a raw key,
    that key is accepted at any time, with the scopes and limits asked for, in
    all states reached afterwards by operations that neither delete nor update
    it. (An expiry the caller asked for is dropped: the key never expires.) *)
Theorem created_key_accepted m io rk ri spec m' now raw :
  reachable any_op no_keys m -> fresh rk ri spec m ->
  let r := CreateKey io rk ri spec m in
  r.2.2 = Some raw -> raw <> [] ->
  reachable (spares r.2.1) r.1 m' ->
  exists k, ValidateKey now raw m' = Some k /\ ID k = r.2.1 /\ Scopes k = Scopes spec /\
    RateLimitPerMinute k = RateLimitPerMinute spec /\ AllowHanalyzer k = AllowHanalyzer spec /\ HasExpiration k = false.
Proof.
  intros Hm%started_index_ok Hf r Hraw Hne Hr. subst r.
  pose proof (kstep_index_ok m (OpCreate io rk ri spec) Hf Hm) as H0. cbn [kstep] in H0.
  destruct (CreateKey_cases io rk ri spec m Hf) as [[[He1 He2] Heq]|[[_ Heq]|[_ Heq]]]; rewrite Heq in *; cbn [fst snd] in *;
    [injection Hraw as <-|by injection Hraw as <-|done].
  set (k0 := set_identity (created_id ri spec) (HashKey (Hex rk)) spec) in *.
  assert (Hk : exists k, Keys m' !! created_id ri spec = Some k /\ same_grant k0 k).
  { induction Hr as [|m1 o Hr IH Ho Ha].
    - exists k0. rewrite He1. cbn. split; [apply lookup_insert_eq|apply same_grant_refl].
    - destruct IH as (k & Hk & Hg). eapply kstep_grant; [by eapply reachable_index_ok|done..]. }
  pose proof (reachable_index_ok _ _ _ H0 Hr) as [Ha _].
  destruct Hk as (k & Hk & H1 & H2 & _ & H4 & _ & H6 & H7 & H8). exists k.
  destruct (Ha _ _ Hk) as [_ Hh]. rewrite H2 in Hh. unfold ApiKeys.ValidateKey. cbn [k0 set_identity KeyHash] in Hh.
  rewrite Hh, Hk. unfold IsExpired. rewrite H6. cbn [k0 set_identity HasExpiration negb]. by split_and!.
Qed.

(** C33. A reported failure changes no table; an exception does. When creating,
    deleting or updating a key reports failure because the snapshot could not be
    encrypted or the file not be written, or because the key does not exist, the key
    table and the hash index are what they were before the call. When instead the
    directory cannot be created, an exception skips the rollback: the new key is in the
    tables, the deleted one is gone, the updated one has its new fields, and the file is
    the old one. *)
Theorem failed_save_restores m io :
  reachable any_op no_keys m ->
  (forall rk ri spec, fresh rk ri spec m -> rk <> [] ->
     let r := CreateKey io rk ri spec m in
     (r.2.2 = Some [] -> same_tables m r.1) /\
     (r.2.2 = None -> r.1 = add_key (set_identity r.2.1 (HashKey (Hex rk)) spec) m)) /\
  (forall id,
     let r := DeleteKey io id m in
     (r.2 = Some false -> same_tables m r.1) /\
     (r.2 = None -> exists k, GetKey id m = Some k /\
        r.1 = set_tables (delete id (Keys m)) (delete (KeyHash k) (HashToID m)) m)) /\
  (forall id spec,
     let r := UpdateKey io id spec m in
     (r.2 = Some false -> same_tables m r.1) /\
     (r.2 = None -> exists k, GetKey id m = Some k /\
        r.1 = set_tables (<[id := update_fields spec k]> (Keys m)) (HashToID m) m)) /\
  (SaveKeySnapshotToEncryptedFile sha256 aes_encrypt environment io (snapshot (Keys m)) = Thrown -> DirectoryMade io = false).
Proof.
  intros Hm%started_index_ok. split_and!.
  - intros rk ri spec Hf Hne. cbv zeta. destruct (CreateKey_cases io rk ri spec m Hf) as [[_ Heq]|[[Hs Heq]|[Hs Heq]]]; rewrite Heq; cbn [fst snd];
      (split; [intros Hr|intros Hr]); try done. injection Hr as Hr. by destruct rk.
  - intros id. cbv zeta. unfold GetKey. destruct (Keys m !! id) as [k|] eqn:E; [|unfold ApiKeys.DeleteKey; rewrite E; by split].
    destruct (DeleteKey_cases io id k m E Hm) as [[Ht _]|[[Ht Hs]|[Ht Hs]]]; rewrite Ht; (split; intros Hr); try done. by exists k.
  - intros id spec. cbv zeta. unfold GetKey. destruct (Keys m !! id) as [k|] eqn:E; [|unfold ApiKeys.UpdateKey; rewrite E; by split].
    destruct (UpdateKey_cases io id spec k m E Hm) as [[Ht _]|[[Ht Hs]|[Ht Hs]]]; rewrite Ht; (split; intros Hr); try done. by exists k.
  - unfold SaveKeySnapshotToEncryptedFile. case_bool_decide; [done|]. destruct (DirectoryMade io); [|done]. by destruct (FileWritten io).
Qed.

(** ** Restart *)

Lemma add_keys_index_ok l : forall m,
  index_ok m -> NoDup (ID <$> l) -> NoDup (KeyHash <$> l) ->
  (forall k, k ∈ l -> Keys m !! ID k = None /\ HashToID m !! KeyHash k = None) ->
  index_ok (foldl (fun m k => add_key k m) m l) /\
  Keys (foldl (fun m k => add_key k m) m l) = list_to_map ((fun k => (ID k, k)) <$> l) ∪ Keys m.
Proof.
  induction l as [|k l IH]; intros m Hm Hi Hh Hf; cbn [foldl fmap list_fmap] in *.
  { split; [done|]. symmetry. apply (map_empty_union (Keys m)). }
  apply NoDup_cons in Hi as [Hi1 Hi]. apply NoDup_cons in Hh as [Hh1 Hh].
  destruct (Hf k) as [Hk1 Hk2]; [set_solver|].
  destruct (IH (add_key k m)) as [H1 H2]; [by apply index_ok_add|done|done| |].
  - intros k' Hin. destruct (Hf k') as [H1 H2]; [set_solver|]. cbn [add_key set_tables Keys HashToID].
    rewrite !lookup_insert_ne; [done| |]; intros Heq.
    + apply Hh1. rewrite Heq. by apply list_elem_of_fmap; eauto.
    + apply Hi1. rewrite Heq. by apply list_elem_of_fmap; eauto.
  - split; [done|]. rewrite H2. cbn [add_key set_tables Keys list_to_map foldr fst snd].
    rewrite <- insert_union_l, insert_union_r; [done|]. apply not_elem_of_list_to_map_1.
    by rewrite <- list_fmap_compose.
Qed.

(** The keys determine the index. *)

Lemma index_determined m m' (f : APIKey -> APIKey) :
  index_ok m -> index_ok m' -> Keys m' = f <$> Keys m -> (forall k, KeyHash (f k) = KeyHash k) ->
  HashToID m' = HashToID m.
Proof.
  intros [Ha Hb] [Ha' Hb'] Hk Hf. apply map_eq. intros h. apply option_eq. intros id. split; intros H.
  - apply Hb' in H as (k' & Hk' & <-). rewrite Hk, lookup_fmap_Some in Hk'. destruct Hk' as (k & <- & Hk1).
    rewrite Hf. by apply Ha.
  - apply Hb in H as (k & Hk1 & <-). rewrite <- Hf. apply Ha'. by rewrite Hk, lookup_fmap, Hk1.
Qed.

Lemma snapshot_ids m : index_ok m -> ID <$> snapshot (Keys m) = (map_to_list (Keys m)).*1.
Proof.
  intros [Ha _]. unfold snapshot. rewrite <- list_fmap_compose. apply list_fmap_ext.
  intros i [id k] Hin%list_elem_of_lookup_2%elem_of_map_to_list. cbn. by apply Ha.
Qed.

Lemma snapshot_elem m k : k ∈ snapshot (Keys m) -> exists id, Keys m !! id = Some k.
Proof.
  unfold snapshot. intros ([id k'] & -> & Hin%elem_of_map_to_list)%list_elem_of_fmap. eauto.
Qed.

Lemma snapshot_hashes m : index_ok m -> NoDup (KeyHash <$> snapshot (Keys m)).
Proof.
  intros Hm. apply NoDup_fmap_2_strong.
  - intros k k' Hk Hk' Heq. apply snapshot_elem in Hk as [id Hk]. apply snapshot_elem in Hk' as [id' Hk'].
    destruct Hm as [Ha _]. destruct (Ha _ _ Hk) as [_ H1]. destruct (Ha _ _ Hk') as [_ H2]. congruence.
  - apply (NoDup_fmap_1 ID). rewrite snapshot_ids by done. apply NoDup_fst_map_to_list.
Qed.

Lemma reload_snapshot now m m0 :
  index_ok m ->
  let r := foldl (fun m k => add_key k m) (set_tables ∅ ∅ m0) (reloaded now <$> snapshot (Keys m)) in
  Keys r = reloaded now <$> Keys m /\ HashToID r = HashToID m.
Proof.
  intros Hm r. destruct (add_keys_index_ok (reloaded now <$> snapshot (Keys m)) (set_tables ∅ ∅ m0)) as [H1 H2].
  - split; intros ??; cbn; by rewrite lookup_empty.
  - rewrite <- list_fmap_compose. change (ID ∘ reloaded now) with ID. rewrite snapshot_ids by done.
    apply NoDup_fst_map_to_list.
  - rewrite <- list_fmap_compose. change (KeyHash ∘ reloaded now) with KeyHash. by apply snapshot_hashes.
  - intros k _. cbn. by rewrite !lookup_empty.
  - assert (Hk : Keys r = reloaded now <$> Keys m); [|split; [done|by eapply (index_determined m r)]].
    unfold r. rewrite H2. cbn [set_tables Keys]. rewrite map_union_empty, <- list_fmap_compose.
    rewrite <- (list_to_map_to_list (reloaded now <$> Keys m)), map_to_list_fmap. f_equal.
    unfold snapshot. rewrite <- list_fmap_compose. apply list_fmap_ext.
    intros i [id k] Hin%list_elem_of_lookup_2%elem_of_map_to_list. cbn. f_equal. by apply Hm.
Qed.

Lemma load_written_keys now m m0 :
  index_ok m -> map_Forall (fun _ k => storable k) (Keys m) -> size (snapshot (Keys m)) <= kMaxKeyCount ->
  exists r, load_plaintext now (write_snapshot (snapshot (Keys m))) m0 = (r, true) /\
    Keys r = reloaded now <$> Keys m /\ HashToID r = HashToID m.
Proof.
  intros Hm Hs Hc. pose proof (size_nonneg (snapshot (Keys m))). unfold kMaxKeyCount in *.
  unfold load_plaintext, write_snapshot. rewrite u32_small by lia.
  rewrite (reads_unsigned 4 (size (snapshot (Keys m)))) by (change (8 * Z.of_nat 4) with 32; lia).
  destruct (Z.ltb_spec kMaxKeyCount (size (snapshot (Keys m)))); [unfold kMaxKeyCount in *; lia|]. rewrite size_to_nat.
  rewrite <- (app_nil_r (mjoin _)), load_keys_written.
  - eexists. split; [done|]. by apply reload_snapshot.
  - apply Forall_forall. intros k [id Hk]%snapshot_elem. exact (Hs _ _ Hk).
Qed.


(** A description that is too long makes the file unreadable. Nothing limits the
    description of a key when it is created, but the reader refuses more than
    4096 bytes: from a snapshot with such a key, loading fails, and only the keys
    the file lists before it are in the tables. *)
Theorem long_description_unreadable now l1 k l2 m :
  Forall storable l1 -> size (ID k) <= kMaxKeyIdLen -> size (KeyHash k) <= kMaxKeyHashLen ->
  kMaxKeyDescriptionLen < size (Description k) < 2 ^ 32 -> size (l1 ++ k :: l2) <= kMaxKeyCount ->
  load_plaintext now (write_snapshot (l1 ++ k :: l2)) m =
  (foldl (fun m k => add_key k m) (set_tables ∅ ∅ m) (reloaded now <$> l1), false).
Proof.
  intros Hl Hi Hh Hd Hc. pose proof (size_nonneg (l1 ++ k :: l2)). unfold kMaxKeyCount in *.
  unfold load_plaintext, write_snapshot. rewrite u32_small by lia.
  rewrite (reads_unsigned 4 (size (l1 ++ k :: l2))) by (change (8 * Z.of_nat 4) with 32; lia).
  destruct (Z.ltb_spec kMaxKeyCount (size (l1 ++ k :: l2))); [unfold kMaxKeyCount in *; lia|]. rewrite size_to_nat.
  rewrite length_app, fmap_app, join_app. generalize (set_tables ∅ ∅ m). cbn [length].
  induction Hl as [|k1 l1 Hk1 Hl IH]; intros m1; cbn [length Nat.add load_keys fmap list_fmap mjoin list_join foldl app].
  - unfold read_key, write_key, rbind. rewrite <- !app_assoc.
    rewrite (reads_string kMaxKeyIdLen), (reads_string kMaxKeyHashLen) by done.
    by rewrite ReadString_long.
  - rewrite <- !app_assoc, (reads_key now k1 Hk1). apply IH.
    + unfold size in *. rewrite !length_app in *. cbn [length] in *. lia.
    + apply size_nonneg.
    + unfold size, kMaxKeyCount in *. rewrite !length_app in *. cbn [length] in *. lia.
Qed.

End Ops.

(** ** Rate limit *)

(** Calls of [CheckRateLimit] for one key at the given times, with the answers. *)

Fixpoint check_all (ts : list Z) (id : bytes) (m : Manager) : Manager * list bool :=
  match ts with
  | [] => (m, [])
  | t :: ts =>
      let r := CheckRateLimit t id m in
      let rs := check_all ts id r.1 in
      (rs.1, r.2 :: rs.2)
  end.

(** The same on the window alone. *)

Definition window_check (Limit Now : Z) (t : RateLimitTracker) : RateLimitTracker * bool :=
  let t := window_at Now t in
  if Limit <=? RequestCount t then (t, false) else (mkTracker (WindowStart t) (RequestCount t + 1), true).

Fixpoint window_answers (Limit : Z) (ts : list Z) (t : RateLimitTracker) : list bool :=
  match ts with
  | [] => []
  | now :: ts => let r := window_check Limit (of_ms now) t in r.2 :: window_answers Limit ts r.1
  end.

Definition tracker_of (id : bytes) (m : Manager) : RateLimitTracker := default (mkTracker 0 0) (RateLimits m !! id).

Lemma CheckRateLimit_window now id m k :
  Keys m !! id = Some k ->
  let r := CheckRateLimit now id m in
  Keys r.1 = Keys m /\ (tracker_of id r.1, r.2) = window_check (effective_limit k) (of_ms now) (tracker_of id m).
Proof.
  intros Hk. unfold CheckRateLimit, window_check, tracker_of. rewrite Hk.
  destr_goal; cbn [fst snd set_window Keys RateLimits]; by rewrite lookup_insert_eq.
Qed.

Lemma check_all_window ts id m k :
  Keys m !! id = Some k -> (check_all ts id m).2 = window_answers (effective_limit k) ts (tracker_of id m).
Proof.
  revert m. induction ts as [|t ts IH]; intros m Hk; cbn [check_all window_answers snd]; [done|].
  destruct (CheckRateLimit_window t id m k Hk) as [H1 H2]. rewrite <- H2. cbn [fst snd]. f_equal. apply IH. by rewrite H1.
Qed.

Definition in_window (t : RateLimitTracker) (now : Z) : Prop := of_ms now - WindowStart t < minute.

Lemma window_at_stays Now t : Now - WindowStart t < minute -> window_at Now t = t.
Proof.
  intros H. unfold window_at. rewrite (proj2 (Z.leb_gt _ _)); [done|].
  destruct (decide (0 <= Now - WindowStart t)); [rewrite Z.quot_div_nonneg by (unfold minute; lia); apply Z.div_lt_upper_bound; unfold minute in *; lia|].
  enough (Z.quot (Now - WindowStart t) minute <= 0) by lia.
  rewrite <- (Z.opp_involutive (Now - WindowStart t)), Z.quot_opp_l by (unfold minute; lia).
  enough (0 <= Z.quot (- (Now - WindowStart t)) minute) by lia. apply Z.quot_pos; unfold minute; lia.
Qed.

Lemma window_at_restarts Now t : minute <= Now - WindowStart t -> window_at Now t = mkTracker Now 0.
Proof.
  intros H. unfold window_at. rewrite (proj2 (Z.leb_le _ _)); [done|].
  unfold minute in *. rewrite Z.quot_div_nonneg by lia. apply Z.div_le_lower_bound; lia.
Qed.

(** Within a window the first requests up to the limit pass, and no other. *)

Lemma window_answers_inside Limit ts : forall t,
  Forall (in_window t) ts -> 0 <= RequestCount t <= Limit ->
  let free := Z.to_nat (Limit - RequestCount t) in
  window_answers Limit ts t = replicate (min (length ts) free) true ++ replicate (length ts - free) false.
Proof.
  induction ts as [|now ts IH]; intros t Hin Hc free; cbn [window_answers length]; [done|].
  apply Forall_cons in Hin as [Hnow Hin]. unfold window_check. rewrite window_at_stays by done.
  destruct (Z.leb_spec Limit (RequestCount t)).
  - cbn [fst snd]. rewrite (IH t Hin Hc). fold free. assert (free = 0%nat) as -> by lia.
    rewrite !Nat.min_0_r, !Nat.sub_0_r. done.
  - cbn [fst snd]. rewrite IH; [|exact Hin|cbn; lia]. cbn [RequestCount].
    assert (free = S (Z.to_nat (Limit - (RequestCount t + 1)))) as -> by lia. done.
Qed.

Definition passed (l : list bool) : nat := length (base.filter (fun b => b = true) l).

Lemma passed_app a b : passed (a ++ b) = (passed a + passed b)%nat.
Proof. unfold passed. by rewrite filter_app, length_app. Qed.

Lemma passed_replicate b n : passed (replicate n b) = if b then n else 0%nat.
Proof.
  induction n as [|n IH]; [by destruct b|].
  change (replicate (S n) b) with ([b] ++ replicate n b). rewrite passed_app, IH. by destruct b.
Qed.

Lemma window_answers_passed Limit ts t :
  Forall (in_window t) ts -> 0 <= RequestCount t <= Limit -> Z.of_nat (passed (window_answers Limit ts t)) <= Limit - RequestCount t.
Proof.
  intros Hin Hc. rewrite window_answers_inside by done. rewrite passed_app, !passed_replicate. lia.
Qed.

(** In less than a minute a window restarts at most once. *)

Lemma window_answers_minute Limit from ts : forall t,
  Forall (fun now => from <= now < from + 60000) ts -> 0 <= RequestCount t -> 0 < Limit ->
  Z.of_nat (passed (window_answers Limit ts t)) <= (Limit - Z.min Limit (RequestCount t)) + Limit.
Proof.
  induction ts as [|now ts IH]; intros t Hts Hc Hl; cbn [window_answers]; [cbn; lia|].
  apply Forall_cons in Hts as [Hnow Hts]. change (?b :: ?l) with ([b] ++ l). rewrite passed_app.
  destruct (decide (minute <= of_ms now - WindowStart t)) as [Hr|Hr].
  - unfold window_check. rewrite window_at_restarts by done. cbn [RequestCount WindowStart].
    rewrite (proj2 (Z.leb_gt _ _)) by lia. cbn [fst snd].
    pose proof (window_answers_passed Limit ts (mkTracker (of_ms now) (0 + 1))) as Hp. cbn [RequestCount] in Hp.
    change (passed [true]) with 1%nat. enough (Forall (in_window (mkTracker (of_ms now) (0 + 1))) ts) as Hw
      by (specialize (Hp Hw ltac:(lia)); lia).
    eapply Forall_impl; [exact Hts|]. cbn. intros x Hx. unfold in_window, of_ms, minute. cbn. lia.
  - unfold window_check. rewrite window_at_stays by lia. destruct (Z.leb_spec Limit (RequestCount t)); cbn [fst snd].
    + change (passed [false]) with 0%nat. specialize (IH t Hts Hc Hl). lia.
    + change (passed [true]) with 1%nat.
      specialize (IH (mkTracker (WindowStart t) (RequestCount t + 1)) Hts ltac:(cbn; lia) Hl). cbn [RequestCount] in IH. lia.
Qed.

Lemma effective_limit_pos k : 0 < effective_limit k.
Proof. unfold effective_limit. destruct (Z.leb_spec (RateLimitPerMinute k) 0); lia. Qed.

(** C35. The rate limit admits its quota and no more. For a key whose window has run
    out at the time of a request, that request and those within the following
    minute pass in order until the limit is reached, and all further ones are
    refused: a key that waited is never locked out, and one that did not gets
    exactly its limit. *)
Theorem rate_limit_quota m id k t0 ts :
  GetKey id m = Some k -> minute <= of_ms t0 - WindowStart (tracker_of id m) ->
  Forall (fun t => t < t0 + 60000) ts ->
  let Limit := Z.to_nat (effective_limit k) in
  (check_all (t0 :: ts) id m).2 =
  replicate (min (S (length ts)) Limit) true ++ replicate (S (length ts) - Limit) false.
Proof.
  intros Hk Hw Hts Limit. rewrite (check_all_window _ _ _ k Hk). cbn [window_answers].
  pose proof (effective_limit_pos k). unfold window_check. rewrite window_at_restarts by done.
  cbn [RequestCount WindowStart]. rewrite (proj2 (Z.leb_gt _ _)) by lia. cbn [fst snd].
  rewrite window_answers_inside; cbn [RequestCount]; [| |lia].
  - assert (Limit = S (Z.to_nat (effective_limit k - (0 + 1)))) as -> by lia. done.
  - eapply Forall_impl; [exact Hts|]. cbn. intros x Hx. unfold in_window, of_ms, minute. cbn. lia.
Qed.

(** In any stretch of less than a minute, whatever the state of the key's window
    at its start and in whatever order the clock values come, at most twice the
    limit of requests pass. *)
Theorem rate_limit_bound m id k from ts :
  GetKey id m = Some k -> 0 <= RequestCount (tracker_of id m) ->
  Forall (fun t => from <= t < from + 60000) ts ->
  Z.of_nat (passed (check_all ts id m).2) <= 2 * effective_limit k.
Proof.
  intros Hk Hc Hts. rewrite (check_all_window _ _ _ k Hk).
  pose proof (window_answers_minute (effective_limit k) from ts (tracker_of id m) Hts Hc (effective_limit_pos k)). lia.
Qed.

(** ** Concrete runs

    With a digest and a cipher that leave the text as it is. *)

Definition plain_digest (b : bytes) : bytes := b.

Definition plain_cipher (k iv p : bytes) : option bytes := Some p.

Definition a_save : Outcome := mkOutcome (Some #"0123456789abcdef") true true.

Definition a_full_disk : Outcome := mkOutcome (Some #"0123456789abcdef") true false.

Definition no_directory : Outcome := mkOutcome (Some #"0123456789abcdef") false true.

Definition a_spec : APIKey :=
  mkKey [] [] #"reader" {[ #"books" := mkScope {[action_code SEARCH]} #"public:=true" ]} 5 true 2 false 0 0 0.

Definition a_create : kop := OpCreate a_save #"secret" #"id" a_spec.

Definition a_manager : Manager := kstep plain_digest plain_cipher None no_keys a_create.

Lemma a_create_fresh : fresh plain_digest #"secret" #"id" a_spec no_keys.
Proof. split; vm_compute; reflexivity. Qed.

Lemma a_manager_reachable : reachable plain_digest plain_cipher None any_op no_keys a_manager.
Proof. apply reach_step; [apply reach_refl|exact I|exact a_create_fresh]. Qed.

Definition a_key : APIKey := set_identity (Hex #"id") (HashKey plain_digest (Hex #"secret")) a_spec.

Lemma ValidateKey_exact_witness :
  ValidateKey plain_digest 1000 (Hex #"secret") a_manager = Some a_key /\
  GetKey (ID a_key) a_manager = Some a_key.
Proof.
  assert (H : ValidateKey plain_digest 1000 (Hex #"secret") a_manager = Some a_key) by (vm_compute; reflexivity).
  split; [exact H|].
  exact (proj1 (proj1 (ValidateKey_exact plain_digest plain_cipher None a_manager 1000 (Hex #"secret") a_key
    a_manager_reachable) H)).
Defined.

Lemma deleted_key_rejected_witness :
  ValidateKey plain_digest 1000 (Hex #"secret") (DeleteKey plain_digest plain_cipher None a_save (Hex #"id") a_manager).1 = None.
Proof.
  apply (deleted_key_rejected plain_digest plain_cipher None a_manager a_save (Hex #"id") a_key (Hex #"secret")).
  - exact a_manager_reachable.
  - vm_compute. reflexivity.
  - vm_compute. reflexivity.
  - vm_compute. reflexivity.
  - apply reach_refl.
Defined.

Lemma created_key_accepted_witness :
  exists k, ValidateKey plain_digest 1000 (Hex #"secret") (UpdateLastUsed 900 (Hex #"id") a_manager) = Some k /\
    Scopes k = Scopes a_spec.
Proof.
  destruct (created_key_accepted plain_digest plain_cipher None no_keys a_save #"secret" #"id" a_spec
              (UpdateLastUsed 900 (Hex #"id") a_manager) 1000 (Hex #"secret")) as (k & Hv & _ & Hs & _).
  - apply reach_refl.
  - exact a_create_fresh.
  - vm_compute. reflexivity.
  - vm_compute. discriminate.
  - apply (reach_step _ _ _ _ _ _ (OpUsed 900 (Hex #"id"))); [apply reach_refl|exact I|exact I].
  - exists k. split; [exact Hv|exact Hs].
Defined.

Lemma failed_save_restores_witness :
  same_tables a_manager (DeleteKey plain_digest plain_cipher None a_full_disk (Hex #"id") a_manager).1.
Proof.
  destruct (failed_save_restores plain_digest plain_cipher None a_manager a_full_disk a_manager_reachable) as (_ & Hd & _).
  apply (proj1 (Hd (Hex #"id"))). vm_compute. reflexivity.
Defined.

(** A deletion ended by the exception: the key is rejected now, and is back after a
    restart, since the file still has it. *)

Example thrown_delete_returns :
  let r := DeleteKey plain_digest plain_cipher None no_directory (Hex #"id") a_manager in
  r.2 = None /\ ValidateKey plain_digest 1000 (Hex #"secret") r.1 = None /\
  is_Some (ValidateKey plain_digest 1000 (Hex #"secret")
    (Initialize plain_digest plain_cipher None 1000 (mkManager ∅ ∅ ∅ (KeysDat r.1))).1).
Proof. vm_compute. split; [reflexivity|]. split; [reflexivity|]. by eexists. Qed.

Lemma a_manager_storable : map_Forall (fun _ k => storable k) (Keys a_manager).
Proof.
  change (Keys a_manager) with (<[ID a_key := a_key]> (∅ : gmap bytes APIKey)).
  apply map_Forall_insert_2; [|apply map_Forall_empty]. split_and!.
  1-4: vm_compute; discriminate.
  - intros c s Hs. cbn [Scopes a_key set_identity a_spec] in Hs. apply lookup_singleton_Some in Hs as [<- <-].
    split_and!; [vm_compute; discriminate|vm_compute; discriminate| |vm_compute; discriminate].
    intros x Hx. cbn [snd Actions] in Hx. apply elem_of_singleton in Hx. subst x.
    split; vm_compute; [discriminate|reflexivity].
  - split; vm_compute; [discriminate|reflexivity].
  - split; vm_compute; [discriminate|reflexivity].
  - split; vm_compute; [discriminate|reflexivity].
Qed.


Definition verbose_key : APIKey :=
  mkKey #"a" #"b" (replicate 4097 "x"%char) ∅ 0 false 10 false 0 0 0.

Lemma long_description_unreadable_witness :
  load_plaintext 0 (write_snapshot [verbose_key]) no_keys = (no_keys, false).
Proof.
  apply (long_description_unreadable 0 [] verbose_key [] no_keys); [constructor|vm_compute; discriminate..| |vm_compute; discriminate].
  split; vm_compute; reflexivity.
Defined.

Lemma rate_limit_quota_witness :
  (check_all [100000; 100001; 100002] (Hex #"id") a_manager).2 = [true; true; false].
Proof.
  apply (rate_limit_quota a_manager (Hex #"id") a_key 100000 [100001; 100002]).
  - vm_compute. reflexivity.
  - vm_compute. discriminate.
  - repeat constructor.
Defined.

Lemma rate_limit_bound_witness :
  Z.of_nat (passed (check_all [100000; 100001; 100002] (Hex #"id") a_manager).2) <= 4.
Proof.
  apply (rate_limit_bound a_manager (Hex #"id") a_key 100000 [100000; 100001; 100002]).
  - vm_compute. reflexivity.
  - vm_compute. discriminate.
  - repeat constructor; vm_compute; discriminate.
Defined.

End ApiKeysProps.
