(* ===== verification/ScopedSearch.v ===== *)
(** * Searches with a scoped key: src/api/search.cpp, src/api/searchapi.cpp

    How the embedded filters of an API key join the filter of a request, the
    validation of the result, and the filtering of the hits: the composition of
    API keys with the filter language. *)

From S2P Require Import Prelude CText FilterLang FilterLangProps ApiKeys.

Module ScopedSearch.
Import FilterLang FilterLangProps.

(** ** The filter of a scoped request *)

Definition append_embedded (FilterBy EmbeddedFilters : bytes) : bytes :=
  if bool_decide (EmbeddedFilters = []) then FilterBy
  else if bool_decide (FilterBy = []) then EmbeddedFilters
  else #"(" ++ FilterBy ++ #") && (" ++ EmbeddedFilters ++ #")".

(** [None] is acceptance. *)

Definition bad_byte (AllowNewlines : bool) (c : ascii) : bool :=
  ((code c <? 32) || (code c =? 127)) && negb (AllowNewlines && bool_decide (c ∈ [chr 10; chr 13; chr 9])).

Fixpoint scan_input (FieldName : bytes) (AllowNewlines : bool) (Value : bytes) : option bytes :=
  match Value with
  | [] => None
  | c :: r =>
      if code c =? 0 then Some (#"Parameter '" ++ FieldName ++ #"' contains a null byte")
      else if bad_byte AllowNewlines c then Some (#"Parameter '" ++ FieldName ++ #"' contains control characters")
      else scan_input FieldName AllowNewlines r
  end.

Definition ValidateQueryInput (Value : bytes) (MaxBytes : Z) (FieldName : bytes) (AllowNewlines : bool) : option bytes :=
  if MaxBytes <? size Value
  then Some (#"Parameter '" ++ FieldName ++ #"' exceeds maximum size of " ++ to_string MaxBytes ++ #" bytes")
  else scan_input FieldName AllowNewlines Value.

Definition MaxFilterBytes : Z := 8192.

Section Search.
Context {SearchHit Doc : Type} (Document : SearchHit -> Doc)
        (EvaluateFilterCondition : Doc -> FilterCondition -> bool).

(** The hits a request with the filter [FilterBy] and a key whose scope embeds
    [EmbeddedFilters] gets from the raw hits, or the validation error. The outer
    [None] is exhausted fuel. *)

Definition scoped_hits (FilterBy EmbeddedFilters : bytes) (Hits : list SearchHit) : option (result (list SearchHit)) :=
  let f := append_embedded FilterBy EmbeddedFilters in
  match ValidateQueryInput f MaxFilterBytes #"filter_by" false with
  | Some msg => Some (Err msg)
  | None =>
      if bool_decide (f = []) then Some (Ok Hits)
      else Ok <$> ApplyFilters Document EvaluateFilterCondition Hits f
  end.

(** ** Lemmas *)

Lemma filter_text_nonempty l n s : filter_text l n s -> s <> [].
Proof.
  induction 1 as [c s Hc| | |w n s _ _ IH|w n s _ _ IH|n s _ IH|l r s t _ IH _ _|n s _ IH|l r s t _ IH _ _]; try done.
  - intros ->. by apply condition_text_head in Hc as (d & r & H & _).
  - intros [-> ->]%app_nil. done.
  - intros [-> ->]%app_nil. done.
  - intros [-> _]%app_nil. done.
  - intros [-> _]%app_nil. done.
Qed.

Lemma ApplyFilters_text n s Hits :
  filter_text LOr n s ->
  ApplyFilters Document EvaluateFilterCondition Hits s =
  Some (List.filter (fun h => EvaluateExpression EvaluateFilterCondition (Document h) n) Hits).
Proof. intros H. unfold ApplyFilters. by rewrite (Parse_text n s H). Qed.

Lemma space_spaces : spaces #" ".
Proof. repeat constructor. Qed.

Lemma space_blanks : blanks #" ".
Proof. repeat constructor. Qed.

(** The conjunction of two groups. *)

Lemma group_and_group n e u v :
  filter_text LOr n u -> filter_text LOr e v ->
  filter_text LAnd (NAnd n e) ((#"(" ++ u ++ #")") ++ #" && (" ++ v ++ #")").
Proof.
  intros Hu Hv. change (#" && (" ++ v ++ #")") with (#" " ++ #"&&" ++ #" " ++ (#"(" ++ v ++ #")")).
  rewrite (app_assoc _ #" "). apply ft_and; [apply ft_primary, ft_after; [apply space_blanks|]|].
  - by apply ft_group.
  - apply ft_before; [apply space_spaces|]. by apply ft_group.
Qed.

(** ** Properties *)

(** C29. The filter of a scoped key restricts well-formed requests. If the request's
    filter and the key's embedded filter are texts of the filter grammar, and the
    joined text passes the validation of length and characters, the hits are
    exactly those that satisfy both; a request without a filter gets those that
    satisfy the key's. *)
Theorem scoped_filter_restricts n e u v Hits :
  filter_text LOr n u -> filter_text LOr e v ->
  (ValidateQueryInput (append_embedded u v) MaxFilterBytes #"filter_by" false = None ->
   scoped_hits u v Hits =
   Some (Ok (List.filter (fun h => EvaluateExpression EvaluateFilterCondition (Document h) n &&
                                   EvaluateExpression EvaluateFilterCondition (Document h) e) Hits))) /\
  (ValidateQueryInput v MaxFilterBytes #"filter_by" false = None ->
   scoped_hits [] v Hits =
   Some (Ok (List.filter (fun h => EvaluateExpression EvaluateFilterCondition (Document h) e) Hits))).
Proof.
  intros Hu Hv. pose proof (filter_text_nonempty _ _ _ Hu) as Hne. pose proof (filter_text_nonempty _ _ _ Hv) as Hne'.
  unfold scoped_hits, append_embedded. rewrite !(bool_decide_eq_false_2 (v = [])), (bool_decide_eq_false_2 (u = [])) by done.
  rewrite (bool_decide_eq_true_2 ([] = [])) by done. split; intros ->.
  - rewrite bool_decide_eq_false_2 by done.
    rewrite (ApplyFilters_text (NAnd n e)); [done|]. apply ft_conjunction.
    change (#") && (" ++ v ++ #")") with (#")" ++ #" && (" ++ v ++ #")").
    rewrite (app_assoc u), (app_assoc #"("). by apply group_and_group.
  - by rewrite (ApplyFilters_text e).
Qed.

(** The restriction can be escaped. The key's filter is joined to the text of
    the request's, not to its tree: a request whose filter closes the group and
    opens another one behind [||] gets every hit that satisfies the filter of its
    choice, whatever the key's scope demands. *)
Theorem scoped_filter_escaped n e u v Hits :
  filter_text LOr n u -> filter_text LOr e v ->
  ValidateQueryInput (append_embedded (u ++ #") || (" ++ u) v) MaxFilterBytes #"filter_by" false = None ->
  scoped_hits (u ++ #") || (" ++ u) v Hits =
  Some (Ok (List.filter (fun h => EvaluateExpression EvaluateFilterCondition (Document h) n) Hits)).
Proof.
  intros Hu Hv. pose proof (filter_text_nonempty _ _ _ Hv) as Hne.
  unfold scoped_hits, append_embedded. rewrite (bool_decide_eq_false_2 (v = [])) by done.
  rewrite (bool_decide_eq_false_2 (u ++ _ = [])) by (by intros [_ ?]%app_nil). intros ->.
  rewrite bool_decide_eq_false_2 by done. rewrite (ApplyFilters_text (NOr n (NAnd n e))).
  - cbn [fmap option_fmap option_map]. do 2 f_equal. apply filter_ext. intros h. cbn [EvaluateExpression].
    by destruct (EvaluateExpression EvaluateFilterCondition (Document h) n).
  - assert (Hs : #"(" ++ (u ++ #") || (" ++ u) ++ #") && (" ++ v ++ #")" =
      ((#"(" ++ u ++ #")") ++ #" ") ++ #"||" ++ (#" " ++ ((#"(" ++ u ++ #")") ++ #" && (" ++ v ++ #")"))).
    { change #") || (" with (#")" ++ #" " ++ #"||" ++ #" " ++ #"("). by rewrite <- !app_assoc. }
    rewrite Hs. apply ft_or.
    + apply ft_conjunction, ft_primary, ft_after; [apply space_blanks|]. by apply ft_group.
    + change (#" && (" ++ v ++ #")") with (#" " ++ #"&&" ++ #" " ++ (#"(" ++ v ++ #")")).
      rewrite (app_assoc _ #" "), (app_assoc #" "). apply ft_and; [apply ft_primary|].
      * apply ft_before; [apply space_spaces|]. apply ft_after; [apply space_blanks|]. by apply ft_group.
      * apply ft_before; [apply space_spaces|]. by apply ft_group.
Qed.

End Search.

(** ** Two tenants

    Documents are pairs of a tenant and a kind; the conditions compare one of
    the two. *)

Definition a_document : Type := bytes * bytes.

Definition a_condition (d : a_document) (c : FilterCondition) : bool :=
  bool_decide (Value c = if bool_decide (Field c = #"tenant") then d.1 else d.2).

Definition some_hits : list a_document := [(#"a", #"book"); (#"b", #"book"); (#"a", #"film")].

Definition tenant_a : FilterExpressionNode := NCondition (mkCondition #"tenant" #"=" #"a" []).

Definition kind_book : FilterExpressionNode := NCondition (mkCondition #"kind" #"=" #"book" []).

Lemma tenant_a_text : filter_text LOr tenant_a #"tenant:=a".
Proof.
  apply ft_conjunction, ft_primary, ft_condition.
  apply (ct_value #"tenant" #"=" #"=" #"a" [] [] []); try done; repeat constructor.
Qed.

Lemma kind_book_text : filter_text LOr kind_book #"kind:=book".
Proof.
  apply ft_conjunction, ft_primary, ft_condition.
  apply (ct_value #"kind" #"=" #"=" #"book" [] [] []); try done; repeat constructor.
Qed.

Lemma scoped_filter_restricts_witness :
  scoped_hits id a_condition #"kind:=book" #"tenant:=a" some_hits = Some (Ok [(#"a", #"book")]) /\
  scoped_hits id a_condition [] #"tenant:=a" some_hits = Some (Ok [(#"a", #"book"); (#"a", #"film")]).
Proof.
  destruct (scoped_filter_restricts id a_condition kind_book tenant_a #"kind:=book" #"tenant:=a" some_hits
              kind_book_text tenant_a_text) as [H1 H2].
  split; [rewrite H1|rewrite H2]; vm_compute; reflexivity.
Defined.

Lemma scoped_filter_escaped_witness :
  scoped_hits id a_condition #"kind:=book) || (kind:=book" #"tenant:=a" some_hits =
  Some (Ok [(#"a", #"book"); (#"b", #"book")]).
Proof.
  refine (eq_trans (scoped_filter_escaped id a_condition kind_book tenant_a #"kind:=book" #"tenant:=a" some_hits
            kind_book_text tenant_a_text _) _); vm_compute; reflexivity.
Defined.

End ScopedSearch.
