(* ===== verification/UserAuth.v ===== *)
(** * User authentication: src/api/userauth.cpp, include/api/userauth.h

    Users with tokens and passwords, their two tables, the authentication of
    tokens and of HTTP authorisation headers, the users of the configuration and
    the encrypted user file. The regular expressions of the configuration parser
    all have the form [key] equals a quoted text and are one function. Hash tables
    are finite maps; console and log output is left out. The readers of the file
    are those of the API keys, whose code they repeat. *)

From S2P Require Import Prelude CText MMapFormat ApiKeys.

Module UserAuth.
Import MMapFormat.

(** ** Users *)

Inductive UserFlag := USER | ADMIN.

#[global] Instance UserFlag_eq_dec : EqDecision UserFlag.
Proof. solve_decision. Defined.

#[global] Program Instance UserFlag_countable : Countable UserFlag :=
  inj_countable' (fun f => match f with USER => false | ADMIN => true end) (fun b => if b then ADMIN else USER) _.
Next Obligation. by intros []. Qed.

Definition flag_code (f : UserFlag) : Z := match f with USER => 0 | ADMIN => 1 end.

Record User := mkUser {
  Name : bytes;
  Token : bytes;
  Password : bytes;
  Flags : gset UserFlag;
  Description : bytes
}.

Definition HasFlag (u : User) (f : UserFlag) : bool := bool_decide (f ∈ Flags u).

Record Users := mkUsers {
  UsersByToken : gmap bytes User;
  UsersByName : gmap bytes User;
  AuthEnabled : bool
}.

Definition no_users : Users := mkUsers ∅ ∅ false.

Inductive AuthResult := Valid (UserObj : User) | Invalid (ErrorMessage : bytes).

(** ** Base64 *)

Definition Base64Value (c : ascii) : Z :=
  if isupper c then code c - 65
  else if islower c then code c - 97 + 26
  else if isdigit c then code c - 48 + 52
  else if code c =? 43 then 62
  else if code c =? 47 then 63
  else -1.

Definition base64_blank (c : ascii) : bool := bool_decide (c ∈ [" "%char; chr 9; chr 13; chr 10]).

(** [Val] is an [int] whose left shift drops the bits above the thirty-second. *)

Fixpoint base64_loop (Val ValBits : Z) (Output Input : bytes) : option bytes :=
  match Input with
  | [] => Some Output
  | c :: r =>
      if bool_decide (c = "="%char) then Some Output
      else if base64_blank c then base64_loop Val ValBits Output r
      else
        let Decoded := Base64Value c in
        if Decoded <? 0 then None
        else
          let Val := wrap_int32 (wrap_int32 (Z.shiftl Val 6) + Decoded) in
          let ValBits := ValBits + 6 in
          if 0 <=? ValBits
          then base64_loop Val (ValBits - 8) (Output ++ [chr (Z.land (Z.shiftr Val ValBits) 255)]) r
          else base64_loop Val ValBits Output r
  end.

Definition DecodeBase64 (Input : bytes) : option bytes := base64_loop 0 (-8) [] Input.

(** ** Tables *)

Definition index_token (u : User) (m : gmap bytes User) : gmap bytes User :=
  if bool_decide (Token u = []) then m else <[Token u := u]> m.

Definition AddUser (UserObj : User) (s : Users) : Users :=
  mkUsers (index_token UserObj (UsersByToken s)) (<[Name UserObj := UserObj]> (UsersByName s)) (AuthEnabled s).

Definition unindex (u : User) (m : gmap bytes User) : gmap bytes User :=
  if bool_decide (Token u = []) then m else delete (Token u) m.

Definition RemoveUser (name : bytes) (s : Users) : Users * bool :=
  match UsersByName s !! name with
  | None => (s, false)
  | Some u => (mkUsers (unindex u (UsersByToken s)) (delete name (UsersByName s)) (AuthEnabled s), true)
  end.

Definition UpdateUser (UserObj : User) (s : Users) : Users :=
  let tokens :=
    match UsersByName s !! Name UserObj with
    | Some u => unindex u (UsersByToken s)
    | None => UsersByToken s
    end in
  mkUsers (index_token UserObj tokens) (<[Name UserObj := UserObj]> (UsersByName s)) (AuthEnabled s).

Definition GetUser (name : bytes) (s : Users) : option User := UsersByName s !! name.

Definition GetAllUsers (s : Users) : list User := (map_to_list (UsersByName s)).*2.

(** ** Authentication *)

Definition substr_after (prefix s : bytes) : bytes := drop (length prefix) s.

Definition ExtractTokenFromHeader (AuthHeader : bytes) : bytes :=
  if bool_decide (AuthHeader = []) then []
  else if starts_with #"Bearer " AuthHeader then drop 7 AuthHeader
  else if starts_with #"X-API-Key: " AuthHeader then drop 11 AuthHeader
  else AuthHeader.

Section Crypto.
Variable sha256 : bytes -> bytes.

Definition AuthenticateToken (token : bytes) (s : Users) : AuthResult :=
  if bool_decide (token = []) then Invalid #"Empty token provided."
  else
    match UsersByToken s !! token with
    | Some u => Valid u
    | None =>
        match UsersByToken s !! ApiKeys.Hex (sha256 token) with
        | Some u => Valid u
        | None => Invalid #"Invalid token."
        end
    end.

Definition authenticate_password (name password : bytes) (s : Users) : AuthResult :=
  if bool_decide (name = []) || bool_decide (password = []) then Invalid #"Empty basic authentication credentials."
  else
    match UsersByName s !! name with
    | None => Invalid #"Invalid username or password."
    | Some u =>
        if bool_decide (Password u = []) || negb (bool_decide (Password u = password))
        then Invalid #"Invalid username or password." else Valid u
    end.

Definition AuthenticateRequest (AuthHeader : bytes) (s : Users) : AuthResult :=
  if starts_with #"Basic " AuthHeader then
    match DecodeBase64 (drop 6 AuthHeader) with
    | None => Invalid #"Invalid basic authentication encoding."
    | Some Decoded =>
        match find_char (fun c => bool_decide (c = ":"%char)) Decoded with
        | None => Invalid #"Invalid basic authentication payload."
        | Some Separator => authenticate_password (take Separator Decoded) (drop (S Separator) Decoded) s
        end
    end
  else
    let token := ExtractTokenFromHeader AuthHeader in
    if bool_decide (token = []) then Invalid #"No authentication token provided."
    else AuthenticateToken token s.

Definition HasPermission (token : bytes) (RequiredFlag : UserFlag) (s : Users) : bool :=
  match AuthenticateToken token s with
  | Valid u => HasFlag u RequiredFlag
  | Invalid _ => false
  end.

Definition IsAdmin (token : bytes) (s : Users) : bool := HasPermission token ADMIN s.

Definition IsUser (token : bytes) (s : Users) : bool := HasPermission token USER s.

Definition IsValidToken (token : bytes) (s : Users) : bool :=
  match AuthenticateToken token s with Valid _ => true | Invalid _ => false end.

(** ** The handlers of src/api/users.cpp

    A parsed body has the members that are strings; [body_flags] is the result of
    [ParseFlags]. The answer is the status code. [Denied] is the verdict of a
    module's check, [Saved] the outcome of writing the file, which comes after the
    tables have changed. *)

Record UserBody := mkBody {
  body_name : option bytes;
  body_token : option bytes;
  body_flags : option (result (gset UserFlag));
  body_description : option bytes
}.

Definition HandleCreateUser (Body : option UserBody) (Denied : option Z) (RandomToken : bytes) (Saved : bool) (s : Users)
    : Users * Z :=
  match Body with
  | None => (s, 400)
  | Some b =>
      match body_name b with
      | None => (s, 400)
      | Some name =>
          if bool_decide (name = []) then (s, 400)
          else
            match Denied with
            | Some status => (s, status)
            | None =>
                match GetUser name s with
                | Some _ => (s, 409)
                | None =>
                    let given := default [] (body_token b) in
                    let token := if bool_decide (given = []) then ApiKeys.Hex RandomToken else given in
                    if IsValidToken token s then (s, 409)
                    else
                      match default (Ok {[USER]}) (body_flags b) with
                      | Err _ => (s, 400)
                      | Ok flags =>
                          (AddUser (mkUser name token [] flags (default [] (body_description b))) s, if Saved then 201 else 500)
                      end
                end
            end
      end
  end.

Definition HandleDeleteUser (name : bytes) (Denied : option Z) (Saved : bool) (s : Users) : Users * Z :=
  if bool_decide (name = []) then (s, 400)
  else
    match Denied with
    | Some status => (s, status)
    | None =>
        let r := RemoveUser name s in
        if negb r.2 then (s, 404) else (r.1, if Saved then 200 else 500)
    end.

Definition HandleUpdateUser (name : bytes) (Denied : option Z) (Body : option UserBody) (Saved : bool) (s : Users)
    : Users * Z :=
  if bool_decide (name = []) then (s, 400)
  else
    match Denied with
    | Some status => (s, status)
    | None =>
        match GetUser name s with
        | None => (s, 404)
        | Some u =>
            match Body with
            | None => (s, 400)
            | Some b =>
                if negb (bool_decide (default name (body_name b) = name)) then (s, 400)
                else
                  let desc := default (Description u) (body_description b) in
                  match default (Ok (Flags u)) (body_flags b) with
                  | Err _ => (s, 400)
                  | Ok flags =>
                      let given := default [] (body_token b) in
                      let changes := negb (bool_decide (given = [])) && negb (bool_decide (given = Token u)) in
                      if changes && IsValidToken given s then (s, 409)
                      else
                        (UpdateUser (mkUser (Name u) (if changes then given else Token u) (Password u) flags desc) s,
                         if Saved then 200 else 500)
                  end
            end
        end
    end.

End Crypto.

(** ** Configuration *)

Definition is_blank (c : ascii) : bool := bool_decide (c ∈ [" "%char; chr 9]).

Definition lower (s : bytes) : bytes := tolower <$> s.

Definition ParseUserFlag (FlagStr : bytes) : UserFlag :=
  if bool_decide (lower FlagStr = #"user") then USER
  else if bool_decide (lower FlagStr = #"admin") then ADMIN
  else USER.

Definition add_flag (Flags : gset UserFlag) (piece : bytes) : gset UserFlag :=
  let Flag := trim is_blank piece in
  let v := ParseUserFlag Flag in
  if negb (bool_decide (v = USER)) || bool_decide (Flag = #"user") then {[v]} ∪ Flags else Flags.

Definition ParseUserFlags (FlagsStr : bytes) : gset UserFlag := foldl add_flag ∅ (getlines ","%char [] FlagsStr).

(** The first text that the regular expression of [key] matches: the key, an equals
    sign, and a quoted text that is not empty. *)

Definition quote : ascii := chr 34.

Definition attribute_at (key s : bytes) : option bytes :=
  let start := key ++ #"=" ++ [quote] in
  if starts_with start s then
    match span (fun c => negb (bool_decide (c = quote))) (drop (length start) s) with
    | ((_ :: _) as v, _ :: _) => Some v
    | _ => None
    end
  else None.

Fixpoint attribute (key s : bytes) : option bytes :=
  match attribute_at key s with
  | Some v => Some v
  | None => match s with [] => None | _ :: r => attribute key r end
  end.

Definition kMaxUserNameLen : Z := 256.
Definition kMaxUserTokenLen : Z := 1024.
Definition kMaxUserPasswordLen : Z := 1024.
Definition kMaxUserDescLen : Z := 4096.
Definition kMaxUserFlagsCount : Z := 16.
Definition kMaxUsersDatSize : Z := 64 * 1024 * 1024.

(** The name of a user without one: the start of the token. *)

Definition name_of_token (token : bytes) : bytes := take 8 token ++ (if 8 <? size token then #"..." else []).

Definition ParseAuthSetting (Line : bytes) (s : Users) : Users :=
  match attribute #"enabled" Line with
  | Some v => mkUsers (UsersByToken s) (UsersByName s) (bool_decide (lower v = #"true"))
  | None => s
  end.

Definition ParseUserEntry (Line : bytes) (s : Users) : Users * bool :=
  let token := default [] (attribute #"token" Line) in
  let password := default [] (attribute #"password" Line) in
  if bool_decide (token = []) && bool_decide (password = []) then (s, false)
  else
    match (match attribute #"name" Line with
           | Some n => Some n
           | None => if bool_decide (token = []) then None else Some (name_of_token token)
           end) with
    | None => (s, false)
    | Some name =>
        if kMaxUserTokenLen <? size token then (s, false)
        else if kMaxUserPasswordLen <? size password then (s, false)
        else if kMaxUserNameLen <? size name then (s, false)
        else
          match attribute #"flags" Line with
          | None => (s, false)
          | Some FlagsStr =>
              let desc := default [] (attribute #"description" Line) in
              if kMaxUserDescLen <? size desc then (s, false)
              else (AddUser (mkUser name token password (ParseUserFlags FlagsStr) desc) s, true)
          end
    end.

Definition contains (p s : bytes) : bool := bool_decide (is_Some (find_sub p s)).

(** The state of the line loop: the users, the entry being collected, and whether
    one is. *)

Record LineState := mkLine { users : Users; CurrentUserEntry : bytes; InUserEntry : bool }.

Definition finish_entry (entry : bytes) (s : Users) : LineState := mkLine (ParseUserEntry entry s).1 [] false.

Definition config_line (st : LineState) (Line : bytes) : LineState :=
  let s := users st in
  if bool_decide (Line = []) || starts_with #"#" Line || starts_with #"---" Line then st
  else if contains #"<auth" Line then mkLine (ParseAuthSetting Line s) (CurrentUserEntry st) (InUserEntry st)
  else if AuthEnabled s && contains #"<user" Line then
    if contains #">" Line then finish_entry Line s else mkLine s Line true
  else if AuthEnabled s && InUserEntry st then
    let entry := CurrentUserEntry st ++ #" " ++ Line in
    if contains #">" Line then finish_entry entry s else mkLine s entry true
  else st.

(** [None] is a file that cannot be opened. *)

Definition ParseConfigFile (File : option bytes) (s : Users) : Users * bool :=
  match File with
  | None => (s, false)
  | Some text => (users (foldl config_line (mkLine s [] false) (getlines (chr 10) [] text)), true)
  end.

Definition LoadUsersFromConfig (File : option bytes) (s : Users) : Users * bool := ParseConfigFile File s.

(** A [<user>] tag of the main configuration, with the defaults of [GetString]. *)

Record UserTag := mkTag { tag_name : bytes; tag_token : bytes; tag_password : bytes; tag_flags : bytes; tag_description : bytes }.

Definition add_tag (s : Users) (t : UserTag) : Users :=
  if bool_decide (tag_token t = []) && bool_decide (tag_password t = []) then s
  else
    match (if negb (bool_decide (tag_name t = [])) then Some (tag_name t)
           else if negb (bool_decide (tag_token t = [])) then Some (name_of_token (tag_token t))
           else None) with
    | None => s
    | Some name => AddUser (mkUser name (tag_token t) (tag_password t) (ParseUserFlags (tag_flags t)) (tag_description t)) s
    end.

Definition admin_user (AdminToken : bytes) : User :=
  mkUser #"root" AdminToken [] {[ADMIN; USER]} #"Environment-provisioned administrator.".

(** [enabled] is the setting of the [<auth>] tag, [AdminToken] the secret of the
    environment. *)

Definition LoadUsersFromConfigReader (enabled : bool) (UserTags : list UserTag) (AdminToken : bytes) (s : Users)
    : Users * bool :=
  if negb enabled then (mkUsers ∅ ∅ false, true)
  else
    let s := foldl add_tag (mkUsers (UsersByToken s) (UsersByName s) true) UserTags in
    let s :=
      if bool_decide (UsersByToken s = ∅) && negb (bool_decide (AdminToken = [])) then AddUser (admin_user AdminToken) s
      else s in
    (s, negb (bool_decide (UsersByToken s = ∅))).

(** ** The encrypted file *)

Definition flag_list (fs : gset UserFlag) : list UserFlag := base.filter (fun f => f ∈ fs) [USER; ADMIN].

Definition persistable (u : User) : bool :=
  (size (Name u) <=? kMaxUserNameLen) && (size (Token u) <=? kMaxUserTokenLen) &&
  (size (Description u) <=? kMaxUserDescLen) && (size (flag_list (Flags u)) <=? kMaxUserFlagsCount).

Definition write_text (s : bytes) : bytes := le 4 (u32 (size s)) ++ s.

Definition write_user (u : User) : bytes :=
  write_text (Name u) ++ write_text (Token u) ++
  le 4 (u32 (size (flag_list (Flags u)))) ++ mjoin ((fun f => le 4 (flag_code f)) <$> flag_list (Flags u)) ++
  write_text (Description u).

Definition write_users (l : list User) : bytes := le 4 (u32 (size l)) ++ mjoin (write_user <$> l).

Local Notation "x <- m ;; k" := (ApiKeys.rbind m (fun x => k)) (at level 100, m at next level, right associativity).

Definition read_flag : ApiKeys.reader UserFlag :=
  v <- ApiKeys.ReadUnsigned 4 ;;
  _ <- ApiKeys.rguard (v <=? flag_code ADMIN) ;;
  ApiKeys.rret (if v =? 0 then USER else ADMIN).

Definition read_user : ApiKeys.reader User :=
  name <- ApiKeys.ReadString kMaxUserNameLen ;;
  token <- ApiKeys.ReadString kMaxUserTokenLen ;;
  FlagsCount <- ApiKeys.ReadUnsigned 4 ;;
  _ <- ApiKeys.rguard (FlagsCount <=? kMaxUserFlagsCount) ;;
  flags <- ApiKeys.read_items (Z.to_nat FlagsCount) read_flag ;;
  desc <- ApiKeys.ReadString kMaxUserDescLen ;;
  ApiKeys.rret (mkUser name token [] (list_to_set flags) desc).

Fixpoint load_users (count : nat) (text : bytes) (s : Users) : Users * bool :=
  match count with
  | O => (mkUsers (UsersByToken s) (UsersByName s) true, true)
  | S n =>
      match read_user text with
      | None => (s, false)
      | Some (u, rest) => load_users n rest (AddUser u s)
      end
  end.

Section File.
Variable sha256 : bytes -> bytes.
Variable aes_encrypt aes_decrypt : bytes -> bytes -> bytes -> option bytes.

(** The key: the secret of the environment, or the default. *)

Variable Secret : bytes.

Definition GetUsersEncryptionKey : bytes :=
  if bool_decide (Secret = []) then #"hlquery-users-acl-encryption-key-v1" else Secret.

Definition SaveUsersToEncryptedFile (io : ApiKeys.Outcome) (s : Users) : option bytes :=
  if negb (forallb persistable (GetAllUsers s)) then None
  else
    let Encrypted := ApiKeys.AES256Encrypt sha256 aes_encrypt (ApiKeys.RandomIV io) (write_users (GetAllUsers s)) GetUsersEncryptionKey in
    if bool_decide (Encrypted = []) then None
    else if ApiKeys.FileWritten io then Some Encrypted else None.

Definition LoadUsersFromEncryptedFile (File : option bytes) (s : Users) : Users * bool :=
  match File with
  | None => (s, false)
  | Some Encrypted =>
      if size Encrypted <=? 0 then (s, false)
      else if kMaxUsersDatSize <? size Encrypted then (s, false)
      else
        let Plaintext := ApiKeys.AES256Decrypt sha256 aes_decrypt Encrypted GetUsersEncryptionKey in
        if bool_decide (Plaintext = []) then (s, false)
        else
          match ApiKeys.ReadUnsigned 4 Plaintext with
          | None => (s, false)
          | Some (UserCount, rest) =>
              if 10000 <? UserCount then (s, false) else load_users (Z.to_nat UserCount) rest s
          end
  end.

Definition root_user (token : bytes) : User :=
  mkUser #"root" token [] {[ADMIN; USER]} #"System administrator (auto-generated).".

(** The token is printed once; a failed save is only a warning. [None] is an
    exception of [create_directories], with the user already in the tables. *)

Definition CreateRootUser (io : ApiKeys.Outcome) (RandomToken : bytes) (File : option bytes) (s : Users)
    : Users * option (option bytes * bytes) :=
  let token := ApiKeys.Hex RandomToken in
  let u := root_user token in
  let s := mkUsers (<[token := u]> (UsersByToken s)) (<[Name u := u]> (UsersByName s)) true in
  (s, if ApiKeys.DirectoryMade io
      then Some (match SaveUsersToEncryptedFile io s with Some f => Some f | None => File end, token) else None).

(** The sources of users in the order of [Initialize]: the tags of the main
    configuration when it has an [<auth>] tag, users.conf, users.dat. *)

Record UserSources := mkSources {
  ConfigTags : option (bool * list UserTag * bytes);
  UsersConf : option bytes;
  UsersConfExists : bool;
  UsersDat : option bytes;
  UsersDatExists : bool
}.

Definition Initialize (src : UserSources) (s : Users) : Users * bool :=
  match ConfigTags src with
  | Some (enabled, tags, AdminToken) => LoadUsersFromConfigReader enabled tags AdminToken no_users
  | None =>
      let r := if UsersConfExists src then LoadUsersFromConfig (UsersConf src) no_users else (no_users, false) in
      if r.2 then r
      else if UsersDatExists src then LoadUsersFromEncryptedFile (UsersDat src) r.1
      else (mkUsers (UsersByToken r.1) (UsersByName r.1) false, true)
  end.

End File.

End UserAuth.
