(* ===== verification/UserAuthProps.v ===== *)
(** * Properties of user authentication

    Base64 decoding undoes encoding; the tables of users agree in every state
    that the user handlers reach, so that only registered users authenticate; the
    user file keeps everything but the passwords. *)

From S2P Require Import Prelude CText MMapFormat ApiKeys ApiKeysProps UserAuth.

Module UserAuthProps.
Import MMapFormat UserAuth.

(** Linear arithmetic with division by constants. *)

Ltac dlia := Z.div_mod_to_equations; lia.

(** ** Base64 *)

Definition base64_alphabet : bytes := #"ABCDEFGHIJKLMNOPQRSTUVWXYZabcdefghijklmnopqrstuvwxyz0123456789+/".

Definition digit64 (v : Z) : ascii := default NUL (base64_alphabet !! Z.to_nat v).

(** The standard encoding, with padding. *)

Fixpoint encode64 (s : bytes) : bytes :=
  match s with
  | x :: y :: z :: r =>
      let a := code x in let b := code y in let c := code z in
      digit64 (a / 4) :: digit64 (a mod 4 * 16 + b / 16) :: digit64 (b mod 16 * 4 + c / 64) :: digit64 (c mod 64) :: encode64 r
  | [x; y] =>
      let a := code x in let b := code y in
      [digit64 (a / 4); digit64 (a mod 4 * 16 + b / 16); digit64 (b mod 16 * 4); "="%char]
  | [x] => let a := code x in [digit64 (a / 4); digit64 (a mod 4 * 16); "="%char; "="%char]
  | [] => []
  end.

Definition good_digit (v : Z) : bool :=
  let c := digit64 v in (Base64Value c =? v) && negb (bool_decide (c = "="%char)) && negb (base64_blank c).

Lemma digit64_good v : 0 <= v < 64 -> good_digit v = true.
Proof.
  intros Hv. assert (H : forallb (fun n => good_digit (Z.of_nat n)) (seq 0 64) = true) by (vm_compute; reflexivity).
  rewrite forallb_forall in H. specialize (H (Z.to_nat v)). rewrite Z2Nat.id in H by lia. apply H. apply in_seq. lia.
Qed.

(** One digit shifts six bits in; only the bits below matter. *)

Definition shift_in (Val v : Z) : Z := wrap_int32 (wrap_int32 (Z.shiftl Val 6) + v).

Lemma wrap_int32_mod z k : 0 <= k <= 32 -> wrap_int32 z mod 2 ^ k = z mod 2 ^ k.
Proof.
  intros Hk. unfold wrap_int32. assert (Hp : 2 ^ 32 = 2 ^ (32 - k) * 2 ^ k) by (rewrite <- Z.pow_add_r by lia; f_equal; lia).
  assert (0 < 2 ^ k) by lia.
  rewrite (Z.mod_eq (z + 2 ^ 31) (2 ^ 32)), Hp by lia.
  replace (z + 2 ^ 31 - 2 ^ (32 - k) * 2 ^ k * ((z + 2 ^ 31) / (2 ^ (32 - k) * 2 ^ k)) - 2 ^ 31)
    with (z + (- (2 ^ (32 - k) * ((z + 2 ^ 31) / (2 ^ (32 - k) * 2 ^ k)))) * 2 ^ k) by ring.
  apply Z_mod_plus_full.
Qed.

Lemma shift_in_mod Val v k : 0 <= k <= 32 -> shift_in Val v mod 2 ^ k = (Val * 64 + v) mod 2 ^ k.
Proof.
  intros Hk. unfold shift_in. rewrite wrap_int32_mod by done.
  rewrite Z.add_mod, wrap_int32_mod, <- Z.add_mod by lia. by rewrite Z.shiftl_mul_pow2 by lia.
Qed.

Lemma base64_digit Val Bits Out v r :
  0 <= v < 64 ->
  base64_loop Val Bits Out (digit64 v :: r) =
  if 0 <=? Bits + 6
  then base64_loop (shift_in Val v) (Bits + 6 - 8) (Out ++ [chr (Z.land (Z.shiftr (shift_in Val v) (Bits + 6)) 255)]) r
  else base64_loop (shift_in Val v) (Bits + 6) Out r.
Proof.
  intros Hv. pose proof (digit64_good v Hv) as H. unfold good_digit in H.
  apply andb_true_iff in H as [[H1%Z.eqb_eq H2]%andb_true_iff H3].
  cbn [base64_loop]. apply negb_true_iff in H2. apply negb_true_iff in H3. rewrite H2, H3, H1.
  destruct (Z.ltb_spec v 0); [lia|]. done.
Qed.

(** What the register holds below bit [j]. *)

Definition holds (Val j n : Z) : Prop := Val mod 2 ^ j = n.

Lemma holds_start Val : holds Val 0 0.
Proof. apply Z.mod_1_r. Qed.

Lemma shift_in_holds Val j n v :
  0 <= j <= 26 -> 0 <= v < 64 -> holds Val j n -> holds (shift_in Val v) (j + 6) (n * 64 + v).
Proof.
  unfold holds. intros Hj Hv <-. rewrite shift_in_mod by lia. rewrite Z.pow_add_r by lia. change (2 ^ 6) with 64.
  pose proof (Z.mod_pos_bound Val (2 ^ j) ltac:(lia)). pose proof (Z.div_mod Val (2 ^ j) ltac:(lia)) as Hd.
  symmetry. apply Z.mod_unique_pos with (Val / 2 ^ j); [nia|]. rewrite Hd at 1. ring.
Qed.

Lemma byte_out Val j k n :
  0 <= k -> k + 8 <= j -> holds Val j n -> chr (Z.land (Z.shiftr Val k) 255) = chr (n / 2 ^ k).
Proof.
  unfold holds. intros Hk Hj <-. apply code_inj. rewrite !code_chr. change 255 with (Z.ones 8).
  rewrite Z.land_ones, Z.shiftr_div_pow2 by lia. change (2 ^ 8) with 256. rewrite Z.mod_mod by lia.
  rewrite (Z.div_mod Val (2 ^ j)) at 1 by lia.
  replace (2 ^ j) with (2 ^ (j - k - 8) * 256 * 2 ^ k) at 1
    by (change 256 with (2 ^ 8); rewrite <- !Z.pow_add_r by lia; f_equal; lia).
  replace (2 ^ (j - k - 8) * 256 * 2 ^ k * (Val / 2 ^ j) + Val mod 2 ^ j)
    with (Val mod 2 ^ j + (2 ^ (j - k - 8) * (Val / 2 ^ j) * 256) * 2 ^ k) by ring.
  rewrite Z.div_add by lia. apply Z_mod_plus_full.
Qed.

Lemma chr_is z x : z mod 256 = code x -> chr z = x.
Proof. intros H. apply code_inj. by rewrite code_chr. Qed.

(** Groups of four digits. *)

Lemma decode_two Val a b :
  0 <= a < 64 -> 0 <= b < 64 ->
  exists Val', holds Val' 12 (a * 64 + b) /\ forall Out r,
    base64_loop Val (-8) Out (digit64 a :: digit64 b :: r) = base64_loop Val' (-4) (Out ++ [chr ((a * 64 + b) / 16)]) r.
Proof.
  intros Ha Hb.
  pose proof (shift_in_holds _ 0 0 a ltac:(lia) Ha (holds_start Val)) as H1.
  pose proof (shift_in_holds _ 6 _ b ltac:(lia) Hb H1) as H2. eexists. split; [exact H2|]. intros Out r. rewrite !base64_digit by done.
  do 2 f_equal. f_equal. exact (byte_out _ 12 4 _ ltac:(lia) ltac:(lia) H2).
Qed.

Lemma decode_third Val n c :
  0 <= c < 64 -> holds Val 12 n ->
  exists Val', holds Val' 18 (n * 64 + c) /\ forall Out r,
    base64_loop Val (-4) Out (digit64 c :: r) = base64_loop Val' (-6) (Out ++ [chr ((n * 64 + c) / 4)]) r.
Proof.
  intros Hc Hn.
  pose proof (shift_in_holds _ 12 _ c ltac:(lia) Hc Hn) as H. eexists. split; [exact H|]. intros Out r. rewrite base64_digit by done.
  do 2 f_equal. f_equal. exact (byte_out _ 18 2 _ ltac:(lia) ltac:(lia) H).
Qed.

Lemma decode_fourth Val n d :
  0 <= d < 64 -> holds Val 18 n ->
  exists Val', forall Out r, base64_loop Val (-6) Out (digit64 d :: r) = base64_loop Val' (-8) (Out ++ [chr (n * 64 + d)]) r.
Proof.
  intros Hd Hn.
  pose proof (shift_in_holds _ 18 _ d ltac:(lia) Hd Hn) as H.
  apply (byte_out _ 24 0) in H; [|lia|lia]. rewrite Z.div_1_r in H. eexists. intros Out r. rewrite base64_digit by done.
  change (-6 + 6) with 0. by rewrite H.
Qed.

(** Base64 decoding undoes the standard encoding: the credentials of a Basic
    authorisation header are read as they were sent, for every text. *)
Theorem base64_roundtrip s : DecodeBase64 (encode64 s) = Some s.
Proof.
  unfold DecodeBase64. enough (H : forall Val Out, base64_loop Val (-8) Out (encode64 s) = Some (Out ++ s)) by apply H.
  induction s as [s IH] using list_len_ind. intros Val Out.
  destruct s as [|x [|y [|z r]]]; cbn [encode64].
  - by rewrite app_nil_r.
  - pose proof (code_range x).
    destruct (decode_two Val (code x / 4) (code x mod 4 * 16) ltac:(dlia) ltac:(dlia)) as (V & _ & ->).
    cbn. do 3 f_equal. apply chr_is. dlia.
  - pose proof (code_range x). pose proof (code_range y).
    destruct (decode_two Val (code x / 4) (code x mod 4 * 16 + code y / 16) ltac:(dlia) ltac:(dlia)) as (V & Hv & ->).
    destruct (decode_third V _ (code y mod 16 * 4) ltac:(dlia) Hv) as (V' & _ & ->).
    cbn. rewrite <- app_assoc. cbn. do 3 f_equal; [apply chr_is; dlia|]. f_equal. apply chr_is. dlia.
  - pose proof (code_range x). pose proof (code_range y). pose proof (code_range z).
    destruct (decode_two Val (code x / 4) (code x mod 4 * 16 + code y / 16) ltac:(dlia) ltac:(dlia)) as (V & Hv & ->).
    destruct (decode_third V _ (code y mod 16 * 4 + code z / 64) ltac:(dlia) Hv) as (V' & Hv' & ->).
    destruct (decode_fourth V' _ (code z mod 64) ltac:(dlia) Hv') as (V'' & ->).
    rewrite (IH r) by (cbn; lia). rewrite <- !app_assoc. cbn. do 3 f_equal; [apply chr_is; dlia|].
    do 2 f_equal; [apply chr_is; dlia|]. f_equal. apply chr_is. dlia.
Qed.

(** ** The tables agree *)

Record users_ok (s : Users) : Prop := {
  by_token : forall t u, UsersByToken s !! t = Some u -> t <> [] /\ Token u = t /\ UsersByName s !! Name u = Some u;
  by_name : forall n u, UsersByName s !! n = Some u -> Name u = n /\ (Token u <> [] -> UsersByToken s !! Token u = Some u)
}.

Lemma no_users_ok : users_ok no_users.
Proof. split; intros ??; cbn; by rewrite lookup_empty. Qed.

Lemma lookup_index_token u m t :
  index_token u m !! t = if bool_decide (t = Token u /\ t <> []) then Some u else m !! t.
Proof.
  unfold index_token. destruct (decide (Token u = [])) as [Ht|Ht]; [rewrite bool_decide_eq_true_2 by done|rewrite bool_decide_eq_false_2 by done].
  - rewrite bool_decide_eq_false_2; [done|]. intros [-> ?]. done.
  - destruct (decide (t = Token u)) as [->|Hne]; [rewrite lookup_insert_eq, bool_decide_eq_true_2 by done; done|].
    rewrite lookup_insert_ne, bool_decide_eq_false_2 by naive_solver. done.
Qed.

Lemma lookup_unindex u m t :
  unindex u m !! t = if bool_decide (t = Token u /\ t <> []) then None else m !! t.
Proof.
  unfold unindex. destruct (decide (Token u = [])) as [Ht|Ht]; [rewrite bool_decide_eq_true_2 by done|rewrite bool_decide_eq_false_2 by done].
  - rewrite bool_decide_eq_false_2; [done|]. intros [-> ?]. done.
  - destruct (decide (t = Token u)) as [->|Hne]; [rewrite lookup_delete_eq, bool_decide_eq_true_2 by done; done|].
    rewrite lookup_delete_ne, bool_decide_eq_false_2 by naive_solver. done.
Qed.

(** A user whose name and token are not in use. *)

Lemma AddUser_ok u s :
  UsersByName s !! Name u = None -> UsersByToken s !! Token u = None -> users_ok s -> users_ok (AddUser u s).
Proof.
  intros Hn Ht [Ha Hb]. split; cbn [AddUser UsersByToken UsersByName].
  - intros t v. rewrite lookup_index_token. case_bool_decide as Hc.
    + intros [= <-]. rewrite lookup_insert_eq. naive_solver.
    + intros H. destruct (Ha _ _ H) as (H1 & H2 & H3). split_and!; [done|done|]. rewrite lookup_insert_ne; [done|]. congruence.
  - intros n v. rewrite lookup_insert_Some. intros [[<- <-]|[Hne H]].
    + split; [done|]. intros Hx. rewrite lookup_index_token, bool_decide_eq_true_2; done.
    + destruct (Hb _ _ H) as [H1 H2]. split; [done|]. intros Hx. specialize (H2 Hx).
      rewrite lookup_index_token, bool_decide_eq_false_2; [done|]. intros [Heq _]. congruence.
Qed.

(** Two users never share a token. *)

Lemma token_owner s n n' u u' :
  users_ok s -> UsersByName s !! n = Some u -> UsersByName s !! n' = Some u' -> Token u = Token u' -> Token u <> [] -> n = n'.
Proof.
  intros [Ha Hb] H H' He Hne. destruct (Hb _ _ H) as [<- H1]. destruct (Hb _ _ H') as [<- H2].
  specialize (H1 Hne). rewrite He in H1. rewrite H2 in H1 by congruence. congruence.
Qed.

Lemma RemoveUser_ok n s : users_ok s -> users_ok (RemoveUser n s).1.
Proof.
  intros Hs. pose proof Hs as [Ha Hb]. unfold RemoveUser. destruct (UsersByName s !! n) as [u|] eqn:E; [|done].
  destruct (Hb _ _ E) as [Hn Hu]. split; cbn [fst UsersByToken UsersByName].
  - intros t v. rewrite lookup_unindex. case_bool_decide as Hc; [done|]. intros H.
    destruct (Ha _ _ H) as (H1 & H2 & H3). split_and!; [done|done|]. rewrite lookup_delete_ne; [done|].
    intros Heq. rewrite <- Heq in H3. assert (v = u) as -> by congruence. apply Hc. by split.
  - intros n' v. rewrite lookup_delete_Some. intros [Hne H]. destruct (Hb _ _ H) as [H1 H2]. split; [done|].
    intros Hx. rewrite lookup_unindex, bool_decide_eq_false_2; [by apply H2|]. intros [Heq _].
    apply Hne. apply (token_owner s n n' u v); congruence || done.
Qed.

(** An update is a removal and an addition. *)

Lemma UpdateUser_split u u0 s :
  UsersByName s !! Name u = Some u0 -> UpdateUser u s = AddUser u (RemoveUser (Name u) s).1.
Proof.
  intros H. unfold UpdateUser, RemoveUser. rewrite H. unfold AddUser. cbn. by rewrite insert_delete_eq.
Qed.

(** ** What is loaded at the start *)

Definition tables (s : Users) : gmap bytes User * gmap bytes User := (UsersByToken s, UsersByName s).

Definition add_users (s : Users) (l : list User) : Users := foldl (fun s u => AddUser u s) s l.

Definition distinct_users (l : list User) : Prop :=
  NoDup (Name <$> l) /\ NoDup (base.filter (fun t => t <> []) (Token <$> l)).

(** The tables of [s'] are those of [s] with users added. *)

Definition adds (s s' : Users) : Prop := exists l, tables s' = tables (add_users s l).

Lemma add_users_tables l s s' : tables s = tables s' -> tables (add_users s l) = tables (add_users s' l).
Proof.
  revert s s'. induction l as [|u l IH]; intros s s' E; [done|]. cbn [add_users foldl]. apply IH.
  unfold tables, AddUser in *. cbn. by injection E as -> ->.
Qed.

#[export] Instance adds_preorder : PreOrder adds.
Proof.
  split; [intros s; by exists []|]. intros a b c [l1 E1] [l2 E2]. exists (l1 ++ l2). unfold add_users. rewrite foldl_app.
  rewrite E2. by apply add_users_tables.
Qed.

Lemma adds_tables s s' : tables s' = tables s -> adds s s'.
Proof. by exists []. Qed.

Lemma adds_AddUser u s : adds s (AddUser u s).
Proof. by exists [u]. Qed.

Lemma adds_foldl {A} (f : Users -> A -> Users) l s : (forall s x, adds s (f s x)) -> adds s (foldl f s l).
Proof. intros H. revert s. induction l as [|x l IH]; intros s; cbn [foldl]; [done|]. etransitivity; [apply H|apply IH]. Qed.

#[local] Hint Resolve adds_AddUser : core.
#[local] Hint Extern 0 (adds ?s ?s) => reflexivity : core.
#[local] Hint Extern 1 (adds _ _) => (by apply adds_tables) : core.

Lemma adds_entry line s : adds s (ParseUserEntry line s).1.
Proof. unfold ParseUserEntry. cbv zeta. repeat (destr_goal; cbn [fst]; try done); auto. Qed.

Lemma adds_line st line : adds (users st) (users (config_line st line)).
Proof.
  unfold config_line, finish_entry, ParseAuthSetting. cbv zeta. repeat (destr_goal; cbn [users]); auto using adds_entry.
Qed.

Lemma adds_config file s : adds s (LoadUsersFromConfig file s).1.
Proof.
  unfold LoadUsersFromConfig, ParseConfigFile. destruct file as [text|]; [|done]. cbn [fst].
  change s with (users (mkLine s [] false)) at 1. generalize (mkLine s [] false). induction (getlines _ _ _) as [|x l IH]; intros st; cbn [foldl]; [done|].
  etransitivity; [apply adds_line|apply IH].
Qed.

Lemma adds_tag s t : adds s (add_tag s t).
Proof. unfold add_tag. repeat (destr_goal; try done); auto. Qed.

Lemma adds_reader enabled tags token : adds no_users (LoadUsersFromConfigReader enabled tags token no_users).1.
Proof.
  unfold LoadUsersFromConfigReader. destruct enabled; cbn [negb fst]; [|by apply adds_tables]. cbv zeta.
  set (s1 := foldl _ _ tags). assert (adds no_users s1) as H.
  { etransitivity; [|apply adds_foldl, adds_tag]. by apply adds_tables. }
  destruct (_ && _); [|exact H]. etransitivity; [exact H|auto].
Qed.

Lemma adds_load n text s : adds s (load_users n text s).1.
Proof.
  revert text s. induction n as [|n IH]; intros text s; cbn [load_users]; [by apply adds_tables|].
  destruct (read_user text) as [[u rest]|]; [|done]. etransitivity; [|apply IH]. auto.
Qed.

Lemma adds_file sha256 decrypt secret file s : adds s (LoadUsersFromEncryptedFile sha256 decrypt secret file s).1.
Proof. unfold LoadUsersFromEncryptedFile. cbv zeta. repeat (destr_goal; cbn [fst]; try done). apply adds_load. Qed.

(** Users with different names and tokens make tables that agree. *)

Lemma distinct_users_ok l : distinct_users l -> users_ok (add_users no_users l).
Proof.
  intros [H1 H2]. assert (forall s, users_ok s -> (forall u, u ∈ l -> UsersByName s !! Name u = None /\ UsersByToken s !! Token u = None) ->
    users_ok (add_users s l)) as H.
  { induction l as [|u l IH]; intros s Hs Hf; [done|]. cbn [fmap list_fmap] in H1, H2. apply NoDup_cons in H1 as [Hn H1].
    destruct (Hf u) as [F1 F2]; [by left|]. cbn [add_users foldl]. apply IH; [done| | |].
    - rewrite filter_cons in H2. case_decide; [by apply NoDup_cons in H2 as [_ H2]|done].
    - by apply AddUser_ok.
    - intros v Hv. destruct (Hf v) as [G1 G2]; [by right|]. cbn [AddUser UsersByName UsersByToken]. split.
      + rewrite lookup_insert_ne; [done|]. intros E. apply Hn. rewrite E. by apply list_elem_of_fmap_2.
      + rewrite lookup_index_token, bool_decide_eq_false_2; [done|]. intros [E Hne].
        rewrite filter_cons in H2. case_decide as Hd; [|by rewrite E in Hne]. apply NoDup_cons in H2 as [H2 _]. apply H2.
        rewrite <- E. apply list_elem_of_filter. split; [done|]. by apply list_elem_of_fmap_2. }
  apply H; [apply no_users_ok|]. intros u _. cbn. by rewrite !lookup_empty.
Qed.

Lemma users_ok_tables s s' : tables s = tables s' -> users_ok s -> users_ok s'.
Proof. unfold tables. intros [= E1 E2] [Ha Hb]. split; rewrite <- E1, <- E2; done. Qed.

Lemma Initialize_adds sha256 decrypt secret src : exists l,
  tables (Initialize sha256 decrypt secret src no_users).1 = tables (add_users no_users l) /\
  (distinct_users l -> users_ok (Initialize sha256 decrypt secret src no_users).1).
Proof.
  assert (adds no_users (Initialize sha256 decrypt secret src no_users).1) as [l E].
  { unfold Initialize. destruct (ConfigTags src) as [[[enabled tags] token]|]; [apply adds_reader|]. cbv zeta.
    set (r := if UsersConfExists src then _ else _). assert (adds no_users r.1) as H.
    { unfold r. destruct (UsersConfExists src); [apply adds_config|done]. }
    destruct r.2; [exact H|]. etransitivity; [exact H|]. destruct (UsersDatExists src); [apply adds_file|by apply adds_tables]. }
  exists l. split; [exact E|]. intros H%distinct_users_ok. by eapply users_ok_tables; [symmetry|].
Qed.

Section Handlers.
Variable sha256 : bytes -> bytes.

Abbreviation AuthenticateToken := (AuthenticateToken sha256).
Abbreviation AuthenticateRequest := (AuthenticateRequest sha256).
Abbreviation IsAdmin := (IsAdmin sha256).

Inductive uop :=
| UCreate (Body : option UserBody) (Denied : option Z) (RandomToken : bytes) (Saved : bool)
| UDelete (name : bytes) (Denied : option Z) (Saved : bool)
| UUpdate (name : bytes) (Denied : option Z) (Body : option UserBody) (Saved : bool).

Definition ustep (s : Users) (o : uop) : Users :=
  match o with
  | UCreate b d t w => (HandleCreateUser sha256 b d t w s).1
  | UDelete n d w => (HandleDeleteUser n d w s).1
  | UUpdate n d b w => (HandleUpdateUser sha256 n d b w s).1
  end.

Definition urun (s : Users) (ops : list uop) : Users := foldl ustep s ops.

Lemma invalid_token_unused t s : IsValidToken sha256 t s = false -> t <> [] -> UsersByToken s !! t = None.
Proof.
  unfold IsValidToken, UserAuth.AuthenticateToken. intros H Ht. rewrite bool_decide_eq_false_2 in H by done.
  by destruct (UsersByToken s !! t).
Qed.

Lemma no_empty_token s : users_ok s -> UsersByToken s !! [] = None.
Proof. intros [Ha _]. apply eq_None_not_Some. intros [u Hu]. by apply Ha in Hu as [? _]. Qed.

Lemma HandleCreateUser_ok b d t w s : users_ok s -> users_ok (HandleCreateUser sha256 b d t w s).1.
Proof.
  intros Hs. unfold HandleCreateUser. destruct b as [b|]; [|exact Hs]. destruct (body_name b) as [n|]; [|exact Hs].
  destruct (bool_decide (n = [])); [exact Hs|]. destruct d; [exact Hs|].
  unfold GetUser. destruct (UsersByName s !! n) eqn:En; [exact Hs|].
  destruct (IsValidToken _ _ _) eqn:Ev; [exact Hs|]. destruct (default _ (body_flags b)) as [fs|]; [|exact Hs].
  apply AddUser_ok; cbn [Name Token]; [done| |done]. revert Ev. generalize (if bool_decide (default [] (body_token b) = []) then ApiKeys.Hex t else default [] (body_token b)).
  intros k Ev. destruct (decide (k = [])) as [->|He]; [by apply no_empty_token|by apply invalid_token_unused].
Qed.

Lemma HandleDeleteUser_ok n d w s : users_ok s -> users_ok (HandleDeleteUser n d w s).1.
Proof.
  intros Hs. unfold HandleDeleteUser. destruct (bool_decide _); [exact Hs|]. destruct d; [exact Hs|].
  destruct (negb _); [exact Hs|]. by apply RemoveUser_ok.
Qed.

Lemma HandleUpdateUser_ok n d b w s : users_ok s -> users_ok (HandleUpdateUser sha256 n d b w s).1.
Proof.
  intros Hs. unfold HandleUpdateUser, GetUser. destr_goal; [done|]. destr_goal; [done|].
  destruct (UsersByName s !! n) as [u|] eqn:E; [|done]. destr_goal; [|done]. destr_goal; [done|]. destr_goal; [|done].
  destruct (_ && IsValidToken _ _ _) eqn:Ev; [done|]. cbn [fst].
  destruct (by_name s Hs _ _ E) as [<- Hu].
  rewrite (UpdateUser_split _ u) by exact E. cbn [Name].
  apply AddUser_ok; [|cbn [Token]|by apply RemoveUser_ok]; unfold RemoveUser; rewrite E; cbn [fst UsersByName UsersByToken Name].
  - apply lookup_delete_eq.
  - rewrite lookup_unindex. match type of Ev with (?ch && _ = false) => destruct ch eqn:Ech end.
    + apply andb_true_iff in Ech as [Hne%negb_true_iff%bool_decide_eq_false _]. match goal with |- (if ?c then _ else _) = _ => destruct c end; [done|].
      by apply invalid_token_unused.
    + match goal with |- (if bool_decide ?c then _ else _) = _ => destruct (bool_decide_reflect c) as [|Hc] end; [done|].
      destruct (decide (Token u = [])) as [He|He]; [rewrite He; by apply no_empty_token|]. exfalso. by apply Hc.
Qed.

Lemma urun_ok s0 ops : users_ok s0 -> users_ok (urun s0 ops).
Proof.
  intros H0. induction ops as [|o ops IH] using rev_ind; [exact H0|]. unfold urun in *. rewrite foldl_app. cbn [foldl].
  destruct o; [by apply HandleCreateUser_ok|by apply HandleDeleteUser_ok|by apply HandleUpdateUser_ok].
Qed.

Lemma AuthenticateToken_registered t s u :
  users_ok s -> AuthenticateToken t s = Valid u ->
  GetUser (Name u) s = Some u /\ (Token u = t \/ Token u = ApiKeys.Hex (sha256 t)).
Proof.
  intros [Ha _]. unfold UserAuth.AuthenticateToken, GetUser. destr_goal; [done|].
  destruct (UsersByToken s !! t) as [v|] eqn:E; [|destruct (UsersByToken s !! ApiKeys.Hex (sha256 t)) as [v|] eqn:E'; [|done]];
    intros [= <-]; [destruct (Ha _ _ E) as (_ & H1 & H2)|destruct (Ha _ _ E') as (_ & H1 & H2)]; auto.
Qed.

(** The credentials of [u] that a header shows: his name and password, or his token
    or a text whose hash is his token. *)

Definition shows (header : bytes) (u : User) : Prop :=
  if starts_with #"Basic " header then
    DecodeBase64 (drop 6 header) = Some (Name u ++ ":"%char :: Password u) /\ Name u <> [] /\ Password u <> []
  else
    let token := ExtractTokenFromHeader header in token <> [] /\ (Token u = token \/ Token u = ApiKeys.Hex (sha256 token)).

Lemma AuthenticateRequest_registered h s u :
  users_ok s -> AuthenticateRequest h s = Valid u -> GetUser (Name u) s = Some u /\ shows h u.
Proof.
  intros Hs. unfold UserAuth.AuthenticateRequest, authenticate_password, shows.
  destruct (starts_with _ h).
  - destruct (DecodeBase64 _) as [d|]; [|done]. destruct (find_char _ d) as [n|] eqn:Ef; [|done].
    case_bool_decide as H1; [done|]. case_bool_decide as H2; [done|]. cbn [orb]. destruct (UsersByName s !! take n d) as [v|] eqn:E; [|done].
    case_bool_decide as H3; [done|]. case_bool_decide as H4; [|done]. cbn [orb negb]. intros [= <-].
    destruct (by_name s Hs _ _ E) as [Hn _]. unfold GetUser. rewrite Hn, H4. split; [done|]. split; [|by rewrite <- H4].
    apply find_char_Some in Ef as (x & c & y & -> & <- & _ & ->%bool_decide_eq_true).
    rewrite take_app_length, <- (Nat.add_1_r (length x)), <- drop_drop, drop_app_length. reflexivity.
  - cbv zeta. case_bool_decide as H1; [done|]. intros H. apply AuthenticateToken_registered in H as [H2 H3]; [|done]. by split.
Qed.

Lemma HandleDeleteUser_removes name w s :
  (HandleDeleteUser name None w s).2 = 200 -> GetUser name (HandleDeleteUser name None w s).1 = None.
Proof.
  unfold HandleDeleteUser, RemoveUser, GetUser. destruct (bool_decide (name = [])); [done|].
  destruct (UsersByName s !! name); [|done]. intros _. apply lookup_delete_eq.
Qed.

(** C23. Only registered users authenticate, with their current permissions. The tables
    agree when every token belongs to the user who has it ([users_ok]). What
    [Initialize] loads (tags of the configuration, users.conf or users.dat) are the
    tables of a list of users, and they agree when the list has no name and no token
    twice. From tables that agree, after any sequence of requests to create, update and
    delete users, a header that is accepted authenticates a user who is registered
    under his name exactly as the table has him, and shows his credentials: his name
    and password, or his token; a deleted user is never accepted, and a token has
    administrator rights only if its user has the flag now. *)
Theorem authenticated_is_registered decrypt secret :
  (forall src, exists l,
     let s := (Initialize sha256 decrypt secret src no_users).1 in
     tables s = tables (add_users no_users l) /\ (distinct_users l -> users_ok s)) /\
  (forall s0 ops header u,
     users_ok s0 -> AuthenticateRequest header (urun s0 ops) = Valid u ->
     GetUser (Name u) (urun s0 ops) = Some u /\ shows header u /\
     (forall name w, (HandleDeleteUser name None w (urun s0 ops)).2 = 200 ->
        forall v, AuthenticateRequest header (HandleDeleteUser name None w (urun s0 ops)).1 = Valid v -> Name v <> name) /\
     (forall token, IsAdmin token (urun s0 ops) = true ->
        exists v, GetUser (Name v) (urun s0 ops) = Some v /\ ADMIN ∈ Flags v /\
          (Token v = token \/ Token v = ApiKeys.Hex (sha256 token)))).
Proof.
  split; [intros src; apply Initialize_adds|]. intros s0 ops header u H0 H. pose proof (urun_ok s0 ops H0) as Hs.
  destruct (AuthenticateRequest_registered _ _ _ Hs H) as [H1 H2]. split; [exact H1|]. split; [exact H2|]. split.
  - intros name w Hd v Hv <-. apply AuthenticateRequest_registered in Hv as [Hv _]; [|by apply HandleDeleteUser_ok].
    by rewrite HandleDeleteUser_removes in Hv.
  - intros token Ha. unfold UserAuth.IsAdmin, HasPermission in Ha.
    destruct (UserAuth.AuthenticateToken sha256 token _) as [v|] eqn:E; [|done].
    apply AuthenticateToken_registered in E as [H3 H4]; [|done]. apply bool_decide_eq_true in Ha. eauto.
Qed.

End Handlers.

(** ** Concrete runs *)

(** A configured user with a password, who is loaded at the start. *)

Definition configured (entries : list UserTag) : UserSources := mkSources (Some (true, entries, [])) None false None false.

Definition ann_at_start : UserSources := configured [mkTag #"ann" #"t1" #"pw" #"admin" []].

Definition loaded (src : UserSources) : Users := (Initialize id (fun _ _ _ => None) [] src no_users).1.

Lemma loaded_ann_ok : users_ok (loaded ann_at_start).
Proof.
  apply (users_ok_tables (add_users no_users [mkUser #"ann" #"t1" #"pw" {[ADMIN]} []])); [vm_compute; reflexivity|].
  apply distinct_users_ok. split; apply (bool_decide_eq_true_1 _); vm_compute; reflexivity.
Qed.

Lemma authenticated_is_registered_witness :
  let s := urun id (loaded ann_at_start) [UCreate (Some (mkBody (Some #"bob") (Some #"t2") None None)) None [] true] in
  AuthenticateRequest id #"Basic YW5uOnB3" s = Valid (mkUser #"ann" #"t1" #"pw" {[ADMIN]} []) /\
  GetUser #"ann" s = Some (mkUser #"ann" #"t1" #"pw" {[ADMIN]} []).
Proof.
  cbv zeta. assert (E : AuthenticateRequest id #"Basic YW5uOnB3"
    (urun id (loaded ann_at_start) [UCreate (Some (mkBody (Some #"bob") (Some #"t2") None None)) None [] true]) =
    Valid (mkUser #"ann" #"t1" #"pw" {[ADMIN]} [])) by (vm_compute; reflexivity).
  split; [exact E|].
  exact (proj1 (proj2 (authenticated_is_registered id (fun _ _ _ => None) []) (loaded ann_at_start)
    [UCreate (Some (mkBody (Some #"bob") (Some #"t2") None None)) None [] true] #"Basic YW5uOnB3" _ loaded_ann_ok E)).
Defined.

(** Two configured entries of one name do not agree: when the user is deleted, the
    token of the first entry is still accepted, with its rights. *)

Example deleted_name_keeps_token :
  let s := loaded (configured [mkTag #"ann" #"t1" [] #"admin" []; mkTag #"ann" #"t2" [] #"user" []]) in
  let s' := (HandleDeleteUser #"ann" None true s).1 in
  (HandleDeleteUser #"ann" None true s).2 = 200 /\ GetUser #"ann" s' = None /\ IsAdmin id #"t1" s' = true.
Proof. vm_compute. by split. Qed.

End UserAuthProps.
