(* ===== verification/HttpRoutes.v ===== *)
(** * HTTP routes: src/api/httproutes.cpp, include/api/httpserver.h

    The route catalog that API discovery publishes, and the resolver that maps a
    method and a path to an action. A [std::string_view] is the bytes it shows. *)

From S2P Require Import Prelude CText.

Module HttpRoutes.

(** ** Actions *)

Inductive RouteAction :=
| Status | SearchConfig | ConfigFiles | Health | Ready | Ping | Stats | Metrics | MetricsHistory | Cache
| Connections | RocksDB | DocTotal | Flush | UpdateCounters | DebugCounters | Repair | Startup | Integrity
| SelfCheck | StorageStatus | StorageDiagnostics | DurabilityBarrier | Etc | Root | ListCollections
| ListCollectionsDistributed | CreateCollection | GetCollection | GetCollectionLanguage | UpdateCollection
| DeleteCollection | DocumentSearch | VectorSearch | MultiSearch | GlobalSearch | ListDocuments | GetDocument
| GetDocumentContext | AddDocument | BulkImportDocuments | UpdateDocument | DeleteDocument
| DeleteDocumentsByFilter | UpdateByQuery | DeleteByQuery | FacetCounts | ExportDocuments | MaybeSuggest
| ListSynonyms | ListAllSynonyms | UpsertSynonym | GetSynonym | DeleteSynonym | ListGlobalSynonyms
| UpsertGlobalSynonym | GetGlobalSynonym | DeleteGlobalSynonym | ListStopwords | ListAllStopwords
| CreateStopword | DeleteStopword | ListGlobalStopwords | CreateGlobalStopword | DeleteGlobalStopword
| ListOverrides | UpsertOverride | GetOverride | DeleteOverride | ListAliases | UpsertAlias | GetAlias
| DeleteAlias | LinksList | LinksPing | LinksConnect | LinksDisconnect | ListUsers | CreateUser | GetUser
| UpdateUser | DeleteUser | ListKeys | CreateKey | GetKey | UpdateKey | DeleteKey | ListPresets
| UpsertPreset | GetPreset | DeletePreset | AnalyticsClick | ListModules | GetModuleSyntax | ModuleLoad
| ModuleUnload | ModuleAPI | NotFound.

(** All actions, in the order of the enumeration, and the place of each. *)

Definition all_actions : list RouteAction :=
  [Status; SearchConfig; ConfigFiles; Health; Ready; Ping; Stats; Metrics; MetricsHistory; Cache;
   Connections; RocksDB; DocTotal; Flush; UpdateCounters; DebugCounters; Repair; Startup; Integrity;
   SelfCheck; StorageStatus; StorageDiagnostics; DurabilityBarrier; Etc; Root; ListCollections;
   ListCollectionsDistributed; CreateCollection; GetCollection; GetCollectionLanguage; UpdateCollection;
   DeleteCollection; DocumentSearch; VectorSearch; MultiSearch; GlobalSearch; ListDocuments; GetDocument;
   GetDocumentContext; AddDocument; BulkImportDocuments; UpdateDocument; DeleteDocument;
   DeleteDocumentsByFilter; UpdateByQuery; DeleteByQuery; FacetCounts; ExportDocuments; MaybeSuggest;
   ListSynonyms; ListAllSynonyms; UpsertSynonym; GetSynonym; DeleteSynonym; ListGlobalSynonyms;
   UpsertGlobalSynonym; GetGlobalSynonym; DeleteGlobalSynonym; ListStopwords; ListAllStopwords;
   CreateStopword; DeleteStopword; ListGlobalStopwords; CreateGlobalStopword; DeleteGlobalStopword;
   ListOverrides; UpsertOverride; GetOverride; DeleteOverride; ListAliases; UpsertAlias; GetAlias;
   DeleteAlias; LinksList; LinksPing; LinksConnect; LinksDisconnect; ListUsers; CreateUser; GetUser;
   UpdateUser; DeleteUser; ListKeys; CreateKey; GetKey; UpdateKey; DeleteKey; ListPresets; UpsertPreset;
   GetPreset; DeletePreset; AnalyticsClick; ListModules; GetModuleSyntax; ModuleLoad; ModuleUnload;
   ModuleAPI; NotFound].

Definition action_index (a : RouteAction) : nat :=
  match a with
  | Status => 0 | SearchConfig => 1 | ConfigFiles => 2 | Health => 3 | Ready => 4 | Ping => 5 | Stats => 6
  | Metrics => 7 | MetricsHistory => 8 | Cache => 9 | Connections => 10 | RocksDB => 11 | DocTotal => 12
  | Flush => 13 | UpdateCounters => 14 | DebugCounters => 15 | Repair => 16 | Startup => 17 | Integrity => 18
  | SelfCheck => 19 | StorageStatus => 20 | StorageDiagnostics => 21 | DurabilityBarrier => 22 | Etc => 23
  | Root => 24 | ListCollections => 25 | ListCollectionsDistributed => 26 | CreateCollection => 27
  | GetCollection => 28 | GetCollectionLanguage => 29 | UpdateCollection => 30 | DeleteCollection => 31
  | DocumentSearch => 32 | VectorSearch => 33 | MultiSearch => 34 | GlobalSearch => 35 | ListDocuments => 36
  | GetDocument => 37 | GetDocumentContext => 38 | AddDocument => 39 | BulkImportDocuments => 40
  | UpdateDocument => 41 | DeleteDocument => 42 | DeleteDocumentsByFilter => 43 | UpdateByQuery => 44
  | DeleteByQuery => 45 | FacetCounts => 46 | ExportDocuments => 47 | MaybeSuggest => 48 | ListSynonyms => 49
  | ListAllSynonyms => 50 | UpsertSynonym => 51 | GetSynonym => 52 | DeleteSynonym => 53
  | ListGlobalSynonyms => 54 | UpsertGlobalSynonym => 55 | GetGlobalSynonym => 56 | DeleteGlobalSynonym => 57
  | ListStopwords => 58 | ListAllStopwords => 59 | CreateStopword => 60 | DeleteStopword => 61
  | ListGlobalStopwords => 62 | CreateGlobalStopword => 63 | DeleteGlobalStopword => 64 | ListOverrides => 65
  | UpsertOverride => 66 | GetOverride => 67 | DeleteOverride => 68 | ListAliases => 69 | UpsertAlias => 70
  | GetAlias => 71 | DeleteAlias => 72 | LinksList => 73 | LinksPing => 74 | LinksConnect => 75
  | LinksDisconnect => 76 | ListUsers => 77 | CreateUser => 78 | GetUser => 79 | UpdateUser => 80
  | DeleteUser => 81 | ListKeys => 82 | CreateKey => 83 | GetKey => 84 | UpdateKey => 85 | DeleteKey => 86
  | ListPresets => 87 | UpsertPreset => 88 | GetPreset => 89 | DeletePreset => 90 | AnalyticsClick => 91
  | ListModules => 92 | GetModuleSyntax => 93 | ModuleLoad => 94 | ModuleUnload => 95 | ModuleAPI => 96
  | NotFound => 97
  end%nat.

#[global] Instance RouteAction_inhabited : Inhabited RouteAction := populate NotFound.

Lemma all_actions_index a : all_actions !! action_index a = Some a.
Proof. by destruct a. Qed.

#[global] Instance RouteAction_eq_dec : EqDecision RouteAction.
Proof.
  refine (fun a b => cast_if (decide (action_index a = action_index b))).
  - apply (inj Some). by rewrite <- !all_actions_index, e.
  - intros ->. by apply n.
Defined.

(** The readable name of an action. *)

Definition RouteActionName (a : RouteAction) : bytes :=
  match a with
  | Status => #"Status" | SearchConfig => #"SearchConfig" | ConfigFiles => #"ConfigFiles"
  | Health => #"Health" | Ready => #"Ready" | Ping => #"Ping" | Stats => #"Stats" | Metrics => #"Metrics"
  | MetricsHistory => #"MetricsHistory" | Cache => #"Cache" | Connections => #"Connections"
  | RocksDB => #"RocksDB" | DocTotal => #"DocTotal" | Flush => #"Flush" | UpdateCounters => #"UpdateCounters"
  | DebugCounters => #"DebugCounters" | Repair => #"Repair" | Startup => #"Startup"
  | Integrity => #"Integrity" | SelfCheck => #"SelfCheck" | StorageStatus => #"StorageStatus"
  | StorageDiagnostics => #"StorageDiagnostics" | DurabilityBarrier => #"DurabilityBarrier" | Etc => #"Etc"
  | Root => #"Root" | ListCollections => #"ListCollections"
  | ListCollectionsDistributed => #"ListCollectionsDistributed" | CreateCollection => #"CreateCollection"
  | GetCollection => #"GetCollection" | GetCollectionLanguage => #"GetCollectionLanguage"
  | UpdateCollection => #"UpdateCollection" | DeleteCollection => #"DeleteCollection"
  | DocumentSearch => #"DocumentSearch" | VectorSearch => #"VectorSearch" | MultiSearch => #"MultiSearch"
  | GlobalSearch => #"GlobalSearch" | ListDocuments => #"ListDocuments" | GetDocument => #"GetDocument"
  | GetDocumentContext => #"GetDocumentContext" | AddDocument => #"AddDocument"
  | BulkImportDocuments => #"BulkImportDocuments" | UpdateDocument => #"UpdateDocument"
  | DeleteDocument => #"DeleteDocument" | DeleteDocumentsByFilter => #"DeleteDocumentsByFilter"
  | UpdateByQuery => #"UpdateByQuery" | DeleteByQuery => #"DeleteByQuery" | FacetCounts => #"FacetCounts"
  | ExportDocuments => #"ExportDocuments" | MaybeSuggest => #"MaybeSuggest" | ListSynonyms => #"ListSynonyms"
  | ListAllSynonyms => #"ListAllSynonyms" | UpsertSynonym => #"UpsertSynonym" | GetSynonym => #"GetSynonym"
  | DeleteSynonym => #"DeleteSynonym" | ListGlobalSynonyms => #"ListGlobalSynonyms"
  | UpsertGlobalSynonym => #"UpsertGlobalSynonym" | GetGlobalSynonym => #"GetGlobalSynonym"
  | DeleteGlobalSynonym => #"DeleteGlobalSynonym" | ListStopwords => #"ListStopwords"
  | ListAllStopwords => #"ListAllStopwords" | CreateStopword => #"CreateStopword"
  | DeleteStopword => #"DeleteStopword" | ListGlobalStopwords => #"ListGlobalStopwords"
  | CreateGlobalStopword => #"CreateGlobalStopword" | DeleteGlobalStopword => #"DeleteGlobalStopword"
  | ListOverrides => #"ListOverrides" | UpsertOverride => #"UpsertOverride" | GetOverride => #"GetOverride"
  | DeleteOverride => #"DeleteOverride" | ListAliases => #"ListAliases" | UpsertAlias => #"UpsertAlias"
  | GetAlias => #"GetAlias" | DeleteAlias => #"DeleteAlias" | LinksList => #"LinksList"
  | LinksPing => #"LinksPing" | LinksConnect => #"LinksConnect" | LinksDisconnect => #"LinksDisconnect"
  | ListUsers => #"ListUsers" | CreateUser => #"CreateUser" | GetUser => #"GetUser"
  | UpdateUser => #"UpdateUser" | DeleteUser => #"DeleteUser" | ListKeys => #"ListKeys"
  | CreateKey => #"CreateKey" | GetKey => #"GetKey" | UpdateKey => #"UpdateKey" | DeleteKey => #"DeleteKey"
  | ListPresets => #"ListPresets" | UpsertPreset => #"UpsertPreset" | GetPreset => #"GetPreset"
  | DeletePreset => #"DeletePreset" | AnalyticsClick => #"AnalyticsClick" | ListModules => #"ListModules"
  | GetModuleSyntax => #"GetModuleSyntax" | ModuleLoad => #"ModuleLoad" | ModuleUnload => #"ModuleUnload"
  | ModuleAPI => #"ModuleAPI" | NotFound => #"NotFound"
  end.

(** ** Paths *)

Definition is_byte (b c : ascii) : bool := bool_decide (c = b).

Definition slash : ascii := "/"%char.

(** [Path.rfind(Prefix, 0) == 0] is [starts_with Prefix Path]. *)

Definition MatchesMethod (Method : bytes) (Candidates : list bytes) : bool := bool_decide (Method ∈ Candidates).

Definition PrefixRoute (Path Method Prefix : bytes) (Methods : list bytes) : bool :=
  if negb (starts_with Prefix Path) then false
  else if size Path <=? size Prefix then false
  else MatchesMethod Method Methods.

Definition SingleChildRoute (Path Method Prefix : bytes) (Methods : list bytes) : bool :=
  if negb (PrefixRoute Path Method Prefix Methods) then false
  else bool_decide (find_char (is_byte slash) (drop (length Prefix) Path) = None).

Definition cut_query (Path : bytes) : bytes :=
  match find_char (is_byte "?"%char) Path with Some n => take n Path | None => Path end.

Definition drop_last_slash (Path : bytes) : bytes :=
  if (1 <? size Path) && bool_decide (last Path = Some slash) then take (length Path - 1) Path else Path.

Definition NormalizeRoutePath (Path : bytes) : bytes := drop_last_slash (cut_query Path).

(** The pieces between slashes that are not empty; [current] is the piece being
    read. *)

Fixpoint split_segments (current Path : bytes) : list bytes :=
  match Path with
  | [] => if bool_decide (current = []) then [] else [current]
  | c :: r =>
      if is_byte slash c then
        if bool_decide (current = []) then split_segments [] r else current :: split_segments [] r
      else split_segments (current ++ [c]) r
  end.

Definition SplitRouteSegments (Path : bytes) : list bytes := split_segments [] Path.

(** ** Collection routes *)

(** The members that [BuildCollectionRouteInfo] sets are functions of these two. *)

Record CollectionRouteInfo := mkInfo { Segments : list bytes; IsCollectionPath : bool }.

Definition SegmentEquals (i : CollectionRouteInfo) (Index : nat) (Value : bytes) : bool :=
  bool_decide (Segments i !! Index = Some Value).

Definition segment_count (i : CollectionRouteInfo) (n : nat) : bool := (length (Segments i) =? n)%nat.

Definition segments_from (i : CollectionRouteInfo) (n : nat) : bool := (n <=? length (Segments i))%nat.

Definition BuildCollectionRouteInfo (NormalizedPath : bytes) : CollectionRouteInfo :=
  if negb (starts_with #"/collections/" NormalizedPath) then mkInfo [] false
  else
    let segs := SplitRouteSegments NormalizedPath in
    mkInfo segs ((2 <=? length segs)%nat && bool_decide (segs !! 0%nat = Some #"collections")).

Definition root_named (i : CollectionRouteInfo) (name : bytes) : bool :=
  IsCollectionPath i && segment_count i 3 && SegmentEquals i 2 name.

Definition child_named (i : CollectionRouteInfo) (name : bytes) : bool :=
  IsCollectionPath i && segments_from i 4 && SegmentEquals i 2 name.

Definition IsCollectionRoot (i : CollectionRouteInfo) : bool := IsCollectionPath i && segment_count i 2.
Definition IsCollectionLang (i : CollectionRouteInfo) : bool := root_named i #"lang".
Definition IsCollectionUpdate (i : CollectionRouteInfo) : bool := root_named i #"update".
Definition IsDocumentsRoot (i : CollectionRouteInfo) : bool := root_named i #"documents".
Definition IsDocumentsChild (i : CollectionRouteInfo) : bool := child_named i #"documents".

Definition document_operation (i : CollectionRouteInfo) (name : bytes) : bool :=
  IsDocumentsChild i && segment_count i 4 && SegmentEquals i 3 name.

Definition IsDocumentsSearch (i : CollectionRouteInfo) : bool := document_operation i #"search".
Definition IsDocumentsImport (i : CollectionRouteInfo) : bool := document_operation i #"import".
Definition IsDocumentsFacetCounts (i : CollectionRouteInfo) : bool := document_operation i #"facet_counts".
Definition IsDocumentsExport (i : CollectionRouteInfo) : bool := document_operation i #"export".
Definition IsDocumentsMaybe (i : CollectionRouteInfo) : bool := document_operation i #"maybe".
Definition IsDocumentsUpdateByQuery (i : CollectionRouteInfo) : bool := document_operation i #"_update_by_query".
Definition IsDocumentsDeleteByQuery (i : CollectionRouteInfo) : bool := document_operation i #"_delete_by_query".

Definition IsDocumentContext (i : CollectionRouteInfo) : bool :=
  IsCollectionPath i && segment_count i 5 && SegmentEquals i 2 #"documents" && SegmentEquals i 4 #"context".

Definition IsSynonymsRoot (i : CollectionRouteInfo) : bool := root_named i #"synonyms" || root_named i #"synonym_sets".
Definition IsSynonymsChild (i : CollectionRouteInfo) : bool := child_named i #"synonyms" || child_named i #"synonym_sets".
Definition IsStopwordsRoot (i : CollectionRouteInfo) : bool := root_named i #"stopwords" || root_named i #"stopword_sets".
Definition IsStopwordsChild (i : CollectionRouteInfo) : bool := child_named i #"stopwords" || child_named i #"stopword_sets".
Definition IsOverridesRoot (i : CollectionRouteInfo) : bool := root_named i #"overrides".
Definition IsOverridesChild (i : CollectionRouteInfo) : bool := child_named i #"overrides".
Definition IsCurationsRoot (i : CollectionRouteInfo) : bool := root_named i #"curations" || root_named i #"curation_sets".
Definition IsCurationsChild (i : CollectionRouteInfo) : bool := child_named i #"curations" || child_named i #"curation_sets".
Definition IsVectorSearchAlias (i : CollectionRouteInfo) : bool := root_named i #"search".

Definition IsReservedDocumentOperation (i : CollectionRouteInfo) : bool :=
  IsDocumentsSearch i || IsDocumentsImport i || IsDocumentsFacetCounts i || IsDocumentsExport i ||
  IsDocumentsMaybe i || IsDocumentsUpdateByQuery i || IsDocumentsDeleteByQuery i.

(** ** Access classes *)

Definition IsPublicHttpRouteAction (a : RouteAction) : bool :=
  match a with
  | Health | Ready | Status | SearchConfig | Ping | LinksList | LinksPing | Etc => true
  | _ => false
  end.

Definition IsAdminOnlyHttpRouteAction (a : RouteAction) : bool :=
  match a with
  | ListKeys | CreateKey | GetKey | DeleteKey | UpdateKey | ConfigFiles | ListPresets | UpsertPreset | GetPreset
  | DeletePreset | ListUsers | CreateUser | GetUser | DeleteUser | UpdateUser | LinksConnect | LinksDisconnect
  | Flush | Repair | Cache | ModuleLoad | ModuleUnload | StorageStatus | StorageDiagnostics | DurabilityBarrier => true
  | _ => false
  end.

(** ** The catalog *)

Record HttpRouteDescription := mkDescription {
  Action : RouteAction;
  Name : bytes;
  Methods : list bytes;
  Paths : list bytes;
  Access : bytes;
  RequestContentType : bytes;
  ResponseContentType : bytes
}.

Definition Describe (a : RouteAction) (name : bytes) (methods paths : list bytes) (RequestType : bytes) : HttpRouteDescription :=
  mkDescription a name methods paths
    (if IsPublicHttpRouteAction a then #"public" else if IsAdminOnlyHttpRouteAction a then #"admin" else #"authenticated")
    RequestType #"application/json".

Definition GetHttpRouteDescriptions : list HttpRouteDescription :=
  [Describe Status #"status" [ #"GET"]
     [ #"/"; #"/status"; #"/query"] #"";
   Describe SearchConfig #"search_config" [ #"GET"]
     [ #"/search-config"] #"";
   Describe ConfigFiles #"config_files" [ #"GET"]
     [ #"/config-files"] #"";
   Describe Health #"health" [ #"GET"]
     [ #"/health"] #"";
   Describe Ready #"ready" [ #"GET"]
     [ #"/ready"] #"";
   Describe Ping #"ping" [ #"GET"]
     [ #"/ping"] #"";
   Describe Stats #"stats" [ #"GET"]
     [ #"/stats"] #"";
   Describe Metrics #"metrics" [ #"GET"]
     [ #"/metrics"; #"/metrics.json"] #"";
   Describe MetricsHistory #"metrics_history" [ #"GET"]
     [ #"/metrics-history"; #"/metrics/history"] #"";
   Describe Cache #"cache" [ #"GET"]
     [ #"/cache"] #"";
   Describe Connections #"connections" [ #"GET"]
     [ #"/connections"] #"";
   Describe RocksDB #"rocksdb" [ #"GET"]
     [ #"/rocksdb"; #"/_rocksdb"] #"";
   Describe DocTotal #"document_total" [ #"GET"]
     [ #"/doctotal"] #"";
   Describe Flush #"flush" [ #"POST"]
     [ #"/flush"] #"application/json";
   Describe UpdateCounters #"update_counters" [ #"GET"; #"POST"]
     [ #"/update-counters"] #"";
   Describe DebugCounters #"debug_counters" [ #"GET"]
     [ #"/debug/counters"] #"";
   Describe Repair #"repair" [ #"GET"; #"POST"]
     [ #"/repair"] #"application/json";
   Describe Startup #"startup" [ #"GET"]
     [ #"/startup"; #"/boot-status"] #"";
   Describe Integrity #"integrity" [ #"GET"]
     [ #"/integrity"; #"/consistency"] #"";
   Describe SelfCheck #"self_check" [ #"GET"]
     [ #"/self-check"] #"";
   Describe StorageStatus #"storage_status" [ #"GET"]
     [ #"/admin/storage_status"] #"";
   Describe StorageDiagnostics #"storage_diagnostics" [ #"GET"]
     [ #"/_diagnostics/storage"] #"";
   Describe DurabilityBarrier #"durability_barrier" [ #"POST"]
     [ #"/_admin/storage/durability-barrier"] #"application/json";
   Describe Etc #"etc" [ #"GET"]
     [ #"/etc"] #"";
   Describe ListCollections #"collections_list" [ #"GET"]
     [ #"/collections"] #"";
   Describe ListCollectionsDistributed #"collections_distributed" [ #"GET"]
     [ #"/collections/distributed"] #"";
   Describe CreateCollection #"collection_create" [ #"POST"]
     [ #"/collections"] #"application/json";
   Describe GetCollection #"collection_get" [ #"GET"]
     [ #"/collections/{collection}"] #"";
   Describe GetCollectionLanguage #"collection_language" [ #"GET"]
     [ #"/collections/{collection}/lang"] #"";
   Describe UpdateCollection #"collection_update" [ #"POST"]
     [ #"/collections/{collection}/update"] #"application/json";
   Describe DeleteCollection #"collection_delete" [ #"DELETE"]
     [ #"/collections/{collection}"] #"";
   Describe DocumentSearch #"document_search" [ #"GET"; #"POST"]
     [ #"/collections/{collection}/documents/search"; #"/sql"] #"application/json";
   Describe VectorSearch #"vector_search" [ #"GET"; #"POST"]
     [ #"/collections/{collection}/vector_search"; #"/collections/{collection}/search"] #"application/json";
   Describe MultiSearch #"multi_search" [ #"GET"; #"POST"]
     [ #"/multi_search"] #"application/json";
   Describe GlobalSearch #"global_search" [ #"GET"; #"POST"]
     [ #"/search"] #"application/json";
   Describe ListDocuments #"documents_list" [ #"GET"]
     [ #"/collections/{collection}/documents"] #"";
   Describe GetDocument #"document_get" [ #"GET"]
     [ #"/collections/{collection}/documents/{document}"] #"";
   Describe GetDocumentContext #"document_context" [ #"GET"]
     [ #"/collections/{collection}/documents/{document}/context"] #"";
   Describe AddDocument #"document_add" [ #"POST"]
     [ #"/collections/{collection}/documents"] #"application/json";
   Describe BulkImportDocuments #"documents_import" [ #"POST"]
     [ #"/collections/{collection}/documents/import"] #"application/x-ndjson";
   Describe UpdateDocument #"document_update" [ #"PUT"]
     [ #"/collections/{collection}/documents/{document}"] #"application/json";
   Describe DeleteDocument #"document_delete" [ #"DELETE"]
     [ #"/collections/{collection}/documents/{document}"] #"";
   Describe DeleteDocumentsByFilter #"documents_delete" [ #"DELETE"]
     [ #"/collections/{collection}/documents"] #"";
   Describe UpdateByQuery #"documents_update_by_query" [ #"POST"]
     [ #"/collections/{collection}/documents/_update_by_query"] #"application/json";
   Describe DeleteByQuery #"documents_delete_by_query" [ #"POST"]
     [ #"/collections/{collection}/documents/_delete_by_query"] #"application/json";
   Describe FacetCounts #"facet_counts" [ #"GET"; #"POST"]
     [ #"/collections/{collection}/documents/facet_counts"] #"application/json";
   Describe ExportDocuments #"documents_export" [ #"GET"; #"POST"]
     [ #"/collections/{collection}/documents/export"] #"application/json";
   Describe MaybeSuggest #"maybe_suggest" [ #"GET"; #"POST"]
     [ #"/collections/{collection}/documents/maybe"] #"application/json";
   Describe ListSynonyms #"synonyms_list" [ #"GET"]
     [ #"/collections/{collection}/synonyms"; #"/collections/{collection}/synonym_sets"] #"";
   Describe ListAllSynonyms #"synonyms_list_all" [ #"GET"]
     [ #"/synonyms"; #"/synonym_sets"] #"";
   Describe UpsertSynonym #"synonym_upsert" [ #"POST"; #"PUT"]
     [ #"/collections/{collection}/synonyms/{synonym}"; #"/collections/{collection}/synonym_sets/{synonym}"] #"application/json";
   Describe GetSynonym #"synonym_get" [ #"GET"]
     [ #"/collections/{collection}/synonyms/{synonym}"; #"/collections/{collection}/synonym_sets/{synonym}"] #"";
   Describe DeleteSynonym #"synonym_delete" [ #"DELETE"]
     [ #"/collections/{collection}/synonyms/{synonym}"; #"/collections/{collection}/synonym_sets/{synonym}"] #"";
   Describe ListGlobalSynonyms #"global_synonyms_list" [ #"GET"]
     [ #"/synonyms/global"; #"/synonym_sets/global"] #"";
   Describe UpsertGlobalSynonym #"global_synonym_upsert" [ #"POST"; #"PUT"]
     [ #"/synonyms/global/{synonym}"; #"/synonym_sets/global/{synonym}"; #"/synonym_sets/global/items/{synonym}"] #"application/json";
   Describe GetGlobalSynonym #"global_synonym_get" [ #"GET"]
     [ #"/synonyms/global/{synonym}"; #"/synonym_sets/global/{synonym}"; #"/synonym_sets/global/items/{synonym}"] #"";
   Describe DeleteGlobalSynonym #"global_synonym_delete" [ #"DELETE"]
     [ #"/synonyms/global/{synonym}"; #"/synonym_sets/global/{synonym}"; #"/synonym_sets/global/items/{synonym}"] #"";
   Describe ListStopwords #"stopwords_list" [ #"GET"]
     [ #"/collections/{collection}/stopwords"; #"/collections/{collection}/stopword_sets"] #"";
   Describe ListAllStopwords #"stopwords_list_all" [ #"GET"]
     [ #"/stopwords"; #"/stopword_sets"] #"";
   Describe CreateStopword #"stopword_create" [ #"POST"]
     [ #"/collections/{collection}/stopwords"; #"/collections/{collection}/stopword_sets"] #"application/json";
   Describe DeleteStopword #"stopword_delete" [ #"DELETE"]
     [ #"/collections/{collection}/stopwords/{stopword}"; #"/collections/{collection}/stopword_sets/{stopword}"] #"";
   Describe ListGlobalStopwords #"global_stopwords_list" [ #"GET"]
     [ #"/stopwords/global"; #"/stopword_sets/global"] #"";
   Describe CreateGlobalStopword #"global_stopword_create" [ #"POST"]
     [ #"/stopwords/global"; #"/stopword_sets/global"] #"application/json";
   Describe DeleteGlobalStopword #"global_stopword_delete" [ #"DELETE"]
     [ #"/stopwords/global/{stopword}"; #"/stopword_sets/global/{stopword}"; #"/stopword_sets/global/items/{stopword}"] #"";
   Describe ListOverrides #"overrides_list" [ #"GET"]
     [ #"/collections/{collection}/overrides"; #"/collections/{collection}/curations"; #"/collections/{collection}/curation_sets"] #"";
   Describe UpsertOverride #"override_upsert" [ #"POST"; #"PUT"]
     [ #"/collections/{collection}/overrides/{override}"; #"/collections/{collection}/curations/{override}"; #"/collections/{collection}/curation_sets/{override}"] #"application/json";
   Describe GetOverride #"override_get" [ #"GET"]
     [ #"/collections/{collection}/overrides/{override}"; #"/collections/{collection}/curations/{override}"; #"/collections/{collection}/curation_sets/{override}"] #"";
   Describe DeleteOverride #"override_delete" [ #"DELETE"]
     [ #"/collections/{collection}/overrides/{override}"; #"/collections/{collection}/curations/{override}"; #"/collections/{collection}/curation_sets/{override}"] #"";
   Describe ListAliases #"aliases_list" [ #"GET"]
     [ #"/aliases"; #"/collections/{collection}/aliases"] #"";
   Describe UpsertAlias #"alias_upsert" [ #"POST"; #"PUT"]
     [ #"/aliases/{alias}"] #"application/json";
   Describe GetAlias #"alias_get" [ #"GET"]
     [ #"/aliases/{alias}"] #"";
   Describe DeleteAlias #"alias_delete" [ #"DELETE"]
     [ #"/aliases/{alias}"] #"";
   Describe LinksList #"links_list" [ #"GET"]
     [ #"/links"] #"";
   Describe LinksPing #"links_ping" [ #"GET"]
     [ #"/links/ping"] #"";
   Describe LinksConnect #"links_connect" [ #"POST"]
     [ #"/links/connect"] #"application/json";
   Describe LinksDisconnect #"links_disconnect" [ #"POST"]
     [ #"/links/disconnect"] #"application/json";
   Describe ListUsers #"users_list" [ #"GET"]
     [ #"/users"] #"";
   Describe CreateUser #"user_create" [ #"POST"]
     [ #"/users"] #"application/json";
   Describe GetUser #"user_get" [ #"GET"]
     [ #"/users/{user}"] #"";
   Describe UpdateUser #"user_update" [ #"PUT"]
     [ #"/users/{user}"] #"application/json";
   Describe DeleteUser #"user_delete" [ #"DELETE"]
     [ #"/users/{user}"] #"";
   Describe ListKeys #"keys_list" [ #"GET"]
     [ #"/keys"] #"";
   Describe CreateKey #"key_create" [ #"POST"]
     [ #"/keys"] #"application/json";
   Describe GetKey #"key_get" [ #"GET"]
     [ #"/keys/{key}"] #"";
   Describe UpdateKey #"key_update" [ #"PUT"]
     [ #"/keys/{key}"] #"application/json";
   Describe DeleteKey #"key_delete" [ #"DELETE"]
     [ #"/keys/{key}"] #"";
   Describe ListPresets #"presets_list" [ #"GET"]
     [ #"/presets"] #"";
   Describe UpsertPreset #"preset_upsert" [ #"POST"; #"PUT"]
     [ #"/presets/{preset}"] #"application/json";
   Describe GetPreset #"preset_get" [ #"GET"]
     [ #"/presets/{preset}"] #"";
   Describe DeletePreset #"preset_delete" [ #"DELETE"]
     [ #"/presets/{preset}"] #"";
   Describe AnalyticsClick #"analytics_click" [ #"POST"]
     [ #"/analytics/click"] #"application/json";
   Describe ListModules #"modules_list" [ #"GET"]
     [ #"/modules"] #"";
   Describe GetModuleSyntax #"module_syntax" [ #"GET"]
     [ #"/modules/{module}/syntax"] #"";
   Describe ModuleLoad #"module_load" [ #"POST"]
     [ #"/loadmodule"; #"/loadmodule/{module}"; #"/modules/load"; #"/modules/load/{module}"] #"application/json";
   Describe ModuleUnload #"module_unload" [ #"POST"]
     [ #"/unloadmodule"; #"/unloadmodule/{module}"; #"/modules/unload"; #"/modules/unload/{module}"] #"application/json";
   Describe ModuleAPI #"module_api" [ #"GET"; #"POST"; #"PUT"; #"PATCH"; #"DELETE"]
     [ #"/modules/{module}/{path}"] #"application/json"].

Definition is_placeholder (Segment : bytes) : bool :=
  (2 <=? size Segment) && bool_decide (head Segment = Some "{"%char) && bool_decide (last Segment = Some "}"%char).

Fixpoint match_segments (PatternSegments PathSegments : list bytes) : bool :=
  match PatternSegments, PathSegments with
  | [], [] => true
  | p :: ps, s :: ss => (is_placeholder p || bool_decide (p = s)) && match_segments ps ss
  | _, _ => false
  end.

Definition MatchesCatalogPath (Pattern Path : bytes) : bool :=
  match_segments (SplitRouteSegments Pattern) (SplitRouteSegments Path).

Definition add_method (Result : list bytes) (Method : bytes) : list bytes :=
  if bool_decide (Method ∈ Result) then Result else Result ++ [Method].

Definition add_methods (NormalizedPath : bytes) (Result : list bytes) (d : HttpRouteDescription) : list bytes :=
  if existsb (fun Pattern => MatchesCatalogPath Pattern NormalizedPath) (Paths d)
  then foldl add_method Result (Methods d) else Result.

Definition str_le (a b : bytes) : Prop := str_leb a b = true.

#[global] Instance str_le_dec a b : Decision (str_le a b).
Proof. unfold str_le. apply _. Defined.

Definition GetAllowedHttpMethods (Path : bytes) : list bytes :=
  merge_sort str_le (foldl (add_methods (NormalizeRoutePath Path)) [] GetHttpRouteDescriptions).

(** ** Resolution *)

Definition is_exact (Path : bytes) : bool := bool_decide (find_char (is_byte "{"%char) Path = None).

(** The table of exact routes: a later description overwrites an earlier one. *)

Definition exact_step (Path Method : bytes) (acc : RouteAction) (d : HttpRouteDescription) : RouteAction :=
  if existsb (fun p => is_exact p && bool_decide (p = Path)) (Paths d) && bool_decide (Method ∈ Methods d)
  then Action d else acc.

Definition ResolveExactRoute (Path Method : bytes) : RouteAction :=
  foldl (exact_step Path Method) NotFound GetHttpRouteDescriptions.

Definition GET : bytes := #"GET".
Definition POST : bytes := #"POST".
Definition PUT : bytes := #"PUT".
Definition DELETE : bytes := #"DELETE".
Definition PATCH : bytes := #"PATCH".

Definition four_segments (Path : bytes) : bool := (length (SplitRouteSegments Path) =? 4)%nat.

Definition resolve_module (Path Method : bytes) : RouteAction :=
  let ModuleSegments := SplitRouteSegments Path in
  if (length ModuleSegments =? 3)%nat && bool_decide (ModuleSegments !! 2%nat = Some #"syntax") && bool_decide (Method = GET)
  then GetModuleSyntax
  else if starts_with #"/modules/load/" Path && bool_decide (Method = POST)
  then if SingleChildRoute Path Method #"/modules/load/" [POST] then ModuleLoad else NotFound
  else if starts_with #"/modules/unload/" Path && bool_decide (Method = POST)
  then if SingleChildRoute Path Method #"/modules/unload/" [POST] then ModuleUnload else NotFound
  else ModuleAPI.

(** A list of tests in the order of the code, the first that holds deciding. *)

Fixpoint first_route (l : list (bool * RouteAction)) (otherwise : RouteAction) : RouteAction :=
  match l with
  | [] => otherwise
  | (b, a) :: r => if b then a else first_route r otherwise
  end.

Definition global_tests (Path Method : bytes) : list (bool * RouteAction) :=
  [(SingleChildRoute Path Method #"/synonyms/global/" [POST; PUT], UpsertGlobalSynonym);
   (SingleChildRoute Path Method #"/synonym_sets/global/" [POST; PUT], UpsertGlobalSynonym);
   (PrefixRoute Path Method #"/synonym_sets/global/items/" [POST; PUT] && four_segments Path, UpsertGlobalSynonym);
   (SingleChildRoute Path Method #"/synonyms/global/" [GET], GetGlobalSynonym);
   (SingleChildRoute Path Method #"/synonym_sets/global/" [GET], GetGlobalSynonym);
   (PrefixRoute Path Method #"/synonym_sets/global/items/" [GET] && four_segments Path, GetGlobalSynonym);
   (SingleChildRoute Path Method #"/synonyms/global/" [DELETE], DeleteGlobalSynonym);
   (SingleChildRoute Path Method #"/synonym_sets/global/" [DELETE], DeleteGlobalSynonym);
   (PrefixRoute Path Method #"/synonym_sets/global/items/" [DELETE] && four_segments Path, DeleteGlobalSynonym);
   (SingleChildRoute Path Method #"/stopwords/global/" [DELETE], DeleteGlobalStopword);
   (SingleChildRoute Path Method #"/stopword_sets/global/" [DELETE], DeleteGlobalStopword);
   (PrefixRoute Path Method #"/stopword_sets/global/items/" [DELETE] && four_segments Path, DeleteGlobalStopword)].

Definition is_method (Method m : bytes) : bool := bool_decide (Method = m).

Definition collection_tests (i : CollectionRouteInfo) (Method : bytes) : list (bool * RouteAction) :=
  let by_method := is_method Method in
  let single := IsDocumentsChild i && segment_count i 4 && negb (IsReservedDocumentOperation i) in
  let override := (IsOverridesChild i || IsCurationsChild i) && segment_count i 4 in
  [(root_named i #"aliases" && by_method GET, ListAliases);
   (IsCollectionPath i && segment_count i 3 && (SegmentEquals i 2 #"vector_search" || IsVectorSearchAlias i) &&
    (by_method GET || by_method POST), VectorSearch);
   (IsSynonymsRoot i && by_method GET, ListSynonyms);
   (IsSynonymsChild i && segment_count i 4 && (by_method POST || by_method PUT), UpsertSynonym);
   (IsSynonymsChild i && segment_count i 4 && by_method GET, GetSynonym);
   (IsSynonymsChild i && segment_count i 4 && by_method DELETE, DeleteSynonym);
   (IsDocumentsSearch i && (by_method GET || by_method POST), DocumentSearch);
   (IsCollectionLang i && by_method GET, GetCollectionLanguage);
   (IsCollectionRoot i && by_method GET, GetCollection);
   (IsCollectionRoot i && by_method DELETE, DeleteCollection);
   (IsCollectionUpdate i && by_method POST, UpdateCollection);
   (IsDocumentsRoot i && by_method GET, ListDocuments);
   (IsDocumentContext i && by_method GET, GetDocumentContext);
   (single && by_method GET, GetDocument);
   (IsDocumentsImport i && by_method POST, BulkImportDocuments);
   (IsDocumentsRoot i && by_method POST, AddDocument);
   (single && by_method PUT, UpdateDocument);
   (single && by_method DELETE, DeleteDocument);
   (IsDocumentsRoot i && by_method DELETE, DeleteDocumentsByFilter);
   (IsDocumentsUpdateByQuery i && by_method POST, UpdateByQuery);
   (IsDocumentsDeleteByQuery i && by_method POST, DeleteByQuery);
   (IsDocumentsFacetCounts i && (by_method GET || by_method POST), FacetCounts);
   (IsDocumentsExport i && (by_method GET || by_method POST), ExportDocuments);
   (IsDocumentsMaybe i && (by_method GET || by_method POST), MaybeSuggest);
   (IsStopwordsRoot i && by_method GET, ListStopwords);
   (IsStopwordsRoot i && by_method POST, CreateStopword);
   (IsStopwordsChild i && segment_count i 4 && by_method DELETE, DeleteStopword);
   ((IsOverridesRoot i || IsCurationsRoot i) && by_method GET, ListOverrides);
   (override && (by_method POST || by_method PUT), UpsertOverride);
   (override && by_method GET, GetOverride);
   (override && by_method DELETE, DeleteOverride)].

Definition entity_tests (Path Method : bytes) : list (bool * RouteAction) :=
  [(SingleChildRoute Path Method #"/aliases/" [POST; PUT], UpsertAlias);
   (SingleChildRoute Path Method #"/aliases/" [GET], GetAlias);
   (SingleChildRoute Path Method #"/aliases/" [DELETE], DeleteAlias);
   (SingleChildRoute Path Method #"/users/" [GET], GetUser);
   (SingleChildRoute Path Method #"/users/" [DELETE], DeleteUser);
   (SingleChildRoute Path Method #"/users/" [PUT], UpdateUser);
   (SingleChildRoute Path Method #"/keys/" [GET], GetKey);
   (SingleChildRoute Path Method #"/keys/" [DELETE], DeleteKey);
   (SingleChildRoute Path Method #"/keys/" [PUT], UpdateKey);
   (SingleChildRoute Path Method #"/presets/" [POST; PUT], UpsertPreset);
   (SingleChildRoute Path Method #"/presets/" [GET], GetPreset);
   (SingleChildRoute Path Method #"/presets/" [DELETE], DeletePreset)].

Definition ResolveHttpRoute (RequestPath Method : bytes) : RouteAction :=
  let Path := NormalizeRoutePath RequestPath in
  let ExactAction := ResolveExactRoute Path Method in
  if negb (bool_decide (ExactAction = NotFound)) then ExactAction
  else if SingleChildRoute Path Method #"/loadmodule/" [POST] then ModuleLoad
  else if SingleChildRoute Path Method #"/unloadmodule/" [POST] then ModuleUnload
  else if PrefixRoute Path Method #"/modules/" [GET; POST; PUT; DELETE; PATCH] then resolve_module Path Method
  else first_route (global_tests Path Method ++ collection_tests (BuildCollectionRouteInfo Path) Method ++ entity_tests Path Method)
         NotFound.

End HttpRoutes.
