(* ===== verification/HttpRoutesProps.v ===== *)
(** * Properties of HTTP routing

    The resolver against the published catalog: every request it routes to a
    built-in action is one the catalog describes. *)

From S2P Require Import Prelude CText HttpRoutes.

Module HttpRoutesProps.
Import HttpRoutes.

(** ** Segments *)

Lemma split_segments_app cur s r :
  split_segments cur (s ++ slash :: r) = split_segments cur s ++ split_segments [] r.
Proof.
  revert cur. induction s as [|c s IH]; intros cur; cbn [app split_segments].
  - unfold is_byte. rewrite bool_decide_eq_true_2 by done. by case_bool_decide.
  - destruct (is_byte slash c); [case_bool_decide|]; by rewrite IH.
Qed.

Lemma split_segments_word cur s :
  slash ∉ s -> split_segments cur s = if bool_decide (cur ++ s = []) then [] else [cur ++ s].
Proof.
  revert cur. induction s as [|c s IH]; intros cur Hs; cbn [split_segments]; [by rewrite app_nil_r|].
  unfold is_byte. rewrite bool_decide_eq_false_2 by set_solver. rewrite IH by set_solver. by rewrite <- app_assoc.
Qed.

(** A single child: the segments of the prefix and one more. *)

Lemma SingleChildRoute_segments Path Method base Methods :
  SingleChildRoute Path Method (base ++ [slash]) Methods = true ->
  exists x, SplitRouteSegments Path = SplitRouteSegments base ++ [x] /\ Method ∈ Methods.
Proof.
  unfold SingleChildRoute, PrefixRoute, MatchesMethod.
  destruct (starts_with (base ++ [slash]) Path) eqn:Hp; [|done].
  destruct (Z.leb_spec (size Path) (size (base ++ [slash]))) as [|Hlt]; [done|].
  destruct (bool_decide (Method ∈ Methods)) eqn:Hm; [|done]. cbn [negb]. rewrite bool_decide_eq_true. intros Hn.
  apply starts_with_spec in Hp as [x ->]. rewrite drop_app_length in Hn. exists x.
  split; [|by apply bool_decide_eq_true in Hm].
  unfold SplitRouteSegments. rewrite <- app_assoc. cbn [app]. rewrite split_segments_app. f_equal.
  assert (Hx : x <> []) by (intros ->; rewrite app_nil_r in Hlt; lia).
  rewrite split_segments_word; [by rewrite bool_decide_eq_false_2|].
  apply find_char_None in Hn. rewrite Forall_forall in Hn. intros Hin. specialize (Hn _ Hin).
  unfold is_byte in Hn. by rewrite bool_decide_eq_true_2 in Hn.
Qed.

Lemma PrefixRoute_segments Path Method base Methods :
  PrefixRoute Path Method (base ++ [slash]) Methods = true ->
  exists l, SplitRouteSegments Path = SplitRouteSegments base ++ l /\ Method ∈ Methods.
Proof.
  unfold PrefixRoute, MatchesMethod. destruct (starts_with (base ++ [slash]) Path) eqn:Hp; [|done].
  cbn [negb]. destr_goal; [done|]. rewrite bool_decide_eq_true. apply starts_with_spec in Hp as [x ->]. intros Hm.
  exists (SplitRouteSegments x). split; [|done]. unfold SplitRouteSegments. rewrite <- app_assoc. cbn [app].
  apply split_segments_app.
Qed.

(** ** The catalog as a test *)

Definition describes (a : RouteAction) (Method : bytes) (segs : list bytes) (d : HttpRouteDescription) : bool :=
  bool_decide (Action d = a) && bool_decide (Method ∈ Methods d) &&
  existsb (fun p => match_segments (SplitRouteSegments p) segs) (Paths d).

Definition documented (a : RouteAction) (Method : bytes) (segs : list bytes) : bool :=
  existsb (describes a Method segs) GetHttpRouteDescriptions.

Lemma match_segments_refl l : match_segments l l = true.
Proof.
  induction l as [|x l IH]; [done|]. cbn. rewrite bool_decide_eq_true_2 by done. by rewrite orb_true_r.
Qed.

Lemma exact_documented Path Method :
  ResolveExactRoute Path Method <> NotFound ->
  documented (ResolveExactRoute Path Method) Method (SplitRouteSegments Path) = true.
Proof.
  unfold ResolveExactRoute, documented. generalize GetHttpRouteDescriptions. intros l.
  enough (H : foldl (exact_step Path Method) NotFound l = NotFound \/
    existsb (describes (foldl (exact_step Path Method) NotFound l) Method (SplitRouteSegments Path)) l = true) by tauto.
  induction l as [|d l IH] using rev_ind; [by left|]. rewrite foldl_app, existsb_app. cbn [foldl existsb].
  revert IH. generalize (foldl (exact_step Path Method) NotFound l). intros acc IH. unfold exact_step.
  destruct (existsb _ (Paths d) && _) eqn:E.
  - right. apply andb_true_iff in E as [Hp Hm]. apply orb_true_iff. right. rewrite orb_false_r. unfold describes.
    rewrite bool_decide_eq_true_2, Hm by done. apply existsb_exists in Hp as (p & Hin & [_ Hp]%andb_true_iff).
    apply bool_decide_eq_true in Hp as ->. apply existsb_exists. exists Path. split; [done|]. apply match_segments_refl.
  - destruct IH as [IH|IH]; [by left|right]. by rewrite IH.
Qed.

(** ** The tests of the resolver *)

Definition sound_test (Method : bytes) (segs : list bytes) (t : bool * RouteAction) : Prop :=
  t.1 = true -> documented t.2 Method segs = true.

Lemma first_route_sound Method segs l a :
  Forall (sound_test Method segs) l -> first_route l NotFound = a -> a <> NotFound ->
  documented a Method segs = true.
Proof.
  induction 1 as [|[b x] l Hx _ IH]; cbn [first_route]; [by intros <-|].
  destruct b; [intros <- _; by apply Hx|exact IH].
Qed.

(** A child route of a given prefix is documented, whatever the child. *)

Lemma child_sound Path Method base Methods a :
  (forall x, Forall (fun m => documented a m (SplitRouteSegments base ++ [x]) = true) Methods) ->
  sound_test Method (SplitRouteSegments Path) (SingleChildRoute Path Method (base ++ [slash]) Methods, a).
Proof.
  intros H Ht. cbn [fst snd] in *. apply SingleChildRoute_segments in Ht as (x & -> & Hm).
  specialize (H x). rewrite Forall_forall in H. by apply H.
Qed.

Lemma grandchild_sound Path Method base Methods a :
  length (SplitRouteSegments base) = 3%nat ->
  (forall x, Forall (fun m => documented a m (SplitRouteSegments base ++ [x]) = true) Methods) ->
  sound_test Method (SplitRouteSegments Path) (PrefixRoute Path Method (base ++ [slash]) Methods && four_segments Path, a).
Proof.
  intros Hl H [Hp Hf]%andb_true_iff. cbn [fst snd] in *. apply PrefixRoute_segments in Hp as (l & He & Hm).
  unfold four_segments in Hf. apply Nat.eqb_eq in Hf. rewrite He, length_app, Hl in Hf.
  destruct l as [|x [|??]]; [cbn in Hf; lia| |cbn in Hf; lia]. rewrite He.
  specialize (H x). rewrite Forall_forall in H. by apply H.
Qed.

Ltac child_route base :=
  apply (child_sound _ _ base); intros x; repeat constructor; vm_compute; reflexivity.

Lemma global_tests_sound Path Method : Forall (sound_test Method (SplitRouteSegments Path)) (global_tests Path Method).
Proof.
  unfold global_tests. repeat apply Forall_cons_2; [..|constructor].
  1,4,7: child_route #"/synonyms/global".
  1,3,5: child_route #"/synonym_sets/global".
  1-3: apply (grandchild_sound _ _ #"/synonym_sets/global/items"); [done|]; intros x; repeat constructor; vm_compute; reflexivity.
  - child_route #"/stopwords/global".
  - child_route #"/stopword_sets/global".
  - apply (grandchild_sound _ _ #"/stopword_sets/global/items"); [done|]. intros x; repeat constructor; vm_compute; reflexivity.
Qed.

Lemma entity_tests_sound Path Method : Forall (sound_test Method (SplitRouteSegments Path)) (entity_tests Path Method).
Proof.
  unfold entity_tests. repeat apply Forall_cons_2; [..|constructor].
  1-3: child_route #"/aliases".
  1-3: child_route #"/users".
  1-3: child_route #"/keys".
  1-3: child_route #"/presets".
Qed.

(** ** Collection routes *)

Section Collection.
Variable Path : bytes.
Let i := BuildCollectionRouteInfo Path.

Lemma collection_path : IsCollectionPath i = true ->
  exists c r, Segments i = SplitRouteSegments Path /\ SplitRouteSegments Path = #"collections" :: c :: r.
Proof.
  unfold i, BuildCollectionRouteInfo. destruct (starts_with _ _); [|done]. cbn [negb Segments IsCollectionPath].
  destruct (SplitRouteSegments Path) as [|a [|c r]]; [done|done|]. cbn. rewrite bool_decide_eq_true. intros [= ->]. eauto.
Qed.

(** The shape of a path from its number of segments and one of their names. *)

Lemma segments_named n k name :
  IsCollectionPath i = true -> segment_count i n = true -> SegmentEquals i k name = true ->
  exists c r, SplitRouteSegments Path = #"collections" :: c :: r /\ length r = (n - 2)%nat /\
    (#"collections" :: c :: r) !! k = Some name.
Proof.
  intros Hc Hn Hk. apply collection_path in Hc as (c & r & Hs & He). exists c, r.
  unfold segment_count, SegmentEquals in *. rewrite Hs, He in *. apply Nat.eqb_eq in Hn. apply bool_decide_eq_true in Hk.
  cbn [length] in Hn. split; [done|]. split; [lia|done].
Qed.

Lemma IsCollectionRoot_shape : IsCollectionRoot i = true -> exists c, SplitRouteSegments Path = [ #"collections"; c].
Proof.
  intros [Hc Hn]%andb_true_iff. apply collection_path in Hc as (c & r & Hs & He).
  unfold segment_count in Hn. rewrite Hs, He in Hn. destruct r; [eauto|done].
Qed.

Lemma root_named_shape name : root_named i name = true -> exists c, SplitRouteSegments Path = [ #"collections"; c; name].
Proof.
  intros [[Hc Hn]%andb_true_iff Hk]%andb_true_iff.
  destruct (segments_named _ _ _ Hc Hn Hk) as (c & r & He & Hl & Hx). rewrite He.
  destruct r as [|x [|??]]; [done| |done]. cbn in Hx. apply (inj Some) in Hx as ->. eauto.
Qed.

Lemma child_named_shape name :
  child_named i name = true -> segment_count i 4 = true -> exists c x, SplitRouteSegments Path = [ #"collections"; c; name; x].
Proof.
  intros [[Hc _]%andb_true_iff Hk]%andb_true_iff Hn.
  destruct (segments_named _ _ _ Hc Hn Hk) as (c & r & He & Hl & Hx). rewrite He.
  destruct r as [|x [|y [|??]]]; [done|done| |done]. cbn in Hx. apply (inj Some) in Hx as ->. eauto.
Qed.

Lemma document_operation_shape name :
  document_operation i name = true -> exists c, SplitRouteSegments Path = [ #"collections"; c; #"documents"; name].
Proof.
  intros [[Hd Hn]%andb_true_iff Hk]%andb_true_iff. destruct (child_named_shape _ Hd Hn) as (c & x & He).
  apply andb_true_iff in Hd as [[Hc _]%andb_true_iff _].
  destruct (segments_named _ _ _ Hc Hn Hk) as (c' & r & He' & _ & Hx). rewrite He in He'. rewrite He.
  apply (inj2 cons) in He' as [_ [-> <-]%(inj2 cons)]. cbn in Hx. apply (inj Some) in Hx as ->. eauto.
Qed.

Lemma IsDocumentContext_shape :
  IsDocumentContext i = true -> exists c x, SplitRouteSegments Path = [ #"collections"; c; #"documents"; x; #"context"].
Proof.
  intros [[[Hc Hn]%andb_true_iff H2]%andb_true_iff H4]%andb_true_iff.
  destruct (segments_named _ _ _ Hc Hn H2) as (c & r & He & Hl & Hx).
  destruct (segments_named _ _ _ Hc Hn H4) as (c' & r' & He' & _ & Hy). rewrite He in He'. rewrite He.
  apply (inj2 cons) in He' as [_ [<- <-]%(inj2 cons)].
  destruct r as [|x [|y [|z [|??]]]]; [done|done|done| |done]. cbn in Hx, Hy.
  apply (inj Some) in Hx as ->. apply (inj Some) in Hy as ->. eauto.
Qed.

End Collection.

(** Splits the conditions of a test, reads off the shape of the path and the
    method, and looks the route up in the catalog. *)

Ltac split_test :=
  repeat match goal with
  | H : (_ && _) = true |- _ => apply andb_true_iff in H as [? ?]
  | H : (_ || _) = true |- _ => apply orb_true_iff in H as [H|H]
  | H : is_method ?m _ = true |- _ => apply bool_decide_eq_true in H; subst m
  end.

Ltac path_shape :=
  match goal with
  | H : IsCollectionRoot _ = true |- _ => apply IsCollectionRoot_shape in H as [? ->]
  | H : IsDocumentContext _ = true |- _ => apply IsDocumentContext_shape in H as (? & ? & ->)
  | H : document_operation _ _ = true |- _ => apply document_operation_shape in H as [? ->]
  | H : root_named _ _ = true |- _ => apply root_named_shape in H as [? ->]
  | H : child_named _ _ = true, H' : segment_count _ 4 = true |- _ =>
      apply (fun H => child_named_shape _ _ H H') in H as (? & ? & ->)
  end.

Ltac collection_route :=
  intros Ht; cbn [fst snd] in Ht |- *;
  unfold IsSynonymsRoot, IsSynonymsChild, IsStopwordsRoot, IsStopwordsChild, IsOverridesRoot, IsOverridesChild,
    IsCurationsRoot, IsCurationsChild, IsCollectionLang, IsCollectionUpdate, IsDocumentsRoot, IsDocumentsChild,
    IsDocumentsSearch, IsDocumentsImport, IsDocumentsFacetCounts, IsDocumentsExport, IsDocumentsMaybe,
    IsDocumentsUpdateByQuery, IsDocumentsDeleteByQuery, IsVectorSearchAlias in Ht;
  split_test; path_shape; vm_compute; reflexivity.

Lemma vector_search_shape i :
  IsCollectionPath i && segment_count i 3 && (SegmentEquals i 2 #"vector_search" || IsVectorSearchAlias i) = true ->
  root_named i #"vector_search" = true \/ root_named i #"search" = true.
Proof.
  intros H. apply andb_true_iff in H as [H1 H]. apply orb_true_iff in H as [H|H]; [left|by right].
  unfold root_named. by rewrite H1, H.
Qed.

Lemma collection_tests_sound Path Method :
  Forall (sound_test Method (SplitRouteSegments Path)) (collection_tests (BuildCollectionRouteInfo Path) Method).
Proof.
  unfold collection_tests. cbv zeta. repeat apply Forall_cons_2; [..|constructor].
  2:{ intros [Hv Hm]%andb_true_iff. apply vector_search_shape in Hv as [H|H]; cbn [fst snd]; split_test; path_shape;
        vm_compute; reflexivity. }
  all: collection_route.
Qed.

(** ** Modules *)

Lemma resolve_module_sound Path Method a :
  PrefixRoute Path Method #"/modules/" [GET; POST; PUT; DELETE; PATCH] = true ->
  resolve_module Path Method = a -> a <> NotFound -> a <> ModuleAPI ->
  documented a Method (SplitRouteSegments Path) = true.
Proof.
  intros Hp. apply (PrefixRoute_segments _ _ #"/modules") in Hp as (l & Hl & _).
  unfold resolve_module. destruct (_ && _ && _) eqn:E1.
  - intros <- _ _. apply andb_true_iff in E1 as [[Hn Hs]%andb_true_iff Hm].
    apply bool_decide_eq_true in Hm as ->. apply Nat.eqb_eq in Hn. apply bool_decide_eq_true in Hs.
    rewrite Hl in *. change (SplitRouteSegments #"/modules") with [ #"modules"] in *.
    destruct l as [|x [|y [|??]]]; [done|done| |done]. cbn in Hs. apply (inj Some) in Hs as ->. vm_compute. reflexivity.
  - destruct (starts_with #"/modules/load/" Path && _) eqn:E2.
    + destruct (SingleChildRoute Path Method #"/modules/load/" [POST]) eqn:E3; [|by intros <-]. intros <- _ _.
      revert E3. apply (child_sound _ _ #"/modules/load"). intros x. repeat constructor; vm_compute; reflexivity.
    + destruct (starts_with #"/modules/unload/" Path && _) eqn:E4; [|by intros <-].
      destruct (SingleChildRoute Path Method #"/modules/unload/" [POST]) eqn:E3; [|by intros <-]. intros <- _ _.
      revert E3. apply (child_sound _ _ #"/modules/unload"). intros x. repeat constructor; vm_compute; reflexivity.
Qed.

(** ** Properties *)

Lemma resolved_documented Path Method a :
  ResolveHttpRoute Path Method = a ->
  a <> NotFound -> a <> ModuleAPI -> documented a Method (SplitRouteSegments (NormalizeRoutePath Path)) = true.
Proof.
  intros <-. unfold ResolveHttpRoute. generalize (NormalizeRoutePath Path). clear Path. intros Path. cbv zeta.
  case_bool_decide as He; cbn [negb]; [|intros Hn _; by apply exact_documented]. clear He.
  destruct (SingleChildRoute Path Method #"/loadmodule/" [POST]) eqn:E1.
  { intros _ _. revert E1. apply (child_sound _ _ #"/loadmodule"). intros x. repeat constructor; vm_compute; reflexivity. }
  destruct (SingleChildRoute Path Method #"/unloadmodule/" [POST]) eqn:E2.
  { intros _ _. revert E2. apply (child_sound _ _ #"/unloadmodule"). intros x. repeat constructor; vm_compute; reflexivity. }
  destruct (PrefixRoute Path Method #"/modules/" _) eqn:E3; [by apply resolve_module_sound|].
  intros Hn _. eapply first_route_sound; [|done|done].
  repeat apply Forall_app_2; [apply global_tests_sound|apply collection_tests_sound|apply entity_tests_sound].
Qed.

Lemma elem_of_add_method l m x : x ∈ add_method l m <-> x ∈ l \/ x = m.
Proof. unfold add_method. case_bool_decide; set_solver. Qed.

Lemma elem_of_add_methods l ms x : x ∈ foldl add_method l ms <-> x ∈ l \/ x ∈ ms.
Proof.
  revert l. induction ms as [|m ms IH]; intros l; cbn [foldl]; [set_solver|]. rewrite IH, elem_of_add_method. set_solver.
Qed.

Lemma elem_of_allowed Path ds acc x :
  x ∈ foldl (add_methods Path) acc ds <->
  x ∈ acc \/ exists d, d ∈ ds /\ x ∈ Methods d /\ existsb (fun p => MatchesCatalogPath p Path) (Paths d) = true.
Proof.
  revert acc. induction ds as [|d ds IH]; intros acc; cbn [foldl].
  - split; [by left|]. intros [H|(d & H & _)]; [done|]. by apply not_elem_of_nil in H.
  - rewrite IH. setoid_rewrite elem_of_cons. unfold add_methods.
    destruct (existsb _ (Paths d)) eqn:E; [rewrite elem_of_add_methods|]; split.
    + intros [[H|H]|(d' & H & H')]; eauto 7.
    + intros [H|(d' & [->|H] & H' & H'')]; eauto 7.
    + intros [H|(d' & H & H')]; eauto 7.
    + intros [H|(d' & [->|H] & H' & H'')]; [by left|congruence|eauto 7].
Qed.

Lemma documented_spec a Method Path :
  documented a Method (SplitRouteSegments Path) = true ->
  exists d, d ∈ GetHttpRouteDescriptions /\ Action d = a /\ Method ∈ Methods d /\
    exists p, p ∈ Paths d /\ MatchesCatalogPath p Path = true.
Proof.
  unfold documented. generalize GetHttpRouteDescriptions. intros l H.
  apply existsb_exists in H as (d & Hd & [[Ha Hm]%andb_true_iff Hp]%andb_true_iff).
  apply existsb_exists in Hp as (p & Hin & Hp). exists d. rewrite list_elem_of_In.
  apply bool_decide_eq_true in Ha. apply bool_decide_eq_true in Hm. split_and!; [done|done|done|].
  exists p. by rewrite list_elem_of_In.
Qed.

Lemma allowed_spec Path m :
  m ∈ GetAllowedHttpMethods Path <->
  exists d, d ∈ GetHttpRouteDescriptions /\ m ∈ Methods d /\
    existsb (fun p => MatchesCatalogPath p (NormalizeRoutePath Path)) (Paths d) = true.
Proof.
  unfold GetAllowedHttpMethods. generalize GetHttpRouteDescriptions (NormalizeRoutePath Path). intros l q.
  rewrite merge_sort_Permutation, elem_of_allowed. split; [|by right].
  intros [H|H]; [by apply not_elem_of_nil in H|done].
Qed.

(** Every routed request is in the catalog. If the resolver maps a method and a
    path to a built-in action, the catalog has a description of that action that
    lists the method and a pattern that matches the path; so the method is among
    those [GetAllowedHttpMethods] reports for the path. *)
Theorem route_in_catalog Path Method a :
  ResolveHttpRoute Path Method = a -> a <> NotFound -> a <> ModuleAPI ->
  (exists d, d ∈ GetHttpRouteDescriptions /\ Action d = a /\ Method ∈ Methods d /\
     exists p, p ∈ Paths d /\ MatchesCatalogPath p (NormalizeRoutePath Path) = true) /\
  Method ∈ GetAllowedHttpMethods Path.
Proof.
  intros Hr H1 H2. apply resolved_documented in Hr; [|done|done].
  apply documented_spec in Hr as (d & Hd & Ha & Hm & Hp). split; [eauto 7|].
  apply allowed_spec. exists d. split_and!; [done|done|]. destruct Hp as (p & Hin & Hp).
  apply existsb_exists. exists p. by rewrite <- list_elem_of_In.
Qed.

Lemma route_in_catalog_witness :
  PUT ∈ GetAllowedHttpMethods #"/keys/k1/?pretty".
Proof. apply (route_in_catalog #"/keys/k1/?pretty" PUT UpdateKey); [vm_compute; reflexivity|discriminate..]. Defined.

End HttpRoutesProps.
