(* ===== verification/HttpMessage.v ===== *)
(** * HTTP messages: src/api/httpserver.cpp

    The text of requests and responses: [UrlDecode], [ParseQueryParams],
    [ParseHeaders], [HasValidRequestFramingHeaders], [ParseHttpRequest] and the
    text that [SendResponse] builds, with the reading of the Content-Length
    field that the two readers of the request buffer share. *)

From S2P Require Import Prelude CText StdMap SearchCache HttpRoutes.

Module HttpMessage.
Import SearchCache HttpRoutes.

Definition HTTP_MAX_HEADER_SIZE : Z := 64 * 1024.
Definition HTTP_MAX_HEADER_COUNT : Z := 1000.
Definition HTTP_MAX_REQUESTS_PER_CONNECTION : Z := 10000.
Definition HTTP_KEEP_ALIVE_TIMEOUT_SEC : Z := 30.
Definition HTTP_CONNECTION_TIMEOUT_SECONDS : Z := 60.
Definition HTTP_MAX_REQUEST_SIZE : Z := 100 * 1024 * 1024.
Definition HTTP_MAX_RESPONSE_SIZE : Z := 100 * 1024 * 1024.
Definition HTTP_MAX_DECODED_SIZE : Z := 10 * 1024 * 1024.

Definition CR : ascii := chr 13.
Definition LF : ascii := chr 10.
Definition crlf : bytes := [CR; LF].
Definition header_end : bytes := crlf ++ crlf.

Definition blank (c : ascii) : bool := bool_decide (c ∈ [" "%char; chr 9]).

Definition lowercase (s : bytes) : bytes := tolower <$> s.

Definition TrimHTTPFieldValue (Value : bytes) : bytes := trim blank Value.

(** ** Decoding *)

Definition IsHexDigit (C : ascii) : bool := isxdigit C.

Definition HexDigitValue (C : ascii) : Z :=
  if in_range 48 57 C then code C - 48 else 10 + (code (tolower C) - 97).

(** [room] is what [HTTP_MAX_DECODED_SIZE] leaves of the result. *)

Fixpoint url_decode (DecodePlusAsSpace : bool) (room : Z) (Str : bytes) : bytes :=
  match Str with
  | [] => []
  | c :: r =>
      if room <=? 0 then []
      else if bool_decide (c = "%"%char) then
        match r with
        | a :: b :: r' =>
            if IsHexDigit a && IsHexDigit b then
              let HexVal := Z.lor (Z.shiftl (HexDigitValue a) 4) (HexDigitValue b) in
              (if HexVal =? 0 then c else chr HexVal) :: url_decode DecodePlusAsSpace (room - 1) r'
            else c :: url_decode DecodePlusAsSpace (room - 1) r
        | _ => c :: url_decode DecodePlusAsSpace (room - 1) r
        end
      else if bool_decide (c = "+"%char) && DecodePlusAsSpace then " "%char :: url_decode DecodePlusAsSpace (room - 1) r
      else c :: url_decode DecodePlusAsSpace (room - 1) r
  end.

Definition UrlDecode (Str : bytes) (DecodePlusAsSpace : bool) : bytes :=
  url_decode DecodePlusAsSpace HTTP_MAX_DECODED_SIZE Str.

Definition add_param (Params : list (bytes * bytes)) (Pair : bytes) : list (bytes * bytes) :=
  match find_char (is_byte "="%char) Pair with
  | Some EqPos => StdMap.put (UrlDecode (take EqPos Pair) true) (UrlDecode (drop (S EqPos) Pair) true) Params
  | None => if bool_decide (Pair = []) then Params else StdMap.put (UrlDecode Pair true) #"true" Params
  end.

Definition ParseQueryParams (QueryString : bytes) : list (bytes * bytes) :=
  foldl add_param [] (getlines "&"%char [] QueryString).

(** ** Headers *)

Definition drop_cr (Line : bytes) : bytes :=
  if bool_decide (last Line = Some CR) then take (length Line - 1) Line else Line.

(** [Err] carries the text that [Error] is set to. *)

Fixpoint framing (ContentLengthCount : Z) (Lines : list bytes) : result unit :=
  match Lines with
  | [] => Ok tt
  | l :: r =>
      let Line := drop_cr l in
      if bool_decide (Line = []) then Ok tt
      else
        match find_char (is_byte ":"%char) Line with
        | None => Err #"Malformed HTTP header line"
        | Some Colon =>
            let Name := lowercase (trim blank (take Colon Line)) in
            if bool_decide (Name = []) then Err #"Empty HTTP header name"
            else if bool_decide (Name = #"content-length") then
              if 1 <? ContentLengthCount + 1 then Err #"Duplicate Content-Length headers are not allowed"
              else framing (ContentLengthCount + 1) r
            else if bool_decide (Name = #"transfer-encoding") then Err #"Transfer-Encoding is not supported"
            else framing ContentLengthCount r
        end
  end.

Definition HasValidRequestFramingHeaders (HeadersPart : bytes) : result unit :=
  framing 0 (tail (getlines LF [] HeadersPart)).

Definition MaxHeaderKeyLen : Z := 256.
Definition MaxHeaderValueLen : Z := 8192.

Definition has_byte (b : ascii) (s : bytes) : bool := bool_decide (b ∈ s).

Definition valid_key (Key : bytes) : bool := forallb (fun c => (32 <=? code c) && (code c <=? 126)) Key.

(** One line that has a colon: the new map, and whether reading goes on. *)

Definition header_line (Key Value : bytes) (Headers : list (bytes * bytes)) : list (bytes * bytes) * bool :=
  if has_byte CR Key || has_byte LF Key || has_byte CR Value || has_byte LF Value then ([], false)
  else if negb (valid_key Key) || bool_decide (Key = []) then ([], false)
  else if existsb (fun c => bool_decide (c ∈ [CR; LF; NUL])) Key then (Headers, false)
  else if existsb (fun c => bool_decide (c ∈ [CR; LF; NUL])) Value then (Headers, false)
  else if (MaxHeaderKeyLen <? size Key) || (MaxHeaderValueLen <? size Value) then ([], false)
  else (StdMap.put (lowercase (trim blank Key)) (trim blank Value) Headers, true).

Fixpoint parse_headers (HeaderCount : Z) (Headers : list (bytes * bytes)) (Lines : list bytes) : list (bytes * bytes) :=
  match Lines with
  | [] => Headers
  | Line :: r =>
      if HTTP_MAX_HEADER_COUNT <=? HeaderCount then []
      else
        match find_char (is_byte ":"%char) Line with
        | None => parse_headers HeaderCount Headers r
        | Some ColonPos =>
            let res := header_line (trim blank (take ColonPos Line)) (trim blank (drop (S ColonPos) Line)) Headers in
            if res.2 then parse_headers (HeaderCount + 1) res.1 r else res.1
        end
  end.

Definition ParseHeaders (HeaderLines : bytes) : list (bytes * bytes) :=
  parse_headers 0 [] (getlines LF [] HeaderLines).

(** ** Requests *)

(** The words that [>>] reads from a stream. *)

Fixpoint words (current s : bytes) : list bytes :=
  match s with
  | [] => if bool_decide (current = []) then [] else [current]
  | c :: r =>
      if isspace c then (if bool_decide (current = []) then words [] r else current :: words [] r)
      else words (current ++ [c]) r
  end.

(** The lines before the one that is a single carriage return, joined. *)

Fixpoint header_text (Lines : list bytes) : bytes :=
  match Lines with
  | [] => []
  | l :: r => if bool_decide (l = [CR]) then [] else drop_cr l ++ [LF] ++ header_text r
  end.

(** The Content-Length of the parsed headers: the first entry of that name, [None]
    when [ParseHttpRequest] gives up. *)

Fixpoint header_content_length (Headers : list (bytes * bytes)) : option Z :=
  match Headers with
  | [] => Some 0
  | (k, v) :: r =>
      if bool_decide (lowercase k = #"content-length") then
        match stoull v with
        | Some (ContentLength, Parsed) => if (Parsed =? length v)%nat then Some ContentLength else None
        | None => None
        end
      else header_content_length r
  end.

Definition body_of (RawRequest : bytes) (BodyStart : nat) (ContentLength : Z) : option bytes :=
  if 0 <? ContentLength then
    if u64 (Z.of_nat BodyStart + ContentLength) <=? size RawRequest
    then Some (take (Z.to_nat (Z.min ContentLength (size RawRequest))) (drop BodyStart RawRequest)) else None
  else Some (drop BodyStart RawRequest).

Definition request_line (Line : bytes) : option (bytes * bytes * bytes) :=
  match words [] Line with
  | Method :: Path :: Version :: _ => Some (Method, Path, Version)
  | _ => None
  end.

Definition split_path (Path : bytes) : bytes * list (bytes * bytes) :=
  match find_char (is_byte "?"%char) Path with
  | Some QueryPos => (take QueryPos Path, ParseQueryParams (drop (S QueryPos) Path))
  | None => (Path, [])
  end.

Definition ParseHttpRequest (RawRequest : bytes) : option HttpRequest :=
  match find_sub header_end RawRequest with
  | None => None
  | Some RawHeaderEnd =>
      if HTTP_MAX_HEADER_SIZE <? Z.of_nat RawHeaderEnd + 4 then None
      else
        match HasValidRequestFramingHeaders (take (RawHeaderEnd + 4) RawRequest) with
        | Err _ => None
        | Ok _ =>
            match getlines LF [] RawRequest with
            | [] => None
            | Line :: Rest =>
                match request_line (drop_cr Line) with
                | None => None
                | Some (Method, Path, Version) =>
                    let (Path, QueryParams) := split_path Path in
                    let Headers := ParseHeaders (header_text Rest) in
                    match header_content_length Headers with
                    | None => None
                    | Some ContentLength =>
                        match body_of RawRequest (RawHeaderEnd + 4) ContentLength with
                        | None => None
                        | Some Body =>
                            Some (mkRequest Method (UrlDecode Path false) Version Headers Body [] 0 QueryParams [] [] false)
                        end
                    end
                end
            end
        end
  end.

Definition GetHeaderValueInsensitive (Headers : list (bytes * bytes)) (Name : bytes) : bytes :=
  match List.find (fun h => bool_decide (lowercase h.1 = lowercase Name)) Headers with
  | Some h => h.2
  | None => []
  end.

(** ** The Content-Length field in the text of the headers *)

Inductive LengthField := NoField | NoValue | NoEnd | LengthStr (s : bytes).

Definition content_length_field (HeadersPart : bytes) : LengthField :=
  match find_sub #"content-length:" (lowercase HeadersPart) with
  | None => NoField
  | Some ContentLengthPos =>
      match find_char (is_byte ":"%char) (drop ContentLengthPos HeadersPart) with
      | None => NoValue
      | Some n =>
          match skip_while blank (drop (S (ContentLengthPos + n)) HeadersPart) with
          | [] => NoValue
          | text =>
              match span (fun c => negb (bool_decide (c ∈ crlf))) text with
              | (_, []) => NoEnd
              | (v, _ :: _) => LengthStr v
              end
          end
      end
  end.

(** ** JSON text (src/api/searchapi.cpp) *)

Definition MaxEscapeInputSize : Z := 10 * 1024 * 1024.

Definition escape_byte (c : ascii) : bytes :=
  let n := code c in
  if n =? 34 then ["\"%char; c] else if n =? 92 then ["\"%char; c]
  else if n =? 8 then ["\"; "b"]%char else if n =? 12 then ["\"; "f"]%char else if n =? 10 then ["\"; "n"]%char
  else if n =? 13 then ["\"; "r"]%char else if n =? 9 then ["\"; "t"]%char else [c].

Definition EscapeJSONString (Str : bytes) : bytes :=
  if MaxEscapeInputSize <? size Str
  then mjoin (escape_byte <$> take (Z.to_nat MaxEscapeInputSize) Str) ++ #"...[truncated]"
  else mjoin (escape_byte <$> Str).

(** ** Responses *)

Definition new_HttpResponse (Code : Z) (Text ContentType : bytes) : HttpResponse :=
  mkResponse Code Text (StdMap.put #"Server" #"hlquery/1.0" (StdMap.put #"Content-Type" ContentType [])) [].

Definition with_body (r : HttpResponse) (b : bytes) : HttpResponse := mkResponse (StatusCode r) (StatusText r) (Headers r) b.

Definition with_header (k v : bytes) (r : HttpResponse) : HttpResponse :=
  mkResponse (StatusCode r) (StatusText r) (StdMap.put k v (Headers r)) (Body r).

(** Text of a JSON literal, written with apostrophes for its quotation marks. *)

Definition json_text (s : bytes) : bytes := (fun c => if bool_decide (c = "'"%char) then chr 34 else c) <$> s.

Definition plain_error (Code : Z) (Text b : bytes) : HttpResponse :=
  with_body (new_HttpResponse Code Text #"text/plain") (json_text b).

Definition json_error (Code : Z) (Text b : bytes) : HttpResponse :=
  with_body (new_HttpResponse Code Text #"application/json") (json_text b).

Definition connection_lines (KeepAlive : bool) (RequestsProcessed : Z) : bytes :=
  if KeepAlive then
    #"Connection: keep-alive" ++ crlf ++ #"Keep-Alive: timeout=" ++ to_string HTTP_KEEP_ALIVE_TIMEOUT_SEC ++
    #", max=" ++ to_string (Z.max 0 (HTTP_MAX_REQUESTS_PER_CONNECTION - RequestsProcessed)) ++ crlf
  else #"Connection: close" ++ crlf.

Definition cors_lines : bytes :=
  #"Access-Control-Allow-Origin: *" ++ crlf ++
  #"Access-Control-Allow-Methods: GET, POST, PUT, DELETE, OPTIONS, PATCH" ++ crlf ++
  #"Access-Control-Allow-Headers: Content-Type, Authorization, Accept, X-Requested-With, X-API-Key, X-TYPESENSE-API-KEY, X-Request-Id" ++ crlf ++
  #"Access-Control-Max-Age: 86400" ++ crlf.

Definition header_lines (Headers : list (bytes * bytes)) : bytes :=
  mjoin ((fun h => h.1 ++ #": " ++ h.2 ++ crlf) <$> Headers).

Definition render (KeepAlive : bool) (RequestsProcessed : Z) (r : HttpResponse) : bytes :=
  #"HTTP/1.1 " ++ to_string (StatusCode r) ++ #" " ++ StatusText r ++ crlf ++
  connection_lines KeepAlive RequestsProcessed ++ cors_lines ++ header_lines (Headers r) ++
  #"Content-Length: " ++ to_string (size (Body r)) ++ crlf ++ crlf ++ Body r.

(** The response that is written: with the request's id, or the short one that
    replaces a body over the limit. *)

Definition effective_response (ActiveRequestID : bytes) (r : HttpResponse) : HttpResponse :=
  let tag r := if bool_decide (ActiveRequestID = []) then r else with_header #"X-Request-Id" ActiveRequestID r in
  if HTTP_MAX_RESPONSE_SIZE <? size (Body (tag r))
  then tag (plain_error 413 #"Payload Too Large" #"{'error':'Response too large'}") else tag r.

End HttpMessage.
