(* ===== verification/HttpGate.v ===== *)
(** * Access control of requests: src/api/httpserver.cpp, src/api/searchapi.cpp

    Who may have a request served: the credentials of a request, the checks of
    [AuthorizeHttpRequest], the route context, the action an API key must have,
    and the check of keys and administrators in [ProcessSingleRequest] and in
    [ProcessRequestWithAPI]. The user table and the key manager are those of
    [UserAuth] and [ApiKeys]. Arguments: the hash function of OpenSSL, the text
    of a JSON object of strings ([dump] of the vendored library), the storage
    behind collection names and aliases. *)

From S2P Require Import Prelude CText StdMap SearchCache ApiKeys UserAuth HttpRoutes HttpMessage.

Module HttpGate.
Import SearchCache HttpRoutes HttpMessage.

(** ** Credentials *)

Definition first_header (Names : list bytes) (Headers : list (bytes * bytes)) : option bytes :=
  foldl (fun found n => match found with Some v => Some v | None => StdMap.find n Headers end) None Names.

Definition api_key_headers : list bytes := [ #"X-API-Key"; #"x-api-key"; #"X-TYPESENSE-API-KEY"; #"x-typesense-api-key"].

Definition after_bearer (s : bytes) : bytes := if starts_with #"Bearer " s then drop 7 s else s.

(** [OutAuthHeader] and [OutToken]; the function returns whether the token is not
    empty. *)

Definition ExtractAuthTokenFromRequest (Headers : list (bytes * bytes)) : bytes * bytes :=
  let OutAuthHeader :=
    match first_header [ #"Authorization"; #"authorization"] Headers with
    | Some v => TrimHTTPFieldValue v
    | None =>
        match first_header api_key_headers Headers with
        | Some v => let APIKey := TrimHTTPFieldValue v in if bool_decide (APIKey = []) then [] else #"Bearer " ++ APIKey
        | None => []
        end
    end in
  (OutAuthHeader, TrimHTTPFieldValue (after_bearer OutAuthHeader)).

(** The token that the key check reads. [ProcessSingleRequest] looks for the
    lower-case names only. *)

Definition gate_token (Headers : list (bytes * bytes)) : bytes :=
  after_bearer (default [] (first_header [ #"authorization"; #"x-api-key"; #"x-typesense-api-key"] Headers)).

Definition api_token (Headers : list (bytes * bytes)) : bytes :=
  after_bearer (default [] (first_header ([ #"Authorization"; #"authorization"] ++ api_key_headers) Headers)).

(** ** Replication peers *)

Record Peer := mkPeer { PrimaryToken : bytes; SecondaryToken : bytes }.

(** [slaves] and [cluster] are the token pairs that the configuration has for the
    nodes it lists. *)

Record PeerConfig := mkPeers { slaves : list Peer; cluster : list Peer }.

Definition IsReplicationHopRequest (Headers : list (bytes * bytes)) : bool :=
  match List.find (fun h => bool_decide (lowercase h.1 = #"x-hlq-replication-hop")) Headers with
  | Some h => bool_decide (lowercase h.2 ∈ [ #"1"; #"true"])
  | None => false
  end.

Definition matches_peer (AuthToken : bytes) (p : Peer) : bool :=
  (negb (bool_decide (PrimaryToken p = [])) && bool_decide (AuthToken = PrimaryToken p)) ||
  (negb (bool_decide (SecondaryToken p = [])) && bool_decide (AuthToken = SecondaryToken p)).

Definition IsAuthorizedReplicationRequest (peers : option PeerConfig) (Headers : list (bytes * bytes)) : bool :=
  match peers with
  | None => false
  | Some c =>
      if negb (IsReplicationHopRequest Headers) then false
      else
        let AuthToken := (ExtractAuthTokenFromRequest Headers).2 in
        if bool_decide (AuthToken = []) then false
        else existsb (matches_peer AuthToken) (slaves c) || existsb (matches_peer AuthToken) (cluster c)
  end.

(** ** Paths *)

Definition IsHealthLikePath (Path : bytes) : bool :=
  bool_decide (drop_last_slash (cut_query Path) ∈
    [ #"/health"; #"/ready"; #"/status"; #"/query"; #"/ping"; #"/stats"; #"/etc"]).

Definition mentions (text s : bytes) : bool := bool_decide (is_Some (find_sub text s)).

Definition IsDocumentIngestionRequest (Method Path : bytes) : bool :=
  bool_decide (Method = #"POST") && starts_with #"/collections/" Path && mentions #"/documents" Path &&
  negb (mentions #"/documents/search" Path) && negb (mentions #"/documents/facet_counts" Path) &&
  negb (mentions #"/documents/maybe" Path) && negb (mentions #"/documents/export" Path).

Definition NormalizeRequestPath (Path : bytes) : bytes := drop_last_slash (cut_query Path).

Definition NormalizePathForExtraction (Path : bytes) : bytes := drop_last_slash (cut_query Path).

Definition IsModuleControlRoutePath (Path : bytes) : bool :=
  bool_decide (Path ∈ [ #"/loadmodule"; #"/unloadmodule"; #"/modules/load"; #"/modules/unload"]) ||
  existsb (fun p => starts_with p Path)
    [ #"/loadmodule/"; #"/unloadmodule/"; #"/modules/load/"; #"/modules/unload/"].

Definition collection_name_byte (c : ascii) : bool := isalnum c || bool_decide (c ∈ ["_"; "-"; "."]%char).

(** [Err] carries [ErrorMessage]. *)

Definition ValidateCollectionNameValue (Name : bytes) : result unit :=
  match Name with
  | [] => Err #"Collection name is required"
  | c :: _ =>
      if 64 <? size Name then Err #"Collection name must be between 1 and 64 characters"
      else if negb (forallb collection_name_byte Name)
      then Err #"Collection name can only contain alphanumeric characters, underscores, hyphens, and dots"
      else if negb (isalpha c) && negb (bool_decide (c = "_"%char))
      then Err #"Collection name must start with a letter or underscore"
      else Ok tt
  end.

(** The storage behind names: which collections exist, what a key is stored with,
    and the target that the JSON text of an alias names. *)

Record NameStore := mkNames {
  CollectionExists : bytes -> bool;
  Get : bytes -> bytes;
  alias_target : bytes -> option bytes
}.

Definition ResolveCollectionName (store : NameStore) (Name : bytes) : bytes :=
  if bool_decide (Name = []) then []
  else if CollectionExists store Name then Name
  else
    let AliasJSON := Get store (#"alias:" ++ Name) in
    if bool_decide (AliasJSON = []) then Name else default Name (alias_target store AliasJSON).

(** The regular expression [^/collections/([^/]+)(?:/|$)]. *)

Definition collection_segment (Path : bytes) : option bytes :=
  if starts_with #"/collections/" Path then
    match (span (fun c => negb (is_byte slash c)) (drop 13 Path)).1 with
    | [] => None
    | name => Some name
    end
  else None.

Definition ExtractCollectionFromPath (store : NameStore) (Path : bytes) : bytes :=
  match collection_segment (NormalizePathForExtraction Path) with
  | None => []
  | Some CollectionName =>
      if mentions #".." CollectionName || mentions #"/" CollectionName || mentions #"\" CollectionName then []
      else
        match ValidateCollectionNameValue CollectionName with
        | Err _ => []
        | Ok _ => ResolveCollectionName store CollectionName
        end
  end.

(** ** Actions *)

Definition MapRouteToKeyAction (a : RouteAction) : ApiKeys.APIKeyAction :=
  match a with
  | DocumentSearch | VectorSearch | MultiSearch | GlobalSearch | GetDocument | ListDocuments | GetDocumentContext
  | FacetCounts | ExportDocuments | MaybeSuggest => ApiKeys.SEARCH
  | AddDocument => ApiKeys.CREATE
  | UpdateDocument | UpdateByQuery => ApiKeys.UPDATE
  | DeleteDocument | DeleteByQuery | DeleteDocumentsByFilter => ApiKeys.DELETE
  | ListCollections | ListCollectionsDistributed | GetCollection | GetCollectionLanguage | ListSynonyms
  | ListGlobalSynonyms | GetSynonym | GetGlobalSynonym | ListStopwords | ListGlobalStopwords | ListOverrides
  | GetOverride | ListAliases | GetAlias => ApiKeys.COLLECTIONS_LIST
  | CreateCollection | UpsertSynonym | UpsertGlobalSynonym | CreateStopword | CreateGlobalStopword | UpsertOverride
  | UpsertAlias => ApiKeys.COLLECTIONS_CREATE
  | DeleteCollection | DeleteSynonym | DeleteGlobalSynonym | DeleteStopword | DeleteGlobalStopword | DeleteOverride
  | DeleteAlias => ApiKeys.COLLECTIONS_DELETE
  | BulkImportDocuments => ApiKeys.IMPORT
  | _ => ApiKeys.SEARCH
  end.

Record RouteContext := mkContext {
  NormalizedPath : bytes;
  ActionVal : RouteAction;
  CollectionName : bytes;
  IsPublic : bool;
  IsAdminOnly : bool;
  IsModuleControl : bool;
  IsHealthCheck : bool;
  IsCollectionCreation : bool;
  IsDocumentImport : bool;
  IsListDocuments : bool;
  IsExpensiveQuery : bool
}.

Definition across_collections (a : RouteAction) : bool := bool_decide (a ∈ [MultiSearch; GlobalSearch]).

(** [API] is [None] for the null pointer. *)

Definition BuildRouteContext (API : option NameStore) (Method Path : bytes) : RouteContext :=
  let p := NormalizeRequestPath Path in
  let a := ResolveHttpRoute Path Method in
  mkContext p a
    (match API with
     | Some store => if negb (IsPublicHttpRouteAction a) && negb (across_collections a)
                     then ExtractCollectionFromPath store p else []
     | None => []
     end)
    (IsPublicHttpRouteAction a) (IsAdminOnlyHttpRouteAction a) (IsModuleControlRoutePath p) (IsHealthLikePath p)
    (bool_decide (a = CreateCollection))
    (bool_decide (a ∈ [AddDocument; BulkImportDocuments]) || IsDocumentIngestionRequest Method p)
    (bool_decide (a = ListDocuments))
    (bool_decide (a ∈ [DocumentSearch; VectorSearch; MultiSearch; GlobalSearch])).

Definition ResolveRouteWithFallback (Method Path : bytes) : RouteAction := ActionVal (BuildRouteContext None Method Path).

Definition IsMutatingRequestMethod (Method Path : bytes) : bool :=
  if negb (bool_decide (Method ∈ [ #"POST"; #"PUT"; #"DELETE"; #"PATCH"])) then false
  else if bool_decide (Method = #"POST") then
    negb (bool_decide (ResolveRouteWithFallback Method Path ∈
      [DocumentSearch; VectorSearch; MultiSearch; GlobalSearch; FacetCounts; ExportDocuments; MaybeSuggest]))
  else true.

(** ** Decisions *)

Inductive verdict (A : Type) := Pass (a : A) | Refuse (r : HttpResponse).
Arguments Pass {A} a.
Arguments Refuse {A} r.

(** What the checks read of the instance; [Loading] says that some server is
    loading, [Rest] stands for everything else the handlers use. *)

Record Server {W : Type} := mkServer {
  Users : option UserAuth.Users;
  Keys : ApiKeys.Manager;
  peers : option PeerConfig;
  names : NameStore;
  Loading : bool;
  SyncInProgress : bool;
  Rest : W
}.
Arguments Server : clear implicits.
Arguments mkServer {W}.

Section Checks.
Context {W : Type}.
Variable sha256 : bytes -> bytes.
Variable dump : list (bytes * bytes) -> bytes.
Implicit Types (s : Server W) (req : HttpRequest).

Definition set_keys (m : ApiKeys.Manager) s : Server W :=
  mkServer (Users s) m (peers s) (names s) (Loading s) (SyncInProgress s) (Rest s).

Definition unavailable (b : bytes) : HttpResponse :=
  with_header #"Retry-After" #"5" (json_error 503 #"Service Unavailable" b).

(** The blocks on queries while collections are loaded and on nearly everything
    while the database is synchronised. *)

Definition availability s req : option HttpResponse :=
  let IsHealthCheck := IsHealthLikePath (Path req) in
  let IsCollectionCreation := bool_decide (Path req = #"/collections") && bool_decide (Method req = #"POST") in
  let IsDocumentImport := IsDocumentIngestionRequest (Method req) (Path req) in
  let IsQuery := bool_decide (Method req = #"GET") in
  let IsOtherWrite := bool_decide (Method req ∈ [ #"POST"; #"PUT"; #"DELETE"]) && negb IsCollectionCreation && negb IsDocumentImport in
  if Loading s && (negb IsHealthCheck && negb IsCollectionCreation && negb IsDocumentImport && IsQuery) then
    Some (unavailable #"{'error':'Server is loading data','message':'Database is still loading collections after restart. Queries are blocked until all collections are loaded. Write operations (collection creation, document import) are allowed.'}")
  else if SyncInProgress s &&
    (negb (IsAuthorizedReplicationRequest (peers s) (RequestHeaders req)) && negb IsHealthCheck && (IsQuery || IsOtherWrite)) then
    Some (unavailable #"{'error':'Database sync in progress','message':'Database is currently syncing. Queries and most write operations are blocked until sync completes. Collection creation and document import are allowed.'}")
  else None.

Definition set_authenticated req : HttpRequest :=
  mkRequest (Method req) (Path req) (Version req) (RequestHeaders req) (RequestBody req) (RemoteAddress req)
    (RemotePort req) (QueryParams req) (APIKeyID req) (SearchCache.EmbeddedFilters req) true.

Definition set_key_data (id filters : bytes) req : HttpRequest :=
  mkRequest (Method req) (Path req) (Version req) (RequestHeaders req) (RequestBody req) (RemoteAddress req)
    (RemotePort req) (QueryParams req) id filters (Authenticated req).

Definition challenge (r : HttpResponse) : HttpResponse := with_header #"WWW-Authenticate" #"Bearer" r.

Definition AuthorizeHttpRequest (NowMS : Z) s req : verdict HttpRequest :=
  match Users s with
  | None => Refuse (json_error 500 #"Internal Server Error" #"{'error':'Authentication system not available'}")
  | Some u =>
      let (AuthHeader, AuthToken) := ExtractAuthTokenFromRequest (RequestHeaders req) in
      let HasAuthToken := negb (bool_decide (AuthToken = [])) in
      if negb (UserAuth.AuthEnabled u) && HasAuthToken &&
         negb (IsAuthorizedReplicationRequest (peers s) (RequestHeaders req)) && negb (IsHealthLikePath (Path req)) then
        Refuse (json_error 403 #"Forbidden" #"{'error':'Authentication is disabled','message':'Tokens are not accepted when authentication is disabled. Remove the Authorization, X-API-Key, or X-TYPESENSE-API-KEY header.'}")
      else if negb (UserAuth.AuthEnabled u) || IsHealthLikePath (Path req) then Pass req
      else if negb HasAuthToken then
        Refuse (challenge (json_error 401 #"Unauthorized" #"{'error':'Authentication required','message':'Missing Authorization, X-API-Key, or X-TYPESENSE-API-KEY header'}"))
      else
        match ApiKeys.ValidateKey sha256 NowMS AuthToken (Keys s) with
        | Some _ => Pass (set_authenticated req)
        | None =>
            match UserAuth.AuthenticateRequest sha256 AuthHeader u with
            | UserAuth.Valid _ => Pass (set_authenticated req)
            | UserAuth.Invalid ErrorMessage =>
                Refuse (challenge (with_body (new_HttpResponse 401 #"Unauthorized" #"application/json")
                  (dump [(#"error", #"Authentication failed"); (#"message", ErrorMessage)])))
            end
        end
  end.

(** ** The check of API keys *)

Definition system_wide (ctx : RouteContext) : bool :=
  negb (IsPublic ctx) && bool_decide (CollectionName ctx = []) && negb (across_collections (ActionVal ctx)).

(** [ColNameVal] after the checks. *)

Definition scope_name (ctx : RouteContext) : bytes := if system_wide ctx then ApiKeys.wildcard else CollectionName ctx.

Definition check_scope (ctx : RouteContext) (k : ApiKeys.APIKey) : option HttpResponse :=
  let ReqAction := MapRouteToKeyAction (ActionVal ctx) in
  let ColNameVal := CollectionName ctx in
  if negb (IsPublic ctx) && bool_decide (ColNameVal = []) then
    if across_collections (ActionVal ctx) then None
    else if negb (ApiKeys.CanAccessCollection ApiKeys.wildcard k) then
      Some (json_error 403 #"Forbidden" #"{'error':'Access to system endpoints not allowed for this key'}")
    else if negb (ApiKeys.HasAction ApiKeys.wildcard ReqAction k) then
      Some (json_error 403 #"Forbidden" #"{'error':'Action not allowed for system endpoints with this key'}")
    else None
  else if negb (IsPublic ctx) then
    if negb (ApiKeys.CanAccessCollection ColNameVal k) then
      Some (with_body (new_HttpResponse 403 #"Forbidden" #"application/json")
        (dump [(#"collection", ColNameVal); (#"error", #"Access to collection not allowed for this key")]))
    else if negb (ApiKeys.HasAction ColNameVal ReqAction k) then
      Some (json_error 403 #"Forbidden" #"{'error':'Action not allowed for this collection with this key'}")
    else None
  else None.

Definition key_gate (NowMS : Z) (ctx : RouteContext) (k : ApiKeys.APIKey) (m : ApiKeys.Manager) : ApiKeys.Manager * verdict bytes :=
  let (m, allowed) := ApiKeys.CheckRateLimit NowMS (ApiKeys.ID k) m in
  if negb allowed then (m, Refuse (json_error 429 #"Too Many Requests" #"{'error':'Rate limit exceeded'}"))
  else
    match check_scope ctx k with
    | Some r => (m, Refuse r)
    | None => (ApiKeys.UpdateLastUsed NowMS (ApiKeys.ID k) m, Pass (ApiKeys.GetEmbeddedFilters (scope_name ctx) k))
    end.

(** ** The check of administrators *)

Definition admin_only : HttpResponse :=
  json_error 403 #"Forbidden" #"{'error':'Only administrators can access this endpoint'}".

Definition admin_gate (ctx : RouteContext) (IsAdminVal : bool) : option HttpResponse :=
  if IsAdminOnly ctx && negb IsAdminVal then Some admin_only
  else if IsModuleControl ctx && negb IsAdminVal then Some admin_only
  else None.

Definition is_admin (tok : bytes) (users : option UserAuth.Users) : bool :=
  match users with
  | Some u => if UserAuth.AuthEnabled u then UserAuth.IsAdmin sha256 tok u else true
  | None => true
  end.

(** The part of [ProcessSingleRequest] from the key check to the request that the
    handlers see. *)

Definition gate (NowMS : Z) s req : Server W * verdict HttpRequest :=
  let ctx := BuildRouteContext (Some (names s)) (Method req) (Path req) in
  let TokenVal := gate_token (RequestHeaders req) in
  match ApiKeys.ValidateKey sha256 NowMS TokenVal (Keys s) with
  | Some k =>
      let (m, v) := key_gate NowMS ctx k (Keys s) in
      (set_keys m s,
       match v with
       | Refuse r => Refuse r
       | Pass filters =>
           match admin_gate ctx false with
           | Some r => Refuse r
           | None =>
               Pass (set_authenticated
                 (if bool_decide (ApiKeys.ID k = []) then req else set_key_data (ApiKeys.ID k) filters req))
           end
       end)
  | None =>
      let IsAdminVal := is_admin TokenVal (Users s) in
      (s, match admin_gate ctx IsAdminVal with
          | Some r => Refuse r
          | None => Pass (if negb (bool_decide (TokenVal = [])) && IsAdminVal then set_authenticated req else req)
          end)
  end.

(** Both checks in order: a request that passes is handed to a handler. *)

Definition access (NowMS : Z) s req : Server W * verdict HttpRequest :=
  match AuthorizeHttpRequest NowMS s req with
  | Refuse r => (s, Refuse r)
  | Pass req => gate NowMS s req
  end.

End Checks.

End HttpGate.
