(* ===== verification/HttpGateProps.v ===== *)
(** * Access control: properties

    What a request that reaches a handler has shown: credentials that are valid,
    and for an API key a scope with the action of the route. The last theorem
    states where the two readings of the credentials differ. *)

From S2P Require Import Prelude CText StdMap SearchCache ApiKeys UserAuth HttpRoutes HttpMessage HttpGate.

Module HttpGateProps.
Import SearchCache HttpRoutes HttpMessage HttpGate.

(** ** The key check *)

Section Checks.
Context {W : Type}.
Variable sha256 : bytes -> bytes.
Variable dump : list (bytes * bytes) -> bytes.
Implicit Types (s : Server W) (req : HttpRequest).

Definition context s req : RouteContext := BuildRouteContext (Some (names s)) (Method req) (Path req).

Definition within_scope (ctx : RouteContext) (k : ApiKeys.APIKey) : Prop :=
  IsPublic ctx = true \/ across_collections (ActionVal ctx) = true \/
  ApiKeys.HasAction (scope_name ctx) (MapRouteToKeyAction (ActionVal ctx)) k = true.

Lemma check_scope_sound ctx k : check_scope dump ctx k = None -> within_scope ctx k.
Proof.
  unfold check_scope, within_scope, scope_name, system_wide. destruct (IsPublic ctx); [by left|]. cbn [negb andb].
  destruct (bool_decide (CollectionName ctx = [])); [destruct (across_collections _); [by right; left|]|]; cbn [andb negb];
    (destruct (ApiKeys.CanAccessCollection _ k); [|done]); cbn [negb];
    (destruct (ApiKeys.HasAction _ _ k); [|done]); intros _; by right; right.
Qed.

Lemma admin_gate_false ctx : admin_gate ctx false = None -> IsAdminOnly ctx = false /\ IsModuleControl ctx = false.
Proof. unfold admin_gate. by destruct (IsAdminOnly ctx), (IsModuleControl ctx). Qed.

Lemma key_gate_Pass NowMS ctx k m m' filters :
  key_gate dump NowMS ctx k m = (m', Pass filters) ->
  within_scope ctx k /\ filters = ApiKeys.GetEmbeddedFilters (scope_name ctx) k /\
  (ApiKeys.CheckRateLimit NowMS (ApiKeys.ID k) m).2 = true.
Proof.
  unfold key_gate. destruct (ApiKeys.CheckRateLimit NowMS (ApiKeys.ID k) m) as [m1 [|]]; cbn [negb]; [|congruence].
  destruct (check_scope dump ctx k) eqn:E; [congruence|]. intros [= _ <-]. split_and!; [by apply check_scope_sound|done|done].
Qed.

Lemma AuthorizeHttpRequest_same NowMS s req req' :
  AuthorizeHttpRequest sha256 dump NowMS s req = Pass req' -> req' = req \/ req' = set_authenticated req.
Proof.
  unfold AuthorizeHttpRequest. destruct (Users s); [|congruence].
  destruct (ExtractAuthTokenFromRequest _). destruct (negb _ && _ && _ && _); [congruence|].
  destruct (negb _ || _); [intros [= ->]; by left|]. destruct (negb _); [congruence|].
  destruct (ApiKeys.ValidateKey _ _ _ _); [intros [= <-]; by right|].
  destruct (UserAuth.AuthenticateRequest _ _ _); [intros [= <-]; by right|congruence].
Qed.

(** C3. A key is held to its scope. [ProcessSingleRequest] takes the token after the
    word Bearer and one blank, without trimming it ([gate_token]). When this token is
    a valid API key and the request is handed to a handler, the route is public, or
    is a search across collections (whose handler checks each collection), or the
    key has the action of the route in its scope for the collection (for all
    collections, when the route has none); the route is neither one for
    administrators nor module control; the rate limit allowed it; and the handler
    sees the key's id and the filters of that scope. Nothing is said of a token with
    further blanks, which [AuthorizeHttpRequest] trims and this step does not: it
    escapes the scope ([blank_escapes_scope]). *)
Theorem key_confined NowMS s req k s' req' :
  ApiKeys.ValidateKey sha256 NowMS (gate_token (RequestHeaders req)) (Keys s) = Some k ->
  access sha256 dump NowMS s req = (s', Pass req') ->
  within_scope (context s req) k /\
  IsAdminOnly (context s req) = false /\ IsModuleControl (context s req) = false /\
  (ApiKeys.CheckRateLimit NowMS (ApiKeys.ID k) (Keys s)).2 = true /\
  Authenticated req' = true /\
  (ApiKeys.ID k <> [] ->
     APIKeyID req' = ApiKeys.ID k /\
     EmbeddedFilters req' = ApiKeys.GetEmbeddedFilters (scope_name (context s req)) k).
Proof.
  intros Hk. unfold access. destruct (AuthorizeHttpRequest _ _ _ _ _) as [r|] eqn:Ha; [|congruence].
  apply AuthorizeHttpRequest_same in Ha. assert (Method r = Method req /\ Path r = Path req /\ RequestHeaders r = RequestHeaders req)
    as (Hm & Hp & Hh) by (by destruct Ha as [->| ->]). unfold gate, context. rewrite Hm, Hp, Hh, Hk.
  set (ctx := BuildRouteContext _ _ _). destruct (key_gate dump NowMS ctx k (Keys s)) as [m [filters|]] eqn:E; [|congruence].
  apply key_gate_Pass in E as (H1 & -> & H2). destruct (admin_gate ctx false) eqn:Eg; [congruence|].
  apply admin_gate_false in Eg as [H3 H4]. intros [= _ <-]. split_and!; try done.
  intros Hid. by rewrite bool_decide_eq_false_2 by exact Hid.
Qed.

(** C21. No credentials, no service. When authentication is enabled, a request that
    is handed to a handler and whose path is not one of the seven health paths
    carries a token that is a valid API key or authenticates a user; in particular
    a request with none of the credential headers is answered with 401 and changes
    nothing. *)
Theorem access_needs_credentials NowMS s req u :
  Users s = Some u -> UserAuth.AuthEnabled u = true -> IsHealthLikePath (Path req) = false ->
  (forall s' req', access sha256 dump NowMS s req = (s', Pass req') ->
     (exists k, ApiKeys.ValidateKey sha256 NowMS (ExtractAuthTokenFromRequest (RequestHeaders req)).2 (Keys s) = Some k) \/
     (exists v, UserAuth.AuthenticateRequest sha256 (ExtractAuthTokenFromRequest (RequestHeaders req)).1 u = UserAuth.Valid v)) /\
  (Forall (fun h => h.1 ∉ [ #"Authorization"; #"authorization"] ++ api_key_headers) (RequestHeaders req) ->
     exists r, access sha256 dump NowMS s req = (s, Refuse r) /\ StatusCode r = 401).
Proof.
  intros Hu Ha Hh. unfold access, AuthorizeHttpRequest. rewrite Hu, Ha, Hh. split.
  - intros s' req'. destruct (ExtractAuthTokenFromRequest _) as [hd tok]. cbn [negb andb orb fst snd].
    destruct (bool_decide (tok = [])); cbn [negb]; [congruence|].
    destruct (ApiKeys.ValidateKey _ _ _ _) as [k|]; [intros _; left; by exists k|].
    destruct (UserAuth.AuthenticateRequest _ _ _) as [v|]; [intros _; right; by exists v|congruence].
  - intros Hn. assert (forall n, n ∈ [ #"Authorization"; #"authorization"] ++ api_key_headers -> StdMap.find n (RequestHeaders req) = None) as Hf.
    { intros n Hin. induction Hn as [|[k v] l Hk _ IH]; [done|]. cbn [StdMap.find].
      rewrite bool_decide_eq_false_2; [exact IH|]. intros ->. by apply Hk. }
    unfold ExtractAuthTokenFromRequest, first_header, api_key_headers in *. cbn [foldl app] in *.
    rewrite !Hf by set_solver. eexists. by split.
Qed.

Lemma bearer_edges tok w : Forall (fun c => blank c = true) w -> edges blank tok -> edges blank (#"Bearer " ++ w ++ tok).
Proof.
  intros _ Ht. rewrite app_assoc. apply edges_app; [|done]. exists "B"%char, (#"earer " ++ w). by split.
Qed.

(** A blank before the key escapes its scope. [AuthorizeHttpRequest] trims the
    token of the Authorization header and [ProcessSingleRequest] does not: with
    one more blank after the word Bearer the first check accepts the key and the
    second one finds neither key nor administrator, which it does not refuse. The
    request is handed to the handler of any route that is not for administrators:
    no scope is checked, no filter is set, no key id is recorded and the rate
    limit is not charged. *)
Theorem blank_escapes_scope NowMS s req u k w tok :
  Users s = Some u -> UserAuth.AuthEnabled u = true ->
  Forall (fun c => blank c = true) w -> edges blank tok ->
  StdMap.find #"Authorization" (RequestHeaders req) = None ->
  StdMap.find #"authorization" (RequestHeaders req) = Some (#"Bearer " ++ w ++ tok) ->
  ApiKeys.ValidateKey sha256 NowMS tok (Keys s) = Some k ->
  ApiKeys.ValidateKey sha256 NowMS (w ++ tok) (Keys s) = None ->
  IsAdminOnly (context s req) = false -> IsModuleControl (context s req) = false ->
  exists req', access sha256 dump NowMS s req = (s, Pass req') /\
    Method req' = Method req /\ Path req' = Path req /\
    APIKeyID req' = APIKeyID req /\ EmbeddedFilters req' = EmbeddedFilters req.
Proof.
  intros Hu Hen Hw Ht Hn1 Hn2 Hk Hk' Ha Hc.
  assert (ExtractAuthTokenFromRequest (RequestHeaders req) = (#"Bearer " ++ w ++ tok, tok)) as He.
  { unfold ExtractAuthTokenFromRequest, first_header. cbn [foldl]. rewrite Hn1, Hn2.
    unfold TrimHTTPFieldValue. pose proof (trim_edges blank [] _ (List.Forall_nil _) (bearer_edges tok w Hw Ht)) as Hb.
    cbn [app] in Hb. rewrite Hb. change (after_bearer (#"Bearer " ++ w ++ tok)) with (w ++ tok). by rewrite trim_edges. }
  assert (gate_token (RequestHeaders req) = w ++ tok) as Hg.
  { unfold gate_token, first_header. cbn [foldl]. by rewrite Hn2. }
  assert (exists r, AuthorizeHttpRequest sha256 dump NowMS s req = Pass r /\ (r = req \/ r = set_authenticated req)) as (r & Hr & Hr').
  { unfold AuthorizeHttpRequest. rewrite Hu, He, Hen. cbn [negb andb orb].
    destruct (IsHealthLikePath (Path req)); [eauto|]. destruct Ht as (x & y & Hx & _).
    rewrite bool_decide_eq_false_2 by (by destruct tok). cbn [negb]. rewrite Hk. eauto. }
  unfold access. rewrite Hr. unfold gate.
  assert (Method r = Method req /\ Path r = Path req /\ RequestHeaders r = RequestHeaders req /\ APIKeyID r = APIKeyID req /\
          EmbeddedFilters r = EmbeddedFilters req) as (Hm & Hp & Hh & Hi & Hf) by (by destruct Hr' as [->| ->]).
  rewrite Hm, Hp, Hh, Hg, Hk'. fold (context s req). unfold admin_gate. rewrite Ha, Hc. cbn [andb].
  eexists. split; [done|]. by destruct (_ && _).
Qed.

End Checks.

(** ** Witnesses *)

Section Witnesses.

Definition book_key : ApiKeys.APIKey :=
  ApiKeys.mkKey #"k1" (ApiKeys.HashKey id #"secret") [] {[ #"books" := ApiKeys.mkScope {[ 0 ]} #"public:true" ]} 0 false 1000 false 0 0 0.

Definition key_manager : ApiKeys.Manager :=
  ApiKeys.mkManager {[ #"k1" := book_key ]} {[ ApiKeys.HashKey id #"secret" := #"k1" ]} ∅ None.

Definition site : Server unit :=
  mkServer (Some (UserAuth.mkUsers ∅ ∅ true)) key_manager None
    (mkNames (fun n => bool_decide (n ∈ [ #"books"; #"orders"])) (fun _ => []) (fun _ => None)) false false tt.

Definition request_with (value method path : bytes) : HttpRequest :=
  mkRequest method path #"HTTP/1.1" [(#"authorization", value)] [] [] 0 [] [] [] false.

Lemma key_confined_witness :
  within_scope (context site (request_with #"Bearer secret" #"GET" #"/collections/books/documents/search")) book_key.
Proof.
  refine (proj1 (key_confined id (fun _ => []) 0 site (request_with #"Bearer secret" #"GET" #"/collections/books/documents/search")
    book_key _ _ _ _)); vm_compute; reflexivity.
Defined.

Lemma access_needs_credentials_witness :
  exists r, access id (fun _ => []) 0 site (mkRequest #"GET" #"/collections/books/documents/search" #"HTTP/1.1" [] [] [] 0 [] [] [] false)
    = (site, Refuse r) /\ StatusCode r = 401.
Proof.
  refine (proj2 (access_needs_credentials id (fun _ => []) 0 site
    (mkRequest #"GET" #"/collections/books/documents/search" #"HTTP/1.1" [] [] [] 0 [] [] [] false)
    (UserAuth.mkUsers ∅ ∅ true) _ _ _) _); [reflexivity|reflexivity|vm_compute; reflexivity|constructor].
Defined.

(** The key may only search [books]; with two blanks it deletes a document of
    [orders]. *)

Lemma blank_escapes_scope_witness :
  exists req', access id (fun _ => []) 0 site (request_with #"Bearer  secret" #"DELETE" #"/collections/orders/documents/7") = (site, Pass req') /\
    Method req' = #"DELETE" /\ Path req' = #"/collections/orders/documents/7" /\ APIKeyID req' = [] /\ EmbeddedFilters req' = [].
Proof.
  refine (blank_escapes_scope id (fun _ => []) 0 site (request_with #"Bearer  secret" #"DELETE" #"/collections/orders/documents/7")
    (UserAuth.mkUsers ∅ ∅ true) book_key #" " #"secret" _ _ _ _ _ _ _ _ _ _);
    try (vm_compute; reflexivity); [by repeat constructor|].
  exists "s"%char, "t"%char. by split_and!.
Defined.

(** The default of [MapRouteToKeyAction] lets a key that may only search change the
    schema of its collection. *)

Lemma search_key_updates_collection (store : NameStore) dump k :
  CollectionExists store #"books" = true -> ApiKeys.HasAction #"books" ApiKeys.SEARCH k = true ->
  ActionVal (BuildRouteContext (Some store) #"POST" #"/collections/books/update") = UpdateCollection /\
  check_scope dump (BuildRouteContext (Some store) #"POST" #"/collections/books/update") k = None.
Proof.
  intros He Ha.
  assert (BuildRouteContext (Some store) #"POST" #"/collections/books/update" =
    mkContext #"/collections/books/update" UpdateCollection #"books" false false false false false false false false) as ->.
  { unfold BuildRouteContext. change (ResolveHttpRoute _ _) with UpdateCollection.
    unfold ExtractCollectionFromPath. change (collection_segment _) with (Some #"books").
    unfold ResolveCollectionName. change (bool_decide (#"books" = [])) with false. cbn [negb andb orb IsPublicHttpRouteAction across_collections].
    rewrite He. vm_compute. reflexivity. }
  split; [done|]. unfold check_scope. cbn [IsPublic CollectionName ActionVal negb andb MapRouteToKeyAction].
  change (bool_decide (#"books" = [])) with false. cbn iota.
  rewrite Ha. unfold ApiKeys.CanAccessCollection, ApiKeys.HasAction in *. by destruct (ApiKeys.GetScopeForCollection _ k).
Qed.

End Witnesses.

End HttpGateProps.
