(* ===== verification/HttpConnection.v ===== *)
(** * HTTP connections: class [HttpConnection] of src/api/httpserver.cpp

    A connection of plain TCP: the request buffer, the response being written and
    the responses queued behind it, and the handlers of read, write and error
    events. [ShouldUseAsyncHttpDispatch] is false, so that requests are processed
    on the event thread and events do not overlap; the serial number that a write
    event compares with its copy is then unchanged. The results of [recv] and
    [send] are arguments of the event. What follows the access checks of
    [ProcessSingleRequest] (replication checks, handlers) is the argument
    [serve]; an exception is [Err]. Times are nanoseconds. *)

From S2P Require Import Prelude CText StdMap SearchCache ApiKeys UserAuth HttpRoutes HttpMessage HttpGate.

Module HttpConnection.
Import SearchCache HttpRoutes HttpMessage HttpGate.

Record Conn := mkConn {
  RequestBuffer : bytes;
  ResponseBuffer : bytes;
  ResponseQueue : list bytes;
  ResponseSentOffset : nat;
  ResponseSerial : Z;
  ResponsePending : bool;
  KeepAlive : bool;
  RequestsProcessed : Z;
  LastActivity : Z;
  Closing : bool;
  HasFD : bool;
  ActiveRequestID : bytes;
  ClientIP : bytes;
  ClientPort : Z
}.

Definition new_HttpConnection (Now : Z) (ip : bytes) (port : Z) : Conn :=
  mkConn [] [] [] 0 0 false false 0 Now false true [] ip port.

Definition set_buffer (b : bytes) (c : Conn) : Conn :=
  mkConn b (ResponseBuffer c) (ResponseQueue c) (ResponseSentOffset c) (ResponseSerial c) (ResponsePending c)
    (KeepAlive c) (RequestsProcessed c) (LastActivity c) (Closing c) (HasFD c) (ActiveRequestID c) (ClientIP c) (ClientPort c).

Definition set_output (b : bytes) (q : list bytes) (o : nat) (n : Z) (p : bool) (c : Conn) : Conn :=
  mkConn (RequestBuffer c) b q o n p
    (KeepAlive c) (RequestsProcessed c) (LastActivity c) (Closing c) (HasFD c) (ActiveRequestID c) (ClientIP c) (ClientPort c).

Definition set_keep_alive (k : bool) (c : Conn) : Conn :=
  mkConn (RequestBuffer c) (ResponseBuffer c) (ResponseQueue c) (ResponseSentOffset c) (ResponseSerial c) (ResponsePending c)
    k (RequestsProcessed c) (LastActivity c) (Closing c) (HasFD c) (ActiveRequestID c) (ClientIP c) (ClientPort c).

Definition count_request (c : Conn) : Conn :=
  mkConn (RequestBuffer c) (ResponseBuffer c) (ResponseQueue c) (ResponseSentOffset c) (ResponseSerial c) (ResponsePending c)
    (KeepAlive c) (wrap_int32 (RequestsProcessed c + 1)) (LastActivity c) (Closing c) (HasFD c) (ActiveRequestID c) (ClientIP c) (ClientPort c).

Definition set_activity (t : Z) (c : Conn) : Conn :=
  mkConn (RequestBuffer c) (ResponseBuffer c) (ResponseQueue c) (ResponseSentOffset c) (ResponseSerial c) (ResponsePending c)
    (KeepAlive c) (RequestsProcessed c) t (Closing c) (HasFD c) (ActiveRequestID c) (ClientIP c) (ClientPort c).

Definition set_request_id (id : bytes) (c : Conn) : Conn :=
  mkConn (RequestBuffer c) (ResponseBuffer c) (ResponseQueue c) (ResponseSentOffset c) (ResponseSerial c) (ResponsePending c)
    (KeepAlive c) (RequestsProcessed c) (LastActivity c) (Closing c) (HasFD c) id (ClientIP c) (ClientPort c).

(** Set [ClosingValue], remove the handler, close the descriptor. *)

Definition close (c : Conn) : Conn :=
  mkConn (RequestBuffer c) (ResponseBuffer c) (ResponseQueue c) (ResponseSentOffset c) (ResponseSerial c) (ResponsePending c)
    (KeepAlive c) (RequestsProcessed c) (LastActivity c) true false (ActiveRequestID c) (ClientIP c) (ClientPort c).

(** ** Responses *)

Definition response_text (c : Conn) (r : HttpResponse) : bytes :=
  render (KeepAlive c) (RequestsProcessed c) (effective_response (ActiveRequestID c) r).

Definition SendResponse (r : HttpResponse) (c : Conn) : Conn :=
  if Closing c || negb (HasFD c) then c
  else
    let ResponseStr := response_text c r in
    if ResponsePending c && negb (bool_decide (ResponseBuffer c = []))
    then set_output (ResponseBuffer c) (ResponseQueue c ++ [ResponseStr]) (ResponseSentOffset c) (ResponseSerial c) true c
    else set_output ResponseStr (ResponseQueue c) 0 (u64 (ResponseSerial c + 1)) true c.

(** What [send] returned: a number of bytes that is positive, [EAGAIN], or an error
    or zero, after which the connection is closed. *)

Inductive SendResult := Sent (n : nat) | Again | Broken.

(** The loop of [send] calls: the bytes written and how it ended. The results are
    consumed in order; when there are none left the socket takes no more. *)

Fixpoint send_loop (pending : bytes) (results : list SendResult) : bytes * option SendResult :=
  match pending with
  | [] => ([], None)
  | _ =>
      match results with
      | [] => ([], Some Again)
      | Again :: _ => ([], Some Again)
      | Broken :: _ => ([], Some Broken)
      | Sent n :: r =>
          let (w, e) := send_loop (drop n pending) r in
          (take n pending ++ w, e)
      end
  end.

(** The head of the queue becomes the response that is written. *)

Definition next_response (c : Conn) : Conn :=
  match ResponseQueue c with
  | r :: q => set_output r q 0 (u64 (ResponseSerial c + 1)) true c
  | [] => set_output [] [] 0 (ResponseSerial c) false c
  end.

(** The bytes that reach the socket, and the new state. *)

Definition write_buffer (results : list SendResult) (c : Conn) : Conn * bytes :=
  let (w, e) := send_loop (drop (ResponseSentOffset c) (ResponseBuffer c)) results in
  match e with
  | Some Broken => (close c, w)
  | Some _ =>
      (set_output (ResponseBuffer c) (ResponseQueue c) (ResponseSentOffset c + length w) (ResponseSerial c) (ResponsePending c) c, w)
  | None => let c := next_response c in (if negb (KeepAlive c) then close c else c, w)
  end.

Definition OnEventHandlerWrite (results : list SendResult) (c : Conn) : Conn * bytes :=
  if Closing c then (c, [])
  else if negb (HasFD c) then (close c, [])
  else if negb (ResponsePending c) || bool_decide (ResponseBuffer c = []) then (c, [])
  else if (length (ResponseBuffer c) <=? ResponseSentOffset c)%nat then
    match ResponseQueue c with
    | _ :: _ => write_buffer results (next_response c)
    | [] => (next_response c, [])
    end
  else write_buffer results c.

Definition OnEventHandlerError (c : Conn) : Conn := close c.

Definition ForceClose (c : Conn) : Conn :=
  if negb (HasFD c) then c else close (set_output [] [] 0 (ResponseSerial c) false c).

(** Whole seconds of a duration. *)

Definition seconds (ns : Z) : Z := Z.quot ns (10 ^ 9).

(** [HasActiveRequests] is false, as no request runs on another thread. *)

Definition CleanupConnection (Now : Z) (c : Conn) : Conn :=
  if HTTP_KEEP_ALIVE_TIMEOUT_SEC <? seconds (Now - LastActivity c) then close c
  else if HTTP_MAX_REQUESTS_PER_CONNECTION <=? RequestsProcessed c then close c
  else c.

(** ** Requests *)

Definition set_remote (ip : bytes) (port : Z) (r : HttpRequest) : HttpRequest :=
  mkRequest (Method r) (Path r) (Version r) (RequestHeaders r) (RequestBody r) ip port (QueryParams r)
    (APIKeyID r) (EmbeddedFilters r) (Authenticated r).

Definition wants_keep_alive (req : HttpRequest) : bool :=
  match StdMap.find #"connection" (RequestHeaders req) with
  | Some v =>
      if bool_decide (lowercase v = #"close") then false
      else if bool_decide (lowercase v = #"keep-alive") then true
      else bool_decide (Version req = #"HTTP/1.1")
  | None => bool_decide (Version req = #"HTTP/1.1")
  end.

(** The keep-alive decision and the request counter. *)

Definition accept_request (req : HttpRequest) (c : Conn) : Conn :=
  let c := count_request (set_keep_alive (wants_keep_alive req) c) in
  if (HTTP_MAX_REQUESTS_PER_CONNECTION <=? RequestsProcessed c) && bool_decide (RequestBuffer c = [])
  then set_keep_alive false c else c.

Definition comma_list (Methods : list bytes) : bytes :=
  foldl (fun Allow m => (if bool_decide (Allow = []) then Allow else Allow ++ #", ") ++ m) [] Methods.

Section Server.
Context {W : Type}.
Variable sha256 : bytes -> bytes.
Variable dump : list (bytes * bytes) -> bytes.

(** The body of a 405 answer, which also has the list of methods. *)

Variable dump_methods : bytes -> bytes -> list bytes -> bytes.

(** The replication checks before a request that changes state, and the handler of
    the route with the hooks that follow it. *)

Variable refuse_mutation : Server W -> HttpRequest -> option HttpResponse.
Variable serve : Server W -> HttpRequest -> Server W * result HttpResponse.

Definition BuildRouteNotFoundResponse (p m : bytes) : HttpResponse :=
  with_body (new_HttpResponse 404 #"Not Found" #"application/json")
    (dump ((#"error", #"Route not found") ::
           (if bool_decide (m = []) then [] else [(#"method", m)]) ++ [(#"path", p)])).

Definition BuildMethodNotAllowedResponse (req : HttpRequest) : HttpResponse :=
  match GetAllowedHttpMethods (Path req) with
  | [] => BuildRouteNotFoundResponse (Path req) (Method req)
  | Methods =>
      with_body (with_header #"Allow" (comma_list Methods) (new_HttpResponse 405 #"Method Not Allowed" #"application/json"))
        (dump_methods (Method req) (Path req) Methods)
  end.

Definition server_error (what : bytes) : HttpResponse :=
  with_body (new_HttpResponse 500 #"Internal Server Error" #"application/json")
    (json_text #"{'error':'Internal server error','message':'" ++ EscapeJSONString what ++ json_text #"'}").

(** What remains once the access checks have passed the request. *)

Definition dispatch (Now : Z) (req : HttpRequest) (c : Conn) (s : Server W) : Conn * Server W :=
  match (if IsMutatingRequestMethod (Method req) (Path req) then refuse_mutation s req else None) with
  | Some r => (SendResponse r c, s)
  | None =>
      if bool_decide (ResolveHttpRoute (Path req) (Method req) = NotFound)
      then (SendResponse (BuildMethodNotAllowedResponse req) c, s)
      else
        let (s, answer) := serve s req in
        match answer with
        | Ok r => (set_activity Now (SendResponse r c), s)
        | Err what => (SendResponse (server_error what) c, s)
        end
  end.

Definition ProcessSingleRequest (Now : Z) (RequestStr : bytes) (c : Conn) (s : Server W) : Conn * Server W :=
  let NowMS := Now / 10 ^ 6 in
  if Closing c then (c, s)
  else
    match ParseHttpRequest RequestStr with
    | None => (SendResponse (with_body (new_HttpResponse 400 #"Bad Request" #"text/plain") #"Invalid HTTP request") c, s)
    | Some r =>
        let req := set_remote (ClientIP c) (ClientPort c) r in
        let c := set_request_id (GetHeaderValueInsensitive (RequestHeaders req) #"X-Request-Id") c in
        if bool_decide (Method req = #"OPTIONS") then (SendResponse (new_HttpResponse 200 #"OK" #"text/plain") c, s)
        else
          match availability s req with
          | Some r => (SendResponse r c, s)
          | None =>
              match AuthorizeHttpRequest sha256 dump NowMS s req with
              | Refuse r => (SendResponse r c, s)
              | Pass req =>
                  let c := accept_request req c in
                  let (s, v) := gate sha256 dump NowMS s req in
                  match v with
                  | Refuse r => (SendResponse r c, s)
                  | Pass req => dispatch Now req c s
                  end
              end
          end
    end.

(** ** The request buffer *)

(** How many bytes the next request has, from the text of its headers. *)

Inductive Frame :=
| Incomplete
| Reject (r : HttpResponse)
| Complete (n : nat).

Definition body_length (BodyStart : nat) (HeadersPart : bytes) : Z + HttpResponse :=
  match content_length_field HeadersPart with
  | LengthStr v =>
      match from_chars v with
      | Some (ParsedLength, []) =>
          if HTTP_MAX_REQUEST_SIZE <? ParsedLength
          then inr (plain_error 413 #"Payload Too Large" #"{'error':'Content-Length too large'}")
          else if 2 ^ 64 - 1 - Z.of_nat BodyStart <? ParsedLength
          then inr (plain_error 413 #"Payload Too Large" #"{'error':'Content-Length overflow'}")
          else inl ParsedLength
      | _ => inr (plain_error 400 #"Bad Request" #"{'error':'Invalid Content-Length format'}")
      end
  | _ => inl 0
  end.

Definition next_frame (b : bytes) : Frame :=
  match find_sub header_end b with
  | None => Incomplete
  | Some HeaderEnd =>
      let HeadersPart := take (HeaderEnd + 4) b in
      if HTTP_MAX_HEADER_SIZE <? size HeadersPart
      then Reject (plain_error 431 #"Request Header Fields Too Large" #"{'error':'Header size too large'}")
      else
        match HasValidRequestFramingHeaders HeadersPart with
        | Err _ => Reject (json_error 400 #"Bad Request" #"{'error':'Invalid request framing'}")
        | Ok _ =>
            match body_length (HeaderEnd + 4) HeadersPart with
            | inr r => Reject r
            | inl n => if size b <? Z.of_nat (HeaderEnd + 4) + n then Incomplete
                       else Complete (HeaderEnd + 4 + Z.to_nat n)
            end
        end
  end.

(** One turn of the loop takes at least the four bytes that end the headers; [fuel]
    is the size of the buffer. *)

Fixpoint process_loop (fuel : nat) (Now : Z) (c : Conn) (s : Server W) : Conn * Server W :=
  match fuel with
  | O => (c, s)
  | S fuel =>
      match next_frame (RequestBuffer c) with
      | Incomplete => (c, s)
      | Reject r => (SendResponse r (set_keep_alive false c), s)
      | Complete n =>
          let RequestStr := take n (RequestBuffer c) in
          let (c, s) := ProcessSingleRequest Now RequestStr (set_buffer (drop n (RequestBuffer c)) c) s in
          if negb (KeepAlive c) ||
             ((HTTP_MAX_REQUESTS_PER_CONNECTION <=? RequestsProcessed c) && bool_decide (RequestBuffer c = []))
          then (c, s) else process_loop fuel Now c s
      end
  end.

Definition ProcessMultipleRequests (Now : Z) (c : Conn) (s : Server W) : Conn * Server W :=
  process_loop (S (length (RequestBuffer c))) Now c s.

(** ** Read events *)

(** How the calls of [recv] end: nothing more to read, the peer gone, an error. *)

Inductive RecvEnd := WouldBlock | Disconnected | RecvError.

(** The chunks are what the calls return, in order; the result says whether
    reading goes on to the headers. *)

Fixpoint receive (chunks : list bytes) (e : RecvEnd) (c : Conn) : Conn * bool :=
  match chunks with
  | [] => match e with WouldBlock => (c, true) | Disconnected => (close c, false) | RecvError => (OnEventHandlerError c, false) end
  | b :: r =>
      if HTTP_MAX_REQUEST_SIZE - size b <? size (RequestBuffer c) then (close c, false)
      else receive r e (set_buffer (RequestBuffer c ++ b) c)
  end.

Definition reject_and_close (r : HttpResponse) (c : Conn) : Conn := close (SendResponse r c).

(** The checks of the length field on a read event, before the buffer is
    processed; [true] when it is to be. *)

Definition read_length (BodyStart : nat) (v : bytes) (c : Conn) : Conn * bool :=
  let LengthStr := match trim blank v with [] => v | _ => reverse (skip_while blank (reverse v)) end in
  if 20 <? size LengthStr
  then (reject_and_close (plain_error 413 #"Payload Too Large" #"{'error':'Content-Length string too long'}") c, false)
  else if bool_decide (LengthStr = []) || negb (forallb isdigit LengthStr)
  then (reject_and_close (plain_error 400 #"Bad Request" #"{'error':'Invalid Content-Length format'}") c, false)
  else
    match from_chars LengthStr with
    | None => (c, true)
    | Some (ParsedLength, _) =>
        if HTTP_MAX_REQUEST_SIZE <? ParsedLength
        then (reject_and_close (plain_error 413 #"Payload Too Large" #"{'error':'Content-Length too large'}") c, false)
        else if 2 ^ 64 - 1 - Z.of_nat BodyStart <? ParsedLength
        then (reject_and_close (plain_error 413 #"Payload Too Large" #"{'error':'Content-Length overflow'}") c, false)
        else (c, ParsedLength <=? size (RequestBuffer c) - Z.of_nat BodyStart)
    end.

Definition read_headers (c : Conn) : Conn * bool :=
  match find_sub header_end (RequestBuffer c) with
  | None => (c, false)
  | Some HeaderEnd =>
      let HeadersPart := take (HeaderEnd + 4) (RequestBuffer c) in
      if HTTP_MAX_HEADER_SIZE <? size HeadersPart
      then (reject_and_close (plain_error 431 #"Request Header Fields Too Large" #"{'error':'Header size too large'}") c, false)
      else
        match HasValidRequestFramingHeaders HeadersPart with
        | Err _ => (SendResponse (json_error 400 #"Bad Request" #"{'error':'Invalid request framing'}") (set_keep_alive false c), false)
        | Ok _ =>
            match content_length_field HeadersPart with
            | LengthStr v => read_length (HeaderEnd + 4) v c
            | NoEnd => (c, false)
            | NoValue | NoField => (c, true)
            end
        end
  end.

(** Eight tenths of the largest request. *)

Definition large_buffer : Z := 83886080.

Definition OnEventHandlerRead (Now : Z) (chunks : list bytes) (e : RecvEnd) (c : Conn) (s : Server W) : Conn * Server W :=
  let Elapsed := seconds (Now - LastActivity c) in
  if HTTP_CONNECTION_TIMEOUT_SECONDS <? Elapsed then (close c, s)
  else if (large_buffer <? size (RequestBuffer c)) && (10 <? Elapsed) then (close c, s)
  else if HTTP_MAX_REQUEST_SIZE <=? size (RequestBuffer c)
  then (reject_and_close (plain_error 413 #"Payload Too Large" #"{'error':'Request too large'}") c, s)
  else
    let (c, open) := receive chunks e c in
    if open then
      let (c, ready) := read_headers c in
      if ready then ProcessMultipleRequests Now c s else (c, s)
    else (c, s).

(** ** Events *)

Inductive Event :=
| Read (Now : Z) (chunks : list bytes) (e : RecvEnd)
| Write (results : list SendResult)
| SocketError
| Cleanup (Now : Z)
| Force.

(** The state of a connection, of the server, and the bytes written so far. The
    socket engine delivers no event for a descriptor that was removed. *)

Definition handle (x : Conn * Server W * bytes) (ev : Event) : Conn * Server W * bytes :=
  let '(c, s, out) := x in
  if negb (HasFD c) then x
  else match ev with
  | Read t chunks e => (OnEventHandlerRead t chunks e c s, out)
  | Write results => let (c', w) := OnEventHandlerWrite results c in (c', s, out ++ w)
  | SocketError => (OnEventHandlerError c, s, out)
  | Cleanup t => (CleanupConnection t c, s, out)
  | Force => (ForceClose c, s, out)
  end.

Definition events (x : Conn * Server W * bytes) (evs : list Event) : Conn * Server W * bytes := foldl handle x evs.

End Server.

End HttpConnection.
