(* ===== verification/HttpConnectionProps.v ===== *)
(** * HTTP connections: properties

    A connection is simulated by an ideal one, which answers each request once and
    has one list of responses ([connection_refines_stream]); reading splits a byte stream into the
    same requests however it arrives; parsed headers cannot split a response. *)

From S2P Require Import Prelude CText StdMap SearchCache ApiKeys UserAuth HttpRoutes HttpMessage HttpGate HttpConnection.

Module HttpConnectionProps.
Import SearchCache HttpRoutes HttpMessage HttpGate HttpConnection.

(** ** Headers *)

Definition clean (s : bytes) : Prop := Forall (fun c => c ∉ [CR; LF; NUL]) s.

Definition clean_header (h : bytes * bytes) : Prop :=
  clean h.1 /\ clean h.2 /\ h.1 <> [] /\ size h.1 <= MaxHeaderKeyLen /\ size h.2 <= MaxHeaderValueLen.

Lemma skip_while_suffix p s : exists a, s = a ++ skip_while p s.
Proof. exists (span p s).1. symmetry. apply span_app. Qed.

Lemma trim_infix p s : exists a b, s = a ++ trim p s ++ b.
Proof.
  destruct (skip_while_suffix p s) as [a Ha]. destruct (skip_while_suffix p (reverse (skip_while p s))) as [b Hb].
  exists a, (reverse b). unfold trim. rewrite Ha at 1. f_equal.
  rewrite <- reverse_app, <- Hb. by rewrite reverse_involutive.
Qed.

Lemma trim_sub (P : ascii -> Prop) p s : Forall P s -> Forall P (trim p s).
Proof. destruct (trim_infix p s) as (a & b & E). rewrite E at 1. by rewrite !Forall_app; intros (_ & ? & _). Qed.

Lemma trim_size p s : size (trim p s) <= size s.
Proof. destruct (trim_infix p s) as (a & b & E). unfold size. rewrite E at 2. rewrite !length_app. lia. Qed.

Lemma trim_trim p s : trim p (trim p s) = trim p s.
Proof.
  assert (forall t, skip_while p (skip_while p t) = skip_while p t) as Hs.
  { intros t. apply skip_while_stays. intros c Hc. unfold skip_while in *.
    destruct (span p t).2 as [|d r] eqn:E; [done|]. injection Hc as <-. by eapply span_rest. }
  unfold trim at 1. rewrite (skip_while_stays p (trim p s)).
  - unfold trim. rewrite reverse_involutive, Hs. done.
  - intros c Hc. unfold trim in Hc. rewrite head_reverse in Hc.
    destruct (skip_while_suffix p (reverse (skip_while p s))) as [b Hb].
    apply (f_equal last) in Hb. rewrite last_reverse, last_app in Hb. rewrite Hc in Hb.
    unfold skip_while in Hb. destruct (span p s).2 as [|d r] eqn:E; [done|]. injection Hb as <-. by eapply span_rest.
Qed.

Lemma tolower_clean c : c ∉ [CR; LF; NUL] -> tolower c ∉ [CR; LF; NUL].
Proof.
  by_bytes (fun c => bool_decide (c ∈ [CR; LF; NUL]) || bool_decide (tolower c ∉ [CR; LF; NUL])) c.
  rewrite orb_true_iff, !bool_decide_eq_true. tauto.
Qed.

Lemma existsb_clean s : existsb (fun c => bool_decide (c ∈ [CR; LF; NUL])) s = false -> clean s.
Proof.
  unfold clean. intros H. apply Forall_forall. intros c Hc Hin. apply not_true_iff_false in H. apply H.
  apply existsb_exists. exists c. split; [by apply list_elem_of_In|by apply bool_decide_eq_true].
Qed.

Lemma header_line_clean k v m : trim blank k = k -> Forall clean_header m -> Forall clean_header (header_line k v m).1.
Proof.
  intros Hk Hm. unfold header_line. destruct (_ || _ || _ || _); [constructor|].
  destruct (negb (valid_key k) || bool_decide (k = [])) eqn:E1; [constructor|].
  destruct (existsb _ k) eqn:Ek; [done|]. destruct (existsb _ v) eqn:Ev; [done|].
  destruct ((_ <? _) || (_ <? _)) eqn:El; [constructor|]. apply orb_false_iff in E1 as [_ Hne%bool_decide_eq_false].
  apply orb_false_iff in El as [L1%Z.ltb_ge L2%Z.ltb_ge]. apply existsb_clean in Ek, Ev.
  cbn [fst]. apply StdMap.put_Forall; [|done]. rewrite Hk. unfold clean_header, lowercase, clean in *. cbn [fst snd].
  split_and!; [|by apply trim_sub| | |].
  - apply Forall_fmap. eapply Forall_impl; [done|]. apply tolower_clean.
  - by destruct k.
  - unfold size in *. by rewrite length_fmap.
  - pose proof (trim_size blank v). lia.
Qed.

Lemma parse_headers_clean n m ls : Forall clean_header m -> Forall clean_header (parse_headers n m ls).
Proof.
  revert n m. induction ls as [|l ls IH]; intros n m Hm; [done|]. cbn [parse_headers].
  destruct (_ <=? n); [constructor|]. destruct (find_char _ l); [|by apply IH].
  assert (Forall clean_header (header_line (trim blank (take n0 l)) (trim blank (drop (S n0) l)) m).1) by
    (apply header_line_clean; [apply trim_trim|done]).
  destruct (header_line _ _ m) as [m' [|]]; [by apply IH|done].
Qed.

Lemma getlines_In_parse raw req : ParseHttpRequest raw = Some req -> exists t, RequestHeaders req = ParseHeaders t.
Proof.
  unfold ParseHttpRequest. intros H. repeat (destr_in H; try congruence). apply (inj Some) in H as <-. by eexists.
Qed.

(** A request cannot split a response. Every header that a parsed request has
    is free of carriage returns, line feeds and zero bytes in its name and value,
    has a name, and is within the limits on lengths; so is the request id that is
    echoed in the response. *)
Theorem parsed_headers_clean raw req :
  ParseHttpRequest raw = Some req ->
  Forall clean_header (RequestHeaders req) /\ clean (GetHeaderValueInsensitive (RequestHeaders req) #"X-Request-Id").
Proof.
  intros [t ->]%getlines_In_parse. assert (Forall clean_header (ParseHeaders t)) as H by (by apply parse_headers_clean).
  split; [done|]. unfold GetHeaderValueInsensitive. destruct (List.find _ _) as [h|] eqn:E; [|constructor].
  apply List.find_some in E as [E _]. apply list_elem_of_In in E. rewrite Forall_forall in H. by destruct (H h E) as (_ & ? & _).
Qed.

Lemma parsed_headers_clean_witness :
  clean (GetHeaderValueInsensitive [(#"x-request-id", #"r 1")] #"X-Request-Id").
Proof.
  refine (proj2 (parsed_headers_clean (#"GET / HTTP/1.1" ++ crlf ++ #"X-Request-Id: r 1" ++ crlf ++ crlf)
    (mkRequest #"GET" #"/" #"HTTP/1.1" [(#"x-request-id", #"r 1")] [] [] 0 [] [] [] false) _)).
  vm_compute. reflexivity.
Defined.

(** ** The stream of responses *)

Definition unsent (c : Conn) : bytes :=
  if ResponsePending c then drop (ResponseSentOffset c) (ResponseBuffer c) ++ mjoin (ResponseQueue c) else [].

(** The responses that are not sent completely, the first one without what was sent
    of it. *)

Definition waiting (c : Conn) : list bytes :=
  if ResponsePending c then drop (ResponseSentOffset c) (ResponseBuffer c) :: ResponseQueue c else [].

Lemma unsent_waiting c : unsent c = mjoin (waiting c).
Proof. unfold unsent, waiting. by destruct (ResponsePending c). Qed.

(** A pending response has bytes to send, an idle connection has nothing queued, and
    the descriptor is there until the connection closes. *)

Definition conn_ok (c : Conn) : Prop :=
  (ResponsePending c = false -> ResponseQueue c = []) /\
  (ResponsePending c = true -> ResponseBuffer c <> []) /\
  Forall (fun r => r <> []) (ResponseQueue c) /\
  (ResponsePending c = true -> (ResponseSentOffset c < length (ResponseBuffer c))%nat) /\
  Closing c = negb (HasFD c).

(** What of a connection decides how requests are answered: everything but the
    responses. *)

Definition face (c : Conn) : Conn := set_output [] [] 0 0 false c.

(** ** The specification of a connection *)

(** The response to one request and what the request changes; a request is answered
    exactly once. *)

Section Answers.
Context {W : Type}.
Variable sha256 : bytes -> bytes.
Variable dump : list (bytes * bytes) -> bytes.
Variable dump_methods : bytes -> bytes -> list bytes -> bytes.
Variable refuse_mutation : Server W -> HttpRequest -> option HttpResponse.
Variable serve : Server W -> HttpRequest -> Server W * result HttpResponse.

Definition answer_route (Now : Z) (req : HttpRequest) (c : Conn) (s : Server W) : Conn * Server W * HttpResponse :=
  match (if IsMutatingRequestMethod (Method req) (Path req) then refuse_mutation s req else None) with
  | Some r => (c, s, r)
  | None =>
      if bool_decide (ResolveHttpRoute (Path req) (Method req) = NotFound)
      then (c, s, BuildMethodNotAllowedResponse dump dump_methods req)
      else match serve s req with
           | (s, Ok r) => (set_activity Now c, s, r)
           | (s, Err what) => (c, s, server_error what)
           end
  end.

Definition answer_request (Now : Z) (raw : bytes) (c : Conn) (s : Server W) : Conn * Server W * HttpResponse :=
  match ParseHttpRequest raw with
  | None => (c, s, with_body (new_HttpResponse 400 #"Bad Request" #"text/plain") #"Invalid HTTP request")
  | Some r =>
      let req := set_remote (ClientIP c) (ClientPort c) r in
      let c := set_request_id (GetHeaderValueInsensitive (RequestHeaders req) #"X-Request-Id") c in
      if bool_decide (Method req = #"OPTIONS") then (c, s, new_HttpResponse 200 #"OK" #"text/plain")
      else match availability s req, AuthorizeHttpRequest sha256 dump (Now / 10 ^ 6) s req with
           | Some r, _ | None, Refuse r => (c, s, r)
           | None, Pass req =>
               match gate sha256 dump (Now / 10 ^ 6) s req with
               | (s, Refuse r) => (accept_request req c, s, r)
               | (s, Pass req') => answer_route Now req' (accept_request req c) s
               end
           end
  end.

(** The texts of the responses to the complete requests of the buffer: one for each
    request, up to the one after which the connection is not kept alive, and one
    for a frame that is refused. *)

Fixpoint answer_frames (fuel : nat) (Now : Z) (c : Conn) (s : Server W) : Conn * Server W * list bytes :=
  match fuel with
  | O => (c, s, [])
  | S fuel =>
      match next_frame (RequestBuffer c) with
      | Incomplete => (c, s, [])
      | Reject r => let c := set_keep_alive false c in (c, s, [response_text c r])
      | Complete n =>
          let '(c, s, r) := answer_request Now (take n (RequestBuffer c)) (set_buffer (drop n (RequestBuffer c)) c) s in
          if negb (KeepAlive c) ||
             ((HTTP_MAX_REQUESTS_PER_CONNECTION <=? RequestsProcessed c) && bool_decide (RequestBuffer c = []))
          then (c, s, [response_text c r])
          else let '(c', s', ts) := answer_frames fuel Now c s in (c', s', response_text c r :: ts)
      end
  end.

(** What a read event answers. The check of the headers leaves at most one response
    in a connection that has none. *)

Definition answers (Now : Z) (chunks : list bytes) (e : RecvEnd) (c : Conn) (s : Server W) : Conn * Server W * list bytes :=
  let Elapsed := seconds (Now - LastActivity c) in
  if (HTTP_CONNECTION_TIMEOUT_SECONDS <? Elapsed) || ((large_buffer <? size (RequestBuffer c)) && (10 <? Elapsed))
  then (close c, s, [])
  else if HTTP_MAX_REQUEST_SIZE <=? size (RequestBuffer c)
  then (close c, s, [response_text c (plain_error 413 #"Payload Too Large" #"{'error':'Request too large'}")])
  else match receive chunks e c with
       | (c, false) => (c, s, [])
       | (c, true) =>
           let (c', ready) := read_headers c in
           if ready then answer_frames (S (length (RequestBuffer c'))) Now c' s
           else (face c', s, if ResponsePending c' then [ResponseBuffer c'] else [])
       end.

(** The ideal connection: the texts of all responses so far, in the order of the
    requests, the bytes delivered, and what is left of the responses that are not
    delivered completely. Its queue of responses is one list, without a buffer, an
    offset, a flag or a serial number. *)

Record Ideal := mkIdeal {
  Client : Conn;
  Site : Server W;
  Answered : list bytes;
  Delivered : bytes;
  Waiting : list bytes
}.

(** How many bytes the calls of [send] take, and whether one of them fails. *)

Fixpoint accepted (results : list SendResult) : nat :=
  match results with Sent n :: r => n + accepted r | _ => 0 end.

Fixpoint breaks (results : list SendResult) : bool :=
  match results with Sent _ :: r => breaks r | Broken :: _ => true | _ => false end.

(** A write event sends as much of the first waiting response as the socket takes.
    The connection is closed when the socket fails, and after a complete response
    when it is not kept alive. *)

Definition deliver (results : list SendResult) (i : Ideal) : Ideal :=
  match Waiting i with
  | [] => i
  | p :: q =>
      let n := accepted results in
      let out := Delivered i ++ take n p in
      if (length p <=? n)%nat
      then mkIdeal (if KeepAlive (Client i) then Client i else close (Client i)) (Site i) (Answered i) out q
      else mkIdeal (if breaks results then close (Client i) else Client i) (Site i) (Answered i) out (drop n p :: q)
  end.

Definition ideal_close (b : bool) (i : Ideal) : Ideal :=
  mkIdeal (if b then close (Client i) else Client i) (Site i) (Answered i) (Delivered i) (Waiting i).

Definition ideal_step (i : Ideal) (ev : Event) : Ideal :=
  if negb (HasFD (Client i)) then i
  else match ev with
  | Read t chunks e =>
      let '(c, s, ts) := answers t chunks e (Client i) (Site i) in
      mkIdeal c s (Answered i ++ ts) (Delivered i) (Waiting i ++ ts)
  | Write results => deliver results i
  | SocketError | Force => ideal_close true i
  | Cleanup t =>
      ideal_close ((HTTP_KEEP_ALIVE_TIMEOUT_SEC <? seconds (t - LastActivity (Client i))) ||
                   (HTTP_MAX_REQUESTS_PER_CONNECTION <=? RequestsProcessed (Client i))) i
  end.

Definition ideal_run (i : Ideal) (evs : list Event) : Ideal := foldl ideal_step i evs.

Definition ideal_start (c : Conn) (s : Server W) : Ideal := mkIdeal c s [] [] [].

End Answers.

(** ** The code and the specification *)

(** The fields of the output side are the same. *)

Definition quiet (c c' : Conn) : Prop :=
  ResponseBuffer c' = ResponseBuffer c /\ ResponseQueue c' = ResponseQueue c /\ ResponseSentOffset c' = ResponseSentOffset c /\
  ResponsePending c' = ResponsePending c /\ HasFD c' = HasFD c /\ Closing c' = Closing c.

(** The texts are behind what was waiting. *)

Definition emits (c : Conn) (ts : list bytes) (c' : Conn) : Prop := conn_ok c' /\ waiting c' = waiting c ++ ts.

Lemma quiet_refl c : quiet c c.
Proof. done. Qed.

Lemma quiet_trans a b c : quiet a b -> quiet b c -> quiet a c.
Proof. intros (A1 & A2 & A3 & A4 & A5 & A6) (B1 & B2 & B3 & B4 & B5 & B6). unfold quiet. repeat split; congruence. Qed.

Lemma quiet_ok c c' : conn_ok c -> quiet c c' -> conn_ok c'.
Proof. intros H (E1 & E2 & E3 & E4 & E5 & E6). unfold conn_ok in *. by rewrite E1, E2, E3, E4, E5, E6. Qed.

Lemma quiet_waiting c c' : quiet c c' -> waiting c' = waiting c.
Proof. intros (E1 & E2 & E3 & E4 & _). unfold waiting. by rewrite E1, E2, E3, E4. Qed.

Lemma quiet_emits c c' : conn_ok c -> quiet c c' -> emits c [] c'.
Proof. intros H Q. split; [by eapply quiet_ok|]. by rewrite (quiet_waiting _ _ Q), app_nil_r. Qed.

Lemma quiet_accept_request req c : quiet c (accept_request req c).
Proof. unfold accept_request. destruct (_ && _); by unfold quiet. Qed.

Lemma face_accept_request req c : face (accept_request req c) = accept_request req (face c).
Proof. unfold accept_request. cbn. by destruct (_ && _). Qed.

Lemma emits_close c ts c' : emits c ts c' -> emits c ts (close c').
Proof. intros [(H1 & H2 & H3 & H4 & H5) E]. split; [by unfold conn_ok|exact E]. Qed.

Lemma emits_trans a b c ts us : emits a ts b -> emits b us c -> emits a (ts ++ us) c.
Proof. intros [_ E] [H F]. split; [done|]. by rewrite F, E, app_assoc. Qed.

Lemma response_text_nonempty c r : response_text c r <> [].
Proof. unfold response_text, render. cbn. congruence. Qed.

(** A response is put behind those that wait, as a whole. *)

Lemma SendResponse_emits r c :
  conn_ok c -> HasFD c = true ->
  emits c [response_text c r] (SendResponse r c) /\ face (SendResponse r c) = face c /\ HasFD (SendResponse r c) = true.
Proof.
  intros (H1 & H2 & H3 & H4 & H5) Hf. unfold SendResponse. rewrite H5, Hf. cbn [negb orb].
  pose proof (response_text_nonempty c r) as Hn. destruct (ResponsePending c) eqn:Ep; cbn [andb].
  - rewrite bool_decide_eq_false_2 by auto. cbn [negb]. unfold emits, conn_ok, waiting. cbn. rewrite Ep.
    split_and!; try done; try (by auto). apply Forall_app. split; [done|by repeat constructor].
  - unfold emits, conn_ok, waiting. cbn. rewrite Ep, H1 by done. split_and!; try done.
    intros _. by destruct (response_text c r); [|cbn; lia].
Qed.

Section Server.
Context {W : Type}.
Variable sha256 : bytes -> bytes.
Variable dump : list (bytes * bytes) -> bytes.
Variable dump_methods : bytes -> bytes -> list bytes -> bytes.
Variable refuse_mutation : Server W -> HttpRequest -> option HttpResponse.
Variable serve : Server W -> HttpRequest -> Server W * result HttpResponse.
Implicit Types (c : Conn) (s : Server W).

Abbreviation ProcessSingleRequest := (ProcessSingleRequest sha256 dump dump_methods refuse_mutation serve).
Abbreviation process_loop := (process_loop sha256 dump dump_methods refuse_mutation serve).
Abbreviation OnEventHandlerRead := (OnEventHandlerRead sha256 dump dump_methods refuse_mutation serve).
Abbreviation handle := (handle sha256 dump dump_methods refuse_mutation serve).
Abbreviation events := (events sha256 dump dump_methods refuse_mutation serve).
Abbreviation answer_route := (answer_route dump dump_methods refuse_mutation serve).
Abbreviation answer_request := (answer_request sha256 dump dump_methods refuse_mutation serve).
Abbreviation answer_frames := (answer_frames sha256 dump dump_methods refuse_mutation serve).
Abbreviation answers := (answers sha256 dump dump_methods refuse_mutation serve).
Abbreviation ideal_step := (ideal_step sha256 dump dump_methods refuse_mutation serve).
Abbreviation ideal_run := (ideal_run sha256 dump dump_methods refuse_mutation serve).

Lemma set_activity_SendResponse t r c : set_activity t (SendResponse r c) = SendResponse r (set_activity t c).
Proof. unfold SendResponse. cbn. destruct (_ || _); [done|]. by destruct (_ && _). Qed.

Ltac unchanged c := exists c; cbn [fst snd]; split; [reflexivity|split; [reflexivity|exact (quiet_refl c)]].

Lemma route_answered t req c s :
  exists c1, dispatch dump dump_methods refuse_mutation serve t req c s =
      (SendResponse (answer_route t req (face c) s).2 c1, (answer_route t req (face c) s).1.2) /\
    face c1 = (answer_route t req (face c) s).1.1 /\ quiet c c1.
Proof.
  unfold HttpConnection.dispatch, HttpConnectionProps.answer_route.
  destruct (if IsMutatingRequestMethod _ _ then _ else _); [unchanged c|].
  destruct (bool_decide _); [unchanged c|]. destruct (serve s req) as [s' [r|w]]; [|unchanged c].
  rewrite set_activity_SendResponse. unchanged (set_activity t c).
Qed.

(** Every request gets the response of the specification, and no other. *)

Lemma request_answered t raw c s :
  conn_ok c -> HasFD c = true ->
  exists c1, ProcessSingleRequest t raw c s =
      (SendResponse (answer_request t raw (face c) s).2 c1, (answer_request t raw (face c) s).1.2) /\
    face c1 = (answer_request t raw (face c) s).1.1 /\ quiet c c1.
Proof.
  intros (_ & _ & _ & _ & H5) Hf. unfold HttpConnection.ProcessSingleRequest, HttpConnectionProps.answer_request.
  rewrite H5, Hf. cbn [negb]. destruct (ParseHttpRequest raw) as [r|]; [|unchanged c]. cbv zeta.
  change (ClientIP (face c)) with (ClientIP c). change (ClientPort (face c)) with (ClientPort c).
  set (req := set_remote _ _ r). set (id := GetHeaderValueInsensitive _ _).
  destruct (bool_decide _); [unchanged (set_request_id id c)|].
  destruct (availability s req); [unchanged (set_request_id id c)|].
  destruct (AuthorizeHttpRequest _ _ _ _ _) as [req1|]; [|unchanged (set_request_id id c)].
  pose proof (quiet_accept_request req1 (set_request_id id c)) as Q.
  destruct (gate _ _ _ _ _) as [s1 [req2|r2]].
  - destruct (route_answered t req2 (accept_request req1 (set_request_id id c)) s1) as (c1 & E & F & Q1).
    rewrite (face_accept_request req1 (set_request_id id c)) in E, F. exists c1. split_and!; [exact E|exact F|].
    exact (quiet_trans _ _ _ Q Q1).
  - exists (accept_request req1 (set_request_id id c)). split_and!; [done|apply face_accept_request|exact Q].
Qed.

Lemma frames_answered fuel t c s :
  conn_ok c -> HasFD c = true ->
  let '(i, s', ts) := answer_frames fuel t (face c) s in
  exists c', process_loop fuel t c s = (c', s') /\ face c' = i /\ emits c ts c' /\ HasFD c' = true.
Proof.
  revert c s. induction fuel as [|fuel IH]; intros c s Hc Hf; cbn [HttpConnectionProps.answer_frames HttpConnection.process_loop].
  { exists c. split_and!; [done|done| |done]. by apply quiet_emits. }
  change (RequestBuffer (face c)) with (RequestBuffer c). destruct (next_frame (RequestBuffer c)) as [|r|n].
  - exists c. split_and!; [done|done| |done]. by apply quiet_emits.
  - destruct (SendResponse_emits r (set_keep_alive false c)) as (E & F & G); [by eapply quiet_ok|done|].
    eexists. split_and!; [done|exact F|exact E|exact G].
  - change (set_buffer (drop n (RequestBuffer c)) (face c)) with (face (set_buffer (drop n (RequestBuffer c)) c)).
    set (c0 := set_buffer _ c). assert (quiet c c0) as Q0 by done.
    destruct (request_answered t (take n (RequestBuffer c)) c0 s) as (c1 & E & F & Q1); [by eapply quiet_ok|done|].
    rewrite E. destruct (answer_request t (take n (RequestBuffer c)) (face c0) s) as [[i s1] r]. cbn [fst snd] in *. subst i.
    assert (conn_ok c1) as Hc1 by (eapply quiet_ok; [|exact Q1]; by eapply quiet_ok).
    assert (HasFD c1 = true) as Hf1 by (destruct Q1 as (_ & _ & _ & _ & -> & _); exact Hf).
    destruct (SendResponse_emits r c1 Hc1 Hf1) as (E1 & F1 & G1).
    assert (emits c [response_text c1 r] (SendResponse r c1)) as E2.
    { destruct E1 as [? E1]. split; [done|]. by rewrite E1, (quiet_waiting _ _ Q1), (quiet_waiting _ _ Q0). }
    pose proof (f_equal KeepAlive F1) as K1. pose proof (f_equal RequestsProcessed F1) as K2. pose proof (f_equal RequestBuffer F1) as K3.
    cbn in K1, K2, K3. rewrite K1, K2, K3. cbn [KeepAlive RequestsProcessed RequestBuffer face set_output].
    destruct (_ || _); [by eexists|]. specialize (IH (SendResponse r c1) s1 (proj1 E2) G1). rewrite F1 in IH.
    destruct (answer_frames fuel t (face c1) s1) as [[i2 s2] ts]. destruct IH as (c2 & E2' & F2 & E3 & G3).
    exists c2. split_and!; [exact E2'|exact F2| |exact G3]. exact (emits_trans _ _ _ _ _ E2 E3).
Qed.

(** ** Read events *)

Lemma receive_face chunks e c :
  receive chunks e (face c) = (face (receive chunks e c).1, (receive chunks e c).2) /\
  (conn_ok c -> emits c [] (receive chunks e c).1) /\
  ((receive chunks e c).2 = true -> HasFD (receive chunks e c).1 = HasFD c).
Proof.
  revert c. induction chunks as [|b r IH]; intros c; cbn [receive].
  - destruct e; cbn [fst snd]; split_and!; try done; intros H; try (apply emits_close); by apply quiet_emits.
  - change (RequestBuffer (face c)) with (RequestBuffer c). destruct (_ <? _); cbn [fst snd].
    + split_and!; [done| |done]. intros H. by apply emits_close, quiet_emits.
    + change (set_buffer (RequestBuffer c ++ b) (face c)) with (face (set_buffer (RequestBuffer c ++ b) c)).
      destruct (IH (set_buffer (RequestBuffer c ++ b) c)) as (E & F & G). split_and!; [exact E|exact F|exact G].
Qed.

(** The check of the headers leaves the connection as it is, or answers once. *)

Definition checked (c : Conn) (x y : Conn * bool) : Prop :=
  x.2 = y.2 /\ face x.1 = face y.1 /\ HasFD (if y.2 then x.1 else c) = HasFD c /\
  emits c (if ResponsePending y.1 then [ResponseBuffer y.1] else []) x.1 /\ (y.2 = true -> y.1 = face c).

Lemma checked_same b c : conn_ok c -> checked c (c, b) (face c, b).
Proof. intros H. unfold checked. cbn. split_and!; [done..|by destruct b|by apply quiet_emits|done]. Qed.

Lemma SendResponse_face r c : HasFD c = true -> conn_ok c ->
  SendResponse r (face c) = set_output (response_text c r) [] 0 1 true (face c).
Proof. intros Hf (_ & _ & _ & _ & H5). unfold SendResponse. cbn [face set_output Closing HasFD]. by rewrite H5, Hf. Qed.

Lemma checked_reject r c : HasFD c = true -> conn_ok c -> checked c (reject_and_close r c, false) (reject_and_close r (face c), false).
Proof.
  intros Hf Hc. destruct (SendResponse_emits r c Hc Hf) as (E & F & G). unfold checked, reject_and_close.
  rewrite SendResponse_face by done. cbn [fst snd]. split_and!; [done| |done| |done].
  - change (close (face (SendResponse r c)) = close (face c)). by rewrite F.
  - by apply emits_close.
Qed.

Lemma headers_checked c : HasFD c = true -> conn_ok c -> checked c (read_headers c) (read_headers (face c)).
Proof.
  intros Hf Hc. unfold read_headers, read_length. cbv zeta. change (RequestBuffer (face c)) with (RequestBuffer c).
  repeat (destr_goal; try first [by apply checked_same | by apply checked_reject]).
  destruct (SendResponse_emits (json_error 400 #"Bad Request" #"{'error':'Invalid request framing'}") (set_keep_alive false c))
    as (E & F & G); [by eapply quiet_ok|done|].
  change (set_keep_alive false (face c)) with (face (set_keep_alive false c)). rewrite SendResponse_face by (done || by eapply quiet_ok).
  unfold checked. cbn [fst snd]. split_and!; [done|rewrite F; reflexivity|done|exact E|done].
Qed.

Lemma read_answered t chunks e c s :
  conn_ok c -> HasFD c = true ->
  let '(i, s', ts) := answers t chunks e (face c) s in
  exists c', OnEventHandlerRead t chunks e c s = (c', s') /\ face c' = i /\ emits c ts c'.
Proof.
  intros Hc Hf. unfold HttpConnection.OnEventHandlerRead, HttpConnectionProps.answers. cbv zeta.
  change (RequestBuffer (face c)) with (RequestBuffer c). change (LastActivity (face c)) with (LastActivity c).
  pose proof (quiet_emits c c Hc (quiet_refl c)) as E0.
  destruct (_ <? seconds _); cbn [orb]; [by exists (close c); split_and!; [| |apply emits_close]|].
  destruct (_ && _); [by exists (close c); split_and!; [| |apply emits_close]|].
  destruct (_ <=? _).
  { set (r := plain_error _ _ _). destruct (SendResponse_emits r c Hc Hf) as (E & F & _).
    exists (reject_and_close r c). split_and!; [done| |by apply emits_close].
    unfold reject_and_close. change (close (face (SendResponse r c)) = close (face c)). by rewrite F. }
  destruct (receive_face chunks e c) as (E & F & G). rewrite E. specialize (F Hc).
  destruct (receive chunks e c) as [c1 [|]]; cbn [fst snd] in *; [|by exists c1].
  specialize (G eq_refl). rewrite Hf in G. destruct (headers_checked c1 G (proj1 F)) as (E1 & F1 & G1 & H1 & K1).
  destruct (read_headers c1) as [c2 ok], (read_headers (face c1)) as [i2 ok']. cbn [fst snd] in *. subst ok'.
  destruct ok.
  - specialize (K1 eq_refl). subst i2. cbn [ResponsePending face set_output] in H1. rewrite G in G1.
    change (face c2 = face c1) in F1. rewrite <- F1.
    pose proof (frames_answered (S (length (RequestBuffer c2))) t c2 s (proj1 H1) G1) as H2.
    change (RequestBuffer (face c2)) with (RequestBuffer c2). unfold ProcessMultipleRequests.
    destruct (answer_frames _ t (face c2) s) as [[i3 s3] ts]. destruct H2 as (c3 & E3 & F3 & G3 & _).
    exists c3. split_and!; [exact E3|exact F3|]. exact (emits_trans _ _ _ _ _ F (emits_trans _ _ _ _ _ H1 G3)).
  - exists c2. split_and!; [done|exact F1|]. exact (emits_trans _ _ _ _ _ F H1).
Qed.

(** ** Write events *)

Lemma send_loop_accepted p rs :
  p <> [] ->
  send_loop p rs = (take (accepted rs) p,
    if (length p <=? accepted rs)%nat then None else Some (if breaks rs then Broken else Again)).
Proof.
  revert p. induction rs as [|[n| |] rs IH]; intros p Hp; destruct p as [|b p]; try done.
  cbn [accepted breaks]. destruct (Nat.le_gt_cases (length (b :: p)) n) as [L|L].
  - cbn [send_loop]. rewrite (drop_ge (b :: p) n), (take_ge (b :: p) n), take_ge by lia.
    rewrite (proj2 (Nat.leb_le _ _)) by lia. destruct rs; cbn; by rewrite ?app_nil_r.
  - cbn [send_loop]. rewrite IH.
    2:{ intros E. apply (f_equal length) in E. rewrite length_drop in E. cbn [length] in *. lia. }
    rewrite length_drop, take_take_drop. f_equal.
    destruct (Nat.leb_spec (length (b :: p) - n) (accepted rs)), (Nat.leb_spec (length (b :: p)) (n + accepted rs)); done || lia.
Qed.

Lemma next_response_ok c : conn_ok c -> conn_ok (next_response c) /\ HasFD (next_response c) = HasFD c /\ KeepAlive (next_response c) = KeepAlive c.
Proof.
  intros (H1 & H2 & H3 & H4 & H5). unfold next_response. destruct (ResponseQueue c) as [|r q] eqn:E.
  - unfold conn_ok. cbn. split_and!; try done.
  - apply Forall_cons in H3 as [Hr Hq]. unfold conn_ok. cbn. split_and!; try done. intros _. destruct r; [done|cbn; lia].
Qed.

Lemma next_response_waiting c : waiting (next_response c) = ResponseQueue c /\ face (next_response c) = face c.
Proof. unfold next_response, waiting. by destruct (ResponseQueue c) as [|r q]. Qed.

Lemma next_response_unsent c : conn_ok c -> ResponsePending c = true -> unsent (next_response c) = mjoin (ResponseQueue c).
Proof. intros _ _. by rewrite unsent_waiting, (proj1 (next_response_waiting c)). Qed.

(** The state of a connection shows the state of the ideal one; no byte of the
    responses is lost, repeated or moved. *)

Definition tracks (x : Conn * Server W * bytes) (i : Ideal) : Prop :=
  let '(c, s, out) := x in
  conn_ok c /\ Client i = face c /\ Site i = s /\ Delivered i = out /\ (HasFD c = true -> Waiting i = waiting c) /\
  mjoin (Answered i) = Delivered i ++ mjoin (Waiting i).

Lemma close_ok c : conn_ok c -> conn_ok (close c).
Proof. by intros (H1 & H2 & H3 & H4 & H5). Qed.

Lemma sent_part_ok n c :
  conn_ok c -> (n < length (drop (ResponseSentOffset c) (ResponseBuffer c)))%nat ->
  conn_ok (set_output (ResponseBuffer c) (ResponseQueue c) (ResponseSentOffset c + n) (ResponseSerial c) (ResponsePending c) c).
Proof. rewrite length_drop. intros (H1 & H2 & H3 & H4 & H5) L. unfold conn_ok. cbn. split_and!; try done. intros _. lia. Qed.

Lemma write_delivers rs c s out i :
  HasFD c = true -> tracks (c, s, out) i ->
  tracks ((OnEventHandlerWrite rs c).1, s, out ++ (OnEventHandlerWrite rs c).2) (deliver rs i).
Proof.
  destruct i as [a b rs0 d w]. intros Hf (Hc & Ha & Hb & Hd & Hw & Hj). cbn [Client Site Answered Delivered Waiting] in *.
  specialize (Hw Hf). subst a b d. pose proof Hc as (H1 & H2 & H3 & H4 & H5).
  unfold OnEventHandlerWrite, deliver, tracks. rewrite H5, Hf. cbn [negb Client Site Answered Delivered Waiting].
  destruct (ResponsePending c) eqn:Hp; cbn [negb orb].
  2:{ unfold waiting in Hw. rewrite Hp in Hw. subst w. cbn [fst snd Client Site Answered Delivered Waiting].
      rewrite app_nil_r. split_and!; try done. intros _. unfold waiting. by rewrite Hp. }
  rewrite bool_decide_eq_false_2 by auto. rewrite (proj2 (Nat.leb_gt _ _)) by auto. subst w. unfold waiting in Hj |- *. rewrite Hp in Hj |- *.
  unfold write_buffer. set (p := drop _ _) in *. assert (p <> []) as Hne.
  { intros E. apply (f_equal length) in E. unfold p in E. rewrite length_drop in E. specialize (H4 eq_refl). cbn in E. lia. }
  rewrite send_loop_accepted by done. destruct (Nat.leb_spec (length p) (accepted rs)) as [L|L].
  - destruct (next_response_ok c Hc) as (Hn & Hfn & Hk), (next_response_waiting c) as [Hw Hfa].
    rewrite Hk. change (KeepAlive (face c)) with (KeepAlive c).
    destruct (KeepAlive c); cbn [negb fst snd Client Site Answered Delivered Waiting]; split_and!; try done;
      try (by apply close_ok); try (by symmetry); try (by rewrite take_ge, <- app_assoc by done).
    change (close (face c) = close (face (next_response c))). by rewrite Hfa.
  - assert (mjoin rs0 = (out ++ take (accepted rs) p) ++ mjoin (drop (accepted rs) p :: ResponseQueue c)) as Hj'.
    { rewrite Hj, <- app_assoc. f_equal. cbn. by rewrite app_assoc, take_drop. }
    destruct (breaks rs); cbn [negb fst snd Client Site Answered Delivered Waiting]; [by split; [apply close_ok|]|].
    split; [apply sent_part_ok; [done|rewrite length_take; fold p; lia]|]. split_and!; try done.
    intros _. cbn. rewrite Hp, length_take, Nat.min_l by lia. f_equal. unfold p. by rewrite drop_drop.
Qed.

Lemma handle_tracks x i ev : tracks x i -> tracks (handle x ev) (ideal_step i ev).
Proof.
  destruct x as [[c s] out]. intros T. pose proof T as (Hc & Ha & Hb & Hd & Hw & Hj). unfold HttpConnection.handle, HttpConnectionProps.ideal_step.
  rewrite Ha. change (HasFD (face c)) with (HasFD c). destruct (HasFD c) eqn:Hf; cbn [negb]; [|exact T]. specialize (Hw eq_refl).
  assert (tracks (close c, s, out) (ideal_close true i)) as Hcl.
  { unfold tracks, ideal_close. cbn [Client Site Answered Delivered Waiting]. rewrite Ha. by split; [apply close_ok|]. }
  destruct ev as [t chunks e|rs| |t|]; [| |exact Hcl| |].
  - pose proof (read_answered t chunks e c s Hc Hf) as H. rewrite Hb.
    destruct (answers t chunks e (face c) s) as [[i' s'] ts], H as (c' & -> & F & Hc' & W').
    unfold tracks. cbn [Client Site Answered Delivered Waiting]. split; [done|]. rewrite Hw. split_and!; try done.
    by rewrite !join_app, Hj, Hw, app_assoc.
  - pose proof (write_delivers rs c s out i Hf T) as H. by destruct (OnEventHandlerWrite rs c).
  - unfold CleanupConnection. change (LastActivity (face c)) with (LastActivity c). change (RequestsProcessed (face c)) with (RequestsProcessed c).
    destruct (_ <? _); [exact Hcl|]. destruct (_ <=? _); [exact Hcl|].
    unfold tracks, ideal_close. by cbn [Client Site Answered Delivered Waiting orb].
  - unfold ForceClose. rewrite Hf. cbn [negb]. unfold tracks, ideal_close. cbn [Client Site Answered Delivered Waiting].
    rewrite Ha. split; [by unfold conn_ok; cbn; split_and!|]. by split_and!.
Qed.

Lemma events_track t ip port s evs :
  tracks (events (new_HttpConnection t ip port, s, []) evs) (ideal_run (ideal_start (new_HttpConnection t ip port) s) evs).
Proof.
  induction evs as [|ev evs IH] using rev_ind.
  - split; [unfold conn_ok; cbn; by split_and!|done].
  - unfold HttpConnection.events, HttpConnectionProps.ideal_run in *. rewrite !foldl_app. by apply handle_tracks.
Qed.

(** C5. A connection implements the ideal one. Whatever bytes arrive, in whatever
    pieces and interleaved with whatever outcomes of [send], timeouts and errors,
    a new connection and the ideal one (one response for each complete request, in
    the order of the requests; an unbounded list of responses, the first of which is
    sent as far as the socket takes it) have at all times the same request side and
    server, have written the same bytes and are open or closed together. The bytes
    written are a beginning of the responses in their order, and as long as the
    connection is open the rest is exactly what it holds for sending: no byte is
    sent twice, out of order, between those of another response or not at all. *)
Theorem connection_refines_stream t ip port s evs c s' out :
  events (new_HttpConnection t ip port, s, []) evs = (c, s', out) ->
  let i := ideal_run (ideal_start (new_HttpConnection t ip port) s) evs in
  face c = Client i /\ s' = Site i /\ out = Delivered i /\ HasFD c = HasFD (Client i) /\
  mjoin (Answered i) = out ++ mjoin (Waiting i) /\
  (HasFD c = true -> unsent c = mjoin (Waiting i)).
Proof.
  intros E. pose proof (events_track t ip port s evs) as T. rewrite E in T. destruct T as (_ & Ha & Hb & Hd & Hw & Hj).
  cbv zeta. rewrite Ha, Hb, Hj, Hd. split_and!; try done. intros Hf. by rewrite Hw, unsent_waiting.
Qed.

Lemma events_ok t ip port s evs : conn_ok (events (new_HttpConnection t ip port, s, []) evs).1.1.
Proof.
  pose proof (events_track t ip port s evs) as T. destruct (events _ evs) as [[c s'] out]. exact (proj1 T).
Qed.

Lemma write_all n c :
  conn_ok c -> HasFD c = true -> ResponsePending c = true -> (ResponseSentOffset c < length (ResponseBuffer c))%nat ->
  (length (ResponseBuffer c) <= n)%nat ->
  OnEventHandlerWrite [Sent n] c =
    (if KeepAlive c then next_response c else close (next_response c), drop (ResponseSentOffset c) (ResponseBuffer c)).
Proof.
  intros Hc Hf Hp Ho Hn. pose proof Hc as (H1 & H2 & H3 & H4 & H5). unfold OnEventHandlerWrite.
  rewrite H5, Hf, Hp, bool_decide_eq_false_2 by auto. cbn [negb orb]. rewrite (proj2 (Nat.leb_gt _ _)) by done.
  unfold write_buffer. destruct (drop (ResponseSentOffset c) (ResponseBuffer c)) as [|b p] eqn:E.
  { apply (f_equal length) in E. rewrite length_drop in E. cbn in E. lia. }
  assert (length (b :: p) <= n)%nat by (rewrite <- E, length_drop; lia).
  cbn [send_loop]. rewrite (drop_ge _ n), (take_ge _ n) by done. cbn [send_loop]. rewrite app_nil_r.
  destruct (next_response_ok c Hc) as (_ & _ & ->). by destruct (KeepAlive c).
Qed.

Lemma handle_write rs c s out :
  HasFD c = true -> handle (c, s, out) (Write rs) = ((OnEventHandlerWrite rs c).1, s, out ++ (OnEventHandlerWrite rs c).2).
Proof. intros Hf. unfold HttpConnection.handle. rewrite Hf. cbn [negb]. by destruct (OnEventHandlerWrite rs c). Qed.

Lemma idle_writes n rs c s out :
  conn_ok c -> HasFD c = true -> ResponsePending c = false -> events (c, s, out) (replicate n (Write rs)) = (c, s, out).
Proof.
  intros (_ & _ & _ & _ & H5) Hf Hp. unfold HttpConnection.events. induction n as [|n IH]; [done|]. cbn [replicate foldl].
  rewrite handle_write by done. unfold OnEventHandlerWrite. rewrite H5, Hf, Hp. cbn [negb orb fst snd]. by rewrite app_nil_r.
Qed.

(** Write events in which the socket takes everything send all that is ready. *)

Lemma drain_loop n q c s out :
  conn_ok c -> HasFD c = true -> KeepAlive c = true -> length (ResponseQueue c) = q ->
  Forall (fun r => (length r <= n)%nat) (ResponseBuffer c :: ResponseQueue c) -> ResponsePending c = true ->
  exists c', events (c, s, out) (replicate (S q) (Write [Sent n])) = (c', s, out ++ unsent c) /\ unsent c' = [] /\ HasFD c' = true.
Proof.
  revert c out. induction q as [|q IH]; intros c out Hc Hf Hk Hq Hn Hp; apply Forall_cons in Hn as [Hn Hr];
    cbn [replicate]; unfold HttpConnection.events; cbn [foldl]; rewrite handle_write, write_all by (auto || by apply Hc);
    rewrite Hk; cbn [fst snd].
  - apply nil_length_inv in Hq. exists (next_response c). unfold next_response, unsent. rewrite Hp, Hq. cbn.
    by rewrite app_nil_r.
  - destruct (ResponseQueue c) as [|r rs] eqn:Eq; [done|]. destruct (next_response_ok c Hc) as (Hc' & Hf' & Hk').
    assert (next_response c = set_output r rs 0 (u64 (ResponseSerial c + 1)) true c) as En by (unfold next_response; by rewrite Eq).
    destruct (IH (next_response c) (out ++ drop (ResponseSentOffset c) (ResponseBuffer c))) as (c' & E & Hu & Hf'');
      [done|by rewrite Hf'|by rewrite Hk'|rewrite En; cbn; by injection Hq|by rewrite En|by rewrite En|].
    exists c'. split_and!; [|done|done]. rewrite next_response_unsent, Eq in E by done. unfold HttpConnection.events in E.
    cbn [replicate foldl] in E. rewrite E. unfold unsent. by rewrite Hp, Eq, app_assoc.
Qed.

(** A connection that is kept alive delivers every response. From any state a
    new connection can reach in which it is open and kept alive, as many write
    events as there are responses, with a socket that takes what it is given, send
    exactly the bytes that were to be sent and leave the connection open. *)
Theorem keep_alive_drains t ip port s0 evs c s out n :
  events (new_HttpConnection t ip port, s0, []) evs = (c, s, out) ->
  HasFD c = true -> KeepAlive c = true ->
  Forall (fun r => (length r <= n)%nat) (ResponseBuffer c :: ResponseQueue c) ->
  exists c', events (c, s, out) (replicate (S (length (ResponseQueue c))) (Write [Sent n])) = (c', s, out ++ unsent c) /\
    unsent c' = [] /\ HasFD c' = true.
Proof.
  intros E Hf Hk Hn. pose proof (events_ok t ip port s0 evs) as Hc. rewrite E in Hc. cbn [fst] in Hc.
  destruct (ResponsePending c) eqn:Hp; [by apply drain_loop|]. exists c. rewrite idle_writes by done.
  unfold unsent. rewrite Hp, app_nil_r. by split_and!.
Qed.

Lemma closed_silent x evs : HasFD x.1.1 = false -> events x evs = x.
Proof.
  intros Hf. unfold HttpConnection.events. induction evs as [|ev evs IH]; [done|]. cbn [foldl].
  assert (handle x ev = x) as -> by (destruct x as [[c s] out]; unfold HttpConnection.handle; cbn [fst] in Hf; by rewrite Hf). exact IH.
Qed.

(** Responses that wait behind another one are lost when the connection is to
    be closed. When requests were pipelined and the last one asked for the
    connection to be closed, the write event that completes the first response
    closes the connection although it has just made the next response the current
    one: whatever happens later, the responses in the queue are never sent. *)
Theorem pipelined_close_loses_responses t ip port s0 evs c s out n later :
  events (new_HttpConnection t ip port, s0, []) evs = (c, s, out) ->
  HasFD c = true -> KeepAlive c = false -> ResponsePending c = true -> (length (ResponseBuffer c) <= n)%nat ->
  exists c', events (c, s, out) (Write [Sent n] :: later) =
    (c', s, out ++ drop (ResponseSentOffset c) (ResponseBuffer c)) /\
    HasFD c' = false /\ unsent c' = mjoin (ResponseQueue c).
Proof.
  intros E Hf Hk Hp Hn. pose proof (events_ok t ip port s0 evs) as Hc. rewrite E in Hc. cbn [fst] in Hc.
  exists (close (next_response c)). split_and!; [|done|by apply next_response_unsent].
  unfold HttpConnection.events. cbn [foldl]. rewrite handle_write, write_all by (auto || by apply Hc).
  rewrite Hk. by apply closed_silent.
Qed.

End Server.

(** ** Witnesses *)

(** A server without authentication whose handlers answer with the path. *)

Definition open_site : Server unit :=
  mkServer (Some UserAuth.no_users) ApiKeys.no_keys None
    (mkNames (fun _ => true) (fun _ => []) (fun _ => None)) false false tt.

Definition echo (s : Server unit) (req : HttpRequest) : Server unit * result HttpResponse :=
  (s, Ok (with_body (new_HttpResponse 200 #"OK" #"text/plain") (Path req))).

Definition get_request (path connection : bytes) : bytes :=
  #"GET " ++ path ++ #" HTTP/1.1" ++ crlf ++ #"Connection: " ++ connection ++ crlf ++ crlf.

Abbreviation demo_events := (events id (fun _ => []) (fun _ _ _ => []) (fun _ _ => None) echo).

Definition demo_run (second : bytes) : Conn * Server unit * bytes :=
  demo_events (new_HttpConnection 0 #"127.0.0.1" 4000, open_site, [])
    [Read 0 [get_request #"/collections" #"keep-alive" ++ get_request #"/stats" second] WouldBlock].

Lemma demo_run_state second :
  demo_events (new_HttpConnection 0 #"127.0.0.1" 4000, open_site, [])
    [Read 0 [get_request #"/collections" #"keep-alive" ++ get_request #"/stats" second] WouldBlock] =
  ((demo_run second).1.1, (demo_run second).1.2, (demo_run second).2).
Proof. fold (demo_run second). by destruct (demo_run second) as [[c s] out]. Qed.

(** Two requests in one read, of whose responses the socket takes ten bytes. *)

Definition demo_part : list Event :=
  [Read 0 [get_request #"/collections" #"keep-alive" ++ get_request #"/stats" #"keep-alive"] WouldBlock; Write [Sent 10; Again]].

Lemma connection_refines_stream_witness :
  let x := demo_events (new_HttpConnection 0 #"127.0.0.1" 4000, open_site, []) demo_part in
  let i := ideal_run id (fun _ => []) (fun _ _ _ => []) (fun _ _ => None) echo
             (ideal_start (new_HttpConnection 0 #"127.0.0.1" 4000) open_site) demo_part in
  x.2 = #"HTTP/1.1 2" /\ length (Answered i) = 2%nat /\ mjoin (Answered i) = x.2 ++ unsent x.1.1.
Proof.
  cbv zeta. split; [vm_compute; reflexivity|]. split; [vm_compute; reflexivity|].
  destruct (connection_refines_stream id (fun _ => []) (fun _ _ _ => []) (fun _ _ => None) echo 0 #"127.0.0.1" 4000 open_site
    demo_part _ _ _ ltac:(rewrite <- !surjective_pairing; reflexivity)) as (_ & _ & _ & _ & -> & H).
  rewrite H by (vm_compute; reflexivity). reflexivity.
Defined.

Lemma keep_alive_drains_witness :
  exists c', demo_events ((demo_run #"keep-alive").1.1, (demo_run #"keep-alive").1.2, (demo_run #"keep-alive").2)
      (replicate (S (length (ResponseQueue (demo_run #"keep-alive").1.1))) (Write [Sent 1000])) =
    (c', (demo_run #"keep-alive").1.2, (demo_run #"keep-alive").2 ++ unsent (demo_run #"keep-alive").1.1) /\
    unsent c' = [] /\ HasFD c' = true.
Proof.
  apply (keep_alive_drains id (fun _ => []) (fun _ _ _ => []) (fun _ _ => None) echo 0 #"127.0.0.1" 4000 open_site
    [Read 0 [get_request #"/collections" #"keep-alive" ++ get_request #"/stats" #"keep-alive"] WouldBlock]
    (demo_run #"keep-alive").1.1 (demo_run #"keep-alive").1.2 (demo_run #"keep-alive").2 1000
    (demo_run_state #"keep-alive")); [vm_compute; reflexivity|vm_compute; reflexivity|].
  apply Forall_forall. intros r Hr. apply Nat.leb_le. revert r Hr. apply Forall_forall. vm_compute. by repeat constructor.
Defined.

Lemma pipelined_close_loses_responses_witness :
  exists c', demo_events ((demo_run #"close").1.1, (demo_run #"close").1.2, (demo_run #"close").2)
      [Write [Sent 1000]; Write [Sent 1000]] =
    (c', (demo_run #"close").1.2,
     (demo_run #"close").2 ++ drop (ResponseSentOffset (demo_run #"close").1.1) (ResponseBuffer (demo_run #"close").1.1)) /\
    HasFD c' = false /\ unsent c' <> [].
Proof.
  destruct (pipelined_close_loses_responses id (fun _ => []) (fun _ _ _ => []) (fun _ _ => None) echo 0 #"127.0.0.1" 4000 open_site
    [Read 0 [get_request #"/collections" #"keep-alive" ++ get_request #"/stats" #"close"] WouldBlock]
    (demo_run #"close").1.1 (demo_run #"close").1.2 (demo_run #"close").2 1000 [Write [Sent 1000]]
    (demo_run_state #"close")) as (c' & H1 & H2 & H3); [vm_compute; reflexivity..|apply Nat.leb_le; vm_compute; reflexivity|].
  exists c'. split_and!; [exact H1|exact H2|rewrite H3; vm_compute; congruence].
Defined.

End HttpConnectionProps.
