(* ===== verification/HttpStreamProps.v ===== *)
(** * HTTP connections: the requests in a stream of bytes

    How the request buffer is split into requests: the frame at the start of the
    buffer does not change when more bytes arrive, so that a stream of requests
    is processed in the same way however read events cut it; and where the text
    search for the length field and the parsed headers disagree. *)

From S2P Require Import Prelude CText StdMap SearchCache ApiKeys UserAuth HttpRoutes HttpMessage HttpGate HttpConnection HttpConnectionProps.

Module HttpStreamProps.
Import SearchCache HttpRoutes HttpMessage HttpGate HttpConnection.

(** ** Frames *)

Lemma starts_with_app p s x : (length p <= length s)%nat -> starts_with p (s ++ x) = starts_with p s.
Proof. intros H. unfold starts_with. by rewrite take_app_le. Qed.

Lemma find_sub_extend p s x n : find_sub p s = Some n -> find_sub p (s ++ x) = Some n.
Proof.
  revert n. induction s as [|c s IH]; intros n H; pose proof (find_sub_length _ _ _ H) as Hl.
  - cbn [find_sub] in H. destruct (starts_with p []) eqn:E; [|done]. injection H as <-. cbn [length] in Hl.
    destruct p; [|cbn in Hl; lia]. by destruct x.
  - cbn [app find_sub] in *. change (c :: s ++ x) with ((c :: s) ++ x). rewrite starts_with_app by lia.
    destruct (starts_with p (c :: s)); [done|]. destruct (find_sub p s) as [m|]; [|done].
    by rewrite (IH m eq_refl).
Qed.

Lemma take_headers b x n : find_sub header_end b = Some n -> take (n + 4) (b ++ x) = take (n + 4) b.
Proof. intros H%find_sub_length. apply take_app_le. exact H. Qed.

(** The frame at the start of the buffer stays when bytes are added. *)

Lemma next_frame_app b x n : next_frame b = Complete n -> next_frame (b ++ x) = Complete n.
Proof.
  unfold next_frame. destruct (find_sub header_end b) as [h|] eqn:E; [|done].
  rewrite (find_sub_extend _ _ x _ E), (take_headers _ x _ E). destruct (_ <? _); [done|].
  destruct (HasValidRequestFramingHeaders _); [|done]. destruct (body_length _ _) as [m|]; [|done].
  destruct (Z.ltb_spec (size b) (Z.of_nat (h + 4) + m)); [done|]. intros [= <-].
  destruct (Z.ltb_spec (size (b ++ x)) (Z.of_nat (h + 4) + m)) as [Hs|Hs]; [|done].
  unfold size in *. rewrite length_app in Hs. lia.
Qed.

Definition whole (f : bytes) : Prop := next_frame f = Complete (length f).

Lemma whole_parts f : whole f ->
  exists h m, find_sub header_end f = Some h /\ (HTTP_MAX_HEADER_SIZE <? size (take (h + 4) f)) = false /\
    (exists u, HasValidRequestFramingHeaders (take (h + 4) f) = Ok u) /\
    body_length (h + 4) (take (h + 4) f) = inl m /\ length f = (h + 4 + Z.to_nat m)%nat.
Proof.
  unfold whole, next_frame. destruct (find_sub header_end f) as [h|]; [|done].
  destruct (_ <? _) eqn:E1; [done|]. destruct (HasValidRequestFramingHeaders _) eqn:E2; [|done].
  destruct (body_length _ _) as [m|] eqn:E3; [|done].
  destruct (size f <? _); [done|]. intros [= H].
  exists h, m. split_and!; [done|done|by eexists|done|lia].
Qed.

Lemma body_length_nonneg n h m : body_length n h = inl m -> 0 <= m.
Proof.
  unfold body_length. destruct (content_length_field h) as [| | |v]; try (intros [= <-]; lia).
  unfold from_chars. destruct (span isdigit v) as [ds r]. destruct ds as [|d ds]; [done|].
  destruct (_ <? _); [|done]. destruct r; [|done]. destruct (_ <? _); [done|]. destruct (_ <? _); [done|]. intros [= <-].
  unfold digits_val. generalize (d :: ds). intros l.
  assert (forall l a, 0 <= a -> 0 <= foldl (fun acc c => acc * 10 + digit_val c) a l) as H; [|apply H; lia].
  clear. induction l as [|c l IH]; intros a Ha; [done|]. cbn. apply IH.
  assert (0 <= digit_val c) by (unfold digit_val, isdigit, in_range; repeat destr_goal; lia). lia.
Qed.

(** A strict prefix of a whole request is not complete. *)

Lemma prefix_incomplete f b x : whole f -> f = b ++ x -> x <> [] -> next_frame b = Incomplete.
Proof.
  intros (h & m & Hf & H1 & [u H2] & H3 & Hl)%whole_parts -> Hx. unfold next_frame.
  destruct (find_sub header_end b) as [h'|] eqn:E; [|done].
  pose proof (find_sub_extend _ _ x _ E) as E'. rewrite Hf in E'. injection E' as <-. rewrite (take_headers _ x _ E) in *.
  rewrite H1, H2, H3. pose proof (body_length_nonneg _ _ _ H3). rewrite length_app in Hl.
  assert (length x <> 0)%nat by (by destruct x). destruct (Z.ltb_spec (size b) (Z.of_nat (h + 4) + m)) as [|Hs]; [done|].
  unfold size in Hs. lia.
Qed.

(** ** Read events *)

(** The length field is one that both readers of the buffer accept. *)

Definition plain_length (f : bytes) : Prop :=
  match find_sub header_end f with
  | Some h =>
      match content_length_field (take (h + 4) f) with
      | LengthStr v => size v <= 20
      | NoEnd => False
      | _ => True
      end
  | None => False
  end.

Lemma from_chars_all v n : from_chars v = Some (n, []) -> v <> [] /\ Forall (fun c => isdigit c = true) v.
Proof.
  unfold from_chars. pose proof (span_app isdigit v) as Ha. pose proof (span_all isdigit v) as Hd.
  destruct (span isdigit v) as [ds r]. cbn [fst snd] in *. destruct ds as [|d ds]; [done|]. destruct (_ <? _); [|done].
  intros [= _ ->]. rewrite app_nil_r in Ha. subst v. by split.
Qed.

Lemma digit_not_blank c : isdigit c = true -> blank c = false.
Proof. by_bytes (fun c => negb (isdigit c) || negb (blank c)) c. by destruct (isdigit c), (blank c). Qed.

Lemma digits_untrimmed v : Forall (fun c => isdigit c = true) v -> reverse (skip_while blank (reverse v)) = v.
Proof.
  intros H. rewrite skip_while_stays; [apply reverse_involutive|]. intros c Hc. apply digit_not_blank.
  rewrite Forall_forall in H. apply H. rewrite <- elem_of_reverse. by apply head_Some_elem_of.
Qed.

Lemma read_length_digits n v m c :
  from_chars v = Some (m, []) -> size v <= 20 -> (HTTP_MAX_REQUEST_SIZE <? m) = false -> (2 ^ 64 - 1 - Z.of_nat n <? m) = false ->
  read_length n v c = (c, m <=? size (RequestBuffer c) - Z.of_nat n).
Proof.
  intros Hv Hs H1 H2. destruct (from_chars_all _ _ Hv) as [Hne Hd]. unfold read_length.
  assert ((match trim blank v with [] => v | _ => reverse (skip_while blank (reverse v)) end) = v) as ->
    by (rewrite digits_untrimmed by done; by destruct (trim blank v)).
  destruct (Z.ltb_spec 20 (size v)); [lia|]. rewrite bool_decide_eq_false_2 by done. cbn [orb].
  assert (forallb isdigit v = true) as -> by (apply forallb_forall; intros y Hy%list_elem_of_In; rewrite Forall_forall in Hd; by apply Hd).
  cbn [negb]. by rewrite Hv, H1, H2.
Qed.

(** What a read event decides when the buffer starts with a part of a request. *)

Lemma read_headers_frame f c :
  whole f -> plain_length f ->
  (forall x, f = RequestBuffer c ++ x -> x <> [] -> read_headers c = (c, false)) /\
  (forall x, RequestBuffer c = f ++ x -> read_headers c = (c, true)).
Proof.
  intros (h & m & Hf & H1 & [u H2] & H3 & Hl)%whole_parts Hp. unfold plain_length in Hp. rewrite Hf in Hp.
  pose proof (body_length_nonneg _ _ _ H3) as Hm. unfold body_length in H3.
  assert (forall b, find_sub header_end (RequestBuffer c) = Some h -> take (h + 4) (RequestBuffer c) = take (h + 4) f ->
    b = (m <=? size (RequestBuffer c) - Z.of_nat (h + 4)) -> (m = 0 -> b = true) -> read_headers c = (c, b)) as Hread.
  { intros b Hb Ht Hbm Hm0. unfold read_headers. rewrite Hb, Ht, H1, H2.
    destruct (content_length_field (take (h + 4) f)) as [| | |v].
    1, 2: injection H3 as <-; by rewrite Hm0.
    - done.
    - destruct (from_chars v) as [[k [|]]|] eqn:Ev; [|done|done]. destruct (_ <? k) eqn:E1; [done|].
      destruct (_ <? k) eqn:E2 in H3; [done|]. injection H3 as ->. rewrite (read_length_digits _ _ m) by done. by rewrite Hbm. }
  split; intros x Hx.
  - intros Hne. destruct (find_sub header_end (RequestBuffer c)) as [h'|] eqn:E; [|unfold read_headers; by rewrite E].
    pose proof (find_sub_extend _ _ x _ E) as E'. rewrite <- Hx, Hf in E'. injection E' as <-.
    assert (length x <> 0)%nat by (by destruct x). apply (f_equal length) in Hx as Hx'. rewrite length_app in Hx'.
    pose proof (find_sub_length _ _ _ E) as Hfl. change (length header_end) with 4%nat in Hfl.
    apply Hread; [done|rewrite Hx; symmetry; by apply take_headers| |].
    + symmetry. apply Z.leb_gt. unfold size. lia.
    + intros ->. lia.
  - assert (length (RequestBuffer c) = length f + length x)%nat by (rewrite Hx; apply length_app).
    apply Hread; [rewrite Hx; by apply find_sub_extend|rewrite Hx; by apply take_headers| |done].
    symmetry. apply Z.leb_le. unfold size. lia.
Qed.

(** ** Requests and the buffer *)

Section Server.
Context {W : Type}.
Variable sha256 : bytes -> bytes.
Variable dump : list (bytes * bytes) -> bytes.
Variable dump_methods : bytes -> bytes -> list bytes -> bytes.
Variable refuse_mutation : Server W -> HttpRequest -> option HttpResponse.
Variable serve : Server W -> HttpRequest -> Server W * result HttpResponse.
Implicit Types (c : Conn) (s : Server W).

Abbreviation dispatch := (dispatch dump dump_methods refuse_mutation serve).
Abbreviation ProcessSingleRequest := (ProcessSingleRequest sha256 dump dump_methods refuse_mutation serve).
Abbreviation process_loop := (process_loop sha256 dump dump_methods refuse_mutation serve).
Abbreviation OnEventHandlerRead := (OnEventHandlerRead sha256 dump dump_methods refuse_mutation serve).

Lemma SendResponse_buffer r b c : SendResponse r (set_buffer b c) = set_buffer b (SendResponse r c).
Proof. unfold SendResponse. destruct (_ || _); [done|]. cbn -[bool_decide response_text]. by destruct (_ && _). Qed.

Lemma dispatch_buffer t req b c s :
  dispatch t req (set_buffer b c) s = (set_buffer b (dispatch t req c s).1, (dispatch t req c s).2).
Proof.
  unfold HttpConnection.dispatch. destruct (if IsMutatingRequestMethod _ _ then _ else _); [by rewrite SendResponse_buffer|].
  destruct (bool_decide _); [by rewrite SendResponse_buffer|]. destruct (serve s req) as [s' [r|w]]; by rewrite SendResponse_buffer.
Qed.

Lemma accept_request_buffer req b c :
  (HTTP_MAX_REQUESTS_PER_CONNECTION <=? wrap_int32 (RequestsProcessed c + 1)) = false ->
  accept_request req (set_buffer b c) = set_buffer b (accept_request req c).
Proof. intros H. unfold accept_request. cbn -[wrap_int32 Z.leb Z.add]. by rewrite H. Qed.

(** Below the limit on requests, a request is processed whatever is in the buffer. *)

Lemma ProcessSingleRequest_buffer t raw b c s :
  (HTTP_MAX_REQUESTS_PER_CONNECTION <=? wrap_int32 (RequestsProcessed c + 1)) = false ->
  ProcessSingleRequest t raw (set_buffer b c) s =
    (set_buffer b (ProcessSingleRequest t raw c s).1, (ProcessSingleRequest t raw c s).2).
Proof.
  intros Hn. unfold HttpConnection.ProcessSingleRequest. cbn [Closing set_buffer]. destruct (Closing c); [done|].
  destruct (ParseHttpRequest raw) as [r|]; [|by rewrite SendResponse_buffer].
  cbn [ClientIP ClientPort set_buffer]. set (req := set_remote _ _ r). set (id := GetHeaderValueInsensitive _ _).
  change (set_request_id id (set_buffer b c)) with (set_buffer b (set_request_id id c)).
  destruct (bool_decide _); [by rewrite SendResponse_buffer|]. destruct (availability s req); [by rewrite SendResponse_buffer|].
  destruct (AuthorizeHttpRequest _ _ _ _ _) as [req1|]; [|by rewrite SendResponse_buffer].
  rewrite accept_request_buffer by exact Hn. destruct (gate _ _ _ _ _) as [s' [req2|]]; [|by rewrite SendResponse_buffer].
  apply dispatch_buffer.
Qed.

Definition fresh (t : Z) c : Prop := seconds (t - LastActivity c) <= 10.

Lemma SendResponse_activity r c : LastActivity (SendResponse r c) = LastActivity c.
Proof. unfold SendResponse. destruct (_ || _); [done|]. by destruct (_ && _). Qed.

Lemma accept_request_activity req c : LastActivity (accept_request req c) = LastActivity c.
Proof. unfold accept_request. by destruct (_ && _). Qed.

Lemma ProcessSingleRequest_fresh t raw c s : fresh t c -> fresh t (ProcessSingleRequest t raw c s).1.
Proof.
  unfold fresh. intros H. unfold HttpConnection.ProcessSingleRequest. destruct (Closing c); [done|].
  destruct (ParseHttpRequest raw) as [r|]; [|by cbn [fst]; rewrite SendResponse_activity].
  destruct (bool_decide _); [by cbn [fst]; rewrite SendResponse_activity|].
  destruct (availability _ _); [by cbn [fst]; rewrite SendResponse_activity|].
  destruct (AuthorizeHttpRequest _ _ _ _ _) as [req|]; [|by cbn [fst]; rewrite SendResponse_activity].
  destruct (gate _ _ _ _ _) as [s' [req'|]]; [|by cbn [fst]; rewrite SendResponse_activity, accept_request_activity].
  unfold HttpConnection.dispatch.
  destruct (if IsMutatingRequestMethod _ _ then _ else _); [by cbn [fst]; rewrite SendResponse_activity, accept_request_activity|].
  destruct (bool_decide _); [by cbn [fst]; rewrite SendResponse_activity, accept_request_activity|].
  destruct (serve s' req') as [s'' [a|w]]; cbn [fst]; [|by rewrite SendResponse_activity, accept_request_activity].
  cbn [LastActivity set_activity]. by rewrite Z.sub_diag.
Qed.

(** ** A list of requests *)

Fixpoint serve_all (t : Z) c s (frames : list bytes) : Conn * Server W :=
  match frames with
  | [] => (c, s)
  | f :: r => let x := ProcessSingleRequest t f c s in serve_all t x.1 x.2 r
  end.

(** Every request leaves the connection alive and below the limit on requests. *)

Fixpoint steady (t : Z) c s (frames : list bytes) : Prop :=
  match frames with
  | [] => True
  | f :: r =>
      let x := ProcessSingleRequest t f c s in
      (HTTP_MAX_REQUESTS_PER_CONNECTION <=? wrap_int32 (RequestsProcessed c + 1)) = false /\
      KeepAlive x.1 = true /\ (HTTP_MAX_REQUESTS_PER_CONNECTION <=? RequestsProcessed x.1) = false /\ steady t x.1 x.2 r
  end.

Lemma set_buffer_twice a b c : set_buffer a (set_buffer b c) = set_buffer a c.
Proof. done. Qed.

Lemma serve_all_app t c s fs gs :
  serve_all t c s (fs ++ gs) = serve_all t (serve_all t c s fs).1 (serve_all t c s fs).2 gs.
Proof. revert c s. induction fs as [|f fs IH]; intros c s; [done|]. apply IH. Qed.

Lemma steady_app t c s fs gs :
  steady t c s (fs ++ gs) -> steady t c s fs /\ steady t (serve_all t c s fs).1 (serve_all t c s fs).2 gs.
Proof.
  revert c s. induction fs as [|f fs IH]; intros c s; [done|]. cbn [app steady serve_all].
  intros (H1 & H2 & H3 & H4). apply IH in H4 as [H4 H5]. by split.
Qed.

Lemma serve_all_fresh t c s fs : fresh t c -> fresh t (serve_all t c s fs).1.
Proof.
  revert c s. induction fs as [|f fs IH]; intros c s H; [done|]. apply IH. by apply ProcessSingleRequest_fresh.
Qed.

(** The loop over the buffer serves the whole requests at its start. *)

Lemma process_loop_frames fuel t c s fs b :
  (length fs < fuel)%nat -> Forall whole fs -> next_frame b = Incomplete -> steady t c s fs ->
  process_loop fuel t (set_buffer (mjoin fs ++ b) c) s = (set_buffer b (serve_all t c s fs).1, (serve_all t c s fs).2).
Proof.
  revert fuel c s. induction fs as [|f fs IH]; intros fuel c s Hl Hw Hb Hs; (destruct fuel as [|fuel]; [cbn in Hl; lia|]).
  - cbn [HttpConnection.process_loop mjoin list_join app RequestBuffer set_buffer]. by rewrite Hb.
  - apply Forall_cons in Hw as [Hf Hw]. cbn [steady] in Hs. destruct Hs as (H1 & H2 & H3 & H4).
    cbn [HttpConnection.process_loop mjoin list_join RequestBuffer set_buffer]. rewrite <- app_assoc, (next_frame_app f _ _ Hf).
    rewrite take_app_length, drop_app_length, set_buffer_twice, ProcessSingleRequest_buffer by exact H1.
    destruct (ProcessSingleRequest t f c s) as [c' s'] eqn:E. cbn [fst snd] in *.
    cbn [KeepAlive RequestsProcessed set_buffer]. rewrite H2, H3. cbn [negb orb andb].
    rewrite IH by (done || cbn in Hl; lia). cbn [serve_all]. by rewrite E.
Qed.

(** The buffer is a strict part of the next request, or empty when there is none. *)

Definition behind (b : bytes) (todo : list bytes) : Prop :=
  match todo with
  | [] => b = []
  | f :: _ => exists x, f = b ++ x /\ x <> []
  end.

Lemma whole_nonempty f : whole f -> f <> [].
Proof. by intros Hf ->. Qed.

Lemma split_frames todo b y :
  b ++ y = mjoin todo -> exists fs rest b', todo = fs ++ rest /\ b = mjoin fs ++ b' /\ behind b' rest.
Proof.
  revert b. induction todo as [|f r IH]; intros b H.
  - apply app_nil in H as [-> _]. exists [], [], []. by split_and!.
  - cbn in H. destruct (decide (length b < length f)%nat) as [Hl|Hl].
    + exists [], (f :: r), b. split_and!; [done|done|]. exists (take (length f - length b) y).
      apply (f_equal (take (length f))) in H. rewrite take_app_length, take_app_ge in H by lia.
      split; [done|]. intros Hn. rewrite Hn, app_nil_r in H. subst b. lia.
    + assert (b = f ++ drop (length f) b) as E.
      { apply (f_equal (take (length f))) in H as H'. rewrite take_app_length, take_app_le in H' by lia.
        rewrite <- H' at 1. by rewrite take_drop. }
      rewrite E in H. rewrite <- app_assoc in H. apply app_inv_head in H. apply IH in H as (fs & rest & b' & -> & H & Hb).
      exists (f :: fs), rest, b'. split_and!; [done| |done]. rewrite E, H. cbn. by rewrite app_assoc.
Qed.

Lemma behind_incomplete b todo : Forall whole todo -> behind b todo -> next_frame b = Incomplete.
Proof.
  destruct todo as [|f r]; [intros _ ->; done|]. intros [Hf _]%Forall_cons (x & E & Hx). by eapply prefix_incomplete.
Qed.

Lemma receive_all chunks b c :
  size (b ++ mjoin chunks) <= HTTP_MAX_REQUEST_SIZE ->
  receive chunks WouldBlock (set_buffer b c) = (set_buffer (b ++ mjoin chunks) c, true).
Proof.
  revert b. induction chunks as [|k r IH]; intros b H; cbn [mjoin list_join receive] in *; [by rewrite app_nil_r|].
  cbn [RequestBuffer set_buffer]. rewrite app_assoc in H. assert (size k + size b <= HTTP_MAX_REQUEST_SIZE).
  { unfold size in *. rewrite !length_app in H. lia. }
  destruct (Z.ltb_spec (HTTP_MAX_REQUEST_SIZE - size k) (size b)); [lia|].
  rewrite set_buffer_twice, IH by done. by rewrite app_assoc.
Qed.

Definition acceptable (f : bytes) : Prop := whole f /\ plain_length f.

Lemma acceptable_whole fs : Forall acceptable fs -> Forall whole fs.
Proof. intros H. eapply Forall_impl; [exact H|]. by intros f []. Qed.

Lemma length_mjoin fs : Forall whole fs -> (length fs <= length (mjoin fs))%nat.
Proof.
  induction 1 as [|f fs Hf _ IH]; [done|]. change (mjoin (f :: fs)) with (f ++ mjoin fs). rewrite length_app.
  apply whole_nonempty in Hf. destruct f; [done|]. cbn [length]. lia.
Qed.

(** One read event. *)

Lemma read_event t c s b todo chunks y :
  fresh t c -> Forall acceptable todo -> steady t c s todo ->
  (b ++ mjoin chunks) ++ y = mjoin todo -> size (mjoin todo) < HTTP_MAX_REQUEST_SIZE ->
  exists fs rest b', todo = fs ++ rest /\ b ++ mjoin chunks = mjoin fs ++ b' /\ behind b' rest /\
    OnEventHandlerRead t chunks WouldBlock (set_buffer b c) s = (set_buffer b' (serve_all t c s fs).1, (serve_all t c s fs).2).
Proof.
  intros Hfr Ha Hs Hy Hsz. destruct (split_frames _ _ _ Hy) as (fs & rest & b' & -> & Hb & Hbe).
  exists fs, rest, b'. split_and!; [done|done|done|]. apply steady_app in Hs as [Hs _].
  apply Forall_app in Ha as [Ha Har]. pose proof (acceptable_whole _ Ha) as Hw. pose proof (acceptable_whole _ Har) as Hwr.
  assert (size b + size (mjoin chunks) < HTTP_MAX_REQUEST_SIZE) as Hb1.
  { rewrite <- Hy in Hsz. unfold size in *. rewrite !length_app in Hsz. lia. }
  unfold HttpConnection.OnEventHandlerRead. cbn [LastActivity RequestBuffer set_buffer]. unfold fresh in Hfr.
  destruct (Z.ltb_spec HTTP_CONNECTION_TIMEOUT_SECONDS (seconds (t - LastActivity c))) as [Ht|_];
    [unfold HTTP_CONNECTION_TIMEOUT_SECONDS in Ht; lia|].
  destruct (Z.ltb_spec 10 (seconds (t - LastActivity c))) as [Ht|_]; [lia|]. rewrite andb_false_r.
  destruct (Z.leb_spec HTTP_MAX_REQUEST_SIZE (size b)) as [Ht|_]; [unfold size in *; lia|].
  rewrite receive_all by (unfold size in *; rewrite length_app; lia). rewrite Hb.
  destruct fs as [|f fs].
  - cbn [mjoin list_join app serve_all fst snd]. destruct rest as [|f r].
    + cbn in Hbe. subst b'. done.
    + destruct Hbe as (x & Hx & Hne). apply Forall_cons in Har as [[H1 H2] _].
      by rewrite (proj1 (read_headers_frame f (set_buffer b' c) H1 H2) x Hx Hne).
  - apply Forall_cons in Ha as [[H1 H2] _].
    rewrite (proj2 (read_headers_frame f (set_buffer (mjoin (f :: fs) ++ b') c) H1 H2) (mjoin fs ++ b')).
    2: { cbn [RequestBuffer set_buffer mjoin list_join]. by rewrite app_assoc. }
    unfold ProcessMultipleRequests. apply process_loop_frames; [|done|by eapply behind_incomplete|done].
    cbn [RequestBuffer set_buffer]. rewrite length_app. pose proof (length_mjoin (f :: fs) Hw). lia.
Qed.

Lemma read_events t c s b todo pieces :
  fresh t c -> Forall acceptable todo -> steady t c s todo -> behind b todo ->
  b ++ mjoin (mjoin pieces) = mjoin todo -> size (mjoin todo) < HTTP_MAX_REQUEST_SIZE ->
  foldl (fun x chunks => OnEventHandlerRead t chunks WouldBlock x.1 x.2) (set_buffer b c, s) pieces =
    (set_buffer [] (serve_all t c s todo).1, (serve_all t c s todo).2).
Proof.
  revert c s b todo. induction pieces as [|p r IH]; intros c s b todo Hfr Ha Hs Hbe Hy Hsz.
  - cbn in Hy. rewrite app_nil_r in Hy. destruct todo as [|f fs]; [cbn in Hbe; by subst b|].
    destruct Hbe as (x & -> & Hx). exfalso. apply Hx. cbn in Hy. apply (f_equal length) in Hy. rewrite !length_app in Hy.
    destruct x; [done|]. cbn in Hy. lia.
  - cbn [foldl fst snd]. cbn [mjoin list_join] in Hy. rewrite join_app, app_assoc in Hy.
    destruct (read_event t c s b todo p (mjoin (mjoin r))) as (fs & rest & b' & -> & Hb & Hbe' & ->); [done..|].
    pose proof Hs as Hs'. apply steady_app in Hs' as [_ Hs']. apply Forall_app in Ha as [Ha Har].
    rewrite serve_all_app. apply IH; [by apply serve_all_fresh|done|done|done| |].
    + rewrite Hb, join_app, <- app_assoc in Hy. by apply app_inv_head in Hy.
    + rewrite join_app in Hsz. unfold size in *. rewrite length_app in Hsz. lia.
Qed.

(** C4. A stream of requests is served in order, however it arrives. When the bytes of
    a list of whole requests arrive on a connection with an empty buffer, cut into
    read events and into pieces within an event in any way, the state afterwards is
    that of processing the requests one after the other, each exactly once, and the
    buffer is empty; provided every request leaves the connection alive, and the
    limits on the size of the buffer, on requests and on time are not reached. *)
Theorem reads_serve_requests t c s frames pieces :
  fresh t c -> RequestBuffer c = [] -> Forall acceptable frames -> steady t c s frames ->
  mjoin (mjoin pieces) = mjoin frames -> size (mjoin frames) < HTTP_MAX_REQUEST_SIZE ->
  foldl (fun x chunks => OnEventHandlerRead t chunks WouldBlock x.1 x.2) (c, s) pieces =
    (set_buffer [] (serve_all t c s frames).1, (serve_all t c s frames).2).
Proof.
  intros Hfr Hb Ha Hs Hy Hsz. assert (c = set_buffer [] c) as E by (destruct c; cbn in Hb; by subst).
  rewrite E at 1. apply read_events; try done. destruct frames as [|f r]; [done|]. exists f. split; [done|].
  apply Forall_cons in Ha as [[Hf _] _]. by apply whole_nonempty.
Qed.

End Server.

(** ** The two readings of Content-Length *)

(** A request whose length field has a blank before the colon. *)

Definition spaced_head : bytes :=
  #"POST /collections/c/documents HTTP/1.1" ++ crlf ++ #"Content-Length : 5" ++ crlf ++ crlf.

(** A blank before the colon makes the body of a request the next request. The
    framing check and the header parser trim the name of a header, so that the
    parsed request has a Content-Length of five and takes five bytes as its body;
    the search for the text [content-length:] in the buffer does not find the
    field, and the frame ends with the headers. The bytes of the body stay in the
    buffer as the start of another request, and the request itself is rejected. *)
Theorem spaced_length_splits_body b :
  5 <= size b ->
  HasValidRequestFramingHeaders spaced_head = Ok tt /\
  (exists req, ParseHttpRequest (spaced_head ++ b) = Some req /\ RequestBody req = take 5 b) /\
  next_frame (spaced_head ++ b) = Complete (length spaced_head) /\
  ParseHttpRequest spaced_head = None.
Proof.
  intros Hb. assert (find_sub header_end spaced_head = Some (length spaced_head - 4)%nat) as Hf by (vm_compute; reflexivity).
  split_and!; [vm_compute; reflexivity| |apply next_frame_app; vm_compute; reflexivity|vm_compute; reflexivity].
  unfold ParseHttpRequest. rewrite (find_sub_extend _ _ b _ Hf), (take_headers _ b _ Hf).
  change (HTTP_MAX_HEADER_SIZE <? Z.of_nat (length spaced_head - 4) + 4) with false. cbn iota.
  change (HasValidRequestFramingHeaders (take (length spaced_head - 4 + 4) spaced_head)) with (@Ok unit tt). cbn iota.
  change (getlines LF [] (spaced_head ++ b)) with
    ([ #"POST /collections/c/documents HTTP/1.1" ++ [CR]; #"Content-Length : 5" ++ [CR]; [CR]] ++ getlines LF [] b).
  cbn [app]. change (request_line _) with (Some (#"POST", #"/collections/c/documents", #"HTTP/1.1")). cbn iota.
  change (header_text _) with (#"Content-Length : 5" ++ [LF]).
  change (split_path _) with (#"/collections/c/documents", @nil (bytes * bytes)). cbn iota.
  change (header_content_length _) with (Some 5). cbn iota.
  assert (body_of (spaced_head ++ b) (length spaced_head - 4 + 4) 5 = Some (take 5 b)) as ->; [|by eexists].
  unfold body_of. change (0 <? 5) with true. cbn iota.
  change (length spaced_head - 4 + 4)%nat with (length spaced_head). unfold size in *. rewrite length_app, drop_app_length.
  change (u64 (Z.of_nat (length spaced_head) + 5)) with (Z.of_nat (length spaced_head) + 5).
  destruct (Z.leb_spec (Z.of_nat (length spaced_head) + 5) (Z.of_nat (length spaced_head + length b))); [|lia].
  by rewrite Z.min_l by lia.
Qed.

Lemma spaced_length_splits_body_witness : next_frame (spaced_head ++ #"GET /") = Complete (length spaced_head).
Proof.
  refine (proj1 (proj2 (proj2 (spaced_length_splits_body #"GET /" _)))). apply Z.leb_le. vm_compute. reflexivity.
Defined.

(** ** Witness of the stream of requests *)

Definition two_requests : list bytes :=
  [HttpConnectionProps.get_request #"/collections" #"keep-alive"; HttpConnectionProps.get_request #"/stats" #"keep-alive"].

Lemma reads_serve_requests_witness :
  foldl (fun x chunks => OnEventHandlerRead id (fun _ => []) (fun _ _ _ => []) (fun _ _ => None) HttpConnectionProps.echo
           0 chunks WouldBlock x.1 x.2) (new_HttpConnection 0 #"127.0.0.1" 4000, HttpConnectionProps.open_site)
    [[take 20 (mjoin two_requests)]; [take 70 (drop 20 (mjoin two_requests)); drop 90 (mjoin two_requests)]] =
  (set_buffer [] (serve_all id (fun _ => []) (fun _ _ _ => []) (fun _ _ => None) HttpConnectionProps.echo 0
      (new_HttpConnection 0 #"127.0.0.1" 4000) HttpConnectionProps.open_site two_requests).1,
   (serve_all id (fun _ => []) (fun _ _ _ => []) (fun _ _ => None) HttpConnectionProps.echo 0
      (new_HttpConnection 0 #"127.0.0.1" 4000) HttpConnectionProps.open_site two_requests).2).
Proof.
  apply (reads_serve_requests id (fun _ => []) (fun _ _ _ => []) (fun _ _ => None) HttpConnectionProps.echo 0
    (new_HttpConnection 0 #"127.0.0.1" 4000) HttpConnectionProps.open_site two_requests
    [[take 20 (mjoin two_requests)]; [take 70 (drop 20 (mjoin two_requests)); drop 90 (mjoin two_requests)]]).
  - apply Z.leb_le. vm_compute. reflexivity.
  - reflexivity.
  - repeat constructor; vm_compute; reflexivity.
  - vm_compute. by split_and!.
  - vm_compute. reflexivity.
  - vm_compute. reflexivity.
Defined.

End HttpStreamProps.
