(* ===== verification/HttpDispatch.v ===== *)
(** * Dispatch of requests: src/api/httpserver.cpp

    Which handler of [SearchAPI] serves a request. [ProcessSingleRequest] resolves
    the route and then, but for twelve actions, chooses the handler again by
    looking for texts in the path: two chains of tests, each a list of guarded
    handlers in order. [DispatchResolvedRoute] chooses by the resolved action. [P] is
    the path of the request, [N] the normalised path and [M] the method. *)

From S2P Require Import Prelude CText SearchCache HttpRoutes HttpMessage HttpGate.

Module HttpDispatch.
Import HttpRoutes HttpGate.

Inductive Handler :=
| HandleListUsers | HandleCreateUser | HandleGetUser | HandleDeleteUser | HandleUpdateUser | HandleListKeys
| HandleCreateKey | HandleGetKey | HandleDeleteKey | HandleUpdateKey | HandleListPresets | HandleCreateOrUpdatePreset
| HandleGetPreset | HandleDeletePreset | HandleCreateOrUpdateSynonym | HandleListSynonyms | HandleGetSynonym
| HandleDeleteSynonym | HandleListStopwords | HandleCreateStopword | HandleDeleteStopword | HandleSearch
| HandleFacetCounts | HandleMaybe | HandleGetDocumentContext | HandleExportDocuments | HandleBulkImportDocuments
| HandleAddDocument | HandleStatus | HandleSearchConfig | HandleConfigFiles | HandleListAllSynonyms
| HandleListGlobalSynonyms | HandleCreateOrUpdateGlobalSynonym | HandleGetGlobalSynonym | HandleDeleteGlobalSynonym
| HandleListAllStopwords | HandleListGlobalStopwords | HandleCreateGlobalStopword | HandleDeleteGlobalStopword
| HandleLinksList | HandleLinksPing | HandleLinksConnect | HandleLinksDisconnect | HandleListCollectionsDistributed
| HandleListCollections | HandleCreateCollection | HandleStorageStatus | HandleStorageDiagnostics
| HandleDurabilityBarrier | HandleVectorSearch | HandleGetCollectionLanguage | HandleGetCollection
| HandleDeleteCollection | HandleUpdateCollection | HandleListDocuments | HandleGetDocument | HandleUpdateDocument
| HandleDeleteDocument | HandleDeleteDocumentsByFilter | HandleMultiSearch | HandleGlobalSearch | HandleListOverrides
| HandleCreateOrUpdateOverride | HandleGetOverride | HandleDeleteOverride | HandleListAliases | HandleListModules
| HandleModuleSyntax | HandleModuleAPI | HandleCreateOrUpdateAlias | HandleGetAlias | HandleDeleteAlias | HandleHealth
| HandleReady | HandleMetrics | HandleStats | HandleDocTotal | HandleUpdateCounters | HandleRepair | HandleStartup
| HandleIntegrity | HandleSelfCheck | HandlePing | HandleMetricsHistory | HandleCache | HandleConnections
| HandleRocksDB | HandleDebugCounters | HandleFlush | HandleEtc | HandleUpdateByQuery | HandleDeleteByQuery
| HandleAnalyticsClick | HandleModuleLoad | HandleModuleUnload.

(** All handlers, and the place of each. *)

Definition all_handlers : list Handler :=
  [HandleListUsers; HandleCreateUser; HandleGetUser; HandleDeleteUser; HandleUpdateUser; HandleListKeys;
   HandleCreateKey; HandleGetKey; HandleDeleteKey; HandleUpdateKey; HandleListPresets; HandleCreateOrUpdatePreset;
   HandleGetPreset; HandleDeletePreset; HandleCreateOrUpdateSynonym; HandleListSynonyms; HandleGetSynonym;
   HandleDeleteSynonym; HandleListStopwords; HandleCreateStopword; HandleDeleteStopword; HandleSearch;
   HandleFacetCounts; HandleMaybe; HandleGetDocumentContext; HandleExportDocuments; HandleBulkImportDocuments;
   HandleAddDocument; HandleStatus; HandleSearchConfig; HandleConfigFiles; HandleListAllSynonyms;
   HandleListGlobalSynonyms; HandleCreateOrUpdateGlobalSynonym; HandleGetGlobalSynonym; HandleDeleteGlobalSynonym;
   HandleListAllStopwords; HandleListGlobalStopwords; HandleCreateGlobalStopword; HandleDeleteGlobalStopword;
   HandleLinksList; HandleLinksPing; HandleLinksConnect; HandleLinksDisconnect; HandleListCollectionsDistributed;
   HandleListCollections; HandleCreateCollection; HandleStorageStatus; HandleStorageDiagnostics;
   HandleDurabilityBarrier; HandleVectorSearch; HandleGetCollectionLanguage; HandleGetCollection;
   HandleDeleteCollection; HandleUpdateCollection; HandleListDocuments; HandleGetDocument; HandleUpdateDocument;
   HandleDeleteDocument; HandleDeleteDocumentsByFilter; HandleMultiSearch; HandleGlobalSearch; HandleListOverrides;
   HandleCreateOrUpdateOverride; HandleGetOverride; HandleDeleteOverride; HandleListAliases; HandleListModules;
   HandleModuleSyntax; HandleModuleAPI; HandleCreateOrUpdateAlias; HandleGetAlias; HandleDeleteAlias; HandleHealth;
   HandleReady; HandleMetrics; HandleStats; HandleDocTotal; HandleUpdateCounters; HandleRepair; HandleStartup;
   HandleIntegrity; HandleSelfCheck; HandlePing; HandleMetricsHistory; HandleCache; HandleConnections;
   HandleRocksDB; HandleDebugCounters; HandleFlush; HandleEtc; HandleUpdateByQuery; HandleDeleteByQuery;
   HandleAnalyticsClick; HandleModuleLoad; HandleModuleUnload].

Definition handler_index (h : Handler) : nat :=
  match h with
  | HandleListUsers => 0 | HandleCreateUser => 1 | HandleGetUser => 2 | HandleDeleteUser => 3 | HandleUpdateUser =>
  4 | HandleListKeys => 5 | HandleCreateKey => 6 | HandleGetKey => 7 | HandleDeleteKey => 8 | HandleUpdateKey => 9 |
  HandleListPresets => 10 | HandleCreateOrUpdatePreset => 11 | HandleGetPreset => 12 | HandleDeletePreset => 13 |
  HandleCreateOrUpdateSynonym => 14 | HandleListSynonyms => 15 | HandleGetSynonym => 16 | HandleDeleteSynonym => 17
  | HandleListStopwords => 18 | HandleCreateStopword => 19 | HandleDeleteStopword => 20 | HandleSearch => 21 |
  HandleFacetCounts => 22 | HandleMaybe => 23 | HandleGetDocumentContext => 24 | HandleExportDocuments => 25 |
  HandleBulkImportDocuments => 26 | HandleAddDocument => 27 | HandleStatus => 28 | HandleSearchConfig => 29 |
  HandleConfigFiles => 30 | HandleListAllSynonyms => 31 | HandleListGlobalSynonyms => 32 |
  HandleCreateOrUpdateGlobalSynonym => 33 | HandleGetGlobalSynonym => 34 | HandleDeleteGlobalSynonym => 35 |
  HandleListAllStopwords => 36 | HandleListGlobalStopwords => 37 | HandleCreateGlobalStopword => 38 |
  HandleDeleteGlobalStopword => 39 | HandleLinksList => 40 | HandleLinksPing => 41 | HandleLinksConnect => 42 |
  HandleLinksDisconnect => 43 | HandleListCollectionsDistributed => 44 | HandleListCollections => 45 |
  HandleCreateCollection => 46 | HandleStorageStatus => 47 | HandleStorageDiagnostics => 48 |
  HandleDurabilityBarrier => 49 | HandleVectorSearch => 50 | HandleGetCollectionLanguage => 51 | HandleGetCollection
  => 52 | HandleDeleteCollection => 53 | HandleUpdateCollection => 54 | HandleListDocuments => 55 |
  HandleGetDocument => 56 | HandleUpdateDocument => 57 | HandleDeleteDocument => 58 | HandleDeleteDocumentsByFilter
  => 59 | HandleMultiSearch => 60 | HandleGlobalSearch => 61 | HandleListOverrides => 62 |
  HandleCreateOrUpdateOverride => 63 | HandleGetOverride => 64 | HandleDeleteOverride => 65 | HandleListAliases =>
  66 | HandleListModules => 67 | HandleModuleSyntax => 68 | HandleModuleAPI => 69 | HandleCreateOrUpdateAlias => 70
  | HandleGetAlias => 71 | HandleDeleteAlias => 72 | HandleHealth => 73 | HandleReady => 74 | HandleMetrics => 75 |
  HandleStats => 76 | HandleDocTotal => 77 | HandleUpdateCounters => 78 | HandleRepair => 79 | HandleStartup => 80 |
  HandleIntegrity => 81 | HandleSelfCheck => 82 | HandlePing => 83 | HandleMetricsHistory => 84 | HandleCache => 85
  | HandleConnections => 86 | HandleRocksDB => 87 | HandleDebugCounters => 88 | HandleFlush => 89 | HandleEtc => 90
  | HandleUpdateByQuery => 91 | HandleDeleteByQuery => 92 | HandleAnalyticsClick => 93 | HandleModuleLoad => 94 |
  HandleModuleUnload => 95
  end%nat.

Lemma all_handlers_index h : all_handlers !! handler_index h = Some h.
Proof. by destruct h. Qed.

#[export] Instance Handler_eq_dec : EqDecision Handler.
Proof.
  refine (fun a b => cast_if (decide (handler_index a = handler_index b))).
  - apply (inj Some). by rewrite <- !all_handlers_index, e.
  - intros ->. by apply n.
Defined.

Definition equals (text s : bytes) : bool := bool_decide (s = text).

Definition lacks (text s : bytes) : bool := negb (mentions text s).

Definition ends_with (text s : bytes) : bool :=
  (length text <=? length s)%nat && bool_decide (drop (length s - length text) s = text).

(** ** By the resolved action *)

Definition DispatchResolvedRoute (a : RouteAction) : option Handler :=
  match a with
  | Status | Root => Some HandleStatus
  | SearchConfig => Some HandleSearchConfig
  | ConfigFiles => Some HandleConfigFiles
  | LinksList => Some HandleLinksList
  | LinksPing => Some HandleLinksPing
  | LinksConnect => Some HandleLinksConnect
  | LinksDisconnect => Some HandleLinksDisconnect
  | Startup => Some HandleStartup
  | Integrity => Some HandleIntegrity
  | SelfCheck => Some HandleSelfCheck
  | ListAllSynonyms => Some HandleListAllSynonyms
  | ListGlobalSynonyms => Some HandleListGlobalSynonyms
  | Health => Some HandleHealth
  | Ready => Some HandleReady
  | Ping => Some HandlePing
  | Stats => Some HandleStats
  | Metrics => Some HandleMetrics
  | MetricsHistory => Some HandleMetricsHistory
  | Cache => Some HandleCache
  | Connections => Some HandleConnections
  | RocksDB => Some HandleRocksDB
  | DocTotal => Some HandleDocTotal
  | UpdateCounters => Some HandleUpdateCounters
  | DebugCounters => Some HandleDebugCounters
  | Repair => Some HandleRepair
  | StorageStatus => Some HandleStorageStatus
  | StorageDiagnostics => Some HandleStorageDiagnostics
  | DurabilityBarrier => Some HandleDurabilityBarrier
  | ListCollections => Some HandleListCollections
  | ListCollectionsDistributed => Some HandleListCollectionsDistributed
  | CreateCollection => Some HandleCreateCollection
  | UpdateCollection => Some HandleUpdateCollection
  | VectorSearch => Some HandleVectorSearch
  | DocumentSearch => Some HandleSearch
  | GetCollection => Some HandleGetCollection
  | GetCollectionLanguage => Some HandleGetCollectionLanguage
  | DeleteCollection => Some HandleDeleteCollection
  | Flush => Some HandleFlush
  | Etc => Some HandleEtc
  | ListUsers => Some HandleListUsers
  | CreateUser => Some HandleCreateUser
  | GetUser => Some HandleGetUser
  | DeleteUser => Some HandleDeleteUser
  | UpdateUser => Some HandleUpdateUser
  | ListDocuments => Some HandleListDocuments
  | GetDocument => Some HandleGetDocument
  | GetDocumentContext => Some HandleGetDocumentContext
  | AddDocument => Some HandleAddDocument
  | BulkImportDocuments => Some HandleBulkImportDocuments
  | UpdateDocument => Some HandleUpdateDocument
  | DeleteDocument => Some HandleDeleteDocument
  | DeleteDocumentsByFilter => Some HandleDeleteDocumentsByFilter
  | UpdateByQuery => Some HandleUpdateByQuery
  | DeleteByQuery => Some HandleDeleteByQuery
  | FacetCounts => Some HandleFacetCounts
  | ExportDocuments => Some HandleExportDocuments
  | MaybeSuggest => Some HandleMaybe
  | ListSynonyms => Some HandleListSynonyms
  | UpsertSynonym => Some HandleCreateOrUpdateSynonym
  | GetSynonym => Some HandleGetSynonym
  | DeleteSynonym => Some HandleDeleteSynonym
  | UpsertGlobalSynonym => Some HandleCreateOrUpdateGlobalSynonym
  | GetGlobalSynonym => Some HandleGetGlobalSynonym
  | DeleteGlobalSynonym => Some HandleDeleteGlobalSynonym
  | ListAllStopwords => Some HandleListAllStopwords
  | ListGlobalStopwords => Some HandleListGlobalStopwords
  | ListStopwords => Some HandleListStopwords
  | CreateStopword => Some HandleCreateStopword
  | CreateGlobalStopword => Some HandleCreateGlobalStopword
  | DeleteStopword => Some HandleDeleteStopword
  | DeleteGlobalStopword => Some HandleDeleteGlobalStopword
  | ListOverrides => Some HandleListOverrides
  | UpsertOverride => Some HandleCreateOrUpdateOverride
  | GetOverride => Some HandleGetOverride
  | DeleteOverride => Some HandleDeleteOverride
  | ListAliases => Some HandleListAliases
  | UpsertAlias => Some HandleCreateOrUpdateAlias
  | GetAlias => Some HandleGetAlias
  | DeleteAlias => Some HandleDeleteAlias
  | MultiSearch => Some HandleMultiSearch
  | GlobalSearch => Some HandleGlobalSearch
  | ListKeys => Some HandleListKeys
  | CreateKey => Some HandleCreateKey
  | GetKey => Some HandleGetKey
  | DeleteKey => Some HandleDeleteKey
  | UpdateKey => Some HandleUpdateKey
  | ListPresets => Some HandleListPresets
  | UpsertPreset => Some HandleCreateOrUpdatePreset
  | GetPreset => Some HandleGetPreset
  | DeletePreset => Some HandleDeletePreset
  | AnalyticsClick => Some HandleAnalyticsClick
  | ListModules => Some HandleListModules
  | GetModuleSyntax => Some HandleModuleSyntax
  | ModuleLoad => Some HandleModuleLoad
  | ModuleUnload => Some HandleModuleUnload
  | ModuleAPI => Some HandleModuleAPI
  | _ => None
  end.

(** The actions that [ProcessSingleRequest] dispatches by action. *)

Definition CentrallyDispatched (a : RouteAction) : bool :=
  match a with
  | Ping | Connections | RocksDB | Startup | Integrity | SelfCheck | Flush | MetricsHistory | Cache | DebugCounters
  | Etc | AnalyticsClick => true
  | _ => false
  end.

(** ** By the text of the path *)

Definition VectorSearchAlias (N : bytes) : bool :=
  starts_with #"/collections/" N && lacks #"/documents" N && ends_with #"/search" N.

Definition account_tests (M N : bytes) : list (bool * Handler) :=
  let on := is_method M in
  [(equals #"/users" N && on GET, HandleListUsers);
   (equals #"/users" N && on POST, HandleCreateUser);
   (starts_with #"/users/" N && on GET, HandleGetUser);
   (starts_with #"/users/" N && on DELETE, HandleDeleteUser);
   (starts_with #"/users/" N && on PUT, HandleUpdateUser);
   (equals #"/keys" N && on GET, HandleListKeys);
   (equals #"/keys" N && on POST, HandleCreateKey);
   (starts_with #"/keys/" N && on GET, HandleGetKey);
   (starts_with #"/keys/" N && on DELETE, HandleDeleteKey);
   (starts_with #"/keys/" N && on PUT, HandleUpdateKey);
   (equals #"/presets" N && on GET, HandleListPresets);
   (starts_with #"/presets/" N && (on POST || on PUT), HandleCreateOrUpdatePreset);
   (starts_with #"/presets/" N && on GET, HandleGetPreset);
   (starts_with #"/presets/" N && on DELETE, HandleDeletePreset)].

Definition collection_first (M P N : bytes) : list (bool * Handler) :=
  let on := is_method M in
  [(starts_with #"/collections/" P && mentions #"/synonyms" P && mentions #"/synonyms/" P &&
     (on POST || on PUT), HandleCreateOrUpdateSynonym);
   (starts_with #"/collections/" P && mentions #"/synonyms" P && lacks #"/synonyms/" P && on GET, HandleListSynonyms);
   (starts_with #"/collections/" P && mentions #"/synonyms/" P && on GET, HandleGetSynonym);
   (starts_with #"/collections/" P && mentions #"/synonyms/" P && on DELETE, HandleDeleteSynonym);
   (starts_with #"/collections/" P && mentions #"/stopwords" P && lacks #"/stopwords/" P &&
     on GET, HandleListStopwords);
   (starts_with #"/collections/" P && mentions #"/stopwords" P && lacks #"/stopwords/" P &&
     on POST, HandleCreateStopword);
   (starts_with #"/collections/" P && mentions #"/stopwords/" P && on DELETE, HandleDeleteStopword);
   (starts_with #"/collections/" P && mentions #"/documents/search" P && (on GET || on POST), HandleSearch);
   (equals #"/sql" P && (on GET || on POST), HandleSearch);
   (starts_with #"/collections/" P && mentions #"/search" N && lacks #"/documents" N && lacks #"/synonyms" N &&
     lacks #"/stopwords" N && (on GET || on POST), HandleSearch);
   (starts_with #"/collections/" P && mentions #"/documents/facet_counts" P &&
     (on GET || on POST), HandleFacetCounts);
   (starts_with #"/collections/" P && mentions #"/documents/maybe" P && (on GET || on POST), HandleMaybe);
   (starts_with #"/collections/" P && mentions #"/documents/" P && mentions #"/context" P &&
     on GET, HandleGetDocumentContext);
   (starts_with #"/collections/" P && mentions #"/documents/export" P && (on GET || on POST), HandleExportDocuments);
   (on POST && starts_with #"/collections/" P && mentions #"/documents" P &&
     mentions #"/documents/import" P, HandleBulkImportDocuments);
   (on POST && starts_with #"/collections/" P && mentions #"/documents" P, HandleAddDocument)].

Definition fixed_paths (M P : bytes) : list (bool * Handler) :=
  let on := is_method M in
  [((equals #"/status" P || equals #"/query" P) && on GET, HandleStatus);
   (equals #"/search-config" P && on GET, HandleSearchConfig);
   (equals #"/config-files" P && on GET, HandleConfigFiles);
   (equals #"/synonyms" P && on GET, HandleListAllSynonyms);
   (equals #"/synonym_sets" P && on GET, HandleListAllSynonyms);
   ((equals #"/synonyms/global" P || equals #"/synonym_sets/global" P) && on GET, HandleListGlobalSynonyms);
   ((starts_with #"/synonyms/global/" P || starts_with #"/synonym_sets/global/" P) &&
     (on POST || on PUT), HandleCreateOrUpdateGlobalSynonym);
   ((starts_with #"/synonyms/global/" P || starts_with #"/synonym_sets/global/" P) && on GET, HandleGetGlobalSynonym);
   ((starts_with #"/synonyms/global/" P || starts_with #"/synonym_sets/global/" P) &&
     on DELETE, HandleDeleteGlobalSynonym);
   (equals #"/stopwords" P && on GET, HandleListAllStopwords);
   (equals #"/stopword_sets" P && on GET, HandleListAllStopwords);
   ((equals #"/stopwords/global" P || equals #"/stopword_sets/global" P) && on GET, HandleListGlobalStopwords);
   ((equals #"/stopwords/global" P || equals #"/stopword_sets/global" P) && on POST, HandleCreateGlobalStopword);
   ((starts_with #"/stopwords/global/" P || starts_with #"/stopword_sets/global/" P) &&
     on DELETE, HandleDeleteGlobalStopword);
   (equals #"/links" P && on GET, HandleLinksList);
   (equals #"/links/ping" P && on GET, HandleLinksPing);
   (equals #"/links/connect" P && on POST, HandleLinksConnect);
   (equals #"/links/disconnect" P && on POST, HandleLinksDisconnect);
   (equals #"/collections/distributed" P && on GET, HandleListCollectionsDistributed);
   (equals #"/collections" P && on GET, HandleListCollections);
   (equals #"/collections" P && on POST, HandleCreateCollection);
   (equals #"/admin/storage_status" P && on GET, HandleStorageStatus);
   (equals #"/_diagnostics/storage" P && on GET, HandleStorageDiagnostics);
   (equals #"/_admin/storage/durability-barrier" P && on POST, HandleDurabilityBarrier)].

Definition collection_second (M P N : bytes) : list (bool * Handler) :=
  let on := is_method M in
  [(starts_with #"/collections/" P && (mentions #"/vector_search" P || VectorSearchAlias N) &&
     (on GET || on POST), HandleVectorSearch);
   (starts_with #"/collections/" P && (13 <? size N) && ends_with #"/lang" N && on GET, HandleGetCollectionLanguage);
   (starts_with #"/collections/" P && lacks #"/search" N && lacks #"/documents" P && lacks #"/synonyms" P &&
     lacks #"/stopwords" P && lacks #"/overrides" P && lacks #"/curations" P && lacks #"/curation_sets" P &&
     lacks #"/aliases" P && on GET, HandleGetCollection);
   (starts_with #"/collections/" P && lacks #"/documents" P && lacks #"/synonyms" P && lacks #"/stopwords" P &&
     lacks #"/overrides" P && lacks #"/curations" P && lacks #"/curation_sets" P && lacks #"/aliases" P &&
     on DELETE, HandleDeleteCollection);
   (starts_with #"/collections/" P && mentions #"/update" P && on POST, HandleUpdateCollection);
   (starts_with #"/collections/" P && mentions #"/documents" P && lacks #"/documents/" P && lacks #"/search" P &&
     lacks #"/facet_counts" P && lacks #"/export" P && lacks #"/import" P && on GET, HandleListDocuments);
   (starts_with #"/collections/" P && mentions #"/documents/" P && lacks #"/search" P &&
     lacks #"/facet_counts" P && lacks #"/export" P && lacks #"/maybe" P && on GET, HandleGetDocument);
   (starts_with #"/collections/" P && mentions #"/documents/" P && lacks #"/search" P &&
     lacks #"/facet_counts" P && lacks #"/export" P && lacks #"/maybe" P && on PUT, HandleUpdateDocument);
   (starts_with #"/collections/" P && mentions #"/documents/" P && lacks #"/search" P &&
     lacks #"/facet_counts" P && lacks #"/export" P && lacks #"/maybe" P && on DELETE, HandleDeleteDocument);
   (starts_with #"/collections/" P && mentions #"/documents" P && lacks #"/documents/" P &&
     on DELETE, HandleDeleteDocumentsByFilter)].

Definition overrides_modules (M P N : bytes) : list (bool * Handler) :=
  let on := is_method M in
  [(equals #"/multi_search" P && (on GET || on POST), HandleMultiSearch);
   (equals #"/search" P && (on GET || on POST), HandleGlobalSearch);
   (starts_with #"/collections/" P && mentions #"/overrides" P && lacks #"/overrides/" P &&
     on GET, HandleListOverrides);
   (starts_with #"/collections/" P && (mentions #"/curations" P || mentions #"/curation_sets" P) &&
     lacks #"/curations/" P && lacks #"/curation_sets/" P && on GET, HandleListOverrides);
   (starts_with #"/collections/" P && mentions #"/overrides/" P && (on POST || on PUT), HandleCreateOrUpdateOverride);
   (starts_with #"/collections/" P && (mentions #"/curations/" P || mentions #"/curation_sets/" P) &&
     (on POST || on PUT), HandleCreateOrUpdateOverride);
   (starts_with #"/collections/" P && mentions #"/overrides/" P && on GET, HandleGetOverride);
   (starts_with #"/collections/" P && (mentions #"/curations/" P || mentions #"/curation_sets/" P) &&
     on GET, HandleGetOverride);
   (starts_with #"/collections/" P && mentions #"/overrides/" P && on DELETE, HandleDeleteOverride);
   (starts_with #"/collections/" P && (mentions #"/curations/" P || mentions #"/curation_sets/" P) &&
     on DELETE, HandleDeleteOverride);
   (starts_with #"/collections/" P && ends_with #"/aliases" N && on GET, HandleListAliases);
   (equals #"/aliases" P && on GET, HandleListAliases);
   (equals #"/modules" P && on GET, HandleListModules);
   (starts_with #"/modules/" P && ends_with #"/syntax" N && on GET, HandleModuleSyntax);
   (starts_with #"/modules/" P, HandleModuleAPI);
   (starts_with #"/aliases/" P && (on POST || on PUT), HandleCreateOrUpdateAlias);
   (starts_with #"/aliases/" P && on GET, HandleGetAlias);
   (starts_with #"/aliases/" P && on DELETE, HandleDeleteAlias)].

Definition service_paths (M P : bytes) : list (bool * Handler) :=
  let on := is_method M in
  [(equals #"/health" P && on GET, HandleHealth);
   (equals #"/ready" P && on GET, HandleReady);
   ((equals #"/metrics" P || equals #"/metrics.json" P) && on GET, HandleMetrics);
   (equals #"/stats" P && on GET, HandleStats);
   (equals #"/doctotal" P && on GET, HandleDocTotal);
   (equals #"/update-counters" P && (on GET || on POST), HandleUpdateCounters);
   (equals #"/repair" P && (on GET || on POST), HandleRepair);
   (equals #"/admin/storage_status" P && on GET, HandleStorageStatus);
   (equals #"/" P && on GET, HandleStatus)].

(** The second chain of tests. *)

Definition path_tests (M P N : bytes) : list (bool * Handler) :=
  collection_first M P N ++ fixed_paths M P ++ collection_second M P N ++ overrides_modules M P N ++ service_paths M P.

Fixpoint first_handler (l : list (bool * Handler)) : option Handler :=
  match l with
  | [] => None
  | (b, h) :: r => if b then Some h else first_handler r
  end.

(** The handlers that are called, in order; the response is that of the last one,
    or the one for a route that was not found. *)

Definition called_handlers (M P : bytes) : list Handler :=
  let a := ResolveHttpRoute P M in
  let N := NormalizeRequestPath P in
  if bool_decide (a = NotFound) then []
  else if CentrallyDispatched a then option_list (DispatchResolvedRoute a)
  else option_list (first_handler (account_tests M N)) ++ option_list (first_handler (path_tests M P N)).

End HttpDispatch.
