(* ===== verification/HttpDispatchProps.v ===== *)
(** * Dispatch of requests: properties

    The two ways of choosing a handler compared. Paths are lists of segments, and
    the tests of the dispatcher are evaluated on segments, so that the names of
    collections and documents can be variables. *)

From S2P Require Import Prelude CText SearchCache ApiKeys HttpRoutes HttpMessage HttpGate HttpDispatch.

Module HttpDispatchProps.
Import HttpRoutes HttpGate HttpDispatch.

(** ** Paths as lists of segments *)

Definition join_path (segs : list bytes) : bytes := mjoin ((fun s => slash :: s) <$> segs).

Definition no_slash (s : bytes) : Prop := Forall (fun c => is_byte slash c = false) s.

Definition plain (s : bytes) : Prop := s <> [] /\ no_slash s /\ Forall (fun c => is_byte "?"%char c = false) s.

(** A text of the dispatcher, cut at its slashes; the last piece need not be a whole
    segment. *)

Fixpoint cut (current t : bytes) : list bytes :=
  match t with
  | [] => [current]
  | c :: r => if is_byte slash c then current :: cut [] r else cut (current ++ [c]) r
  end.

Definition pieces (t : bytes) : list bytes := tail (cut [] t).

Fixpoint match_here (ws segs : list bytes) : bool :=
  match ws, segs with
  | [], _ => true
  | _ :: _, [] => false
  | w :: ws', s :: r =>
      match ws' with
      | [] => starts_with w s
      | _ => bool_decide (s = w) && match_here ws' r
      end
  end.

Fixpoint match_somewhere (ws segs : list bytes) : bool :=
  match segs with
  | [] => false
  | _ :: r => match_here ws segs || match_somewhere ws r
  end.

Lemma join_path_cons s r : join_path (s :: r) = slash :: s ++ join_path r.
Proof. done. Qed.

Lemma starts_with_cons p s c d : starts_with (c :: p) (d :: s) = bool_decide (d = c) && starts_with p s.
Proof.
  unfold starts_with. cbn [length take]. destruct (bool_decide_reflect (take (length p) s = p)) as [->|H]; cbn.
  - destruct (bool_decide_reflect (d = c)) as [->|Hd]; [by rewrite bool_decide_eq_true_2|].
    rewrite bool_decide_eq_false_2; [done|]. by intros [= ->].
  - rewrite andb_false_r, bool_decide_eq_false_2; [done|]. by intros [= _ ?].
Qed.

Lemma not_slash c : is_byte slash c = false -> c <> slash.
Proof. unfold is_byte. by rewrite bool_decide_eq_false. Qed.

Lemma starts_with_short p : starts_with p [] = bool_decide (p = []).
Proof. unfold starts_with. rewrite take_nil. apply bool_decide_ext. by split. Qed.

(** [x] is empty or begins with a slash. *)

Definition at_slash (x : bytes) : Prop := x = [] \/ exists r, x = slash :: r.

Lemma at_slash_join segs : at_slash (join_path segs).
Proof. destruct segs; [by left|]. right. by eexists. Qed.

Lemma starts_with_segment w s x : no_slash w -> no_slash s -> at_slash x -> starts_with w (s ++ x) = starts_with w s.
Proof.
  intros Hw. revert s. induction Hw as [|c w Hc Hw IH]; intros s Hs Hx; [done|]. destruct s as [|d s].
  - cbn [app]. rewrite starts_with_short, bool_decide_eq_false_2 by done. destruct Hx as [->|[r ->]]; [done|].
    rewrite starts_with_cons. rewrite bool_decide_eq_false_2; [done|]. apply not_slash in Hc. congruence.
  - apply Forall_cons in Hs as [Hd Hs]. cbn [app]. rewrite !starts_with_cons. by rewrite IH.
Qed.

Lemma starts_with_whole w s x y :
  no_slash w -> no_slash s -> at_slash x -> starts_with (w ++ slash :: y) (s ++ x) = bool_decide (s = w) && starts_with (slash :: y) x.
Proof.
  intros Hw. revert s. induction Hw as [|c w Hc Hw IH]; intros s Hs Hx.
  - destruct s as [|d s]; [done|]. apply Forall_cons in Hs as [Hd _]. cbn [app]. rewrite starts_with_cons.
    rewrite (bool_decide_eq_false_2 (d = slash)); [done|]. by apply not_slash in Hd.
  - destruct s as [|d s].
    + cbn [app]. destruct Hx as [->|[r ->]]; [by rewrite starts_with_short|]. rewrite starts_with_cons.
      rewrite (bool_decide_eq_false_2 (slash = c)); [done|]. apply not_slash in Hc. congruence.
    + apply Forall_cons in Hs as [Hd Hs]. cbn [app]. rewrite starts_with_cons, IH by done. rewrite andb_assoc. f_equal.
      destruct (bool_decide_reflect (d = c)) as [->|Hn]; cbn [andb].
      * apply bool_decide_ext. split; [by intros ->|by intros [= ->]].
      * rewrite bool_decide_eq_false_2; [done|]. by intros [= -> _].
Qed.

Lemma starts_with_join ws segs :
  Forall no_slash ws -> Forall no_slash segs -> ws <> [] -> starts_with (join_path ws) (join_path segs) = match_here ws segs.
Proof.
  intros Hws. revert segs. induction Hws as [|w ws Hw Hws IH]; intros segs Hs Hne; [done|].
  rewrite join_path_cons. destruct segs as [|s r]; [by rewrite starts_with_short|]. apply Forall_cons in Hs as [Hs Hr].
  rewrite join_path_cons, starts_with_cons, bool_decide_eq_true_2 by done. cbn [andb match_here].
  destruct ws as [|w2 ws]; [cbn; rewrite app_nil_r; apply starts_with_segment; [done|done|apply at_slash_join]|].
  rewrite join_path_cons, starts_with_whole by (done || apply at_slash_join). by rewrite <- join_path_cons, IH.
Qed.

Lemma mentions_cons t c s : mentions t (c :: s) = starts_with t (c :: s) || mentions t s.
Proof.
  unfold mentions. cbn [find_sub]. destruct (starts_with t (c :: s)); [by rewrite bool_decide_eq_true_2|]. cbn [orb].
  apply bool_decide_ext. by rewrite fmap_is_Some.
Qed.

Lemma mentions_skip t s x : no_slash s -> mentions (slash :: t) (s ++ x) = mentions (slash :: t) x.
Proof.
  induction 1 as [|c s Hc Hs IH]; [done|]. cbn [app]. rewrite mentions_cons, starts_with_cons.
  rewrite (bool_decide_eq_false_2 (c = slash)); [done|]. by apply not_slash in Hc.
Qed.

Lemma mentions_join w ws segs :
  Forall no_slash (w :: ws) -> Forall no_slash segs -> mentions (join_path (w :: ws)) (join_path segs) = match_somewhere (w :: ws) segs.
Proof.
  intros Hw Hs. induction Hs as [|s r Hs Hr IH]; [done|]. change (match_somewhere (w :: ws) (s :: r)) with
    (match_here (w :: ws) (s :: r) || match_somewhere (w :: ws) r).
  rewrite <- IH, <- starts_with_join by (done || by constructor). rewrite (join_path_cons s r), mentions_cons.
  f_equal. rewrite (join_path_cons w ws). by apply mentions_skip.
Qed.

(** ** Normal forms *)

Lemma cut_app cur s x : no_slash s -> cut cur (s ++ x) = cut (cur ++ s) x.
Proof.
  intros H. revert cur. induction H as [|c s Hc Hs IH]; intros cur; [by rewrite app_nil_r|].
  cbn [app cut]. rewrite Hc, IH, <- app_assoc. done.
Qed.

Lemma cut_join cur segs : Forall no_slash segs -> cut cur (join_path segs) = cur :: segs.
Proof.
  intros H. revert cur. induction H as [|s r Hs Hr IH]; intros cur; [done|]. rewrite join_path_cons. cbn [cut].
  change (is_byte slash slash) with true. cbn iota. rewrite cut_app, IH by done. done.
Qed.

Lemma pieces_join segs : Forall no_slash segs -> pieces (join_path segs) = segs.
Proof. intros H. unfold pieces. by rewrite cut_join. Qed.

Lemma split_segments_skip cur s x : no_slash s -> split_segments cur (s ++ x) = split_segments (cur ++ s) x.
Proof.
  intros H. revert cur. induction H as [|c s Hc Hs IH]; intros cur; [by rewrite app_nil_r|].
  cbn [app split_segments]. rewrite Hc, IH, <- app_assoc. done.
Qed.

Lemma split_join_loop cur segs :
  cur <> [] -> Forall plain segs -> split_segments cur (join_path segs) = cur :: segs.
Proof.
  intros Hc H. revert cur Hc. induction H as [|s r (Hn & Hs & _) Hr IH]; intros cur Hc;
    [by cbn; rewrite bool_decide_eq_false_2|].
  rewrite join_path_cons. cbn [split_segments]. change (is_byte slash slash) with true. cbn iota.
  rewrite bool_decide_eq_false_2 by done. by rewrite split_segments_skip, IH.
Qed.

Lemma SplitRouteSegments_join segs : Forall plain segs -> SplitRouteSegments (join_path segs) = segs.
Proof.
  intros H. unfold SplitRouteSegments. destruct H as [|s r (Hn & Hs & _) Hr]; [done|].
  rewrite join_path_cons. cbn [split_segments]. change (is_byte slash slash) with true. cbn iota.
  rewrite bool_decide_eq_true_2 by done. rewrite split_segments_skip by done. by apply split_join_loop.
Qed.

Lemma plain_no_slash segs : Forall plain segs -> Forall no_slash segs.
Proof. intros H. eapply Forall_impl; [exact H|]. by intros s (_ & ? & _). Qed.

Lemma cut_query_join segs : Forall plain segs -> cut_query (join_path segs) = join_path segs.
Proof.
  intros H. unfold cut_query. assert (find_char (is_byte "?"%char) (join_path segs) = None) as ->; [|done].
  apply find_char_None. induction H as [|s r (_ & _ & Hs) Hr IH]; [constructor|]. rewrite join_path_cons.
  constructor; [done|]. by apply Forall_app.
Qed.

Lemma last_join segs : Forall plain segs -> last (join_path segs) <> Some slash.
Proof.
  induction 1 as [|s r (Hn & Hs & _) Hr IH]; [done|]. rewrite join_path_cons. destruct r as [|s2 r].
  - cbn. rewrite app_nil_r. intros E. assert (last s = Some slash) as E' by (destruct s; [done|exact E]).
    unfold no_slash in Hs. rewrite Forall_forall in Hs. by apply last_Some_elem_of, Hs in E'.
  - change (slash :: s ++ join_path (s2 :: r)) with ((slash :: s) ++ join_path (s2 :: r)).
    rewrite last_app. destruct (last (join_path (s2 :: r))) eqn:E; [done|]. apply last_None in E. done.
Qed.

Lemma normal_join segs : Forall plain segs -> drop_last_slash (cut_query (join_path segs)) = join_path segs.
Proof.
  intros H. rewrite cut_query_join by done. unfold drop_last_slash.
  rewrite (bool_decide_eq_false_2 (last _ = Some slash)) by (by apply last_join). by rewrite andb_false_r.
Qed.

(** ** Names that are no word of a route *)

Definition reserved : list bytes :=
  [ #"distributed"; #"lang"; #"update"; #"documents"; #"search"; #"import"; #"facet_counts"; #"export"; #"maybe";
    #"_update_by_query"; #"_delete_by_query"; #"context"; #"synonyms"; #"synonym_sets"; #"stopwords"; #"stopword_sets";
    #"overrides"; #"curations"; #"curation_sets"; #"aliases"; #"vector_search"; #"syntax"].

Definition free (s : bytes) : Prop := plain s /\ forallb (fun w => negb (starts_with w s)) reserved = true.

Lemma free_not w s : free s -> w ∈ reserved -> starts_with w s = false /\ s <> w.
Proof.
  intros [_ H] Hw. rewrite forallb_forall in H. apply list_elem_of_In in Hw. specialize (H w Hw).
  apply negb_true_iff in H. split; [done|]. intros ->. unfold starts_with in H.
  by rewrite firstn_all, bool_decide_eq_true_2 in H.
Qed.

(** Two segments that no test tells apart. *)

Definition alike (s s' : bytes) : Prop := plain s /\ plain s' /\ (s = s' \/ (free s /\ free s')).

Lemma alike_free s s' : free s -> free s' -> alike s s'.
Proof. intros H H'. split; [apply H|]. split; [apply H'|]. by right. Qed.

Lemma alike_starts w s s' : alike s s' -> w ∈ reserved \/ w = [] -> starts_with w s = starts_with w s'.
Proof.
  intros (_ & _ & [->|[H H']]) Hw; [done|]. destruct Hw as [Hw| ->]; [|done].
  by rewrite (proj1 (free_not w s H Hw)), (proj1 (free_not w s' H' Hw)).
Qed.

Lemma alike_is w s s' : alike s s' -> w ∈ reserved -> (s = w <-> s' = w).
Proof.
  intros (_ & _ & [->|[H H']]) Hw; [done|]. pose proof (proj2 (free_not w s H Hw)). pose proof (proj2 (free_not w s' H' Hw)). by split.
Qed.

(** Pieces of a text: words, the last one possibly empty. *)

Fixpoint known (ws : list bytes) : bool :=
  match ws with
  | [] => true
  | [w] => bool_decide (w ∈ reserved) || bool_decide (w = [])
  | w :: r => bool_decide (w ∈ reserved) && known r
  end.

Lemma match_here_alike ws segs segs' : known ws = true -> Forall2 alike segs segs' -> match_here ws segs = match_here ws segs'.
Proof.
  revert segs segs'. induction ws as [|w ws IH]; intros segs segs' Hk H; [by destruct H|]. destruct H as [|s s' r r' Hs Hr]; [done|].
  cbn [match_here]. destruct ws as [|w2 ws].
  - apply alike_starts; [done|]. cbn in Hk. apply orb_true_iff in Hk as [Hk|Hk]; apply bool_decide_eq_true in Hk; auto.
  - cbn [known] in Hk. apply andb_true_iff in Hk as [Hw%bool_decide_eq_true Hk]. rewrite (IH r r') by done.
    f_equal. apply bool_decide_ext. by apply alike_is.
Qed.

Lemma match_somewhere_alike ws segs segs' :
  known ws = true -> Forall2 alike segs segs' -> match_somewhere ws segs = match_somewhere ws segs'.
Proof.
  intros Hk. induction 1 as [|s s' r r' Hs Hr IH]; [done|]. cbn [match_somewhere]. rewrite IH. f_equal.
  apply match_here_alike; [done|]. by constructor.
Qed.

(** ** Paths below a collection *)

Definition base : bytes := #"collections".

Definition path_of (c : bytes) (rest : list bytes) : bytes := join_path (base :: c :: rest).

(** A text that begins with a slash is the join of its pieces. *)

Definition well_cut (t : bytes) : bool := bool_decide (t = join_path (pieces t)) && forallb (fun w => forallb (fun c => negb (is_byte slash c)) w) (pieces t).

Lemma well_cut_spec t : well_cut t = true -> t = join_path (pieces t) /\ Forall no_slash (pieces t).
Proof.
  unfold well_cut. intros [H1%bool_decide_eq_true H2]%andb_true_iff. split; [done|].
  rewrite forallb_forall in H2. apply Forall_forall. intros w Hw. apply list_elem_of_In, H2 in Hw.
  rewrite forallb_forall in Hw. apply Forall_forall. intros c Hc. apply list_elem_of_In, Hw in Hc. by apply negb_true_iff.
Qed.

Section Paths.
Context (c : bytes) (rest : list bytes).
Hypothesis Hc : free c.
Hypothesis Hr : Forall plain rest.

Lemma path_plain : Forall plain (base :: c :: rest).
Proof.
  constructor; [|constructor; [apply Hc|done]]. split; [done|]. split; by repeat constructor.
Qed.

Lemma path_normal : NormalizeRequestPath (path_of c rest) = path_of c rest.
Proof. apply normal_join, path_plain. Qed.

Lemma path_segments : SplitRouteSegments (path_of c rest) = base :: c :: rest.
Proof. apply SplitRouteSegments_join, path_plain. Qed.

(** The path is no text whose first piece is another word, or which has one piece, or
    whose second piece is a reserved word. *)

Definition elsewhere (t : bytes) : bool :=
  match pieces t with
  | w :: w2 :: _ => negb (bool_decide (w = base)) || bool_decide (w2 ∈ reserved)
  | _ => true
  end.

Lemma path_not t : elsewhere t = true -> path_of c rest <> t.
Proof.
  intros He <-. unfold elsewhere, path_of in He. rewrite pieces_join in He by apply plain_no_slash, path_plain.
  rewrite bool_decide_eq_true_2 in He by done. cbn [negb orb] in He. apply bool_decide_eq_true in He.
  by apply (free_not c c Hc) in He as [_ ?].
Qed.

Lemma path_equals t : elsewhere t = true -> equals t (path_of c rest) = false.
Proof. intros H. apply bool_decide_eq_false_2. by apply path_not. Qed.

(** No text whose first piece is not a prefix of [collections] begins the path. *)

Definition other_start (t : bytes) : bool :=
  well_cut t && match pieces t with w :: _ => negb (starts_with w base) | [] => false end.

Lemma path_starts t : other_start t = true -> starts_with t (path_of c rest) = false.
Proof.
  unfold other_start. intros [[E Hp]%well_cut_spec H]%andb_true_iff. destruct (pieces t) as [|w ws]; [done|].
  unfold path_of. rewrite E, starts_with_join by (done || apply plain_no_slash, path_plain).
  apply negb_true_iff in H. cbn [match_here]. destruct ws; [done|]. rewrite bool_decide_eq_false_2; [done|].
  intros <-. unfold starts_with in H. by rewrite firstn_all, bool_decide_eq_true_2 in H.
Qed.

Lemma path_collections : starts_with #"/collections/" (path_of c rest) = true.
Proof.
  change #"/collections/" with (join_path [base; []]). unfold path_of. rewrite starts_with_join; [done| |apply plain_no_slash, path_plain|done].
  by repeat constructor.
Qed.

Lemma path_mentions t :
  well_cut t = true -> pieces t <> [] -> mentions t (path_of c rest) = match_somewhere (pieces t) (base :: c :: rest).
Proof.
  intros [E Hp]%well_cut_spec Hne. rewrite E at 1. destruct (pieces t) as [|w ws]; [done|].
  apply mentions_join; [done|apply plain_no_slash, path_plain].
Qed.

Lemma path_size : (13 <? size (path_of c rest)) = true.
Proof.
  apply Z.ltb_lt. unfold path_of, size. rewrite !join_path_cons. cbn [length app]. rewrite !length_app. cbn [length]. rewrite length_app.
  destruct Hc as [(Hn & _) _]. destruct c; [done|]. cbn [length]. change (length base) with 11%nat. lia.
Qed.

(** ** Resolution *)

Lemma path_PrefixRoute M t ms : other_start t = true -> PrefixRoute (path_of c rest) M t ms = false.
Proof. intros H. unfold PrefixRoute. by rewrite path_starts. Qed.

Lemma path_SingleChildRoute M t ms : other_start t = true -> SingleChildRoute (path_of c rest) M t ms = false.
Proof. intros H. unfold SingleChildRoute. by rewrite path_PrefixRoute. Qed.

Lemma path_exact M : ResolveExactRoute (path_of c rest) M = NotFound.
Proof.
  unfold ResolveExactRoute.
  assert (forallb (fun d => forallb (fun p => negb (is_exact p) || elsewhere p) (Paths d)) GetHttpRouteDescriptions = true) as H
    by (vm_compute; reflexivity).
  rewrite forallb_forall in H. revert H. generalize NotFound as acc. generalize GetHttpRouteDescriptions as l.
  induction l as [|d l IH]; intros acc H; [done|]. cbn [foldl]. unfold exact_step at 2.
  assert (existsb (fun p => is_exact p && bool_decide (p = path_of c rest)) (Paths d) = false) as ->.
  { apply not_true_iff_false. rewrite existsb_exists. intros (p & Hp & [Hx Heq%bool_decide_eq_true]%andb_true_iff).
    specialize (H d (or_introl eq_refl)). rewrite forallb_forall in H. specialize (H p Hp). rewrite Hx in H. cbn in H.
    by apply (path_not p H). }
  apply IH. intros d' Hd. apply H. by right.
Qed.

Definition path_info : CollectionRouteInfo := mkInfo (base :: c :: rest) true.

Lemma path_resolve M : ResolveHttpRoute (path_of c rest) M = first_route (collection_tests path_info M) NotFound.
Proof.
  unfold ResolveHttpRoute. assert (NormalizeRoutePath (path_of c rest) = path_of c rest) as -> by apply path_normal.
  rewrite path_exact. cbn [negb bool_decide]. rewrite bool_decide_eq_true_2 by done. cbn [negb].
  rewrite !path_SingleChildRoute, path_PrefixRoute by (vm_compute; reflexivity).
  unfold global_tests, entity_tests. rewrite !path_SingleChildRoute, !path_PrefixRoute by (vm_compute; reflexivity).
  cbn [app first_route andb]. unfold BuildCollectionRouteInfo. rewrite path_collections, path_segments. cbn [negb].
  change (mkInfo (base :: c :: rest) _) with path_info.
  generalize (collection_tests path_info M). intros l. induction l as [|[b a] l IH]; [done|]. cbn. by destruct b.
Qed.

End Paths.

Lemma ends_with_spec t s : ends_with t s = true <-> exists a, s = a ++ t.
Proof.
  unfold ends_with. rewrite andb_true_iff, Nat.leb_le, bool_decide_eq_true. split.
  - intros [Hl E]. exists (take (length s - length t) s).
    transitivity (take (length s - length t) s ++ drop (length s - length t) s); [by rewrite take_drop|by rewrite E].
  - intros [a ->]. rewrite length_app. split; [lia|]. replace (length a + length t - length t)%nat with (length a) by lia.
    apply drop_app_length.
Qed.

Lemma last_piece a b w l : no_slash w -> no_slash l -> a ++ slash :: w = b ++ slash :: l -> w = l.
Proof.
  intros Hw Hl E. apply (f_equal (fun x => (span (fun c => negb (is_byte slash c)) (reverse x)).1)) in E.
  rewrite !reverse_app, !reverse_cons, <- !app_assoc in E. cbn [app] in E.
  rewrite !span_split in E; cbn [fst] in E; [by apply (inj reverse) in E| | | |].
  1, 3: apply Forall_reverse; eapply Forall_impl; [eassumption|]; by intros c ->.
  1, 2: by intros c r [= <- _].
Qed.

Lemma ends_with_join w segs :
  no_slash w -> Forall no_slash segs -> segs <> [] -> ends_with (slash :: w) (join_path segs) = bool_decide (last segs = Some w).
Proof.
  intros Hw Hs Hne. destruct (exists_last Hne) as (init & l & ->). apply Forall_app in Hs as [_ [Hl _]%Forall_cons].
  rewrite last_snoc. assert (join_path (init ++ [l]) = join_path init ++ slash :: l) as ->.
  { unfold join_path. rewrite fmap_app, join_app. cbn. by rewrite app_nil_r. }
  destruct (bool_decide_reflect (Some l = Some w)) as [[= <-]|Hd].
  - apply ends_with_spec. by eexists.
  - apply not_true_iff_false. intros [a E]%ends_with_spec. apply Hd. f_equal. by eapply last_piece.
Qed.

Lemma last_alike w segs segs' :
  w ∈ reserved -> Forall2 alike segs segs' -> bool_decide (last segs = Some w) = bool_decide (last segs' = Some w).
Proof.
  intros Hw. induction 1 as [|s s' r r' Hs Hr IH]; [done|]. destruct Hr as [|x x' r r' Hx Hr].
  - apply bool_decide_ext. cbn. pose proof (alike_is w s s' Hs Hw) as [H1 H2].
    split; intros [= E]; f_equal; auto.
  - exact IH.
Qed.

Lemma alike_plain segs segs' : Forall2 alike segs segs' -> Forall plain segs /\ Forall plain segs'.
Proof. induction 1 as [|s s' r r' (H1 & H2 & _) _ [IH1 IH2]]; split; by constructor. Qed.

(** ** Two paths that no test tells apart *)

Section Alike.
Context (c c' : bytes) (rest rest' : list bytes).
Hypothesis Hc : free c.
Hypothesis Hc' : free c'.
Hypothesis Hrest : Forall2 alike rest rest'.

Lemma rest_plain : Forall plain rest.
Proof. exact (proj1 (alike_plain _ _ Hrest)). Qed.

Lemma rest_plain' : Forall plain rest'.
Proof. exact (proj2 (alike_plain _ _ Hrest)). Qed.

Lemma base_alike : alike base base.
Proof. assert (plain base) by (split; [done|]; split; by repeat constructor). split_and!; [done|done|by left]. Qed.

Lemma segments_alike : Forall2 alike (base :: c :: rest) (base :: c' :: rest').
Proof. constructor; [apply base_alike|]. constructor; [by apply alike_free|done]. Qed.

Lemma mentions_alike t :
  well_cut t && known (pieces t) && negb (bool_decide (pieces t = [])) = true ->
  mentions t (path_of c rest) = mentions t (path_of c' rest').
Proof.
  intros [[H1 H2]%andb_true_iff H3%negb_true_iff%bool_decide_eq_false]%andb_true_iff.
  rewrite !path_mentions by (done || apply rest_plain || apply rest_plain').
  apply match_somewhere_alike; [done|apply segments_alike].
Qed.

Lemma ends_with_alike w :
  bool_decide (w ∈ reserved) && forallb (fun c => negb (is_byte slash c)) w = true ->
  ends_with (slash :: w) (path_of c rest) = ends_with (slash :: w) (path_of c' rest').
Proof.
  intros [Hw%bool_decide_eq_true Hn]%andb_true_iff. assert (no_slash w).
  { rewrite forallb_forall in Hn. apply Forall_forall. intros x Hx. apply list_elem_of_In, Hn in Hx. by apply negb_true_iff. }
  unfold path_of. rewrite !ends_with_join; [by apply last_alike, segments_alike|done| |done|done| |done];
    apply plain_no_slash, path_plain; (done || apply rest_plain || apply rest_plain').
Qed.

Lemma SegmentEquals_alike n w :
  w ∈ reserved -> SegmentEquals (path_info c rest) n w = SegmentEquals (path_info c' rest') n w.
Proof.
  intros Hw. unfold SegmentEquals, path_info. cbn [Segments]. apply bool_decide_ext.
  pose proof segments_alike as H. rewrite Forall2_lookup in H. specialize (H n).
  destruct H as [s s' Hs|]; [|done]. pose proof (alike_is w s s' Hs Hw) as [H1 H2]. split; intros [= E]; f_equal; auto.
Qed.

Lemma count_alike n : segment_count (path_info c rest) n = segment_count (path_info c' rest') n.
Proof. unfold segment_count, path_info. cbn [Segments length]. by rewrite (Forall2_length _ _ _ Hrest). Qed.

Lemma from_alike n : segments_from (path_info c rest) n = segments_from (path_info c' rest') n.
Proof. unfold segments_from, path_info. cbn [Segments length]. by rewrite (Forall2_length _ _ _ Hrest). Qed.

Ltac word := apply (bool_decide_unpack _); vm_compute; exact I.

Lemma root_alike w : w ∈ reserved -> root_named (path_info c rest) w = root_named (path_info c' rest') w.
Proof. intros Hw. unfold root_named. by rewrite count_alike, SegmentEquals_alike. Qed.

Lemma child_alike w : w ∈ reserved -> child_named (path_info c rest) w = child_named (path_info c' rest') w.
Proof. intros Hw. unfold child_named. by rewrite from_alike, SegmentEquals_alike. Qed.

Lemma operation_alike w : w ∈ reserved -> document_operation (path_info c rest) w = document_operation (path_info c' rest') w.
Proof.
  intros Hw. unfold document_operation, IsDocumentsChild.
  rewrite child_alike, count_alike, (SegmentEquals_alike _ w) by (done || word). done.
Qed.

Lemma tests_alike M : collection_tests (path_info c rest) M = collection_tests (path_info c' rest') M.
Proof.
  unfold collection_tests, IsReservedDocumentOperation, IsDocumentsChild, IsDocumentsRoot, IsDocumentsSearch, IsDocumentsImport,
    IsDocumentsFacetCounts, IsDocumentsExport, IsDocumentsMaybe, IsDocumentsUpdateByQuery, IsDocumentsDeleteByQuery,
    IsDocumentContext, IsSynonymsRoot, IsSynonymsChild, IsStopwordsRoot, IsStopwordsChild, IsOverridesRoot,
    IsOverridesChild, IsCurationsRoot, IsCurationsChild, IsVectorSearchAlias, IsCollectionRoot, IsCollectionLang, IsCollectionUpdate.
  rewrite !operation_alike, !root_alike, !child_alike, !count_alike, !SegmentEquals_alike by word. done.
Qed.

Lemma resolve_alike M : ResolveHttpRoute (path_of c rest) M = ResolveHttpRoute (path_of c' rest') M.
Proof. rewrite !path_resolve by (done || apply rest_plain || apply rest_plain'). by rewrite tests_alike. Qed.

Ltac computed := vm_compute; reflexivity.

Ltac side := first [exact Hc | exact Hc' | exact rest_plain | exact rest_plain' | computed].

(** Rewrites every test on the two paths to a constant or to the second path. *)

Ltac align :=
  repeat match goal with
  | |- context [mentions ?t (path_of c rest)] => rewrite (mentions_alike t) by computed
  | |- context [starts_with #"/collections/" (path_of ?x ?r)] =>
      rewrite (path_collections x r ltac:(side) ltac:(side))
  | |- context [starts_with ?t (path_of ?x ?r)] => rewrite (path_starts x r ltac:(side) ltac:(side) t ltac:(side))
  | |- context [equals ?t (path_of ?x ?r)] => rewrite (path_equals x r ltac:(side) ltac:(side) t ltac:(side))
  | |- context [13 <? size (path_of ?x ?r)] => rewrite (path_size x r ltac:(side))
  end.

Lemma account_alike M : first_handler (account_tests M (path_of c rest)) = first_handler (account_tests M (path_of c' rest')).
Proof. unfold account_tests. align. done. Qed.

Lemma first_alike M : collection_first M (path_of c rest) (path_of c rest) = collection_first M (path_of c' rest') (path_of c' rest').
Proof. unfold collection_first, lacks. align. done. Qed.

Lemma fixed_alike M : fixed_paths M (path_of c rest) = fixed_paths M (path_of c' rest').
Proof. unfold fixed_paths, lacks. align. done. Qed.

Lemma second_alike M : collection_second M (path_of c rest) (path_of c rest) = collection_second M (path_of c' rest') (path_of c' rest').
Proof.
  unfold collection_second, VectorSearchAlias, lacks. align.
  change #"/search" with (slash :: #"search"). change #"/lang" with (slash :: #"lang").
  rewrite (ends_with_alike #"search"), (ends_with_alike #"lang") by computed. done.
Qed.

Lemma modules_alike M : overrides_modules M (path_of c rest) (path_of c rest) = overrides_modules M (path_of c' rest') (path_of c' rest').
Proof.
  unfold overrides_modules, lacks. align.
  change #"/aliases" with (slash :: #"aliases"). change #"/syntax" with (slash :: #"syntax").
  rewrite (ends_with_alike #"aliases"), (ends_with_alike #"syntax") by computed. done.
Qed.

Lemma service_alike M : service_paths M (path_of c rest) = service_paths M (path_of c' rest').
Proof. unfold service_paths, lacks. align. done. Qed.

Lemma called_alike M : called_handlers M (path_of c rest) = called_handlers M (path_of c' rest').
Proof.
  unfold called_handlers. rewrite resolve_alike, !path_normal by (done || apply rest_plain || apply rest_plain').
  unfold path_tests. by rewrite account_alike, first_alike, fixed_alike, second_alike, modules_alike, service_alike.
Qed.

End Alike.

(** ** Agreement of the two dispatchers *)

Definition methods : list bytes := [GET; POST; PUT; DELETE; PATCH].

(** The routes below a collection, [id] standing for the name of a document, a
    synonym, a stopword or an override. *)

Definition routes (id : bytes) : list (list bytes) :=
  [[]; [ #"lang"]; [ #"update"]; [ #"vector_search"]; [ #"aliases"];
   [ #"documents"]; [ #"documents"; id]; [ #"documents"; id; #"context"]; [ #"documents"; #"search"];
   [ #"documents"; #"import"]; [ #"documents"; #"facet_counts"]; [ #"documents"; #"export"]; [ #"documents"; #"maybe"];
   [ #"synonyms"]; [ #"synonyms"; id]; [ #"stopwords"]; [ #"stopwords"; id];
   [ #"overrides"]; [ #"overrides"; id]; [ #"curations"]; [ #"curations"; id]; [ #"curation_sets"]; [ #"curation_sets"; id]].

Definition resolved_handler (M P : bytes) : list Handler := option_list (DispatchResolvedRoute (ResolveHttpRoute P M)).

(** A name that is free, for the evaluation. *)

Definition sample : bytes := #"x".

Lemma sample_free : free sample.
Proof. split; [|vm_compute; reflexivity]. split; [done|]. split; by repeat constructor. Qed.

Lemma word_alike w : bool_decide (w <> []) && forallb (fun c => negb (is_byte slash c) && negb (is_byte "?"%char c)) w = true -> alike w w.
Proof.
  intros [Hn%bool_decide_eq_true H]%andb_true_iff. rewrite forallb_forall in H. assert (plain w) as Hp; [|split_and!; [done|done|by left]].
  split; [done|]. split; apply Forall_forall; intros x Hx; apply list_elem_of_In, H, andb_true_iff in Hx as [H1 H2]; by apply negb_true_iff.
Qed.

Lemma routes_alike id : free id -> Forall2 (Forall2 alike) (routes id) (routes sample).
Proof.
  intros H. repeat first [apply alike_free; [exact H|exact sample_free] | apply word_alike; vm_compute; reflexivity | constructor].
Qed.

(** C22. The two dispatchers agree on the first spellings of the collection routes. For
    the routes of the list [routes] below a collection, each in its first spelling, the
    methods GET, POST, PUT, DELETE and PATCH, and names of the collection and of the
    document, synonym, stopword or override that are one path segment and do not begin
    with a word of the routes ([free]), the handler that [ProcessSingleRequest] calls is
    the one of the resolved action, and only that one. On the second spellings
    ([synonym_sets], [stopword_sets]) and the operations by query they disagree
    ([second_spellings_misdispatched]). *)
Theorem dispatch_agrees c id rest M :
  free c -> free id -> rest ∈ routes id -> M ∈ methods ->
  called_handlers M (path_of c rest) = resolved_handler M (path_of c rest).
Proof.
  intros Hc Hid Hr HM. destruct (list_elem_of_lookup_1 _ _ Hr) as [n Hn].
  destruct (Forall2_lookup_l _ _ _ _ _ (routes_alike id Hid) Hn) as (rest' & Hn' & Ha).
  unfold resolved_handler. rewrite (called_alike c sample rest rest' Hc sample_free Ha), (resolve_alike c sample rest rest' Hc sample_free Ha).
  assert (forallb (fun r => forallb (fun m => bool_decide (called_handlers m (path_of sample r) = resolved_handler m (path_of sample r))) methods)
            (routes sample) = true) as H by (vm_compute; reflexivity).
  rewrite forallb_forall in H. apply list_elem_of_lookup_2, list_elem_of_In, H in Hn'. rewrite forallb_forall in Hn'.
  apply list_elem_of_In, Hn', bool_decide_eq_true in HM. exact HM.
Qed.

Lemma dispatch_agrees_witness :
  called_handlers GET (path_of #"books" [ #"documents"; #"42"]) = resolved_handler GET (path_of #"books" [ #"documents"; #"42"]).
Proof.
  apply (dispatch_agrees #"books" #"42" [ #"documents"; #"42"] GET).
  1, 2: split; [split; [discriminate|split; repeat constructor]|vm_compute; reflexivity].
  - do 6 constructor 2. constructor 1.
  - constructor 1.
Defined.

(** A name that begins with a word of the routes changes the handler: with a key that
    may only search, a vector search in a collection named [documents] adds a
    document. *)

Lemma search_scope_adds_document :
  MapRouteToKeyAction (ResolveHttpRoute (path_of #"documents" [ #"vector_search"]) POST) = ApiKeys.SEARCH /\
  called_handlers POST (path_of #"documents" [ #"vector_search"]) = [HandleAddDocument].
Proof. vm_compute. by split. Qed.

(** The second spellings and the operations by query. *)

Definition other_routes (id : bytes) : list (bytes * list bytes * RouteAction * Handler) :=
  [(DELETE, [ #"synonym_sets"; id], DeleteSynonym, HandleDeleteCollection);
   (DELETE, [ #"stopword_sets"; id], DeleteStopword, HandleDeleteCollection);
   (GET, [ #"synonym_sets"; id], GetSynonym, HandleGetCollection);
   (POST, [ #"documents"; #"_update_by_query"], UpdateByQuery, HandleAddDocument);
   (POST, [ #"documents"; #"_delete_by_query"], DeleteByQuery, HandleAddDocument);
   (POST, [ #"search"], VectorSearch, HandleSearch)].

Lemma other_routes_alike id :
  free id -> Forall2 (fun x y => x.1.1.1 = y.1.1.1 /\ Forall2 alike x.1.1.2 y.1.1.2 /\ x.1.2 = y.1.2 /\ x.2 = y.2) (other_routes id) (other_routes sample).
Proof.
  intros H. repeat match goal with
  | |- Forall2 _ _ _ => constructor
  | |- alike _ _ => first [apply alike_free; [exact H|exact sample_free] | apply word_alike; vm_compute; reflexivity]
  | |- _ /\ _ => split
  | |- _ = _ => reflexivity
  end.
Qed.

(** Deleting a synonym set deletes the collection. The path test for the deletion
    of a collection excludes the texts [/synonyms] and [/stopwords] but not the second
    spelling of these routes: a DELETE of [/collections/c/synonym_sets/id] or
    [/collections/c/stopword_sets/id] is resolved, and authorised, as the deletion of
    one synonym or stopword, and is served by [HandleDeleteCollection]. In the same
    way updates and deletions by query are served by [HandleAddDocument], since no
    test looks for them before the one for a POST below documents, and the vector
    search alias by [HandleSearch]. *)
Theorem second_spellings_misdispatched c id x :
  free c -> free id -> x ∈ other_routes id ->
  ResolveHttpRoute (path_of c x.1.1.2) x.1.1.1 = x.1.2 /\ called_handlers x.1.1.1 (path_of c x.1.1.2) = [x.2] /\
  resolved_handler x.1.1.1 (path_of c x.1.1.2) <> [x.2].
Proof.
  intros Hc Hid Hx. destruct (list_elem_of_lookup_1 _ _ Hx) as [n Hn].
  destruct (Forall2_lookup_l _ _ _ _ _ (other_routes_alike id Hid) Hn) as (y & Hy & E1 & Ha & E2 & E3).
  unfold resolved_handler. rewrite (called_alike c sample _ _ Hc sample_free Ha), (resolve_alike c sample _ _ Hc sample_free Ha), E1, E2, E3.
  assert (forallb (fun y => bool_decide (ResolveHttpRoute (path_of sample y.1.1.2) y.1.1.1 = y.1.2) &&
            bool_decide (called_handlers y.1.1.1 (path_of sample y.1.1.2) = [y.2]) &&
            bool_decide (resolved_handler y.1.1.1 (path_of sample y.1.1.2) <> [y.2])) (other_routes sample) = true) as H
    by (vm_compute; reflexivity).
  rewrite forallb_forall in H. apply list_elem_of_lookup_2, list_elem_of_In, H in Hy.
  apply andb_true_iff in Hy as [[H1%bool_decide_eq_true H2%bool_decide_eq_true]%andb_true_iff H3%bool_decide_eq_true].
  split_and!; [exact H1|exact H2|exact H3].
Qed.

Lemma second_spellings_misdispatched_witness :
  called_handlers DELETE (path_of #"books" [ #"synonym_sets"; #"s1"]) = [HandleDeleteCollection].
Proof.
  refine (proj1 (proj2 (second_spellings_misdispatched #"books" #"s1" (DELETE, [ #"synonym_sets"; #"s1"], DeleteSynonym, HandleDeleteCollection) _ _ _))).
  1, 2: split; [split; [discriminate|split; repeat constructor]|vm_compute; reflexivity].
  constructor 1.
Defined.

End HttpDispatchProps.
