(* ===== verification/Timers.v ===== *)
(** * Timers: src/runtime/timers.cpp

    The timer manager and the threads that use it. [Manager] is the state under
    the mutex; every operation of the source is split at the points where it
    releases or waits for the mutex, into one definition per critical section.
    Module [Timers] also has the threads: a thread is a stack of calls in
    progress, since the callback of a timer may call the manager again, and [step]
    is one critical section, or the start of one callback, of one thread. The
    clock is an input of the step. Times are nanoseconds, intervals milliseconds,
    both unbounded, where the sums of the source are undefined beyond 64 bits. The
    notification of modules at the end of [Add] is not modelled. *)

From S2P Require Import Prelude.

Module Timers.

(** ** The class Timer *)

Record Timer := mkTimer {
  NextRun : Z;
  Interval : Z;
  Callback : option nat;
  Repeating : bool;
  Identifier : Z
}.

(** [Clock::time_point::max()] and a millisecond. *)

Definition never : Z := 2 ^ 63 - 1.

Definition ms : Z := 1000000.

Definition IsDue (now : Z) (e : Timer) : bool := NextRun e <=? now.

Definition UpdateAfterRun (now : Z) (e : Timer) : Timer :=
  mkTimer (if Repeating e then now + Interval e * ms else never) (Interval e) (Callback e) (Repeating e) (Identifier e).

Definition IsRetired (e : Timer) : bool := negb (Repeating e) && (NextRun e =? never).

Definition SetIdentifier (i : Z) (e : Timer) : Timer :=
  mkTimer (NextRun e) (Interval e) (Callback e) (Repeating e) i.

Definition ClearCallback (e : Timer) : Timer :=
  mkTimer (NextRun e) (Interval e) None (Repeating e) (Identifier e).

(** ** The state under the mutex *)

Record Manager := mkManager {
  Entries : list Timer;
  NextIdentifier : Z;
  ActiveTimers : gmap Z nat;
  CancelledTimers : gset Z
}.

Definition new_manager : Manager := mkManager [] 1 ∅ ∅.

Definition u64 (z : Z) : Z := z mod 2 ^ 64.

Definition Add (cb : option nat) (delay : Z) (repeating : bool) (now : Z) (m : Manager) : Manager * Z :=
  let Entry := mkTimer (now + delay * ms) delay cb repeating (NextIdentifier m) in
  (mkManager (Entries m ++ [Entry]) (u64 (NextIdentifier m + 1)) (ActiveTimers m) (CancelledTimers m), NextIdentifier m).

Definition AddEntry (entry : Timer) (m : Manager) : Manager * Z :=
  if Identifier entry =? 0 then
    (mkManager (Entries m ++ [SetIdentifier (NextIdentifier m) entry]) (u64 (NextIdentifier m + 1)) (ActiveTimers m)
       (CancelledTimers m), NextIdentifier m)
  else (mkManager (Entries m ++ [entry]) (NextIdentifier m) (ActiveTimers m) (CancelledTimers m), Identifier entry).

(** [CancelAndWait]: what it does before it waits, the condition it waits for, and
    what it does afterwards. An identifier of 0 is refused at once. *)

Definition has_id (i : Z) (e : Timer) : bool := Identifier e =? i.

Definition cancel_begin (i : Z) (m : Manager) : Manager * bool :=
  let Found := bool_decide (is_Some (ActiveTimers m !! i)) in
  (mkManager (List.filter (fun e => negb (has_id i e)) (Entries m)) (NextIdentifier m) (ActiveTimers m)
     ({[i]} ∪ CancelledTimers m), Found || existsb (has_id i) (Entries m)).

Definition idle (i : Z) (m : Manager) : bool := bool_decide (ActiveTimers m !! i = None).

Definition cancel_end (i : Z) (m : Manager) : Manager :=
  mkManager (Entries m) (NextIdentifier m) (ActiveTimers m) (CancelledTimers m ∖ {[i]}).

(** [Tick]: the selection of the due timers, and the section after a callback. *)

Definition activate (a : gmap Z nat) (e : Timer) : gmap Z nat :=
  <[Identifier e := S (default O (a !! Identifier e))]> a.

Definition tick_select (now : Z) (m : Manager) : Manager * list Timer :=
  let due := List.filter (IsDue now) (Entries m) in
  (mkManager (List.filter (fun e => negb (IsDue now e)) (Entries m)) (NextIdentifier m)
     (foldl activate (ActiveTimers m) due) (CancelledTimers m), due).

Definition deactivate (i : Z) (a : gmap Z nat) : gmap Z nat :=
  match a !! i with
  | None => a
  | Some n => if bool_decide (pred n = O) then delete i a else <[i := pred n]> a
  end.

(** The timer goes back to the list, or its mark of cancellation is removed; the
    second component is what remains of it in the list of due timers. *)

Definition tick_finish (now : Z) (e : Timer) (m : Manager) : Manager * Timer :=
  if Repeating e && negb (bool_decide (Identifier e ∈ CancelledTimers m)) then
    (mkManager (Entries m ++ [UpdateAfterRun now e]) (NextIdentifier m) (deactivate (Identifier e) (ActiveTimers m))
       (CancelledTimers m), ClearCallback (UpdateAfterRun now e))
  else
    (mkManager (Entries m) (NextIdentifier m) (deactivate (Identifier e) (ActiveTimers m))
       (CancelledTimers m ∖ {[Identifier e]}), ClearCallback e).

(** ** The time until the next timer *)

Definition INT_MAX : Z := 2147483647.

Definition ClampTimerMilliseconds (Milliseconds : Z) : Z :=
  if Milliseconds <=? 0 then 0 else if INT_MAX <? Milliseconds then INT_MAX else Milliseconds.

Definition earliest (l : list Timer) : Z :=
  foldl (fun a e => if NextRun e <? a then NextRun e else a) never l.

Definition GetTimeUntilNextMs (now : Z) (m : Manager) : Z :=
  if bool_decide (Entries m = []) then -1
  else if earliest (Entries m) =? never then -1
  else ClampTimerMilliseconds (Z.quot (earliest (Entries m) - now) ms).

Definition GetTimerCount (m : Manager) : Z := Z.of_nat (length (Entries m)).

(** [Clear], before and after its wait. *)

Definition clear_begin (m : Manager) : Manager :=
  mkManager [] (NextIdentifier m) (ActiveTimers m) (dom (ActiveTimers m) ∪ CancelledTimers m).

Definition all_idle (m : Manager) : bool := bool_decide (ActiveTimers m = ∅).

Definition clear_end (m : Manager) : Manager := mkManager (Entries m) (NextIdentifier m) (ActiveTimers m) ∅.

(** ** Threads

    A call in progress. [Ticking running past due raised]: the timers already
    processed, those to process, whether the callback of the first of these is
    running, and whether a callback has thrown. *)

Inductive Frame :=
| Ticking (running : bool) (past due : list Timer) (raised : bool)
| Cancelling (i : Z) (Found : bool)
| Clearing.

Record System := mkSystem { manager : Manager; stacks : gmap nat (list Frame) }.

Definition stack (t : nat) (s : System) : list Frame := default [] (stacks s !! t).

(** A thread can call the manager when it is not inside a call, or when it runs a
    callback. *)

Definition can_call (k : list Frame) : bool :=
  match k with [] => true | Ticking running _ _ _ :: _ => running | _ => false end.

Inductive Event :=
| EAdd (cb : option nat) (delay : Z) (repeating : bool) (now : Z)
| EAddEntry (entry : Timer)
| ETick (now : Z)
| EExecute
| EFinish (throws : bool) (now : Z)
| ETickReturn
| ECancel (i : Z)
| ECancelReturn
| EClear
| EClearReturn.

(** A call that has to wait leaves a frame, and returns in a step of its own. *)

Definition update (t : nat) (m : Manager) (k : list Frame) (s : System) : System :=
  mkSystem m (<[t := k]> (stacks s)).

Definition step (t : nat) (e : Event) (s : System) : option System :=
  let m := manager s in
  let k := stack t s in
  match e, k with
  | EAdd cb delay repeating now, _ => if can_call k then Some (update t (Add cb delay repeating now m).1 k s) else None
  | EAddEntry entry, _ => if can_call k then Some (update t (AddEntry entry m).1 k s) else None
  | ETick now, _ =>
      if can_call k then Some (update t (tick_select now m).1 (Ticking false [] (tick_select now m).2 false :: k) s) else None
  | EExecute, Ticking false past (e :: due) raised :: k => Some (update t m (Ticking true past (e :: due) raised :: k) s)
  | EFinish throws now, Ticking true past (e :: due) raised :: k =>
      Some (update t (tick_finish now e m).1
              (Ticking false (past ++ [(tick_finish now e m).2]) due (raised || throws) :: k) s)
  | ETickReturn, Ticking false _ [] _ :: k => Some (update t m k s)
  | ECancel i, _ =>
      if can_call k then
        if i =? 0 then Some s
        else
          let (m, Found) := cancel_begin i m in
          if idle i m then Some (update t (cancel_end i m) k s) else Some (update t m (Cancelling i Found :: k) s)
      else None
  | ECancelReturn, Cancelling i _ :: k => if idle i m then Some (update t (cancel_end i m) k s) else None
  | EClear, _ =>
      if can_call k then
        let m := clear_begin m in
        if all_idle m then Some (update t (clear_end m) k s) else Some (update t m (Clearing :: k) s)
      else None
  | EClearReturn, Clearing :: k => if all_idle m then Some (update t (clear_end m) k s) else None
  | _, _ => None
  end.

Fixpoint run (l : list (nat * Event)) (s : System) : option System :=
  match l with
  | [] => Some s
  | (t, e) :: l => match step t e s with Some s => run l s | None => None end
  end.

Definition start : System := mkSystem new_manager ∅.

End Timers.
