(* ===== verification/TimersProps.v ===== *)
(** * TimersProps: cancellation of timers under all interleavings

    Every timer the manager has is in its list or selected by exactly one call of
    [Tick] ([core]); a cancelled one that is selected bears its mark until it is
    dropped. From this: a cancelled timer never runs again, and where a
    cancellation cannot end. Then the behaviour of one tick and of the time until
    the next timer. *)

From S2P Require Import Prelude Timers.

Module TimersProps.
Import Timers.

(** ** Timers in flight *)

Definition ids (l : list Timer) : list Z := Identifier <$> l.

Definition frame_due (f : Frame) : list Timer := match f with Ticking _ _ due _ => due | _ => [] end.

Definition frame_past (f : Frame) : list Timer := match f with Ticking _ past _ _ => past | _ => [] end.

Definition dues (k : list Frame) : list Timer := k ≫= frame_due.

Definition in_flight (s : System) : list Timer := (map_to_list (stacks s)).*2 ≫= dues.

Definition live (s : System) : list Timer := Entries (manager s) ++ in_flight s.

Lemma stack_update t m k s : stack t (update t m k s) = k.
Proof. unfold stack, update. cbn. by rewrite lookup_insert_eq. Qed.

Lemma stack_update_ne t u m k s : t <> u -> stack u (update t m k s) = stack u s.
Proof. intros H. unfold stack, update. cbn. by rewrite lookup_insert_ne. Qed.

Lemma in_flight_split t s :
  exists R, in_flight s ≡ₚ dues (stack t s) ++ R /\ forall m k, in_flight (update t m k s) ≡ₚ dues k ++ R.
Proof.
  exists ((map_to_list (delete t (stacks s))).*2 ≫= dues). unfold in_flight, stack, update. cbn. split.
  - destruct (stacks s !! t) as [k|] eqn:E; cbn.
    + rewrite <- (map_to_list_delete _ _ _ E). cbn. done.
    + by rewrite delete_id.
  - intros _ k. rewrite <- insert_delete_eq, map_to_list_insert by apply lookup_delete_eq. done.
Qed.

Lemma ids_app a b : ids (a ++ b) = ids a ++ ids b.
Proof. apply fmap_app. Qed.

#[local] Instance ids_perm : Proper ((≡ₚ) ==> (≡ₚ)) ids.
Proof. intros a b H. unfold ids. by rewrite H. Qed.

Lemma ids_filter p l i : i ∈ ids (List.filter p l) <-> exists e, e ∈ l /\ p e = true /\ Identifier e = i.
Proof.
  unfold ids. rewrite list_elem_of_fmap. setoid_rewrite list_elem_of_In. setoid_rewrite filter_In. naive_solver.
Qed.

Lemma filter_split (p : Timer -> bool) l : List.filter (fun e => negb (p e)) l ++ List.filter p l ≡ₚ l.
Proof.
  induction l as [|e l IH]; [done|]. cbn. destruct (p e); cbn; [|by f_equiv].
  rewrite <- Permutation_middle. by f_equiv.
Qed.

(** ** The invariant of the manager, given the timers selected and those awaited *)

Record core (n : Z) (m : Manager) (F : list Z) (W : Z -> Prop) : Prop := mkCore {
  core_next : 1 <= NextIdentifier m <= 1 + n;
  core_nodup : NoDup (ids (Entries m) ++ F);
  core_range : Forall (fun i => i < NextIdentifier m) (ids (Entries m) ++ F);
  core_active : forall i, ActiveTimers m !! i = if decide (i ∈ F) then Some 1%nat else None;
  core_wait : forall i, W i -> i < NextIdentifier m /\ i ∉ ids (Entries m) /\ (i ∈ F -> i ∈ CancelledTimers m)
}.

Lemma core_perm n m F F' W : F ≡ₚ F' -> core n m F W -> core n m F' W.
Proof.
  intros HF [H1 H2 H3 H4 H5]. split; [done|by rewrite <- HF|by rewrite <- HF| |].
  - intros i. rewrite H4. apply decide_ext. by rewrite HF.
  - intros i Hi. rewrite <- HF. by apply H5.
Qed.

Lemma core_weaken n n' m F (W W' : Z -> Prop) : n <= n' -> (forall i, W' i -> W i) -> core n m F W -> core n' m F W'.
Proof. intros Hn HW [H1 H2 H3 H4 H5]. split; try done; [lia|]. eauto. Qed.

Section Operations.
Context (n : Z) (m : Manager) (F : list Z) (W : Z -> Prop).
Hypothesis Hcore : core n m F W.

Lemma core_idle i : idle i m = true <-> i ∉ F.
Proof.
  destruct Hcore as [_ _ _ Ha _]. unfold idle. rewrite bool_decide_eq_true, Ha. destruct (decide _); naive_solver.
Qed.

Lemma core_lt i : i ∈ ids (Entries m) ++ F -> i < NextIdentifier m.
Proof. destruct Hcore as [_ _ Hr _ _]. rewrite Forall_forall in Hr. apply Hr. Qed.

Lemma core_push e :
  n + 2 < 2 ^ 64 -> Identifier e = NextIdentifier m ->
  core (n + 1) (mkManager (Entries m ++ [e]) (u64 (NextIdentifier m + 1)) (ActiveTimers m) (CancelledTimers m)) F W.
Proof.
  intros Hn He. pose proof Hcore as [H1 H2 H3 H4 H5].
  assert (Hu : u64 (NextIdentifier m + 1) = NextIdentifier m + 1) by (apply Z.mod_small; lia).
  assert (Hp : ids (Entries m ++ [e]) ++ F ≡ₚ NextIdentifier m :: ids (Entries m) ++ F)
    by (rewrite ids_app; cbn; rewrite He, <- app_assoc; cbn; by rewrite <- Permutation_middle).
  split; cbn; rewrite ?Hu; [lia|rewrite Hp..|done|].
  - apply NoDup_cons. split; [|done]. intros Hi. apply core_lt in Hi. lia.
  - constructor; [lia|]. eapply Forall_impl; [done|]. cbn. lia.
  - intros i Hi. destruct (H5 i Hi) as (Hl & Hni & Hc). split; [lia|]. split; [|done].
    rewrite ids_app, elem_of_app. cbn. rewrite He, list_elem_of_singleton. intros [?|?]; [done|lia].
Qed.

Lemma core_cancel_begin i :
  core n (cancel_begin i m).1 F W /\ (i < NextIdentifier m -> core n (cancel_begin i m).1 F (fun j => j = i \/ W j)).
Proof.
  pose proof Hcore as [H1 H2 H3 H4 H5].
  assert (Hsub : ids (List.filter (fun e => negb (has_id i e)) (Entries m)) `sublist_of` ids (Entries m)).
  { clear. induction (Entries m) as [|e l IH]; [done|]. cbn. destruct (negb _); by constructor. }
  assert (Hni : i ∉ ids (List.filter (fun e => negb (has_id i e)) (Entries m))).
  { rewrite ids_filter. intros (e & _ & He & Hi). unfold has_id in He. subst i. by rewrite Z.eqb_refl in He. }
  assert (Hsub' : ids (List.filter (fun e => negb (has_id i e)) (Entries m)) ++ F `sublist_of` ids (Entries m) ++ F)
    by (by apply sublist_app).
  assert (Hbase : core n (cancel_begin i m).1 F W).
  { split; cbn; [done|by eapply sublist_NoDup| |done|].
    { apply Forall_forall. intros j Hj. apply core_lt. eapply elem_of_submseteq; [done|]. by apply sublist_submseteq. }
    intros j Hj. destruct (H5 j Hj) as (Hl & Hn & Hc). split; [done|]. split; [|set_solver].
    intros Hin. apply Hn. eapply elem_of_submseteq; [done|]. by apply sublist_submseteq. }
  split; [done|]. intros Hl. destruct Hbase as [B1 B2 B3 B4 B5]. split; try done.
  intros j [->|Hj]; [|by apply B5]. cbn. split; [done|]. split; [done|set_solver].
Qed.

Lemma core_cancel_end i : idle i m = true -> core n (cancel_end i m) F W.
Proof.
  intros Hi%core_idle. destruct Hcore as [H1 H2 H3 H4 H5]. split; cbn; try done.
  intros j Hj. destruct (H5 j Hj) as (Hl & Hn & Hc). split; [done|]. split; [done|]. set_solver.
Qed.

Lemma core_clear_begin : core n (clear_begin m) F W.
Proof.
  pose proof Hcore as [H1 H2 H3 H4 H5]. apply NoDup_app in H2 as (_ & _ & H2). apply Forall_app in H3 as [_ H3].
  split; cbn; try done. intros j Hj. destruct (H5 j Hj) as (Hl & Hn & Hc). split; [done|]. split; [apply not_elem_of_nil|set_solver].
Qed.

Lemma core_clear_end : all_idle m = true -> core n (clear_end m) F W.
Proof.
  unfold all_idle. rewrite bool_decide_eq_true. intros Ha. destruct Hcore as [H1 H2 H3 H4 H5].
  split; cbn; try done. intros j Hj. destruct (H5 j Hj) as (Hl & Hn & Hc). split; [done|]. split; [done|].
  intros HF. specialize (H4 j). rewrite decide_True in H4 by done. by rewrite Ha in H4.
Qed.

Lemma activate_lookup l a i :
  NoDup (ids l) -> (forall j, j ∈ ids l -> a !! j = None) ->
  foldl activate a l !! i = if decide (i ∈ ids l) then Some 1%nat else a !! i.
Proof.
  revert a. induction l as [|e l IH]; intros a Hn Ha; [done|]. cbn in Hn. apply NoDup_cons in Hn as [Hne Hn].
  cbn [foldl]. rewrite IH; [|done|].
  - unfold activate. rewrite (Ha (Identifier e)) by (cbn; set_solver). cbn [default].
    destruct (decide (i ∈ ids l)) as [Hi|Hi]; [by rewrite decide_True by (cbn; set_solver)|].
    destruct (decide (i = Identifier e)) as [->|Hd].
    + rewrite lookup_insert_eq, decide_True by (cbn; set_solver). done.
    + rewrite lookup_insert_ne, decide_False by (cbn; set_solver). done.
  - intros j Hj. unfold activate. rewrite lookup_insert_ne by set_solver. apply Ha. cbn. set_solver.
Qed.

Lemma core_tick_select now : core n (tick_select now m).1 (F ++ ids (tick_select now m).2) W.
Proof.
  pose proof Hcore as [H1 H2 H3 H4 H5].
  assert (Hp : ids (Entries (tick_select now m).1) ++ F ++ ids (tick_select now m).2 ≡ₚ ids (Entries m) ++ F).
  { cbn. rewrite (Permutation_app_comm F), app_assoc, <- ids_app. f_equiv. unfold ids. by rewrite filter_split. }
  assert (Hsub : forall i, i ∈ ids (tick_select now m).2 -> i ∈ ids (Entries m)).
  { intros i. cbn. rewrite ids_filter. intros (e & He & _ & <-). apply list_elem_of_fmap. eauto. }
  assert (Hd : forall i, i ∈ ids (Entries m) -> i ∉ F) by (apply NoDup_app in H2 as (_ & H2 & _); exact H2).
  split; [done|by rewrite Hp|by rewrite Hp| |].
  - intros i. cbn. rewrite activate_lookup.
    + rewrite H4. cbn in Hsub. repeat case_decide; set_solver.
    + assert (HN : NoDup (ids (Entries m) ++ F)) by done. rewrite <- Hp in HN.
      apply NoDup_app in HN as (_ & _ & HN). by apply NoDup_app in HN as (_ & _ & HN).
    + intros j Hj. rewrite H4, decide_False; [done|]. by apply Hd, Hsub.
  - intros i Hi. destruct (H5 i Hi) as (Hl & Hn & Hc). split; [done|]. split.
    + intros Hin. apply Hn. cbn in Hin. apply ids_filter in Hin as (e & He & _ & <-). apply list_elem_of_fmap. eauto.
    + rewrite elem_of_app. intros [HF|HF]; [by apply Hc|]. by apply Hsub in HF.
Qed.

End Operations.

Lemma deactivate_lookup (a : gmap Z nat) i j :
  a !! i = Some 1%nat -> deactivate i a !! j = if decide (j = i) then None else a !! j.
Proof.
  intros H. unfold deactivate. rewrite H. cbn. rewrite bool_decide_eq_true_2 by done.
  destruct (decide (j = i)) as [->|?]; [apply lookup_delete_eq|by apply lookup_delete_ne].
Qed.

Lemma core_tick_finish n m F W now e :
  core n m (Identifier e :: F) W -> core n (tick_finish now e m).1 F W.
Proof.
  intros [H1 H2 H3 H4 H5].
  assert (Hm : ids (Entries m) ++ Identifier e :: F ≡ₚ Identifier e :: ids (Entries m) ++ F)
    by (by rewrite <- Permutation_middle).
  rewrite Hm in H2, H3. apply NoDup_cons in H2 as [Hne H2]. inversion H3 as [|? ? Hl H3']; subst.
  assert (Hact : forall i, deactivate (Identifier e) (ActiveTimers m) !! i = if decide (i ∈ F) then Some 1%nat else None).
  { intros i. rewrite deactivate_lookup by (rewrite H4, decide_True; [done|set_solver]). rewrite H4.
    destruct (decide (i = Identifier e)) as [->|Hd]; [by rewrite decide_False by set_solver|].
    apply decide_ext. set_solver. }
  unfold tick_finish. destruct (Repeating e && _) eqn:Er; split; cbn; try done.
  - rewrite ids_app, <- app_assoc. cbn. rewrite <- Permutation_middle. by apply NoDup_cons.
  - rewrite ids_app, <- app_assoc. cbn. rewrite <- Permutation_middle. by constructor.
  - intros i Hi. destruct (H5 i Hi) as (Hil & Hn & Hc). split; [done|]. split; [|set_solver].
    rewrite ids_app, elem_of_app. cbn. rewrite list_elem_of_singleton. intros [?| ->]; [done|].
    apply andb_prop in Er as [_ Er]. apply negb_true_iff, bool_decide_eq_false in Er. apply Er, Hc. set_solver.
  - intros i Hi. destruct (H5 i Hi) as (Hil & Hn & Hc). split; [done|]. split; [done|]. set_solver.
Qed.

(** ** The invariant of the system *)

Definition waits (s : System) (i : Z) : Prop := exists t Found, Cancelling i Found ∈ stack t s.

Definition good (n : Z) (s : System) : Prop := core n (manager s) (ids (in_flight s)) (waits s).

(** All entries get their identifiers from the manager. *)

Definition managed (e : Event) : Prop := match e with EAddEntry entry => Identifier entry = 0 | _ => True end.

Lemma waits_update t m k s i :
  waits (update t m k s) i -> (exists Found, Cancelling i Found ∈ k) \/ waits s i.
Proof.
  intros (u & Found & H). destruct (decide (t = u)) as [<-|Hu].
  - rewrite stack_update in H. eauto.
  - rewrite stack_update_ne in H by done. right. by exists u, Found.
Qed.

(** A step of thread [t] turns its stack into [k]; the due timers of the others, [R],
    stay. *)

Lemma good_update t m k s n (W : Z -> Prop) R :
  (forall m k, in_flight (update t m k s) ≡ₚ dues k ++ R) ->
  (forall i, waits s i -> W i) -> (forall i Found, Cancelling i Found ∈ k -> W i) ->
  core n m (ids (dues k ++ R)) W -> good n (update t m k s).
Proof.
  intros HR HW Hk Hc. unfold good. eapply core_perm; [symmetry; apply ids_perm, HR|].
  eapply core_weaken; [reflexivity| |exact Hc]. intros i [[Found H]|H]%waits_update; eauto.
Qed.

Lemma waits_tail t s f k i Found : stack t s = f :: k -> Cancelling i Found ∈ k -> waits s i.
Proof. intros E H. exists t, Found. rewrite E. by right. Qed.

Lemma waits_stack t s i Found : Cancelling i Found ∈ stack t s -> waits s i.
Proof. intros H. by exists t, Found. Qed.

Lemma step_good t e s s' n :
  n + 2 < 2 ^ 64 -> managed e -> good n s -> step t e s = Some s' -> good (n + 1) s'.
Proof.
  intros Hn He Hg Hs. destruct (in_flight_split t s) as (R & HR & HU).
  assert (Hc : core n (manager s) (ids (dues (stack t s) ++ R)) (waits s)) by (eapply core_perm; [apply ids_perm, HR|done]).
  assert (Hc1 : core (n + 1) (manager s) (ids (dues (stack t s) ++ R)) (waits s)) by (eapply core_weaken; [|eauto..]; lia).
  assert (Hw : forall i Found, Cancelling i Found ∈ stack t s -> waits s i) by eauto using waits_stack.
  unfold step in Hs. destruct e as [cb delay rep now|entry|now| |throws now| |i| | |].
  - destruct (can_call _); simplify_eq. eapply good_update; [done..|]. by apply core_push.
  - destruct (can_call _); simplify_eq. cbn in He. unfold AddEntry. rewrite He. cbn.
    eapply good_update; [done..|]. by apply core_push.
  - destruct (can_call _); simplify_eq. eapply (good_update _ _ _ _ _ (waits s)); [done..| |].
    + intros i Found H. apply elem_of_cons in H as [?|H]; [done|eauto].
    + eapply core_perm; [|by eapply core_tick_select]. cbn [dues mbind list_bind frame_due].
      rewrite <- app_assoc, !ids_app. apply Permutation_app_comm.
  - destruct (stack t s) as [|[[] past [|e due] raised| |] k] eqn:E; simplify_eq.
    eapply good_update; [done..| |exact Hc1]. intros i Found H. apply elem_of_cons in H as [?|H]; [done|]. eauto using waits_tail.
  - destruct (stack t s) as [|[[] past [|e due] raised| |] k] eqn:E; simplify_eq.
    eapply (good_update _ _ _ _ _ (waits s)); [done..| |by apply core_tick_finish].
    intros i Found H. apply elem_of_cons in H as [?|H]; [done|]. eauto using waits_tail.
  - destruct (stack t s) as [|[[] past [|e due] raised| |] k] eqn:E; simplify_eq.
    eapply (good_update _ _ _ _ _ (waits s)); [done..| |exact Hc1]. eauto using waits_tail.
  - destruct (can_call _); [|done]. destruct (i =? 0); simplify_eq; [by eapply core_weaken; [| |exact Hg]; [lia|eauto]|].
    destruct (cancel_begin i (manager s)) as [m Found] eqn:Ec. destruct (core_cancel_begin _ _ _ _ Hc1 i) as [B1 B2].
    rewrite Ec in B1, B2. cbn in B1, B2. destruct (idle i m) eqn:Ei; simplify_eq.
    + eapply good_update; [done..|]. by apply core_cancel_end.
    + eapply (good_update _ _ _ _ _ (fun j => j = i \/ waits s j)); [done|tauto| |apply B2].
      * intros j Fd H. apply elem_of_cons in H as [H|H]; [left; congruence|eauto].
      * eapply core_lt; [exact Hc|]. apply elem_of_app. right. destruct (decide (i ∈ ids (dues (stack t s) ++ R))) as [|Hni]; [done|].
        apply (core_idle _ _ _ _ B1) in Hni. congruence.
  - destruct (stack t s) as [|[|j Found|] k] eqn:E; simplify_eq. destruct (idle j _) eqn:Ei; simplify_eq.
    eapply (good_update _ _ _ _ _ (waits s)); [done..| |by apply core_cancel_end]. eauto using waits_tail.
  - destruct (can_call _); [|done]. pose proof (core_clear_begin _ _ _ _ Hc1) as B. destruct (all_idle _) eqn:Ei; simplify_eq.
    + eapply good_update; [done..|]. by apply core_clear_end.
    + eapply (good_update _ _ _ _ _ (waits s)); [done..| |exact B]. intros i Found H. apply elem_of_cons in H as [?|H]; [done|eauto].
  - destruct (stack t s) as [|[| |] k] eqn:E; simplify_eq. destruct (all_idle _) eqn:Ei; simplify_eq.
    eapply (good_update _ _ _ _ _ (waits s)); [done..| |by apply core_clear_end]. eauto using waits_tail.
Qed.

Lemma good_start : good 0 start.
Proof.
  split; cbn; [lia|apply NoDup_nil_2|constructor|done|]. intros i (t & Found & H). unfold stack in H. cbn in H.
  rewrite lookup_empty in H. by apply elem_of_nil in H.
Qed.

Lemma run_good l s n s' :
  n + Z.of_nat (length l) + 1 < 2 ^ 64 -> Forall (fun x => managed x.2) l -> good n s -> run l s = Some s' ->
  good (n + Z.of_nat (length l)) s'.
Proof.
  revert s n. induction l as [|[t e] l IH]; intros s n Hn Hm Hg Hr; cbn [run] in Hr.
  - simplify_eq. by rewrite Z.add_0_r.
  - destruct (step t e s) as [s1|] eqn:E; [|done]. inversion Hm; subst. cbn [length] in Hn |- *.
    replace (n + Z.of_nat (S (length l))) with (n + 1 + Z.of_nat (length l)) by lia.
    eapply IH; [lia|done| |done]. eapply step_good; [|done..]. lia.
Qed.

(** ** What a step can bring to life *)

Lemma live_split t s :
  exists R, ids (live s) ≡ₚ ids (Entries (manager s)) ++ ids (dues (stack t s)) ++ R /\
    forall m k, ids (live (update t m k s)) ≡ₚ ids (Entries m) ++ ids (dues k) ++ R.
Proof.
  destruct (in_flight_split t s) as (R & HR & HU). exists (ids R). unfold live. split; [|intros m k].
  - by rewrite ids_app, HR, ids_app.
  - by rewrite ids_app, HU, ids_app.
Qed.

Lemma ids_filter_sub p l i : i ∈ ids (List.filter p l) -> i ∈ ids l.
Proof. rewrite ids_filter. intros (e & He & _ & <-). apply list_elem_of_fmap. eauto. Qed.

(** Each step keeps the identifiers or hands out the next one. *)

Lemma step_live t e s s' n i :
  n + 2 < 2 ^ 64 -> managed e -> good n s -> step t e s = Some s' ->
  NextIdentifier (manager s) <= NextIdentifier (manager s') /\
  (i ∈ ids (live s') -> i ∈ ids (live s) \/ i = NextIdentifier (manager s)).
Proof.
  intros Hn He Hg Hs. destruct (live_split t s) as (R & HR & HU).
  assert (Hu : u64 (NextIdentifier (manager s) + 1) = NextIdentifier (manager s) + 1)
    by (apply Z.mod_small; pose proof (core_next _ _ _ _ Hg); lia).
  rewrite HR. unfold step in Hs. destruct e as [cb delay rep now|entry|now| |throws now| |j| | |].
  - destruct (can_call _); simplify_eq. rewrite HU. cbn. rewrite Hu, ids_app. cbn. split; [lia|set_solver].
  - destruct (can_call _); simplify_eq. rewrite HU. cbn in He. unfold AddEntry. rewrite He. cbn. rewrite Hu, ids_app. cbn.
    split; [lia|set_solver].
  - destruct (can_call _); simplify_eq. rewrite HU. cbn. split; [lia|]. rewrite !elem_of_app, ids_app, elem_of_app.
    pose proof (ids_filter_sub (IsDue now) (Entries (manager s)) i).
    pose proof (ids_filter_sub (fun e => negb (IsDue now e)) (Entries (manager s)) i). tauto.
  - destruct (stack t s) as [|[[] past [|e due] raised| |] k] eqn:E; simplify_eq. rewrite HU. cbn. split; [lia|tauto].
  - destruct (stack t s) as [|[[] past [|e due] raised| |] k] eqn:E; simplify_eq. rewrite HU. unfold tick_finish.
    destruct (Repeating e && _); cbn; (split; [lia|]); rewrite ?ids_app; cbn; set_solver.
  - destruct (stack t s) as [|[[] past [|e due] raised| |] k] eqn:E; simplify_eq. rewrite HU. cbn. split; [lia|tauto].
  - destruct (can_call _); [|done]. destruct (j =? 0); simplify_eq; [rewrite HR; split; [lia|tauto]|].
    destruct (cancel_begin j (manager s)) as [m Found] eqn:Ec. pose proof (f_equal fst Ec) as Em. cbn in Em. subst m.
    pose proof (ids_filter_sub (fun e => negb (has_id j e)) (Entries (manager s)) i).
    destruct (idle j _); simplify_eq; rewrite HU; cbn; (split; [lia|]); rewrite !elem_of_app; tauto.
  - destruct (stack t s) as [|[|j Found|] k] eqn:E; simplify_eq. destruct (idle j _) eqn:Ei; simplify_eq.
    rewrite HU. cbn. split; [lia|tauto].
  - destruct (can_call _); [|done]. destruct (all_idle _); simplify_eq; rewrite HU; cbn; (split; [lia|set_solver]).
  - destruct (stack t s) as [|[| |] k] eqn:E; simplify_eq. destruct (all_idle _) eqn:Ei; simplify_eq.
    rewrite HU. cbn. split; [lia|tauto].
Qed.

(** An identifier that was handed out and is no longer live. *)

Definition gone (i : Z) (s : System) : Prop := i < NextIdentifier (manager s) /\ i ∉ ids (live s).

Lemma run_gone l s n s' i :
  n + Z.of_nat (length l) + 1 < 2 ^ 64 -> Forall (fun x => managed x.2) l -> good n s -> gone i s -> run l s = Some s' -> gone i s'.
Proof.
  revert s n. induction l as [|[t e] l IH]; intros s n Hn Hm Hg [Hi Hl] Hr; cbn [run] in Hr; [by simplify_eq|].
  destruct (step t e s) as [s1|] eqn:E; [|done]. inversion Hm; subst. cbn [length] in Hn.
  eapply (IH s1 (n + 1)); [lia|done| | |done].
  - eapply step_good; [|done..]. lia.
  - destruct (step_live t e s s1 n i) as [A B]; [lia|done..|]. split; [lia|]. intros Hin. destruct (B Hin); [done|lia].
Qed.

(** Timers that were processed have given up their callbacks. *)

Definition released (s : System) : Prop :=
  forall t f, f ∈ stack t s -> Forall (fun e => Callback e = None) (frame_past f).

Lemma released_update t m k s :
  released s -> (forall f, f ∈ k -> Forall (fun e => Callback e = None) (frame_past f)) -> released (update t m k s).
Proof.
  intros H Hk u f Hf. destruct (decide (t = u)) as [<-|?]; [rewrite stack_update in Hf; eauto|].
  rewrite stack_update_ne in Hf by done. eauto.
Qed.

Lemma step_released t e s s' : released s -> step t e s = Some s' -> released s'.
Proof.
  intros H Hs. pose proof (H t) as Ht. unfold step in Hs.
  destruct e; repeat first [case_match; simplify_eq; []|case_match; simplify_eq];
    try done; apply released_update; try done; intros f Hf; try (by apply Ht); try (apply Ht; by right);
    (apply elem_of_cons in Hf as [->|Hf]; [|try (by apply Ht); apply Ht; by right]); cbn; try constructor.
  all: try (apply (Ht _ (list_elem_of_here _ _))).
  apply Forall_app. split; [apply (Ht _ (list_elem_of_here _ _))|]. repeat constructor.
  unfold tick_finish. by destruct (_ && _).
Qed.

Lemma run_released l s s' : released s -> run l s = Some s' -> released s'.
Proof.
  revert s. induction l as [|[t e] l IH]; intros s H Hr; cbn [run] in Hr; [by simplify_eq|].
  destruct (step t e s) as [s1|] eqn:E; [|done]. eapply IH; [|done]. by eapply step_released.
Qed.

Lemma released_start : released start.
Proof. intros t f H. unfold stack in H. cbn in H. rewrite lookup_empty in H. by apply elem_of_nil in H. Qed.

(** ** Cancellation *)

(** The step [e] of thread [t] is the return of [CancelAndWait] for [i]: at once, or
    after a wait. *)

Definition returns (i : Z) (t : nat) (e : Event) (s s' : System) : Prop :=
  (e = ECancel i /\ i <> 0 /\ stack t s' = stack t s) \/
  (e = ECancelReturn /\ exists Found k, stack t s = Cancelling i Found :: k).

Lemma returns_gone i t e s s' n :
  good n s -> i < NextIdentifier (manager s) -> step t e s = Some s' -> returns i t e s s' -> gone i s'.
Proof.
  intros Hg Hi Hs Hr. destruct (in_flight_split t s) as (R & HR & HU).
  assert (Hc : core n (manager s) (ids (dues (stack t s) ++ R)) (waits s)) by (eapply core_perm; [apply ids_perm, HR|done]).
  unfold step in Hs. destruct Hr as [(-> & H0 & Hst)|(-> & Found & k & E)].
  - destruct (can_call _); [|done]. rewrite (proj2 (Z.eqb_neq _ _)) in Hs by done.
    destruct (cancel_begin i (manager s)) as [m Found] eqn:Ec. destruct (core_cancel_begin _ _ _ _ Hc i) as [_ B].
    specialize (B Hi). rewrite Ec in B. cbn in B. destruct (core_wait _ _ _ _ B i) as (Hl & Hn & _); [by left|].
    destruct (idle i m) eqn:Ei; simplify_eq.
    + apply (core_idle _ _ _ _ B) in Ei. split; [done|]. unfold live. rewrite ids_app, HU. cbn. rewrite elem_of_app. tauto.
    + rewrite stack_update in Hst. apply (f_equal length) in Hst. cbn in Hst. lia.
  - rewrite E in Hs. destruct (idle i _) eqn:Ei; simplify_eq.
    destruct (core_wait _ _ _ _ Hc i) as (Hl & Hn & _); [apply (waits_stack t _ _ Found); rewrite E; apply list_elem_of_here|].
    apply (core_idle _ _ _ _ Hc) in Ei. rewrite E in Ei. split; [done|]. unfold live. rewrite ids_app, HU. cbn. rewrite elem_of_app. tauto.
Qed.

(** C16. A cancelled timer never runs again. Whatever the threads do, and in whatever
    order, callbacks that call the manager again included: once [CancelAndWait] has
    returned for an identifier that was handed out before, in no later state is a
    timer of this identifier scheduled, selected or running, and the entries that
    were processed hold no callback any more; so the module that defines the
    callback can be unloaded. Identifiers are those the manager assigned. *)
Theorem cancelled_never_runs l1 t e l2 s s' s'' i :
  Forall (fun x => managed x.2) (l1 ++ (t, e) :: l2) -> Z.of_nat (length (l1 ++ (t, e) :: l2)) + 1 < 2 ^ 64 ->
  run l1 start = Some s -> i < NextIdentifier (manager s) ->
  step t e s = Some s' -> returns i t e s s' -> run l2 s' = Some s'' ->
  i ∉ ids (live s'') /\ released s''.
Proof.
  intros Hm Hn H1 Hi Hs Hr H2. apply Forall_app in Hm as [Hm1 Hm2]. inversion Hm2 as [|? ? He Hm3]; subst. cbn in He.
  rewrite length_app in Hn. cbn [length] in Hn.
  assert (Hg : good (0 + Z.of_nat (length l1)) s) by (eapply run_good; [lia|done|apply good_start|done]).
  assert (Hg' : good (0 + Z.of_nat (length l1) + 1) s') by (eapply step_good; [lia|done..]).
  split.
  - eapply run_gone; [|done|exact Hg'| |done]; [lia|]. exact (returns_gone i t e s s' _ Hg Hi Hs Hr).
  - eapply run_released; [|done]. eapply step_released; [|done]. eapply run_released; [apply released_start|done].
Qed.

(** A repeating timer is cancelled by another thread while its callback runs. *)

Definition cancel_trace : list (nat * Event) :=
  [(0%nat, EAdd (Some 7%nat) 5 true 0); (0%nat, ETick 5000000); (0%nat, EExecute); (1%nat, ECancel 1); (0%nat, EFinish false 6000000)].

Lemma cancelled_never_runs_witness :
  exists s s' s'', run cancel_trace start = Some s /\ step 1 ECancelReturn s = Some s' /\
    run [(0%nat, ETickReturn); (0%nat, ETick 90000000); (0%nat, ETickReturn)] s' = Some s'' /\
    1 ∉ ids (live s'') /\ released s''.
Proof.
  eexists _, _, _. split; [vm_compute; reflexivity|]. split; [vm_compute; reflexivity|]. split; [vm_compute; reflexivity|].
  eapply (cancelled_never_runs cancel_trace 1%nat ECancelReturn [(0%nat, ETickReturn); (0%nat, ETick 90000000); (0%nat, ETickReturn)]
    _ _ _ 1); [repeat constructor|vm_compute; reflexivity|vm_compute; reflexivity|vm_compute; reflexivity|
    vm_compute; reflexivity| |vm_compute; reflexivity].
  right. split; [done|]. exists true, []. reflexivity.
Defined.

(** ** Cancellation from a callback *)

Lemma step_stack_ne u t e s s' : u <> t -> step u e s = Some s' -> stack t s' = stack t s.
Proof.
  intros Hu Hs. unfold step in Hs.
  destruct e; repeat first [case_match; simplify_eq; []|case_match; simplify_eq]; try done; by rewrite stack_update_ne.
Qed.

Lemma step_blocked n u t e s s' i Found k :
  good n s -> stack t s = Cancelling i Found :: k -> i ∈ ids (dues k) -> step u e s = Some s' -> stack t s' = stack t s.
Proof.
  intros Hg E Hi Hs. destruct (decide (u = t)) as [->|Hu]; [|by eapply step_stack_ne].
  assert (Hb : idle i (manager s) = false).
  { apply not_true_iff_false. rewrite (core_idle _ _ _ _ Hg). destruct (in_flight_split t s) as (R & HR & _).
    rewrite HR, E. cbn. rewrite ids_app, elem_of_app. tauto. }
  unfold step in Hs. rewrite E in Hs. cbn [can_call] in Hs. destruct e; try done. by rewrite Hb in Hs.
Qed.

(** A callback must not cancel its own timer, nor one that was selected with it.
    [CancelAndWait] waits until the timer is not active any more, and the timers
    that a call of [Tick] has selected are active until this very thread has run
    them: whatever the other threads do, the call never returns. *)
Theorem own_cancellation_blocks l1 l2 s s' t i Found k :
  Forall (fun x => managed x.2) (l1 ++ l2) -> Z.of_nat (length (l1 ++ l2)) + 1 < 2 ^ 64 ->
  run l1 start = Some s -> stack t s = Cancelling i Found :: k -> i ∈ ids (dues k) ->
  run l2 s = Some s' -> stack t s' = stack t s.
Proof.
  intros [Hm1 Hm2]%Forall_app Hn H1 E Hi. rewrite length_app in Hn.
  assert (Hg : good (0 + Z.of_nat (length l1)) s) by (eapply run_good; [lia|exact Hm1|apply good_start|exact H1]).
  rewrite Z.add_0_l in Hg. assert (Hlen : Z.of_nat (length l1) + Z.of_nat (length l2) + 1 < 2 ^ 64) by lia. clear Hn H1.
  revert s Hg E Hlen. generalize (Z.of_nat (length l1)). induction l2 as [|[u e] l IH]; intros n s Hg E Hn Hr; [by simplify_eq/=|].
  cbn [run] in Hr. destruct (step u e s) as [s1|] eqn:Es; [|done]. inversion Hm2; subst. cbn [length] in Hn.
  pose proof (step_blocked _ _ _ _ _ _ _ _ _ Hg E Hi Es) as Est. rewrite <- Est.
  apply (IH ltac:(done) (n + 1)); [eapply step_good; [lia|done..]|congruence|lia|done].
Qed.

(** Two timers are due, and the callback of the first cancels the second. *)

Definition blocking_trace : list (nat * Event) :=
  [(0%nat, EAdd (Some 7%nat) 5 false 0); (0%nat, EAdd (Some 8%nat) 5 false 0); (0%nat, ETick 5000000); (0%nat, EExecute); (0%nat, ECancel 2)].

Lemma own_cancellation_blocks_witness :
  exists s s', run blocking_trace start = Some s /\ run [(1%nat, ETick 9000000); (1%nat, ETickReturn)] s = Some s' /\
    stack 0 s' = stack 0 s.
Proof.
  eexists _, _. split; [vm_compute; reflexivity|]. split; [vm_compute; reflexivity|].
  eapply (own_cancellation_blocks blocking_trace [(1%nat, ETick 9000000); (1%nat, ETickReturn)]);
    [repeat constructor|vm_compute; reflexivity|vm_compute; reflexivity|vm_compute; reflexivity| |vm_compute; reflexivity].
  vm_compute. right. left.
Defined.

(** An entry that comes with an identifier of its own may share it with another one.
    When both are selected, the first to finish takes the mark of the cancellation
    away and the second goes back to the list: it is scheduled after
    [CancelAndWait] has returned. *)

Definition twin : Timer := mkTimer 0 5 (Some 7%nat) true 9.

Example preset_identifier_survives :
  (fun s => ids (Entries (manager s))) <$>
  run [(0%nat, EAddEntry twin); (0%nat, EAddEntry twin); (0%nat, ETick 1); (0%nat, EExecute); (1%nat, ECancel 9);
       (0%nat, EFinish false 2); (0%nat, EExecute); (0%nat, EFinish false 2); (1%nat, ECancelReturn)] start =
  Some [9].
Proof. vm_compute. reflexivity. Qed.

(** ** One tick *)

Fixpoint tick_events (t : nat) (outcomes : list (bool * Z)) : list (nat * Event) :=
  match outcomes with
  | [] => [(t, ETickReturn)]
  | (throws, now) :: r => (t, EExecute) :: (t, EFinish throws now) :: tick_events t r
  end.

(** What the sections of a tick leave of the selected timers. *)

Fixpoint rescheduled (due : list Timer) (outcomes : list (bool * Z)) : list Timer :=
  match due, outcomes with
  | e :: due, (_, now) :: r => (if Repeating e then [UpdateAfterRun now e] else []) ++ rescheduled due r
  | _, _ => []
  end.

Lemma run_tick t due outcomes past raised k s :
  length outcomes = length due -> CancelledTimers (manager s) = ∅ ->
  stack t s = Ticking false past due raised :: k ->
  exists s', run (tick_events t outcomes) s = Some s' /\ stack t s' = k /\
    Entries (manager s') = Entries (manager s) ++ rescheduled due outcomes /\ CancelledTimers (manager s') = ∅.
Proof.
  revert outcomes past raised s. induction due as [|e due IH]; intros [|[throws now] r] past raised s Hl Hc E; try done.
  - cbn [tick_events run step]. rewrite E. eexists. split; [done|]. rewrite stack_update. cbn. by rewrite app_nil_r.
  - cbn [tick_events run]. unfold step at 1. rewrite E. unfold step at 1. rewrite stack_update.
    set (s1 := update t (tick_finish now e _).1 _ _).
    assert (Hm : Entries (manager s1) = Entries (manager s) ++ (if Repeating e then [UpdateAfterRun now e] else []) /\
                 CancelledTimers (manager s1) = ∅).
    { unfold s1, tick_finish. cbn [manager update]. rewrite Hc, bool_decide_eq_false_2 by set_solver. cbn [negb].
      rewrite andb_true_r. destruct (Repeating e); cbn; rewrite ?Hc, ?app_nil_r; split; (done || set_solver). }
    destruct Hm as [He1 Hc1].
    destruct (IH r (past ++ [(tick_finish now e (manager s)).2]) (raised || throws) s1) as (s' & R1 & R2 & R3 & R4);
      [by injection Hl|done|by unfold s1; rewrite stack_update|].
    exists s'. split; [done|]. split; [done|]. split; [|done]. rewrite R3, He1, <- app_assoc. done.
Qed.

(** One tick runs the due timers and no other. When a thread calls [Tick] and no
    cancellation is under way, the timers that are due at that moment are run once
    each, in the order of the list, whether or not callbacks throw; afterwards the
    list has the timers that were not due, followed by the repeating ones of those
    that ran, rescheduled by their interval from the end of their callback. *)
Theorem tick_runs_due t now outcomes s :
  can_call (stack t s) = true -> CancelledTimers (manager s) = ∅ ->
  length outcomes = length (List.filter (IsDue now) (Entries (manager s))) ->
  exists s', run ((t, ETick now) :: tick_events t outcomes) s = Some s' /\ stack t s' = stack t s /\
    Entries (manager s') =
      List.filter (fun e => negb (IsDue now e)) (Entries (manager s)) ++
      rescheduled (List.filter (IsDue now) (Entries (manager s))) outcomes.
Proof.
  intros Hk Hc Hl. cbn [run]. unfold step at 1. rewrite Hk.
  destruct (run_tick t (List.filter (IsDue now) (Entries (manager s))) outcomes [] false (stack t s)
    (update t (tick_select now (manager s)).1 (Ticking false [] (tick_select now (manager s)).2 false :: stack t s) s))
    as (s' & R1 & R2 & R3 & _); [done|exact Hc|apply stack_update|].
  exists s'. split; [exact R1|]. split; [done|]. exact R3.
Qed.

Lemma tick_runs_due_witness :
  exists s s', run [(0%nat, EAdd (Some 7%nat) 5 true 0); (0%nat, EAdd (Some 8%nat) 50 false 0)] start = Some s /\
    run ((0%nat, ETick 6000000) :: tick_events 0 [(true, 8000000)]) s = Some s' /\
    Entries (manager s') =
      [mkTimer 50000000 50 (Some 8%nat) false 2; mkTimer 13000000 5 (Some 7%nat) true 1].
Proof.
  eexists. destruct (tick_runs_due 0 6000000 [(true, 8000000)]
    (mkSystem (mkManager [mkTimer 5000000 5 (Some 7%nat) true 1; mkTimer 50000000 50 (Some 8%nat) false 2] 3 ∅ ∅) {[0%nat := []]}))
    as (s' & R1 & R2 & R3); [reflexivity|reflexivity|reflexivity|].
  exists s'. split; [vm_compute; reflexivity|]. split; [exact R1|]. rewrite R3. vm_compute. reflexivity.
Defined.

(** ** The time until the next timer *)

Lemma earliest_fold l a :
  a <= never -> let r := foldl (fun a e => if NextRun e <? a then NextRun e else a) a l in
  r <= a /\ Forall (fun e => r <= NextRun e) l /\ (r = a \/ Exists (fun e => NextRun e = r) l).
Proof.
  revert a. induction l as [|e l IH]; intros a Ha; cbn [foldl]; [split; [reflexivity|]; by split; [constructor|left]|].
  destruct (IH (if NextRun e <? a then NextRun e else a)) as (H1 & H2 & H3); [destruct (Z.ltb_spec (NextRun e) a); lia|].
  destruct (Z.ltb_spec (NextRun e) a); (split; [lia|split; [constructor; [lia|done]|]]).
  - right. destruct H3 as [->|H3]; [by left|by right].
  - destruct H3 as [->|H3]; [by left|right; by right].
Qed.

Lemma clamp_bounds d :
  let r := ClampTimerMilliseconds (Z.quot d ms) in
  0 <= r <= INT_MAX /\ (0 < r -> r * ms <= d) /\ (r < INT_MAX -> d < (r + 1) * ms).
Proof.
  unfold ClampTimerMilliseconds, INT_MAX, ms. destruct (Z.le_gt_cases d 0) as [Hd|Hd].
  - assert (Hq : Z.quot d 1000000 <= 0).
    { replace d with (- (- d)) by lia. rewrite Z.quot_opp_l by lia. pose proof (Z.quot_pos (- d) 1000000). lia. }
    rewrite (proj2 (Z.leb_le _ _) Hq). lia.
  - rewrite Z.quot_div_nonneg by lia. pose proof (Z.div_mod d 1000000). pose proof (Z.mod_pos_bound d 1000000).
    destruct (Z.leb_spec (d / 1000000) 0), (Z.ltb_spec 2147483647 (d / 1000000)); lia.
Qed.

(** The event loop may sleep for the time until the next timer. The answer is -1
    exactly when no timer will ever be due; otherwise it is an [int] that is not
    negative, no timer becomes due before that many milliseconds have passed, and,
    unless it was cut to the largest [int], some timer is due one millisecond
    later. *)
Theorem wakeup_is_exact now m :
  Forall (fun e => NextRun e <= never) (Entries m) ->
  let r := GetTimeUntilNextMs now m in
  (r = -1 <-> Forall (fun e => NextRun e = never) (Entries m)) /\
  (r <> -1 -> 0 <= r <= INT_MAX /\
     (forall d, 0 <= d < r * ms -> Forall (fun e => IsDue (now + d) e = false) (Entries m)) /\
     (r < INT_MAX -> Exists (fun e => IsDue (now + (r + 1) * ms) e = true) (Entries m))).
Proof.
  intros Hle r. subst r. unfold GetTimeUntilNextMs.
  destruct (bool_decide_reflect (Entries m = [])) as [->|Hne]; [split; [|done]; split; [constructor|done]|].
  destruct (earliest_fold (Entries m) never) as (H1 & H2 & H3); [reflexivity|]. fold (earliest (Entries m)) in *.
  destruct (Z.eqb_spec (earliest (Entries m)) never) as [E|E].
  - split; [|done]. split; [intros _|done]. rewrite E in H2. rewrite Forall_forall in *. intros e He.
    specialize (H2 e He). specialize (Hle e He). cbn in *. lia.
  - destruct H3 as [H3|H3]; [done|]. destruct (clamp_bounds (earliest (Entries m) - now)) as (C1 & C2 & C3).
    set (r := ClampTimerMilliseconds _) in *. clearbody r. unfold ms in *. split; [|intros _; split; [done|split]].
    + split; [lia|]. intros Hall. exfalso. apply Exists_exists in H3 as (e & He & Hee). rewrite Forall_forall in Hall.
      specialize (Hall e He). cbn in Hall. lia.
    + intros d Hd. eapply Forall_impl; [exact H2|]. intros e He. cbn in He. apply Z.leb_gt. lia.
    + intros Hr. eapply Exists_impl; [exact H3|]. intros e He. cbn in He. apply Z.leb_le. lia.
Qed.

Lemma wakeup_is_exact_witness :
  GetTimeUntilNextMs 1500000 (mkManager [mkTimer 5000000 5 (Some 7%nat) true 1] 2 ∅ ∅) = 3 /\
  (forall d, 0 <= d < 3 * ms ->
     Forall (fun e => IsDue (1500000 + d) e = false) [mkTimer 5000000 5 (Some 7%nat) true 1]).
Proof.
  split; [reflexivity|].
  destruct (wakeup_is_exact 1500000 (mkManager [mkTimer 5000000 5 (Some 7%nat) true 1] 2 ∅ ∅)) as [_ H];
    [repeat constructor; discriminate|].
  destruct H as (_ & H & _); [discriminate|]. exact H.
Defined.

End TimersProps.
