(* ===== verification/DocValues.v ===== *)
(** * DocValues: the values of documents, src/api/utils.cpp

    How the search API reads the values of a document: numbers, geographical points
    and distances, ISO 8601 time stamps, and the JSON object of the legacy field
    [fields]. A document is a [std::map] of strings. The JSON parser and printer,
    the trigonometric functions of the C library and [std::get_time] are arguments
    ([Library]); the calendar ([timegm], [gmtime_r]) is defined here. *)

From Stdlib Require Import SpecFloat.
From S2P Require Import Prelude CText StdMap.

Module DocValues.

(** ** Values of the JSON library *)

Inductive json :=
| JNull
| JBool (b : bool)
| JInteger (z : Z)
| JUnsigned (z : Z)
| JFloat (d : double)
| JString (s : bytes)
| JArray (l : list json)
| JObject (l : list (bytes * json)).

(** The broken-down time of <ctime>: [tm_year] counts from 1900, [tm_mon] from 0. *)

Record tm := mkTm { tm_year : Z; tm_mon : Z; tm_mday : Z; tm_hour : Z; tm_min : Z; tm_sec : Z }.

Class Library := {
  parse : bytes -> option json;
  dump : json -> bytes;
  sin : double -> double;
  cos : double -> double;
  atan2 : double -> double -> double;
  get_time : bytes -> option tm
}.

(** ** Doubles *)

Definition of_Z (z : Z) : double := binary_normalize 53 1024 z 0 false.

Definition add (a b : double) : double := SFadd 53 1024 a b.
Definition sub (a b : double) : double := SFsub 53 1024 a b.
Definition mul (a b : double) : double := SFmul 53 1024 a b.
Definition div (a b : double) : double := SFdiv 53 1024 a b.

(** A decimal literal of the source. *)

Definition literal (m e : Z) : double := round_fnum (FFin false m 10 e).

Definition isfinite (d : double) : bool :=
  match d with S754_zero _ | S754_finite _ _ _ => true | _ => false end.

(** The digits of [std::fixed] with a precision of six, and of [std::to_string]: the
    exact value, rounded half to even. *)

Definition round_half_even (a b : Z) : Z :=
  let q := a / b in
  match 2 * (a mod b) ?= b with
  | Lt => q
  | Gt => q + 1
  | Eq => if Z.even q then q else q + 1
  end.

Definition pad (n : nat) (s : bytes) : bytes := replicate (n - length s) "0"%char ++ s.

Definition fixed6 (d : double) : bytes :=
  let sign (b : bool) := if b then #"-" else [] in
  match d with
  | S754_zero b => sign b ++ #"0.000000"
  | S754_infinity b => sign b ++ #"inf"
  | S754_nan => #"nan"
  | S754_finite b m e =>
      let z := round_half_even (Zpos m * 2 ^ Z.max e 0 * 1000000) (2 ^ Z.max (- e) 0) in
      sign b ++ to_string (z / 1000000) ++ #"." ++ pad 6 (to_string (z mod 1000000))
  end.

(** ** Text *)

Definition blank (c : ascii) : bool := bool_decide (c ∈ [" "%char; chr 9; chr 13; chr 10]).

Definition TrimRankMetadataValue (Value : bytes) : bytes := trim blank Value.

Definition LowerRankMetadataValue (Value : bytes) : bytes := tolower <$> Value.

Definition TryParseDoubleValue (Value : bytes) : option double :=
  let Trimmed := TrimRankMetadataValue Value in
  if bool_decide (Trimmed = []) then None
  else
    match stod Trimmed with
    | None => None
    | Some (Parsed, ParsedChars) =>
        if negb (bool_decide (ParsedChars = length Trimmed)) || negb (isfinite Parsed) then None else Some Parsed
    end.

(** A value in quotes of one kind loses them. *)

Definition dquote : ascii := chr 34.
Definition squote : ascii := chr 39.

Definition quoted_by (q : ascii) (s : bytes) : bool := bool_decide (head s = Some q) && bool_decide (last s = Some q).

Definition unquote (s : bytes) : bytes := take (length s - 2) (drop 1 s).

Definition trim_arg (s : bytes) : bytes :=
  let s := trim blank s in
  if (2 <=? length s)%nat && (quoted_by dquote s || quoted_by squote s) then unquote s else s.

(** The depths of brackets, braces and parentheses; a closing one at depth 0 does
    not count. *)

Record Depths := mkDepths { BracketDepth : Z; BraceDepth : Z; ParenDepth : Z }.

Definition nest (d : Depths) (c : ascii) : Depths :=
  let '(mkDepths k r p) := d in
  if bool_decide (c = "["%char) then mkDepths (k + 1) r p
  else if bool_decide (c = "]"%char) && (0 <? k) then mkDepths (k - 1) r p
  else if bool_decide (c = "{"%char) then mkDepths k (r + 1) p
  else if bool_decide (c = "}"%char) && (0 <? r) then mkDepths k (r - 1) p
  else if bool_decide (c = "("%char) then mkDepths k r (p + 1)
  else if bool_decide (c = ")"%char) && (0 <? p) then mkDepths k r (p - 1)
  else d.

Definition at_top (d : Depths) : bool := (BracketDepth d =? 0) && (BraceDepth d =? 0) && (ParenDepth d =? 0).

Fixpoint split_geo (d : Depths) (Current s : bytes) : list bytes :=
  match s with
  | [] => if bool_decide (Current = []) then [] else [trim_arg Current]
  | c :: r =>
      let d := nest d c in
      if bool_decide (c = ","%char) && at_top d then trim_arg Current :: split_geo d [] r
      else split_geo d (Current ++ [c]) r
  end.

Definition SplitGeoArgs (Input : bytes) : list bytes := split_geo (mkDepths 0 0 0) [] Input.

(** ** Geographical values *)

Record GeoPoint := mkPoint { Latitude : double; Longitude : double }.

Definition ends_with (suffix s : bytes) : bool :=
  (length suffix <=? length s)%nat && bool_decide (drop (length s - length suffix) s = suffix).

Definition chop (n : nat) (s : bytes) : bytes := take (length s - n) s.

(** The text without its unit, and the factor to kilometres. *)

Definition distance_unit (Text : bytes) : bytes * double :=
  if ends_with #"km" Text then (chop 2 Text, of_Z 1)
  else if ends_with #"mi" Text || ends_with #"mile" Text || ends_with #"miles" Text then
    (chop (if ends_with #"miles" Text then 5 else if ends_with #"mile" Text then 4 else 2) Text, literal 1609344 (-6))
  else if ends_with #"m" Text then (chop 1 Text, literal 1 (-3))
  else (Text, of_Z 1).

Definition TryParseGeoDistanceKM (Value : bytes) : option double :=
  let Text := LowerRankMetadataValue (TrimRankMetadataValue Value) in
  if bool_decide (Text = []) then None
  else
    let (Text, Multiplier) := distance_unit Text in
    match TryParseDoubleValue Text with
    | None => None
    | Some Parsed => if SFltb Parsed (of_Z 0) then None else Some (mul Parsed Multiplier)
    end.

Definition in_bounds (bound : Z) (d : double) : bool := SFleb (of_Z (- bound)) d && SFleb d (of_Z bound).

Definition IsValidGeoCoordinates (Lat Lon : double) : bool :=
  isfinite Lat && isfinite Lon && in_bounds 90 Lat && in_bounds 180 Lon.

Definition AssignIfValid (Lat Lon : double) : option GeoPoint :=
  if IsValidGeoCoordinates Lat Lon then Some (mkPoint Lat Lon) else None.

(** [is_number] and [get<double>]. *)

Definition number (j : json) : option double :=
  match j with JInteger z | JUnsigned z => Some (of_Z z) | JFloat d => Some d | _ => None end.

(** The member with this key; the objects of the library have each key once. *)

Fixpoint member (k : bytes) (l : list (bytes * json)) : option json :=
  match l with
  | [] => None
  | (k', v) :: r => if bool_decide (k' = k) then Some v else member k r
  end.

Fixpoint first_number (keys : list bytes) (l : list (bytes * json)) : option double :=
  match keys with
  | [] => None
  | k :: r => match member k l ≫= number with Some d => Some d | None => first_number r l end
  end.

(** The point of a JSON value; the outer [None] falls through to the plain text. *)

Definition json_point (j : json) : option (option GeoPoint) :=
  match j with
  | JArray (a :: b :: _) =>
      match number a, number b with Some Lat, Some Lon => Some (AssignIfValid Lat Lon) | _, _ => None end
  | JObject l =>
      match first_number [ #"lat"; #"latitude"] l, first_number [ #"lon"; #"lng"; #"longitude"] l with
      | Some Lat, Some Lon => Some (AssignIfValid Lat Lon)
      | _, _ => None
      end
  | _ => None
  end.

Definition text_point (Trimmed : bytes) : option GeoPoint :=
  let Normalized := (fun c => if bool_decide (c ∈ [";"%char; " "%char]) then ","%char else c) <$> Trimmed in
  match SplitGeoArgs Normalized with
  | a :: b :: _ =>
      match TryParseDoubleValue a, TryParseDoubleValue b with
      | Some Lat, Some Lon => AssignIfValid Lat Lon
      | _, _ => None
      end
  | _ => None
  end.

Section Calls.
Context `{Library}.

Definition TryParseGeoPointValue (Value : bytes) : option GeoPoint :=
  let Trimmed := TrimRankMetadataValue Value in
  if bool_decide (Trimmed = []) then None
  else match parse Trimmed ≫= json_point with
       | Some r => r
       | None => text_point Trimmed
       end.

(** The member of the JSON object in the field [fields], unless it is null. *)

Definition legacy_field (Document : list (bytes * bytes)) (Field : bytes) : option json :=
  match StdMap.find #"fields" Document with
  | None => None
  | Some s =>
      if bool_decide (s = []) then None
      else match parse s with
           | Some (JObject l) => match member Field l with Some JNull => None | r => r end
           | _ => None
           end
  end.

Definition text_of (j : json) : bytes := match j with JString s => s | _ => dump j end.

Definition TryGetGeoPointFromDocument (Document : list (bytes * bytes)) (Field : bytes) : option GeoPoint :=
  match StdMap.find Field Document ≫= TryParseGeoPointValue with
  | Some p => Some p
  | None => legacy_field Document Field ≫= fun j => TryParseGeoPointValue (text_of j)
  end.

(** ** Distances *)

Definition EarthRadiusKM : double := literal 63710088 (-4).

Definition Pi : double := literal 314159265358979323846 (-20).

Definition ToRadians (Degrees : double) : double := div (mul Degrees Pi) (of_Z 180).

Definition clamp01 (d : double) : double :=
  if SFltb d (of_Z 0) then of_Z 0 else if SFltb (of_Z 1) d then of_Z 1 else d.

Definition CalculateGeoDistance (P1 P2 : GeoPoint) : double :=
  let Lat1 := ToRadians (Latitude P1) in
  let Lat2 := ToRadians (Latitude P2) in
  let DeltaLat := ToRadians (sub (Latitude P2) (Latitude P1)) in
  let DeltaLon := ToRadians (sub (Longitude P2) (Longitude P1)) in
  let half d := sin (div d (of_Z 2)) in
  let RawA := add (mul (half DeltaLat) (half DeltaLat))
                  (mul (mul (mul (cos Lat1) (cos Lat2)) (half DeltaLon)) (half DeltaLon)) in
  let A := clamp01 RawA in
  let C := mul (of_Z 2) (atan2 (SFsqrt 53 1024 A) (SFsqrt 53 1024 (sub (of_Z 1) A))) in
  mul EarthRadiusKM C.

Record GeoRadius := mkRadius { Radius_Lat : double; Radius_Lon : double; RadiusKM : double; Radius_Enabled : bool }.

Record GeoBox := mkBox {
  TopLeftLat : double; TopLeftLon : double; BottomRightLat : double; BottomRightLon : double; Box_Enabled : bool
}.

Definition IsWithinGeoRadius (Point : GeoPoint) (Radius : GeoRadius) : bool :=
  if negb (Radius_Enabled Radius) || SFltb (RadiusKM Radius) (of_Z 0) then false
  else SFleb (CalculateGeoDistance Point (mkPoint (Radius_Lat Radius) (Radius_Lon Radius))) (RadiusKM Radius).

(** [std::max] and [std::min] return their first argument on a tie. *)

Definition fmax (a b : double) : double := if SFltb a b then b else a.
Definition fmin (a b : double) : double := if SFltb b a then b else a.

Definition IsWithinGeoBox (Point : GeoPoint) (Box : GeoBox) : bool :=
  if negb (Box_Enabled Box) then false
  else
    let North := fmax (TopLeftLat Box) (BottomRightLat Box) in
    let South := fmin (TopLeftLat Box) (BottomRightLat Box) in
    if negb (SFleb (Latitude Point) North && SFleb South (Latitude Point)) then false
    else
      let West := TopLeftLon Box in
      let East := BottomRightLon Box in
      if SFleb West East then SFleb West (Longitude Point) && SFleb (Longitude Point) East
      else SFleb West (Longitude Point) || SFleb (Longitude Point) East.

(** ** The calendar of [timegm] and [gmtime_r]

    Days since 1970-01-01 in the Gregorian calendar, by eras of 400 years that begin
    on the first of March. *)

Definition days_from_civil (y m d : Z) : Z :=
  let y := if m <=? 2 then y - 1 else y in
  let era := y / 400 in
  let yoe := y - era * 400 in
  let doy := (153 * (if 2 <? m then m - 3 else m + 9) + 2) / 5 + d - 1 in
  let doe := yoe * 365 + yoe / 4 - yoe / 100 + doy in
  era * 146097 + doe - 719468.

(** Year of the era, month and day of a day of an era. *)

Definition civil_of_era (doe : Z) : Z * Z * Z :=
  let yoe := (doe - doe / 1460 + doe / 36524 - doe / 146096) / 365 in
  let doy := doe - (365 * yoe + yoe / 4 - yoe / 100) in
  let mp := (5 * doy + 2) / 153 in
  (yoe, (if mp <? 10 then mp + 3 else mp - 9), doy - (153 * mp + 2) / 5 + 1).

Definition civil_from_days (z : Z) : Z * Z * Z :=
  let z := z + 719468 in
  let '(yoe, m, d) := civil_of_era (z mod 146097) in
  (yoe + z / 146097 * 400 + (if m <=? 2 then 1 else 0), m, d).

Definition timegm (t : tm) : Z :=
  days_from_civil (tm_year t + 1900 + tm_mon t / 12) (tm_mon t mod 12 + 1) 1 * 86400 +
  (tm_mday t - 1) * 86400 + tm_hour t * 3600 + tm_min t * 60 + tm_sec t.

Definition gmtime (s : Z) : tm :=
  let '(y, m, d) := civil_from_days (s / 86400) in
  let r := s mod 86400 in
  mkTm (y - 1900) (m - 1) d (r / 3600) (r / 60 mod 60) (r mod 60).

(** ** Time stamps *)

Definition u64 (z : Z) : Z := z mod 2 ^ 64.

(** Up to three digits after the point, filled up with zeros. *)

Definition fraction (working : bytes) : option (bytes * Z) :=
  match find_char (fun c => bool_decide (c = "."%char)) working with
  | None => Some (working, 0)
  | Some dot_pos =>
      let fractional := take 3 (drop (S dot_pos) working) in
      let fractional := fractional ++ replicate (3 - length fractional) "0"%char in
      if forallb isdigit fractional then Some (take dot_pos working, digits_val 10 fractional) else None
  end.

Definition drop_zone (trimmed : bytes) : bytes :=
  if bool_decide (last trimmed = Some "Z"%char) || bool_decide (last trimmed = Some "z"%char) then chop 1 trimmed else trimmed.

Definition TryParseISO8601TimestampToMs (value : bytes) : option Z :=
  let trimmed := trim blank value in
  if bool_decide (trimmed = []) then None
  else
    let trimmed :=
      if (quoted_by squote trimmed || quoted_by dquote trimmed) && (2 <=? length trimmed)%nat then unquote trimmed else trimmed in
    if (length trimmed <? 19)%nat then None
    else
      match fraction (drop_zone trimmed) with
      | None => None
      | Some (working, fractional_ms) =>
          if negb (bool_decide (length working = 19%nat)) then None
          else
            match get_time working with
            | None => None
            | Some tm_value =>
                let seconds := timegm tm_value in
                if seconds <? 0 then None else Some (u64 (seconds * 1000 + fractional_ms))
            end
      end.

(** The time point of a system clock in nanoseconds; [put_time] prints the years
    such a time point can have with four digits. *)

Definition wrap_int64 (z : Z) : Z := (z + 2 ^ 63) mod 2 ^ 64 - 2 ^ 63.

Definition put_time (t : tm) : bytes :=
  pad 4 (to_string (tm_year t + 1900)) ++ #"-" ++ pad 2 (to_string (tm_mon t + 1)) ++ #"-" ++ pad 2 (to_string (tm_mday t)) ++
  #"T" ++ pad 2 (to_string (tm_hour t)) ++ #":" ++ pad 2 (to_string (tm_min t)) ++ #":" ++ pad 2 (to_string (tm_sec t)).

Definition FormatTimestampMsAsISO8601 (timestamp_ms : Z) : bytes :=
  let time_t_val := Z.quot (wrap_int64 (wrap_int64 timestamp_ms * 1000000)) 1000000000 in
  put_time (gmtime time_t_val) ++ #"." ++ pad 3 (to_string (timestamp_ms mod 1000)) ++ #"Z".

End Calls.

End DocValues.
