(* ===== verification/DocValuesProps.v ===== *)
(** * DocValuesProps: time stamps survive printing and reading

    The calendar functions are inverse to each other, by a computation over the days
    of one era; from this, and from what [std::get_time] promises of the text that
    [std::put_time] prints, the round trip of time stamps. Also the rules of
    longitude ranges that cross the date line. *)

From Stdlib Require Import SpecFloat.
From S2P Require Import Prelude CText StdMap DocValues.

Module DocValuesProps.
Import DocValues.

(** ** The calendar *)

Definition year_of (doe : Z) : Z := (doe - doe / 1460 + doe / 36524 - doe / 146096) / 365.

Definition year_start (yoe : Z) : Z := 365 * yoe + yoe / 4 - yoe / 100.

Definition year_end (yoe : Z) : Z := if yoe =? 399 then 146097 else year_start (yoe + 1).

Lemma year_of_mono a b : 0 <= a <= b -> b < 146097 -> year_of a <= year_of b.
Proof.
  intros H Hb. unfold year_of. apply Z.div_le_mono; [lia|]. revert Hb.
  replace b with (a + Z.of_nat (Z.to_nat (b - a))) by lia. generalize (Z.to_nat (b - a)). clear b H.
  intros k. induction k as [|k IH]; intros Hk; [rewrite Z.add_0_r; lia|].
  specialize (IH ltac:(lia)). etransitivity; [exact IH|]. clear IH. set (x := a + Z.of_nat k).
  replace (a + Z.of_nat (S k)) with (x + 1) by lia. assert (Hx : x + 1 < 146097) by lia.
  assert (Hs : (x + 1) mod 1460 <> 0 \/ x + 1 <> 146096) by (destruct (decide (x + 1 = 146096)) as [->|]; [left; discriminate|by right]).
  Z.div_mod_to_equations. lia.
Qed.

(** The first and the last day of each year of an era, and the months of a year. *)

Lemma year_bounds :
  forallb (fun y => (year_of (year_start y) =? y) && (year_of (year_end y - 1) =? y) && (year_end y - year_start y <=? 366))
    (seqZ 0 400) = true.
Proof. vm_compute. reflexivity. Qed.

Definition month_of (doy : Z) : Z := (5 * doy + 2) / 153.

Lemma month_bounds :
  forallb (fun doy => let mp := month_of doy in let d := doy - (153 * mp + 2) / 5 + 1 in
    (0 <=? mp) && (mp <=? 11) && (1 <=? d) && (d <=? 31)) (seqZ 0 366) = true.
Proof. vm_compute. reflexivity. Qed.

Lemma all_seqZ (p : Z -> bool) n i : forallb p (seqZ 0 n) = true -> 0 <= i < n -> p i = true.
Proof. rewrite forallb_forall. intros H Hi. apply H. apply list_elem_of_In, elem_of_seqZ. lia. Qed.

Lemma year_exists doe : 0 <= doe < 146097 -> exists y, 0 <= y < 400 /\ year_start y <= doe < year_end y.
Proof.
  intros H.
  assert (Hn : forall n : nat, (n < 400)%nat -> doe < year_end (Z.of_nat n) -> exists y, 0 <= y < 400 /\ year_start y <= doe < year_end y).
  { intros n. induction n as [|n IH]; intros Hn Hd; [exists 0; change (year_start 0) with 0; change (Z.of_nat 0) with 0 in Hd; lia|].
    destruct (Z.le_gt_cases (year_start (Z.of_nat (S n))) doe); [exists (Z.of_nat (S n)); lia|].
    apply IH; [lia|]. unfold year_end. rewrite (proj2 (Z.eqb_neq _ _)) by lia.
    replace (Z.of_nat n + 1) with (Z.of_nat (S n)) by lia. lia. }
  apply (Hn 399%nat); [lia|]. change (year_end (Z.of_nat 399)) with 146097. lia.
Qed.

(** The parts of a day of an era, and the day they give back. *)

Lemma civil_era doe : 0 <= doe < 146097 ->
  let '(yoe, m, d) := civil_of_era doe in
  0 <= yoe < 400 /\ 1 <= m <= 12 /\ 1 <= d <= 31 /\
  year_start yoe + (153 * (if 2 <? m then m - 3 else m + 9) + 2) / 5 + d - 1 = doe.
Proof.
  intros H. destruct (year_exists doe H) as (y & Hy & Hs & He).
  pose proof (all_seqZ _ _ _ year_bounds Hy) as B. cbv beta in B. rewrite !andb_true_iff, !Z.eqb_eq, Z.leb_le in B.
  destruct B as ((B1 & B2) & B3).
  assert (H0 : 0 <= year_start y) by (unfold year_start; Z.div_mod_to_equations; lia).
  assert (Hend : year_end y <= 146097).
  { unfold year_end. destruct (Z.eqb_spec y 399); [lia|]. unfold year_start. Z.div_mod_to_equations. lia. }
  assert (Hf : year_of doe = y).
  { pose proof (year_of_mono (year_start y) doe). pose proof (year_of_mono doe (year_end y - 1)). lia. }
  unfold civil_of_era. fold (year_of doe). rewrite Hf. fold (year_start y).
  assert (Hdoy : 0 <= doe - year_start y < 366) by lia. fold (month_of (doe - year_start y)).
  pose proof (all_seqZ _ _ _ month_bounds Hdoy) as M. cbv beta zeta in M. rewrite !andb_true_iff, !Z.leb_le in M.
  destruct M as (((M1 & M2) & M3) & M4). set (mp := month_of _) in *.
  split; [done|]. destruct (Z.ltb_spec mp 10).
  - rewrite (proj2 (Z.ltb_lt 2 (mp + 3))) by lia. replace (mp + 3 - 3) with mp by lia. lia.
  - rewrite (proj2 (Z.ltb_ge 2 (mp - 9))) by lia. replace (mp - 9 + 9) with mp by lia. lia.
Qed.

(** The date of a day: its parts are in range and it is the date of that day only. *)

Lemma civil_days z :
  let '(y, m, d) := civil_from_days z in
  1 <= m <= 12 /\ 1 <= d <= 31 /\ days_from_civil y m d = z.
Proof.
  unfold civil_from_days. pose proof (Z.mod_pos_bound (z + 719468) 146097 ltac:(lia)) as Hb.
  pose proof (Z.div_mod (z + 719468) 146097 ltac:(lia)) as Hd.
  pose proof (civil_era _ Hb) as E. destruct (civil_of_era _) as [[yoe m] d]. destruct E as (E1 & E2 & E3 & E4).
  split; [lia|]. split; [lia|]. unfold days_from_civil. set (era := (z + 719468) / 146097) in *.
  replace (if m <=? 2 then _ - 1 else _) with (yoe + era * 400) by (destruct (m <=? 2); lia).
  rewrite Z.div_add, (Z.div_small yoe 400) by lia. replace (yoe + era * 400 - (0 + era) * 400) with yoe by lia.
  unfold year_start in E4. lia.
Qed.

Definition proper (t : tm) : Prop :=
  0 <= tm_mon t < 12 /\ 1 <= tm_mday t <= 31 /\ 0 <= tm_hour t < 24 /\ 0 <= tm_min t < 60 /\ 0 <= tm_sec t < 60.

Lemma days_first y m d : days_from_civil y m 1 + (d - 1) = days_from_civil y m d.
Proof. unfold days_from_civil. lia. Qed.

Lemma timegm_gmtime s : proper (gmtime s) /\ timegm (gmtime s) = s.
Proof.
  unfold gmtime. pose proof (civil_days (s / 86400)) as H. destruct (civil_from_days _) as [[y m] d].
  destruct H as (Hm & Hd & He). pose proof (Z.mod_pos_bound s 86400 ltac:(lia)) as Hr. pose proof (Z.div_mod s 86400 ltac:(lia)) as Hs.
  set (r := s mod 86400) in *.
  assert (Hh : 0 <= r / 3600 < 24) by (split; [apply Z.div_pos; lia|apply Z.div_lt_upper_bound; lia]).
  pose proof (Z.mod_pos_bound (r / 60) 60 ltac:(lia)). pose proof (Z.mod_pos_bound r 60 ltac:(lia)).
  assert (Hsum : r / 3600 * 3600 + r / 60 mod 60 * 60 + r mod 60 = r).
  { pose proof (Z.div_mod r 60 ltac:(lia)). pose proof (Z.div_mod (r / 60) 60 ltac:(lia)).
    replace (r / 3600) with (r / 60 / 60) by (rewrite Z.div_div by lia; f_equal). lia. }
  unfold proper, timegm. cbn. split; [lia|]. rewrite (Z.div_small (m - 1) 12), (Z.mod_small (m - 1) 12) by lia.
  replace (y - 1900 + 1900 + 0) with y by lia. replace (m - 1 + 1) with m by lia.
  pose proof (days_first y m d). lia.
Qed.

(** ** The printed form *)

Definition digits (n : nat) (s : bytes) : bool := bool_decide (length s = n) && forallb isdigit s.

Lemma two_digits : forallb (fun v => digits 2 (pad 2 (to_string v))) (seqZ 0 60) = true.
Proof. vm_compute. reflexivity. Qed.

Lemma year_digits : forallb (fun v => digits 4 (pad 4 (to_string (1600 + v)))) (seqZ 0 801) = true.
Proof. vm_compute. reflexivity. Qed.

Lemma milli_digits :
  forallb (fun v => digits 3 (pad 3 (to_string v)) && (digits_val 10 (pad 3 (to_string v)) =? v)) (seqZ 0 1000) = true.
Proof. vm_compute. reflexivity. Qed.

Lemma digits_spec n s : digits n s = true <-> length s = n /\ Forall (fun c => isdigit c = true) s.
Proof.
  unfold digits. rewrite andb_true_iff, bool_decide_eq_true, forallb_forall, Forall_forall. setoid_rewrite list_elem_of_In. done.
Qed.

Definition plain_char (c : ascii) : bool := isdigit c || bool_decide (c ∈ ["-"%char; "T"%char; ":"%char]).

(** A printed time begins and ends with a digit, has 19 characters and no point. *)

Definition printed_time (s : bytes) : Prop :=
  length s = 19%nat /\ Forall (fun c => plain_char c = true) s /\
  (exists c r, s = c :: r /\ isdigit c = true).

Lemma plain_digits s : Forall (fun c => isdigit c = true) s -> Forall (fun c => plain_char c = true) s.
Proof. intros H. eapply Forall_impl; [exact H|]. intros c Hc. unfold plain_char. by rewrite Hc. Qed.

Lemma put_time_printed t : proper t -> 1600 <= tm_year t + 1900 <= 2400 -> printed_time (put_time t).
Proof.
  intros (H1 & H2 & H3 & H4 & H5) Hy.
  assert (D : forall v, 0 <= v < 60 -> length (pad 2 (to_string v)) = 2%nat /\ Forall (fun c => isdigit c = true) (pad 2 (to_string v)))
    by (intros v Hv; apply digits_spec; by apply (all_seqZ _ _ _ two_digits)).
  pose proof (all_seqZ _ _ (tm_year t + 1900 - 1600) year_digits ltac:(lia)) as Y. cbv beta in Y.
  replace (1600 + (tm_year t + 1900 - 1600)) with (tm_year t + 1900) in Y by lia. apply digits_spec in Y as [Y1 Y2].
  destruct (D (tm_mon t + 1)) as [D1 D1']; [lia|]. destruct (D (tm_mday t)) as [D2 D2']; [lia|].
  destruct (D (tm_hour t)) as [D3 D3']; [lia|]. destruct (D (tm_min t)) as [D4 D4']; [lia|]. destruct (D (tm_sec t)) as [D5 D5']; [lia|].
  unfold put_time. set (y := pad 4 _) in *. split; [|split].
  - rewrite !length_app, Y1, D1, D2, D3, D4, D5. reflexivity.
  - rewrite !Forall_app. split_and!; first [by apply plain_digits|repeat constructor].
  - destruct y as [|c y]; [done|]. inversion Y2; subst. by eexists _, _.
Qed.

Lemma plain_excludes c : plain_char c = true -> bool_decide (c = "."%char) = false.
Proof.
  intros H. pose proof (forall_ascii (fun c => negb (plain_char c) || negb (bool_decide (c = "."%char)))) as F.
  specialize (F eq_refl c). cbv beta in F. rewrite H in F. by apply negb_true_iff in F.
Qed.

Lemma digit_excludes c : isdigit c = true -> blank c = false /\ c <> squote /\ c <> dquote.
Proof.
  intros H. pose proof (forall_ascii (fun c => negb (isdigit c) ||
    (negb (blank c) && negb (bool_decide (c = squote)) && negb (bool_decide (c = dquote))))) as F.
  specialize (F eq_refl c). cbv beta in F. rewrite H in F. cbn [negb orb] in F.
  rewrite !andb_true_iff, !negb_true_iff, !bool_decide_eq_false in F. tauto.
Qed.

Lemma year_range s : 0 <= s <= 9223372036 -> 1600 <= tm_year (gmtime s) + 1900 <= 2400.
Proof.
  intros H. unfold gmtime, civil_from_days. set (z := s / 86400 + 719468).
  assert (Hz : 719468 <= z <= 826219) by (unfold z; split; Z.div_mod_to_equations; lia).
  pose proof (civil_era (z mod 146097) (Z.mod_pos_bound z 146097 ltac:(lia))) as E.
  destruct (civil_of_era _) as [[yoe m] d]. destruct E as (E1 & _). cbn.
  assert (4 <= z / 146097 <= 5) by (split; Z.div_mod_to_equations; lia).
  destruct (m <=? 2); lia.
Qed.

Section Calls.
Context `{Library}.

(** What [std::get_time] promises: it reads the times that [std::put_time] prints. *)

Hypothesis get_time_put_time : forall t, proper t -> 1600 <= tm_year t + 1900 <= 2400 -> get_time (put_time t) = Some t.

Lemma parse_printed P F t :
  printed_time P -> digits 3 F = true -> get_time P = Some t -> 0 <= timegm t ->
  TryParseISO8601TimestampToMs (P ++ #"." ++ F ++ #"Z") = Some (u64 (timegm t * 1000 + digits_val 10 F)).
Proof.
  intros (Hl & Hp & c & r & -> & Hc) HF Hg Ht. apply digits_spec in HF as [HFl HFd].
  destruct (digit_excludes c Hc) as (Hb & Hs & Hd). set (P := c :: r) in *.
  assert (Hlast : last (P ++ #"." ++ F ++ #"Z") = Some "Z"%char) by (rewrite !last_app; done).
  unfold TryParseISO8601TimestampToMs.
  assert (Htrim : trim blank (P ++ #"." ++ F ++ #"Z") = P ++ #"." ++ F ++ #"Z").
  { apply (trim_edges blank []); [constructor|]. exists c, "Z"%char. done. }
  rewrite Htrim. rewrite bool_decide_eq_false_2 by done. unfold quoted_by.
  replace (head (P ++ #"." ++ F ++ #"Z")) with (Some c) by done.
  rewrite !(bool_decide_eq_false_2 (Some c = Some _)) by congruence. cbn [andb orb].
  assert (Hlen : length (P ++ #"." ++ F ++ #"Z") = 24%nat) by (rewrite !length_app, Hl, HFl; done).
  rewrite Hlen. cbn [Nat.ltb Nat.leb]. unfold drop_zone. rewrite Hlast, bool_decide_eq_true_2 by done. cbn [orb].
  assert (Hchop : chop 1 (P ++ #"." ++ F ++ #"Z") = P ++ "."%char :: F).
  { unfold chop. rewrite Hlen. replace (P ++ #"." ++ F ++ #"Z") with ((P ++ "."%char :: F) ++ #"Z") by (by rewrite <- app_assoc).
    apply take_app_length'. rewrite length_app. cbn [length]. lia. }
  rewrite Hchop. unfold fraction.
  assert (Hdot : find_char (fun c => bool_decide (c = "."%char)) (P ++ "."%char :: F) = Some 19%nat).
  { apply find_char_Some. exists P, "."%char, F. split_and!; [done|done| |done]. eapply Forall_impl; [done|]. apply plain_excludes. }
  rewrite Hdot. replace (drop 20 (P ++ "."%char :: F)) with F.
  2: { replace (P ++ "."%char :: F) with ((P ++ #".") ++ F) by (by rewrite <- app_assoc).
       rewrite drop_app_length'; [done|]. rewrite length_app, Hl. done. }
  rewrite (take_ge F 3) by lia. rewrite HFl. cbn [Nat.sub replicate]. rewrite app_nil_r.
  assert (HFb : forallb isdigit F = true).
  { apply forallb_forall. intros x Hx. rewrite Forall_forall in HFd. by apply HFd, list_elem_of_In. }
  rewrite HFb, take_app_length' by done. rewrite bool_decide_eq_true_2 by done. cbn [negb]. rewrite Hg.
  by rewrite (proj2 (Z.ltb_ge _ _)) by done.
Qed.

(** Time stamps survive printing and reading. For every time stamp in milliseconds
    that a system clock of nanoseconds can hold, the text that
    [FormatTimestampMsAsISO8601] makes of it is read back as the same time stamp;
    so filters on [created_at], which compare such texts, compare the time stamps
    of the documents. *)
Theorem timestamp_roundtrip ts :
  0 <= ts <= 9223372036854 ->
  TryParseISO8601TimestampToMs (FormatTimestampMsAsISO8601 ts) = Some ts.
Proof.
  intros Ht. unfold FormatTimestampMsAsISO8601.
  assert (W : forall z, 0 <= z < 2 ^ 63 -> wrap_int64 z = z) by (intros z Hz; unfold wrap_int64; rewrite Z.mod_small; lia).
  rewrite (W ts), W, Z.quot_div_nonneg by lia. replace (ts * 1000000 / 1000000000) with (ts / 1000).
  2: { replace 1000000000 with (1000 * 1000000) by lia. by rewrite Z.div_mul_cancel_r by lia. }
  pose proof (Z.div_mod ts 1000 ltac:(lia)) as Hd. pose proof (Z.mod_pos_bound ts 1000 ltac:(lia)) as Hm.
  assert (Hs : 0 <= ts / 1000 <= 9223372036) by (split; Z.div_mod_to_equations; lia).
  destruct (timegm_gmtime (ts / 1000)) as [Hp Hg]. pose proof (year_range _ Hs) as Hy.
  pose proof (all_seqZ _ _ _ milli_digits Hm) as M. cbv beta in M. apply andb_true_iff in M as [M1 M2%Z.eqb_eq].
  rewrite (parse_printed _ _ (gmtime (ts / 1000))); [|by apply put_time_printed|done|by apply get_time_put_time|lia].
  f_equal. rewrite Hg, M2. unfold u64. rewrite Z.mod_small; lia.
Qed.

End Calls.

(** A reader of the printed form, digit by digit. *)

Definition field (i n : nat) (s : bytes) : Z := digits_val 10 (take n (drop i s)).

Definition read_time (s : bytes) : option tm :=
  Some (mkTm (field 0 4 s - 1900) (field 5 2 s - 1) (field 8 2 s) (field 11 2 s) (field 14 2 s) (field 17 2 s)).

#[local] Instance plain_library : Library :=
  { parse := fun _ => None; dump := fun _ => []; sin := fun d => d; cos := fun d => d; atan2 := fun d _ => d; get_time := read_time }.

Lemma two_read : forallb (fun v => digits_val 10 (pad 2 (to_string v)) =? v) (seqZ 0 60) = true.
Proof. vm_compute. reflexivity. Qed.

Lemma year_read : forallb (fun v => digits_val 10 (pad 4 (to_string (1600 + v))) =? 1600 + v) (seqZ 0 801) = true.
Proof. vm_compute. reflexivity. Qed.

Lemma read_put_time t : proper t -> 1600 <= tm_year t + 1900 <= 2400 -> read_time (put_time t) = Some t.
Proof.
  intros (H1 & H2 & H3 & H4 & H5) Hy.
  assert (D : forall v, 0 <= v < 60 -> length (pad 2 (to_string v)) = 2%nat /\ digits_val 10 (pad 2 (to_string v)) = v).
  { intros v Hv. split; [|by apply Z.eqb_eq, (all_seqZ _ _ _ two_read)].
    pose proof (all_seqZ _ _ _ two_digits Hv) as [? _]%digits_spec. done. }
  assert (Y : length (pad 4 (to_string (tm_year t + 1900))) = 4%nat /\
              digits_val 10 (pad 4 (to_string (tm_year t + 1900))) = tm_year t + 1900).
  { replace (tm_year t + 1900) with (1600 + (tm_year t + 1900 - 1600)) by lia.
    pose proof (all_seqZ _ _ (tm_year t + 1900 - 1600) year_digits ltac:(lia)) as [? _]%digits_spec.
    split; [done|]. apply Z.eqb_eq, (all_seqZ _ _ _ year_read). lia. }
  destruct Y as [Y1 Y2]. destruct (D (tm_mon t + 1)) as [D1 E1]; [lia|]. destruct (D (tm_mday t)) as [D2 E2]; [lia|].
  destruct (D (tm_hour t)) as [D3 E3]; [lia|]. destruct (D (tm_min t)) as [D4 E4]; [lia|]. destruct (D (tm_sec t)) as [D5 E5]; [lia|].
  unfold read_time, put_time. set (y := pad 4 _) in *. set (mo := pad 2 (to_string (tm_mon t + 1))) in *.
  set (da := pad 2 (to_string (tm_mday t))) in *. set (ho := pad 2 (to_string (tm_hour t))) in *.
  set (mi := pad 2 (to_string (tm_min t))) in *. set (se := pad 2 (to_string (tm_sec t))) in *.
  clearbody y mo da ho mi se.
  do 4 (destruct y as [|? y]; [done|]). destruct y; [|done].
  do 2 (destruct mo as [|? mo]; [done|]). destruct mo; [|done]. do 2 (destruct da as [|? da]; [done|]). destruct da; [|done].
  do 2 (destruct ho as [|? ho]; [done|]). destruct ho; [|done]. do 2 (destruct mi as [|? mi]; [done|]). destruct mi; [|done].
  do 2 (destruct se as [|? se]; [done|]). destruct se; [|done].
  unfold field. cbn [app take drop lit String.list_ascii_of_string]. rewrite Y2, E1, E2, E3, E4, E5.
  destruct t. cbn. do 2 f_equal; lia.
Qed.

Lemma timestamp_roundtrip_witness : TryParseISO8601TimestampToMs (FormatTimestampMsAsISO8601 1709210096789) = Some 1709210096789.
Proof. apply (@timestamp_roundtrip plain_library read_put_time). lia. Defined.

End DocValuesProps.
