(* ===== verification/FilterEval.v ===== *)
(** * FilterEval: SearchAPI::EvaluateFilterCondition of src/api/utils.cpp

    The value of one filter condition on a document. Numbers are compared as
    doubles when both sides are numbers, time stamps as milliseconds when both are
    time stamps, and everything else as text. *)

From Stdlib Require Import SpecFloat.
From S2P Require Import Prelude CText StdMap Wildcard FilterLang DocValues.

Module FilterEval.
Import FilterLang DocValues.

Section Calls.
Context `{Library}.

(** ** Geographical conditions *)

Definition geo_radius (Document : list (bytes * bytes)) (v : bytes) : bool :=
  match SplitGeoArgs v with
  | f :: a :: b :: r :: _ =>
      match TryParseDoubleValue a, TryParseDoubleValue b, TryParseGeoDistanceKM r with
      | Some Lat, Some Lon, Some KM =>
          if negb (IsValidGeoCoordinates Lat Lon) then false
          else match TryGetGeoPointFromDocument Document f with
               | None => false
               | Some Point => IsWithinGeoRadius Point (mkRadius Lat Lon KM true)
               end
      | _, _, _ => false
      end
  | _ => false
  end.

Definition geo_box (Document : list (bytes * bytes)) (v : bytes) : bool :=
  match SplitGeoArgs v with
  | f :: a :: b :: c :: d :: _ =>
      match TryParseDoubleValue a, TryParseDoubleValue b, TryParseDoubleValue c, TryParseDoubleValue d with
      | Some tla, Some tlo, Some bra, Some bro =>
          if negb (IsValidGeoCoordinates tla tlo) || negb (IsValidGeoCoordinates bra bro) then false
          else match TryGetGeoPointFromDocument Document f with
               | None => false
               | Some Point => IsWithinGeoBox Point (mkBox tla tlo bra bro true)
               end
      | _, _, _, _ => false
      end
  | _ => false
  end.

(** ** The value of a field

    [std::to_string] of the JSON member, or the time stamp of the document for the
    field [created_at]; the empty text stands for no value. *)

Definition derived_text (j : json) : bytes :=
  match j with
  | JString s => s
  | JInteger z => to_string z
  | JUnsigned z => to_string (wrap_int64 z)
  | JFloat d => fixed6 d
  | JBool b => if b then #"true" else #"false"
  | _ => dump j
  end.

Definition DerivedFieldValue (Document : list (bytes * bytes)) (f : bytes) : bytes :=
  match StdMap.find f Document with
  | Some _ => []
  | None =>
      let d := from_option derived_text [] (legacy_field Document f) in
      if bool_decide (d = []) && bool_decide (f = #"created_at") then
        match StdMap.find #"timestamp" Document ≫= stoull with
        | Some (timestamp_ms, _) => FormatTimestampMsAsISO8601 timestamp_ms
        | None => d
        end
      else d
  end.

Definition FieldValue (Document : list (bytes * bytes)) (f : bytes) : bytes :=
  match StdMap.find f Document with
  | Some v => v
  | None => DerivedFieldValue Document f
  end.

(** ** Comparisons *)

Definition TryParseDouble (v : bytes) : option double :=
  match stod v with
  | Some (Number, Consumed) => if bool_decide (Consumed = length v) then Some Number else None
  | None => None
  end.

Inductive Order := Less | LessEqual | Greater | GreaterEqual.

Definition num_holds (o : Order) (a b : double) : bool :=
  match o with Less => SFltb a b | LessEqual => SFleb a b | Greater => SFltb b a | GreaterEqual => SFleb b a end.

Definition ms_holds (o : Order) (a b : Z) : bool :=
  match o with Less => a <? b | LessEqual => a <=? b | Greater => b <? a | GreaterEqual => b <=? a end.

Definition text_holds (o : Order) (a b : bytes) : bool :=
  match o with
  | Less => str_ltb a b | LessEqual => str_leb a b | Greater => str_ltb b a | GreaterEqual => str_leb b a
  end.

Definition compare_values (o : Order) (f v : bytes) : bool :=
  match TryParseDouble f, TryParseDouble v with
  | Some a, Some b => num_holds o a b
  | _, _ =>
      match TryParseISO8601TimestampToMs f, TryParseISO8601TimestampToMs v with
      | Some a, Some b => ms_holds o a b
      | _, _ => text_holds o f v
      end
  end.

Definition equal_values (f v : bytes) : bool :=
  match TryParseISO8601TimestampToMs f, TryParseISO8601TimestampToMs v with
  | Some a, Some b => a =? b
  | _, _ => bool_decide (f = v)
  end.

(** A bound of a range: open, readable in the given way, or not. *)

Inductive Bound (A : Type) := Open | Known (a : A) | Unknown.
Arguments Open {A}.
Arguments Known {A} a.
Arguments Unknown {A}.

Definition read_bound {A} (read : bytes -> option A) (s : bytes) : Bound A :=
  if bool_decide (s = #"*") then Open else match read s with Some a => Known a | None => Unknown end.

Definition readable {A} (b : Bound A) : bool := match b with Unknown => false | _ => true end.

Definition within {A} (holds : A -> bool) (b : Bound A) : bool := match b with Known a => holds a | _ => true end.

Definition range_holds (Inclusive : bool) (f RangeMin RangeMax : bytes) : bool :=
  let lo := if Inclusive then GreaterEqual else Greater in
  let hi := if Inclusive then LessEqual else Less in
  let text :=
    within (text_holds lo f) (read_bound Some RangeMin) && within (text_holds hi f) (read_bound Some RangeMax) in
  let stamps :=
    let mn := read_bound TryParseISO8601TimestampToMs RangeMin in
    let mx := read_bound TryParseISO8601TimestampToMs RangeMax in
    match TryParseISO8601TimestampToMs f with
    | Some a => if readable mn && readable mx then within (ms_holds lo a) mn && within (ms_holds hi a) mx else text
    | None => text
    end in
  let mn := read_bound TryParseDouble RangeMin in
  let mx := read_bound TryParseDouble RangeMax in
  match TryParseDouble f with
  | Some a => if readable mn && readable mx then within (num_holds lo a) mn && within (num_holds hi a) mx else stamps
  | None => stamps
  end.

(** The texts before and after the first comma. *)

Definition split_range (v : bytes) : option (bytes * bytes) :=
  match find_char (fun c => bool_decide (c = ","%char)) v with
  | None => None
  | Some n => Some (take n v, drop (S n) v)
  end.

Definition ToLowerCopy (s : bytes) : bytes := tolower <$> s.

Definition like_holds (op f v : bytes) : bool :=
  let m := if bool_decide (op ∈ [ #"ILIKE"; #"NOT_ILIKE"]) then Wildcard.Match (ToLowerCopy f) (ToLowerCopy v) else Wildcard.Match f v in
  if bool_decide (op ∈ [ #"NOT_LIKE"; #"NOT_ILIKE"]) then negb m else m.

(** ** The whole evaluation *)

Definition EvaluateFilterCondition (Document : list (bytes * bytes)) (Condition : FilterCondition) : bool :=
  let op := Op Condition in
  let v := Value Condition in
  if bool_decide (op = #"GEO_RADIUS") then geo_radius Document v
  else if bool_decide (op = #"GEO_BOX") then geo_box Document v
  else
    let DocumentIt := StdMap.find (Field Condition) Document in
    let Derived := DerivedFieldValue Document (Field Condition) in
    let no_derived := bool_decide (Derived = []) in
    if bool_decide (op = #"ISNULL") then
      match DocumentIt with Some s => bool_decide (s = []) | None => no_derived end
    else if bool_decide (op = #"ISNOTNULL") then
      match DocumentIt with Some s => negb (bool_decide (s = [])) | None => false end || negb no_derived
    else if bool_decide (DocumentIt = None) && no_derived then false
    else
      let f := FieldValue Document (Field Condition) in
      if bool_decide (op ∈ [ #"LIKE"; #"ILIKE"; #"NOT_LIKE"; #"NOT_ILIKE"]) then like_holds op f v
      else if bool_decide (op = #"RANGE_INCLUSIVE") || bool_decide (op = #"RANGE_EXCLUSIVE") then
        match split_range v with
        | None => false
        | Some (RangeMin, RangeMax) => range_holds (bool_decide (op = #"RANGE_INCLUSIVE")) f RangeMin RangeMax
        end
      else if bool_decide (op = #"=") || bool_decide (op = #":=") then equal_values f v
      else if bool_decide (op = #"!=") then negb (equal_values f v)
      else if bool_decide (op = #">") then compare_values Greater f v
      else if bool_decide (op = #">=") then compare_values GreaterEqual f v
      else if bool_decide (op = #"<") then compare_values Less f v
      else if bool_decide (op = #"<=") then compare_values LessEqual f v
      else false.

End Calls.

End FilterEval.
