(* ===== verification/FilterEvalProps.v ===== *)
(** * FilterEvalProps: the operators of filter conditions

    Comparison of doubles as a total preorder off NaN ([compare_double]), the
    consistency of the operators with each other, and ranges as conjunctions. *)

From Stdlib Require Import SpecFloat.
From S2P Require Import Prelude CText StdMap Wildcard FilterLang DocValues FilterEval.

Module FilterEvalProps.
Import FilterLang DocValues FilterEval.

(** ** The order of doubles *)

(** Class, exponent and mantissa, so that the order is lexicographic. *)

Definition rank3 (d : spec_float) : Z * Z * Z :=
  match d with
  | S754_infinity true => (-2, 0, 0)
  | S754_finite true m e => (-1, - e, - Zpos m)
  | S754_zero _ => (0, 0, 0)
  | S754_finite false m e => (1, e, Zpos m)
  | S754_infinity false => (2, 0, 0)
  | S754_nan => (3, 0, 0)
  end.

Definition compare3 (a b : Z * Z * Z) : comparison :=
  match a.1.1 ?= b.1.1 with
  | Eq => match a.1.2 ?= b.1.2 with Eq => a.2 ?= b.2 | r => r end
  | r => r
  end.

Definition is_nan (d : spec_float) : bool := match d with S754_nan => true | _ => false end.

Lemma SFcompare_rank a b :
  is_nan a = false -> is_nan b = false -> SFcompare a b = Some (compare3 (rank3 a) (rank3 b)).
Proof.
  assert (Ho : forall x y, (- x ?= - y) = CompOpp (x ?= y)) by (intros x y; rewrite Z.compare_opp, Z.compare_antisym; done).
  destruct a as [[]|[]| |[] ma ea], b as [[]|[]| |[] mb eb]; try done; intros _ _; unfold compare3; cbn.
  f_equal. change (Z.neg ma) with (- Z.pos ma). change (Z.neg mb) with (- Z.pos mb). rewrite !Ho. by destruct (ea ?= eb).
Qed.

Lemma compare3_antisym a b : compare3 b a = CompOpp (compare3 a b).
Proof.
  unfold compare3. rewrite (Z.compare_antisym a.1.1), (Z.compare_antisym a.1.2), (Z.compare_antisym a.2).
  by destruct (a.1.1 ?= b.1.1), (a.1.2 ?= b.1.2), (a.2 ?= b.2).
Qed.

Lemma compare3_trans a b c :
  compare3 a b <> Gt -> compare3 b c <> Gt ->
  compare3 a c <> Gt /\ (compare3 a c = Eq -> compare3 a b = Eq /\ compare3 b c = Eq).
Proof.
  destruct a as [[a1 a2] a3], b as [[b1 b2] b3], c as [[c1 c2] c3]. unfold compare3. cbn.
  destruct (Z.compare_spec a1 b1), (Z.compare_spec b1 c1), (Z.compare_spec a1 c1); try lia; subst; try done;
  destruct (Z.compare_spec a2 b2), (Z.compare_spec b2 c2), (Z.compare_spec a2 c2); try lia; subst; try done;
  destruct (Z.compare_spec a3 b3), (Z.compare_spec b3 c3), (Z.compare_spec a3 c3); try lia; done.
Qed.

Lemma SF_complement a b :
  is_nan a = false -> is_nan b = false -> SFleb a b = negb (SFltb b a) /\ (SFltb a b = true -> SFltb b a = false).
Proof.
  intros Ha Hb. unfold SFleb, SFltb. rewrite !SFcompare_rank by done. rewrite (compare3_antisym (rank3 a) (rank3 b)).
  by destruct (compare3 _ _).
Qed.

Lemma str_complement a b : str_leb a b = negb (str_ltb b a) /\ (str_ltb a b = true -> str_ltb b a = false).
Proof. unfold str_leb, str_ltb. rewrite (str_compare_antisym a b). by destruct (str_compare a b). Qed.

Lemma ms_complement a b : (a <=? b) = negb (b <? a) /\ ((a <? b) = true -> (b <? a) = false).
Proof. split; [apply Z.leb_antisym|]. rewrite Z.ltb_lt, Z.ltb_ge. lia. Qed.

Section Calls.
Context `{Library}.

(** ** The operators are consistent *)

Definition not_nan (s : bytes) : Prop := from_option (fun d => is_nan d = false) True (TryParseDouble s).

Lemma compare_complement f v :
  not_nan f -> not_nan v ->
  compare_values GreaterEqual f v = negb (compare_values Less f v) /\
  compare_values LessEqual f v = negb (compare_values Greater f v) /\
  (compare_values Less f v = true -> compare_values Greater f v = false).
Proof.
  unfold not_nan, compare_values. intros Hf Hv.
  destruct (TryParseDouble f) as [a|], (TryParseDouble v) as [b|]; cbn in Hf, Hv.
  1: { destruct (SF_complement a b Hf Hv) as [A1 A2], (SF_complement b a Hv Hf) as [B1 _]. by split_and!. }
  all: destruct (TryParseISO8601TimestampToMs f) as [x|], (TryParseISO8601TimestampToMs v) as [y|]; cbn [ms_holds text_holds].
  all: first [destruct (ms_complement x y) as [A1 A2], (ms_complement y x) as [B1 _]; by split_and!
             |destruct (str_complement f v) as [A1 A2], (str_complement v f) as [B1 _]; by split_and!].
Qed.

(** The condition [field op value], and the evaluation with the operator known. *)

Definition condition (f op v : bytes) : FilterCondition := mkCondition f op v [].

Definition has_value (Document : list (bytes * bytes)) (f : bytes) : Prop :=
  StdMap.find f Document <> None \/ DerivedFieldValue Document f <> [].

Lemma no_value Document f : ~ has_value Document f <-> StdMap.find f Document = None /\ DerivedFieldValue Document f = [].
Proof.
  unfold has_value. destruct (StdMap.find f Document), (DerivedFieldValue Document f); naive_solver.
Qed.

Lemma value_guard Document f :
  has_value Document f ->
  bool_decide (StdMap.find f Document = None) && bool_decide (DerivedFieldValue Document f = []) = false.
Proof. intros [H1|H1]; [by rewrite bool_decide_eq_false_2|]. rewrite (bool_decide_eq_false_2 (_ = [])) by done. apply andb_false_r. Qed.

Lemma evaluate_order Document f v :
  has_value Document f ->
  EvaluateFilterCondition Document (condition f #">" v) = compare_values Greater (FieldValue Document f) v /\
  EvaluateFilterCondition Document (condition f #">=" v) = compare_values GreaterEqual (FieldValue Document f) v /\
  EvaluateFilterCondition Document (condition f #"<" v) = compare_values Less (FieldValue Document f) v /\
  EvaluateFilterCondition Document (condition f #"<=" v) = compare_values LessEqual (FieldValue Document f) v /\
  EvaluateFilterCondition Document (condition f #"=" v) = equal_values (FieldValue Document f) v /\
  EvaluateFilterCondition Document (condition f #"!=" v) = negb (equal_values (FieldValue Document f) v).
Proof.
  intros Hv. apply value_guard in Hv. unfold EvaluateFilterCondition. cbn [Op Value Field condition]. rewrite Hv.
  split_and!; reflexivity.
Qed.

Lemma evaluate_null Document f v :
  EvaluateFilterCondition Document (condition f #"ISNULL" v) = bool_decide (FieldValue Document f = []) /\
  EvaluateFilterCondition Document (condition f #"ISNOTNULL" v) = negb (bool_decide (FieldValue Document f = [])).
Proof.
  change (EvaluateFilterCondition Document (condition f #"ISNULL" v)) with
    (match StdMap.find f Document with Some s => bool_decide (s = []) | None => bool_decide (DerivedFieldValue Document f = []) end).
  change (EvaluateFilterCondition Document (condition f #"ISNOTNULL" v)) with
    (match StdMap.find f Document with Some s => negb (bool_decide (s = [])) | None => false end ||
     negb (bool_decide (DerivedFieldValue Document f = []))).
  unfold FieldValue. destruct (StdMap.find f Document) as [s|] eqn:E; [|done].
  unfold DerivedFieldValue. rewrite E, (bool_decide_eq_true_2 ([] = [])) by done. by rewrite orb_false_r.
Qed.

Lemma missing_fails Document f op v :
  ~ has_value Document f -> op ∉ [ #"GEO_RADIUS"; #"GEO_BOX"; #"ISNULL"] ->
  EvaluateFilterCondition Document (condition f op v) = false.
Proof.
  intros [H1 H2]%no_value Hop. unfold EvaluateFilterCondition. cbn [Op Value Field condition]. rewrite H1, H2.
  rewrite !not_elem_of_cons in Hop. destruct Hop as (A1 & A2 & A3 & _).
  rewrite !bool_decide_eq_false_2 by done. rewrite !(bool_decide_eq_true_2 ([] = [])) by done.
  rewrite (bool_decide_eq_true_2 (None = None)) by done. by destruct (bool_decide (op = _)).
Qed.

(** The operators of filter conditions fit together. On every document and field:
    the tests for null and not null are opposite; a field without a value fails every
    other operator but the geographical ones, the negative ones [!=] and [NOT_LIKE]
    included; and on a field with a value, [!=] is the opposite of [=], and unless
    one side reads as NaN, [>=] is the opposite of [<], [<=] is the opposite of [>],
    and [<] and [>] exclude each other, for numbers, time stamps, texts and any
    mixture of them. *)
Theorem operators_consistent Document f v :
  let holds op := EvaluateFilterCondition Document (condition f op v) in
  holds #"ISNOTNULL" = negb (holds #"ISNULL") /\
  (~ has_value Document f -> forall op, op ∉ [ #"GEO_RADIUS"; #"GEO_BOX"; #"ISNULL"] -> holds op = false) /\
  (has_value Document f ->
     holds #"!=" = negb (holds #"=") /\
     (not_nan (FieldValue Document f) -> not_nan v ->
        holds #">=" = negb (holds #"<") /\ holds #"<=" = negb (holds #">") /\
        (holds #"<" = true -> holds #">" = false))).
Proof.
  intros holds. split_and!.
  - unfold holds. destruct (evaluate_null Document f v) as [-> ->]. done.
  - intros Hn op Hop. by apply missing_fails.
  - intros Hv. unfold holds. destruct (evaluate_order Document f v Hv) as (-> & -> & -> & -> & -> & ->).
    split; [done|]. intros N1 N2. by apply compare_complement.
Qed.

(** ** Ranges *)

Definition same_kind (a b : bytes) : Prop :=
  (TryParseDouble a = None <-> TryParseDouble b = None) /\
  (TryParseISO8601TimestampToMs a = None <-> TryParseISO8601TimestampToMs b = None).

Lemma range_conjunction Inclusive f a b :
  a <> #"*" -> b <> #"*" -> same_kind a b ->
  range_holds Inclusive f a b =
  compare_values (if Inclusive then GreaterEqual else Greater) f a && compare_values (if Inclusive then LessEqual else Less) f b.
Proof.
  intros Ha Hb [K1 K2]. unfold range_holds, read_bound, compare_values. rewrite !(bool_decide_eq_false_2 (a = #"*")), !(bool_decide_eq_false_2 (b = #"*")) by done.
  destruct (TryParseDouble f), (TryParseDouble a), (TryParseDouble b); cbn [readable within andb];
    try (by destruct K1 as [K1 K1']; (discriminate (K1 eq_refl) || discriminate (K1' eq_refl))); try done.
  all: destruct (TryParseISO8601TimestampToMs f), (TryParseISO8601TimestampToMs a), (TryParseISO8601TimestampToMs b);
    cbn [readable within andb]; try (by destruct K2 as [K2 K2']; (discriminate (K2 eq_refl) || discriminate (K2' eq_refl))); done.
Qed.

(** A range is the conjunction of its bounds. When both bounds are numbers, or both
    time stamps, or both neither, and none is the open bound, an inclusive range
    holds of a document exactly when the conditions [>=] and [<=] with its bounds do,
    and an exclusive one exactly when [>] and [<] do. *)
Theorem range_is_conjunction Document f a b :
  has_value Document f -> ","%char ∉ a -> a <> #"*" -> b <> #"*" -> same_kind a b ->
  let holds op v := EvaluateFilterCondition Document (condition f op v) in
  holds #"RANGE_INCLUSIVE" (a ++ #"," ++ b) = holds #">=" a && holds #"<=" b /\
  holds #"RANGE_EXCLUSIVE" (a ++ #"," ++ b) = holds #">" a && holds #"<" b.
Proof.
  intros Hv Hc Ha Hb Hk holds.
  assert (Hs : split_range (a ++ #"," ++ b) = Some (a, b)).
  { unfold split_range. assert (F : find_char (fun c => bool_decide (c = ","%char)) (a ++ #"," ++ b) = Some (length a)).
    { apply find_char_Some. exists a, ","%char, b. split_and!; [done|done| |done]. apply Forall_forall. intros c Hi.
      apply bool_decide_eq_false. by intros ->. }
    rewrite F, take_app_length. f_equal. f_equal. replace (S (length a)) with (length (a ++ #",")) by (rewrite length_app; cbn; lia).
    rewrite app_assoc. apply drop_app_length. }
  assert (Hr : forall i : bool, EvaluateFilterCondition Document (condition f (if i then #"RANGE_INCLUSIVE" else #"RANGE_EXCLUSIVE") (a ++ #"," ++ b)) =
                         range_holds i (FieldValue Document f) a b).
  { intros i. apply value_guard in Hv. unfold EvaluateFilterCondition. cbn [Value Field condition]. rewrite Hv, Hs.
    destruct i; reflexivity. }
  unfold holds. rewrite (Hr true), (Hr false), !range_conjunction by done.
  destruct (evaluate_order Document f a Hv) as (-> & -> & _). destruct (evaluate_order Document f b Hv) as (_ & _ & -> & -> & _). done.
Qed.

End Calls.

(** ** Examples *)

#[local] Instance plain_library : Library :=
  { parse := fun _ => None; dump := fun _ => []; sin := fun d => d; cos := fun d => d; atan2 := fun d _ => d; get_time := fun _ => None }.

Definition priced : list (bytes * bytes) := [(#"price", #"12.50")].

Lemma operators_consistent_witness :
  EvaluateFilterCondition priced (condition #"price" #">=" #"9") = true /\
  EvaluateFilterCondition priced (condition #"price" #">=" #"9") = negb (EvaluateFilterCondition priced (condition #"price" #"<" #"9")).
Proof.
  split; [vm_compute; reflexivity|]. destruct (operators_consistent priced #"price" #"9") as (_ & _ & A).
  destruct A as [_ A]; [left; vm_compute; discriminate|]. destruct A as [A _]; [vm_compute; reflexivity..|]. exact A.
Defined.

Lemma range_is_conjunction_witness :
  EvaluateFilterCondition priced (condition #"price" #"RANGE_INCLUSIVE" (#"9" ++ #"," ++ #"20")) = true /\
  EvaluateFilterCondition priced (condition #"price" #"RANGE_INCLUSIVE" (#"9" ++ #"," ++ #"20")) =
    EvaluateFilterCondition priced (condition #"price" #">=" #"9") && EvaluateFilterCondition priced (condition #"price" #"<=" #"20").
Proof.
  split; [vm_compute; reflexivity|].
  apply (range_is_conjunction priced #"price" #"9" #"20"); [left; vm_compute; discriminate| |discriminate|discriminate|].
  - apply (bool_decide_eq_true_1 _). vm_compute. reflexivity.
  - split; vm_compute; (split; discriminate || split; reflexivity || split; done).
Defined.

(** Equality compares texts: a document with the price 12.50 fails the condition that
    its price is 12.5 although it is neither above nor below. *)

Example equality_is_textual :
  EvaluateFilterCondition priced (condition #"price" #"=" #"12.5") = false /\
  EvaluateFilterCondition priced (condition #"price" #"<=" #"12.5") = true /\
  EvaluateFilterCondition priced (condition #"price" #">=" #"12.5") = true.
Proof. vm_compute. done. Qed.

End FilterEvalProps.
