(* ===== verification/ResultShaping.v ===== *)
(** * ResultShaping: from the hits to the page, src/api/utils.cpp

    Sorting, grouping, pagination, field selection and highlighting of hits. The
    comparison of [ApplySorting] is executable; [std::sort] itself is the relation
    [std_sort], since the order of equivalent elements is not specified. Scores are
    single-precision floats. *)

From Stdlib Require Import SpecFloat.
From S2P Require Import Prelude CText StdMap DocValues.

Module ResultShaping.
Import DocValues.

Record SearchHit := mkHit {
  Document : list (bytes * bytes);
  TextMatch : spec_float;
  VectorScore : spec_float;
  HybridScore : spec_float;
  Weight : spec_float;
  Highlights : list (bytes * bytes);
  GroupKey : bytes;
  GroupCount : Z
}.

Definition set_document (d : list (bytes * bytes)) (h : SearchHit) : SearchHit :=
  mkHit d (TextMatch h) (VectorScore h) (HybridScore h) (Weight h) (Highlights h) (GroupKey h) (GroupCount h).

(** ** Scores *)

Definition fpos (f : spec_float) : bool := SFltb (S754_zero false) f.

Definition BaseScore (h : SearchHit) : spec_float :=
  if fpos (HybridScore h) then HybridScore h else if fpos (VectorScore h) then VectorScore h else TextMatch h.

Definition one_float : spec_float := S754_finite false 8388608 (-23).

Definition GetEffectiveScore (h : SearchHit) : spec_float :=
  SFmul 24 128 (BaseScore h) (if isfinite (Weight h) && fpos (Weight h) then Weight h else one_float).

(** ** Sorting

    The verdict of one criterion on two hits: [Some] returns from the comparison,
    [None] goes on. *)

Definition different (a b : spec_float) : bool := negb (SFeqb a b).

Definition rank_field (f : bytes) (h : SearchHit) : option double := StdMap.find f (Document h) ≫= TryParseDoubleValue.

Definition CompareRankTieBreak (A B : SearchHit) : bool :=
  let ids := str_ltb (default [] (StdMap.find #"id" (Document A))) (default [] (StdMap.find #"id" (Document B))) in
  let ranks :=
    match rank_field #"rank" A, rank_field #"rank" B with
    | Some a, Some b => if different a b then SFltb a b else ids
    | _, _ => ids
    end in
  match rank_field #"rank_signal" A, rank_field #"rank_signal" B with
  | Some a, Some b => if different a b then SFltb b a else ranks
  | _, _ => ranks
  end.

Definition colon : ascii -> bool := fun c => bool_decide (c = ":"%char).

Definition is_descending (s : bytes) : bool := bool_decide (s ∈ [ #"desc"; #"descending"]).

Record GeoSort := mkGeoSort { GeoField : bytes; GeoOrigin : GeoPoint; GeoDescending : bool }.

Definition TryParseGeoDistanceSort (SortSpec : bytes) : option GeoSort :=
  if negb (starts_with #"_geo_distance" SortSpec) then None
  else
    match find_char (fun c => bool_decide (c = "("%char)) SortSpec with
    | None => None
    | Some Open =>
        match find_char (fun c => bool_decide (c = ")"%char)) (drop (S Open) SortSpec) with
        | None => None
        | Some O => None
        | Some n =>
            match SplitGeoArgs (take n (drop (S Open) SortSpec)) with
            | f :: a :: b :: _ =>
                match TryParseDoubleValue a, TryParseDoubleValue b with
                | Some Lat, Some Lon =>
                    if negb (in_bounds 90 Lat && in_bounds 180 Lon) then None
                    else
                      let rest := drop (S Open + n + 1) SortSpec in
                      let Desc := match find_char colon rest with
                                  | None => false
                                  | Some k => is_descending (LowerRankMetadataValue (TrimRankMetadataValue (drop (S k) rest)))
                                  end in
                      Some (mkGeoSort f (mkPoint Lat Lon) Desc)
                | _, _ => None
                end
            | _ => None
            end
        end
    end.

Definition field_and_direction (spec : bytes) : bytes * bool :=
  match find_char colon spec with
  | None => (spec, false)
  | Some n => (take n spec, is_descending (tolower <$> drop (S n) spec))
  end.

Definition directed {T} (lt : T -> T -> bool) (Descending : bool) (a b : T) : bool := if Descending then lt b a else lt a b.

Definition score_verdict (Descending : bool) (A B : SearchHit) : option bool :=
  let a := GetEffectiveScore A in
  let b := GetEffectiveScore B in
  if different a b then Some (directed SFltb Descending a b) else None.

Definition field_text (f : bytes) (h : SearchHit) : bytes := default [] (StdMap.find f (Document h)).

Definition text_verdict (f : bytes) (Descending : bool) (A B : SearchHit) : option bool :=
  let a := field_text f A in
  let b := field_text f B in
  if bool_decide (a = b) then None
  else
    let texts := Some (directed str_ltb Descending a b) in
    match TryParseDoubleValue a, TryParseDoubleValue b with
    | Some x, Some y => if different x y then Some (directed SFltb Descending x y) else texts
    | _, _ => texts
    end.

Section Calls.
Context `{Library}.

Definition geo_verdict (g : GeoSort) (A B : SearchHit) : option bool :=
  match TryGetGeoPointFromDocument (Document A) (GeoField g), TryGetGeoPointFromDocument (Document B) (GeoField g) with
  | Some p, Some q =>
      let a := CalculateGeoDistance p (GeoOrigin g) in
      let b := CalculateGeoDistance q (GeoOrigin g) in
      if different a b then Some (directed SFltb (GeoDescending g) a b) else None
  | Some _, None => Some true
  | None, Some _ => Some false
  | None, None => None
  end.

Definition sort_verdict (spec : bytes) (A B : SearchHit) : option bool :=
  match TryParseGeoDistanceSort spec with
  | Some g => geo_verdict g A B
  | None =>
      let (f, Descending) := field_and_direction spec in
      if bool_decide (f ∈ [ #"_text_match"; #"_score"; #"score"]) then score_verdict Descending A B
      else text_verdict f Descending A B
  end.

Fixpoint hit_before (SortBy : list bytes) (A B : SearchHit) : bool :=
  match SortBy with
  | [] => CompareRankTieBreak A B
  | spec :: r => match sort_verdict spec A B with Some v => v | None => hit_before r A B end
  end.

(** [std::sort] promises this of a strict weak ordering, and nothing otherwise. *)

Definition std_sort {T} (lt : T -> T -> bool) (l l' : list T) : Prop :=
  l' ≡ₚ l /\ StronglySorted (fun a b => lt b a = false) l'.

(** The distances of the first geographical criterion are added to the documents. *)

Definition add_distance (g : GeoSort) (h : SearchHit) : SearchHit :=
  match TryGetGeoPointFromDocument (Document h) (GeoField g) with
  | None => h
  | Some p => set_document (StdMap.put #"_geo_distance_km" (fixed6 (CalculateGeoDistance p (GeoOrigin g))) (Document h)) h
  end.

Fixpoint first_geo (SortBy : list bytes) : option GeoSort :=
  match SortBy with
  | [] => None
  | spec :: r => match TryParseGeoDistanceSort spec with Some g => Some g | None => first_geo r end
  end.

Definition add_distances (SortBy : list bytes) (l : list SearchHit) : list SearchHit :=
  match first_geo SortBy with Some g => add_distance g <$> l | None => l end.

Definition ApplySorting (Hits : list SearchHit) (SortBy : list bytes) (Result : list SearchHit) : Prop :=
  exists SortedHits, std_sort (hit_before SortBy) Hits SortedHits /\ Result = add_distances SortBy SortedHits.

End Calls.

(** The default order of a collection, from its metadata. *)

Definition normal_order (SortOrder : bytes) : bytes :=
  if bool_decide (SortOrder = []) then #"asc"
  else if bool_decide (SortOrder ∈ [ #"descending"; #"higher"; #"higher_is_better"]) then #"desc"
  else if bool_decide (SortOrder ∈ [ #"ascending"; #"lower"; #"lower_is_better"]) then #"asc"
  else if negb (bool_decide (SortOrder = #"asc")) && negb (bool_decide (SortOrder = #"desc")) then #"asc"
  else SortOrder.

Definition ResolveDefaultCollectionSortBy (Metadata : list (bytes * bytes)) : list bytes :=
  let value k := from_option TrimRankMetadataValue [] (StdMap.find k Metadata) in
  let '(SortFieldName, SortOrder) :=
    if bool_decide (value #"_default_sorting_field" = []) then
      (value #"_rank_field", LowerRankMetadataValue (value #"_rank_order"))
    else (value #"_default_sorting_field", LowerRankMetadataValue (value #"_default_sorting_order")) in
  if bool_decide (SortFieldName = []) then [] else [SortFieldName ++ #":" ++ normal_order SortOrder].

(** ** Pagination *)

Definition SIZE_MAX : Z := 2 ^ 64 - 1.

Definition slice {T} (Start Count : Z) (l : list T) : list T :=
  let End := Z.min (Start + Count) (size l) in
  take (Z.to_nat (End - Start)) (drop (Z.to_nat Start) l).

Definition ApplyPagination {T} (Hits : list T) (Page PerPage : Z) : list T :=
  match Hits with
  | [] => []
  | _ =>
      if (Page <=? 0) || (PerPage <=? 0) then []
      else if SIZE_MAX / PerPage <? Page - 1 then []
      else if size Hits <=? (Page - 1) * PerPage then []
      else slice ((Page - 1) * PerPage) PerPage Hits
  end.

Definition ApplyPaginationForSQL {T} (Hits : list T) (Page PerPage Offset : Z) : list T :=
  match Hits with
  | [] => []
  | _ =>
      if (PerPage <=? 0) || (Offset <? 0) then []
      else if size Hits <=? Offset then []
      else slice Offset PerPage Hits
  end.

(** ** Grouping *)

Definition group_key (GroupBy : list bytes) (h : SearchHit) : bytes :=
  concat ((fun f => default [] (StdMap.find f (Document h))) <$> GroupBy).

(** The map from keys to the indices of their hits. *)

Definition add_index (GroupLimit : Z) (Groups : list (bytes * list nat)) (Key : bytes) (HitIndex : nat) : list (bytes * list nat) :=
  let g := default [] (StdMap.find Key Groups) in
  StdMap.put Key (if size g <? GroupLimit then g ++ [HitIndex] else g) Groups.

Fixpoint group_loop (GroupBy : list bytes) (GroupLimit : Z) (HitIndex : nat) (l : list SearchHit)
    (Groups : list (bytes * list nat)) : list (bytes * list nat) :=
  match l with
  | [] => Groups
  | h :: r => group_loop GroupBy GroupLimit (S HitIndex) r (add_index GroupLimit Groups (group_key GroupBy h) HitIndex)
  end.

Definition at_indices (Hits : list SearchHit) (l : list nat) : list SearchHit := omap (fun i => Hits !! i) l.

Definition ApplyGrouping (Hits : list SearchHit) (GroupBy : list bytes) (GroupLimit : Z) : list SearchHit :=
  if GroupLimit <=? 0 then []
  else concat ((fun p => at_indices Hits p.2) <$> group_loop GroupBy GroupLimit 0 Hits []).

(** ** Field selection *)

Definition ApplyFieldSelection (d : list (bytes * bytes)) (IncludeFields ExcludeFields : list bytes) : list (bytes * bytes) :=
  foldl (fun r p =>
    let Include := bool_decide (IncludeFields = []) || existsb (fun F => bool_decide (F = p.1)) IncludeFields in
    let Include := Include && negb (existsb (fun F => bool_decide (F = p.1)) ExcludeFields) in
    if (Include : bool) then StdMap.put p.1 p.2 r else r) [] d.

(** ** Highlighting *)

(** The best match in the rest of the text: the earliest, and the longest there. *)

Definition better (best : option (nat * nat)) (found len : nat) : option (nat * nat) :=
  match best with
  | None => Some (found, len)
  | Some (p, l) => if (found <? p)%nat || ((found =? p)%nat && (l <? len)%nat) then Some (found, len) else best
  end.

Definition best_match (terms : list bytes) (lowered : bytes) : option (nat * nat) :=
  foldl (fun best term =>
    if bool_decide (term = []) then best
    else match find_sub term lowered with
         | None => best
         | Some found => better best found (length term)
         end) None terms.

Fixpoint highlight_loop (fuel : nat) (terms : list bytes) (text : bytes) : bytes :=
  match fuel, text with
  | S f, _ :: _ =>
      match best_match terms (tolower <$> text) with
      | None => text
      | Some (p, l) => take p text ++ #"<em>" ++ take l (drop p text) ++ #"</em>" ++ highlight_loop f terms (drop (p + l) text)
      end
  | _, _ => []
  end.

Definition HighlightTerms (text : bytes) (terms : list bytes) : bytes :=
  match terms with [] => text | _ => highlight_loop (length text) terms text end.

(** The loop that replaces every occurrence, from left to right. *)

Fixpoint replace_loop (fuel : nat) (from to s : bytes) : bytes :=
  match fuel with
  | O => s
  | S f => match find_sub from s with
           | None => s
           | Some n => take n s ++ to ++ replace_loop f from to (drop (n + length from) s)
           end
  end.

Definition ReplaceAll (s from to : bytes) : bytes :=
  if bool_decide (from = []) then s else replace_loop (length s) from to s.

Definition curly (z : Z) : bytes := [chr 226; chr 128; chr z].

Definition NormalizeQuotes (input : bytes) : bytes :=
  let s := ReplaceAll input (curly 156) [dquote] in
  let s := ReplaceAll s (curly 157) [dquote] in
  let s := ReplaceAll s (curly 152) [squote] in
  ReplaceAll s (curly 153) [squote].

Definition is_dquote (c : ascii) : bool := bool_decide (c = dquote).

(** The texts between pairs of quotes, and the text without them; a last single
    quote is removed alone. *)

Fixpoint phrases_of (fuel : nat) (s : bytes) : list bytes :=
  match fuel with
  | O => []
  | S f =>
      match find_char is_dquote s with
      | None => []
      | Some a =>
          let r := drop (S a) s in
          match find_char is_dquote r with
          | None => []
          | Some n => (if (0 <? n)%nat then [take n r] else []) ++ phrases_of f (drop (S n) r)
          end
      end
  end.

Fixpoint without_quotes (fuel : nat) (s : bytes) : bytes :=
  match fuel with
  | O => s
  | S f =>
      match find_char is_dquote s with
      | None => s
      | Some a =>
          let r := drop (S a) s in
          match find_char is_dquote r with
          | None => take a s ++ r
          | Some n => without_quotes f (take a s ++ drop (S n) r)
          end
      end
  end.

(** The words of [std::istringstream], in the "C" locale. *)

Fixpoint words (current s : bytes) : list bytes :=
  match s with
  | [] => if bool_decide (current = []) then [] else [current]
  | c :: r =>
      if isspace c then (if bool_decide (current = []) then [] else [current]) ++ words [] r
      else words (current ++ [c]) r
  end.

Definition stopwords : list bytes :=
  [ #"on"; #"in"; #"at"; #"by"; #"to"; #"of"; #"and"; #"or"; #"the"; #"a"; #"an"].

Definition longer_first (a b : bytes) : Prop := (length b <= length a)%nat.

#[local] Instance longer_first_dec a b : Decision (longer_first a b) := le_dec _ _.

Definition keep_terms (items : list bytes) : list bytes :=
  foldl (fun out item =>
    let lowered := tolower <$> item in
    if (length lowered <? 3)%nat then out
    else if bool_decide (lowered ∈ stopwords) then out
    else if bool_decide (lowered ∈ out) then out else out ++ [lowered]) [] items.

Definition normalize_list (items : list bytes) : list bytes := merge_sort longer_first (keep_terms items).

Definition GenerateFieldHighlight (FieldValue Query : bytes) : bytes :=
  if bool_decide (Query = []) then FieldValue
  else
    let q := NormalizeQuotes Query in
    let phrases := phrases_of (length q) q in
    let terms := normalize_list (words [] (without_quotes (length q) q)) in
    match phrases with
    | [] => HighlightTerms FieldValue terms
    | _ => HighlightTerms FieldValue (normalize_list phrases ++ terms)
    end.

Definition GenerateHighlights (d : list (bytes * bytes)) (Query : bytes) (HighlightFields : list bytes) : list (bytes * bytes) :=
  foldl (fun r p =>
    if bool_decide (HighlightFields = []) || existsb (fun F => bool_decide (F = p.1)) HighlightFields
    then StdMap.put p.1 (GenerateFieldHighlight p.2 Query) r else r) [] d.

End ResultShaping.
