(* ===== verification/ResultShapingProps.v ===== *)
(** * ResultShapingProps: sorting, pages, groups and highlights

    The comparison of hits is a lexicographic composition of comparisons
    ([verdict_of], [lex]); on hits whose values are of one kind per field it is a
    strict ordering, so that the sorted result does not depend on the order of the
    input, and on others it has cycles. Pages partition the hits, groups have the
    first hits of their keys, and highlighting only inserts marks. *)

From Stdlib Require Import SpecFloat.
From S2P Require Import Prelude CText StdMap Wildcard FilterLang DocValues FilterEval FilterEvalProps ResultShaping.

Module ResultShapingProps.
Import DocValues FilterEvalProps ResultShaping.

(** ** Comparisons *)

Section Orders.
Context {T : Type}.
Implicit Types c d : T -> T -> comparison.

(** A comparison on the elements of [P] that is antisymmetric and transitive. *)

Record ordered (P : T -> Prop) c : Prop := mkOrdered {
  ordered_sym : forall a b, P a -> P b -> c b a = CompOpp (c a b);
  ordered_trans : forall x y z, P x -> P y -> P z -> c x y <> Gt -> c y z <> Gt ->
    c x z <> Gt /\ (c x z = Eq -> c x y = Eq /\ c y z = Eq)
}.

Definition lex c d : T -> T -> comparison := fun a b => match c a b with Eq => d a b | r => r end.

Definition flip_if (Descending : bool) c : T -> T -> comparison := fun a b => if Descending then c b a else c a b.

Definition verdict_of (r : comparison) : option bool :=
  match r with Lt => Some true | Gt => Some false | Eq => None end.

Lemma lex_ordered P c d : ordered P c -> ordered P d -> ordered P (lex c d).
Proof.
  intros [C1 C2] [D1 D2]. split; unfold lex.
  - intros a b Ha Hb. rewrite (C1 a b Ha Hb). destruct (c a b); cbn; auto.
  - intros x y z Hx Hy Hz H1 H2.
    destruct (C2 x y z Hx Hy Hz) as [A1 A2]; [by destruct (c x y)|by destruct (c y z)|].
    destruct (c x z) eqn:E; [|done|done]. destruct (A2 eq_refl) as [B1 B2]. rewrite B1, B2 in *. by apply D2.
Qed.

Lemma flip_ordered P b c : ordered P c -> ordered P (flip_if b c).
Proof.
  intros [C1 C2]. destruct b; [|by split]. split; cbn.
  - intros x y Hx Hy. by apply C1.
  - intros x y z Hx Hy Hz H1 H2. destruct (C2 z y x) as [A1 A2]; try done. split; [done|]. intros E. destruct (A2 E). done.
Qed.

Lemma const_ordered P : ordered P (fun _ _ => Eq).
Proof. by split. Qed.

Lemma ordered_weaken (P Q : T -> Prop) c : ordered P c -> (forall a, Q a -> P a) -> ordered Q c.
Proof. intros [C1 C2] H. split; eauto. Qed.

End Orders.

Lemma map_ordered {T U} (P : T -> Prop) (Q : U -> Prop) (f : U -> T) c :
  ordered P c -> (forall u, Q u -> P (f u)) -> ordered Q (fun a b => c (f a) (f b)).
Proof. intros [C1 C2] H. split; eauto. Qed.

Definition compare_double (a b : spec_float) : comparison := default Eq (SFcompare a b).

Lemma double_ordered : ordered (fun d => is_nan d = false) compare_double.
Proof.
  unfold compare_double. split.
  - intros a b Ha Hb. rewrite !SFcompare_rank by done. apply compare3_antisym.
  - intros x y z Hx Hy Hz. rewrite !SFcompare_rank by done. apply compare3_trans.
Qed.

Lemma text_ordered : ordered (fun _ => True) str_compare.
Proof.
  split; [intros a b _ _; apply str_compare_antisym|]. intros x y z _ _ _ H1 H2.
  destruct (str_compare x y) eqn:E1; [apply str_compare_eq in E1 as ->; split; [done|]; done| |done].
  destruct (str_compare y z) eqn:E2; [apply str_compare_eq in E2 as ->; rewrite E1; done| |done].
  rewrite (str_compare_trans _ _ _ E1 E2). done.
Qed.

Lemma double_verdict Descending a b :
  is_nan a = false -> is_nan b = false ->
  (if different a b then Some (directed SFltb Descending a b) else None) = verdict_of (flip_if Descending compare_double a b).
Proof.
  intros Ha Hb. unfold different, directed, flip_if, compare_double, SFeqb, SFltb. rewrite !SFcompare_rank by done. cbn [default].
  rewrite (compare3_antisym (rank3 a) (rank3 b)). by destruct Descending, (compare3 _ _).
Qed.

Lemma text_directed Descending a b :
  a <> b -> Some (directed str_ltb Descending a b) = verdict_of (flip_if Descending str_compare a b).
Proof.
  intros Hab. unfold directed, flip_if, str_ltb.
  assert (N : str_compare a b <> Eq) by (intros E; by apply Hab, str_compare_eq).
  rewrite (str_compare_antisym a b). by destruct Descending, (str_compare a b).
Qed.

Lemma finite_number s d : TryParseDoubleValue s = Some d -> is_nan d = false.
Proof.
  unfold TryParseDoubleValue. destruct (bool_decide _); [done|]. destruct (stod _) as [[x n]|]; [|done].
  destruct (negb _ || _) eqn:E; [done|]. intros [= <-]. apply orb_false_iff in E as [_ E]. by destruct x.
Qed.

(** ** The criteria on hits of one kind *)

(** A value that all hits have, or none. *)

Definition uniform_by {A} (g : SearchHit -> option A) (Hits : list SearchHit) : Prop :=
  (forall h, h ∈ Hits -> is_Some (g h)) \/ (forall h, h ∈ Hits -> g h = None).

Definition id_of (h : SearchHit) : bytes := default [] (StdMap.find #"id" (Document h)).

(** Comparison of the values, where hits without one are equal. *)

Definition compare_value (g : SearchHit -> option double) (A B : SearchHit) : comparison :=
  match g A, g B with Some a, Some b => compare_double a b | _, _ => Eq end.

Section Hits.
Context (Hits : list SearchHit).

Notation In := (fun h => h ∈ Hits).

Lemma value_ordered g : (forall h d, g h = Some d -> is_nan d = false) -> uniform_by g Hits -> ordered In (compare_value g).
Proof.
  intros Hn [Hu|Hu].
  - destruct double_ordered as [D1 D2]. split; unfold compare_value.
    + intros a b Ha Hb. destruct (Hu a Ha) as [x Ex], (Hu b Hb) as [y Ey]. rewrite Ex, Ey. eauto.
    + intros x y z Hx Hy Hz. destruct (Hu x Hx) as [u Eu], (Hu y Hy) as [v Ev], (Hu z Hz) as [w Ew]. rewrite Eu, Ev, Ew. eauto.
  - split; unfold compare_value; intros; by rewrite ?(Hu a), ?(Hu b), ?(Hu x), ?(Hu y), ?(Hu z).
Qed.

Lemma rank_field_finite f h d : rank_field f h = Some d -> is_nan d = false.
Proof. unfold rank_field. destruct (StdMap.find f _); [|done]. cbn. apply finite_number. Qed.

Definition compare_tie : SearchHit -> SearchHit -> comparison :=
  lex (flip_if true (compare_value (rank_field #"rank_signal")))
    (lex (compare_value (rank_field #"rank")) (fun A B => str_compare (id_of A) (id_of B))).

Definition is_lt (r : comparison) : bool := match r with Lt => true | _ => false end.

Lemma tie_ordered :
  uniform_by (rank_field #"rank_signal") Hits -> uniform_by (rank_field #"rank") Hits -> ordered In compare_tie.
Proof.
  intros H1 H2. apply lex_ordered; [apply flip_ordered|apply lex_ordered].
  - apply value_ordered; [intros h d; apply rank_field_finite|done].
  - apply value_ordered; [intros h d; apply rank_field_finite|done].
  - apply (map_ordered (fun _ => True)); [apply text_ordered|done].
Qed.

Lemma tie_verdict A B : CompareRankTieBreak A B = is_lt (compare_tie A B).
Proof.
  unfold CompareRankTieBreak, compare_tie, lex, flip_if, compare_value, id_of.
  assert (V : forall x y, is_nan x = false -> is_nan y = false ->
    different x y = negb (bool_decide (compare_double x y = Eq)) /\ SFltb x y = is_lt (compare_double x y)).
  { intros x y Hx Hy. unfold different, SFeqb, SFltb, compare_double. rewrite SFcompare_rank by done. by destruct (compare3 _ _). }
  assert (R : (match rank_field #"rank" A, rank_field #"rank" B with
      | Some a, Some b => if different a b then SFltb a b else str_ltb (id_of A) (id_of B)
      | _, _ => str_ltb (id_of A) (id_of B) end) =
      is_lt (match (match rank_field #"rank" A, rank_field #"rank" B with Some a, Some b => compare_double a b | _, _ => Eq end) with
             | Eq => str_compare (id_of A) (id_of B) | r => r end)).
  { destruct (rank_field #"rank" A) as [x|] eqn:EA; [|done]. destruct (rank_field #"rank" B) as [y|] eqn:EB; [|done].
    destruct (V x y) as [-> ->]; [eauto using rank_field_finite..|]. by destruct (compare_double x y). }
  unfold id_of in R. rewrite R. clear R.
  destruct (rank_field #"rank_signal" A) as [x|] eqn:EA; [|by destruct (rank_field #"rank_signal" B)].
  destruct (rank_field #"rank_signal" B) as [y|] eqn:EB; [|done].
  destruct (V y x) as [E1 ->]; [eauto using rank_field_finite..|].
  assert (S : different x y = different y x).
  { destruct (V x y) as [-> _]; [eauto using rank_field_finite..|]. rewrite E1.
    destruct double_ordered as [D1 _]. rewrite (D1 y x) by (eauto using rank_field_finite). by destruct (compare_double y x). }
  rewrite S, E1. by destruct (compare_double y x).
Qed.

(** One criterion is decided by an ordered comparison. *)

Definition decided (v : SearchHit -> SearchHit -> option bool) : Prop :=
  exists c, ordered In c /\ forall A B, A ∈ Hits -> B ∈ Hits -> v A B = verdict_of (c A B).

Lemma score_decided Descending :
  (forall h, h ∈ Hits -> is_nan (GetEffectiveScore h) = false) -> decided (score_verdict Descending).
Proof.
  intros Hn. exists (fun A B => flip_if Descending compare_double (GetEffectiveScore A) (GetEffectiveScore B)). split.
  - apply (map_ordered (fun d => is_nan d = false)); [by apply flip_ordered, double_ordered|done].
  - intros A B HA HB. apply double_verdict; auto.
Qed.

Lemma text_decided f Descending :
  uniform_by (fun h => TryParseDoubleValue (field_text f h)) Hits -> decided (text_verdict f Descending).
Proof.
  intros Hu. set (g := fun h => TryParseDoubleValue (field_text f h)) in Hu.
  set (t := fun A B => str_compare (field_text f A) (field_text f B)).
  exists (flip_if Descending (lex (compare_value g) t)). split.
  - apply flip_ordered, lex_ordered; [apply value_ordered; [intros h d; apply finite_number|done]|].
    apply (map_ordered (fun _ => True) _ (field_text f) str_compare); [apply text_ordered|done].
  - intros A B HA HB. unfold text_verdict. destruct (bool_decide_reflect (field_text f A = field_text f B)) as [E|E].
    + unfold flip_if, lex, compare_value, t, g. rewrite E, str_compare_refl.
      assert (R : forall d, is_nan d = false -> compare_double d d = Eq).
      { intros d Hd. destruct double_ordered as [D1 _]. specialize (D1 d d Hd Hd). by destruct (compare_double d d). }
      destruct (TryParseDoubleValue (field_text f B)) as [d|] eqn:Ed; [rewrite R by (by eapply finite_number)|]; by destruct Descending.
    + destruct Hu as [Hu|Hu].
      * destruct (Hu A HA) as [x Ex], (Hu B HB) as [y Ey]. unfold g in Ex, Ey. rewrite Ex, Ey.
        pose proof (finite_number _ _ Ex) as Nx. pose proof (finite_number _ _ Ey) as Ny.
        pose proof (double_verdict Descending x y Nx Ny) as V. pose proof (text_directed Descending _ _ E) as W.
        unfold flip_if, lex, compare_value, g, t in *. rewrite Ex, Ey.
        destruct (different x y); [rewrite V|rewrite W].
        -- destruct Descending; by destruct (compare_double _ _).
        -- destruct Descending; by destruct (compare_double _ _).
      * rewrite (text_directed Descending _ _ E). pose proof (Hu A HA) as Ex. pose proof (Hu B HB) as Ey. unfold g in Ex, Ey.
        unfold flip_if, lex, compare_value, g, t. rewrite Ex, Ey. done.
Qed.

Section Calls.
Context `{Library}.

Definition geo_value (g : GeoSort) (h : SearchHit) : option double :=
  (fun p => CalculateGeoDistance p (GeoOrigin g)) <$> TryGetGeoPointFromDocument (Document h) (GeoField g).

(** Hits with a point come first, whatever the direction. *)

Definition compare_geo (g : GeoSort) (A B : SearchHit) : comparison :=
  match geo_value g A, geo_value g B with
  | Some a, Some b => flip_if (GeoDescending g) compare_double a b
  | Some _, None => Lt
  | None, Some _ => Gt
  | None, None => Eq
  end.

Lemma geo_decided g :
  (forall h d, h ∈ Hits -> geo_value g h = Some d -> is_nan d = false) -> decided (geo_verdict g).
Proof.
  intros Hn. exists (compare_geo g). destruct (flip_ordered _ (GeoDescending g) _ double_ordered) as [D1 D2]. split; [split|].
  - intros a b Ha Hb. unfold compare_geo. destruct (geo_value g a) eqn:Ea, (geo_value g b) eqn:Eb; try done. eauto.
  - intros x y z Hx Hy Hz. unfold compare_geo.
    destruct (geo_value g x) eqn:Ex, (geo_value g y) eqn:Ey, (geo_value g z) eqn:Ez; try done. eauto.
  - intros A B HA HB. pose proof (Hn A) as NA. pose proof (Hn B) as NB. unfold geo_verdict, compare_geo, geo_value in *.
    destruct (TryGetGeoPointFromDocument (Document A) _), (TryGetGeoPointFromDocument (Document B) _); try done.
    apply double_verdict; eauto.
Qed.

(** What the theorem asks of the hits: each criterion finds values of one kind. *)

Definition uniform (spec : bytes) : Prop :=
  match TryParseGeoDistanceSort spec with
  | Some g => forall h d, h ∈ Hits -> geo_value g h = Some d -> is_nan d = false
  | None =>
      let f := (field_and_direction spec).1 in
      if bool_decide (f ∈ [ #"_text_match"; #"_score"; #"score"])
      then forall h, h ∈ Hits -> is_nan (GetEffectiveScore h) = false
      else uniform_by (fun h => TryParseDoubleValue (field_text f h)) Hits
  end.

Lemma sort_decided spec : uniform spec -> decided (sort_verdict spec).
Proof.
  unfold uniform, sort_verdict. destruct (TryParseGeoDistanceSort spec) as [g|]; [apply geo_decided|].
  destruct (field_and_direction spec) as [f Descending]. cbn [fst]. destruct (bool_decide _); [apply score_decided|apply text_decided].
Qed.

Lemma hit_before_ordered SortBy :
  Forall uniform SortBy -> uniform_by (rank_field #"rank_signal") Hits -> uniform_by (rank_field #"rank") Hits ->
  exists c, ordered In c /\ (forall A B, A ∈ Hits -> B ∈ Hits -> hit_before SortBy A B = is_lt (c A B)) /\
    (forall A B, c A B = Eq -> id_of A = id_of B).
Proof.
  intros Hu H1 H2. induction Hu as [|spec r Hs Hr IH].
  - exists compare_tie. split; [by apply tie_ordered|]. split; [intros A B _ _; apply tie_verdict|].
    intros A B. unfold compare_tie, lex. destruct (flip_if _ _ _ _); [|done|done]. destruct (compare_value _ _ _); [|done|done].
    apply str_compare_eq.
  - destruct IH as (c & Hc & Hv & He). destruct (sort_decided spec Hs) as (d & Hd & Hdv). exists (lex d c).
    split; [by apply lex_ordered|]. split.
    + intros A B HA HB. cbn [hit_before]. rewrite Hdv by done. unfold lex. destruct (d A B); [by apply Hv|done|done].
    + intros A B. unfold lex. destruct (d A B); [apply He|done|done].
Qed.

End Calls.

End Hits.

(** What [std::sort] demands of its comparison on these hits: no hit is before itself,
    the relation is transitive, and so is being before neither way. *)

Definition strict_weak_ordering (Hits : list SearchHit) (before : SearchHit -> SearchHit -> bool) : Prop :=
  (forall A, A ∈ Hits -> before A A = false) /\
  (forall A B C, A ∈ Hits -> B ∈ Hits -> C ∈ Hits -> before A B = true -> before B C = true -> before A C = true) /\
  (forall A B C, A ∈ Hits -> B ∈ Hits -> C ∈ Hits ->
     before A B = false -> before B A = false -> before B C = false -> before C B = false ->
     before A C = false /\ before C A = false).

Lemma ordered_strict_weak Hits before c :
  ordered (fun h => h ∈ Hits) c -> (forall A B, A ∈ Hits -> B ∈ Hits -> before A B = is_lt (c A B)) -> strict_weak_ordering Hits before.
Proof.
  intros [C1 C2] Hv. split; [|split].
  - intros A HA. rewrite Hv by done. specialize (C1 A A HA HA). by destruct (c A A).
  - intros A B C HA HB HC. rewrite !Hv by done. intros E1 E2.
    destruct (C2 A B C HA HB HC) as [X Y]; [by destruct (c A B)|by destruct (c B C)|].
    destruct (c A C); [|done|done]. destruct (Y eq_refl) as [Y1 _]. by rewrite Y1 in E1.
  - intros A B C HA HB HC. rewrite !Hv by done. rewrite (C1 A B), (C1 B C), (C1 A C) by done. intros E1 E2 E3 E4.
    assert (c A B = Eq) as EA by (by destruct (c A B)). assert (c B C = Eq) as EB by (by destruct (c B C)).
    destruct (C2 A B C HA HB HC) as [X _]; [by rewrite EA|by rewrite EB|].
    destruct (C2 C B A HC HB HA) as [X' _]; [by rewrite (C1 B C), EB by done|by rewrite (C1 A B), EA by done|].
    rewrite (C1 A C) in X' by done. by destruct (c A C).
Qed.

(** C30. Sorting has one result. When each criterion finds values of one kind in the hits
    (all numbers or none; scores and distances that are not NaN; ranks for all or
    for none), the comparison is a strict weak ordering of the hits, as [std::sort]
    demands; and when moreover the hits have different identifiers, two sorted results
    of the same hits are equal, however the hits were arranged before. *)
Theorem sorting_deterministic `{Library} Hits SortBy :
  Forall (uniform Hits) SortBy -> uniform_by (rank_field #"rank_signal") Hits -> uniform_by (rank_field #"rank") Hits ->
  strict_weak_ordering Hits (hit_before SortBy) /\
  (NoDup (id_of <$> Hits) -> forall Hits' R R',
     Hits' ≡ₚ Hits -> ApplySorting Hits SortBy R -> ApplySorting Hits' SortBy R' -> R = R').
Proof.
  intros Hu H1 H2. destruct (hit_before_ordered Hits SortBy Hu H1 H2) as (c & Hc & Hv & He).
  split; [by eapply ordered_strict_weak|]. destruct Hc as [C1 C2].
  intros Hid Hits' R R' Hp (S & [P1 S1] & ->) (S' & [P2 S2] & ->).
  assert (HS : forall h, h ∈ S -> h ∈ Hits) by (intros h; by rewrite P1).
  assert (HS' : forall h, h ∈ S' -> h ∈ Hits) by (intros h; by rewrite P2, Hp).
  f_equal. apply (StronglySorted_unique_strong (fun a b => hit_before SortBy b a = false)); [|done..|by rewrite P1, P2].
  intros x y Hx%HS Hy%HS' A B. rewrite Hv in A, B by done. rewrite (C1 x y) in A by done.
  assert (E : c x y = Eq) by (by destruct (c x y)). apply He in E.
  apply list_elem_of_lookup in Hx as [i Hi], Hy as [j Hj].
  assert (i = j) as <-; [|congruence].
  eapply NoDup_lookup; [exact Hid| |]; rewrite list_lookup_fmap; [by rewrite Hi|rewrite Hj; cbn; by rewrite E].
Qed.

(** ** Where the comparison is not an ordering *)

#[local] Instance plain_library : Library :=
  { parse := fun _ => None; dump := fun _ => []; sin := fun d => d; cos := fun d => d; atan2 := fun d _ => d; get_time := fun _ => None }.

Definition zero_float : spec_float := S754_zero false.

Definition hit (l : list (bytes * bytes)) : SearchHit :=
  mkHit l zero_float zero_float zero_float one_float [] [] 0.

Lemma sorting_deterministic_witness :
  let a := hit [(#"id", #"a"); (#"price", #"9")] in
  let b := hit [(#"id", #"b"); (#"price", #"10.5")] in
  ApplySorting [b; a] [ #"price:asc"] [a; b] /\
  (forall R, ApplySorting [a; b] [ #"price:asc"] R -> R = [a; b]).
Proof.
  intros a b.
  assert (S : ApplySorting [b; a] [ #"price:asc"] [a; b]).
  { exists [a; b]. split; [|reflexivity]. split; [constructor|]. repeat constructor. }
  split; [exact S|]. intros R HR. symmetry.
  refine (proj2 (sorting_deterministic [b; a] [ #"price:asc"] _ _ _) _ [a; b] [a; b] R _ S HR).
  - constructor; [|constructor]. left. intros h Hh. rewrite !elem_of_cons in Hh.
    destruct Hh as [->|[->|Hh]]; [vm_compute; eauto..|by apply elem_of_nil in Hh].
  - right. intros h Hh. rewrite !elem_of_cons in Hh. destruct Hh as [->|[->|Hh]]; [done..|by apply elem_of_nil in Hh].
  - right. intros h Hh. rewrite !elem_of_cons in Hh. destruct Hh as [->|[->|Hh]]; [done..|by apply elem_of_nil in Hh].
  - apply (bool_decide_eq_true_1 _). vm_compute. reflexivity.
  - constructor.
Defined.

(** The comparison of a field with values of mixed kinds has cycles. Numbers are
    compared as numbers and everything else as text, so 10 comes before 1a, 1a before
    9, and 9 before 10: [std::sort] is called with a comparison that is no ordering,
    and no arrangement of the three hits is sorted. *)
Theorem mixed_values_cycle :
  let h v := hit [(#"id", v); (#"size", v)] in
  let before := hit_before [ #"size"] in
  before (h #"10") (h #"1a") = true /\ before (h #"1a") (h #"9") = true /\ before (h #"9") (h #"10") = true /\
  (forall R, ~ ApplySorting [h #"10"; h #"1a"; h #"9"] [ #"size"] R).
Proof.
  intros h before. assert (B : before (h #"10") (h #"1a") = true /\ before (h #"1a") (h #"9") = true /\ before (h #"9") (h #"10") = true)
    by (vm_compute; done).
  destruct B as (B1 & B2 & B3). split_and!; try done. intros R (S & [P St] & _).
  assert (Hin : forall x, x ∈ S -> exists y, y ∈ S /\ before y x = true).
  { intros x. rewrite P, !elem_of_cons. intros [->|[->|[->|Hx%elem_of_nil]]]; [..|done].
    - exists (h #"9"). rewrite P, !elem_of_cons. eauto.
    - exists (h #"10"). rewrite P, !elem_of_cons. eauto.
    - exists (h #"1a"). rewrite P, !elem_of_cons. eauto. }
  destruct S as [|x l]; [by apply Permutation_nil in P|]. destruct (Hin x) as (y & Hy & Hb); [by left|].
  apply StronglySorted_inv in St as [_ St]. rewrite Forall_forall in St. apply elem_of_cons in Hy as [->|Hy].
  - assert (I : before x x = false); [|congruence]. assert (Hx : x ∈ x :: l) by (by left). rewrite P, !elem_of_cons in Hx.
    destruct Hx as [->|[->|[->|Hx%elem_of_nil]]]; [vm_compute; reflexivity..|done].
  - specialize (St y Hy). change (before y x = false) in St. congruence.
Qed.

(** ** Pages *)

Lemma slice_spec {T} (l : list T) a n : 0 <= a -> 0 <= n -> slice a n l = take (Z.to_nat n) (drop (Z.to_nat a) l).
Proof.
  intros Ha Hn. unfold slice. destruct (Z.le_gt_cases (a + n) (size l)) as [H|H].
  - rewrite Z.min_l by lia. f_equal. lia.
  - rewrite Z.min_r by lia. unfold size in *.
    rewrite !take_ge; [done| |]; rewrite length_drop; lia.
Qed.

Lemma page_spec {T} (l : list T) Page PerPage :
  1 <= Page -> 0 < PerPage < 2 ^ 31 -> Page < 2 ^ 31 ->
  ApplyPagination l Page PerPage = take (Z.to_nat PerPage) (drop (Z.to_nat ((Page - 1) * PerPage)) l).
Proof.
  intros H1 H2 H3. unfold ApplyPagination. destruct l as [|x l]; [by rewrite drop_nil, take_nil|].
  rewrite !(proj2 (Z.leb_gt _ 0)) by lia. cbn [orb].
  assert (Hq : Page - 1 <= SIZE_MAX / PerPage).
  { apply Z.div_le_lower_bound; [lia|]. unfold SIZE_MAX. nia. }
  rewrite (proj2 (Z.ltb_ge _ _)) by done. destruct (Z.leb_spec (size (x :: l)) ((Page - 1) * PerPage)).
  - rewrite drop_ge; [by rewrite take_nil|]. unfold size in *. lia.
  - apply slice_spec; nia.
Qed.

(** Pages partition the hits. With a positive page size, the pages from the first on,
    put together, are the hits in order: the first pages are the hits up to the end of
    the last of them, no hit is missing or repeated, and the later pages are empty.
    A page of the SQL form is that of the same offset. *)
Theorem pages_partition {T} (l : list T) PerPage (n : nat) :
  0 < PerPage < 2 ^ 31 -> Z.of_nat n < 2 ^ 31 - 1 ->
  concat ((fun p => ApplyPagination l (Z.of_nat p) PerPage) <$> seq 1 n) = take (n * Z.to_nat PerPage) l /\
  (size l <= Z.of_nat n * PerPage -> ApplyPagination l (Z.of_nat n + 1) PerPage = []) /\
  ApplyPaginationForSQL l 1 PerPage (Z.of_nat n * PerPage) = ApplyPagination l (Z.of_nat n + 1) PerPage.
Proof.
  intros HP Hn. split_and!.
  - induction n as [|n IH]; [done|]. rewrite seq_S, fmap_app, concat_app, IH by lia. cbn [fmap list_fmap concat].
    rewrite app_nil_r, page_spec by lia.
    replace (Z.to_nat ((Z.of_nat (1 + n) - 1) * PerPage)) with (n * Z.to_nat PerPage)%nat by lia.
    replace (S n * Z.to_nat PerPage)%nat with (n * Z.to_nat PerPage + Z.to_nat PerPage)%nat by lia. by rewrite take_take_drop.
  - intros Hs. rewrite page_spec by lia. rewrite drop_ge; [by rewrite take_nil|]. unfold size in Hs. lia.
  - rewrite page_spec by lia. unfold ApplyPaginationForSQL. destruct l as [|x l]; [by rewrite drop_nil, take_nil|].
    rewrite (proj2 (Z.leb_gt _ 0)), (proj2 (Z.ltb_ge _ 0)) by lia. cbn [orb].
    replace ((Z.of_nat n + 1 - 1) * PerPage) with (Z.of_nat n * PerPage) by lia.
    destruct (Z.leb_spec (size (x :: l)) (Z.of_nat n * PerPage)).
    + rewrite drop_ge; [by rewrite take_nil|]. unfold size in *. lia.
    + apply slice_spec; lia.
Qed.

Lemma pages_partition_witness :
  concat ((fun p => ApplyPagination [1; 2; 3; 4; 5] (Z.of_nat p) 2) <$> seq 1 3) = [1; 2; 3; 4; 5].
Proof. apply (pages_partition [1; 2; 3; 4; 5] 2 3); lia. Defined.

(** ** Loops over a map that fill another *)

Lemma put_last {V} k (v : V) m : Forall (fun p => str_compare p.1 k = Lt) m -> StdMap.put k v m = m ++ [(k, v)].
Proof.
  induction 1 as [|[k1 v1] m H1 Hm IH]; [done|]. cbn [StdMap.put app]. cbn in H1.
  by rewrite (str_compare_antisym k1 k), H1, IH.
Qed.

Lemma fold_put {V U} (keep : bytes * V -> bool) (f : bytes * V -> U) d r :
  StdMap.sorted d -> Forall (fun p => Forall (fun q => str_compare p.1 q.1 = Lt) d) r ->
  foldl (fun r p => if keep p then StdMap.put p.1 (f p) r else r) r d = r ++ ((fun p => (p.1, f p)) <$> List.filter keep d).
Proof.
  revert r. induction d as [|[k v] d IH]; intros r Hs Hr; [by rewrite app_nil_r|].
  apply StronglySorted_inv in Hs as [Hs Hk]. cbn [foldl List.filter].
  assert (Hr' : Forall (fun p => Forall (fun q => str_compare p.1 q.1 = Lt) d) r)
    by (eapply Forall_impl; [exact Hr|]; cbn; intros p Hp; by inversion Hp).
  destruct (keep (k, v)); [|by apply IH]. cbn [fst]. rewrite put_last.
  - rewrite IH; [by rewrite <- app_assoc|done|]. apply Forall_app. split; [done|]. repeat constructor. exact Hk.
  - eapply Forall_impl; [exact Hr|]. intros p Hp. by inversion Hp.
Qed.

(** ** Field selection *)

Lemma existsb_elem (k : bytes) (l : list bytes) : existsb (fun F => bool_decide (F = k)) l = bool_decide (k ∈ l).
Proof.
  induction l as [|F l IH]; [done|]. cbn [existsb]. rewrite IH. repeat case_bool_decide; set_solver.
Qed.

(** The selected fields are those of the document, in order, that are included and not
    excluded; with no list of included fields all are. *)

Lemma selection_filters d inc exc :
  StdMap.sorted d ->
  ApplyFieldSelection d inc exc =
  List.filter (fun p => (bool_decide (inc = []) || bool_decide (p.1 ∈ inc)) && negb (bool_decide (p.1 ∈ exc))) d.
Proof.
  intros Hs. unfold ApplyFieldSelection.
  rewrite (fold_put (fun p => (bool_decide (inc = []) || existsb (fun F => bool_decide (F = p.1)) inc) &&
    negb (existsb (fun F => bool_decide (F = p.1)) exc)) snd); [|done|constructor].
  cbn [app]. rewrite (list_fmap_ext _ id) by (intros ? [k v] _; done). rewrite list_fmap_id.
  apply filter_ext. intros [k v]. by rewrite !existsb_elem.
Qed.

(** ** Groups *)

Section Groups.
Context (GroupBy : list bytes) (GroupLimit : Z) (Hits : list SearchHit).

Notation key := (group_key GroupBy).

Definition of_group (k : bytes) (l : list SearchHit) : list SearchHit := List.filter (fun h => bool_decide (key h = k)) l.

Lemma of_group_none k l : k ∉ key <$> l -> of_group k l = [].
Proof.
  induction l as [|h l IH]; [done|]. cbn [fmap list_fmap]. rewrite not_elem_of_cons. intros [Hk Hl]. unfold of_group. cbn [List.filter].
  rewrite bool_decide_eq_false_2 by congruence. by apply IH.
Qed.

Definition same_group (Groups : list (bytes * list nat)) (P : list SearchHit) : Prop :=
  StdMap.sorted Groups /\
  forall k, match StdMap.find k Groups with
            | Some g => k ∈ key <$> P /\ Forall2 (fun i h => Hits !! i = Some h) g (take (Z.to_nat GroupLimit) (of_group k P))
            | None => k ∉ key <$> P
            end.

Lemma add_same_group Groups P h :
  0 < GroupLimit -> Hits !! length P = Some h -> same_group Groups P ->
  same_group (add_index GroupLimit Groups (key h) (length P)) (P ++ [h]).
Proof.
  intros HL Hh [Hs Hg]. split; [by apply StdMap.put_sorted|]. intros k. unfold add_index. rewrite StdMap.find_put.
  specialize (Hg k). unfold of_group in *. rewrite fmap_app. cbn [fmap list_fmap]. rewrite List.filter_app. cbn [List.filter].
  destruct (bool_decide_reflect (k = key h)) as [->|Hk].
  - rewrite (bool_decide_eq_true_2 (key h = key h)) by done.
    split; [apply elem_of_app; right; apply list_elem_of_here|].
    set (F := List.filter _ P) in *.
    assert (G : Forall2 (fun i h => Hits !! i = Some h) (default [] (StdMap.find (key h) Groups)) (take (Z.to_nat GroupLimit) F)).
    { destruct (StdMap.find (key h) Groups) as [g|]; [by destruct Hg|]. cbn. replace F with (@nil SearchHit); [by rewrite take_nil|].
      symmetry. by apply of_group_none. }
    pose proof (Forall2_length _ _ _ G) as Hlen. rewrite length_take in Hlen. unfold size.
    destruct (Z.ltb_spec (Z.of_nat (length (default [] (StdMap.find (key h) Groups)))) GroupLimit).
    + rewrite take_app_ge by lia. rewrite take_ge in G by lia. apply Forall2_app; [done|].
      rewrite take_ge by (cbn; lia). by repeat constructor.
    + by rewrite take_app_le by lia.
  - rewrite (bool_decide_eq_false_2 (key h = k)) by congruence. rewrite app_nil_r.
    destruct (StdMap.find k Groups); [destruct Hg; split; [|done]; apply elem_of_app; by left|]. set_solver.
Qed.

Lemma group_loop_same P l Groups :
  0 < GroupLimit -> Hits = P ++ l -> same_group Groups P -> same_group (group_loop GroupBy GroupLimit (length P) l Groups) Hits.
Proof.
  intros HL. revert P Groups. induction l as [|h l IH]; intros P Groups E HG; [by rewrite E, app_nil_r|]. cbn [group_loop].
  specialize (IH (P ++ [h]) (add_index GroupLimit Groups (key h) (length P))).
  rewrite length_app, Nat.add_1_r in IH. apply IH; [by rewrite <- app_assoc|].
  apply add_same_group; [done| |done]. rewrite E, lookup_app_r, Nat.sub_diag by lia. done.
Qed.

End Groups.

Lemma find_sorted {V} k (v : V) m : StdMap.sorted m -> (k, v) ∈ m -> StdMap.find k m = Some v.
Proof.
  induction m as [|[k1 v1] m IH]; intros Hs H; [by apply elem_of_nil in H|]. apply StronglySorted_inv in Hs as [Hs Hk].
  cbn [StdMap.find]. apply elem_of_cons in H as [[= -> ->]|H]; [by rewrite bool_decide_eq_true_2|].
  rewrite bool_decide_eq_false_2; [by apply IH|]. intros ->. rewrite Forall_forall in Hk. specialize (Hk _ H).
  unfold StdMap.key_lt in Hk. cbn in Hk. by rewrite str_compare_refl in Hk.
Qed.

Lemma find_in {V} k (v : V) m : StdMap.find k m = Some v -> (k, v) ∈ m.
Proof.
  induction m as [|[k1 v1] m IH]; cbn; [done|]. case_bool_decide; [intros [= ->]; subst; by left|]. intros H'. right. auto.
Qed.

Lemma at_indices_spec Hits g l : Forall2 (fun i h => Hits !! i = Some h) g l -> at_indices Hits g = l.
Proof. induction 1 as [|i h g l Hi Hg IH]; [done|]. unfold at_indices in *. cbn. by rewrite Hi, IH. Qed.

(** Groups hold the first hits of their keys. The result of grouping lists, for each
    key that some hit has, in the order of the keys, the first hits with this key up
    to the limit, in their order; a limit that is not positive gives nothing. *)
Theorem grouping_takes_first GroupBy GroupLimit Hits :
  (GroupLimit <= 0 -> ApplyGrouping Hits GroupBy GroupLimit = []) /\
  (0 < GroupLimit -> exists keys,
     StronglySorted (fun a b => str_compare a b = Lt) keys /\ (forall k, k ∈ keys <-> k ∈ group_key GroupBy <$> Hits) /\
     ApplyGrouping Hits GroupBy GroupLimit =
       concat ((fun k => take (Z.to_nat GroupLimit) (of_group GroupBy k Hits)) <$> keys)).
Proof.
  unfold ApplyGrouping. split; [intros HL; by rewrite (proj2 (Z.leb_le _ _))|]. intros HL. rewrite (proj2 (Z.leb_gt _ _)) by done.
  destruct (group_loop_same GroupBy GroupLimit Hits [] Hits []) as [Hs Hg]; [done|done|split; [constructor|]|].
  { intros k. cbn. apply not_elem_of_nil. }
  cbn [length] in Hs, Hg. set (G := group_loop GroupBy GroupLimit 0 Hits []) in *. exists (G.*1). split_and!.
  - clear Hg. unfold StdMap.sorted in Hs. induction Hs as [|[k v] m Hs IH Hk]; constructor; [done|].
    apply Forall_fmap. exact Hk.
  - intros k. specialize (Hg k). rewrite list_elem_of_fmap. split.
    + intros ([k1 v] & -> & Hin). cbn in Hg |- *. by rewrite (find_sorted _ _ _ Hs Hin) in Hg; destruct Hg.
    + intros Hk. destruct (StdMap.find k G) as [g|] eqn:E; [|done]. exists (k, g). split; [done|]. by apply find_in.
  - f_equal. rewrite <- list_fmap_compose. apply list_fmap_ext. intros i [k g] Hi. cbn. apply at_indices_spec.
    apply list_elem_of_lookup_2 in Hi. specialize (Hg k). rewrite (find_sorted _ _ _ Hs Hi) in Hg. by destruct Hg.
Qed.

Lemma grouping_takes_first_witness :
  exists keys, StronglySorted (fun a b => str_compare a b = Lt) keys /\
    ApplyGrouping [hit [(#"brand", #"x")]; hit [(#"brand", #"a")]; hit [(#"brand", #"x")]] [ #"brand"] 1 =
      concat ((fun k => take 1 (of_group [ #"brand"] k [hit [(#"brand", #"x")]; hit [(#"brand", #"a")]; hit [(#"brand", #"x")]])) <$> keys).
Proof.
  destruct (proj2 (grouping_takes_first [ #"brand"] 1 [hit [(#"brand", #"x")]; hit [(#"brand", #"a")]; hit [(#"brand", #"x")]]))
    as (keys & A & _ & B); [lia|]. exists keys. split; [exact A|exact B].
Defined.

(** The values of several fields are joined without a separator: hits with different
    values can be in one group. *)

Example group_keys_collide :
  group_key [ #"a"; #"b"] (hit [(#"a", #"1"); (#"b", #"23")]) = group_key [ #"a"; #"b"] (hit [(#"a", #"12"); (#"b", #"3")]).
Proof. reflexivity. Qed.

(** ** Highlights *)

Definition found_term (terms : list bytes) (lowered : bytes) (b : option (nat * nat)) : Prop :=
  match b with
  | Some (p, l) => exists t, t ∈ terms /\ t <> [] /\ find_sub t lowered = Some p /\ l = length t
  | None => forall t, t ∈ terms -> t <> [] -> find_sub t lowered = None
  end.

Lemma best_match_spec terms lowered : found_term terms lowered (best_match terms lowered).
Proof.
  unfold best_match.
  assert (G : forall done_terms b, found_term done_terms lowered b ->
    found_term (done_terms ++ terms) lowered (foldl (fun best term => if bool_decide (term = []) then best else
      match find_sub term lowered with None => best | Some found => better best found (length term) end) b terms)).
  { induction terms as [|t terms IH]; intros ds b Hb; [by rewrite app_nil_r|]. cbn [foldl].
    rewrite cons_middle, app_assoc. apply IH. clear IH.
    assert (Hkeep : (t = [] \/ find_sub t lowered = None \/ b <> None) -> found_term (ds ++ [t]) lowered b).
    { intros Hc. destruct b as [[p l]|].
      - destruct Hb as (u & Hu & Hr). exists u. split; [apply elem_of_app; by left|done].
      - intros u Hu Hn. apply elem_of_app in Hu as [Hu| ->%list_elem_of_singleton]; [by apply Hb|]. naive_solver. }
    assert (Hnew : forall n, t <> [] -> find_sub t lowered = Some n -> found_term (ds ++ [t]) lowered (Some (n, length t))).
    { intros n Hn Hf. exists t. split; [apply elem_of_app; right; apply list_elem_of_here|done]. }
    destruct (bool_decide_reflect (t = [])) as [->|Ht]; [apply Hkeep; by left|].
    destruct (find_sub t lowered) as [n|] eqn:E; [|apply Hkeep; auto].
    unfold better. destruct b as [[p l]|]; [|by apply Hnew]. destruct (_ || _); [by apply Hnew|apply Hkeep; right; by right]. }
  apply (G [] None). intros t Ht. by apply elem_of_nil in Ht.
Qed.

(** The pieces of a text: what stands before a mark, and what is marked. *)

Definition plain_of (l : list (bytes * bytes)) : bytes := concat ((fun p => p.1 ++ p.2) <$> l).

Definition marked_of (l : list (bytes * bytes)) : bytes := concat ((fun p => p.1 ++ #"<em>" ++ p.2 ++ #"</em>") <$> l).

Lemma highlight_pieces terms fuel text :
  (length text <= fuel)%nat ->
  exists l tail, text = plain_of l ++ tail /\ highlight_loop fuel terms text = marked_of l ++ tail /\
    Forall (fun p => p.2 <> [] /\ tolower <$> p.2 ∈ terms) l /\
    (forall t, t ∈ terms -> t <> [] -> find_sub t (tolower <$> tail) = None).
Proof.
  revert text. induction fuel as [|f IH]; intros text Hl.
  - destruct text; [|cbn in Hl; lia]. exists [], []. split_and!; [done|done|constructor|]. by intros [].
  - destruct text as [|c text]; [exists [], []; split_and!; [done|done|constructor|by intros []]|].
    cbn [highlight_loop]. pose proof (best_match_spec terms (tolower <$> c :: text)) as B.
    destruct (best_match terms (tolower <$> c :: text)) as [[p n]|].
    + destruct B as (t & Ht & Hn & Hf & ->). pose proof (find_sub_length _ _ _ Hf) as Hlen. rewrite length_fmap in Hlen.
      assert (H0 : (0 < length t)%nat) by (destruct t; [done|cbn; lia]).
      destruct (IH (drop (p + length t) (c :: text))) as (l & tail & E1 & E2 & E3 & E4); [rewrite length_drop; cbn in *; lia|].
      exists ((take p (c :: text), take (length t) (drop p (c :: text))) :: l), tail.
      assert (Hm : tolower <$> take (length t) (drop p (c :: text)) = t)
        by (rewrite fmap_take, fmap_drop; by apply find_sub_at).
      split_and!; [|rewrite E2; unfold marked_of; cbn [fmap list_fmap concat fst snd]; by rewrite <- !app_assoc|..|done].
      * unfold plain_of. cbn [fmap list_fmap concat fst snd]. fold (plain_of l). rewrite <- !app_assoc, <- E1.
        rewrite <- drop_drop, take_drop. by rewrite take_drop.
      * constructor; [|done]. cbn [snd]. split; [|by rewrite Hm]. intros E0. rewrite E0 in Hm. by subst t.
    + exists [], (c :: text). split_and!; [done|done|constructor|done].
Qed.

(** Highlighting only inserts marks. The highlighted text is the text with marks around
    some pieces of it: without the marks it is the text again, every marked piece is,
    in lower case, one of the terms, and no term occurs any more behind the last mark. *)
Theorem highlight_inserts_marks text terms :
  exists l tail, text = plain_of l ++ tail /\ HighlightTerms text terms = marked_of l ++ tail /\
    Forall (fun p => p.2 <> [] /\ tolower <$> p.2 ∈ terms) l /\
    (forall t, t ∈ terms -> t <> [] -> find_sub t (tolower <$> tail) = None).
Proof.
  unfold HighlightTerms. destruct terms as [|t terms]; [|by apply highlight_pieces].
  exists [], text. split_and!; [done|done|constructor|]. intros t Ht. by apply elem_of_nil in Ht.
Qed.

End ResultShapingProps.
