(* ===== verification/Segments.v ===== *)
(** * Segments: src/search/segmented_document_router.cpp, segment_catalog.cpp

    Documents are spread over segments, each a database of its own; a system
    database has for every document the segment of its last version, and a
    tombstone for a deleted one. RocksDB is an interface ([Store], [StoreLaws]).
    The state of [SegmentManager] has what is on disk (system database, manifest,
    one metadata file and one database per segment) and what is in memory; handles
    that the source shares by pointer are entries of one table by segment. Every
    write, flush and open takes its outcome from the list [Outcomes]: done, failed,
    or reported as failed although it took effect; reads do not fail. Calls run one
    after the other; the time and what the file system reports are inputs of a call
    ([Env]). *)

From S2P Require Import Prelude CText Wildcard.

Module Segments.

(** ** The databases *)

Inductive write := Put (k v : bytes) | Delete (k : bytes) | DeleteRange (a b : bytes).

Class Store (DB : Type) := {
  db_empty : DB;
  db_get : DB -> bytes -> option bytes;
  db_write : DB -> write -> DB;
  db_keys : DB -> list bytes
}.

(** What RocksDB documents: reads see the last write, a range includes its first key
    and not its last, an iterator visits the keys in their order. *)

Definition in_key_range (a b k : bytes) : bool := str_leb a k && str_ltb k b.

Class StoreLaws (DB : Type) `{Store DB} : Prop := {
  get_empty k : db_get db_empty k = None;
  get_put d k v k' : db_get (db_write d (Put k v)) k' = if bool_decide (k' = k) then Some v else db_get d k';
  get_delete d k k' : db_get (db_write d (Delete k)) k' = if bool_decide (k' = k) then None else db_get d k';
  get_delete_range d a b k' : db_get (db_write d (DeleteRange a b)) k' = if in_key_range a b k' then None else db_get d k';
  keys_spec d k : k ∈ db_keys d <-> is_Some (db_get d k);
  keys_sorted d : StronglySorted (fun a b => str_compare a b = Lt) (db_keys d)
}.

Definition write_batch {DB} `{Store DB} (d : DB) (l : list write) : DB := foldl db_write d l.

(** ** Keys *)

Definition DocLocationPrefix : bytes := #"__hlq_docloc:".
Definition TombstonePrefix : bytes := #"__hlq_tombstone:".
Definition ManifestGenerationKey : bytes := #"__hlq_segment_manifest_generation".
Definition MetadataPersistDocumentThreshold : Z := 100000.
Definition MetadataPersistBytesThreshold : Z := 256 * 1024 * 1024.
Definition MetadataPersistIntervalMs : Z := 5000.

Definition doc_prefix : bytes := #"doc:".

Definition IsDocKey (key : bytes) : bool := starts_with doc_prefix key.

Definition is_colon (c : ascii) : bool := bool_decide (c = ":"%char).

Definition ParseDocKey (key : bytes) : option (bytes * bytes) :=
  if negb (IsDocKey key) then None
  else
    let r := drop 4 key in
    match find_char is_colon r with
    | None => None
    | Some O => None
    | Some n => if bool_decide (drop (S n) r = []) then None else Some (take n r, drop (S n) r)
    end.

Definition DocLocationKey (collection doc_id : bytes) : bytes := DocLocationPrefix ++ collection ++ #":" ++ doc_id.

Definition TombstoneKey (collection doc_id : bytes) : bytes := TombstonePrefix ++ collection ++ #":" ++ doc_id.

Definition DocKeyFromLocationKey (loc_key : bytes) : bytes :=
  if negb (starts_with DocLocationPrefix loc_key) then [] else doc_prefix ++ drop (length DocLocationPrefix) loc_key.

Definition LocationPrefixFromDocPrefix (p : bytes) : bytes :=
  if negb (starts_with doc_prefix p) then [] else DocLocationPrefix ++ drop 4 p.

Definition pad (n : nat) (s : bytes) : bytes := replicate (n - length s) "0"%char ++ s.

Definition FormatSegmentId (value : Z) : bytes := #"seg_" ++ pad 12 (to_string value).

Definition SegmentOrdinal (segment_id : bytes) : Z :=
  if negb (starts_with #"seg_" segment_id) then 0 else from_option fst 0 (stoull (drop 4 segment_id)).

(** ** State *)

Record SegmentManifest := mkManifest {
  Version : Z; Generation : Z; Active : bytes; Sealed : list bytes; Deleted : list bytes; Manifest_CreatedAtMs : Z
}.

Record SegmentMetadata := mkMetadata {
  Id : bytes; State : bytes; CreatedAtMs : Z; SealedAtMs : Z; DocCountEstimate : Z; BytesEstimate : Z
}.

Record Snapshot := mkSnapshot { Snapshot_Generation : Z; ActiveId : bytes; LiveNewestFirst : list bytes }.

Inductive Outcome := Done | Failed | Late.

Record Env := mkEnv { NowMs : Z; DirectorySize : bytes -> Z; EstimateNumKeys : bytes -> Z }.

Record RocksDBOptions := mkOptions { SegmentMaxDocs : Z; SegmentMaxBytes : Z }.

Definition u64 (z : Z) : Z := z mod 2 ^ 64.

Section Manager.
Context {DB : Type} `{Store DB} (StorageOptions : RocksDBOptions).

Record SegmentManager := mkManager {
  SystemDB : DB;
  ManifestFile : option SegmentManifest;
  SegmentFiles : gmap bytes SegmentMetadata;
  SegmentDBs : gmap bytes DB;
  Manifest : SegmentManifest;
  ActiveSegment : option bytes;
  SealedSegments : list bytes;
  Metadata : gmap bytes SegmentMetadata;
  CurrentSnapshot : option Snapshot;
  ActiveReservedDocuments : Z;
  ActiveReservedBytes : Z;
  ActiveMetadataDirtyDocuments : Z;
  ActiveMetadataDirtyBytes : Z;
  LastMetadataPersistMs : Z;
  Outcomes : list Outcome
}.

Definition set_SystemDB x (s : SegmentManager) : SegmentManager :=
  mkManager x (ManifestFile s) (SegmentFiles s) (SegmentDBs s) (Manifest s) (ActiveSegment s) (SealedSegments s) (Metadata s)
    (CurrentSnapshot s) (ActiveReservedDocuments s) (ActiveReservedBytes s) (ActiveMetadataDirtyDocuments s)
    (ActiveMetadataDirtyBytes s) (LastMetadataPersistMs s) (Outcomes s).

Definition set_ManifestFile x (s : SegmentManager) : SegmentManager :=
  mkManager (SystemDB s) x (SegmentFiles s) (SegmentDBs s) (Manifest s) (ActiveSegment s) (SealedSegments s) (Metadata s)
    (CurrentSnapshot s) (ActiveReservedDocuments s) (ActiveReservedBytes s) (ActiveMetadataDirtyDocuments s)
    (ActiveMetadataDirtyBytes s) (LastMetadataPersistMs s) (Outcomes s).

Definition set_SegmentFiles x (s : SegmentManager) : SegmentManager :=
  mkManager (SystemDB s) (ManifestFile s) x (SegmentDBs s) (Manifest s) (ActiveSegment s) (SealedSegments s) (Metadata s)
    (CurrentSnapshot s) (ActiveReservedDocuments s) (ActiveReservedBytes s) (ActiveMetadataDirtyDocuments s)
    (ActiveMetadataDirtyBytes s) (LastMetadataPersistMs s) (Outcomes s).

Definition set_SegmentDBs x (s : SegmentManager) : SegmentManager :=
  mkManager (SystemDB s) (ManifestFile s) (SegmentFiles s) x (Manifest s) (ActiveSegment s) (SealedSegments s) (Metadata s)
    (CurrentSnapshot s) (ActiveReservedDocuments s) (ActiveReservedBytes s) (ActiveMetadataDirtyDocuments s)
    (ActiveMetadataDirtyBytes s) (LastMetadataPersistMs s) (Outcomes s).

Definition set_Manifest x (s : SegmentManager) : SegmentManager :=
  mkManager (SystemDB s) (ManifestFile s) (SegmentFiles s) (SegmentDBs s) x (ActiveSegment s) (SealedSegments s) (Metadata s)
    (CurrentSnapshot s) (ActiveReservedDocuments s) (ActiveReservedBytes s) (ActiveMetadataDirtyDocuments s)
    (ActiveMetadataDirtyBytes s) (LastMetadataPersistMs s) (Outcomes s).

Definition set_ActiveSegment x (s : SegmentManager) : SegmentManager :=
  mkManager (SystemDB s) (ManifestFile s) (SegmentFiles s) (SegmentDBs s) (Manifest s) x (SealedSegments s) (Metadata s)
    (CurrentSnapshot s) (ActiveReservedDocuments s) (ActiveReservedBytes s) (ActiveMetadataDirtyDocuments s)
    (ActiveMetadataDirtyBytes s) (LastMetadataPersistMs s) (Outcomes s).

Definition set_SealedSegments x (s : SegmentManager) : SegmentManager :=
  mkManager (SystemDB s) (ManifestFile s) (SegmentFiles s) (SegmentDBs s) (Manifest s) (ActiveSegment s) x (Metadata s)
    (CurrentSnapshot s) (ActiveReservedDocuments s) (ActiveReservedBytes s) (ActiveMetadataDirtyDocuments s)
    (ActiveMetadataDirtyBytes s) (LastMetadataPersistMs s) (Outcomes s).

Definition set_Metadata x (s : SegmentManager) : SegmentManager :=
  mkManager (SystemDB s) (ManifestFile s) (SegmentFiles s) (SegmentDBs s) (Manifest s) (ActiveSegment s) (SealedSegments s) x
    (CurrentSnapshot s) (ActiveReservedDocuments s) (ActiveReservedBytes s) (ActiveMetadataDirtyDocuments s)
    (ActiveMetadataDirtyBytes s) (LastMetadataPersistMs s) (Outcomes s).

Definition set_CurrentSnapshot x (s : SegmentManager) : SegmentManager :=
  mkManager (SystemDB s) (ManifestFile s) (SegmentFiles s) (SegmentDBs s) (Manifest s) (ActiveSegment s) (SealedSegments s) (Metadata s)
    x (ActiveReservedDocuments s) (ActiveReservedBytes s) (ActiveMetadataDirtyDocuments s)
    (ActiveMetadataDirtyBytes s) (LastMetadataPersistMs s) (Outcomes s).

Definition set_reserved d b (s : SegmentManager) : SegmentManager :=
  mkManager (SystemDB s) (ManifestFile s) (SegmentFiles s) (SegmentDBs s) (Manifest s) (ActiveSegment s) (SealedSegments s) (Metadata s)
    (CurrentSnapshot s) d b (ActiveMetadataDirtyDocuments s) (ActiveMetadataDirtyBytes s) (LastMetadataPersistMs s) (Outcomes s).

Definition set_dirty d b (s : SegmentManager) : SegmentManager :=
  mkManager (SystemDB s) (ManifestFile s) (SegmentFiles s) (SegmentDBs s) (Manifest s) (ActiveSegment s) (SealedSegments s) (Metadata s)
    (CurrentSnapshot s) (ActiveReservedDocuments s) (ActiveReservedBytes s) d b (LastMetadataPersistMs s) (Outcomes s).

Definition set_persisted t (s : SegmentManager) : SegmentManager :=
  mkManager (SystemDB s) (ManifestFile s) (SegmentFiles s) (SegmentDBs s) (Manifest s) (ActiveSegment s) (SealedSegments s) (Metadata s)
    (CurrentSnapshot s) (ActiveReservedDocuments s) (ActiveReservedBytes s) (ActiveMetadataDirtyDocuments s)
    (ActiveMetadataDirtyBytes s) t (Outcomes s).

Definition set_Outcomes o (s : SegmentManager) : SegmentManager :=
  mkManager (SystemDB s) (ManifestFile s) (SegmentFiles s) (SegmentDBs s) (Manifest s) (ActiveSegment s) (SealedSegments s) (Metadata s)
    (CurrentSnapshot s) (ActiveReservedDocuments s) (ActiveReservedBytes s) (ActiveMetadataDirtyDocuments s)
    (ActiveMetadataDirtyBytes s) (LastMetadataPersistMs s) o.

(** ** Calls that can fail

    The effect takes place unless the call failed; the answer is true if it is done. *)

Definition attempt (effect : SegmentManager -> SegmentManager) (s : SegmentManager) : SegmentManager * bool :=
  match Outcomes s with
  | [] => (effect s, true)
  | Done :: r => (effect (set_Outcomes r s), true)
  | Failed :: r => (set_Outcomes r s, false)
  | Late :: r => (effect (set_Outcomes r s), false)
  end.

Definition no_effect (s : SegmentManager) : SegmentManager := s.

Definition system_write (l : list write) : SegmentManager -> SegmentManager * bool :=
  attempt (fun s => set_SystemDB (write_batch (SystemDB s) l) s).

Definition segment_write (i : bytes) (l : list write) : SegmentManager -> SegmentManager * bool :=
  attempt (fun s => set_SegmentDBs (alter (fun d => write_batch d l) i (SegmentDBs s)) s).

Definition save_metadata (m : SegmentMetadata) (s : SegmentManager) : SegmentManager * bool :=
  if bool_decide (Id m = []) then (s, false)
  else attempt (fun s => set_SegmentFiles (<[Id m := m]> (SegmentFiles s)) s) s.

Definition GetSystemValue (key : bytes) (s : SegmentManager) : option bytes := db_get (SystemDB s) key.

(** ** Manifest and segments *)

Definition live_newest_first (s : SegmentManager) : list bytes := option_list (ActiveSegment s) ++ reverse (SealedSegments s).

Definition PublishSnapshotLocked (s : SegmentManager) : SegmentManager :=
  set_CurrentSnapshot (Some (mkSnapshot (Generation (Manifest s)) (default [] (ActiveSegment s)) (live_newest_first s))) s.

Definition PersistManifestLocked (s : SegmentManager) : SegmentManager * bool :=
  let (s, ok) := system_write [Put ManifestGenerationKey (to_string (Generation (Manifest s)))] s in
  if negb ok then (s, false) else attempt (fun s => set_ManifestFile (Some (Manifest s)) s) s.

Definition PersistSegmentMetadata (i : bytes) (s : SegmentManager) : SegmentManager * bool :=
  match Metadata s !! i with None => (s, false) | Some m => save_metadata m s end.

(** Opening a segment makes its metadata that of the handle. *)

Definition OpenSegment (m : SegmentMetadata) (create_if_missing : bool) (s : SegmentManager) : SegmentManager * bool :=
  if create_if_missing then
    attempt (fun s => set_Metadata (<[Id m := m]> (Metadata s))
               (set_SegmentDBs (<[Id m := default db_empty (SegmentDBs s !! Id m)]> (SegmentDBs s)) s)) s
  else
    match SegmentDBs s !! Id m with
    | None => (s, false)
    | Some _ => attempt (fun s => set_Metadata (<[Id m := m]> (Metadata s)) s) s
    end.

(** The first identifier from [next_id] on that is not in use; one of the first
    [S (length used)] is. *)

Fixpoint unused_id (fuel : nat) (next_id : Z) (used : list bytes) : bytes :=
  match fuel with
  | O => FormatSegmentId next_id
  | S f => if bool_decide (FormatSegmentId next_id ∈ used) then unused_id f (u64 (next_id + 1)) used else FormatSegmentId next_id
  end.

Definition set_active (i : bytes) (g : Z) (m : SegmentManifest) : SegmentManifest :=
  mkManifest (Version m) g i (Sealed m) (Deleted m) (Manifest_CreatedAtMs m).

Definition reset_counters (env : Env) (s : SegmentManager) : SegmentManager :=
  set_persisted (NowMs env) (set_reserved 0 0 (set_dirty 0 0 s)).

Definition CreateActiveSegmentLocked (env : Env) (s : SegmentManager) : SegmentManager * bool :=
  let previous_manifest := Manifest s in
  let previous_active := ActiveSegment s in
  let used := Sealed (Manifest s) ++ (if bool_decide (Active (Manifest s) = []) then [] else [Active (Manifest s)]) in
  let segment_id := unused_id (length used) (u64 (Generation (Manifest s) + 1)) used in
  let metadata := mkMetadata segment_id #"active" (NowMs env) 0 0 0 in
  let (s, ok) := attempt no_effect s in
  if negb ok then (s, false)
  else
    let (s, ok) := save_metadata metadata s in
    if negb ok then (s, false)
    else
      let (s, ok) := OpenSegment metadata true s in
      if negb ok then (s, false)
      else
        let s := set_Manifest (set_active segment_id (SegmentOrdinal segment_id) (Manifest s)) (set_ActiveSegment (Some segment_id) s) in
        let (s, ok) := PersistManifestLocked s in
        if negb ok then (set_Manifest previous_manifest (set_ActiveSegment previous_active s), false)
        else (reset_counters env s, true).

(** ** Capacity *)

Definition active_metadata (s : SegmentManager) : option SegmentMetadata := i ← ActiveSegment s; Metadata s !! i.

Definition over (limit current amount : Z) : bool := (0 <? limit) && (limit - Z.min current limit <? amount).

Definition ActiveSegmentHasCapacityLocked (documents bytes : Z) (s : SegmentManager) : bool :=
  match active_metadata s with
  | None => false
  | Some m =>
      let current_documents := u64 (DocCountEstimate m + ActiveReservedDocuments s) in
      let current_bytes := u64 (BytesEstimate m + ActiveReservedBytes s) in
      if (current_documents =? 0) && (current_bytes =? 0) then true
      else negb (over (SegmentMaxDocs StorageOptions) current_documents documents) &&
           negb (over (SegmentMaxBytes StorageOptions) current_bytes bytes)
  end.

Definition ShouldRotateActiveLocked (s : SegmentManager) : bool :=
  match active_metadata s with
  | None => true
  | Some m =>
      ((0 <? SegmentMaxDocs StorageOptions) && (SegmentMaxDocs StorageOptions <=? DocCountEstimate m)) ||
      ((0 <? SegmentMaxBytes StorageOptions) && (SegmentMaxBytes StorageOptions <=? BytesEstimate m))
  end.

Definition seal (env : Env) (m : SegmentMetadata) : SegmentMetadata :=
  mkMetadata (Id m) #"sealed" (CreatedAtMs m) (NowMs env) (DocCountEstimate m) (DirectorySize env (Id m)).

Definition add_sealed (i : bytes) (m : SegmentManifest) : SegmentManifest :=
  mkManifest (Version m) (Generation m) [] (Sealed m ++ [i]) (Deleted m) (Manifest_CreatedAtMs m).

Definition SealActiveSegmentAndCreateNewLocked (env : Env) (s : SegmentManager) : SegmentManager * bool :=
  match ActiveSegment s, active_metadata s with
  | Some i, Some previous_metadata =>
      let (s, flushed) := attempt no_effect s in
      if negb flushed then (s, false)
      else
        let (s, synced) := attempt no_effect s in
        if negb synced then (s, false)
        else
          let previous_manifest := Manifest s in
          let previous_sealed := SealedSegments s in
          let s := set_Metadata (<[i := seal env previous_metadata]> (Metadata s)) s in
          let (s, ok) := PersistSegmentMetadata i s in
          if negb ok then (set_Metadata (<[i := previous_metadata]> (Metadata s)) s, false)
          else
            let s := set_ActiveSegment None (set_SealedSegments (SealedSegments s ++ [i]) (set_Manifest (add_sealed i (Manifest s)) s)) in
            let (s, ok) := CreateActiveSegmentLocked env s in
            if negb ok then
              let s := set_Metadata (<[i := previous_metadata]> (Metadata s))
                         (set_SealedSegments previous_sealed (set_ActiveSegment (Some i) (set_Manifest previous_manifest s))) in
              ((PersistSegmentMetadata i s).1, false)
            else (PublishSnapshotLocked s, true)
  | _, _ => CreateActiveSegmentLocked env s
  end.

Definition RotateActiveSegmentIfNeeded (env : Env) (s : SegmentManager) : SegmentManager * bool :=
  if negb (ShouldRotateActiveLocked s) then (s, true) else SealActiveSegmentAndCreateNewLocked env s.

Definition EnsureActiveSegmentCapacity (env : Env) (documents bytes : Z) (s : SegmentManager) : SegmentManager * bool :=
  let (s, ok) := match ActiveSegment s with Some _ => (s, true) | None => CreateActiveSegmentLocked env s end in
  if negb ok then (s, false)
  else if ActiveSegmentHasCapacityLocked documents bytes s then (s, true)
  else SealActiveSegmentAndCreateNewLocked env s.

Definition PersistActiveMetadataIfNeededLocked (env : Env) (force : bool) (s : SegmentManager) : SegmentManager * bool :=
  match ActiveSegment s with
  | None => (s, true)
  | Some i =>
      if (ActiveMetadataDirtyDocuments s =? 0) && (ActiveMetadataDirtyBytes s =? 0) then (s, true)
      else
        let last := LastMetadataPersistMs s in
        let interval_elapsed := (last =? 0) || (NowMs env <? last) || (MetadataPersistIntervalMs <=? NowMs env - last) in
        if negb force && (ActiveMetadataDirtyDocuments s <? MetadataPersistDocumentThreshold) &&
           (ActiveMetadataDirtyBytes s <? MetadataPersistBytesThreshold) && negb interval_elapsed then (s, true)
        else
          let (s, ok) := PersistSegmentMetadata i s in
          if negb ok then (s, false) else (set_persisted (NowMs env) (set_dirty 0 0 s), true)
  end.

(** ** Writing *)

Definition location_writes (segment_id : bytes) (now : Z) (c_id : bytes * bytes) : list write :=
  [Put (DocLocationKey c_id.1 c_id.2) (segment_id ++ #":" ++ to_string now); Delete (TombstoneKey c_id.1 c_id.2)].

Definition PutDocLocation (key segment_id : bytes) (timestamp_ms : Z) (s : SegmentManager) : SegmentManager * bool :=
  match ParseDocKey key with
  | None => (s, false)
  | Some c_id => system_write (location_writes segment_id timestamp_ms c_id) s
  end.

Definition count_documents (n b : Z) (m : SegmentMetadata) : SegmentMetadata :=
  mkMetadata (Id m) (State m) (CreatedAtMs m) (SealedAtMs m) (u64 (DocCountEstimate m + n)) (u64 (BytesEstimate m + b)).

(** The write of [n] documents of [b] bytes to the active segment and to the system
    database, between the reservation of the space and its release. *)

Definition write_documents (env : Env) (i : bytes) (n b : Z) (docs system : list write) (s : SegmentManager) : SegmentManager * bool :=
  let s := set_reserved (u64 (ActiveReservedDocuments s + n)) (u64 (ActiveReservedBytes s + b)) s in
  let (s, ok) := segment_write i docs s in
  let (s, ok) := if negb ok then (s, false) else system_write system s in
  let s := set_reserved (u64 (ActiveReservedDocuments s - n)) (u64 (ActiveReservedBytes s - b)) s in
  if negb ok then (s, false)
  else
    let s := set_Metadata (alter (count_documents n b) i (Metadata s)) s in
    let s := set_dirty (u64 (ActiveMetadataDirtyDocuments s + n)) (u64 (ActiveMetadataDirtyBytes s + b)) s in
    let (s, ok) := PersistActiveMetadataIfNeededLocked env false s in
    if negb ok then (s, false)
    else if ShouldRotateActiveLocked s then RotateActiveSegmentIfNeeded env s else (s, true).

(** The loop that makes room first. *)

Fixpoint write_loop (fuel : nat) (env : Env) (n b : Z) (docs : list write) (system : bytes -> list write) (s : SegmentManager)
    : option (SegmentManager * bool) :=
  match fuel with
  | O => None
  | S f =>
      match ActiveSegment s with
      | Some i =>
          if ActiveSegmentHasCapacityLocked n b s then Some (write_documents env i n b docs (system i) s)
          else
            let (s, ok) := EnsureActiveSegmentCapacity env n b s in
            if negb ok then Some (s, false) else write_loop f env n b docs system s
      | None =>
          let (s, ok) := EnsureActiveSegmentCapacity env n b s in
          if negb ok then Some (s, false) else write_loop f env n b docs system s
      end
  end.

Definition SetDocument (env : Env) (key value : bytes) (s : SegmentManager) : option (SegmentManager * bool) :=
  match ParseDocKey key with
  | None => Some (s, false)
  | Some c_id =>
      write_loop 2 env 1 (size key + size value) [Put key value] (fun i => location_writes i (NowMs env) c_id) s
  end.

Definition BatchSetDocuments (env : Env) (key_values : list (bytes * bytes)) (s : SegmentManager) : option (SegmentManager * Z) :=
  match mapM (fun kv => ParseDocKey kv.1) key_values with
  | None => Some (s, 0)
  | Some ids =>
      match key_values with
      | [] => Some (s, 0)
      | _ =>
          let b := u64 (foldl (fun a kv => a + size kv.1 + size kv.2) 0 key_values) in
          (fun r => (r.1, if (r.2 : bool) then size key_values else 0)) <$>
          write_loop 2 env (size key_values) b ((fun kv => Put kv.1 kv.2) <$> key_values)
            (fun i => ids ≫= location_writes i (NowMs env)) s
      end
  end.

(** ** Reading *)

Definition IsTombstoned (c_id : bytes * bytes) (s : SegmentManager) : bool :=
  bool_decide (is_Some (GetSystemValue (TombstoneKey c_id.1 c_id.2) s)).

Definition snapshot_ids (s : SegmentManager) : list bytes := from_option LiveNewestFirst [] (CurrentSnapshot s).

Definition segment_get (i key : bytes) (s : SegmentManager) : option bytes := d ← SegmentDBs s !! i; db_get d key.

(** The segment of a location: the text before the first colon. *)

Definition location_segment (docloc : bytes) : bytes :=
  match find_char is_colon docloc with None => docloc | Some n => take n docloc end.

Definition FindSegment (segment_id : bytes) (s : SegmentManager) : option bytes :=
  if bool_decide (segment_id ∈ snapshot_ids s) then Some segment_id else None.

Fixpoint first_segment (ids : list bytes) (key : bytes) (s : SegmentManager) : option (bytes * bytes) :=
  match ids with
  | [] => None
  | i :: r => match segment_get i key s with Some v => Some (i, v) | None => first_segment r key s end
  end.

Definition routed_get (c_id : bytes * bytes) (key : bytes) (s : SegmentManager) : option bytes :=
  docloc ← GetSystemValue (DocLocationKey c_id.1 c_id.2) s;
  i ← FindSegment (location_segment docloc) s;
  segment_get i key s.

Definition GetDocument (env : Env) (key : bytes) (s : SegmentManager) : SegmentManager * bytes :=
  match ParseDocKey key with
  | None => (s, [])
  | Some c_id =>
      if IsTombstoned c_id s then (s, [])
      else
        match routed_get c_id key s with
        | Some v => (s, v)
        | None =>
            match first_segment (snapshot_ids s) key s with
            | Some (i, v) => ((PutDocLocation key i (NowMs env) s).1, v)
            | None => (s, [])
            end
        end
  end.

Definition ExistsDocument (env : Env) (key : bytes) (s : SegmentManager) : SegmentManager * bool :=
  let (s, v) := GetDocument env key s in (s, negb (bool_decide (v = []))).

(** ** Deleting *)

Definition tombstone_writes (now : Z) (c_id : bytes * bytes) : list write :=
  [Put (TombstoneKey c_id.1 c_id.2) (to_string now); Delete (DocLocationKey c_id.1 c_id.2)].

Definition DeleteDocument (env : Env) (key : bytes) (s : SegmentManager) : SegmentManager * Z :=
  match ParseDocKey key with
  | None => (s, 0)
  | Some c_id =>
      let (s, ok) := system_write (tombstone_writes (NowMs env) c_id) s in
      if negb ok then (s, 0)
      else match ActiveSegment s with
           | Some i => ((segment_write i [Delete key] s).1, 1)
           | None => (s, 1)
           end
  end.

(** The keys of the system database from a prefix on, while they have it. *)

Definition prefixed_keys (p : bytes) (s : SegmentManager) : list bytes := List.filter (starts_with p) (db_keys (SystemDB s)).

Definition in_doc_range (start_key end_key doc_key : bytes) : bool :=
  negb (bool_decide (doc_key = [])) && str_leb start_key doc_key && str_ltb doc_key end_key.

Definition DeleteDocumentRange (env : Env) (start_key end_key : bytes) (s : SegmentManager) : SegmentManager * Z :=
  if negb (starts_with doc_prefix start_key) then (s, 0)
  else
    let doc_keys := DocKeyFromLocationKey <$> prefixed_keys (LocationPrefixFromDocPrefix start_key) s in
    let ids := omap ParseDocKey (List.filter (in_doc_range start_key end_key) doc_keys) in
    if bool_decide (ids = []) then (s, 0)
    else let (s, ok) := system_write (ids ≫= tombstone_writes (NowMs env)) s in (s, if (ok : bool) then 1 else 0).

(** The byte 255 that ends the ranges over all keys with a prefix. *)

Definition clear_prefix (p : bytes) : write := DeleteRange p (p ++ [chr 255]).

Definition empty_metadata (m : SegmentMetadata) : SegmentMetadata :=
  mkMetadata (Id m) (State m) (CreatedAtMs m) (SealedAtMs m) 0 0.

Fixpoint clear_segments (ids : list bytes) (s : SegmentManager) : SegmentManager * bool :=
  match ids with
  | [] => (s, true)
  | i :: r =>
      let (s, ok) := segment_write i [DeleteRange #"doc:" #"doc;"] s in
      if negb ok then (s, false)
      else
        let s := set_Metadata (alter empty_metadata i (Metadata s)) s in
        let (s, ok) := PersistSegmentMetadata i s in
        if negb ok then (s, false) else clear_segments r s
  end.

Definition ClearAllDocuments (env : Env) (s : SegmentManager) : SegmentManager * bool :=
  match CurrentSnapshot s with
  | None => (s, false)
  | Some snapshot =>
      let (s, ok) := clear_segments (LiveNewestFirst snapshot) s in
      if negb ok then (s, false)
      else
        let s := set_persisted (NowMs env) (set_dirty 0 0 s) in
        system_write [clear_prefix DocLocationPrefix; clear_prefix TombstonePrefix;
                      Put ManifestGenerationKey (to_string (Snapshot_Generation snapshot))] s
  end.

(** ** Listing *)

Definition live_doc_key (s : SegmentManager) (loc_key : bytes) : option bytes :=
  let doc_key := DocKeyFromLocationKey loc_key in
  match ParseDocKey doc_key with
  | None => None
  | Some c_id => if IsTombstoned c_id s then None else Some doc_key
  end.

Definition Keys (pattern : bytes) (s : SegmentManager) : list bytes :=
  List.filter (fun k => Wildcard.Match k pattern) (omap (live_doc_key s) (prefixed_keys DocLocationPrefix s)).

Definition PrefixKeys (prefix : bytes) (offset limit : nat) (s : SegmentManager) : list bytes :=
  let loc_prefix := LocationPrefixFromDocPrefix prefix in
  if bool_decide (loc_prefix = []) then []
  else
    let keys := drop offset (omap (live_doc_key s) (prefixed_keys loc_prefix s)) in
    if (0 <? limit)%nat then take limit keys else keys.

Definition CountKeys (prefix : bytes) (s : SegmentManager) : nat := length (PrefixKeys prefix 0 0 s).

(** The bytes of the documents of a listing, each read by its key. *)

Fixpoint total_size (env : Env) (keys : list bytes) (total : Z) (s : SegmentManager) : SegmentManager * Z :=
  match keys with
  | [] => (s, total)
  | k :: r => let (s, v) := GetDocument env k s in total_size env r (u64 (total + size v)) s
  end.

Definition GetPrefixTotalSize (env : Env) (prefix : bytes) (s : SegmentManager) : SegmentManager * Z :=
  total_size env (PrefixKeys prefix 0 0 s) 0 s.

(** ** Durability

    Flushing and syncing do not change what is stored; every segment is tried. The text
    of a status and the time it took are left out of the results. *)

Fixpoint flush_segments (calls : nat) (ids : list bytes) (ok : bool) (s : SegmentManager) : SegmentManager * bool :=
  match ids with
  | [] => (s, ok)
  | _ :: r =>
      let (s, ok) := Nat.iter calls (fun x : SegmentManager * bool => let (s, b) := attempt no_effect x.1 in (s, b && x.2)) (s, ok) in
      flush_segments calls r ok s
  end.

Definition Flush (env : Env) (s : SegmentManager) : SegmentManager * bool :=
  let (s, ok) := flush_segments 1 (snapshot_ids s) true s in
  let (s, saved) := PersistActiveMetadataIfNeededLocked env true s in (s, saved && ok).

Definition FlushAndSync (env : Env) (s : SegmentManager) : SegmentManager * bool :=
  let (s, ok) := flush_segments 2 (snapshot_ids s) true s in
  let (s, saved) := PersistActiveMetadataIfNeededLocked env true s in (s, saved && ok).

Record DurabilityInstanceResult := mkDurability { Name : bytes; Operation : bytes; Success : bool }.

Fixpoint barrier_segments (sync_wal flush_memtables : bool) (ids : list bytes) (s : SegmentManager) : SegmentManager * list DurabilityInstanceResult :=
  match ids with
  | [] => (s, [])
  | i :: r =>
      let (s, flushed) := if flush_memtables then attempt no_effect s else (s, true) in
      let operation := if flush_memtables then #"Flush" else [] in
      let (s, synced) := if flushed && sync_wal then attempt no_effect s else (s, flushed) in
      let operation := if flushed && sync_wal then operation ++ (if bool_decide (operation = []) then #"SyncWAL" else #"+SyncWAL") else operation in
      let (s, results) := barrier_segments sync_wal flush_memtables r s in
      (s, mkDurability (#"segment:" ++ i) operation synced :: results)
  end.

Definition ExecuteDurabilityBarrier (env : Env) (sync_wal flush_memtables : bool) (s : SegmentManager)
    : SegmentManager * list DurabilityInstanceResult :=
  let (s, metadata_ok) := PersistActiveMetadataIfNeededLocked env true s in
  let (s, results) := barrier_segments sync_wal flush_memtables (snapshot_ids s) s in
  (s, mkDurability #"segment_metadata" #"persist" metadata_ok :: results).

Definition SyncWAL (env : Env) (s : SegmentManager) : SegmentManager * bool :=
  let (s, results) := ExecuteDurabilityBarrier env true false s in (s, forallb Success results).

(** ** Start and restart *)

Definition RebuildBatchSize : nat := 4096.

(** One document of the scan: its route is added to the batch unless it has one in the
    batch or in the database; a full batch is written. *)

Definition rebuild_key (env : Env) (i doc_key : bytes) (x : SegmentManager * list write * list bytes * bool)
    : SegmentManager * list write * list bytes * bool :=
  let '(s, batch, pending, ok) := x in
  if negb ok then x
  else
    match ParseDocKey doc_key with
    | None => x
    | Some c_id =>
        if IsTombstoned c_id s then x
        else
          let route_key := DocLocationKey c_id.1 c_id.2 in
          if bool_decide (route_key ∈ pending) || bool_decide (is_Some (GetSystemValue route_key s)) then x
          else
            let batch := batch ++ [Put route_key (i ++ #":" ++ to_string (NowMs env))] in
            let pending := route_key :: pending in
            if (RebuildBatchSize <=? length pending)%nat then
              let (s, ok) := system_write batch s in if (ok : bool) then (s, [], [], true) else (s, batch, pending, false)
            else (s, batch, pending, true)
    end.

Definition segment_doc_keys (i : bytes) (s : SegmentManager) : list bytes :=
  match SegmentDBs s !! i with None => [] | Some d => List.filter (starts_with doc_prefix) (db_keys d) end.

Definition RebuildDocLocationMap (env : Env) (s : SegmentManager) : SegmentManager * bool :=
  match CurrentSnapshot s with
  | None => (s, false)
  | Some snapshot =>
      let (s, ok) := system_write [clear_prefix DocLocationPrefix] s in
      if negb ok then (s, false)
      else
        let '(s, batch, pending, ok) :=
          foldl (fun x i => foldl (fun x k => rebuild_key env i k x) x (segment_doc_keys i x.1.1.1))
            (s, [], [], true) (LiveNewestFirst snapshot) in
        if negb ok then (s, false)
        else
          let (s, ok) := match pending with [] => (s, true) | _ => system_write batch s end in
          if negb ok then (s, false)
          else system_write [Put ManifestGenerationKey (to_string (Snapshot_Generation snapshot))] s
  end.

(** The manifest that is made of the metadata files when there is none, in the order
    of the identifiers. *)

Definition str_le (a b : SegmentMetadata) : Prop := str_leb (Id a) (Id b) = true.

#[local] Instance str_le_dec a b : Decision (str_le a b) := decide (str_leb (Id a) (Id b) = true).

Definition discover (m : SegmentManifest) (d : SegmentMetadata) : SegmentManifest :=
  let g := Z.max (Generation m) (SegmentOrdinal (Id d)) in
  if bool_decide (State d = #"active") then
    mkManifest (Version m) g (Id d) (if bool_decide (Active m = []) then Sealed m else Sealed m ++ [Active m]) (Deleted m) (Manifest_CreatedAtMs m)
  else mkManifest (Version m) g (Active m) (Sealed m ++ [Id d]) (Deleted m) (Manifest_CreatedAtMs m).

Definition promote (m : SegmentManifest) : SegmentManifest :=
  match last (Sealed m) with
  | Some i => if bool_decide (Active m = [])
              then mkManifest (Version m) (Generation m) i (take (length (Sealed m) - 1) (Sealed m)) (Deleted m) (Manifest_CreatedAtMs m)
              else m
  | None => m
  end.

Definition LoadOrCreateManifest (env : Env) (s : SegmentManager) : SegmentManager * bool :=
  match ManifestFile s with
  | Some m => (set_Manifest m s, true)
  | None =>
      let discovered := merge_sort str_le (List.filter (fun m => negb (bool_decide (State m = #"deleted"))) (map_to_list (SegmentFiles s)).*2) in
      let m := promote (foldl discover (mkManifest 1 0 [] [] [] (NowMs env)) discovered) in
      PersistManifestLocked (set_Manifest m s)
  end.

(** A segment of the manifest: its metadata is put right and it is opened. *)

Definition open_listed (fix_metadata : SegmentMetadata -> SegmentMetadata) (state i : bytes) (s : SegmentManager) : SegmentManager * bool :=
  match SegmentFiles s !! i with
  | None => (s, false)
  | Some m =>
      if negb (bool_decide (Id m = i)) then (s, false)
      else
        let fixed := if bool_decide (State m = state) then m else fix_metadata m in
        let (s, ok) := if bool_decide (State m = state) then (s, true) else save_metadata fixed s in
        if negb ok then (s, false) else OpenSegment fixed false s
  end.

Definition fix_sealed (env : Env) (m : SegmentMetadata) : SegmentMetadata :=
  mkMetadata (Id m) #"sealed" (CreatedAtMs m) (if SealedAtMs m =? 0 then NowMs env else SealedAtMs m) (DocCountEstimate m) (BytesEstimate m).

Definition fix_active (m : SegmentMetadata) : SegmentMetadata :=
  mkMetadata (Id m) #"active" (CreatedAtMs m) 0 (DocCountEstimate m) (BytesEstimate m).

Fixpoint open_sealed (env : Env) (ids : list bytes) (s : SegmentManager) : SegmentManager * bool :=
  match ids with
  | [] => (s, true)
  | i :: r =>
      let (s, ok) := open_listed (fix_sealed env) #"sealed" i s in
      if negb ok then (s, false) else open_sealed env r (set_SealedSegments (SealedSegments s ++ [i]) s)
  end.

Definition estimate (env : Env) (m : SegmentMetadata) : SegmentMetadata :=
  mkMetadata (Id m) (State m) (CreatedAtMs m) (SealedAtMs m) (EstimateNumKeys env (Id m)) (DirectorySize env (Id m)).

Definition open_active (env : Env) (i : bytes) (s : SegmentManager) : SegmentManager * bool :=
  let (s, ok) := open_listed fix_active #"active" i s in
  if negb ok then (s, false)
  else
    let s := set_ActiveSegment (Some i) s in
    match Metadata s !! i with
    | None => (s, false)
    | Some m =>
        if (EstimateNumKeys env i =? DocCountEstimate m) && (DirectorySize env i =? BytesEstimate m) then (s, true)
        else PersistSegmentMetadata i (set_Metadata (<[i := estimate env m]> (Metadata s)) s)
    end.

Definition OpenManifestSegments (env : Env) (s : SegmentManager) : SegmentManager * bool :=
  let s := set_SealedSegments [] (set_ActiveSegment None s) in
  let (s, ok) := open_sealed env (Sealed (Manifest s)) s in
  if negb ok then (s, false)
  else
    let (s, ok) := if bool_decide (Active (Manifest s) = []) then (s, true) else open_active env (Active (Manifest s)) s in
    if negb ok then (s, false) else (reset_counters env s, true).

Definition Initialize (env : Env) (s : SegmentManager) : SegmentManager * bool :=
  let (s, ok) := attempt no_effect s in
  if negb ok then (s, false)
  else
    let (s, ok) := LoadOrCreateManifest env s in
    if negb ok then (s, false)
    else
      let (s, ok) := OpenManifestSegments env s in
      if negb ok then (s, false)
      else
        let (s, ok) := match ActiveSegment s with Some _ => (s, true) | None => CreateActiveSegmentLocked env s end in
        if negb ok then (s, false)
        else
          let s := PublishSnapshotLocked s in
          if bool_decide (GetSystemValue ManifestGenerationKey s = Some (to_string (Generation (Manifest s)))) then (s, true)
          else RebuildDocLocationMap env s.

Definition Shutdown (env : Env) (s : SegmentManager) : SegmentManager :=
  let s := (PersistActiveMetadataIfNeededLocked env true s).1 in
  set_dirty 0 0 (set_reserved 0 0 (set_SealedSegments [] (set_ActiveSegment None (set_CurrentSnapshot None s)))).

End Manager.

Arguments SegmentManager DB : clear implicits.

End Segments.
