(* ===== verification/SegmentsInv.v ===== *)
(** * Document segments: keys, databases and what the parts of the manager keep

    The keys of documents, routes and tombstones correspond one to one; what a batch
    changes; the state that every operation keeps ([good] while the manager runs,
    [good_disk] across a restart). *)

From S2P Require Import Prelude CText Wildcard Segments.
Import Segments.

Module SegmentsInv.

(** ** Keys *)

Definition no_colon (s : bytes) : Prop := Forall (fun c => is_colon c = false) s.

Lemma is_colon_true c : is_colon c = true -> c = ":"%char.
Proof. apply bool_decide_eq_true. Qed.

Lemma colon_split a b c d : no_colon a -> no_colon c -> a ++ ":"%char :: b = c ++ ":"%char :: d -> a = c /\ b = d.
Proof.
  intros Ha. revert c. induction Ha as [|x a Hx Ha IH]; intros [|y c] Hc E; simplify_eq/=; try done; [by inv Hc|].
  inv Hc. destruct (IH c) as [-> ->]; done.
Qed.

Lemma ParseDocKey_spec k c i :
  ParseDocKey k = Some (c, i) <-> k = doc_prefix ++ c ++ #":" ++ i /\ c <> [] /\ i <> [] /\ no_colon c.
Proof.
  unfold ParseDocKey, IsDocKey. destruct (starts_with doc_prefix k) eqn:E; simpl negb; cbv iota.
  2: { split; [done|]. intros [-> _]. exfalso. revert E. apply not_false_iff_true. apply starts_with_spec. eauto. }
  apply starts_with_spec in E as [r ->]. change (drop 4 (doc_prefix ++ r)) with r.
  destruct (find_char is_colon r) as [n|] eqn:F.
  - apply find_char_Some in F as (a & x & b & -> & <- & Ha & Hx). apply is_colon_true in Hx as ->.
    assert (drop (S (length a)) (a ++ ":"%char :: b) = b) as D by (by rewrite drop_app_ge, Nat.sub_succ_l, Nat.sub_diag by lia).
    rewrite D, take_app_length. split.
    + intros H. destruct (length a) eqn:L; [done|]. destruct (bool_decide (b = [])) eqn:B; [done|]. injection H as <- <-.
      apply bool_decide_eq_false in B. split_and!; [done| |done|done]. by intros ->.
    + intros (He & Hc & Hi & Hn). apply app_inv_head in He. change (#":" ++ i) with (":"%char :: i) in He.
      apply colon_split in He as [-> ->]; [|done|done].
      destruct (length c) eqn:L; [by destruct c|]. by rewrite bool_decide_false.
  - split; [done|]. intros (He & _ & _ & _). apply app_inv_head in He as ->. apply find_char_None in F.
    apply Forall_app in F as [_ F]. apply Forall_app in F as [F _]. by inv F.
Qed.

Lemma ParseDocKey_inj k k' p : ParseDocKey k = Some p -> ParseDocKey k' = Some p -> k = k'.
Proof. destruct p. intros [-> _]%ParseDocKey_spec [-> _]%ParseDocKey_spec. done. Qed.

(** The keys of the system database for a document. *)

Lemma DocLocationKey_eq k p : ParseDocKey k = Some p -> DocLocationKey p.1 p.2 = DocLocationPrefix ++ drop 4 k.
Proof. destruct p. by intros [-> _]%ParseDocKey_spec. Qed.

Lemma TombstoneKey_eq k p : ParseDocKey k = Some p -> TombstoneKey p.1 p.2 = TombstonePrefix ++ drop 4 k.
Proof. destruct p. by intros [-> _]%ParseDocKey_spec. Qed.

Lemma ParseDocKey_drop k p : ParseDocKey k = Some p -> k = doc_prefix ++ drop 4 k.
Proof. destruct p. by intros [-> _]%ParseDocKey_spec. Qed.

Lemma DocLocationKey_inj k k' p p' :
  ParseDocKey k = Some p -> ParseDocKey k' = Some p' -> DocLocationKey p.1 p.2 = DocLocationKey p'.1 p'.2 -> p = p'.
Proof.
  intros H H'. rewrite (DocLocationKey_eq k), (DocLocationKey_eq k') by done. intros E%app_inv_head.
  apply (inj Some). rewrite <- H, <- H'. f_equal. rewrite (ParseDocKey_drop k p), (ParseDocKey_drop k' p') by done. by rewrite E.
Qed.

Lemma TombstoneKey_inj k k' p p' :
  ParseDocKey k = Some p -> ParseDocKey k' = Some p' -> TombstoneKey p.1 p.2 = TombstoneKey p'.1 p'.2 -> p = p'.
Proof.
  intros H H'. rewrite (TombstoneKey_eq k), (TombstoneKey_eq k') by done. intros E%app_inv_head.
  apply (inj Some). rewrite <- H, <- H'. f_equal. rewrite (ParseDocKey_drop k p), (ParseDocKey_drop k' p') by done. by rewrite E.
Qed.

Lemma location_not_tombstone p q : DocLocationKey p.1 p.2 <> TombstoneKey q.1 q.2.
Proof. intros E. apply (f_equal (take 13)) in E. cbv in E. discriminate E. Qed.

Lemma location_not_generation p : DocLocationKey p.1 p.2 <> ManifestGenerationKey.
Proof. intros E. apply (f_equal (take 13)) in E. cbv in E. discriminate E. Qed.

Lemma tombstone_not_generation p : TombstoneKey p.1 p.2 <> ManifestGenerationKey.
Proof. intros E. apply (f_equal (take 16)) in E. cbv in E. discriminate E. Qed.

Lemma DocKeyFromLocationKey_eq k p : ParseDocKey k = Some p -> DocKeyFromLocationKey (DocLocationKey p.1 p.2) = k.
Proof.
  intros H. unfold DocKeyFromLocationKey. rewrite (DocLocationKey_eq k) by done.
  assert (starts_with DocLocationPrefix (DocLocationPrefix ++ drop 4 k) = true) as -> by (apply starts_with_spec; eauto).
  simpl negb. cbv iota. rewrite drop_app_length. symmetry. by eapply ParseDocKey_drop.
Qed.

(** ** Locations and identifiers *)

Lemma location_segment_eq i t : no_colon i -> location_segment (i ++ #":" ++ t) = i.
Proof.
  intros H. unfold location_segment. assert (find_char is_colon (i ++ #":" ++ t) = Some (length i)) as ->.
  { apply find_char_Some. by exists i, ":"%char, t. }
  by rewrite take_app_length.
Qed.

Lemma digits_no_colon s : is_digits s -> no_colon s.
Proof.
  intros H. apply (Forall_impl _ _ _ H). intros c Hc. revert Hc.
  assert (negb (isdigit c) || negb (is_colon c) = true) as E by by_bytes (fun c => negb (isdigit c) || negb (is_colon c)) c.
  intros Hc. rewrite Hc in E. by apply negb_true_iff.
Qed.

Lemma pad_digits n z : 0 <= z -> is_digits (pad n (to_string z)) /\ pad n (to_string z) <> [] /\ digits_val 10 (pad n (to_string z)) = z.
Proof.
  intros Hz. destruct (to_string_value z Hz) as (H1 & H2 & H3). unfold pad. split_and!.
  - apply Forall_app. split; [|done]. by apply Forall_replicate.
  - by intros [_ ?]%app_nil.
  - by rewrite digits_val_zeros.
Qed.

(** The number of an identifier. *)

Lemma SegmentOrdinal_FormatSegmentId n : 0 <= n < 2 ^ 64 -> SegmentOrdinal (FormatSegmentId n) = n.
Proof.
  intros Hn. destruct (pad_digits 12 n) as (H1 & H2 & H3); [lia|]. unfold SegmentOrdinal, FormatSegmentId.
  assert (starts_with #"seg_" (#"seg_" ++ pad 12 (to_string n)) = true) as -> by (apply starts_with_spec; eauto).
  change (drop 4 (#"seg_" ++ pad 12 (to_string n))) with (pad 12 (to_string n)). simpl negb. cbv iota.
  rewrite stoull_digits; lia || done.
Qed.

Definition good_id (i : bytes) : Prop := i <> [] /\ no_colon i.

Lemma FormatSegmentId_good n : 0 <= n -> good_id (FormatSegmentId n).
Proof.
  intros Hn. destruct (pad_digits 12 n Hn) as (H1 & _ & _). split; [done|].
  apply Forall_app. split; [by repeat constructor|]. by apply digits_no_colon.
Qed.

Lemma u64_range z : 0 <= u64 z < 2 ^ 64.
Proof. by apply Z.mod_pos_bound. Qed.

Lemma u64_succ z : u64 (u64 z + 1) = u64 (z + 1).
Proof. unfold u64. by rewrite Zplus_mod_idemp_l. Qed.

Lemma unused_id_good f n used : 0 <= n -> good_id (unused_id f n used).
Proof.
  revert n. induction f as [|f IH]; intros n Hn; simpl; [by apply FormatSegmentId_good|].
  case_bool_decide; [apply IH, u64_range|by apply FormatSegmentId_good].
Qed.

(** One of [S (length used)] successive identifiers is free. *)

Lemma unused_id_is f n used :
  0 <= n < 2 ^ 64 -> exists j, (j <= f)%nat /\ unused_id f n used = FormatSegmentId (u64 (n + Z.of_nat j)) /\
  (forall j', (j' < j)%nat -> FormatSegmentId (u64 (n + Z.of_nat j')) ∈ used) /\
  ((j < f)%nat -> FormatSegmentId (u64 (n + Z.of_nat j)) ∉ used).
Proof.
  revert n. induction f as [|f IH]; intros n Hn; cbn [unused_id];
    (assert (u64 (n + Z.of_nat 0) = n) as E0 by (unfold u64; rewrite Z.mod_small; lia)).
  - exists 0%nat. rewrite E0. split_and!; [lia|done|lia|lia].
  - case_bool_decide as Hin; [|exists 0%nat; rewrite E0; split_and!; [lia|done|lia|done]].
    destruct (IH (u64 (n + 1)) (u64_range _)) as (j & Hj & E & Hu & Hl).
    assert (forall j, u64 (u64 (n + 1) + Z.of_nat j) = u64 (n + Z.of_nat (S j))) as Es.
    { intros j'. unfold u64. rewrite Zplus_mod_idemp_l. f_equal. lia. }
    exists (S j). rewrite <- Es. split_and!; [lia|done| |].
    + intros [|j'] Hj'; [by rewrite E0|]. rewrite <- Es. apply Hu. lia.
    + intros Hlt. apply Hl. lia.
Qed.

Lemma unused_id_fresh n used :
  0 <= n < 2 ^ 64 -> Z.of_nat (length used) < 2 ^ 64 - 1 -> unused_id (length used) n used ∉ used.
Proof.
  intros Hn Hlen. destruct (unused_id_is (length used) n used Hn) as (j & Hj & -> & Hu & Hl).
  destruct (decide (j < length used)%nat) as [Hlt|Hge]; [by apply Hl|]. assert (j = length used) as -> by lia. intros Hin.
  set (l := (fun j : nat => FormatSegmentId (u64 (n + Z.of_nat j))) <$> seq 0 (S (length used))).
  assert (NoDup l) as Hnd.
  { apply NoDup_fmap_2_strong; [|apply NoDup_seq]. intros x y Hx%elem_of_seq Hy%elem_of_seq E.
    apply (f_equal SegmentOrdinal) in E. rewrite !SegmentOrdinal_FormatSegmentId in E by apply u64_range.
    unfold u64 in E. assert ((n + Z.of_nat x - (n + Z.of_nat y)) mod 2 ^ 64 = 0) as E'.
    { rewrite Zminus_mod, E, Z.sub_diag. done. }
    apply Z.mod_divide in E' as [q Hq]; [|done]. assert (q = 0) by nia. lia. }
  assert (l ⊆ used) as Hsub.
  { intros x (j & -> & Hj'%elem_of_seq)%list_elem_of_fmap. destruct (decide (j = length used)) as [->|]; [done|]. apply Hu. lia. }
  pose proof (NoDup_submseteq _ _ Hnd Hsub) as Hle%submseteq_length. unfold l in Hle. rewrite length_fmap, length_seq in Hle. lia.
Qed.

(** ** What readers see *)

Section State.
Context {DB : Type} `{Store DB, !StoreLaws DB} (opts : RocksDBOptions).
Implicit Types (s : SegmentManager DB) (k : bytes).

Definition tomb s k : bool := match ParseDocKey k with Some p => IsTombstoned p s | None => false end.

Definition route s k : option bytes :=
  p ← ParseDocKey k; location_segment <$> GetSystemValue (DocLocationKey p.1 p.2) s.

Definition live s : list bytes := live_newest_first s.

Definition newest s k : option (bytes * bytes) := first_segment (snapshot_ids s) k s.

(** The document a reader of the key gets. *)

Definition view s k : option bytes :=
  p ← ParseDocKey k;
  if IsTombstoned p s then None
  else match routed_get p k s with Some v => Some v | None => snd <$> newest s k end.

(** The route of the key names its newest version, and a deleted key has none. *)

Definition routed_right s k : Prop := route s k = if tomb s k then None else fst <$> newest s k.

Lemma first_segment_Some ids k s i v : first_segment ids k s = Some (i, v) -> i ∈ ids /\ segment_get i k s = Some v.
Proof.
  induction ids as [|j r IH]; simpl; [done|]. destruct (segment_get j k s) as [w|] eqn:E.
  - intros [= <- <-]. split; [by left|done].
  - intros [??]%IH. split; [by right|done].
Qed.

Lemma first_segment_None ids k s : first_segment ids k s = None <-> Forall (fun i => segment_get i k s = None) ids.
Proof.
  induction ids as [|j r IH]; simpl; [done|]. rewrite Forall_cons, <- IH. destruct (segment_get j k s); naive_solver.
Qed.

Lemma first_segment_ext ids k s s' :
  (forall i, i ∈ ids -> segment_get i k s' = segment_get i k s) -> first_segment ids k s' = first_segment ids k s.
Proof.
  induction ids as [|j r IH]; intros Hs; simpl; [done|]. rewrite Hs by by left. rewrite IH; [done|].
  intros i Hi. apply Hs. by right.
Qed.

Lemma view_routed s k : is_Some (ParseDocKey k) -> routed_right s k -> view s k = if tomb s k then None else snd <$> newest s k.
Proof.
  unfold routed_right, route, view, tomb. intros [p Hp]. rewrite Hp. simpl. destruct (IsTombstoned p s); [done|].
  unfold routed_get. intros Hr. destruct (GetSystemValue _ s) as [l|]; simpl in *; [|by destruct (newest s k)].
  destruct (newest s k) as [[i v]|] eqn:N; [|done]. injection Hr as ->.
  apply first_segment_Some in N as [Hi Hv]. unfold FindSegment. rewrite bool_decide_true by done. simpl. by rewrite Hv.
Qed.

(** Two states that readers cannot tell apart. *)

Record same_docs s s' : Prop := {
  sd_tomb k : tomb s' k = tomb s k;
  sd_route k : route s' k = route s k;
  sd_newest k : newest s' k = newest s k;
  sd_view k : view s' k = view s k
}.

#[export] Instance same_docs_preorder : PreOrder same_docs.
Proof. split; [by intros s|]. intros x y z [] []. split; intros; congruence. Qed.

Lemma same_docs_routed s s' k : same_docs s s' -> routed_right s k -> routed_right s' k.
Proof. intros [T R N _] H0. unfold routed_right. by rewrite T, R, N. Qed.

(** ** Steps that only touch metadata, counters and outcomes *)

Definition ids_match (m : gmap bytes SegmentMetadata) : Prop := map_Forall (fun i x => Id x = i) m.

Definition grows (m m' : gmap bytes SegmentMetadata) : Prop :=
  (forall i, is_Some (m !! i) -> is_Some (m' !! i)) /\ (ids_match m -> ids_match m').

Record meta_step s s' : Prop := {
  ms_system : SystemDB s' = SystemDB s;
  ms_file : ManifestFile s' = ManifestFile s;
  ms_dbs : SegmentDBs s' = SegmentDBs s;
  ms_manifest : Manifest s' = Manifest s;
  ms_active : ActiveSegment s' = ActiveSegment s;
  ms_sealed : SealedSegments s' = SealedSegments s;
  ms_snapshot : CurrentSnapshot s' = CurrentSnapshot s;
  ms_files : grows (SegmentFiles s) (SegmentFiles s');
  ms_metadata : grows (Metadata s) (Metadata s')
}.

#[export] Instance grows_preorder : PreOrder grows.
Proof. split; [by intros m|]. intros x y z [] []. split; eauto. Qed.

#[export] Instance meta_step_preorder : PreOrder meta_step.
Proof. split; [by intros s|]. intros x y z [] []. split; try congruence; by etrans. Qed.

Lemma grows_insert m i x : Id x = i -> grows m (<[i := x]> m).
Proof.
  intros Hx. split.
  - intros j Hj. destruct (decide (i = j)) as [->|]; [by rewrite lookup_insert_eq|by rewrite lookup_insert_ne].
  - intros Hm. by apply map_Forall_insert_2.
Qed.

Lemma grows_alter m f i : (forall x, Id (f x) = Id x) -> grows m (alter f i m).
Proof.
  intros Hf. split.
  - intros j Hj. rewrite lookup_alter_is_Some. done.
  - intros Hm j x Hj. apply lookup_alter_Some in Hj as [(-> & y & Hy & ->)|[_ Hj]]; [|by apply Hm].
    rewrite Hf. by apply Hm.
Qed.

Lemma attempt_spec f s s' ok :
  attempt f s = (s', ok) -> exists o, s' = f (set_Outcomes o s) \/ (ok = false /\ s' = set_Outcomes o s).
Proof.
  unfold attempt. destruct (Outcomes s) as [|[] r] eqn:E; intros [= <- <-].
  - exists []. left. f_equal. destruct s. simpl in *. by rewrite E.
  - eauto.
  - eauto.
  - eauto.
Qed.

Ltac meta_setter := split; try done; try (by apply grows_insert); try (by apply grows_alter).

Lemma set_Outcomes_meta o s : meta_step s (set_Outcomes o s).
Proof. by meta_setter. Qed.

Lemma set_reserved_meta d b s : meta_step s (set_reserved d b s).
Proof. by meta_setter. Qed.

Lemma set_dirty_meta d b s : meta_step s (set_dirty d b s).
Proof. by meta_setter. Qed.

Lemma set_persisted_meta t s : meta_step s (set_persisted t s).
Proof. by meta_setter. Qed.

Lemma insert_metadata_meta i x s : Id x = i -> meta_step s (set_Metadata (<[i := x]> (Metadata s)) s).
Proof. intros. by meta_setter. Qed.

Lemma alter_metadata_meta f i s : (forall x, Id (f x) = Id x) -> meta_step s (set_Metadata (alter f i (Metadata s)) s).
Proof. intros. by meta_setter. Qed.

Lemma attempt_meta f s s' ok : (forall t, meta_step t (f t)) -> attempt f s = (s', ok) -> meta_step s s'.
Proof.
  intros Hf (o & [->|[_ ->]])%attempt_spec; [|apply set_Outcomes_meta]. etrans; [apply (set_Outcomes_meta o)|apply Hf].
Qed.

Lemma save_metadata_meta m s s' ok : save_metadata m s = (s', ok) -> meta_step s s'.
Proof.
  unfold save_metadata. case_bool_decide; [by intros [= <- <-]|]. apply attempt_meta. intros t. by meta_setter.
Qed.

Lemma PersistSegmentMetadata_meta i s s' ok : PersistSegmentMetadata i s = (s', ok) -> meta_step s s'.
Proof. unfold PersistSegmentMetadata. destruct (Metadata s !! i); [apply save_metadata_meta|by intros [= <- <-]]. Qed.

Lemma PersistActive_meta env force s s' ok : PersistActiveMetadataIfNeededLocked env force s = (s', ok) -> meta_step s s'.
Proof.
  unfold PersistActiveMetadataIfNeededLocked. destruct (ActiveSegment s) as [i|]; [|by intros [= <- <-]].
  destruct (_ && _); [by intros [= <- <-]|]. destruct (_ && _); [by intros [= <- <-]|].
  destruct (PersistSegmentMetadata i s) as [s1 ok1] eqn:E. apply PersistSegmentMetadata_meta in E.
  destruct ok1; intros [= <- <-]; [|done]. etrans; [done|]. etrans; [apply set_dirty_meta|apply set_persisted_meta].
Qed.

Lemma meta_get i k s s' : meta_step s s' -> segment_get i k s' = segment_get i k s.
Proof. intros []. unfold segment_get. congruence. Qed.

Lemma meta_snapshot_ids s s' : meta_step s s' -> snapshot_ids s' = snapshot_ids s.
Proof. intros []. unfold snapshot_ids. congruence. Qed.

(** ** States with the same documents *)

Definition sys_docs s s' : Prop :=
  forall p, GetSystemValue (DocLocationKey p.1 p.2) s' = GetSystemValue (DocLocationKey p.1 p.2) s /\
            GetSystemValue (TombstoneKey p.1 p.2) s' = GetSystemValue (TombstoneKey p.1 p.2) s.

Lemma same_docs_intro s s' :
  sys_docs s s' -> (forall k, newest s' k = newest s k) -> (forall p k, routed_get p k s' = routed_get p k s) -> same_docs s s'.
Proof.
  intros Hs Hn Hr. assert (forall p, IsTombstoned p s' = IsTombstoned p s) as Ht.
  { intros p. unfold IsTombstoned. by rewrite (proj2 (Hs p)). }
  split; intros k; [| |done|].
  - unfold tomb. by destruct (ParseDocKey k).
  - unfold route. destruct (ParseDocKey k) as [p|]; [|done]. simpl. by rewrite (proj1 (Hs p)).
  - unfold view. destruct (ParseDocKey k) as [p|]; [|done]. simpl. by rewrite Ht, Hr, Hn.
Qed.

Lemma meta_same s s' : meta_step s s' -> same_docs s s'.
Proof.
  intros M. assert (forall key, GetSystemValue key s' = GetSystemValue key s) as G.
  { intros key. unfold GetSystemValue. by rewrite (ms_system _ _ M). }
  apply same_docs_intro.
  - intros p. by rewrite !G.
  - intros k. unfold newest. rewrite (meta_snapshot_ids _ _ M). apply first_segment_ext. intros i _. by apply meta_get.
  - intros p k. unfold routed_get. rewrite G. unfold FindSegment. rewrite (meta_snapshot_ids _ _ M).
    destruct (GetSystemValue _ s); [|done]. simpl. case_bool_decide; [|done]. simpl. by apply meta_get.
Qed.

(** ** The state while the manager runs *)

Definition manifest_live (m : SegmentManifest) : list bytes := Active m :: reverse (Sealed m).

(** A manifest on disk may be one segment ahead, which then has no documents. *)

Definition extends (l l' : list bytes) : Prop := l' = l \/ exists e, e ∉ l /\ l' = e :: l.

Definition has_parts s (i : bytes) : Prop := good_id i /\ is_Some (SegmentFiles s !! i) /\ is_Some (SegmentDBs s !! i).

Record good s : Prop := {
  g_active : is_Some (ActiveSegment s);
  g_snapshot : exists g a, CurrentSnapshot s = Some (mkSnapshot g a (live s));
  g_manifest : manifest_live (Manifest s) = live s;
  g_nodup : NoDup (live s);
  g_disk : exists m, ManifestFile s = Some m /\ extends (live s) (manifest_live m) /\ Forall (has_parts s) (manifest_live m);
  g_live : Forall (has_parts s) (live s);
  g_files : ids_match (SegmentFiles s);
  g_metadata : ids_match (Metadata s);
  g_loaded : Forall (fun i => is_Some (Metadata s !! i)) (live s);
  g_orphans i k : i ∉ live s -> segment_get i k s = None
}.

Lemma meta_live s s' : meta_step s s' -> live s' = live s.
Proof. intros []. unfold live, live_newest_first. congruence. Qed.

Lemma meta_has_parts s s' i : meta_step s s' -> has_parts s i -> has_parts s' i.
Proof. intros M (? & ? & ?). split_and!; [done|by apply M|]. by rewrite (ms_dbs _ _ M). Qed.

Lemma meta_good s s' : meta_step s s' -> good s -> good s'.
Proof.
  intros M G. pose proof (meta_live _ _ M) as L. split; rewrite ?L.
  - rewrite (ms_active _ _ M). apply G.
  - rewrite (ms_snapshot _ _ M). apply G.
  - rewrite (ms_manifest _ _ M). apply G.
  - apply G.
  - destruct (g_disk _ G) as (m & ? & ? & Hp). exists m. rewrite (ms_file _ _ M). split_and!; [done|done|].
    apply (Forall_impl _ _ _ Hp). intros i. by apply meta_has_parts.
  - apply (Forall_impl _ _ _ (g_live _ G)). intros i. by apply meta_has_parts.
  - apply M, G.
  - apply M, G.
  - apply (Forall_impl _ _ _ (g_loaded _ G)). intros i. apply M.
  - intros i k. rewrite (meta_get _ _ _ _ M). apply G.
Qed.

(** ** A new segment *)

Definition used_ids (m : SegmentManifest) : list bytes := Sealed m ++ (if bool_decide (Active m = []) then [] else [Active m]).

Definition new_id s : bytes :=
  unused_id (length (used_ids (Manifest s))) (u64 (Generation (Manifest s) + 1)) (used_ids (Manifest s)).

Definition with_new s : SegmentManifest := set_active (new_id s) (SegmentOrdinal (new_id s)) (Manifest s).

Definition add_db s : gmap bytes DB := <[new_id s := default db_empty (SegmentDBs s !! new_id s)]> (SegmentDBs s).

(** What a call to create a segment leaves, whatever its outcome. *)

Record create_frame s s' : Prop := {
  cf_sealed : SealedSegments s' = SealedSegments s;
  cf_snapshot : CurrentSnapshot s' = CurrentSnapshot s;
  cf_sys : sys_docs s s';
  cf_dbs : SegmentDBs s' = SegmentDBs s \/ SegmentDBs s' = add_db s;
  cf_files : grows (SegmentFiles s) (SegmentFiles s');
  cf_metadata : grows (Metadata s) (Metadata s');
  cf_file : ManifestFile s' = ManifestFile s \/
            (ManifestFile s' = Some (with_new s) /\ is_Some (SegmentFiles s' !! new_id s) /\ SegmentDBs s' = add_db s)
}.

Definition created env s s' : Prop :=
  ActiveSegment s' = Some (new_id s) /\ Manifest s' = with_new s /\ ManifestFile s' = Some (with_new s) /\
  is_Some (SegmentFiles s' !! new_id s) /\ SegmentDBs s' = add_db s /\
  Metadata s' !! new_id s = Some (mkMetadata (new_id s) #"active" (NowMs env) 0 0 0) /\
  ActiveReservedDocuments s' = 0 /\ ActiveReservedBytes s' = 0.

Definition not_created s s' : Prop := ActiveSegment s' = ActiveSegment s /\ Manifest s' = Manifest s.

Lemma sys_docs_refl s s' : SystemDB s' = SystemDB s -> sys_docs s s'.
Proof. intros E p. unfold GetSystemValue. by rewrite E. Qed.

Lemma marker_docs s s' v : SystemDB s' = write_batch (SystemDB s) [Put ManifestGenerationKey v] -> sys_docs s s'.
Proof.
  intros E p. unfold GetSystemValue. rewrite E. unfold write_batch. simpl. rewrite !get_put.
  by rewrite !bool_decide_false by (apply location_not_generation || apply tombstone_not_generation).
Qed.

Lemma new_id_ne s : new_id s <> [].
Proof. apply unused_id_good, u64_range. Qed.

Lemma create_spec env s s' ok :
  CreateActiveSegmentLocked env s = (s', ok) -> create_frame s s' /\ if ok then created env s s' else not_created s s'.
Proof.
  unfold CreateActiveSegmentLocked. cbv zeta. fold (used_ids (Manifest s)). fold (new_id s).
  destruct (attempt no_effect s) as [s1 ok1] eqn:E1.
  assert (exists o, s1 = set_Outcomes o s) as [o1 ->] by (apply attempt_spec in E1 as (o & [->|[_ ->]]); eauto).
  clear E1. destruct ok1; simpl negb; cbv iota.
  2: { intros [= <- <-]. split; [|done]. split; try done; by left. }
  unfold save_metadata. simpl Id. rewrite bool_decide_false by apply new_id_ne.
  destruct (attempt _ (set_Outcomes o1 s)) as [s2 ok2] eqn:E2. apply attempt_spec in E2 as (o2 & E2).
  set (m := mkMetadata (new_id s) #"active" (NowMs env) 0 0 0) in *.
  destruct ok2; simpl negb; cbv iota.
  2: { intros [= <- <-]. split; [|by destruct E2 as [->|[_ ->]]].
       destruct E2 as [->|[_ ->]]; (split; try done; try (by left)). by apply grows_insert. }
  destruct E2 as [->|[? _]]; [|done]. simpl set_Outcomes.
  unfold OpenSegment. simpl Id.
  destruct (attempt _ (set_SegmentFiles _ _)) as [s3 ok3] eqn:E3. apply attempt_spec in E3 as (o3 & E3).
  destruct ok3; simpl negb; cbv iota.
  2: { intros [= <- <-]. split; [|by destruct E3 as [->|[_ ->]]].
       destruct E3 as [->|[_ ->]]; (split; try done; try (by left); try (by right); by apply grows_insert). }
  destruct E3 as [->|[? _]]; [|done].
  unfold PersistManifestLocked, system_write.
  destruct (attempt _ (set_Manifest _ _)) as [s4 ok4] eqn:E4. apply attempt_spec in E4 as (o4 & E4).
  destruct ok4; simpl negb; cbv iota.
  2: { intros [= <- <-]. split; [|by destruct E4 as [->|[_ ->]]].
       destruct E4 as [->|[_ ->]]; (split; try done; try (by left); try (by right); try (by apply grows_insert)).
       by eapply marker_docs. }
  destruct E4 as [->|[? _]]; [|done].
  destruct (attempt _ (set_SystemDB _ _)) as [s5 ok5] eqn:E5. apply attempt_spec in E5 as (o5 & E5).
  assert (is_Some (<[new_id s:=m]> (SegmentFiles s) !! new_id s)) as Hf by (by rewrite lookup_insert_eq).
  destruct ok5; simpl negb; cbv iota.
  2: { intros [= <- <-]. split; [|by destruct E5 as [->|[_ ->]]].
       destruct E5 as [->|[_ ->]];
         (split; try done; try (by left); try (by right); try (by apply grows_insert); by eapply marker_docs). }
  destruct E5 as [->|[? _]]; [|done]. intros [= <- <-]. split.
  - split; try done; try (by left); try (by right); try (by apply grows_insert). by eapply marker_docs.
  - unfold created. simpl. by rewrite !lookup_insert_eq.
Qed.

Lemma create_get s s' j k : create_frame s s' -> segment_get j k s' = segment_get j k s.
Proof.
  intros F. unfold segment_get. destruct (cf_dbs _ _ F) as [->| ->]; [done|]. unfold add_db.
  destruct (decide (j = new_id s)) as [->|]; [|by rewrite lookup_insert_ne by done].
  rewrite lookup_insert_eq. destruct (SegmentDBs s !! new_id s); simpl; [done|apply get_empty].
Qed.

Lemma create_dbs s s' j : create_frame s s' -> is_Some (SegmentDBs s !! j) -> is_Some (SegmentDBs s' !! j).
Proof.
  intros F Hj. destruct (cf_dbs _ _ F) as [->| ->]; [done|]. unfold add_db.
  destruct (decide (j = new_id s)) as [->|]; [by rewrite lookup_insert_eq|by rewrite lookup_insert_ne].
Qed.

(** A state with at most one more, empty, segment. *)

Lemma snapshot_live s g a : CurrentSnapshot s = Some (mkSnapshot g a (live s)) -> snapshot_ids s = live s.
Proof. unfold snapshot_ids. by intros ->. Qed.

Lemma good_snapshot s : good s -> snapshot_ids s = live s.
Proof. intros G. destruct (g_snapshot _ G) as (g & a & ?). by eapply snapshot_live. Qed.

Lemma newest_extends l l' k s :
  extends l l' -> (forall j, j ∉ l -> segment_get j k s = None) -> first_segment l' k s = first_segment l k s.
Proof. intros [->|(e & He & ->)] Ho; [done|]. simpl. by rewrite Ho. Qed.

Lemma grow_same s t :
  (forall j k, j ∉ snapshot_ids s -> segment_get j k s = None) -> extends (snapshot_ids s) (snapshot_ids t) ->
  sys_docs s t -> (forall j k, segment_get j k t = segment_get j k s) -> same_docs s t.
Proof.
  intros Ho He Hs Hg. apply same_docs_intro; [done| |].
  - intros k. unfold newest. rewrite (first_segment_ext _ _ s t) by done. apply newest_extends; [done|]. intros j. apply Ho.
  - intros p k. unfold routed_get, FindSegment. rewrite (proj1 (Hs p)). destruct (GetSystemValue _ s) as [l|]; [|done]. simpl.
    destruct (bool_decide (location_segment l ∈ snapshot_ids s)) eqn:B.
    + apply bool_decide_eq_true in B. rewrite bool_decide_true; [apply Hg|].
      destruct He as [->|(e & _ & ->)]; [done|by right].
    + apply bool_decide_eq_false in B. case_bool_decide; [|done]. simpl. rewrite Hg. by apply Ho.
Qed.

Lemma grow_good s t :
  good s -> extends (live s) (live t) -> snapshot_ids t = live t -> sys_docs s t ->
  (forall j k, segment_get j k t = segment_get j k s) -> same_docs s t /\ (forall j k, j ∉ live t -> segment_get j k t = None).
Proof.
  intros G He Hn Hs Hg. assert (forall j k, j ∉ live s -> segment_get j k s = None) as Ho by (intros; by apply G). split.
  - apply grow_same; [|by rewrite Hn, good_snapshot|done|done]. by rewrite good_snapshot.
  - intros j k Hj. rewrite Hg. apply Ho. intros Hin. apply Hj. destruct He as [->|(e & _ & ->)]; [done|by right].
Qed.

(** ** Sealing the active segment *)

Lemma seal_Id env m : Id (seal env m) = Id m.
Proof. done. Qed.

Definition to_seal s (i : bytes) : SegmentManager DB :=
  set_ActiveSegment None (set_SealedSegments (SealedSegments s ++ [i]) (set_Manifest (add_sealed i (Manifest s)) s)).

Lemma new_id_to_seal s i :
  good s -> ActiveSegment s = Some i -> Z.of_nat (length (live s)) < 2 ^ 64 - 1 ->
  new_id (to_seal s i) ∉ live s /\ manifest_live (with_new (to_seal s i)) = new_id (to_seal s i) :: live s.
Proof.
  intros G Ha Hl. pose proof (g_manifest _ G) as Hm. unfold manifest_live, live, live_newest_first in Hm.
  rewrite Ha in Hm. simpl in Hm. injection Hm as H1 H2.
  assert (used_ids (Manifest (to_seal s i)) = reverse (live s)) as Hu.
  { unfold used_ids, live, live_newest_first. simpl. rewrite Ha. simpl. rewrite app_nil_r, reverse_cons, reverse_involutive.
    f_equal. by apply (inj reverse). }
  split.
  - assert (new_id (to_seal s i) ∉ reverse (live s)) as Hn.
    { unfold new_id. rewrite Hu. apply unused_id_fresh; [apply u64_range|by rewrite length_reverse]. }
    by rewrite elem_of_reverse in Hn.
  - unfold manifest_live. simpl. f_equal. rewrite reverse_snoc. unfold live, live_newest_first. rewrite Ha. simpl. f_equal. done.
Qed.

Lemma create_parts s s' j : create_frame s s' -> has_parts s j -> has_parts s' j.
Proof. intros F (? & ? & ?). split_and!; [done|by apply F|by eapply create_dbs]. Qed.

Lemma new_parts s s' : SegmentDBs s' = add_db s -> is_Some (SegmentFiles s' !! new_id s) -> has_parts s' (new_id s).
Proof.
  intros Hd Hf. split_and!; [apply unused_id_good, u64_range|done|]. rewrite Hd. unfold add_db. by rewrite lookup_insert_eq.
Qed.

(** The empty segment that a write finds after a rotation. *)

Definition roomy s : Prop :=
  exists m, active_metadata s = Some m /\ DocCountEstimate m = 0 /\ BytesEstimate m = 0 /\
            ActiveReservedDocuments s = 0 /\ ActiveReservedBytes s = 0.

Lemma seal_created env s i s' :
  good s -> ActiveSegment s = Some i -> Z.of_nat (length (live s)) < 2 ^ 64 - 1 ->
  create_frame (to_seal s i) s' -> created env (to_seal s i) s' ->
  good (PublishSnapshotLocked s') /\ same_docs s (PublishSnapshotLocked s') /\
  live (PublishSnapshotLocked s') = new_id (to_seal s i) :: live s /\ roomy (PublishSnapshotLocked s').
Proof.
  intros G Ha Hl F (C1 & C2 & C3 & C4 & C5 & C6 & C7 & C8). destruct (new_id_to_seal s i G Ha Hl) as [Hn Hm].
  set (e := new_id (to_seal s i)) in *. set (t := PublishSnapshotLocked s').
  assert (live t = e :: live s) as L.
  { unfold live, live_newest_first, t. simpl. rewrite C1, Ha, (cf_sealed _ _ F). simpl. by rewrite reverse_snoc. }
  assert (snapshot_ids t = live t) as S by done.
  assert (extends (live s) (live t)) as E by (right; eauto).
  destruct (grow_good s t G E S (cf_sys _ _ F)) as [D O]; [intros j k; apply (create_get (to_seal s i) s' j k F)|].
  assert (has_parts t e) as P by (by apply (new_parts _ s' C5 C4)).
  assert (forall j, has_parts s j -> has_parts t j) as PS by (intros j Hj; by apply (create_parts (to_seal s i) s' j F)).
  assert (Forall (has_parts t) (e :: live s)) as PL.
  { constructor; [done|]. apply (Forall_impl _ _ _ (g_live _ G)). done. }
  split_and!; [|done|done|].
  - split; rewrite ?L.
    + unfold t. simpl. by rewrite C1.
    + rewrite <- L. by eexists _, _.
    + unfold t. simpl. by rewrite C2.
    + constructor; [done|apply G].
    + exists (with_new (to_seal s i)). unfold t at 1. simpl. rewrite Hm. split_and!; [done|by left|done].
    + done.
    + apply F, G.
    + apply F, G.
    + constructor; [unfold t; simpl; by rewrite C6|]. apply (Forall_impl _ _ _ (g_loaded _ G)). intros j. apply F.
    + rewrite <- L. done.
  - exists (mkMetadata e #"active" (NowMs env) 0 0 0). unfold active_metadata, t. simpl. rewrite C1. simpl. by rewrite C6.
Qed.

Definition unsealed s i s' : SegmentManager DB :=
  set_SealedSegments (SealedSegments s) (set_ActiveSegment (Some i) (set_Manifest (Manifest s) s')).

Lemma seal_not_created s i s' :
  good s -> ActiveSegment s = Some i -> Z.of_nat (length (live s)) < 2 ^ 64 - 1 ->
  create_frame (to_seal s i) s' -> good (unsealed s i s') /\ same_docs s (unsealed s i s') /\ live (unsealed s i s') = live s.
Proof.
  intros G Ha Hl F. destruct (new_id_to_seal s i G Ha Hl) as [Hn Hm].
  set (e := new_id (to_seal s i)) in *. set (t := unsealed s i s').
  assert (live t = live s) as L by (unfold live, live_newest_first, t; simpl; by rewrite Ha).
  assert (CurrentSnapshot t = CurrentSnapshot s) as Cs by apply F.
  assert (snapshot_ids t = live t) as S by (unfold snapshot_ids; rewrite Cs, L; by apply good_snapshot).
  destruct (grow_good s t G ltac:(by left) S (cf_sys _ _ F)) as [D O]; [intros j k; apply (create_get (to_seal s i) s' j k F)|].
  assert (forall l, Forall (has_parts s) l -> Forall (has_parts t) l) as PS.
  { intros l Hl'. apply (Forall_impl _ _ _ Hl'). intros j Hj. by apply (create_parts (to_seal s i) s' j F). }
  split_and!; [|done|done]. split; rewrite ?L.
  - by eexists.
  - rewrite Cs. apply G.
  - apply G.
  - apply G.
  - destruct (cf_file _ _ F) as [Ef|(Ef & Hf & Hd)].
    + destruct (g_disk _ G) as (m & ? & ? & ?). exists m. split_and!; [by transitivity (ManifestFile s)|done|by apply PS].
    + exists (with_new (to_seal s i)). rewrite Hm. split_and!; [done|right; eauto|].
      constructor; [by apply (new_parts (to_seal s i) s')|]. apply PS, G.
  - apply PS, G.
  - apply F, G.
  - apply F, G.
  - apply (Forall_impl _ _ _ (g_loaded _ G)). intros j. apply F.
  - rewrite <- L. done.
Qed.

(** Rotation keeps the documents, also when it fails on the way. *)

Lemma seal_spec env s s' ok :
  good s -> Z.of_nat (length (live s)) < 2 ^ 64 - 1 -> SealActiveSegmentAndCreateNewLocked env s = (s', ok) ->
  good s' /\ same_docs s s' /\ (length (live s') <= S (length (live s)))%nat /\ (ok = true -> roomy s').
Proof.
  intros G Hl. unfold SealActiveSegmentAndCreateNewLocked. destruct (ActiveSegment s) as [i|] eqn:Ha; [|destruct (g_active _ G); congruence].
  assert (is_Some (Metadata s !! i)) as [pm Hpm].
  { pose proof (g_loaded _ G) as Hx. unfold live, live_newest_first in Hx. rewrite Ha in Hx. by inv Hx. }
  pose proof (g_metadata _ G i pm Hpm) as Hid. simpl in Hid.
  unfold active_metadata. rewrite Ha. simpl. rewrite Hpm.
  assert (forall t b, meta_step s t -> (t, false) = (s', b) ->
    good s' /\ same_docs s s' /\ (length (live s') <= S (length (live s)))%nat /\ (b = true -> roomy s')) as Meta.
  { intros t b M [= <- <-]. split_and!; [by eapply meta_good|by apply meta_same|rewrite (meta_live _ _ M); lia|done]. }
  destruct (attempt no_effect s) as [s1 ok1] eqn:E1. apply attempt_meta in E1; [|done].
  destruct ok1; simpl negb; cbv iota; [|by apply Meta].
  destruct (attempt no_effect s1) as [s2 ok2] eqn:E2. apply attempt_meta in E2; [|done].
  assert (meta_step s s2) as M2 by (by etrans). destruct ok2; simpl negb; cbv iota; [|by apply Meta].
  set (s3 := set_Metadata _ s2). assert (meta_step s s3) as M3 by (etrans; [done|]; by apply insert_metadata_meta).
  destruct (PersistSegmentMetadata i s3) as [s4 ok4] eqn:E4. apply PersistSegmentMetadata_meta in E4.
  assert (meta_step s s4) as M4 by (by etrans). destruct ok4; simpl negb; cbv iota.
  2: { apply Meta. etrans; [done|]. by apply insert_metadata_meta. }
  fold (to_seal s4 i). destruct (CreateActiveSegmentLocked env (to_seal s4 i)) as [s5 ok5] eqn:E5.
  apply create_spec in E5 as [F C].
  assert (good s4) as G4 by by eapply meta_good. pose proof (meta_live _ _ M4) as L4. pose proof (meta_same _ _ M4) as D4.
  assert (ActiveSegment s4 = Some i) as A4 by (by rewrite (ms_active _ _ M4)).
  destruct ok5; simpl negb; cbv iota.
  - intros [= <- <-]. destruct (seal_created env s4 i s5) as (? & ? & -> & ?); [done|done|by rewrite L4|done|done|].
    split_and!; [done|by etrans|simpl; rewrite L4; lia|done].
  - destruct (seal_not_created s4 i s5) as (G6 & D6 & L6); [done|done|by rewrite L4|done|].
    assert (set_SealedSegments (SealedSegments s2) (set_ActiveSegment (Some i) (set_Manifest (Manifest s2) s5)) = unsealed s4 i s5) as ->.
    { unfold unsealed. by rewrite (ms_sealed _ _ E4), (ms_manifest _ _ E4). }
    set (t := set_Metadata _ (unsealed s4 i s5)). assert (meta_step (unsealed s4 i s5) t) as Mt by exact (insert_metadata_meta i pm (unsealed s4 i s5) Hid).
    destruct (PersistSegmentMetadata i t) as [u ok6] eqn:E6. apply PersistSegmentMetadata_meta in E6. simpl. intros [= <- <-].
    assert (meta_step (unsealed s4 i s5) u) as Mu by (by etrans).
    split_and!; [by eapply meta_good|etrans; [done|]; etrans; [done|by apply meta_same]| |done].
    rewrite (meta_live _ _ Mu), L6, L4. lia.
Qed.

End State.

End SegmentsInv.
