(* ===== verification/SegmentsOps.v ===== *)
(** * Document segments: what each operation does to what readers see

    Writes, reads, deletions and listings, on every outcome of the calls they make. *)

From S2P Require Import Prelude CText Wildcard Segments SegmentsInv.
Import Segments SegmentsInv.

Module SegmentsOps.

(** The last value of a key in a batch. *)

Definition assoc_last (kvs : list (bytes * bytes)) (k : bytes) : option bytes :=
  foldl (fun acc kv => if bool_decide (k = kv.1) then Some kv.2 else acc) None kvs.

Lemma assoc_last_snoc kvs kv k :
  assoc_last (kvs ++ [kv]) k = if bool_decide (k = kv.1) then Some kv.2 else assoc_last kvs k.
Proof. unfold assoc_last. by rewrite foldl_app. Qed.

Lemma assoc_last_None kvs k : assoc_last kvs k = None <-> k ∉ kvs.*1.
Proof.
  induction kvs as [|kv kvs IH] using rev_ind; [split; [set_solver|done]|].
  rewrite assoc_last_snoc, fmap_app. case_bool_decide; set_solver.
Qed.

Section Ops.
Context {DB : Type} `{Store DB, !StoreLaws DB} (opts : RocksDBOptions).
Implicit Types (s : SegmentManager DB) (k : bytes).

(** ** Batches *)

Definition puts (kvs : list (bytes * bytes)) : list write := (fun kv => Put kv.1 kv.2) <$> kvs.

Lemma get_puts (d : DB) kvs k :
  db_get (write_batch d (puts kvs)) k = match assoc_last kvs k with Some v => Some v | None => db_get d k end.
Proof.
  unfold write_batch, puts. induction kvs as [|kv kvs IH] using rev_ind; [done|].
  rewrite fmap_app, foldl_app, assoc_last_snoc. simpl. rewrite get_put. by case_bool_decide.
Qed.

(** Both batches, one document after the other. *)

Ltac by_ids ids p :=
  intros Hp; induction ids as [|q l IH] using rev_ind; intros Hids; [done|];
  apply Forall_app in Hids as [Hids Hq]; apply Forall_singleton in Hq as [k' Hq]; destruct (IH Hids) as [IH1 IH2];
  rewrite bind_app; unfold write_batch in *; rewrite foldl_app; simpl; rewrite !get_delete, !get_put;
  rewrite (bool_decide_false (DocLocationKey _ _ = TombstoneKey _ _)) by apply location_not_tombstone;
  rewrite (bool_decide_false (TombstoneKey _ _ = DocLocationKey _ _)) by (intros E; by eapply location_not_tombstone);
  destruct (decide (p = q)) as [->|Hne];
  [ by rewrite !bool_decide_true by (done || (apply elem_of_app; right; by left))
  | rewrite (bool_decide_false (DocLocationKey p.1 p.2 = _)) by (intros E; by eapply Hne, DocLocationKey_inj);
    rewrite (bool_decide_false (TombstoneKey p.1 p.2 = _)) by (intros E; by eapply Hne, TombstoneKey_inj);
    rewrite IH1, IH2; by rewrite (bool_decide_ext (p ∈ l ++ [q]) (p ∈ l)) by set_solver ].

Lemma sys_locations (d : DB) i now ids p k :
  ParseDocKey k = Some p -> Forall (fun q => exists k', ParseDocKey k' = Some q) ids ->
  db_get (write_batch d (ids ≫= location_writes i now)) (DocLocationKey p.1 p.2) =
    (if bool_decide (p ∈ ids) then Some (i ++ #":" ++ to_string now) else db_get d (DocLocationKey p.1 p.2)) /\
  db_get (write_batch d (ids ≫= location_writes i now)) (TombstoneKey p.1 p.2) =
    (if bool_decide (p ∈ ids) then None else db_get d (TombstoneKey p.1 p.2)).
Proof.
  by_ids ids p.
Qed.

Lemma sys_tombstones (d : DB) now ids p k :
  ParseDocKey k = Some p -> Forall (fun q => exists k', ParseDocKey k' = Some q) ids ->
  db_get (write_batch d (ids ≫= tombstone_writes now)) (DocLocationKey p.1 p.2) =
    (if bool_decide (p ∈ ids) then None else db_get d (DocLocationKey p.1 p.2)) /\
  db_get (write_batch d (ids ≫= tombstone_writes now)) (TombstoneKey p.1 p.2) =
    (if bool_decide (p ∈ ids) then Some (to_string now) else db_get d (TombstoneKey p.1 p.2)).
Proof.
  by_ids ids p.
Qed.

(** ** One key *)

Record same_at k s s' : Prop := {
  sa_tomb : tomb s' k = tomb s k;
  sa_route : route s' k = route s k;
  sa_newest : newest s' k = newest s k;
  sa_view : view s' k = view s k
}.

#[export] Instance same_at_preorder k : PreOrder (same_at k).
Proof. split; [by intros s|]. intros x y z [] []. split; congruence. Qed.

Lemma same_docs_at k s s' : same_docs s s' -> same_at k s s'.
Proof. by intros []. Qed.

Lemma same_at_routed k s s' : same_at k s s' -> routed_right s k -> routed_right s' k.
Proof. intros [T R N _] E. unfold routed_right. by rewrite T, R, N. Qed.

(** What a key shows depends on its two entries in the system database and on its
    values in the segments. *)

Lemma same_at_intro k s s' :
  (forall p, ParseDocKey k = Some p -> GetSystemValue (DocLocationKey p.1 p.2) s' = GetSystemValue (DocLocationKey p.1 p.2) s /\
                                       GetSystemValue (TombstoneKey p.1 p.2) s' = GetSystemValue (TombstoneKey p.1 p.2) s) ->
  snapshot_ids s' = snapshot_ids s -> (forall j, segment_get j k s' = segment_get j k s) -> same_at k s s'.
Proof.
  intros Hs Hn Hg. assert (newest s' k = newest s k) as N.
  { unfold newest. rewrite Hn. by apply first_segment_ext. }
  destruct (ParseDocKey k) as [p|] eqn:Hp.
  - destruct (Hs p eq_refl) as [H1 H2]. split; [| |done|].
    + unfold tomb, IsTombstoned. rewrite Hp. by rewrite H2.
    + unfold route. rewrite Hp. simpl. by rewrite H1.
    + unfold view, IsTombstoned, routed_get, FindSegment. rewrite Hp. simpl. rewrite H1, H2, Hn, N.
      destruct (GetSystemValue (DocLocationKey _ _) s); simpl; [|done]. case_bool_decide; [done|]. case_bool_decide; simpl; [|done]. by rewrite Hg.
  - split; [| |done|].
    + unfold tomb. by rewrite Hp.
    + unfold route. by rewrite Hp.
    + unfold view. by rewrite Hp.
Qed.

(** ** Writing *)

Definition segment_written s i l : SegmentManager DB := set_SegmentDBs (alter (fun d => write_batch d l) i (SegmentDBs s)) s.

Definition system_written s l : SegmentManager DB := set_SystemDB (write_batch (SystemDB s) l) s.

Lemma segment_written_get s i l j k :
  segment_get j k (segment_written s i l) =
  if bool_decide (j = i) then (d ← SegmentDBs s !! i; db_get (write_batch d l) k) else segment_get j k s.
Proof.
  unfold segment_get. simpl. case_bool_decide as E.
  - subst j. rewrite lookup_alter_eq. by destruct (SegmentDBs s !! i).
  - by rewrite lookup_alter_ne by done.
Qed.

Lemma segment_written_good s i l : good s -> i ∈ live s -> good (segment_written s i l).
Proof.
  intros G Hi. destruct G as [G1 G2 G3 G4 G5 G6 G7 G8 G9 G10]. set (t := segment_written s i l).
  assert (forall m, Forall (has_parts s) m -> Forall (has_parts t) m) as P.
  { intros m Hm. apply (Forall_impl _ _ _ Hm). intros j (? & ? & ?). split_and!; [done|done|]. simpl. by rewrite lookup_alter_is_Some. }
  split; try done.
  - destruct G5 as (m & ? & ? & ?). exists m. split_and!; [done|done|by apply P].
  - by apply P.
  - intros j k Hj. unfold t. rewrite segment_written_get. rewrite bool_decide_false by by intros ->. by apply G10.
Qed.

Lemma system_written_good s l : good s -> good (system_written s l).
Proof. by intros []. Qed.

Lemma live_head s i : ActiveSegment s = Some i -> live s = i :: reverse (SealedSegments s).
Proof. unfold live, live_newest_first. by intros ->. Qed.

Lemma active_parts s i : good s -> ActiveSegment s = Some i -> i ∈ live s /\ no_colon i /\ is_Some (SegmentDBs s !! i).
Proof.
  intros G Ha. assert (i ∈ live s) as Hi by (rewrite (live_head s i Ha); by left). split; [done|].
  by destruct (proj1 (Forall_forall _ _) (g_live _ G) i Hi) as ([_ ?] & _ & ?).
Qed.

Section Batch.
Context (s : SegmentManager DB) (i : bytes) (kvs : list (bytes * bytes)) (ids : list (bytes * bytes)) (now : Z).
Hypothesis G : good s.
Hypothesis Ha : ActiveSegment s = Some i.
Hypothesis Hids : mapM (fun kv => ParseDocKey kv.1) kvs = Some ids.

Local Definition s1 := segment_written s i (puts kvs).
Local Definition s2 := system_written s1 (ids ≫= location_writes i now).

Lemma ids_parse : Forall (fun q => exists k', ParseDocKey k' = Some q) ids.
Proof. apply mapM_Some in Hids. induction Hids as [|kv q l1 l2 Hq _ IH]; constructor; eauto. Qed.

Lemma ids_keys k p : ParseDocKey k = Some p -> p ∈ ids <-> k ∈ kvs.*1.
Proof.
  intros Hp. apply mapM_Some in Hids. induction Hids as [|kv q l1 l2 Hq _ IH]; simpl; [set_solver|].
  rewrite !elem_of_cons, IH. split; (intros [E|]; [left|by right]); subst.
  - by eapply ParseDocKey_inj.
  - congruence.
Qed.

Lemma key_parse k v : assoc_last kvs k = Some v -> exists p, ParseDocKey k = Some p /\ p ∈ ids /\ k ∈ kvs.*1.
Proof.
  intros Hv. assert (k ∈ kvs.*1) as Hk by (destruct (decide (k ∈ kvs.*1)) as [|Hn]; [done|]; apply assoc_last_None in Hn; congruence).
  assert (exists p, ParseDocKey k = Some p) as [p Hp].
  { apply mapM_Some in Hids. apply list_elem_of_fmap in Hk as (kv & -> & Hkv). clear -Hids Hkv.
    induction Hids as [|kv' q l1 l2 Hq _ IH]; [by apply elem_of_nil in Hkv|].
    apply elem_of_cons in Hkv as [->|]; eauto. }
  exists p. split_and!; [done|by apply (ids_keys k)|done].
Qed.

Lemma s1_get j k :
  segment_get j k s1 = match assoc_last kvs k with
                       | Some v => if bool_decide (j = i) then Some v else segment_get j k s
                       | None => segment_get j k s
                       end.
Proof.
  unfold s1. rewrite segment_written_get. destruct (active_parts s i G Ha) as (_ & _ & [d Hd]).
  case_bool_decide as E; [subst j|by destruct (assoc_last kvs k)].
  unfold segment_get. rewrite Hd. simpl. rewrite get_puts. by destruct (assoc_last kvs k).
Qed.

Lemma s1_other k : k ∉ kvs.*1 -> same_at k s s1.
Proof.
  intros Hk%assoc_last_None. apply same_at_intro; [done|done|]. intros j. rewrite s1_get. by rewrite Hk.
Qed.

Lemma s2_other k : k ∉ kvs.*1 -> same_at k s s2.
Proof.
  intros Hk. etrans; [by apply s1_other|]. apply same_at_intro; [|done|done]. intros p Hp.
  destruct (sys_locations (SystemDB s1) i now ids p k Hp ids_parse) as [H1 H2]. unfold GetSystemValue. simpl.
  rewrite bool_decide_false in H1, H2 by (by rewrite (ids_keys k)). done.
Qed.

Lemma s1_newest k v : assoc_last kvs k = Some v -> newest s1 k = Some (i, v).
Proof.
  intros Hv. unfold newest. change (snapshot_ids s1) with (snapshot_ids s). rewrite good_snapshot, (live_head s i Ha) by done.
  simpl. rewrite s1_get, Hv. by rewrite bool_decide_true.
Qed.

(** The system database was not written: the key has its old document or the new one. *)

Lemma s1_written k v : assoc_last kvs k = Some v -> view s1 k = view s k \/ view s1 k = Some v.
Proof.
  intros Hv. pose proof (s1_newest k v Hv) as N. unfold view. destruct (ParseDocKey k) as [p|]; [simpl|by left].
  change (IsTombstoned p s1) with (IsTombstoned p s). destruct (IsTombstoned p s); [by left|]. rewrite N.
  unfold routed_get. change (GetSystemValue ?x s1) with (GetSystemValue x s). destruct (GetSystemValue _ s) as [l|]; [simpl|by right].
  unfold FindSegment. change (snapshot_ids s1) with (snapshot_ids s). case_bool_decide; simpl; [|by right].
  rewrite s1_get, Hv. case_bool_decide; [by right|]. destruct (segment_get _ k s); [by left|by right].
Qed.

Lemma s2_written k v : assoc_last kvs k = Some v -> view s2 k = Some v /\ routed_right s2 k.
Proof.
  intros Hv. destruct (key_parse k v Hv) as (p & Hp & Hin & Hk).
  destruct (sys_locations (SystemDB s1) i now ids p k Hp ids_parse) as [H1 H2]. rewrite bool_decide_true in H1, H2 by done.
  assert (tomb s2 k = false) as T.
  { unfold tomb. rewrite Hp. apply bool_decide_eq_false. unfold GetSystemValue. rewrite (H2 : db_get (SystemDB s2) _ = _). by intros []. }
  assert (route s2 k = Some i) as R.
  { unfold route, GetSystemValue. rewrite Hp. cbn [mbind option_bind]. rewrite (H1 : db_get (SystemDB s2) _ = _).
    simpl. f_equal. apply location_segment_eq.
    by destruct (active_parts s i G Ha) as (_ & ? & _). }
  assert (newest s2 k = Some (i, v)) as N.
  { rewrite <- (s1_newest k v Hv). by apply first_segment_ext. }
  assert (routed_right s2 k) as RR by (unfold routed_right; by rewrite T, R, N). split; [|done].
  rewrite view_routed; [|by eexists|done]. by rewrite T, N.
Qed.

End Batch.

(** The answer true: the batch is written. The answer false: each of its keys has its old
    document or the one of the batch. Other keys are as before. *)

Record write_result (n : nat) s s' (kvs : list (bytes * bytes)) (ok : bool) : Prop := {
  wr_good : good s';
  wr_length : (length (live s') <= n + length (live s))%nat;
  wr_other k : k ∉ kvs.*1 -> same_at k s s';
  wr_written k v : assoc_last kvs k = Some v ->
    if ok then view s' k = Some v /\ routed_right s' k else view s' k = view s k \/ view s' k = Some v
}.

Lemma write_result_before n m s t s' kvs ok :
  same_docs s t -> (length (live t) <= m + length (live s))%nat -> write_result n t s' kvs ok -> write_result (n + m) s s' kvs ok.
Proof.
  intros D L [W1 W2 W3 W4]. split; [done|lia| |].
  - intros k Hk. etrans; [by apply same_docs_at|by apply W3].
  - intros k v Hv. specialize (W4 k v Hv). destruct ok; [done|]. by rewrite <- (sd_view _ _ D).
Qed.

Lemma write_result_after n m s t s' kvs ok ok' :
  write_result n s t kvs ok -> good s' -> same_docs t s' -> (length (live s') <= m + length (live t))%nat ->
  (ok' = true -> ok = true) -> write_result (m + n) s s' kvs ok'.
Proof.
  intros [W1 W2 W3 W4] G D L Hok. split; [done|lia| |].
  - intros k Hk. etrans; [by apply W3|by apply same_docs_at].
  - intros k v Hv. specialize (W4 k v Hv). rewrite (sd_view _ _ D). destruct ok'.
    + rewrite Hok in W4 by done. destruct W4. split; [done|by eapply same_docs_routed].
    + destruct ok; [right; apply W4|done].
Qed.

Lemma write_result_same s s' kvs : good s' -> same_docs s s' -> live s' = live s -> write_result 0 s s' kvs false.
Proof.
  intros G D L. split; [done|by rewrite L| |].
  - intros k _. by apply same_docs_at.
  - intros k v _. left. apply D.
Qed.

Lemma two_writes s i kvs ids now s' ok :
  good s -> ActiveSegment s = Some i -> mapM (fun kv => ParseDocKey kv.1) kvs = Some ids ->
  (let (s, ok) := segment_write i (puts kvs) s in
   if negb ok then (s, false) else system_write (ids ≫= location_writes i now) s) = (s', ok) ->
  write_result 0 s s' kvs ok /\ ActiveSegment s' = ActiveSegment s.
Proof.
  intros G Ha Hids. destruct (segment_write i (puts kvs) s) as [t okt] eqn:E1. apply attempt_spec in E1 as (o & E1).
  set (s0 := set_Outcomes o s) in *. assert (meta_step s s0) as M0 by apply set_Outcomes_meta.
  assert (good s0) as G0 by by eapply meta_good.
  assert (forall t ok, write_result 0 s0 t kvs ok -> write_result 0 s t kvs ok) as Pre.
  { intros t' b. apply (write_result_before 0 0); [by apply meta_same|by rewrite (meta_live _ _ M0)]. }
  assert (write_result 0 s0 s0 kvs false) as Same by by apply write_result_same.
  assert (i ∈ live s0) as Hi by by apply (active_parts s0 i G0).
  assert (write_result 0 s0 (segment_written s0 i (puts kvs)) kvs false) as First.
  { split; [by apply segment_written_good|done|by apply s1_other|by apply s1_written]. }
  destruct okt; simpl negb; cbv iota.
  2: { intros [= <- <-]. destruct E1 as [->|[_ ->]]; (split; [by apply Pre|done]). }
  destruct E1 as [->|[? _]]; [|done]. intros E2. apply attempt_spec in E2 as (o2 & E2).
  set (t := segment_written (set_Outcomes o2 s0) i (puts kvs)).
  assert (meta_step s0 (set_Outcomes o2 s0)) as M2 by apply set_Outcomes_meta.
  assert (good (set_Outcomes o2 s0)) as G2 by by eapply meta_good.
  assert (forall t ok, write_result 0 (set_Outcomes o2 s0) t kvs ok -> write_result 0 s t kvs ok) as Pre2.
  { intros t' b W. apply Pre. revert W. apply (write_result_before 0 0); [by apply meta_same|done]. }
  destruct E2 as [->|[-> ->]]; (split; [|done]).
  - apply Pre2. change (set_Outcomes o2 (segment_written s0 i (puts kvs))) with t.
    assert (write_result 0 (set_Outcomes o2 s0) (system_written t (ids ≫= location_writes i now)) kvs true) as W.
    { split; [by apply system_written_good, segment_written_good|done|by apply s2_other|by apply s2_written]. }
    by apply (write_result_after 0 0 _ _ _ kvs true ok W (wr_good _ _ _ _ _ W)).
  - apply Pre2. change (write_result 0 (set_Outcomes o2 s0) t kvs false).
    split; [by apply segment_written_good|done|by apply s1_other|by apply s1_written].
Qed.

Lemma write_documents_spec env i n b kvs ids s s' ok :
  good s -> ActiveSegment s = Some i -> Z.of_nat (length (live s)) < 2 ^ 64 - 1 -> mapM (fun kv => ParseDocKey kv.1) kvs = Some ids ->
  write_documents opts env i n b (puts kvs) (ids ≫= location_writes i (NowMs env)) s = (s', ok) -> write_result 1 s s' kvs ok.
Proof.
  intros G Ha Hl Hids. unfold write_documents. set (r := set_reserved _ _ s).
  assert (meta_step s r) as Mr by apply set_reserved_meta.
  destruct (segment_write i (puts kvs) r) as [t ok1] eqn:E1.
  destruct (if negb ok1 then (t, false) else _) as [u ok2] eqn:E2.
  destruct (two_writes r i kvs ids (NowMs env) u ok2) as [W A]; [by eapply meta_good|done|done|by rewrite E1|].
  assert (write_result 0 s u kvs ok2) as Wu.
  { apply (write_result_before 0 0 s r); [by apply meta_same|by rewrite (meta_live _ _ Mr)|done]. }
  clear W E1 E2. set (v := set_reserved _ _ u). assert (meta_step u v) as Mv by apply set_reserved_meta.
  assert (forall w b, meta_step u w -> (b = true -> ok2 = true) -> write_result 0 s w kvs b) as Post.
  { intros w b' M Hb. apply (write_result_after 0 0 s u w kvs ok2 b'); [done|eapply meta_good; [done|apply Wu]|by apply meta_same| |done].
    by rewrite (meta_live _ _ M). }
  assert (forall w b, write_result 0 s w kvs b -> write_result 1 s w kvs b) as Weak by (intros w b' [? ? ? ?]; split; [done|lia|done|done]).
  destruct ok2; simpl negb; cbv iota; [|intros [= <- <-]; apply Weak; by apply Post].
  set (x := set_Metadata _ v). set (y := set_dirty _ _ x).
  destruct (PersistActiveMetadataIfNeededLocked env false y) as [z ok3] eqn:E3. apply PersistActive_meta in E3.
  assert (meta_step u z) as Mz.
  { etrans; [exact Mv|]. etrans; [by apply (alter_metadata_meta (count_documents n b) i v)|]. etrans; [apply set_dirty_meta|done]. }
  destruct ok3; simpl negb; cbv iota; [|intros [= <- <-]; apply Weak; by apply Post].
  pose proof (Post z true Mz ltac:(done)) as Wz.
  destruct (ShouldRotateActiveLocked opts z) eqn:R; [|intros [= <- <-]; by apply Weak].
  unfold RotateActiveSegmentIfNeeded. rewrite R. simpl negb. cbv iota. intros E4.
  destruct (seal_spec env z s' ok) as (G4 & D4 & L4 & _); [apply Wz| |done|].
  { pose proof (wr_length _ _ _ _ _ Wz). lia. }
  by apply (write_result_after 0 1 s z s' kvs true ok).
Qed.

Lemma roomy_capacity n b s : roomy s -> ActiveSegmentHasCapacityLocked opts n b s = true.
Proof. intros (m & Hm & E1 & E2 & E3 & E4). unfold ActiveSegmentHasCapacityLocked. by rewrite Hm, E1, E2, E3, E4. Qed.

(** The loop goes round twice at most. *)

Lemma write_loop_spec env n b kvs ids s :
  good s -> Z.of_nat (length (live s)) < 2 ^ 64 - 2 -> mapM (fun kv => ParseDocKey kv.1) kvs = Some ids ->
  exists s' ok, write_loop opts 2 env n b (puts kvs) (fun i => ids ≫= location_writes i (NowMs env)) s = Some (s', ok) /\
                write_result 2 s s' kvs ok.
Proof.
  intros G Hl Hids. cbn [write_loop]. destruct (ActiveSegment s) as [i|] eqn:Ha; [|destruct (g_active _ G); congruence].
  destruct (ActiveSegmentHasCapacityLocked opts n b s) eqn:C.
  - destruct (write_documents _ _ _ _ _ _ _ _) as [s' ok] eqn:E. exists s', ok. split; [done|].
    apply write_documents_spec in E as [? ? ? ?]; [|done|done|lia|done]. split; [done|lia|done|done].
  - unfold EnsureActiveSegmentCapacity. rewrite Ha. simpl negb. cbv iota. rewrite C.
    destruct (SealActiveSegmentAndCreateNewLocked env s) as [t ok1] eqn:E1. apply seal_spec in E1 as (G1 & D1 & L1 & R1); [|done|lia].
    destruct ok1; simpl negb; cbv iota.
    + destruct (ActiveSegment t) as [j|] eqn:Hj; [|destruct (g_active _ G1); congruence].
      rewrite roomy_capacity by by apply R1. destruct (write_documents _ _ _ _ _ _ _ _) as [s' ok] eqn:E. exists s', ok.
      split; [done|]. apply write_documents_spec in E; [|done|done|lia|done]. by apply (write_result_before 1 1 s t).
    + exists t, false. split; [done|]. split; [done|lia| |].
      * intros k _. by apply same_docs_at.
      * intros k v _. left. apply D1.
Qed.

Lemma write_result_nop s kvs : good s -> write_result 2 s s kvs false.
Proof. intros G. destruct (write_result_same s s kvs G) as [? ? ? ?]; [done|done|]. split; [done|lia|done|done]. Qed.

Lemma SetDocument_spec env key value s :
  good s -> Z.of_nat (length (live s)) < 2 ^ 64 - 2 ->
  exists s' ok, SetDocument opts env key value s = Some (s', ok) /\ write_result 2 s s' [(key, value)] ok.
Proof.
  intros G Hl. unfold SetDocument. destruct (ParseDocKey key) as [p|] eqn:Hp.
  - destruct (write_loop_spec env 1 (size key + size value) [(key, value)] [p] s G Hl) as (s' & ok & E & W); [simpl; by rewrite Hp|].
    exists s', ok. split; [|done]. rewrite <- E. done.
  - exists s, false. split; [done|by apply write_result_nop].
Qed.

Lemma BatchSetDocuments_spec env kvs s :
  good s -> Z.of_nat (length (live s)) < 2 ^ 64 - 2 ->
  exists s' n, BatchSetDocuments opts env kvs s = Some (s', n) /\ (n = 0 \/ n = size kvs) /\
               write_result 2 s s' kvs (0 <? n).
Proof.
  intros G Hl. unfold BatchSetDocuments.
  pose proof (write_result_nop s kvs G) as W0.
  destruct (mapM _ kvs) as [ids|] eqn:Hids; [|exists s, 0; split_and!; [done|by left|done]].
  destruct kvs as [|kv kvs'] eqn:Hk; [exists s, 0; split_and!; [done|by left|done]|]. rewrite <- Hk in *.
  destruct (write_loop_spec env (size kvs) (u64 (foldl (fun a kv => a + size kv.1 + size kv.2) 0 kvs)) kvs ids s G Hl Hids)
    as (s' & ok & E & W).
  unfold puts in E. rewrite E. simpl. exists s', (if ok then size kvs else 0). split_and!; [done|destruct ok; [by right|by left]|].
  destruct ok; [|done]. assert (0 <? size kvs = true) as -> by (rewrite Hk; done). done.
Qed.

(** ** Changes of the system database *)

(** The same documents for a reader, and no route that was right is wrong. *)

Record keeps s s' : Prop := {
  k_good : good s';
  k_live : live s' = live s;
  k_view k : view s' k = view s k;
  k_routed k : routed_right s k -> routed_right s' k
}.

Lemma meta_keeps s s' : good s -> meta_step s s' -> keeps s s'.
Proof.
  intros G M. pose proof (meta_same _ _ M) as D. split; [by eapply meta_good|by apply meta_live|apply D|].
  intros k. by apply same_docs_routed.
Qed.

#[export] Instance keeps_trans : Transitive keeps.
Proof. intros x y z [] []. split; [done|congruence|congruence|auto]. Qed.

Lemma system_written_newest s l k : newest (system_written s l) k = newest s k.
Proof. by apply first_segment_ext. Qed.

Lemma located s i now p k ids :
  ParseDocKey k = Some p -> p ∈ ids -> Forall (fun q => exists k', ParseDocKey k' = Some q) ids -> no_colon i ->
  let t := system_written s (ids ≫= location_writes i now) in tomb t k = false /\ route t k = Some i.
Proof.
  intros Hp Hin Hids Hi t. destruct (sys_locations (SystemDB s) i now ids p k Hp Hids) as [H1 H2].
  rewrite bool_decide_true in H1, H2 by done. unfold tomb, route, IsTombstoned, GetSystemValue. rewrite Hp. cbn [mbind option_bind].
  change (SystemDB t) with (write_batch (SystemDB s) (ids ≫= location_writes i now)). rewrite H1, H2. split; [done|].
  simpl. f_equal. by apply location_segment_eq.
Qed.

Lemma entombed s now p k ids :
  ParseDocKey k = Some p -> p ∈ ids -> Forall (fun q => exists k', ParseDocKey k' = Some q) ids ->
  let t := system_written s (ids ≫= tombstone_writes now) in tomb t k = true /\ route t k = None.
Proof.
  intros Hp Hin Hids t. destruct (sys_tombstones (SystemDB s) now ids p k Hp Hids) as [H1 H2].
  rewrite bool_decide_true in H1, H2 by done. unfold tomb, route, IsTombstoned, GetSystemValue. rewrite Hp. cbn [mbind option_bind].
  change (SystemDB t) with (write_batch (SystemDB s) (ids ≫= tombstone_writes now)). rewrite H1, H2. done.
Qed.

Lemma tomb_view s k : tomb s k = true -> view s k = None.
Proof. unfold tomb, view. destruct (ParseDocKey k); [|done]. simpl. by intros ->. Qed.

Lemma entombed_right s k : tomb s k = true -> route s k = None -> view s k = None /\ routed_right s k.
Proof. intros T R. split; [by apply tomb_view|]. unfold routed_right. by rewrite T, R. Qed.

Lemma located_other s i now k ids :
  (forall p, ParseDocKey k = Some p -> p ∉ ids) -> Forall (fun q => exists k', ParseDocKey k' = Some q) ids ->
  same_at k s (system_written s (ids ≫= location_writes i now)).
Proof.
  intros Hk Hids. apply same_at_intro; [|done|done]. intros p Hp.
  destruct (sys_locations (SystemDB s) i now ids p k Hp Hids) as [H1 H2].
  by rewrite bool_decide_false in H1, H2 by (by apply Hk).
Qed.

Lemma entombed_other s now k ids :
  (forall p, ParseDocKey k = Some p -> p ∉ ids) -> Forall (fun q => exists k', ParseDocKey k' = Some q) ids ->
  same_at k s (system_written s (ids ≫= tombstone_writes now)).
Proof.
  intros Hk Hids. apply same_at_intro; [|done|done]. intros p Hp.
  destruct (sys_tombstones (SystemDB s) now ids p k Hp Hids) as [H1 H2].
  by rewrite bool_decide_false in H1, H2 by (by apply Hk).
Qed.

(** ** Reading *)

Lemma repair_keeps s k p i v now :
  good s -> ParseDocKey k = Some p -> tomb s k = false -> view s k = Some v -> newest s k = Some (i, v) ->
  keeps s (system_written s ([p] ≫= location_writes i now)).
Proof.
  intros G Hp T V N. set (t := system_written s _).
  assert (Forall (fun q => exists k', ParseDocKey k' = Some q) [p]) as Hids by (repeat constructor; eauto).
  assert (no_colon i) as Hi.
  { apply first_segment_Some in N as [Hin _]. rewrite good_snapshot in Hin by done.
    by destruct (proj1 (Forall_forall _ _) (g_live _ G) i Hin) as ([_ ?] & _). }
  destruct (located s i now p k [p] Hp ltac:(by left) Hids Hi) as [T' R'].
  change (tomb t k = false) in T'. change (route t k = Some i) in R'.
  assert (routed_right t k) as RR by (unfold routed_right; rewrite T', R'; unfold t; by rewrite system_written_newest, N).
  split; [by apply system_written_good|done| |].
  - intros k'. destruct (decide (k' = k)) as [->|Hne].
    + rewrite (view_routed t k) by (eauto || done). rewrite T'. unfold t. by rewrite system_written_newest, N.
    + apply located_other; [|done]. intros q Hq Hin. apply list_elem_of_singleton in Hin as ->. by eapply Hne, ParseDocKey_inj.
  - intros k' Hr. destruct (decide (k' = k)) as [->|Hne]; [done|]. eapply same_at_routed; [|done].
    apply located_other; [|done]. intros q Hq Hin. apply list_elem_of_singleton in Hin as ->. by eapply Hne, ParseDocKey_inj.
Qed.

Lemma GetDocument_spec env k s s' v : good s -> GetDocument env k s = (s', v) -> v = default [] (view s k) /\ keeps s s'.
Proof.
  intros G. assert (keeps s s) as K by (by split). unfold GetDocument, view.
  destruct (ParseDocKey k) as [p|] eqn:Hp; [simpl|by intros [= <- <-]].
  destruct (IsTombstoned p s) eqn:T; [by intros [= <- <-]|]. destruct (routed_get p k s) as [w|] eqn:R; [by intros [= <- <-]|].
  fold (newest s k). destruct (newest s k) as [[i w]|] eqn:N; [|by intros [= <- <-]]. simpl.
  destruct (PutDocLocation k i (NowMs env) s) as [t b] eqn:E. unfold PutDocLocation in E. rewrite Hp in E. intros [= <- <-].
  split; [done|]. apply attempt_spec in E as (o & E). pose proof (set_Outcomes_meta o s) as M.
  destruct E as [->|[_ ->]]; [|by apply meta_keeps]. etrans; [by apply (meta_keeps s (set_Outcomes o s))|].
  assert (view s k = Some w) as V by (unfold view; rewrite Hp; simpl; by rewrite T, R, N).
  apply (repair_keeps (set_Outcomes o s) k p i w); [by eapply meta_good|done|unfold tomb; rewrite Hp; exact T| |].
  - rewrite <- V. apply (meta_same _ _ M).
  - rewrite <- N. apply (meta_same _ _ M).
Qed.

Lemma total_size_spec env l t s s' n :
  good s -> total_size env l t s = (s', n) -> n = foldl (fun t k => u64 (t + size (default [] (view s k)))) t l /\ keeps s s'.
Proof.
  revert t s. induction l as [|k l IH]; intros t s G; cbn [total_size]; [intros [= <- <-]; split; [done|by split]|].
  destruct (GetDocument env k s) as [s1 v] eqn:E1. apply GetDocument_spec in E1 as [-> K1]; [|done].
  intros E. apply IH in E as [-> K2]; [|apply K1]. split; [|by etrans]. cbn [foldl]. generalize (u64 (t + size (default [] (view s k)))).
  clear -K1. induction l as [|y l IH]; intros t; [done|]. cbn [foldl]. rewrite (k_view _ _ K1 y). apply IH.
Qed.

(** ** Durability *)

Lemma iter_meta c s ok t b :
  Nat.iter c (fun x : SegmentManager DB * bool => let (s, b) := attempt no_effect x.1 in (s, b && x.2)) (s, ok) = (t, b) -> meta_step s t.
Proof.
  revert t b. induction c as [|c IH]; intros t b; [by intros [= <- <-]|]. change (Nat.iter (S c) ?f ?x) with (f (Nat.iter c f x)).
  destruct (Nat.iter c _ (s, ok)) as [u b'] eqn:E. cbn [fst snd]. destruct (attempt no_effect u) as [w b2] eqn:E2.
  apply attempt_meta in E2; [|done]. intros [= <- <-]. etrans; [by apply (IH u b')|done].
Qed.

Lemma flush_segments_meta c ids ok s s' ok' : flush_segments c ids ok s = (s', ok') -> meta_step s s'.
Proof.
  revert ok s. induction ids as [|i r IH]; intros ok s; cbn [flush_segments]; [by intros [= <- <-]|].
  destruct (Nat.iter c _ (s, ok)) as [t b] eqn:E. apply iter_meta in E. intros E2. apply IH in E2. by etrans.
Qed.

Lemma Flush_meta env s s' ok : Flush env s = (s', ok) \/ FlushAndSync env s = (s', ok) -> meta_step s s'.
Proof.
  assert (forall c, (let (s, ok) := flush_segments c (snapshot_ids s) true s in
    let (s, saved) := PersistActiveMetadataIfNeededLocked env true s in (s, saved && ok)) = (s', ok) -> meta_step s s') as H0.
  { intros c. destruct (flush_segments c _ true s) as [t b] eqn:E1. apply flush_segments_meta in E1.
    destruct (PersistActiveMetadataIfNeededLocked env true t) as [u b2] eqn:E2. apply PersistActive_meta in E2. intros [= <- <-]. by etrans. }
  intros [E|E]; by eapply H0.
Qed.

Lemma barrier_segments_meta sync flush ids s s' r : barrier_segments sync flush ids s = (s', r) -> meta_step s s'.
Proof.
  revert s r. induction ids as [|i ids IH]; intros s r; cbn [barrier_segments]; [by intros [= <- <-]|].
  destruct (if flush then attempt no_effect s else (s, true)) as [t b1] eqn:E1.
  assert (meta_step s t) as M1 by (destruct flush; [by eapply attempt_meta|by injection E1 as <- <-]).
  destruct (if b1 && sync then attempt no_effect t else (t, b1)) as [u b2] eqn:E2.
  assert (meta_step t u) as M2 by (destruct (b1 && sync); [by eapply attempt_meta|by injection E2 as <- <-]).
  destruct (barrier_segments sync flush ids u) as [w l] eqn:E3. intros [= <- <-]. apply IH in E3. etrans; [done|]. by etrans.
Qed.

Lemma barrier_meta env sync flush s s' r : ExecuteDurabilityBarrier env sync flush s = (s', r) -> meta_step s s'.
Proof.
  unfold ExecuteDurabilityBarrier. destruct (PersistActiveMetadataIfNeededLocked env true s) as [t b] eqn:E1. apply PersistActive_meta in E1.
  destruct (barrier_segments sync flush _ t) as [u l] eqn:E2. apply barrier_segments_meta in E2. intros [= <- <-]. by etrans.
Qed.

(** ** Deleting *)

(** [entombs P s s']: the keys of [P] are gone, others are as before. *)

Record entombs (P : bytes -> Prop) s s' : Prop := {
  e_good : good s';
  e_live : live s' = live s;
  e_gone k : P k -> view s' k = None /\ routed_right s' k;
  e_other k : ~ P k -> same_at k s s'
}.

Lemma tombstones_spec s now ids :
  good s -> Forall (fun q => exists k', ParseDocKey k' = Some q) ids ->
  entombs (fun k => exists p, ParseDocKey k = Some p /\ p ∈ ids) s (system_written s (ids ≫= tombstone_writes now)).
Proof.
  intros G Hids. split; [by apply system_written_good|done| |].
  - intros k (p & Hp & Hin). by apply entombed_right; eapply entombed.
  - intros k Hk. apply entombed_other; [|done]. intros p Hp Hin. eauto.
Qed.

Lemma entombs_after P s t s' : keeps s t -> same_docs s t -> entombs P t s' -> entombs P s s'.
Proof.
  intros [K1 K2 K3 K4] D [E1 E2 E3 E4]. split; [done|congruence|done|].
  intros k Hk. etrans; [by apply same_docs_at|by apply E4].
Qed.

(** Removing values of an entombed key from a segment. *)

Lemma delete_value s i k s' ok :
  good s -> i ∈ live s -> tomb s k = true -> route s k = None -> segment_write i [Delete k] s = (s', ok) ->
  entombs (fun x => x = k) s s'.
Proof.
  intros G Hi T R (o & E)%attempt_spec. pose proof (set_Outcomes_meta o s) as M. set (u := set_Outcomes o s) in *.
  assert (good u) as Gu by by eapply meta_good.
  apply (entombs_after _ s u); [by apply meta_keeps|by apply meta_same|].
  assert (tomb s' k = true /\ route s' k = None) as [T' R'].
  { destruct E as [->|[_ ->]]; done. }
  destruct E as [E|[_ E]].
  - split; [subst; by apply segment_written_good|by subst|by intros ? ->; apply entombed_right|].
    intros k' Hk. apply same_at_intro; [by subst|by subst|]. intros j. subst s'. fold (segment_written u i [Delete k]).
    rewrite segment_written_get. case_bool_decide as Ej; [subst j|done]. unfold segment_get.
    destruct (SegmentDBs u !! i) as [d|]; [simpl|done]. unfold write_batch. simpl. rewrite get_delete. by rewrite bool_decide_false.
  - subst s'. split; [done|done|by intros ? ->; apply entombed_right|done].
Qed.

Lemma DeleteDocument_spec env k s s' n :
  good s -> DeleteDocument env k s = (s', n) ->
  (n = 1 /\ is_Some (ParseDocKey k) /\ entombs (fun x => x = k) s s') \/
  (n = 0 /\ (keeps s s' \/ entombs (fun x => x = k) s s')).
Proof.
  intros G. unfold DeleteDocument. destruct (ParseDocKey k) as [p|] eqn:Hp.
  2: { intros [= <- <-]. right. split; [done|]. by left. }
  destruct (system_write _ s) as [t ok] eqn:E. apply attempt_spec in E as (o & E).
  pose proof (set_Outcomes_meta o s) as M. set (u := set_Outcomes o s) in *. assert (good u) as Gu by by eapply meta_good.
  assert (keeps s u) as K by by apply meta_keeps.
  assert (Forall (fun q => exists k', ParseDocKey k' = Some q) [p]) as Hids by (repeat constructor; eauto).
  set (w := system_written u ([p] ≫= tombstone_writes (NowMs env))) in *.
  assert (entombs (fun x => x = k) s w) as W.
  { apply (entombs_after _ s u); [done|by apply meta_same|]. destruct (tombstones_spec u (NowMs env) [p] Gu Hids) as [E1 E2 E3 E4].
    split; [done|done| |].
    - intros x ->. apply E3. exists p. split; [done|by left].
    - intros x Hx. apply E4. intros (q & Hq & Hin). apply list_elem_of_singleton in Hin as ->. by eapply Hx, ParseDocKey_inj. }
  destruct E as [E|[-> ->]]; [|simpl; intros [= <- <-]; right; auto].
  assert (t = w) as -> by done. destruct ok; simpl negb; cbv iota; [|intros [= <- <-]; right; auto].
  destruct (ActiveSegment w) as [i|] eqn:Ha.
  2: { intros [= <- <-]. left. eauto. }
  destruct (segment_write i [Delete k] w) as [x b] eqn:E2. simpl. intros [= <- <-]. left. split_and!; [done|by eexists|].
  destruct (entombed u (NowMs env) p k [p] Hp ltac:(by left) Hids) as [T R].
  apply delete_value in E2 as [F1 F2 F3 F4]; [|apply W|by apply (active_parts w i (e_good _ _ _ W))|done|done].
  destruct W as [W1 W2 W3 W4]. split; [done|congruence|done|]. intros y Hy. etrans; [by apply W4|by apply F4].
Qed.

(** ** Listing *)

Lemma route_value s k p : ParseDocKey k = Some p -> is_Some (route s k) <-> is_Some (GetSystemValue (DocLocationKey p.1 p.2) s).
Proof. intros Hp. unfold route. rewrite Hp. simpl. by rewrite fmap_is_Some. Qed.

Lemma starts_with_split a p k : starts_with (a ++ p) (a ++ k) = starts_with p k.
Proof.
  apply eq_true_iff_eq. rewrite !starts_with_spec. split; intros [r Hr]; exists r; [|by rewrite Hr, app_assoc].
  rewrite <- app_assoc in Hr. by apply app_inv_head in Hr.
Qed.

Lemma loc_prefix q : starts_with doc_prefix q = true -> q = doc_prefix ++ drop 4 q /\ LocationPrefixFromDocPrefix q = DocLocationPrefix ++ drop 4 q.
Proof.
  intros Hq. unfold LocationPrefixFromDocPrefix. rewrite Hq. split; [|done]. by apply starts_with_spec in Hq as [r ->].
Qed.

Lemma prefixed_routes q k p s :
  starts_with doc_prefix q = true -> ParseDocKey k = Some p ->
  DocLocationKey p.1 p.2 ∈ prefixed_keys (LocationPrefixFromDocPrefix q) s <-> starts_with q k = true /\ is_Some (route s k).
Proof.
  intros Hq Hp. destruct (loc_prefix q Hq) as [E1 E2]. unfold prefixed_keys. rewrite list_elem_of_In, filter_In, <- list_elem_of_In.
  assert (starts_with q k = starts_with (drop 4 q) (drop 4 k)) as ->.
  { rewrite E1 at 1. rewrite (ParseDocKey_drop k p Hp) at 1. apply starts_with_split. }
  rewrite keys_spec, (route_value s k p Hp), E2, (DocLocationKey_eq k p Hp), starts_with_split. unfold GetSystemValue. naive_solver.
Qed.

Lemma location_key_doc l k p :
  starts_with DocLocationPrefix l = true -> DocKeyFromLocationKey l = k -> ParseDocKey k = Some p -> l = DocLocationKey p.1 p.2.
Proof.
  intros Hl Hk Hp. rewrite (DocLocationKey_eq k p Hp), <- Hk. unfold DocKeyFromLocationKey. rewrite Hl. simpl negb. cbv iota.
  apply starts_with_spec in Hl as [r ->]. by rewrite drop_app_length.
Qed.

Lemma starts_with_trans p q k : starts_with p q = true -> starts_with q k = true -> starts_with p k = true.
Proof. rewrite !starts_with_spec. intros [r ->] [r' ->]. exists (r ++ r'). by rewrite app_assoc. Qed.

Lemma loc_prefix_starts q : starts_with doc_prefix q = true -> starts_with DocLocationPrefix (LocationPrefixFromDocPrefix q) = true.
Proof. intros Hq. destruct (loc_prefix q Hq) as [_ ->]. apply starts_with_spec. eauto. Qed.

Lemma prefixed_starts q l s :
  starts_with doc_prefix q = true -> l ∈ prefixed_keys (LocationPrefixFromDocPrefix q) s -> starts_with DocLocationPrefix l = true.
Proof.
  intros Hq. unfold prefixed_keys. rewrite list_elem_of_In, filter_In. intros [_ Hl].
  eapply starts_with_trans; [|done]. by apply loc_prefix_starts.
Qed.

(** The listing of a prefix: the keys with a route that are not deleted. *)

Lemma listed_keys q k s :
  starts_with doc_prefix q = true ->
  k ∈ omap (live_doc_key s) (prefixed_keys (LocationPrefixFromDocPrefix q) s) <->
  is_Some (ParseDocKey k) /\ starts_with q k = true /\ is_Some (route s k) /\ tomb s k = false.
Proof.
  intros Hq. rewrite list_elem_of_omap. unfold live_doc_key. split.
  - intros (l & Hl & Hk). destruct (ParseDocKey (DocKeyFromLocationKey l)) as [p|] eqn:Hp; [|done].
    destruct (IsTombstoned p s) eqn:T; [done|]. injection Hk as Hk. rewrite Hk in Hp.
    pose proof (prefixed_starts q l s Hq Hl) as Hs. pose proof (location_key_doc l k p Hs Hk Hp) as ->.
    apply (prefixed_routes q k p s Hq Hp) in Hl as [? ?]. split_and!; [by eexists|done|done|]. unfold tomb. by rewrite Hp.
  - intros ([p Hp] & H1 & H2 & H3). exists (DocLocationKey p.1 p.2). split; [by apply (prefixed_routes q k p s Hq Hp)|].
    rewrite (DocKeyFromLocationKey_eq k p Hp), Hp. unfold tomb in H3. rewrite Hp in H3. by rewrite H3.
Qed.

Lemma str_compare_app a x y : str_compare (a ++ x) (a ++ y) = str_compare x y.
Proof. induction a as [|c a IH]; [done|]. simpl. by rewrite Z.compare_refl. Qed.

Definition str_lt (a b : bytes) : Prop := str_compare a b = Lt.

Lemma sorted_filter {A} (R : A -> A -> Prop) f l : StronglySorted R l -> StronglySorted R (List.filter f l).
Proof.
  induction 1 as [|x l Hl IH Hx]; simpl; [constructor|]. destruct (f x); [|done]. constructor; [done|].
  rewrite Forall_forall in Hx |- *. intros y Hy. apply Hx. rewrite list_elem_of_In, filter_In, <- list_elem_of_In in Hy. naive_solver.
Qed.

Lemma sorted_omap {A B} (R : A -> A -> Prop) (R' : B -> B -> Prop) (f : A -> option B) l :
  (forall x y x' y', x ∈ l -> y ∈ l -> f x = Some x' -> f y = Some y' -> R x y -> R' x' y') -> StronglySorted R l -> StronglySorted R' (omap f l).
Proof.
  intros Hf Hl. induction Hl as [|x l Hl IH Hx]; simpl; [constructor|].
  assert (StronglySorted R' (omap f l)) as IH' .
  { apply IH. intros a b a' b' Ha Hb. apply (Hf a b a' b'); by right. }
  destruct (f x) as [x'|] eqn:E; [|done]. constructor; [done|]. apply Forall_forall.
  intros y' (y & Hy & Ey)%list_elem_of_omap. apply (Hf x y x' y'); [by left|by right|done|done|].
  exact (proj1 (Forall_forall _ _) Hx y Hy).
Qed.

Lemma listed_sorted q s :
  starts_with doc_prefix q = true -> StronglySorted str_lt (omap (live_doc_key s) (prefixed_keys (LocationPrefixFromDocPrefix q) s)).
Proof.
  intros Hq. eapply (sorted_omap str_lt); [|apply sorted_filter, keys_sorted].
  assert (forall x x', x ∈ prefixed_keys (LocationPrefixFromDocPrefix q) s -> live_doc_key s x = Some x' ->
            exists r, x = DocLocationPrefix ++ r /\ x' = doc_prefix ++ r) as Hx.
  { intros x x' Hin Hlk. apply (prefixed_starts q x s Hq) in Hin. unfold live_doc_key in Hlk.
    destruct (ParseDocKey _); [|done]. destruct (IsTombstoned _ _); [done|]. injection Hlk as <-.
    unfold DocKeyFromLocationKey. rewrite Hin. apply starts_with_spec in Hin as [r ->]. exists r. by rewrite drop_app_length. }
  intros x y x' y' Hx1 Hy1 Hx2 Hy2. destruct (Hx x x' Hx1 Hx2) as (r & -> & ->). destruct (Hx y y' Hy1 Hy2) as (r' & -> & ->).
  unfold str_lt. by rewrite !str_compare_app.
Qed.

(** ** Deleting a range *)

Definition in_range_of (start_key end_key : bytes) s k : Prop :=
  is_Some (ParseDocKey k) /\ starts_with start_key k = true /\ str_ltb k end_key = true /\ is_Some (route s k).

Lemma starts_with_leb p k : starts_with p k = true -> str_leb p k = true.
Proof.
  intros [r ->]%starts_with_spec. unfold str_leb. rewrite <- (app_nil_r p) at 1. rewrite str_compare_app. by destruct r.
Qed.

Lemma range_ids start_key end_key s k p :
  starts_with doc_prefix start_key = true -> ParseDocKey k = Some p ->
  p ∈ omap ParseDocKey (List.filter (in_doc_range start_key end_key)
         (DocKeyFromLocationKey <$> prefixed_keys (LocationPrefixFromDocPrefix start_key) s)) <->
  in_range_of start_key end_key s k.
Proof.
  intros Hq Hp. rewrite list_elem_of_omap. split.
  - intros (k' & Hin & Hp'). assert (k' = k) as -> by by eapply ParseDocKey_inj.
    rewrite list_elem_of_In, filter_In, <- list_elem_of_In in Hin. destruct Hin as [(l & Hl & Hin)%list_elem_of_fmap Hr].
    pose proof (prefixed_starts _ _ _ Hq Hin) as Hs. rewrite (location_key_doc l k p Hs (eq_sym Hl) Hp) in Hin.
    apply (prefixed_routes start_key k p s Hq Hp) in Hin as [? ?]. apply andb_true_iff in Hr as [_ ?]. split_and!; [by eexists|done|done|done].
  - intros (_ & H1 & H2 & H3). exists k. split; [|done]. rewrite list_elem_of_In, filter_In, <- list_elem_of_In. split.
    + apply list_elem_of_fmap. exists (DocLocationKey p.1 p.2). rewrite (DocKeyFromLocationKey_eq k p Hp). split; [done|].
      by apply (prefixed_routes start_key k p s Hq Hp).
    + unfold in_doc_range. rewrite H2, starts_with_leb by done. rewrite bool_decide_false; [done|]. by intros ->.
Qed.

Lemma DeleteDocumentRange_spec env start_key end_key s s' n :
  good s -> DeleteDocumentRange env start_key end_key s = (s', n) ->
  (n = 1 /\ entombs (in_range_of start_key end_key s) s s') \/
  (n = 0 /\ (keeps s s' \/ entombs (in_range_of start_key end_key s) s s')).
Proof.
  intros G. assert (keeps s s) as K by by split. unfold DeleteDocumentRange. destruct (starts_with doc_prefix start_key) eqn:Hq; simpl negb; cbv iota.
  2: { intros [= <- <-]. right. auto. }
  set (ids := omap ParseDocKey _). case_bool_decide; [intros [= <- <-]; right; auto|].
  assert (Forall (fun q => exists k', ParseDocKey k' = Some q) ids) as Hids.
  { apply Forall_forall. intros q (k' & _ & Hk')%list_elem_of_omap. eauto. }
  destruct (system_write _ s) as [t ok] eqn:E. apply attempt_spec in E as (o & E).
  pose proof (set_Outcomes_meta o s) as M. set (u := set_Outcomes o s) in *. assert (good u) as Gu by by eapply meta_good.
  assert (keeps s u) as Ku by by apply meta_keeps.
  assert (entombs (in_range_of start_key end_key s) s (system_written u (ids ≫= tombstone_writes (NowMs env)))) as W.
  { apply (entombs_after _ s u); [done|by apply meta_same|].
    destruct (tombstones_spec u (NowMs env) ids Gu Hids) as [E1 E2 E3 E4]. split; [done|done| |].
    - intros k Hk. pose proof Hk as ([p Hp] & _). apply E3. exists p. split; [done|]. by apply (range_ids start_key end_key s k p Hq Hp).
    - intros k Hk. apply E4. intros (p & Hp & Hin). apply Hk. by apply (range_ids start_key end_key s k p Hq Hp). }
  destruct E as [->|[-> ->]]; [|intros [= <- <-]; right; auto].
  intros [= <- <-]. destruct ok; [left; auto|right; auto].
Qed.

(** ** Clearing *)

Lemma in_key_range_app p a b r : in_key_range (p ++ a) (p ++ b) (p ++ r) = in_key_range a b r.
Proof. unfold in_key_range, str_leb, str_ltb. by rewrite !str_compare_app. Qed.

Definition odd_key k : Prop := head (drop 4 k) = Some (chr 255).

Lemma in_clear_range p r : head r <> Some (chr 255) -> in_key_range p (p ++ [chr 255]) (p ++ r) = true.
Proof.
  intros Hr. rewrite <- (app_nil_r p) at 1. rewrite in_key_range_app. unfold in_key_range, str_leb, str_ltb.
  destruct r as [|c r]; [done|]. cbn [str_compare]. change (code (chr 255)) with 255.
  assert (code c <> 255) as Hc by (intros E; apply Hr; simpl; f_equal; apply code_inj; by rewrite E).
  pose proof (code_range c). by rewrite (proj2 (Z.compare_lt_iff (code c) 255)) by lia.
Qed.

Lemma doc_range k : is_Some (ParseDocKey k) -> in_key_range #"doc:" #"doc;" k = true.
Proof.
  intros [[c i] (-> & _)%ParseDocKey_spec]. change #"doc:" with (#"doc" ++ [":"%char]). change #"doc;" with (#"doc" ++ [";"%char]).
  change (doc_prefix ++ c ++ #":" ++ i) with (#"doc" ++ ":"%char :: (c ++ #":" ++ i)). rewrite in_key_range_app.
  generalize (c ++ #":" ++ i). clear. intros r. by destruct r.
Qed.

Lemma clear_segments_spec ids s s' ok :
  good s -> (forall i, i ∈ ids -> i ∈ live s) -> clear_segments ids s = (s', ok) ->
  good s' /\ live s' = live s /\ SystemDB s' = SystemDB s /\ CurrentSnapshot s' = CurrentSnapshot s /\
  (forall j k, segment_get j k s = None -> segment_get j k s' = None) /\
  (ok = true -> forall j k, j ∈ ids -> is_Some (ParseDocKey k) -> segment_get j k s' = None).
Proof.
  revert s. induction ids as [|i r IH]; intros s G Hi; simpl.
  - intros [= <- <-]. split_and!; try done. intros _ j k Hj. by apply elem_of_nil in Hj.
  - destruct (segment_write i _ s) as [t ok1] eqn:E. apply attempt_spec in E as (o & E).
    pose proof (set_Outcomes_meta o s) as M. set (u := set_Outcomes o s) in *. assert (good u) as Gu by by eapply meta_good.
    set (w := segment_written u i [DeleteRange #"doc:" #"doc;"]).
    assert (good w) as Gw by (apply segment_written_good; [done|apply Hi; by left]).
    assert (forall j k, segment_get j k s = None -> segment_get j k w = None) as W1.
    { intros j k Hj. unfold w. rewrite segment_written_get. case_bool_decide as Ej; [subst j|done].
      unfold segment_get in Hj. change (SegmentDBs u) with (SegmentDBs s). destruct (SegmentDBs s !! i) as [d|]; [simpl in *|done].
      unfold write_batch. simpl. rewrite get_delete_range. by destruct (in_key_range _ _ _). }
    assert (forall k, is_Some (ParseDocKey k) -> segment_get i k w = None) as W2.
    { intros k Hk. unfold w. rewrite segment_written_get, bool_decide_true by done. destruct (SegmentDBs u !! i) as [d|]; [simpl|done].
      unfold write_batch. simpl. by rewrite get_delete_range, doc_range. }
    destruct ok1; simpl negb; cbv iota.
    2: { intros [= <- <-]. destruct E as [->|[_ ->]]; by split_and!. }
    destruct E as [E|[? _]]; [|done]. assert (t = w) as -> by done.
    set (x := set_Metadata _ w). assert (meta_step w x) as Mx by by apply (alter_metadata_meta empty_metadata i w).
    destruct (PersistSegmentMetadata i x) as [y ok2] eqn:E2. apply PersistSegmentMetadata_meta in E2.
    assert (meta_step w y) as My by by etrans. assert (good y) as Gy by by eapply meta_good.
    assert (forall j k, segment_get j k y = segment_get j k w) as Y by (intros; by apply meta_get).
    assert (live y = live s /\ SystemDB y = SystemDB s /\ CurrentSnapshot y = CurrentSnapshot s) as (Y1 & Y2 & Y3).
    { by rewrite (meta_live _ _ My), (ms_system _ _ My), (ms_snapshot _ _ My). }
    destruct ok2; simpl negb; cbv iota.
    + intros E3. apply IH in E3 as (A1 & A2 & A3 & A4 & A5 & A6); [|done|intros j Hj; rewrite Y1; apply Hi; by right].
      split_and!; [done|congruence|congruence|congruence|intros j k Hj; apply A5; rewrite Y; by apply W1|].
      intros Hok j k Hj Hk. apply elem_of_cons in Hj as [->|Hj]; [|by apply A6]. apply A5. rewrite Y. by apply W2.
    + intros [= <- <-]. split_and!; [done|done|done|done|intros j k Hj; rewrite Y; by apply W1|done].
Qed.

Lemma get_cleared (d : DB) p r v k :
  k = p ++ r -> head r <> Some (chr 255) -> k <> ManifestGenerationKey ->
  p = DocLocationPrefix \/ p = TombstonePrefix ->
  db_get (write_batch d [clear_prefix DocLocationPrefix; clear_prefix TombstonePrefix; Put ManifestGenerationKey v]) k = None.
Proof.
  intros -> Hr Hk Hp. unfold write_batch. simpl. rewrite get_put, bool_decide_false by done. unfold clear_prefix. rewrite !get_delete_range.
  destruct Hp as [->| ->]; [|by rewrite in_clear_range]. rewrite (in_clear_range DocLocationPrefix) by done. by destruct (in_key_range _ _ _).
Qed.

Lemma ClearAllDocuments_spec env s s' ok :
  good s -> ClearAllDocuments env s = (s', ok) ->
  good s' /\ live s' = live s /\ (ok = true -> forall k, view s' k = None /\ (is_Some (ParseDocKey k) -> odd_key k \/ routed_right s' k)).
Proof.
  intros G. unfold ClearAllDocuments. destruct (g_snapshot _ G) as (g & a & Hs). rewrite Hs. simpl LiveNewestFirst.
  destruct (clear_segments (live s) s) as [t ok1] eqn:E. apply clear_segments_spec in E as (A1 & A2 & A3 & A4 & A5 & A6); [|done|done].
  destruct ok1; simpl negb; cbv iota; [|by intros [= <- <-]]. set (u := set_persisted _ _).
  assert (meta_step t u) as M by (etrans; [apply (set_dirty_meta 0 0)|apply set_persisted_meta]).
  assert (good u) as Gu by by eapply meta_good. intros E. apply attempt_spec in E as (o & E).
  assert (good s' /\ live s' = live s) as [G' L'].
  { pose proof (set_Outcomes_meta o u) as Mo. assert (good (set_Outcomes o u)) as Go by by eapply meta_good.
    destruct E as [->|[_ ->]]; [|done]. split; [by apply system_written_good|done]. }
  split_and!; [done|done|]. intros ->. destruct E as [->|[? _]]; [|done]. clear G' L'.
  set (v := set_SystemDB _ _). intros k.
  assert (forall p, ParseDocKey k = Some p -> newest v k = None) as N.
  { intros p Hp. apply first_segment_None, Forall_forall. change (snapshot_ids v) with (snapshot_ids t).
    rewrite (good_snapshot t A1), A2. intros j Hj. change (segment_get j k v) with (segment_get j k t). by apply A6. }
  destruct (ParseDocKey k) as [p|] eqn:Hp; [|by unfold view; rewrite Hp; split; [|intros []]].
  assert (forall j, segment_get j k v = None) as Gn.
  { intros j. change (segment_get j k v) with (segment_get j k t). destruct (decide (j ∈ live s)) as [Hj|Hj].
    - by apply A6.
    - apply A5. by apply G. }
  split.
  - unfold view. rewrite Hp. simpl. destruct (IsTombstoned p v); [done|]. rewrite (N p eq_refl). unfold routed_get.
    destruct (GetSystemValue _ v); [simpl|done]. unfold FindSegment. case_bool_decide; [simpl|done]. by rewrite Gn.
  - intros _. destruct (decide (odd_key k)) as [|Ho]; [by left|right].
    assert (tomb v k = false /\ route v k = None) as [T R].
    { unfold tomb, route, IsTombstoned, GetSystemValue. rewrite Hp. cbn [mbind option_bind]. 
      change (SystemDB v) with (write_batch (SystemDB t) [clear_prefix DocLocationPrefix; clear_prefix TombstonePrefix;
                                                          Put ManifestGenerationKey (to_string g)]).
      rewrite (get_cleared _ DocLocationPrefix (drop 4 k) _ (DocLocationKey p.1 p.2)) by (by auto || by apply DocLocationKey_eq || apply location_not_generation).
      rewrite (get_cleared _ TombstonePrefix (drop 4 k) _ (TombstoneKey p.1 p.2)) by (by auto || by apply TombstoneKey_eq || apply tombstone_not_generation). done. }
    unfold routed_right. by rewrite T, R, (N p eq_refl).
Qed.

End Ops.

End SegmentsOps.
