(* ===== verification/SegmentsRestart.v ===== *)
(** * Document segments: what survives a restart

    The scan that rebuilds the routes finds the newest version of every document that
    is not deleted; [Initialize] brings a manager back with the documents that were on
    disk, and a start that fails leaves them for the next one. *)

From S2P Require Import Prelude CText Wildcard Segments SegmentsInv SegmentsOps.
Import Segments SegmentsInv SegmentsOps.

Module SegmentsRestart.

Section Restart.
Context {DB : Type} `{Store DB, !StoreLaws DB} (opts : RocksDBOptions).
Implicit Types (s : SegmentManager DB) (k : bytes).

(** ** Rebuilding the routes *)

Definition marker s : option bytes := GetSystemValue ManifestGenerationKey s.

Definition same_tombs (d d' : DB) : Prop := forall p, db_get d' (TombstoneKey p.1 p.2) = db_get d (TombstoneKey p.1 p.2).

Definition routes (d : DB) (p : bytes * bytes) : option bytes := location_segment <$> db_get d (DocLocationKey p.1 p.2).

Definition scan_state : Type := SegmentManager DB * list write * list bytes * bool.

(** Only the system database differs from the state [s0] in which the scan began: its
    tombstones and its marker are the same, and with the batch its routes are [f]. *)

Record scanning s0 (f : bytes -> option bytes) (s : SegmentManager DB) (batch : list write) (pending : list bytes) (ok : bool) : Prop := {
  sc_frame : exists d o, s = set_Outcomes o (set_SystemDB d s0);
  sc_tombs : same_tombs (SystemDB s0) (SystemDB s);
  sc_marker : marker s = marker s0;
  sc_nil : ok = true -> pending = [] -> batch = [];
  sc_batch_tombs : ok = true -> same_tombs (SystemDB s) (write_batch (SystemDB s) batch);
  sc_batch_marker : ok = true -> db_get (write_batch (SystemDB s) batch) ManifestGenerationKey = marker s;
  sc_pending : ok = true -> forall key, is_Some (db_get (write_batch (SystemDB s) batch) key) <-> key ∈ pending \/ is_Some (db_get (SystemDB s) key);
  sc_routes : ok = true -> forall k p, ParseDocKey k = Some p -> routes (write_batch (SystemDB s) batch) p = f k
}.

Definition scan_ok s0 f (x : scan_state) : Prop := let '(s, batch, pending, ok) := x in scanning s0 f s batch pending ok.

Definition add_route s0 (i k : bytes) (f : bytes -> option bytes) : bytes -> option bytes :=
  fun k' => if bool_decide (k' = k) && bool_decide (is_Some (ParseDocKey k)) && negb (tomb s0 k) && bool_decide (f k = None) then Some i else f k'.

Lemma scanning_failed s0 f f' s batch pending b' p' : scanning s0 f s batch pending false -> scanning s0 f' s b' p' false.
Proof. intros [S1 S2 S3 _ _ _ _ _]. by split. Qed.

Lemma write_batch_snoc (d : DB) l w : write_batch d (l ++ [w]) = db_write (write_batch d l) w.
Proof. unfold write_batch. by rewrite foldl_app. Qed.

Lemma scanning_ext s0 f f' s batch pending ok : (forall k, is_Some (ParseDocKey k) -> f' k = f k) -> scanning s0 f s batch pending ok -> scanning s0 f' s batch pending ok.
Proof. intros Hf [S1 S2 S3 S4 S5 S6 S7 S8]. split; try done. intros Hok k p Hp. rewrite Hf by (by eexists). by apply S8. Qed.

(** A document that is added to the batch. *)

Lemma scanning_add s0 f s batch pending i k p now :
  scanning s0 f s batch pending true -> no_colon i -> ParseDocKey k = Some p -> IsTombstoned p s0 = false -> f k = None ->
  scanning s0 (add_route s0 i k f) s (batch ++ [Put (DocLocationKey p.1 p.2) (i ++ #":" ++ to_string now)]) (DocLocationKey p.1 p.2 :: pending) true.
Proof.
  intros [S1 S2 S3 S4 S5 S6 S7 S8] Hi Hp Ht Hf. split; try done.
  - intros _ q. rewrite write_batch_snoc, get_put, bool_decide_false; [by apply S5|]. intros E. by apply (location_not_tombstone p q).
  - intros _. rewrite write_batch_snoc, get_put, bool_decide_false; [by apply S6|]. intros E. by apply (location_not_generation p).
  - intros _ key. rewrite write_batch_snoc, get_put, elem_of_cons. case_bool_decide as E; [naive_solver|]. rewrite S7 by done. naive_solver.
  - intros _ k' q Hq. unfold routes. rewrite write_batch_snoc, get_put. unfold add_route, tomb. rewrite Hp, Ht, Hf.
    rewrite (bool_decide_true (is_Some (Some p))) by by eexists. rewrite (bool_decide_true (None = None)) by done.
    destruct (decide (k' = k)) as [->|Hne].
    + assert (q = p) as -> by congruence. rewrite !bool_decide_true by done. cbn [andb negb fmap option_fmap option_map]. f_equal. by apply location_segment_eq.
    + rewrite (bool_decide_false (k' = k)) by done. cbn [andb]. rewrite bool_decide_false; [by apply S8|].
      intros E. apply Hne. assert (q = p) as -> by by eapply DocLocationKey_inj. by eapply ParseDocKey_inj.
Qed.

(** A batch that is written. *)

Lemma scanning_flush s0 f s batch pending s' ok :
  scanning s0 f s batch pending true -> system_write batch s = (s', ok) ->
  scanning s0 f s' (if ok then [] else batch) (if ok then [] else pending) ok.
Proof.
  intros [S1 S2 S3 S4 S5 S6 S7 S8] (o & E)%attempt_spec. destruct S1 as (d & o' & ->).
  destruct E as [->|[-> ->]].
  - split.
    + by eexists _, _.
    + intros p. rewrite <- S2. by apply S5.
    + rewrite <- S3. by apply S6.
    + by destruct ok.
    + by intros ->.
    + by intros ->.
    + intros ->. intros key. simpl. split; [by right|intros [Hn|]; [by apply elem_of_nil in Hn|done]].
    + intros -> k p Hp. by apply S8.
  - split; try done. by eexists _, _.
Qed.

Lemma rebuild_key_spec env s0 i k f x :
  no_colon i -> scan_ok s0 f x -> scan_ok s0 (add_route s0 i k f) (rebuild_key env i k x).
Proof.
  intros Hi. destruct x as [[[s batch] pending] ok]. intros S. unfold rebuild_key. destruct ok; cbn [negb]; [|by eapply scanning_failed].
  assert (forall c, add_route s0 i k f c = f c \/ (bool_decide (is_Some (ParseDocKey k)) && negb (tomb s0 k) && bool_decide (f k = None) = true)) as Hc.
  { intros c. unfold add_route. destruct (bool_decide (c = k)); simpl; [|by left]. destruct (_ && _ && _); auto. }
  destruct (ParseDocKey k) as [p|] eqn:Hp.
  2: { eapply scanning_ext; [|exact S]. intros c _. destruct (Hc c) as [|E]; [done|]. by rewrite bool_decide_false in E by by intros []. }
  assert (IsTombstoned p s = IsTombstoned p s0) as Et.
  { unfold IsTombstoned, GetSystemValue. by rewrite (sc_tombs _ _ _ _ _ _ S). }
  rewrite Et. destruct (IsTombstoned p s0) eqn:T.
  { eapply scanning_ext; [|exact S]. intros c _. destruct (Hc c) as [|E]; [done|]. unfold tomb in E. rewrite Hp, T in E. by rewrite andb_false_r in E. }
  assert (f k = None <-> ~ (DocLocationKey p.1 p.2 ∈ pending \/ is_Some (db_get (SystemDB s) (DocLocationKey p.1 p.2)))) as Hf.
  { rewrite <- (sc_pending _ _ _ _ _ _ S eq_refl), <- (sc_routes _ _ _ _ _ _ S eq_refl k p Hp), eq_None_not_Some. unfold routes. by rewrite fmap_is_Some. }
  destruct (bool_decide (_ ∈ pending) || _) eqn:B.
  { eapply scanning_ext; [|exact S]. intros c _. destruct (Hc c) as [|E]; [done|]. exfalso. apply andb_true_iff in E as [_ E%bool_decide_eq_true].
    apply Hf in E. apply E. apply orb_true_iff in B as [B|B]; apply bool_decide_eq_true in B; [by left|by right]. }
  apply orb_false_iff in B as [B1%bool_decide_eq_false B2%bool_decide_eq_false].
  assert (f k = None) as Hfk by (apply Hf; by intros []).
  pose proof (scanning_add s0 f s batch pending i k p (NowMs env) S Hi Hp T Hfk) as S'.
  destruct (RebuildBatchSize <=? length (DocLocationKey p.1 p.2 :: pending))%nat; [|exact S']. destruct (system_write _ s) as [s' ok] eqn:E. apply (scanning_flush _ _ _ _ _ _ _ S') in E.
  by destruct ok.
Qed.

Definition add_keys s0 i L f : bytes -> option bytes := foldl (fun f k => add_route s0 i k f) f L.

Lemma add_keys_at s0 i L f k :
  is_Some (ParseDocKey k) ->
  add_keys s0 i L f k =
  match f k with Some r => Some r | None => if negb (tomb s0 k) && bool_decide (k ∈ L) then Some i else None end.
Proof.
  intros Hk. unfold add_keys. revert f. induction L as [|k0 L IH]; intros f.
  - cbn [foldl]. rewrite bool_decide_false by (by intros ?%elem_of_nil). rewrite andb_false_r. by destruct (f k).
  - cbn [foldl]. rewrite IH. unfold add_route at 1. destruct (decide (k = k0)) as [<-|Hne].
    + rewrite (bool_decide_true (k = k)), (bool_decide_true (is_Some _)), (bool_decide_true (k ∈ k :: L)) by (done || by left).
      destruct (f k) as [r|] eqn:Fk; [by rewrite bool_decide_false, andb_false_r by done|]. rewrite bool_decide_true by done.
      by destruct (tomb s0 k).
    + rewrite (bool_decide_false (k = k0)) by done. cbn [andb].
      by rewrite (bool_decide_ext (k ∈ k0 :: L) (k ∈ L)) by set_solver.
Qed.

Lemma rebuild_keys_spec env s0 i L f x :
  no_colon i -> scan_ok s0 f x -> scan_ok s0 (add_keys s0 i L f) (foldl (fun x k => rebuild_key env i k x) x L).
Proof.
  intros Hi. revert f x. induction L as [|k L IH]; intros f x Hx; [done|]. cbn [foldl add_keys]. apply IH. by apply rebuild_key_spec.
Qed.

Definition add_segments s0 ids f : bytes -> option bytes := foldl (fun f i => add_keys s0 i (segment_doc_keys i s0) f) f ids.

Lemma segment_doc_keys_spec i s k : is_Some (ParseDocKey k) -> k ∈ segment_doc_keys i s <-> is_Some (segment_get i k s).
Proof.
  intros [[c j] (E & _)%ParseDocKey_spec]. unfold segment_doc_keys, segment_get. destruct (SegmentDBs s !! i) as [d|]; simpl.
  - rewrite list_elem_of_In, filter_In, <- list_elem_of_In, keys_spec. split; [by intros []|]. intros. split; [done|].
    apply starts_with_spec. rewrite E. eauto.
  - split; [by intros ?%elem_of_nil|by intros []].
Qed.

Lemma add_segments_at s0 ids f k :
  is_Some (ParseDocKey k) ->
  add_segments s0 ids f k =
  match f k with Some r => Some r | None => if tomb s0 k then None else fst <$> first_segment ids k s0 end.
Proof.
  intros Hk. unfold add_segments. revert f. induction ids as [|i ids IH]; intros f; cbn [foldl].
  - simpl. destruct (f k); [done|]. by destruct (tomb s0 k).
  - rewrite IH, add_keys_at by done. destruct (f k); [done|]. destruct (tomb s0 k); [done|]. cbn [negb andb first_segment].
    rewrite (bool_decide_ext _ _ (segment_doc_keys_spec i s0 k Hk)). destruct (segment_get i k s0) as [v|].
    + by rewrite bool_decide_true by by eexists.
    + by rewrite bool_decide_false by by intros [].
Qed.

Lemma scan_dbs s0 f x : scan_ok s0 f x -> SegmentDBs x.1.1.1 = SegmentDBs s0.
Proof. destruct x as [[[s batch] pending] ok]. intros [(d & o & ->) _ _ _ _ _ _ _]. done. Qed.

Lemma rebuild_segments_spec env s0 ids f x :
  Forall no_colon ids -> scan_ok s0 f x ->
  scan_ok s0 (add_segments s0 ids f)
    (foldl (fun x i => foldl (fun x k => rebuild_key env i k x) x (segment_doc_keys i x.1.1.1)) x ids).
Proof.
  intros Hids. revert f x. induction Hids as [|i ids Hi Hids IH]; intros f x Hx; [done|]. cbn [foldl add_segments]. apply IH.
  assert (segment_doc_keys i x.1.1.1 = segment_doc_keys i s0) as -> by (unfold segment_doc_keys; by rewrite (scan_dbs s0 f x)).
  by apply rebuild_keys_spec.
Qed.

(** Clearing the routes leaves the tombstones and the marker. *)

Lemma clear_routes_tombs (d : DB) : same_tombs d (write_batch d [clear_prefix DocLocationPrefix]).
Proof.
  intros p. unfold write_batch. simpl. unfold clear_prefix. rewrite get_delete_range.
  assert (in_key_range DocLocationPrefix (DocLocationPrefix ++ [chr 255]) (TombstoneKey p.1 p.2) = false) as ->; [|done].
  unfold in_key_range, str_ltb. apply andb_false_iff. right. unfold TombstoneKey. by cbv -[app].
Qed.

Lemma clear_routes_marker (d : DB) :
  db_get (write_batch d [clear_prefix DocLocationPrefix]) ManifestGenerationKey = db_get d ManifestGenerationKey.
Proof. unfold write_batch. simpl. unfold clear_prefix. by rewrite get_delete_range. Qed.

Lemma clear_routes_at (d : DB) k p :
  ParseDocKey k = Some p -> ~ odd_key k -> routes (write_batch d [clear_prefix DocLocationPrefix]) p = None.
Proof.
  intros Hp Ho. unfold routes, write_batch. cbn [foldl]. unfold clear_prefix. rewrite get_delete_range.
  by rewrite (DocLocationKey_eq k p Hp), in_clear_range.
Qed.

Definition only_system s s' : Prop := exists d o, s' = set_Outcomes o (set_SystemDB d s).

Lemma route_routes s k p : ParseDocKey k = Some p -> route s k = routes (SystemDB s) p.
Proof. intros Hp. unfold route. by rewrite Hp. Qed.

Lemma tombs_tomb s s' k : same_tombs (SystemDB s) (SystemDB s') -> tomb s' k = tomb s k.
Proof. intros T. unfold tomb, IsTombstoned, GetSystemValue. destruct (ParseDocKey k); [|done]. by rewrite T. Qed.

Lemma only_system_newest s s' k : only_system s s' -> newest s' k = newest s k.
Proof. intros (d & o & ->). by apply first_segment_ext. Qed.

Lemma marker_tombs (d : DB) v : same_tombs d (write_batch d [Put ManifestGenerationKey v]).
Proof. intros p. unfold write_batch. cbn [foldl]. by rewrite get_put, bool_decide_false by apply tombstone_not_generation. Qed.

Lemma marker_routes (d : DB) v p : routes (write_batch d [Put ManifestGenerationKey v]) p = routes d p.
Proof. unfold routes, write_batch. cbn [foldl]. by rewrite get_put, bool_decide_false by apply location_not_generation. Qed.

Definition rebuilt s' : Prop := forall k, is_Some (ParseDocKey k) -> ~ odd_key k -> routed_right s' k.

Lemma rebuilt_intro s s' f :
  only_system s s' -> same_tombs (SystemDB s) (SystemDB s') ->
  (forall k p, ParseDocKey k = Some p -> ~ odd_key k -> f k = None) ->
  (forall k p, ParseDocKey k = Some p -> routes (SystemDB s') p = add_segments s (snapshot_ids s) f k) -> rebuilt s'.
Proof.
  intros O T Hf Hr k [p Hp] Ho. unfold routed_right. rewrite (tombs_tomb s s' k T), (only_system_newest s s' k O).
  rewrite (route_routes s' k p Hp), (Hr k p Hp), add_segments_at by by eexists. by rewrite (Hf k p Hp Ho).
Qed.

Lemma scanning_start s o :
  scanning s (fun k => route (set_Outcomes o (system_written s [clear_prefix DocLocationPrefix])) k)
    (set_Outcomes o (system_written s [clear_prefix DocLocationPrefix])) [] [] true.
Proof.
  split; try done.
  - by eexists _, _.
  - apply clear_routes_tombs.
  - apply clear_routes_marker.
  - intros _ key. simpl. split; [by right|]. intros [Hn|]; [by apply elem_of_nil in Hn|done].
  - intros _ k p Hp. unfold route. by rewrite Hp.
Qed.

Lemma set_SystemDB_same s : set_SystemDB (SystemDB s) s = s.
Proof. by destruct s. Qed.

Lemma RebuildDocLocationMap_spec env s s' ok :
  is_Some (CurrentSnapshot s) -> Forall no_colon (snapshot_ids s) -> RebuildDocLocationMap env s = (s', ok) ->
  only_system s s' /\ same_tombs (SystemDB s) (SystemDB s') /\ (marker s' = marker s \/ rebuilt s') /\ (ok = true -> rebuilt s').
Proof.
  intros [snapshot Hs] Hids. unfold RebuildDocLocationMap. rewrite Hs.
  assert (snapshot_ids s = LiveNewestFirst snapshot) as Hl by (unfold snapshot_ids; by rewrite Hs). rewrite <- Hl.
  destruct (system_write [clear_prefix DocLocationPrefix] s) as [s1 ok1] eqn:E1. apply attempt_spec in E1 as (o & E1).
  destruct ok1; cbn [negb].
  2: { intros [= <- <-]. destruct E1 as [->|[_ ->]]; split_and!; try done.
       - by eexists _, _.
       - apply clear_routes_tombs.
       - left. apply clear_routes_marker.
       - exists (SystemDB s), o. by rewrite set_SystemDB_same.
       - by left. }
  destruct E1 as [E1|[? _]]; [|done]. assert (s1 = set_Outcomes o (system_written s [clear_prefix DocLocationPrefix])) as -> by done. clear E1.
  pose proof (scanning_start s o) as S0. set (f := fun k => route _ k) in S0. set (t := set_Outcomes o _) in *.
  assert (forall k p, ParseDocKey k = Some p -> ~ odd_key k -> f k = None) as Hf.
  { intros k p Hp Ho. unfold f. rewrite (route_routes t k p Hp). by apply (clear_routes_at _ k). }
  pose proof (rebuild_segments_spec env s (snapshot_ids s) f (t, [], [], true) Hids S0) as S1.
  destruct (foldl _ (t, [], [], true) (snapshot_ids s)) as [[[s2 batch] pending] ok2]. simpl in S1.
  destruct ok2; cbn [negb].
  2: { intros [= <- <-]. split_and!; [by destruct (sc_frame _ _ _ _ _ _ S1) as (d & o' & ->); eexists _, _|apply S1|left; apply S1|done]. }
  destruct (match pending with [] => (s2, true) | _ => system_write batch s2 end) as [s3 ok3] eqn:E3.
  assert (exists b p, scanning s (add_segments s (snapshot_ids s) f) s3 b p ok3 /\ (ok3 = true -> b = [])) as (b & pd & S3 & Hb).
  { destruct pending as [|x pending'].
    - injection E3 as <- <-. exists batch, []. split; [done|]. intros _. by apply S1.
    - apply (scanning_flush _ _ _ _ _ _ _ S1) in E3. eexists _, _. split; [exact E3|]. by intros ->. }
  clear S1 E3. destruct ok3; cbn [negb].
  2: { intros [= <- <-]. split_and!; [by destruct (sc_frame _ _ _ _ _ _ S3) as (d & o' & ->); eexists _, _|apply S3|left; apply S3|done]. }
  rewrite (Hb eq_refl) in S3. destruct (sc_frame _ _ _ _ _ _ S3) as (d & o' & Es).
  assert (forall k p, ParseDocKey k = Some p -> routes (SystemDB s3) p = add_segments s (snapshot_ids s) f k) as R3 by (by apply S3).
  intros E4. apply attempt_spec in E4 as (o4 & [E4|[-> E4]]).
  - assert (only_system s s') as O by (subst s' s3; by eexists _, _).
    assert (same_tombs (SystemDB s) (SystemDB s')) as T.
    { intros p. rewrite E4. transitivity (db_get (SystemDB s3) (TombstoneKey p.1 p.2)); [apply marker_tombs|apply S3]. }
    assert (rebuilt s') as R; [|by split_and!; [done|done|right|]].
    apply (rebuilt_intro s s' f O T Hf). intros k p Hp. rewrite <- (R3 k p Hp), E4. apply marker_routes.
  - subst s'. split_and!; [subst s3; by eexists _, _|apply S3|left; apply S3|done].
Qed.

(** ** What is on disk *)

Record disk_step s s' : Prop := {
  ds_system : SystemDB s' = SystemDB s;
  ds_file : ManifestFile s' = ManifestFile s;
  ds_dbs : SegmentDBs s' = SegmentDBs s;
  ds_files : grows (SegmentFiles s) (SegmentFiles s');
  ds_metadata : grows (Metadata s) (Metadata s')
}.

#[export] Instance disk_step_preorder : PreOrder disk_step.
Proof. split; [by intros s|]. intros x y z [] []. split; try congruence; by etrans. Qed.

Lemma meta_disk s s' : meta_step s s' -> disk_step s s'.
Proof. by intros []. Qed.

Record disk_ok s (m : SegmentManifest) : Prop := {
  d_file : ManifestFile s = Some m;
  d_nodup : NoDup (manifest_live m);
  d_parts : Forall (has_parts s) (manifest_live m);
  d_files : ids_match (SegmentFiles s);
  d_metadata : ids_match (Metadata s);
  d_orphans i k : i ∉ manifest_live m -> segment_get i k s = None
}.

Lemma disk_ok_step s s' m : disk_step s s' -> disk_ok s m -> disk_ok s' m.
Proof.
  intros S D. split.
  - rewrite (ds_file _ _ S). apply D.
  - apply D.
  - apply (Forall_impl _ _ _ (d_parts _ _ D)). intros i (? & ? & ?). split_and!; [done|by apply S|by rewrite (ds_dbs _ _ S)].
  - apply S, D.
  - apply S, D.
  - intros i k Hi. unfold segment_get. rewrite (ds_dbs _ _ S). by apply D.
Qed.

Lemma disk_ok_system s s' m : only_system s s' -> disk_ok s m -> disk_ok s' m.
Proof. intros (d & o & ->) []. by split. Qed.

(** A running manager leaves a disk from which it can start. *)

Lemma good_disk s : good s -> exists m, disk_ok s m /\ extends (live s) (manifest_live m).
Proof.
  intros G. destruct (g_disk _ G) as (m & Hm & He & Hp). exists m. split; [|done]. split; [done| |done|apply G|apply G|].
  - destruct He as [->|(e & Hn & ->)]; [apply G|]. constructor; [done|apply G].
  - intros i k Hi. apply G. intros Hin. apply Hi. destruct He as [->|(e & _ & ->)]; [done|by right].
Qed.

(** ** Opening the segments of the manifest *)

Lemma open_listed_spec fix_m st i s s' ok :
  (forall x, Id (fix_m x) = Id x) -> open_listed fix_m st i s = (s', ok) ->
  meta_step s s' /\ (ok = true -> is_Some (Metadata s' !! i)).
Proof.
  intros Hfix. unfold open_listed. destruct (SegmentFiles s !! i) as [m|]; [|by intros [= <- <-]].
  case_bool_decide as Hid; cbn [negb]; [|by intros [= <- <-]].
  set (fixed := if bool_decide (State m = st) then m else fix_m m).
  assert (Id fixed = i) as Hf by (unfold fixed; case_bool_decide; [done|by rewrite Hfix]).
  destruct (if bool_decide (State m = st) then (s, true) else save_metadata fixed s) as [s1 ok1] eqn:E1.
  assert (meta_step s s1) as M1.
  { destruct (bool_decide (State m = st)); [by injection E1 as <- <-|by eapply save_metadata_meta]. }
  destruct ok1; cbn [negb]; [|by intros [= <- <-]].
  unfold OpenSegment. rewrite Hf. destruct (SegmentDBs s1 !! i); [|by intros [= <- <-]].
  intros (o & E2)%attempt_spec. pose proof (set_Outcomes_meta o s1) as Mo. destruct E2 as [->|[-> ->]]; [|split; [by etrans|done]].
  split; [|intros _; simpl; by rewrite lookup_insert_eq]. etrans; [done|]. etrans; [exact Mo|]. by apply (insert_metadata_meta i fixed (set_Outcomes o s1)).
Qed.

Lemma open_sealed_spec env ids s s' ok :
  open_sealed env ids s = (s', ok) ->
  disk_step s s' /\ Manifest s' = Manifest s /\ ActiveSegment s' = ActiveSegment s /\
  (ok = true -> SealedSegments s' = SealedSegments s ++ ids /\ Forall (fun i => is_Some (Metadata s' !! i)) ids).
Proof.
  revert s. induction ids as [|i r IH]; intros s; cbn [open_sealed].
  - intros [= <- <-]. split_and!; try done. intros _. by rewrite app_nil_r.
  - destruct (open_listed (fix_sealed env) #"sealed" i s) as [s1 ok1] eqn:E1. apply open_listed_spec in E1 as [M1 L1]; [|done].
    destruct ok1; cbn [negb].
    + intros E. apply IH in E as (S2 & H1 & H2 & H3). pose proof (meta_disk _ _ M1) as S1. split_and!.
      * etrans; [exact S1|]. by destruct S2.
      * rewrite H1. apply M1.
      * rewrite H2. apply M1.
      * intros Hok. destruct (H3 Hok) as [H4 H5]. rewrite H4. simpl. rewrite (ms_sealed _ _ M1), <- app_assoc. split; [done|].
        constructor; [|done]. apply (ds_metadata _ _ S2). simpl. by apply L1.
    + intros [= <- <-]. split_and!; [by apply meta_disk|apply M1|apply M1|done].
Qed.

Lemma open_active_spec env i s s' ok :
  ids_match (Metadata s) -> open_active env i s = (s', ok) ->
  disk_step s s' /\ Manifest s' = Manifest s /\ SealedSegments s' = SealedSegments s /\
  (ok = true -> ActiveSegment s' = Some i /\ is_Some (Metadata s' !! i)).
Proof.
  intros Hm. unfold open_active. destruct (open_listed fix_active #"active" i s) as [s1 ok1] eqn:E1.
  apply open_listed_spec in E1 as [M1 L1]; [|done].
  destruct ok1; cbn [negb]; [|intros [= <- <-]; split_and!; [by apply meta_disk|apply M1|apply M1|done]].
  set (t := set_ActiveSegment (Some i) s1). change (Metadata t) with (Metadata s1).
  assert (disk_step s t) as S1 by (destruct (meta_disk _ _ M1); by split).
  destruct (L1 eq_refl) as [m Hi]. rewrite Hi. assert (Id m = i) as Hid by (by apply (ms_metadata _ _ M1)).
  destruct (_ && _).
  - intros [= <- <-]. split_and!; [done|apply M1|apply M1|]. intros _. split; [done|by eexists].
  - set (u := set_Metadata _ t). assert (meta_step t u) as Mu by (by apply (insert_metadata_meta i (estimate env m) t)).
    intros E2. apply PersistSegmentMetadata_meta in E2. assert (meta_step t s') as M2 by by etrans.
    split_and!; [etrans; [done|by apply meta_disk]|rewrite (ms_manifest _ _ M2); apply M1|rewrite (ms_sealed _ _ M2); apply M1|].
    intros _. rewrite (ms_active _ _ M2). split; [done|]. apply M2. by eexists.
Qed.

Lemma reset_counters_meta env s : meta_step s (reset_counters env s).
Proof. etrans; [apply (set_dirty_meta 0 0)|]. etrans; [apply (set_reserved_meta 0 0)|apply set_persisted_meta]. Qed.

Lemma OpenManifestSegments_spec env s s' ok :
  ids_match (Metadata s) -> Active (Manifest s) <> [] -> OpenManifestSegments env s = (s', ok) ->
  disk_step s s' /\ Manifest s' = Manifest s /\
  (ok = true -> ActiveSegment s' = Some (Active (Manifest s)) /\ SealedSegments s' = Sealed (Manifest s) /\
                Forall (fun i => is_Some (Metadata s' !! i)) (manifest_live (Manifest s))).
Proof.
  intros Hm Ha. unfold OpenManifestSegments. set (t := set_SealedSegments [] (set_ActiveSegment None s)).
  assert (disk_step s t) as S0 by done. change (Manifest t) with (Manifest s).
  destruct (open_sealed env (Sealed (Manifest s)) t) as [s1 ok1] eqn:E1. apply open_sealed_spec in E1 as (S1 & A1 & A2 & A3).
  assert (disk_step s s1) as S1' by by etrans.
  destruct ok1; cbn [negb]; [|by intros [= <- <-]]. destruct (A3 eq_refl) as [A4 A5]. clear A3.
  change (Manifest t) with (Manifest s) in A1. rewrite A1. rewrite bool_decide_false by done.
  destruct (open_active env (Active (Manifest s)) s1) as [s2 ok2] eqn:E2.
  apply open_active_spec in E2 as (S2 & B1 & B2 & B3); [|by apply (ds_metadata _ _ S1')].
  assert (disk_step s s2) as S2' by by etrans.
  destruct ok2; cbn [negb]; [|by intros [= <- <-]; split_and!; [|congruence|]]. destruct (B3 eq_refl) as [B4 B5].
  intros [= <- <-]. pose proof (reset_counters_meta env s2) as M.
  split_and!; [etrans; [done|by apply meta_disk]|rewrite (ms_manifest _ _ M); congruence|]. intros _. split_and!.
  - by rewrite (ms_active _ _ M).
  - by rewrite (ms_sealed _ _ M), B2, A4.
  - unfold manifest_live. constructor; [by apply M|]. apply Forall_forall. intros i Hi. rewrite elem_of_reverse in Hi. apply M, S2.
    by apply (proj1 (Forall_forall _ _) A5).
Qed.

(** ** Starting *)

(** The document of a key on disk, and the route that names it. *)

Definition stored s m k : option bytes :=
  p ← ParseDocKey k; if tomb s k then None else snd <$> first_segment (manifest_live m) k s.

Definition right_on_disk s m k : Prop := route s k = if tomb s k then None else fst <$> first_segment (manifest_live m) k s.

Definition rebuilt_on s m : Prop := forall k, is_Some (ParseDocKey k) -> ~ odd_key k -> right_on_disk s m k.

Lemma disk_system s s' k : SystemDB s' = SystemDB s -> tomb s' k = tomb s k /\ route s' k = route s k.
Proof. intros E. unfold tomb, route, IsTombstoned, GetSystemValue. by rewrite E. Qed.

Lemma disk_first ids s s' k : SegmentDBs s' = SegmentDBs s -> first_segment ids k s' = first_segment ids k s.
Proof. intros E. apply first_segment_ext. intros i _. unfold segment_get. by rewrite E. Qed.

Lemma published_good s m :
  disk_ok s m -> Manifest s = m -> ActiveSegment s = Some (Active m) -> SealedSegments s = Sealed m ->
  Forall (fun i => is_Some (Metadata s !! i)) (manifest_live m) ->
  good (PublishSnapshotLocked s) /\ live (PublishSnapshotLocked s) = manifest_live m.
Proof.
  intros D Hm Ha Hs Hl. set (t := PublishSnapshotLocked s).
  assert (live t = manifest_live m) as L by (unfold live, live_newest_first, t; simpl; by rewrite Ha, Hs).
  split; [|done]. split; rewrite ?L.
  - unfold t. simpl. by rewrite Ha.
  - rewrite <- L. by eexists _, _.
  - unfold t. simpl. by rewrite Hm.
  - apply D.
  - exists m. split_and!; [apply D|by left|apply D].
  - apply D.
  - apply D.
  - apply D.
  - done.
  - apply D.
Qed.

Lemma LoadOrCreate_present env s m : ManifestFile s = Some m -> LoadOrCreateManifest env s = (set_Manifest m s, true).
Proof. unfold LoadOrCreateManifest. by intros ->. Qed.

Record started s m s' (ok : bool) : Prop := {
  st_disk : disk_ok s' m;
  st_tombs : same_tombs (SystemDB s) (SystemDB s');
  st_dbs : SegmentDBs s' = SegmentDBs s;
  st_good : ok = true -> good s' /\ live s' = manifest_live m;
  st_routes : SystemDB s' = SystemDB s \/ (marker s <> Some (to_string (Generation m)) /\ marker s' = marker s) \/ rebuilt_on s' m;
  st_done : ok = true -> (marker s = Some (to_string (Generation m)) /\ SystemDB s' = SystemDB s) \/ rebuilt_on s' m
}.

Lemma started_step s m s' : disk_ok s m -> disk_step s s' -> started s m s' false.
Proof.
  intros D S. split; [by eapply disk_ok_step| |apply S|done| |done].
  - intros p. by rewrite (ds_system _ _ S).
  - left. apply S.
Qed.

Lemma rebuilt_disk s m : good s -> live s = manifest_live m -> rebuilt s -> rebuilt_on s m.
Proof.
  intros G L R k Hk Ho. unfold right_on_disk. specialize (R k Hk Ho). unfold routed_right, newest in R.
  by rewrite good_snapshot, L in R by done.
Qed.

Lemma only_system_good s s' : only_system s s' -> good s -> good s' /\ live s' = live s.
Proof. intros (d & o & ->) G. split; [|done]. by destruct G. Qed.

Lemma Initialize_spec env s m s' ok : disk_ok s m -> Initialize env s = (s', ok) -> started s m s' ok.
Proof.
  intros D. unfold Initialize. destruct (attempt no_effect s) as [s1 ok1] eqn:E1. apply attempt_meta in E1; [|done].
  apply meta_disk in E1 as S1. destruct ok1; cbn [negb]; [|intros [= <- <-]; by apply started_step].
  rewrite (LoadOrCreate_present env s1 m) by (rewrite (ds_file _ _ S1); apply D). cbn [negb]. set (s2 := set_Manifest m s1).
  assert (disk_step s s2) as S2 by (etrans; [exact S1|done]).
  destruct (OpenManifestSegments env s2) as [s3 ok3] eqn:E3.
  assert (Active m <> []) as Ha by (pose proof (d_parts _ _ D) as Hp; inv Hp; by destruct H2 as ([? _] & _)).
  apply OpenManifestSegments_spec in E3 as (S3 & M3 & O3); [|apply S2, D|done].
  assert (disk_step s s3) as S3' by by etrans. assert (disk_ok s3 m) as D3 by by eapply disk_ok_step.
  destruct ok3; cbn [negb]; [|intros [= <- <-]; by apply started_step]. destruct (O3 eq_refl) as (A & B & C).
  rewrite A. cbn [negb]. destruct (published_good s3 m) as [G4 L4]; [done|done|done|done|done|].
  set (s4 := PublishSnapshotLocked s3) in *. assert (disk_step s s4) as S4 by (etrans; [exact S3'|done]).
  assert (disk_ok s4 m) as D4 by by eapply disk_ok_step. assert (Manifest s4 = m) as ->  by done.
  assert (marker s4 = marker s) as Mk by (unfold marker, GetSystemValue; by rewrite (ds_system _ _ S4)). fold (marker s4). rewrite Mk.
  case_bool_decide as Hg.
  - intros [= <- <-]. destruct (started_step s m s4 D S4) as [? ? ? _ ? _]. split; [done|done|done|done|done|].
    intros _. left. split; [done|apply S4].
  - intros E5. apply RebuildDocLocationMap_spec in E5 as (O & T & R1 & R2); [|done|].
    2: { rewrite good_snapshot by done. apply (Forall_impl _ _ _ (g_live _ G4)). by intros i ([_ ?] & _). }
    destruct (only_system_good s4 s' O G4) as [G5 L5]. rewrite L4 in L5. split.
    + by apply (disk_ok_system s4 s').
    + intros p. rewrite T. by rewrite (ds_system _ _ S4).
    + destruct O as (d & o & ->). apply S4.
    + done.
    + right. destruct R1 as [R1|R1]; [left; split; [done|congruence]|right; by apply rebuilt_disk].
    + intros Hok. right. apply rebuilt_disk; auto.
Qed.

End Restart.

End SegmentsRestart.
