(* ===== verification/SegmentsProps.v ===== *)
(** * Document segments: the manager refines a map of documents

    The abstract store is a map from keys to documents, with a set of keys it is not
    sure about: those a write reported as failed may have left either way. Every
    operation of the manager, with any outcome of every write, flush and open, and
    restarts between them, behaves as the abstract store. *)

From S2P Require Import Prelude CText Wildcard Segments SegmentsInv SegmentsOps SegmentsRestart.
Import Segments SegmentsInv SegmentsOps SegmentsRestart.

Module SegmentsProps.

(** ** The abstract store *)

Record contents := mkContents { docs : bytes -> option bytes; unsure : bytes -> Prop; running : bool }.

Inductive op :=
| OpSet (key value : bytes)
| OpBatch (key_values : list (bytes * bytes))
| OpGet (key : bytes)
| OpExists (key : bytes)
| OpDelete (key : bytes)
| OpDeleteRange (start_key end_key : bytes)
| OpClear
| OpList (prefix : bytes) (offset limit : nat)
| OpCount (prefix : bytes)
| OpKeys (pattern : bytes)
| OpTotalSize (prefix : bytes)
| OpFlush (sync : bool)
| OpBarrier (sync_wal flush_memtables : bool)
| OpRestart (clean : bool).

Inductive answer := Flag (b : bool) | Count (n : Z) | Value (v : bytes) | Names (l : list bytes) | NotRunning.

Definition unchanged (x x' : contents) : Prop := (forall k, docs x' k = docs x k) /\ (forall k, unsure x' k <-> unsure x k).

(** A write that answers true is done for all its keys; one that answers false leaves each
    of them as it was or written. *)

Definition written (kvs : list (bytes * bytes)) (ok : bool) (x x' : contents) : Prop :=
  forall k, match assoc_last kvs k with
            | None => docs x' k = docs x k /\ (unsure x' k <-> unsure x k)
            | Some v => if ok then docs x' k = Some v /\ ~ unsure x' k
                        else (docs x' k = docs x k \/ docs x' k = Some v) /\ unsure x' k
            end.

(** A listing has, in order and once each, the keys with a document. *)

Definition lists (x : contents) (sel : bytes -> bool) (l : list bytes) : Prop :=
  StronglySorted str_lt l /\ forall k, ~ unsure x k -> k ∈ l <-> sel k = true /\ is_Some (docs x k).

Definition page (offset limit : nat) (l : list bytes) : list bytes :=
  if (0 <? limit)%nat then take limit (drop offset l) else drop offset l.

Definition in_span (start_key end_key k : bytes) : bool := starts_with start_key k && str_ltb k end_key.

Definition total_bytes (d : bytes -> option bytes) (l : list bytes) : Z :=
  foldl (fun t k => u64 (t + size (default [] (d k)))) 0 l.

Definition running_step (o : op) (a : answer) (x x' : contents) : Prop :=
  match o with
  | OpSet k v => exists ok, a = Flag ok /\ written [(k, v)] ok x x'
  | OpBatch kvs => exists ok, a = Count (if (ok : bool) then size kvs else 0) /\ written kvs ok x x'
  | OpGet k => a = Value (default [] (docs x k)) /\ unchanged x x'
  | OpExists k => a = Flag (negb (bool_decide (default [] (docs x k) = []))) /\ unchanged x x'
  | OpDelete k =>
      (forall k', k' <> k -> docs x' k' = docs x k' /\ (unsure x' k' <-> unsure x k')) /\
      (a = Count 1 /\ docs x' k = None /\ ~ unsure x' k \/
       a = Count 0 /\ (docs x' k = docs x k \/ docs x' k = None) /\ (unsure x' k <-> unsure x k))
  | OpDeleteRange b e =>
      (forall k, unsure x' k <-> unsure x k) /\
      (forall k, docs x' k = docs x k \/ in_span b e k = true /\ docs x' k = None) /\
      (a = Count 1 /\ (forall k, ~ unsure x k -> in_span b e k = true -> docs x' k = None) \/ a = Count 0)
  | OpClear =>
      exists ok, a = Flag ok /\ (ok = true -> forall k, docs x' k = None /\ (unsure x' k -> odd_key k))
  | OpList p offset limit =>
      unchanged x x' /\ exists l, a = Names (page offset limit l) /\
      if starts_with doc_prefix p then lists x (starts_with p) l else l = []
  | OpCount p =>
      unchanged x x' /\ exists l, a = Count (size l) /\ if starts_with doc_prefix p then lists x (starts_with p) l else l = []
  | OpKeys pattern => unchanged x x' /\ exists l, a = Names l /\ lists x (fun k => Wildcard.Match k pattern) l
  | OpTotalSize p =>
      unchanged x x' /\ exists l, a = Count (total_bytes (docs x) l) /\
      if starts_with doc_prefix p then lists x (starts_with p) l else l = []
  | OpFlush _ | OpBarrier _ _ => unchanged x x' /\ exists ok, a = Flag ok
  | OpRestart _ => False
  end.

(** A restart, clean or not, keeps every document that the store is sure about, also when
    several attempts to start have failed before. *)

Definition spec_step (o : op) (a : answer) (x x' : contents) : Prop :=
  match o with
  | OpRestart _ =>
      a = Flag (running x') /\ (forall k, unsure x' k <-> unsure x k \/ odd_key k) /\
      (forall k, ~ unsure x' k -> docs x' k = docs x k)
  | _ => if running x then running x' = true /\ running_step o a x x' else a = NotRunning /\ x' = x
  end.

Fixpoint spec_run (l : list op) (answers : list answer) (x : contents) : Prop :=
  match l, answers with
  | [], [] => True
  | o :: l', a :: answers' => exists x', spec_step o a x x' /\ spec_run l' answers' x'
  | _, _ => False
  end.

Definition no_documents : contents := mkContents (fun _ => None) odd_key true.

(** ** Running the manager *)

Section Run.
Context {DB : Type} `{Store DB, !StoreLaws DB} (opts : RocksDBOptions).
Implicit Types (s : SegmentManager DB) (k : bytes).

Definition running_exec (env : Env) (o : op) s : option (SegmentManager DB * answer) :=
  match o with
  | OpSet k v => (fun r => (r.1, Flag r.2)) <$> SetDocument opts env k v s
  | OpBatch kvs => (fun r => (r.1, Count r.2)) <$> BatchSetDocuments opts env kvs s
  | OpGet k => let r := GetDocument env k s in Some (r.1, Value r.2)
  | OpExists k => let r := ExistsDocument env k s in Some (r.1, Flag r.2)
  | OpDelete k => let r := DeleteDocument env k s in Some (r.1, Count r.2)
  | OpDeleteRange b e => let r := DeleteDocumentRange env b e s in Some (r.1, Count r.2)
  | OpClear => let r := ClearAllDocuments env s in Some (r.1, Flag r.2)
  | OpList p offset limit => Some (s, Names (PrefixKeys p offset limit s))
  | OpCount p => Some (s, Count (Z.of_nat (CountKeys p s)))
  | OpKeys pattern => Some (s, Names (Keys pattern s))
  | OpTotalSize p => let r := GetPrefixTotalSize env p s in Some (r.1, Count r.2)
  | OpFlush sync => let r := if sync then FlushAndSync env s else Flush env s in Some (r.1, Flag r.2)
  | OpBarrier sync flush =>
      let r := if negb flush && sync then SyncWAL env s
               else let r := ExecuteDurabilityBarrier env sync flush s in (r.1, forallb Success r.2) in
      Some (r.1, Flag r.2)
  | OpRestart _ => None
  end.

(** After a start that failed the manager is not used. A restart that is not clean is a
    crash: the memory is lost and the disk is as it was. *)

Definition exec (env : Env) (o : op) (y : SegmentManager DB * bool) : option (SegmentManager DB * bool * answer) :=
  match o with
  | OpRestart clean =>
      let s := if y.2 && clean then Shutdown env y.1 else y.1 in
      let r := Initialize env s in Some (r, Flag r.2)
  | _ => if y.2 then (fun r => (r.1, true, r.2)) <$> running_exec env o y.1 else Some (y, NotRunning)
  end.

Fixpoint steps (l : list (Env * op)) (y : SegmentManager DB * bool) : option (SegmentManager DB * bool * list answer) :=
  match l with
  | [] => Some (y, [])
  | (env, o) :: l' => r ← exec env o y; z ← steps l' r.1; Some (z.1, r.2 :: z.2)
  end.

Definition run (l : list (Env * op)) (y : SegmentManager DB * bool) : option (list answer) := snd <$> steps l y.

Definition fresh (o : list Outcome) : SegmentManager DB :=
  mkManager db_empty None ∅ ∅ (mkManifest 1 0 [] [] [] 0) None [] ∅ None 0 0 0 0 0 o.

(** ** The relation *)

Definition up s (x : contents) : Prop :=
  good s /\ forall k, view s k = docs x k /\ (is_Some (ParseDocKey k) -> ~ unsure x k -> routed_right s k).

Definition down s (x : contents) : Prop :=
  exists m, disk_ok s m /\ forall k, ~ unsure x k ->
    docs x k = stored s m k /\
    (is_Some (ParseDocKey k) -> marker s = Some (to_string (Generation m)) -> right_on_disk s m k).

Definition related (y : SegmentManager DB * bool) (x : contents) : Prop :=
  y.2 = running x /\ if y.2 then up y.1 x else down y.1 x.

Lemma up_down s x : up s x -> down s x.
Proof.
  intros [G U]. destruct (good_disk s G) as (m & D & E). exists m. split; [done|]. intros k Hu. destruct (U k) as [U1 U2].
  assert (first_segment (manifest_live m) k s = newest s k) as N.
  { unfold newest. rewrite good_snapshot by done. apply newest_extends; [done|]. intros j. apply G. }
  unfold stored, right_on_disk. rewrite N, <- U1. split; [|intros Hk _; by apply U2].
  destruct (ParseDocKey k) as [p|] eqn:Hp; [|unfold view; by rewrite Hp].
  rewrite view_routed; [done|by eexists|]. apply U2; [by eexists|done].
Qed.

Lemma restart_sim env s x s' ok :
  down s x -> Initialize env s = (s', ok) ->
  exists x', related (s', ok) x' /\ running x' = ok /\ (forall k, unsure x' k <-> unsure x k \/ odd_key k) /\
             (forall k, ~ unsure x' k -> docs x' k = docs x k).
Proof.
  intros (m & D & U) E. apply (Initialize_spec env s m) in E as [S1 S2 S3 S4 S5 S6]; [|done].
  assert (forall k, stored s' m k = stored s m k) as Hst.
  { intros k. unfold stored. rewrite (tombs_tomb s s' k S2), (disk_first _ s s' k S3). done. }
  exists (mkContents (if ok then view s' else docs x) (fun k => unsure x k \/ odd_key k) ok). simpl. destruct ok.
  - destruct (S4 eq_refl) as [G L]. assert (forall k, is_Some (ParseDocKey k) -> ~ (unsure x k \/ odd_key k) -> routed_right s' k) as R.
    { intros k Hk Hu. unfold routed_right, newest. rewrite good_snapshot, L by done.
      destruct (S6 eq_refl) as [[Hg Es]|R]; [|by apply R; auto]. destruct (disk_system s s' k Es) as [-> ->].
      rewrite (disk_first _ s s' k S3). apply (U k); auto. }
    split; [split; [done|split; [done|]; auto]|]. split_and!; [done|done|]. intros k Hu. destruct (U k) as [-> _]; [auto|]. rewrite <- Hst. unfold stored.
    destruct (ParseDocKey k) as [p|] eqn:Hp; [simpl|unfold view; by rewrite Hp].
    rewrite view_routed; [|by eexists|apply R; [by eexists|done]]. unfold newest. by rewrite good_snapshot, L.
  - split; [split; [done|]|done]. exists m. split; [done|]. intros k Hu. simpl in *. destruct (U k) as [U1 U2]; [auto|].
    split; [by rewrite Hst|]. intros Hk Hg. destruct S5 as [Es|[[Hn Em]|R]]; [|congruence|by apply R; auto].
    unfold right_on_disk. destruct (disk_system s s' k Es) as [-> ->]. rewrite (disk_first _ s s' k S3). apply U2; [done|].
    rewrite <- Hg. unfold marker, GetSystemValue. by rewrite Es.
Qed.

Lemma Shutdown_disk env s : disk_step s (Shutdown env s).
Proof.
  unfold Shutdown. destruct (PersistActiveMetadataIfNeededLocked env true s) as [t ok] eqn:E. apply PersistActive_meta in E.
  apply meta_disk in E. simpl. by destruct E.
Qed.

Lemma down_step s s' x : disk_step s s' -> down s x -> down s' x.
Proof.
  intros S (m & D & U). exists m. split; [by eapply disk_ok_step|]. intros k Hu. destruct (U k Hu) as [U1 U2].
  destruct (disk_system s s' k (ds_system _ _ S)) as [T R]. unfold stored, right_on_disk, marker, GetSystemValue.
  rewrite T, R, (disk_first _ s s' k (ds_dbs _ _ S)), (ds_system _ _ S). done.
Qed.

(** ** One step *)

Lemma write_sim s s' x kvs n ok :
  up s x -> write_result n s s' kvs ok -> exists x', up s' x' /\ running x' = true /\ written kvs ok x x'.
Proof.
  intros [G U] [W1 W2 W3 W4].
  exists (mkContents (view s') (fun k => match assoc_last kvs k with None => unsure x k | Some _ => ok = false end) true).
  simpl. split; [|split; [done|]].
  - split; [done|]. intros k. split; [done|]. simpl. intros Hk Hu. destruct (assoc_last kvs k) as [v|] eqn:A.
    + specialize (W4 k v A). destruct ok; [apply W4|by destruct Hu].
    + eapply same_at_routed; [apply W3; by apply assoc_last_None|]. by apply U.
  - intros k. simpl. destruct (assoc_last kvs k) as [v|] eqn:A.
    + specialize (W4 k v A). destruct ok; [split; [apply W4|done]|]. split; [|done]. by rewrite <- (proj1 (U k)).
    + split; [|done]. apply assoc_last_None in A. rewrite (sa_view _ _ _ (W3 k A)). apply U.
Qed.

Lemma keeps_sim s s' x : up s x -> keeps s s' -> exists x', up s' x' /\ running x' = true /\ unchanged x x'.
Proof.
  intros [G U] [K1 K2 K3 K4]. exists (mkContents (view s') (unsure x) true). split; [|split; [done|split; [|done]]].
  - split; [done|]. intros k. split; [done|]. intros Hk Hu. by apply K4, U.
  - intros k. simpl. rewrite K3. apply U.
Qed.

Lemma same_at_sure s s' x k :
  up s x -> same_at k s s' -> view s' k = docs x k /\ (is_Some (ParseDocKey k) -> ~ unsure x k -> routed_right s' k).
Proof.
  intros [G U] A. rewrite (sa_view _ _ _ A). split; [apply U|]. intros Hk Hu. eapply same_at_routed; [done|]. by apply U.
Qed.

Lemma unchanged_refl x : unchanged x x.
Proof. by split. Qed.

Lemma delete_sim s s' x k n :
  up s x -> (n = 1 /\ is_Some (ParseDocKey k) /\ entombs (fun y => y = k) s s') \/ (n = 0 /\ (keeps s s' \/ entombs (fun y => y = k) s s')) ->
  exists x', up s' x' /\ running x' = true /\ running_step (OpDelete k) (Count n) x x'.
Proof.
  intros Ux [(-> & Hk & E)|(-> & [K|E])].
  - destruct E as [E1 E2 E3 E4]. exists (mkContents (view s') (fun y => y <> k /\ unsure x y) true). split; [|split; [done|split]].
    + split; [done|]. intros y. split; [done|]. simpl. intros Hy Hu. destruct (decide (y = k)) as [->|Hne]; [by apply E3|].
      apply (same_at_sure s s' x y Ux (E4 y Hne)); auto.
    + intros y Hne. simpl. split; [by apply (same_at_sure s s' x y Ux (E4 y Hne))|]. tauto.
    + left. simpl. split_and!; [done|by apply E3|]. by intros [].
  - destruct (keeps_sim s s' x Ux K) as (x' & H1 & H2 & H3 & H4). exists x'. split; [done|split; [done|split]]; [|right]; auto.
  - destruct E as [E1 E2 E3 E4]. exists (mkContents (view s') (unsure x) true). split; [|split; [done|split]].
    + split; [done|]. intros y. split; [done|]. simpl. intros Hy Hu. destruct (decide (y = k)) as [->|Hne]; [by apply E3|].
      by apply (same_at_sure s s' x y Ux (E4 y Hne)).
    + intros y Hne. simpl. split; [by apply (same_at_sure s s' x y Ux (E4 y Hne))|done].
    + right. simpl. split_and!; [done| |done]. right. by apply E3.
Qed.

Lemma view_route s k : is_Some (ParseDocKey k) -> routed_right s k -> is_Some (view s k) <-> is_Some (route s k) /\ tomb s k = false.
Proof.
  intros Hk R. rewrite view_routed by done. unfold routed_right in R. rewrite R. destruct (tomb s k).
  - split; [by intros []|by intros [[]]].
  - destruct (newest s k); simpl; split; try by intros []; eauto.
Qed.

Lemma in_range_of_dec b e s k : {in_range_of b e s k} + {~ in_range_of b e s k}.
Proof. unfold in_range_of. apply (decide _). Qed.

Lemma range_sim s s' x b e n :
  up s x -> (n = 1 /\ entombs (in_range_of b e s) s s') \/ (n = 0 /\ (keeps s s' \/ entombs (in_range_of b e s) s s')) ->
  exists x', up s' x' /\ running x' = true /\ running_step (OpDeleteRange b e) (Count n) x x'.
Proof.
  intros Ux Hn. assert (entombs (in_range_of b e s) s s' -> exists x', up s' x' /\ running x' = true /\
    (forall k, unsure x' k <-> unsure x k) /\ (forall k, docs x' k = docs x k \/ in_span b e k = true /\ docs x' k = None) /\
    (forall k, ~ unsure x k -> in_span b e k = true -> docs x' k = None)) as Gone.
  { intros [E1 E2 E3 E4]. exists (mkContents (view s') (unsure x) true). split; [|split; [done|split; [done|split]]].
    - split; [done|]. intros k. split; [done|]. simpl. intros Hk Hu. destruct (in_range_of_dec b e s k) as [Hr|Hr]; [by apply E3|].
      by apply (same_at_sure s s' x k Ux (E4 k Hr)).
    - intros k. simpl. destruct (in_range_of_dec b e s k) as [Hr|Hr]; [right|left; by apply (same_at_sure s s' x k Ux (E4 k Hr))].
      split; [|by apply E3]. destruct Hr as (_ & H1 & H2 & _). unfold in_span. by rewrite H1, H2.
    - intros k Hu Hin. simpl. destruct (in_range_of_dec b e s k) as [Hr|Hr]; [by apply E3|]. rewrite (sa_view _ _ _ (E4 k Hr)).
      apply eq_None_not_Some. intros Hv. apply Hr. assert (is_Some (ParseDocKey k)) as Hk.
      { unfold view in Hv. destruct (ParseDocKey k); [by eexists|by destruct Hv]. }
      apply view_route in Hv as [Hv _]; [|done|by apply Ux]. unfold in_span in Hin. apply andb_true_iff in Hin as [? ?]. by split_and!. }
  destruct Hn as [(-> & E)|(-> & [K|E])].
  - destruct (Gone E) as (x' & H1 & H2 & H3 & H4 & H5). exists x'. split; [done|split; [done|]]. split; [done|split; [done|left]]. auto.
  - destruct (keeps_sim s s' x Ux K) as (x' & H1 & H2 & H3 & H4). exists x'. split; [done|split; [done|]]. split; [done|split; [|by right]]. auto.
  - destruct (Gone E) as (x' & H1 & H2 & H3 & H4 & H5). exists x'. split; [done|split; [done|]]. split; [done|split; [done|by right]].
Qed.

(** Listings. *)

Lemma listing_sim s x q :
  up s x -> starts_with doc_prefix q = true ->
  lists x (starts_with q) (omap (live_doc_key s) (prefixed_keys (LocationPrefixFromDocPrefix q) s)).
Proof.
  intros [G U] Hq. split; [by apply listed_sorted|]. intros k Hu. rewrite (listed_keys q k s Hq). destruct (U k) as [<- U2].
  destruct (ParseDocKey k) as [p|] eqn:Hp.
  - rewrite (view_route s k); [|by eexists|apply U2; [by eexists|done]]. split; [naive_solver|]. intros (? & ? & ?). split_and!; [by eexists|done|done|done].
  - split; [by intros ([] & _)|]. unfold view. rewrite Hp. by intros [_ []].
Qed.

Lemma PrefixKeys_page q offset limit s :
  PrefixKeys q offset limit s =
  if starts_with doc_prefix q then page offset limit (omap (live_doc_key s) (prefixed_keys (LocationPrefixFromDocPrefix q) s)) else [].
Proof.
  unfold PrefixKeys. destruct (starts_with doc_prefix q) eqn:Hq.
  - rewrite bool_decide_false; [done|]. destruct (loc_prefix q Hq) as [_ ->]. done.
  - rewrite bool_decide_true; [done|]. unfold LocationPrefixFromDocPrefix. by rewrite Hq.
Qed.

Lemma page_nil offset limit : page offset limit [] = [].
Proof. unfold page. rewrite drop_nil. by destruct (0 <? limit)%nat; [rewrite take_nil|]. Qed.

Lemma Keys_lists s x pattern : up s x -> lists x (fun k => Wildcard.Match k pattern) (Keys pattern s).
Proof.
  intros Ux. unfold Keys. change DocLocationPrefix with (LocationPrefixFromDocPrefix doc_prefix).
  destruct (listing_sim s x doc_prefix Ux eq_refl) as [L1 L2]. split; [by apply sorted_filter|].
  intros k Hu. rewrite list_elem_of_In, filter_In, <- list_elem_of_In, (L2 k Hu). split; [naive_solver|]. intros [H1 H2]. split_and!; try done.
  destruct Ux as [_ U]. rewrite <- (proj1 (U k)) in H2. destruct (ParseDocKey k) as [p|] eqn:Hp.
  - rewrite (ParseDocKey_drop k p Hp). apply starts_with_spec. eauto.
  - unfold view in H2. rewrite Hp in H2. by destruct H2.
Qed.

Definition segments_le (n : nat) (y : SegmentManager DB * bool) : Prop :=
  if y.2 then (length (live y.1) <= n)%nat else (length (from_option manifest_live [] (ManifestFile y.1)) <= n)%nat.

Lemma running_sim env o s x :
  up s x -> Z.of_nat (length (live s)) < 2 ^ 64 - 2 -> (forall c, o <> OpRestart c) ->
  exists s' a x', running_exec env o s = Some (s', a) /\ up s' x' /\ running x' = true /\ running_step o a x x' /\
                  (length (live s') <= S (S (length (live s))))%nat.
Proof.
  intros Ux Hl Ho. pose proof (proj1 Ux) as G. assert (keeps s s) as K by by split.
  destruct (keeps_sim s s x Ux K) as (x0 & X1 & X2 & X3). destruct o as [k v|kvs|k|k|k|b e| |q offset limit|q|pattern|q|sync|sync flush|c]; simpl.
  - destruct (SetDocument_spec opts env k v s G Hl) as (s' & ok & -> & W). destruct (write_sim _ _ _ _ _ _ Ux W) as (x' & ? & ? & ?).
    exists s', (Flag ok), x'. pose proof (wr_length _ _ _ _ _ W). split_and!; eauto with lia.
  - destruct (BatchSetDocuments_spec opts env kvs s G Hl) as (s' & n & -> & Hn & W). destruct (write_sim _ _ _ _ _ _ Ux W) as (x' & ? & ? & ?).
    exists s', (Count n), x'. pose proof (wr_length _ _ _ _ _ W). split; [done|]. split; [done|]. split; [done|]. split; [|lia].
    exists (0 <? n). split; [|done]. destruct (0 <? n) eqn:Hp; f_equal; unfold size in *; lia.
  - destruct (GetDocument env k s) as [s' v] eqn:E. apply GetDocument_spec in E as [-> Kg]; [|done].
    destruct (keeps_sim s s' x Ux Kg) as (x' & ? & ? & ?). exists s', (Value (default [] (view s k))), x'. split; [done|].
    rewrite (k_live _ _ Kg). split_and!; [done|done|by rewrite (proj1 (proj2 Ux k))|done|lia].
  - unfold ExistsDocument. destruct (GetDocument env k s) as [s' v] eqn:E. apply GetDocument_spec in E as [-> Kg]; [|done].
    destruct (keeps_sim s s' x Ux Kg) as (x' & ? & ? & ?). exists s', (Flag (negb (bool_decide (default [] (view s k) = [])))), x'. split; [done|].
    rewrite (k_live _ _ Kg). split_and!; [done|done|by rewrite (proj1 (proj2 Ux k))|done|lia].
  - destruct (DeleteDocument env k s) as [s' n] eqn:E. apply DeleteDocument_spec in E; [|done].
    destruct (delete_sim s s' x k n Ux E) as (x' & ? & ? & ?). exists s', (Count n), x'.
    split; [done|split; [done|split; [done|split; [done|]]]].
    assert (live s' = live s) as ->; [|lia]. destruct E as [(_ & _ & [])|(_ & [[]|[]])]; done.
  - destruct (DeleteDocumentRange env b e s) as [s' n] eqn:E. apply DeleteDocumentRange_spec in E; [|done].
    destruct (range_sim s s' x b e n Ux E) as (x' & ? & ? & ?). exists s', (Count n), x'.
    split; [done|split; [done|split; [done|split; [done|]]]].
    assert (live s' = live s) as ->; [|lia]. destruct E as [(_ & [])|(_ & [[]|[]])]; done.
  - destruct (ClearAllDocuments env s) as [s' ok] eqn:E. apply ClearAllDocuments_spec in E as (G' & L & C); [|done].
    exists s', (Flag ok), (mkContents (view s') (fun k => ok = false \/ odd_key k) true). split; [done|]. rewrite L. split; [|split; [done|split; [|lia]]].
    + split; [done|]. intros k. split; [done|]. simpl. intros Hk Hu. destruct ok; [|by destruct Hu; left].
      destruct (C eq_refl k) as [_ [Hodd|]]; [done|by destruct Hu; right|done].
    + exists ok. split; [done|]. intros ->. intros k. simpl. split; [by apply C|]. by intros [].
  - exists s, (Names (PrefixKeys q offset limit s)), x0. split; [done|split; [done|split; [done|split; [|lia]]]]. split; [done|].
    rewrite PrefixKeys_page. destruct (starts_with doc_prefix q) eqn:Hq; [|exists []; by rewrite page_nil].
    eexists. split; [done|]. by apply listing_sim.
  - exists s, (Count (Z.of_nat (CountKeys q s))), x0. split; [done|split; [done|split; [done|split; [|lia]]]]. split; [done|].
    unfold CountKeys. rewrite PrefixKeys_page. destruct (starts_with doc_prefix q) eqn:Hq; [|by exists []].
    eexists. split; [done|]. by apply listing_sim.
  - exists s, (Names (Keys pattern s)), x0. split; [done|split; [done|split; [done|split; [|lia]]]]. split; [done|].
    eexists. split; [done|]. by apply Keys_lists.
  - unfold GetPrefixTotalSize. destruct (total_size env _ 0 s) as [s' n] eqn:E. apply total_size_spec in E as [-> Kt]; [|done].
    destruct (keeps_sim s s' x Ux Kt) as (x' & ? & ? & ?). eexists s', _, x'. split; [done|]. rewrite (k_live _ _ Kt).
    split; [done|split; [done|split; [|lia]]]. split; [done|]. rewrite PrefixKeys_page.
    exists (if starts_with doc_prefix q then page 0 0 (omap (live_doc_key s) (prefixed_keys (LocationPrefixFromDocPrefix q) s)) else []).
    split; [|destruct (starts_with doc_prefix q) eqn:Hq; [by apply listing_sim|done]].
    f_equal. unfold total_bytes. generalize 0. induction (if starts_with doc_prefix q then _ else _) as [|k l IH]; intros t; [done|].
    cbn [foldl]. rewrite IH. by rewrite (proj1 (proj2 Ux k)).
  - destruct (if sync then FlushAndSync env s else Flush env s) as [s' ok] eqn:E.
    assert (meta_step s s') as M by (destruct sync; apply (Flush_meta env s s' ok); auto).
    destruct (keeps_sim s s' x Ux (meta_keeps s s' G M)) as (x' & ? & ? & ?). exists s', (Flag ok), x'. rewrite (meta_live _ _ M).
    split; [done|split; [done|split; [done|split; [|lia]]]]. split; [done|]. by eexists.
  - destruct (if negb flush && sync then SyncWAL env s else _) as [s' ok] eqn:E.
    assert (meta_step s s') as M.
    { unfold SyncWAL in E. destruct (negb flush && sync).
      - destruct (ExecuteDurabilityBarrier env true false s) as [t r] eqn:E2. injection E as <- <-. by eapply barrier_meta.
      - destruct (ExecuteDurabilityBarrier env sync flush s) as [t r] eqn:E2. injection E as <- <-. by eapply barrier_meta. }
    destruct (keeps_sim s s' x Ux (meta_keeps s s' G M)) as (x' & ? & ? & ?). exists s', (Flag ok), x'. rewrite (meta_live _ _ M).
    split; [done|split; [done|split; [done|split; [|lia]]]]. split; [done|]. by eexists.
  - by destruct (Ho c).
Qed.

Lemma restart_exec env clean y x n :
  related y x -> segments_le n y ->
  exists y' a x', exec env (OpRestart clean) y = Some (y', a) /\ spec_step (OpRestart clean) a x x' /\ related y' x' /\ segments_le (S n) y'.
Proof.
  intros [Hy R] Hn. destruct y as [s b]. simpl in *. set (t := if b && clean then Shutdown env s else s).
  assert (disk_step s t) as St by (unfold t; destruct (b && clean); [apply Shutdown_disk|done]).
  assert (down s x) as Ds by (destruct b; [by apply up_down|done]). assert (down t x) as Dt by by eapply down_step.
  destruct (Initialize env t) as [s' ok] eqn:E. pose proof Dt as (m & D & _). pose proof (Initialize_spec env t m s' ok D E) as [I1 _ _ I4 _ _].
  destruct (restart_sim env t x s' ok Dt E) as (x' & R' & H1 & H2 & H3). exists (s', ok), (Flag ok), x'. split; [done|].
  split; [split_and!; [by rewrite H1|done|done]|]. split; [done|].
  assert (length (manifest_live m) <= n + 1)%nat as Hm.
  { pose proof (d_file _ _ D) as Hf. rewrite (ds_file _ _ St) in Hf. unfold segments_le in Hn. simpl in Hn. destruct b.
    - destruct (good_disk s (proj1 R)) as (m' & D' & He). pose proof (d_file _ _ D') as Hf'. rewrite Hf in Hf'. injection Hf' as <-.
      destruct He as [->|(e & _ & ->)]; simpl; lia.
    - rewrite Hf in Hn. change (length (manifest_live m) <= n)%nat in Hn. lia. }
  unfold segments_le. cbn [fst snd]. destruct ok; [destruct (I4 eq_refl) as [_ ->]; lia|]. rewrite (d_file _ _ I1).
  change (length (manifest_live m) <= S n)%nat. lia.
Qed.

Lemma exec_sim env o y x n :
  related y x -> segments_le n y -> Z.of_nat n < 2 ^ 64 - 2 ->
  exists y' a x', exec env o y = Some (y', a) /\ spec_step o a x x' /\ related y' x' /\ segments_le (S (S n)) y'.
Proof.
  intros R Hn Hl. assert ((forall c, o <> OpRestart c) \/ exists c, o = OpRestart c) as [Ho|[c ->]] by (destruct o; eauto).
  2: { destruct (restart_exec env c y x n R Hn) as (y' & a & x' & E & S1 & R1 & L). exists y', a, x'.
       split; [done|split; [done|split; [done|]]]. unfold segments_le in *. destruct y' as [s' [|]]; simpl in *; lia. }
  destruct y as [s b]. destruct R as [Hy U]. simpl in Hy, U. unfold segments_le in Hn. simpl in Hn. destruct b.
  - destruct (running_sim env o s x U) as (s' & a & x' & E & U' & H1 & H2 & L); [lia|done|]. exists (s', true), a, x'.
    split; [|split; [|split]].
    + destruct o; try (unfold exec; cbn [fst snd]; by rewrite E). by destruct (Ho clean).
    + destruct o; try (unfold spec_step; by rewrite <- Hy). by destruct (Ho clean).
    + by split.
    + unfold segments_le. simpl. lia.
  - exists (s, false), NotRunning, x. split; [|split; [|split]].
    + destruct o; try done. by destruct (Ho clean).
    + destruct o; try (unfold spec_step; by rewrite <- Hy). by destruct (Ho clean).
    + by split.
    + unfold segments_le. simpl. lia.
Qed.

Lemma steps_sim l y x n :
  related y x -> segments_le n y -> Z.of_nat (n + 2 * length l) < 2 ^ 64 - 2 ->
  exists y' answers x', steps l y = Some (y', answers) /\ spec_run (snd <$> l) answers x /\
                        related y' x' /\ segments_le (n + 2 * length l) y'.
Proof.
  revert y x n. induction l as [|[env o] l IH]; intros y x n R Hn Hl.
  - exists y, [], x. split; [done|split; [done|split; [done|]]]. simpl. by rewrite Nat.add_0_r.
  - simpl length in Hl. destruct (exec_sim env o y x n R Hn) as (y' & a & x' & E & S1 & R' & Hn'); [lia|].
    destruct (IH y' x' _ R' Hn') as (y2 & answers & x2 & E2 & S2 & R2 & Hn2); [lia|]. exists y2, (a :: answers), x2.
    simpl. rewrite E. simpl. rewrite E2. simpl. split; [done|split; [by exists x'|split; [done|]]].
    by replace (n + S (length l + S (length l + 0)))%nat with (S (S n) + (length l + (length l + 0)))%nat by lia.
Qed.

(** ** The first start *)

(** No segment and no entry for a document. *)

Definition blank s : Prop :=
  SegmentDBs s = ∅ /\ SegmentFiles s = ∅ /\ Metadata s = ∅ /\ SealedSegments s = [] /\ ActiveSegment s = None /\
  Sealed (Manifest s) = [] /\ Active (Manifest s) = [] /\
  forall p, GetSystemValue (DocLocationKey p.1 p.2) s = None /\ GetSystemValue (TombstoneKey p.1 p.2) s = None.

Lemma load_blank env o s : LoadOrCreateManifest env (fresh o) = (s, true) -> blank s.
Proof.
  unfold LoadOrCreateManifest. cbn [ManifestFile fresh SegmentFiles]. rewrite map_to_list_empty.
  set (m := promote _). assert (Sealed m = [] /\ Active m = []) as [M1 M2] by done. clearbody m. unfold PersistManifestLocked.
  destruct (system_write _ _) as [s1 ok1] eqn:E1. apply attempt_spec in E1 as (o1 & E1).
  destruct ok1; cbn [negb]; [|done]. destruct E1 as [->|[? _]]; [|done].
  intros (o2 & [->|[? _]])%attempt_spec; [|done]. unfold blank. simpl. split_and!; try done. intros p.
  unfold GetSystemValue. simpl. unfold write_batch. cbn [foldl]. rewrite !get_put, !get_empty.
  by rewrite !bool_decide_false by (apply location_not_generation || apply tombstone_not_generation).
Qed.

Lemma open_blank env s : blank s -> exists t, OpenManifestSegments env s = (t, true) /\ blank t.
Proof.
  intros (B1 & B2 & B3 & B4 & B5 & B6 & B7 & B8). unfold OpenManifestSegments. cbn [Manifest set_SealedSegments set_ActiveSegment].
  rewrite B6. cbn [open_sealed negb Manifest set_SealedSegments set_ActiveSegment]. rewrite bool_decide_true by done. cbn [negb].
  eexists. split; [done|]. by split_and!.
Qed.

Lemma created_good env s s' :
  blank s -> create_frame s s' -> created env s s' ->
  good (PublishSnapshotLocked s') /\ live (PublishSnapshotLocked s') = [new_id s] /\
  (forall j k, segment_get j k s' = None) /\ sys_docs s s'.
Proof.
  intros (B1 & B2 & B3 & B4 & B5 & B6 & B7 & B8) F (C1 & C2 & C3 & C4 & C5 & C6 & _).
  assert (forall j k, segment_get j k s' = None) as Z.
  { intros j k. rewrite (create_get s s' j k F). unfold segment_get. by rewrite B1, lookup_empty. }
  set (t := PublishSnapshotLocked s').
  assert (live t = [new_id s]) as L by (unfold live, live_newest_first, t; simpl; by rewrite C1, (cf_sealed _ _ F), B4).
  assert (manifest_live (with_new s) = [new_id s]) as Lm by (unfold manifest_live; simpl; by rewrite B6).
  assert (has_parts t (new_id s)) as P by by apply (new_parts s s').
  split_and!; [|done|done|apply F]. split; rewrite ?L.
  - unfold t. simpl. by rewrite C1.
  - rewrite <- L. by eexists _, _.
  - unfold t. simpl. by rewrite C2.
  - apply NoDup_singleton.
  - exists (with_new s). rewrite Lm. split_and!; [done|by left|by constructor].
  - by constructor.
  - apply F. rewrite B2. apply map_Forall_empty.
  - apply F. rewrite B3. apply map_Forall_empty.
  - constructor; [|done]. unfold t. simpl. by rewrite C6.
  - intros i k _. apply Z.
Qed.

Lemma empty_up s :
  good s -> (forall j k, segment_get j k s = None) -> (forall k, is_Some (ParseDocKey k) -> ~ odd_key k -> routed_right s k) -> up s no_documents.
Proof.
  intros G Z R. split; [done|]. intros k. split; [|apply R]. simpl. unfold view. destruct (ParseDocKey k) as [p|]; [simpl|done].
  assert (newest s k = None) as -> by (apply first_segment_None, Forall_forall; intros; apply Z).
  destruct (IsTombstoned p s); [done|]. unfold routed_get. destruct (GetSystemValue _ s); [simpl|done].
  unfold FindSegment. case_bool_decide; [simpl|done]. by rewrite Z.
Qed.

Lemma first_start env o s : Initialize env (fresh o) = (s, true) -> up s no_documents /\ length (live s) = 1%nat.
Proof.
  unfold Initialize. destruct (attempt no_effect (fresh o)) as [s1 ok1] eqn:E1. apply attempt_spec in E1 as (o1 & E1).
  destruct ok1; cbn [negb]; [|done]. destruct E1 as [->|[? _]]; [|done]. change (no_effect (set_Outcomes o1 (fresh o))) with (fresh o1).
  destruct (LoadOrCreateManifest env (fresh o1)) as [s2 ok2] eqn:E2. destruct ok2; cbn [negb]; [|done]. apply load_blank in E2 as B2.
  destruct (open_blank env s2 B2) as (s3 & -> & B3). cbn [negb]. pose proof B3 as (_ & _ & _ & _ & -> & _ & _ & B).
  destruct (CreateActiveSegmentLocked env s3) as [s4 ok4] eqn:E4. apply create_spec in E4 as [F C]. destruct ok4; cbn [negb]; [|done].
  destruct (created_good env s3 s4 B3 F C) as (G & L & Z & Sy). set (t := PublishSnapshotLocked s4) in *.
  case_bool_decide.
  - intros [= <-]. split; [|by rewrite L]. apply empty_up; [done|done|]. intros k [p Hp] _. unfold routed_right, route, tomb, IsTombstoned. rewrite Hp.
    cbn [mbind option_bind]. change (GetSystemValue ?x t) with (GetSystemValue x s4). destruct (Sy p) as [-> ->], (B p) as [-> ->].
    assert (newest t k = None) as -> by (apply first_segment_None, Forall_forall; intros; apply Z). by rewrite bool_decide_false by by intros [].
  - intros E5. apply RebuildDocLocationMap_spec in E5 as (O & _ & _ & R); [|done|].
    2: { rewrite good_snapshot by done. apply (Forall_impl _ _ _ (g_live _ G)). by intros i ([_ ?] & _). }
    destruct (only_system_good t s O G) as [G' L']. split; [|by rewrite L', L]. apply empty_up; [done| |by apply R].
    intros j k. destruct O as (d & o2 & ->). apply Z.
Qed.



Lemma started_steps env o s (l : list (Env * op)) :
  Initialize env (fresh o) = (s, true) -> Z.of_nat (length l) < 2 ^ 62 ->
  exists y answers x, steps l (s, true) = Some (y, answers) /\ spec_run (snd <$> l) answers no_documents /\
                      related y x /\ segments_le (1 + 2 * length l) y.
Proof.
  intros E Hl. destruct (first_start env o s E) as [U L]. apply (steps_sim l (s, true) no_documents 1); [by split| |].
  - unfold segments_le. cbn [fst snd]. by rewrite L.
  - assert (2 ^ 62 = 4611686018427387904) by done. assert (2 ^ 64 = 18446744073709551616) by done. lia.
Qed.

(** C9. The segmented document store refines a map from keys to documents. After a
    successful first start, any sequence of calls (setting one document or a batch,
    reading, testing, deleting one or a range, clearing, listing by prefix with a page or
    by pattern, counting, and clean or crashing restarts), with any choice of which
    database writes, flushes and file writes succeed, fail or take effect although they
    report an error, terminates and gives answers that the abstract store allows: reads
    see the last acknowledged write of their key, deleted documents stay deleted, rotation
    loses nothing, listings have exactly the documents in order, and restarts keep every
    acknowledged document. Only keys of failed writes may be either way. *)
Theorem segments_refine env o s (l : list (Env * op)) :
  Initialize env (fresh o) = (s, true) -> Z.of_nat (length l) < 2 ^ 62 ->
  exists answers, run l (s, true) = Some answers /\ spec_run (snd <$> l) answers no_documents.
Proof.
  intros E Hl. destruct (started_steps env o s l E Hl) as (y & answers & x & H1 & H2 & _). exists answers. unfold run. by rewrite H1.
Qed.

(** ** Capacity *)

Lemma roomy_stays s : roomy s -> ShouldRotateActiveLocked opts s = false.
Proof.
  intros (m & Hm & E1 & E2 & _). unfold ShouldRotateActiveLocked. rewrite Hm, E1, E2. apply orb_false_iff. split; apply andb_false_iff; lia.
Qed.

Lemma write_documents_capacity env i n b kvs ids s s' :
  good s -> ActiveSegment s = Some i -> Z.of_nat (length (live s)) < 2 ^ 64 - 1 -> mapM (fun kv => ParseDocKey kv.1) kvs = Some ids ->
  write_documents opts env i n b (puts kvs) (ids ≫= location_writes i (NowMs env)) s = (s', true) ->
  ShouldRotateActiveLocked opts s' = false.
Proof.
  intros G Ha Hl Hids. unfold write_documents. set (r := set_reserved _ _ s).
  destruct (segment_write i (puts kvs) r) as [t ok1] eqn:E1. destruct (if negb ok1 then (t, false) else _) as [u ok2] eqn:E2.
  destruct (two_writes r i kvs ids (NowMs env) u ok2) as [W A]; [by eapply meta_good; [apply set_reserved_meta|]|done|done|by rewrite E1|].
  destruct ok2; cbn [negb]; [|done]. set (v := set_dirty _ _ _).
  assert (meta_step u v) as Mv.
  { etrans; [apply set_reserved_meta|]. etrans; [by apply (alter_metadata_meta (count_documents n b) i)|apply set_dirty_meta]. }
  destruct (PersistActiveMetadataIfNeededLocked env false v) as [z ok3] eqn:E3. apply PersistActive_meta in E3.
  destruct ok3; cbn [negb]; [|done]. destruct (ShouldRotateActiveLocked opts z) eqn:R; [|intros [= <-]; done].
  unfold RotateActiveSegmentIfNeeded. rewrite R. cbn [negb]. intros E4. assert (meta_step u z) as Mz by by etrans.
  apply seal_spec in E4 as (_ & _ & _ & Hr); [by apply roomy_stays, Hr|eapply meta_good; [done|apply W]|].
  rewrite (meta_live _ _ Mz). pose proof (wr_length _ _ _ _ _ W) as Hw. change (live r) with (live s) in Hw. lia.
Qed.

Lemma SetDocument_capacity env key value s s' :
  good s -> Z.of_nat (length (live s)) < 2 ^ 64 - 2 -> SetDocument opts env key value s = Some (s', true) ->
  ShouldRotateActiveLocked opts s' = false.
Proof.
  intros G Hl. unfold SetDocument. destruct (ParseDocKey key) as [p|] eqn:Hp; [|done].
  assert (mapM (fun kv : bytes * bytes => ParseDocKey kv.1) [(key, value)] = Some [p]) as Hids by (simpl; by rewrite Hp).
  assert (forall t i, good t -> Z.of_nat (length (live t)) < 2 ^ 64 - 1 -> ActiveSegment t = Some i ->
    Some (write_documents opts env i 1 (size key + size value) [Put key value] (location_writes i (NowMs env) p) t) = Some (s', true) ->
    ShouldRotateActiveLocked opts s' = false) as W.
  { intros t i Gt Ht Hi [= Hw]. by apply (write_documents_capacity env i 1 (size key + size value) [(key, value)] [p] t s'). }
  cbn [write_loop]. destruct (ActiveSegment s) as [i|] eqn:Ha; [|destruct (g_active _ G); congruence].
  destruct (ActiveSegmentHasCapacityLocked opts 1 (size key + size value) s) eqn:C; [apply W; [done|lia|done]|].
  unfold EnsureActiveSegmentCapacity. rewrite Ha. cbn [negb]. rewrite C.
  destruct (SealActiveSegmentAndCreateNewLocked env s) as [t ok1] eqn:E1. apply seal_spec in E1 as (G1 & D1 & L1 & R1); [|done|lia].
  destruct ok1; cbn [negb]; [|done]. destruct (ActiveSegment t) as [j|] eqn:Hj; [|destruct (g_active _ G1); congruence].
  rewrite roomy_capacity by by apply R1. apply W; [done|lia|done].
Qed.

(** A document that is acknowledged leaves an active segment below its limits: the
    number of documents and of bytes that the metadata of the active segment has are below
    [SegmentMaxDocs] and [SegmentMaxBytes] where those are set, because a segment that
    reaches a limit is sealed before the call answers. *)
Theorem active_below_limits env o s0 l s answers key value s' :
  Initialize env (fresh o) = (s0, true) -> Z.of_nat (length l) < 2 ^ 62 ->
  steps l (s0, true) = Some (s, true, answers) -> SetDocument opts env key value s = Some (s', true) ->
  exists m, active_metadata s' = Some m /\
    (0 < SegmentMaxDocs opts -> DocCountEstimate m < SegmentMaxDocs opts) /\
    (0 < SegmentMaxBytes opts -> BytesEstimate m < SegmentMaxBytes opts).
Proof.
  intros E Hl Hs. destruct (started_steps env o s0 l E Hl) as (y & ans & x & H1 & _ & R & Hn). rewrite Hs in H1. injection H1 as <- <-.
  destruct R as [_ [G _]]. unfold segments_le in Hn. cbn [fst snd] in *.
  assert (Z.of_nat (length (live s)) < 2 ^ 64 - 2) as Hlen.
  { assert (2 ^ 62 = 4611686018427387904) by done. assert (2 ^ 64 = 18446744073709551616) by done. lia. }
  intros Hset. pose proof (SetDocument_capacity env key value s s' G Hlen Hset) as Hr.
  unfold ShouldRotateActiveLocked in Hr. destruct (active_metadata s') as [m|]; [|done]. exists m. split; [done|].
  apply orb_false_iff in Hr as [Hr1 Hr2]. apply andb_false_iff in Hr1. apply andb_false_iff in Hr2. lia.
Qed.

End Run.

(** ** A store that has the laws *)

Definition key_le (a b : bytes) : Prop := str_compare a b <> Gt.

#[local] Instance key_le_dec a b : Decision (key_le a b).
Proof. unfold key_le. apply _. Defined.

#[export] Instance map_store : Store (gmap bytes bytes) := {
  db_empty := ∅;
  db_get d k := d !! k;
  db_write d w :=
    match w with
    | Put k v => <[k := v]> d
    | Delete k => base.delete k d
    | DeleteRange a b => base.filter (fun kv => in_key_range a b kv.1 = false) d
    end;
  db_keys d := merge_sort key_le (map_to_list d).*1
}.

#[local] Instance key_le_trans : Transitive key_le.
Proof.
  intros a b c. unfold key_le. destruct (str_compare a b) eqn:E1; [|intros _|done].
  - apply str_compare_eq in E1 as ->. done.
  - destruct (str_compare b c) eqn:E2; [|intros _|done].
    + apply str_compare_eq in E2 as ->. by rewrite E1.
    + by rewrite (str_compare_trans a b c).
Qed.

#[local] Instance key_le_total : Total key_le.
Proof. intros a b. unfold key_le. rewrite (str_compare_antisym a b). destruct (str_compare a b); simpl; auto. Qed.

Lemma strict_if_sorted l : NoDup l -> StronglySorted key_le l -> StronglySorted str_lt l.
Proof.
  intros Hn Hs. induction Hs as [|x l Hs IH Hx]; [constructor|]. inv Hn. constructor; [by apply IH|].
  apply Forall_forall. intros y Hy. pose proof (proj1 (Forall_forall _ _) Hx y Hy) as Hle. unfold key_le in Hle. unfold str_lt.
  destruct (str_compare x y) eqn:E; [|done|done]. by apply str_compare_eq in E as ->.
Qed.

#[export] Instance map_store_laws : StoreLaws (gmap bytes bytes).
Proof.
  split; simpl.
  - intros k. apply lookup_empty.
  - intros d k v k'. case_bool_decide as E; [subst; apply lookup_insert_eq|]. by rewrite lookup_insert_ne.
  - intros d k k'. case_bool_decide as E; [subst; apply lookup_delete_eq|]. by rewrite lookup_delete_ne.
  - intros d a b k'. destruct (in_key_range a b k') eqn:E.
    + apply map_lookup_filter_None. right. intros x _. simpl. by rewrite E.
    + apply option_eq. intros x. rewrite map_lookup_filter_Some. simpl. rewrite E. naive_solver.
  - intros d k. rewrite (merge_sort_Permutation key_le). rewrite list_elem_of_fmap. split.
    + intros ([k' v] & -> & Hin%elem_of_map_to_list). by exists v.
    + intros [v Hv]. exists (k, v). split; [done|]. by apply elem_of_map_to_list.
  - intros d. apply strict_if_sorted; [|apply (StronglySorted_merge_sort key_le)].
    rewrite (merge_sort_Permutation key_le). apply NoDup_fst_map_to_list.
Qed.

(** ** Witnesses *)

Definition an_env (t : Z) : Env := mkEnv t (fun _ => 0) (fun _ => 0).

Definition small : RocksDBOptions := mkOptions 2 0.

Definition a_key (n : Z) : bytes := #"doc:books:" ++ to_string n.

(** Two documents fill a segment; one is overwritten, one deleted; the third write of the
    system database in a batch fails; then the process is restarted twice. *)

Definition a_session : list (Env * op) :=
  [(an_env 10, OpSet (a_key 1) #"one"); (an_env 11, OpSet (a_key 2) #"two"); (an_env 12, OpSet (a_key 1) #"uno");
   (an_env 13, OpGet (a_key 1)); (an_env 14, OpDelete (a_key 2)); (an_env 15, OpGet (a_key 2));
   (an_env 16, OpList #"doc:books:" 0 0); (an_env 17, OpRestart true); (an_env 18, OpGet (a_key 1));
   (an_env 19, OpRestart false); (an_env 20, OpCount #"doc:books:"); (an_env 21, OpGet (a_key 2))].

#[local] Notation a_start o := (Initialize (DB := gmap bytes bytes) (an_env 1) (fresh o)).

(** Results of which only the answer is evaluated. *)

Lemma pair_snd {A B} (r : A * B) b : r.2 = b -> r = (r.1, b).
Proof. destruct r. by intros <-. Qed.

Lemma some_pair {A B} (o : option (A * B)) d b : snd <$> o = Some b -> o = Some (from_option fst d o, b).
Proof. destruct o as [c|]; [|done]. simpl. intros [= <-]. by rewrite <- surjective_pairing. Qed.

Lemma some_state {A B C} (o : option (A * B * C)) d b c :
  (fun r => (r.1.2, r.2)) <$> o = Some (b, c) -> o = Some (from_option (fun r => r.1.1) d o, b, c).
Proof. destruct o as [[[]]|]; [|done]. simpl. by intros [= <- <-]. Qed.

Example a_session_runs :
  run small a_session (a_start []) =
  Some [Flag true; Flag true; Flag true; Value #"uno"; Count 1; Value []; Names [a_key 1]; Flag true; Value #"uno"; Flag true; Count 1; Value []].
Proof. vm_compute. reflexivity. Qed.

Lemma segments_refine_witness :
  exists answers, run small a_session ((a_start []).1, true) = Some answers /\ spec_run (snd <$> a_session) answers no_documents.
Proof.
  refine (segments_refine small (an_env 1) [] (a_start []).1 a_session (pair_snd (a_start []) true _) _); vm_compute; reflexivity.
Defined.

Definition one_set : list (Env * op) := [(an_env 10, OpSet (a_key 1) #"one")].

Definition after_one : SegmentManager (gmap bytes bytes) := from_option (fun r => r.1.1) (fresh []) (steps small one_set ((a_start []).1, true)).

Definition after_two : SegmentManager (gmap bytes bytes) := from_option fst (fresh []) (SetDocument small (an_env 1) (a_key 2) #"two" after_one).

Lemma active_below_limits_witness :
  exists m, active_metadata after_two = Some m /\
    (0 < SegmentMaxDocs small -> DocCountEstimate m < SegmentMaxDocs small) /\
    (0 < SegmentMaxBytes small -> BytesEstimate m < SegmentMaxBytes small).
Proof.
  refine (active_below_limits small (an_env 1) [] (a_start []).1 one_set after_one [Flag true] (a_key 2) #"two" after_two
            (pair_snd (a_start []) true _) _ (some_state (steps small one_set ((a_start []).1, true)) (fresh []) true [Flag true] _)
            (some_pair (SetDocument small (an_env 1) (a_key 2) #"two" after_one) (fresh []) true _)); vm_compute; reflexivity.
Defined.

(** ** A batch that answers zero can be half written

    The first key of the batch has its document in a sealed segment, the third one is
    new. The segment takes the batch and the system database refuses the routes: the first
    key keeps its old document and the third one has the new one. *)

Definition torn_session : list (Env * op) :=
  [(an_env 10, OpSet (a_key 1) #"one"); (an_env 11, OpSet (a_key 2) #"two");
   (an_env 12, OpBatch [(a_key 1, #"uno"); (a_key 3, #"tres")]); (an_env 13, OpGet (a_key 1)); (an_env 14, OpGet (a_key 3))].

Example torn_batch :
  run small torn_session ((a_start (replicate 21 Done ++ [Failed])).1, true) =
  Some [Flag true; Flag true; Count 0; Value #"one"; Value #"tres"].
Proof. vm_compute. reflexivity. Qed.

End SegmentsProps.
