(* ===== verification/LexicalTerms.v ===== *)
(** * LexicalTerms: the terms of a text in src/search/lexical_index_writer.cpp

    Normalization and extraction of terms, the synthetic terms of fields, and the
    terms and top-level domains found in URLs. The sets are finite sets; the loops over
    a text read its bytes from left to right. *)

From S2P Require Import Prelude CText ResultShaping.

Module LexicalTerms.

(** ** Normalization *)

Definition dollar : ascii := "$"%char.

Definition keeps_edge (c : ascii) : bool := isalnum c || bool_decide (c ∈ #"*?_").

Definition IsNormalizedCashtag (term : bytes) : bool :=
  match term with c :: d :: _ => bool_decide (c = dollar) && isalnum d | _ => false end.

Fixpoint strip_front (cashtags : bool) (s : bytes) : bytes :=
  match s with
  | [] => []
  | c :: r => if keeps_edge c || (cashtags && IsNormalizedCashtag s) then s else strip_front cashtags r
  end.

Definition strip_back (s : bytes) : bytes := reverse (skip_while (fun c => negb (keeps_edge c)) (reverse s)).

Definition ToLowerCopy (s : bytes) : bytes := tolower <$> s.

Definition NormalizeTerm (Term : bytes) : bytes := strip_back (strip_front true (ToLowerCopy Term)).

Definition NormalizeUrlToken (token : bytes) : bytes := strip_back (strip_front false (ToLowerCopy token)).

Definition BuildFieldScopedTerm (field_name term : bytes) : bytes := #"__field__" ++ field_name ++ #":" ++ term.

Definition FieldNameHasToken (field_name : bytes) (tokens : list bytes) : bool :=
  existsb (fun token => bool_decide (is_Some (find_sub token (ToLowerCopy field_name)))) tokens.

(** ** Extraction *)

Definition MaxTextSize : Z := 1000000.

Definition MaxTerms : Z := 100000.

Definition IsTermSeparator (c : ascii) (rest : bytes) : bool :=
  if bool_decide (c = dollar) then negb (match rest with d :: _ => isalnum d | [] => false end)
  else isspace c || bool_decide (c ∈ #"-.,:/\()[]{}@#%&+=;|!?~^`").

Fixpoint skip_separators (s : bytes) : bytes :=
  match s with
  | [] => []
  | c :: r => if IsTermSeparator c r then skip_separators r else s
  end.

(** The word at the start of a text; a dollar sign only begins one. *)

Fixpoint word (first : bool) (s : bytes) : bytes * bytes :=
  match s with
  | [] => ([], [])
  | c :: r =>
      if IsTermSeparator c r then ([], s)
      else if bool_decide (c = dollar) && negb first then ([], s)
      else let (w, q) := word false r in (c :: w, q)
  end.

Definition forms (Normalized : bytes) : list bytes :=
  Normalized :: (if IsNormalizedCashtag Normalized then [drop 1 Normalized] else []).

(** Every word takes a byte at least, so that the length of the text is enough fuel. *)

Fixpoint extract (fuel : nat) (TermCount : Z) (s : bytes) : list bytes :=
  match fuel with
  | O => []
  | S f =>
      if MaxTerms <=? TermCount then []
      else
        match skip_separators s with
        | [] => []
        | s' =>
            let (w, r) := word true s' in
            let Normalized := NormalizeTerm w in
            if bool_decide (Normalized = []) then extract f TermCount r
            else forms Normalized ++ extract f (TermCount + 1) r
        end
  end.

Definition ExtractTerms (Text : bytes) : list bytes :=
  let t := take (Z.to_nat MaxTextSize) Text in extract (length t) 0 t.

(** ** URLs *)

Definition ispunct (c : ascii) : bool := in_range 33 126 c && negb (isalnum c).

Definition is_label_char (c : ascii) : bool := isalnum c || bool_decide (c = "-"%char).

Definition IsLikelyTld (tail : bytes) : bool :=
  if bool_decide (tail = []) then false
  else
    let lower := ToLowerCopy tail in
    if (size lower <? 2) || (63 <? size lower) then false
    else if starts_with #"xn--" lower then forallb is_label_char lower
    else forallb isalpha lower.

Definition IsValidHostLabel (label : bytes) : bool :=
  if bool_decide (label = []) || (63 <? size label) then false
  else if bool_decide (head label = Some "-"%char) || bool_decide (last label = Some "-"%char) then false
  else forallb is_label_char label.

(** The labels and the top-level domain of a host, if it is one. *)

Definition SplitAndValidateHostname (host : bytes) : option (list bytes * bytes) :=
  if bool_decide (host = []) || bool_decide (is_Some (find_sub #".." host)) then None
  else
    let parts := getlines "."%char [] host in
    if negb (forallb IsValidHostLabel parts) then None
    else if size parts <? 2 then None
    else
      match last parts with
      | None => None
      | Some tld => if IsLikelyTld tld then Some (parts, tld) else None
      end.

Definition without_scheme (lower : bytes) : bytes :=
  match find_sub #"://" lower with None => lower | Some n => drop (n + 3) lower end.

Definition without_www (lower : bytes) : bytes := if starts_with #"www." lower then drop 4 lower else lower.

Definition ends_host (c : ascii) : bool := bool_decide (c ∈ #"/?#").

Definition is_colon (c : ascii) : bool := bool_decide (c = ":"%char).

(** The text before the first byte that satisfies the test. *)

Definition before (p : ascii -> bool) (s : bytes) : bytes := match find_char p s with None => s | Some n => take n s end.

Definition ExtractHostFromToken (token : bytes) : bytes :=
  let host := before ends_host (without_www (without_scheme (ToLowerCopy token))) in
  if bool_decide (host = []) then [] else before is_colon host.

Definition trimmed_char (c : ascii) : bool := ispunct c && negb (bool_decide (c ∈ #"/:")).

Definition TrimUrlToken (token : bytes) : bytes := trim trimmed_char token.

(** The tokens of a path: runs of letters, digits, underscores and hyphens. *)

Definition is_path_char (c : ascii) : bool := isalnum c || bool_decide (c ∈ #"_-").

Fixpoint path_tokens (token_accum path : bytes) : list bytes :=
  match path with
  | [] => if bool_decide (token_accum = []) then [] else [token_accum]
  | c :: r =>
      if is_path_char c then path_tokens (token_accum ++ [c]) r
      else (if bool_decide (token_accum = []) then [] else [token_accum]) ++ path_tokens [] r
  end.

Definition host_terms (host_parts : list bytes) : list bytes :=
  List.filter (fun t => negb (bool_decide (t = []))) (NormalizeUrlToken <$> host_parts).

Definition path_terms (path : bytes) : list bytes :=
  List.filter (fun t => 2 <=? size t) (NormalizeUrlToken <$> path_tokens [] path).

(** The terms and the top-level domains, as sets. *)

Definition url_sets : Type := gset bytes * gset bytes.

Definition AddUrlParts (url_token : bytes) (x : url_sets) : url_sets :=
  let token := TrimUrlToken url_token in
  if bool_decide (token = []) || bool_decide ("@"%char ∈ token) then x
  else
    let lower := without_www (without_scheme (ToLowerCopy token)) in
    let host := before ends_host lower in
    if bool_decide (host = []) then x
    else
      match SplitAndValidateHostname (before is_colon host) with
      | None => x
      | Some (host_parts, tld) =>
          let from_path := match find_char ends_host lower with None => [] | Some n => path_terms (drop (n + 1) lower) end in
          (x.1 ∪ list_to_set (host_terms (take (length host_parts - 1) host_parts)) ∪ list_to_set from_path, x.2 ∪ {[tld]})
      end.

Definition url_token (token : bytes) (x : url_sets) : url_sets :=
  let trimmed := TrimUrlToken token in
  if bool_decide (trimmed = []) then x
  else
    let has_scheme := bool_decide (is_Some (find_sub #"://" trimmed)) in
    let has_www := starts_with #"www." trimmed in
    let host := ExtractHostFromToken trimmed in
    let has_tld := negb has_scheme && negb has_www && negb (bool_decide (host = [])) &&
                   bool_decide (is_Some (SplitAndValidateHostname host)) in
    if has_scheme || has_www || has_tld then AddUrlParts trimmed x else x.

Definition ExtractUrlTerms (text : bytes) (x : url_sets) : url_sets :=
  foldl (fun x token => url_token token x) x (ResultShaping.words [] text).

End LexicalTerms.
