(* ===== verification/LexicalIndex.v ===== *)
(** * LexicalIndex: the in-memory index of src/search/lexical_index_writer.cpp

    [InvertedIndex]: postings by collection and term, the terms and the length of every
    document, the statistics of a collection, dirty marks, flushing to the index files of
    [MMapIndex], loading them again and evicting collections that are clean. The time,
    the ranking boosts of the configuration, the memory estimate of a collection and
    whether a file can be written are inputs of a call ([Env]). The hash maps are finite
    maps; the fields of a document are listed in the order in which its map gives them.
    A flush works on a snapshot in two steps, between which other calls may run. The
    second step writes the files in place and maps them; what searches read from the old
    mapping while the files are being written is not modelled, what they read after a
    write that failed is ([overwritten]). *)

From Stdlib Require Import SpecFloat.
From S2P Require Import Prelude CText MMapFormat MMapIndex DocValues LexicalTerms.
Import LexicalTerms.

Module LexicalIndex.

Abbreviation Posting := MMapIndex.Posting.

Record Document := mkDocument { ID : bytes; Title : bytes; Content : bytes; Fields : list (bytes * bytes) }.

Record Boosts := mkBoosts { url_token_boost : double; url_tld_weight : double; title_like_boost : double; tag_like_boost : double }.

(** [Leftover] is what a write that fails leaves in the directory of a collection;
    [Overwritten] is the byte that a mapping shows at a position of a file (the terms,
    their map, its sparse index, the postings) once the file was written over;
    [DirectoryExists] is whether an index directory without collections exists. *)

Record Env := mkEnv {
  Now : Z; Ranking : Boosts; MemoryEstimate : bytes -> Z; Writable : bytes -> bool; Leftover : bytes -> option MMapIndex.index_files;
  Overwritten : bytes -> nat -> nat -> ascii; DirectoryExists : bool
}.

(** ** Limits *)

Definition INVERTED_INDEX_MAX_MEMORY_BYTES : Z := 2 * 1024 * 1024 * 1024.
Definition INVERTED_INDEX_MAX_TERMS_PER_COLLECTION : Z := 10000000.
Definition INVERTED_INDEX_MAX_DOCUMENTS_PER_COLLECTION : Z := 5000000.
Definition INVERTED_INDEX_MEMORY_CHECK_INTERVAL : Z := 1000.

(** ** State *)

Abbreviation term_map := (gmap bytes (list Posting)).

Record FlushWorkItem := mkItem { Item_Collection : bytes; MutationTime : Z; IndexSnapshot : term_map }.

Record InvertedIndex := mkIndex {
  Index : gmap bytes term_map;
  DocumentTerms : gmap bytes (gmap bytes (gset bytes));
  DocumentLengths : gmap bytes (gmap bytes Z);
  AvgDocLengths : gmap bytes double;
  CollectionTotalLengths : gmap bytes Z;
  DocCounts : gmap bytes Z;
  MMapIndexes : gmap bytes MMapIndex.mapped_index;
  DirtyCollections : gset bytes;
  CollectionLastMutation : gmap bytes Z;
  CollectionLastFlush : gmap bytes Z;
  CollectionLastAccess : gmap bytes Z;
  (** the index directory, the flush markers of the database, and the flush under way *)
  IndexDir : gmap bytes MMapIndex.index_files;
  FlushPending : gset bytes;
  WorkItems : list FlushWorkItem
}.

Definition empty_index : InvertedIndex := mkIndex ∅ ∅ ∅ ∅ ∅ ∅ ∅ ∅ ∅ ∅ ∅ ∅ ∅ [].

Definition set_Index x (s : InvertedIndex) : InvertedIndex :=
  mkIndex x (DocumentTerms s) (DocumentLengths s) (AvgDocLengths s) (CollectionTotalLengths s) (DocCounts s) (MMapIndexes s)
    (DirtyCollections s) (CollectionLastMutation s) (CollectionLastFlush s) (CollectionLastAccess s) (IndexDir s) (FlushPending s) (WorkItems s).

Definition set_documents t l (s : InvertedIndex) : InvertedIndex :=
  mkIndex (Index s) t l (AvgDocLengths s) (CollectionTotalLengths s) (DocCounts s) (MMapIndexes s)
    (DirtyCollections s) (CollectionLastMutation s) (CollectionLastFlush s) (CollectionLastAccess s) (IndexDir s) (FlushPending s) (WorkItems s).

Definition set_totals x (s : InvertedIndex) : InvertedIndex :=
  mkIndex (Index s) (DocumentTerms s) (DocumentLengths s) (AvgDocLengths s) x (DocCounts s) (MMapIndexes s)
    (DirtyCollections s) (CollectionLastMutation s) (CollectionLastFlush s) (CollectionLastAccess s) (IndexDir s) (FlushPending s) (WorkItems s).

Definition set_stats n a (s : InvertedIndex) : InvertedIndex :=
  mkIndex (Index s) (DocumentTerms s) (DocumentLengths s) a (CollectionTotalLengths s) n (MMapIndexes s)
    (DirtyCollections s) (CollectionLastMutation s) (CollectionLastFlush s) (CollectionLastAccess s) (IndexDir s) (FlushPending s) (WorkItems s).

Definition set_dirty d m (s : InvertedIndex) : InvertedIndex :=
  mkIndex (Index s) (DocumentTerms s) (DocumentLengths s) (AvgDocLengths s) (CollectionTotalLengths s) (DocCounts s) (MMapIndexes s)
    d m (CollectionLastFlush s) (CollectionLastAccess s) (IndexDir s) (FlushPending s) (WorkItems s).

Definition set_access x (s : InvertedIndex) : InvertedIndex :=
  mkIndex (Index s) (DocumentTerms s) (DocumentLengths s) (AvgDocLengths s) (CollectionTotalLengths s) (DocCounts s) (MMapIndexes s)
    (DirtyCollections s) (CollectionLastMutation s) (CollectionLastFlush s) x (IndexDir s) (FlushPending s) (WorkItems s).

Definition set_mapped m f (s : InvertedIndex) : InvertedIndex :=
  mkIndex (Index s) (DocumentTerms s) (DocumentLengths s) (AvgDocLengths s) (CollectionTotalLengths s) (DocCounts s) m
    (DirtyCollections s) (CollectionLastMutation s) f (CollectionLastAccess s) (IndexDir s) (FlushPending s) (WorkItems s).

Definition set_disk d p (s : InvertedIndex) : InvertedIndex :=
  mkIndex (Index s) (DocumentTerms s) (DocumentLengths s) (AvgDocLengths s) (CollectionTotalLengths s) (DocCounts s) (MMapIndexes s)
    (DirtyCollections s) (CollectionLastMutation s) (CollectionLastFlush s) (CollectionLastAccess s) d p (WorkItems s).

Definition set_work w (s : InvertedIndex) : InvertedIndex :=
  mkIndex (Index s) (DocumentTerms s) (DocumentLengths s) (AvgDocLengths s) (CollectionTotalLengths s) (DocCounts s) (MMapIndexes s)
    (DirtyCollections s) (CollectionLastMutation s) (CollectionLastFlush s) (CollectionLastAccess s) (IndexDir s) (FlushPending s) w.

(** ** Bookkeeping *)

Definition u64 (z : Z) : Z := z mod 2 ^ 64.

Definition MarkCollectionDirtyLocked (env : Env) (c : bytes) (s : InvertedIndex) : InvertedIndex :=
  set_dirty ({[c]} ∪ DirtyCollections s) (<[c := Now env]> (CollectionLastMutation s)) s.

Definition sum_lengths (m : gmap bytes Z) : Z := map_fold (fun _ l acc => u64 (acc + l)) 0 m.

Definition lengths_of (c : bytes) (s : InvertedIndex) : gmap bytes Z := default ∅ (DocumentLengths s !! c).

Definition EnsureCollectionTotalLengthLocked (c : bytes) (s : InvertedIndex) : InvertedIndex * Z :=
  match CollectionTotalLengths s !! c with
  | Some t => (s, t)
  | None => let t := sum_lengths (lengths_of c s) in (set_totals (<[c := t]> (CollectionTotalLengths s)) s, t)
  end.

Definition RefreshCollectionStatsFromTotalLocked (c : bytes) (s : InvertedIndex) : InvertedIndex :=
  let DocCountValue := Z.of_nat (base.size (lengths_of c s)) in
  if DocCountValue =? 0 then
    set_totals (<[c := 0]> (CollectionTotalLengths s))
      (set_stats (<[c := 0]> (DocCounts s)) (<[c := DocValues.of_Z 1]> (AvgDocLengths s)) s)
  else
    let (s, TotalLength) := EnsureCollectionTotalLengthLocked c s in
    set_stats (<[c := DocCountValue]> (DocCounts s))
      (<[c := DocValues.div (DocValues.of_Z TotalLength) (DocValues.of_Z DocCountValue)]> (AvgDocLengths s)) s.

Definition UpdateCollectionStatistics (c : bytes) (s : InvertedIndex) : InvertedIndex :=
  if bool_decide (lengths_of c s = ∅) then
    set_totals (<[c := 0]> (CollectionTotalLengths s))
      (set_stats (<[c := 0]> (DocCounts s)) (<[c := DocValues.of_Z 1]> (AvgDocLengths s)) s)
  else
    let s := set_totals (base.delete c (CollectionTotalLengths s)) s in
    RefreshCollectionStatsFromTotalLocked c (EnsureCollectionTotalLengthLocked c s).1.

Definition TouchCollectionLocked (env : Env) (c : bytes) (s : InvertedIndex) : InvertedIndex :=
  if bool_decide (c = []) then s else set_access (<[c := Now env]> (CollectionLastAccess s)) s.

(** ** Eviction *)

Definition loaded_collections (s : InvertedIndex) : gset bytes :=
  dom (Index s) ∪ dom (DocumentTerms s) ∪ dom (DocumentLengths s) ∪ dom (MMapIndexes s).

Definition EstimateLoadedMemoryLocked (env : Env) (s : InvertedIndex) : Z :=
  set_fold (fun c acc => u64 (acc + MemoryEstimate env c)) 0 (loaded_collections s).

Definition erase_tables (c : bytes) (s : InvertedIndex) : InvertedIndex :=
  mkIndex (base.delete c (Index s)) (base.delete c (DocumentTerms s)) (base.delete c (DocumentLengths s)) (base.delete c (AvgDocLengths s))
    (base.delete c (CollectionTotalLengths s)) (base.delete c (DocCounts s)) (base.delete c (MMapIndexes s)) (DirtyCollections s)
    (base.delete c (CollectionLastMutation s)) (base.delete c (CollectionLastFlush s)) (base.delete c (CollectionLastAccess s))
    (IndexDir s) (FlushPending s) (WorkItems s).

(** A candidate: its last access, its name and its size. *)

Definition older (a b : Z * bytes * Z) : Prop := (a.1.1 <? b.1.1) || ((a.1.1 =? b.1.1) && str_leb a.1.2 b.1.2) = true.

#[local] Instance older_dec a b : Decision (older a b).
Proof. unfold older. apply _. Defined.

Definition candidates (env : Env) (s : InvertedIndex) : list (Z * bytes * Z) :=
  merge_sort older
    (omap (fun c => if bool_decide (c ∈ DirtyCollections s) || (MemoryEstimate env c =? 0) then None
                    else Some (default 0 (CollectionLastAccess s !! c), c, MemoryEstimate env c))
       (elements (loaded_collections s))).

Fixpoint evict (TargetBytes LoadedBytes : Z) (l : list (Z * bytes * Z)) (s : InvertedIndex) : InvertedIndex * list bytes :=
  match l with
  | [] => (s, [])
  | (_, c, b) :: r =>
      if LoadedBytes <=? TargetBytes then (s, [])
      else let (s', evicted) := evict TargetBytes (if b <? LoadedBytes then LoadedBytes - b else 0) r (erase_tables c s) in (s', c :: evicted)
  end.

(** The state and the collections that were evicted. *)

Definition EvictLoadedCollectionsLocked (env : Env) (TargetBytes : Z) (s : InvertedIndex) : InvertedIndex * list bytes :=
  if TargetBytes =? 0 then (s, [])
  else
    let LoadedBytes := EstimateLoadedMemoryLocked env s in
    if LoadedBytes <=? TargetBytes then (s, []) else evict TargetBytes LoadedBytes (candidates env s) s.

(** ** Removing a document *)

Definition remove_posting (DocID : bytes) (t : bytes) (m : term_map) : term_map :=
  match m !! t with
  | None => m
  | Some Postings =>
      match List.filter (fun p => negb (bool_decide (MMapIndex.DocumentID p = DocID))) Postings with
      | [] => base.delete t m
      | l => <[t := l]> m
      end
  end.

(** An inner map that becomes empty is erased from its table. *)

Definition put_table {A} (c : bytes) (m : gmap bytes A) (t : gmap bytes (gmap bytes A)) : gmap bytes (gmap bytes A) :=
  if bool_decide (m = ∅) then base.delete c t else <[c := m]> t.

Definition RemoveDocumentFromIndex (c DocID : bytes) (s : InvertedIndex) : InvertedIndex :=
  match Index s !! c, DocumentTerms s !! c with
  | Some CollectionIndex, Some DocTerms =>
      match DocTerms !! DocID with
      | None => s
      | Some Terms =>
          let s := set_Index (<[c := foldl (fun m t => remove_posting DocID t m) CollectionIndex (elements Terms)]> (Index s)) s in
          let s := set_documents (put_table c (base.delete DocID DocTerms) (DocumentTerms s)) (DocumentLengths s) s in
          let s :=
            match DocumentLengths s !! c with
            | None => s
            | Some Lengths =>
                let s := match Lengths !! DocID with
                         | None => s
                         | Some Removed =>
                             let (s, CurrentTotal) := EnsureCollectionTotalLengthLocked c s in
                             set_totals (<[c := if Removed <? CurrentTotal then CurrentTotal - Removed else 0]> (CollectionTotalLengths s)) s
                         end in
                set_documents (DocumentTerms s) (put_table c (base.delete DocID Lengths) (DocumentLengths s)) s
            end in
          RefreshCollectionStatsFromTotalLocked c s
      end
  | _, _ => s
  end.

(** ** The postings of a document *)

Definition title_tokens : list bytes := [ #"title"; #"name"; #"subject"; #"headline"].
Definition tag_tokens : list bytes := [ #"tag"; #"tags"; #"keyword"; #"keywords"; #"category"; #"topic"].
Definition url_tokens : list bytes := [ #"url"; #"uri"; #"link"; #"website"; #"site"; #"source"].

Definition AllTermsList (d : Document) : list bytes :=
  ExtractTerms (Title d) ++ ExtractTerms (Content d) ++ ExtractTerms (ID d) ++ (Fields d ≫= fun f => ExtractTerms f.2).

Definition FieldTermsByName (d : Document) : gmap bytes (list bytes) :=
  foldl (fun m f => <[f.1 := ExtractTerms f.2]> m)
    (<[ #"id" := ExtractTerms (ID d)]> (<[ #"content" := ExtractTerms (Content d)]> (<[ #"title" := ExtractTerms (Title d)]> ∅))) (Fields d).

Definition terms_of_fields (tokens : list bytes) (d : Document) : gset bytes :=
  list_to_set (Fields d ≫= fun f => if FieldNameHasToken f.1 tokens then ExtractTerms f.2 else []).

Definition url_terms_of (d : Document) : url_sets :=
  foldl (fun x f => ExtractUrlTerms f.2 x) (ExtractUrlTerms (Content d) (ExtractUrlTerms (Title d) (∅, ∅))) (Fields d).

(** The places of a term in a list. *)

Fixpoint positions (Pos : Z) (t : bytes) (l : list bytes) : list Z :=
  match l with
  | [] => []
  | x :: r => (if bool_decide (x = t) then [Pos] else []) ++ positions (Pos + 1) t r
  end.

Definition BuildPostingForTerm (b : Boosts) (c : bytes) (d : Document) (Term : bytes) (Positions : list Z) (InTitle : bool) : Posting :=
  let Score := DocValues.of_Z 1 in
  let Score := if InTitle then DocValues.fmax Score (DocValues.of_Z 2) else Score in
  let Score := if bool_decide (Term ∈ terms_of_fields title_tokens d) then DocValues.fmax Score (title_like_boost b) else Score in
  let Score := if bool_decide (Term ∈ terms_of_fields tag_tokens d) then DocValues.mul Score (tag_like_boost b) else Score in
  let Score := if bool_decide (Term ∈ (url_terms_of d).2) then DocValues.mul Score (url_tld_weight b)
               else if bool_decide (Term ∈ (url_terms_of d).1) || bool_decide (Term ∈ terms_of_fields url_tokens d)
                    then DocValues.mul Score (url_token_boost b) else Score in
  MMapIndex.mkPosting (ID d) c Score Positions.

(** The postings of a document by term: one for every term, and one for every term of
    every field under its synthetic term. *)

Definition plain_postings (b : Boosts) (c : bytes) (d : Document) : list (bytes * Posting) :=
  (fun t => (t, BuildPostingForTerm b c d t (positions 0 t (AllTermsList d)) (bool_decide (t ∈ ExtractTerms (Title d)))))
  <$> elements (list_to_set (AllTermsList d) : gset bytes).

Definition field_postings (b : Boosts) (c : bytes) (d : Document) : list (bytes * Posting) :=
  map_to_list (FieldTermsByName d) ≫= fun f =>
    (fun t => (BuildFieldScopedTerm f.1 t, BuildPostingForTerm b c d t (positions 0 t f.2) (bool_decide (f.1 = #"title"))))
    <$> elements (list_to_set f.2 : gset bytes).

Definition document_postings (b : Boosts) (c : bytes) (d : Document) : list (bytes * Posting) :=
  plain_postings b c d ++ field_postings b c d.

Definition push_posting (m : term_map) (x : bytes * Posting) : term_map := <[x.1 := default [] (m !! x.1) ++ [x.2]]> m.

(** ** Changing documents *)

Definition index_document (env : Env) (c : bytes) (d : Document) (s : InvertedIndex) : InvertedIndex :=
  let postings := document_postings (Ranking env) c d in
  let s := set_Index (<[c := foldl push_posting (default ∅ (Index s !! c)) postings]> (Index s)) s in
  let s := set_documents (<[c := <[ID d := list_to_set postings.*1]> (default ∅ (DocumentTerms s !! c))]> (DocumentTerms s)) (DocumentLengths s) s in
  let (s, CurrentTotalLength) := EnsureCollectionTotalLengthLocked c s in
  let s := set_documents (DocumentTerms s) (<[c := <[ID d := size (AllTermsList d)]> (lengths_of c s)]> (DocumentLengths s)) s in
  let s := set_totals (<[c := u64 (CurrentTotalLength + size (AllTermsList d))]> (CollectionTotalLengths s)) s in
  MarkCollectionDirtyLocked env c (RefreshCollectionStatsFromTotalLocked c s).

Definition AddDocument (env : Env) (c : bytes) (d : Document) (s : InvertedIndex) : InvertedIndex * bool * list bytes :=
  let s := TouchCollectionLocked env c s in
  let DocTerms := default ∅ (DocumentTerms s !! c) in
  let DocumentAlreadyIndexed := bool_decide (is_Some (DocTerms !! ID d)) in
  if negb DocumentAlreadyIndexed && (INVERTED_INDEX_MAX_DOCUMENTS_PER_COLLECTION <=? Z.of_nat (base.size DocTerms)) then (s, false, [])
  else if INVERTED_INDEX_MAX_TERMS_PER_COLLECTION <=? Z.of_nat (base.size (default ∅ (Index s !! c))) then (s, false, [])
  else
    let s := index_document env c d (RemoveDocumentFromIndex c (ID d) s) in
    if default 0 (DocCounts s !! c) mod INVERTED_INDEX_MEMORY_CHECK_INTERVAL =? 0 then
      let (s, evicted) := EvictLoadedCollectionsLocked env INVERTED_INDEX_MAX_MEMORY_BYTES s in (s, true, evicted)
    else (s, true, []).

Definition DeleteDocument (env : Env) (c DocID : bytes) (s : InvertedIndex) : InvertedIndex * bool * list bytes :=
  let s := RemoveDocumentFromIndex c DocID (TouchCollectionLocked env c s) in
  let (s, evicted) := EvictLoadedCollectionsLocked env INVERTED_INDEX_MAX_MEMORY_BYTES (MarkCollectionDirtyLocked env c s) in
  (s, true, evicted).

Definition UpdateDocument (env : Env) (c : bytes) (OldDoc NewDoc : Document) (s : InvertedIndex) : InvertedIndex * bool * list bytes :=
  let s := RemoveDocumentFromIndex c (ID OldDoc) (TouchCollectionLocked env c s) in
  let (s, evicted) := EvictLoadedCollectionsLocked env INVERTED_INDEX_MAX_MEMORY_BYTES (index_document env c NewDoc s) in
  (s, true, evicted).

Definition DeleteCollection (c : bytes) (s : InvertedIndex) : InvertedIndex :=
  let s := erase_tables c s in
  set_disk (IndexDir s) (FlushPending s ∖ {[c]}) (set_dirty (DirtyCollections s ∖ {[c]}) (CollectionLastMutation s) s).

Definition Clear (s : InvertedIndex) : InvertedIndex :=
  mkIndex ∅ ∅ ∅ ∅ ∅ ∅ ∅ ∅ ∅ ∅ ∅ (IndexDir s) (FlushPending s) (WorkItems s).

(** ** Reading *)

Definition bucket (c t : bytes) (s : InvertedIndex) : list Posting := default [] (m ← Index s !! c; m !! t).

Definition GetTermCount (c : bytes) (s : InvertedIndex) : Z := Z.of_nat (base.size (default ∅ (Index s !! c))).

Definition HasInMemoryIndex (c : bytes) (s : InvertedIndex) : bool := negb (bool_decide (default ∅ (DocumentTerms s !! c) = ∅)).

Definition CalculateTermFrequency (c DocID t : bytes) (s : InvertedIndex) : Z :=
  match List.find (fun p => bool_decide (MMapIndex.DocumentID p = DocID)) (bucket c t s) with
  | None => 0
  | Some p => if size (MMapIndex.Positions p) =? 0 then 1 else size (MMapIndex.Positions p)
  end.

Definition CalculateDocumentFrequency (c t : bytes) (s : InvertedIndex) : Z :=
  Z.of_nat (base.size (list_to_set (MMapIndex.DocumentID <$> bucket c t s) : gset bytes)).

Definition is_mapped (c : bytes) (s : InvertedIndex) : bool :=
  match MMapIndexes s !! c with Some ix => MMapIndex.Valid ix | None => false end.

Definition HasMMapIndex (c : bytes) (s : InvertedIndex) : bool := is_mapped c s.

(** The documents of the in-memory index, or else those of the mapped one; [None] is a read
    outside the mapping. *)

Definition GetDocumentCount (c : bytes) (s : InvertedIndex) : option Z :=
  if HasInMemoryIndex c s then Some (Z.of_nat (base.size (default ∅ (DocumentTerms s !! c))))
  else match MMapIndexes s !! c with
       | Some ix => if MMapIndex.Valid ix then fst <$> MMapIndex.GetDocumentCount ix None else Some 0
       | None => Some 0
       end.

(** ** Flushing *)

Definition resident (c : bytes) (s : InvertedIndex) : option term_map :=
  m ← Index s !! c; if bool_decide (m = ∅) then None else Some m.

Definition old_enough (env : Env) (MinDirtyAgeSeconds : Z) (c : bytes) (s : InvertedIndex) : bool :=
  if 0 <? MinDirtyAgeSeconds then
    match CollectionLastMutation s !! c with
    | Some t => MinDirtyAgeSeconds <=? Z.quot (Now env - t) 1000000000
    | None => true
    end
  else true.

Definition SelectFlushCollectionsLocked (env : Env) (MinDirtyAgeSeconds : Z) (MaxCollections : nat) (s : InvertedIndex) : list bytes :=
  let l := List.filter (fun c => bool_decide (is_Some (resident c s)) && old_enough env MinDirtyAgeSeconds c s) (elements (DirtyCollections s)) in
  if (0 <? MaxCollections)%nat then take MaxCollections l else l.

(** A mapped snapshot that this process has not written is not overwritten. *)

Definition partial_delta (c : bytes) (s : InvertedIndex) : bool :=
  is_mapped c s && bool_decide (CollectionLastFlush s !! c = None).

Definition work_item (c : bytes) (s : InvertedIndex) : option FlushWorkItem :=
  m ← resident c s;
  if partial_delta c s then None else Some (mkItem c (default 0 (CollectionLastMutation s !! c)) m).

(** The first step of [FlushToDisk], under the lock. *)

Definition TakeSnapshots (env : Env) (MinDirtyAgeSeconds : Z) (MaxCollections : nat) (s : InvertedIndex) : InvertedIndex :=
  set_work (omap (fun c => work_item c s) (SelectFlushCollectionsLocked env MinDirtyAgeSeconds MaxCollections s)) s.

(** The files of a collection, if they are written; otherwise what a failed write leaves. *)

Definition written (env : Env) (c : bytes) (m : term_map) : option MMapIndex.index_files :=
  if Writable env c then MMapIndex.WriteIndex {[c := m]} c else None.

(** Files are written in place, over those that are mapped: an old mapping keeps its
    sizes and what was copied out of it, and shows the bytes that are in the files now. *)

Definition overwritten (env : Env) (c : bytes) (ix : MMapIndex.mapped_index) : MMapIndex.mapped_index :=
  let see (file : nat) (old : bytes) := Overwritten env c file <$> seq 0 (length old) in
  MMapIndex.mkIndex (see 0%nat (MMapIndex.TermsData ix)) (see 1%nat (MMapIndex.TermMapData ix)) (see 2%nat <$> MMapIndex.TermIndexData ix)
    (see 3%nat (MMapIndex.PostingsData ix)) (MMapIndex.TermCount ix) (MMapIndex.IndexInterval ix) (MMapIndex.Valid ix).

Definition keep_old_mapping (env : Env) (c : bytes) (s : InvertedIndex) : InvertedIndex :=
  set_mapped (alter (overwritten env c) c (MMapIndexes s)) (CollectionLastFlush s) s.

Definition write_files (env : Env) (c : bytes) (m : term_map) (s : InvertedIndex) : InvertedIndex * bool :=
  match written env c m with
  | None =>
      let dir := match Leftover env c with Some f => <[c := f]> (IndexDir s) | None => base.delete c (IndexDir s) end in
      (keep_old_mapping env c (set_disk dir ({[c]} ∪ FlushPending s) s), false)
  | Some files =>
      let s := set_disk (<[c := files]> (IndexDir s)) ({[c]} ∪ FlushPending s) s in
      match MMapIndex.LoadIndex files with
      | Some ix => if MMapIndex.Valid ix then (set_mapped (<[c := ix]> (MMapIndexes s)) (CollectionLastFlush s) s, true) else (keep_old_mapping env c s, true)
      | None => (keep_old_mapping env c s, true)
      end
  end.

Definition finish (env : Env) (clean : bool) (c : bytes) (s : InvertedIndex) : InvertedIndex :=
  let s := if clean then set_dirty (DirtyCollections s ∖ {[c]}) (CollectionLastMutation s) s else s in
  let s := set_mapped (MMapIndexes s) (<[c := Now env]> (CollectionLastFlush s)) s in
  set_disk (IndexDir s) (FlushPending s ∖ {[c]}) s.

(** One turn of the loop of [FlushToDisk] over its work. *)

Definition FlushItem (env : Env) (s : InvertedIndex) : InvertedIndex * bool :=
  match WorkItems s with
  | [] => (s, false)
  | item :: r =>
      let c := Item_Collection item in
      let (s, ok) := write_files env c (IndexSnapshot item) (set_work r s) in
      if negb ok then (s, false)
      else
        let HasNewMutation := match CollectionLastMutation s !! c with Some t => MutationTime item <? t | None => false end in
        (finish env (negb HasNewMutation) c s, true)
  end.

Fixpoint flush_items (env : Env) (n : nat) (FlushedCollections : Z) (s : InvertedIndex) : InvertedIndex * Z :=
  match n with
  | O => (s, FlushedCollections)
  | S n' => let (s, ok) := FlushItem env s in flush_items env n' (if (ok : bool) then FlushedCollections + 1 else FlushedCollections) s
  end.

Definition FlushToDisk (env : Env) (MinDirtyAgeSeconds : Z) (MaxCollections : nat) (s : InvertedIndex) : InvertedIndex * Z * list bytes :=
  let s := TakeSnapshots env MinDirtyAgeSeconds MaxCollections s in
  let (s, n) := flush_items env (length (WorkItems s)) 0 s in
  if 0 <? n then let (s, evicted) := EvictLoadedCollectionsLocked env INVERTED_INDEX_MAX_MEMORY_BYTES s in (s, n, evicted)
  else (s, n, []).

Definition FlushCollectionToDiskLocked (env : Env) (c : bytes) (s : InvertedIndex) : InvertedIndex * bool :=
  match resident c s with
  | None => (set_dirty (DirtyCollections s ∖ {[c]}) (CollectionLastMutation s) s, false)
  | Some m =>
      if partial_delta c s then (s, false)
      else
        let (s, ok) := write_files env c m s in
        if negb ok then (s, false) else (finish env true c s, true)
  end.

(** ** Loading *)

Definition safe_name (c : bytes) : bool :=
  negb (bool_decide (c = [])) && forallb (fun ch => isalnum ch || bool_decide (ch ∈ #"_-.")) c.

(** A marker left by an interrupted flush: its directory is removed, then the marker. *)

Definition repair (env : Env) (s : InvertedIndex) (c : bytes) : InvertedIndex :=
  if safe_name c && Writable env c then set_disk (base.delete c (IndexDir s)) (FlushPending s ∖ {[c]}) s else s.

Definition load_directory (env : Env) (s : InvertedIndex) (x : bytes * MMapIndex.index_files) : InvertedIndex :=
  if bool_decide (x.1 ∈ FlushPending s) then
    if Writable env x.1 then set_disk (base.delete x.1 (IndexDir s)) (FlushPending s) s else s
  else match MMapIndex.LoadIndex x.2 with
       | Some ix => if MMapIndex.Valid ix then set_mapped (<[x.1 := ix]> (MMapIndexes s)) (CollectionLastFlush s) s else s
       | None => s
       end.

Definition LoadFromDisk (env : Env) (s : InvertedIndex) : InvertedIndex * list bytes :=
  let s := foldl (repair env) s (elements (FlushPending s)) in
  if bool_decide (IndexDir s = ∅) && negb (DirectoryExists env) then (s, [])
  else
    let s := foldl (load_directory env) s (map_to_list (IndexDir s)) in
    EvictLoadedCollectionsLocked env INVERTED_INDEX_MAX_MEMORY_BYTES s.

(** A new process: the memory is empty, the directory and the markers are there. *)

Definition new_process (s : InvertedIndex) : InvertedIndex :=
  mkIndex ∅ ∅ ∅ ∅ ∅ ∅ ∅ ∅ ∅ ∅ ∅ (IndexDir s) (FlushPending s) [].

End LexicalIndex.
