(* ===== verification/LexicalTermsProps.v ===== *)
(** * Terms of a text: normal forms and the synthetic terms of fields *)

From S2P Require Import Prelude CText LexicalTerms.
Import LexicalTerms.

Module LexicalTermsProps.

(** ** Bytes *)

Lemma tolower_idemp c : tolower (tolower c) = tolower c.
Proof. by_bytes (fun c => bool_decide (tolower (tolower c) = tolower c)) c. Qed.

Lemma keeps_edge_tolower c : keeps_edge (tolower c) = keeps_edge c.
Proof. by_bytes (fun c => bool_decide (keeps_edge (tolower c) = keeps_edge c)) c. Qed.

Lemma isalnum_tolower c : isalnum (tolower c) = isalnum c.
Proof. by_bytes (fun c => bool_decide (isalnum (tolower c) = isalnum c)) c. Qed.

(** A byte that can stand inside a word: lower case, no separator. *)

Definition plain (c : ascii) : bool := bool_decide (tolower c = c) && (bool_decide (c = dollar) || negb (IsTermSeparator c [])).

Lemma separator_other c r : c <> dollar -> IsTermSeparator c r = IsTermSeparator c [].
Proof. intros Hc. unfold IsTermSeparator. by rewrite bool_decide_false. Qed.

Lemma separator_tolower c : c <> dollar -> IsTermSeparator (tolower c) [] = IsTermSeparator c [] /\ tolower c <> dollar.
Proof.
  intros Hc. assert (bool_decide (c = dollar) || (bool_decide (IsTermSeparator (tolower c) [] = IsTermSeparator c []) && negb (bool_decide (tolower c = dollar))) = true) as H
    by by_bytes (fun c => bool_decide (c = dollar) || (bool_decide (IsTermSeparator (tolower c) [] = IsTermSeparator c []) && negb (bool_decide (tolower c = dollar)))) c.
  rewrite (bool_decide_false (c = dollar)) in H by done. apply andb_true_iff in H as [H1 H2].
  apply bool_decide_eq_true in H1. apply negb_true_iff, bool_decide_eq_false in H2. done.
Qed.

Lemma edge_not_dollar c : keeps_edge c = true -> c <> dollar.
Proof. by intros H ->. Qed.

(** ** Words *)

(** The bytes of a word: no separator, and a dollar sign only at its start, before a
    letter or a digit. *)

Definition tail_byte (c : ascii) : bool := negb (bool_decide (c = dollar)) && negb (IsTermSeparator c []).

Lemma tail_not_dollar c : tail_byte c = true -> c <> dollar.
Proof. unfold tail_byte. intros [H _]%andb_true_iff. by apply negb_true_iff, bool_decide_eq_false in H. Qed.

Inductive is_word : bytes -> Prop :=
| word_plain w : Forall (fun c => tail_byte c = true) w -> is_word w
| word_cash c w : isalnum c = true -> Forall (fun c => tail_byte c = true) (c :: w) -> is_word (dollar :: c :: w).

Lemma word_false s : Forall (fun c => tail_byte c = true) (word false s).1.
Proof.
  induction s as [|c r IH]; [constructor|]. simpl. destruct (IsTermSeparator c r) eqn:S; [constructor|].
  destruct (bool_decide (c = dollar)) eqn:D; simpl; [constructor|]. apply bool_decide_eq_false in D.
  destruct (word false r) as [w q]. simpl in *. constructor; [|done]. unfold tail_byte.
  rewrite bool_decide_false by done. by rewrite <- (separator_other c r), S by done.
Qed.

Lemma word_is_word s : is_word (word true s).1.
Proof.
  destruct s as [|c r]; [by repeat constructor|]. simpl. destruct (IsTermSeparator c r) eqn:S; [by repeat constructor|].
  rewrite andb_false_r. pose proof (word_false r) as Hw. destruct (word false r) as [w q] eqn:E. simpl in *.
  destruct (decide (c = dollar)) as [->|Hc].
  - unfold IsTermSeparator in S. rewrite bool_decide_true in S by done. apply negb_false_iff in S. destruct r as [|d r]; [done|].
    simpl in E. assert (IsTermSeparator d r = false /\ bool_decide (d = dollar) = false) as [S1 S2].
    { assert (bool_decide (isalnum d = false) || (negb (bool_decide (d = dollar)) && negb (IsTermSeparator d [])) = true) as H
        by by_bytes (fun d => bool_decide (isalnum d = false) || (negb (bool_decide (d = dollar)) && negb (IsTermSeparator d []))) d.
      rewrite bool_decide_false in H by (by rewrite S). apply andb_true_iff in H as [H1 H2]. apply negb_true_iff in H1, H2.
      split; [|done]. rewrite separator_other; [done|]. by apply bool_decide_eq_false in H1. }
    rewrite S1, S2 in E. simpl in E. destruct (word false r) as [w' q'] eqn:E'. injection E as <- <-. by constructor.
  - constructor. constructor; [|done]. unfold tail_byte. rewrite bool_decide_false by done. by rewrite <- (separator_other c r), S by done.
Qed.

(** ** Normal forms *)

Definition ends_well (t : bytes) : Prop := exists c, last t = Some c /\ keeps_edge c = true.

Definition begins_well (t : bytes) : Prop := (exists c, head t = Some c /\ keeps_edge c = true) \/ IsNormalizedCashtag t = true.

Record is_term (t : bytes) : Prop := {
  term_lower : ToLowerCopy t = t;
  term_word : is_word t;
  term_begin : begins_well t;
  term_end : ends_well t
}.

Lemma strip_back_spec s :
  exists z, s = strip_back s ++ z /\ Forall (fun c => keeps_edge c = false) z /\ (strip_back s = [] \/ ends_well (strip_back s)).
Proof.
  induction s as [|c s IH] using rev_ind; [exists []; by auto|]. unfold strip_back. rewrite reverse_snoc, skip_while_cons.
  destruct (keeps_edge c) eqn:E; cbn [negb].
  - exists []. rewrite app_nil_r, reverse_cons, reverse_involutive. split_and!; [done|done|right]. exists c. by rewrite last_snoc.
  - fold (strip_back s). destruct IH as (z & H1 & H2 & H3). exists (z ++ [c]). split_and!; [by rewrite app_assoc, <- H1| |done].
    apply Forall_app. split; [done|by repeat constructor].
Qed.

Lemma strip_back_end s : ends_well s -> strip_back s = s.
Proof.
  intros (c & Hc & He). apply last_Some in Hc as [l ->]. unfold strip_back. rewrite reverse_snoc, skip_while_cons.
  rewrite He. cbn [negb]. by rewrite reverse_cons, reverse_involutive.
Qed.

Lemma strip_front_begin s : s = [] \/ begins_well s -> strip_front true s = s.
Proof.
  intros [->|[(c & Hc & He)|Hc]]; [done| |]; (destruct s as [|x r]; [done|]).
  - injection Hc as ->. simpl. by rewrite He.
  - cbn [strip_front]. rewrite Hc. by rewrite orb_true_r.
Qed.

Lemma NormalizeTerm_term t : is_term t -> NormalizeTerm t = t.
Proof.
  intros [T1 T2 T3 T4]. unfold NormalizeTerm. rewrite T1, strip_front_begin by by right. by apply strip_back_end.
Qed.

Lemma strip_front_plain s :
  Forall (fun c => tail_byte c = true) s -> exists a, s = a ++ strip_front true s /\ (strip_front true s = [] \/ begins_well (strip_front true s)).
Proof.
  induction 1 as [|c s Hc Hs IH]; [exists []; by auto|]. cbn [strip_front].
  pose proof (tail_not_dollar c Hc) as Hd.
  assert (IsNormalizedCashtag (c :: s) = false) as -> by (destruct s; [done|]; simpl; by rewrite bool_decide_false).
  rewrite andb_false_r, orb_false_r. destruct (keeps_edge c) eqn:E.
  - exists []. split; [done|right; left]. by exists c.
  - destruct IH as (a & Ha & Hb). exists (c :: a). split; [|done]. simpl. by rewrite <- Ha.
Qed.

Lemma lower_tail c : tail_byte c = true -> tail_byte (tolower c) = true.
Proof.
  unfold tail_byte. intros [H1 H2]%andb_true_iff. apply negb_true_iff, bool_decide_eq_false in H1. destruct (separator_tolower c H1) as [H3 H4].
  rewrite bool_decide_false by done. by rewrite H3.
Qed.

Lemma lower_word w : is_word w -> is_word (ToLowerCopy w).
Proof.
  destruct 1 as [w Hw|c w Hc Hw].
  - constructor. apply Forall_fmap. eapply Forall_impl; [exact Hw|]. intros c. apply lower_tail.
  - change (ToLowerCopy (dollar :: c :: w)) with (dollar :: tolower c :: (tolower <$> w)).
    apply word_cash; [by rewrite isalnum_tolower|]. rewrite <- fmap_cons. apply Forall_fmap. eapply Forall_impl; [exact Hw|]. intros x. apply lower_tail.
Qed.

Lemma lower_lower s : ToLowerCopy (ToLowerCopy s) = ToLowerCopy s.
Proof. unfold ToLowerCopy. rewrite <- list_fmap_compose. apply list_fmap_ext. intros _ c _. apply tolower_idemp. Qed.

Lemma lower_app_inv a b : ToLowerCopy (a ++ b) = a ++ b -> ToLowerCopy a = a /\ ToLowerCopy b = b.
Proof. unfold ToLowerCopy. rewrite fmap_app. intros H. apply app_inj_1 in H; [done|]. apply length_fmap. Qed.

Lemma NormalizeTerm_word w : is_word w -> NormalizeTerm w = [] \/ is_term (NormalizeTerm w).
Proof.
  intros Hw. unfold NormalizeTerm. apply lower_word in Hw. pose proof (lower_lower w) as Hl. revert Hw Hl. generalize (ToLowerCopy w). clear w.
  intros w Hw Hl. destruct (strip_back_spec (strip_front true w)) as (z & Hz & Hz2 & [E|He]); [by left|]. destruct Hw as [w Hw|c w Hc Hw].
  - right. destruct (strip_front_plain w Hw) as (a & Ha & Hb). set (t := strip_back (strip_front true w)) in *.
    assert (w = a ++ t ++ z) as Hw' by (by rewrite <- Hz). rewrite Hw' in Hw, Hl. apply Forall_app in Hw as [_ Hw]. apply Forall_app in Hw as [Hw _].
    apply lower_app_inv in Hl as [_ Hl]. apply lower_app_inv in Hl as [Hl _]. split; [done|by constructor| |done].
    destruct Hb as [Hb|Hb]; [rewrite Hb in Hz; destruct t; [|done]; by destruct He as (? & ? & _)|].
    rewrite Hz in Hb. destruct t as [|x t]; [by destruct He as (? & ? & _)|]. left.
    assert (x <> dollar) as Hd by (apply Forall_cons in Hw as [Hx _]; by apply tail_not_dollar). destruct Hb as [(y & Hy & Hy2)|Hb]; [exists x; split; [done|]; simpl in Hy; by injection Hy as ->|].
    exfalso. simpl in Hb. destruct (t ++ z); [done|]. by rewrite bool_decide_false in Hb.
  - rewrite strip_front_begin in * by (right; right; simpl; by rewrite Hc). right. set (t := strip_back (dollar :: c :: w)) in *.
    assert (keeps_edge c = true) as Hce by (unfold keeps_edge; by rewrite Hc).
    assert (exists w', t = dollar :: c :: w') as [w' Et].
    { destruct t as [|x [|y t]]; [by destruct He as (? & ? & _)| |injection Hz as <- <- _; by eexists].
      injection Hz as <- <-. inv Hz2. congruence. }
    rewrite Et in Hz. injection Hz as ->. change (dollar :: c :: w' ++ z) with ((dollar :: c :: w') ++ z) in Hl. apply lower_app_inv in Hl as [Hl _].
    rewrite Et in He |- *. split; [done| |right; simpl; by rewrite Hc|done]. apply word_cash; [done|]. apply (Forall_app _ (c :: w') z). done.
Qed.

Lemma term_forms t x : is_term t -> x ∈ forms t -> is_term x.
Proof.
  intros T Hx. unfold forms in Hx. apply elem_of_cons in Hx as [->|Hx]; [done|]. destruct (IsNormalizedCashtag t) eqn:E; [|by apply elem_of_nil in Hx].
  apply list_elem_of_singleton in Hx as ->. destruct T as [T1 T2 T3 T4]. destruct t as [|a [|b t]]; [done|done|]. simpl in E. apply andb_true_iff in E as [E1 E2].
  apply bool_decide_eq_true in E1 as ->. inv T2 as [? Hf|? ? Hc Hf]; [by apply Forall_cons in Hf as [?%tail_not_dollar _]|]. simpl. split.
  - by apply (lower_app_inv [dollar]) in T1 as [_ ?].
  - by constructor.
  - left. exists b. split; [done|]. unfold keeps_edge. by rewrite E2.
  - destruct T4 as (z & Hz & Hz2). exists z. split; [|done]. rewrite <- Hz. by destruct t.
Qed.

(** Every extracted term is a normal form. *)

Lemma extract_terms f n s t : t ∈ extract f n s -> is_term t.
Proof.
  revert n s. induction f as [|f IH]; intros n s; cbn [extract]; [by intros ?%elem_of_nil|].
  destruct (MaxTerms <=? n); [by intros ?%elem_of_nil|]. destruct (skip_separators s) as [|c r]; [by intros ?%elem_of_nil|].
  pose proof (word_is_word (c :: r)) as Hw. destruct (word true (c :: r)) as [w q]. simpl in Hw.
  case_bool_decide as E; [apply IH|]. rewrite elem_of_app. intros [Ht|Ht]; [|by eapply IH].
  destruct (NormalizeTerm_word w Hw) as [?|Hn]; [done|]. by eapply term_forms.
Qed.

(** ** A term is its own extraction *)

Lemma tail_word_end t : Forall (fun c => tail_byte c = true) t -> word false t = (t, []).
Proof.
  induction 1 as [|c t Hc Ht IH]; [done|]. simpl. unfold tail_byte in Hc. apply andb_true_iff in Hc as [H1 H2].
  apply negb_true_iff in H1, H2. rewrite (separator_other c t) by by apply bool_decide_eq_false in H1. by rewrite H2, H1, IH.
Qed.

Lemma word_cons first c r :
  word first (c :: r) =
  if IsTermSeparator c r then ([], c :: r)
  else if bool_decide (c = dollar) && negb first then ([], c :: r) else let (w, q) := word false r in (c :: w, q).
Proof. done. Qed.

Lemma skip_separators_stay c r : IsTermSeparator c r = false -> skip_separators (c :: r) = c :: r.
Proof. cbn [skip_separators]. by intros ->. Qed.

Lemma whole_word t : is_word t -> t <> [] -> word true t = (t, []) /\ skip_separators t = t.
Proof.
  intros Hw Hne. assert (forall c r, tail_byte c = true -> Forall (fun c => tail_byte c = true) r -> IsTermSeparator c r = false) as Hs.
  { intros c r Hc _. unfold tail_byte in Hc. apply andb_true_iff in Hc as [H1 H2]. apply negb_true_iff in H1, H2.
    rewrite separator_other; [done|by apply bool_decide_eq_false in H1]. }
  destruct Hw as [w Hw|c w Hc Hw].
  - destruct w as [|c w]; [done|]. inv Hw. rewrite word_cons, Hs, andb_false_r, tail_word_end by done. split; [done|apply skip_separators_stay; by apply Hs].
  - assert (IsTermSeparator dollar (c :: w) = false) as E by (unfold IsTermSeparator; rewrite bool_decide_true by done; by rewrite Hc).
    rewrite word_cons, E, andb_false_r, tail_word_end by done. split; [done|by apply skip_separators_stay].
Qed.

Lemma is_term_ne t : is_term t -> t <> [].
Proof. intros [_ _ _ (c & Hc & _)] ->. done. Qed.

Lemma ExtractTerms_term t : is_term t -> size t <= MaxTextSize -> ExtractTerms t = forms t.
Proof.
  intros T Hl. unfold ExtractTerms. rewrite take_ge by (unfold size in Hl; lia). pose proof (is_term_ne t T) as Hne.
  destruct (length t) as [|f] eqn:L; [by destruct t|]. cbn [extract]. destruct (whole_word t (term_word t T) Hne) as [Hw ->].
  destruct t as [|c r]; [done|]. rewrite Hw. rewrite NormalizeTerm_term by done. rewrite bool_decide_false by done.
  destruct f; cbn [extract skip_separators]; [by rewrite app_nil_r|]. change (MaxTerms <=? 0 + 1) with false. by rewrite app_nil_r.
Qed.

(** ** Lengths *)

Lemma word_length first s : (length (word first s).1 + length (word first s).2 = length s)%nat.
Proof.
  revert first. induction s as [|c r IH]; intros first; [done|]. rewrite word_cons. destruct (IsTermSeparator c r); [done|].
  destruct (_ && _); [done|]. specialize (IH false). destruct (word false r). simpl in *. lia.
Qed.

Lemma strip_front_length b s : (length (strip_front b s) <= length s)%nat.
Proof. induction s as [|c r IH]; [done|]. cbn [strip_front]. destruct (_ || _); simpl; lia. Qed.

Lemma strip_back_length s : (length (strip_back s) <= length s)%nat.
Proof. destruct (strip_back_spec s) as (z & Hz & _). rewrite Hz at 2. rewrite length_app. lia. Qed.

Lemma NormalizeTerm_length w : (length (NormalizeTerm w) <= length w)%nat.
Proof.
  unfold NormalizeTerm. etrans; [apply strip_back_length|]. etrans; [apply strip_front_length|]. unfold ToLowerCopy. by rewrite length_fmap.
Qed.

Lemma skip_separators_length s : (length (skip_separators s) <= length s)%nat.
Proof. induction s as [|c r IH]; [done|]. cbn [skip_separators]. destruct (IsTermSeparator c r); simpl; lia. Qed.

Lemma forms_length t x : x ∈ forms t -> (length x <= length t)%nat.
Proof.
  unfold forms. intros [->|Hx]%elem_of_cons; [done|]. destruct (IsNormalizedCashtag t); [|by apply elem_of_nil in Hx].
  apply list_elem_of_singleton in Hx as ->. rewrite length_drop. lia.
Qed.

Lemma extract_length f n s t : t ∈ extract f n s -> (length t <= length s)%nat.
Proof.
  revert n s. induction f as [|f IH]; intros n s; cbn [extract]; [by intros ?%elem_of_nil|].
  destruct (MaxTerms <=? n); [by intros ?%elem_of_nil|]. pose proof (skip_separators_length s) as Hs.
  destruct (skip_separators s) as [|c r]; [by intros ?%elem_of_nil|].
  pose proof (word_length true (c :: r)) as Hw. destruct (word true (c :: r)) as [w q]. cbn [fst snd] in Hw.
  case_bool_decide; [intros Ht%IH; lia|]. rewrite elem_of_app. intros [Ht%forms_length|Ht%IH]; [|lia]. pose proof (NormalizeTerm_length w). lia.
Qed.

Lemma ExtractTerms_is_term s t : t ∈ ExtractTerms s -> is_term t /\ size t <= MaxTextSize.
Proof.
  unfold ExtractTerms. intros Ht. split; [by eapply extract_terms|]. apply extract_length in Ht. rewrite length_take in Ht. unfold size.
  assert (0 <= MaxTextSize) by done. lia.
Qed.

(** More fuel than bytes changes nothing: the loop always reaches the end of the text. *)

Lemma skip_separators_head s c r : skip_separators s = c :: r -> IsTermSeparator c r = false.
Proof. induction s as [|x s IH]; [done|]. cbn [skip_separators]. destruct (IsTermSeparator x s) eqn:E; [done|]. by intros [= -> ->]. Qed.

Lemma extract_fuel f f' n s : (length s <= f)%nat -> (length s <= f')%nat -> extract f n s = extract f' n s.
Proof.
  revert f' n s. induction f as [|f IH]; intros f' n s H1 H2.
  - destruct s; [|simpl in H1; lia]. destruct f'; [done|]. cbn [extract skip_separators]. by destruct (MaxTerms <=? n).
  - destruct f' as [|f']; [destruct s; [|simpl in H2; lia]; cbn [extract skip_separators]; by destruct (MaxTerms <=? n)|].
    cbn [extract]. destruct (MaxTerms <=? n); [done|]. pose proof (skip_separators_length s) as Hs.
    destruct (skip_separators s) as [|c r] eqn:E; [done|]. pose proof (skip_separators_head s c r E) as Hc.
    pose proof (word_length true (c :: r)) as Hw. rewrite word_cons, Hc, andb_false_r in Hw |- *. destruct (word false r) as [w q].
    cbn [fst snd length] in Hw. simpl in Hs. by case_bool_decide; [|f_equal]; apply IH; lia.
Qed.

(** ** The synthetic terms of fields *)

Definition colon : ascii := ":"%char.

Lemma tail_not_colon c : tail_byte c = true -> c <> colon.
Proof. intros H ->. unfold tail_byte in H. by apply andb_true_iff in H as [_ H]. Qed.

Lemma term_no_colon t : is_term t -> colon ∉ t.
Proof.
  intros [_ [w Hw|c w _ Hw] _ _] Hin.
  - rewrite Forall_forall in Hw. by apply Hw in Hin as ?%tail_not_colon.
  - apply elem_of_cons in Hin as [?|Hin]; [done|]. rewrite Forall_forall in Hw. by apply Hw in Hin as ?%tail_not_colon.
Qed.

Lemma scoped_has_colon f t : colon ∈ BuildFieldScopedTerm f t.
Proof. unfold BuildFieldScopedTerm. rewrite !elem_of_app. right. right. left. by left. Qed.

Lemma first_split {A} (x : A) a b c d : x ∉ a -> x ∉ c -> a ++ x :: b = c ++ x :: d -> a = c /\ b = d.
Proof.
  revert c. induction a as [|y a IH]; intros [|z c] Ha Hc E; simplify_eq/=; [done|set_solver|set_solver|].
  destruct (IH c) as [-> ->]; [set_solver|set_solver|done|done].
Qed.

Lemma last_split {A} (x : A) a b c d : x ∉ b -> x ∉ d -> a ++ x :: b = c ++ x :: d -> a = c /\ b = d.
Proof.
  intros Hb Hd E. apply (f_equal reverse) in E. rewrite !reverse_app, !reverse_cons, <- !app_assoc in E. cbn [app] in E.
  apply first_split in E as [E1 E2]; [|by rewrite elem_of_reverse|by rewrite elem_of_reverse]. by split; apply (inj reverse).
Qed.

Lemma scoped_inj f t f' t' : is_term t -> is_term t' -> BuildFieldScopedTerm f t = BuildFieldScopedTerm f' t' -> f = f' /\ t = t'.
Proof. intros T T' E. apply app_inv_head in E. apply last_split in E; [done|by apply term_no_colon|by apply term_no_colon]. Qed.

(** ** Claims *)

(** Terms are stable: a term that was extracted from a text is in lower case, not empty,
    begins and ends with a letter, a digit, a wildcard or an underscore (or is a cashtag),
    and when it is given to the extraction again, alone, the result is the term itself,
    with its bare ticker if it is a cashtag. A query that is one indexed term therefore
    asks for that term. *)
Theorem extracted_terms_stable Text t : t ∈ ExtractTerms Text -> ExtractTerms t = forms t /\ ToLowerCopy t = t /\ begins_well t /\ ends_well t.
Proof. intros Ht. apply ExtractTerms_is_term in Ht as [T Hl]. split; [by apply ExtractTerms_term|]. by destruct T. Qed.

Lemma extracted_terms_stable_witness : ExtractTerms #"$spy" = forms #"$spy" /\ ToLowerCopy #"$spy" = #"$spy" /\ begins_well #"$spy" /\ ends_well #"$spy".
Proof. apply (extracted_terms_stable #"Buy $SPY now!"). vm_compute. right. left. Defined.

End LexicalTermsProps.
