(* ===== verification/LexicalIndexInv.v ===== *)
(** * In-memory index: the postings of a document and the tables of a collection

    What adding and removing a document does to the buckets, the lengths and the
    statistics of its collection. *)

From Stdlib Require Import SpecFloat.
From S2P Require Import Prelude CText MMapFormat MMapIndex DocValues LexicalTerms LexicalTermsProps LexicalIndex.
Import LexicalTerms LexicalTermsProps LexicalIndex.

Module LexicalIndexInv.

(** ** The postings of a document *)

Lemma AllTerms_is_term d t : t ∈ AllTermsList d -> is_term t.
Proof.
  unfold AllTermsList. rewrite !elem_of_app, list_elem_of_bind. intros [H|[H|[H|(f & H & _)]]]; by apply ExtractTerms_is_term in H as [? _].
Qed.

Lemma FieldTerms_is_term d f l t : FieldTermsByName d !! f = Some l -> t ∈ l -> is_term t.
Proof.
  unfold FieldTermsByName. set (m0 := <[ #"id" := _]> _).
  assert (forall l t, m0 !! f = Some l -> t ∈ l -> is_term t) as H0.
  { intros l' t' H Ht. unfold m0 in H. rewrite !lookup_insert_Some, lookup_empty in H.
    destruct H as [[_ <-]|[_ [[_ <-]|[_ [[_ <-]|[_ H]]]]]]; [| | |done]; by apply ExtractTerms_is_term in Ht as [? _]. }
  clearbody m0. revert m0 H0. induction (Fields d) as [|[k v] r IH]; intros m0 H0; simpl; [apply H0|].
  apply IH. intros l' t' H Ht. apply lookup_insert_Some in H as [[_ <-]|[_ H]]; [by apply ExtractTerms_is_term in Ht as [? _]|by eapply H0].
Qed.

Lemma plain_keys b c d : (plain_postings b c d).*1 = elements (list_to_set (AllTermsList d) : gset bytes).
Proof. unfold plain_postings. rewrite <- list_fmap_compose. apply list_fmap_id. Qed.

Lemma field_keys b c d t :
  t ∈ (field_postings b c d).*1 -> exists f l x, FieldTermsByName d !! f = Some l /\ x ∈ l /\ t = BuildFieldScopedTerm f x.
Proof.
  unfold field_postings. rewrite list_elem_of_fmap. intros ([t' p] & -> & H). apply list_elem_of_bind in H as ([f l] & H & Hf).
  apply list_elem_of_fmap in H as (x & E & Hx). injection E as -> _. apply elem_of_elements, elem_of_list_to_set in Hx.
  apply elem_of_map_to_list in Hf. by exists f, l, x.
Qed.

Lemma field_keys_nodup b c d : NoDup (field_postings b c d).*1.
Proof.
  unfold field_postings.
  assert (forall f l, (f, l) ∈ map_to_list (FieldTermsByName d) -> Forall is_term l) as Ht.
  { intros f l H%elem_of_map_to_list. apply Forall_forall. intros t. by eapply FieldTerms_is_term. }
  pose proof (NoDup_fst_map_to_list (FieldTermsByName d)) as Hn. revert Ht Hn.
  induction (map_to_list (FieldTermsByName d)) as [|[f l] r IH]; intros Ht Hn; simpl; [constructor|].
  simpl in Hn. apply NoDup_cons in Hn as [Hf Hn]. rewrite fmap_app. apply NoDup_app. split_and!.
  - rewrite <- list_fmap_compose. apply NoDup_fmap_2_strong; [|apply NoDup_elements].
    intros x y Hx Hy E. change (BuildFieldScopedTerm f x = BuildFieldScopedTerm f y) in E. apply elem_of_elements, elem_of_list_to_set in Hx, Hy.
    assert (Forall is_term l) as Hl by (eapply Ht; by left). rewrite Forall_forall in Hl.
    by apply scoped_inj in E as [_ ?]; [|apply Hl|apply Hl].
  - intros t (y & -> & Hy)%list_elem_of_fmap Hin. apply list_elem_of_fmap in Hy as (x & -> & Hx).
    apply elem_of_elements, elem_of_list_to_set in Hx. apply list_elem_of_fmap in Hin as ([t' p] & E & Hin). cbn [fst] in E. subst t'.
    apply list_elem_of_bind in Hin as ([f' l'] & Hin & Hf'). apply list_elem_of_fmap in Hin as (x' & E & Hx').
    apply (f_equal fst) in E. cbn [fst] in E.
    apply elem_of_elements, elem_of_list_to_set in Hx'.
    assert (Forall is_term l) as Hl by (eapply Ht; by left). assert (Forall is_term l') as Hl' by (eapply Ht; by right).
    rewrite Forall_forall in Hl, Hl'. apply scoped_inj in E as [<- _]; [|by apply Hl|by apply Hl'].
    apply Hf. apply list_elem_of_fmap. by exists (f, l').
  - apply IH; [|done]. intros f' l' H. eapply Ht. by right.
Qed.

Lemma document_keys_nodup b c d : NoDup (document_postings b c d).*1.
Proof.
  unfold document_postings. rewrite fmap_app. apply NoDup_app. split_and!.
  - rewrite plain_keys. apply NoDup_elements.
  - intros t Ht Hf. rewrite plain_keys in Ht. apply elem_of_elements, elem_of_list_to_set in Ht. apply AllTerms_is_term, term_no_colon in Ht.
    apply field_keys in Hf as (f & l & x & _ & _ & ->). apply Ht, scoped_has_colon.
  - apply field_keys_nodup.
Qed.

Definition posting_of (b : Boosts) (c : bytes) (d : Document) (t : bytes) : option Posting :=
  (list_to_map (document_postings b c d) : gmap bytes Posting) !! t.

Lemma posting_of_Some b c d t p : posting_of b c d t = Some p <-> (t, p) ∈ document_postings b c d.
Proof. unfold posting_of. symmetry. apply elem_of_list_to_map, document_keys_nodup. Qed.

Lemma posting_of_None b c d t : posting_of b c d t = None <-> t ∉ (document_postings b c d).*1.
Proof. unfold posting_of. symmetry. apply not_elem_of_list_to_map. Qed.

Lemma posting_id b c d t p : posting_of b c d t = Some p -> MMapIndex.DocumentID p = ID d /\ MMapIndex.Collection p = c.
Proof.
  intros H%posting_of_Some. unfold document_postings in H. apply elem_of_app in H as [H|H].
  - unfold plain_postings in H. apply list_elem_of_fmap in H as (x & E & _). by injection E as -> ->.
  - unfold field_postings in H. apply list_elem_of_bind in H as ([f l] & H & _). apply list_elem_of_fmap in H as (x & E & _). by injection E as -> ->.
Qed.

(** ** Buckets *)

Definition get (m : term_map) (t : bytes) : list Posting := default [] (m !! t).

Definition no_empty (m : term_map) : Prop := forall t, m !! t <> Some [].

Lemma push_get m x t : get (push_posting m x) t = if bool_decide (t = x.1) then get m t ++ [x.2] else get m t.
Proof.
  unfold get, push_posting. case_bool_decide as E; [subst; by rewrite lookup_insert_eq|by rewrite lookup_insert_ne].
Qed.

Lemma push_no_empty m x : no_empty m -> no_empty (push_posting m x).
Proof.
  intros Hm t. unfold push_posting. destruct (decide (t = x.1)) as [->|]; [|by rewrite lookup_insert_ne].
  rewrite lookup_insert_eq. intros [= E]. by apply app_nil in E as [_ ?].
Qed.

Lemma push_all m l t :
  NoDup l.*1 -> get (foldl push_posting m l) t = get m t ++ option_list ((list_to_map l : gmap bytes Posting) !! t).
Proof.
  revert m. induction l as [|[t0 p] l IH]; intros m Hn; simpl; [by rewrite lookup_empty, app_nil_r|].
  simpl in Hn. apply NoDup_cons in Hn as [Hnot Hn]. rewrite IH by done. rewrite push_get. simpl. case_bool_decide as E.
  - subst t0. apply not_elem_of_list_to_map_1 in Hnot. by rewrite Hnot, lookup_insert_eq, app_nil_r.
  - by rewrite lookup_insert_ne.
Qed.

Lemma push_all_no_empty m l : no_empty m -> no_empty (foldl push_posting m l).
Proof. revert m. induction l as [|x l IH]; intros m Hm; [done|]. apply IH. by apply push_no_empty. Qed.

Definition others (DocID : bytes) (l : list Posting) : list Posting :=
  List.filter (fun p => negb (bool_decide (MMapIndex.DocumentID p = DocID))) l.

Lemma others_cons d p l : others d (p :: l) = if bool_decide (MMapIndex.DocumentID p = d) then others d l else p :: others d l.
Proof. unfold others. simpl. by case_bool_decide. Qed.

Lemma remove_get DocID t0 m t : get (remove_posting DocID t0 m) t = if bool_decide (t = t0) then others DocID (get m t) else get m t.
Proof.
  unfold get, remove_posting. destruct (m !! t0) as [l|] eqn:E.
  - destruct (List.filter _ l) as [|p r] eqn:F; case_bool_decide as Et; subst.
    + rewrite lookup_delete_eq, E. simpl. by unfold others; rewrite F.
    + by rewrite lookup_delete_ne.
    + rewrite lookup_insert_eq, E. simpl. by unfold others; rewrite F.
    + by rewrite lookup_insert_ne.
  - case_bool_decide; [subst; by rewrite E|done].
Qed.

Lemma remove_no_empty DocID t0 m : no_empty m -> no_empty (remove_posting DocID t0 m).
Proof.
  intros Hm t. unfold remove_posting. destruct (m !! t0) as [l|] eqn:E; [|done]. destruct (List.filter _ l) as [|p r].
  - destruct (decide (t = t0)) as [->|]; [by rewrite lookup_delete_eq|by rewrite lookup_delete_ne].
  - destruct (decide (t = t0)) as [->|]; [by rewrite lookup_insert_eq|by rewrite lookup_insert_ne].
Qed.

Lemma others_idemp DocID l : others DocID (others DocID l) = others DocID l.
Proof. unfold others. induction l as [|p l IH]; [done|]. simpl. destruct (negb _) eqn:E; simpl; [rewrite E; by rewrite IH|done]. Qed.

Lemma remove_all DocID L m t :
  get (foldl (fun m t => remove_posting DocID t m) m L) t = if bool_decide (t ∈ L) then others DocID (get m t) else get m t.
Proof.
  revert m. induction L as [|t0 L IH]; intros m; [by rewrite bool_decide_false by (by intros ?%elem_of_nil)|]. cbn [foldl]. rewrite IH, remove_get.
  destruct (decide (t ∈ L)) as [H|H]; destruct (decide (t = t0)) as [->|E].
  - rewrite !bool_decide_true by (done || by left). apply others_idemp.
  - rewrite (bool_decide_true (t ∈ L)), (bool_decide_false (t = t0)), bool_decide_true by (done || by right). done.
  - rewrite (bool_decide_false (t0 ∈ L)), (bool_decide_true (t0 = t0)), bool_decide_true by (done || by left). done.
  - rewrite (bool_decide_false (t ∈ L)), (bool_decide_false (t = t0)), bool_decide_false by (done || set_solver). done.
Qed.

Lemma remove_all_no_empty DocID L m : no_empty m -> no_empty (foldl (fun m t => remove_posting DocID t m) m L).
Proof. revert m. induction L as [|x l IH]; intros m Hm; [done|]. apply IH. by apply remove_no_empty. Qed.

(** ** Totals *)

Definition total (m : gmap bytes Z) : Z := map_fold (fun _ l a => l + a) 0 m.

Lemma lengths_insert m k v : m !! k = None -> total (<[k := v]> m) = v + total m.
Proof. intros Hk. unfold total. rewrite map_fold_insert_L; [done|intros; lia|done]. Qed.

Lemma lengths_delete m k v : m !! k = Some v -> total m = v + total (base.delete k m).
Proof. intros Hk. rewrite <- (insert_delete_id m k v Hk) at 1. apply lengths_insert, lookup_delete_eq. Qed.

Lemma lengths_nonneg m : map_Forall (fun _ l => 0 <= l) m -> 0 <= total m.
Proof.
  induction m as [|k v m Hk IH] using map_ind; intros H; [done|]. rewrite lengths_insert by done.
  apply map_Forall_insert in H as [? ?]; [|done]. specialize (IH H0). lia.
Qed.

Lemma sum_lengths_total m : sum_lengths m = total m mod 2 ^ 64.
Proof.
  unfold sum_lengths. induction m as [|k v m Hk IH] using map_ind; [done|].
  rewrite map_fold_insert_L; [|intros; unfold u64; rewrite !Zplus_mod_idemp_l; f_equal; lia|done].
  rewrite IH, lengths_insert by done. unfold u64. rewrite Zplus_mod_idemp_l. f_equal. lia.
Qed.

(** ** One collection *)

Abbreviation docs := (gmap bytes (Boosts * Document)).

Definition doc_terms (c : bytes) (x : Boosts * Document) : gset bytes := list_to_set (document_postings x.1 c x.2).*1.

Definition doc_length (x : Boosts * Document) : Z := size (AllTermsList x.2).

Definition total_length (D : docs) : Z := total (doc_length <$> D).

Definition average (D : docs) : double :=
  if bool_decide (D = ∅) then DocValues.of_Z 1
  else DocValues.div (DocValues.of_Z (total_length D)) (DocValues.of_Z (Z.of_nat (base.size D))).

Definition postings_of (c : bytes) (D : docs) (t : bytes) : list Posting :=
  omap (fun x => posting_of x.1 c x.2 t) (map_to_list D).*2.

Record coll_ok (c : bytes) (s : InvertedIndex) (D : docs) : Prop := {
  c_bucket t : bucket c t s ≡ₚ postings_of c D t;
  c_no_empty m : Index s !! c = Some m -> no_empty m;
  c_terms : default ∅ (DocumentTerms s !! c) = doc_terms c <$> D;
  c_lengths : lengths_of c s = doc_length <$> D;
  c_total t : CollectionTotalLengths s !! c = Some t -> t = total_length D;
  c_count n : DocCounts s !! c = Some n -> n = Z.of_nat (base.size D);
  c_average a : AvgDocLengths s !! c = Some a -> a = average D;
  c_known : D <> ∅ -> is_Some (Index s !! c) /\ is_Some (CollectionTotalLengths s !! c) /\ is_Some (DocCounts s !! c) /\ is_Some (AvgDocLengths s !! c);
  c_ids : map_Forall (fun d x => ID x.2 = d) D;
  c_bound : total_length D < 2 ^ 64
}.

(** The tables of a collection. *)

Definition tables (c : bytes) (s : InvertedIndex) :=
  (Index s !! c, DocumentTerms s !! c, DocumentLengths s !! c, CollectionTotalLengths s !! c, DocCounts s !! c, AvgDocLengths s !! c).

Lemma coll_ok_tables c s s' D : tables c s' = tables c s -> coll_ok c s D -> coll_ok c s' D.
Proof.
  unfold tables. intros [= E1 E2 E3 E4 E5 E6] [H1 H2 H3 H4 H5 H6 H7 H8 H9 H10]. split; unfold bucket, lengths_of; rewrite ?E1, ?E2, ?E3, ?E4, ?E5, ?E6; done.
Qed.

Lemma coll_ok_empty c s : tables c s = (None, None, None, None, None, None) -> coll_ok c s ∅.
Proof.
  unfold tables. intros [= E1 E2 E3 E4 E5 E6]. split; unfold bucket, lengths_of, postings_of, total_length; rewrite ?E1, ?E2, ?E3, ?E4, ?E5, ?E6; try done.
  all: by rewrite ?map_to_list_empty, ?fmap_empty.
Qed.

Lemma total_length_nonneg D : 0 <= total_length D.
Proof. apply lengths_nonneg. intros k l. rewrite lookup_fmap. intros (x & _ & ->)%fmap_Some. unfold doc_length, size. lia. Qed.

(** The document that is removed has the only postings of its identifier. *)

#[export] Instance others_perm d : Proper (Permutation ==> Permutation) (others d).
Proof.
  intros l l' H. unfold others. induction H as [|x l l' _ IH|x y l|l1 l2 l3 _ IH1 _ IH2]; simpl.
  - done.
  - destruct (negb _); [by apply perm_skip|done].
  - destruct (negb _), (negb _); (apply perm_swap || done).
  - by etrans.
Qed.

Lemma others_none c d t (l : list (Boosts * Document)) :
  Forall (fun x => ID x.2 <> d) l ->
  others d (omap (fun x => posting_of x.1 c x.2 t) l) = omap (fun x => posting_of x.1 c x.2 t) l.
Proof.
  induction 1 as [|x l Hd Hl IH]; [done|]. cbn [omap list_omap]. destruct (posting_of x.1 c x.2 t) as [p|] eqn:E; [|done].
  apply posting_id in E as [E _]. rewrite others_cons, bool_decide_false by congruence. by f_equal.
Qed.

Lemma postings_insert c D d x t : D !! d = None -> postings_of c (<[d := x]> D) t ≡ₚ option_list (posting_of x.1 c x.2 t) ++ postings_of c D t.
Proof.
  intros H. unfold postings_of. rewrite map_to_list_insert by done. simpl. by destruct (posting_of x.1 c x.2 t).
Qed.

Lemma postings_delete c D t d :
  map_Forall (fun d x => ID x.2 = d) D -> others d (postings_of c D t) ≡ₚ postings_of c (base.delete d D) t.
Proof.
  intros Hids. assert (others d (postings_of c (base.delete d D) t) = postings_of c (base.delete d D) t) as E0.
  { apply others_none, Forall_fmap, Forall_forall. intros [k x] [Hne Hk]%elem_of_map_to_list%lookup_delete_Some. simpl. by rewrite (Hids k x Hk). }
  destruct (D !! d) as [x|] eqn:E; [|rewrite delete_id in E0 by done; rewrite delete_id by done; by rewrite E0]. rewrite <- (insert_delete_id D d x E) at 1.
  rewrite postings_insert by apply lookup_delete_eq. destruct (posting_of x.1 c x.2 t) as [p|] eqn:Ep;
    [change (option_list (Some p) ++ ?l) with (p :: l)|change (option_list None ++ ?l) with l; by rewrite E0].
  apply posting_id in Ep as [Ep _]. rewrite (Hids d x E) in Ep. rewrite others_cons, bool_decide_true by done. by rewrite E0.
Qed.

(** A term that the document does not have is not affected. *)

Lemma postings_delete_other c D t d x : D !! d = Some x -> t ∉ doc_terms c x -> postings_of c D t ≡ₚ postings_of c (base.delete d D) t.
Proof.
  intros E Ht. rewrite <- (insert_delete_id D d x E) at 1. rewrite postings_insert by apply lookup_delete_eq.
  assert (posting_of x.1 c x.2 t = None) as ->; [|done]. apply posting_of_None. intros Hin. apply Ht. unfold doc_terms. by apply elem_of_list_to_set.
Qed.

(** ** Statistics *)

Lemma set_totals_same c t s : CollectionTotalLengths s !! c = Some t -> set_totals (<[c := t]> (CollectionTotalLengths s)) s = s.
Proof. intros H. rewrite insert_id by done. by destruct s. Qed.

Lemma ensure_eq c s D :
  lengths_of c s = doc_length <$> D -> (forall t, CollectionTotalLengths s !! c = Some t -> t = total_length D) -> total_length D < 2 ^ 64 ->
  EnsureCollectionTotalLengthLocked c s = (set_totals (<[c := total_length D]> (CollectionTotalLengths s)) s, total_length D).
Proof.
  intros Hl Ht Hb. unfold EnsureCollectionTotalLengthLocked. destruct (CollectionTotalLengths s !! c) as [t|] eqn:E.
  - rewrite <- (Ht t eq_refl). by rewrite set_totals_same.
  - rewrite Hl, sum_lengths_total. fold (total_length D). rewrite Z.mod_small; [done|]. split; [apply total_length_nonneg|done].
Qed.

Definition refreshed (c : bytes) (D : docs) (s : InvertedIndex) : InvertedIndex :=
  set_totals (<[c := total_length D]> (CollectionTotalLengths s))
    (set_stats (<[c := Z.of_nat (base.size D)]> (DocCounts s)) (<[c := average D]> (AvgDocLengths s)) s).

Lemma refresh_eq c s D :
  lengths_of c s = doc_length <$> D -> CollectionTotalLengths s !! c = Some (total_length D) ->
  RefreshCollectionStatsFromTotalLocked c s = refreshed c D s.
Proof.
  intros Hl Ht. unfold RefreshCollectionStatsFromTotalLocked. rewrite Hl, map_size_fmap. unfold refreshed, average.
  destruct (decide (D = ∅)) as [->|Hne].
  - rewrite map_size_empty, bool_decide_true by done. done.
  - assert (Z.of_nat (base.size D) =? 0 = false) as ->.
    { apply Z.eqb_neq. intros E. apply Hne, map_size_empty_iff. lia. }
    rewrite bool_decide_false by done. unfold EnsureCollectionTotalLengthLocked. rewrite Ht.
    rewrite (insert_id (CollectionTotalLengths s)) by done. by destruct s.
Qed.

Lemma put_table_get {A} (c : bytes) (m : gmap bytes A) (t : gmap bytes (gmap bytes A)) : default ∅ (put_table c m t !! c) = m.
Proof. unfold put_table. case_bool_decide as E; [subst; by rewrite lookup_delete_eq|by rewrite lookup_insert_eq]. Qed.

Lemma put_table_ne {A} (c c' : bytes) (m : gmap bytes A) (t : gmap bytes (gmap bytes A)) : c' <> c -> put_table c m t !! c' = t !! c'.
Proof. intros. unfold put_table. case_bool_decide; [by rewrite lookup_delete_ne|by rewrite lookup_insert_ne]. Qed.

Lemma total_length_delete D d x : D !! d = Some x -> total_length D = doc_length x + total_length (base.delete d D).
Proof. intros H. unfold total_length. rewrite fmap_delete. apply lengths_delete. by rewrite lookup_fmap, H. Qed.

Lemma total_length_insert D d x : D !! d = None -> total_length (<[d := x]> D) = doc_length x + total_length D.
Proof. intros H. unfold total_length. rewrite fmap_insert. apply lengths_insert. by rewrite lookup_fmap, H. Qed.

Lemma doc_length_nonneg x : 0 <= doc_length x.
Proof. unfold doc_length, size. lia. Qed.

(** ** Removing *)

Lemma set_totals_other c c' t s : c' <> c -> tables c' (set_totals (<[c := t]> (CollectionTotalLengths s)) s) = tables c' s.
Proof. intros. unfold tables. simpl. by rewrite lookup_insert_ne. Qed.

Lemma ensure_other c c' s s' t : c' <> c -> EnsureCollectionTotalLengthLocked c s = (s', t) -> tables c' s' = tables c' s.
Proof.
  intros Hc. unfold EnsureCollectionTotalLengthLocked. destruct (CollectionTotalLengths s !! c); intros [= <- <-]; [done|by apply set_totals_other].
Qed.

Lemma refresh_other c c' s : c' <> c -> tables c' (RefreshCollectionStatsFromTotalLocked c s) = tables c' s.
Proof.
  intros Hc. unfold RefreshCollectionStatsFromTotalLocked. destruct (_ =? 0).
  - unfold tables. simpl. by rewrite !lookup_insert_ne by done.
  - destruct (EnsureCollectionTotalLengthLocked c s) as [s1 t] eqn:E. apply (ensure_other c c') in E; [|done]. rewrite <- E.
    unfold tables. simpl. by rewrite !lookup_insert_ne by done.
Qed.

Lemma remove_other c c' d s : c' <> c -> tables c' (RemoveDocumentFromIndex c d s) = tables c' s.
Proof.
  intros Hc. unfold RemoveDocumentFromIndex. destruct (Index s !! c); [|done]. destruct (DocumentTerms s !! c); [|done].
  destruct (_ !! d); [|done]. rewrite refresh_other by done. set (s1 := set_Index _ s). set (s2 := set_documents _ _ s1).
  assert (tables c' s2 = tables c' s) as E2 by (unfold tables, s2; simpl; by rewrite lookup_insert_ne, put_table_ne by done).
  destruct (DocumentLengths s2 !! c) as [L|]; [|done].
  assert (forall s3, tables c' s3 = tables c' s2 -> tables c' (set_documents (DocumentTerms s3) (put_table c (base.delete d L) (DocumentLengths s3)) s3) = tables c' s2) as E3.
  { intros s3 <-. unfold tables. simpl. by rewrite put_table_ne. }
  rewrite <- E2. apply E3. destruct (L !! d) as [r|]; [|done]. destruct (EnsureCollectionTotalLengthLocked c s2) as [s4 t] eqn:E.
  apply (ensure_other c c') in E; [|done]. rewrite <- E. by apply set_totals_other.
Qed.

Lemma remove_ok c d s D : coll_ok c s D -> coll_ok c (RemoveDocumentFromIndex c d s) (base.delete d D).
Proof.
  intros C. pose proof C as [C1 C2 C3 C4 C5 C6 C7 C8 C9 C10]. destruct (D !! d) as [x|] eqn:Ex.
  2: { rewrite delete_id by done. replace (RemoveDocumentFromIndex c d s) with s; [done|]. unfold RemoveDocumentFromIndex.
       destruct (Index s !! c); [|done]. destruct (DocumentTerms s !! c) as [dt|] eqn:E; [|done]. simpl in C3. rewrite C3, lookup_fmap, Ex. done. }
  assert (D <> ∅) as Hne by (intros ->; by rewrite lookup_empty in Ex). destruct (C8 Hne) as ([m Hm] & [tot Ht] & _ & _).
  pose proof (C5 tot Ht) as ->. set (D' := base.delete d D). pose proof (total_length_delete D d x Ex) as Htot. fold D' in Htot.
  unfold RemoveDocumentFromIndex. rewrite Hm. destruct (DocumentTerms s !! c) as [dt|] eqn:Edt.
  2: { simpl in C3. apply (f_equal (lookup d)) in C3. by rewrite lookup_empty, lookup_fmap, Ex in C3. }
  simpl in C3. subst dt. rewrite lookup_fmap, Ex. cbn [fmap option_fmap option_map].
  unfold lengths_of in C4. destruct (DocumentLengths s !! c) as [dl|] eqn:Edl.
  2: { simpl in C4. apply (f_equal (lookup d)) in C4. by rewrite lookup_empty, lookup_fmap, Ex in C4. }
  simpl in C4. subst dl. set (s1 := set_Index _ s). set (s2 := set_documents _ _ s1).
  change (DocumentLengths s2) with (DocumentLengths s). rewrite Edl, lookup_fmap, Ex. cbn [fmap option_fmap option_map].
  rewrite (ensure_eq c s2 D); [|unfold lengths_of; simpl; by rewrite Edl|intros t Hts; by apply C5|done]. cbv beta iota.
  assert ((if doc_length x <? total_length D then total_length D - doc_length x else 0) = total_length D') as ->.
  { pose proof (total_length_nonneg D'). pose proof (doc_length_nonneg x). destruct (doc_length x <? total_length D) eqn:E; lia. }
  set (s3 := set_documents _ _ _). rewrite (refresh_eq c s3 D').
  2: { unfold lengths_of, s3. simpl. rewrite put_table_get. unfold D'. by rewrite fmap_delete. }
  2: { unfold s3. simpl. by rewrite lookup_insert_eq. }
  split; unfold refreshed, s3; simpl.
  - intros t. unfold bucket. simpl. rewrite lookup_insert_eq. cbn [mbind option_bind].
    change (default [] (?a !! t)) with (get a t). rewrite remove_all. specialize (C1 t). unfold bucket in C1. rewrite Hm in C1. simpl in C1.
    fold (get m t) in C1. case_bool_decide as Hin.
    + rewrite C1. by apply postings_delete.
    + rewrite C1. eapply postings_delete_other; [done|]. intros Hd. apply Hin. by apply elem_of_elements.
  - intros m'. rewrite lookup_insert_eq. intros [= <-]. apply remove_all_no_empty. by apply C2.
  - rewrite put_table_get. unfold D'. by rewrite fmap_delete.
  - unfold lengths_of. simpl. rewrite put_table_get. unfold D'. by rewrite fmap_delete.
  - intros t. rewrite lookup_insert_eq. by intros [= <-].
  - intros n. rewrite lookup_insert_eq. by intros [= <-].
  - intros a. rewrite lookup_insert_eq. by intros [= <-].
  - intros _. by rewrite !lookup_insert_eq.
  - by apply map_Forall_delete.
  - pose proof (doc_length_nonneg x). lia.
Qed.

(** ** Adding *)

Lemma index_other env c c' d s : c' <> c -> tables c' (index_document env c d s) = tables c' s.
Proof.
  intros Hc. unfold index_document. set (s1 := set_Index _ s). set (s2 := set_documents _ _ s1).
  assert (tables c' s2 = tables c' s) as E2 by (unfold tables, s2; simpl; by rewrite !lookup_insert_ne by done).
  destruct (EnsureCollectionTotalLengthLocked c s2) as [s3 t] eqn:E. apply (ensure_other c c') in E; [|done].
  change (tables c' (MarkCollectionDirtyLocked env c ?x)) with (tables c' x). rewrite refresh_other by done.
  rewrite set_totals_other by done. rewrite <- E2, <- E. unfold tables. simpl. by rewrite lookup_insert_ne.
Qed.

Lemma index_ok env c d s D :
  coll_ok c s D -> D !! ID d = None -> size (AllTermsList d) + total_length D < 2 ^ 64 ->
  coll_ok c (index_document env c d s) (<[ID d := (Ranking env, d)]> D).
Proof.
  intros [C1 C2 C3 C4 C5 C6 C7 C8 C9 C10] Hd Hb. set (x := (Ranking env, d)). set (D' := <[ID d := x]> D).
  pose proof (total_length_insert D (ID d) x Hd) as Htot. fold D' in Htot. change (doc_length x) with (size (AllTermsList d)) in Htot.
  unfold index_document. set (s1 := set_Index _ s). set (s2 := set_documents _ _ s1).
  rewrite (ensure_eq c s2 D); [|done|done|done]. cbv beta iota. set (s3 := set_totals _ s2). set (s4 := set_documents _ _ s3).
  assert (u64 (total_length D + size (AllTermsList d)) = total_length D') as ->.
  { unfold u64. rewrite Z.mod_small; [lia|]. pose proof (total_length_nonneg D). unfold size in *. lia. }
  set (s5 := set_totals _ s4). rewrite (refresh_eq c s5 D').
  2: { unfold lengths_of, s5, s4. simpl. rewrite lookup_insert_eq. simpl. unfold D'. rewrite fmap_insert. f_equal. exact C4. }
  2: { unfold s5. simpl. by rewrite lookup_insert_eq. }
  split; unfold refreshed, s5, s4; simpl.
  - intros t. unfold bucket. simpl. rewrite lookup_insert_eq. cbn [mbind option_bind].
    change (default [] (?a !! t)) with (get a t). rewrite push_all by apply document_keys_nodup. unfold D'. rewrite postings_insert by done.
    rewrite Permutation_app_comm. apply Permutation_app; [done|]. rewrite <- C1. unfold bucket, get. by destruct (Index s !! c).
  - intros m. rewrite lookup_insert_eq. intros [= <-]. apply push_all_no_empty. destruct (Index s !! c) as [m|] eqn:E; [by apply C2|].
    intros t. simpl. by rewrite lookup_empty.
  - rewrite lookup_insert_eq. simpl. unfold D'. rewrite fmap_insert. f_equal. exact C3.
  - unfold lengths_of. simpl. rewrite lookup_insert_eq. simpl. unfold D'. rewrite fmap_insert. f_equal. exact C4.
  - intros t. rewrite lookup_insert_eq. by intros [= <-].
  - intros n. rewrite lookup_insert_eq. by intros [= <-].
  - intros a. rewrite lookup_insert_eq. by intros [= <-].
  - intros _. by rewrite !lookup_insert_eq.
  - by apply map_Forall_insert_2.
  - lia.
Qed.

End LexicalIndexInv.
