(* ===== verification/LexicalIndexProps.v ===== *)
(** * In-memory index: it holds the documents it was given

    The tables are a function of the documents that were added and not removed;
    frequencies and statistics are those of the documents; only clean collections are
    evicted, clean collections are on disk, and what a restart loads was written whole. *)

From Stdlib Require Import SpecFloat.
From S2P Require Import Prelude CText MMapFormat MMapIndex MMapIndexProps DocValues LexicalTerms LexicalTermsProps LexicalIndex LexicalIndexInv.
Import LexicalTerms LexicalTermsProps LexicalIndex LexicalIndexInv.

Module LexicalIndexProps.

(** ** Calls *)

Inductive call :=
| CallAdd (c : bytes) (d : Document)
| CallDelete (c DocID : bytes)
| CallUpdate (c : bytes) (OldDoc NewDoc : Document)
| CallDeleteCollection (c : bytes)
| CallClear
| CallStatistics (c : bytes)
| CallSnapshots (MinDirtyAgeSeconds : Z) (MaxCollections : nat)
| CallFlushItem
| CallFlushCollection (c : bytes)
| CallEvict (MaxBytes : Z)
| CallLoad
| CallRestart.

Definition exec (env : Env) (o : call) (s : InvertedIndex) : InvertedIndex * bool * list bytes :=
  match o with
  | CallAdd c d => AddDocument env c d s
  | CallDelete c i => DeleteDocument env c i s
  | CallUpdate c d d' => UpdateDocument env c d d' s
  | CallDeleteCollection c => (DeleteCollection c s, true, [])
  | CallClear => (Clear s, true, [])
  | CallStatistics c => (UpdateCollectionStatistics c s, true, [])
  | CallSnapshots a n => (TakeSnapshots env a n s, true, [])
  | CallFlushItem => (FlushItem env s, [])
  | CallFlushCollection c => (FlushCollectionToDiskLocked env c s, [])
  | CallEvict n => let (s, e) := EvictLoadedCollectionsLocked env n s in (s, true, e)
  | CallLoad => let (s, e) := LoadFromDisk env s in (s, true, e)
  | CallRestart => (new_process s, true, [])
  end.

#[local] Strategy expand [exec].

(** The documents that the calls leave in memory: an addition that is refused changes
    nothing, an evicted collection has none. *)

Definition world : Type := bytes -> docs.

Definition with_docs (c : bytes) (f : docs -> docs) (D : world) : world := fun c' => if bool_decide (c' = c) then f (D c') else D c'.

Definition replay (env : Env) (o : call) (ok : bool) (D : world) : world :=
  match o with
  | CallAdd c d => if ok then with_docs c (<[ID d := (Ranking env, d)]>) D else D
  | CallDelete c i => with_docs c (base.delete i) D
  | CallUpdate c d d' => with_docs c (fun m => <[ID d' := (Ranking env, d')]> (base.delete (ID d) m)) D
  | CallDeleteCollection c => with_docs c (fun _ => ∅) D
  | CallClear | CallRestart => fun _ => ∅
  | _ => D
  end.

Definition without (evicted : list bytes) (D : world) : world := fun c => if bool_decide (c ∈ evicted) then ∅ else D c.

Fixpoint run (l : list (Env * call)) (s : InvertedIndex) (D : world) : InvertedIndex * world :=
  match l with
  | [] => (s, D)
  | (env, o) :: r => let '(s', ok, evicted) := exec env o s in run r s' (without evicted (replay env o ok D))
  end.

(** The lengths that the calls add to the totals, and the calls that replace a document by one
    with the same identifier. *)

Definition added_length (o : call) : Z :=
  match o with CallAdd _ d | CallUpdate _ _ d => size (AllTermsList d) | _ => 0 end.

Definition added_lengths (l : list (Env * call)) : Z := foldr (fun x n => added_length x.2 + n) 0 l.

Definition same_id (o : call) : Prop := match o with CallUpdate _ d d' => ID d' = ID d | _ => True end.

(** ** Tables that do not change *)

Definition all_ok (s : InvertedIndex) (D : world) (n : Z) : Prop := forall c, coll_ok c s (D c) /\ total_length (D c) <= n.

Lemma all_ok_tables s s' D n : (forall c, tables c s' = tables c s) -> all_ok s D n -> all_ok s' D n.
Proof. intros H A c. destruct (A c). split; [eapply coll_ok_tables; [apply H|done]|done]. Qed.

Lemma all_ok_at s s' D f c n n' :
  (forall c', c' <> c -> tables c' s' = tables c' s) -> all_ok s D n -> n <= n' -> coll_ok c s' (f (D c)) -> total_length (f (D c)) <= n' ->
  all_ok s' (with_docs c f D) n'.
Proof.
  intros H A Hn C L c'. unfold with_docs. case_bool_decide as E; [subst c'; by split|]. destruct (A c'). split; [eapply coll_ok_tables; [by apply H|done]|lia].
Qed.

Lemma touch_tables env c c' s : tables c' (TouchCollectionLocked env c s) = tables c' s.
Proof. unfold TouchCollectionLocked. by case_bool_decide. Qed.

Lemma erase_tables_spec c c' s : tables c' (erase_tables c s) = if bool_decide (c' = c) then (None, None, None, None, None, None) else tables c' s.
Proof.
  unfold tables, erase_tables. simpl. case_bool_decide as E; [subst; by rewrite !lookup_delete_eq|by rewrite !lookup_delete_ne by done].
Qed.

(** ** Eviction *)

Record evicted_from (s s' : InvertedIndex) (e : list bytes) : Prop := {
  e_tables c : tables c s' = if bool_decide (c ∈ e) then (None, None, None, None, None, None) else tables c s;
  e_mutation c : CollectionLastMutation s' !! c = if bool_decide (c ∈ e) then None else CollectionLastMutation s !! c;
  e_mapped c : MMapIndexes s' !! c = if bool_decide (c ∈ e) then None else MMapIndexes s !! c;
  e_dirty : DirtyCollections s' = DirtyCollections s;
  e_dir : IndexDir s' = IndexDir s;
  e_pending : FlushPending s' = FlushPending s;
  e_work : WorkItems s' = WorkItems s
}.

Lemma evicted_none s : evicted_from s s [].
Proof. split; try done; intros c; by rewrite bool_decide_false by by intros ?%elem_of_nil. Qed.

Lemma decide_cons (c' c : bytes) e : bool_decide (c' ∈ c :: e) = bool_decide (c' = c) || bool_decide (c' ∈ e).
Proof. rewrite (bool_decide_ext _ (c' = c \/ c' ∈ e)) by apply elem_of_cons. apply bool_decide_or. Qed.

Lemma evicted_cons c s s' e : evicted_from (erase_tables c s) s' e -> evicted_from s s' (c :: e).
Proof.
  intros [I1 I2 I2' I3 I4 I5 I6]. split; try done; intros c'; rewrite decide_cons.
  - rewrite I1, erase_tables_spec. by destruct (bool_decide (c' ∈ e)), (bool_decide (c' = c)).
  - rewrite I2. simpl. destruct (bool_decide (c' ∈ e)); [by destruct (bool_decide (c' = c))|].
    case_bool_decide as E; [subst; by rewrite lookup_delete_eq|by rewrite lookup_delete_ne].
  - rewrite I2'. simpl. destruct (bool_decide (c' ∈ e)); [by destruct (bool_decide (c' = c))|].
    case_bool_decide as E; [subst; by rewrite lookup_delete_eq|by rewrite lookup_delete_ne].
Qed.

Lemma evict_spec t b l s s' e : evict t b l s = (s', e) -> (forall c, c ∈ e -> c ∈ (l.*1).*2) /\ evicted_from s s' e.
Proof.
  revert b s s' e. induction l as [|[[a c] n] r IH]; intros b s s' e; cbn [evict].
  - intros [= <- <-]. split; [by intros ? ?%elem_of_nil|apply evicted_none].
  - destruct (b <=? t); [intros [= <- <-]; split; [by intros ? ?%elem_of_nil|apply evicted_none]|].
    destruct (evict t _ r (erase_tables c s)) as [s1 e1] eqn:E. apply IH in E as (I1 & I2). intros [= <- <-].
    split; [|by apply evicted_cons]. intros c' [->|H]%elem_of_cons; [by left|right; by apply I1].
Qed.

Lemma candidates_clean env s x : x ∈ candidates env s -> x.1.2 ∉ DirtyCollections s /\ x.1.2 ∈ loaded_collections s.
Proof.
  unfold candidates. rewrite (merge_sort_Permutation older), list_elem_of_omap. intros (c & Hc & E).
  destruct (_ || _) eqn:B; [done|]. injection E as <-. apply orb_false_iff in B as [B _]. apply bool_decide_eq_false in B.
  split; [done|]. by apply elem_of_elements.
Qed.

(** A memory limit only evicts collections that are clean. *)

Lemma evict_locked_spec env t s s' e :
  EvictLoadedCollectionsLocked env t s = (s', e) ->
  (forall c, c ∈ e -> c ∉ DirtyCollections s /\ c ∈ loaded_collections s) /\ evicted_from s s' e.
Proof.
  unfold EvictLoadedCollectionsLocked. destruct (t =? 0); [|destruct (_ <=? t)].
  1,2: intros [= <- <-]; split; [by intros ? ?%elem_of_nil|apply evicted_none].
  intros E. apply evict_spec in E as (I1 & I2). split; [|done].
  intros c Hc. apply I1 in Hc. apply list_elem_of_fmap in Hc as (y & -> & Hy). apply list_elem_of_fmap in Hy as (x & -> & Hx).
  by apply candidates_clean in Hx.
Qed.

Lemma evict_ok env t s s' e D n : EvictLoadedCollectionsLocked env t s = (s', e) -> all_ok s D n -> 0 <= n -> all_ok s' (without e D) n.
Proof.
  intros E A Hn c. apply evict_locked_spec in E as (_ & [T _ _ _ _ _ _]). specialize (T c). unfold without. case_bool_decide.
  - split; [by apply coll_ok_empty|done].
  - destruct (A c). split; [by eapply coll_ok_tables|done].
Qed.

(** ** Every call keeps the tables right *)

Lemma without_nil D c : without [] D c = D c.
Proof. unfold without. by rewrite bool_decide_false by by intros ?%elem_of_nil. Qed.

Lemma all_ok_nil s D n : all_ok s D n -> all_ok s (without [] D) n.
Proof. intros A c. rewrite without_nil. apply A. Qed.

Lemma all_ok_mono s D n n' : all_ok s D n -> n <= n' -> all_ok s D n'.
Proof. intros A H c. destruct (A c). split; [done|lia]. Qed.

Lemma all_ok_none s n : (forall c, tables c s = (None, None, None, None, None, None)) -> 0 <= n -> all_ok s (fun _ => ∅) n.
Proof. intros H Hn c. split; [by apply coll_ok_empty|done]. Qed.

Lemma total_length_delete_le D d : total_length (base.delete d D) <= total_length D.
Proof.
  destruct (D !! d) as [x|] eqn:E; [|by rewrite delete_id]. rewrite (total_length_delete D d x E). pose proof (doc_length_nonneg x). lia.
Qed.

Lemma remove_all_ok c d s D n : all_ok s D n -> all_ok (RemoveDocumentFromIndex c d s) (with_docs c (base.delete d) D) n.
Proof.
  intros A. destruct (A c) as [C L]. eapply all_ok_at; [|done|done|by apply remove_ok|].
  - intros c' Hc. by apply remove_other.
  - pose proof (total_length_delete_le (D c) d). lia.
Qed.

Lemma put_all_ok env c d s D n :
  all_ok s D n -> n + size (AllTermsList d) < 2 ^ 64 ->
  all_ok (index_document env c d (RemoveDocumentFromIndex c (ID d) s)) (with_docs c (<[ID d := (Ranking env, d)]>) D) (n + size (AllTermsList d)).
Proof.
  intros A Hb. pose proof (remove_all_ok c (ID d) s D n A) as A'. destruct (A' c) as [C L]. unfold with_docs in C, L. rewrite bool_decide_true in C, L by done.
  assert (0 <= size (AllTermsList d)) as Hs by (unfold size; lia).
  pose proof (total_length_insert (base.delete (ID d) (D c)) (ID d) (Ranking env, d) (lookup_delete_eq _ _)) as T.
  change (doc_length (Ranking env, d)) with (size (AllTermsList d)) in T. rewrite insert_delete_eq in T.
  eapply all_ok_at; [|done|lia| |lia].
  - intros c' Hc. rewrite index_other by done. by apply remove_other.
  - rewrite <- (insert_delete_eq (D c)). apply index_ok; [done|apply lookup_delete_eq|lia].
Qed.

Lemma write_files_tables env c m s s' ok c' : write_files env c m s = (s', ok) -> tables c' s' = tables c' s.
Proof.
  unfold write_files. destruct (written env c m) as [f|]; [|by intros [= <- <-]].
  destruct (MMapIndex.LoadIndex f) as [ix|]; [destruct (MMapIndex.Valid ix)|]; by intros [= <- <-].
Qed.

Lemma finish_tables env b c s c' : tables c' (finish env b c s) = tables c' s.
Proof. unfold finish. by destruct b. Qed.

Lemma flush_item_tables env s s' ok c' : FlushItem env s = (s', ok) -> tables c' s' = tables c' s.
Proof.
  unfold FlushItem. destruct (WorkItems s) as [|i r]; [by intros [= <- <-]|].
  destruct (write_files _ _ _ _) as [s1 b] eqn:E. apply (write_files_tables _ _ _ _ _ _ c') in E. destruct b; cbn [negb]; intros [= <- <-]; [|done].
  by rewrite finish_tables.
Qed.

Lemma flush_collection_tables env c s s' ok c' : FlushCollectionToDiskLocked env c s = (s', ok) -> tables c' s' = tables c' s.
Proof.
  unfold FlushCollectionToDiskLocked. destruct (resident c s) as [m|]; [|by intros [= <- <-]]. destruct (partial_delta c s); [by intros [= <- <-]|].
  destruct (write_files _ _ _ _) as [s1 b] eqn:E. apply (write_files_tables _ _ _ _ _ _ c') in E. destruct b; cbn [negb]; intros [= <- <-]; [|done].
  by rewrite finish_tables.
Qed.

Lemma repairs_tables env l s c' : tables c' (foldl (repair env) s l) = tables c' s.
Proof. revert s. induction l as [|c l IH]; intros s; [done|]. cbn [foldl]. rewrite IH. unfold repair. by destruct (_ && _). Qed.

Lemma load_tables env l s c' : tables c' (foldl (load_directory env) s l) = tables c' s.
Proof.
  revert s. induction l as [|x l IH]; intros s; [done|]. cbn [foldl]. rewrite IH. unfold load_directory. case_bool_decide; [by destruct (Writable env x.1)|].
  destruct (MMapIndex.LoadIndex x.2) as [ix|]; [|done]. by destruct (MMapIndex.Valid ix).
Qed.

Lemma stats_other c c' s : c' <> c -> tables c' (UpdateCollectionStatistics c s) = tables c' s.
Proof.
  intros Hc. unfold UpdateCollectionStatistics. case_bool_decide; [unfold tables; simpl; by rewrite !lookup_insert_ne by done|].
  set (s1 := set_totals _ s). destruct (EnsureCollectionTotalLengthLocked c s1) as [s2 t] eqn:E. cbn [fst].
  rewrite refresh_other by done. rewrite (ensure_other _ _ _ _ _ Hc E). unfold s1, tables. simpl. by rewrite lookup_delete_ne.
Qed.

Lemma coll_ok_refreshed c s D : coll_ok c s D -> coll_ok c (refreshed c D s) D.
Proof.
  intros [C1 C2 C3 C4 C5 C6 C7 C8 C9 C10]. split; unfold refreshed; simpl; try done.
  - intros t. rewrite lookup_insert_eq. by intros [= <-].
  - intros t. rewrite lookup_insert_eq. by intros [= <-].
  - intros t. rewrite lookup_insert_eq. by intros [= <-].
  - intros H. rewrite !lookup_insert_eq. by destruct (C8 H).
Qed.

Lemma stats_ok c s D : coll_ok c s D -> coll_ok c (UpdateCollectionStatistics c s) D.
Proof.
  intros C. pose proof C as [C1 C2 C3 C4 C5 C6 C7 C8 C9 C10]. unfold UpdateCollectionStatistics. rewrite C4. case_bool_decide as E.
  - apply fmap_empty_inv in E. subst D. apply coll_ok_refreshed in C. exact C.
  - set (s1 := set_totals _ s). rewrite (ensure_eq c s1 D); [|done|unfold s1; simpl; intros t; by rewrite lookup_delete_eq|done]. cbn [fst].
    rewrite (refresh_eq c _ D); [|done|simpl; by rewrite lookup_insert_eq].
    eapply coll_ok_tables; [|by apply coll_ok_refreshed]. unfold tables, refreshed. simpl. by rewrite !lookup_insert_eq.
Qed.

Lemma same_tables_ok s s' D n : (forall c, tables c s' = tables c s) -> all_ok s D n -> all_ok s' (without [] D) (n + 0).
Proof. intros H A. rewrite Z.add_0_r. by eapply all_ok_nil, all_ok_tables. Qed.

Lemma load_all_ok env s s' e D n : LoadFromDisk env s = (s', e) -> all_ok s D n -> 0 <= n -> all_ok s' (without e D) n.
Proof.
  unfold LoadFromDisk. intros E A Hn. set (s1 := foldl (repair env) s _) in E.
  assert (all_ok s1 D n) as A1 by (eapply all_ok_tables; [intros c; apply repairs_tables|done]). destruct (_ && _).
  - injection E as <- <-. by apply all_ok_nil.
  - eapply evict_ok; [done| |done]. eapply all_ok_tables; [intros c; apply load_tables|done].
Qed.

Lemma update_all_ok env c d d' s D n :
  ID d' = ID d -> all_ok s D n -> n + size (AllTermsList d') < 2 ^ 64 ->
  all_ok (index_document env c d' (RemoveDocumentFromIndex c (ID d) s))
    (with_docs c (fun m => <[ID d' := (Ranking env, d')]> (base.delete (ID d) m)) D) (n + size (AllTermsList d')).
Proof.
  intros E A Hb. rewrite <- E. pose proof (put_all_ok env c d' s D n A Hb) as A'. intros c'. specialize (A' c'). unfold with_docs in *.
  case_bool_decide; [|done]. by rewrite insert_delete_eq.
Qed.

Lemma touch_ok env c s D n : all_ok s D n -> all_ok (TouchCollectionLocked env c s) D n.
Proof. apply all_ok_tables. intros c'. apply touch_tables. Qed.

Lemma add_step env c d s s' ok e D n :
  AddDocument env c d s = (s', ok, e) -> all_ok s D n -> 0 <= n -> n + size (AllTermsList d) < 2 ^ 64 ->
  all_ok s' (without e (replay env (CallAdd c d) ok D)) (n + size (AllTermsList d)).
Proof.
  unfold AddDocument. intros E A Hn Hb. apply (touch_ok env c) in A. revert A E. generalize (TouchCollectionLocked env c s) as s1. intros s1 A E.
  assert (0 <= size (AllTermsList d)) as Hs by (unfold size; lia). cbv zeta in E. destruct (negb _ && _).
  { injection E as <- <- <-. apply all_ok_nil. eapply all_ok_mono; [done|lia]. }
  destruct (_ <=? _).
  { injection E as <- <- <-. apply all_ok_nil. eapply all_ok_mono; [done|lia]. }
  apply (put_all_ok env c d) in A; [|done]. revert A E. generalize (index_document env c d (RemoveDocumentFromIndex c (ID d) s1)) as s2. intros s2 A E.
  destruct (_ =? 0).
  - destruct (EvictLoadedCollectionsLocked _ _ _) as [s3 e3] eqn:E3. injection E as <- <- <-. eapply evict_ok; [done|exact A|lia].
  - injection E as <- <- <-. by apply all_ok_nil.
Qed.

Lemma delete_step env c i s s' ok e D n :
  DeleteDocument env c i s = (s', ok, e) -> all_ok s D n -> 0 <= n -> all_ok s' (without e (with_docs c (base.delete i) D)) n.
Proof.
  unfold DeleteDocument. intros E A Hn. apply (touch_ok env c), (remove_all_ok c i) in A. revert A E.
  generalize (RemoveDocumentFromIndex c i (TouchCollectionLocked env c s)) as s1. intros s1 A E.
  destruct (EvictLoadedCollectionsLocked _ _ _) as [s2 e2] eqn:E2. injection E as <- <- <-. eapply evict_ok; [exact E2| |done].
  eapply all_ok_tables; [|exact A]. done.
Qed.

Lemma update_step env c d d' s s' ok e D n :
  UpdateDocument env c d d' s = (s', ok, e) -> ID d' = ID d -> all_ok s D n -> 0 <= n -> n + size (AllTermsList d') < 2 ^ 64 ->
  all_ok s' (without e (with_docs c (fun m => <[ID d' := (Ranking env, d')]> (base.delete (ID d) m)) D)) (n + size (AllTermsList d')).
Proof.
  unfold UpdateDocument. intros E Hid A Hn Hb. apply (touch_ok env c), (update_all_ok env c d d') in A; [|done..]. revert A E.
  generalize (index_document env c d' (RemoveDocumentFromIndex c (ID d) (TouchCollectionLocked env c s))) as s1. intros s1 A E.
  assert (0 <= size (AllTermsList d')) as Hs by (unfold size; lia).
  destruct (EvictLoadedCollectionsLocked _ _ _) as [s2 e2] eqn:E2. injection E as <- <- <-. eapply evict_ok; [exact E2|exact A|lia].
Qed.

Lemma delete_collection_tables c c' s :
  tables c' (DeleteCollection c s) = if bool_decide (c' = c) then (None, None, None, None, None, None) else tables c' s.
Proof. rewrite <- erase_tables_spec. done. Qed.

Lemma delete_collection_step c s D n : all_ok s D n -> 0 <= n -> all_ok (DeleteCollection c s) (with_docs c (fun _ => ∅) D) n.
Proof.
  intros A Hn. eapply all_ok_at; [|done|done| |done].
  - intros c' Hc. rewrite delete_collection_tables. by rewrite bool_decide_false.
  - apply coll_ok_empty. rewrite delete_collection_tables. by rewrite bool_decide_true.
Qed.

Lemma stats_step c s D n : all_ok s D n -> all_ok (UpdateCollectionStatistics c s) D n.
Proof.
  intros A c'. destruct (A c') as [C L]. split; [|done].
  destruct (decide (c' = c)) as [->|Hc]; [by apply stats_ok|]. eapply coll_ok_tables; [by apply stats_other|done].
Qed.

Lemma call_ok env o s s' ok e D n :
  exec env o s = (s', ok, e) -> same_id o -> all_ok s D n -> 0 <= n -> n + added_length o < 2 ^ 64 ->
  all_ok s' (without e (replay env o ok D)) (n + added_length o).
Proof.
  intros E Hid A Hn Hb. destruct o as [c d|c i|c d d'|c| |c|a k| |c|b| |]; cbn [exec added_length replay same_id] in *.
  - by eapply add_step.
  - rewrite Z.add_0_r. by eapply delete_step.
  - by apply (update_step _ _ _ _ _ _ _ _ _ _ E).
  - injection E as <- <- <-. rewrite Z.add_0_r. by apply all_ok_nil, delete_collection_step.
  - injection E as <- <- <-. apply all_ok_nil, all_ok_none; [done|lia].
  - injection E as <- <- <-. rewrite Z.add_0_r. by apply all_ok_nil, stats_step.
  - injection E as <- <- <-. by apply (same_tables_ok s).
  - destruct (FlushItem env s) as [s1 b1] eqn:E1. injection E as <- <- <-. apply (same_tables_ok s); [|done]. intros c'. by eapply flush_item_tables.
  - destruct (FlushCollectionToDiskLocked env c s) as [s1 b1] eqn:E1. injection E as <- <- <-. apply (same_tables_ok s); [|done].
    intros c'. by eapply flush_collection_tables.
  - destruct (EvictLoadedCollectionsLocked _ _ _) as [s2 e2] eqn:E2. injection E as <- <- <-. rewrite Z.add_0_r. by eapply evict_ok.
  - destruct (LoadFromDisk env s) as [s2 e2] eqn:E2. injection E as <- <- <-. rewrite Z.add_0_r. by eapply load_all_ok.
  - injection E as <- <- <-. apply all_ok_nil, all_ok_none; [done|lia].
Qed.

Lemma added_length_nonneg o : 0 <= added_length o.
Proof. destruct o; unfold added_length, size; lia. Qed.

Lemma added_lengths_nonneg l : 0 <= added_lengths l.
Proof. induction l as [|[env o] l IH]; [done|]. simpl. pose proof (added_length_nonneg o). lia. Qed.

Lemma run_ok l : forall s D n,
  Forall (fun x => same_id x.2) l -> all_ok s D n -> 0 <= n -> n + added_lengths l < 2 ^ 64 ->
  all_ok (run l s D).1 (run l s D).2 (n + added_lengths l).
Proof.
  induction l as [|[env o] l IH]; intros s D n Hid A Hn Hb; cbn [run added_lengths foldr] in *; [by rewrite Z.add_0_r|].
  apply Forall_cons in Hid as [Ho Hid]. fold (added_lengths l) in *. cbn [snd] in *. pose proof (added_length_nonneg o). pose proof (added_lengths_nonneg l).
  destruct (exec env o s) as [[s' ok] e] eqn:E. rewrite Z.add_assoc in *. apply IH; [done| |lia|lia]. eapply call_ok; [done..|lia].
Qed.

Lemma empty_ok : all_ok empty_index (fun _ => ∅) 0.
Proof. by apply all_ok_none. Qed.

End LexicalIndexProps.
