(* ===== verification/LexicalIndexReads.v ===== *)
(** * In-memory index: what reading it answers

    Frequencies, field-scoped terms and statistics, in terms of the documents that the
    calls left in memory. *)

From Stdlib Require Import SpecFloat.
From S2P Require Import Prelude CText MMapFormat MMapIndex DocValues LexicalTerms LexicalTermsProps LexicalIndex LexicalIndexInv LexicalIndexProps.
Import LexicalTerms LexicalTermsProps LexicalIndex LexicalIndexInv LexicalIndexProps.

Module LexicalIndexReads.

Definition occurrences (t : bytes) (l : list bytes) : Z := size (List.filter (fun x => bool_decide (x = t)) l).

Lemma positions_size k t l : size (positions k t l) = occurrences t l.
Proof.
  unfold occurrences, size. revert k. induction l as [|x l IH]; intros k; [done|]. cbn [positions List.filter]. rewrite length_app.
  case_bool_decide; cbn [length]; specialize (IH (k + 1)); lia.
Qed.

Lemma occurrences_pos t l : t ∈ l -> 0 < occurrences t l.
Proof.
  intros H. unfold occurrences. assert (t ∈ List.filter (fun x => bool_decide (x = t)) l) as Hin.
  { apply list_elem_of_In, filter_In. split; [by apply list_elem_of_In|by rewrite bool_decide_true]. }
  unfold size. destruct (List.filter _ l); [by apply elem_of_nil in Hin|cbn [length]; lia].
Qed.

Lemma occurrences_none t l : t ∉ l -> occurrences t l = 0.
Proof.
  intros H. unfold occurrences. induction l as [|x l IH]; [done|]. simpl. rewrite bool_decide_false by (intros ->; apply H; by left).
  apply IH. intros ?. apply H. by right.
Qed.

(** The posting of a document under a plain term. *)

Lemma posting_plain b c d t :
  colon ∉ t -> option_map MMapIndex.Positions (posting_of b c d t) = if bool_decide (t ∈ AllTermsList d) then Some (positions 0 t (AllTermsList d)) else None.
Proof.
  intros Ht. destruct (posting_of b c d t) as [p|] eqn:E.
  - apply posting_of_Some, elem_of_app in E as [E|E].
    + unfold plain_postings in E. apply list_elem_of_fmap in E as (x & E & Hx). injection E as -> ->.
      apply elem_of_elements, elem_of_list_to_set in Hx. by rewrite (bool_decide_true (x ∈ AllTermsList d)).
    + exfalso. apply Ht. assert (t ∈ (field_postings b c d).*1) as Hin by (apply list_elem_of_fmap; by exists (t, p)).
      apply field_keys in Hin as (f & l & x & _ & _ & ->). apply scoped_has_colon.
  - apply posting_of_None in E. rewrite bool_decide_false; [done|]. intros Hin. apply E. unfold document_postings. rewrite fmap_app, elem_of_app, plain_keys.
    left. by apply elem_of_elements, elem_of_list_to_set.
Qed.

(** The posting of a document under a field-scoped term. *)

Lemma scoped_key b c d f t :
  is_term t -> BuildFieldScopedTerm f t ∈ (document_postings b c d).*1 <-> exists l, FieldTermsByName d !! f = Some l /\ t ∈ l.
Proof.
  intros Ht. unfold document_postings. rewrite fmap_app, elem_of_app, plain_keys. split.
  - intros [H|H].
    + apply elem_of_elements, elem_of_list_to_set, AllTerms_is_term, term_no_colon in H. destruct H. apply scoped_has_colon.
    + apply field_keys in H as (f' & l & x & Hl & Hx & E). apply scoped_inj in E as [-> ->]; [by exists l|done|by eapply FieldTerms_is_term].
  - intros (l & Hl & Hx). right. apply list_elem_of_fmap. eexists (_, _). split; [reflexivity|]. unfold field_postings. apply list_elem_of_bind.
    exists (f, l). split; [|by apply elem_of_map_to_list]. apply list_elem_of_fmap. exists t. split; [reflexivity|]. by apply elem_of_elements, elem_of_list_to_set.
Qed.

Section collection.
  Context (c : bytes) (s : InvertedIndex) (D : docs).
  Hypothesis C : coll_ok c s D.

Lemma bucket_elem t p : p ∈ bucket c t s <-> exists d x, D !! d = Some x /\ posting_of x.1 c x.2 t = Some p.
Proof.
  rewrite (c_bucket _ _ _ C t). unfold postings_of. rewrite list_elem_of_omap. split.
  - intros (x & Hx & E). apply list_elem_of_fmap in Hx as ([d y] & -> & Hx). apply elem_of_map_to_list in Hx. by exists d, y.
  - intros (d & x & Hd & E). exists x. split; [|done]. apply list_elem_of_fmap. exists (d, x). split; [done|]. by apply elem_of_map_to_list.
Qed.

Lemma bucket_id t p x d : D !! d = Some x -> posting_of x.1 c x.2 t = Some p -> MMapIndex.DocumentID p = d.
Proof. intros Hd E. apply posting_id in E as [-> _]. by apply (c_ids _ _ _ C) in Hd. Qed.

Lemma term_frequency d t :
  colon ∉ t -> CalculateTermFrequency c d t s = match D !! d with Some x => occurrences t (AllTermsList x.2) | None => 0 end.
Proof.
  intros Ht. unfold CalculateTermFrequency. destruct (List.find _ _) as [p|] eqn:F.
  - apply find_some in F as [Hin Hp]. apply list_elem_of_In in Hin. apply bool_decide_eq_true in Hp. apply bucket_elem in Hin as (d' & x & Hd & E).
    rewrite (bucket_id t p x d' Hd E) in Hp. subst d'. rewrite Hd. pose proof (posting_plain x.1 c x.2 t Ht) as P. rewrite E in P. case_bool_decide as Hin; [|done].
    injection P as ->. rewrite positions_size. apply occurrences_pos in Hin. destruct (_ =? 0) eqn:Z0; [lia|done].
  - destruct (D !! d) as [x|] eqn:Hd; [|done]. symmetry. apply occurrences_none. intros Hin.
    pose proof (posting_plain x.1 c x.2 t Ht) as P. rewrite bool_decide_true in P by done. destruct (posting_of x.1 c x.2 t) as [p|] eqn:E; [|done].
    assert (p ∈ bucket c t s) as Hp by (apply bucket_elem; by exists d, x). apply list_elem_of_In in Hp. apply (find_none _ _ F) in Hp.
    apply bool_decide_eq_false in Hp. apply Hp. by eapply bucket_id.
Qed.

Lemma bucket_ids t d : d ∈ MMapIndex.DocumentID <$> bucket c t s <-> exists x, D !! d = Some x /\ t ∈ doc_terms c x.
Proof.
  rewrite list_elem_of_fmap. split.
  - intros (p & -> & Hp). apply bucket_elem in Hp as (d & x & Hd & E). rewrite (bucket_id t p x d Hd E). exists x. split; [done|].
    unfold doc_terms. apply elem_of_list_to_set, list_elem_of_fmap. exists (t, p). split; [done|]. by apply posting_of_Some.
  - intros (x & Hd & Ht). unfold doc_terms in Ht. rewrite elem_of_list_to_set in Ht. destruct (posting_of x.1 c x.2 t) as [p|] eqn:E.
    + exists p. split; [by symmetry; eapply bucket_id|]. apply bucket_elem. by exists d, x.
    + by apply posting_of_None in E.
Qed.

Lemma plain_terms x t : colon ∉ t -> t ∈ doc_terms c x <-> t ∈ AllTermsList x.2.
Proof.
  intros Ht. unfold doc_terms. rewrite elem_of_list_to_set. pose proof (posting_plain x.1 c x.2 t Ht) as P. case_bool_decide as Hin; split; try done; intros H.
  - destruct (decide (t ∈ (document_postings x.1 c x.2).*1)) as [|Hn]; [done|]. by apply posting_of_None in Hn; rewrite Hn in P.
  - destruct (posting_of x.1 c x.2 t) eqn:E; [done|]. by apply posting_of_None in E.
Qed.

Lemma document_frequency t :
  colon ∉ t -> CalculateDocumentFrequency c t s = Z.of_nat (base.size (base.filter (fun x : bytes * (Boosts * Document) => t ∈ AllTermsList x.2.2) D)).
Proof.
  intros Ht. unfold CalculateDocumentFrequency. f_equal. rewrite <- size_dom. f_equal. apply set_eq. intros d.
  rewrite elem_of_list_to_set, bucket_ids, elem_of_dom. split.
  - intros (x & Hd & Hx). exists x. apply map_lookup_filter_Some. split; [done|]. by apply plain_terms in Hx.
  - intros [x Hx]. apply map_lookup_filter_Some in Hx as [Hd Hx]. exists x. split; [done|]. by apply plain_terms.
Qed.

Lemma scoped_bucket f t d :
  is_term t -> d ∈ MMapIndex.DocumentID <$> bucket c (BuildFieldScopedTerm f t) s <->
               exists x l, D !! d = Some x /\ FieldTermsByName x.2 !! f = Some l /\ t ∈ l.
Proof.
  intros Ht. rewrite bucket_ids. unfold doc_terms. split.
  - intros (x & Hd & Hx). rewrite elem_of_list_to_set in Hx. apply scoped_key in Hx as (l & Hl & Hin); [|done]. by exists x, l.
  - intros (x & l & Hd & Hl & Hin). exists x. split; [done|]. rewrite elem_of_list_to_set. apply scoped_key; [done|]. by exists l.
Qed.

Lemma has_in_memory : HasInMemoryIndex c s = negb (bool_decide (D = ∅)).
Proof.
  unfold HasInMemoryIndex. f_equal. apply bool_decide_ext. rewrite (c_terms _ _ _ C). split; [apply fmap_empty_inv|intros ->; apply fmap_empty].
Qed.

Lemma known_statistics :
  D <> ∅ -> GetDocumentCount c s = Some (Z.of_nat (base.size D)) /\ DocCounts s !! c = Some (Z.of_nat (base.size D)) /\
            CollectionTotalLengths s !! c = Some (total_length D) /\ AvgDocLengths s !! c = Some (average D).
Proof.
  intros Hne. unfold GetDocumentCount. rewrite has_in_memory, bool_decide_false by done. cbn [negb]. rewrite (c_terms _ _ _ C), map_size_fmap.
  destruct (c_known _ _ _ C Hne) as (_ & [t Ht] & [n Hn] & [a Ha]). rewrite Ht, Hn, Ha. split; [done|].
  by rewrite (c_count _ _ _ C n Hn), (c_total _ _ _ C t Ht), (c_average _ _ _ C a Ha).
Qed.

End collection.

(** ** Claims *)

(** C10. The inverted index holds the documents it was given. After any sequence of
    additions, deletions, updates, collection deletions, flushes, loads, evictions and
    restarts, with [D c] the documents that the accepted calls left in the memory of
    collection [c]: the bucket of a term holds, up to order, one posting for every
    document that has it; the term frequency of a document is the number of times the
    term occurs in its text, the document frequency is the number of documents that have
    the term; a field-scoped term finds exactly the documents that have the term in that
    field; the count, total length and average length are those of the documents. *)
Theorem lexical_index_refines (l : list (Env * call)) :
  Forall (fun x => same_id x.2) l -> added_lengths l < 2 ^ 64 ->
  let (s, D) := run l empty_index (fun _ => ∅) in
  forall c,
    (forall t, bucket c t s ≡ₚ postings_of c (D c) t) /\
    (forall d t, colon ∉ t -> CalculateTermFrequency c d t s = match D c !! d with Some x => occurrences t (AllTermsList x.2) | None => 0 end) /\
    (forall t, colon ∉ t -> CalculateDocumentFrequency c t s =
       Z.of_nat (base.size (base.filter (fun x : bytes * (Boosts * Document) => t ∈ AllTermsList x.2.2) (D c)))) /\
    (forall f t d, is_term t -> d ∈ MMapIndex.DocumentID <$> bucket c (BuildFieldScopedTerm f t) s <->
       exists x l, D c !! d = Some x /\ FieldTermsByName x.2 !! f = Some l /\ t ∈ l) /\
    HasInMemoryIndex c s = negb (bool_decide (D c = ∅)) /\
    (D c <> ∅ -> GetDocumentCount c s = Some (Z.of_nat (base.size (D c))) /\ DocCounts s !! c = Some (Z.of_nat (base.size (D c))) /\
                 CollectionTotalLengths s !! c = Some (total_length (D c)) /\ AvgDocLengths s !! c = Some (average (D c))).
Proof.
  intros Hid Hb. pose proof (run_ok l empty_index (fun _ => ∅) 0 Hid empty_ok ltac:(done) Hb) as A. destruct (run l _ _) as [s D]. intros c.
  destruct (A c) as [C _]. cbn [fst snd] in C. split_and!.
  - apply (c_bucket _ _ _ C).
  - intros d t. by apply term_frequency.
  - intros t. by apply document_frequency.
  - intros f t d. by apply scoped_bucket.
  - by apply has_in_memory.
  - by apply known_statistics.
Qed.

(** ** Witness *)

Definition sample_boosts : Boosts := mkBoosts (DocValues.of_Z 2) (DocValues.of_Z 1) (DocValues.of_Z 3) (DocValues.of_Z 2).

Definition sample_env (now : Z) : Env := mkEnv now sample_boosts (fun _ => 1) (fun _ => true) (fun _ => None) (fun _ _ _ => NUL) true.

Definition sample_calls : list (Env * call) := [
  (sample_env 1, CallAdd #"c" (mkDocument #"a" #"red" #"a red den" []));
  (sample_env 2, CallSnapshots 0 0);
  (sample_env 3, CallDelete #"c" #"z")].

Lemma sample_frequency : forall s D, run sample_calls empty_index (fun _ => ∅) = (s, D) -> CalculateTermFrequency #"c" #"a" #"red" s = 2.
Proof. intros s D H. apply (f_equal (fun x => CalculateTermFrequency #"c" #"a" #"red" x.1)) in H. cbn [fst] in H. rewrite <- H. vm_compute. reflexivity. Qed.

Lemma lexical_index_refines_witness :
  let (s, D) := run sample_calls empty_index (fun _ => ∅) in
  (match D #"c" !! #"a" with Some x => occurrences #"red" (AllTermsList x.2) | None => 0 end) = 2 /\ HasInMemoryIndex #"c" s = negb (bool_decide (D #"c" = ∅)).
Proof.
  pose proof (lexical_index_refines sample_calls) as H. specialize (H ltac:(repeat constructor) ltac:(vm_compute; reflexivity)).
  pose proof sample_frequency as F. destruct (run sample_calls _ _) as [s D]. destruct (H #"c") as (_ & T & _ & _ & M & _). split; [|exact M].
  rewrite <- T; [by apply (F s D)|]. refine (bool_decide_eq_true_1 _ _). vm_compute. reflexivity.
Defined.

End LexicalIndexReads.
