(* ===== verification/LexicalIndexDisk.v ===== *)
(** * In-memory index: flushing, eviction, recovery

    A collection that is not dirty is on disk as it is in memory, also when calls run
    between the snapshots of a flush and its writes; whatever a restart maps was written whole
    from the documents that the collection had at some moment. *)

From Stdlib Require Import SpecFloat.
From S2P Require Import Prelude CText MMapFormat MMapIndex MMapIndexProps DocValues LexicalTerms LexicalTermsProps LexicalIndex LexicalIndexInv LexicalIndexProps LexicalIndexReads.
Import LexicalTerms LexicalTermsProps LexicalIndex LexicalIndexInv LexicalIndexProps LexicalIndexReads.

Module LexicalIndexDisk.

#[local] Strategy expand [exec].

(** ** What an operation does to the dirty marks and the directory *)

Definition side (s : InvertedIndex) := (DirtyCollections s, CollectionLastMutation s, IndexDir s, FlushPending s, WorkItems s).

(** The dirty marks, the directory and the mapped indexes. *)

Definition full (s : InvertedIndex) := (side s, MMapIndexes s).

Lemma ensure_full c s : full (EnsureCollectionTotalLengthLocked c s).1 = full s.
Proof. unfold EnsureCollectionTotalLengthLocked. by destruct (CollectionTotalLengths s !! c). Qed.

Lemma refresh_full c s : full (RefreshCollectionStatsFromTotalLocked c s) = full s.
Proof.
  unfold RefreshCollectionStatsFromTotalLocked. destruct (_ =? 0); [done|]. pose proof (ensure_full c s) as E.
  destruct (EnsureCollectionTotalLengthLocked c s) as [s1 t]. exact E.
Qed.

Lemma remove_full c d s : full (RemoveDocumentFromIndex c d s) = full s.
Proof.
  unfold RemoveDocumentFromIndex. destruct (Index s !! c); [|done]. destruct (DocumentTerms s !! c); [|done]. destruct (_ !! d); [|done].
  rewrite refresh_full. set (s1 := set_Index _ s). set (s2 := set_documents _ _ s1). destruct (DocumentLengths s2 !! c) as [L|]; [|done].
  destruct (L !! d) as [r|]; [|done]. pose proof (ensure_full c s2) as E. destruct (EnsureCollectionTotalLengthLocked c s2) as [s3 t]. exact E.
Qed.

Lemma mark_full env c s s' : full s' = full s -> full (MarkCollectionDirtyLocked env c s') = full (MarkCollectionDirtyLocked env c s).
Proof. intros [= E1 E2 E3 E4 E5 E6]. unfold full, side, MarkCollectionDirtyLocked. simpl. by rewrite E1, E2, E3, E4, E5, E6. Qed.

Lemma touch_full env c s : full (TouchCollectionLocked env c s) = full s.
Proof. unfold TouchCollectionLocked. by case_bool_decide. Qed.

Lemma touched_full env c i s : full (RemoveDocumentFromIndex c i (TouchCollectionLocked env c s)) = full s.
Proof. by rewrite remove_full, touch_full. Qed.

Lemma indexed_full env c i d s :
  full (index_document env c d (RemoveDocumentFromIndex c i (TouchCollectionLocked env c s))) = full (MarkCollectionDirtyLocked env c s).
Proof.
  rewrite <- (mark_full env c s _ (touched_full env c i s)). generalize (RemoveDocumentFromIndex c i (TouchCollectionLocked env c s)) as s0. intros s0.
  unfold index_document. set (s1 := set_Index _ s0). set (s2 := set_documents _ _ s1). pose proof (ensure_full c s2) as E.
  destruct (EnsureCollectionTotalLengthLocked c s2) as [s3 t]. apply mark_full. rewrite refresh_full. exact E.
Qed.

Lemma stats_full c s : full (UpdateCollectionStatistics c s) = full s.
Proof. unfold UpdateCollectionStatistics. case_bool_decide; [done|]. rewrite refresh_full, ensure_full. done. Qed.

Lemma full_side s s' : full s' = full s -> side s' = side s.
Proof. intros H. by apply (f_equal fst) in H. Qed.

Lemma stats_index c s : Index (UpdateCollectionStatistics c s) = Index s.
Proof.
  assert (forall s, Index (EnsureCollectionTotalLengthLocked c s).1 = Index s) as H.
  { intros s0. unfold EnsureCollectionTotalLengthLocked. by destruct (CollectionTotalLengths s0 !! c). }
  unfold UpdateCollectionStatistics. case_bool_decide; [done|]. set (s1 := (EnsureCollectionTotalLengthLocked c _).1).
  assert (Index s1 = Index s) as <- by (unfold s1; by rewrite H). clearbody s1. unfold RefreshCollectionStatsFromTotalLocked. destruct (_ =? 0); [done|].
  specialize (H s1). by destruct (EnsureCollectionTotalLengthLocked c s1).
Qed.

Lemma tables_index c s s' : tables c s' = tables c s -> Index s' !! c = Index s !! c.
Proof. by intros [= E _ _ _ _ _]. Qed.

Lemma resident_index c s s' : Index s' !! c = Index s !! c -> resident c s' = resident c s.
Proof. unfold resident. by intros ->. Qed.

(** ** Dirty marks *)

(** The files of a term map. *)

Definition on_disk (c : bytes) (m : term_map) (s : InvertedIndex) : Prop :=
  exists files, IndexDir s !! c = Some files /\ MMapIndex.WriteIndex {[c := m]} c = Some files.

Record flush_ok (s : InvertedIndex) (clock : Z) : Prop := {
  f_durable c m : c ∉ DirtyCollections s -> resident c s = Some m -> on_disk c m s;
  f_pending c : c ∈ FlushPending s -> c ∉ DirtyCollections s -> resident c s = None;
  f_mutation c : c ∈ DirtyCollections s -> is_Some (CollectionLastMutation s !! c);
  f_clock c t : CollectionLastMutation s !! c = Some t -> t <= clock;
  f_items : NoDup (Item_Collection <$> WorkItems s);
  f_time i : i ∈ WorkItems s -> MutationTime i <= clock;
  f_clean i : i ∈ WorkItems s -> Item_Collection i ∉ DirtyCollections s -> resident (Item_Collection i) s = None;
  f_snapshot i t : i ∈ WorkItems s -> CollectionLastMutation s !! Item_Collection i = Some t -> t <= MutationTime i ->
    Index s !! Item_Collection i = Some (IndexSnapshot i)
}.

Lemma flush_ok_side s s' k : (forall c, Index s' !! c = Index s !! c) -> side s' = side s -> flush_ok s k -> flush_ok s' k.
Proof.
  intros HI [= E1 E2 E3 E4 E5] [F1 F2 F3 F4 F5 F6 F7 F8].
  split; unfold on_disk in *; rewrite ?E1, ?E2, ?E3, ?E4, ?E5; intros *; rewrite ?HI, ?(resident_index _ s s') by done; eauto.
Qed.

Lemma flush_ok_later s k k' : k <= k' -> flush_ok s k -> flush_ok s k'.
Proof.
  intros H [F1 F2 F3 F4 F5 F6 F7 F8]. split; try done; [intros c t Ht; specialize (F4 c t Ht); lia|intros i Hi; specialize (F6 i Hi); lia].
Qed.

Lemma flush_ok_mark env c s s' k :
  (forall c', c' <> c -> Index s' !! c' = Index s !! c') -> side s' = side (MarkCollectionDirtyLocked env c s) -> k < Now env ->
  flush_ok s k -> flush_ok s' (Now env).
Proof.
  intros HI [= E1 E2 E3 E4 E5] Hk [F1 F2 F3 F4 F5 F6 F7 F8].
  assert (forall c', c' ∉ DirtyCollections s' -> c' <> c /\ c' ∉ DirtyCollections s /\ resident c' s' = resident c' s) as HD.
  { intros c' Hn. rewrite E1 in Hn. assert (c' <> c) by set_solver. split_and!; [done|set_solver|]. apply resident_index. by apply HI. }
  split.
  - intros c' m (Hc & Hn & ->)%HD. unfold on_disk. rewrite E3. by apply F1.
  - intros c' Hp (Hc & Hn & ->)%HD. rewrite E4 in Hp. by apply F2.
  - intros c' Hd. rewrite E2. destruct (decide (c' = c)) as [->|Hc]; [by rewrite lookup_insert_eq|]. rewrite lookup_insert_ne by done.
    apply F3. rewrite E1 in Hd. set_solver.
  - intros c' t. rewrite E2. intros [[_ <-]|[_ Ht]]%lookup_insert_Some; [lia|]. apply F4 in Ht. lia.
  - by rewrite E5.
  - intros i. rewrite E5. intros Hi. apply F6 in Hi. lia.
  - intros i Hi (Hc & Hn & ->)%HD. rewrite E5 in Hi. by apply F7.
  - intros i t Hi. rewrite E5 in Hi. rewrite E2. intros [[_ <-]|[Hc Ht]]%lookup_insert_Some Hle.
    + apply F6 in Hi. lia.
    + rewrite HI by done. by eapply F8.
Qed.

Lemma evicted_resident s s' e c : evicted_from s s' e -> resident c s' = if bool_decide (c ∈ e) then None else resident c s.
Proof.
  intros [T _ _ _ _ _ _]. specialize (T c). unfold resident. case_bool_decide; injection T as E _ _ _ _ _; by rewrite E.
Qed.

Lemma flush_ok_evict env t s s' e k : EvictLoadedCollectionsLocked env t s = (s', e) -> flush_ok s k -> flush_ok s' k.
Proof.
  intros E [F1 F2 F3 F4 F5 F6 F7 F8]. apply evict_locked_spec in E as [Hc Ev]. pose proof Ev as [T M _ E1 E2 E3 E4].
  assert (forall c m, resident c s' = Some m -> resident c s = Some m) as HR.
  { intros c m. rewrite (evicted_resident s s' e c Ev). by case_bool_decide. }
  assert (forall c, resident c s = None -> resident c s' = None) as HN.
  { intros c. rewrite (evicted_resident s s' e c Ev). by case_bool_decide. }
  split; rewrite ?E1, ?E3, ?E4; try done.
  - intros c m Hd Hm%HR. unfold on_disk. rewrite E2. by apply F1.
  - intros c Hp Hd. by apply HN, F2.
  - intros c Hd. rewrite M. rewrite bool_decide_false; [by apply F3|]. intros He. by apply Hc in He as [? _].
  - intros c t'. rewrite M. case_bool_decide; [done|apply F4].
  - intros i Hi Hd. by apply HN, F7.
  - intros i t' Hi. rewrite M. case_bool_decide as Hb; [done|]. intros Ht Hle. specialize (T (Item_Collection i)). rewrite bool_decide_false in T by done.
    apply tables_index in T. rewrite T. by eapply F8.
Qed.

(** One collection leaves the memory. *)

Lemma resident_none c s : Index s !! c = None -> resident c s = None.
Proof. unfold resident. by intros ->. Qed.

Lemma flush_ok_delete c s k : flush_ok s k -> flush_ok (DeleteCollection c s) k.
Proof.
  intros [F1 F2 F3 F4 F5 F6 F7 F8].
  assert (forall c', c' <> c -> Index (DeleteCollection c s) !! c' = Index s !! c') as HI by (intros c' Hc; simpl; by rewrite lookup_delete_ne).
  assert (resident c (DeleteCollection c s) = None) as HN by (apply resident_none; simpl; apply lookup_delete_eq).
  assert (forall c', c' <> c -> resident c' (DeleteCollection c s) = resident c' s) as HR by (intros c' Hc; by apply resident_index, HI).
  split.
  - intros c' m Hd. destruct (decide (c' = c)) as [->|Hc]; [by rewrite HN|]. rewrite HR by done. simpl in Hd. apply F1. set_solver.
  - intros c' Hp Hd. destruct (decide (c' = c)) as [->|Hc]; [done|]. rewrite HR by done. simpl in Hp, Hd. apply F2; set_solver.
  - intros c' Hd. simpl in *. rewrite lookup_delete_ne by set_solver. apply F3. set_solver.
  - intros c' t. simpl. intros [_ Ht]%lookup_delete_Some. by eapply F4.
  - done.
  - done.
  - intros i Hi Hd. destruct (decide (Item_Collection i = c)) as [->|Hc]; [done|]. rewrite HR by done. simpl in Hi, Hd. apply F7; [done|]. set_solver.
  - intros i t Hi. simpl in *. intros [Hc Ht]%lookup_delete_Some Hle. rewrite lookup_delete_ne by done. by eapply F8.
Qed.

Lemma resident_empty c s : Index s = ∅ -> resident c s = None.
Proof. intros E. apply resident_none. by rewrite E, lookup_empty. Qed.

Lemma flush_ok_forgotten s s' k :
  Index s' = ∅ -> DirtyCollections s' = ∅ -> CollectionLastMutation s' = ∅ -> WorkItems s' = WorkItems s \/ WorkItems s' = [] ->
  flush_ok s k -> flush_ok s' k.
Proof.
  intros E1 E2 E3 E4 [F1 F2 F3 F4 F5 F6 F7 F8]. split.
  - intros c m _. by rewrite resident_empty.
  - intros c _ _. by apply resident_empty.
  - intros c. rewrite E2. by intros ?%elem_of_empty.
  - intros c t. by rewrite E3, lookup_empty.
  - destruct E4 as [->| ->]; [done|constructor].
  - destruct E4 as [->| ->]; [done|]. by intros ? ?%elem_of_nil.
  - intros i _ _. by apply resident_empty.
  - intros i t _. by rewrite E3, lookup_empty.
Qed.

(** ** A flush *)

Lemma work_item_spec c s i : work_item c s = Some i ->
  Item_Collection i = c /\ MutationTime i = default 0 (CollectionLastMutation s !! c) /\ Index s !! c = Some (IndexSnapshot i) /\ partial_delta c s = false.
Proof.
  unfold work_item, resident. destruct (Index s !! c) as [m|]; [|done]. cbn [mbind option_bind]. case_bool_decide; [done|]. cbn [mbind option_bind].
  destruct (partial_delta c s); [done|]. by intros [= <-].
Qed.

Lemma selected_dirty env a n s c : c ∈ SelectFlushCollectionsLocked env a n s -> c ∈ DirtyCollections s.
Proof.
  unfold SelectFlushCollectionsLocked. intros H. assert (c ∈ elements (DirtyCollections s)) as Hc; [|by apply elem_of_elements].
  destruct (0 <? n)%nat; [eapply elem_of_sublist in H; [|apply sublist_take]|]; apply list_elem_of_In, filter_In in H as [H _]; by apply list_elem_of_In.
Qed.

Lemma selected_nodup env a n s : NoDup (SelectFlushCollectionsLocked env a n s).
Proof.
  unfold SelectFlushCollectionsLocked. assert (NoDup (List.filter (fun c => bool_decide (is_Some (resident c s)) && old_enough env a c s) (elements (DirtyCollections s)))) as H.
  { apply NoDup_ListNoDup, List.NoDup_filter, NoDup_ListNoDup, NoDup_elements. }
  destruct (0 <? n)%nat; [|done]. eapply sublist_NoDup; [done|apply sublist_take].
Qed.

Lemma items_nodup s l : NoDup l -> NoDup (Item_Collection <$> omap (fun c => work_item c s) l).
Proof.
  induction 1 as [|c l Hc Hn IH]; [constructor|]. cbn [omap list_omap]. destruct (work_item c s) as [i|] eqn:E; [|done].
  apply work_item_spec in E as (E & _). cbn [fmap list_fmap]. apply NoDup_cons. split; [|done]. rewrite E. intros Hin. apply Hc.
  apply list_elem_of_fmap in Hin as (j & -> & Hj). apply list_elem_of_omap in Hj as (c' & Hc' & Ej). apply work_item_spec in Ej as (-> & _). done.
Qed.

Lemma flush_ok_snapshots env a n s k : flush_ok s k -> flush_ok (TakeSnapshots env a n s) k.
Proof.
  intros [F1 F2 F3 F4 F5 F6 F7 F8].
  assert (forall i, i ∈ WorkItems (TakeSnapshots env a n s) -> Item_Collection i ∈ DirtyCollections s /\ work_item (Item_Collection i) s = Some i) as HW.
  { intros i Hi. apply list_elem_of_omap in Hi as (c & Hc & E). pose proof E as (-> & _)%work_item_spec. split; [|done]. by eapply selected_dirty. }
  split; try done.
  - apply items_nodup, selected_nodup.
  - intros i [Hd E]%HW. apply work_item_spec in E as (_ & -> & _). destruct (F3 _ Hd) as [t Ht]. rewrite Ht. by eapply F4.
  - intros i [Hd _]%HW Hn. done.
  - intros i t [Hd E]%HW _ _. by apply work_item_spec in E as (_ & _ & E & _).
Qed.

(** The directory of a collection that is dirty, or not in memory, may change. *)

Lemma flush_ok_dir c d P s k :
  (forall c', c' <> c -> d !! c' = IndexDir s !! c') -> P ⊆ {[c]} ∪ FlushPending s -> (c ∉ DirtyCollections s -> resident c s = None) ->
  flush_ok s k -> flush_ok (set_disk d P s) k.
Proof.
  intros Hd HP Hc [F1 F2 F3 F4 F5 F6 F7 F8]. split; try done.
  - intros c' m Hn Hm. change (resident c' s = Some m) in Hm. change (c' ∉ DirtyCollections s) in Hn. assert (c' <> c) as Hne by (intros ->; by rewrite Hc in Hm).
    unfold on_disk. simpl. rewrite Hd by done. by apply F1.
  - intros c' Hp Hn. change (resident c' s = None). change (c' ∈ P) in Hp. change (c' ∉ DirtyCollections s) in Hn.
    destruct (decide (c' = c)) as [->|Hne]; [by apply Hc|]. apply F2; [set_solver|done].
Qed.

Lemma flush_ok_drop i r s k : WorkItems s = i :: r -> flush_ok s k -> flush_ok (set_work r s) k.
Proof.
  intros E [F1 F2 F3 F4 F5 F6 F7 F8]. rewrite E in *. cbn [fmap list_fmap] in F5. apply NoDup_cons in F5 as [_ F5].
  split; try done; simpl; [intros j Hj; apply F6; by right|intros j Hj; apply F7; by right|intros j t Hj; apply F8; by right].
Qed.

(** The head of the work is written and its collection has not changed since. *)

Lemma flush_ok_clean i r files s s' k :
  WorkItems s = i :: r -> MMapIndex.WriteIndex {[Item_Collection i := IndexSnapshot i]} (Item_Collection i) = Some files ->
  (forall t, CollectionLastMutation s !! Item_Collection i = Some t -> t <= MutationTime i) ->
  (forall c, Index s' !! c = Index s !! c) ->
  side s' = (DirtyCollections s ∖ {[Item_Collection i]}, CollectionLastMutation s, <[Item_Collection i := files]> (IndexDir s), FlushPending s ∖ {[Item_Collection i]}, r) ->
  flush_ok s k -> flush_ok s' k.
Proof.
  intros E Hw Ht HI [= E1 E2 E3 E4 E5] [F1 F2 F3 F4 F5 F6 F7 F8]. rewrite E in *. cbn [fmap list_fmap] in F5. apply NoDup_cons in F5 as [Hi F5].
  set (c := Item_Collection i) in *. assert (forall c', resident c' s' = resident c' s) as HR by (intros; by apply resident_index).
  split; rewrite ?E1, ?E2, ?E4, ?E5; try done.
  - intros c' m Hn. rewrite HR. unfold on_disk. rewrite E3. intros Hm. destruct (decide (c' = c)) as [->|Hne].
    + exists files. rewrite lookup_insert_eq. split; [done|]. destruct (decide (c ∈ DirtyCollections s)) as [Hd|Hd].
      * destruct (F3 c Hd) as [t Hmt]. pose proof (F8 i t ltac:(by left) Hmt (Ht t Hmt)) as Hs. unfold resident in Hm. fold c in Hs. rewrite Hs in Hm.
        cbn [mbind option_bind] in Hm. case_bool_decide; [done|]. injection Hm as <-. done.
      * pose proof (F7 i ltac:(by left) Hd) as Hr. fold c in Hr. by rewrite Hr in Hm.
    + rewrite lookup_insert_ne by done. apply F1; [set_solver|done].
  - intros c' Hp Hn. rewrite HR. apply F2; set_solver.
  - intros c' Hd. apply F3. set_solver.
  - intros j Hj. apply F6. by right.
  - intros j Hj Hn. rewrite HR. apply F7; [by right|]. assert (Item_Collection j <> c) by (intros Ej; apply Hi; apply list_elem_of_fmap; by exists j). set_solver.
  - intros j t Hj. rewrite HI. apply F8. by right.
Qed.

(** What a write leaves: the files and the marker. *)

Lemma write_files_spec env c m s s' ok :
  write_files env c m s = (s', ok) ->
  (forall c', Index s' !! c' = Index s !! c') /\ DirtyCollections s' = DirtyCollections s /\ CollectionLastMutation s' = CollectionLastMutation s /\
  WorkItems s' = WorkItems s /\ FlushPending s' = {[c]} ∪ FlushPending s /\ (forall c', c' <> c -> IndexDir s' !! c' = IndexDir s !! c') /\
  (ok = true -> exists files, MMapIndex.WriteIndex {[c := m]} c = Some files /\ IndexDir s' = <[c := files]> (IndexDir s)).
Proof.
  unfold write_files, written. destruct (if Writable env c then _ else _) as [f|] eqn:W.
  - assert (MMapIndex.WriteIndex {[c := m]} c = Some f) as W' by (by destruct (Writable env c)).
    destruct (MMapIndex.LoadIndex f) as [ix|]; [destruct (MMapIndex.Valid ix)|]; intros [= <- <-]; split_and!; try done;
      first [by intros c' Hc; apply lookup_insert_ne|intros _; by exists f].
  - intros [= <- <-]. split_and!; try done. intros c' Hc. simpl. destruct (Leftover env c); [by rewrite lookup_insert_ne|by rewrite lookup_delete_ne].
Qed.

Lemma unmark (c : bytes) (P : gset bytes) : ({[c]} ∪ P) ∖ {[c]} = P ∖ {[c]}.
Proof. set_solver. Qed.

Lemma flush_ok_item env s s' ok k : FlushItem env s = (s', ok) -> flush_ok s k -> flush_ok s' k.
Proof.
  unfold FlushItem. destruct (WorkItems s) as [|i r] eqn:EW; [by intros [= <- <-]|]. set (c := Item_Collection i).
  destruct (write_files env c (IndexSnapshot i) (set_work r s)) as [s1 b] eqn:W. apply write_files_spec in W as (HI & W1 & W2 & W3 & W4 & W5 & W6).
  simpl in HI, W1, W2, W3, W4, W5, W6. intros E F.
  assert (c ∉ DirtyCollections s -> resident c s = None) as Hc by (apply (f_clean s k F i); rewrite EW; by left).
  assert (forall P, P ⊆ {[c]} ∪ FlushPending s -> flush_ok (set_disk (IndexDir s1) P (set_work r s)) k) as HD.
  { intros P HP. apply (flush_ok_dir c); [done|done|done|]. by eapply flush_ok_drop. }
  destruct b; cbn [negb] in E.
  - destruct W6 as (files & Hw & W6); [done|]. unfold finish in E. destruct (match _ with Some t => _ | None => _ end) eqn:New; cbn [negb] in E; injection E as <- <-.
    + eapply flush_ok_side; [| |apply (HD (FlushPending s1 ∖ {[c]})); rewrite W4; set_solver]; [done|]. unfold side. simpl. by rewrite W1, W2, W3.
    + eapply (flush_ok_clean i r files s); [done|done| |done| |done].
      * intros t Ht. rewrite W2 in New. fold c in Ht. rewrite Ht in New. lia.
      * unfold side. simpl. rewrite W1, W2, W3, W4, W6. by rewrite unmark.
  - injection E as <- <-. eapply flush_ok_side; [| |apply (HD (FlushPending s1)); by rewrite W4]; [done|]. unfold side. simpl. by rewrite W1, W2, W3.
Qed.

(** ** Loading *)

Lemma load_repair_keeps env s c : (forall c', Index (repair env s c) !! c' = Index s !! c') /\ DirtyCollections (repair env s c) = DirtyCollections s.
Proof. unfold repair. by destruct (_ && _). Qed.

Lemma flush_ok_repairs env l : forall s k,
  (forall c, c ∈ l -> c ∉ DirtyCollections s -> resident c s = None) -> flush_ok s k -> flush_ok (foldl (repair env) s l) k.
Proof.
  induction l as [|c l IH]; intros s k Hl F; [done|]. cbn [foldl]. destruct (load_repair_keeps env s c) as [RI RD]. apply IH.
  - intros c' Hc'. rewrite RD, (resident_index c' s) by done. apply Hl. by right.
  - unfold repair. destruct (_ && _); [|done]. apply (flush_ok_dir c); [|set_solver|apply Hl; by left|done].
    intros c' Hc. by rewrite lookup_delete_ne.
Qed.

Lemma load_directory_ok env s x k : flush_ok s k -> flush_ok (load_directory env s x) k.
Proof.
  intros F. unfold load_directory. case_bool_decide as Hp.
  - destruct (Writable env x.1); [|done]. apply (flush_ok_dir x.1); [|set_solver|by apply (f_pending s k F)|done].
    intros c' Hc. by rewrite lookup_delete_ne.
  - destruct (MMapIndex.LoadIndex x.2) as [ix|]; [|done]. destruct (MMapIndex.Valid ix); [|done]. by apply (flush_ok_side s).
Qed.

Lemma flush_ok_load env s s' e k : LoadFromDisk env s = (s', e) -> flush_ok s k -> flush_ok s' k.
Proof.
  unfold LoadFromDisk. intros E F. assert (flush_ok (foldl (repair env) s (elements (FlushPending s))) k) as F1.
  { apply flush_ok_repairs; [|done]. intros c Hc. apply elem_of_elements in Hc. by apply (f_pending s k F). }
  revert F1 E. generalize (foldl (repair env) s (elements (FlushPending s))) as s1. intros s1 F1. destruct (_ && _); [by intros [= <- <-]|].
  intros E. eapply flush_ok_evict; [exact E|]. clear E. revert F1. generalize (map_to_list (IndexDir s1)) as l. intros l. revert s1.
  induction l as [|x l IH]; intros s1 F1; [done|]. cbn [foldl]. by apply IH, load_directory_ok.
Qed.

(** ** Every call *)

(** Calls that run while a flush is under way; [FlushCollectionToDiskLocked] is not one of them. *)

Definition concurrent (o : call) : Prop := match o with CallFlushCollection _ => False | _ => True end.

Lemma mutate_ok env c s s' s2 e k :
  (forall c', c' <> c -> tables c' s' = tables c' s) -> side s' = side (MarkCollectionDirtyLocked env c s) -> k < Now env -> flush_ok s k ->
  EvictLoadedCollectionsLocked env INVERTED_INDEX_MAX_MEMORY_BYTES s' = (s2, e) -> flush_ok s' (Now env) /\ flush_ok s2 (Now env).
Proof.
  intros HT HS Hk F E. assert (flush_ok s' (Now env)) as F'.
  { apply (flush_ok_mark env c s s' k); [|done|done|done]. intros c' Hc. by apply tables_index, HT. }
  split; [done|]. by eapply flush_ok_evict.
Qed.

Lemma touched_other env c c' i s : c' <> c -> tables c' (RemoveDocumentFromIndex c i (TouchCollectionLocked env c s)) = tables c' s.
Proof. intros Hc. rewrite remove_other by done. apply touch_tables. Qed.

Lemma flush_ok_touch env c s k : flush_ok s k -> flush_ok (TouchCollectionLocked env c s) k.
Proof. apply flush_ok_side; [intros c'; apply tables_index, touch_tables|apply full_side, touch_full]. Qed.

Lemma indexed_other env c c' i d s : c' <> c -> tables c' (index_document env c d (RemoveDocumentFromIndex c i (TouchCollectionLocked env c s))) = tables c' s.
Proof. intros Hc. rewrite index_other by done. by apply touched_other. Qed.

Lemma add_flush_ok env c d s s' ok e k : AddDocument env c d s = (s', ok, e) -> k < Now env -> flush_ok s k -> flush_ok s' (Now env).
Proof.
  intros E Hk F. assert (flush_ok s (Now env)) as F1 by (by eapply flush_ok_later; [|exact F]; lia). unfold AddDocument in E. cbv zeta in E.
  destruct (negb _ && _); [injection E as <- <- <-; by apply flush_ok_touch|].
  destruct (_ <=? _); [injection E as <- <- <-; by apply flush_ok_touch|].
  destruct (EvictLoadedCollectionsLocked _ _ _) as [s2 e2] eqn:E2.
  destruct (mutate_ok env c s _ s2 e2 k (fun c' => indexed_other env c c' (ID d) d s) (full_side _ _ (indexed_full env c (ID d) d s)) Hk F E2).
  destruct (_ =? 0); by injection E as <- <- <-.
Qed.

Lemma delete_flush_ok env c i s s' ok e k : DeleteDocument env c i s = (s', ok, e) -> k < Now env -> flush_ok s k -> flush_ok s' (Now env).
Proof.
  intros E Hk F. unfold DeleteDocument in E. destruct (EvictLoadedCollectionsLocked _ _ _) as [s2 e2] eqn:E2. injection E as <- <- <-.
  eapply (mutate_ok env c s); [|by apply full_side, mark_full, touched_full|done|done|exact E2]. intros c'. apply (touched_other env c c' i s).
Qed.

Lemma update_flush_ok env c d d' s s' ok e k : UpdateDocument env c d d' s = (s', ok, e) -> k < Now env -> flush_ok s k -> flush_ok s' (Now env).
Proof.
  unfold UpdateDocument. intros E Hk F. pose proof (full_side _ _ (indexed_full env c (ID d) d' s)) as HS.
  pose proof (fun c' => indexed_other env c c' (ID d) d' s) as HT. revert HS HT E.
  generalize (index_document env c d' (RemoveDocumentFromIndex c (ID d) (TouchCollectionLocked env c s))) as s1. intros s1 HS HT E.
  destruct (EvictLoadedCollectionsLocked _ _ _) as [s2 e2] eqn:E2. injection E as <- <- <-. by eapply (mutate_ok env c s).
Qed.

Lemma step_flush_ok env o s s' ok e k :
  exec env o s = (s', ok, e) -> concurrent o -> k < Now env -> flush_ok s k -> flush_ok s' (Now env).
Proof.
  intros E Hc Hk F. assert (flush_ok s (Now env)) as F1 by (by eapply flush_ok_later; [|exact F]; lia).
  destruct o as [c d|c i|c d d'|c| |c|a n| |c|b| |]; cbn [exec concurrent] in *.
  - by eapply add_flush_ok.
  - by eapply delete_flush_ok.
  - by apply (update_flush_ok _ _ _ _ _ _ _ _ _ E Hk).
  - injection E as <- <- <-. by apply flush_ok_delete.
  - injection E as <- <- <-. eapply flush_ok_forgotten; [..|exact F1]; auto.
  - injection E as <- <- <-. eapply flush_ok_side; [| |exact F1]; [|apply full_side, stats_full]. intros c'. by rewrite stats_index.
  - injection E as <- <- <-. by apply flush_ok_snapshots.
  - destruct (FlushItem env s) as [s1 b1] eqn:E1. injection E as <- <- <-. by eapply flush_ok_item.
  - done.
  - destruct (EvictLoadedCollectionsLocked _ _ _) as [s2 e2] eqn:E2. injection E as <- <- <-. by eapply flush_ok_evict.
  - destruct (LoadFromDisk env s) as [s2 e2] eqn:E2. injection E as <- <- <-. by eapply flush_ok_load.
  - injection E as <- <- <-. eapply flush_ok_forgotten; [..|exact F1]; auto.
Qed.

End LexicalIndexDisk.
