(* ===== verification/LexicalIndexRecovery.v ===== *)
(** * In-memory index: restarts

    A collection that is clean is served after a restart as it was in memory, and
    whatever a restart maps was written whole. *)

From Stdlib Require Import SpecFloat.
From S2P Require Import Prelude CText MMapFormat MMapIndex MMapIndexProps DocValues LexicalTerms LexicalTermsProps LexicalIndex LexicalIndexInv LexicalIndexProps LexicalIndexReads LexicalIndexDisk.
Import LexicalTerms LexicalTermsProps LexicalIndex LexicalIndexInv LexicalIndexProps LexicalIndexReads LexicalIndexDisk.

Module LexicalIndexRecovery.

#[local] Strategy expand [exec].

(** ** Searching what was written *)

(** A mapped index answers every term with the postings of these documents. *)

Definition serves (c : bytes) (D : docs) (ix : MMapIndex.mapped_index) : Prop :=
  forall T, T <> [] -> size T < 2 ^ 31 -> exists ps, MMapIndex.SearchTerm ix T = Some (MMapIndex.stored <$> MMapIndexProps.hash_order ps) /\ ps ≡ₚ postings_of c D T.

Definition holds (c : bytes) (D : docs) (m : term_map) : Prop := forall t, get m t ≡ₚ postings_of c D t.

Lemma load_valid f ix : MMapIndex.LoadIndex f = Some ix -> MMapIndex.Valid ix = true.
Proof. unfold MMapIndex.LoadIndex. intros H. repeat case_match; simplify_eq; done. Qed.

Lemma written_serves c D m f :
  holds c D m -> MMapIndex.WriteIndex {[c := m]} c = Some f -> MMapIndexProps.files_fit f ->
  exists ix, MMapIndex.LoadIndex f = Some ix /\ serves c D ix.
Proof.
  intros Hm Hw Hfit. destruct (MMapIndexProps.WriteIndex_inv _ _ _ _ (lookup_singleton_eq c m) Hw) as (pb & offs & Hlen & Hpb & ->).
  exists (MMapIndexProps.written_index m pb offs). split; [by apply MMapIndexProps.load_written|]. intros T HT HsT. exists (get m T). split; [|apply Hm].
  apply MMapIndexProps.files_fit_some in Hfit as (_ & F2 & _ & F4). rewrite MMapIndexProps.size_written in F2, F4 by done.
  apply MMapIndexProps.SearchTerm_written; try done; unfold size in *; lia.
Qed.

Lemma resident_holds c s D m : coll_ok c s D -> resident c s = Some m -> holds c D m.
Proof.
  intros C H t. rewrite <- (c_bucket _ _ _ C t). unfold resident in H. unfold bucket, get. destruct (Index s !! c) as [m'|]; [|done].
  cbn [mbind option_bind] in *. case_bool_decide; [done|]. by injection H as ->.
Qed.

(** ** Loading a collection that is complete *)

Lemma repairs_keep env c l : forall s, c ∉ l ->
  IndexDir (foldl (repair env) s l) !! c = IndexDir s !! c /\ (c ∉ FlushPending s -> c ∉ FlushPending (foldl (repair env) s l)).
Proof.
  induction l as [|c' l IH]; intros s Hl; [done|]. apply not_elem_of_cons in Hl as [Hc Hl]. cbn [foldl]. destruct (IH (repair env s c') Hl) as [I1 I2].
  rewrite I1. unfold repair in *. destruct (_ && _); [|done]. simpl in *. rewrite lookup_delete_ne by done. split; [done|]. intros H. apply I2. set_solver.
Qed.

Lemma load_directory_pending env s x : FlushPending (load_directory env s x) = FlushPending s.
Proof.
  unfold load_directory. case_bool_decide; [by destruct (Writable env x.1)|]. destruct (MMapIndex.LoadIndex x.2) as [ix|]; [|done]. by destruct (MMapIndex.Valid ix).
Qed.

Lemma load_directory_other env s x c : c <> x.1 -> MMapIndexes (load_directory env s x) !! c = MMapIndexes s !! c.
Proof.
  intros Hc. unfold load_directory. case_bool_decide; [by destruct (Writable env x.1)|]. destruct (MMapIndex.LoadIndex x.2) as [ix|]; [|done].
  destruct (MMapIndex.Valid ix); [|done]. simpl. by rewrite lookup_insert_ne.
Qed.

Lemma loads_other env c l : forall s, c ∉ l.*1 -> MMapIndexes (foldl (load_directory env) s l) !! c = MMapIndexes s !! c.
Proof.
  induction l as [|x l IH]; intros s Hl; [done|]. cbn [fmap list_fmap] in Hl. apply not_elem_of_cons in Hl as [Hc Hl]. cbn [foldl]. rewrite IH by done.
  by apply load_directory_other.
Qed.

Lemma loads_map env c f ix l : forall s,
  (c, f) ∈ l -> NoDup l.*1 -> c ∉ FlushPending s -> MMapIndex.LoadIndex f = Some ix -> MMapIndexes (foldl (load_directory env) s l) !! c = Some ix.
Proof.
  induction l as [|x l IH]; intros s Hin Hn Hp Hl; [by apply elem_of_nil in Hin|]. cbn [fmap list_fmap] in Hn. apply NoDup_cons in Hn as [Hx Hn]. cbn [foldl].
  apply elem_of_cons in Hin as [<-|Hin]; [|by apply IH; rewrite ?load_directory_pending]. rewrite loads_other by done.
  unfold load_directory. cbn [fst snd]. rewrite bool_decide_false by done. rewrite Hl, (load_valid f ix Hl). simpl. by rewrite lookup_insert_eq.
Qed.

Lemma load_maps env c f ix s s' e :
  LoadFromDisk env s = (s', e) -> IndexDir s !! c = Some f -> c ∉ FlushPending s -> MMapIndex.LoadIndex f = Some ix -> c ∉ e ->
  MMapIndexes s' !! c = Some ix.
Proof.
  unfold LoadFromDisk. intros E Hd Hp Hl He. destruct (repairs_keep env c (elements (FlushPending s)) s) as [R1 R2].
  { by rewrite elem_of_elements. }
  specialize (R2 Hp). rewrite Hd in R1. revert R1 R2 E. generalize (foldl (repair env) s (elements (FlushPending s))) as s1. intros s1 R1 R2 E.
  rewrite bool_decide_false in E by (intros H0; by rewrite H0, lookup_empty in R1). cbn [andb] in E.
  apply evict_locked_spec in E as [_ [_ _ M _ _ _ _]]. rewrite M, bool_decide_false by done.
  apply (loads_map env c f); [by apply elem_of_map_to_list|apply NoDup_fst_map_to_list|done|done].
Qed.

(** ** Clean collections *)

Definition increasing (l : list (Env * call)) : Prop := StronglySorted (fun x y : Env * call => Now x.1 < Now y.1) l.

Lemma run_flush_ok l : forall s D k,
  Forall (fun x => concurrent x.2) l -> increasing l -> Forall (fun x : Env * call => k < Now x.1) l -> flush_ok s k -> exists k', flush_ok (run l s D).1 k'.
Proof.
  induction l as [|[env o] l IH]; intros s D k Hc Hi Hk F; cbn [run]; [by exists k|].
  apply Forall_cons in Hc as [Ho Hc]. apply Forall_cons in Hk as [Hk _]. apply StronglySorted_inv in Hi as [Hi Hl]. cbn [fst snd] in *.
  destruct (exec env o s) as [[s' ok] e] eqn:E. apply (IH s' _ (Now env)); [done|done|exact Hl|]. by eapply step_flush_ok.
Qed.

Lemma flush_ok_empty k : flush_ok empty_index k.
Proof.
  split; try done; [apply NoDup_nil_2|by intros i ?%elem_of_nil].
Qed.

Lemma calls_flush_ok l D : Forall (fun x => concurrent x.2) l -> increasing l -> exists k, flush_ok (run l empty_index D).1 k.
Proof.
  intros Hc Hi. destruct l as [|[env o] l]; [exists 0; apply flush_ok_empty|]. apply (run_flush_ok _ _ _ (Now env - 1)); [done|done| |apply flush_ok_empty].
  apply StronglySorted_inv in Hi as [_ Hl]. constructor; [simpl; lia|]. eapply Forall_impl; [exact Hl|]. intros x Hx. cbn [fst] in *. lia.
Qed.

(** ** Whatever a restart maps was written whole *)

(** The documents that a collection had in memory before and after every call. *)

Fixpoint history (l : list (Env * call)) (s : InvertedIndex) (D : world) (c : bytes) : list docs :=
  D c :: match l with
         | [] => []
         | (env, o) :: r => let '(s', ok, evicted) := exec env o s in history r s' (without evicted (replay env o ok D)) c
         end.

Section whole.
  Context (c : bytes).

(** Files that were written whole from documents of [H]. *)

Definition saved (H : docs -> Prop) (f : MMapIndex.index_files) : Prop :=
  exists m D, H D /\ holds c D m /\ MMapIndex.WriteIndex {[c := m]} c = Some f.

Record disk_ok (s : InvertedIndex) (H : docs -> Prop) : Prop := {
  d_whole f : c ∉ FlushPending s -> IndexDir s !! c = Some f -> saved H f;
  d_item i : i ∈ WorkItems s -> Item_Collection i = c -> exists D, H D /\ holds c D (IndexSnapshot i)
}.

(** What is mapped are such files, not written over since. *)

Definition mapped_ok (s : InvertedIndex) (H : docs -> Prop) : Prop :=
  forall ix, MMapIndexes s !! c = Some ix -> exists f, saved H f /\ MMapIndex.LoadIndex f = Some ix.

Lemma saved_mono (H H' : docs -> Prop) f : (forall D, H D -> H' D) -> saved H f -> saved H' f.
Proof. intros HH (m & D & HD & Hm). exists m, D. split; [by apply HH|done]. Qed.

Lemma disk_ok_mono (s : InvertedIndex) (H H' : docs -> Prop) : (forall D, H D -> H' D) -> disk_ok s H -> disk_ok s H'.
Proof.
  intros HH [W1 W2]. split.
  - intros f Hp Hf. by eapply saved_mono; [|by apply W1].
  - intros i Hi Hc. destruct (W2 i Hi Hc) as (D & HD & Hh). exists D. split; [by apply HH|done].
Qed.

Lemma mapped_ok_mono (s : InvertedIndex) (H H' : docs -> Prop) : (forall D, H D -> H' D) -> mapped_ok s H -> mapped_ok s H'.
Proof. intros HH W ix Hx. destruct (W ix Hx) as (f & Hf & Hl). exists f. split; [by eapply saved_mono|done]. Qed.

Lemma mapped_ok_quiet s s' H : MMapIndexes s' !! c = None \/ MMapIndexes s' !! c = MMapIndexes s !! c -> mapped_ok s H -> mapped_ok s' H.
Proof. intros E W ix. destruct E as [->| ->]; [done|apply W]. Qed.

(** Operations that leave the directory alone. *)

Lemma disk_ok_quiet s s' H :
  IndexDir s' = IndexDir s -> FlushPending s' = FlushPending s -> (forall i, i ∈ WorkItems s' -> i ∈ WorkItems s) -> disk_ok s H -> disk_ok s' H.
Proof. intros E1 E2 E3 [W1 W2]. split; rewrite ?E1, ?E2; [done|intros i Hi; by apply W2, E3]. Qed.

Lemma disk_ok_full s s' H : full s' = full s -> disk_ok s H -> disk_ok s' H.
Proof. intros [= E1 E2 E3 E4 E5 E6]. apply disk_ok_quiet; [done|done|by rewrite E5]. Qed.

Lemma disk_ok_evict env t s s' e H : EvictLoadedCollectionsLocked env t s = (s', e) -> disk_ok s H -> disk_ok s' H.
Proof.
  intros E. apply evict_locked_spec in E as [_ [_ _ M _ E1 E2 E3]]. by apply disk_ok_quiet; [done|done|rewrite E3].
Qed.

Lemma mapped_ok_evict env t s s' e H : EvictLoadedCollectionsLocked env t s = (s', e) -> mapped_ok s H -> mapped_ok s' H.
Proof. intros E. apply evict_locked_spec in E as [_ [_ _ M _ _ _ _]]. apply mapped_ok_quiet. rewrite M. case_bool_decide; [by left|by right]. Qed.

Lemma disk_ok_mark env c' s H : disk_ok s H -> disk_ok (MarkCollectionDirtyLocked env c' s) H.
Proof. by apply disk_ok_quiet. Qed.

(** Writing. *)

Lemma disk_ok_write env c' m s s' ok clean H :
  write_files env c' m s = (s', ok) -> (c' = c -> exists D, H D /\ holds c D m) -> disk_ok s H ->
  disk_ok (if ok then finish env clean c' s' else s') H.
Proof.
  intros E Hm [W1 W2]. apply write_files_spec in E as (_ & _ & _ & E3 & E4 & E5 & E6).
  assert (forall i, i ∈ WorkItems s' -> Item_Collection i = c -> exists D, H D /\ holds c D (IndexSnapshot i)) as HI by (rewrite E3; done).
  destruct ok.
  - destruct (E6 eq_refl) as (f & Hw & Hd).
    assert (forall g, c ∉ FlushPending s' ∖ {[c']} -> IndexDir s' !! c = Some g -> saved H g) as HW.
    { intros g Hp Hg. destruct (decide (c = c')) as [<-|Hc].
      - rewrite Hd, lookup_insert_eq in Hg. injection Hg as <-. destruct (Hm eq_refl) as (D & HD & Hh). by exists m, D.
      - rewrite E5 in Hg by done. apply W1; [|done]. rewrite E4 in Hp. set_solver. }
    unfold finish. by destruct clean.
  - split; [|done]. intros f Hp Hf. rewrite E4 in Hp. rewrite E5 in Hf by set_solver. apply W1; [set_solver|done].
Qed.

Lemma disk_ok_item env s s' ok H : FlushItem env s = (s', ok) -> disk_ok s H -> disk_ok s' H.
Proof.
  unfold FlushItem. destruct (WorkItems s) as [|i r] eqn:EW; [by intros [= <- <-]|]. intros E W.
  assert (disk_ok (set_work r s) H) as Wr by (eapply disk_ok_quiet; [..|exact W]; [done|done|rewrite EW; simpl; intros j Hj; by right]).
  destruct (write_files _ _ _ _) as [s1 b] eqn:E1.
  assert (Item_Collection i = c -> exists D, H D /\ holds c D (IndexSnapshot i)) as Hm by (apply (d_item _ _ W); rewrite EW; by left).
  destruct b; cbn [negb] in E; injection E as <- <-; [apply (disk_ok_write _ _ _ _ _ _ _ _ E1 Hm Wr)|apply (disk_ok_write _ _ _ _ _ _ true _ E1 Hm Wr)].
Qed.

Lemma disk_ok_flush_collection env c' s s' ok H :
  (forall m, c' = c -> resident c s = Some m -> exists D, H D /\ holds c D m) -> FlushCollectionToDiskLocked env c' s = (s', ok) -> disk_ok s H -> disk_ok s' H.
Proof.
  intros Hr. unfold FlushCollectionToDiskLocked. destruct (resident c' s) as [m|] eqn:R.
  2: { intros [= <- <-]. by apply disk_ok_quiet. }
  destruct (partial_delta c' s); [by intros [= <- <-]|]. destruct (write_files _ _ _ _) as [s1 b] eqn:E1. intros E W.
  assert (c' = c -> exists D, H D /\ holds c D m) as Hm by (intros ->; by apply Hr).
  destruct b; cbn [negb] in E; injection E as <- <-; [apply (disk_ok_write _ _ _ _ _ _ _ _ E1 Hm W)|apply (disk_ok_write _ _ _ _ _ _ true _ E1 Hm W)].
Qed.

Lemma disk_ok_repairs env l H : forall s, disk_ok s H -> disk_ok (foldl (repair env) s l) H.
Proof.
  induction l as [|c' l IH]; intros s W; [done|]. cbn [foldl]. apply IH. unfold repair. destruct (_ && _); [|done]. destruct W as [W1 W2].
  split; [|done]. intros f Hp. simpl in *. intros [Hc Hf]%lookup_delete_Some. apply W1; [set_solver|done].
Qed.

Lemma disk_ok_loads env l H : forall s, disk_ok s H -> disk_ok (foldl (load_directory env) s l) H.
Proof.
  induction l as [|x l IH]; intros s W; [done|]. cbn [foldl]. apply IH.
  destruct W as [W1 W2]. unfold load_directory. case_bool_decide as Hp.
  - destruct (Writable env x.1); [|done]. split; [|done]. intros f Hn. simpl in *. intros [Hc Hf]%lookup_delete_Some. by apply W1.
  - destruct (MMapIndex.LoadIndex x.2) as [ix|] eqn:L; [|done]. by destruct (MMapIndex.Valid ix).
Qed.

Lemma mapped_ok_loads env l H : forall s,
  (forall x, x ∈ l -> x.1 = c -> c ∉ FlushPending s -> saved H x.2) -> mapped_ok s H -> mapped_ok (foldl (load_directory env) s l) H.
Proof.
  induction l as [|x l IH]; intros s Hl W; [done|]. cbn [foldl]. apply IH.
  { intros y Hy. rewrite load_directory_pending. apply Hl. by right. }
  unfold load_directory. case_bool_decide as Hp; [by destruct (Writable env x.1)|].
  destruct (MMapIndex.LoadIndex x.2) as [ix|] eqn:L; [|done]. destruct (MMapIndex.Valid ix); [|done]. intros ix'. simpl.
  intros [[Hx <-]|[_ Hx]]%lookup_insert_Some; [|by apply W]. exists x.2. split; [|done]. rewrite Hx in Hp. apply Hl; [by left|done|done].
Qed.

Lemma repairs_mapped env l : forall s, MMapIndexes (foldl (repair env) s l) = MMapIndexes s.
Proof. induction l as [|c' l IH]; intros s; [done|]. cbn [foldl]. rewrite IH. unfold repair. by destruct (_ && _). Qed.

Lemma disk_ok_load env s s' e H : LoadFromDisk env s = (s', e) -> disk_ok s H -> disk_ok s' H.
Proof.
  unfold LoadFromDisk. intros E W. apply (disk_ok_repairs env (elements (FlushPending s)) H) in W. revert W E.
  generalize (foldl (repair env) s (elements (FlushPending s))) as s1. intros s1 W. destruct (_ && _); [by intros [= <- <-]|].
  intros E. eapply disk_ok_evict; [exact E|]. by apply disk_ok_loads.
Qed.

Lemma mapped_ok_load env s s' e H : LoadFromDisk env s = (s', e) -> disk_ok s H -> mapped_ok s H -> mapped_ok s' H.
Proof.
  unfold LoadFromDisk. intros E W M. apply (disk_ok_repairs env (elements (FlushPending s)) H) in W.
  assert (mapped_ok (foldl (repair env) s (elements (FlushPending s))) H) as M1 by (intros ix; rewrite repairs_mapped; apply M).
  revert W M1 E. generalize (foldl (repair env) s (elements (FlushPending s))) as s1. intros s1 W M1. destruct (_ && _); [by intros [= <- <-]|].
  intros E. eapply mapped_ok_evict; [exact E|]. apply mapped_ok_loads; [|done]. intros [c' f] Hx Hc Hp. cbn [fst snd] in *. subst c'.
  apply elem_of_map_to_list in Hx. by apply (d_whole _ _ W).
Qed.

(** Snapshots of a flush are those of the documents in memory. *)

Lemma disk_ok_snapshots env a n s H D : coll_ok c s D -> H D -> disk_ok s H -> disk_ok (TakeSnapshots env a n s) H.
Proof.
  intros C HD [W1 W2]. split; [done|]. intros i Hi Hc. apply list_elem_of_omap in Hi as (c' & _ & E). apply work_item_spec in E as (Ec & _ & E & _).
  subst c'. rewrite Hc in E. exists D. split; [done|]. intros t. rewrite <- (c_bucket _ _ _ C t). unfold bucket. by rewrite E.
Qed.

(** A deletion of the collection takes its marker away and leaves its files. *)

Definition keeps (o : call) : Prop := match o with CallDeleteCollection c' => c' <> c | _ => True end.

Lemma disk_ok_delete c' s H : c' <> c -> disk_ok s H -> disk_ok (DeleteCollection c' s) H.
Proof.
  intros Hc [W1 W2]. split; simpl; [|done]. intros f Hp. apply W1. set_solver.
Qed.

Lemma indexed_disk_ok env c' i d s H :
  disk_ok s H -> disk_ok (index_document env c' d (RemoveDocumentFromIndex c' i (TouchCollectionLocked env c' s))) H.
Proof. intros W. eapply disk_ok_full; [apply indexed_full|]. by apply disk_ok_mark. Qed.

Lemma add_disk_ok env c' d s s' ok e H : AddDocument env c' d s = (s', ok, e) -> disk_ok s H -> disk_ok s' H.
Proof.
  unfold AddDocument. intros E W. cbv zeta in E. assert (disk_ok (TouchCollectionLocked env c' s) H) as WT.
  { apply (disk_ok_full s); [apply touch_full|exact W]. }
  destruct (negb _ && _); [by injection E as <- <- <-|]. destruct (_ <=? _); [by injection E as <- <- <-|].
  pose proof (indexed_disk_ok env c' (ID d) d s H W) as W1. revert W1 E.
  generalize (index_document env c' d (RemoveDocumentFromIndex c' (ID d) (TouchCollectionLocked env c' s))) as s1. intros s1 W1 E.
  destruct (_ =? 0); [|by injection E as <- <- <-]. destruct (EvictLoadedCollectionsLocked _ _ _) as [s2 e2] eqn:E2. injection E as <- <- <-. by eapply disk_ok_evict.
Qed.

Lemma delete_disk_ok env c' i s s' ok e H : DeleteDocument env c' i s = (s', ok, e) -> disk_ok s H -> disk_ok s' H.
Proof.
  unfold DeleteDocument. intros E W. assert (disk_ok (MarkCollectionDirtyLocked env c' (RemoveDocumentFromIndex c' i (TouchCollectionLocked env c' s))) H) as W1.
  { eapply disk_ok_full; [apply mark_full, touched_full|]. by apply disk_ok_mark. }
  revert W1 E. generalize (MarkCollectionDirtyLocked env c' (RemoveDocumentFromIndex c' i (TouchCollectionLocked env c' s))) as s1. intros s1 W1 E.
  destruct (EvictLoadedCollectionsLocked _ _ _) as [s2 e2] eqn:E2. injection E as <- <- <-. by eapply disk_ok_evict.
Qed.

Lemma update_disk_ok env c' d d' s s' ok e H : UpdateDocument env c' d d' s = (s', ok, e) -> disk_ok s H -> disk_ok s' H.
Proof.
  unfold UpdateDocument. intros E W. pose proof (indexed_disk_ok env c' (ID d) d' s H W) as W1. revert W1 E.
  generalize (index_document env c' d' (RemoveDocumentFromIndex c' (ID d) (TouchCollectionLocked env c' s))) as s1. intros s1 W1 E.
  destruct (EvictLoadedCollectionsLocked _ _ _) as [s2 e2] eqn:E2. injection E as <- <- <-. by eapply disk_ok_evict.
Qed.

Lemma step_disk_ok env o s s' ok e D H :
  exec env o s = (s', ok, e) -> keeps o -> coll_ok c s D -> H D -> disk_ok s H -> disk_ok s' H.
Proof.
  intros E Hk C HD W. destruct o as [c' d|c' i|c' d d'|c'| |c'|a n| |c'|b| |]; cbn [exec keeps] in *.
  - by eapply add_disk_ok.
  - by eapply delete_disk_ok.
  - by apply (update_disk_ok _ _ _ _ _ _ _ _ _ E).
  - injection E as <- <- <-. by apply disk_ok_delete.
  - injection E as <- <- <-. apply (disk_ok_quiet s); auto.
  - injection E as <- <- <-. eapply disk_ok_full; [apply stats_full|done].
  - injection E as <- <- <-. by eapply disk_ok_snapshots.
  - destruct (FlushItem env s) as [s1 b1] eqn:E1. injection E as <- <- <-. by eapply disk_ok_item.
  - destruct (FlushCollectionToDiskLocked env c' s) as [s1 b1] eqn:E1. injection E as <- <- <-. eapply disk_ok_flush_collection; [|exact E1|done].
    intros m _ Hm. exists D. split; [done|]. by eapply resident_holds.
  - destruct (EvictLoadedCollectionsLocked _ _ _) as [s2 e2] eqn:E2. injection E as <- <- <-. by eapply disk_ok_evict.
  - destruct (LoadFromDisk env s) as [s2 e2] eqn:E2. injection E as <- <- <-. by eapply disk_ok_load.
  - injection E as <- <- <-. apply (disk_ok_quiet s); auto. simpl. by intros i ?%elem_of_nil.
Qed.

(** The calls that write files of the collection, or may: an item of a flush may be of any
    collection. *)

Definition written_by (o : call) : bool :=
  match o with CallFlushItem => true | CallFlushCollection c' => bool_decide (c' = c) | _ => false end.

(** Whether no call since the last restart has written files of the collection. *)

Fixpoint unwritten (b : bool) (l : list (Env * call)) : bool :=
  match l with
  | [] => b
  | (_, o) :: r => unwritten (match o with CallRestart => true | _ => b && negb (written_by o) end) r
  end.

Lemma full_mapped s s' H : full s' = full s -> mapped_ok s H -> mapped_ok s' H.
Proof. intros [= _ _ _ _ _ E]. apply mapped_ok_quiet. right. by rewrite E. Qed.

Lemma indexed_mapped_ok env c' i d s H :
  mapped_ok s H -> mapped_ok (index_document env c' d (RemoveDocumentFromIndex c' i (TouchCollectionLocked env c' s))) H.
Proof. intros W. eapply full_mapped; [apply indexed_full|exact W]. Qed.

Lemma add_mapped_ok env c' d s s' ok e H : AddDocument env c' d s = (s', ok, e) -> mapped_ok s H -> mapped_ok s' H.
Proof.
  unfold AddDocument. intros E W. cbv zeta in E. assert (mapped_ok (TouchCollectionLocked env c' s) H) as WT by (apply (full_mapped s); [apply touch_full|exact W]).
  destruct (negb _ && _); [by injection E as <- <- <-|]. destruct (_ <=? _); [by injection E as <- <- <-|].
  pose proof (indexed_mapped_ok env c' (ID d) d s H W) as W1. revert W1 E.
  generalize (index_document env c' d (RemoveDocumentFromIndex c' (ID d) (TouchCollectionLocked env c' s))) as s1. intros s1 W1 E.
  destruct (_ =? 0); [|by injection E as <- <- <-]. destruct (EvictLoadedCollectionsLocked _ _ _) as [s2 e2] eqn:E2. injection E as <- <- <-. by eapply mapped_ok_evict.
Qed.

Lemma update_mapped_ok env c' d d' s s' ok e H : UpdateDocument env c' d d' s = (s', ok, e) -> mapped_ok s H -> mapped_ok s' H.
Proof.
  unfold UpdateDocument. intros E W. pose proof (indexed_mapped_ok env c' (ID d) d' s H W) as W1. revert W1 E.
  generalize (index_document env c' d' (RemoveDocumentFromIndex c' (ID d) (TouchCollectionLocked env c' s))) as s1. intros s1 W1 E.
  destruct (EvictLoadedCollectionsLocked _ _ _) as [s2 e2] eqn:E2. injection E as <- <- <-. by eapply mapped_ok_evict.
Qed.

Lemma delete_mapped_ok env c' i s s' ok e H : DeleteDocument env c' i s = (s', ok, e) -> mapped_ok s H -> mapped_ok s' H.
Proof.
  unfold DeleteDocument. intros E W. assert (mapped_ok (MarkCollectionDirtyLocked env c' (RemoveDocumentFromIndex c' i (TouchCollectionLocked env c' s))) H) as W1.
  { eapply full_mapped; [apply mark_full, touched_full|exact W]. }
  revert W1 E. generalize (MarkCollectionDirtyLocked env c' (RemoveDocumentFromIndex c' i (TouchCollectionLocked env c' s))) as s1. intros s1 W1 E.
  destruct (EvictLoadedCollectionsLocked _ _ _) as [s2 e2] eqn:E2. injection E as <- <- <-. by eapply mapped_ok_evict.
Qed.

Lemma flush_collection_other env c' s s' ok : c' <> c -> FlushCollectionToDiskLocked env c' s = (s', ok) -> MMapIndexes s' !! c = MMapIndexes s !! c.
Proof.
  intros Hc. unfold FlushCollectionToDiskLocked. destruct (resident c' s) as [m|]; [|by intros [= <- _]]. destruct (partial_delta c' s); [by intros [= <- _]|].
  unfold write_files, finish, keep_old_mapping. destruct (written env c' m) as [f|]; [destruct (MMapIndex.LoadIndex f) as [ix|]; [destruct (MMapIndex.Valid ix)|]|];
    cbn [negb]; intros [= <- _]; cbn; rewrite ?lookup_insert_ne, ?lookup_alter_ne by done; done.
Qed.

Lemma step_mapped_ok env o s s' ok e H :
  exec env o s = (s', ok, e) -> written_by o = false -> disk_ok s H -> mapped_ok s H -> mapped_ok s' H.
Proof.
  intros E Hw W M. destruct o as [c' d|c' i|c' d d'|c'| |c'|a n| |c'|b| |]; cbn [exec written_by] in *; try done.
  - by eapply add_mapped_ok.
  - by eapply delete_mapped_ok.
  - by apply (update_mapped_ok _ _ _ _ _ _ _ _ _ E).
  - injection E as <- <- <-. intros ix. cbn. intros [_ Hx]%lookup_delete_Some. by apply M.
  - injection E as <- <- <-. by intros ix.
  - injection E as <- <- <-. eapply full_mapped; [apply stats_full|done].
  - by injection E as <- <- <-.
  - destruct (FlushCollectionToDiskLocked env c' s) as [s1 b1] eqn:E1. injection E as <- <- <-. apply bool_decide_eq_false in Hw.
    eapply mapped_ok_quiet; [right; by eapply flush_collection_other|done].
  - destruct (EvictLoadedCollectionsLocked _ _ _) as [s2 e2] eqn:E2. injection E as <- <- <-. by eapply mapped_ok_evict.
  - destruct (LoadFromDisk env s) as [s2 e2] eqn:E2. injection E as <- <- <-. by eapply mapped_ok_load.
  - injection E as <- <- <-. by intros ix.
Qed.

Lemma run_disk_ok l : forall b s D n (H : docs -> Prop),
  Forall (fun x => same_id x.2 /\ keeps x.2) l -> all_ok s D n -> 0 <= n -> n + added_lengths l < 2 ^ 64 -> H (D c) -> disk_ok s H -> (b = true -> mapped_ok s H) ->
  let H' := fun D' => H D' \/ D' ∈ history l s D c in
  disk_ok (run l s D).1 H' /\ (unwritten b l = true -> mapped_ok (run l s D).1 H').
Proof.
  induction l as [|[env o] l IH]; intros b s D n H Hl A Hn Hb HD W M; cbn [run history unwritten].
  { split; [|intros Hu]; [eapply disk_ok_mono; [|exact W]|eapply mapped_ok_mono; [|exact (M Hu)]]; by left. }
  apply Forall_cons in Hl as [[Hid Hk] Hl]. cbn [fst snd added_lengths foldr] in *. fold (added_lengths l) in Hb.
  pose proof (added_length_nonneg o). pose proof (added_lengths_nonneg l).
  destruct (exec env o s) as [[s' ok] e] eqn:E. destruct (A c) as [C _]. pose proof (step_disk_ok env o s s' ok e (D c) H E Hk C HD W) as W'.
  set (b1 := match o with CallRestart => true | _ => _ end). assert (b1 = true -> mapped_ok s' H) as M'.
  { unfold b1. intros Hu. destruct o; try (apply andb_true_iff in Hu as [Hu Hw%negb_true_iff]; eapply step_mapped_ok; [exact E|exact Hw|exact W|by apply M]).
    injection E as <- <- <-. by intros ix. }
  set (D1 := without e (replay env o ok D)) in *. assert (all_ok s' D1 (n + added_length o)) as A' by (eapply call_ok; [done..|lia]).
  assert (forall D', (H D' \/ D' = D1 c) \/ D' ∈ history l s' D1 c -> H D' \/ D' ∈ D c :: history l s' D1 c) as Sub.
  { intros D' [[HD'| ->]|HD']; [by left|right; right; destruct l as [|[env' o'] l']; cbn [history]; by left|right; by right]. }
  destruct (IH b1 s' D1 (n + added_length o) (fun D' => H D' \/ D' = D1 c)) as [I1 I2]; [done|done|lia|lia|by right| | |].
  - eapply disk_ok_mono; [|exact W']. by left.
  - intros Hu. eapply mapped_ok_mono; [|exact (M' Hu)]. by left.
  - split; [eapply disk_ok_mono; [exact Sub|exact I1]|]. intros Hu. eapply mapped_ok_mono; [exact Sub|exact (I2 Hu)].
Qed.

End whole.

(** ** Claims *)

(** C18. Evicting and restarting lose nothing that is clean. After any sequence of calls at
    increasing times, also with calls between the snapshots of a flush and its writes, and
    with writes that fail, a collection that is in memory and not dirty is on disk: a new
    process that loads the index directory maps it, unless the memory limit evicts it
    again, and the mapped index answers every term with exactly the postings of the
    documents that were in memory. A memory limit evicts no dirty collection. *)
Theorem clean_survives_restart (l : list (Env * call)) (env : Env) (c : bytes) :
  Forall (fun x => same_id x.2 /\ concurrent x.2) l -> increasing l -> added_lengths l < 2 ^ 64 ->
  let (s, D) := run l empty_index (fun _ => ∅) in
  (forall MaxBytes s' e, EvictLoadedCollectionsLocked env MaxBytes s = (s', e) -> c ∈ DirtyCollections s -> c ∉ e /\ tables c s' = tables c s) /\
  (c ∉ DirtyCollections s -> is_Some (resident c s) -> (forall f, IndexDir s !! c = Some f -> MMapIndexProps.files_fit f) ->
     let (s', e) := LoadFromDisk env (new_process s) in
     c ∈ e \/ exists ix, MMapIndexes s' !! c = Some ix /\ MMapIndex.Valid ix = true /\ serves c (D c) ix).
Proof.
  intros Hl Hi Hb. apply Forall_and in Hl as [Hid Hc].
  pose proof (run_ok l empty_index (fun _ => ∅) 0 Hid empty_ok ltac:(done) Hb) as A. destruct (calls_flush_ok l (fun _ => ∅) Hc Hi) as [k F].
  destruct (run l _ _) as [s D]. cbn [fst snd] in *. split.
  - intros n s' e E Hd. apply evict_locked_spec in E as [Hclean [T _ _ _ _ _ _]].
    assert (c ∉ e) as He by (intros He; by apply Hclean in He as [? _]). split; [done|]. by rewrite T, bool_decide_false.
  - intros Hd [m Hm] Hfit. destruct (f_durable s k F c m Hd Hm) as (f & Hf & Hw). destruct (A c) as [C _].
    destruct (written_serves c (D c) m f (resident_holds _ _ _ _ C Hm) Hw (Hfit f Hf)) as (ix & Hx & Hs).
    destruct (LoadFromDisk env (new_process s)) as [s' e] eqn:E. destruct (decide (c ∈ e)) as [He|He]; [by left|right]. exists ix.
    split; [|split; [by eapply load_valid|done]]. eapply load_maps; [exact E|exact Hf| |exact Hx|done].
    intros Hp. by rewrite (f_pending s k F c Hp Hd) in Hm.
Qed.

(** C24. What a restart maps was written whole. Whatever the calls, the writes that fail
    and the restarts, as long as the collection is not deleted, and until the process
    writes files of the collection itself, an index that is mapped answers every term
    with the postings of one state of the collection: the documents that it had in memory
    before or after some call. A flush that was interrupted is not served after the
    restart. In the process that flushes it may be: the files are written in place, over
    those that are mapped ([failed_write_is_served]). *)
Theorem mapped_is_a_snapshot (l : list (Env * call)) (c : bytes) :
  Forall (fun x => same_id x.2 /\ keeps c x.2) l -> added_lengths l < 2 ^ 64 -> unwritten c true l = true ->
  let s := (run l empty_index (fun _ => ∅)).1 in
  forall ix, MMapIndexes s !! c = Some ix ->
    exists D f, D ∈ history l empty_index (fun _ => ∅) c /\ MMapIndex.LoadIndex f = Some ix /\ (MMapIndexProps.files_fit f -> serves c D ix).
Proof.
  intros Hl Hb Hu s ix Hx. assert (disk_ok c empty_index (fun D => D = ∅)) as W0 by (split; [done|by intros i ?%elem_of_nil]).
  destruct (run_disk_ok c l true empty_index (fun _ => ∅) 0 (fun D => D = ∅) Hl empty_ok ltac:(done) Hb eq_refl W0 ltac:(done)) as [_ W3].
  destruct (W3 Hu ix Hx) as (f & (m & D & HD & Hm & Hw) & Hload). exists D, f. split; [|split; [done|]].
  - destruct HD as [->|HD]; [|done]. destruct l as [|[env o] l]; cbn [history]; by left.
  - intros Hfit. destruct (written_serves c D m f Hm Hw Hfit) as (ix' & Hload' & Hs). rewrite Hload in Hload'. by injection Hload' as ->.
Qed.

(** ** Witnesses *)

Definition flush_calls : list (Env * call) := [
  (sample_env 1, CallAdd #"c" (mkDocument #"a" #"" #"red" []));
  (sample_env 2, CallSnapshots 0 0);
  (sample_env 3, CallFlushItem)].

Definition small (f : option bytes) : bool := match f with Some d => size d <? 2 ^ 32 | None => true end.

Definition flushed (c : bytes) (s : InvertedIndex) : bool :=
  bool_decide (c ∉ DirtyCollections s) && bool_decide (is_Some (resident c s)) && bool_decide (is_Some (MMapIndexes s !! c)) &&
  match IndexDir s !! c with
  | Some f => small (MMapIndex.terms_bin f) && small (MMapIndex.term_map_bin f) && small (MMapIndex.term_index_bin f) && small (MMapIndex.postings_bin f)
  | None => true
  end.

Lemma sample_flushed : flushed #"c" (run flush_calls empty_index (fun _ => ∅)).1 = true.
Proof. vm_compute. reflexivity. Qed.

Lemma small_spec f : small f = true -> match f with Some d => size d < 2 ^ 32 | None => True end.
Proof. destruct f; [apply Z.ltb_lt|done]. Qed.

Lemma flushed_spec c s : flushed c s = true ->
  c ∉ DirtyCollections s /\ is_Some (resident c s) /\ is_Some (MMapIndexes s !! c) /\ (forall f, IndexDir s !! c = Some f -> MMapIndexProps.files_fit f).
Proof.
  unfold flushed. rewrite !andb_true_iff, !bool_decide_eq_true. intros [[[H1 H2] H3] H4]. split_and!; [done..|]. intros f Hf. rewrite Hf in H4.
  apply andb_true_iff in H4 as [H4 S4]. apply andb_true_iff in H4 as [H4 S3]. apply andb_true_iff in H4 as [S1 S2].
  unfold MMapIndexProps.files_fit. repeat (constructor; [by apply small_spec|]). constructor.
Qed.

Lemma clean_survives_restart_witness :
  let (s, D) := run flush_calls empty_index (fun _ => ∅) in
  let (s', e) := LoadFromDisk (sample_env 4) (new_process s) in
  #"c" ∈ e \/ exists ix, MMapIndexes s' !! #"c" = Some ix /\ MMapIndex.Valid ix = true /\ serves #"c" (D #"c") ix.
Proof.
  pose proof (clean_survives_restart flush_calls (sample_env 4) #"c") as H.
  specialize (H ltac:(repeat constructor) ltac:(repeat constructor) ltac:(vm_compute; reflexivity)).
  destruct (flushed_spec _ _ sample_flushed) as (H1 & H2 & _ & H3). destruct (run flush_calls _ _) as [s D]. destruct H as [_ H]. by apply H.
Defined.

(** A flush, a second one that fails, and a restart that repairs the directory; and a
    restart after the first flush alone. *)

Definition disk_full (now : Z) : Env :=
  mkEnv now sample_boosts (fun _ => 1) (fun _ => false) (fun _ => None) (fun _ _ _ => NUL) true.

Definition restart_calls : list (Env * call) := flush_calls ++ [(sample_env 4, CallRestart); (sample_env 5, CallLoad)].

Definition failed_flush : list (Env * call) :=
  flush_calls ++ [(sample_env 4, CallAdd #"c" (mkDocument #"b" #"" #"blue" [])); (disk_full 5, CallFlushCollection #"c")].

Lemma restart_maps : bool_decide (is_Some (MMapIndexes (run restart_calls empty_index (fun _ => ∅)).1 !! #"c")) = true.
Proof. vm_compute. reflexivity. Qed.

Lemma mapped_is_a_snapshot_witness :
  exists ix D f, MMapIndexes (run restart_calls empty_index (fun _ => ∅)).1 !! #"c" = Some ix /\
    D ∈ history restart_calls empty_index (fun _ => ∅) #"c" /\ MMapIndex.LoadIndex f = Some ix /\ (MMapIndexProps.files_fit f -> serves #"c" D ix).
Proof.
  destruct (bool_decide_eq_true_1 _ restart_maps) as [ix Hx]. exists ix.
  destruct (mapped_is_a_snapshot restart_calls #"c" ltac:(repeat constructor) ltac:(vm_compute; reflexivity) ltac:(vm_compute; reflexivity) ix Hx)
    as (D & f & H1 & H2 & H3).
  exists D, f. split; [exact Hx|]. split; [exact H1|]. split; [exact H2|exact H3].
Defined.

(** The mapped index of a process whose flush failed: it had the term red, and shows
    what the failed write left. After a restart nothing is mapped. *)

Definition finds (t : bytes) (s : InvertedIndex) : option Z :=
  ix ← MMapIndexes s !! #"c"; size <$> MMapIndex.SearchTerm ix t.

Example failed_write_is_served :
  finds #"red" (run flush_calls empty_index (fun _ => ∅)).1 = Some 1 /\
  finds #"red" (run failed_flush empty_index (fun _ => ∅)).1 = Some 0 /\
  is_mapped #"c" (run failed_flush empty_index (fun _ => ∅)).1 = true /\
  MMapIndexes (run (failed_flush ++ [(sample_env 6, CallRestart); (sample_env 7, CallLoad)]) empty_index (fun _ => ∅)).1 !! #"c" = None.
Proof. vm_compute. split_and!; reflexivity. Qed.

End LexicalIndexRecovery.
