(* ===== verification/QueryMatch.v ===== *)
(** * QueryMatch: queries and documents in src/api/lexical.cpp

    Terms and phrases of a text, edit distance, matching of a term against the values
    of a field, the structured query language (or, and, not, marks, fields, phrases), its
    evaluation on a document, and the variants of a query. Texts are bytes in the "C"
    locale; the fields of a document are listed in the order of its map. *)

From Stdlib Require Import SpecFloat.
From S2P Require Import Prelude CText Wildcard DocValues LexicalTerms LexicalIndex.
Import LexicalTerms.

Module QueryMatch.

(** ** Text *)

Definition quote : ascii := chr 34.

Definition is_quote (c : ascii) : bool := bool_decide (c = quote).

Definition is_blank (c : ascii) : bool := bool_decide (c ∈ [" "%char; chr 9; chr 13; chr 10]).

Definition TrimWhitespace (input : bytes) : bytes := trim is_blank input.

(** Replacing a text everywhere, from left to right; [skip] bytes of an occurrence that
    was replaced remain to be passed over. *)

Fixpoint replace_all (skip : nat) (from to s : bytes) : bytes :=
  match s with
  | [] => []
  | c :: r =>
      match skip with
      | S k => replace_all k from to r
      | O => if starts_with from s then to ++ replace_all (length from - 1) from to r else c :: replace_all 0 from to r
      end
  end.

Definition utf8_quote (last : Z) : bytes := [chr 226; chr 128; chr last].

Definition NormalizeQuotes (input : bytes) : bytes :=
  let normalized := replace_all 0 (utf8_quote 156) [quote] input in
  let normalized := replace_all 0 (utf8_quote 157) [quote] normalized in
  let normalized := replace_all 0 (utf8_quote 152) [chr 39] normalized in
  replace_all 0 (utf8_quote 153) [chr 39] normalized.

Definition quoted_by (q : ascii) (s : bytes) : bool := bool_decide (head s = Some q) && bool_decide (last s = Some q).

Definition StripQuotes (input : bytes) : bytes :=
  if (2 <=? size input) && (quoted_by quote input || quoted_by (chr 39) input) then take (length input - 2) (drop 1 input) else input.

Definition is_wild (c : ascii) : bool := bool_decide (c ∈ #"*?").

Definition StripWildcardChars (input : bytes) : bytes := List.filter (fun c => negb (is_wild c)) input.

Definition cased (case_sensitive : bool) (s : bytes) : bytes := if case_sensitive then s else ToLowerCopy s.

Definition NormalizeTermSimple (case_sensitive : bool) (term : bytes) : bytes :=
  strip_back (strip_front false (cased case_sensitive term)).

(** [std::sort] and [std::unique], or the order of [std::set]. *)

Definition str_order (a b : bytes) : Prop := str_leb a b = true.

#[export] Instance str_order_dec a b : Decision (str_order a b).
Proof. unfold str_order. apply _. Defined.

Definition sort_unique (l : list bytes) : list bytes := merge_sort str_order (remove_dups l).

Definition join_space (l : list bytes) : bytes :=
  match l with [] => [] | x :: r => x ++ (r ≫= fun y => #" " ++ y) end.

(** ** Terms *)

Definition is_separator (c : ascii) : bool := isspace c || bool_decide (c ∈ #"-.,:/\()[]{}@#$%&+=;|!?~^`").

Definition is_ordered_separator (c : ascii) : bool := is_separator c || is_quote c.

(** The longest pieces without separators. *)

Fixpoint pieces_of (sep : ascii -> bool) (current s : bytes) : list bytes :=
  match s with
  | [] => if bool_decide (current = []) then [] else [current]
  | c :: r =>
      if sep c then (if bool_decide (current = []) then [] else [current]) ++ pieces_of sep [] r
      else pieces_of sep (current ++ [c]) r
  end.

Definition normalized_terms (sep : ascii -> bool) (case_sensitive : bool) (text : bytes) : list bytes :=
  take (Z.to_nat MaxTerms)
    (List.filter (fun t => negb (bool_decide (t = [])))
      (NormalizeTermSimple case_sensitive <$> pieces_of sep [] (take (Z.to_nat MaxTextSize) text))).

Definition ExtractTermsSimple (case_sensitive : bool) (text : bytes) : list bytes :=
  sort_unique (normalized_terms is_separator case_sensitive text).

Definition ExtractTermsInOrderSimple (case_sensitive : bool) (text : bytes) : list bytes :=
  normalized_terms is_ordered_separator case_sensitive text.

Definition IsIdentifierLikeTermSimple (term : bytes) : bool := existsb isalpha term && existsb isdigit term.

(** ** Phrases *)

(** The words of the phrase at the start of the list, and anywhere in it. *)

Fixpoint run_at_start (phrase l : list bytes) : bool :=
  match phrase, l with
  | [], _ => true
  | p :: ps, x :: r => bool_decide (x = p) && run_at_start ps r
  | _, _ => false
  end.

Fixpoint has_run (phrase l : list bytes) : bool :=
  run_at_start phrase l || match l with [] => false | _ :: r => has_run phrase r end.

Definition FieldContainsPhraseSimple (case_sensitive : bool) (field_value phrase : bytes) : bool :=
  let field_terms := ExtractTermsInOrderSimple case_sensitive field_value in
  let phrase_terms := ExtractTermsInOrderSimple case_sensitive phrase in
  if bool_decide (field_terms = []) || bool_decide (phrase_terms = []) || (length field_terms <? length phrase_terms)%nat then false
  else has_run phrase_terms field_terms.

(** What is between an opening quote and the next one. *)

Fixpoint quoted_pieces (opened : option bytes) (s : bytes) : list bytes :=
  match s with
  | [] => []
  | c :: r =>
      match opened with
      | None => quoted_pieces (if is_quote c then Some [] else None) r
      | Some piece => if is_quote c then piece :: quoted_pieces None r else quoted_pieces (Some (piece ++ [c])) r
      end
  end.

Definition ExtractQuotedPhrases (case_sensitive : bool) (text : bytes) : list bytes :=
  cased case_sensitive <$>
    List.filter (fun p => negb (bool_decide (p = []))) (TrimWhitespace <$> quoted_pieces None (NormalizeQuotes text)).

(** ** Edit distance *)

(** A row after the one of the prefix before: [previous] from the column of the bytes
    that are left, [before] is the value to the left. *)

Fixpoint next_row (a : ascii) (right : bytes) (previous : list Z) (before : Z) : list Z :=
  match right, previous with
  | b :: bs, p0 :: (p1 :: _) as ps =>
      let current := Z.min (Z.min (p1 + 1) (before + 1)) (p0 + (if bool_decide (a = b) then 0 else 1)) in
      current :: next_row a bs ps current
  | _, _ => []
  end.

Fixpoint rows (i : Z) (left right : bytes) (previous : list Z) : list Z :=
  match left with
  | [] => previous
  | a :: r => rows (i + 1) r right (wrap_int32 i :: next_row a right previous (wrap_int32 i))
  end.

Definition first_row (right : bytes) : list Z := (fun j => wrap_int32 (Z.of_nat j)) <$> seq 0 (S (length right)).

Definition CalculateLevenshteinDistanceSimple (left right : bytes) : Z :=
  if bool_decide (left = right) then 0
  else if bool_decide (left = []) then wrap_int32 (size right)
  else if bool_decide (right = []) then wrap_int32 (size left)
  else default 0 (last (rows 1 left right (first_row right))).

Definition IsTypoTolerantMatchSimple (field_term term : bytes) (max_typos : Z) : bool :=
  if (max_typos <=? 0) || bool_decide (field_term = []) || bool_decide (term = []) then false
  else if max_typos <? Z.abs (wrap_int32 (size field_term) - wrap_int32 (size term)) then false
  else CalculateLevenshteinDistanceSimple field_term term <=? max_typos.

(** ** Fields *)

(** How a query matches: by prefix, with typing errors, in which case. *)

Record Mode := mkMode { allow_prefix_match : bool; max_typos : Z; case_sensitive : bool }.

Definition term_matches (m : Mode) (term field_term : bytes) : bool :=
  if existsb is_wild term then
    if case_sensitive m then Wildcard.MatchCaseSensitive field_term term else Wildcard.Match field_term term
  else
    bool_decide (field_term = term) ||
    ((0 <? max_typos m) && IsTypoTolerantMatchSimple field_term term (max_typos m)) ||
    (allow_prefix_match m && starts_with term field_term).

Definition FieldMatchesTermSimple (m : Mode) (field_value term : bytes) : bool :=
  if bool_decide (field_value = []) || bool_decide (term = []) then false
  else existsb (term_matches m term) (ExtractTermsSimple (case_sensitive m) field_value).

Abbreviation Document := LexicalIndex.Document.

Definition value_of (case_sensitive : bool) (name value : bytes) : list (bytes * bytes) :=
  if bool_decide (value = []) then [] else [(name, cased case_sensitive value)].

Definition find_field (name : bytes) (fields : list (bytes * bytes)) : bytes :=
  from_option snd [] (List.find (fun f => bool_decide (f.1 = name)) fields).

Definition requested_value (case_sensitive : bool) (doc : Document) (field_name : bytes) : list (bytes * bytes) :=
  value_of case_sensitive field_name
    (if bool_decide (field_name = #"id") then LexicalIndex.ID doc
     else if bool_decide (field_name = #"title") then LexicalIndex.Title doc
     else if bool_decide (field_name = #"content") then LexicalIndex.Content doc
     else find_field field_name (LexicalIndex.Fields doc)).

Definition AppendRequestedFieldValues (case_sensitive : bool) (doc : Document) (query_by : list bytes) : list (bytes * bytes) :=
  match query_by with
  | [] =>
      value_of case_sensitive #"title" (LexicalIndex.Title doc) ++ value_of case_sensitive #"content" (LexicalIndex.Content doc) ++
      (LexicalIndex.Fields doc ≫= fun f => value_of case_sensitive f.1 f.2)
  | _ => query_by ≫= requested_value case_sensitive doc
  end.

(** ** Structured queries *)

Record ParsedQueryClause := mkClause { Field : bytes; Value : bytes; Phrase : bool; Prohibited : bool }.

Record ParsedQueryExpression := mkExpression { Groups : list (list ParsedQueryClause); UsesStructuredSemantics : bool }.

Definition IsFieldSpecifier (value : bytes) : bool :=
  negb (bool_decide (value = [])) && forallb (fun c => isalnum c || bool_decide (c = "_"%char)) value.

(** Pieces between blanks that are not in quotes. *)

Fixpoint tokenize (in_quotes : bool) (token s : bytes) : list bytes :=
  match s with
  | [] => if bool_decide (token = []) then [] else [token]
  | c :: r =>
      if is_quote c then tokenize (negb in_quotes) (token ++ [c]) r
      else if negb in_quotes && isspace c then (if bool_decide (token = []) then [] else [token]) ++ tokenize false [] r
      else tokenize in_quotes (token ++ [c]) r
  end.

Definition TokenizeStructuredQuery (query_text : bytes) : list bytes := tokenize false [] (NormalizeQuotes query_text).

(** The marks in front of a token: whether there is one, and whether one prohibits. *)

Fixpoint marks (token : bytes) : bool * bool * bytes :=
  match token with
  | c :: r =>
      if bool_decide (c ∈ #"+-!") then let '(_, prohibited, t) := marks r in (true, bool_decide (c ∈ #"-!") || prohibited, t)
      else (false, false, token)
  | [] => (false, false, [])
  end.

Definition split_field (token : bytes) : option (bytes * bytes) :=
  match find_char (fun c => bool_decide (c = ":"%char)) token with
  | Some n => if IsFieldSpecifier (take n token) then Some (take n token, drop (n + 1) token) else None
  | None => None
  end.

(** The clause of a token, unless it is empty, and whether it is structured. *)

Definition parse_clause (case_sensitive : bool) (next_prohibited : bool) (raw : bytes) : option ParsedQueryClause * bool :=
  let '(marked, prohibited, token) := marks raw in
  let field := split_field token in
  let token := TrimWhitespace (from_option snd token field) in
  let uses := marked || bool_decide (is_Some field) in
  if bool_decide (token = []) then (None, uses)
  else
    let phrase := (2 <=? size token) && quoted_by quote token in
    let value := if phrase then cased case_sensitive (TrimWhitespace (StripQuotes token)) else NormalizeTermSimple case_sensitive token in
    (if bool_decide (value = []) then None else Some (mkClause (from_option fst [] field) value phrase (prohibited || next_prohibited)),
     uses || phrase).

Record parse_state := mkState {
  expression : ParsedQueryExpression; current_group : list ParsedQueryClause; next_prohibited : bool
}.

Definition push_group (uses : bool) (s : parse_state) : ParsedQueryExpression :=
  mkExpression (match current_group s with [] => Groups (expression s) | g => Groups (expression s) ++ [g] end)
    (UsesStructuredSemantics (expression s) || uses).

Definition use (uses : bool) (e : ParsedQueryExpression) : ParsedQueryExpression := mkExpression (Groups e) (UsesStructuredSemantics e || uses).

Definition parse_token (case_sensitive : bool) (s : parse_state) (raw_token : bytes) : parse_state :=
  let lowered := ToLowerCopy raw_token in
  if bool_decide (lowered = #"or") then mkState (push_group true s) [] false
  else if bool_decide (lowered = #"and") then mkState (use true (expression s)) (current_group s) (next_prohibited s)
  else if bool_decide (lowered = #"not") then mkState (use true (expression s)) (current_group s) true
  else
    let (clause, uses) := parse_clause case_sensitive (next_prohibited s) raw_token in
    mkState (use uses (expression s)) (current_group s ++ option_list clause) false.

Definition ParseStructuredQueryExpression (case_sensitive : bool) (query_text : bytes) : ParsedQueryExpression :=
  push_group false (foldl (parse_token case_sensitive) (mkState (mkExpression [] false) [] false) (TokenizeStructuredQuery query_text)).

(** ** Evaluation *)

Definition CollectFieldValuesForClause (case_sensitive : bool) (doc : Document) (clause : ParsedQueryClause) (query_by : list bytes) : list (bytes * bytes) :=
  AppendRequestedFieldValues case_sensitive doc (if bool_decide (Field clause = []) then query_by else [Field clause]).

Definition EvaluateQueryClause (m : Mode) (doc : Document) (query_by : list bytes) (clause : ParsedQueryClause) : bool :=
  existsb (fun field_val : bytes * bytes =>
      if Phrase clause then FieldContainsPhraseSimple (case_sensitive m) field_val.2 (Value clause)
      else FieldMatchesTermSimple m field_val.2 (Value clause))
    (CollectFieldValuesForClause (case_sensitive m) doc clause query_by).

Definition EvaluateParsedQueryExpression (m : Mode) (doc : Document) (query_by : list bytes) (e : ParsedQueryExpression) : bool :=
  match Groups e with
  | [] => true
  | groups => existsb (forallb (fun clause => xorb (Prohibited clause) (EvaluateQueryClause m doc query_by clause))) groups
  end.

(** ** Variants of a query *)

Definition BuildCandidateQueriesFromParsedExpression (e : ParsedQueryExpression) : list bytes :=
  sort_unique
    (List.filter (fun q => negb (bool_decide (q = [])))
      ((fun group => join_space (Value <$> List.filter (fun clause => negb (Prohibited clause)) group)) <$> Groups e)).

Definition BuildIndexQueryForSearch (query_text : bytes) (allow_prefix_match : bool) : bytes :=
  if negb allow_prefix_match then query_text
  else match ExtractTermsSimple false query_text with
       | [term] => if bool_decide (term = []) || existsb is_wild term then query_text else term ++ #"*"
       | _ => query_text
       end.

Definition BuildRelaxedQueryVariants (case_sensitive : bool) (query_text : bytes) (drop_tokens_threshold : Z) : list bytes :=
  let terms := ExtractTermsSimple case_sensitive query_text in
  if (drop_tokens_threshold <=? 0) || (wrap_int32 (size terms) <=? drop_tokens_threshold) || (size terms <=? 1) then [query_text]
  else
    sort_unique
      (query_text :: List.filter (fun v => negb (bool_decide (v = [])))
                       ((fun skip => join_space (base.delete skip terms)) <$> seq 0 (length terms))).

Definition BuildHighlightTermsForSearch (case_sensitive : bool) (query_text : bytes) : list bytes :=
  sort_unique
    (List.filter (fun t => negb (bool_decide (t = [])))
      ((fun t => NormalizeTermSimple case_sensitive (StripWildcardChars t)) <$> ExtractTermsSimple case_sensitive query_text)).

(** ** Matching a list of terms *)

Definition KeywordFieldMatchesExact (case_sensitive : bool) (field_values : list (bytes * bytes)) (query : bytes) : bool :=
  let normalized_query := cased case_sensitive (TrimWhitespace (StripQuotes query)) in
  negb (bool_decide (normalized_query = [])) &&
  existsb (fun field_value : bytes * bytes => bool_decide (TrimWhitespace field_value.2 = normalized_query)) field_values.

Definition QueriesOnlyKeywordFields (fields : gmap bytes bytes) (query_by : list bytes) : bool :=
  negb (bool_decide (query_by = [])) &&
  forallb (fun name => bool_decide (name = #"id") ||
                       match fields !! name with Some type => bool_decide (ToLowerCopy type = #"keyword") | None => false end) query_by.

(** Whether all terms are found, and how many are before the first that is not. *)

Fixpoint AllQueryTermsMatchRequestedFields (m : Mode) (field_values : list (bytes * bytes)) (query_terms : list bytes) (matched_terms : Z) : bool * Z :=
  match query_terms with
  | [] => (true, matched_terms)
  | term :: r =>
      if existsb (fun field_val : bytes * bytes => FieldMatchesTermSimple m field_val.2 term) field_values
      then AllQueryTermsMatchRequestedFields m field_values r (matched_terms + 1)
      else (false, matched_terms)
  end.

Fixpoint MatchesAnyQueryVariant (m : Mode) (field_values : list (bytes * bytes)) (variants : list (list bytes)) (best_matched_terms : Z) : bool * Z :=
  match variants with
  | [] => (false, best_matched_terms)
  | [] :: r => MatchesAnyQueryVariant m field_values r best_matched_terms
  | variant_terms :: r =>
      let (matched, matched_terms) := AllQueryTermsMatchRequestedFields m field_values variant_terms 0 in
      if matched then (true, matched_terms) else MatchesAnyQueryVariant m field_values r (Z.max best_matched_terms matched_terms)
  end.

Definition AllQuotedPhrasesMatchRequestedFields (field_values : list (bytes * bytes)) (quoted_phrases : list bytes) : bool :=
  forallb (fun phrase => existsb (fun field_val : bytes * bytes => FieldContainsPhraseSimple false field_val.2 phrase) field_values) quoted_phrases.

(** ** Boosts *)

Definition CalculateRequestedFieldExactMatchBoost (case_sensitive : bool) (doc : Document) (query_by : list bytes) (normalized_query : bytes)
    (exact_match_boost title_exact_boost : double) : double :=
  if bool_decide (normalized_query = []) then DocValues.of_Z 1
  else
    foldl (fun match_boost (field_val : bytes * bytes) =>
        if bool_decide (is_Some (find_sub normalized_query field_val.2)) then
          DocValues.fmax match_boost (if FieldNameHasToken field_val.1 LexicalIndex.title_tokens then title_exact_boost else exact_match_boost)
        else match_boost)
      (DocValues.of_Z 1) (AppendRequestedFieldValues case_sensitive doc query_by).

(** [term_boosts] in the order of its keys. *)

Definition tenth : double := DocValues.literal 1 (-1).

Definition CalculateInlineTermBoost (case_sensitive : bool) (doc : Document) (query_by : list bytes) (term_boosts : list (bytes * double)) : double :=
  let field_values := AppendRequestedFieldValues case_sensitive doc query_by in
  foldl (fun multiplier (boost : bytes * double) =>
      if existsb (fun field_val : bytes * bytes => FieldMatchesTermSimple (mkMode false 0 case_sensitive) field_val.2 boost.1) field_values
      then DocValues.mul multiplier (DocValues.fmax tenth boost.2)
      else multiplier)
    (DocValues.of_Z 1) term_boosts.

End QueryMatch.
