(* ===== verification/EditDistance.v ===== *)
(** * Edit distance of src/api/lexical.cpp

    The two-row computation gives the least number of insertions, deletions and
    replacements that lead from one text to the other, and the test on the lengths in
    front of it changes nothing. *)

From S2P Require Import Prelude CText QueryMatch.
Import QueryMatch.

Module EditDistance.

(** [edits n s t]: [n] single-byte edits lead from [s] to [t]. *)

Inductive edits : Z -> bytes -> bytes -> Prop :=
| edits_nil : edits 0 [] []
| edits_keep n a s t : edits n s t -> edits n (a :: s) (a :: t)
| edits_replace n a b s t : edits n s t -> edits (n + 1) (a :: s) (b :: t)
| edits_delete n a s t : edits n s t -> edits (n + 1) (a :: s) t
| edits_insert n b s t : edits n s t -> edits (n + 1) s (b :: t).

#[local] Hint Constructors edits : edits.

Lemma edits_nonneg n s t : edits n s t -> 0 <= n.
Proof. induction 1; lia. Qed.

Lemma edits_same s : edits 0 s s.
Proof. induction s; auto with edits. Qed.

Lemma edits_app n s t m s' t' : edits n s t -> edits m s' t' -> edits (n + m) (s ++ s') (t ++ t').
Proof.
  intros H H'. induction H; cbn [app]; [done|by constructor|..]; replace (n + 1 + m) with (n + m + 1) by lia; by constructor.
Qed.

Lemma edits_reverse n s t : edits n s t -> edits n (reverse s) (reverse t).
Proof.
  induction 1 as [|n a s t H IH|n a b s t H IH|n a s t H IH|n b s t H IH]; [constructor|..]; rewrite ?reverse_cons.
  - rewrite <- (Z.add_0_r n). apply edits_app; [done|]. apply edits_same.
  - apply edits_app; [done|]. apply (edits_replace 0), edits_nil.
  - rewrite <- (app_nil_r (reverse t)). apply edits_app; [done|]. apply (edits_delete 0), edits_nil.
  - rewrite <- (app_nil_r (reverse s)). apply edits_app; [done|]. apply (edits_insert 0), edits_nil.
Qed.

Lemma edits_lengths n s t : edits n s t -> Z.abs (size s - size t) <= n.
Proof. unfold size. induction 1; cbn [length] in *; lia. Qed.

(** The distance by recursion on both texts. *)

Fixpoint distance (s : bytes) : bytes -> Z :=
  fix on t :=
    match s, t with
    | [], _ => size t
    | _, [] => size s
    | a :: s', b :: t' => Z.min (Z.min (distance s' t + 1) (on t' + 1)) (distance s' t' + if bool_decide (a = b) then 0 else 1)
    end.

Lemma distance_nil_l t : distance [] t = size t.
Proof. by destruct t. Qed.

Lemma distance_nil_r s : distance s [] = size s.
Proof. by destruct s. Qed.

Lemma distance_cons a s b t :
  distance (a :: s) (b :: t) = Z.min (Z.min (distance s (b :: t) + 1) (distance (a :: s) t + 1)) (distance s t + if bool_decide (a = b) then 0 else 1).
Proof. done. Qed.

Lemma edits_all_insert t : edits (size t) [] t.
Proof. unfold size. induction t as [|b t IH]; [constructor|]. cbn [length]. rewrite Nat2Z.inj_succ. by constructor. Qed.

Lemma edits_all_delete s : edits (size s) s [].
Proof. unfold size. induction s as [|a s IH]; [constructor|]. cbn [length]. rewrite Nat2Z.inj_succ. by constructor. Qed.

Lemma distance_edits s t : edits (distance s t) s t.
Proof.
  revert t. induction s as [|a s IHs]; intros t; [rewrite distance_nil_l; apply edits_all_insert|].
  induction t as [|b t IHt]; [rewrite distance_nil_r; apply edits_all_delete|]. rewrite distance_cons.
  destruct (Z.min_dec (Z.min (distance s (b :: t) + 1) (distance (a :: s) t + 1)) (distance s t + if bool_decide (a = b) then 0 else 1)) as [->| ->].
  - destruct (Z.min_dec (distance s (b :: t) + 1) (distance (a :: s) t + 1)) as [->| ->]; by constructor.
  - case_bool_decide; [subst; rewrite Z.add_0_r|]; by constructor.
Qed.

Lemma distance_least n s t : edits n s t -> distance s t <= n.
Proof.
  induction 1 as [|n a s t H IH|n a b s t H IH|n a s t H IH|n b s t H IH]; [done|..].
  - rewrite distance_cons, bool_decide_true by done. lia.
  - rewrite distance_cons. case_bool_decide; lia.
  - destruct t as [|b t]; [rewrite distance_nil_r in *; unfold size in *; cbn [length]; lia|]. rewrite distance_cons. lia.
  - destruct s as [|a s]; [rewrite distance_nil_l in *; unfold size in *; cbn [length]; lia|]. rewrite distance_cons. lia.
Qed.

Lemma distance_reverse s t : distance (reverse s) (reverse t) = distance s t.
Proof.
  assert (forall s t, distance (reverse s) (reverse t) <= distance s t) as H by (intros; apply distance_least, edits_reverse, distance_edits).
  apply Z.le_antisymm; [done|]. specialize (H (reverse s) (reverse t)). by rewrite !reverse_involutive in H.
Qed.

(** ** The rows *)

(** The row of the prefix [p] (reversed) from the column of the prefix [q] (reversed) on. *)

Fixpoint row (p q right : bytes) : list Z :=
  distance p q :: match right with [] => [] | b :: r => row p (b :: q) r end.

Lemma row_head p q right : exists l, row p q right = distance p q :: l.
Proof. destruct right; by eexists. Qed.

Lemma next_row_spec a p right : forall q,
  distance (a :: p) q :: next_row a right (row p q right) (distance (a :: p) q) = row (a :: p) q right.
Proof.
  induction right as [|b r IH]; intros q; [done|]. cbn [row next_row]. destruct (row_head p (b :: q) r) as [l El]. rewrite El.
  assert (Z.min (Z.min (distance p (b :: q) + 1) (distance (a :: p) q + 1)) (distance p q + (if bool_decide (a = b) then 0 else 1)) = distance (a :: p) (b :: q)) as ->
    by by rewrite distance_cons.
  rewrite <- El. by rewrite IH.
Qed.

Lemma wrap_int32_small z : 0 <= z < 2 ^ 31 -> wrap_int32 z = z.
Proof. intros H. unfold wrap_int32. rewrite Z.mod_small; lia. Qed.

Lemma first_row_spec right : size right < 2 ^ 31 -> first_row right = row [] [] right.
Proof.
  intros Hs. unfold first_row.
  assert (forall k q, length q = k -> size q + size right < 2 ^ 31 ->
    ((fun j => wrap_int32 (Z.of_nat j)) <$> seq k (S (length right))) = row [] q right) as H; [|apply (H 0%nat []); [done|by change (size []) with 0]].
  induction right as [|b r IH]; intros k q Hq Hb; unfold size in *; cbn [seq fmap list_fmap row length] in *; rewrite distance_nil_l, wrap_int32_small by lia.
  - unfold size. by rewrite Hq.
  - f_equal; [unfold size; lia|]. apply IH; cbn [length]; lia.
Qed.

Lemma rows_spec right left : forall p i,
  i = size p + 1 -> size p + size left < 2 ^ 31 -> rows i left right (row p [] right) = row (reverse left ++ p) [] right.
Proof.
  induction left as [|a r IH]; intros p i -> Hb; cbn [rows]; [done|]. unfold size in *. cbn [length] in *.
  rewrite wrap_int32_small by lia. replace (Z.of_nat (length p) + 1) with (distance (a :: p) []) by (rewrite distance_nil_r; unfold size; cbn [length]; lia).
  rewrite next_row_spec, reverse_cons, <- app_assoc. cbn [app]. apply IH; rewrite ?distance_nil_r; unfold size; cbn [length]; lia.
Qed.

Lemma row_last p q right : last (row p q right) = Some (distance p (reverse right ++ q)).
Proof.
  revert q. induction right as [|b r IH]; intros q; [done|]. cbn [row]. destruct (row_head p (b :: q) r) as [l El]. rewrite El, last_cons_cons, <- El, IH.
  by rewrite reverse_cons, <- app_assoc.
Qed.

Lemma levenshtein_distance left right :
  size left < 2 ^ 31 -> size right < 2 ^ 31 -> CalculateLevenshteinDistanceSimple left right = distance left right.
Proof.
  intros Hl Hr. unfold CalculateLevenshteinDistanceSimple. case_bool_decide as E.
  { subst. apply Z.le_antisymm; [by eapply edits_nonneg, distance_edits|apply distance_least, edits_same]. }
  case_bool_decide; [subst; rewrite distance_nil_l; apply wrap_int32_small; unfold size in *; lia|].
  case_bool_decide; [subst; rewrite distance_nil_r; apply wrap_int32_small; unfold size in *; lia|].
  rewrite first_row_spec by done. rewrite (rows_spec right left [] 1) by (unfold size in *; cbn [length]; lia).
  rewrite app_nil_r, row_last, app_nil_r. apply distance_reverse.
Qed.

Lemma typo_match field_term term k :
  size field_term < 2 ^ 31 -> size term < 2 ^ 31 ->
  IsTypoTolerantMatchSimple field_term term k = true <-> 0 < k /\ field_term <> [] /\ term <> [] /\ exists n, n <= k /\ edits n field_term term.
Proof.
  intros Hf Ht. unfold IsTypoTolerantMatchSimple. rewrite !wrap_int32_small, levenshtein_distance by (unfold size in *; lia || done).
  destruct (k <=? 0) eqn:Ek; [split; [done|lia]|]. do 2 (case_bool_decide; [split; [done|tauto]|]). cbn [orb].
  assert (forall n, edits n field_term term -> distance field_term term <= n) as Hd by (intros; by apply distance_least).
  pose proof (distance_edits field_term term) as He. pose proof (edits_lengths _ _ _ He) as Hlen. destruct (k <? _) eqn:El; [split; [done|]|rewrite Z.leb_le; split].
  - intros (_ & _ & _ & n & Hn & Hed). apply Hd in Hed. lia.
  - intros Hk. split_and!; [lia|done|done|]. by exists (distance field_term term).
  - intros (_ & _ & _ & n & Hn & Hed). apply Hd in Hed. lia.
Qed.

(** ** Claims *)

(** C25. The two-row computation is the edit distance: for texts whose lengths fit an
    [int], it is the number of single-byte insertions, deletions and replacements of some
    way from one text to the other, and no way is shorter. A typing-error match holds
    exactly when both texts are non-empty and some way has at most the allowed number of
    edits: the test on the lengths loses no match. *)
Theorem levenshtein_exact (left right : bytes) (max_typos : Z) :
  size left < 2 ^ 31 -> size right < 2 ^ 31 ->
  edits (CalculateLevenshteinDistanceSimple left right) left right /\
  (forall n, edits n left right -> CalculateLevenshteinDistanceSimple left right <= n) /\
  (IsTypoTolerantMatchSimple left right max_typos = true <->
   0 < max_typos /\ left <> [] /\ right <> [] /\ exists n, n <= max_typos /\ edits n left right).
Proof.
  intros Hl Hr. rewrite levenshtein_distance by done. split; [apply distance_edits|]. split; [intros n; apply distance_least|by apply typo_match].
Qed.

Lemma levenshtein_exact_witness : edits 3 #"kitten" #"sitting" /\ (forall n, edits n #"kitten" #"sitting" -> 3 <= n).
Proof.
  destruct (levenshtein_exact #"kitten" #"sitting" 2) as (H1 & H2 & _); [vm_compute; reflexivity|vm_compute; reflexivity|].
  change 3 with (CalculateLevenshteinDistanceSimple #"kitten" #"sitting"). split; [exact H1|exact H2].
Defined.

End EditDistance.
