(* ===== verification/QueryMatchProps.v ===== *)
(** * Structured queries: what a query text selects

    A query that is written from groups of clauses is read back, and evaluating it is the
    disjunction of the groups, with every clause in terms of the terms of the document. *)

From Stdlib Require Import SpecFloat.
From S2P Require Import Prelude CText Wildcard DocValues LexicalTerms LexicalTermsProps LexicalIndex QueryMatch EditDistance.
Import LexicalTerms LexicalTermsProps QueryMatch EditDistance.

Module QueryMatchProps.

(** ** Quotes *)

Definition first_utf8 : ascii := chr 226.

Lemma replace_none last to s : first_utf8 ∉ s -> replace_all 0 (utf8_quote last) to s = s.
Proof.
  induction s as [|c r IH]; intros H; [done|]. apply not_elem_of_cons in H as [Hc Hr]. cbn [replace_all].
  destruct (starts_with (utf8_quote last) (c :: r)) eqn:E; [|by rewrite IH].
  unfold starts_with in E. apply bool_decide_eq_true in E. apply (f_equal head) in E. change (Some c = Some first_utf8) in E.
  injection E as ->. by destruct Hc.
Qed.

Lemma NormalizeQuotes_plain s : first_utf8 ∉ s -> NormalizeQuotes s = s.
Proof. intros H. unfold NormalizeQuotes. cbv zeta. by rewrite (replace_none 156), (replace_none 157), (replace_none 152), (replace_none 153) by done. Qed.

(** ** Tokens *)

(** A text that the tokenizer takes whole. *)

Definition solid (t : bytes) : Prop := forall acc rest, tokenize false acc (t ++ rest) = tokenize false (acc ++ t) rest.

Lemma solid_nil : solid [].
Proof. intros acc rest. by rewrite app_nil_r. Qed.

Lemma solid_app a b : solid a -> solid b -> solid (a ++ b).
Proof. intros Ha Hb acc rest. by rewrite <- app_assoc, Ha, Hb, app_assoc. Qed.

Lemma solid_plain t : Forall (fun c => isspace c = false /\ is_quote c = false) t -> solid t.
Proof.
  induction 1 as [|c t [H1 H2] _ IH]; [apply solid_nil|]. intros acc rest. cbn [app tokenize]. rewrite H2, H1. cbn [negb andb].
  rewrite IH. by rewrite <- app_assoc.
Qed.

Lemma tokenize_quoted t acc rest : quote ∉ t -> tokenize true acc (t ++ quote :: rest) = tokenize false (acc ++ t ++ [quote]) rest.
Proof.
  revert acc. induction t as [|c t IH]; intros acc H.
  - cbn [app tokenize]. unfold is_quote. by rewrite bool_decide_true.
  - apply not_elem_of_cons in H as [Hc Ht]. cbn [app tokenize]. unfold is_quote at 1. rewrite bool_decide_false by congruence. cbn [negb andb].
    rewrite IH by done. by rewrite <- app_assoc.
Qed.

Lemma solid_quoted t : quote ∉ t -> solid (quote :: t ++ [quote]).
Proof.
  intros H acc rest. cbn [app tokenize]. unfold is_quote at 1. rewrite bool_decide_true by done. cbn [negb].
  rewrite <- app_assoc. cbn [app]. rewrite tokenize_quoted by done. by rewrite <- app_assoc.
Qed.

Lemma tokenize_join ts : Forall (fun t => solid t /\ t <> []) ts -> tokenize false [] (join_space ts) = ts.
Proof.
  destruct 1 as [|t ts [Ht Hne] Hts]; [done|]. cbn [join_space].
  assert (forall t, solid t -> t <> [] -> tokenize false [] (t ++ (ts ≫= fun y => #" " ++ y)) = t :: ts) as H; [|by apply H].
  clear t Ht Hne. induction Hts as [|u ts [Hu Hune] Hts IH]; intros t Ht Hne; rewrite Ht; cbn [app].
  - cbn [mbind list_bind tokenize]. by rewrite bool_decide_false.
  - change ((u :: ts) ≫= fun y => #" " ++ y) with (" "%char :: u ++ (ts ≫= fun y => #" " ++ y)). cbn [tokenize].
    change (is_quote " "%char) with false. change (isspace " "%char) with true. cbn [negb andb]. rewrite bool_decide_false by done. cbn [app].
    by rewrite IH.
Qed.

(** ** Printing a query *)

Definition print_clause (c : ParsedQueryClause) : bytes :=
  (if Prohibited c then #"-" else []) ++ (if bool_decide (Field c = []) then [] else Field c ++ #":") ++
  (if Phrase c then quote :: Value c ++ [quote] else Value c).

Definition group_tokens (g : list ParsedQueryClause) : list bytes := print_clause <$> g.

Fixpoint query_tokens (groups : list (list ParsedQueryClause)) : list bytes :=
  match groups with
  | [] => []
  | g :: r => group_tokens g ++ match r with [] => [] | _ => #"or" :: query_tokens r end
  end.

Definition print_query (groups : list (list ParsedQueryClause)) : bytes := join_space (query_tokens groups).

(** Clauses that can be written: the value is one that the parser produces, and it is
    neither a keyword nor taken for a field. *)

Definition is_keyword (t : bytes) : bool := bool_decide (ToLowerCopy t ∈ [ #"or"; #"and"; #"not"]).

Definition plain_byte (c : ascii) : bool := negb (isspace c) && negb (is_quote c) && negb (bool_decide (c = first_utf8)).

Definition printable_value (case_sensitive : bool) (c : ParsedQueryClause) : bool :=
  if Phrase c then
    forallb (fun x => negb (is_quote x) && negb (bool_decide (x = first_utf8))) (Value c) &&
    bool_decide (TrimWhitespace (Value c) = Value c) && bool_decide (cased case_sensitive (Value c) = Value c)
  else
    forallb plain_byte (Value c) && bool_decide (NormalizeTermSimple case_sensitive (Value c) = Value c) &&
    (negb (bool_decide (Field c = [])) || bool_decide (split_field (Value c) = None)).

Definition printable (case_sensitive : bool) (c : ParsedQueryClause) : bool :=
  negb (bool_decide (Value c = [])) && (bool_decide (Field c = []) || IsFieldSpecifier (Field c)) && negb (is_keyword (print_clause c)) &&
  printable_value case_sensitive c.

Definition printable_query (case_sensitive : bool) (groups : list (list ParsedQueryClause)) : bool :=
  forallb (fun g => negb (bool_decide (g = [])) && forallb (printable case_sensitive) g) groups.

(** ** Reading a printed clause *)

Definition is_mark (c : ascii) : bool := bool_decide (c ∈ #"+-!").

Lemma marks_none t : (forall c, head t = Some c -> is_mark c = false) -> marks t = (false, false, t).
Proof. destruct t as [|c t]; [done|]. intros H. cbn [marks]. fold (is_mark c). by rewrite H. Qed.

Lemma marks_minus t : (forall c, head t = Some c -> is_mark c = false) -> marks (#"-" ++ t) = (true, true, t).
Proof. intros H. change (#"-" ++ t) with ("-"%char :: t). cbn [marks]. rewrite marks_none by done. reflexivity. Qed.

Lemma quote_bytes : isspace quote = false /\ is_mark quote = false /\ isalnum quote = false /\ is_blank quote = false.
Proof. done. Qed.

Lemma specifier_byte c : isalnum c || bool_decide (c = "_"%char) = true -> is_mark c = false /\ plain_byte c = true /\ c <> ":"%char.
Proof.
  revert c. assert (forallb (fun c => implb (isalnum c || bool_decide (c = "_"%char)) (negb (is_mark c) && plain_byte c && negb (bool_decide (c = ":"%char)))) all_ascii = true) as H
    by (vm_compute; reflexivity).
  intros c Hc. pose proof (proj1 (forallb_forall _ _) H c ltac:(apply list_elem_of_In, elem_of_all_ascii)) as Hb. cbn beta in Hb. rewrite Hc in Hb.
  cbn [implb] in Hb. rewrite !andb_true_iff, !negb_true_iff, bool_decide_eq_false in Hb. tauto.
Qed.

Lemma edge_byte c : keeps_edge c = true -> is_mark c = false.
Proof.
  revert c. assert (forallb (fun c => implb (keeps_edge c) (negb (is_mark c))) all_ascii = true) as H by (vm_compute; reflexivity).
  intros c Hc. pose proof (proj1 (forallb_forall _ _) H c ltac:(apply list_elem_of_In, elem_of_all_ascii)) as Hb. cbn beta in Hb. rewrite Hc in Hb.
  cbn [implb] in Hb. by apply negb_true_iff.
Qed.

Lemma specifier_inv f : IsFieldSpecifier f = true -> f <> [] /\ Forall (fun c => isalnum c || bool_decide (c = "_"%char) = true) f.
Proof.
  unfold IsFieldSpecifier. intros [H1 H2]%andb_true_iff. apply negb_true_iff, bool_decide_eq_false in H1. split; [done|].
  apply Forall_forall. intros c Hc. by apply (proj1 (forallb_forall _ _) H2), list_elem_of_In.
Qed.

Lemma find_char_app p a b : Forall (fun c => p c = false) a -> find_char p (a ++ b) = (fun n => length a + n)%nat <$> find_char p b.
Proof.
  induction 1 as [|c a Hc Ha IH]; cbn [app find_char length]; [by destruct (find_char p b)|]. rewrite Hc, IH. by destruct (find_char p b).
Qed.

Lemma split_field_spec f v : IsFieldSpecifier f = true -> split_field (f ++ #":" ++ v) = Some (f, v).
Proof.
  intros Hf. pose proof (specifier_inv f Hf) as [_ Ha]. unfold split_field. rewrite find_char_app.
  - change (#":" ++ v) with (":"%char :: v). cbn [find_char]. rewrite bool_decide_true by done. cbn [fmap option_fmap option_map].
    rewrite Nat.add_0_r, take_app_length, Hf. rewrite drop_app_ge by lia. by replace (length f + 1 - length f)%nat with 1%nat by lia.
  - eapply Forall_impl; [exact Ha|]. intros c Hc. apply bool_decide_eq_false. by apply specifier_byte in Hc as (_ & _ & ?).
Qed.

(** A text that starts with a quote has no field. *)

Lemma split_field_quote v : split_field (quote :: v) = None.
Proof.
  unfold split_field. destruct (find_char _ (quote :: v)) as [[|n]|] eqn:E; [by cbn in E|reflexivity|done].
Qed.

Lemma trim_edges_id p s : edges p s -> trim p s = s.
Proof. intros H. by apply (trim_edges p [] s). Qed.

Lemma trim_none p s : Forall (fun c => p c = false) s -> trim p s = s.
Proof.
  destruct s as [|c s]; [done|]. intros H. apply trim_edges_id. exists c. rewrite Forall_cons in H. destruct H as [Hc Hs].
  destruct (last (c :: s)) as [d|] eqn:E; [|by apply last_None in E]. exists d. split_and!; [done..|]. apply last_Some in E as [l E].
  assert (d ∈ c :: s) as Hd by (rewrite E; apply elem_of_app; right; by left). apply elem_of_cons in Hd as [->|Hd]; [done|]. by rewrite Forall_forall in Hs; apply Hs.
Qed.

Lemma quoted_edges v : edges is_blank (quote :: v ++ [quote]).
Proof. exists quote, quote. split_and!; [done| |done|done]. change (quote :: v ++ [quote]) with ((quote :: v) ++ [quote]). apply last_snoc. Qed.

Lemma quoted_quoted v : quoted_by quote (quote :: v ++ [quote]) = true.
Proof.
  unfold quoted_by. change (quote :: v ++ [quote]) with ((quote :: v) ++ [quote]). rewrite last_snoc. cbn [head app]. by rewrite !bool_decide_true.
Qed.

Lemma strip_quoted v : StripQuotes (quote :: v ++ [quote]) = v.
Proof.
  unfold StripQuotes. rewrite quoted_quoted. unfold size. cbn [length]. rewrite length_app. cbn [length].
  replace (2 <=? Z.of_nat (S (length v + 1))) with true by (symmetry; apply Z.leb_le; lia). cbn [andb orb drop].
  replace (S (length v + 1) - 2)%nat with (length v) by lia. apply take_app_length.
Qed.

Lemma quote_not_plain v : forallb plain_byte v = true -> quote ∉ v /\ first_utf8 ∉ v /\ Forall (fun c => is_blank c = false) v /\ Forall (fun c => isspace c = false /\ is_quote c = false) v.
Proof.
  intros H. assert (Forall (fun c => plain_byte c = true) v) as F by (apply Forall_forall; intros c Hc; by apply (proj1 (forallb_forall _ _) H), list_elem_of_In).
  assert (forall c, plain_byte c = true -> isspace c = false /\ is_quote c = false /\ c <> first_utf8) as P.
  { intros c. unfold plain_byte. rewrite !andb_true_iff, !negb_true_iff, bool_decide_eq_false. tauto. }
  rewrite Forall_forall in F. split_and!.
  - intros Hq. apply F, P in Hq as (_ & Hq & _). done.
  - intros Hq. apply F, P in Hq as (_ & _ & Hq). done.
  - apply Forall_forall. intros c Hc. apply F, P in Hc as (Hs & _ & _). unfold is_blank. apply bool_decide_eq_false. intros Hin.
    rewrite !elem_of_cons in Hin. destruct Hin as [->|[->|[->|[->|Hin]]]]; try done. by apply elem_of_nil in Hin.
  - apply Forall_forall. intros c Hc. apply F, P in Hc as (Hs & Hq & _). done.
Qed.

Lemma strip_front_head s c r : strip_front false s = c :: r -> keeps_edge c = true.
Proof.
  induction s as [|x s IH]; [done|]. cbn [strip_front andb]. rewrite orb_false_r. destruct (keeps_edge x) eqn:E; [|done]. by intros [= -> _].
Qed.

Lemma normalized_head cs v : NormalizeTermSimple cs v = v -> v <> [] -> exists c r, v = c :: r /\ keeps_edge c = true.
Proof.
  unfold NormalizeTermSimple. intros E Hv. destruct v as [|c r]; [done|]. exists c, r. split; [done|].
  destruct (strip_back_spec (strip_front false (cased cs (c :: r)))) as (z & Hz & _). rewrite E in Hz. by apply strip_front_head in Hz.
Qed.

(** The body of a printed clause. *)

Definition clause_value (c : ParsedQueryClause) : bytes := if Phrase c then quote :: Value c ++ [quote] else Value c.

Definition clause_body (c : ParsedQueryClause) : bytes := (if bool_decide (Field c = []) then [] else Field c ++ #":") ++ clause_value c.

Lemma print_body c : print_clause c = (if Prohibited c then #"-" else []) ++ clause_body c.
Proof. done. Qed.

Lemma printable_inv cs c : printable cs c = true ->
  Value c <> [] /\ (Field c = [] \/ IsFieldSpecifier (Field c) = true) /\ is_keyword (print_clause c) = false /\ printable_value cs c = true.
Proof.
  unfold printable. rewrite !andb_true_iff, !negb_true_iff, orb_true_iff, bool_decide_eq_false, bool_decide_eq_true. tauto.
Qed.

Lemma phrase_inv cs c : Phrase c = true -> printable_value cs c = true ->
  quote ∉ Value c /\ first_utf8 ∉ Value c /\ TrimWhitespace (Value c) = Value c /\ cased cs (Value c) = Value c.
Proof.
  unfold printable_value. intros ->. rewrite !andb_true_iff, !bool_decide_eq_true. intros [[H H1] H2].
  assert (forall x, x ∈ Value c -> is_quote x = false /\ x <> first_utf8) as F.
  { intros x Hx. apply list_elem_of_In in Hx. apply (proj1 (forallb_forall _ _) H) in Hx. by rewrite andb_true_iff, !negb_true_iff, bool_decide_eq_false in Hx. }
  split_and!; [|by intros [_ ?]%F|done|done]. intros Hq%F. by destruct Hq.
Qed.

Lemma term_inv cs c : Phrase c = false -> printable_value cs c = true ->
  forallb plain_byte (Value c) = true /\ NormalizeTermSimple cs (Value c) = Value c /\ (Field c = [] -> split_field (Value c) = None).
Proof.
  unfold printable_value. intros ->. rewrite !andb_true_iff, orb_true_iff, negb_true_iff, bool_decide_eq_false, !bool_decide_eq_true. intros [[H1 H2] H3].
  split_and!; [done|done|tauto].
Qed.

Lemma body_head cs c x : printable cs c = true -> head (clause_body c) = Some x -> is_mark x = false.
Proof.
  intros (Hv & Hf & _ & Hp)%printable_inv. unfold clause_body, clause_value. case_bool_decide as Ef.
  - cbn [app]. destruct (Phrase c) eqn:P; [by intros [= <-]|]. destruct (term_inv cs c P Hp) as (_ & Hn & _).
    destruct (normalized_head cs _ Hn Hv) as (y & r & -> & Hy). intros [= <-]. by apply edge_byte.
  - destruct Hf as [?|Hf]; [done|]. apply specifier_inv in Hf as [_ Ha]. destruct (Field c) as [|y r]; [done|]. intros [= <-].
    apply Forall_cons in Ha as [Hy _]. by apply specifier_byte in Hy as [Hm _].
Qed.

Lemma print_marks cs c : printable cs c = true -> marks (print_clause c) = (Prohibited c, Prohibited c, clause_body c).
Proof.
  intros H. rewrite print_body. destruct (Prohibited c); [apply marks_minus|apply marks_none]; intros x; by apply (body_head cs).
Qed.

Lemma body_field cs c : printable cs c = true -> split_field (clause_body c) = if bool_decide (Field c = []) then None else Some (Field c, clause_value c).
Proof.
  intros (Hv & Hf & _ & Hp)%printable_inv. unfold clause_body. case_bool_decide as Ef.
  - cbn [app]. unfold clause_value. destruct (Phrase c) eqn:P; [apply split_field_quote|]. by apply (term_inv cs).
  - destruct Hf as [?|Hf]; [done|]. rewrite <- app_assoc. by apply split_field_spec.
Qed.

Lemma value_trimmed cs c : printable cs c = true -> TrimWhitespace (clause_value c) = clause_value c.
Proof.
  intros (Hv & _ & _ & Hp)%printable_inv. unfold clause_value. destruct (Phrase c) eqn:P; [apply trim_edges_id, quoted_edges|].
  destruct (term_inv cs c P Hp) as (Hb & _). apply trim_none. by apply quote_not_plain in Hb as (_ & _ & ? & _).
Qed.

Lemma clause_eta c b : Phrase c = b -> mkClause (Field c) (Value c) b (Prohibited c) = c.
Proof. intros <-. by destruct c. Qed.

Lemma parse_printed_clause cs c : printable cs c = true -> exists uses, parse_clause cs false (print_clause c) = (Some c, uses).
Proof.
  intros H. unfold parse_clause. rewrite (print_marks cs), (body_field cs) by done.
  assert (from_option snd (clause_body c) (if bool_decide (Field c = []) then None else Some (Field c, clause_value c)) = clause_value c) as ->.
  { unfold clause_body. by case_bool_decide. }
  assert (from_option fst [] (if bool_decide (Field c = []) then None else Some (Field c, clause_value c)) = Field c) as ->.
  { by case_bool_decide. }
  rewrite (value_trimmed cs) by done. apply printable_inv in H as (Hv & _ & _ & Hp). rewrite orb_false_r. unfold clause_value. destruct (Phrase c) eqn:P.
  - destruct (phrase_inv cs c P Hp) as (_ & _ & Ht & Hc). rewrite bool_decide_false by done. rewrite quoted_quoted, strip_quoted.
    replace (2 <=? size (quote :: Value c ++ [quote])) with true by (symmetry; apply Z.leb_le; unfold size; cbn [length]; rewrite length_app; cbn [length]; lia).
    cbn [andb]. rewrite Ht, Hc, bool_decide_false by done. eexists. by rewrite (clause_eta c true).
  - destruct (term_inv cs c P Hp) as (Hb & Hn & _). apply quote_not_plain in Hb as (Hq & _). rewrite bool_decide_false by done.
    assert (quoted_by quote (Value c) = false) as ->.
    { unfold quoted_by. rewrite bool_decide_false; [done|]. destruct (Value c) as [|x r]; [done|]. intros [= ->]. apply Hq. by left. }
    rewrite andb_false_r, Hn, bool_decide_false by done. eexists. by rewrite (clause_eta c false).
Qed.

(** ** Reading a printed query *)

Lemma clause_solid cs c : printable cs c = true -> solid (print_clause c) /\ print_clause c <> [] /\ first_utf8 ∉ print_clause c.
Proof.
  intros (Hv & Hf & _ & Hp)%printable_inv. unfold print_clause.
  assert (solid (if Prohibited c then #"-" else []) /\ first_utf8 ∉ (if Prohibited c then #"-" else [])) as [M1 M2].
  { destruct (Prohibited c); (split; [apply solid_plain; repeat constructor|by refine (bool_decide_eq_true_1 _ _)]). }
  assert (solid (if bool_decide (Field c = []) then [] else Field c ++ #":") /\ first_utf8 ∉ (if bool_decide (Field c = []) then [] else Field c ++ #":")) as [F1 F2].
  { case_bool_decide as Ef; [split; [apply solid_nil|apply not_elem_of_nil]|]. destruct Hf as [?|Hf]; [done|]. apply specifier_inv in Hf as [_ Ha]. rewrite Forall_forall in Ha.
    assert (forallb plain_byte (Field c) = true) as Hb by (apply forallb_forall; intros x Hx; apply specifier_byte, Ha; by apply list_elem_of_In).
    apply quote_not_plain in Hb as (_ & Hu & _ & Hs). split; [apply solid_app; [by apply solid_plain|apply solid_plain; repeat constructor]|].
    intros [?|Hin]%elem_of_app; [done|]. revert Hin. by refine (bool_decide_eq_true_1 _ _). }
  fold (clause_value c).
  assert (solid (clause_value c) /\ first_utf8 ∉ clause_value c /\ clause_value c <> []) as (V1 & V2 & V3).
  { unfold clause_value. destruct (Phrase c) eqn:P.
    - destruct (phrase_inv cs c P Hp) as (Hq & Hu & _). split; [by apply solid_quoted|]. split; [|done].
      intros [?|[?|Hin]%elem_of_app]%elem_of_cons; [done|done|]. revert Hin. by refine (bool_decide_eq_true_1 _ _).
    - destruct (term_inv cs c P Hp) as (Hb & _). apply quote_not_plain in Hb as (_ & Hu & _ & Hs). split; [by apply solid_plain|done]. }
  split_and!.
  - by apply solid_app; [|apply solid_app].
  - intros E. apply app_nil in E as [_ E]. by apply app_nil in E as [_ E].
  - rewrite !elem_of_app. tauto.
Qed.

Lemma parse_token_printed cs e g c : printable cs c = true ->
  exists e', Groups e' = Groups e /\ parse_token cs (mkState e g false) (print_clause c) = mkState e' (g ++ [c]) false.
Proof.
  intros H. destruct (parse_printed_clause cs c H) as [uses Hu]. apply printable_inv in H as (_ & _ & Hk & _). unfold parse_token.
  unfold is_keyword in Hk. apply bool_decide_eq_false in Hk. rewrite !elem_of_cons in Hk.
  rewrite !bool_decide_false by tauto. cbn [next_prohibited]. rewrite Hu. by exists (use uses e).
Qed.

Lemma parse_group cs g : forall e g0, forallb (printable cs) g = true ->
  exists e', Groups e' = Groups e /\ foldl (parse_token cs) (mkState e g0 false) (group_tokens g) = mkState e' (g0 ++ g) false.
Proof.
  induction g as [|c g IH]; intros e g0 H; [exists e; by rewrite app_nil_r|]. cbn [forallb] in H. apply andb_true_iff in H as [Hc Hg].
  destruct (parse_token_printed cs e g0 c Hc) as (e1 & E1 & P1). cbn [group_tokens fmap list_fmap foldl]. rewrite P1.
  destruct (IH e1 (g0 ++ [c]) Hg) as (e2 & E2 & P2). exists e2. split; [congruence|]. unfold group_tokens in P2. by rewrite P2, <- app_assoc.
Qed.

Lemma parse_or cs e g : parse_token cs (mkState e g false) #"or" = mkState (push_group true (mkState e g false)) [] false.
Proof. unfold parse_token. change (ToLowerCopy #"or") with #"or". by rewrite bool_decide_true. Qed.

Lemma parse_groups cs groups : forall e, printable_query cs groups = true ->
  Groups (push_group false (foldl (parse_token cs) (mkState e [] false) (query_tokens groups))) = Groups e ++ groups.
Proof.
  induction groups as [|g r IH]; intros e H; [by rewrite app_nil_r|]. unfold printable_query in H. cbn [forallb] in H.
  apply andb_true_iff in H as [[Hne Hg]%andb_true_iff Hr]. apply negb_true_iff, bool_decide_eq_false in Hne.
  cbn [query_tokens]. rewrite foldl_app. destruct (parse_group cs g e [] Hg) as (e1 & E1 & P1). rewrite P1. cbn [app].
  assert (forall uses, Groups (push_group uses (mkState e1 g false)) = Groups e ++ [g]) as Hp.
  { intros uses. unfold push_group. cbn [current_group expression Groups]. rewrite E1. by destruct g. }
  destruct r as [|g' r]; [apply Hp|]. cbn [foldl]. rewrite parse_or. rewrite IH by done. by rewrite Hp, <- app_assoc.
Qed.

Lemma query_tokens_spec cs groups : printable_query cs groups = true ->
  Forall (fun t => solid t /\ t <> []) (query_tokens groups) /\ Forall (fun t => first_utf8 ∉ t) (query_tokens groups).
Proof.
  induction groups as [|g r IH]; intros H; [split; constructor|]. unfold printable_query in H. cbn [forallb] in H.
  apply andb_true_iff in H as [[_ Hg]%andb_true_iff Hr]. cbn [query_tokens].
  assert (forall t, t ∈ group_tokens g -> solid t /\ t <> [] /\ first_utf8 ∉ t) as G.
  { intros t (c & -> & Hc)%list_elem_of_fmap. apply list_elem_of_In in Hc. apply (proj1 (forallb_forall _ _) Hg) in Hc. by eapply clause_solid. }
  assert (solid #"or" /\ #"or" <> [] /\ first_utf8 ∉ #"or") as (O1 & O2 & O3).
  { split_and!; [apply solid_plain; repeat constructor|done|by refine (bool_decide_eq_true_1 _ _)]. }
  specialize (IH Hr) as [I1 I2]. rewrite !Forall_app. split; (split; [apply Forall_forall; intros t Ht; specialize (G t Ht); tauto|]);
    (destruct r; [constructor|constructor; [done|done]]).
Qed.

Lemma join_no_utf8 ts : Forall (fun t => first_utf8 ∉ t) ts -> first_utf8 ∉ join_space ts.
Proof.
  destruct 1 as [|t ts Ht Hts]; [apply not_elem_of_nil|]. cbn [join_space]. intros [?|Hin]%elem_of_app; [done|].
  apply list_elem_of_bind in Hin as (y & Hin & Hy). rewrite Forall_forall in Hts. specialize (Hts y Hy).
  apply elem_of_app in Hin as [Hin|?]; [|done]. revert Hin. by refine (bool_decide_eq_true_1 _ _).
Qed.

Lemma parse_print cs groups : printable_query cs groups = true -> Groups (ParseStructuredQueryExpression cs (print_query groups)) = groups.
Proof.
  intros H. destruct (query_tokens_spec cs groups H) as [H1 H2]. unfold ParseStructuredQueryExpression, TokenizeStructuredQuery, print_query.
  rewrite NormalizeQuotes_plain by by apply join_no_utf8. rewrite tokenize_join by done. by rewrite (parse_groups cs groups (mkExpression [] false)).
Qed.

(** ** Terms of a text *)

Lemma pieces_length sep s : forall current p, p ∈ pieces_of sep current s -> (length p <= length current + length s)%nat.
Proof.
  assert (forall cur (p : bytes) n, p ∈ (if bool_decide (cur = []) then [] else [cur]) -> (length p <= length cur + n)%nat) as F.
  { intros cur p n. case_bool_decide; [by intros ?%elem_of_nil|]. intros ->%list_elem_of_singleton. lia. }
  induction s as [|c s IH]; intros current p; cbn [pieces_of length]; [apply F|]. destruct (sep c).
  - intros [H|H]%elem_of_app; [by apply F|]. apply IH in H. cbn [length] in H. lia.
  - intros H%IH. rewrite length_app in H. cbn [length] in H. lia.
Qed.

Lemma elem_of_sort_unique t l : t ∈ sort_unique l <-> t ∈ l.
Proof. unfold sort_unique. rewrite (merge_sort_Permutation str_order). apply elem_of_remove_dups. Qed.

Lemma extracted_size cs v t : t ∈ ExtractTermsSimple cs v -> t <> [] /\ size t <= MaxTextSize.
Proof.
  unfold ExtractTermsSimple. rewrite elem_of_sort_unique. unfold normalized_terms. intros H. eapply elem_of_sublist in H; [|apply sublist_take].
  apply list_elem_of_In, filter_In in H as [H Hne]. apply negb_true_iff, bool_decide_eq_false in Hne. split; [done|].
  apply list_elem_of_In, list_elem_of_fmap in H as (p & -> & Hp). apply pieces_length in Hp. cbn [length] in Hp. rewrite length_take in Hp.
  assert (length (NormalizeTermSimple cs p) <= length p)%nat as Hn.
  { unfold NormalizeTermSimple. etrans; [apply strip_back_length|]. etrans; [apply strip_front_length|]. unfold cased, ToLowerCopy. destruct cs; [done|by rewrite length_fmap]. }
  unfold size. assert (0 <= MaxTextSize) by done. lia.
Qed.

(** ** Phrases *)

Lemma run_at_start_spec phrase l : run_at_start phrase l = true <-> exists b, l = phrase ++ b.
Proof.
  revert l. induction phrase as [|p ps IH]; intros l; cbn [run_at_start]; [split; [by exists l|done]|]. destruct l as [|x r]; [split; [done|by intros (b & ?)]|].
  rewrite andb_true_iff, bool_decide_eq_true, IH. split; [intros [-> (b & ->)]; by exists b|]. intros (b & [= -> ->]). split; [done|by exists b].
Qed.

Lemma has_run_spec phrase l : has_run phrase l = true <-> exists a b, l = a ++ phrase ++ b.
Proof.
  induction l as [|x r IH]; cbn [has_run]; rewrite orb_true_iff, run_at_start_spec.
  - split; [intros [(b & H)|?]; [by exists [], b|done]|]. intros (a & b & H). left. exists []. symmetry in H. apply app_nil in H as [_ H]. apply app_nil in H as [-> ->]. done.
  - rewrite IH. split.
    + intros [(b & ->)|(a & b & ->)]; [by exists [], b|by exists (x :: a), b].
    + intros ([|y a] & b & H); [left; by exists b|]. injection H as -> ->. right. by exists a, b.
Qed.

Lemma phrase_spec cs v phrase :
  FieldContainsPhraseSimple cs v phrase = true <->
  ExtractTermsInOrderSimple cs phrase <> [] /\ exists a b, ExtractTermsInOrderSimple cs v = a ++ ExtractTermsInOrderSimple cs phrase ++ b.
Proof.
  unfold FieldContainsPhraseSimple. set (l := ExtractTermsInOrderSimple cs v). set (p := ExtractTermsInOrderSimple cs phrase). clearbody l p.
  destruct (decide (p = [])) as [->|Hp]; [rewrite (bool_decide_true ([] = [])), orb_true_r by done; cbn [orb]; split; [done|tauto]|].
  rewrite (bool_decide_false (p = [])) by done. rewrite orb_false_r. case_bool_decide as El.
  - subst l. cbn [orb]. split; [done|]. intros (_ & a & b & H). symmetry in H. apply app_nil in H as [_ H]. by apply app_nil in H as [-> _].
  - cbn [orb]. destruct (length l <? length p)%nat eqn:E; [|rewrite has_run_spec; tauto]. split; [done|]. intros (_ & a & b & ->).
    apply Nat.ltb_lt in E. rewrite !length_app in E. lia.
Qed.

(** ** What a clause asks for *)

Definition term_holds (m : Mode) (term w : bytes) : Prop :=
  if existsb is_wild term then (if case_sensitive m then Wildcard.MatchCaseSensitive w term else Wildcard.Match w term) = true
  else w = term \/ (0 < max_typos m /\ exists n, n <= max_typos m /\ edits n w term) \/ (allow_prefix_match m = true /\ exists z, w = term ++ z).

Definition clause_holds (m : Mode) (doc : Document) (query_by : list bytes) (c : ParsedQueryClause) : Prop :=
  exists name v, (name, v) ∈ AppendRequestedFieldValues (case_sensitive m) doc (if bool_decide (Field c = []) then query_by else [Field c]) /\
    if Phrase c then
      ExtractTermsInOrderSimple (case_sensitive m) (Value c) <> [] /\
      exists a b, ExtractTermsInOrderSimple (case_sensitive m) v = a ++ ExtractTermsInOrderSimple (case_sensitive m) (Value c) ++ b
    else exists w, w ∈ ExtractTermsSimple (case_sensitive m) v /\ term_holds m (Value c) w.

Lemma term_matches_spec m term w :
  term <> [] -> w <> [] -> size term < 2 ^ 31 -> size w < 2 ^ 31 -> term_matches m term w = true <-> term_holds m term w.
Proof.
  intros Ht Hw Hst Hsw. unfold term_matches, term_holds. destruct (existsb is_wild term); [done|].
  rewrite !orb_true_iff, !andb_true_iff, bool_decide_eq_true, Z.ltb_lt, starts_with_spec, typo_match by done. tauto.
Qed.

Lemma existsb_spec {A} (f : A -> bool) l : existsb f l = true <-> exists x, x ∈ l /\ f x = true.
Proof. rewrite existsb_exists. by setoid_rewrite list_elem_of_In. Qed.

Lemma clause_spec m doc query_by c :
  Value c <> [] -> size (Value c) < 2 ^ 31 -> EvaluateQueryClause m doc query_by c = true <-> clause_holds m doc query_by c.
Proof.
  intros Hv Hs. unfold EvaluateQueryClause, clause_holds, CollectFieldValuesForClause. rewrite existsb_spec.
  assert (forall (name : bytes) v, (if Phrase c then FieldContainsPhraseSimple (case_sensitive m) v (Value c) else FieldMatchesTermSimple m v (Value c)) = true <->
    if Phrase c then
      ExtractTermsInOrderSimple (case_sensitive m) (Value c) <> [] /\
      exists a b, ExtractTermsInOrderSimple (case_sensitive m) v = a ++ ExtractTermsInOrderSimple (case_sensitive m) (Value c) ++ b
    else exists w, w ∈ ExtractTermsSimple (case_sensitive m) v /\ term_holds m (Value c) w) as H.
  { intros _ v. destruct (Phrase c); [apply phrase_spec|]. unfold FieldMatchesTermSimple. rewrite (bool_decide_false (Value c = [])), orb_false_r by done.
    assert (existsb (term_matches m (Value c)) (ExtractTermsSimple (case_sensitive m) v) = true <->
            exists w, w ∈ ExtractTermsSimple (case_sensitive m) v /\ term_holds m (Value c) w) as E.
    { rewrite existsb_spec. split; intros (w & Hw & Hm); exists w; (split; [done|]); pose proof (extracted_size _ _ _ Hw) as [Hne Hsz];
        (assert (size w < 2 ^ 31) by (unfold MaxTextSize in Hsz; lia)); by apply term_matches_spec. }
    case_bool_decide as Ev; [|exact E]. subst v. split; [done|]. rewrite <- E. by destruct (case_sensitive m). }
  split.
  - intros ([name v] & Hin & Hb). exists name, v. split; [done|]. by apply (H name v).
  - intros (name & v & Hin & Hb). exists (name, v). split; [done|]. by apply (H name v).
Qed.

(** ** Claims *)

(** C13. A structured query selects what it says. A query written from groups of clauses
    (groups joined by "or"; in a group plain terms, quoted phrases, field names before a
    colon, a minus sign for what is prohibited) is parsed to these groups, and a document is
    selected exactly when in some group every clause that is not prohibited holds of it and
    no prohibited one does. A phrase holds when its terms follow each other in a requested
    field; a term holds when a term of such a field matches it as a wildcard pattern, is
    equal to it, is at most the allowed number of edits away, or begins with it where
    prefixes are allowed. *)
Theorem structured_query_selects (m : Mode) (doc : Document) (query_by : list bytes) (groups : list (list ParsedQueryClause)) :
  groups <> [] -> printable_query (case_sensitive m) groups = true -> Forall (Forall (fun c => size (Value c) < 2 ^ 31)) groups ->
  let e := ParseStructuredQueryExpression (case_sensitive m) (print_query groups) in
  Groups e = groups /\
  (EvaluateParsedQueryExpression m doc query_by e = true <->
   exists g, g ∈ groups /\ forall c, c ∈ g -> (clause_holds m doc query_by c <-> Prohibited c = false)).
Proof.
  intros Hne Hp Hs e. unfold e. split; [by apply parse_print|]. unfold EvaluateParsedQueryExpression. rewrite parse_print by done.
  assert (forall g c, g ∈ groups -> c ∈ g -> EvaluateQueryClause m doc query_by c = true <-> clause_holds m doc query_by c) as HC.
  { intros g c Hg Hc. apply clause_spec.
    - unfold printable_query in Hp. apply list_elem_of_In in Hg. apply (proj1 (forallb_forall _ _) Hp), andb_true_iff in Hg as [_ Hg].
      apply list_elem_of_In in Hc. by apply (proj1 (forallb_forall _ _) Hg), printable_inv in Hc as [? _].
    - rewrite Forall_forall in Hs. specialize (Hs g Hg). rewrite Forall_forall in Hs. by apply Hs. }
  destruct groups as [|g0 r]; [done|]. rewrite existsb_spec. split; intros (g & Hg & H); exists g; (split; [done|]).
  - intros c Hc. specialize (HC g c Hg Hc). apply list_elem_of_In in Hc. apply (proj1 (forallb_forall _ _) H) in Hc.
    destruct (Prohibited c), (EvaluateQueryClause m doc query_by c); try done; rewrite <- HC; done.
  - apply forallb_forall. intros c Hc. apply list_elem_of_In in Hc. specialize (HC g c Hg Hc). specialize (H c Hc).
    destruct (Prohibited c), (EvaluateQueryClause m doc query_by c) eqn:E; try done.
    + assert (true = false) by (apply H, HC; done). done.
    + assert (false = true) by (apply HC, H; done). done.
Qed.

(** ** Witness *)

Definition sample_groups : list (list ParsedQueryClause) :=
  [[mkClause #"title" #"red fox" true false; mkClause [] #"wolf" false true]; [mkClause [] #"owl*" false false]].

Definition sample_doc : Document := LexicalIndex.mkDocument #"a" #"The Red Fox" #"den" [].

Lemma structured_query_selects_witness :
  let m := mkMode false 1 false in
  let e := ParseStructuredQueryExpression false (print_query sample_groups) in
  Groups e = sample_groups /\
  exists g, g ∈ sample_groups /\ forall c, c ∈ g -> (clause_holds m sample_doc [] c <-> Prohibited c = false).
Proof.
  destruct (structured_query_selects (mkMode false 1 false) sample_doc [] sample_groups) as [H1 H2];
    [done|vm_compute; reflexivity|repeat constructor|]. split; [exact H1|]. apply H2. cbn [case_sensitive] in H1 |- *.
  unfold EvaluateParsedQueryExpression. rewrite H1. vm_compute. reflexivity.
Defined.

End QueryMatchProps.
