(* ===== verification/LexicalCache.v ===== *)
(** * LexicalCache: synonyms, stopwords and their cache in src/api/lexical.cpp

    How a query is expanded with the synonyms and without the stopwords of its
    collection, the resources these come from, and the two caches with their generations.
    The store is a function from keys to texts; JSON parsing is the class [Library] of
    DocValues. Queries, writers and invalidations run concurrently: a step is one
    critical section of the cache mutex or one access to the store. The scope preference
    of the configuration does not change. Counters of hits are left out. *)

From Stdlib Require Import SpecFloat.
From S2P Require Import Prelude CText DocValues ResultShaping LexicalTerms QueryMatch.
Import DocValues LexicalTerms QueryMatch.

Module LexicalCache.

Section lexical_cache.
  Context {L : Library}.

(** ** Resources *)

Abbreviation graph := (gmap bytes (list bytes)).

Definition synonyms_key (scope : bytes) : bytes := #"synonyms:" ++ scope.

Definition stopwords_key (scope : bytes) : bytes := #"stopwords:" ++ scope.

Definition global_scope : bytes := #"__global__".

(** The array under a name of an object, or an array itself. *)

Definition array_of (name : bytes) (Root : json) : list json :=
  match Root with
  | JObject l => match member name l with Some (JArray a) => a | _ => [] end
  | JArray a => a
  | _ => []
  end.

Definition string_of (j : json) : option bytes := match j with JString s => Some s | _ => None end.

(** The terms of a synonym group, if it has two at least. *)

Definition group_terms (Group : json) : option (list bytes) :=
  match Group with
  | JObject l =>
      root ← member #"root" l ≫= string_of;
      let RootTerm := NormalizeTermSimple false root in
      if bool_decide (RootTerm = []) then None
      else
        let syns := match member #"synonyms" l with
                    | Some (JArray a) => List.filter (fun t => negb (bool_decide (t = []))) (NormalizeTermSimple false <$> omap string_of a)
                    | _ => [] end in
        let Terms := sort_unique (RootTerm :: syns) in
        if (length Terms <? 2)%nat then None else Some Terms
  | _ => None
  end.

Definition add_term (Terms : list bytes) (g : graph) (Term : bytes) : graph :=
  <[Term := sort_unique (default [] (g !! Term) ++ List.filter (fun t => negb (bool_decide (t = Term))) Terms)]> g.

Definition add_group (g : graph) (Terms : list bytes) : graph := foldl (add_term Terms) g Terms.

Definition load_synonyms (OverrideExisting : bool) (Raw : bytes) (g : graph) : graph :=
  if bool_decide (Raw = []) then g
  else match parse Raw with
       | None => g
       | Some Root =>
           let ParsedGroups := omap group_terms (array_of #"synonyms" Root) in
           let g := if OverrideExisting then foldl (fun g t => base.delete t g) g (mjoin ParsedGroups) else g in
           foldl add_group g ParsedGroups
       end.

Definition LoadSynonymGraphForCollection (ScopePreference : bytes) (get : bytes -> bytes) (Collection : bytes) : graph :=
  let global := get (synonyms_key global_scope) in
  let here := get (synonyms_key Collection) in
  if bool_decide (ScopePreference = #"local") then load_synonyms true here (load_synonyms false global ∅)
  else if bool_decide (ScopePreference = #"global") then load_synonyms true global (load_synonyms false here ∅)
  else load_synonyms false here (load_synonyms false global ∅).

Definition stopword_of (Entry : json) : bytes :=
  match Entry with
  | JString s => s
  | JObject l =>
      match member #"word" l ≫= string_of with
      | Some s => s
      | None => default [] (member #"text" l ≫= string_of)
      end
  | _ => []
  end.

(** The words of a scope added to a set, and whether the scope was read and the set has a
    word. *)

Definition load_stopwords (StopwordsJSON : bytes) (Target : gset bytes) : gset bytes * bool :=
  if bool_decide (StopwordsJSON = []) then (Target, false)
  else match parse StopwordsJSON with
       | None => (Target, false)
       | Some Root =>
           let words := List.filter (fun w => negb (bool_decide (w = []))) ((fun e => NormalizeTermSimple false (stopword_of e)) <$> array_of #"stopwords" Root) in
           let Target := Target ∪ list_to_set words in
           (Target, negb (bool_decide (Target = ∅)))
       end.

Definition LoadStopwordsForCollection (ScopePreference : bytes) (get : bytes -> bytes) (Collection : bytes) : gset bytes :=
  let global := get (stopwords_key global_scope) in
  let here := get (stopwords_key Collection) in
  if bool_decide (ScopePreference = #"local") then
    let (w, ok) := load_stopwords here ∅ in if (ok : bool) then w else (load_stopwords global ∅).1
  else if bool_decide (ScopePreference = #"global") then
    let (w, ok) := load_stopwords global ∅ in if (ok : bool) then w else (load_stopwords here ∅).1
  else (load_stopwords here (load_stopwords global ∅).1).1.

(** ** Expanding a query *)

Definition MaxVariants : nat := 16.

Definition MaxSynonymsPerToken : nat := 4.

Definition keep_token (Stopwords : gset bytes) (RawToken : bytes) : bool :=
  let Normalized := NormalizeTermSimple false RawToken in
  negb (bool_decide (Normalized = [])) && negb (bool_decide (Normalized ∈ Stopwords)).

Definition query_words (EnableStopwords : bool) (Stopwords : gset bytes) (QueryText : bytes) : list bytes :=
  let Tokens := ResultShaping.words [] QueryText in
  if EnableStopwords && negb (bool_decide (Stopwords = ∅)) then List.filter (keep_token Stopwords) Tokens else Tokens.

Fixpoint add_synonyms (Tokens : list bytes) (I SynCount : nat) (syns Variants : list bytes) : list bytes :=
  match syns with
  | [] => Variants
  | Syn :: r =>
      if bool_decide (Syn = []) then add_synonyms Tokens I SynCount r Variants
      else
        let Variants := Variants ++ [join_space (<[I := Syn]> Tokens)] in
        if (MaxSynonymsPerToken <=? S SynCount)%nat || (MaxVariants <=? length Variants)%nat then Variants
        else add_synonyms Tokens I (S SynCount) r Variants
  end.

Definition expand_token (g : graph) (Tokens Variants : list bytes) (I : nat) : list bytes :=
  if (MaxVariants <=? length Variants)%nat then Variants
  else
    let Normalized := NormalizeTermSimple false (default [] (Tokens !! I)) in
    match g !! Normalized with
    | Some syns => if bool_decide (Normalized = []) then Variants else add_synonyms Tokens I 0 syns Variants
    | None => Variants
    end.

Definition expand (g : graph) (Stopwords : gset bytes) (EnableSynonyms EnableStopwords : bool) (QueryText : bytes) : list bytes :=
  let Tokens := query_words EnableStopwords Stopwords QueryText in
  match Tokens with
  | [] => []
  | _ =>
      if negb EnableSynonyms || bool_decide (g = ∅) then [join_space Tokens]
      else sort_unique (foldl (expand_token g Tokens) [join_space Tokens] (seq 0 (length Tokens)))
  end.

(** ** The caches *)

Record LexicalResourceSnapshot := mkSnapshot {
  SynonymGraph : graph; Stopwords : gset bytes; CollectionGeneration : Z; GlobalGeneration : Z; ScopePreference : bytes
}.

Record ExpansionCacheEntry := mkEntry { Entry_Collection : bytes; Variants : list bytes }.

Record LexicalQueryCache := mkCache {
  LexicalResourceEntries : gmap bytes LexicalResourceSnapshot;
  ExpansionEntries : gmap bytes ExpansionCacheEntry;
  ExpansionOrder : list bytes;
  CollectionGenerations : gmap bytes Z;
  GlobalLexicalGeneration : Z
}.

Definition MaxExpansionCacheEntries : Z := 4096.

Definition initial_cache : LexicalQueryCache := mkCache ∅ ∅ [] ∅ 1.

Definition GetLexicalGenerationsLocked (Collection : bytes) (k : LexicalQueryCache) : Z * Z :=
  (default 0 (CollectionGenerations k !! Collection), GlobalLexicalGeneration k).

Definition find_snapshot (preference Collection : bytes) (k : LexicalQueryCache) : option LexicalResourceSnapshot :=
  s ← LexicalResourceEntries k !! Collection;
  let (cg, gg) := GetLexicalGenerationsLocked Collection k in
  if (CollectionGeneration s =? cg) && (GlobalGeneration s =? gg) && bool_decide (ScopePreference s = preference) then Some s else None.

Definition put_snapshot (Collection : bytes) (s : LexicalResourceSnapshot) (k : LexicalQueryCache) : LexicalQueryCache :=
  mkCache (<[Collection := s]> (LexicalResourceEntries k)) (ExpansionEntries k) (ExpansionOrder k) (CollectionGenerations k) (GlobalLexicalGeneration k).

(** The end of [GetLexicalResourceSnapshot]: the snapshot is kept if no generation has
    changed. *)

Definition install (Collection : bytes) (s : LexicalResourceSnapshot) (k : LexicalQueryCache) : LexicalQueryCache * bool :=
  let (cg, gg) := GetLexicalGenerationsLocked Collection k in
  if negb (cg =? CollectionGeneration s) || negb (gg =? GlobalGeneration s) then (k, false) else (put_snapshot Collection s k, true).

Definition newline : ascii := chr 10.

Definition flag (b : bool) : bytes := if b then #"1" else #"0".

Definition BuildExpansionCacheKey (Collection QueryText : bytes) (EnableSynonyms EnableStopwords : bool)
    (CollectionGeneration GlobalGeneration : Z) (ScopePreference : bytes) : bytes :=
  Collection ++ [newline] ++ QueryText ++ [newline] ++ flag EnableSynonyms ++ flag EnableStopwords ++ [newline] ++
  to_string CollectionGeneration ++ [newline] ++ to_string GlobalGeneration ++ [newline] ++ ScopePreference.

(** Expansions beyond the limit go, the oldest key first. *)

Fixpoint evict_expansions (order : list bytes) (m : gmap bytes ExpansionCacheEntry) : gmap bytes ExpansionCacheEntry * list bytes :=
  match order with
  | [] => (m, [])
  | key :: r => if MaxExpansionCacheEntries <? Z.of_nat (base.size m) then evict_expansions r (base.delete key m) else (m, order)
  end.

Definition PutExpansionCache (Key Collection : bytes) (v : list bytes) (k : LexicalQueryCache) : LexicalQueryCache :=
  let (m, order) := evict_expansions (ExpansionOrder k ++ [Key]) (<[Key := mkEntry Collection v]> (ExpansionEntries k)) in
  mkCache (LexicalResourceEntries k) m order (CollectionGenerations k) (GlobalLexicalGeneration k).

Definition InvalidateCollection (Collection : bytes) (k : LexicalQueryCache) : LexicalQueryCache :=
  mkCache (base.delete Collection (LexicalResourceEntries k))
    (base.filter (fun x : bytes * ExpansionCacheEntry => Entry_Collection x.2 <> Collection) (ExpansionEntries k)) (ExpansionOrder k)
    (<[Collection := u64 (default 0 (CollectionGenerations k !! Collection) + 1)]> (CollectionGenerations k)) (GlobalLexicalGeneration k).

Definition InvalidateAll (k : LexicalQueryCache) : LexicalQueryCache :=
  mkCache ∅ ∅ [] (CollectionGenerations k) (u64 (GlobalLexicalGeneration k + 1)).

(** ** Queries that run concurrently *)

Record Query := mkQuery { Q_Collection : bytes; Q_Text : bytes; Q_Synonyms : bool; Q_Stopwords : bool }.

(** Where a call of [BuildExpandedQueriesFromSynonyms] is: before it looks for a snapshot,
    reading the resources of the generations it saw, with a snapshot, about to store its
    result, or at the end. *)

Inductive Place :=
| Looking
| Reading (cg gg : Z) (got : gmap bytes bytes) (rest : list bytes)
| Holding (s : LexicalResourceSnapshot)
| Storing (s : LexicalResourceSnapshot)
| Answered (v : list bytes).

Record Process := mkProcess { query : Query; place : Place }.

Record World := mkWorld {
  cache : LexicalQueryCache;
  store : bytes -> bytes;
  processes : gmap nat Process
}.

(** The keys in the order of their reading; the last one is not always read. *)

Definition resource_keys (preference c : bytes) : list bytes :=
  let global := bool_decide (preference = #"global") in
  let local := bool_decide (preference = #"local") in
  (if (global : bool) then [synonyms_key c; synonyms_key global_scope] else [synonyms_key global_scope; synonyms_key c]) ++
  (if (local : bool) then [stopwords_key c; stopwords_key global_scope] else [stopwords_key global_scope; stopwords_key c]).

Definition read_value (got : gmap bytes bytes) (key : bytes) : bytes := default [] (got !! key).

Definition loaded (preference c : bytes) (cg gg : Z) (got : gmap bytes bytes) : LexicalResourceSnapshot :=
  mkSnapshot (LoadSynonymGraphForCollection preference (read_value got) c) (LoadStopwordsForCollection preference (read_value got) c) cg gg preference.

Definition is_trivial (text : bytes) : bool := bool_decide (text = []) || bool_decide (text = #"*").

Definition start (q : Query) : Place := if is_trivial (Q_Text q) then Answered [Q_Text q] else Looking.

Definition expansion_key (q : Query) (s : LexicalResourceSnapshot) : bytes :=
  BuildExpansionCacheKey (Q_Collection q) (Q_Text q) (Q_Synonyms q) (Q_Stopwords q) (CollectionGeneration s) (GlobalGeneration s) (ScopePreference s).

Definition expansion (q : Query) (s : LexicalResourceSnapshot) : list bytes :=
  expand (SynonymGraph s) (Stopwords s) (Q_Synonyms q) (Q_Stopwords q) (Q_Text q).

(** The next critical section or read of a process. *)

Definition advance (preference : bytes) (q : Query) (pl : Place) (k : LexicalQueryCache) (get : bytes -> bytes) : Place * LexicalQueryCache :=
  let c := Q_Collection q in
  match pl with
  | Looking =>
      match find_snapshot preference c k with
      | Some s => (Holding s, k)
      | None => let (cg, gg) := GetLexicalGenerationsLocked c k in (Reading cg gg ∅ (resource_keys preference c), k)
      end
  | Reading cg gg got (key :: rest) => (Reading cg gg (<[key := get key]> got) rest, k)
  | Reading cg gg got [] =>
      let s := loaded preference c cg gg got in
      let (k', kept) := install c s k in
      if (kept : bool) then (Holding s, k') else (Looking, k')
  | Holding s =>
      match ExpansionEntries k !! expansion_key q s with
      | Some e => (Answered (Variants e), k)
      | None => (Storing s, k)
      end
  | Storing s => let v := expansion q s in (Answered v, PutExpansionCache (expansion_key q s) c v k)
  | Answered v => (Answered v, k)
  end.

(** What happens: a query begins, a process makes its next step, a value of the store is
    written, the cache is invalidated. *)

Inductive Event :=
| Start (i : nat) (q : Query)
| Advance (i : nat)
| Write (key value : bytes)
| Invalidate (c : bytes)
| InvalidateEverything.

Definition step (preference : bytes) (w : World) (e : Event) : World :=
  match e with
  | Start i q =>
      match processes w !! i with
      | None => mkWorld (cache w) (store w) (<[i := mkProcess q (start q)]> (processes w))
      | Some _ => w
      end
  | Advance i =>
      match processes w !! i with
      | None => w
      | Some p =>
          let (pl, k) := advance preference (query p) (place p) (cache w) (store w) in
          mkWorld k (store w) (<[i := mkProcess (query p) pl]> (processes w))
      end
  | Write key value => mkWorld (cache w) (fun k => if bool_decide (k = key) then value else store w k) (processes w)
  | Invalidate c => mkWorld (InvalidateCollection c (cache w)) (store w) (processes w)
  | InvalidateEverything => mkWorld (InvalidateAll (cache w)) (store w) (processes w)
  end.

Definition run (preference : bytes) (values : bytes -> bytes) (l : list Event) : World :=
  foldl (step preference) (mkWorld initial_cache values ∅) l.

End lexical_cache.

End LexicalCache.
