(* ===== verification/LexicalCacheProps.v ===== *)
(** * LexicalCache: answers are fresh, the cache is bounded

    Whatever queries, writes and invalidations run between the steps of a query, its
    answer is the expansion with resources none of which was read before an invalidation
    that precedes the query; and what an expansion consists of. *)

From Stdlib Require Import SpecFloat.
From S2P Require Import Prelude CText DocValues ResultShaping LexicalTerms LexicalTermsProps QueryMatch QueryMatchProps LexicalCache.
Import DocValues LexicalTerms LexicalTermsProps QueryMatch QueryMatchProps LexicalCache.

Module LexicalCacheProps.

Section props.
  Context {L : Library} (preference : bytes) (values : bytes -> bytes).
  Hypothesis plain_preference : newline ∉ preference.

(** ** Keys *)

Lemma to_string_plain z : 0 <= z -> newline ∉ to_string z.
Proof. intros (H & _ & _)%to_string_value Hin. unfold is_digits in H. rewrite Forall_forall in H. by apply H in Hin. Qed.

Lemma to_string_inj a b : 0 <= a -> 0 <= b -> to_string a = to_string b -> a = b.
Proof. intros (_ & Ha & _)%to_string_value (_ & Hb & _)%to_string_value H. by rewrite <- Ha, <- Hb, H. Qed.

Lemma flag_inj a b c d : flag a ++ flag b = flag c ++ flag d -> a = c /\ b = d.
Proof. by destruct a, b, c, d. Qed.

Lemma key_inj c q es en cg gg c' q' es' en' cg' gg' :
  newline ∉ c -> newline ∉ c' -> 0 <= cg -> 0 <= cg' -> 0 <= gg -> 0 <= gg' ->
  BuildExpansionCacheKey c q es en cg gg preference = BuildExpansionCacheKey c' q' es' en' cg' gg' preference ->
  c = c' /\ q = q' /\ es = es' /\ en = en' /\ cg = cg' /\ gg = gg'.
Proof.
  intros Hc Hc' H1 H2 H3 H4 E. unfold BuildExpansionCacheKey in E. cbn [app] in E. apply first_split in E as [-> E]; [|done..].
  assert (forall q a b n m p, q ++ newline :: flag a ++ flag b ++ newline :: n ++ newline :: m ++ newline :: p =
            (((q ++ newline :: (flag a ++ flag b)) ++ newline :: n) ++ newline :: m) ++ newline :: p) as R.
  { intros q0 a b n m p. by rewrite <- !app_assoc; cbn [app]; rewrite <- !app_assoc. }
  rewrite !R in E. apply last_split in E as [E _]; [|done..].
  apply last_split in E as [E Eg]; [|by apply to_string_plain|by apply to_string_plain]. apply to_string_inj in Eg; [|done..].
  apply last_split in E as [E Ec]; [|by apply to_string_plain|by apply to_string_plain]. apply to_string_inj in Ec; [|done..].
  assert (forall a b, newline ∉ flag a ++ flag b) as F by (intros [] []; by refine (bool_decide_eq_true_1 _ _)).
  apply last_split in E as [-> E]; [|done..]. apply flag_inj in E as [-> ->]. done.
Qed.

(** ** Events that invalidate a collection *)

Definition invalidates (c : bytes) (e : Event) : bool :=
  match e with Invalidate c' => bool_decide (c' = c) | InvalidateEverything => true | _ => false end.

Definition invalidations (c : bytes) (l : list Event) : Z := size (List.filter (invalidates c) l).

Definition local_count (c : bytes) (l : list Event) : Z :=
  size (List.filter (fun e => match e with Invalidate c' => bool_decide (c' = c) | _ => false end) l).

Definition global_count (l : list Event) : Z := size (List.filter (fun e => match e with InvalidateEverything => true | _ => false end) l).

Lemma filter_snoc {A} (f : A -> bool) l x : size (List.filter f (l ++ [x])) = size (List.filter f l) + (if f x then 1 else 0).
Proof. rewrite List.filter_app. unfold size. rewrite length_app. cbn [List.filter]. destruct (f x); cbn [length]; lia. Qed.

Lemma count_split c l : invalidations c l = local_count c l + global_count l.
Proof.
  unfold invalidations, local_count, global_count. induction l as [|e l IH] using rev_ind; [done|]. rewrite !filter_snoc, IH.
  destruct e; cbn [invalidates]; try case_bool_decide; lia.
Qed.

Lemma count_bound {A} (f : A -> bool) l : 0 <= size (List.filter f l) <= size l.
Proof. induction l as [|x l IH] using rev_ind; [done|]. rewrite filter_snoc. unfold size in *. rewrite length_app. cbn [length]. destruct (f x); lia. Qed.

Lemma invalidations_take c l t : invalidations c (take t l) <= invalidations c l.
Proof.
  rewrite <- (take_drop t l) at 2. unfold invalidations. rewrite List.filter_app. unfold size. rewrite length_app. lia.
Qed.

Abbreviation after := (run preference values).

Lemma after_snoc l e : after (l ++ [e]) = step preference (after l) e.
Proof. unfold run. by rewrite foldl_app. Qed.

Lemma take_snoc_le {A} (l : list A) x t : (t <= length l)%nat -> take t (l ++ [x]) = take t l.
Proof. intros H. by apply take_app_le. Qed.

(** ** Generations count invalidations *)

Lemma put_generations k c s c' : GetLexicalGenerationsLocked c' (put_snapshot c s k) = GetLexicalGenerationsLocked c' k.
Proof. done. Qed.

Lemma store_generations key c v k c' : GetLexicalGenerationsLocked c' (PutExpansionCache key c v k) = GetLexicalGenerationsLocked c' k.
Proof. unfold PutExpansionCache. by destruct (evict_expansions _ _). Qed.

Lemma install_generations c s k k' b c' : install c s k = (k', b) -> GetLexicalGenerationsLocked c' k' = GetLexicalGenerationsLocked c' k.
Proof. unfold install. destruct (GetLexicalGenerationsLocked c k) as [cg gg]. destruct (_ || _); by intros [= <- _]. Qed.

Lemma advance_generations q pl k get pl' k' c :
  advance preference q pl k get = (pl', k') -> GetLexicalGenerationsLocked c k' = GetLexicalGenerationsLocked c k.
Proof.
  destruct pl as [|cg gg got [|key rest]|s|s|v]; cbn [advance].
  - destruct (find_snapshot _ _ _); [by intros [= _ <-]|]. destruct (GetLexicalGenerationsLocked _ _); by intros [= _ <-].
  - destruct (install _ _ _) as [k1 b] eqn:E. apply (install_generations _ _ _ _ _ c) in E. destruct b; intros [= _ <-]; done.
  - by intros [= _ <-].
  - destruct (ExpansionEntries k !! _); by intros [= _ <-].
  - intros [= _ <-]. apply store_generations.
  - by intros [= _ <-].
Qed.

Lemma generations_spec l c : size l < 2 ^ 64 - 1 -> GetLexicalGenerationsLocked c (cache (after l)) = (local_count c l, 1 + global_count l).
Proof.
  induction l as [|e l IH] using rev_ind; intros Hl; [done|].
  assert (size l < 2 ^ 64 - 1) as Hl' by (unfold size in *; rewrite length_app in Hl; lia).
  assert (size (l ++ [e]) = size l + 1) as Hs by (unfold size; rewrite length_app; cbn [length]; lia).
  rewrite after_snoc. pose proof (count_bound (fun e => match e with Invalidate c' => bool_decide (c' = c) | _ => false end) l) as B1.
  pose proof (count_bound (fun e => match e with InvalidateEverything => true | _ => false end) l) as B2.
  specialize (IH Hl'). unfold local_count, global_count in *. rewrite !filter_snoc. cbn [step].
  destruct e as [i q|i|key v|c'|]; cbn [step].
  - destruct (processes (after l) !! i); by rewrite !Z.add_0_r.
  - destruct (processes (after l) !! i) as [p|]; [|by rewrite !Z.add_0_r].
    destruct (advance _ _ _ _ _) as [pl k] eqn:E. cbn [cache]. rewrite (advance_generations _ _ _ _ _ _ c E). by rewrite !Z.add_0_r.
  - by rewrite !Z.add_0_r.
  - cbn [cache]. unfold GetLexicalGenerationsLocked in *. injection IH as I1 I2. cbn [InvalidateCollection CollectionGenerations GlobalLexicalGeneration].
    rewrite I2, Z.add_0_r. f_equal. case_bool_decide as Hc.
    + subst c'. rewrite lookup_insert_eq, I1. cbn [default from_option]. unfold u64. apply Z.mod_small. lia.
    + rewrite lookup_insert_ne by done. by rewrite Z.add_0_r.
  - cbn [cache]. unfold GetLexicalGenerationsLocked in *. injection IH as I1 I2. cbn [InvalidateAll CollectionGenerations GlobalLexicalGeneration].
    rewrite I1, I2, Z.add_0_r. f_equal. unfold u64. rewrite Z.mod_small; lia.
Qed.

(** ** Snapshots and answers are made of values that were read *)

Definition store_at (l : list Event) (t : nat) (key : bytes) : bytes := store (after (take t l)) key.

(** Every key is read at a moment that [n] invalidations of the collection precede. *)

Definition read_after (l : list Event) (c : bytes) (n : Z) (rt : bytes -> nat) : Prop :=
  forall key, (rt key <= length l)%nat /\ n <= invalidations c (take (rt key) l).

Definition values_at (l : list Event) (rt : bytes -> nat) (key : bytes) : bytes := store_at l (rt key) key.

Definition built (l : list Event) (c : bytes) (cg gg : Z) (rt : bytes -> nat) : LexicalResourceSnapshot :=
  mkSnapshot (LoadSynonymGraphForCollection preference (values_at l rt) c) (LoadStopwordsForCollection preference (values_at l rt) c) cg gg preference.

Definition snap_ok (l : list Event) (c : bytes) (s : LexicalResourceSnapshot) : Prop :=
  0 <= CollectionGeneration s /\ 0 <= GlobalGeneration s /\
  exists rt, read_after l c (CollectionGeneration s + GlobalGeneration s - 1) rt /\ s = built l c (CollectionGeneration s) (GlobalGeneration s) rt.

Definition answer_ok (l : list Event) (a : nat) (q : Query) (v : list bytes) : Prop :=
  (is_trivial (Q_Text q) = true /\ v = [Q_Text q]) \/
  exists rt, read_after l (Q_Collection q) (invalidations (Q_Collection q) (take a l)) rt /\
    v = expand (LoadSynonymGraphForCollection preference (values_at l rt) (Q_Collection q))
          (LoadStopwordsForCollection preference (values_at l rt) (Q_Collection q)) (Q_Synonyms q) (Q_Stopwords q) (Q_Text q).

Definition got_ok (l : list Event) (c : bytes) (n : Z) (got : gmap bytes bytes) (key : bytes) (t : nat) : Prop :=
  (t <= length l)%nat /\ n <= invalidations c (take t l) /\ got !! key = Some (store_at l t key).

Definition place_ok (l : list Event) (a : nat) (q : Query) (pl : Place) : Prop :=
  let c := Q_Collection q in
  match pl with
  | Looking => True
  | Reading cg gg got rest =>
      0 <= cg /\ 0 <= gg /\ invalidations c (take a l) <= cg + gg - 1 /\ cg + gg - 1 <= invalidations c l /\
      exists ks, ks ++ rest = resource_keys preference c /\ forall key, key ∈ ks -> exists t, got_ok l c (cg + gg - 1) got key t
  | Holding s | Storing s => snap_ok l c s /\ invalidations c (take a l) <= CollectionGeneration s + GlobalGeneration s - 1
  | Answered v => answer_ok l a q v
  end.

(** What was true stays true when more happens. *)

Lemma store_at_snoc l e t key : (t <= length l)%nat -> store_at (l ++ [e]) t key = store_at l t key.
Proof. intros H. unfold store_at. by rewrite take_snoc_le. Qed.

Lemma read_after_snoc l e c n rt : read_after l c n rt -> read_after (l ++ [e]) c n rt.
Proof. intros H key. destruct (H key) as [H1 H2]. rewrite length_app, take_snoc_le by done. split; [lia|done]. Qed.

Lemma synonyms_ext get get' c :
  (forall key, key ∈ resource_keys preference c -> get key = get' key) -> LoadSynonymGraphForCollection preference get c = LoadSynonymGraphForCollection preference get' c.
Proof.
  intros H. unfold LoadSynonymGraphForCollection. rewrite (H (synonyms_key global_scope)), (H (synonyms_key c)); [done|..];
    unfold resource_keys; destruct (bool_decide (preference = #"global")); set_solver.
Qed.

Lemma stopwords_ext get get' c :
  (forall key, key ∈ resource_keys preference c -> get key = get' key) -> LoadStopwordsForCollection preference get c = LoadStopwordsForCollection preference get' c.
Proof.
  intros H. unfold LoadStopwordsForCollection. rewrite (H (stopwords_key global_scope)), (H (stopwords_key c)); [done|..];
    unfold resource_keys; destruct (bool_decide (preference = #"local")); set_solver.
Qed.

Lemma built_ext l l' c cg gg rt rt' :
  (forall key, key ∈ resource_keys preference c -> values_at l rt key = values_at l' rt' key) -> built l c cg gg rt = built l' c cg gg rt'.
Proof. intros H. unfold built. f_equal; [by apply synonyms_ext|by apply stopwords_ext]. Qed.

Lemma values_snoc l e c n rt key : read_after l c n rt -> values_at (l ++ [e]) rt key = values_at l rt key.
Proof. intros H. unfold values_at. apply store_at_snoc. apply H. Qed.

Lemma snap_ok_snoc l e c s : snap_ok l c s -> snap_ok (l ++ [e]) c s.
Proof.
  intros (H1 & H2 & rt & Hr & Hs). split; [done|]. split; [done|]. exists rt. split; [by apply read_after_snoc|]. rewrite Hs at 1.
  apply built_ext. intros key _. symmetry. by eapply values_snoc.
Qed.

Lemma answer_ok_snoc l e a q v : (a <= length l)%nat -> answer_ok l a q v -> answer_ok (l ++ [e]) a q v.
Proof.
  intros Ha [H|(rt & Hr & ->)]; [by left|right]. exists rt. rewrite take_snoc_le by done. split; [by apply read_after_snoc|].
  f_equal; [apply synonyms_ext|apply stopwords_ext]; intros key _; symmetry; by eapply values_snoc.
Qed.

Lemma invalidations_snoc c l e : invalidations c l <= invalidations c (l ++ [e]).
Proof. unfold invalidations. rewrite filter_snoc. destruct (invalidates c e); lia. Qed.

Lemma place_ok_snoc l e a q pl : (a <= length l)%nat -> place_ok l a q pl -> place_ok (l ++ [e]) a q pl.
Proof.
  intros Ha. destruct pl as [|cg gg got rest|s|s|v]; cbn [place_ok]; [done|..].
  - intros (H1 & H2 & H3 & H4 & ks & H5 & H6). rewrite take_snoc_le by done. pose proof (invalidations_snoc (Q_Collection q) l e).
    split; [done|]. split; [done|]. split; [done|]. split; [lia|]. exists ks. split; [done|]. intros key Hk. destruct (H6 key Hk) as (t & T1 & T2 & T3).
    exists t. unfold got_ok. rewrite length_app, take_snoc_le, store_at_snoc by done. split; [lia|done].
  - intros [H1 H2]. rewrite take_snoc_le by done. split; [by apply snap_ok_snoc|done].
  - intros [H1 H2]. rewrite take_snoc_le by done. split; [by apply snap_ok_snoc|done].
  - by apply answer_ok_snoc.
Qed.

(** ** The invariant *)

Record cache_ok (l : list Event) (k : LexicalQueryCache) : Prop := {
  k_entries c s : LexicalResourceEntries k !! c = Some s -> snap_ok l c s;
  k_expansions q cg gg e : newline ∉ Q_Collection q -> 0 <= cg -> 0 <= gg ->
    ExpansionEntries k !! BuildExpansionCacheKey (Q_Collection q) (Q_Text q) (Q_Synonyms q) (Q_Stopwords q) cg gg preference = Some e ->
    exists s, snap_ok l (Q_Collection q) s /\ CollectionGeneration s = cg /\ GlobalGeneration s = gg /\ Variants e = expansion q s
}.

Definition processes_ok (l : list Event) : Prop :=
  forall i p, processes (after l) !! i = Some p ->
    newline ∉ Q_Collection (query p) /\
    forall a, (a <= length l)%nat -> processes (after (take a l)) !! i = None -> place_ok l a (query p) (place p).

Lemma cache_ok_snoc l e k : cache_ok l k -> cache_ok (l ++ [e]) k.
Proof.
  intros [K1 K2]. split.
  - intros c s H. by apply snap_ok_snoc, K1.
  - intros q cg gg x H1 H2 H3 H4. destruct (K2 q cg gg x H1 H2 H3 H4) as (s & Hs & H). exists s. split; [by apply snap_ok_snoc|done].
Qed.

Lemma cache_ok_subset l k k' :
  (forall c s, LexicalResourceEntries k' !! c = Some s -> LexicalResourceEntries k !! c = Some s) ->
  (forall key e, ExpansionEntries k' !! key = Some e -> ExpansionEntries k !! key = Some e) -> cache_ok l k -> cache_ok l k'.
Proof. intros H1 H2 [K1 K2]. split; [intros c s H; by apply K1, H1|intros q cg gg e A B C H; by apply K2, H2]. Qed.

Lemma evict_subset order : forall m m' o, evict_expansions order m = (m', o) -> forall key e, m' !! key = Some e -> m !! key = Some e.
Proof.
  induction order as [|x r IH]; intros m m' o; cbn [evict_expansions]; [by intros [= <- _]|]. destruct (_ <? _); [|by intros [= <- _]].
  intros E key e H. eapply IH in H; [|done]. by apply lookup_delete_Some in H as [_ H].
Qed.

Lemma cache_ok_put l q s k : newline ∉ Q_Collection q -> snap_ok l (Q_Collection q) s -> cache_ok l k ->
  cache_ok l (PutExpansionCache (expansion_key q s) (Q_Collection q) (expansion q s) k).
Proof.
  intros Hn Hs [K1 K2]. unfold PutExpansionCache. destruct (evict_expansions _ _) as [m o] eqn:E. split; [done|]. cbn [ExpansionEntries].
  intros q' cg gg e H1 H2 H3 H4. eapply evict_subset in H4; [|done]. apply lookup_insert_Some in H4 as [[Ek <-]|[_ H4]]; [|by apply K2].
  unfold expansion_key in Ek. pose proof Hs as (G1 & G2 & rt & _ & Eb). assert (ScopePreference s = preference) as Hp by (rewrite Eb; reflexivity). rewrite Hp in Ek.
  apply key_inj in Ek as (E1 & E2 & E3 & E4 & E5 & E6); [|done..]. exists s. rewrite <- E1. split; [done|]. split; [done|]. split; [done|].
  cbn [Variants]. unfold expansion. by rewrite E2, E3, E4.
Qed.

Lemma choose_times (P : bytes -> nat -> Prop) (d : nat) (ks : list bytes) :
  (forall key, key ∈ ks -> exists t, P key t) -> exists rt, (forall key, key ∈ ks -> P key (rt key)) /\ (forall key, key ∉ ks -> rt key = d).
Proof.
  induction ks as [|k ks IH]; intros H; [exists (fun _ => d); split; [by intros ? ?%elem_of_nil|done]|].
  destruct IH as (rt & R1 & R2); [intros key Hk; apply H; by right|]. destruct (H k ltac:(by left)) as [t Ht].
  exists (fun key => if bool_decide (key = k) then t else rt key). split.
  - intros key [->|Hk]%elem_of_cons; [by rewrite bool_decide_true|]. case_bool_decide; [by subst|by apply R1].
  - intros key Hk. apply not_elem_of_cons in Hk as [Hne Hk]. rewrite bool_decide_false by done. by apply R2.
Qed.

Lemma loaded_ok l c cg gg got :
  0 <= cg -> 0 <= gg -> cg + gg - 1 <= invalidations c l ->
  (forall key, key ∈ resource_keys preference c -> exists t, got_ok l c (cg + gg - 1) got key t) -> snap_ok l c (loaded preference c cg gg got).
Proof.
  intros H1 H2 H3 H4. destruct (choose_times _ (length l) _ H4) as (rt & R1 & R2). split; [done|]. split; [done|]. exists rt. cbn [loaded CollectionGeneration GlobalGeneration]. split.
  - intros key. destruct (decide (key ∈ resource_keys preference c)) as [Hk|Hk]; [by destruct (R1 key Hk) as (? & ? & _)|]. rewrite R2 by done.
    split; [done|]. by rewrite firstn_all.
  - unfold loaded, built. assert (forall key, key ∈ resource_keys preference c -> read_value got key = values_at l rt key) as Hv.
    { intros key Hk. destruct (R1 key Hk) as (_ & _ & Hg). unfold read_value. by rewrite Hg. }
    f_equal; [by apply synonyms_ext|by apply stopwords_ext].
Qed.

Lemma current l c : size l < 2 ^ 64 - 1 -> let (cg, gg) := GetLexicalGenerationsLocked c (cache (after l)) in
  0 <= cg /\ 0 <= gg /\ cg + gg - 1 = invalidations c l.
Proof.
  intros Hl. rewrite generations_spec, count_split by done. unfold local_count, global_count.
  pose proof (count_bound (fun e => match e with Invalidate c' => bool_decide (c' = c) | _ => false end) l).
  pose proof (count_bound (fun e => match e with InvalidateEverything => true | _ => false end) l). lia.
Qed.

Lemma find_ok l c s : size l < 2 ^ 64 - 1 -> cache_ok l (cache (after l)) -> find_snapshot preference c (cache (after l)) = Some s ->
  snap_ok l c s /\ CollectionGeneration s + GlobalGeneration s - 1 = invalidations c l.
Proof.
  intros Hl [K1 _]. unfold find_snapshot. destruct (LexicalResourceEntries _ !! c) as [s'|] eqn:E; [|done]. cbn [mbind option_bind].
  pose proof (current l c Hl) as G. destruct (GetLexicalGenerationsLocked _ _) as [cg gg].
  destruct (_ && _) eqn:B; [|done]. intros [= ->]. apply andb_true_iff in B as [[B1 B2]%andb_true_iff _]. split; [by apply K1|]. lia.
Qed.

Lemma advance_ok l a q pl pl' k' :
  size l < 2 ^ 64 - 1 -> newline ∉ Q_Collection q -> cache_ok l (cache (after l)) -> place_ok l a q pl -> (a <= length l)%nat ->
  advance preference q pl (cache (after l)) (store (after l)) = (pl', k') -> place_ok l a q pl' /\ cache_ok l k'.
Proof.
  intros Hl Hn K P Ha. pose proof (invalidations_take (Q_Collection q) l a) as Ht. pose proof (current l (Q_Collection q) Hl) as G.
  destruct pl as [|cg gg got [|key rest]|s|s|v]; cbn [advance].
  - destruct (find_snapshot _ _ _) as [s|] eqn:E.
    + intros [= <- <-]. apply find_ok in E as [E1 E2]; [|done..]. split; [|done]. split; [done|]. lia.
    + destruct (GetLexicalGenerationsLocked _ _) as [cg gg]. intros [= <- <-]. split; [|done]. cbn [place_ok].
      split; [lia|]. split; [lia|]. split; [lia|]. split; [lia|]. exists []. split; [done|]. by intros key ?%elem_of_nil.
  - destruct P as (P1 & P2 & P3 & P4 & ks & P5 & P6). rewrite app_nil_r in P5. subst ks.
    pose proof (loaded_ok l _ _ _ _ P1 P2 P4 P6) as Hs. unfold install.
    destruct (GetLexicalGenerationsLocked _ _) as [cg' gg']. destruct (_ || _); intros [= <- <-]; [done|].
    split; [split; [done|]; cbn [loaded CollectionGeneration GlobalGeneration]; lia|]. destruct K as [K1 K2]. split; [|done]. cbn [put_snapshot LexicalResourceEntries].
    intros c s [[<- <-]|[_ H]]%lookup_insert_Some; [done|by apply K1].
  - intros [= <- <-]. split; [|done]. destruct P as (P1 & P2 & P3 & P4 & ks & P5 & P6). cbn [place_ok].
    split; [done|]. split; [done|]. split; [done|]. split; [done|]. exists (ks ++ [key]). split; [by rewrite <- app_assoc|].
    intros key' Hk. destruct (decide (key' = key)) as [->|Hne].
    + exists (length l). unfold got_ok, store_at. rewrite firstn_all, lookup_insert_eq. split; [lia|done].
    + apply elem_of_app in Hk as [Hk| ->%list_elem_of_singleton]; [|done]. destruct (P6 key' Hk) as (t & T1 & T2 & T3). exists t.
      unfold got_ok. by rewrite lookup_insert_ne by done.
  - destruct P as [P1 P2]. destruct (ExpansionEntries _ !! _) as [e|] eqn:E; intros [= <- <-]; [|done]. split; [|done].
    pose proof P1 as (G1 & G2 & rt & Hr & Hb). unfold expansion_key in E. rewrite Hb in E. cbn [built CollectionGeneration GlobalGeneration ScopePreference] in E.
    apply (k_expansions _ _ K) in E as (s' & (_ & _ & rt' & Hr' & Hb') & E1 & E2 & ->); [|done..]. right. exists rt'. rewrite E1, E2 in Hr'.
    split; [intros key; destruct (Hr' key); split; [done|lia]|]. unfold expansion. rewrite Hb'. reflexivity.
  - destruct P as [P1 P2]. intros [= <- <-]. split; [|by apply cache_ok_put]. right. destruct P1 as (_ & _ & rt & Hr & Hb). exists rt.
    split; [intros key; destruct (Hr key); split; [done|lia]|]. unfold expansion. rewrite Hb. reflexivity.
  - by intros [= <- <-].
Qed.

Definition event_ok (e : Event) : Prop := match e with Start _ q => newline ∉ Q_Collection q | _ => True end.

Lemma evolves l e : (match e with Start _ _ | Advance _ => False | _ => True end) -> processes (after (l ++ [e])) = processes (after l).
Proof. intros H. rewrite after_snoc. by destruct e. Qed.

Lemma processes_ok_other l e i p :
  processes (after (l ++ [e])) !! i = Some p -> processes (after l) !! i = Some p -> processes_ok l ->
  newline ∉ Q_Collection (query p) /\
  forall a, (a <= length (l ++ [e]))%nat -> processes (after (take a (l ++ [e]))) !! i = None -> place_ok (l ++ [e]) a (query p) (place p).
Proof.
  intros Hp' Hp P. destruct (P i p Hp) as [H1 H2]. split; [done|]. intros a Ha Hnone. rewrite length_app in Ha. cbn [length] in Ha.
  destruct (decide (a = length l + 1)%nat) as [->|Hne].
  - rewrite firstn_all2 in Hnone by (rewrite length_app; cbn [length]; lia). congruence.
  - rewrite take_snoc_le in Hnone by lia. apply place_ok_snoc; [lia|]. apply H2; [lia|done].
Qed.

Lemma world_ok l : Forall event_ok l -> size l < 2 ^ 64 - 1 -> cache_ok l (cache (after l)) /\ processes_ok l.
Proof.
  induction l as [|e l IH] using rev_ind; intros Hf Hl; [split; [split; [by intros c s|by intros q cg gg e]|by intros i p]|].
  apply Forall_app in Hf as [Hf He]. rewrite Forall_singleton in He.
  assert (size l < 2 ^ 64 - 1) as Hl' by (unfold size in *; rewrite length_app in Hl; lia). destruct (IH Hf Hl') as [K P]. clear IH Hl.
  assert (forall k, cache (after (l ++ [e])) = k -> cache_ok l k -> cache_ok (l ++ [e]) (cache (after (l ++ [e])))) as Kc
    by (intros k -> Hk; by apply cache_ok_snoc).
  assert (processes (after (l ++ [e])) = processes (after l) -> processes_ok (l ++ [e])) as Pc.
  { intros H i p Hp. apply processes_ok_other; [done|by rewrite <- H|done]. }
  destruct e as [i q|i|key v|c|].
  - destruct (processes (after l) !! i) as [p|] eqn:E.
    + assert (after (l ++ [Start i q]) = after l) as R by (rewrite after_snoc; cbn [step]; by rewrite E).
      split; [by eapply Kc; [by rewrite R|]|apply Pc; by rewrite R].
    + assert (after (l ++ [Start i q]) = mkWorld (cache (after l)) (store (after l)) (<[i := mkProcess q (start q)]> (processes (after l)))) as R
        by (rewrite after_snoc; cbn [step]; by rewrite E).
      split; [by eapply Kc; [by rewrite R|]|]. intros j p Hj. pose proof Hj as Hj'. rewrite R in Hj'. cbn [processes] in Hj'.
      apply lookup_insert_Some in Hj' as [[<- <-]|[Hne Hj']]; [|by apply processes_ok_other]. split; [done|]. intros a Ha _. cbn [query place].
      unfold start. destruct (is_trivial _) eqn:T; [by left|done].
  - destruct (processes (after l) !! i) as [p|] eqn:E.
    + destruct (advance preference (query p) (place p) (cache (after l)) (store (after l))) as [pl k] eqn:Ad.
      assert (after (l ++ [Advance i]) = mkWorld k (store (after l)) (<[i := mkProcess (query p) pl]> (processes (after l)))) as R
        by (rewrite after_snoc; cbn [step]; rewrite E, Ad; done).
      destruct (P i p E) as [H1 H2].
      assert (place_ok l 0 (query p) (place p)) as P0 by (apply H2; [lia|done]).
      split. { eapply Kc; [by rewrite R|]. by eapply advance_ok in Ad as [_ Ad]; [|done..|lia]. }
      intros j p' Hj. pose proof Hj as Hj'. rewrite R in Hj'. cbn [processes] in Hj'.
      apply lookup_insert_Some in Hj' as [[<- <-]|[Hne Hj']]; [|by apply processes_ok_other]. cbn [query place]. split; [done|].
      intros a Ha Hnone. rewrite length_app in Ha. cbn [length] in Ha. destruct (decide (a = length l + 1)%nat) as [->|Hne].
      * rewrite firstn_all2 in Hnone by (rewrite length_app; cbn [length]; lia). congruence.
      * rewrite take_snoc_le in Hnone by lia. apply place_ok_snoc; [lia|]. eapply advance_ok in Ad as [Ad _]; [done|done..|by apply H2; [lia|]|lia].
    + assert (after (l ++ [Advance i]) = after l) as R by (rewrite after_snoc; cbn [step]; by rewrite E).
      split; [by eapply Kc; [by rewrite R|]|apply Pc; by rewrite R].
  - split; [|by apply Pc, evolves]. eapply Kc; [by rewrite after_snoc|done].
  - split; [|by apply Pc, evolves]. eapply Kc; [by rewrite after_snoc|]. apply (cache_ok_subset _ (cache (after l))); [| |done]; cbn [step cache InvalidateCollection LexicalResourceEntries ExpansionEntries].
    + intros c' s [_ H]%lookup_delete_Some. done.
    + intros key e [H _]%map_lookup_filter_Some. done.
  - split; [|by apply Pc, evolves]. eapply Kc; [by rewrite after_snoc|]. apply (cache_ok_subset _ (cache (after l))); [| |done]; by intros ? ? ?.
Qed.

(** C15. However queries, writes of the store and invalidations of the synonyms and
    stopwords caches interleave, the answer of a query is the query itself when it is empty
    or a star, and otherwise the expansion of its text with resources each of which is the
    value the store had at some moment that is not before the last invalidation of its
    collection preceding the query: an answer from the expansion cache or from a snapshot
    of another query is never older. *)
Theorem expansion_fresh (l : list Event) (a i : nat) (q : Query) (v : list bytes) :
  Forall event_ok l -> size l < 2 ^ 64 - 1 ->
  (a <= length l)%nat -> processes (after (take a l)) !! i = None ->
  processes (after l) !! i = Some (mkProcess q (Answered v)) -> answer_ok l a q v.
Proof. intros Hf Hl Ha Hn Hp. destruct (world_ok l Hf Hl) as [_ P]. destruct (P i _ Hp) as [_ H]. by apply (H a). Qed.

(** ** The expansion cache is bounded *)

Definition queued (k : LexicalQueryCache) : Prop :=
  (forall key e, ExpansionEntries k !! key = Some e -> key ∈ ExpansionOrder k) /\ Z.of_nat (base.size (ExpansionEntries k)) <= MaxExpansionCacheEntries.

Lemma evict_bounded order : forall m m' o,
  (forall key e, m !! key = Some e -> key ∈ order) -> evict_expansions order m = (m', o) ->
  (forall key e, m' !! key = Some e -> key ∈ o) /\ Z.of_nat (base.size m') <= MaxExpansionCacheEntries.
Proof.
  induction order as [|x r IH]; intros m m' o H; cbn [evict_expansions].
  - intros [= <- <-]. split; [done|]. assert (m = ∅) as ->; [|by rewrite map_size_empty].
    apply map_empty. intros key. destruct (m !! key) as [e|] eqn:E; [|done]. by apply H, elem_of_nil in E.
  - destruct (_ <? _) eqn:B; [|intros [= <- <-]; split; [done|lia]]. apply IH.
    intros key e [Hne Hk]%lookup_delete_Some. apply H in Hk. by apply elem_of_cons in Hk as [->|Hk].
Qed.

Lemma queued_put key c v k : queued k -> queued (PutExpansionCache key c v k).
Proof.
  intros [Q _]. unfold PutExpansionCache. destruct (evict_expansions _ _) as [m o] eqn:E. apply evict_bounded in E; [exact E|].
  intros key' e [[<- _]|[_ H]]%lookup_insert_Some; apply elem_of_app; [right; by apply list_elem_of_singleton|left; by eapply Q].
Qed.

Lemma queued_advance q pl k get pl' k' : queued k -> advance preference q pl k get = (pl', k') -> queued k'.
Proof.
  intros Q. destruct pl as [|cg gg got [|key rest]|s|s|v]; cbn [advance].
  - destruct (find_snapshot _ _ _); [by intros [= _ <-]|]. destruct (GetLexicalGenerationsLocked _ _); by intros [= _ <-].
  - unfold install. destruct (GetLexicalGenerationsLocked _ _). destruct (_ || _); by intros [= _ <-].
  - by intros [= _ <-].
  - destruct (ExpansionEntries k !! _); by intros [= _ <-].
  - intros [= _ <-]. by apply queued_put.
  - by intros [= _ <-].
Qed.

Lemma queued_filter c k : queued k -> queued (InvalidateCollection c k).
Proof.
  intros [Q S]. split; cbn [InvalidateCollection ExpansionEntries ExpansionOrder].
  - intros key e [H _]%map_lookup_filter_Some. by eapply Q.
  - pose proof (map_size_filter (fun x : bytes * ExpansionCacheEntry => Entry_Collection x.2 <> c) (ExpansionEntries k)). lia.
Qed.

(** Whatever happens, the expansion cache never holds more than
    MaxExpansionCacheEntries expansions, and every one of them waits in the queue of
    keys to be evicted. *)
Theorem expansions_bounded (l : list Event) : queued (cache (after l)).
Proof.
  induction l as [|e l IH] using rev_ind; [by split|]. rewrite after_snoc. destruct e as [i q|i|key v|c|]; cbn [step].
  - by destruct (processes (after l) !! i).
  - destruct (processes (after l) !! i) as [p|]; [|done]. destruct (advance _ _ _ _ _) as [pl k] eqn:E. by eapply queued_advance.
  - done.
  - by apply queued_filter.
  - by split.
Qed.

End props.

(** ** What an expansion holds *)

Definition substitutes (g : gmap bytes (list bytes)) (Tokens : list bytes) (I : nat) : list bytes :=
  let Normalized := NormalizeTermSimple false (default [] (Tokens !! I)) in
  if bool_decide (Normalized = []) then []
  else (fun Syn => join_space (<[I := Syn]> Tokens)) <$> List.filter (fun s => negb (bool_decide (s = []))) (default [] (g !! Normalized)).

Definition is_variant (g : gmap bytes (list bytes)) (Tokens : list bytes) (x : bytes) : Prop :=
  x = join_space Tokens \/ exists I, (I < length Tokens)%nat /\ x ∈ substitutes g Tokens I.

Abbreviation replaced Tokens I syns := ((fun Syn => join_space (<[I := Syn]> Tokens)) <$> List.filter (fun s => negb (bool_decide (s = []))) syns).

Lemma add_synonyms_spec Tokens I syns : forall n V, exists k, add_synonyms Tokens I n syns V = V ++ take k (replaced Tokens I syns) /\
  ((length V < MaxVariants)%nat -> (length (add_synonyms Tokens I n syns V) <= MaxVariants)%nat) /\
  ((n + length (replaced Tokens I syns) <= MaxSynonymsPerToken)%nat -> (length V + length (replaced Tokens I syns) <= MaxVariants)%nat ->
   add_synonyms Tokens I n syns V = V ++ replaced Tokens I syns).
Proof.
  induction syns as [|s r IH]; intros n V; cbn [add_synonyms List.filter].
  - exists 0%nat. rewrite app_nil_r. split; [done|]. split; [intros H; apply Nat.lt_le_incl, H|intros _ _; by rewrite app_nil_r].
  - destruct (bool_decide (s = [])); cbn [negb]; [apply IH|]. rewrite fmap_cons. cbn [length].
    destruct (_ || _) eqn:B.
    + exists 1%nat. cbn [take]. rewrite take_0. split; [done|]. split; [rewrite length_app; cbn [length]; lia|]. intros H1 H2. f_equal. f_equal.
      apply orb_true_iff in B as [B|B]; apply Nat.leb_le in B; [|rewrite length_app in B; cbn [length] in B]; symmetry; apply nil_length_inv; lia.
    + apply orb_false_iff in B as [_ B]. apply Nat.leb_gt in B. rewrite length_app in B. cbn [length] in B.
      destruct (IH (S n) (V ++ [join_space (<[I := s]> Tokens)])) as (k & E1 & E2 & E3). exists (S k).
      cbn [take]. rewrite length_app in E2, E3. cbn [length] in E2, E3. split; [rewrite E1, <- app_assoc; done|]. split; [intros _; apply E2; lia|].
      intros H1 H2. rewrite E3 by lia. by rewrite <- app_assoc.
Qed.

Lemma expand_token_spec g Tokens V I :
  (exists k, expand_token g Tokens V I = V ++ take k (substitutes g Tokens I)) /\
  ((length V <= MaxVariants)%nat -> (length (expand_token g Tokens V I) <= MaxVariants)%nat) /\
  ((length (substitutes g Tokens I) <= MaxSynonymsPerToken)%nat -> (length V + length (substitutes g Tokens I) <= MaxVariants)%nat ->
   expand_token g Tokens V I = V ++ substitutes g Tokens I).
Proof.
  unfold expand_token. destruct (_ <=? _)%nat eqn:B.
  { apply Nat.leb_le in B. split; [exists 0%nat; by rewrite take_0, app_nil_r|]. split; [done|]. intros _ H.
    rewrite (nil_length_inv (substitutes g Tokens I)) by lia. by rewrite app_nil_r. }
  apply Nat.leb_gt in B. unfold substitutes. set (N := NormalizeTermSimple false _). destruct (g !! N) as [syns|].
  - destruct (bool_decide (N = [])); [split; [exists 0%nat; by rewrite app_nil_r|]; split; [done|]; by rewrite app_nil_r|].
    cbn [default from_option id]. destruct (add_synonyms_spec Tokens I syns 0 V) as (k & E1 & E2 & E3). split; [by exists k|]. split; [auto|]. apply E3.
  - assert ((if bool_decide (N = []) then [] else replaced Tokens I (default [] (@None (list bytes)))) = []) as -> by (by destruct (bool_decide _)).
    split; [exists 0%nat; by rewrite app_nil_r|]. split; [done|]. by rewrite app_nil_r.
Qed.

Lemma expand_tokens_sound g Tokens Is : forall V x,
  x ∈ foldl (expand_token g Tokens) V Is -> x ∈ V \/ exists I, I ∈ Is /\ x ∈ substitutes g Tokens I.
Proof.
  induction Is as [|I Is IH]; intros V x; cbn [foldl]; [by left|]. intros [H|(J & HJ & H)]%IH; [|right; exists J; by split; [right|]].
  destruct (expand_token_spec g Tokens V I) as [[k E] _]. rewrite E in H. apply elem_of_app in H as [H|H]; [by left|]. right. exists I. split; [by left|].
  eapply elem_of_sublist; [done|apply sublist_take].
Qed.

Lemma expand_tokens_keep g Tokens Is : forall V x, x ∈ V -> x ∈ foldl (expand_token g Tokens) V Is.
Proof.
  induction Is as [|I Is IH]; intros V x H; cbn [foldl]; [done|]. apply IH. destruct (expand_token_spec g Tokens V I) as [[k ->] _].
  apply elem_of_app. by left.
Qed.

Lemma expand_tokens_length g Tokens Is : forall V, (length V <= MaxVariants)%nat -> (length (foldl (expand_token g Tokens) V Is) <= MaxVariants)%nat.
Proof. induction Is as [|I Is IH]; intros V H; cbn [foldl]; [done|]. apply IH. by apply expand_token_spec. Qed.

Lemma expand_tokens_all g Tokens Is : forall V,
  Forall (fun I => (length (substitutes g Tokens I) <= MaxSynonymsPerToken)%nat) Is -> (length V + length (Is ≫= substitutes g Tokens) <= MaxVariants)%nat ->
  foldl (expand_token g Tokens) V Is = V ++ (Is ≫= substitutes g Tokens).
Proof.
  induction Is as [|I Is IH]; intros V; [by rewrite app_nil_r|]. rewrite Forall_cons. cbn [foldl]. change ((I :: Is) ≫= substitutes g Tokens) with (substitutes g Tokens I ++ (Is ≫= substitutes g Tokens)).
  rewrite length_app. intros [H1 H2] H3. destruct (expand_token_spec g Tokens V I) as (_ & _ & E). rewrite E by (done || lia).
  rewrite IH; [by rewrite <- app_assoc|done|]. rewrite length_app. lia.
Qed.

Lemma expand_unfold g Stopwords EnableStopwords QueryText Tokens :
  Tokens = query_words EnableStopwords Stopwords QueryText -> Tokens <> [] ->
  expand g Stopwords true EnableStopwords QueryText =
    if bool_decide (g = ∅) then [join_space Tokens] else sort_unique (foldl (expand_token g Tokens) [join_space Tokens] (seq 0 (length Tokens))).
Proof. intros -> H. unfold expand. by destruct (query_words _ _ _). Qed.

#[local] Instance str_order_total : Total str_order.
Proof. intros a b. unfold str_order, str_leb. rewrite (str_compare_antisym a b). destruct (str_compare a b); [by left|by left|by right]. Qed.

Lemma str_compare_le_trans a : forall b c, str_compare a b <> Gt -> str_compare b c <> Gt -> str_compare a c <> Gt.
Proof.
  induction a as [|x a IH]; intros [|y b] [|z c]; cbn [str_compare]; try done.
  destruct (Z.compare_spec (code x) (code y)), (Z.compare_spec (code y) (code z)), (Z.compare_spec (code x) (code z)); try done; try lia. apply IH.
Qed.

#[local] Instance str_order_trans : Transitive str_order.
Proof.
  intros a b c. unfold str_order, str_leb. pose proof (str_compare_le_trans a b c) as T.
  destruct (str_compare a b), (str_compare b c), (str_compare a c); try done; by destruct T.
Qed.

Lemma remove_dups_length (l : list bytes) : (length (remove_dups l) <= length l)%nat.
Proof. induction l as [|x l IH]; cbn [remove_dups]; [done|]. case_decide; cbn [length]; lia. Qed.

Lemma substitutes_empty Tokens I : substitutes ∅ Tokens I = [].
Proof. unfold substitutes. rewrite lookup_empty. by destruct (bool_decide _). Qed.

(** C27. The expansion of a query of at least one word that is not a stopword has the words
    themselves, holds only that and the texts in which one word is replaced by a synonym of
    its normal form, and all of those when no word has more than MaxSynonymsPerToken
    synonyms and they are fewer than MaxVariants together; it is ordered, without
    duplicates, and never longer than MaxVariants. *)
Theorem expansion_exact (g : gmap bytes (list bytes)) (Stopwords : gset bytes) (EnableStopwords : bool) (QueryText : bytes) :
  let Tokens := query_words EnableStopwords Stopwords QueryText in
  let v := expand g Stopwords true EnableStopwords QueryText in
  Tokens <> [] ->
  StronglySorted str_order v /\ NoDup v /\ (length v <= MaxVariants)%nat /\ join_space Tokens ∈ v /\
  (forall x, x ∈ v -> is_variant g Tokens x) /\
  ((forall I, (I < length Tokens)%nat -> (length (substitutes g Tokens I) <= MaxSynonymsPerToken)%nat) ->
   (length (seq 0 (length Tokens) ≫= substitutes g Tokens) < MaxVariants)%nat ->
   forall x, is_variant g Tokens x -> x ∈ v).
Proof.
  intros Tokens v Hne. unfold v. rewrite (expand_unfold g Stopwords EnableStopwords QueryText Tokens eq_refl Hne). clear v. case_bool_decide as Hg.
  - subst g. split; [by repeat constructor|]. split; [apply NoDup_singleton|]. split; [cbn [length]; unfold MaxVariants; lia|].
    split; [by left|]. split; [intros x ->%list_elem_of_singleton; by left|]. intros _ _ x [->|(I & _ & H)]; [by left|]. rewrite substitutes_empty in H. by apply elem_of_nil in H.
  - split; [apply (StronglySorted_merge_sort str_order)|]. split; [unfold sort_unique; rewrite (merge_sort_Permutation str_order); apply NoDup_remove_dups|].
    split. { unfold sort_unique. rewrite (merge_sort_Permutation str_order). etransitivity; [apply remove_dups_length|]. apply expand_tokens_length. cbn [length]. unfold MaxVariants. lia. }
    setoid_rewrite elem_of_sort_unique. split; [apply expand_tokens_keep; by left|]. split.
    + intros x [->%list_elem_of_singleton|(I & HI & H)]%expand_tokens_sound; [by left|]. apply elem_of_seq in HI. right. exists I. split; [lia|done].
    + intros H1 H2 x Hx. rewrite expand_tokens_all; [|apply Forall_forall; intros I HI; apply elem_of_seq in HI; apply H1; lia|cbn [length]; lia].
      apply elem_of_app. destruct Hx as [->|(I & HI & Hx)]; [left; by left|]. right. apply list_elem_of_bind. exists I. split; [done|]. apply elem_of_seq. lia.
Qed.

(** A library that reads one text of synonyms and one of stopwords. *)

#[local] Instance two_texts : Library :=
  { parse := fun s =>
      if bool_decide (s = #"syn") then Some (JObject [(#"synonyms", JArray [JObject [(#"root", JString #"car"); (#"synonyms", JArray [JString #"auto"])]])])
      else if bool_decide (s = #"stop") then Some (JArray [JString #"the"]) else None;
    dump := fun _ => []; sin := fun d => d; cos := fun d => d; atan2 := fun d _ => d; get_time := fun _ => None }.

Definition ask : Query := mkQuery #"c" #"the car" true true.

(** The stopwords and then the synonyms are written and invalidated while a query reads. *)

Definition happened : list Event :=
  [Write (stopwords_key #"c") #"stop"; Invalidate #"c"; Start 1 ask; Advance 1; Advance 1; Write (synonyms_key #"c") #"syn"; Invalidate #"c"] ++
  repeat (Advance 1) 12.

Lemma expansion_fresh_witness : answer_ok #"merge" (fun _ => []) happened 2 ask [ #"auto"; #"car"].
Proof.
  apply (expansion_fresh #"merge" (fun _ => []) ltac:(refine (bool_decide_eq_true_1 _ _); vm_compute; reflexivity) happened 2 1 ask).
  - unfold happened. repeat (apply Forall_cons; split; [first [exact Logic.I|refine (bool_decide_eq_true_1 _ _); vm_compute; reflexivity]|]). apply Forall_nil_2.
  - apply Z.ltb_lt. vm_compute. reflexivity.
  - apply Nat.leb_le. vm_compute. reflexivity.
  - vm_compute. reflexivity.
  - vm_compute. reflexivity.
Defined.

Lemma expansion_exact_witness : let g := <[ #"car" := [ #"auto"; #"coach"]]> (∅ : gmap bytes (list bytes)) in
  #"red coach" ∈ expand g {[ #"the"]} true true #"the red car".
Proof.
  intros g. refine (proj2 (proj2 (proj2 (proj2 (proj2 (expansion_exact g {[ #"the"]} true #"the red car" _))))) _ _ _ _).
  - intros H. vm_compute in H. discriminate H.
  - intros [|[|I]] H; [apply Nat.leb_le; vm_compute; reflexivity|apply Nat.leb_le; vm_compute; reflexivity|exfalso; vm_compute in H; lia].
  - apply Nat.leb_le. vm_compute. reflexivity.
  - right. exists 1%nat. split; [apply Nat.leb_le; vm_compute; reflexivity|]. refine (bool_decide_eq_true_1 _ _). vm_compute. reflexivity.
Defined.

End LexicalCacheProps.
