(* ===== verification/RocksStore.v ===== *)
(** * RocksStore: the storage engine of src/search/rocksdb_storage_engine.cpp

    [DBManager] over one ordered key-value store (RocksDB, the class [Segments.Store]) and,
    when segmented storage is enabled, the router of Segments for the keys of documents.
    Every write has a status that is an input; a write that is refused changes nothing.
    Options, statistics, logging and background threads are left out. [Database] is what
    the engine promises to the rest of the program when storage is not segmented. *)

From S2P Require Import Prelude CText Wildcard Segments.
Import Segments.

Module RocksStore.

(** ** The size of an entry, include/search/wal_entry_guard.h *)

Definition MAX_WAL_ENTRY_SIZE : Z := 1024 * 1024.

Definition MAX_WAL_ENTRY_SIZE_RECOVERY : Z := 100 * 1024 * 1024.

Inductive WALEntryValidationError := SizeOverflow | EntryTooLarge.

#[export] Instance validation_error_dec : EqDecision WALEntryValidationError.
Proof. solve_decision. Defined.

Definition size_max : Z := 2 ^ 64 - 1.

Definition ValidateWALEntrySize (key_len value_len : Z) (is_recovery : bool) : option WALEntryValidationError :=
  if size_max - value_len <? key_len then Some SizeOverflow
  else if (if is_recovery then MAX_WAL_ENTRY_SIZE_RECOVERY else MAX_WAL_ENTRY_SIZE) <? key_len + value_len then Some EntryTooLarge
  else None.

Definition WALEntryValidationErrorCode (error : WALEntryValidationError) : bytes :=
  match error with SizeOverflow => #"wal_entry_size_overflow" | EntryTooLarge => #"wal_entry_too_large" end.

Section engine.
  Context {DB : Type} `{Store DB} (opts : RocksDBOptions).

(** The router works on the same database. *)

Inductive Backend := Plain (d : DB) | Segmented (m : SegmentManager DB).

Record DBManager := mkManager { backend : Backend; LastWriteErrorCode : bytes; Statuses : list bool }.

Definition DBValue (s : DBManager) : DB := match backend s with Plain d => d | Segmented m => SystemDB m end.

Definition SegmentManagerValue (s : DBManager) : option (SegmentManager DB) := match backend s with Plain _ => None | Segmented m => Some m end.

Definition IsDocumentKey (key : bytes) : bool := starts_with #"doc:" key.

(** The router, when the key is for it. *)

Definition routed (key : bytes) (s : DBManager) : option (SegmentManager DB) :=
  if IsDocumentKey key then SegmentManagerValue s else None.

Definition set_code (code : bytes) (s : DBManager) : DBManager := mkManager (backend s) code (Statuses s).

Definition set_router (m : SegmentManager DB) (s : DBManager) : DBManager := mkManager (Segmented m) (LastWriteErrorCode s) (Statuses s).

Definition put_writes (l : list write) (b : Backend) : Backend :=
  match b with Plain d => Plain (write_batch d l) | Segmented m => Segmented (set_SystemDB (write_batch (SystemDB m) l) m) end.

Definition write_status (l : list write) (s : DBManager) : DBManager * bool :=
  let ok := hd true (Statuses s) in
  (mkManager (if ok then put_writes l (backend s) else backend s) (LastWriteErrorCode s) (tl (Statuses s)), ok).

Definition reported_write (l : list write) (s : DBManager) : DBManager * bool :=
  let (s, ok) := write_status l s in (if ok then s else set_code #"rocksdb_write_failed" s, ok).

(** ** Writes; [None] is a router that does not return *)

Definition through (r : option (SegmentManager DB * bool)) (s : DBManager) : option (DBManager * bool) :=
  (fun x => (set_router x.1 s, x.2)) <$> r.

Definition Set_ (env : Env) (key value : bytes) (s : DBManager) : option (DBManager * bool) :=
  match ValidateWALEntrySize (size key) (size value) false with
  | Some e => Some (set_code (WALEntryValidationErrorCode e) s, false)
  | None =>
      let s := set_code [] s in
      match routed key s with
      | Some m => through (SetDocument opts env key value m) s
      | None => Some (reported_write [Put key value] s)
      end
  end.

Definition SetIfNotExists (env : Env) (key value : bytes) (s : DBManager) : option (DBManager * bool) :=
  match ValidateWALEntrySize (size key) (size value) false with
  | Some e => Some (set_code (WALEntryValidationErrorCode e) s, false)
  | None =>
      let s := set_code [] s in
      match routed key s with
      | Some m =>
          let (m, there) := ExistsDocument env key m in
          if (there : bool) then Some (set_router m s, false) else through (SetDocument opts env key value m) s
      | None =>
          match db_get (DBValue s) key with
          | Some _ => Some (s, false)
          | None => Some (write_status [Put key value] s)
          end
      end
  end.

(** The error of the first entry that is too large, alone or with those before it. *)

Fixpoint batch_error (key_values : list (bytes * bytes)) (cumulative : Z) : option WALEntryValidationError :=
  match key_values with
  | [] => ValidateWALEntrySize 0 cumulative false
  | (k, v) :: r =>
      match ValidateWALEntrySize (size k) (size v) false with
      | Some e => Some e
      | None => let total := size k + size v in if size_max - total <? cumulative then Some SizeOverflow else batch_error r (cumulative + total)
      end
  end.

Definition puts (key_values : list (bytes * bytes)) : list write := (fun kv => Put kv.1 kv.2) <$> key_values.

(** Documents that the router takes, after the other keys. *)

Definition batch_documents (env : Env) (count : Z) (docs : list (bytes * bytes)) (s : DBManager) : option (DBManager * Z) :=
  match docs, SegmentManagerValue s with
  | [], _ | _, None => Some (s, count)
  | _, Some m => (fun x : SegmentManager DB * Z => (set_router x.1 s, if x.2 =? size docs then count else 0)) <$> BatchSetDocuments opts env docs m
  end.

Definition BatchSet (env : Env) (key_values : list (bytes * bytes)) (s : DBManager) : option (DBManager * Z) :=
  match key_values with
  | [] => Some (s, 0)
  | _ =>
      match batch_error key_values 0 with
      | Some e => Some (set_code (WALEntryValidationErrorCode e) s, 0)
      | None =>
          let s := set_code [] s in
          match SegmentManagerValue s with
          | Some _ =>
              let doc_key_values := List.filter (fun kv => IsDocumentKey kv.1) key_values in
              let system_key_values := List.filter (fun kv => negb (IsDocumentKey kv.1)) key_values in
              let (s, ok) := match system_key_values with [] => (s, true) | _ => write_status (puts system_key_values) s end in
              if (ok : bool) then batch_documents env (size key_values) doc_key_values s else Some (s, 0)
          | None => let (s, ok) := reported_write (puts key_values) s in Some (s, if (ok : bool) then size key_values else 0)
          end
      end
  end.

Definition Del (env : Env) (key : bytes) (s : DBManager) : DBManager * Z :=
  match routed key s with
  | Some m => let (m, n) := DeleteDocument env key m in (set_router m s, n)
  | None => let (s, ok) := write_status [Delete key] s in (s, if (ok : bool) then 1 else 0)
  end.

Definition DeleteRange (env : Env) (start_key end_key : bytes) (s : DBManager) : DBManager * Z :=
  match routed start_key s with
  | Some m => let (m, n) := DeleteDocumentRange env start_key end_key m in (set_router m s, n)
  | None => let (s, ok) := write_status [Segments.DeleteRange start_key end_key] s in (s, if (ok : bool) then 1 else 0)
  end.

Definition ClearDocumentStorage (env : Env) (s : DBManager) : DBManager * bool :=
  match SegmentManagerValue s with
  | Some m => let (m, ok) := ClearAllDocuments env m in (set_router m s, ok)
  | None => write_status [Segments.DeleteRange #"doc:" #"doc;"] s
  end.

(** ** Reads *)

Definition Get (env : Env) (key : bytes) (s : DBManager) : DBManager * bytes :=
  match routed key s with
  | Some m => let (m, v) := GetDocument env key m in (set_router m s, v)
  | None => (s, default [] (db_get (DBValue s) key))
  end.

Definition Exists (env : Env) (key : bytes) (s : DBManager) : DBManager * bool :=
  match routed key s with
  | Some m => let (m, there) := ExistsDocument env key m in (set_router m s, there)
  | None => (s, bool_decide (is_Some (db_get (DBValue s) key)))
  end.

Definition Keys (pattern : bytes) (s : DBManager) : list bytes :=
  match routed pattern s with
  | Some m => Segments.Keys pattern m
  | None => List.filter (fun key => Wildcard.Match key pattern) (db_keys (DBValue s))
  end.

Definition with_prefix (prefix : bytes) (s : DBManager) : list bytes := List.filter (starts_with prefix) (db_keys (DBValue s)).

Definition CountKeys (prefix : bytes) (s : DBManager) : Z :=
  match routed prefix s with Some m => Z.of_nat (Segments.CountKeys prefix m) | None => size (with_prefix prefix s) end.

Definition page {A} (offset limit : nat) (l : list A) : list A := if (limit =? 0)%nat then drop offset l else take limit (drop offset l).

Definition PrefixKeys (prefix : bytes) (offset limit : nat) (s : DBManager) : list bytes :=
  match routed prefix s with Some m => Segments.PrefixKeys prefix offset limit m | None => page offset limit (with_prefix prefix s) end.

Definition GetPrefixTotalSize (env : Env) (prefix : bytes) (s : DBManager) : DBManager * Z :=
  match routed prefix s with
  | Some m => let (m, n) := Segments.GetPrefixTotalSize env prefix m in (set_router m s, n)
  | None => (s, foldr (fun key n => size (default [] (db_get (DBValue s) key)) + n) 0 (with_prefix prefix s))
  end.

End engine.

Arguments DBManager : clear implicits.
Arguments Backend : clear implicits.

(** ** What the engine promises

    [stored] and [listed] are what can be read; a write that is refused or fails changes
    nothing, a batch is written whole or not at all. *)

Class Database (D : Type) := {
  stored : D -> bytes -> option bytes;
  listed : D -> list bytes;
  db_set : bytes -> bytes -> D -> D * bool;
  db_batch : list (bytes * bytes) -> D -> D * Z;
  db_del : bytes -> D -> D * Z;
  db_delete_range : bytes -> bytes -> D -> D * Z
}.

Definition put_all (l : list (bytes * bytes)) (get : bytes -> option bytes) : bytes -> option bytes :=
  foldl (fun g kv k => if bool_decide (k = kv.1) then Some kv.2 else g k) get l.

Class DatabaseLaws (D : Type) `{Database D} : Prop := {
  set_spec k v d d' ok : db_set k v d = (d', ok) -> forall k', stored d' k' = if ok && bool_decide (k' = k) then Some v else stored d k';
  batch_spec l d d' n : db_batch l d = (d', n) ->
    (n = size l /\ forall k', stored d' k' = put_all l (stored d) k') \/ (n = 0 /\ forall k', stored d' k' = stored d k');
  del_spec k d d' n : db_del k d = (d', n) -> (n = 0 \/ n = 1) /\ forall k', stored d' k' = if bool_decide (n = 1) && bool_decide (k' = k) then None else stored d k';
  delete_range_spec a b d d' n : db_delete_range a b d = (d', n) ->
    (n = 0 \/ n = 1) /\ forall k', stored d' k' = if bool_decide (n = 1) && in_key_range a b k' then None else stored d k';
  set_size k v d d' : db_set k v d = (d', true) -> size k + size v <= MAX_WAL_ENTRY_SIZE;
  batch_size l d d' n : db_batch l d = (d', n) -> n <> 0 -> Forall (fun kv => size kv.1 + size kv.2 <= MAX_WAL_ENTRY_SIZE) l;
  listed_spec d k : k ∈ listed d <-> is_Some (stored d k);
  listed_sorted d : StronglySorted (fun a b => str_compare a b = Lt) (listed d)
}.

(** The engine without segments keeps the promise. *)

Record PlainStore (DB : Type) := mkPlain { plain_db : DB; plain_code : bytes; plain_statuses : list bool }.
Arguments mkPlain {DB}.
Arguments plain_db {DB}.
Arguments plain_code {DB}.
Arguments plain_statuses {DB}.

Section plain.
  Context {DB : Type} `{StoreLaws DB} (opts : RocksDBOptions) (env : Env).

Definition manager (p : PlainStore DB) : DBManager DB := mkManager (Plain (plain_db p)) (plain_code p) (plain_statuses p).

Definition unmanaged (s : DBManager DB) : PlainStore DB := mkPlain (DBValue s) (LastWriteErrorCode s) (Statuses s).

Definition apply_to {A} (p : PlainStore DB) (none : A) (r : option (DBManager DB * A)) : PlainStore DB * A :=
  match r with Some (s, a) => (unmanaged s, a) | None => (p, none) end.

#[export] Instance plain_database : Database (PlainStore DB) := {
  stored p k := db_get (plain_db p) k;
  listed p := db_keys (plain_db p);
  db_set k v p := apply_to p false (Set_ opts env k v (manager p));
  db_batch l p := apply_to p 0 (BatchSet opts env l (manager p));
  db_del k p := apply_to p 0 (Some (Del env k (manager p)));
  db_delete_range a b p := apply_to p 0 (Some (DeleteRange env a b (manager p)))
}.

Lemma get_put_all l : forall (d : DB) k, db_get (write_batch d (puts l)) k = put_all l (db_get d) k.
Proof.
  unfold write_batch, put_all. induction l as [|[a v] l IH] using rev_ind; intros d k; [done|].
  unfold puts. rewrite fmap_app, !foldl_app. cbn [fmap list_fmap foldl fst snd]. rewrite get_put. case_bool_decide; [done|]. apply IH.
Qed.

Lemma routed_plain key p : routed key (manager p) = None.
Proof. unfold routed. by destruct (IsDocumentKey key). Qed.

Lemma fits a b : ValidateWALEntrySize a b false = None -> a + b <= MAX_WAL_ENTRY_SIZE.
Proof. unfold ValidateWALEntrySize. destruct (_ <? _); [done|]. destruct (_ <? _) eqn:E; [done|]. intros _. lia. Qed.

Lemma fit_all l : forall c, batch_error l c = None -> Forall (fun kv => size kv.1 + size kv.2 <= MAX_WAL_ENTRY_SIZE) l.
Proof.
  induction l as [|[k v] l IH]; intros c; [by intros _|]. cbn [batch_error]. destruct (ValidateWALEntrySize _ _ _) eqn:E; [done|].
  destruct (_ <? _); [done|]. intros Hl. constructor; [by apply fits|by eapply IH].
Qed.

#[export] Instance plain_laws : DatabaseLaws (PlainStore DB).
Proof.
  split.
  - intros k v d d' ok. cbn [db_set stored plain_database]. unfold Set_. destruct (ValidateWALEntrySize _ _ _); [by intros [= <- <-]|].
    assert (routed k (set_code [] (manager d)) = None) as -> by apply (routed_plain k (mkPlain (plain_db d) [] (plain_statuses d))).
    unfold reported_write, write_status. destruct (hd true _); intros [= <- <-] k'; [|done]. cbn. apply get_put.
  - intros l d d' n. cbn [db_batch stored plain_database]. unfold BatchSet. destruct l as [|kv l]; [intros [= <- <-]; right; done|]. set (l' := kv :: l).
    destruct (batch_error _ _); [intros [= <- <-]; by right|]. cbn. unfold reported_write, write_status. destruct (hd true _); intros [= <- <-]; [left|by right].
    split; [done|]. intros k'. cbn [plain_db unmanaged DBValue backend put_writes]. apply (get_put_all l').
  - intros k d d' n. cbn [db_del stored plain_database]. unfold Del. rewrite routed_plain. unfold write_status. cbn.
    destruct (hd true _); intros [= <- <-]; (split; [auto|]); intros k'; [apply get_delete|done].
  - intros a b d d' n. cbn [db_delete_range stored plain_database]. unfold DeleteRange. rewrite routed_plain. unfold write_status. cbn.
    destruct (hd true _); intros [= <- <-]; (split; [auto|]); intros k'; [apply get_delete_range|done].
  - intros k v d d'. cbn [db_set plain_database]. unfold Set_. destruct (ValidateWALEntrySize _ _ _) eqn:E; [done|]. intros _. by apply fits in E.
  - intros l d d' n. cbn [db_batch plain_database]. unfold BatchSet. destruct l as [|kv l]; [by intros [= _ <-]|]. set (l' := kv :: l).
    destruct (batch_error _ _) eqn:E; [by intros [= _ <-]|]. intros _ _. by apply fit_all in E.
  - intros d k. apply keys_spec.
  - intros d. apply keys_sorted.
Qed.

End plain.

End RocksStore.
