(* ===== verification/DocumentStore.v ===== *)
(** * DocumentStore: documents and collections in src/search/document_collection_store.cpp

    [HybridStorageManager] over the interface [Database] of RocksStore, the inverted index
    of LexicalIndex and the response cache of SearchCache: documents as JSON texts (with
    the formats of earlier versions), counters, configurations, listings and the integrity
    checks. A call is one step (the mutexes of keys are left out); JSON parsing and printing are the class [Library] of
    DocValues; the language detector, the clock and whether the index throws are inputs, an
    index call that throws changes nothing. Unordered maps are kept in the order of keys.
    Threads, lazy indexing, start and shutdown, logging and statistics are left out. *)

From Stdlib Require Import SpecFloat.
From S2P Require Import Prelude CText StdMap Wildcard DocValues RocksStore LexicalIndex SearchCache QueryMatch.
Import DocValues RocksStore.

Module DocumentStore.

(** ** Data *)

Record Document := mkDocument { Text : LexicalIndex.Document; Score : double; Timestamp : Z }.

Definition ID (d : Document) : bytes := LexicalIndex.ID (Text d).

Definition no_score : double := S754_zero false.

Definition empty_document : Document := mkDocument (LexicalIndex.mkDocument [] [] [] []) no_score 0.

Record CollectionConfig := mkConfig { Name : bytes; Config_Fields : list (bytes * bytes); Metadata : list (bytes * bytes) }.

Inductive LazyIndexBuildState := IndexNone | Building | Complete | Failed.

Record LazyIndexState := mkLazy { State : LazyIndexBuildState; SourceCount : Z; IndexedCount : Z; Generation : Z; Error : bytes }.

Definition u64 (z : Z) : Z := z mod 2 ^ 64.

Definition meta_key (c : bytes) : bytes := #"collection_meta:" ++ c.

Definition GetCollectionConfigKey (c : bytes) : bytes := #"collection_config:" ++ c.

Definition doc_prefix (c : bytes) : bytes := #"doc:" ++ c ++ #":".

Definition doc_key (c id : bytes) : bytes := doc_prefix c ++ id.

Definition ordered (l : list (bytes * bytes)) : list (bytes * bytes) := foldl (fun m kv => StdMap.put kv.1 kv.2 m) [] l.

(** ** Texts *)

Section json.
  Context {L : Library}.

Definition json_strings (l : list (bytes * bytes)) : json := JObject ((fun kv : bytes * bytes => (kv.1, JString kv.2)) <$> ordered l).

Definition SerializeCollectionConfig (Config : CollectionConfig) : bytes :=
  dump (JObject [(#"fields", json_strings (Config_Fields Config)); (#"metadata", json_strings (Metadata Config)); (#"name", JString (Name Config))]).

(** The members of an object that are not null, as texts. *)

Definition text_members (l : list (bytes * json)) : list (bytes * bytes) :=
  ordered (omap (fun kv : bytes * json => match kv.2 with JString s => Some (kv.1, s) | JNull => None | v => Some (kv.1, dump v) end) l).

Definition object_member (k : bytes) (l : list (bytes * json)) : option (list (bytes * json)) :=
  match member k l with Some (JObject o) => Some o | _ => None end.

Definition DeserializeCollectionConfig (Value : bytes) (Config : CollectionConfig) : CollectionConfig * bool :=
  if bool_decide (Value = []) then (Config, false)
  else match parse Value with
       | None => (Config, false)
       | Some (JObject l) =>
           let name := match member #"name" l with Some (JString s) => s | _ => Name Config end in
           let fields := from_option text_members (Config_Fields Config) (object_member #"fields" l) in
           let metadata := from_option text_members (Metadata Config) (object_member #"metadata" l) in
           (mkConfig name fields metadata, negb (bool_decide (name = [])))
       | Some _ => (Config, negb (bool_decide (Name Config = [])))
       end.

(** The two numbers of a metadata value; [now] is the time when it has none. *)

Definition is_colon (c : ascii) : bool := bool_decide (c = ":"%char).

Definition int64 (z : Z) : Z := (z + 2 ^ 63) mod 2 ^ 64 - 2 ^ 63.

Definition ParseCollectionMetaValue (now : Z) (MetaValue : bytes) : Z * Z :=
  match find_char is_colon MetaValue with
  | None => (0, now)
  | Some p =>
      match stoull (take p MetaValue) with
      | None => (0, now)
      | Some (Count, _) =>
          match stoull (drop (p + 1) MetaValue) with
          | Some (t, _) => (Count, if 0 <? int64 t then int64 t else now)
          | None => (Count, now)
          end
      end
  end.

Definition BuildCollectionMetaValue (Count Timestamp : Z) : bytes := to_string Count ++ #":" ++ to_string Timestamp.

Definition document_json (Doc : Document) (Timestamp : Z) : json :=
  JObject [(#"content", JString (LexicalIndex.Content (Text Doc))); (#"fields", json_strings (LexicalIndex.Fields (Text Doc)));
           (#"id", JString (ID Doc)); (#"score", JFloat (Score Doc)); (#"timestamp", JUnsigned Timestamp);
           (#"title", JString (LexicalIndex.Title (Text Doc)))].

Definition SerializeDocumentData (Doc : Document) (Timestamp : Z) : bytes := dump (document_json Doc Timestamp).

(** [value] of the library with a default: [None] is an exception. *)

Definition string_value (k : bytes) (l : list (bytes * json)) : option bytes :=
  match member k l with None => Some [] | Some (JString s) => Some s | Some _ => None end.

Definition truncate (d : double) : Z :=
  match d with
  | S754_finite s m e => let n := if 0 <=? e then Zpos m * 2 ^ e else Zpos m / 2 ^ (- e) in if (s : bool) then - n else n
  | _ => 0
  end.

Definition unsigned_value (k : bytes) (l : list (bytes * json)) : option Z :=
  match member k l with
  | None => Some 0
  | Some (JUnsigned z) | Some (JInteger z) => Some (u64 z)
  | Some (JFloat d) => Some (u64 (truncate d))
  | Some _ => None
  end.

Definition double_value (k : bytes) (l : list (bytes * json)) : option double :=
  match member k l with None => Some no_score | Some j => number j end.

(** A document text is JSON ([inl]: what was read; [None]: an exception) or not ([inr]). *)

Definition DeserializeDocumentJSON (Data : bytes) : option Document + unit :=
  match Data with
  | c :: _ =>
      if bool_decide (c = "{"%char) then
        inl (match parse Data with
             | Some (JObject l) =>
                 id ← string_value #"id" l; title ← string_value #"title" l; content ← string_value #"content" l;
                 timestamp ← unsigned_value #"timestamp" l; score ← double_value #"score" l;
                 let fields := from_option text_members [] (object_member #"fields" l) in
                 Some (mkDocument (LexicalIndex.mkDocument id title content fields) score timestamp)
             | _ => None
             end)
      else inr tt
  | [] => inr tt
  end.

(** ** Formats of earlier versions: id|title|content|fields|timestamp|score *)

Definition is_pipe (c : ascii) : bool := bool_decide (c = "|"%char).

Definition cut (s : bytes) : option (bytes * bytes) :=
  match find_char is_pipe s with Some p => Some (take p s, drop (p + 1) s) | None => None end.

(** The items of a value as texts; an array has the positions as keys. *)

Definition item_text (v : json) : bytes := match v with JString s => s | v => dump v end.

Definition items (j : json) : list (bytes * json) :=
  match j with
  | JObject l => l
  | JArray a => imap (fun n v => (to_string (Z.of_nat n), v)) a
  | JNull => []
  | v => [([], v)]
  end.

Definition read_fields (fields_str : bytes) (old : list (bytes * bytes)) : list (bytes * bytes) :=
  if bool_decide (fields_str = []) then old
  else match parse fields_str with
       | None => old
       | Some j => foldl (fun m (kv : bytes * json) => StdMap.put kv.1 (item_text kv.2) m) old (items j)
       end.

Definition with_fields (fields_str : bytes) (id title content : bytes) (doc : Document) : LexicalIndex.Document :=
  LexicalIndex.mkDocument id title content (read_fields fields_str (LexicalIndex.Fields (Text doc))).

Definition read_legacy (doc_data : bytes) (doc : Document) : Document :=
  let t := Text doc in
  match cut doc_data with
  | None => doc
  | Some (id, r1) =>
      match cut r1 with
      | None => mkDocument (LexicalIndex.mkDocument id (LexicalIndex.Title t) (LexicalIndex.Content t) (LexicalIndex.Fields t)) (Score doc) (Timestamp doc)
      | Some (title, r2) =>
          match cut r2 with
          | None => mkDocument (LexicalIndex.mkDocument id title r2 (LexicalIndex.Fields t)) (Score doc) 0
          | Some (content, r3) =>
              match cut r3 with
              | None => mkDocument (with_fields r3 id title content doc) (Score doc) 0
              | Some (fields_str, r4) =>
                  let (timestamp_str, score_str) := default (r4, []) (cut r4) in
                  mkDocument (with_fields fields_str id title content doc)
                    (if bool_decide (score_str = []) then Score doc else from_option fst no_score (stod score_str))
                    (if bool_decide (timestamp_str = []) then Timestamp doc else from_option fst 0 (stoull timestamp_str))
              end
          end
      end
  end.

(** A stored text as a document, whose [ID] is empty when it is none, and whether its
    format is an earlier one. *)

Definition read_document (key doc_data : bytes) : Document * bool :=
  if bool_decide (doc_data = []) then (empty_document, false)
  else match ValidateWALEntrySize (size key) (size doc_data) true with
       | Some _ => (empty_document, false)
       | None =>
           match DeserializeDocumentJSON doc_data with
           | inl None => (empty_document, false)
           | inl (Some doc) => if bool_decide (ID doc = []) then (read_legacy doc_data doc, true) else (doc, false)
           | inr _ => (read_legacy doc_data empty_document, true)
           end
       end.

(** What follows the last bar, if it is the time stamp of a migrated document. *)

Definition migrated_timestamp (recheck_data : bytes) : Z :=
  match find_char is_pipe (reverse recheck_data) with
  | None => 0
  | Some p => from_option fst 0 (stoull (reverse (take p (reverse recheck_data))))
  end.

Definition set_timestamp (t : Z) (d : Document) : Document := mkDocument (Text d) (Score d) t.

End json.

(** ** State *)

Record Env := mkEnv {
  NowMs : Z; time : Z; DetectDocumentLanguage : bytes -> Document -> bytes; DetectCollectionLanguage : bytes -> bytes;
  IndexThrows : bool; IndexEnv : LexicalIndex.Env
}.

Definition MaxCachedCollectionNames : Z := 1000000.

Section store.
  Context {L : Library} {D : Type} `{Database D}.

Record HybridStorageManager := mkStore {
  database : D;
  Collections : gmap bytes CollectionConfig;
  CollectionMetadataCache : gmap bytes (Z * Z);
  CollectionListCache : list bytes;
  CollectionListCacheValid : bool;
  LazyIndexStates : gmap bytes LazyIndexState;
  CollectionsBeingIndexed : gset bytes;
  SearchIndex : LexicalIndex.InvertedIndex;
  Responses : SearchCache.Cache;
  PostDeleteCleanupFailures : Z
}.

Abbreviation Manager := HybridStorageManager.

Definition set_database (d : D) (s : Manager) : Manager :=
  mkStore d (Collections s) (CollectionMetadataCache s) (CollectionListCache s) (CollectionListCacheValid s) (LazyIndexStates s)
    (CollectionsBeingIndexed s) (SearchIndex s) (Responses s) (PostDeleteCleanupFailures s).

Definition set_collections (x : gmap bytes CollectionConfig) (s : Manager) : Manager :=
  mkStore (database s) x (CollectionMetadataCache s) (CollectionListCache s) (CollectionListCacheValid s) (LazyIndexStates s)
    (CollectionsBeingIndexed s) (SearchIndex s) (Responses s) (PostDeleteCleanupFailures s).

Definition set_caches (m : gmap bytes (Z * Z)) (l : list bytes) (valid : bool) (s : Manager) : Manager :=
  mkStore (database s) (Collections s) m l valid (LazyIndexStates s)
    (CollectionsBeingIndexed s) (SearchIndex s) (Responses s) (PostDeleteCleanupFailures s).

Definition set_lazy (x : gmap bytes LazyIndexState) (b : gset bytes) (s : Manager) : Manager :=
  mkStore (database s) (Collections s) (CollectionMetadataCache s) (CollectionListCache s) (CollectionListCacheValid s) x
    b (SearchIndex s) (Responses s) (PostDeleteCleanupFailures s).

Definition set_index (x : LexicalIndex.InvertedIndex) (s : Manager) : Manager :=
  mkStore (database s) (Collections s) (CollectionMetadataCache s) (CollectionListCache s) (CollectionListCacheValid s) (LazyIndexStates s)
    (CollectionsBeingIndexed s) x (Responses s) (PostDeleteCleanupFailures s).

Definition set_responses (x : SearchCache.Cache) (s : Manager) : Manager :=
  mkStore (database s) (Collections s) (CollectionMetadataCache s) (CollectionListCache s) (CollectionListCacheValid s) (LazyIndexStates s)
    (CollectionsBeingIndexed s) (SearchIndex s) x (PostDeleteCleanupFailures s).

Definition count_failure (s : Manager) : Manager :=
  mkStore (database s) (Collections s) (CollectionMetadataCache s) (CollectionListCache s) (CollectionListCacheValid s) (LazyIndexStates s)
    (CollectionsBeingIndexed s) (SearchIndex s) (Responses s) (u64 (PostDeleteCleanupFailures s + 1)).

(** ** The database *)

Definition Get (key : bytes) (s : Manager) : bytes := default [] (stored (database s) key).

Definition Exists (key : bytes) (s : Manager) : bool := bool_decide (is_Some (stored (database s) key)).

Definition Set_ (key value : bytes) (s : Manager) : Manager * bool := let (d, ok) := db_set key value (database s) in (set_database d s, ok).

Definition Del (key : bytes) (s : Manager) : Manager * Z := let (d, n) := db_del key (database s) in (set_database d s, n).

Definition delete_range (a b : bytes) (s : Manager) : Manager := set_database (db_delete_range a b (database s)).1 s.

Definition prefix_keys (prefix : bytes) (s : Manager) : list bytes := List.filter (starts_with prefix) (listed (database s)).

Definition CountKeys (prefix : bytes) (s : Manager) : Z := size (prefix_keys prefix s).

Definition Keys (pattern : bytes) (s : Manager) : list bytes := List.filter (fun key => Wildcard.Match key pattern) (listed (database s)).

Definition Delete (key : bytes) (s : Manager) : Manager * bool := let (s, n) := Del key s in (s, 0 <? n).

(** ** Caches and marks *)

Definition collection_count (s : Manager) : Z := Z.of_nat (base.size (Collections s)).

Definition RefreshCollectionListCacheLocked (s : Manager) : Manager :=
  if MaxCachedCollectionNames <? collection_count s then set_caches ∅ [] false s
  else
    set_caches (base.filter (fun x : bytes * (Z * Z) => is_Some (Collections s !! x.1)) (CollectionMetadataCache s))
      (QueryMatch.sort_unique (map_to_list (Collections s)).*1) true s.

Definition UpdateCollectionMetadataCacheLocked (name : bytes) (document_count created_at : Z) (s : Manager) : Manager :=
  let m := if MaxCachedCollectionNames <? collection_count s then ∅ else <[name := (document_count, created_at)]> (CollectionMetadataCache s) in
  set_caches m (CollectionListCache s) (CollectionListCacheValid s) s.

Definition fresh_lazy : LazyIndexState := mkLazy IndexNone 0 0 0 [].

Definition MarkCollectionIndexDirty (c : bytes) (s : Manager) : Manager :=
  if bool_decide (c = []) then s
  else
    let st := default fresh_lazy (LazyIndexStates s !! c) in
    let state := if bool_decide (c ∈ CollectionsBeingIndexed s) then State st else IndexNone in
    set_lazy (<[c := mkLazy state 0 0 (u64 (Generation st + 1)) []]> (LazyIndexStates s)) (CollectionsBeingIndexed s) s.

Definition IsCollectionIndexing (c : bytes) (s : Manager) : bool := bool_decide (c ∈ CollectionsBeingIndexed s).

Definition IsCollectionIndexComplete (c : bytes) (expected_count : Z) (s : Manager) : bool :=
  match LazyIndexStates s !! c with
  | Some st => match State st with Complete => (expected_count =? 0) || (expected_count <=? SourceCount st) | _ => false end
  | None => false
  end.

Definition invalidate_responses (c : bytes) (s : Manager) : Manager := set_responses (SearchCache.InvalidateCollection c (Responses s)) s.

(** ** Configurations *)

Definition LoadCollectionConfigFromDatabase (name : bytes) (s : Manager) : CollectionConfig :=
  let config := mkConfig name [] [] in
  let raw_config := Get (GetCollectionConfigKey name) s in
  if bool_decide (raw_config = []) then config
  else let (loaded, ok) := DeserializeCollectionConfig raw_config config in
       if (ok : bool) then loaded else mkConfig name (Config_Fields loaded) (Metadata loaded).

Definition GetCollectionConfig (name : bytes) (s : Manager) : Manager * CollectionConfig :=
  match Collections s !! name with
  | Some config => (s, config)
  | None => let config := LoadCollectionConfigFromDatabase name s in (set_collections (<[name := config]> (Collections s)) s, config)
  end.

Definition UpdateCollectionMetadata (name key value : bytes) (s : Manager) : Manager * bool :=
  if negb (starts_with #"_" key) then (s, false)
  else
    let (s, config) := GetCollectionConfig name s in
    let config := mkConfig name (Config_Fields config) (StdMap.put key value (Metadata config)) in
    let (s, ok) := Set_ (GetCollectionConfigKey name) (SerializeCollectionConfig config) s in
    if (ok : bool) then (invalidate_responses name (set_collections (<[name := config]> (Collections s)) s), true) else (s, false).

Definition CollectionExists (name : bytes) (s : Manager) : Manager * bool :=
  match Collections s !! name with
  | Some _ => (s, true)
  | None =>
      if bool_decide (Get (meta_key name) s = []) then (s, false)
      else (RefreshCollectionListCacheLocked (set_collections (<[name := LoadCollectionConfigFromDatabase name s]> (Collections s)) s), true)
  end.

Definition ListCollections (s : Manager) : Manager * list bytes :=
  if CollectionListCacheValid s then (s, CollectionListCache s)
  else
    let stored_names := omap (fun key : bytes => match find_char is_colon key with
                                       | Some p => if (p + 1 <? length key)%nat then Some (drop (p + 1) key) else None
                                       | None => None end) (Keys #"collection_meta:*" s) in
    let collection_set := QueryMatch.sort_unique ((map_to_list (Collections s)).*1 ++ stored_names) in
    let add m name := match m !! name with Some _ => m | None => <[name := LoadCollectionConfigFromDatabase name s]> m end in
    (RefreshCollectionListCacheLocked (set_collections (foldl add (Collections s) collection_set) s), collection_set).

Definition needs_detection (config : CollectionConfig) : bool :=
  match StdMap.find #"_lang" (Metadata config) with
  | None => true
  | Some value => bool_decide (value ∈ [ []; #"auto"; #"und"])
  end.

Definition RefreshCollectionLanguageIfNeeded (env : Env) (c : bytes) (SeedDocument : option Document) (s : Manager) : Manager :=
  if bool_decide (c = []) then s
  else
    let (s, config) := GetCollectionConfig c s in
    if negb (needs_detection config) then s
    else
      let language := from_option (DetectDocumentLanguage env c) #"und" SeedDocument in
      let language := if bool_decide (language ∈ [ []; #"und"]) then DetectCollectionLanguage env c else language in
      if bool_decide (language ∈ [ []; #"und"]) then s else (UpdateCollectionMetadata c #"_lang" language s).1.

(** ** Counters *)

Definition read_meta (env : Env) (c : bytes) (s : Manager) : Z * Z := ParseCollectionMetaValue (time env) (Get (meta_key c) s).

Definition GetCollectionDocumentCount (env : Env) (c : bytes) (s : Manager) : Manager * Z :=
  match CollectionMetadataCache s !! c with
  | Some x => (s, x.1)
  | None => let (n, t) := read_meta env c s in (UpdateCollectionMetadataCacheLocked c n t s, n)
  end.

Definition CountStoredDocuments (c : bytes) (s : Manager) : Z := CountKeys (doc_prefix c) s.

(** ** Documents *)

Definition GetDocument (env : Env) (c id : bytes) (s : Manager) : Manager * Document :=
  let key := doc_key c id in
  let (doc, legacy) := read_document key (Get key s) in
  if legacy && negb (bool_decide (ID doc = [])) && (Timestamp doc =? 0) then
    let t := migrated_timestamp (Get key s) in
    if t =? 0 then
      let doc := set_timestamp (NowMs env) doc in ((Set_ key (SerializeDocumentData doc (NowMs env)) s).1, doc)
    else (s, set_timestamp t doc)
  else (s, doc).

Definition last_part (key : bytes) : bytes :=
  match find_char is_colon (reverse key) with None => key | Some p => reverse (take p (reverse key)) end.

Fixpoint get_documents (env : Env) (c : bytes) (keys : list bytes) (s : Manager) : Manager * list Document :=
  match keys with
  | [] => (s, [])
  | key :: r =>
      let (s, doc) := GetDocument env c (last_part key) s in
      let (s, docs) := get_documents env c r s in
      (s, if bool_decide (ID doc = []) then docs else doc :: docs)
  end.

Definition positive (z : Z) : nat := if 0 <? z then Z.to_nat z else 0%nat.

Definition ListDocuments (env : Env) (c : bytes) (limit offset : Z) (s : Manager) : Manager * list Document :=
  get_documents env c (page (positive offset) (positive limit) (prefix_keys (doc_prefix c) s)) s.

Definition stamp (env : Env) (t : Z) : Z := if t =? 0 then NowMs env else t.

(** One document more in the counter; [None] when it cannot be written. *)

Definition count_insert (env : Env) (c : bytes) (s : Manager) : Manager * bool :=
  let (current_count, timestamp) := read_meta env c s in
  let (s, ok) := Set_ (meta_key c) (BuildCollectionMetaValue (u64 (current_count + 1)) timestamp) s in
  if (ok : bool) then (UpdateCollectionMetadataCacheLocked c (u64 (current_count + 1)) timestamp s, true)
  else
    let actual_count := CountKeys (doc_prefix c) s in
    let (s, ok) := Set_ (meta_key c) (BuildCollectionMetaValue actual_count timestamp) s in
    if (ok : bool) then (UpdateCollectionMetadataCacheLocked c actual_count timestamp s, true) else (s, false).

Definition index_added (env : Env) (c : bytes) (doc : Document) (s : Manager) : Manager :=
  let (s, doc_count) := GetCollectionDocumentCount env c s in
  if (doc_count <? 100) && negb (IndexThrows env) then set_index (LexicalIndex.AddDocument (IndexEnv env) c (Text doc) (SearchIndex s)).1.1 s else s.

Definition AddDocument (env : Env) (c : bytes) (doc : Document) (s : Manager) : Manager * bool :=
  if bool_decide (c = []) || bool_decide (ID doc = []) then (s, false)
  else
    let key := doc_key c (ID doc) in
    let doc_data := SerializeDocumentData doc (stamp env (Timestamp doc)) in
    let document_existed := Exists key s in
    let (s, success) := Set_ key doc_data s in
    if negb success then (s, false)
    else
      let s := invalidate_responses c (MarkCollectionIndexDirty c s) in
      let (s, counted) := if document_existed then (s, true) else count_insert env c s in
      if (counted : bool) then (RefreshCollectionLanguageIfNeeded env c (Some doc) (index_added env c doc s), true) else (s, false).

(** The entries of a batch: the last document with an identifier counts, in the place of
    the first. *)

Fixpoint put_entry (k v : bytes) (l : list (bytes * bytes)) : list (bytes * bytes) :=
  match l with
  | [] => [(k, v)]
  | (k', v') :: r => if bool_decide (k' = k) then (k', v) :: r else (k', v') :: put_entry k v r
  end.

Definition batch_data (env : Env) (c : bytes) (documents : list Document) : list (bytes * bytes) :=
  foldl (fun l doc => if bool_decide (ID doc = []) then l
                      else put_entry (doc_key c (ID doc)) (SerializeDocumentData doc (stamp env (Timestamp doc))) l) [] documents.

Definition AddDocumentsBatch (env : Env) (c : bytes) (documents : list Document) (assume_new_documents : bool) (s : Manager) : Manager * Z :=
  let entries := batch_data env c documents in
  if bool_decide (c = []) then (s, 0)
  else match entries with
  | [] => (s, 0)
  | _ =>
      let (current_count, timestamp) := read_meta env c s in
      let inserted_count := if assume_new_documents then size entries else size (List.filter (fun kv => negb (Exists kv.1 s)) entries) in
      let new_count := u64 (current_count + inserted_count) in
      let all := entries ++ [(meta_key c, BuildCollectionMetaValue new_count timestamp)] in
      let (d, written) := db_batch all (database s) in
      let s := set_database d s in
      if written =? size all then
        let s := UpdateCollectionMetadataCacheLocked c new_count timestamp s in
        let s := invalidate_responses c (MarkCollectionIndexDirty c s) in
        (RefreshCollectionLanguageIfNeeded env c None s, size entries)
      else (s, 0)
  end.

Definition count_delete (env : Env) (c : bytes) (s : Manager) : Manager * bool :=
  let (current_count, timestamp) := read_meta env c s in
  if 0 <? current_count then
    let (s, ok) := Set_ (meta_key c) (BuildCollectionMetaValue (current_count - 1) timestamp) s in
    (if (ok : bool) then UpdateCollectionMetadataCacheLocked c (current_count - 1) timestamp s else s, ok)
  else (s, true).

Definition DeleteDocument (env : Env) (c id : bytes) (s : Manager) : Manager * bool :=
  let key := doc_key c id in
  if negb (Exists key s) then (s, false)
  else
    let (s, n) := Del key s in
    if negb (0 <? n) then (s, false)
    else
      let s := invalidate_responses c (MarkCollectionIndexDirty c s) in
      let s := if IndexThrows env then s else set_index (LexicalIndex.DeleteDocument (IndexEnv env) c id (SearchIndex s)).1.1 s in
      let (s, counted) := count_delete env c s in
      (if IndexThrows env || negb counted then count_failure s else s, true).

Definition UpdateDocument (env : Env) (c : bytes) (new_doc : Document) (s : Manager) : Manager * bool :=
  if bool_decide (c = []) || bool_decide (ID new_doc = []) then (s, false)
  else
    let key := doc_key c (ID new_doc) in
    let (s, old_doc) := GetDocument env c (ID new_doc) s in
    if bool_decide (ID old_doc = []) then AddDocument env c new_doc s
    else
      let t := if Timestamp new_doc =? 0 then stamp env (Timestamp old_doc) else Timestamp new_doc in
      let (s, ok) := Set_ key (SerializeDocumentData new_doc t) s in
      if negb ok then (s, false)
      else if IndexThrows env then ((Set_ key (SerializeDocumentData old_doc (stamp env (Timestamp old_doc))) s).1, false)
      else
        let s := set_index (LexicalIndex.UpdateDocument (IndexEnv env) c (Text old_doc) (Text new_doc) (SearchIndex s)).1.1 s in
        (invalidate_responses c (MarkCollectionIndexDirty c s), true).

(** ** Collections *)

Definition CreateCollection (env : Env) (name : bytes) (config : CollectionConfig) (s : Manager) : Manager * bool :=
  if negb (bool_decide (Get (meta_key name) s = [])) then (s, false)
  else
    let s := set_collections (<[name := config]> (Collections s)) s in
    let metadata_batch := [(meta_key name, BuildCollectionMetaValue 0 (time env)); (GetCollectionConfigKey name, SerializeCollectionConfig config)] in
    let (d, written) := db_batch metadata_batch (database s) in
    let s := set_database d s in
    if written =? 2 then (invalidate_responses name (RefreshCollectionListCacheLocked (UpdateCollectionMetadataCacheLocked name 0 (time env) s)), true)
    else (set_collections (base.delete name (Collections s)) s, false).

Definition drop_index_files (name : bytes) (i : LexicalIndex.InvertedIndex) : LexicalIndex.InvertedIndex :=
  LexicalIndex.set_disk (base.delete name (LexicalIndex.IndexDir i)) (LexicalIndex.FlushPending i) i.

Definition DeleteCollection (env : Env) (name : bytes) (s : Manager) : Manager * bool :=
  if bool_decide (Collections s !! name = None) && bool_decide (Get (meta_key name) s = []) then (s, false)
  else
    let s := delete_range (#"doc:" ++ name ++ #":") (#"doc:" ++ name ++ #";") s in
    let s := delete_range (#"idx:" ++ name ++ #":") (#"idx:" ++ name ++ #";") s in
    let s := (Del (#"synonyms:" ++ name) s).1 in
    let s := (Del (#"stopwords:" ++ name) s).1 in
    let s := (Del (GetCollectionConfigKey name) (Del (meta_key name) s).1).1 in
    let i := if IndexThrows env then SearchIndex s else LexicalIndex.DeleteCollection name (SearchIndex s) in
    let s := set_index (drop_index_files name i) s in
    let s := set_collections (base.delete name (Collections s)) s in
    let s := set_caches (base.delete name (CollectionMetadataCache s)) (CollectionListCache s) (CollectionListCacheValid s) s in
    let s := RefreshCollectionListCacheLocked s in
    let s := set_lazy (base.delete name (LazyIndexStates s)) (CollectionsBeingIndexed s ∖ {[name]}) s in
    (invalidate_responses name s, true).

(** ** Integrity *)

Definition update_counter (env : Env) (c : bytes) (s : Manager) : Manager * bool :=
  let actual_count := CountKeys (doc_prefix c) s in
  let meta_value := Get (meta_key c) s in
  let (stored_count, timestamp) := ParseCollectionMetaValue (time env) meta_value in
  let changed := negb (actual_count =? stored_count) in
  let (s, ok) := if changed || bool_decide (meta_value = []) then Set_ (meta_key c) (BuildCollectionMetaValue actual_count timestamp) s else (s, true) in
  let s := UpdateCollectionMetadataCacheLocked c actual_count timestamp s in
  (if changed then invalidate_responses c s else s, ok).

(** [flushed] is whether the flush at the end succeeds. *)

Definition UpdateCollectionCountersPrefix (env : Env) (prefix : bytes) (force flushed : bool) (s : Manager) : Manager * bool :=
  let (s, collections) := ListCollections s in
  let (s, ok) := foldl (fun x c => let (s, ok) := update_counter env c x.1 in (s, x.2 && ok)) (s, true) (List.filter (starts_with prefix) collections) in
  (s, ok && (negb force || flushed)).

Definition UpdateCollectionCounters (env : Env) (force flushed : bool) (s : Manager) : Manager * bool :=
  UpdateCollectionCountersPrefix env [] force flushed s.

Record CollectionIntegrityStatus := mkStatus {
  Status_Exists : bool; MetadataCount : Z; ActualCount : Z; MetadataMatch : bool; IndexPresent : bool; IndexVerified : bool; Status_IndexedCount : option Z; IndexMatch : bool
}.

Definition CheckCollectionIntegrity (env : Env) (c : bytes) (s : Manager) : Manager * CollectionIntegrityStatus :=
  let (s, exist) := CollectionExists c s in
  if negb exist then (s, mkStatus false 0 0 false false false (Some 0) false)
  else
    let (s, metadata_count) := GetCollectionDocumentCount env c s in
    let actual := CountStoredDocuments c s in
    let in_memory := LexicalIndex.HasInMemoryIndex c (SearchIndex s) in
    let present := in_memory || LexicalIndex.HasMMapIndex c (SearchIndex s) in
    let indexed := if present then LexicalIndex.GetDocumentCount c (SearchIndex s) else Some 0 in
    (s, mkStatus true metadata_count actual (metadata_count =? actual) present in_memory indexed (in_memory && bool_decide (indexed = Some actual))).

(** [RepairCollection] without a rebuild of the index; [false] is its error. *)

Definition repair_counter (env : Env) (c : bytes) (s : Manager) : Manager * CollectionIntegrityStatus * bool :=
  let (s, st) := CheckCollectionIntegrity env c s in
  if negb (Status_Exists st) then (s, st, true)
  else
    let timestamp := (read_meta env c s).2 in
    let (s, ok) := Set_ (meta_key c) (BuildCollectionMetaValue (ActualCount st) timestamp) s in
    if negb ok then (s, st, false)
    else
      let s := invalidate_responses c (UpdateCollectionMetadataCacheLocked c (ActualCount st) timestamp s) in
      (s, mkStatus true (ActualCount st) (ActualCount st) true (IndexPresent st) (IndexVerified st) (Status_IndexedCount st) (IndexMatch st), true).

End store.

Arguments HybridStorageManager : clear implicits.

End DocumentStore.
