(* ===== verification/DocumentStoreProps.v ===== *)
(** * DocumentStoreProps: the document store is a map

    Documents come back as they were stored; a session of calls answers as a map from
    collections and identifiers to documents does; and the counter of a collection is the
    number of its documents. *)

From Stdlib Require Import SpecFloat.
From S2P Require Import Prelude CText StdMap DocValues LexicalTermsProps RocksStore LexicalIndex Segments SegmentsOps SegmentsProps SearchCache QueryMatch DocumentStore.
Import DocValues RocksStore DocumentStore.

Module DocumentStoreProps.

(** ** Keys *)

Definition clean (s : bytes) : Prop := s <> [] /\ ":"%char ∉ s.

Lemma colon_free s : ":"%char ∉ s -> Forall (fun c => is_colon c = false) s.
Proof. intros H. apply Forall_forall. intros c Hc. unfold is_colon. rewrite bool_decide_false; [done|]. by intros ->. Qed.

Lemma doc_key_split c id : doc_key c id = #"doc:" ++ c ++ ":"%char :: id.
Proof. unfold doc_key, doc_prefix. by rewrite <- !app_assoc. Qed.

Lemma doc_key_inj c id c' id' : ":"%char ∉ c -> ":"%char ∉ c' -> doc_key c id = doc_key c' id' -> c = c' /\ id = id'.
Proof. intros H1 H2. rewrite !doc_key_split. intros H%app_inv_head. by apply LexicalTermsProps.first_split in H. Qed.

Lemma prefix_doc_key c c' id : ":"%char ∉ c -> ":"%char ∉ c' -> starts_with (doc_prefix c) (doc_key c' id) = bool_decide (c = c').
Proof.
  intros H1 H2. case_bool_decide as E.
  - subst c'. apply starts_with_spec. by exists id.
  - destruct (starts_with _ _) eqn:S; [|done]. exfalso. apply starts_with_spec in S as [r S]. apply E. by eapply doc_key_inj in S as [-> _].
Qed.

Lemma last_part_key c id : ":"%char ∉ id -> last_part (doc_key c id) = id.
Proof.
  intros H. unfold last_part. rewrite doc_key_split. rewrite app_assoc, reverse_app, reverse_cons, <- app_assoc.
  assert (find_char is_colon (reverse id ++ [":"%char] ++ reverse (#"doc:" ++ c)) = Some (length (reverse id))) as ->.
  { apply find_char_Some. exists (reverse id), ":"%char, (reverse (#"doc:" ++ c)). split; [done|]. split; [done|]. split; [|done].
    apply colon_free. by rewrite elem_of_reverse. }
  by rewrite take_app_length, reverse_involutive.
Qed.

(** ** A stored document is read back *)

Section store.
  Context {L : Library} {D : Type} `{DatabaseLaws D}.

(** The JSON library reads what it printed, for the documents of the session. *)

Definition reads_back (d : Document) : Prop :=
  forall t, 0 <= t < 2 ^ 64 -> parse (dump (document_json d t)) = Some (document_json d t) /\ exists r, dump (document_json d t) = "{"%char :: r.

Definition storable (d : Document) : Prop :=
  clean (ID d) /\ reads_back d /\ ordered (LexicalIndex.Fields (Text d)) = LexicalIndex.Fields (Text d) /\ 0 <= Timestamp d < 2 ^ 64.

Lemma ordered_sorted l : StdMap.sorted (ordered l).
Proof. unfold ordered. induction l as [|[k v] l IH] using rev_ind; [constructor|]. rewrite foldl_app. by apply StdMap.put_sorted. Qed.

Lemma text_members_strings l : text_members ((fun kv : bytes * bytes => (kv.1, JString kv.2)) <$> l) = ordered l.
Proof. unfold text_members. f_equal. induction l as [|[k v] l IH]; [done|]. cbn. by rewrite IH. Qed.

Lemma document_members c f i sc t ti :
  let l := [(#"content", c); (#"fields", f); (#"id", i); (#"score", sc); (#"timestamp", t); (#"title", ti)] in
  member #"id" l = Some i /\ member #"title" l = Some ti /\ member #"content" l = Some c /\ member #"timestamp" l = Some t /\
  member #"score" l = Some sc /\ member #"fields" l = Some f.
Proof. by repeat split. Qed.

Lemma read_stored key d t : storable d -> 0 <= t < 2 ^ 64 -> size key + size (SerializeDocumentData d t) <= MAX_WAL_ENTRY_SIZE ->
  read_document key (SerializeDocumentData d t) = (set_timestamp t d, false).
Proof.
  intros ([Hid _] & Hj & Ho & _) Ht Hs. destruct (Hj t Ht) as [Hp [r Hr]]. unfold read_document, SerializeDocumentData in *. rewrite Hr.
  rewrite bool_decide_false by done. rewrite <- Hr.
  assert (ValidateWALEntrySize (size key) (size (dump (document_json d t))) true = None) as ->.
  { unfold ValidateWALEntrySize, size_max, MAX_WAL_ENTRY_SIZE_RECOVERY, MAX_WAL_ENTRY_SIZE in *. unfold size in *.
    rewrite (proj2 (Z.ltb_ge _ _)) by lia. rewrite (proj2 (Z.ltb_ge _ _)) by lia. done. }
  unfold DeserializeDocumentJSON. rewrite Hr, bool_decide_true by done. rewrite <- Hr, Hp. unfold document_json.
  destruct (document_members (JString (LexicalIndex.Content (Text d))) (json_strings (LexicalIndex.Fields (Text d))) (JString (ID d)) (JFloat (Score d)) (JUnsigned t)
    (JString (LexicalIndex.Title (Text d)))) as (M1 & M2 & M3 & M4 & M5 & M6).
  unfold string_value, unsigned_value, double_value, object_member. rewrite M1, M2, M3, M4, M5, M6. unfold json_strings at 1.
  cbn [mbind option_bind number from_option]. rewrite text_members_strings, !Ho. unfold u64. rewrite Z.mod_small by done.
  unfold ID at 1. cbn [Text]. rewrite bool_decide_false by done. unfold set_timestamp. f_equal. f_equal. unfold ID. by destruct (Text d).
Qed.

Lemma stored_data_full d t : storable d -> 0 <= t < 2 ^ 64 -> SerializeDocumentData d t <> [].
Proof. intros (_ & Hj & _) Ht. destruct (Hj t Ht) as [_ [r Hr]]. unfold SerializeDocumentData. by rewrite Hr. Qed.

(** ** The map that a store represents *)

Abbreviation Manager := (HybridStorageManager D).

Abbreviation Docs := (gmap (bytes * bytes) Document).

Definition is_doc (k : bytes) : bool := starts_with #"doc:" k.

Definition good (d : Document) (id : bytes) : Prop := storable d /\ ID d = id /\ 0 < Timestamp d.

Definition holds (get : bytes -> option bytes) (m : Docs) (c id : bytes) : Prop :=
  match m !! (c, id) with
  | Some d => good d id /\ exists data, get (doc_key c id) = Some data /\ data <> [] /\ read_document (doc_key c id) data = (d, false)
  | None => get (doc_key c id) = None
  end.

Record readable (get : bytes -> option bytes) (m : Docs) : Prop := {
  r_holds c id : clean c -> clean id -> holds get m c id;
  r_keys k : is_Some (get k) -> is_doc k = true -> exists c id, clean c /\ clean id /\ k = doc_key c id;
  r_dom c id : is_Some (m !! (c, id)) -> clean c /\ clean id
}.

Definition represents (s : Manager) (m : Docs) : Prop := readable (stored (database s)) m.

(** Nothing about documents changed. *)

Definition same (s s' : Manager) : Prop := forall k, is_doc k = true -> stored (database s') k = stored (database s) k.

#[local] Instance same_refl : Reflexive same.
Proof. by intros s k. Qed.

#[local] Instance same_trans : Transitive same.
Proof. intros a b c H1 H2 k Hk. by rewrite H2, H1. Qed.

Lemma same_database s s' : database s' = database s -> same s s'.
Proof. intros E k _. by rewrite E. Qed.

Lemma is_doc_key c id : is_doc (doc_key c id) = true.
Proof. apply starts_with_spec. rewrite doc_key_split. by eexists. Qed.

Lemma same_represents s s' m : same s s' -> represents s m -> represents s' m.
Proof.
  intros S [R1 R2 R3]. split; [|intros k Hk Hd; rewrite S in Hk by done; by apply R2|done].
  intros c id Hc Hi. specialize (R1 c id Hc Hi). unfold holds in *. by rewrite S by apply is_doc_key.
Qed.

Lemma not_doc_start x r : is_doc (x :: r) = true -> x = "d"%char.
Proof. intros [z Hz]%starts_with_spec. by injection Hz as ->. Qed.

Lemma same_set k v s s' ok : is_doc k = false -> Set_ k v s = (s', ok) -> same s s'.
Proof.
  intros Hk. unfold Set_. destruct (db_set k v (database s)) as [d b] eqn:E. intros [= <- <-] k' Hk'. cbn [database set_database].
  rewrite (set_spec _ _ _ _ _ E). destruct (b && bool_decide (k' = k)) eqn:B; [|done]. apply andb_true_iff in B as [_ B%bool_decide_eq_true]. congruence.
Qed.

Lemma meta_not_doc c : is_doc (meta_key c) = false.
Proof. destruct (is_doc (meta_key c)) eqn:E; [|done]. by apply not_doc_start in E. Qed.

Lemma config_not_doc c : is_doc (GetCollectionConfigKey c) = false.
Proof. destruct (is_doc _) eqn:E; [|done]. by apply not_doc_start in E. Qed.

Lemma update_cache_database c n t (s : Manager) : database (UpdateCollectionMetadataCacheLocked c n t s) = database s.
Proof. done. Qed.

Lemma refresh_database (s : Manager) : database (RefreshCollectionListCacheLocked s) = database s.
Proof. unfold RefreshCollectionListCacheLocked. by destruct (_ <? _). Qed.

Lemma mark_database c (s : Manager) : database (MarkCollectionIndexDirty c s) = database s.
Proof. unfold MarkCollectionIndexDirty. by destruct (bool_decide _). Qed.

Lemma invalidate_database c (s : Manager) : database (invalidate_responses c s) = database s.
Proof. done. Qed.

Lemma config_database c (s s' : Manager) x : GetCollectionConfig c s = (s', x) -> database s' = database s.
Proof. unfold GetCollectionConfig. destruct (Collections s !! c); by intros [= <- _]. Qed.

Lemma count_database env c (s s' : Manager) n : GetCollectionDocumentCount env c s = (s', n) -> database s' = database s.
Proof.
  unfold GetCollectionDocumentCount. destruct (CollectionMetadataCache s !! c); [by intros [= <- _]|]. destruct (read_meta _ _ _). by intros [= <- _].
Qed.

Lemma index_added_database env c d (s : Manager) : database (index_added env c d s) = database s.
Proof.
  unfold index_added. destruct (GetCollectionDocumentCount env c s) as [s' n] eqn:E. apply count_database in E. by destruct (_ && _).
Qed.

Lemma same_metadata c k v s s' ok : UpdateCollectionMetadata c k v s = (s', ok) -> same s s'.
Proof.
  unfold UpdateCollectionMetadata. destruct (negb _); [by intros [= <- _]|]. destruct (GetCollectionConfig c s) as [s1 x] eqn:E1. apply config_database in E1.
  destruct (Set_ _ _ s1) as [s2 b] eqn:E2. apply same_set in E2; [|apply config_not_doc]. intros E.
  transitivity s1; [by apply same_database|]. transitivity s2; [done|]. destruct b; injection E as <- _; done.
Qed.

Lemma same_language env c o s : same s (RefreshCollectionLanguageIfNeeded env c o s).
Proof.
  unfold RefreshCollectionLanguageIfNeeded. destruct (bool_decide _); [done|]. destruct (GetCollectionConfig c s) as [s1 x] eqn:E1.
  apply config_database in E1. transitivity s1; [by apply same_database|]. destruct (negb _); [done|].
  destruct (bool_decide (from_option _ _ _ ∈ _)); destruct (bool_decide _); try done;
    destruct (UpdateCollectionMetadata c _ _ s1) as [s2 b] eqn:E2; by apply same_metadata in E2.
Qed.

Lemma same_count_insert env c s s' b : count_insert env c s = (s', b) -> same s s'.
Proof.
  unfold count_insert. destruct (read_meta env c s) as [n t]. destruct (Set_ _ _ s) as [s1 b1] eqn:E1. apply same_set in E1; [|apply meta_not_doc].
  destruct b1; [by intros [= <- _]|]. destruct (Set_ _ _ s1) as [s2 b2] eqn:E2. apply same_set in E2; [|apply meta_not_doc].
  intros E. transitivity s1; [done|]. transitivity s2; [done|]. by destruct b2; injection E as <- _.
Qed.

Lemma same_count_delete env c s s' b : count_delete env c s = (s', b) -> same s s'.
Proof.
  unfold count_delete. destruct (read_meta env c s) as [n t]. destruct (0 <? n); [|by intros [= <- _]].
  destruct (Set_ _ _ s) as [s1 b1] eqn:E1. apply same_set in E1; [|apply meta_not_doc]. intros E. transitivity s1; [done|]. by destruct b1; injection E as <- _.
Qed.

(** ** Writing and removing documents *)

Lemma storable_stamp d t : storable d -> 0 <= t < 2 ^ 64 -> storable (set_timestamp t d).
Proof. intros (H1 & H2 & H3 & H4) Ht. split; [exact H1|]. split; [exact H2|]. split; [exact H3|exact Ht]. Qed.

Lemma represents_put (s s' : Manager) m c d t :
  clean c -> storable d -> 0 < t < 2 ^ 64 -> size (doc_key c (ID d)) + size (SerializeDocumentData d t) <= MAX_WAL_ENTRY_SIZE ->
  (forall k, is_doc k = true -> stored (database s') k = if bool_decide (k = doc_key c (ID d)) then Some (SerializeDocumentData d t) else stored (database s) k) ->
  represents s m -> represents s' (<[(c, ID d) := set_timestamp t d]> m).
Proof.
  intros Hc Hd Ht Hs Hw [R1 R2 R3]. pose proof Hd as (Hid & _). split.
  - intros c' id' Hc' Hi'. unfold holds. rewrite Hw by apply is_doc_key. case_bool_decide as E.
    + apply doc_key_inj in E as [-> ->]; [|apply Hc'|apply Hc]. rewrite lookup_insert_eq.
      assert (0 <= t < 2 ^ 64) by lia. split; [split; [by apply storable_stamp|split; [done|apply Ht]]|].
      eexists. split; [done|]. split; [by apply stored_data_full|by apply read_stored].
    + rewrite lookup_insert_ne by congruence. by apply R1.
  - intros k Hk Hdoc. rewrite Hw in Hk by done. case_bool_decide as E; [by exists c, (ID d)|by apply R2].
  - intros c' id'. rewrite lookup_insert_is_Some. intros [[= <- <-]|[_ ?]]; [done|by apply R3].
Qed.

Lemma represents_drop (s s' : Manager) m (gone : bytes -> bytes -> bool) :
  (forall c id, clean c -> clean id -> stored (database s') (doc_key c id) = if gone c id then None else stored (database s) (doc_key c id)) ->
  (forall k, is_Some (stored (database s') k) -> is_Some (stored (database s) k)) ->
  represents s m -> represents s' (base.filter (fun x : bytes * bytes * Document => gone x.1.1 x.1.2 = false) m).
Proof.
  intros Hw Hsub [R1 R2 R3]. split.
  - intros c id Hc Hi. unfold holds. rewrite Hw by done. specialize (R1 c id Hc Hi). unfold holds in R1.
    destruct (base.filter _ m !! (c, id)) as [d|] eqn:E.
    + apply map_lookup_filter_Some in E as [E G]. cbn in G. rewrite E in R1. by rewrite G.
    + apply map_lookup_filter_None in E. destruct (gone c id) eqn:G; [done|]. destruct E as [E|E]; [by rewrite E in R1|].
      destruct (m !! (c, id)) as [d|] eqn:M; [|done]. by destruct (E d eq_refl).
  - intros k Hk Hd. apply R2; [by apply Hsub|done].
  - intros c id [d Hd]. apply map_lookup_filter_Some in Hd as [Hd _]. apply R3. by eexists.
Qed.

Lemma stored_put k v (s s' : Manager) ok : Set_ k v s = (s', ok) ->
  (ok = false -> same s s') /\ (ok = true -> size k + size v <= MAX_WAL_ENTRY_SIZE /\
    forall k', stored (database s') k' = if bool_decide (k' = k) then Some v else stored (database s) k').
Proof.
  unfold Set_. destruct (db_set k v (database s)) as [d b] eqn:E. intros [= <- <-]. pose proof (set_spec _ _ _ _ _ E) as W. cbn [database set_database]. split.
  - intros -> k' _. cbn [database set_database]. by rewrite W.
  - intros ->. split; [by eapply set_size|]. intros k'. by rewrite W.
Qed.

Definition stamped (env : Env) (d : Document) : Document := set_timestamp (stamp env (Timestamp d)) d.

Definition clock_ok (env : Env) : Prop := 0 < NowMs env < 2 ^ 64.

Lemma stamp_range env t : clock_ok env -> 0 <= t < 2 ^ 64 -> 0 < stamp env t < 2 ^ 64.
Proof. unfold stamp. intros H1 H2. destruct (t =? 0) eqn:E; [done|lia]. Qed.

Lemma AddDocument_spec env c d s s' ok m :
  clean c -> storable d -> clock_ok env -> represents s m -> AddDocument env c d s = (s', ok) ->
  represents s' (<[(c, ID d) := stamped env d]> m) \/ (ok = false /\ represents s' m).
Proof.
  intros Hc Hd Hn R. unfold AddDocument. pose proof Hd as (Hid & _ & _ & Ht). rewrite !bool_decide_false by (apply Hc || apply Hid). cbn [orb].
  destruct (Set_ _ _ s) as [s1 b] eqn:E1. apply stored_put in E1 as [W0 W1]. destruct b; cbn [negb].
  - destruct (W1 eq_refl) as [Hs W]. assert (represents s1 (<[(c, ID d) := stamped env d]> m)) as R1.
    { eapply represents_put; [done|done|by apply stamp_range|done| |done]. intros k _. apply W. }
    set (s2 := invalidate_responses c (MarkCollectionIndexDirty c s1)).
    assert (represents s2 (<[(c, ID d) := stamped env d]> m)) as R2 by (eapply same_represents; [apply same_database, mark_database|done]).
    destruct (if Exists _ s then _ else _) as [s3 b3] eqn:E3. assert (same s2 s3) as S3.
    { destruct (Exists _ s); [by injection E3 as <- _|by apply same_count_insert in E3]. }
    apply (same_represents _ _ _ S3) in R2. destruct b3; intros [= <- <-]; left; [|done].
    eapply same_represents; [apply same_language|]. eapply same_represents; [apply same_database, index_added_database|done].
  - intros [= <- <-]. right. split; [done|]. eapply same_represents; [by apply W0|done].
Qed.

Lemma document_read env c id s s' d m : clean c -> clean id -> represents s m -> GetDocument env c id s = (s', d) ->
  s' = s /\ d = default empty_document (m !! (c, id)) /\ (is_Some (m !! (c, id)) <-> ID d <> []).
Proof.
  intros Hc Hi R. pose proof (r_holds _ _ R c id Hc Hi) as Hh. unfold holds in Hh. unfold GetDocument, Get.
  destruct (m !! (c, id)) as [x|].
  - destruct Hh as [[Hx Hid] (data & Hd & Hne & Hr)]. rewrite Hd. cbn [default from_option Datatypes.id]. rewrite Hr. cbn [andb]. intros [= <- <-].
    split; [done|]. split; [done|]. split; [|by eexists]. intros _. apply Hx.
  - rewrite Hh. change (read_document (doc_key c id) (default [] None)) with (empty_document, false). cbn [andb]. intros [= <- <-]. split; [done|]. split; [done|]. split; [by intros [? ?]|by intros []].
Qed.

Definition updated (env : Env) (d : Document) (old : option Document) : Document :=
  set_timestamp (if Timestamp d =? 0 then from_option Timestamp (NowMs env) old else Timestamp d) d.

Lemma stamp_positive env t : 0 < t -> stamp env t = t.
Proof. intros H1. unfold stamp. by rewrite (proj2 (Z.eqb_neq _ _)) by lia. Qed.

Lemma set_own_timestamp d : set_timestamp (Timestamp d) d = d.
Proof. by destruct d. Qed.

Lemma UpdateDocument_spec env c d s s' ok m :
  clean c -> storable d -> clock_ok env -> represents s m -> UpdateDocument env c d s = (s', ok) ->
  represents s' (<[(c, ID d) := updated env d (m !! (c, ID d))]> m) \/ (ok = false /\ represents s' m).
Proof.
  intros Hc Hd Hn R. pose proof Hd as (Hid & _ & _ & Ht). unfold UpdateDocument. rewrite !bool_decide_false by (apply Hc || apply Hid). cbn [orb].
  destruct (GetDocument env c (ID d) s) as [s1 found] eqn:E1. eapply document_read in E1 as (-> & -> & Ho); [|done..].
  destruct (m !! (c, ID d)) as [old|] eqn:M; cbn [default from_option Datatypes.id] in *.
  2:{ rewrite bool_decide_true by done.
      intros E2. by eapply AddDocument_spec in E2. }
  rewrite bool_decide_false by (apply Ho; by eexists). pose proof (r_holds _ _ R c (ID d) Hc Hid) as Hh. unfold holds in Hh. rewrite M in Hh.
  destruct Hh as [(Hold & Hoid & Hopos) _]. pose proof Hold as (_ & _ & _ & Hot). rewrite !(stamp_positive _ _ Hopos).
  unfold updated. cbn [from_option]. set (t := if Timestamp d =? 0 then _ else _). assert (0 < t < 2 ^ 64) as Htr by (unfold t; destruct (_ =? 0) eqn:B; lia).
  destruct (Set_ _ _ s) as [s2 b] eqn:E2. apply stored_put in E2 as [W0 W1].
  destruct b; cbn [negb]; [|intros [= <- <-]; right; split; [done|]; eapply same_represents; [by apply W0|done]].
  destruct (W1 eq_refl) as [Hs W]. assert (represents s2 (<[(c, ID d) := set_timestamp t d]> m)) as R1.
  { eapply represents_put; [done|done|done|done| |done]. intros k _. apply W. }
  destruct (IndexThrows env).
  - intros [= <- <-]. destruct (Set_ _ _ s2) as [s3 b3] eqn:E3. cbn [fst]. apply stored_put in E3 as [V0 V1].
    destruct b3; [|left; eapply same_represents; [by apply V0|done]]. right. split; [done|]. destruct (V1 eq_refl) as [Hs' V].
    assert (m = <[(c, ID old) := set_timestamp (Timestamp old) old]> (<[(c, ID d) := set_timestamp t d]> m)) as Em.
    { rewrite set_own_timestamp, Hoid, insert_insert_eq. by rewrite insert_id. }
    rewrite Em. eapply represents_put; [done|done|lia|by rewrite Hoid| |done]. intros k _. rewrite Hoid. apply V.
  - intros [= <- <-]. left. eapply same_represents; [apply same_database|exact R1]. by rewrite invalidate_database, mark_database.
Qed.

Lemma document_deleted env c id s s' ok m :
  clean c -> clean id -> represents s m -> DeleteDocument env c id s = (s', ok) ->
  if ok then is_Some (m !! (c, id)) /\ represents s' (base.delete (c, id) m) else represents s' m.
Proof.
  intros Hc Hi R. unfold DeleteDocument. pose proof (r_holds _ _ R c id Hc Hi) as Hh. unfold holds in Hh. unfold Exists.
  case_bool_decide as Hx; cbn [negb]; [|by intros [= <- <-]].
  assert (is_Some (m !! (c, id))) as Hm by (destruct (m !! (c, id)); [done|rewrite Hh in Hx; by destruct Hx]).
  unfold Del. destruct (db_del _ _) as [d n] eqn:E. apply del_spec in E as [Hn W].
  destruct Hn as [-> | ->]; cbn [Z.ltb negb].
  - intros [= <- <-]. eapply same_represents; [|done]. intros k _. cbn. by rewrite W.
  - set (s1 := set_database d s). assert (represents s1 (base.delete (c, id) m)) as R1.
    { pose proof (represents_drop s s1 m (fun c' i' => bool_decide (c' = c) && bool_decide (i' = id))) as Rd.
      assert (base.filter (fun x : bytes * bytes * Document => bool_decide (x.1.1 = c) && bool_decide (x.1.2 = id) = false) m = base.delete (c, id) m) as <-.
      { apply map_eq. intros [c' i']. destruct (decide ((c', i') = (c, id))) as [E|E].
        - injection E as -> ->. rewrite lookup_delete_eq. apply map_lookup_filter_None. right. intros x _. cbn. by rewrite !bool_decide_true.
        - rewrite lookup_delete_ne by done. destruct (m !! (c', i')) as [x|] eqn:M; [|apply map_lookup_filter_None; by left].
          apply map_lookup_filter_Some. split; [done|]. cbn. apply andb_false_iff.
          destruct (decide (c' = c)) as [->|]; [right|left]; apply bool_decide_false; congruence. }
      apply Rd; [| |done].
      - intros c' i' Hc' Hi'. unfold s1. cbn [database set_database]. rewrite W, (bool_decide_true (1 = 1)) by done. cbn [andb].
        destruct (decide ((c', i') = (c, id))) as [E|E].
        + injection E as -> ->. by rewrite !bool_decide_true.
        + rewrite bool_decide_false by (intros E'; apply E; apply doc_key_inj in E' as [-> ->]; [done|apply Hc'|apply Hc]).
          destruct (decide (c' = c)) as [->|]; [rewrite (bool_decide_false (i' = id)) by (intros ->; by apply E); by rewrite andb_false_r|by rewrite (bool_decide_false (c' = c)) by done].
      - intros k. unfold s1. cbn [database set_database]. rewrite W. destruct (_ && _); [by intros [? ?]|done]. }
    destruct (count_delete env c _) as [s3 counted] eqn:E3. apply same_count_delete in E3.
    intros [= <- <-]. split; [done|]. eapply same_represents; [|exact R1]. etransitivity; [|etransitivity; [exact E3|]].
    + apply same_database. destruct (IndexThrows env); cbn; apply mark_database.
    + apply same_database. by destruct (_ || _).
Qed.

(** ** Batches *)

Abbreviation table l := (list_to_map l : gmap bytes bytes).

Lemma put_all_table l : forall g k, NoDup l.*1 -> put_all l g k = match table l !! k with Some v => Some v | None => g k end.
Proof.
  induction l as [|[a v] l IH]; intros g k Hn; [done|]. rewrite fmap_cons, NoDup_cons in Hn. destruct Hn as [Ha Hn].
  change (put_all ((a, v) :: l) g k) with (put_all l (fun k0 => if bool_decide (k0 = a) then Some v else g k0) k). rewrite IH by done. rewrite list_to_map_cons. cbn [fst snd] in *.
  case_bool_decide as E; [subst k; by rewrite lookup_insert_eq, not_elem_of_list_to_map_1|by rewrite lookup_insert_ne].
Qed.

Lemma table_put_entry k v l : table (put_entry k v l) = <[k := v]> (table l).
Proof.
  induction l as [|[a w] l IH]; [done|]. cbn [put_entry]. case_bool_decide as E; rewrite !list_to_map_cons; cbn [fst snd].
  - subst a. by rewrite insert_insert_eq.
  - rewrite IH. by rewrite insert_insert_ne.
Qed.

Lemma keys_put_entry k v l : (put_entry k v l).*1 = if bool_decide (k ∈ l.*1) then l.*1 else l.*1 ++ [k].
Proof.
  induction l as [|[a w] l IH]; [done|]. cbn [put_entry]. destruct (decide (a = k)) as [->|E].
  - rewrite !bool_decide_true by (done || by left). done.
  - rewrite (bool_decide_false (a = k)) by done. rewrite !fmap_cons, IH. cbn [fst]. destruct (decide (k ∈ l.*1)) as [Hk|Hk].
    + rewrite !bool_decide_true by (done || by right). done.
    + rewrite !bool_decide_false; [done| |done]. intros [->|Hk']%elem_of_cons; done.
Qed.

Definition last_with (id : bytes) (ds : list Document) : option Document :=
  foldl (fun o d => if bool_decide (ID d = id) then Some d else o) None ds.

Definition added (env : Env) (c : bytes) (ds : list Document) (m : Docs) : Docs := foldl (fun m d => <[(c, ID d) := stamped env d]> m) m ds.

Lemma last_with_snoc id ds d : last_with id (ds ++ [d]) = if bool_decide (ID d = id) then Some d else last_with id ds.
Proof. unfold last_with. by rewrite foldl_app. Qed.

Lemma last_with_in id ds d : last_with id ds = Some d -> d ∈ ds /\ ID d = id.
Proof.
  induction ds as [|x ds IH] using rev_ind; [done|]. rewrite last_with_snoc. case_bool_decide as E; [intros [= ->]; split; [apply elem_of_app; right; by apply list_elem_of_singleton|done]|].
  intros [H1 H2]%IH. split; [apply elem_of_app; by left|done].
Qed.

Lemma added_lookup env c ds m c' id : added env c ds m !! (c', id) = if bool_decide (c' = c) then match last_with id ds with Some d => Some (stamped env d) | None => m !! (c', id) end else m !! (c', id).
Proof.
  unfold added. induction ds as [|x ds IH] using rev_ind; [by case_bool_decide|]. rewrite foldl_app, last_with_snoc. cbn [foldl].
  destruct (decide ((c, ID x) = (c', id))) as [E|E].
  - injection E as -> ->. by rewrite lookup_insert_eq, !bool_decide_true.
  - rewrite lookup_insert_ne by done. rewrite IH. case_bool_decide as E1; [|done]. subst c'. rewrite bool_decide_false; [done|]. intros <-. by apply E.
Qed.

Lemma batch_snoc env c ds d : ID d <> [] ->
  batch_data env c (ds ++ [d]) = put_entry (doc_key c (ID d)) (SerializeDocumentData d (stamp env (Timestamp d))) (batch_data env c ds).
Proof. intros Hd. unfold batch_data. rewrite foldl_app. cbn [foldl]. by rewrite bool_decide_false. Qed.

Lemma batch_table env c ds id : clean c -> Forall storable ds ->
  table (batch_data env c ds) !! doc_key c id = (fun d => SerializeDocumentData d (stamp env (Timestamp d))) <$> last_with id ds.
Proof.
  intros Hc. induction ds as [|x ds IH] using rev_ind; [done|]. rewrite Forall_app, Forall_singleton. intros [Hds Hx].
  rewrite batch_snoc by apply Hx. rewrite table_put_entry, last_with_snoc. case_bool_decide as E.
  - subst id. by rewrite lookup_insert_eq.
  - rewrite lookup_insert_ne; [by apply IH|]. intros E'. apply E. apply doc_key_inj in E' as [_ E']; [done|apply Hc|apply Hc].
Qed.

Lemma batch_keys env c ds : Forall storable ds -> NoDup (batch_data env c ds).*1 /\ forall k, k ∈ (batch_data env c ds).*1 <-> exists id, id ∈ ID <$> ds /\ k = doc_key c id.
Proof.
  induction ds as [|x ds IH] using rev_ind; [intros _; split; [constructor|]; intros k; split; [by intros ?%elem_of_nil|by intros (? & ?%elem_of_nil & _)]|].
  rewrite Forall_app, Forall_singleton. intros [Hds Hx]. destruct (IH Hds) as [I1 I2]. rewrite batch_snoc by apply Hx. rewrite keys_put_entry. case_bool_decide as E.
  - split; [done|]. intros k. rewrite I2. apply I2 in E as (i & Hi & E). split; intros (j & Hj & ->); exists j.
    + rewrite fmap_app. split; [apply elem_of_app; by left|done].
    + rewrite fmap_app in Hj. apply elem_of_app in Hj as [Hj| ->%list_elem_of_singleton]; [done|].
      assert (i = ID x) as <-; [|done]. unfold doc_key in E. by apply app_inv_head in E.
  - split; [apply NoDup_app; split; [done|]; split; [intros k Hk ->%list_elem_of_singleton; done|apply NoDup_singleton]|].
    intros k. rewrite elem_of_app, list_elem_of_singleton, I2, fmap_app. split.
    + intros [(j & Hj & ->)| ->]; [exists j|exists (ID x)]; (split; [apply elem_of_app|done]); [by left|right; by left].
    + intros (j & [Hj| ->%list_elem_of_singleton]%elem_of_app & ->); [left; by exists j|by right].
Qed.

Lemma batch_size_ids env c ds : Forall storable ds -> length (batch_data env c ds) = length (remove_dups (ID <$> ds)).
Proof.
  intros Hds. destruct (batch_keys env c ds Hds) as [N K]. rewrite <- (length_fmap fst). rewrite <- (length_fmap (doc_key c) (remove_dups _)). apply Permutation_length, NoDup_Permutation; [done| |].
  - apply (NoDup_fmap_2 _). apply NoDup_remove_dups.
  - intros k. rewrite K, list_elem_of_fmap. setoid_rewrite elem_of_remove_dups. naive_solver.
Qed.

Lemma AddDocumentsBatch_spec env c ds b s s' n m :
  clean c -> Forall storable ds -> clock_ok env -> represents s m -> AddDocumentsBatch env c ds b s = (s', n) ->
  (n = size (remove_dups (ID <$> ds)) /\ represents s' (added env c ds m)) \/ (n = 0 /\ represents s' m).
Proof.
  intros Hc Hds Hn R. unfold AddDocumentsBatch. rewrite bool_decide_false by apply Hc. pose proof (batch_size_ids env c ds Hds) as Hlen. pose proof (batch_keys env c ds Hds) as [N K].
  pose proof (fun id => batch_table env c ds id Hc Hds) as T. destruct (batch_data env c ds) as [|e l] eqn:Eb; [intros [= <- <-]; by right|]. set (entries := e :: l) in *.
  destruct (read_meta env c s) as [count t]. set (all := entries ++ _). destruct (db_batch all (database s)) as [d written] eqn:E.
  pose proof (batch_spec _ _ _ _ E) as [[-> W]|[-> W]].
  2:{ assert ((0 =? size all) = false) as ->. { apply Z.eqb_neq. unfold all, entries, size. rewrite length_app. cbn [length]. lia. }
      intros [= <- <-]. right. split; [done|]. eapply same_represents; [|done]. intros k _. cbn. apply W. }
  rewrite Z.eqb_refl. intros [= <- <-]. left. split; [unfold size; by rewrite Hlen|]. eapply same_represents; [apply same_language|].
  eapply same_represents; [apply same_database; by rewrite invalidate_database, mark_database|]. unfold represents. rewrite update_cache_database. cbn [database set_database].
  assert (forall k, is_doc k = true -> stored d k = match table entries !! k with Some v => Some v | None => stored (database s) k end) as Hd.
  { intros k Hk. rewrite W. unfold all, put_all. rewrite foldl_app. cbn [foldl fst snd]. rewrite bool_decide_false by (intros ->; by rewrite meta_not_doc in Hk).
    fold (put_all entries (stored (database s))). by apply put_all_table. }
  assert (Forall (fun kv => size kv.1 + size kv.2 <= MAX_WAL_ENTRY_SIZE) entries) as Hsz.
  { eapply batch_size in E; [|unfold all, entries, size; rewrite length_app; cbn [length]; lia]. unfold all in E. by apply Forall_app in E as [E _]. }
  destruct R as [R1 R2 R3]. split.
  - intros c' id Hc' Hi. unfold holds. rewrite Hd by apply is_doc_key. rewrite added_lookup. case_bool_decide as Ec.
    + subst c'. rewrite T. destruct (last_with id ds) as [x|] eqn:Lx; cbn [fmap option_fmap option_map]; [|by apply R1].
      pose proof Lx as Lx0. apply last_with_in in Lx as [Lx <-]. rewrite Forall_forall in Hds. pose proof (Hds x Lx) as Hx. pose proof Hx as (Hxi & _ & _ & Hxt).
      pose proof (stamp_range env _ Hn Hxt) as Hr. assert (0 <= stamp env (Timestamp x) < 2 ^ 64) as Hr' by lia.
      split; [split; [by apply storable_stamp|]; split; [done|apply Hr]|]. eexists. split; [done|]. split; [by apply stored_data_full|]. apply read_stored; [done|done|].
      rewrite Forall_forall in Hsz. apply (Hsz (doc_key c (ID x), SerializeDocumentData x (stamp env (Timestamp x)))). apply elem_of_list_to_map_2. by rewrite T, Lx0.
    + rewrite (not_elem_of_list_to_map_1 entries); [by apply R1|]. intros (i & _ & E')%K. apply Ec. by apply doc_key_inj in E' as [-> _]; [|apply Hc'|apply Hc].
  - intros k Hk Hdoc. rewrite Hd in Hk by done. destruct (table entries !! k) eqn:Ek; [|by apply R2].
    apply elem_of_list_to_map_2 in Ek. assert (k ∈ entries.*1) as (i & Hi & ->)%K by (apply list_elem_of_fmap; by eexists (k, _)). apply list_elem_of_fmap in Hi as (x & -> & Hx).
    exists c, (ID x). rewrite Forall_forall in Hds. split; [done|]. split; [apply (Hds x Hx)|done].
  - intros c' id. rewrite added_lookup. case_bool_decide as Ec; [|apply R3]. destruct (last_with id ds) as [x|] eqn:Lx; [|apply R3]. intros _. subst c'.
    apply last_with_in in Lx as [Lx <-]. rewrite Forall_forall in Hds. split; [done|apply (Hds x Lx)].
Qed.

(** ** Listings *)

Definition identifiers (m : Docs) (c : bytes) (ids : list bytes) : Prop :=
  StronglySorted (fun a b => str_compare a b = Lt) ids /\ forall id, id ∈ ids <-> is_Some (m !! (c, id)).

Lemma sorted_sublist_filter {A} (R : A -> A -> Prop) (f : A -> bool) l : StronglySorted R l -> StronglySorted R (List.filter f l).
Proof.
  induction 1 as [|x l Hs IH Hx]; [constructor|]. cbn [List.filter]. destruct (f x); [|done]. constructor; [done|].
  rewrite Forall_forall in *. intros y Hy. apply Hx. apply list_elem_of_In in Hy. apply List.filter_In in Hy as [Hy _]. by apply list_elem_of_In.
Qed.

Lemma sorted_unmap (p : bytes) l : StronglySorted (fun a b => str_compare a b = Lt) (app p <$> l) -> StronglySorted (fun a b => str_compare a b = Lt) l.
Proof.
  induction l as [|x l IH]; [constructor|]. rewrite fmap_cons. intros [Hs Hx]%StronglySorted_inv. constructor; [by apply IH|].
  rewrite Forall_fmap in Hx. eapply Forall_impl; [exact Hx|]. intros y. cbn. by rewrite SegmentsOps.str_compare_app.
Qed.

Lemma prefix_ids s m c : clean c -> represents s m -> exists ids, prefix_keys (doc_prefix c) s = doc_key c <$> ids /\ identifiers m c ids.
Proof.
  intros Hc R. assert (forall k, k ∈ prefix_keys (doc_prefix c) s <-> exists id, is_Some (m !! (c, id)) /\ k = doc_key c id) as M.
  { intros k. unfold prefix_keys. rewrite list_elem_of_In, List.filter_In, <- list_elem_of_In, listed_spec. split.
    - intros [Hk Hp]. assert (is_doc k = true) as Hd.
      { apply starts_with_spec in Hp as [r ->]. apply starts_with_spec. eexists. unfold doc_prefix. rewrite <- !app_assoc. reflexivity. }
      destruct (r_keys _ _ R k Hk Hd) as (c' & id & Hc' & Hi & ->). rewrite prefix_doc_key in Hp by (apply Hc || apply Hc'). apply bool_decide_eq_true in Hp as <-.
      exists id. split; [|done]. pose proof (r_holds _ _ R c id Hc Hi) as Hh. unfold holds in Hh. destruct (m !! (c, id)); [done|]. rewrite Hh in Hk. by destruct Hk.
    - intros (id & Hm & ->). destruct (r_dom _ _ R c id Hm) as [_ Hi]. pose proof (r_holds _ _ R c id Hc Hi) as Hh. unfold holds in Hh. destruct Hm as [d Hd]. rewrite Hd in Hh.
      destruct Hh as (_ & data & -> & _). split; [done|]. by rewrite prefix_doc_key, bool_decide_true by (done || apply Hc). }
  assert (prefix_keys (doc_prefix c) s = doc_key c <$> (last_part <$> prefix_keys (doc_prefix c) s)) as E.
  { rewrite <- list_fmap_compose. rewrite <- (list_fmap_id (prefix_keys (doc_prefix c) s)) at 1. apply list_fmap_ext. intros n k Hk.
    apply list_elem_of_lookup_2, M in Hk as (id & Hm & ->). destruct (r_dom _ _ R c id Hm) as [_ Hi]. change (doc_key c id = doc_key c (last_part (doc_key c id))). by rewrite last_part_key by apply Hi. }
  exists (last_part <$> prefix_keys (doc_prefix c) s). split; [done|]. split.
  - apply (sorted_unmap (doc_prefix c)). change (app (doc_prefix c)) with (doc_key c). rewrite <- E. apply sorted_sublist_filter, listed_sorted.
  - intros id. rewrite list_elem_of_fmap. setoid_rewrite M. split.
    + intros (k & -> & id' & Hm & ->). destruct (r_dom _ _ R c id' Hm) as [_ Hi]. by rewrite last_part_key by apply Hi.
    + intros Hm. destruct (r_dom _ _ R c id Hm) as [_ Hi]. exists (doc_key c id). split; [by rewrite last_part_key by apply Hi|by exists id].
Qed.

Lemma get_documents_spec env c ids s m : clean c -> represents s m -> (forall id, id ∈ ids -> is_Some (m !! (c, id))) ->
  get_documents env c (doc_key c <$> ids) s = (s, omap (fun id => m !! (c, id)) ids).
Proof.
  intros Hc R. induction ids as [|id ids IH]; intros Hin; [done|]. rewrite fmap_cons. cbn [get_documents].
  assert (is_Some (m !! (c, id))) as Hm by (apply Hin; by left). destruct (r_dom _ _ R c id Hm) as [_ Hi]. rewrite last_part_key by apply Hi.
  destruct (GetDocument env c id s) as [s1 found] eqn:E. eapply document_read in E as (-> & -> & He); [|done..].
  rewrite IH by (intros j Hj; apply Hin; by right). destruct Hm as [d Hd]. cbn [omap list_omap]. rewrite Hd in *. cbn [default from_option Datatypes.id] in *.
  rewrite bool_decide_false; [done|]. by apply He; eexists.
Qed.

Lemma page_elem {A} off lim (l : list A) x : x ∈ page off lim l -> x ∈ l.
Proof.
  unfold page. destruct (_ =? _)%nat; intros Hx; eapply elem_of_sublist; [exact Hx|apply sublist_drop|exact Hx|]. etransitivity; [apply sublist_take|apply sublist_drop].
Qed.

Lemma page_fmap {A B} (f : A -> B) off lim l : page off lim (f <$> l) = f <$> page off lim l.
Proof. unfold page. destruct (_ =? _)%nat; by rewrite ?fmap_take, ?fmap_drop. Qed.

Lemma ListDocuments_spec env c limit offset s s' docs m : clean c -> represents s m -> ListDocuments env c limit offset s = (s', docs) ->
  s' = s /\ exists ids, identifiers m c ids /\ docs = omap (fun id => m !! (c, id)) (page (positive offset) (positive limit) ids).
Proof.
  intros Hc R. destruct (prefix_ids s m c Hc R) as (ids & E & I). unfold ListDocuments. rewrite E, page_fmap.
  rewrite (get_documents_spec env c _ s m Hc R) by (intros id Hid; apply I; by eapply page_elem). intros [= <- <-]. split; [done|]. by exists ids.
Qed.

Lemma CountStored_spec c s m : clean c -> represents s m -> exists ids, identifiers m c ids /\ CountStoredDocuments c s = size ids.
Proof.
  intros Hc R. destruct (prefix_ids s m c Hc R) as (ids & E & I). exists ids. split; [done|]. unfold CountStoredDocuments, CountKeys. rewrite E. unfold size. by rewrite length_fmap.
Qed.

(** ** Collections *)

Lemma colon_range x k : Segments.in_key_range (x ++ #":") (x ++ #";") k = starts_with (x ++ #":") k.
Proof.
  revert k. induction x as [|a x IH]; intros [|b k].
  - done.
  - destruct (decide (b = ":"%char)) as [->|Hb]; [by destruct k|]. assert (code b <> 58) as Hcode by (intros E; apply Hb, code_inj, E).
    transitivity false; [|symmetry; apply bool_decide_false; intros [= E]; by apply Hb].
    change ([] ++ #":") with [":"%char]. change ([] ++ #";") with [";"%char]. unfold Segments.in_key_range, str_leb, str_ltb. cbn [str_compare]. change (code ":"%char) with 58. change (code ";"%char) with 59.
    destruct (Z.compare_spec 58 (code b)); destruct (Z.compare_spec (code b) 59); try lia; try done. by destruct k.
  - done.
  - specialize (IH k). revert IH. unfold Segments.in_key_range, str_leb, str_ltb, starts_with. cbn [app str_compare length take].
    rewrite (Z.compare_antisym (code a) (code b)). destruct (Z.compare_spec (code a) (code b)) as [E|E|E]; cbn [CompOpp].
    + assert (a = b) as -> by by apply code_inj. intros ->. apply bool_decide_ext. split; congruence.
    + intros _. rewrite bool_decide_false; [done|]. intros [= <-]. lia.
    + intros _. rewrite bool_decide_false; [done|]. intros [= <-]. lia.
Qed.

Definition drop_collection (c : bytes) (m : Docs) : Docs := base.filter (fun x : bytes * bytes * Document => bool_decide (x.1.1 = c) = false) m.

Lemma same_range x s : x = "i"%char -> forall r, same s (delete_range ((x :: r) ++ #":") ((x :: r) ++ #";") s).
Proof.
  intros -> r k Hk. unfold delete_range. destruct (db_delete_range _ _ _) as [d n] eqn:E. apply delete_range_spec in E as [_ W]. cbn [database set_database fst].
  rewrite W, colon_range. destruct (starts_with _ k) eqn:Hp; [|by rewrite andb_false_r]. exfalso. apply starts_with_spec in Hp as [z ->]. by apply not_doc_start in Hk.
Qed.

Lemma drop_documents c s m : clean c -> represents s m ->
  let s' := delete_range (#"doc:" ++ c ++ #":") (#"doc:" ++ c ++ #";") s in represents s' m \/ represents s' (drop_collection c m).
Proof.
  intros Hc R s'. unfold s', delete_range. rewrite !app_assoc. destruct (db_delete_range _ _ _) as [d n] eqn:E. apply delete_range_spec in E as [[-> | ->] W].
  - left. eapply same_represents; [|done]. intros k _. apply W.
  - right. set (gone := fun c' _ : bytes => bool_decide (c' = c)). apply (represents_drop s _ m gone); [| |done].
    + intros c' id Hc' Hi. cbn [database set_database fst]. rewrite W, (bool_decide_true (1 = 1)), colon_range by done. cbn [andb]. rewrite <- app_assoc.
      change (#"doc:" ++ c ++ #":") with (doc_prefix c). rewrite prefix_doc_key by (apply Hc || apply Hc').
      assert (bool_decide (c = c') = bool_decide (c' = c)) as -> by (apply bool_decide_ext; split; congruence). done.
    + intros k. cbn [database set_database fst]. rewrite W. destruct (_ && _); [by intros [? ?]|done].
Qed.

Lemma same_del x r s : x <> "d"%char -> same s (Del (x :: r) s).1.
Proof.
  intros Hx k Hk. unfold Del. destruct (db_del _ _) as [d n] eqn:E. apply del_spec in E as [_ W]. cbn [database set_database fst]. rewrite W.
  destruct (bool_decide (k = x :: r)) eqn:B; [|by rewrite andb_false_r]. apply bool_decide_eq_true in B as ->. by apply not_doc_start in Hk.
Qed.

Lemma DeleteCollection_spec env c s s' ok m : clean c -> represents s m -> DeleteCollection env c s = (s', ok) ->
  represents s' m \/ (ok = true /\ represents s' (drop_collection c m)).
Proof.
  intros Hc R. unfold DeleteCollection. destruct (_ && _); [intros [= <- <-]; by left|].
  pose proof (drop_documents c s m Hc R) as R1. revert R1. set (s1 := delete_range (#"doc:" ++ c ++ #":") _ s). intros R1.
  set (s2 := delete_range (#"idx:" ++ c ++ #":") _ s1). set (s3 := (Del (#"synonyms:" ++ c) s2).1). set (s4 := (Del (#"stopwords:" ++ c) s3).1).
  set (s5 := (Del (meta_key c) s4).1). set (s6 := (Del (GetCollectionConfigKey c) s5).1).
  assert (same s1 s6) as S6.
  { transitivity s2. { unfold s2. rewrite !(app_assoc #"idx:"). by apply (same_range "i"%char s1 eq_refl). }
    transitivity s3; [by apply same_del|]. transitivity s4; [by apply same_del|]. transitivity s5; [by apply same_del|]. by apply same_del. }
  intros [= <- <-]. match goal with |- represents ?x _ \/ _ => assert (same s1 x) as S end.
  { etransitivity; [exact S6|]. apply same_database. rewrite invalidate_database. cbn [database set_lazy]. by rewrite refresh_database. }
  destruct R1 as [R1|R1]; [left|right; split; [done|]]; by eapply same_represents.
Qed.

Lemma CreateCollection_spec env c config s s' ok m : represents s m -> CreateCollection env c config s = (s', ok) -> represents s' m.
Proof.
  intros R. unfold CreateCollection. destruct (negb _); [by intros [= <- <-]|]. destruct (db_batch _ _) as [d n] eqn:E.
  assert (same s (set_database d (set_collections (<[c:=config]> (Collections s)) s))) as S.
  { apply batch_spec in E as [[_ W]|[_ W]]; intros k Hk; cbn [database set_database set_collections] in *; rewrite W; [|done].
    unfold put_all. cbn [foldl fst snd]. rewrite !bool_decide_false; [done|intros ->; by rewrite meta_not_doc in Hk|intros ->; by rewrite config_not_doc in Hk]. }
  destruct (n =? 2); intros [= <- _].
  - eapply same_represents; [|exact R]. etransitivity; [exact S|]. apply same_database. by rewrite invalidate_database, refresh_database.
  - eapply same_represents; [|exact R]. etransitivity; [exact S|]. by apply same_database.
Qed.

(** ** Sessions *)

Inductive op :=
| OpAdd (c : bytes) (d : Document)
| OpBatch (c : bytes) (ds : list Document) (assume_new_documents : bool)
| OpUpdate (c : bytes) (d : Document)
| OpDelete (c id : bytes)
| OpGet (c id : bytes)
| OpList (c : bytes) (limit offset : Z)
| OpCount (c : bytes)
| OpCreate (c : bytes) (config : CollectionConfig)
| OpDrop (c : bytes).

Inductive answer := Acknowledged (ok : bool) | Number (n : Z) | Found (d : Document) | Listed (l : list Document).

Definition perform (env : Env) (o : op) (s : Manager) : Manager * answer :=
  match o with
  | OpAdd c d => let (s, ok) := AddDocument env c d s in (s, Acknowledged ok)
  | OpBatch c ds b => let (s, n) := AddDocumentsBatch env c ds b s in (s, Number n)
  | OpUpdate c d => let (s, ok) := UpdateDocument env c d s in (s, Acknowledged ok)
  | OpDelete c id => let (s, ok) := DeleteDocument env c id s in (s, Acknowledged ok)
  | OpGet c id => let (s, d) := GetDocument env c id s in (s, Found d)
  | OpList c limit offset => let (s, l) := ListDocuments env c limit offset s in (s, Listed l)
  | OpCount c => (s, Number (CountStoredDocuments c s))
  | OpCreate c config => let (s, ok) := CreateCollection env c config s in (s, Acknowledged ok)
  | OpDrop c => let (s, ok) := DeleteCollection env c s in (s, Acknowledged ok)
  end.

Definition op_ok (o : op) : Prop :=
  match o with
  | OpAdd c d | OpUpdate c d => clean c /\ storable d
  | OpBatch c ds _ => clean c /\ Forall storable ds
  | OpDelete c id | OpGet c id => clean c /\ clean id
  | OpList c _ _ | OpCount c | OpDrop c => clean c
  | OpCreate _ _ => True
  end.

(** What a map from collections and identifiers to documents allows: an answer, and the map
    afterwards. A write that is refused changes nothing or takes effect; a collection may
    keep its documents when it is deleted. *)

Definition allowed (env : Env) (o : op) (a : answer) (m m' : Docs) : Prop :=
  match o with
  | OpAdd c d => exists ok, a = Acknowledged ok /\ (m' = <[(c, ID d) := stamped env d]> m \/ (ok = false /\ m' = m))
  | OpUpdate c d => exists ok, a = Acknowledged ok /\ (m' = <[(c, ID d) := updated env d (m !! (c, ID d))]> m \/ (ok = false /\ m' = m))
  | OpBatch c ds _ => (a = Number (size (remove_dups (ID <$> ds))) /\ m' = added env c ds m) \/ (a = Number 0 /\ m' = m)
  | OpDelete c id => (a = Acknowledged true /\ is_Some (m !! (c, id)) /\ m' = base.delete (c, id) m) \/ (a = Acknowledged false /\ m' = m)
  | OpGet c id => a = Found (default empty_document (m !! (c, id))) /\ m' = m
  | OpList c limit offset => m' = m /\ exists ids, identifiers m c ids /\ a = Listed (omap (fun id => m !! (c, id)) (page (positive offset) (positive limit) ids))
  | OpCount c => m' = m /\ exists ids, identifiers m c ids /\ a = Number (size ids)
  | OpCreate _ _ => exists ok, a = Acknowledged ok /\ m' = m
  | OpDrop c => exists ok, a = Acknowledged ok /\ (m' = m \/ (ok = true /\ m' = drop_collection c m))
  end.

Fixpoint run (l : list (Env * op)) (s : Manager) : list answer :=
  match l with [] => [] | (env, o) :: r => let (s, a) := perform env o s in a :: run r s end.

Fixpoint spec_run (l : list (Env * op)) (answers : list answer) (m : Docs) : Prop :=
  match l, answers with
  | [], [] => True
  | (env, o) :: r, a :: answers => exists m', allowed env o a m m' /\ spec_run r answers m'
  | _, _ => False
  end.

Lemma perform_allowed env o s s' a m : op_ok o -> clock_ok env -> represents s m -> perform env o s = (s', a) ->
  exists m', allowed env o a m m' /\ represents s' m'.
Proof.
  intros Ho Hn R. destruct o as [c d|c ds b|c d|c id|c id|c limit offset|c|c config|c]; cbn [perform op_ok allowed] in *.
  - destruct (AddDocument env c d s) as [s1 ok] eqn:E. intros [= <- <-]. destruct Ho as [Hc Hd]. eapply AddDocument_spec in E as [E|[-> E]]; [..|exact R]; eauto 8.
  - destruct (AddDocumentsBatch env c ds b s) as [s1 n] eqn:E. intros [= <- <-]. destruct Ho as [Hc Hd]. eapply AddDocumentsBatch_spec in E as [[-> E]|[-> E]]; [..|exact R]; eauto 8.
  - destruct (UpdateDocument env c d s) as [s1 ok] eqn:E. intros [= <- <-]. destruct Ho as [Hc Hd]. eapply UpdateDocument_spec in E as [E|[-> E]]; [..|exact R]; eauto 8.
  - destruct (DeleteDocument env c id s) as [s1 ok] eqn:E. intros [= <- <-]. destruct Ho as [Hc Hd]. eapply document_deleted in E; [|exact Hc|exact Hd|exact R]. destruct ok; [destruct E|]; eauto 8.
  - destruct (GetDocument env c id s) as [s1 d] eqn:E. intros [= <- <-]. destruct Ho as [Hc Hd]. eapply document_read in E as (-> & -> & _); [|exact Hc|exact Hd|exact R]. eauto.
  - destruct (ListDocuments env c limit offset s) as [s1 l] eqn:E. intros [= <- <-]. eapply ListDocuments_spec in E as (-> & ids & I & ->); [|exact Ho|exact R]. eauto 8.
  - intros [= <- <-]. destruct (CountStored_spec c s m Ho R) as (ids & I & ->). eauto 8.
  - destruct (CreateCollection env c config s) as [s1 ok] eqn:E. intros [= <- <-]. eapply CreateCollection_spec in E; [|exact R]. eauto.
  - destruct (DeleteCollection env c s) as [s1 ok] eqn:E. intros [= <- <-]. eapply DeleteCollection_spec in E as [E|[-> E]]; [| |exact Ho|exact R]; eauto 8.
Qed.

Lemma readable_empty : readable (fun _ => None) ∅.
Proof. split; [by intros c id _ _|by intros k [? ?]|by intros c id [? ?]]. Qed.


(** ** Counters *)

Definition count (m : Docs) (c : bytes) : Z := Z.of_nat (base.size (base.filter (fun x : bytes * bytes * Document => x.1.1 = c) m)).

Lemma identifiers_count m c ids : identifiers m c ids -> size ids = count m c.
Proof.
  intros [Hs Hi]. unfold count, size. f_equal. rewrite <- (length_fmap (pair c) ids). set (mc := base.filter _ m).
  rewrite <- (length_map_to_list mc), <- (length_fmap fst (map_to_list mc)). apply Permutation_length, NoDup_Permutation.
  - apply (NoDup_fmap_2 _). clear Hi. induction Hs as [|a l Hs IH Ha]; [constructor|]. constructor; [|done]. intros Hin. rewrite Forall_forall in Ha. apply Ha in Hin. by rewrite str_compare_refl in Hin.
  - apply NoDup_fst_map_to_list.
  - intros [c' id]. rewrite !list_elem_of_fmap. split.
    + intros (j & [= -> ->] & Hj). apply Hi in Hj as [d Hd]. exists ((c, j), d). split; [done|]. apply elem_of_map_to_list, map_lookup_filter_Some. by split.
    + intros ([[c1 j] d] & [= -> ->] & Hd). apply elem_of_map_to_list, map_lookup_filter_Some in Hd as [Hd E]. cbn in E. subst c1. exists j. split; [done|]. apply Hi. by eexists.
Qed.

Lemma stored_count c s m : clean c -> represents s m -> CountStoredDocuments c s = count m c.
Proof. intros Hc R. destruct (CountStored_spec c s m Hc R) as (ids & I & ->). by apply identifiers_count. Qed.

Lemma count_le m c : 0 <= count m c <= Z.of_nat (base.size m).
Proof. unfold count. pose proof (map_size_filter (fun x : bytes * bytes * Document => x.1.1 = c) m). lia. Qed.

Lemma count_insert_doc m c c' id d : count (<[(c, id) := d]> m) c' = count m c' + (if bool_decide (c = c') && bool_decide (m !! (c, id) = None) then 1 else 0).
Proof.
  unfold count. case_bool_decide as E; cbn [andb].
  - subst c'. rewrite map_filter_insert_True by done. rewrite map_size_insert. set (mc := base.filter _ m).
    assert (mc !! (c, id) = None <-> m !! (c, id) = None) as Hm.
    { unfold mc. rewrite map_lookup_filter_None. split; [intros [Hn|Hn]; [done|]; destruct (m !! (c, id)) as [x|] eqn:M; [by destruct (Hn x eq_refl)|done]|by left]. }
    destruct (mc !! (c, id)) eqn:M; case_bool_decide as B; unfold Datatypes.id; [by apply Hm in B|lia|lia|by destruct B; apply Hm].
  - rewrite map_filter_insert_not by done. lia.
Qed.

Lemma count_delete_doc m c c' id : is_Some (m !! (c, id)) -> count (base.delete (c, id) m) c' = count m c' - (if bool_decide (c = c') then 1 else 0).
Proof.
  intros [d Hd]. rewrite <- (insert_id m (c, id) d Hd) at 2. rewrite <- insert_delete_eq. rewrite count_insert_doc, lookup_delete_eq.
  rewrite (bool_decide_true (None = None)) by done. rewrite andb_true_r. lia.
Qed.

Lemma parse_built now n t : 0 <= n < 2 ^ 64 -> (ParseCollectionMetaValue now (BuildCollectionMetaValue n t)).1 = n.
Proof.
  intros Hn. destruct (to_string_value n) as (Hd & Hv & Hne); [lia|]. unfold ParseCollectionMetaValue, BuildCollectionMetaValue.
  assert (find_char is_colon (to_string n ++ #":" ++ to_string t) = Some (length (to_string n))) as ->.
  { apply find_char_Some. exists (to_string n), ":"%char, (to_string t). split; [done|]. split; [done|]. split; [|done].
    apply colon_free. intros Hin. unfold is_digits in Hd. rewrite Forall_forall in Hd. by apply Hd in Hin. }
  rewrite take_app_length. pose proof (stoull_digits _ Hd Hne) as S. rewrite Hv in S. specialize (S ltac:(lia)).
  destruct (stoull (to_string n)) as [[v w]|]; cbn [from_option fst] in *; [|done]. by destruct (stoull _) as [[v' w']|].
Qed.

(** The counters of the database and those in memory are the numbers of documents. *)

Record counted (s : Manager) (m : Docs) : Prop := {
  c_meta c now : clean c -> (ParseCollectionMetaValue now (Get (meta_key c) s)).1 = count m c;
  c_cache c x : clean c -> CollectionMetadataCache s !! c = Some x -> x.1 = count m c
}.

(** No counter is touched, but some may be forgotten in memory. *)

Definition keeps (s s' : Manager) : Prop :=
  (forall c, stored (database s') (meta_key c) = stored (database s) (meta_key c)) /\
  forall c x, CollectionMetadataCache s' !! c = Some x -> CollectionMetadataCache s !! c = Some x.

#[local] Instance keeps_trans : Transitive keeps.
Proof. intros a b c [H1 H2] [H3 H4]. split; [intros k; by rewrite H3, H1|intros k x Hx; by apply H2, H4]. Qed.

Lemma keeps_counted s s' m : keeps s s' -> counted s m -> counted s' m.
Proof. intros [K1 K2] [C1 C2]. split; [intros c now Hc; unfold Get; rewrite K1; by apply C1|intros c x Hc Hx; by eapply C2, K2]. Qed.

Lemma keeps_same_cache s s' : database s' = database s -> CollectionMetadataCache s' = CollectionMetadataCache s -> keeps s s'.
Proof. intros E1 E2. split; [intros c; by rewrite E1|intros c x; by rewrite E2]. Qed.

Lemma meta_key_inj c c' : meta_key c = meta_key c' -> c = c'.
Proof. apply app_inv_head. Qed.

Lemma meta_not_config c c' : meta_key c <> GetCollectionConfigKey c'.
Proof. intros E. apply (f_equal (take 12)) in E. cbv in E. discriminate E. Qed.

Lemma meta_not_doc_key c c' id : meta_key c <> doc_key c' id.
Proof. intros E. pose proof (meta_not_doc c) as Hm. rewrite E, is_doc_key in Hm. done. Qed.

Lemma keeps_set k v (s s' : Manager) ok : (forall c, meta_key c <> k) -> Set_ k v s = (s', ok) -> keeps s s'.
Proof.
  intros Hk. unfold Set_. destruct (db_set k v (database s)) as [d b] eqn:E. intros [= <- <-]. split; [|done]. intros c. cbn [database set_database].
  rewrite (set_spec _ _ _ _ _ E), (bool_decide_false (meta_key c = k)) by apply Hk. by rewrite andb_false_r.
Qed.

Lemma update_cache_counted c n t (s : Manager) m : (forall c now, clean c -> (ParseCollectionMetaValue now (Get (meta_key c) s)).1 = count m c) ->
  (forall c' x, clean c' -> c' <> c -> CollectionMetadataCache s !! c' = Some x -> x.1 = count m c') -> (clean c -> n = count m c) ->
  counted (UpdateCollectionMetadataCacheLocked c n t s) m.
Proof.
  intros C1 C2 Hn. unfold UpdateCollectionMetadataCacheLocked. split; [exact C1|]. cbn [CollectionMetadataCache set_caches].
  destruct (_ <? _); [by intros c' x|]. intros c' x Hc. destruct (decide (c' = c)) as [->|Hne].
  - rewrite lookup_insert_eq. intros [= <-]. by apply Hn.
  - rewrite lookup_insert_ne by done. by apply C2.
Qed.

Lemma get_count_spec env c s s' n m : clean c -> counted s m -> GetCollectionDocumentCount env c s = (s', n) -> n = count m c /\ counted s' m.
Proof.
  intros Hc C. unfold GetCollectionDocumentCount. destruct (CollectionMetadataCache s !! c) as [x|] eqn:E.
  - intros [= <- <-]. split; [by eapply c_cache|done].
  - destruct (read_meta env c s) as [k t] eqn:Er. intros [= <- <-]. assert (k = count m c) as ->.
    { pose proof (c_meta _ _ C c (time env) Hc) as Hm. unfold read_meta in Er. by rewrite Er in Hm. }
    split; [done|]. apply update_cache_counted; [intros; by apply C|intros c' x Hc' _ Hx; by eapply c_cache|done].
Qed.

Lemma keeps_metadata c k v s s' ok : UpdateCollectionMetadata c k v s = (s', ok) -> keeps s s'.
Proof.
  unfold UpdateCollectionMetadata. destruct (negb _); [intros [= <- _]; by apply keeps_same_cache|]. destruct (GetCollectionConfig c s) as [s1 x] eqn:E1.
  assert (keeps s s1) as K1 by (unfold GetCollectionConfig in E1; destruct (Collections s !! c); injection E1 as <- _; by apply keeps_same_cache).
  destruct (Set_ _ _ s1) as [s2 b] eqn:E2. apply keeps_set in E2; [|intros c'; apply meta_not_config]. intros E.
  transitivity s1; [done|]. transitivity s2; [done|]. destruct b; injection E as <- _; by apply keeps_same_cache.
Qed.

Lemma keeps_language env c o s : keeps s (RefreshCollectionLanguageIfNeeded env c o s).
Proof.
  unfold RefreshCollectionLanguageIfNeeded. destruct (bool_decide _); [by apply keeps_same_cache|]. destruct (GetCollectionConfig c s) as [s1 x] eqn:E1.
  assert (keeps s s1) as K1 by (unfold GetCollectionConfig in E1; destruct (Collections s !! c); injection E1 as <- _; by apply keeps_same_cache).
  transitivity s1; [done|]. destruct (negb _); [by apply keeps_same_cache|].
  destruct (bool_decide (from_option _ _ _ ∈ _)); destruct (bool_decide _); try (by apply keeps_same_cache);
    destruct (UpdateCollectionMetadata c _ _ s1) as [s2 b] eqn:E2; by apply keeps_metadata in E2.
Qed.

Lemma counted_ext s m m' : (forall c, count m' c = count m c) -> counted s m -> counted s m'.
Proof. intros E [C1 C2]. split; [intros; rewrite E; by apply C1|intros c x Hc Hx; rewrite E; by eapply C2]. Qed.

Lemma set_refused k v (s s' : Manager) : Set_ k v s = (s', false) -> (forall k', stored (database s') k' = stored (database s) k') /\ CollectionMetadataCache s' = CollectionMetadataCache s.
Proof. unfold Set_. destruct (db_set k v (database s)) as [d b] eqn:E. intros [= <- ->]. split; [|done]. intros k'. cbn [database set_database]. by rewrite (set_spec _ _ _ _ _ E). Qed.

Lemma set_cache k v (s s' : Manager) ok : Set_ k v s = (s', ok) -> CollectionMetadataCache s' = CollectionMetadataCache s.
Proof. unfold Set_. destruct (db_set k v (database s)). by intros [= <- _]. Qed.

(** The counter of a collection is written. *)

Lemma set_counter c n t t' (s s' : Manager) m m' : 0 <= n < 2 ^ 64 -> counted s m ->
  (forall c', c' <> c -> count m' c' = count m c') -> (clean c -> n = count m' c) ->
  Set_ (meta_key c) (BuildCollectionMetaValue n t) s = (s', true) -> counted (UpdateCollectionMetadataCacheLocked c n t' s') m'.
Proof.
  intros Hn [C1 C2] Hother Hc E. pose proof (set_cache _ _ _ _ _ E) as Ec. apply stored_put in E as [_ W]. destruct (W eq_refl) as [_ W']. apply update_cache_counted; [| |done].
  - intros c' now Hc'. unfold Get. rewrite W'. case_bool_decide as B.
    + apply meta_key_inj in B as ->. cbn [default from_option Datatypes.id]. rewrite parse_built by done. by apply Hc.
    + rewrite Hother by (intros ->; done). by apply C1.
  - intros c' x Hc' Hne Hx. rewrite Ec in Hx. rewrite Hother by done. by eapply C2.
Qed.

Lemma count_insert_counted env c s s' m m' :
  clean c -> represents s m' -> counted s m -> (forall c', c' <> c -> count m' c' = count m c') -> count m' c = count m c + 1 -> count m' c < 2 ^ 64 ->
  count_insert env c s = (s', true) -> counted s' m'.
Proof.
  intros Hc R C Hother Hplus Hlt. pose proof (count_le m' c). pose proof (count_le m c). unfold count_insert. destruct (read_meta env c s) as [n t] eqn:Er.
  assert (n = count m c) as -> by (pose proof (c_meta _ _ C c (time env) Hc) as Hm; unfold read_meta in Er; by rewrite Er in Hm).
  assert (u64 (count m c + 1) = count m' c) as Hu by (unfold u64; rewrite Z.mod_small; lia). rewrite Hu.
  destruct (Set_ _ _ s) as [s1 b1] eqn:E1. destruct b1.
  - intros [= <-]. eapply set_counter; [| exact C|exact Hother|done|exact E1]. lia.
  - apply set_refused in E1 as [W Ec]. assert (represents s1 m') as R1 by (eapply same_represents; [|exact R]; intros k _; apply W).
    assert (counted s1 m) as C1 by (eapply keeps_counted; [|exact C]; split; [intros c'; apply W|intros c' x; by rewrite Ec]).
    fold (CountStoredDocuments c s1). rewrite (stored_count c s1 m' Hc R1). destruct (Set_ _ _ s1) as [s2 b2] eqn:E2. destruct b2; [|done].
    intros [= <-]. eapply set_counter; [|exact C1|exact Hother|done|exact E2]. lia.
Qed.

Lemma AddDocument_counted env c d s s' m :
  clean c -> storable d -> clock_ok env -> represents s m -> counted s m -> Z.of_nat (base.size m) + 1 < 2 ^ 64 -> AddDocument env c d s = (s', true) ->
  counted s' (<[(c, ID d) := stamped env d]> m).
Proof.
  intros Hc Hd Hn R C Hlt. set (m' := <[(c, ID d) := stamped env d]> m). unfold AddDocument. pose proof Hd as (Hid & _ & _ & Ht). rewrite !bool_decide_false by (apply Hc || apply Hid). cbn [orb].
  destruct (Set_ _ _ s) as [s1 b] eqn:E1. assert (keeps s s1) as K1 by (eapply keeps_set; [intros c'; apply meta_not_doc_key|exact E1]).
  apply stored_put in E1 as [_ W1]. destruct b; cbn [negb]; [|done].
  destruct (W1 eq_refl) as [Hs W]. assert (represents s1 m') as R1.
  { eapply represents_put; [done|done|by apply stamp_range|done| |done]. intros k _. apply W. }
  set (s2 := invalidate_responses c (MarkCollectionIndexDirty c s1)). assert (database s2 = database s1) as Ed by (unfold s2; by rewrite invalidate_database, mark_database).
  assert (counted s2 m) as C2.
  { eapply keeps_counted; [|exact C]. etransitivity; [exact K1|]. apply keeps_same_cache; [exact Ed|]. unfold s2, MarkCollectionIndexDirty. by destruct (bool_decide _). }
  assert (represents s2 m') as R2 by (unfold represents; by rewrite Ed).
  pose proof (fun c' => count_insert_doc m c c' (ID d) (stamped env d)) as Hcount.
  pose proof (r_holds _ _ R c (ID d) Hc Hid) as Hh. unfold holds in Hh.
  destruct (if Exists _ s then _ else _) as [s3 b3] eqn:E3. assert (b3 = true -> counted s3 m') as C3.
  { intros ->. unfold Exists in E3. case_bool_decide as Hx.
    - injection E3 as <-. eapply counted_ext; [|exact C2]. intros c'. unfold m'. rewrite Hcount.
      rewrite (bool_decide_false (m !! (c, ID d) = None)); [rewrite andb_false_r; lia|]. intros Hm. rewrite Hm in Hh. rewrite Hh in Hx. by destruct Hx.
    - assert (m !! (c, ID d) = None) as Hm by (destruct (m !! (c, ID d)); [destruct Hh as (_ & data & Hdata & _); destruct Hx; by eexists|done]).
      eapply count_insert_counted; [exact Hc|exact R2|exact C2| | | |exact E3].
      + intros c' Hne. unfold m'. rewrite Hcount, (bool_decide_false (c = c')) by done. cbn [andb]. lia.
      + unfold m'. rewrite Hcount, Hm, !bool_decide_true by done. done.
      + unfold m'. rewrite Hcount. pose proof (count_le m c). destruct (_ && _); lia. }
  destruct b3; [|done]. intros [= <-]. eapply keeps_counted; [apply keeps_language|]. unfold index_added.
  destruct (GetCollectionDocumentCount env c s3) as [s4 n] eqn:E4. eapply get_count_spec in E4 as [_ C4]; [|exact Hc|by apply C3].
  destruct (_ && _); [|exact C4]. apply (keeps_counted s4); [by apply keeps_same_cache|exact C4].
Qed.

Lemma UpdateDocument_counted env c d s s' m :
  clean c -> storable d -> clock_ok env -> represents s m -> counted s m -> Z.of_nat (base.size m) + 1 < 2 ^ 64 -> UpdateDocument env c d s = (s', true) ->
  counted s' (<[(c, ID d) := updated env d (m !! (c, ID d))]> m).
Proof.
  intros Hc Hd Hn R C Hlt. pose proof Hd as (Hid & _ & _ & Ht). unfold UpdateDocument. rewrite !bool_decide_false by (apply Hc || apply Hid). cbn [orb].
  destruct (GetDocument env c (ID d) s) as [s1 found] eqn:E1. eapply document_read in E1 as (-> & -> & Ho); [|done..].
  destruct (m !! (c, ID d)) as [old|] eqn:M; cbn [default from_option Datatypes.id] in *.
  2:{ rewrite bool_decide_true by done. intros E2. by eapply AddDocument_counted in E2. }
  rewrite bool_decide_false by (apply Ho; by eexists). destruct (Set_ _ _ s) as [s2 b] eqn:E2. apply keeps_set in E2; [|intros c'; apply meta_not_doc_key].
  destruct b; cbn [negb]; [|done]. destruct (IndexThrows env); [done|]. intros [= <-].
  apply (counted_ext _ m). { intros c'. rewrite count_insert_doc, M. rewrite (bool_decide_false (Some old = None)) by done. rewrite andb_false_r. lia. }
  eapply keeps_counted; [|exact C]. etransitivity; [exact E2|]. apply keeps_same_cache; [by rewrite invalidate_database, mark_database|].
  unfold MarkCollectionIndexDirty. by destruct (bool_decide _).
Qed.

Lemma DeleteDocument_counted env c id s s' ok m :
  clean c -> clean id -> represents s m -> counted s m -> Z.of_nat (base.size m) < 2 ^ 64 ->
  PostDeleteCleanupFailures s' = PostDeleteCleanupFailures s -> 0 <= PostDeleteCleanupFailures s < 2 ^ 64 ->
  DeleteDocument env c id s = (s', ok) -> counted s' (if ok then base.delete (c, id) m else m).
Proof.
  intros Hc Hi R C Hlt Hpost Hrange E. pose proof E as Hspec. eapply document_deleted in Hspec; [|exact Hc|exact Hi|exact R]. revert E Hpost. unfold DeleteDocument.
  destruct (negb _); [by intros [= <- <-]|]. destruct (Del _ s) as [s1 n] eqn:E1.
  assert (keeps s s1 /\ PostDeleteCleanupFailures s1 = PostDeleteCleanupFailures s) as [K1 P1].
  { unfold Del in E1. destruct (db_del _ _) as [d k] eqn:Ed. injection E1 as <- <-. split; [|done]. split; [|done]. intros c'. cbn [database set_database]. apply del_spec in Ed as [_ W].
    rewrite W, (bool_decide_false (meta_key c' = _)) by apply meta_not_doc_key. by rewrite andb_false_r. }
  destruct (negb _); [intros [= <- <-] _; by eapply keeps_counted|].
  set (s2 := if IndexThrows env then _ else _).
  assert (keeps s1 s2 /\ PostDeleteCleanupFailures s2 = PostDeleteCleanupFailures s1) as [K2 P2].
  { unfold s2, MarkCollectionIndexDirty. destruct (IndexThrows env), (bool_decide (c = [])); (split; [by apply keeps_same_cache|done]). }
  destruct (count_delete env c s2) as [s3 counted3] eqn:E3. intros [= <- <-] Hpost. destruct Hspec as [Hm _].
  assert (IndexThrows env || negb counted3 = false) as Hok.
  { destruct (_ || _) eqn:B; [|done]. exfalso. cbn [PostDeleteCleanupFailures count_failure] in Hpost.
    assert (PostDeleteCleanupFailures s3 = PostDeleteCleanupFailures s) as P3.
    { rewrite <- P1, <- P2. unfold count_delete in E3. destruct (read_meta env c s2) as [k t]. destruct (0 <? k); [|by injection E3 as <- _].
      unfold Set_ in E3. destruct (db_set _ _ _) as [d b]. destruct b; by injection E3 as <- _. }
    rewrite P3 in Hpost. unfold u64 in Hpost. destruct (Z.eq_dec (PostDeleteCleanupFailures s) (2 ^ 64 - 1)) as [E|E].
    - rewrite E in Hpost. done.
    - rewrite Z.mod_small in Hpost; lia. }
  rewrite Hok. apply orb_false_iff in Hok as [_ Hok]. apply negb_false_iff in Hok as ->.
  assert (counted s2 m) as C2 by (eapply keeps_counted; [|exact C]; by transitivity s1).
  pose proof (fun c' => count_delete_doc m c c' id Hm) as Hcount. unfold count_delete in E3. destruct (read_meta env c s2) as [k t] eqn:Er.
  assert (k = count m c) as -> by (pose proof (c_meta _ _ C2 c (time env) Hc) as Hk; unfold read_meta in Er; by rewrite Er in Hk).
  pose proof (count_le m c). pose proof (Hcount c) as Hown. rewrite bool_decide_true in Hown by done. pose proof (count_le (base.delete (c, id) m) c).
  rewrite (proj2 (Z.ltb_lt _ _)) in E3 by lia. destruct (Set_ _ _ s2) as [s4 b4] eqn:E4. destruct b4; [|done]. injection E3 as <-.
  eapply set_counter; [|exact C2| |intros _; lia|exact E4]; [lia|]. intros c' Hne. rewrite Hcount, bool_decide_false by done. lia.
Qed.

(** The identifiers of a batch that are new. *)

Definition news (m : Docs) (c : bytes) (ds : list Document) : gset bytes := list_to_set (List.filter (fun id => bool_decide (m !! (c, id) = None)) (ID <$> ds)).

Lemma elem_of_news m c ds id : id ∈ news m c ds <-> id ∈ ID <$> ds /\ m !! (c, id) = None.
Proof. unfold news. rewrite elem_of_list_to_set, list_elem_of_In, List.filter_In, <- list_elem_of_In, bool_decide_eq_true. done. Qed.

Lemma last_with_None id ds : last_with id ds = None <-> id ∉ ID <$> ds.
Proof.
  induction ds as [|x ds IH] using rev_ind; [split; [by intros _ ?%elem_of_nil|done]|]. rewrite last_with_snoc, fmap_app. change (ID <$> [x]) with [ID x]. rewrite elem_of_app, list_elem_of_singleton.
  case_bool_decide as E; [split; [done|intros Hn; destruct Hn; right; done]|]. rewrite IH. split; [intros Hn [?|?]; congruence|intros Hn ?; apply Hn; by left].
Qed.

Lemma count_added env c ds m c' : count (added env c ds m) c' = count m c' + (if bool_decide (c = c') then Z.of_nat (base.size (news m c ds)) else 0).
Proof.
  induction ds as [|x ds IH] using rev_ind; [change (news m c []) with (∅ : gset bytes); rewrite size_empty; change (added env c [] m) with m; destruct (bool_decide _); lia|].
  unfold added. rewrite foldl_app. cbn [foldl]. fold (added env c ds m). rewrite count_insert_doc, IH, added_lookup, (bool_decide_true (c = c)) by done.
  case_bool_decide as Ec; cbn [andb]; [|lia].
  assert (news m c (ds ++ [x]) = news m c ds ∪ (if bool_decide (m !! (c, ID x) = None) then {[ID x]} else ∅)) as ->.
  { apply set_eq. intros id. rewrite elem_of_union, !elem_of_news, fmap_app. change (ID <$> [x]) with [ID x]. rewrite elem_of_app, list_elem_of_singleton. case_bool_decide as B; [rewrite elem_of_singleton; naive_solver|].
      split; [intros [[Hi| ->] Hm]; [by left|done]|]. intros [[Hi Hm]|[]%elem_of_empty]. split; [by left|done]. }
  destruct (last_with (ID x) ds) as [y|] eqn:Ly.
  - rewrite (bool_decide_false (Some _ = None)) by done. case_bool_decide as B; [|rewrite union_empty_r_L; lia].
    rewrite (union_comm_L (news m c ds)), subseteq_union_1_L; [lia|]. intros id ->%elem_of_singleton. apply elem_of_news. split; [|done].
    destruct (decide (ID x ∈ ID <$> ds)) as [Hi|Hi]; [done|]. apply last_with_None in Hi. congruence.
  - destruct (m !! (c, ID x)) as [y|] eqn:M; [rewrite !bool_decide_false by done; rewrite union_empty_r_L; lia|]. rewrite !bool_decide_true by done.
    rewrite size_union, size_singleton; [lia|]. intros id Hi ->%elem_of_singleton. apply elem_of_news in Hi as [Hi _]. by apply last_with_None in Ly.
Qed.

Lemma inserted_count env c ds s m : clean c -> Forall storable ds -> represents s m ->
  size (List.filter (fun kv => negb (Exists kv.1 s)) (batch_data env c ds)) = Z.of_nat (base.size (news m c ds)).
Proof.
  intros Hc Hds R. destruct (batch_keys env c ds Hds) as [N K]. unfold size. f_equal.
  rewrite <- (length_fmap fst). change (base.size (news m c ds)) with (length (elements (news m c ds))). rewrite <- (length_fmap (doc_key c) (elements (news m c ds))). apply Permutation_length, NoDup_Permutation.
  - revert N. clear. induction (batch_data env c ds) as [|x l IH]; [done|]. rewrite fmap_cons, NoDup_cons. intros [Hx N]. cbn [List.filter]. destruct (negb _); [|by apply IH].
    rewrite fmap_cons, NoDup_cons. split; [|by apply IH]. intros (y & E & Hy)%list_elem_of_fmap. apply Hx. rewrite E. apply list_elem_of_fmap. exists y. split; [done|].
    apply list_elem_of_In in Hy. apply List.filter_In in Hy as [Hy _]. by apply list_elem_of_In.
  - apply (NoDup_fmap_2 _), NoDup_elements.
  - intros k. rewrite !list_elem_of_fmap. setoid_rewrite elem_of_elements. setoid_rewrite elem_of_news. setoid_rewrite list_elem_of_In. setoid_rewrite List.filter_In. setoid_rewrite <- list_elem_of_In.
    assert (forall id, id ∈ ID <$> ds -> Exists (doc_key c id) s = negb (bool_decide (m !! (c, id) = None))) as X.
    { intros id (x & -> & Hx)%list_elem_of_fmap. rewrite Forall_forall in Hds. pose proof (r_holds _ _ R c (ID x) Hc ltac:(apply (Hds x Hx))) as Hh. unfold holds in Hh. unfold Exists.
      destruct (m !! (c, ID x)) as [d|]; [destruct Hh as (_ & data & -> & _)|rewrite Hh]; [rewrite bool_decide_true by (by eexists); by rewrite bool_decide_false|rewrite bool_decide_false by (by intros [? ?]); by rewrite bool_decide_true]. }
    split.
    + intros ([k' v] & -> & [Hin He]). cbn [fst] in *. assert (k' ∈ (batch_data env c ds).*1) as (id & Hi & ->)%K by (apply list_elem_of_fmap; by exists (k', v)).
      exists id. split; [done|]. split; [done|]. rewrite (X id Hi), negb_involutive in He. by apply bool_decide_eq_true in He.
    + intros (id & -> & Hi & Hm). assert (doc_key c id ∈ (batch_data env c ds).*1) as ([k' v] & E & Hin)%list_elem_of_fmap by (apply K; by exists id).
      exists (k', v). split; [done|]. split; [done|]. cbn [fst] in *. rewrite <- E, (X id Hi), negb_involutive. by apply bool_decide_eq_true.
Qed.

Lemma AddDocumentsBatch_counted env c ds s s' n m :
  clean c -> Forall storable ds -> clock_ok env -> represents s m -> counted s m -> Z.of_nat (base.size m) + size ds < 2 ^ 64 ->
  AddDocumentsBatch env c ds false s = (s', n) -> (n = size (remove_dups (ID <$> ds)) /\ counted s' (added env c ds m)) \/ (n = 0 /\ counted s' m).
Proof.
  intros Hc Hds Hn R C Hlt. pose proof (batch_size_ids env c ds Hds) as Hlen. pose proof (inserted_count env c ds s m Hc Hds R) as Hnew. pose proof (fun c' => count_added env c ds m c') as Hcount.
  pose proof (batch_keys env c ds Hds) as [N K]. assert (Z.of_nat (base.size (news m c ds)) <= size ds) as Hle.
  { rewrite <- Hnew. unfold size. etransitivity; [apply Nat2Z.inj_le, List.filter_length_le|]. rewrite Hlen. apply Nat2Z.inj_le. rewrite <- (length_fmap ID ds).
    clear. induction (ID <$> ds) as [|x l IH]; cbn [remove_dups]; [done|]. case_decide; cbn [length]; lia. }
  unfold AddDocumentsBatch. rewrite bool_decide_false by apply Hc.
  destruct (batch_data env c ds) as [|e l] eqn:Eb; [intros [= <- <-]; by right|]. set (entries := e :: l) in *. rewrite Hnew.
  destruct (read_meta env c s) as [k t] eqn:Er. assert (k = count m c) as -> by (pose proof (c_meta _ _ C c (time env) Hc) as Hm; unfold read_meta in Er; by rewrite Er in Hm).
  set (all := entries ++ _). destruct (db_batch all (database s)) as [d written] eqn:E.
  pose proof (batch_spec _ _ _ _ E) as [[-> W]|[-> W]].
  2:{ assert ((0 =? size all) = false) as ->. { apply Z.eqb_neq. unfold all, entries, size. rewrite length_app. cbn [length]. lia. }
      intros [= <- <-]. right. split; [done|]. eapply keeps_counted; [|exact C]. split; [intros c'; apply W|done]. }
  rewrite Z.eqb_refl. intros [= <- <-]. left. split; [unfold size; by rewrite Hlen|]. eapply keeps_counted; [apply keeps_language|].
  pose proof (count_le m c). assert (u64 (count m c + Z.of_nat (base.size (news m c ds))) = count (added env c ds m) c) as Hu.
  { rewrite Hcount, bool_decide_true by done. unfold u64. apply Z.mod_small. lia. }
  eapply keeps_counted; [apply keeps_same_cache; [by rewrite invalidate_database, mark_database|unfold MarkCollectionIndexDirty; by destruct (bool_decide _)]|].
  rewrite Hu in *. assert (forall c', stored d (meta_key c') = if bool_decide (c' = c) then Some (BuildCollectionMetaValue (count (added env c ds m) c) t) else stored (database s) (meta_key c')) as Hd.
  { intros c'. rewrite W. unfold all, put_all. rewrite foldl_app. cbn [foldl fst snd]. fold (put_all entries (stored (database s))). destruct (decide (c' = c)) as [->|B].
    - rewrite !bool_decide_true by done. by rewrite Hu.
    - rewrite !bool_decide_false by (done || by intros ?%meta_key_inj). rewrite put_all_table by done. rewrite not_elem_of_list_to_map_1; [done|]. intros (id & _ & E')%K. by apply meta_not_doc_key in E'. }
  assert (0 <= count (added env c ds m) c < 2 ^ 64) as Hr by (rewrite Hcount, bool_decide_true by done; lia).
  apply update_cache_counted; [| |done].
  - intros c' now Hc'. unfold Get. cbn [database set_database]. rewrite Hd. case_bool_decide as B; [subst c'; by apply parse_built|].
    rewrite Hcount, (bool_decide_false (c = c')), Z.add_0_r by congruence. by apply C.
  - intros c' x Hc' Hne Hx. rewrite Hcount, (bool_decide_false (c = c')), Z.add_0_r by congruence. by eapply c_cache.
Qed.

Lemma CreateCollection_counted env c config s s' ok m : counted s m -> CreateCollection env c config s = (s', ok) -> counted s' m.
Proof.
  intros C. unfold CreateCollection. destruct (bool_decide (Get (meta_key c) s = [])) eqn:Hm; cbn [negb]; [|by intros [= <- <-]].
  apply bool_decide_eq_true in Hm. assert (clean c -> count m c = 0) as Hzero by (intros Hc; pose proof (c_meta _ _ C c 0 Hc) as E; by rewrite Hm in E).
  destruct (db_batch _ _) as [d n] eqn:E. apply batch_spec in E as [[-> W]|[-> W]].
  2:{ intros [= <- <-]. eapply keeps_counted; [|exact C]. split; [intros c'; apply W|done]. }
  intros [= <- <-]. set (s1 := set_database d (set_collections (<[c := config]> (Collections s)) s)).
  apply (keeps_counted (UpdateCollectionMetadataCacheLocked c 0 (time env) s1)).
  { split; [intros c'; by rewrite invalidate_database, refresh_database|]. intros c' x. cbn [invalidate_responses set_responses CollectionMetadataCache].
    unfold RefreshCollectionListCacheLocked. destruct (_ <? _); cbn [CollectionMetadataCache set_caches]; [done|]. intros Hx. by apply map_lookup_filter_Some in Hx as [Hx _]. }
  apply update_cache_counted; [| |intros Hc; by rewrite Hzero].
  - intros c' now Hc'. unfold s1, Get. cbn [database set_database set_collections]. rewrite W. unfold put_all. cbn [foldl fst snd].
    rewrite (bool_decide_false (meta_key c' = GetCollectionConfigKey c)) by apply meta_not_config. case_bool_decide as B; [|by apply C].
    apply meta_key_inj in B as ->. cbn [default from_option Datatypes.id]. rewrite parse_built by lia. symmetry. by apply Hzero.
  - intros c' x Hc' _ Hx. by eapply c_cache.
Qed.

(** A call that is acknowledged, where it must be for the counters: additions and updates
    are, batches count what is new, deletions leave the number of failures. *)

Definition smooth (o : op) (a : answer) (s s' : Manager) : Prop :=
  match o with
  | OpAdd _ _ | OpUpdate _ _ => a = Acknowledged true
  | OpBatch _ _ assume_new_documents => assume_new_documents = false
  | OpDelete _ _ => PostDeleteCleanupFailures s' = PostDeleteCleanupFailures s /\ 0 <= PostDeleteCleanupFailures s < 2 ^ 64
  | OpDrop _ => False
  | _ => True
  end.

Definition weight (o : op) : Z := match o with OpAdd _ _ | OpUpdate _ _ => 1 | OpBatch _ ds _ => size ds | _ => 0 end.

Fixpoint smooth_run (l : list (Env * op)) (s : Manager) : Prop :=
  match l with [] => True | (env, o) :: r => let (s', a) := perform env o s in smooth o a s s' /\ smooth_run r s' end.

Fixpoint final (l : list (Env * op)) (s : Manager) : Manager := match l with [] => s | (env, o) :: r => final r (perform env o s).1 end.

Lemma size_added env c ds m : Z.of_nat (base.size (added env c ds m)) <= Z.of_nat (base.size m) + size ds.
Proof.
  unfold added, size. revert m. induction ds as [|x ds IH]; intros m; cbn [foldl length]; [lia|]. etransitivity; [apply IH|]. rewrite map_size_insert. destruct (m !! _); unfold Datatypes.id; lia.
Qed.

Lemma perform_counted env o s s' a m : op_ok o -> clock_ok env -> represents s m -> counted s m -> Z.of_nat (base.size m) + weight o < 2 ^ 64 ->
  perform env o s = (s', a) -> smooth o a s s' ->
  exists m', represents s' m' /\ counted s' m' /\ Z.of_nat (base.size m') <= Z.of_nat (base.size m) + weight o.
Proof.
  intros Ho Hn R C Hw. destruct o as [c d|c ds b|c d|c id|c id|c limit offset|c|c config|c]; cbn [perform op_ok smooth weight] in *.
  - destruct (AddDocument env c d s) as [s1 ok] eqn:E. intros [= <- <-] [= ->]. destruct Ho as [Hc Hd]. exists (<[(c, ID d) := stamped env d]> m).
    pose proof E as E'. eapply AddDocument_spec in E' as [E'|[? _]]; [|done|done..|exact R]. split; [done|]. split; [by eapply AddDocument_counted|].
    rewrite map_size_insert. destruct (m !! _); unfold Datatypes.id; lia.
  - destruct (AddDocumentsBatch env c ds b s) as [s1 n] eqn:E. intros [= <- <-] ->. destruct Ho as [Hc Hd]. pose proof E as E'.
    eapply AddDocumentsBatch_spec in E'; [|exact Hc|exact Hd|exact Hn|exact R]. eapply AddDocumentsBatch_counted in E; [|exact Hc|exact Hd|exact Hn|exact R|exact C|exact Hw].
    destruct E as [[-> E]|[-> E]], E' as [[E1 E']|[E1 E']].
    + exists (added env c ds m). split; [done|]. split; [done|apply size_added].
    + exists m. split; [done|]. split; [|unfold size; lia]. destruct ds as [|x ds]; [done|]. exfalso. unfold size in E1. 
      destruct (remove_dups (ID <$> x :: ds)) eqn:Er; [|cbn [length] in E1; lia]. assert (ID x ∈ remove_dups (ID <$> x :: ds)) as Hx by (apply elem_of_remove_dups; by left). rewrite Er in Hx. by apply elem_of_nil in Hx.
    + exists m. split; [|split; [done|unfold size; lia]]. destruct ds as [|x ds]; [done|]. exfalso. unfold size in E1.
      destruct (remove_dups (ID <$> x :: ds)) eqn:Er; [|cbn [length] in E1; lia]. assert (ID x ∈ remove_dups (ID <$> x :: ds)) as Hx by (apply elem_of_remove_dups; by left). rewrite Er in Hx. by apply elem_of_nil in Hx.
    + exists m. split; [done|]. split; [done|unfold size; lia].
  - destruct (UpdateDocument env c d s) as [s1 ok] eqn:E. intros [= <- <-] [= ->]. destruct Ho as [Hc Hd]. exists (<[(c, ID d) := updated env d (m !! (c, ID d))]> m).
    pose proof E as E'. eapply UpdateDocument_spec in E' as [E'|[? _]]; [|done|done..|exact R]. split; [done|]. split; [by eapply UpdateDocument_counted|].
    rewrite map_size_insert. destruct (m !! _); unfold Datatypes.id; lia.
  - destruct (DeleteDocument env c id s) as [s1 ok] eqn:E. intros [= <- <-] [Hp1 Hp2]. destruct Ho as [Hc Hd]. exists (if ok then base.delete (c, id) m else m).
    pose proof E as E'. eapply document_deleted in E'; [|exact Hc|exact Hd|exact R]. eapply DeleteDocument_counted in E; [|exact Hc|exact Hd|exact R|exact C|lia|exact Hp1|exact Hp2].
    destruct ok; [destruct E' as [_ E']|]; (split; [done|]; split; [done|]); [|lia]. rewrite map_size_delete. destruct (m !! _); unfold Datatypes.id; lia.
  - destruct (GetDocument env c id s) as [s1 d] eqn:E. intros [= <- <-] _. destruct Ho as [Hc Hd]. eapply document_read in E as (-> & _); [|exact Hc|exact Hd|exact R]. exists m. split; [done|]. split; [done|lia].
  - destruct (ListDocuments env c limit offset s) as [s1 l] eqn:E. intros [= <- <-] _. eapply ListDocuments_spec in E as (-> & _); [|exact Ho|exact R]. exists m. split; [done|]. split; [done|lia].
  - intros [= <- <-] _. exists m. split; [done|]. split; [done|lia].
  - destruct (CreateCollection env c config s) as [s1 ok] eqn:E. intros [= <- <-] _. exists m. pose proof E as E'. eapply CreateCollection_spec in E; [|exact R]. eapply CreateCollection_counted in E'; [|exact C]. split; [done|]. split; [done|lia].
  - done.
Qed.

Fixpoint total_weight (l : list (Env * op)) : Z := match l with [] => 0 | (_, o) :: r => weight o + total_weight r end.

Lemma weight_nonneg l : 0 <= total_weight l.
Proof. induction l as [|[env o] l IH]; cbn [total_weight]; [done|]. destruct o; cbn [weight]; unfold size; lia. Qed.

(** C17. The counter of a collection, in the database and in memory, is the number of its
    documents. From a store whose counters are right, after any session of additions,
    batches that do not assume new documents, updates, deletions, reads and creations of
    collections in which additions and updates are acknowledged and deletions record no
    failed cleanup, the count that is reported is the count of the stored documents, and
    the integrity check of an existing collection finds its counter right. *)
Theorem counters_exact (l : list (Env * op)) (s : Manager) (m : Docs) (env : Env) (c : bytes) :
  represents s m -> counted s m -> Forall (fun x => clock_ok x.1 /\ op_ok x.2) l -> Z.of_nat (base.size m) + total_weight l < 2 ^ 64 ->
  smooth_run l s -> clean c ->
  (GetCollectionDocumentCount env c (final l s)).2 = CountStoredDocuments c (final l s) /\
  (Status_Exists (CheckCollectionIntegrity env c (final l s)).2 = true -> MetadataMatch (CheckCollectionIntegrity env c (final l s)).2 = true).
Proof.
  revert s m. induction l as [|[env1 o] l IH]; intros s m R C Hl Hw Hs Hc.
  - clear Hl Hw Hs. cbn [final]. split.
    + destruct (GetCollectionDocumentCount env c s) as [s1 n] eqn:E. eapply get_count_spec in E as [-> _]; [|exact Hc|exact C]. cbn [snd]. by rewrite (stored_count c s m).
    + unfold CheckCollectionIntegrity. destruct (CollectionExists c s) as [s1 there] eqn:E1. assert (keeps s s1 /\ represents s1 m) as [K1 R1].
      { unfold CollectionExists in E1. destruct (Collections s !! c); [injection E1 as <- _; by split; [apply keeps_same_cache|]|]. destruct (bool_decide _); injection E1 as <- _; [by split; [apply keeps_same_cache|]|].
        split; [|unfold represents; by rewrite refresh_database]. split; [intros c'; by rewrite refresh_database|]. intros c' x. unfold RefreshCollectionListCacheLocked. destruct (_ <? _); cbn [CollectionMetadataCache set_caches]; [done|].
        intros Hx. by apply map_lookup_filter_Some in Hx as [Hx _]. }
      destruct there; cbn [negb]; [|done]. assert (counted s1 m) as C1 by by eapply keeps_counted.
      destruct (GetCollectionDocumentCount env c s1) as [s2 n] eqn:E2. pose proof (count_database _ _ _ _ _ E2) as Ed. eapply get_count_spec in E2 as [-> C2]; [|exact Hc|exact C1].
      intros _. cbn [snd MetadataMatch]. apply Z.eqb_eq. symmetry. apply stored_count; [done|]. unfold represents. by rewrite Ed.
  - apply Forall_cons in Hl as [[Hn Ho] Hl]. cbn [fst snd smooth_run total_weight final] in *. destruct (perform env1 o s) as [s1 a] eqn:E. destruct Hs as [Hs1 Hs]. pose proof (weight_nonneg l).
    eapply perform_counted in E as (m' & R' & C' & Hm); [|exact Ho|exact Hn|exact R|exact C|lia|exact Hs1]. cbn [fst]. eapply IH; [exact R'|exact C'|exact Hl|lia|exact Hs|exact Hc].
Qed.

End store.

(** ** Witnesses: a library that reads back the documents without fields and score *)

#[local] Instance coding_library : Library := {
  parse s :=
    match s with
    | c :: r =>
        if bool_decide (c = "{"%char) then
          (fun x : bytes * bytes * Z * bytes =>
             let '(content, id, t, title) := x in document_json (mkDocument (LexicalIndex.mkDocument id title content []) no_score 0) t) <$>
          decode (Z.to_pos (digits_val 10 r))
        else None
    | [] => None
    end;
  dump j :=
    match j with
    | JObject [(_, JString content); (_, JObject []); (_, JString id); (_, JFloat _); (_, JUnsigned t); (_, JString title)] =>
        "{"%char :: to_string (Zpos (encode (content, id, t, title)))
    | _ => []
    end;
  sin := fun d => d; cos := fun d => d; atan2 := fun d _ => d; get_time := fun _ => None
}.

Definition simple (id title : bytes) (t : Z) : Document := mkDocument (LexicalIndex.mkDocument id title #"x" []) no_score t.

Lemma simple_reads_back id title t : reads_back (simple id title t).
Proof.
  intros t' Ht. split; [|by eexists]. unfold document_json, simple, dump, parse, coding_library. cbn [json_strings ordered foldl fmap list_fmap ID Text LexicalIndex.Content LexicalIndex.Fields LexicalIndex.Title LexicalIndex.ID Score].
  rewrite bool_decide_true by done. destruct (to_string_value (Zpos (encode (#"x", id, t', title)))) as (_ & -> & _); [lia|]. cbn [Z.to_pos]. by rewrite decode_encode.
Qed.

Lemma simple_storable id title t : bool_decide (id <> []) = true -> bool_decide (":"%char ∉ id) = true -> 0 <= t < 2 ^ 64 -> storable (simple id title t).
Proof.
  intros H1%bool_decide_eq_true H2%bool_decide_eq_true Ht. split; [by split|]. split; [apply simple_reads_back|]. by split.
Qed.

Definition an_env : Env :=
  mkEnv 5000 7 (fun _ _ => #"und") (fun _ => #"und") false
    (LexicalIndex.mkEnv 0 (LexicalIndex.mkBoosts no_score no_score no_score no_score) (fun _ => 0) (fun _ => true) (fun _ => None) (fun _ _ _ => NUL) true).

#[local] Existing Instances SegmentsProps.map_store SegmentsProps.map_store_laws.

#[local] Instance a_database : Database (PlainStore (gmap bytes bytes)) := plain_database (Segments.mkOptions 2 0) (Segments.mkEnv 1 (fun _ => 0) (fun _ => 0)).

#[local] Instance a_database_laws : DatabaseLaws (PlainStore (gmap bytes bytes)).
Proof. apply _. Qed.

Definition new_store : HybridStorageManager (PlainStore (gmap bytes bytes)) :=
  mkStore (mkPlain ∅ [] []) ∅ ∅ [] false ∅ ∅ LexicalIndex.empty_index SearchCache.initial 0.

Definition a_session : list (Env * op) :=
  [(an_env, OpAdd #"books" (simple #"1" #"a" 0)); (an_env, OpBatch #"books" [simple #"2" #"b" 9; simple #"1" #"c" 3] false);
   (an_env, OpDelete #"books" #"2"); (an_env, OpGet #"books" #"1"); (an_env, OpList #"books" 10 0); (an_env, OpCount #"books")].

Lemma clean_dec s : bool_decide (s <> []) && bool_decide (":"%char ∉ s) = true -> clean s.
Proof. intros [H1%bool_decide_eq_true H2%bool_decide_eq_true]%andb_true_iff. by split. Qed.

Lemma a_session_ok : Forall (fun x : Env * op => clock_ok x.1 /\ op_ok x.2) a_session.
Proof.
  unfold a_session. repeat (apply Forall_cons; split; [split; [split; reflexivity|]|]); [..|apply Forall_nil_2]; cbn [fst snd op_ok].
  - split; [by apply clean_dec|]. by apply simple_storable.
  - split; [by apply clean_dec|]. repeat (apply Forall_cons; split; [by apply simple_storable|]). apply Forall_nil_2.
  - split; by apply clean_dec.
  - split; by apply clean_dec.
  - by apply clean_dec.
  - by apply clean_dec.
Qed.


Lemma counters_exact_witness : (GetCollectionDocumentCount an_env #"books" (final a_session new_store)).2 = CountStoredDocuments #"books" (final a_session new_store).
Proof.
  refine (proj1 (counters_exact a_session new_store ∅ an_env #"books" readable_empty _ a_session_ok _ _ _)).
  - split; [by intros c now _|by intros c x _].
  - apply Z.ltb_lt. vm_compute. reflexivity.
  - vm_compute. repeat split; congruence.
  - by apply clean_dec.
Defined.

End DocumentStoreProps.
