(* ===== verification/LexicalSearch.v ===== *)
(** * LexicalSearch: ProcessLexicalSearch of src/api/lexical.cpp

    How a lexical query is planned, looked up in the inverted index, checked against the
    stored documents, and answered from a scan of the collection when the index cannot be
    used. What the search reads of other components is [Env]: listings and documents of the
    store (DocumentStore), postings of the index engine, synonyms and stopwords for a text
    (the snapshots of LexicalCache), readings of the state of the index after the wait for
    it (which has no other effect), settings, [exp], the clock, and whether a scan is out of
    time at its n-th batch. The order of equal scores, which [std::sort] leaves open, is
    that of a stable sort; the iteration order of the hash table of postings is that of the
    map. Debug messages are left out. *)

From Stdlib Require Import SpecFloat.
From S2P Require Import Prelude CText StdMap DocValues LexicalTerms LexicalIndex MMapIndex ResultShaping QueryMatch LexicalCache DocumentStore.
Import QueryMatch.

Module LexicalSearch.

Abbreviation Stored := DocumentStore.Document.

Abbreviation Hit := ResultShaping.SearchHit.

(** ** The query and what the search reads *)

Record SearchQuery := mkQuery {
  Q : bytes; QueryBy : list bytes; PerPage : Z; Page : Z; Offset : Z; PostProcessing : bool; ExhaustiveSearch : bool; InlineFuzzy : bool;
  CaseSensitive : bool; Prefix : bool; DropTokensThreshold : Z; EnableSynonyms : bool; EnableStopwords : bool; NumTypos : Z; NumTyposExplicit : bool;
  TypoTokensThreshold : Z; AllowScanFallback : bool; PrioritizeExactMatch : bool; TermBoosts : list (bytes * double); Highlight : bool
}.

Record Env := mkEnv {
  ListDocuments : Z -> Z -> list Stored;
  GetDocument : bytes -> Stored;
  DocumentCount : Z;
  StoredCount : Z;
  Config : option (gmap bytes bytes);
  IndexingAtStart : bool;
  Indexing : bool;
  IndexComplete : Z -> bool;
  InMemory : bool;
  IndexSearch : bytes -> Z -> list bytes -> list MMapIndex.Posting;
  Resources : bytes -> LexicalCache.LexicalResourceSnapshot;
  ExactMatchBoost : double;
  TitleExactBoost : double;
  RequireExactIdentifierTokens : bool;
  exp : double -> double;
  NowMs : Z;
  OutOfTime : nat -> bool;
  OutOfTimeAgain : nat -> bool
}.

(** ** Hits *)

Definition one_double : double := DocValues.of_Z 1.

(** [CalculateRecencyDecay] and [CalculateWeight] of src/api/utils.cpp. *)

Definition day_ms : double := DocValues.mul (DocValues.mul (DocValues.mul (DocValues.of_Z 1000) (DocValues.of_Z 60)) (DocValues.of_Z 60)) (DocValues.of_Z 24).

Definition CalculateRecencyDecay (env : Env) (document : list (bytes * bytes)) : spec_float :=
  match StdMap.find #"timestamp" document ≫= stoull with
  | None => ResultShaping.one_float
  | Some (TS, _) =>
      if NowMs env <=? TS then ResultShaping.one_float
      else MMapIndex.to_float32 (exp env (DocValues.mul (DocValues.literal (-1) (-2)) (DocValues.div (DocValues.of_Z (NowMs env - TS)) day_ms)))
  end.

Definition CalculateWeight (env : Env) (document : list (bytes * bytes)) : spec_float :=
  SFmul 24 128 ResultShaping.one_float (CalculateRecencyDecay env document).

Definition hit_document (doc : Stored) : list (bytes * bytes) :=
  let t := DocumentStore.Text doc in
  foldl (fun d (f : bytes * bytes) => StdMap.put f.1 f.2 d)
    (StdMap.put #"timestamp" (to_string (DocumentStore.Timestamp doc)) (StdMap.put #"score" (DocValues.fixed6 (DocumentStore.Score doc))
      (StdMap.put #"content" (LexicalIndex.Content t) (StdMap.put #"title" (LexicalIndex.Title t) [(#"id", LexicalIndex.ID t)]))))
    (LexicalIndex.Fields t).

Definition zero_float : spec_float := S754_zero false.

Definition make_hit (env : Env) (doc : Stored) (score : spec_float) (highlights : list (bytes * bytes)) : Hit :=
  let d := hit_document doc in ResultShaping.mkHit d score zero_float zero_float (CalculateWeight env d) highlights [] 0.

(** ** Highlighting *)

(** The first of the terms in a text, the longest of those that begin together. *)

Definition better (a b : option (nat * nat)) : option (nat * nat) :=
  match a, b with
  | None, b => b
  | a, None => a
  | Some (p, n), Some (p', n') => if (p' <? p)%nat || ((p' =? p)%nat && (n <? n')%nat) then b else a
  end.

Definition find_term (shown term : bytes) : option (nat * nat) :=
  if bool_decide (term = []) then None else (fun p => (p, length term)) <$> find_sub term shown.

Definition best_match (terms : list bytes) (shown : bytes) : option (nat * nat) := foldl (fun b term => better b (find_term shown term)) None terms.

Fixpoint highlight (fuel : nat) (terms : list bytes) (text shown : bytes) : bytes :=
  match fuel with
  | O => text
  | S fuel =>
      match best_match terms shown with
      | None => text
      | Some (p, n) =>
          take p text ++ #"<em>" ++ take n (drop p text) ++ #"</em>" ++ highlight fuel terms (drop (p + n) text) (drop (p + n) shown)
      end
  end.

Definition HighlightTermsSimple (case_sensitive : bool) (text : bytes) (terms : list bytes) : bytes :=
  if bool_decide (text = []) || bool_decide (terms = []) then text
  else highlight (length text) terms text (if case_sensitive then text else LexicalTerms.ToLowerCopy text).

Section search.
  Context (env : Env) (q : SearchQuery).

(** ** Planning *)

Definition HasRequestedQueryFields (query_by : list bytes) : bool := negb (bool_decide (query_by = [])).

Definition query_fields : list bytes := if HasRequestedQueryFields (QueryBy q) then QueryBy q else [].

Definition ParsedExpression : ParsedQueryExpression := ParseStructuredQueryExpression (CaseSensitive q) (Q q).

Definition structured : bool := UsesStructuredSemantics ParsedExpression.

Definition quoted_phrases : list bytes := ExtractQuotedPhrases (CaseSensitive q) (Q q).

Definition int_max : Z := 2 ^ 31 - 1.

(** Documents of a query for everything. *)

Definition RequestedLimit : Z :=
  let limit :=
    if 0 <? PerPage q then
      if 0 <? Offset q then Z.min int_max (Offset q + PerPage q)
      else if 1 <? Page q then Z.min int_max (Page q * PerPage q)
      else PerPage q
    else int_max in
  if PostProcessing q then Z.max limit (Z.min (DocumentCount env) 10000) else limit.

Definition SafePerPage : Z := if (0 <? PerPage q) && (PerPage q <=? 1000) then PerPage q else 100.

Definition RequiredRows : Z :=
  Z.max (if 0 <? Offset q then Offset q + SafePerPage else if 1 <? Page q then Page q * SafePerPage else SafePerPage) (SafePerPage * 10).

Definition SearchLimit : Z :=
  let limit := if ExhaustiveSearch q then 10000 else Z.min 10000 RequiredRows in
  if bool_decide (quoted_phrases = []) then limit else Z.max limit (Z.min 10000 RequiredRows).

Definition exact_keyword_query : bool :=
  negb structured && negb (InlineFuzzy q) && match Config env with Some fields => QueriesOnlyKeywordFields fields (QueryBy q) | None => false end.

Definition collection_docs : Z :=
  if (DocumentCount env =? 0) || IndexingAtStart env then Z.max (DocumentCount env) (StoredCount env) else DocumentCount env.

Definition candidates : list bytes := BuildCandidateQueriesFromParsedExpression ParsedExpression.

Definition expanded (text : bytes) : list bytes :=
  if LexicalCache.is_trivial text then [text]
  else LexicalCache.expansion (LexicalCache.mkQuery [] text (EnableSynonyms q) (EnableStopwords q)) (Resources env text).

Definition QueryVariants : list bytes :=
  sort_unique
    (if exact_keyword_query then [Q q]
     else if structured then candidates
     else BuildRelaxedQueryVariants (CaseSensitive q) (Q q) (DropTokensThreshold q) ≫= fun seed => if CaseSensitive q then [seed] else expanded seed).

(** The posting of each document with the highest score, the first of equals. *)

Definition keep_best (m : gmap bytes MMapIndex.Posting) (p : MMapIndex.Posting) : gmap bytes MMapIndex.Posting :=
  match m !! MMapIndex.DocumentID p with
  | Some old => if SFltb (MMapIndex.Score old) (MMapIndex.Score p) then <[MMapIndex.DocumentID p := p]> m else m
  | None => <[MMapIndex.DocumentID p := p]> m
  end.

Definition Postings : list MMapIndex.Posting :=
  (map_to_list (foldl keep_best ∅
    (QueryVariants ≫= fun v => IndexSearch env (BuildIndexQueryForSearch v (Prefix q && negb exact_keyword_query)) SearchLimit query_fields))).*2.

Definition normalized_query_for_boost : bytes :=
  let normalized_query := cased (CaseSensitive q) (StripQuotes (TrimWhitespace (Q q))) in
  cased (CaseSensitive q) (TrimWhitespace (StripWildcardChars normalized_query)).

Definition base_query_terms : list bytes := ExtractTermsSimple (CaseSensitive q) (Q q).

Definition variant_terms : list (list bytes) :=
  let l := List.filter (fun t => negb (bool_decide (t = []))) (ExtractTermsSimple (CaseSensitive q) <$> QueryVariants) in
  if bool_decide (l = []) && negb (bool_decide (base_query_terms = [])) && negb (EnableStopwords q && bool_decide (QueryVariants = []))
  then [base_query_terms] else l.

Definition effective_max_typos : Z :=
  if negb exact_keyword_query && (0 <? NumTypos q) && negb (bool_decide (base_query_terms = [])) &&
     (negb (RequireExactIdentifierTokens env) || NumTyposExplicit q || negb (existsb IsIdentifierLikeTermSimple base_query_terms)) &&
     (wrap_int32 (size base_query_terms) <=? TypoTokensThreshold q)
  then NumTypos q else 0.

Definition needs_typo_scan_fallback : bool :=
  NumTyposExplicit q && (0 <? effective_max_typos) && (bool_decide (Postings = []) || InlineFuzzy q) && negb (bool_decide (variant_terms = [])).

Definition prefer_storage_scan_while_indexing : bool := (Indexing env || negb (IndexComplete env collection_docs)) && (0 <? collection_docs).

Definition needs_zero_hit_storage_fallback : bool :=
  AllowScanFallback q && bool_decide (Postings = []) && (0 <? collection_docs) && negb (bool_decide (variant_terms = [])).

Definition force_structured_scan : bool := structured && bool_decide (QueryVariants = []).

Definition scans : bool :=
  let forced := prefer_storage_scan_while_indexing || force_structured_scan || needs_typo_scan_fallback in
  (AllowScanFallback q || forced || needs_zero_hit_storage_fallback) &&
  (bool_decide (Postings = []) || forced) && (negb (InMemory env) || needs_zero_hit_storage_fallback || forced).

(** ** Matching a document *)

Definition field_values (doc : Stored) : list (bytes * bytes) :=
  AppendRequestedFieldValues (CaseSensitive q || exact_keyword_query) (DocumentStore.Text doc) query_fields.

Definition phrases_match (doc : Stored) : bool :=
  structured || bool_decide (quoted_phrases = []) || AllQuotedPhrasesMatchRequestedFields (field_values doc) quoted_phrases.

Definition satisfies_expression (allow_prefix : bool) (typos : Z) (doc : Stored) : bool :=
  EvaluateParsedQueryExpression (mkMode allow_prefix typos (CaseSensitive q)) (DocumentStore.Text doc) query_fields ParsedExpression.

(** The number of matched terms of a document of a scan that matches. *)

Definition scan_match (doc : Stored) : option Z :=
  let allow_prefix := Prefix q && negb exact_keyword_query in
  let (query_matches, matched_terms) :=
    if structured then (satisfies_expression allow_prefix effective_max_typos doc, 0)
    else if exact_keyword_query then (KeywordFieldMatchesExact true (field_values doc) (Q q), 0)
    else MatchesAnyQueryVariant (mkMode allow_prefix effective_max_typos (CaseSensitive q)) (field_values doc) variant_terms 0 in
  if query_matches && phrases_match doc then Some matched_terms else None.

(** Whether a document that the index found matches. *)

Definition posting_match (doc : Stored) : bool :=
  (if structured then satisfies_expression (Prefix q) effective_max_typos doc
   else if exact_keyword_query then KeywordFieldMatchesExact true (field_values doc) (Q q)
   else bool_decide (variant_terms = []) || (MatchesAnyQueryVariant (mkMode (Prefix q) effective_max_typos (CaseSensitive q)) (field_values doc) variant_terms 0).1) &&
  phrases_match doc.

(** ** Scores *)

Definition match_boost (doc : Stored) : double :=
  CalculateRequestedFieldExactMatchBoost (CaseSensitive q) (DocumentStore.Text doc) query_fields normalized_query_for_boost (ExactMatchBoost env) (TitleExactBoost env).

Definition scaled (score : spec_float) (boost : double) : spec_float := MMapIndex.to_float32 (DocValues.mul (MMapIndex.to_double score) boost).

Definition boosts_exact : bool := PrioritizeExactMatch q && negb (bool_decide (normalized_query_for_boost = [])).

Definition with_term_boost (doc : Stored) (score : spec_float) : spec_float :=
  let b := CalculateInlineTermBoost (CaseSensitive q) (DocumentStore.Text doc) query_fields (TermBoosts q) in
  if SFeqb b one_double then score else scaled score b.

Definition scan_score (doc : Stored) (matched_terms : Z) : spec_float :=
  let score := MMapIndex.to_float32 (DocValues.of_Z matched_terms) in
  with_term_boost doc (if boosts_exact then scaled score (match_boost doc) else score).

Definition posting_score (doc : Stored) (p : MMapIndex.Posting) : spec_float :=
  let score := MMapIndex.to_float32 (MMapIndex.Score p) in
  with_term_boost doc (if boosts_exact && SFltb one_double (match_boost doc) then scaled score (match_boost doc) else score).

Definition highlights (doc : Stored) : list (bytes * bytes) :=
  if negb (Highlight q) then []
  else
    let t := DocumentStore.Text doc in
    let terms := match BuildHighlightTermsForSearch (CaseSensitive q) (Q q) with [] => base_query_terms | l => l end in
    let one d (f : bytes * bytes) :=
      if bool_decide (f.2 = []) || (HasRequestedQueryFields (QueryBy q) && negb (bool_decide (f.1 ∈ QueryBy q))) then d
      else StdMap.put f.1 (HighlightTermsSimple (CaseSensitive q) f.2 terms) d in
    foldl one [] ((#"title", LexicalIndex.Title t) :: (#"content", LexicalIndex.Content t) :: LexicalIndex.Fields t).

(** ** Scans *)

Definition scan_batch : Z := 200.

(** The documents of a batch until the scan is full. *)

Fixpoint scan_docs (full : Z -> Z -> bool) (test : Stored -> option Hit) (docs : list Stored) (scanned : Z) (Hits : list Hit) : Z * list Hit :=
  match docs with
  | [] => (scanned, Hits)
  | doc :: r => if full scanned (size Hits) then (scanned, Hits) else scan_docs full test r (scanned + 1) (Hits ++ option_list (test doc))
  end.

Fixpoint scan (fuel : nat) (full : Z -> Z -> bool) (past_deadline : nat -> bool) (test : Stored -> option Hit) (n : nat) (offset scanned : Z) (Hits : list Hit) : option (list Hit) :=
  match fuel with
  | O => None
  | S fuel =>
      if full scanned (size Hits) then Some Hits
      else if past_deadline n then Some Hits
      else match ListDocuments env scan_batch offset with
           | [] => Some Hits
           | docs => let (scanned, Hits) := scan_docs full test docs scanned Hits in scan fuel full past_deadline test (S n) (offset + scan_batch) scanned Hits
           end
  end.

Definition by_score (a b : Hit) : Prop := SFltb (ResultShaping.TextMatch a) (ResultShaping.TextMatch b) = false.

#[local] Instance by_score_dec a b : Decision (by_score a b).
Proof. unfold by_score. apply _. Defined.

Definition sort_hits (l : list Hit) : list Hit := merge_sort by_score l.

(** A structured query without a term to look up. *)

Definition requested_limit : Z := if 0 <? PerPage q then Z.min (PerPage q) 1000 else 100.

Definition expression_hit (doc : Stored) : option Hit :=
  if satisfies_expression (Prefix q && negb exact_keyword_query) 0 doc then Some (make_hit env doc ResultShaping.one_float []) else None.

Definition scan_expression (fuel : nat) : option (list Hit) :=
  scan fuel (fun _ n => requested_limit <=? n) (fun _ => false) expression_hit 0 0 0 [].

Definition scan_hit (doc : Stored) : option Hit :=
  (fun matched_terms => make_hit env doc (scan_score doc matched_terms) (highlights doc)) <$> scan_match doc.

Definition require_complete_scan : bool := prefer_storage_scan_while_indexing || ExhaustiveSearch q || needs_zero_hit_storage_fallback.

Definition max_scan_docs : Z :=
  if 0 <? collection_docs then if require_complete_scan then collection_docs else Z.min collection_docs 10000
  else if ExhaustiveSearch q || needs_zero_hit_storage_fallback then 50000 else 10000.

Definition max_scan_iterations : Z := Z.max 5 (max_scan_docs / scan_batch + 4).

Definition scan_storage (fuel : nat) : option (list Hit) :=
  match variant_terms with
  | [] => Some []
  | _ =>
      sort_hits <$> scan fuel (fun scanned n => (max_scan_docs <=? scanned) || (SearchLimit <=? n))
                      (fun n => (max_scan_iterations <? Z.of_nat n + 1) || OutOfTime env n) scan_hit 0 0 0 []
  end.

Definition posting_hit (p : MMapIndex.Posting) : option Hit :=
  let doc := GetDocument env (MMapIndex.DocumentID p) in
  if negb (bool_decide (DocumentStore.ID doc = [])) && posting_match doc then Some (make_hit env doc (posting_score doc p) []) else None.

Definition fallback_hit (doc : Stored) : option Hit :=
  (fun matched_terms => make_hit env doc (MMapIndex.to_float32 (DocValues.of_Z (Z.max 1 matched_terms))) []) <$> scan_match doc.

Definition fallback_scan (fuel : nat) : option (list Hit) :=
  sort_hits <$> scan fuel (fun scanned n => (collection_docs <=? scanned) || (SearchLimit <=? n)) (OutOfTimeAgain env) fallback_hit 0 0 0 [].

Definition search_index (fuel : nat) : option (list Hit) :=
  match omap posting_hit Postings with
  | [] => if AllowScanFallback q && (0 <? collection_docs) && negb (bool_decide (variant_terms = [])) then fallback_scan fuel else Some []
  | Hits => Some Hits
  end.

Definition all_documents : list Hit := (fun doc => make_hit env doc ResultShaping.one_float []) <$> ListDocuments env RequestedLimit 0.

(** [None] is a scan that takes more than [fuel] batches. *)

Definition ProcessLexicalSearch (fuel : nat) : option (list Hit) :=
  if bool_decide (Q q = []) then Some []
  else if bool_decide (Q q = #"*") then Some all_documents
  else if structured && bool_decide (candidates = []) then scan_expression fuel
  else if scans then scan_storage fuel
  else search_index fuel.

End search.

End LexicalSearch.
