(* ===== verification/LexicalSearchProps.v ===== *)
(** * LexicalSearchProps: what a lexical search answers

    Every hit is a stored document that satisfies the query, whatever the index answered;
    and a search is, batches, iteration limits and early stops apart, the filter of the
    documents of the collection (or of the postings of the index) in the order of their
    scores. *)

From Stdlib Require Import SpecFloat.
From S2P Require Import Prelude CText StdMap DocValues RocksStore LexicalTerms LexicalIndex MMapIndex ResultShaping QueryMatch LexicalCache DocumentStore DocumentStoreProps LexicalSearch.
Import QueryMatch LexicalSearch.

Module LexicalSearchProps.

(** ** Scans *)

Section scans.
  Context (env : Env) (full : Z -> Z -> bool) (test : Stored -> option Hit).

Lemma scan_docs_elem docs scanned Hits s' Hits' h : scan_docs full test docs scanned Hits = (s', Hits') -> h ∈ Hits' ->
  h ∈ Hits \/ exists doc, doc ∈ docs /\ test doc = Some h.
Proof.
  revert scanned Hits. induction docs as [|doc docs IH]; cbn [scan_docs]; intros scanned Hits.
  - intros [= <- <-]. auto.
  - case_match; [intros [= <- <-]; auto|]. intros E Hh. destruct (IH _ _ E Hh) as [Hin|(d & Hd & T)].
    + apply elem_of_app in Hin as [?|Hin]; [auto|]. right. exists doc. split; [left|]. destruct (test doc) as [x|]; cbn in Hin; [|by apply elem_of_nil in Hin].
      apply list_elem_of_singleton in Hin. by subst.
    + right. exists d. split; [by right|done].
Qed.

Lemma scan_elem fuel past_deadline n offset scanned Hits Hits' h : scan env fuel full past_deadline test n offset scanned Hits = Some Hits' -> h ∈ Hits' ->
  h ∈ Hits \/ exists doc limit off, doc ∈ ListDocuments env limit off /\ test doc = Some h.
Proof.
  revert n offset scanned Hits. induction fuel as [|fuel IH]; intros n offset scanned Hits; cbn [scan]; [done|].
  case_match; [intros [= <-]; auto|]. case_match; [intros [= <-]; auto|].
  destruct (ListDocuments env scan_batch offset) as [|d docs] eqn:L; [intros [= <-]; auto|].
  destruct (scan_docs full test (d :: docs) scanned Hits) as [s' Hits1] eqn:S. intros E Hh.
  destruct (IH _ _ _ _ E Hh) as [Hin|?]; [|auto]. destruct (scan_docs_elem _ _ _ _ _ _ S Hin) as [?|(doc & Hd & T)]; [auto|].
  right. exists doc, scan_batch, offset. by rewrite L.
Qed.

Lemma scan_docs_full docs scanned Hits : full scanned (size Hits) = true -> scan_docs full test docs scanned Hits = (scanned, Hits).
Proof. destruct docs; cbn [scan_docs]; [done|]. by intros ->. Qed.

Lemma scan_docs_app a b scanned Hits :
  scan_docs full test (a ++ b) scanned Hits = let (s', Hits') := scan_docs full test a scanned Hits in scan_docs full test b s' Hits'.
Proof.
  revert scanned Hits. induction a as [|doc a IH]; intros scanned Hits; cbn [scan_docs app]; [done|].
  case_match eqn:F; [by rewrite scan_docs_full|]. apply IH.
Qed.

(** A batch is taken whole unless the scan is full after it. *)

Lemma scan_docs_counts docs scanned Hits s' Hits' : scan_docs full test docs scanned Hits = (s', Hits') -> full s' (size Hits') = false -> s' = scanned + size docs.
Proof.
  unfold size. revert scanned Hits. induction docs as [|doc docs IH]; intros scanned Hits; cbn [scan_docs length].
  - intros [= <- <-] _. lia.
  - case_match eqn:F; [intros [= <- <-]; unfold size in F; congruence|]. intros E F'. rewrite (IH _ _ E F'). lia.
Qed.

(** The batches of a fixed collection are those of one pass over it. *)

Definition paged (docs : list Stored) : Prop :=
  forall offset, 0 <= offset -> ListDocuments env scan_batch offset = RocksStore.page (Z.to_nat offset) (Z.to_nat scan_batch) docs.

Context (D L : Z).

Definition limited (docs : list Stored) : Prop := forall scanned n, 0 <= scanned <= size docs -> full scanned n = (D <=? scanned) || (L <=? n).

Lemma scan_pass docs past_deadline : paged docs -> limited docs -> (forall n, scan_batch * (Z.of_nat n - 1) < D -> past_deadline n = false) ->
  forall fuel n scanned Hits,
  (1 <= fuel)%nat -> (length docs <= 200 * (n + fuel - 1))%nat -> scan_batch * (Z.of_nat n - 1) < Z.max 0 (size docs) -> 0 <= scanned <= size docs ->
  full scanned (size Hits) = true \/ scanned = Z.min (scan_batch * Z.of_nat n) (size docs) ->
  scan env fuel full past_deadline test n (scan_batch * Z.of_nat n) scanned Hits = Some (scan_docs full test (drop (200 * n) docs) scanned Hits).2.
Proof.
  intros P Lm G. unfold scan_batch, size in *. induction fuel as [|fuel IH]; [lia|]. intros n scanned Hits _ Hf Hn Hs Inv. cbn [scan]. unfold size.
  destruct (full scanned (Z.of_nat (length Hits))) eqn:F; [by rewrite (scan_docs_full _ _ _ F)|]. destruct Inv as [?|Inv]; [congruence|].
  rewrite Lm in F by (unfold size; lia). apply orb_false_iff in F as [F1%Z.leb_gt F2]. rewrite G by lia.
  rewrite P by (unfold scan_batch; lia). unfold RocksStore.page, scan_batch. change (Z.to_nat 200 =? 0)%nat with false. cbn iota.
  replace (Z.to_nat (200 * Z.of_nat n)) with (200 * n)%nat by lia.
  destruct (take (Z.to_nat 200) (drop (200 * n) docs)) as [|d b] eqn:B.
  - apply (f_equal length) in B. rewrite length_take, length_drop in B. cbn in B. rewrite drop_ge by lia. done.
  - assert (drop (200 * n) docs = (d :: b) ++ drop (200 * S n) docs) as ->.
    { rewrite <- B. replace (200 * S n)%nat with (200 * n + Z.to_nat 200)%nat by lia. by rewrite <- drop_drop, take_drop. }
    assert (length (d :: b) = Nat.min 200 (length docs - 200 * n)) as Lb by (rewrite <- B, length_take, length_drop; lia).
    rewrite scan_docs_app. destruct (scan_docs full test (d :: b) scanned Hits) as [s' Hits'] eqn:S.
    assert (scanned <= s' <= scanned + Z.of_nat (length (d :: b))) as Hs'.
    { clear -S. revert scanned Hits S. generalize (d :: b) as l. induction l as [|x l IHl]; intros scanned Hits; cbn [scan_docs length]; [intros [= <- <-]; lia|].
      case_match; [intros [= <- <-]; lia|]. intros S%IHl. lia. }
    cbn [length] in *. replace (200 * Z.of_nat n + 200) with (200 * Z.of_nat (Datatypes.S n)) by lia. apply IH; [lia..|].
    destruct (full s' (Z.of_nat (length Hits'))) eqn:F'; [by left|right]. pose proof (scan_docs_counts _ _ _ _ _ S F') as E. unfold size in E. cbn [length] in E. lia.
Qed.

(** One pass is a filter with limits. *)

Lemma scan_docs_filter docs scanned Hits (all : list Stored) : limited all -> 0 <= scanned -> scanned + size docs <= size all ->
  (scan_docs full test docs scanned Hits).2 = Hits ++ take (Z.to_nat (L - size Hits)) (omap test (take (Z.to_nat (D - scanned)) docs)).
Proof.
  intros Lm. unfold size. revert scanned Hits. induction docs as [|doc docs IH]; intros scanned Hits H0 H1; cbn [scan_docs length] in *.
  - rewrite take_nil. cbn [omap list_omap]. by rewrite take_nil, app_nil_r.
  - unfold size. rewrite Lm by (unfold size; lia). destruct (Z.leb_spec D scanned).
    { cbn [orb]. replace (Z.to_nat (D - scanned)) with 0%nat by lia. rewrite take_0. cbn [omap list_omap]. by rewrite take_nil, app_nil_r. }
    destruct (Z.leb_spec L (Z.of_nat (length Hits))).
    { cbn [orb snd]. replace (Z.to_nat (L - Z.of_nat (length Hits))) with 0%nat by lia. by rewrite take_0, app_nil_r. }
    cbn [orb]. rewrite IH by lia. replace (Z.to_nat (D - scanned)) with (S (Z.to_nat (D - (scanned + 1)))) by lia. cbn [take omap list_omap].
    destruct (test doc) as [h|]; cbn [option_list]; [|by rewrite app_nil_r]. rewrite length_app. cbn [length].
    replace (Z.to_nat (L - Z.of_nat (length Hits))) with (S (Z.to_nat (L - Z.of_nat (length Hits + 1)))) by lia. cbn [take]. by rewrite <- app_assoc.
Qed.

Lemma scan_exact docs past_deadline fuel : paged docs -> limited docs -> (forall n, scan_batch * (Z.of_nat n - 1) < D -> past_deadline n = false) ->
  (length docs <= 200 * (fuel - 1))%nat -> (1 <= fuel)%nat ->
  scan env fuel full past_deadline test 0 0 0 [] = Some (take (Z.to_nat L) (omap test (take (Z.to_nat D) docs))).
Proof.
  intros P Lm G Hf H1. change 0 with (scan_batch * Z.of_nat 0) at 1. rewrite (scan_pass docs past_deadline P Lm G) by (unfold scan_batch, size; lia).
  rewrite drop_0. rewrite (scan_docs_filter docs 0 [] docs) by (try done; unfold size; lia). unfold size. cbn. by rewrite !Z.sub_0_r.
Qed.

End scans.


Section search.
  Context (env : Env) (q : SearchQuery).

(** ** Soundness *)

(** The documents that the store gave to the search. *)

Definition listed (doc : Stored) : Prop := exists limit offset, doc ∈ ListDocuments env limit offset.

Definition fetched (doc : Stored) : Prop := exists id, doc = GetDocument env id /\ DocumentStore.ID doc <> [].

(** A document satisfies a query: all the clauses of a group of a structured one; the
    keyword itself; or all the terms of a variant; and its quoted phrases. *)

Definition satisfies (doc : Stored) : Prop :=
  if structured q then satisfies_expression q (Prefix q) (if bool_decide (candidates q = []) then 0 else effective_max_typos env q) doc = true
  else
    (quoted_phrases q = [] \/ AllQuotedPhrasesMatchRequestedFields (field_values env q doc) (quoted_phrases q) = true) /\
    if exact_keyword_query env q then KeywordFieldMatchesExact true (field_values env q doc) (Q q) = true
    else (MatchesAnyQueryVariant (mkMode (Prefix q) (effective_max_typos env q) (CaseSensitive q)) (field_values env q doc) (variant_terms env q) 0).1 = true.

(** A query without a term to match (all of them stopwords, or only punctuation) leaves
    the choice to the index. *)

Definition left_to_index (doc : Stored) : Prop :=
  structured q = false /\ variant_terms env q = [] /\ fetched doc /\ exists p, p ∈ Postings env q /\ doc = GetDocument env (MMapIndex.DocumentID p).

Lemma structured_not_exact : structured q = true -> exact_keyword_query env q = false.
Proof. unfold exact_keyword_query. by intros ->. Qed.

Lemma phrases_match_spec doc : structured q = false -> phrases_match env q doc = true ->
  quoted_phrases q = [] \/ AllQuotedPhrasesMatchRequestedFields (field_values env q doc) (quoted_phrases q) = true.
Proof. unfold phrases_match. intros -> [H%bool_decide_eq_true|H]%orb_true_iff; auto. Qed.

Lemma scan_match_satisfies doc n : (structured q && bool_decide (candidates q = [])) = false -> scan_match env q doc = Some n -> satisfies doc.
Proof.
  unfold scan_match, satisfies. intros C. destruct (structured q) eqn:S.
  - rewrite structured_not_exact by done. rewrite andb_true_r. cbn [andb] in C. rewrite C. by destruct (satisfies_expression _ _ _ _).
  - destruct (exact_keyword_query env q) eqn:X; [|rewrite andb_true_r].
    + destruct (KeywordFieldMatchesExact _ _ _); [|done]. destruct (phrases_match env q doc) eqn:P; [|done]. intros _. split; [|done]. by apply phrases_match_spec.
    + destruct (MatchesAnyQueryVariant _ _ _ _) as [[] k]; [|done]. destruct (phrases_match env q doc) eqn:P; [|done]. intros _. split; [|done]. by apply phrases_match_spec.
Qed.

Lemma posting_match_satisfies doc : (structured q && bool_decide (candidates q = [])) = false -> posting_match env q doc = true ->
  satisfies doc \/ (structured q = false /\ variant_terms env q = []).
Proof.
  unfold posting_match, satisfies. intros C [M P]%andb_true_iff. destruct (structured q) eqn:S.
  - cbn [andb] in C. rewrite C. by left.
  - apply phrases_match_spec in P; [|done]. destruct (exact_keyword_query env q) eqn:X; [by left|].
    apply orb_true_iff in M as [M%bool_decide_eq_true|M]; [by right|by left].
Qed.

Definition justified (h : Hit) : Prop :=
  exists doc, ResultShaping.Document h = hit_document doc /\ (listed doc \/ fetched doc) /\ (Q q = #"*" \/ satisfies doc \/ left_to_index doc).

Lemma sort_hits_elem h l : h ∈ sort_hits l <-> h ∈ l.
Proof. unfold sort_hits. by rewrite merge_sort_Permutation. Qed.

Lemma scan_justified full past_deadline test fuel Hits h :
  (forall doc x, listed doc -> test doc = Some x -> justified x) -> scan env fuel full past_deadline test 0 0 0 [] = Some Hits -> h ∈ Hits -> justified h.
Proof.
  intros T E Hh. destruct (scan_elem _ _ _ _ _ _ _ _ _ _ _ E Hh) as [Hn|(doc & limit & off & Hd & E')]; [by apply elem_of_nil in Hn|].
  eapply T; [|exact E']. by exists limit, off.
Qed.

Lemma scan_test_justified (score : Stored -> Z -> spec_float) (hl : Stored -> list (bytes * bytes)) : (structured q && bool_decide (candidates q = [])) = false ->
  forall doc x, listed doc -> (fun n => make_hit env doc (score doc n) (hl doc)) <$> scan_match env q doc = Some x -> justified x.
Proof.
  intros C doc x Hd. destruct (scan_match env q doc) as [n|] eqn:M; [|done]. intros [= <-]. exists doc. split; [done|]. split; [by left|]. right; left. by eapply scan_match_satisfies.
Qed.

(** C12. A lexical search answers only with stored documents that satisfy the query.
    Whatever the inverted index, the listings, the synonyms and the clock answer, and
    whichever path the search takes (the query for everything, the scan of a structured
    query, the scan of the collection, the postings of the index with or without the scan
    after them), the document of each hit is one that the store listed or fetched, with a
    non-empty identifier if fetched; and it satisfies the query, unless the query has no
    terms at all and the index offered it. *)
Theorem lexical_search_sound fuel Hits h : ProcessLexicalSearch env q fuel = Some Hits -> h ∈ Hits -> justified h.
Proof.
  unfold ProcessLexicalSearch. case_bool_decide; [intros [= <-]; by intros ?%elem_of_nil|].
  case_bool_decide as Hall.
  { intros [= <-] (doc & -> & Hd)%list_elem_of_fmap. exists doc. split; [done|]. split; [left; by do 2 eexists|by left]. }
  destruct (structured q && bool_decide (candidates q = [])) eqn:C.
  { apply scan_justified. intros doc x Hd. unfold expression_hit. destruct (satisfies_expression _ _ _ _) eqn:S; [|done]. intros [= <-].
    apply andb_true_iff in C as [Hst C]. exists doc. split; [done|]. split; [by left|]. right; left. unfold satisfies. rewrite Hst, C.
    by rewrite structured_not_exact, andb_true_r in S. }
  destruct (scans env q).
  - unfold scan_storage. destruct (variant_terms env q); [intros [= <-]; by intros ?%elem_of_nil|].
    intros (found & E & ->)%fmap_Some Hh. apply (proj1 (sort_hits_elem _ _)) in Hh. exact (scan_justified _ _ _ _ _ _ (scan_test_justified _ _ C) E Hh).
  - unfold search_index. destruct (omap (posting_hit env q) (Postings env q)) as [|x l] eqn:O.
    + case_match; [|intros [= <-]; by intros ?%elem_of_nil]. intros (found & E & ->)%fmap_Some Hh. apply (proj1 (sort_hits_elem _ _)) in Hh.
      exact (scan_justified _ _ _ _ _ _ (scan_test_justified (fun _ n => MMapIndex.to_float32 (DocValues.of_Z (Z.max 1 n))) (fun _ => []) C) E Hh).
    + rewrite <- O. intros [= <-] (p & Hp & E)%list_elem_of_omap. unfold posting_hit in E.
      destruct (negb _ && _) eqn:B; [|done]. injection E as <-. apply andb_true_iff in B as [B1%negb_true_iff%bool_decide_eq_false M].
      assert (fetched (GetDocument env (MMapIndex.DocumentID p))) as F by (by eexists).
      exists (GetDocument env (MMapIndex.DocumentID p)). split; [done|]. split; [by right|]. right.
      destruct (posting_match_satisfies _ C M) as [?|[S V]]; [by left|right]. split; [done|]. split; [done|]. split; [done|]. eauto.
Qed.

(** ** The search without batches *)

Definition filtered (limit max_docs : Z) (test : Stored -> option Hit) (docs : list Stored) : list Hit :=
  take (Z.to_nat limit) (omap test (take (Z.to_nat max_docs) docs)).

Definition reference (docs : list Stored) : list Hit :=
  if bool_decide (Q q = []) then []
  else if bool_decide (Q q = #"*") then all_documents env q
  else if structured q && bool_decide (candidates q = []) then take (Z.to_nat (requested_limit q)) (omap (expression_hit env q) docs)
  else if scans env q then
    if bool_decide (variant_terms env q = []) then [] else sort_hits (filtered (SearchLimit q) (max_scan_docs env q) (scan_hit env q) docs)
  else match omap (posting_hit env q) (Postings env q) with
       | [] => if AllowScanFallback q && (0 <? collection_docs env) && negb (bool_decide (variant_terms env q = []))
               then sort_hits (filtered (SearchLimit q) (collection_docs env) (fallback_hit env q) docs) else []
       | l => l
       end.

Lemma iterations_enough n : scan_batch * (Z.of_nat n - 1) < max_scan_docs env q -> (max_scan_iterations env q <? Z.of_nat n + 1) = false.
Proof. unfold max_scan_iterations, scan_batch. intros H. apply Z.ltb_ge. Z.to_euclidean_division_equations. lia. Qed.

(** C14. Batches, their iteration limit and early stops do not change what a search finds.
    When the listings are pages of a fixed list of documents and the clock does not run
    out, every search ends, after at most one batch for each 200 documents and one more,
    and equals [reference]. A scan answers with the first matching documents of the list,
    up to the limits of documents and of hits, sorted by their scores (the scan of a
    structured query in the order of the list). A search in the index answers with all of
    its postings that pass the recheck against the stored document, in the order of the
    index, neither cut nor sorted; only when none passes it is replaced by a scan. *)
Theorem lexical_search_complete docs fuel :
  paged env docs -> (forall n, OutOfTime env n = false /\ OutOfTimeAgain env n = false) -> (length docs <= 200 * (fuel - 1))%nat -> (1 <= fuel)%nat ->
  ProcessLexicalSearch env q fuel = Some (reference docs).
Proof.
  intros P T F1 F2. unfold ProcessLexicalSearch, reference. case_bool_decide; [done|]. case_bool_decide; [done|].
  destruct (structured q && bool_decide (candidates q = [])).
  { unfold scan_expression. rewrite (scan_exact env _ _ (size docs + 1) (requested_limit q) docs (fun _ => false)); [|done| |done..].
    - by rewrite (take_ge docs) by (unfold size; lia).
    - intros scanned n Hs. by rewrite (proj2 (Z.leb_gt (size docs + 1) scanned)) by lia. }
  destruct (scans env q).
  - unfold scan_storage. destruct (variant_terms env q) as [|v r] eqn:V; [done|]. rewrite bool_decide_false by done.
    by erewrite (scan_exact env _ _ (max_scan_docs env q) (SearchLimit q) docs); try done; intros n Hn; rewrite (iterations_enough n Hn); cbn; apply T.
  - unfold search_index. destruct (omap (posting_hit env q) (Postings env q)); [|done]. case_match; [|done]. unfold fallback_scan.
    by erewrite (scan_exact env _ _ (collection_docs env) (SearchLimit q) docs); try done; intros n _; apply T.
Qed.

End search.

(** ** The listings of the document store are such pages *)

Section store.
  Context {L : DocValues.Library} {D : Type} `{RocksStore.DatabaseLaws D}.

Lemma omap_take_drop {A B} (f : A -> option B) (l : list A) n : (forall x, x ∈ l -> is_Some (f x)) ->
  omap f (take n l) = take n (omap f l) /\ omap f (drop n l) = drop n (omap f l).
Proof.
  revert n. induction l as [|x l IH]; intros n Hl; [by destruct n|]. destruct n as [|n]; [done|].
  destruct (Hl x) as [y Hy]; [by left|]. destruct (IH n) as [IH1 IH2]; [intros z Hz; apply Hl; by right|].
  cbn [take drop omap list_omap]. rewrite Hy. cbn [take drop]. by rewrite <- IH1.
Qed.

Lemma omap_page {A B} (f : A -> option B) offset limit (l : list A) : (forall x, x ∈ l -> is_Some (f x)) ->
  omap f (RocksStore.page offset limit l) = RocksStore.page offset limit (omap f l).
Proof.
  intros Hl. unfold RocksStore.page. destruct (limit =? 0)%nat; [by apply omap_take_drop|].
  rewrite <- (proj2 (omap_take_drop f l offset Hl)). apply omap_take_drop. intros x Hx. apply Hl. eapply elem_of_sublist; [exact Hx|apply sublist_drop].
Qed.

Definition over_store (store_env : DocumentStore.Env) (c : bytes) (s : DocumentStore.HybridStorageManager D) (env : Env) : Prop :=
  forall limit offset, ListDocuments env limit offset = (DocumentStore.ListDocuments store_env c limit offset s).2.

(** A search over a store whose documents are [m] sees one page after another of the
    documents of its collection, each of them once, by identifier. *)

Theorem store_paged store_env c s env m : DocumentStoreProps.clean c -> DocumentStoreProps.represents s m -> over_store store_env c s env ->
  exists ids, DocumentStoreProps.identifiers m c ids /\ paged env (omap (fun id => m !! (c, id)) ids).
Proof.
  intros Hc R O. destruct (DocumentStoreProps.prefix_ids s m c Hc R) as (ids & E & I). exists ids. split; [done|]. intros offset Ho.
  rewrite O. unfold DocumentStore.ListDocuments. rewrite E, DocumentStoreProps.page_fmap.
  rewrite (DocumentStoreProps.get_documents_spec store_env c _ s m Hc R) by (intros id Hid; apply I; by eapply DocumentStoreProps.page_elem).
  cbn [snd]. rewrite omap_page by (intros id Hid; by apply I). unfold scan_batch, DocumentStore.positive. cbn. by destruct offset.
Qed.

End store.

(** ** Witnesses: an index that offers a document without the word *)

Definition a_document (id title : bytes) : Stored := DocumentStore.mkDocument (LexicalIndex.mkDocument id title #"text" []) (S754_zero false) 7.

Definition red : Stored := a_document #"1" #"red wine".

Definition white : Stored := a_document #"2" #"white wine".

Definition beer : Stored := a_document #"3" #"beer".

Definition stock : list Stored := [red; white; beer].

Definition an_env (complete : bool) : Env :=
  mkEnv (fun limit offset => RocksStore.page (Z.to_nat offset) (Z.to_nat limit) stock) (fun id => if bool_decide (id = #"1") then red else white) 3 3 None false false
    (fun _ => complete) true (fun _ _ _ => [MMapIndex.mkPosting #"1" #"c" one_double []; MMapIndex.mkPosting #"2" #"c" one_double []])
    (fun _ => LexicalCache.mkSnapshot ∅ ∅ 0 0 []) one_double one_double true (fun d => d) 9 (fun _ => false) (fun _ => false).

Definition a_query (text : bytes) : SearchQuery :=
  mkQuery text [] 10 1 0 false false false false false 0 false false 0 false 0 true false [] false.

Definition answer (complete : bool) (text : bytes) : list (list (bytes * bytes)) :=
  ResultShaping.Document <$> default [] (ProcessLexicalSearch (an_env complete) (a_query text) 2).

Lemma an_env_paged complete : paged (an_env complete) stock.
Proof. by intros offset _. Qed.

Lemma lexical_search_sound_witness : answer true #"red" = [hit_document red] /\
  forall Hits h, ProcessLexicalSearch (an_env true) (a_query #"red") 2 = Some Hits -> h ∈ Hits -> justified (an_env true) (a_query #"red") h.
Proof. split; [vm_compute; reflexivity|]. intros Hits h. exact (lexical_search_sound (an_env true) (a_query #"red") 2 Hits h). Defined.

Lemma lexical_search_complete_witness : scans (an_env false) (a_query #"wine") = true /\ answer false #"wine" = [hit_document red; hit_document white] /\
  ProcessLexicalSearch (an_env false) (a_query #"wine") 2 = Some (reference (an_env false) (a_query #"wine") stock).
Proof.
  split; [vm_compute; reflexivity|]. split; [vm_compute; reflexivity|].
  apply (lexical_search_complete (an_env false) (a_query #"wine") stock 2); [apply an_env_paged|by intros n|cbn; lia|lia].
Defined.

(** Of the alternatives [red OR -wine] the second has no word to look up: when the index
    is complete, only what it offers for the first is checked, and the beer, which
    satisfies the query, is not found; a scan finds it. *)

Example prohibited_alternative_lost :
  satisfies (an_env true) (a_query #"red OR -wine") beer /\ answer true #"red OR -wine" = [hit_document red] /\
  answer false #"red OR -wine" = [hit_document red; hit_document beer].
Proof. split; [vm_compute; reflexivity|]. split; vm_compute; reflexivity. Qed.

End LexicalSearchProps.
