(* ===== verification/LazyIndex.v ===== *)
(** * LazyIndex: building the index of a collection on demand, and keeping the store sound

    [LazyLoadCollectionIndex] and [IndexCollectionInBackground] of
    src/search/document_collection_store.cpp as tasks whose steps are the parts between
    which other threads can run (a step is a critical section or one call of the database
    or the index), so that writers and other tasks interleave with a build; then the
    rebuild of an index, integrity reports and repairs, the load at startup and
    [FlushAll]. Exceptions of the database, running out of memory, the yields and the limit
    of threads are left out; a build in a thread of its own goes on as the same task. *)

From S2P Require Import Prelude CText DocValues RocksStore LexicalIndex SearchCache QueryMatch DocumentStore.
Import DocValues RocksStore DocumentStore.

Module LazyIndex.

Definition MaxIndexDocuments : Z := 1000000.

Definition SyncIndexMaxDocs : Z := 10000.

(** What a build knows: whether its keys are those of a snapshot it takes itself. *)

Record Build := mkBuild {
  UsePagedKeys : bool; TotalDocumentKeys : Z; BuildGeneration : Z; indexed : Z; memory_limit_reached : bool; scan_completed : bool
}.

Definition document_cap_reached (b : Build) : bool := MaxIndexDocuments <? TotalDocumentKeys b.

Definition documents_to_index (b : Build) : Z := Z.min (TotalDocumentKeys b) MaxIndexDocuments.

(** A call of [LazyLoadCollectionIndex] between two steps, then of
    [IndexCollectionInBackground] with its keys. *)

Inductive Task :=
| Returned (ok : bool)
| Called
| CountRead (indexed_count : Z)
| Expected (indexed_count expected_count : Z)
| LooksComplete (indexed_count : Z)
| LooksPartial (expected_count : Z)
| Known (expected_count : Z)
| ToRead (expected_count : Z)
| Entered (doc_keys : list bytes)
| Acquired (doc_keys : list bytes)
| Counted (doc_keys : list bytes) (total : Z)
| Begun (b : Build)
| Indexing (b : Build) (keys : list bytes)
| Fetched (b : Build) (doc : Document) (keys : list bytes)
| Scanned (b : Build)
| Finished.

Section lazy.
  Context {L : Library} {D : Type} `{Database D}.

Abbreviation Manager := (HybridStorageManager D).

(** ** The states of builds *)

Definition lazy_state (c : bytes) (s : Manager) : LazyIndexState := default fresh_lazy (LazyIndexStates s !! c).

Definition put_state (c : bytes) (st : LazyIndexState) (s : Manager) : Manager := set_lazy (<[c := st]> (LazyIndexStates s)) (CollectionsBeingIndexed s) s.

Definition try_acquire (c : bytes) (s : Manager) : Manager * bool :=
  if bool_decide (c ∈ CollectionsBeingIndexed s) then (s, false)
  else (set_lazy (LazyIndexStates s) ({[c]} ∪ CollectionsBeingIndexed s) s, true).

Definition release (c : bytes) (s : Manager) : Manager := set_lazy (LazyIndexStates s) (CollectionsBeingIndexed s ∖ {[c]}) s.

Definition is_complete (st : LazyIndexState) : bool := match State st with Complete => true | _ => false end.

Definition is_building (st : LazyIndexState) : bool := match State st with Building => true | _ => false end.

Definition explicit_dirty_state (c : bytes) (s : Manager) : bool :=
  match LazyIndexStates s !! c with Some st => (0 <? Generation st) && negb (is_complete st) | None => false end.

(** The index looks complete: the state says so, unless a build has begun. *)

Definition assume_complete (c : bytes) (indexed_count : Z) (s : Manager) : Manager :=
  let st := lazy_state c s in
  if is_building st then put_state c st s else put_state c (mkLazy Complete indexed_count indexed_count (Generation st) []) s.

Definition begin_build (c : bytes) (doc_keys : list bytes) (total : Z) (s : Manager) : Manager * Build :=
  let st := lazy_state c s in
  (put_state c (mkLazy Building total 0 (Generation st) []) s, mkBuild (bool_decide (doc_keys = [])) total (Generation st) 0 false true).

Definition finish_build (c : bytes) (b : Build) (s : Manager) : Manager :=
  let st := lazy_state c s in
  let (state, error) :=
    if negb (Generation st =? BuildGeneration b) then (IndexNone, #"Collection changed while lazy indexing was running.")
    else if document_cap_reached b then (Failed, #"Document cap reached during lazy indexing.")
    else if memory_limit_reached b then (Failed, #"Memory limit reached during lazy indexing.")
    else if negb (scan_completed b) then (Failed, #"Snapshot scan did not complete.")
    else (Complete, []) in
  put_state c (mkLazy state (TotalDocumentKeys b) (indexed b) (Generation st) error) s.

Definition set_scan (ok : bool) (b : Build) : Build :=
  mkBuild (UsePagedKeys b) (TotalDocumentKeys b) (BuildGeneration b) (indexed b) (memory_limit_reached b) ok.

Definition count_indexed (b : Build) : Build :=
  mkBuild (UsePagedKeys b) (TotalDocumentKeys b) (BuildGeneration b) (indexed b + 1) (memory_limit_reached b) (scan_completed b).

Definition limit_reached (b : Build) : Build :=
  mkBuild (UsePagedKeys b) (TotalDocumentKeys b) (BuildGeneration b) (indexed b) true (scan_completed b).

(** The identifier in a key, if it has one. *)

Definition ExtractDocumentIDFromKey (DocKey : bytes) : bytes :=
  match find_char is_colon (reverse DocKey) with None => [] | Some _ => last_part DocKey end.

(** A document that was read goes into the index; [false] ends the scan. *)

Definition index_document (env : Env) (c : bytes) (b : Build) (doc : Document) (s : Manager) : Manager * Build * bool :=
  if IndexThrows env then (s, b, true)
  else
    let '(i, ok, _) := LexicalIndex.AddDocument (IndexEnv env) c (Text doc) (SearchIndex s) in
    if (ok : bool) then (set_index i s, count_indexed b, true) else (set_index i s, limit_reached b, false).

(** ** One step of a build; [scan] is whether the snapshot of a paged build could be read
    to its end *)

Definition build_step (env : Env) (scan : bool) (c : bytes) (t : Task) (s : Manager) : Manager * Task :=
  match t with
  | Entered doc_keys => let (s, ok) := try_acquire c s in (s, if (ok : bool) then Acquired doc_keys else Returned true)
  | Acquired doc_keys =>
      let total := if bool_decide (doc_keys = []) then CountStoredDocuments c s else size doc_keys in
      if total =? 0 then (release c s, Returned true) else (s, Counted doc_keys total)
  | Counted doc_keys total =>
      let (s, b) := begin_build c doc_keys total s in
      (s, if UsePagedKeys b then Begun b else Indexing b (take (Z.to_nat (documents_to_index b)) doc_keys))
  | Begun b => (s, Indexing b (take (Z.to_nat (documents_to_index b)) (prefix_keys (doc_prefix c) s)))
  | Indexing b [] => (s, Scanned (if UsePagedKeys b then set_scan scan b else b))
  | Indexing b (key :: keys) =>
      let id := ExtractDocumentIDFromKey key in
      if bool_decide (id = []) then (s, Indexing b keys)
      else let (s, doc) := GetDocument env c id s in (s, if bool_decide (ID doc = []) then Indexing b keys else Fetched b doc keys)
  | Fetched b doc keys =>
      let '(s, b, go_on) := index_document env c b doc s in
      (s, if (go_on : bool) then Indexing b keys else Scanned (if UsePagedKeys b then set_scan false b else b))
  | Scanned b => (finish_build c b s, Finished)
  | Finished => (release c s, Returned true)
  | t => (s, t)
  end.

(** ** One step of a call *)

Definition step (env : Env) (scan : bool) (c : bytes) (t : Task) (s : Manager) : Manager * Task :=
  match t with
  | Returned ok => (s, Returned ok)
  | Called => (s, CountRead (default 0 (LexicalIndex.GetDocumentCount c (SearchIndex s))))
  | CountRead indexed_count =>
      let (s, expected_count) := GetCollectionDocumentCount env c s in
      (s, Expected indexed_count (if expected_count =? 0 then CountStoredDocuments c s else expected_count))
  | Expected indexed_count expected_count =>
      (s, if negb (explicit_dirty_state c s) && (0 <? indexed_count) && ((expected_count =? 0) || (expected_count <=? indexed_count))
          then LooksComplete indexed_count else LooksPartial expected_count)
  | LooksComplete indexed_count => (assume_complete c indexed_count s, Returned true)
  | LooksPartial expected_count => let (s, exist) := CollectionExists c s in (s, if (exist : bool) then Known expected_count else Returned false)
  | Known expected_count => (s, if IsCollectionIndexing c s then Returned true else ToRead expected_count)
  | ToRead expected_count =>
      let stored_document_count := if 0 <? expected_count then expected_count else CountStoredDocuments c s in
      let doc_keys := if stored_document_count <=? SyncIndexMaxDocs then page 0 (Z.to_nat stored_document_count) (prefix_keys (doc_prefix c) s) else [] in
      (s, if stored_document_count =? 0 then Returned true else Entered doc_keys)
  | t => build_step env scan c t s
  end.

(** A call that nothing interrupts. *)

Fixpoint run_task (fuel : nat) (env : Env) (c : bytes) (t : Task) (s : Manager) : Manager * Task :=
  match fuel, t with
  | O, _ | _, Returned _ => (s, t)
  | S fuel, _ => let (s, t) := step env true c t s in run_task fuel env c t s
  end.

(** ** Rebuilding *)

(** The documents of a list of keys; [None] is a document that the index refused. *)

Fixpoint index_keys (env : Env) (c : bytes) (keys : list bytes) (n : Z) (s : Manager) : Manager * option Z :=
  match keys with
  | [] => (s, Some n)
  | key :: r =>
      let id := ExtractDocumentIDFromKey key in
      if bool_decide (id = []) then index_keys env c r n s
      else
        let (s, doc) := GetDocument env c id s in
        if bool_decide (ID doc = []) then index_keys env c r n s
        else
          let '(i, ok, _) := LexicalIndex.AddDocument (IndexEnv env) c (Text doc) (SearchIndex s) in
          if (ok : bool) then index_keys env c r (n + 1) (set_index i s) else (set_index i s, None)
  end.

Definition flush_index (env : Env) (s : Manager) : Manager := set_index (LexicalIndex.FlushToDisk (IndexEnv env) 0 0 (SearchIndex s)).1.1 s.

(** The number of documents, or the error. *)

Definition RebuildCollectionIndex (env : Env) (c : bytes) (s : Manager) : Manager * (Z + bytes) :=
  let (s, exist) := CollectionExists c s in
  if negb exist then (s, inr #"Collection not found.")
  else if IsCollectionIndexing c s then (s, inr #"Collection is already being indexed.")
  else
    let doc_keys := Keys (doc_prefix c ++ #"*") s in
    let s := set_index (LexicalIndex.DeleteCollection c (SearchIndex s)) s in
    let (s, n) := index_keys env c doc_keys 0 s in
    match n with
    | None => (s, inr (#"Inverted index rejected a document while rebuilding '" ++ c ++ #"'."))
    | Some n => let s := flush_index env s in (put_state c (mkLazy Complete n n (Generation (lazy_state c s)) []) s, inl n)
    end.

(** ** Integrity *)

(** What is wrong with an index that is only mapped. *)

Definition integrity_error (st : CollectionIntegrityStatus) : bytes :=
  if negb (Status_Exists st) then #"Collection not found."
  else if IndexPresent st && negb (IndexVerified st) then #"Persisted mmap index is present but cannot be fully verified without rebuilding it in memory."
  else [].

Record Repaired := mkRepaired { Status : CollectionIntegrityStatus; IndexRebuilt : bool; Repair_Error : bytes }.

Definition RepairCollection (env : Env) (c : bytes) (rebuild_index : bool) (s : Manager) : Manager * Repaired :=
  let '(s, st, ok) := repair_counter env c s in
  let error := integrity_error st in
  if negb (Status_Exists st) then (s, mkRepaired st false error)
  else if negb ok then (s, mkRepaired st false #"Failed to persist repaired collection metadata")
  else if negb rebuild_index then (s, mkRepaired st false error)
    else
      let (s, r) := RebuildCollectionIndex env c s in
      match r with
      | inr error => (s, mkRepaired st false error)
      | inl n =>
          let indexed := LexicalIndex.GetDocumentCount c (SearchIndex s) in
          (s, mkRepaired (mkStatus true (MetadataCount st) (ActualCount st) (MetadataMatch st) true true indexed (bool_decide (indexed = Some (ActualCount st)))) true error)
      end.

Record IntegrityReport := mkReport {
  Success : bool; CollectionsRepaired : Z; CounterMismatches : Z; IndexMismatches : Z; Report_Collections : list Repaired
}.

Definition CollectionsScanned (r : IntegrityReport) : Z := size (Report_Collections r).

Definition targets (c : bytes) (s : Manager) : Manager * list bytes := if bool_decide (c = []) then ListCollections s else (s, [c]).

Definition one (b : bool) : Z := if b then 1 else 0.

Definition index_mismatch (st : CollectionIntegrityStatus) : bool := IndexVerified st && negb (IndexMatch st).

Definition check_one (env : Env) (x : Manager * IntegrityReport) (c : bytes) : Manager * IntegrityReport :=
  let (s, report) := x in
  let (s, st) := CheckCollectionIntegrity env c s in
  (s, mkReport (Success report && Status_Exists st) 0 (CounterMismatches report + one (negb (MetadataMatch st))) (IndexMismatches report + one (index_mismatch st))
        (Report_Collections report ++ [mkRepaired st false (integrity_error st)])).

Definition CheckIntegrity (env : Env) (c : bytes) (s : Manager) : Manager * IntegrityReport :=
  let (s, names) := targets c s in foldl (check_one env) (s, mkReport true 0 0 0 []) names.

Definition repair_one (env : Env) (rebuild_index : bool) (x : Manager * IntegrityReport) (c : bytes) : Manager * IntegrityReport :=
  let (s, report) := x in
  let (s, before) := CheckCollectionIntegrity env c s in
  let (s, r) := RepairCollection env c rebuild_index s in
  let st := Status r in
  let sound := Status_Exists st && bool_decide (Repair_Error r = []) && MetadataMatch st && (negb rebuild_index || IndexMatch st) in
  (s, mkReport (Success report && sound) (CollectionsRepaired report + one (negb (MetadataMatch before) || (rebuild_index && IndexRebuilt r)))
        (CounterMismatches report + one (negb (MetadataMatch before))) (IndexMismatches report + one (index_mismatch before)) (Report_Collections report ++ [r])).

Definition RepairIntegrity (env : Env) (c : bytes) (rebuild_index : bool) (s : Manager) : Manager * IntegrityReport :=
  let (s, names) := targets c s in foldl (repair_one env rebuild_index) (s, mkReport true 0 0 0 []) names.

(** ** Sizes and times *)

Definition GetCollectionCreatedAt (env : Env) (c : bytes) (s : Manager) : Manager * Z :=
  match CollectionMetadataCache s !! c with
  | Some x => (s, x.2)
  | None => let (n, t) := read_meta env c s in (UpdateCollectionMetadataCacheLocked c n t s, t)
  end.

Definition prefix_total (prefix : bytes) (s : Manager) : Z := foldr (fun key n => size (Get key s) + n) 0 (prefix_keys prefix s).

Definition GetCollectionSize (c : bytes) (s : Manager) : Z := u64 (prefix_total (doc_prefix c) s + prefix_total (#"idx:" ++ c ++ #":") s).

(** ** The load at startup *)

Definition load_collection (env : Env) (s : Manager) (key : bytes) : Manager :=
  match find_char is_colon key with
  | None => s
  | Some p =>
      if (p + 1 <? length key)%nat then
        let name := drop (p + 1) key in
        let plain := mkConfig name [] [] in
        let raw_config := Get (GetCollectionConfigKey name) s in
        let config := if bool_decide (raw_config = []) then plain
                      else let (loaded, ok) := DeserializeCollectionConfig raw_config plain in if (ok : bool) then loaded else plain in
        let s := set_collections (<[name := config]> (Collections s)) s in
        let (n, t) := ParseCollectionMetaValue (time env) (Get key s) in
        UpdateCollectionMetadataCacheLocked name n t s
      else s
  end.

Definition LoadCollectionsFromRocksDB (env : Env) (flushed : bool) (s : Manager) : Manager :=
  let keys := Keys #"collection_meta:*" s in
  let s := set_caches ∅ (CollectionListCache s) (CollectionListCacheValid s) (set_collections ∅ s) in
  let s := RefreshCollectionListCacheLocked (foldl (load_collection env) s keys) in
  let s := set_responses (SearchCache.InvalidateAll (Responses s)) s in
  let s := set_index (LexicalIndex.LoadFromDisk (IndexEnv env) (SearchIndex s)).1 s in
  (UpdateCollectionCounters env true flushed s).1.

(** ** Removing everything *)

Definition flushed_ranges : list bytes :=
  [ #"idx"; #"collection_meta"; #"collection_config"; #"synonyms"; #"stopwords"; #"override"; #"alias"; #"module_data"; #"session"; #"spotlight";
    #"trends"; #"flush_pending"; #"__hlq_docloc"; #"__hlq_tombstone"].

(** Batches of remaining keys, until none is left or none could be removed. *)

Definition FlushAllResidualBatchSize : nat := 1000.

Definition remove_keys (keys : list bytes) (s : Manager) : Manager * Z :=
  foldl (fun x key => let (s, n) := Del key x.1 in (s, x.2 + one (0 <? n))) (s, 0) keys.

Fixpoint sweep (fuel : nat) (s : Manager) : option Manager :=
  match fuel with
  | O => None
  | S fuel =>
      match page 0 FlushAllResidualBatchSize (prefix_keys [] s) with
      | [] => Some s
      | keys => let (s, n) := remove_keys keys s in if n =? 0 then Some s else sweep fuel s
      end
  end.

(** [synced] is whether the database reaches the disk at the end. The document storage is
    cleared by a range without segments; the files of the index are in directories of
    their own, which the removal of files in the index directory does not enter. *)

Definition FlushAll (fuel : nat) (synced : bool) (s : Manager) : option (Manager * bool) :=
  let i := LexicalIndex.Clear (SearchIndex s) in
  let s := set_index (LexicalIndex.set_disk (LexicalIndex.IndexDir i) ∅ i) s in
  let s := RefreshCollectionListCacheLocked (set_collections ∅ s) in
  let s := foldl (fun s r => delete_range (r ++ #":") (r ++ #";") s) s flushed_ranges in
  s ← sweep fuel s;
  let (d, cleared) := db_delete_range #"doc:" #"doc;" (database s) in
  let s := set_database d s in
  if negb (0 <? cleared) || negb synced then Some (s, false)
  else Some (set_responses (SearchCache.InvalidateAll (Responses s)) s, true).

End lazy.

End LazyIndex.
