(* ===== verification/LazyIndexProps.v ===== *)
(** * LazyIndexProps: an index marked complete is complete

    Whatever calls run between the steps of a build, an index that the search takes for
    complete holds every stored document of its collection; and removing everything
    ends, and leaves nothing. *)

From Stdlib Require Import SpecFloat.
From S2P Require Import Prelude CText DocValues LexicalTermsProps RocksStore LexicalTerms LexicalIndex LexicalIndexInv LexicalIndexProps Segments SegmentsProps SearchCache QueryMatch DocumentStore DocumentStoreProps LazyIndex.
Import DocValues RocksStore DocumentStore DocumentStoreProps LazyIndex.

Module LazyIndexProps.

Section lazy.
  Context {L : Library} {D : Type} `{RocksStore.DatabaseLaws D}.

Abbreviation Manager := (HybridStorageManager D).

Abbreviation Docs := (gmap (bytes * bytes) Document).

(** ** What does not touch the index and the states of builds *)

Definition marks (s : Manager) : gmap bytes LazyIndexState * gset bytes * LexicalIndex.InvertedIndex :=
  (LazyIndexStates s, CollectionsBeingIndexed s, SearchIndex s).

Lemma marks_set k v (s s' : Manager) ok : Set_ k v s = (s', ok) -> marks s' = marks s.
Proof. unfold Set_. destruct (db_set _ _ _). by intros [= <- _]. Qed.

Lemma marks_config c (s s' : Manager) x : GetCollectionConfig c s = (s', x) -> marks s' = marks s.
Proof. unfold GetCollectionConfig. destruct (Collections s !! c); by intros [= <- _]. Qed.

Lemma marks_count env c (s s' : Manager) n : GetCollectionDocumentCount env c s = (s', n) -> marks s' = marks s.
Proof. unfold GetCollectionDocumentCount. destruct (_ !! c); [by intros [= <- _]|]. destruct (read_meta _ _ _). by intros [= <- _]. Qed.

Lemma marks_refresh (s : Manager) : marks (RefreshCollectionListCacheLocked s) = marks s.
Proof. unfold RefreshCollectionListCacheLocked. by destruct (_ <? _). Qed.

Lemma marks_exists c (s s' : Manager) b : CollectionExists c s = (s', b) -> marks s' = marks s.
Proof. unfold CollectionExists. destruct (_ !! c); [by intros [= <- _]|]. destruct (bool_decide _); intros [= <- _]; [done|]. by rewrite marks_refresh. Qed.

Lemma marks_metadata c k v (s s' : Manager) ok : UpdateCollectionMetadata c k v s = (s', ok) -> marks s' = marks s.
Proof.
  unfold UpdateCollectionMetadata. destruct (negb _); [by intros [= <- _]|]. destruct (GetCollectionConfig c s) as [s1 x] eqn:E1. apply marks_config in E1 as <-.
  destruct (Set_ _ _ s1) as [s2 b] eqn:E2. apply marks_set in E2 as <-. by destruct b; intros [= <- _].
Qed.

Lemma marks_language env c o (s : Manager) : marks (RefreshCollectionLanguageIfNeeded env c o s) = marks s.
Proof.
  unfold RefreshCollectionLanguageIfNeeded. destruct (bool_decide _); [done|]. destruct (GetCollectionConfig c s) as [s1 x] eqn:E1. apply marks_config in E1 as <-.
  destruct (negb _); [done|]. destruct (bool_decide (from_option _ _ _ ∈ _)); destruct (bool_decide _); try done;
    destruct (UpdateCollectionMetadata c _ _ s1) as [s2 b] eqn:E2; by apply marks_metadata in E2.
Qed.

Lemma marks_count_insert env c (s s' : Manager) b : count_insert env c s = (s', b) -> marks s' = marks s.
Proof.
  unfold count_insert. destruct (read_meta env c s) as [n t]. destruct (Set_ _ _ s) as [s1 b1] eqn:E1. apply marks_set in E1 as <-.
  destruct b1; [by intros [= <- _]|]. destruct (Set_ _ _ s1) as [s2 b2] eqn:E2. apply marks_set in E2 as <-. by destruct b2; intros [= <- _].
Qed.

Lemma marks_count_delete env c (s s' : Manager) b : count_delete env c s = (s', b) -> marks s' = marks s.
Proof.
  unfold count_delete. destruct (read_meta env c s) as [n t]. destruct (0 <? n); [|by intros [= <- _]].
  destruct (Set_ _ _ s) as [s1 b1] eqn:E1. apply marks_set in E1 as <-. by destruct b1; intros [= <- _].
Qed.

(** ** The calls of the index, and the documents it was given *)

Abbreviation log := (list (LexicalIndex.Env * LexicalIndexProps.call)).

Definition roomy (e : LexicalIndex.Env) : Prop := forall i, LexicalIndex.EstimateLoadedMemoryLocked e i <= LexicalIndex.INVERTED_INDEX_MAX_MEMORY_BYTES.

Definition about (c : bytes) (x : LexicalIndex.Env * LexicalIndexProps.call) : Prop :=
  roomy x.1 /\ match x.2 with
               | LexicalIndexProps.CallAdd c' _ | LexicalIndexProps.CallDelete c' _ => c' = c
               | LexicalIndexProps.CallUpdate c' d d' => c' = c /\ LexicalIndex.ID d' = LexicalIndex.ID d
               | _ => False
               end.

Lemma roomy_evict e i : roomy e -> LexicalIndex.EvictLoadedCollectionsLocked e LexicalIndex.INVERTED_INDEX_MAX_MEMORY_BYTES i = (i, []).
Proof. intros R. unfold LexicalIndex.EvictLoadedCollectionsLocked. change (LexicalIndex.INVERTED_INDEX_MAX_MEMORY_BYTES =? 0) with false. cbn iota. by rewrite (proj2 (Z.leb_le _ _) (R i)). Qed.

Lemma roomy_add e c d i : roomy e -> (LexicalIndex.AddDocument e c d i).2 = [].
Proof.
  intros R. unfold LexicalIndex.AddDocument. cbv zeta. destruct (negb _ && _); [done|]. destruct (_ <=? _); [done|]. destruct (_ =? 0); [|done].
  by rewrite roomy_evict.
Qed.

Lemma run_app l l' i W : LexicalIndexProps.run (l ++ l') i W = let (i, W) := LexicalIndexProps.run l i W in LexicalIndexProps.run l' i W.
Proof.
  revert i W. induction l as [|[e o] l IH]; intros i W; cbn [LexicalIndexProps.run app]; [done|].
  destruct (LexicalIndexProps.exec e o i) as [[i' ok] ev]. apply IH.
Qed.

Lemma exec_evicts c x i : about c x -> (LexicalIndexProps.exec x.1 x.2 i).2 = [].
Proof.
  destruct x as [e o]. intros [R A]. cbn [fst snd] in *. destruct o; try done; cbn [LexicalIndexProps.exec].
  - by apply roomy_add.
  - unfold LexicalIndex.DeleteDocument. by rewrite roomy_evict.
  - unfold LexicalIndex.UpdateDocument. by rewrite roomy_evict.
Qed.

Lemma run_about c c' l i W : Forall (about c) l -> c' <> c -> (LexicalIndexProps.run l i W).2 c' = W c'.
Proof.
  intros Hl Hc. revert i W. induction Hl as [|[e o] l A Hl IH]; intros i W; [done|]. cbn [LexicalIndexProps.run].
  pose proof (exec_evicts c (e, o) i A) as Ev. cbn [fst snd] in Ev. destruct (LexicalIndexProps.exec e o i) as [[i' ok] ev]. cbn [snd] in Ev. subst ev. rewrite IH.
  rewrite LexicalIndexProps.without_nil. destruct A as [_ A]. cbn [snd] in A. destruct o; try done; cbn [LexicalIndexProps.replay]; unfold LexicalIndexProps.with_docs.
  - subst. destruct ok; [|done]. by rewrite bool_decide_false.
  - subst. by rewrite bool_decide_false.
  - destruct A as [-> _]. by rewrite bool_decide_false.
Qed.

Lemma run_one e o i W : (LexicalIndexProps.run [(e, o)] i W).1 = (LexicalIndexProps.exec e o i).1.1.
Proof. cbn [LexicalIndexProps.run]. by destruct (LexicalIndexProps.exec e o i) as [[i' ok] ev]. Qed.

(** ** What a call does to a collection *)

Definition target (o : op) : bytes :=
  match o with OpAdd c _ | OpBatch c _ _ | OpUpdate c _ | OpDelete c _ | OpGet c _ | OpList c _ _ | OpCount c | OpCreate c _ | OpDrop c => c end.

Definition tame (env : Env) (o : op) : Prop :=
  clock_ok env /\ op_ok o /\ IndexThrows env = false /\ roomy (IndexEnv env) /\ match o with OpDrop _ => False | _ => True end.

(** It marks its collection, or changes neither its documents nor the index. *)

Record effect (c : bytes) (s s' : Manager) (m m' : Docs) (l : log) : Prop := {
  ef_store : represents s' m';
  ef_busy : CollectionsBeingIndexed s' = CollectionsBeingIndexed s;
  ef_index W : (LexicalIndexProps.run l (SearchIndex s) W).1 = SearchIndex s';
  ef_about : Forall (about c) l;
  ef_other c' id : c' <> c -> m' !! (c', id) = m !! (c', id);
  ef_mark : LazyIndexStates s' = LazyIndexStates (MarkCollectionIndexDirty c s) \/ (LazyIndexStates s' = LazyIndexStates s /\ m' = m /\ l = [])
}.

Lemma effect_none c s s' m : marks s' = marks s -> represents s' m -> effect c s s' m m [].
Proof. intros [= E1 E2 E3] R. split; try done. by right. Qed.

Lemma marks_mark c (s s' : Manager) : marks s' = marks s -> marks (MarkCollectionIndexDirty c s') = marks (MarkCollectionIndexDirty c s).
Proof. unfold marks, MarkCollectionIndexDirty. intros [= E1 E2 E3]. case_bool_decide; cbn; by rewrite ?E1, ?E2, ?E3. Qed.

Lemma busy_mark c (s : Manager) : CollectionsBeingIndexed (MarkCollectionIndexDirty c s) = CollectionsBeingIndexed s /\ SearchIndex (MarkCollectionIndexDirty c s) = SearchIndex s.
Proof. unfold MarkCollectionIndexDirty. by case_bool_decide. Qed.

Lemma effect_marked c s s' m m' l i : marks s' = (LazyIndexStates (MarkCollectionIndexDirty c s), CollectionsBeingIndexed s, i) -> represents s' m' ->
  (forall W, (LexicalIndexProps.run l (SearchIndex s) W).1 = i) -> Forall (about c) l -> (forall c' id, c' <> c -> m' !! (c', id) = m !! (c', id)) -> effect c s s' m m' l.
Proof. intros [= E1 E2 E3] R I A O. split; try done; [intros W; by rewrite E3|by left]. Qed.

Lemma add_effect env c d (s s' : Manager) ok m : tame env (OpAdd c d) -> represents s m -> AddDocument env c d s = (s', ok) -> exists m' l, effect c s s' m m' l.
Proof.
  intros (Hn & [Hc Hd] & Hx & Hr & _) R E. pose proof E as E0. eapply AddDocument_spec in E0; [|exact Hc|exact Hd|exact Hn|exact R].
  assert (exists m', represents s' m' /\ forall c' id, c' <> c -> m' !! (c', id) = m !! (c', id)) as (m' & R' & O).
  { destruct E0 as [E0|[_ E0]]; eexists; (split; [exact E0|]); intros c' id Hne; [by rewrite lookup_insert_ne by congruence|done]. }
  revert E. unfold AddDocument. rewrite !bool_decide_false by (apply Hc || apply Hd). cbn [orb]. destruct (Set_ _ _ s) as [s1 b] eqn:E1. pose proof E1 as M1. apply marks_set in M1.
  destruct b; cbn [negb].
  2:{ intros [= <- <-]. exists m, []. apply effect_none; [done|]. apply stored_put in E1 as [W0 _]. eapply same_represents; [by apply W0|done]. }
  pose proof (marks_mark c s s1 M1) as M2. destruct (if Exists _ s then _ else _) as [s3 b3] eqn:E3.
  assert (marks s3 = marks (MarkCollectionIndexDirty c s)) as M3.
  { rewrite <- M2. destruct (Exists _ s); [by injection E3 as <- _|]. by apply marks_count_insert in E3. }
  destruct (busy_mark c s) as [B1 B2]. destruct b3; intros [= <- <-]; exists m'.
  - revert R'. unfold index_added. destruct (GetCollectionDocumentCount env c s3) as [s4 n] eqn:E4. apply marks_count in E4 as M4. rewrite M3 in M4. injection M4 as M41 M42 M43.
    rewrite Hx. destruct (n <? 100); cbn [negb andb]; intros R'.
    + exists [(IndexEnv env, LexicalIndexProps.CallAdd c (Text d))]. eapply effect_marked; [|exact R'| |by repeat constructor|exact O].
      * rewrite marks_language. unfold marks. cbn [LazyIndexStates CollectionsBeingIndexed SearchIndex set_index]. by rewrite M41, M42, M43, B1.
      * intros W. rewrite run_one. cbn [LexicalIndexProps.exec]. by rewrite B2.
    + exists []. eapply effect_marked; [|exact R'|done|constructor|exact O]. rewrite marks_language. unfold marks. cbn. by rewrite M41, M42, M43, B1, B2.
  - exists []. injection M3 as M31 M32 M33. eapply effect_marked; [|exact R'|done|constructor|exact O]. unfold marks. by rewrite M31, M32, M33, B1, B2.
Qed.

Lemma batch_effect env c ds b (s s' : Manager) n m : tame env (OpBatch c ds b) -> represents s m -> AddDocumentsBatch env c ds b s = (s', n) -> exists m' l, effect c s s' m m' l.
Proof.
  intros (Hn & [Hc Hd] & Hx & Hr & _) R E. pose proof E as E0. eapply AddDocumentsBatch_spec in E0; [|exact Hc|exact Hd|exact Hn|exact R].
  assert (exists m', represents s' m' /\ forall c' id, c' <> c -> m' !! (c', id) = m !! (c', id)) as (m' & R' & O).
  { destruct E0 as [[_ E0]|[_ E0]]; eexists; (split; [exact E0|]); intros c' id Hne; [by rewrite added_lookup, bool_decide_false|done]. }
  revert E. unfold AddDocumentsBatch. rewrite bool_decide_false by apply Hc. destruct (batch_data env c ds) as [|e r]; [intros [= <- <-]; exists m, []; by apply effect_none|].
  destruct (read_meta env c s) as [count t]. set (all := (e :: r) ++ _). destruct (db_batch all (database s)) as [d written] eqn:E. destruct (written =? size all) eqn:B; intros [= <- <-].
  - exists m', []. destruct (busy_mark c s) as [B1 B2]. eapply effect_marked; [|exact R'|done|constructor|exact O]. rewrite marks_language.
    set (s1 := UpdateCollectionMetadataCacheLocked _ _ _ _). transitivity (marks (MarkCollectionIndexDirty c s1)); [done|]. rewrite (marks_mark c s s1) by done. unfold marks. by rewrite B1, B2.
  - exists m, []. apply effect_none; [done|]. apply batch_spec in E as [[-> _]|[_ W]]; [by rewrite Z.eqb_refl in B|]. eapply same_represents; [|done]. intros k _. apply W.
Qed.

Lemma update_effect env c d (s s' : Manager) ok m : tame env (OpUpdate c d) -> represents s m -> UpdateDocument env c d s = (s', ok) -> exists m' l, effect c s s' m m' l.
Proof.
  intros T R E. pose proof T as (Hn & [Hc Hd] & Hx & Hr & _). pose proof E as E0. eapply UpdateDocument_spec in E0; [|exact Hc|exact Hd|exact Hn|exact R].
  assert (exists m', represents s' m' /\ forall c' id, c' <> c -> m' !! (c', id) = m !! (c', id)) as (m' & R' & O).
  { destruct E0 as [E0|[_ E0]]; eexists; (split; [exact E0|]); intros c' id Hne; [by rewrite lookup_insert_ne by congruence|done]. }
  revert E. unfold UpdateDocument. pose proof Hd as [Hi _]. rewrite !bool_decide_false by (apply Hc || apply Hi). cbn [orb].
  destruct (GetDocument env c (ID d) s) as [s1 old] eqn:E1. eapply document_read in E1 as (-> & -> & Ho); [|exact Hc|exact Hi|exact R].
  case_bool_decide as B; [intros E; by eapply add_effect|]. pose proof (proj2 Ho B) as [x Hm]. rewrite Hm in *. cbn [default from_option Datatypes.id] in *.
  destruct (Set_ _ _ s) as [s2 b] eqn:E2. pose proof E2 as M2. apply marks_set in M2. destruct b; cbn [negb].
  2:{ intros [= <- <-]. exists m, []. apply effect_none; [done|]. apply stored_put in E2 as [W0 _]. eapply same_represents; [by apply W0|done]. }
  rewrite Hx. intros [= <- <-]. exists m', [(IndexEnv env, LexicalIndexProps.CallUpdate c (Text x) (Text d))]. injection M2 as M21 M22 M23.
  eapply effect_marked; [|exact R'| | |exact O].
  - set (i := (LexicalIndex.UpdateDocument _ _ _ _ _).1.1). transitivity (marks (MarkCollectionIndexDirty c (set_index i s2))); [done|]. unfold marks.
    rewrite (proj1 (busy_mark c (set_index i s2))), (proj2 (busy_mark c (set_index i s2))). cbn [CollectionsBeingIndexed SearchIndex set_index]. rewrite M22. f_equal. f_equal.
    unfold MarkCollectionIndexDirty. case_bool_decide; cbn; by rewrite ?M21, ?M22.
  - intros W. rewrite run_one. cbn [LexicalIndexProps.exec]. by rewrite M23.
  - pose proof (r_holds _ _ R c (ID d) Hc Hi) as Hh. unfold holds in Hh. rewrite Hm in Hh. destruct Hh as [(_ & Hid & _) _]. by repeat constructor.
Qed.

Lemma delete_effect env c id (s s' : Manager) ok m : tame env (OpDelete c id) -> represents s m -> DeleteDocument env c id s = (s', ok) -> exists m' l, effect c s s' m m' l.
Proof.
  intros (Hn & [Hc Hi] & Hx & Hr & _) R E. pose proof E as E0. eapply document_deleted in E0; [|exact Hc|exact Hi|exact R].
  assert (exists m', represents s' m' /\ forall c' i, c' <> c -> m' !! (c', i) = m !! (c', i)) as (m' & R' & O).
  { destruct ok; [destruct E0 as [_ E0]|]; eexists; (split; [exact E0|]); intros c' i Hne; [by rewrite lookup_delete_ne by congruence|done]. }
  revert E. unfold DeleteDocument. destruct (Exists _ s); cbn [negb]; [|intros [= <- <-]; exists m, []; by apply effect_none].
  unfold Del. destruct (db_del _ _) as [d n] eqn:E. apply del_spec in E as [Hdn W]. destruct (0 <? n) eqn:B; cbn [negb].
  2:{ intros [= <- <-]. exists m, []. apply effect_none; [done|]. destruct Hdn as [-> | ->]; [|done]. eapply same_represents; [|exact R]. intros k _. cbn. by rewrite W. }
  rewrite Hx. set (s1 := invalidate_responses c (MarkCollectionIndexDirty c (set_database d s))).
  assert (marks s1 = marks (MarkCollectionIndexDirty c s)) as M1 by by apply (marks_mark c s (set_database d s)).
  destruct (count_delete env c _) as [s3 counted] eqn:E3. apply marks_count_delete in E3 as M3. intros [= <- <-]. exists m', [(IndexEnv env, LexicalIndexProps.CallDelete c id)].
  destruct (busy_mark c s) as [B1 B2]. injection M1 as M11 M12 M13. injection M3 as M31 M32 M33. cbn [LazyIndexStates CollectionsBeingIndexed SearchIndex set_index] in *.
  eapply effect_marked; [|exact R'| |by repeat constructor|exact O].
  - destruct counted; cbn [orb negb]; unfold marks; cbn [count_failure LazyIndexStates CollectionsBeingIndexed SearchIndex]; by rewrite M31, M32, M33, M11, M12, B1.
  - intros W'. rewrite run_one. cbn [LexicalIndexProps.exec]. by rewrite M13, B2.
Qed.

Lemma perform_effect env o (s s' : Manager) a m : tame env o -> represents s m -> perform env o s = (s', a) -> exists m' l, effect (target o) s s' m m' l.
Proof.
  intros T R. destruct o as [c d|c ds b|c d|c id|c id|c limit offset|c|c config|c]; cbn [perform target].
  - destruct (AddDocument env c d s) as [s1 ok] eqn:E. intros [= <- <-]. by eapply add_effect.
  - destruct (AddDocumentsBatch env c ds b s) as [s1 n] eqn:E. intros [= <- <-]. by eapply batch_effect.
  - destruct (UpdateDocument env c d s) as [s1 ok] eqn:E. intros [= <- <-]. by eapply update_effect.
  - destruct (DeleteDocument env c id s) as [s1 ok] eqn:E. intros [= <- <-]. by eapply delete_effect.
  - destruct (GetDocument env c id s) as [s1 d] eqn:E. intros [= <- <-]. destruct T as (_ & [Hc Hi] & _). eapply document_read in E as (-> & _); [|exact Hc|exact Hi|exact R].
    exists m, []. by apply effect_none.
  - destruct (ListDocuments env c limit offset s) as [s1 l] eqn:E. intros [= <- <-]. destruct T as (_ & Hc & _). eapply ListDocuments_spec in E as (-> & _); [|exact Hc|exact R].
    exists m, []. by apply effect_none.
  - intros [= <- <-]. exists m, []. by apply effect_none.
  - destruct (CreateCollection env c config s) as [s1 ok] eqn:E. intros [= <- <-]. pose proof E as E0. eapply CreateCollection_spec in E0; [|exact R]. exists m, []. apply effect_none; [|done].
    revert E. unfold CreateCollection. destruct (negb _); [by intros [= <- _]|]. destruct (db_batch _ _) as [d n]. destruct (n =? 2); intros [= <- _]; [|done].
    unfold invalidate_responses. change (marks (RefreshCollectionListCacheLocked (UpdateCollectionMetadataCacheLocked c 0 (time env) (set_database d (set_collections (<[c:=config]> (Collections s)) s)))) = marks s). by rewrite marks_refresh.
  - by destruct T as (_ & _ & _ & _ & []).
Qed.

(** ** A task among calls

    The documents and the calls of the index so far are kept beside the store. *)

Record Sys := mkSys { store : Manager; task : Task; documents : Docs; history : log }.

Definition index_calls (env : Env) (c : bytes) (t : Task) : log :=
  match t with Fetched _ doc _ => [(IndexEnv env, LexicalIndexProps.CallAdd c (Text doc))] | _ => [] end.

(** The list of keys was read, but not yet the generation of the build. *)

Definition between_keys_and_generation (t : Task) : bool :=
  match t with Entered (_ :: _) | Acquired (_ :: _) | Counted (_ :: _) _ => true | _ => false end.

Definition takes_shortcut (t : Task) : bool := match t with LooksComplete _ => true | _ => false end.

Inductive trans (c : bytes) : Sys -> Sys -> Prop :=
| trans_call env o s s' t a m m' l l' :
    tame env o -> (target o = c -> between_keys_and_generation t = false) -> Generation (lazy_state c s) + 1 < 2 ^ 64 ->
    perform env o s = (s', a) -> effect (target o) s s' m m' l' -> trans c (mkSys s t m l) (mkSys s' t m' (l ++ l'))
| trans_step env scan s s' t t' m l :
    IndexThrows env = false -> roomy (IndexEnv env) -> takes_shortcut t = false -> step env scan c t s = (s', t') ->
    trans c (mkSys s t m l) (mkSys s' t' m (l ++ index_calls env c t))
| trans_search s ok m l : trans c (mkSys s (Returned ok) m l) (mkSys s Called m l).

Abbreviation world l := (LexicalIndexProps.run l LexicalIndex.empty_index (fun _ => ∅)).2.

Definition all_in (W : LexicalIndexProps.world) (m : Docs) (c : bytes) : Prop :=
  forall id d, m !! (c, id) = Some d -> exists r, W c !! id = Some (r, Text d).

Definition is_key (c k : bytes) : Prop := exists id, clean id /\ k = doc_key c id.

Definition keys_ok (m : Docs) (c : bytes) (keys : list bytes) : Prop :=
  Forall (is_key c) keys /\ (keys = [] \/ (count m c <= size keys -> forall id d, m !! (c, id) = Some d -> doc_key c id ∈ keys)).

(** What a build has yet to read, unless its documents changed since it began. *)

Definition covered (W : LexicalIndexProps.world) (m : Docs) (c : bytes) (keys : list bytes) (pending : option bytes) : Prop :=
  forall id d, m !! (c, id) = Some d -> doc_key c id ∈ keys \/ pending = Some id \/ exists r, W c !! id = Some (r, Text d).

Definition current (s : Manager) (m : Docs) (c : bytes) (b : Build) : Prop :=
  Generation (lazy_state c s) = BuildGeneration b /\ count m c <= TotalDocumentKeys b /\ document_cap_reached b = false.

Definition running (s : Manager) (c : bytes) (b : Build) : Prop := State (lazy_state c s) <> Complete /\ BuildGeneration b <= Generation (lazy_state c s).

Definition task_ok (s : Manager) (m : Docs) (W : LexicalIndexProps.world) (c : bytes) (t : Task) : Prop :=
  match t with
  | Entered keys | Acquired keys => keys_ok m c keys
  | Counted keys total => keys_ok m c keys /\ (keys <> [] -> total = size keys)
  | Begun b => running s c b
  | Indexing b keys => Forall (is_key c) keys /\ running s c b /\ (current s m c b -> covered W m c keys None)
  | Fetched b doc keys =>
      Forall (is_key c) keys /\ running s c b /\
      (current s m c b -> m !! (c, ID doc) = Some doc /\ covered W m c keys (Some (ID doc)))
  | Scanned b => running s c b /\ (current s m c b -> memory_limit_reached b = false -> all_in W m c)
  | _ => True
  end.

Record inv (c : bytes) (x : Sys) : Prop := {
  i_store : represents (store x) (documents x);
  i_index : (LexicalIndexProps.run (history x) LexicalIndex.empty_index (fun _ => ∅)).1 = SearchIndex (store x);
  i_complete : State (lazy_state c (store x)) = Complete -> count (documents x) c <= SourceCount (lazy_state c (store x)) -> all_in (world (history x)) (documents x) c;
  i_generation : 0 <= Generation (lazy_state c (store x));
  i_task : task_ok (store x) (documents x) (world (history x)) c (task x)
}.

(** *** Calls *)

Lemma count_ext m m' c : (forall id, m' !! (c, id) = m !! (c, id)) -> count m' c = count m c.
Proof.
  intros E. unfold count. f_equal. f_equal. apply map_eq. intros [c' id]. apply option_eq. intros d. rewrite !map_lookup_filter_Some. cbn.
  split; intros [Hm ->]; (split; [|done]); by rewrite ?E in *.
Qed.

Lemma count_pos m c id d : m !! (c, id) = Some d -> 0 < count m c.
Proof.
  intros Hm. unfold count. assert (base.size (base.filter (fun x : bytes * bytes * Document => x.1.1 = c) m) <> 0%nat); [|lia].
  apply map_size_non_empty_iff. intros E. apply (f_equal (lookup (c, id))) in E. rewrite lookup_empty in E. apply map_lookup_filter_None in E as [E|E]; [congruence|].
  by apply (E d).
Qed.

Lemma lazy_mark c (s : Manager) : c <> [] ->
  lazy_state c (MarkCollectionIndexDirty c s) =
  mkLazy (if bool_decide (c ∈ CollectionsBeingIndexed s) then State (lazy_state c s) else IndexNone) 0 0 (u64 (Generation (lazy_state c s) + 1)) [].
Proof. intros Hc. unfold lazy_state, MarkCollectionIndexDirty. rewrite bool_decide_false by done. cbn. by rewrite lookup_insert_eq. Qed.

Lemma lazy_mark_other c c' (s : Manager) : c' <> c -> lazy_state c' (MarkCollectionIndexDirty c s) = lazy_state c' s.
Proof. intros Hc. unfold lazy_state, MarkCollectionIndexDirty. case_bool_decide; [done|]. cbn. by rewrite lookup_insert_ne. Qed.

Lemma lazy_ext c (s s' : Manager) : LazyIndexStates s' = LazyIndexStates s -> lazy_state c s' = lazy_state c s.
Proof. unfold lazy_state. by intros ->. Qed.

(** Nothing of the collection changed. *)

Lemma task_ok_ext c s s' m m' W W' t :
  lazy_state c s' = lazy_state c s -> (forall id, m' !! (c, id) = m !! (c, id)) -> W' c = W c -> task_ok s m W c t -> task_ok s' m' W' c t.
Proof.
  intros El Em Ew. pose proof (count_ext m m' c Em) as Ec.
  assert (forall k p, covered W m c k p -> covered W' m' c k p) as Cov by (intros k p Hk id d; rewrite Em, Ew; apply Hk).
  assert (forall b, current s' m' c b -> current s m c b) as Cur by (intros b; unfold current; by rewrite El, Ec).
  assert (forall k, keys_ok m c k -> keys_ok m' c k) as Ko.
  { intros k [K1 [K2|K2]]; (split; [done|]); [by left|right]. rewrite Ec. intros Hk id d. rewrite Em. by apply K2. }
  assert (forall b, running s c b -> running s' c b) as Run by (intros b; unfold running; by rewrite El).
  destruct t; cbn [task_ok]; rewrite ?El; try done; try apply Ko; try apply Run.
  - intros [K1 K2]. split; [by apply Ko|done].
  - intros (K1 & K2 & K3). split; [done|]. split; [by apply Run|]. auto.
  - intros (K1 & K2 & K3). split; [done|]. split; [by apply Run|]. rewrite Em. intros Hc%Cur%K3. naive_solver.
  - intros (K1 & K2). split; [by apply Run|]. intros Hc Hm id d. rewrite Em, Ew. by apply K2; [apply Cur|].
Qed.

(** The collection was marked: builds that began before are not current. *)

Lemma task_ok_marked c s s' m m' W W' t : between_keys_and_generation t = false ->
  Generation (lazy_state c s) < Generation (lazy_state c s') -> (State (lazy_state c s) <> Complete -> State (lazy_state c s') <> Complete) ->
  task_ok s m W c t -> task_ok s' m' W' c t.
Proof.
  intros Hb Hg Hs. assert (forall b, running s c b -> running s' c b /\ ~ current s' m' c b) as Cur.
  { intros b [K1 K2]. split; [split; [by apply Hs|lia]|]. unfold current. lia. }
  destruct t as [| | | | | | | |[|]|[|]|[|] total|b|b keys|b doc keys|b|]; cbn [task_ok]; try done.
  - intros _. split; [constructor|by left].
  - intros _. split; [constructor|by left].
  - intros _. split; [split; [constructor|by left]|done].
  - apply Cur.
  - intros (K1 & K2 & _). apply Cur in K2 as [? ?]. done.
  - intros (K1 & K2 & _). apply Cur in K2 as [? ?]. done.
  - intros (K1 & _). apply Cur in K1 as [? ?]. done.
Qed.

Lemma world_app l l' i : (LexicalIndexProps.run l LexicalIndex.empty_index (fun _ => ∅)).1 = i ->
  LexicalIndexProps.run (l ++ l') LexicalIndex.empty_index (fun _ => ∅) = LexicalIndexProps.run l' i (world l).
Proof. intros E. rewrite run_app. destruct (LexicalIndexProps.run l _ _) as [i' W]. cbn in E. by subst. Qed.

Lemma inv_call c s s' t m m' l l' c' : c <> [] -> effect c' s s' m m' l' -> (c' = c -> between_keys_and_generation t = false) ->
  Generation (lazy_state c s) + 1 < 2 ^ 64 -> inv c (mkSys s t m l) -> inv c (mkSys s' t m' (l ++ l')).
Proof.
  intros Hc [R' B I A O M] Ht Hg [I1 I2 I3 I4 I5]. cbn [store documents history task] in *.
  assert ((LexicalIndexProps.run (l ++ l') LexicalIndex.empty_index (fun _ => ∅)).1 = SearchIndex s') as I2' by (rewrite (world_app l l' _ I2); apply I).
  assert (LazyIndexStates s' = LazyIndexStates s /\ m' = m /\ l' = [] \/ c' <> c \/ (c' = c /\ LazyIndexStates s' = LazyIndexStates (MarkCollectionIndexDirty c s))) as Cases.
  { destruct (decide (c' = c)) as [->|]; [|by right; left]. destruct M as [M|M]; [by right; right|by left]. }
  destruct Cases as [(El & -> & ->)|[Hne|[-> El]]].
  - rewrite app_nil_r in *. pose proof (lazy_ext c s s' El) as E. split; cbn [store documents history task]; [done..| | |].
    + by rewrite E.
    + by rewrite E.
    + by eapply task_ok_ext.
  - assert (lazy_state c s' = lazy_state c s) as E.
    { destruct M as [M|[M _]]; [|by apply lazy_ext]. rewrite (lazy_ext c _ s' M). by apply lazy_mark_other. }
    assert (forall id, m' !! (c, id) = m !! (c, id)) as Em by (intros id; by apply O).
    assert (world (l ++ l') c = world l c) as Ew by (rewrite (world_app l l' _ I2); by eapply run_about).
    split; cbn [store documents history task]; [done..| | |].
    + rewrite E, (count_ext m m' c Em). intros H1 H2 id d. rewrite Em, Ew. by apply I3.
    + by rewrite E.
    + by eapply task_ok_ext.
  - assert (lazy_state c s' = lazy_state c (MarkCollectionIndexDirty c s)) as E by by apply lazy_ext. rewrite lazy_mark in E by done.
    assert (Generation (lazy_state c s') = Generation (lazy_state c s) + 1) as Eg by (rewrite E; cbn; unfold u64; rewrite Z.mod_small; lia).
    split; cbn [store documents history task]; [done..| | |].
    + rewrite E. cbn. intros _ H2 id d Hd. apply count_pos in Hd. lia.
    + lia.
    + eapply task_ok_marked; [by apply Ht| | |exact I5]; [lia|]. rewrite E. cbn. by case_bool_decide.
Qed.

(** *** Steps *)

Lemma inv_quiet c s s' t t' m l : marks s' = marks s -> represents s' m -> (task_ok s' m (world l) c t -> task_ok s' m (world l) c t') ->
  inv c (mkSys s t m l) -> inv c (mkSys s' t' m l).
Proof.
  intros [= E1 E2 E3] R T [I1 I2 I3 I4 I5]. cbn [store documents history task] in *. pose proof (lazy_ext c s s' E1) as E.
  split; cbn [store documents history task]; rewrite ?E; try done; [by rewrite E3|]. apply T. by eapply task_ok_ext.
Qed.

(** Only the marks of builds under way changed. *)

Lemma inv_busy c s t t' m l x : (task_ok s m (world l) c t -> task_ok s m (world l) c t') ->
  inv c (mkSys s t m l) -> inv c (mkSys (set_lazy (LazyIndexStates s) x s) t' m l).
Proof.
  intros T [I1 I2 I3 I4 I5]. cbn [store documents history task] in *. split; cbn [store documents history task]; try done. by eapply task_ok_ext; [..|by apply T].
Qed.

(** The state of the collection changed, to one that is complete only if the index is. *)

Lemma inv_state c s t t' m l st : (State st = Complete -> count m c <= SourceCount st -> all_in (world l) m c) -> Generation st = Generation (lazy_state c s) ->
  (task_ok s m (world l) c t -> task_ok (put_state c st s) m (world l) c t') -> inv c (mkSys s t m l) -> inv c (mkSys (put_state c st s) t' m l).
Proof.
  intros C G T [I1 I2 I3 I4 I5]. cbn [store documents history task] in *.
  assert (lazy_state c (put_state c st s) = st) as E by (unfold lazy_state, put_state; cbn; by rewrite lookup_insert_eq).
  split; cbn [store documents history task]; rewrite ?E; try done; [by rewrite G|by apply T].
Qed.

Lemma taken_keys c s m n : clean c -> represents s m -> keys_ok m c (take n (prefix_keys (doc_prefix c) s)).
Proof.
  intros Hc R. destruct (prefix_ids s m c Hc R) as (ids & E & I). rewrite E, <- fmap_take. split.
  - apply Forall_forall. intros k (id & -> & Hid)%list_elem_of_fmap. exists id. split; [|done]. eapply elem_of_sublist in Hid; [|apply sublist_take].
    apply I in Hid. by apply (r_dom _ _ R) in Hid as [_ ?].
  - right. rewrite <- (identifiers_count m c ids I). unfold size. rewrite length_fmap, length_take. intros Hn id d Hd. rewrite take_ge by lia.
    apply list_elem_of_fmap. exists id. split; [done|]. apply I. by eexists.
Qed.

Lemma paged_keys c s m n : clean c -> represents s m -> keys_ok m c (page 0 n (prefix_keys (doc_prefix c) s)).
Proof.
  intros Hc R. unfold page. rewrite drop_0. destruct (n =? 0)%nat; [|by apply taken_keys].
  rewrite <- (take_ge (prefix_keys (doc_prefix c) s) (length (prefix_keys (doc_prefix c) s))) by done. by apply taken_keys.
Qed.

Lemma snapshot_covers c s m l b : clean c -> represents s m -> current s m c b ->
  covered (world l) m c (take (Z.to_nat (documents_to_index b)) (prefix_keys (doc_prefix c) s)) None.
Proof.
  intros Hc R (_ & Hn & Hcap) id d Hd. left. pose proof (count_pos _ _ _ _ Hd) as Hp.
  pose proof (stored_count c s m Hc R) as Hs. unfold CountStoredDocuments, CountKeys, size in Hs. unfold documents_to_index, document_cap_reached in *.
  rewrite take_ge by lia. destruct (prefix_ids s m c Hc R) as (ids & -> & I). apply list_elem_of_fmap. exists id. split; [done|]. apply I. by eexists.
Qed.

Lemma exists_database c (s s' : Manager) b : CollectionExists c s = (s', b) -> database s' = database s.
Proof. unfold CollectionExists. destruct (_ !! c); [by intros [= <- _]|]. destruct (bool_decide _); intros [= <- _]; [done|]. by rewrite refresh_database. Qed.

Lemma extract_key c id : clean id -> ExtractDocumentIDFromKey (doc_key c id) = id.
Proof.
  intros [_ Hid]. pose proof (last_part_key c id Hid) as E. unfold ExtractDocumentIDFromKey. destruct (find_char is_colon (reverse (doc_key c id))) eqn:F; [done|].
  unfold last_part in E. rewrite F in E. apply (f_equal length) in E. unfold doc_key, doc_prefix in E. rewrite !length_app in E. cbn in E. lia.
Qed.

(** The keys of a build that begins. *)

Lemma begin_covers c s m l b keys : keys_ok m c keys -> TotalDocumentKeys b = size keys -> current s m c b -> covered (world l) m c (take (Z.to_nat (documents_to_index b)) keys) None.
Proof.
  intros [_ K] Ht (_ & Hn & Hcap) id d Hd. left. unfold documents_to_index, document_cap_reached in *. rewrite take_ge by (unfold size in *; lia).
  destruct K as [->|K]; [|apply (K ltac:(lia) id d Hd)]. apply count_pos in Hd. change (size []) with 0 in Ht. lia.
Qed.

Lemma Forall_take_key c n keys : Forall (is_key c) keys -> Forall (is_key c) (take n keys).
Proof. intros K. rewrite <- (take_drop n keys) in K. by apply Forall_app in K as [? _]. Qed.

Lemma step_begin c s s' t keys total m l b : clean c -> task_ok s m (world l) c (Counted keys total) ->
  begin_build c keys total s = (s', b) -> t = (if UsePagedKeys b then Begun b else Indexing b (take (Z.to_nat (documents_to_index b)) keys)) ->
  inv c (mkSys s (Counted keys total) m l) -> inv c (mkSys s' t m l).
Proof.
  intros Hc [K Kt] [= <- <-] ->. cbn [UsePagedKeys]. apply inv_state; [done|done|]. intros _.
  assert (lazy_state c (put_state c (mkLazy Building total 0 (Generation (lazy_state c s)) []) s) = mkLazy Building total 0 (Generation (lazy_state c s)) []) as E
    by (unfold lazy_state, put_state; cbn; by rewrite lookup_insert_eq).
  assert (forall b, BuildGeneration b = Generation (lazy_state c s) -> running (put_state c (mkLazy Building total 0 (Generation (lazy_state c s)) []) s) c b) as Run
    by (intros b Hb; unfold running; rewrite E, Hb; done).
  case_bool_decide as B; cbn [task_ok]; [by apply Run|]. split; [apply Forall_take_key, K|]. split; [by apply Run|]. apply begin_covers; [done|by apply Kt].
Qed.

Lemma step_read env c s s' t b keys m l scan : clean c -> represents s m -> task_ok s m (world l) c (Indexing b keys) ->
  step env scan c (Indexing b keys) s = (s', t) -> s' = s /\ task_ok s m (world l) c t.
Proof.
  intros Hc R (K & G & Cov). destruct keys as [|key keys]; cbn [step build_step].
  - intros [= <- <-]. split; [done|]. assert (task_ok s m (world l) c (Scanned b)) as T.
    { split; [done|]. intros Cur _ id d Hd. destruct (Cov Cur id d Hd) as [Hin|[?|?]]; [by apply elem_of_nil in Hin|done|done]. }
    destruct (UsePagedKeys b); [|done]. by destruct scan.
  - apply Forall_cons in K as [(id & Hid & ->) K]. rewrite extract_key by done. rewrite bool_decide_false by apply Hid.
    destruct (GetDocument env c id s) as [s1 doc] eqn:E. eapply document_read in E as (-> & -> & Ho); [|done..]. intros [= <- <-]. split; [done|].
    assert (forall i d, m !! (c, i) = Some d -> doc_key c i ∈ doc_key c id :: keys -> i = id \/ doc_key c i ∈ keys) as Next.
    { intros i d Hd [E|?]%elem_of_cons; [left|by right]. by apply doc_key_inj in E as [_ ->]; [|apply Hc|apply Hc]. }
    destruct (m !! (c, id)) as [found|] eqn:Hm; cbn [default from_option Datatypes.id] in *.
    + rewrite bool_decide_false by (apply Ho; by eexists). pose proof (r_holds _ _ R c id Hc Hid) as Hh. unfold holds in Hh. rewrite Hm in Hh. destruct Hh as [(_ & Ei & _) _].
      split; [done|]. split; [done|]. rewrite Ei. intros Cur. split; [done|]. intros i d Hd. destruct (Cov Cur i d Hd) as [Hin|[?|?]]; [|done|by right; right].
      destruct (Next i d Hd Hin) as [->|?]; [by right; left|by left].
    + rewrite bool_decide_true by done. split; [done|]. split; [done|]. intros Cur i d Hd. destruct (Cov Cur i d Hd) as [Hin|[?|?]]; [|done|by right; right].
      destruct (Next i d Hd Hin) as [->|?]; [congruence|by left].
Qed.

Lemma step_added env c s s' t b doc keys m l scan : IndexThrows env = false -> roomy (IndexEnv env) -> step env scan c (Fetched b doc keys) s = (s', t) ->
  inv c (mkSys s (Fetched b doc keys) m l) -> inv c (mkSys s' t m (l ++ [(IndexEnv env, LexicalIndexProps.CallAdd c (Text doc))])).
Proof.
  intros Hx Hr E [I1 I2 I3 I4 (K & G & Cov)]. cbn [store documents history task] in *. revert E. cbn [step build_step]. unfold index_document. rewrite Hx.
  set (l' := l ++ _). pose proof (world_app l [(IndexEnv env, LexicalIndexProps.CallAdd c (Text doc))] _ I2) as Er. fold l' in Er.
  cbn [LexicalIndexProps.run LexicalIndexProps.exec] in Er. pose proof (roomy_add (IndexEnv env) c (Text doc) (SearchIndex s) Hr) as Ev.
  destruct (LexicalIndex.AddDocument _ _ _ _) as [[i ok] ev]. cbn [snd] in Ev. subst ev. cbv beta iota in Er. cbn [LexicalIndexProps.run] in Er.
  assert (forall t', (task_ok s m (world l') c t' -> inv c (mkSys (set_index i s) t' m l'))) as Inv.
  { intros t' T. split; cbn [store documents history task]; [exact I1|by rewrite Er| |exact I4|exact T]. intros Hs. by destruct (proj1 G). }
  destruct ok; intros [= <- <-]; apply Inv; cbn [task_ok].
  - split; [done|]. split; [done|]. intros Cur. destruct (Cov Cur) as [Hm Co]. intros id d Hd. rewrite Er. cbn [snd LexicalIndexProps.replay].
    rewrite LexicalIndexProps.without_nil. unfold LexicalIndexProps.with_docs. rewrite bool_decide_true by done. destruct (decide (id = ID doc)) as [->|Hne].
    + right; right. rewrite Hm in Hd. injection Hd as <-. eexists. unfold ID. by rewrite lookup_insert_eq.
    + destruct (Co id d Hd) as [?|[?|[r Hi]]]; [by left|congruence|right; right]. exists r. by rewrite lookup_insert_ne by (intros E; by apply Hne).
  - split; [by destruct (UsePagedKeys b)|]. intros _ Hl. by destruct (UsePagedKeys b).
Qed.

Lemma finish_inv c s b m l : inv c (mkSys s (Scanned b) m l) -> inv c (mkSys (finish_build c b s) Finished m l).
Proof.
  intros I. pose proof (i_task _ _ I) as [G T]. cbn [store documents history task] in *. unfold finish_build.
  assert (forall st, (State st = Complete -> count m c <= SourceCount st -> all_in (world l) m c) -> Generation st = Generation (lazy_state c s) ->
            inv c (mkSys (put_state c st s) Finished m l)) as Put by (intros st C E; by apply (inv_state c s (Scanned b))).
  destruct (negb (_ =? _)) eqn:B1; [by apply Put|]. destruct (document_cap_reached b) eqn:B2; [by apply Put|].
  destruct (memory_limit_reached b) eqn:B3; [by apply Put|]. destruct (negb (scan_completed b)); [by apply Put|].
  apply Put; [|done]. cbn. intros _ Hn. apply T; [|done]. split; [|by split]. by apply negb_false_iff, Z.eqb_eq in B1.
Qed.

Lemma inv_step env scan c s s' t t' m l : clean c -> IndexThrows env = false -> roomy (IndexEnv env) -> takes_shortcut t = false -> step env scan c t s = (s', t') ->
  inv c (mkSys s t m l) -> inv c (mkSys s' t' m (l ++ index_calls env c t)).
Proof.
  intros Hc Hx Hr Ht E I. pose proof (i_store _ _ I) as R. pose proof (i_task _ _ I) as T. cbn [store documents history task] in R, T.
  destruct t as [ok|n| |n e|n|e|e|e|keys|keys|keys total|b|b keys|b doc keys|b|]; cbn [index_calls]; rewrite ?app_nil_r.
  - by injection E as <- <-.
  - injection E as <- <-. by eapply inv_quiet.
  - cbn [step build_step] in E. destruct (GetCollectionDocumentCount env c s) as [s1 k] eqn:E1. injection E as <- <-. eapply inv_quiet; [by eapply marks_count| |done|exact I].
    eapply same_represents; [|exact R]. apply same_database. by eapply count_database.
  - injection E as <- <-. eapply inv_quiet; [done|done| |exact I]. by destruct (_ && _).
  - done.
  - cbn [step build_step] in E. destruct (CollectionExists c s) as [s1 b] eqn:E1. injection E as <- <-. eapply inv_quiet; [by eapply marks_exists| | |exact I]; [|by destruct b].
    eapply same_represents; [|exact R]. apply same_database. by eapply exists_database.
  - injection E as <- <-. eapply inv_quiet; [done|done| |exact I]. by destruct (IsCollectionIndexing c s).
  - cbn [step build_step] in E. injection E as <- <-. eapply inv_quiet; [done|done| |exact I]. intros _. destruct (_ =? 0); [done|]. cbn [task_ok].
    destruct (_ <=? _); [by apply paged_keys|]. split; [constructor|by left].
  - cbn [step build_step] in E. unfold try_acquire in E. case_bool_decide; injection E as <- <-; [by eapply inv_quiet|]. by eapply inv_busy.
  - cbn [step build_step] in E. destruct (_ =? 0); injection E as <- <-; [by eapply inv_busy|]. eapply inv_quiet; [done|done| |exact I]. intros K. split; [exact K|].
    intros Hk. by rewrite bool_decide_false.
  - cbn [step build_step] in E. destruct (begin_build c keys total s) as [s1 b] eqn:E1. injection E as <- <-. by eapply step_begin.
  - cbn [step build_step] in E. injection E as <- <-. eapply inv_quiet; [done|done| |exact I]. intros K. split; [by eapply taken_keys|]. split; [exact K|]. by apply snapshot_covers.
  - eapply step_read in E as [-> T']; [|done..]. by eapply inv_quiet.
  - by eapply step_added.
  - injection E as <- <-. by apply finish_inv.
  - injection E as <- <-. by eapply inv_busy.
Qed.

Lemma trans_inv c x y : clean c -> inv c x -> trans c x y -> inv c y.
Proof.
  intros Hc I T. destruct T.
  - eapply inv_call; [apply Hc|done|done|done|exact I].
  - by eapply inv_step.
  - destruct I as [I1 I2 I3 I4 I5]. by split.
Qed.

(** Where a session starts: nothing is known about the index of the collection. *)

Record fresh (c : bytes) (x : Sys) : Prop := {
  f_store : represents (store x) (documents x);
  f_index : (LexicalIndexProps.run (history x) LexicalIndex.empty_index (fun _ => ∅)).1 = SearchIndex (store x);
  f_lazy : LazyIndexStates (store x) !! c = None;
  f_task : exists ok, task x = Returned ok
}.


(** ** Removing everything *)

Definition keyset (s : Manager) : gset bytes := list_to_set (listed (database s)).

Lemma keyset_spec k (s : Manager) : k ∈ keyset s <-> is_Some (stored (database s) k).
Proof. unfold keyset. rewrite elem_of_list_to_set. apply listed_spec. Qed.

Lemma keyset_del k (s s' : Manager) n : Del k s = (s', n) -> keyset s' ⊆ keyset s /\ (0 < n -> k ∉ keyset s').
Proof.
  unfold Del. destruct (db_del k (database s)) as [d x] eqn:E. intros [= <- <-]. apply del_spec in E as [Hx W].
  split; [intros j|intros Hn]; rewrite !keyset_spec; cbn [database set_database]; rewrite W.
  - destruct (_ && _); [by intros [? ?]|done].
  - destruct Hx as [-> | ->]; [lia|]. rewrite !bool_decide_true by done. by intros [? ?].
Qed.

Lemma keyset_range a b (s : Manager) : keyset (delete_range a b s) ⊆ keyset s.
Proof.
  intros k. rewrite !keyset_spec. unfold delete_range. destruct (db_delete_range _ _ _) as [d n] eqn:E. apply delete_range_spec in E as [_ W].
  cbn [database set_database fst]. rewrite W. destruct (_ && _); [by intros [? ?]|done].
Qed.

Lemma keyset_ranges l (s : Manager) : keyset (foldl (fun s r => delete_range (r ++ #":") (r ++ #";") s) s l) ⊆ keyset s.
Proof. revert s. induction l as [|r l IH]; intros s; [done|]. cbn [foldl]. etransitivity; [apply IH|apply keyset_range]. Qed.

Lemma keyset_remove keys : forall (s s' : Manager) n, remove_keys keys s = (s', n) -> keyset s' ⊆ keyset s /\ (0 < n -> exists k, k ∈ keys /\ k ∉ keyset s').
Proof.
  unfold remove_keys. induction keys as [|k keys IH] using rev_ind; intros s s' n; cbn [foldl]; [intros [= <- <-]; by split|].
  rewrite foldl_app. cbn [foldl]. destruct (foldl _ (s, 0) keys) as [s1 n1] eqn:E1. destruct (IH _ _ _ E1) as [I1 I2]. cbn [fst snd].
  destruct (Del k s1) as [s2 x] eqn:E2. apply keyset_del in E2 as [D1 D2]. intros [= <- <-]. split; [set_solver|]. intros Hn. destruct (0 <? x) eqn:B; cbn [one] in Hn.
  - exists k. split; [set_solver|]. apply D2. lia.
  - destruct I2 as (j & Hj & Hk); [lia|]. exists j. split; set_solver.
Qed.

Lemma sweep_ends fuel : forall s : Manager, (base.size (keyset s) < fuel)%nat -> exists s', sweep fuel s = Some s'.
Proof.
  induction fuel as [|fuel IH]; intros s Hs; [lia|]. cbn [sweep]. destruct (page 0 FlushAllResidualBatchSize (prefix_keys [] s)) as [|k l] eqn:E; [by eexists|].
  assert (forall j, j ∈ k :: l -> j ∈ keyset s) as Hin.
  { intros j Hj. rewrite <- E in Hj. apply page_elem in Hj. unfold prefix_keys in Hj. apply list_elem_of_In, List.filter_In in Hj as [Hj _]. unfold keyset. by apply elem_of_list_to_set, list_elem_of_In. }
  destruct (remove_keys (k :: l) s) as [s1 n] eqn:R. pose proof (keyset_remove _ _ _ _ R) as [R1 R2]. destruct (n =? 0) eqn:B; [by eexists|].
  apply IH. assert (keyset s1 ⊂ keyset s) as Hlt; [|apply subset_size in Hlt; lia]. split; [done|]. intros Hsub. destruct R2 as (j & Hj & Hk); [|by apply Hk, Hsub, Hin].
  assert (0 <= n); [|lia]. clear -R. unfold remove_keys in R. revert R. generalize (k :: l) as keys. intros keys. revert s1 n. induction keys as [|x keys IHk] using rev_ind; intros s1 n; [intros [= _ <-]; done|].
  rewrite foldl_app. cbn [foldl]. destruct (foldl _ (s, 0) keys) as [s2 n2] eqn:E2. specialize (IHk _ _ eq_refl). cbn [fst snd]. destruct (Del x s2) as [s3 y]. intros [= _ <-]. unfold one. destruct (0 <? y); lia.
Qed.

(** Only the database changes. *)

Definition swept (s s' : Manager) : Prop := exists d, s' = set_database d s.

Lemma swept_refl s : swept s s.
Proof. exists (database s). by destruct s. Qed.

Lemma swept_trans a b c : swept a b -> swept b c -> swept a c.
Proof. intros [d ->] [e ->]. by exists e. Qed.

Lemma swept_ranges l (s : Manager) : swept s (foldl (fun s r => delete_range (r ++ #":") (r ++ #";") s) s l).
Proof. revert s. induction l as [|r l IH]; intros s; [apply swept_refl|]. cbn [foldl]. eapply swept_trans; [|apply IH]. by eexists. Qed.

Lemma swept_remove keys : forall (s s' : Manager) n, remove_keys keys s = (s', n) -> swept s s'.
Proof.
  unfold remove_keys. induction keys as [|k keys IH] using rev_ind; intros s s' n; [intros [= <- _]; apply swept_refl|]. rewrite foldl_app. cbn [foldl].
  destruct (foldl _ (s, 0) keys) as [s1 n1] eqn:E1. apply IH in E1. cbn [fst snd]. unfold Del. destruct (db_del _ _) as [d x]. intros [= <- _].
  eapply swept_trans; [exact E1|]. by eexists.
Qed.

Lemma swept_sweep fuel : forall s s' : Manager, sweep fuel s = Some s' -> swept s s'.
Proof.
  induction fuel as [|fuel IH]; intros s s'; [done|]. cbn [sweep]. destruct (page _ _ _) as [|k l]; [intros [= <-]; apply swept_refl|].
  destruct (remove_keys (k :: l) s) as [s1 n] eqn:R. apply swept_remove in R. destruct (n =? 0); [by intros [= <-]|]. intros E%IH. by eapply swept_trans.
Qed.

(** C38. Removing everything ends, and leaves nothing when it is acknowledged. The batches
    of remaining keys come to an end after at most one for each key, whatever removals
    fail; and if the call answers true then no collection has a document, none is listed
    and no index is in memory. The files of the index stay where they were. *)
Theorem flush_all_clears fuel synced (s : Manager) : (base.size (keyset s) < fuel)%nat ->
  exists s' ok, FlushAll fuel synced s = Some (s', ok) /\ LexicalIndex.IndexDir (SearchIndex s') = LexicalIndex.IndexDir (SearchIndex s) /\
    (ok = true -> represents s' ∅ /\ Collections s' = ∅ /\ (forall c, LexicalIndex.HasInMemoryIndex c (SearchIndex s') = false) /\ CollectionListCache s' = []).
Proof.
  intros Hf. unfold FlushAll. set (s1 := RefreshCollectionListCacheLocked _). set (s2 := foldl _ s1 flushed_ranges).
  destruct (sweep_ends fuel s2) as [s3 E3].
  { eapply Nat.le_lt_trans; [|exact Hf]. apply subseteq_size. etransitivity; [apply keyset_ranges|]. unfold keyset, s1. by rewrite refresh_database. }
  rewrite E3. cbn [mbind option_bind]. destruct (db_delete_range _ _ _) as [d cleared] eqn:E4. eapply delete_range_spec in E4 as [Hc W].
  destruct (swept_trans _ _ _ (swept_ranges flushed_ranges s1) (swept_sweep _ _ _ E3)) as [d3 ->].
  assert (SearchIndex s1 = LexicalIndex.set_disk (LexicalIndex.IndexDir (SearchIndex s)) ∅ (LexicalIndex.Clear (SearchIndex s)) /\ Collections s1 = ∅ /\ CollectionListCache s1 = []) as (I1 & I2 & I3).
  { unfold s1, RefreshCollectionListCacheLocked. by destruct (_ <? _). }
  destruct (negb (0 <? cleared) || negb synced) eqn:B; eexists _, _; (split; [reflexivity|]); cbn [SearchIndex Collections CollectionListCache set_database set_responses]; rewrite I1; (split; [done|]); [done|].
  intros _. split; [|by rewrite I2, I3]. assert (cleared = 1) as -> by (destruct Hc as [-> | ->]; done). unfold represents. cbn [database set_database set_responses].
  assert (forall k, is_doc k = true -> stored d k = None) as Gone.
  { intros k Hk. rewrite W, bool_decide_true by done. cbn [andb]. change #"doc:" with (#"doc" ++ #":"). change #"doc;" with (#"doc" ++ #";"). rewrite colon_range. change (#"doc" ++ #":") with #"doc:". unfold is_doc in Hk. by rewrite Hk. }
  split.
  - intros c id _ _. unfold holds. rewrite lookup_empty. apply Gone, is_doc_key.
  - intros k Hk Hd. rewrite Gone in Hk by done. by destruct Hk.
  - intros c id [x Hx]. by rewrite lookup_empty in Hx.
Qed.

(** A call of the lazy build without the shortcut, as a run of the system. *)

Fixpoint direct (fuel : nat) (env : Env) (c : bytes) (t : Task) (s : Manager) : bool :=
  match fuel, t with
  | O, _ | _, Returned _ => true
  | S fuel, _ => negb (takes_shortcut t) && (let (s, t) := step env true c t s in direct fuel env c t s)
  end.

Lemma task_runs env c fuel : IndexThrows env = false -> roomy (IndexEnv env) -> forall t s m l, direct fuel env c t s = true -> forall r, run_task fuel env c t s = r ->
  exists l', rtc (trans c) (mkSys s t m l) (mkSys r.1 r.2 m l').
Proof.
  intros Hx Hr. induction fuel as [|fuel IH]; intros t s m l Hd r <-; [exists l; constructor|].
  assert (takes_shortcut t = false -> direct fuel env c (step env true c t s).2 (step env true c t s).1 = true -> exists l',
    rtc (trans c) (mkSys s t m l) (mkSys (run_task fuel env c (step env true c t s).2 (step env true c t s).1).1 (run_task fuel env c (step env true c t s).2 (step env true c t s).1).2 m l')) as Go.
  { intros Hs. destruct (step env true c t s) as [s' t'] eqn:E. intros Hd'. destruct (IH t' s' m (l ++ index_calls env c t) Hd' _ eq_refl) as [l' R].
    exists l'. eapply rtc_l; [by apply (trans_step c env true s s' t t' m l)|exact R]. }
  destruct t; try (exists l; constructor); cbn [direct run_task] in Hd |- *; apply andb_true_iff in Hd as [Hs%negb_true_iff Hd]; specialize (Go Hs);
    destruct (step env true c _ s) as [s' t']; by apply Go.
Qed.

End lazy.

(** ** Witnesses *)

#[local] Existing Instances coding_library SegmentsProps.map_store SegmentsProps.map_store_laws a_database a_database_laws.

Lemma roomy_none e : (forall c, LexicalIndex.MemoryEstimate e c = 0) -> roomy e.
Proof.
  intros E i. unfold LexicalIndex.EstimateLoadedMemoryLocked.
  assert (set_fold (fun c acc => LexicalIndex.u64 (acc + LexicalIndex.MemoryEstimate e c)) 0 (LexicalIndex.loaded_collections i) = 0) as ->; [|done].
  apply (set_fold_ind_L (fun r _ => r = 0)); [done|]. intros x X r _ ->. by rewrite E.
Qed.

Definition first_add : op := OpAdd #"books" (simple #"1" #"a" 4).

Definition stocked := (perform an_env first_add new_store).1.

Lemma first_add_tame : tame an_env first_add.
Proof.
  split; [by split|]. split; [split; [by apply clean_dec|by apply simple_storable]|]. split; [done|]. split; [by apply roomy_none|done].
Qed.

(** A document is added, a search finds the index dirty and builds it. *)

Definition built := run_task 20 an_env #"books" Called stocked.


(** ** What the conditions are for *)

Definition has_entry (id : bytes) (s : HybridStorageManager (PlainStore (gmap bytes bytes))) : bool :=
  bool_decide (is_Some (default ∅ (LexicalIndex.DocumentTerms (SearchIndex s) !! #"books") !! id)).

Definition marked_complete (s : HybridStorageManager (PlainStore (gmap bytes bytes))) : bool := IsCollectionIndexComplete #"books" (CountStoredDocuments #"books" s) s.

(** Between the list of keys and the generation one document leaves and another arrives. *)

Definition swapped : HybridStorageManager (PlainStore (gmap bytes bytes)) * Task :=
  let s := (perform an_env (OpBatch #"books" [simple #"1" #"a" 4; simple #"2" #"b" 4] false) new_store).1 in
  let (s, t) := run_task 6 an_env #"books" Called s in
  let s := (perform an_env (OpDelete #"books" #"1") s).1 in
  let s := (perform an_env (OpBatch #"books" [simple #"3" #"c" 4] false) s).1 in
  run_task 20 an_env #"books" t s.

Example swapped_document_missing : marked_complete swapped.1 = true /\ CountStoredDocuments #"books" swapped.1 = 2 /\
  (perform an_env (OpGet #"books" #"3") swapped.1).2 = Found (simple #"3" #"c" 4) /\ has_entry #"3" swapped.1 = false.
Proof. split; [vm_compute; reflexivity|]. split; [vm_compute; reflexivity|]. split; vm_compute; reflexivity. Qed.

(** The index throws for every document, and the build passes over them. *)

Definition throwing : Env := mkEnv 5000 7 (fun _ _ => #"und") (fun _ => #"und") true (IndexEnv an_env).

Definition skipped : HybridStorageManager (PlainStore (gmap bytes bytes)) :=
  (run_task 20 throwing #"books" Called (perform an_env (OpBatch #"books" [simple #"1" #"a" 4] false) new_store).1).1.

Example throwing_document_skipped : marked_complete skipped = true /\ CountStoredDocuments #"books" skipped = 1 /\ has_entry #"1" skipped = false.
Proof. split; [vm_compute; reflexivity|]. split; vm_compute; reflexivity. Qed.

(** The index of a collection that was flushed, in a new process. *)

Definition restarted (s : HybridStorageManager (PlainStore (gmap bytes bytes))) : HybridStorageManager (PlainStore (gmap bytes bytes)) :=
  set_index (LexicalIndex.LoadFromDisk (IndexEnv an_env) (LexicalIndex.new_process (SearchIndex s))).1 s.

Definition flushed_stock := flush_index an_env stocked.

(** A repair of a collection whose index is only mapped is not a success, even when it
    rebuilds the index. *)

Example repaired_but_no_success :
  let report := (RepairIntegrity an_env #"books" true (restarted flushed_stock)).2 in
  Success report = false /\ (fun r => (IndexRebuilt r, MetadataMatch (Status r), IndexMatch (Status r))) <$> Report_Collections report = [(true, true, true)].
Proof. split; vm_compute; reflexivity. Qed.

(** After everything was removed, the next process maps the index of the collection. *)

Example index_survives_flush_all :
  (fun x => (x.2, LexicalIndex.HasMMapIndex #"books" (SearchIndex (restarted x.1)))) <$> FlushAll 10 true flushed_stock = Some (true, true).
Proof. vm_compute. reflexivity. Qed.

Lemma flush_all_clears_witness : (base.size (keyset stocked) < 10)%nat /\ exists s', FlushAll 10 true stocked = Some (s', true) /\ represents s' ∅ /\ Collections s' = ∅.
Proof.
  assert (base.size (keyset stocked) < 10)%nat as Hf by (apply Nat.ltb_lt; vm_compute; reflexivity). split; [exact Hf|].
  destruct (flush_all_clears 10 true stocked Hf) as (s' & ok & E & _ & C). assert (snd <$> FlushAll 10 true stocked = Some true) as Eo by (vm_compute; reflexivity).
  exists s'. rewrite E in Eo. cbn in Eo. injection Eo as ->. destruct (C eq_refl) as (C1 & C2 & _). split; [exact E|]. split; [exact C1|exact C2].
Defined.

End LazyIndexProps.
