(* ===== verification/Regex.v ===== *)
(** * Regular expressions of <regex>

    The part of [std::regex] (ECMAScript) that the modelled sources use: sets of
    bytes, sequences, alternatives, greedy and lazy repetitions, groups and the two
    anchors, matched by backtracking in the order of the standard. A text that is
    left is a suffix of the input; the length of the input tells whether it starts
    there. [wholes] is the meaning of an expression without the order of the
    attempts; [run_sound] and [run_complete] connect the two. The library's limit on the
    depth of its recursion is not modelled. *)

From S2P Require Import Prelude CText.

Module Regex.

(** ** Expressions *)

Inductive regex :=
| One (p : ascii -> bool)
| Seq (a b : regex)
| Alt (a b : regex)
| Opt (a : regex)
| Star (greedy : bool) (a : regex)
| Group (n : nat) (a : regex)
| Bol
| Eol.

Definition Plus (greedy : bool) (a : regex) : regex := Seq a (Star greedy a).

Definition Char (c : ascii) : regex := One (fun d => bool_decide (d = c)).

(** A letter under [std::regex_constants::icase]. *)

Definition Letter (c : ascii) : regex := One (fun d => bool_decide (tolower d = tolower c)).

(** The groups that were matched, the last match of a group first. *)

Definition Groups := list (nat * bytes).

Fixpoint group (n : nat) (g : Groups) : bytes :=
  match g with
  | [] => []
  | (k, s) :: r => if bool_decide (k = n) then s else group n r
  end.

(** ** The backtracking matcher *)

Section Run.
Context {X : Type} (total : nat).

(** A repetition: [n] bounds the number of rounds, a round that takes nothing ends
    in failure. *)

Fixpoint run_star (body : bytes -> Groups -> (bytes -> Groups -> option X) -> option X) (greedy : bool) (n : nat) (s : bytes) (g : Groups) (k : bytes -> Groups -> option X) : option X :=
  match n with
  | O => k s g
  | S n =>
      let again := body s g (fun s' g' => if (length s' <? length s)%nat then run_star body greedy n s' g' k else None) in
      if greedy then match again with Some x => Some x | None => k s g end
      else match k s g with Some x => Some x | None => again end
  end.

Fixpoint run (r : regex) (s : bytes) (g : Groups) (k : bytes -> Groups -> option X) {struct r} : option X :=
  match r with
  | One p => match s with c :: s' => if p c then k s' g else None | [] => None end
  | Seq a b => run a s g (fun s' g' => run b s' g' k)
  | Alt a b => match run a s g k with Some x => Some x | None => run b s g k end
  | Opt a => match run a s g k with Some x => Some x | None => k s g end
  | Star greedy a => run_star (run a) greedy (length s) s g k
  | Group n a => run a s g (fun s' g' => k s' ((n, take (length s - length s') s) :: g'))
  | Bol => if (length s =? total)%nat then k s g else None
  | Eol => if bool_decide (s = []) then k s g else None
  end.

End Run.

(** ** Searches *)

(** A match: the text before it since the previous one, its groups, and what follows. *)

Record Match := mkMatch { Skipped : bytes; Found : Groups; Rest : bytes }.

Fixpoint search (total : nat) (r : regex) (skipped s : bytes) : option Match :=
  match run total r s [] (fun s' g => if (length s' <? length s)%nat then Some (s', g) else None) with
  | Some (s', g) => Some (mkMatch skipped g s')
  | None => match s with [] => None | c :: t => search total r (skipped ++ [c]) t end
  end.

(** [std::sregex_iterator]: the matches one after the other and the text behind the
    last one. Every match takes at least one byte: no expression of the sources
    matches the empty text. *)

Fixpoint iterate (fuel total : nat) (r : regex) (s : bytes) : list Match * bytes :=
  match fuel with
  | O => ([], s)
  | S fuel =>
      match search total r [] s with
      | None => ([], s)
      | Some m => let (ms, rest) := iterate fuel total r (Rest m) in (m :: ms, rest)
      end
  end.

Definition matches (r : regex) (s : bytes) : list Match * bytes := iterate (length s) (length s) r s.

(** [std::regex_replace] with a format without references. *)

Definition replace (r : regex) (by_text s : bytes) : bytes :=
  let (ms, rest) := matches r s in concat ((fun m => Skipped m ++ by_text) <$> ms) ++ rest.

(** ** The meaning of an expression *)

Section Meaning.
Variable total : nat.

(** [wholes r s g s' g']: [r] matches what [s] has and [s'] has not, and the groups
    grow from [g] to [g']. *)

Inductive wholes : regex -> bytes -> Groups -> bytes -> Groups -> Prop :=
| w_one p c s g : p c = true -> wholes (One p) (c :: s) g s g
| w_seq a b s g s1 g1 s2 g2 : wholes a s g s1 g1 -> wholes b s1 g1 s2 g2 -> wholes (Seq a b) s g s2 g2
| w_left a b s g s1 g1 : wholes a s g s1 g1 -> wholes (Alt a b) s g s1 g1
| w_right a b s g s1 g1 : wholes b s g s1 g1 -> wholes (Alt a b) s g s1 g1
| w_some a s g s1 g1 : wholes a s g s1 g1 -> wholes (Opt a) s g s1 g1
| w_none a s g : wholes (Opt a) s g s g
| w_stop gr a s g : wholes (Star gr a) s g s g
| w_more gr a s g s1 g1 s2 g2 :
    wholes a s g s1 g1 -> (length s1 < length s)%nat -> wholes (Star gr a) s1 g1 s2 g2 -> wholes (Star gr a) s g s2 g2
| w_group n a s g s1 g1 : wholes a s g s1 g1 -> wholes (Group n a) s g s1 ((n, take (length s - length s1) s) :: g1)
| w_bol s g : length s = total -> wholes Bol s g s g
| w_eol g : wholes Eol [] g [] g.

Lemma wholes_suffix r s g s' g' : wholes r s g s' g' -> exists w, s = w ++ s'.
Proof.
  induction 1 as [p c s g H|a b s g s1 g1 s2 g2 _ [w1 ->] _ [w2 ->]|a b s g s1 g1 _ IH|a b s g s1 g1 _ IH|a s g s1 g1 _ IH|
                  |  |gr a s g s1 g1 s2 g2 _ [w1 ->] _ _ [w2 ->]|n a s g s1 g1 _ IH| |]; try done; try (by exists []).
  - by exists [c].
  - exists (w1 ++ w2). by rewrite <- app_assoc.
  - exists (w1 ++ w2). by rewrite <- app_assoc.
Qed.

Context {X : Type}.

#[local] Ltac attempt H := match type of H with match ?e with Some _ => _ | None => _ end = _ => destruct e eqn:? end.
#[local] Ltac attempts := match goal with |- match ?e with Some _ => _ | None => _ end <> _ => destruct e eqn:? end; try done.

Definition sound (r : regex) : Prop := forall s g (k : bytes -> Groups -> option X) x,
  run total r s g k = Some x -> exists s' g', wholes r s g s' g' /\ k s' g' = Some x.

Definition complete (r : regex) : Prop := forall s g s' g' (k : bytes -> Groups -> option X),
  wholes r s g s' g' -> k s' g' <> None -> run total r s g k <> None.

Lemma star_sound a gr : sound a -> forall n s g (k : bytes -> Groups -> option X) x,
  run_star (run total a) gr n s g k = Some x -> exists s' g', wholes (Star gr a) s g s' g' /\ k s' g' = Some x.
Proof.
  intros Ha. induction n as [|n IH]; intros s g k x H; simpl in H; [eauto using w_stop|].
  assert (A : run total a s g (fun s' g' => if (length s' <? length s)%nat then run_star (run total a) gr n s' g' k else None) = Some x ->
              exists s' g', wholes (Star gr a) s g s' g' /\ k s' g' = Some x).
  { intros (s1 & g1 & H1 & H2)%Ha. destruct (Nat.ltb_spec (length s1) (length s)); [|done].
    apply IH in H2 as (s2 & g2 & H2 & H3). eauto using w_more. }
  destruct gr; attempt H; simplify_eq; eauto using w_stop.
Qed.

Lemma run_sound r : sound r.
Proof.
  induction r as [p|a IHa b IHb|a IHa b IHb|a IHa|gr a IHa|n a IHa| |]; intros s g k x H; simpl in H.
  - destruct s as [|c s]; [done|]. destruct (p c) eqn:E; [|done]. eauto using w_one.
  - apply IHa in H as (s1 & g1 & H1 & H2). apply IHb in H2 as (s2 & g2 & H2 & H3). eauto using w_seq.
  - attempt H; [simplify_eq|].
    + apply IHa in Heqo as (s1 & g1 & ? & ?). eauto using w_left.
    + apply IHb in H as (s1 & g1 & ? & ?). eauto using w_right.
  - attempt H; [simplify_eq|eauto using w_none]. apply IHa in Heqo as (s1 & g1 & ? & ?). eauto using w_some.
  - by eapply star_sound.
  - apply IHa in H as (s1 & g1 & ? & ?). eauto using w_group.
  - destruct (Nat.eqb_spec (length s) total); [|done]. eauto using w_bol.
  - case_bool_decide; [|done]. subst. eauto using w_eol.
Qed.

Lemma star_complete a gr : complete a -> forall r s g s' g', wholes r s g s' g' -> r = Star gr a ->
  forall n (k : bytes -> Groups -> option X), (length s <= n)%nat -> k s' g' <> None -> run_star (run total a) gr n s g k <> None.
Proof.
  intros Ha. induction 1 as [| | | | | |gr' a' s g|gr' a' s g s1 g1 s2 g2 H1 _ Hl H2 IH| | | ]; intros [= -> ->] fuel k Hn Hk.
  - destruct fuel as [|fuel]; [done|]. simpl. destruct gr; attempts.
  - destruct fuel as [|fuel]; [lia|]. simpl.
    assert (A : run total a s g (fun s' g' => if (length s' <? length s)%nat then run_star (run total a) gr fuel s' g' k else None) <> None).
    { apply (Ha _ _ _ _ _ H1). destruct (Nat.ltb_spec (length s1) (length s)); [|lia]. apply IH; [done|lia|done]. }
    destruct gr; attempts.
Qed.

Lemma run_complete r : complete r.
Proof.
  induction r as [p|a IHa b IHb|a IHa b IHb|a IHa|gr a IHa|n a IHa| |]; intros s g s' g' k H Hk; simpl.
  - inversion H; subst. match goal with E : p _ = true |- _ => by rewrite E end.
  - inversion H; subst. eapply IHa; [done|]. by eapply IHb.
  - inversion H; subst; attempts; [exfalso; by eapply IHa|by eapply IHb].
  - inversion H; subst; attempts. exfalso. by eapply IHa.
  - eapply star_complete; [done|done|done|lia|done].
  - inversion H; subst. by eapply IHa.
  - destruct (Nat.eqb_spec (length s) total) as [E|E]; inversion H; subst; congruence.
  - inversion H; subst. done.
Qed.

End Meaning.

(** ** Searches, by their meaning *)

(** At no position of [s] before [t] the expression matches. *)

Definition absent (total : nat) (r : regex) (s : bytes) : Prop :=
  forall g' s', wholes total r s [] s' g' -> (length s' < length s)%nat -> False.

Lemma run_absent total r s : absent total r s ->
  run total r s [] (fun s' g => if (length s' <? length s)%nat then Some (s', g) else None) = None.
Proof.
  intros H. destruct (run total r s [] _) as [[s' g']|] eqn:E; [|done]. apply run_sound in E as (s1 & g1 & H1 & H2).
  destruct (Nat.ltb_spec (length s1) (length s)); [|done]. exfalso. by eapply H.
Qed.

Lemma search_absent total r c s skipped : absent total r (c :: s) -> search total r skipped (c :: s) = search total r (skipped ++ [c]) s.
Proof. intros H. cbn [search]. by rewrite run_absent. Qed.

Lemma search_skips total r w s skipped : (forall w1 w2, w = w1 ++ w2 -> w2 <> [] -> absent total r (w2 ++ s)) ->
  search total r skipped (w ++ s) = search total r (skipped ++ w) s.
Proof.
  revert skipped. induction w as [|c w IH]; intros skipped H; [by rewrite app_nil_r|].
  rewrite <- app_comm_cons, search_absent by (by apply (H [] (c :: w))). rewrite IH, <- app_assoc; [done|].
  intros w1 w2 -> Hw. by apply (H (c :: w1) w2).
Qed.

Lemma search_none total r s skipped : (forall w1 w2, s = w1 ++ w2 -> absent total r w2) -> search total r skipped s = None.
Proof.
  revert skipped. induction s as [|c s IH]; intros skipped H.
  - cbn [search]. by rewrite run_absent by (by apply (H [] [])).
  - rewrite search_absent by (by apply (H [] (c :: s))). apply IH. intros w1 w2 ->. by apply (H (c :: w1) w2).
Qed.

(** The match is known when the meaning leaves one possibility. *)

Lemma search_here total r s skipped s1 g1 :
  wholes total r s [] s1 g1 -> (length s1 < length s)%nat ->
  (forall s2 g2, wholes total r s [] s2 g2 -> (length s2 < length s)%nat -> s2 = s1 /\ g2 = g1) ->
  search total r skipped s = Some (mkMatch skipped g1 s1).
Proof.
  intros H Hl Hu.
  assert (run total r s [] (fun s' g => if (length s' <? length s)%nat then Some (s', g) else None) = Some (s1, g1)) as E.
  { destruct (run total r s [] _) as [[s2 g2]|] eqn:E.
    - apply run_sound in E as (s3 & g3 & H1 & H2). destruct (Nat.ltb_spec (length s3) (length s)); [|done]. simplify_eq.
      by destruct (Hu _ _ H1) as [-> ->].
    - exfalso. revert E. eapply run_complete; [done|]. by destruct (Nat.ltb_spec (length s1) (length s)); [|lia]. }
  destruct s; cbn [search]; by rewrite E.
Qed.

End Regex.
