(* ===== verification/QueryObject.v ===== *)
(** * The query object of a search: src/include/api/searchapi.h

    [ComprehensiveSearchQuery] with its defaults, and one assignment per member the
    parameter parser writes. The members it never writes (the page tokens, the
    remote embedding, the overrides, the analytics tag, the parsed vector and
    geographical conditions) are left out; a [std::map] is a sorted list. *)

From Stdlib Require Import SpecFloat.
From S2P Require Import Prelude CText.

Module QueryObject.

(** ** binary32 *)

Definition float : Set := spec_float.

Definition round_float (f : fnum) : float :=
  match f with
  | FInf neg => S754_infinity neg
  | FNan => S754_nan
  | FFin neg m base e =>
      match m with
      | Zpos p =>
          if 0 <=? e
          then binary_normalize 24 128 ((if neg then -1 else 1) * (m * base ^ e)) 0 neg
          else match base ^ (- e) with
               | Zpos q => SFdiv 24 128 (S754_finite neg p 0) (S754_finite false q 0)
               | _ => S754_nan
               end
      | _ => S754_zero neg
      end
  end.

(** The conversion of a finite literal is exact. *)

Definition exact_float (f : fnum) : bool :=
  match f, round_float f with
  | FFin _ m base e, S754_finite _ mr er =>
      m * base ^ Z.max e 0 * 2 ^ Z.max (- er) 0 =? Zpos mr * 2 ^ Z.max er 0 * base ^ Z.max (- e) 0
  | FFin _ m _ _, S754_zero _ => m =? 0
  | FFin _ _ _ _, _ => false
  | _, _ => true
  end.

(** [errno == ERANGE] after [strtof]: overflow, or an inexact result below the
    smallest normal number. *)

Definition float_erange (f : fnum) : bool :=
  match f with
  | FFin _ _ _ _ =>
      match round_float f with
      | S754_infinity _ => true
      | S754_zero _ => negb (exact_float f)
      | S754_finite _ mr er => (Zpos mr * 2 ^ Z.max (er + 149) 0 <? 2 ^ 23) && negb (exact_float f)
      | S754_nan => false
      end
  | _ => false
  end.

(** [std::stof]; [None] is a thrown exception. *)

Definition stof (s : bytes) : option float :=
  match strtod (cstr s) with
  | None => None
  | Some (f, _) => if float_erange f then None else Some (round_float f)
  end.

(** ** struct ComprehensiveSearchQuery *)

Record ComprehensiveSearchQuery := mkQuery {
  Q : bytes;
  QueryBy : list bytes;
  FilterBy : bytes;
  FacetBy : list bytes;
  FacetQuery : list (bytes * bytes);
  MaxFacetValues : Z;
  PerPage : Z;
  Page : Z;
  Offset : Z;
  SortBy : list bytes;
  Highlight : bool;
  HighlightFields : list bytes;
  HighlightFullFields : bytes;
  IncludeFields : list bytes;
  ExcludeFields : list bytes;
  NumTypos : Z;
  NumTyposExplicit : bool;
  DropTokensThreshold : Z;
  TypoTokensThreshold : Z;
  Prefix : bool;
  InlineFuzzy : bool;
  GroupBy : list bytes;
  GroupLimit : Z;
  PrioritizeExactMatch : bool;
  ExhaustiveSearch : bool;
  CaseSensitive : bool;
  TermBoosts : list (bytes * double);
  HybridAlpha : float;
  VectorQueryStr : bytes;
  Embedding : bytes;
  GeoSortBy : bytes;
  EnableSynonyms : bool;
  EnableStopwords : bool;
  Aggregations : bytes;
  IncludeCreatedAt : bool;
  IncludeVectorDistance : bool;
  IncludeSearchExecution : bool;
  IncludeSearchExecutionExplicit : bool;
  IncludeSearchQueryText : bool
}.

Definition default_query : ComprehensiveSearchQuery :=
  mkQuery
    [] [] [] [] [] 10 10 1 0 [] false [] [] [] [] 2 false 0 2 false false [] 3 true false false [] (round_float (FFin false 5 10 (-1))) [] [] [] true
    true [] false false true false false.

(** ** Assignments *)

Definition set_Q (v : bytes) (q : ComprehensiveSearchQuery) : ComprehensiveSearchQuery :=
  mkQuery
    v (QueryBy q) (FilterBy q) (FacetBy q) (FacetQuery q) (MaxFacetValues q) (PerPage q) (Page q) (Offset q) (SortBy q) (Highlight q)
    (HighlightFields q) (HighlightFullFields q) (IncludeFields q) (ExcludeFields q) (NumTypos q) (NumTyposExplicit q) (DropTokensThreshold q)
    (TypoTokensThreshold q) (Prefix q) (InlineFuzzy q) (GroupBy q) (GroupLimit q) (PrioritizeExactMatch q) (ExhaustiveSearch q) (CaseSensitive q)
    (TermBoosts q) (HybridAlpha q) (VectorQueryStr q) (Embedding q) (GeoSortBy q) (EnableSynonyms q) (EnableStopwords q) (Aggregations q)
    (IncludeCreatedAt q) (IncludeVectorDistance q) (IncludeSearchExecution q) (IncludeSearchExecutionExplicit q) (IncludeSearchQueryText q).

Definition set_QueryBy (v : list bytes) (q : ComprehensiveSearchQuery) : ComprehensiveSearchQuery :=
  mkQuery
    (Q q) v (FilterBy q) (FacetBy q) (FacetQuery q) (MaxFacetValues q) (PerPage q) (Page q) (Offset q) (SortBy q) (Highlight q) (HighlightFields q)
    (HighlightFullFields q) (IncludeFields q) (ExcludeFields q) (NumTypos q) (NumTyposExplicit q) (DropTokensThreshold q) (TypoTokensThreshold q)
    (Prefix q) (InlineFuzzy q) (GroupBy q) (GroupLimit q) (PrioritizeExactMatch q) (ExhaustiveSearch q) (CaseSensitive q) (TermBoosts q)
    (HybridAlpha q) (VectorQueryStr q) (Embedding q) (GeoSortBy q) (EnableSynonyms q) (EnableStopwords q) (Aggregations q) (IncludeCreatedAt q)
    (IncludeVectorDistance q) (IncludeSearchExecution q) (IncludeSearchExecutionExplicit q) (IncludeSearchQueryText q).

Definition set_FilterBy (v : bytes) (q : ComprehensiveSearchQuery) : ComprehensiveSearchQuery :=
  mkQuery
    (Q q) (QueryBy q) v (FacetBy q) (FacetQuery q) (MaxFacetValues q) (PerPage q) (Page q) (Offset q) (SortBy q) (Highlight q) (HighlightFields q)
    (HighlightFullFields q) (IncludeFields q) (ExcludeFields q) (NumTypos q) (NumTyposExplicit q) (DropTokensThreshold q) (TypoTokensThreshold q)
    (Prefix q) (InlineFuzzy q) (GroupBy q) (GroupLimit q) (PrioritizeExactMatch q) (ExhaustiveSearch q) (CaseSensitive q) (TermBoosts q)
    (HybridAlpha q) (VectorQueryStr q) (Embedding q) (GeoSortBy q) (EnableSynonyms q) (EnableStopwords q) (Aggregations q) (IncludeCreatedAt q)
    (IncludeVectorDistance q) (IncludeSearchExecution q) (IncludeSearchExecutionExplicit q) (IncludeSearchQueryText q).

Definition set_FacetBy (v : list bytes) (q : ComprehensiveSearchQuery) : ComprehensiveSearchQuery :=
  mkQuery
    (Q q) (QueryBy q) (FilterBy q) v (FacetQuery q) (MaxFacetValues q) (PerPage q) (Page q) (Offset q) (SortBy q) (Highlight q) (HighlightFields q)
    (HighlightFullFields q) (IncludeFields q) (ExcludeFields q) (NumTypos q) (NumTyposExplicit q) (DropTokensThreshold q) (TypoTokensThreshold q)
    (Prefix q) (InlineFuzzy q) (GroupBy q) (GroupLimit q) (PrioritizeExactMatch q) (ExhaustiveSearch q) (CaseSensitive q) (TermBoosts q)
    (HybridAlpha q) (VectorQueryStr q) (Embedding q) (GeoSortBy q) (EnableSynonyms q) (EnableStopwords q) (Aggregations q) (IncludeCreatedAt q)
    (IncludeVectorDistance q) (IncludeSearchExecution q) (IncludeSearchExecutionExplicit q) (IncludeSearchQueryText q).

Definition set_FacetQuery (v : list (bytes * bytes)) (q : ComprehensiveSearchQuery) : ComprehensiveSearchQuery :=
  mkQuery
    (Q q) (QueryBy q) (FilterBy q) (FacetBy q) v (MaxFacetValues q) (PerPage q) (Page q) (Offset q) (SortBy q) (Highlight q) (HighlightFields q)
    (HighlightFullFields q) (IncludeFields q) (ExcludeFields q) (NumTypos q) (NumTyposExplicit q) (DropTokensThreshold q) (TypoTokensThreshold q)
    (Prefix q) (InlineFuzzy q) (GroupBy q) (GroupLimit q) (PrioritizeExactMatch q) (ExhaustiveSearch q) (CaseSensitive q) (TermBoosts q)
    (HybridAlpha q) (VectorQueryStr q) (Embedding q) (GeoSortBy q) (EnableSynonyms q) (EnableStopwords q) (Aggregations q) (IncludeCreatedAt q)
    (IncludeVectorDistance q) (IncludeSearchExecution q) (IncludeSearchExecutionExplicit q) (IncludeSearchQueryText q).

Definition set_MaxFacetValues (v : Z) (q : ComprehensiveSearchQuery) : ComprehensiveSearchQuery :=
  mkQuery
    (Q q) (QueryBy q) (FilterBy q) (FacetBy q) (FacetQuery q) v (PerPage q) (Page q) (Offset q) (SortBy q) (Highlight q) (HighlightFields q)
    (HighlightFullFields q) (IncludeFields q) (ExcludeFields q) (NumTypos q) (NumTyposExplicit q) (DropTokensThreshold q) (TypoTokensThreshold q)
    (Prefix q) (InlineFuzzy q) (GroupBy q) (GroupLimit q) (PrioritizeExactMatch q) (ExhaustiveSearch q) (CaseSensitive q) (TermBoosts q)
    (HybridAlpha q) (VectorQueryStr q) (Embedding q) (GeoSortBy q) (EnableSynonyms q) (EnableStopwords q) (Aggregations q) (IncludeCreatedAt q)
    (IncludeVectorDistance q) (IncludeSearchExecution q) (IncludeSearchExecutionExplicit q) (IncludeSearchQueryText q).

Definition set_PerPage (v : Z) (q : ComprehensiveSearchQuery) : ComprehensiveSearchQuery :=
  mkQuery
    (Q q) (QueryBy q) (FilterBy q) (FacetBy q) (FacetQuery q) (MaxFacetValues q) v (Page q) (Offset q) (SortBy q) (Highlight q) (HighlightFields q)
    (HighlightFullFields q) (IncludeFields q) (ExcludeFields q) (NumTypos q) (NumTyposExplicit q) (DropTokensThreshold q) (TypoTokensThreshold q)
    (Prefix q) (InlineFuzzy q) (GroupBy q) (GroupLimit q) (PrioritizeExactMatch q) (ExhaustiveSearch q) (CaseSensitive q) (TermBoosts q)
    (HybridAlpha q) (VectorQueryStr q) (Embedding q) (GeoSortBy q) (EnableSynonyms q) (EnableStopwords q) (Aggregations q) (IncludeCreatedAt q)
    (IncludeVectorDistance q) (IncludeSearchExecution q) (IncludeSearchExecutionExplicit q) (IncludeSearchQueryText q).

Definition set_Page (v : Z) (q : ComprehensiveSearchQuery) : ComprehensiveSearchQuery :=
  mkQuery
    (Q q) (QueryBy q) (FilterBy q) (FacetBy q) (FacetQuery q) (MaxFacetValues q) (PerPage q) v (Offset q) (SortBy q) (Highlight q) (HighlightFields q)
    (HighlightFullFields q) (IncludeFields q) (ExcludeFields q) (NumTypos q) (NumTyposExplicit q) (DropTokensThreshold q) (TypoTokensThreshold q)
    (Prefix q) (InlineFuzzy q) (GroupBy q) (GroupLimit q) (PrioritizeExactMatch q) (ExhaustiveSearch q) (CaseSensitive q) (TermBoosts q)
    (HybridAlpha q) (VectorQueryStr q) (Embedding q) (GeoSortBy q) (EnableSynonyms q) (EnableStopwords q) (Aggregations q) (IncludeCreatedAt q)
    (IncludeVectorDistance q) (IncludeSearchExecution q) (IncludeSearchExecutionExplicit q) (IncludeSearchQueryText q).

Definition set_Offset (v : Z) (q : ComprehensiveSearchQuery) : ComprehensiveSearchQuery :=
  mkQuery
    (Q q) (QueryBy q) (FilterBy q) (FacetBy q) (FacetQuery q) (MaxFacetValues q) (PerPage q) (Page q) v (SortBy q) (Highlight q) (HighlightFields q)
    (HighlightFullFields q) (IncludeFields q) (ExcludeFields q) (NumTypos q) (NumTyposExplicit q) (DropTokensThreshold q) (TypoTokensThreshold q)
    (Prefix q) (InlineFuzzy q) (GroupBy q) (GroupLimit q) (PrioritizeExactMatch q) (ExhaustiveSearch q) (CaseSensitive q) (TermBoosts q)
    (HybridAlpha q) (VectorQueryStr q) (Embedding q) (GeoSortBy q) (EnableSynonyms q) (EnableStopwords q) (Aggregations q) (IncludeCreatedAt q)
    (IncludeVectorDistance q) (IncludeSearchExecution q) (IncludeSearchExecutionExplicit q) (IncludeSearchQueryText q).

Definition set_SortBy (v : list bytes) (q : ComprehensiveSearchQuery) : ComprehensiveSearchQuery :=
  mkQuery
    (Q q) (QueryBy q) (FilterBy q) (FacetBy q) (FacetQuery q) (MaxFacetValues q) (PerPage q) (Page q) (Offset q) v (Highlight q) (HighlightFields q)
    (HighlightFullFields q) (IncludeFields q) (ExcludeFields q) (NumTypos q) (NumTyposExplicit q) (DropTokensThreshold q) (TypoTokensThreshold q)
    (Prefix q) (InlineFuzzy q) (GroupBy q) (GroupLimit q) (PrioritizeExactMatch q) (ExhaustiveSearch q) (CaseSensitive q) (TermBoosts q)
    (HybridAlpha q) (VectorQueryStr q) (Embedding q) (GeoSortBy q) (EnableSynonyms q) (EnableStopwords q) (Aggregations q) (IncludeCreatedAt q)
    (IncludeVectorDistance q) (IncludeSearchExecution q) (IncludeSearchExecutionExplicit q) (IncludeSearchQueryText q).

Definition set_Highlight (v : bool) (q : ComprehensiveSearchQuery) : ComprehensiveSearchQuery :=
  mkQuery
    (Q q) (QueryBy q) (FilterBy q) (FacetBy q) (FacetQuery q) (MaxFacetValues q) (PerPage q) (Page q) (Offset q) (SortBy q) v (HighlightFields q)
    (HighlightFullFields q) (IncludeFields q) (ExcludeFields q) (NumTypos q) (NumTyposExplicit q) (DropTokensThreshold q) (TypoTokensThreshold q)
    (Prefix q) (InlineFuzzy q) (GroupBy q) (GroupLimit q) (PrioritizeExactMatch q) (ExhaustiveSearch q) (CaseSensitive q) (TermBoosts q)
    (HybridAlpha q) (VectorQueryStr q) (Embedding q) (GeoSortBy q) (EnableSynonyms q) (EnableStopwords q) (Aggregations q) (IncludeCreatedAt q)
    (IncludeVectorDistance q) (IncludeSearchExecution q) (IncludeSearchExecutionExplicit q) (IncludeSearchQueryText q).

Definition set_HighlightFields (v : list bytes) (q : ComprehensiveSearchQuery) : ComprehensiveSearchQuery :=
  mkQuery
    (Q q) (QueryBy q) (FilterBy q) (FacetBy q) (FacetQuery q) (MaxFacetValues q) (PerPage q) (Page q) (Offset q) (SortBy q) (Highlight q) v
    (HighlightFullFields q) (IncludeFields q) (ExcludeFields q) (NumTypos q) (NumTyposExplicit q) (DropTokensThreshold q) (TypoTokensThreshold q)
    (Prefix q) (InlineFuzzy q) (GroupBy q) (GroupLimit q) (PrioritizeExactMatch q) (ExhaustiveSearch q) (CaseSensitive q) (TermBoosts q)
    (HybridAlpha q) (VectorQueryStr q) (Embedding q) (GeoSortBy q) (EnableSynonyms q) (EnableStopwords q) (Aggregations q) (IncludeCreatedAt q)
    (IncludeVectorDistance q) (IncludeSearchExecution q) (IncludeSearchExecutionExplicit q) (IncludeSearchQueryText q).

Definition set_HighlightFullFields (v : bytes) (q : ComprehensiveSearchQuery) : ComprehensiveSearchQuery :=
  mkQuery
    (Q q) (QueryBy q) (FilterBy q) (FacetBy q) (FacetQuery q) (MaxFacetValues q) (PerPage q) (Page q) (Offset q) (SortBy q) (Highlight q)
    (HighlightFields q) v (IncludeFields q) (ExcludeFields q) (NumTypos q) (NumTyposExplicit q) (DropTokensThreshold q) (TypoTokensThreshold q)
    (Prefix q) (InlineFuzzy q) (GroupBy q) (GroupLimit q) (PrioritizeExactMatch q) (ExhaustiveSearch q) (CaseSensitive q) (TermBoosts q)
    (HybridAlpha q) (VectorQueryStr q) (Embedding q) (GeoSortBy q) (EnableSynonyms q) (EnableStopwords q) (Aggregations q) (IncludeCreatedAt q)
    (IncludeVectorDistance q) (IncludeSearchExecution q) (IncludeSearchExecutionExplicit q) (IncludeSearchQueryText q).

Definition set_IncludeFields (v : list bytes) (q : ComprehensiveSearchQuery) : ComprehensiveSearchQuery :=
  mkQuery
    (Q q) (QueryBy q) (FilterBy q) (FacetBy q) (FacetQuery q) (MaxFacetValues q) (PerPage q) (Page q) (Offset q) (SortBy q) (Highlight q)
    (HighlightFields q) (HighlightFullFields q) v (ExcludeFields q) (NumTypos q) (NumTyposExplicit q) (DropTokensThreshold q) (TypoTokensThreshold q)
    (Prefix q) (InlineFuzzy q) (GroupBy q) (GroupLimit q) (PrioritizeExactMatch q) (ExhaustiveSearch q) (CaseSensitive q) (TermBoosts q)
    (HybridAlpha q) (VectorQueryStr q) (Embedding q) (GeoSortBy q) (EnableSynonyms q) (EnableStopwords q) (Aggregations q) (IncludeCreatedAt q)
    (IncludeVectorDistance q) (IncludeSearchExecution q) (IncludeSearchExecutionExplicit q) (IncludeSearchQueryText q).

Definition set_ExcludeFields (v : list bytes) (q : ComprehensiveSearchQuery) : ComprehensiveSearchQuery :=
  mkQuery
    (Q q) (QueryBy q) (FilterBy q) (FacetBy q) (FacetQuery q) (MaxFacetValues q) (PerPage q) (Page q) (Offset q) (SortBy q) (Highlight q)
    (HighlightFields q) (HighlightFullFields q) (IncludeFields q) v (NumTypos q) (NumTyposExplicit q) (DropTokensThreshold q) (TypoTokensThreshold q)
    (Prefix q) (InlineFuzzy q) (GroupBy q) (GroupLimit q) (PrioritizeExactMatch q) (ExhaustiveSearch q) (CaseSensitive q) (TermBoosts q)
    (HybridAlpha q) (VectorQueryStr q) (Embedding q) (GeoSortBy q) (EnableSynonyms q) (EnableStopwords q) (Aggregations q) (IncludeCreatedAt q)
    (IncludeVectorDistance q) (IncludeSearchExecution q) (IncludeSearchExecutionExplicit q) (IncludeSearchQueryText q).

Definition set_NumTypos (v : Z) (q : ComprehensiveSearchQuery) : ComprehensiveSearchQuery :=
  mkQuery
    (Q q) (QueryBy q) (FilterBy q) (FacetBy q) (FacetQuery q) (MaxFacetValues q) (PerPage q) (Page q) (Offset q) (SortBy q) (Highlight q)
    (HighlightFields q) (HighlightFullFields q) (IncludeFields q) (ExcludeFields q) v (NumTyposExplicit q) (DropTokensThreshold q)
    (TypoTokensThreshold q) (Prefix q) (InlineFuzzy q) (GroupBy q) (GroupLimit q) (PrioritizeExactMatch q) (ExhaustiveSearch q) (CaseSensitive q)
    (TermBoosts q) (HybridAlpha q) (VectorQueryStr q) (Embedding q) (GeoSortBy q) (EnableSynonyms q) (EnableStopwords q) (Aggregations q)
    (IncludeCreatedAt q) (IncludeVectorDistance q) (IncludeSearchExecution q) (IncludeSearchExecutionExplicit q) (IncludeSearchQueryText q).

Definition set_NumTyposExplicit (v : bool) (q : ComprehensiveSearchQuery) : ComprehensiveSearchQuery :=
  mkQuery
    (Q q) (QueryBy q) (FilterBy q) (FacetBy q) (FacetQuery q) (MaxFacetValues q) (PerPage q) (Page q) (Offset q) (SortBy q) (Highlight q)
    (HighlightFields q) (HighlightFullFields q) (IncludeFields q) (ExcludeFields q) (NumTypos q) v (DropTokensThreshold q) (TypoTokensThreshold q)
    (Prefix q) (InlineFuzzy q) (GroupBy q) (GroupLimit q) (PrioritizeExactMatch q) (ExhaustiveSearch q) (CaseSensitive q) (TermBoosts q)
    (HybridAlpha q) (VectorQueryStr q) (Embedding q) (GeoSortBy q) (EnableSynonyms q) (EnableStopwords q) (Aggregations q) (IncludeCreatedAt q)
    (IncludeVectorDistance q) (IncludeSearchExecution q) (IncludeSearchExecutionExplicit q) (IncludeSearchQueryText q).

Definition set_DropTokensThreshold (v : Z) (q : ComprehensiveSearchQuery) : ComprehensiveSearchQuery :=
  mkQuery
    (Q q) (QueryBy q) (FilterBy q) (FacetBy q) (FacetQuery q) (MaxFacetValues q) (PerPage q) (Page q) (Offset q) (SortBy q) (Highlight q)
    (HighlightFields q) (HighlightFullFields q) (IncludeFields q) (ExcludeFields q) (NumTypos q) (NumTyposExplicit q) v (TypoTokensThreshold q)
    (Prefix q) (InlineFuzzy q) (GroupBy q) (GroupLimit q) (PrioritizeExactMatch q) (ExhaustiveSearch q) (CaseSensitive q) (TermBoosts q)
    (HybridAlpha q) (VectorQueryStr q) (Embedding q) (GeoSortBy q) (EnableSynonyms q) (EnableStopwords q) (Aggregations q) (IncludeCreatedAt q)
    (IncludeVectorDistance q) (IncludeSearchExecution q) (IncludeSearchExecutionExplicit q) (IncludeSearchQueryText q).

Definition set_TypoTokensThreshold (v : Z) (q : ComprehensiveSearchQuery) : ComprehensiveSearchQuery :=
  mkQuery
    (Q q) (QueryBy q) (FilterBy q) (FacetBy q) (FacetQuery q) (MaxFacetValues q) (PerPage q) (Page q) (Offset q) (SortBy q) (Highlight q)
    (HighlightFields q) (HighlightFullFields q) (IncludeFields q) (ExcludeFields q) (NumTypos q) (NumTyposExplicit q) (DropTokensThreshold q) v
    (Prefix q) (InlineFuzzy q) (GroupBy q) (GroupLimit q) (PrioritizeExactMatch q) (ExhaustiveSearch q) (CaseSensitive q) (TermBoosts q)
    (HybridAlpha q) (VectorQueryStr q) (Embedding q) (GeoSortBy q) (EnableSynonyms q) (EnableStopwords q) (Aggregations q) (IncludeCreatedAt q)
    (IncludeVectorDistance q) (IncludeSearchExecution q) (IncludeSearchExecutionExplicit q) (IncludeSearchQueryText q).

Definition set_Prefix (v : bool) (q : ComprehensiveSearchQuery) : ComprehensiveSearchQuery :=
  mkQuery
    (Q q) (QueryBy q) (FilterBy q) (FacetBy q) (FacetQuery q) (MaxFacetValues q) (PerPage q) (Page q) (Offset q) (SortBy q) (Highlight q)
    (HighlightFields q) (HighlightFullFields q) (IncludeFields q) (ExcludeFields q) (NumTypos q) (NumTyposExplicit q) (DropTokensThreshold q)
    (TypoTokensThreshold q) v (InlineFuzzy q) (GroupBy q) (GroupLimit q) (PrioritizeExactMatch q) (ExhaustiveSearch q) (CaseSensitive q)
    (TermBoosts q) (HybridAlpha q) (VectorQueryStr q) (Embedding q) (GeoSortBy q) (EnableSynonyms q) (EnableStopwords q) (Aggregations q)
    (IncludeCreatedAt q) (IncludeVectorDistance q) (IncludeSearchExecution q) (IncludeSearchExecutionExplicit q) (IncludeSearchQueryText q).

Definition set_InlineFuzzy (v : bool) (q : ComprehensiveSearchQuery) : ComprehensiveSearchQuery :=
  mkQuery
    (Q q) (QueryBy q) (FilterBy q) (FacetBy q) (FacetQuery q) (MaxFacetValues q) (PerPage q) (Page q) (Offset q) (SortBy q) (Highlight q)
    (HighlightFields q) (HighlightFullFields q) (IncludeFields q) (ExcludeFields q) (NumTypos q) (NumTyposExplicit q) (DropTokensThreshold q)
    (TypoTokensThreshold q) (Prefix q) v (GroupBy q) (GroupLimit q) (PrioritizeExactMatch q) (ExhaustiveSearch q) (CaseSensitive q) (TermBoosts q)
    (HybridAlpha q) (VectorQueryStr q) (Embedding q) (GeoSortBy q) (EnableSynonyms q) (EnableStopwords q) (Aggregations q) (IncludeCreatedAt q)
    (IncludeVectorDistance q) (IncludeSearchExecution q) (IncludeSearchExecutionExplicit q) (IncludeSearchQueryText q).

Definition set_GroupBy (v : list bytes) (q : ComprehensiveSearchQuery) : ComprehensiveSearchQuery :=
  mkQuery
    (Q q) (QueryBy q) (FilterBy q) (FacetBy q) (FacetQuery q) (MaxFacetValues q) (PerPage q) (Page q) (Offset q) (SortBy q) (Highlight q)
    (HighlightFields q) (HighlightFullFields q) (IncludeFields q) (ExcludeFields q) (NumTypos q) (NumTyposExplicit q) (DropTokensThreshold q)
    (TypoTokensThreshold q) (Prefix q) (InlineFuzzy q) v (GroupLimit q) (PrioritizeExactMatch q) (ExhaustiveSearch q) (CaseSensitive q) (TermBoosts q)
    (HybridAlpha q) (VectorQueryStr q) (Embedding q) (GeoSortBy q) (EnableSynonyms q) (EnableStopwords q) (Aggregations q) (IncludeCreatedAt q)
    (IncludeVectorDistance q) (IncludeSearchExecution q) (IncludeSearchExecutionExplicit q) (IncludeSearchQueryText q).

Definition set_GroupLimit (v : Z) (q : ComprehensiveSearchQuery) : ComprehensiveSearchQuery :=
  mkQuery
    (Q q) (QueryBy q) (FilterBy q) (FacetBy q) (FacetQuery q) (MaxFacetValues q) (PerPage q) (Page q) (Offset q) (SortBy q) (Highlight q)
    (HighlightFields q) (HighlightFullFields q) (IncludeFields q) (ExcludeFields q) (NumTypos q) (NumTyposExplicit q) (DropTokensThreshold q)
    (TypoTokensThreshold q) (Prefix q) (InlineFuzzy q) (GroupBy q) v (PrioritizeExactMatch q) (ExhaustiveSearch q) (CaseSensitive q) (TermBoosts q)
    (HybridAlpha q) (VectorQueryStr q) (Embedding q) (GeoSortBy q) (EnableSynonyms q) (EnableStopwords q) (Aggregations q) (IncludeCreatedAt q)
    (IncludeVectorDistance q) (IncludeSearchExecution q) (IncludeSearchExecutionExplicit q) (IncludeSearchQueryText q).

Definition set_PrioritizeExactMatch (v : bool) (q : ComprehensiveSearchQuery) : ComprehensiveSearchQuery :=
  mkQuery
    (Q q) (QueryBy q) (FilterBy q) (FacetBy q) (FacetQuery q) (MaxFacetValues q) (PerPage q) (Page q) (Offset q) (SortBy q) (Highlight q)
    (HighlightFields q) (HighlightFullFields q) (IncludeFields q) (ExcludeFields q) (NumTypos q) (NumTyposExplicit q) (DropTokensThreshold q)
    (TypoTokensThreshold q) (Prefix q) (InlineFuzzy q) (GroupBy q) (GroupLimit q) v (ExhaustiveSearch q) (CaseSensitive q) (TermBoosts q)
    (HybridAlpha q) (VectorQueryStr q) (Embedding q) (GeoSortBy q) (EnableSynonyms q) (EnableStopwords q) (Aggregations q) (IncludeCreatedAt q)
    (IncludeVectorDistance q) (IncludeSearchExecution q) (IncludeSearchExecutionExplicit q) (IncludeSearchQueryText q).

Definition set_ExhaustiveSearch (v : bool) (q : ComprehensiveSearchQuery) : ComprehensiveSearchQuery :=
  mkQuery
    (Q q) (QueryBy q) (FilterBy q) (FacetBy q) (FacetQuery q) (MaxFacetValues q) (PerPage q) (Page q) (Offset q) (SortBy q) (Highlight q)
    (HighlightFields q) (HighlightFullFields q) (IncludeFields q) (ExcludeFields q) (NumTypos q) (NumTyposExplicit q) (DropTokensThreshold q)
    (TypoTokensThreshold q) (Prefix q) (InlineFuzzy q) (GroupBy q) (GroupLimit q) (PrioritizeExactMatch q) v (CaseSensitive q) (TermBoosts q)
    (HybridAlpha q) (VectorQueryStr q) (Embedding q) (GeoSortBy q) (EnableSynonyms q) (EnableStopwords q) (Aggregations q) (IncludeCreatedAt q)
    (IncludeVectorDistance q) (IncludeSearchExecution q) (IncludeSearchExecutionExplicit q) (IncludeSearchQueryText q).

Definition set_CaseSensitive (v : bool) (q : ComprehensiveSearchQuery) : ComprehensiveSearchQuery :=
  mkQuery
    (Q q) (QueryBy q) (FilterBy q) (FacetBy q) (FacetQuery q) (MaxFacetValues q) (PerPage q) (Page q) (Offset q) (SortBy q) (Highlight q)
    (HighlightFields q) (HighlightFullFields q) (IncludeFields q) (ExcludeFields q) (NumTypos q) (NumTyposExplicit q) (DropTokensThreshold q)
    (TypoTokensThreshold q) (Prefix q) (InlineFuzzy q) (GroupBy q) (GroupLimit q) (PrioritizeExactMatch q) (ExhaustiveSearch q) v (TermBoosts q)
    (HybridAlpha q) (VectorQueryStr q) (Embedding q) (GeoSortBy q) (EnableSynonyms q) (EnableStopwords q) (Aggregations q) (IncludeCreatedAt q)
    (IncludeVectorDistance q) (IncludeSearchExecution q) (IncludeSearchExecutionExplicit q) (IncludeSearchQueryText q).

Definition set_TermBoosts (v : list (bytes * double)) (q : ComprehensiveSearchQuery) : ComprehensiveSearchQuery :=
  mkQuery
    (Q q) (QueryBy q) (FilterBy q) (FacetBy q) (FacetQuery q) (MaxFacetValues q) (PerPage q) (Page q) (Offset q) (SortBy q) (Highlight q)
    (HighlightFields q) (HighlightFullFields q) (IncludeFields q) (ExcludeFields q) (NumTypos q) (NumTyposExplicit q) (DropTokensThreshold q)
    (TypoTokensThreshold q) (Prefix q) (InlineFuzzy q) (GroupBy q) (GroupLimit q) (PrioritizeExactMatch q) (ExhaustiveSearch q) (CaseSensitive q) v
    (HybridAlpha q) (VectorQueryStr q) (Embedding q) (GeoSortBy q) (EnableSynonyms q) (EnableStopwords q) (Aggregations q) (IncludeCreatedAt q)
    (IncludeVectorDistance q) (IncludeSearchExecution q) (IncludeSearchExecutionExplicit q) (IncludeSearchQueryText q).

Definition set_HybridAlpha (v : float) (q : ComprehensiveSearchQuery) : ComprehensiveSearchQuery :=
  mkQuery
    (Q q) (QueryBy q) (FilterBy q) (FacetBy q) (FacetQuery q) (MaxFacetValues q) (PerPage q) (Page q) (Offset q) (SortBy q) (Highlight q)
    (HighlightFields q) (HighlightFullFields q) (IncludeFields q) (ExcludeFields q) (NumTypos q) (NumTyposExplicit q) (DropTokensThreshold q)
    (TypoTokensThreshold q) (Prefix q) (InlineFuzzy q) (GroupBy q) (GroupLimit q) (PrioritizeExactMatch q) (ExhaustiveSearch q) (CaseSensitive q)
    (TermBoosts q) v (VectorQueryStr q) (Embedding q) (GeoSortBy q) (EnableSynonyms q) (EnableStopwords q) (Aggregations q) (IncludeCreatedAt q)
    (IncludeVectorDistance q) (IncludeSearchExecution q) (IncludeSearchExecutionExplicit q) (IncludeSearchQueryText q).

Definition set_VectorQueryStr (v : bytes) (q : ComprehensiveSearchQuery) : ComprehensiveSearchQuery :=
  mkQuery
    (Q q) (QueryBy q) (FilterBy q) (FacetBy q) (FacetQuery q) (MaxFacetValues q) (PerPage q) (Page q) (Offset q) (SortBy q) (Highlight q)
    (HighlightFields q) (HighlightFullFields q) (IncludeFields q) (ExcludeFields q) (NumTypos q) (NumTyposExplicit q) (DropTokensThreshold q)
    (TypoTokensThreshold q) (Prefix q) (InlineFuzzy q) (GroupBy q) (GroupLimit q) (PrioritizeExactMatch q) (ExhaustiveSearch q) (CaseSensitive q)
    (TermBoosts q) (HybridAlpha q) v (Embedding q) (GeoSortBy q) (EnableSynonyms q) (EnableStopwords q) (Aggregations q) (IncludeCreatedAt q)
    (IncludeVectorDistance q) (IncludeSearchExecution q) (IncludeSearchExecutionExplicit q) (IncludeSearchQueryText q).

Definition set_Embedding (v : bytes) (q : ComprehensiveSearchQuery) : ComprehensiveSearchQuery :=
  mkQuery
    (Q q) (QueryBy q) (FilterBy q) (FacetBy q) (FacetQuery q) (MaxFacetValues q) (PerPage q) (Page q) (Offset q) (SortBy q) (Highlight q)
    (HighlightFields q) (HighlightFullFields q) (IncludeFields q) (ExcludeFields q) (NumTypos q) (NumTyposExplicit q) (DropTokensThreshold q)
    (TypoTokensThreshold q) (Prefix q) (InlineFuzzy q) (GroupBy q) (GroupLimit q) (PrioritizeExactMatch q) (ExhaustiveSearch q) (CaseSensitive q)
    (TermBoosts q) (HybridAlpha q) (VectorQueryStr q) v (GeoSortBy q) (EnableSynonyms q) (EnableStopwords q) (Aggregations q) (IncludeCreatedAt q)
    (IncludeVectorDistance q) (IncludeSearchExecution q) (IncludeSearchExecutionExplicit q) (IncludeSearchQueryText q).

Definition set_GeoSortBy (v : bytes) (q : ComprehensiveSearchQuery) : ComprehensiveSearchQuery :=
  mkQuery
    (Q q) (QueryBy q) (FilterBy q) (FacetBy q) (FacetQuery q) (MaxFacetValues q) (PerPage q) (Page q) (Offset q) (SortBy q) (Highlight q)
    (HighlightFields q) (HighlightFullFields q) (IncludeFields q) (ExcludeFields q) (NumTypos q) (NumTyposExplicit q) (DropTokensThreshold q)
    (TypoTokensThreshold q) (Prefix q) (InlineFuzzy q) (GroupBy q) (GroupLimit q) (PrioritizeExactMatch q) (ExhaustiveSearch q) (CaseSensitive q)
    (TermBoosts q) (HybridAlpha q) (VectorQueryStr q) (Embedding q) v (EnableSynonyms q) (EnableStopwords q) (Aggregations q) (IncludeCreatedAt q)
    (IncludeVectorDistance q) (IncludeSearchExecution q) (IncludeSearchExecutionExplicit q) (IncludeSearchQueryText q).

Definition set_EnableSynonyms (v : bool) (q : ComprehensiveSearchQuery) : ComprehensiveSearchQuery :=
  mkQuery
    (Q q) (QueryBy q) (FilterBy q) (FacetBy q) (FacetQuery q) (MaxFacetValues q) (PerPage q) (Page q) (Offset q) (SortBy q) (Highlight q)
    (HighlightFields q) (HighlightFullFields q) (IncludeFields q) (ExcludeFields q) (NumTypos q) (NumTyposExplicit q) (DropTokensThreshold q)
    (TypoTokensThreshold q) (Prefix q) (InlineFuzzy q) (GroupBy q) (GroupLimit q) (PrioritizeExactMatch q) (ExhaustiveSearch q) (CaseSensitive q)
    (TermBoosts q) (HybridAlpha q) (VectorQueryStr q) (Embedding q) (GeoSortBy q) v (EnableStopwords q) (Aggregations q) (IncludeCreatedAt q)
    (IncludeVectorDistance q) (IncludeSearchExecution q) (IncludeSearchExecutionExplicit q) (IncludeSearchQueryText q).

Definition set_EnableStopwords (v : bool) (q : ComprehensiveSearchQuery) : ComprehensiveSearchQuery :=
  mkQuery
    (Q q) (QueryBy q) (FilterBy q) (FacetBy q) (FacetQuery q) (MaxFacetValues q) (PerPage q) (Page q) (Offset q) (SortBy q) (Highlight q)
    (HighlightFields q) (HighlightFullFields q) (IncludeFields q) (ExcludeFields q) (NumTypos q) (NumTyposExplicit q) (DropTokensThreshold q)
    (TypoTokensThreshold q) (Prefix q) (InlineFuzzy q) (GroupBy q) (GroupLimit q) (PrioritizeExactMatch q) (ExhaustiveSearch q) (CaseSensitive q)
    (TermBoosts q) (HybridAlpha q) (VectorQueryStr q) (Embedding q) (GeoSortBy q) (EnableSynonyms q) v (Aggregations q) (IncludeCreatedAt q)
    (IncludeVectorDistance q) (IncludeSearchExecution q) (IncludeSearchExecutionExplicit q) (IncludeSearchQueryText q).

Definition set_Aggregations (v : bytes) (q : ComprehensiveSearchQuery) : ComprehensiveSearchQuery :=
  mkQuery
    (Q q) (QueryBy q) (FilterBy q) (FacetBy q) (FacetQuery q) (MaxFacetValues q) (PerPage q) (Page q) (Offset q) (SortBy q) (Highlight q)
    (HighlightFields q) (HighlightFullFields q) (IncludeFields q) (ExcludeFields q) (NumTypos q) (NumTyposExplicit q) (DropTokensThreshold q)
    (TypoTokensThreshold q) (Prefix q) (InlineFuzzy q) (GroupBy q) (GroupLimit q) (PrioritizeExactMatch q) (ExhaustiveSearch q) (CaseSensitive q)
    (TermBoosts q) (HybridAlpha q) (VectorQueryStr q) (Embedding q) (GeoSortBy q) (EnableSynonyms q) (EnableStopwords q) v (IncludeCreatedAt q)
    (IncludeVectorDistance q) (IncludeSearchExecution q) (IncludeSearchExecutionExplicit q) (IncludeSearchQueryText q).

Definition set_IncludeCreatedAt (v : bool) (q : ComprehensiveSearchQuery) : ComprehensiveSearchQuery :=
  mkQuery
    (Q q) (QueryBy q) (FilterBy q) (FacetBy q) (FacetQuery q) (MaxFacetValues q) (PerPage q) (Page q) (Offset q) (SortBy q) (Highlight q)
    (HighlightFields q) (HighlightFullFields q) (IncludeFields q) (ExcludeFields q) (NumTypos q) (NumTyposExplicit q) (DropTokensThreshold q)
    (TypoTokensThreshold q) (Prefix q) (InlineFuzzy q) (GroupBy q) (GroupLimit q) (PrioritizeExactMatch q) (ExhaustiveSearch q) (CaseSensitive q)
    (TermBoosts q) (HybridAlpha q) (VectorQueryStr q) (Embedding q) (GeoSortBy q) (EnableSynonyms q) (EnableStopwords q) (Aggregations q) v
    (IncludeVectorDistance q) (IncludeSearchExecution q) (IncludeSearchExecutionExplicit q) (IncludeSearchQueryText q).

Definition set_IncludeVectorDistance (v : bool) (q : ComprehensiveSearchQuery) : ComprehensiveSearchQuery :=
  mkQuery
    (Q q) (QueryBy q) (FilterBy q) (FacetBy q) (FacetQuery q) (MaxFacetValues q) (PerPage q) (Page q) (Offset q) (SortBy q) (Highlight q)
    (HighlightFields q) (HighlightFullFields q) (IncludeFields q) (ExcludeFields q) (NumTypos q) (NumTyposExplicit q) (DropTokensThreshold q)
    (TypoTokensThreshold q) (Prefix q) (InlineFuzzy q) (GroupBy q) (GroupLimit q) (PrioritizeExactMatch q) (ExhaustiveSearch q) (CaseSensitive q)
    (TermBoosts q) (HybridAlpha q) (VectorQueryStr q) (Embedding q) (GeoSortBy q) (EnableSynonyms q) (EnableStopwords q) (Aggregations q)
    (IncludeCreatedAt q) v (IncludeSearchExecution q) (IncludeSearchExecutionExplicit q) (IncludeSearchQueryText q).

Definition set_IncludeSearchExecution (v : bool) (q : ComprehensiveSearchQuery) : ComprehensiveSearchQuery :=
  mkQuery
    (Q q) (QueryBy q) (FilterBy q) (FacetBy q) (FacetQuery q) (MaxFacetValues q) (PerPage q) (Page q) (Offset q) (SortBy q) (Highlight q)
    (HighlightFields q) (HighlightFullFields q) (IncludeFields q) (ExcludeFields q) (NumTypos q) (NumTyposExplicit q) (DropTokensThreshold q)
    (TypoTokensThreshold q) (Prefix q) (InlineFuzzy q) (GroupBy q) (GroupLimit q) (PrioritizeExactMatch q) (ExhaustiveSearch q) (CaseSensitive q)
    (TermBoosts q) (HybridAlpha q) (VectorQueryStr q) (Embedding q) (GeoSortBy q) (EnableSynonyms q) (EnableStopwords q) (Aggregations q)
    (IncludeCreatedAt q) (IncludeVectorDistance q) v (IncludeSearchExecutionExplicit q) (IncludeSearchQueryText q).

Definition set_IncludeSearchExecutionExplicit (v : bool) (q : ComprehensiveSearchQuery) : ComprehensiveSearchQuery :=
  mkQuery
    (Q q) (QueryBy q) (FilterBy q) (FacetBy q) (FacetQuery q) (MaxFacetValues q) (PerPage q) (Page q) (Offset q) (SortBy q) (Highlight q)
    (HighlightFields q) (HighlightFullFields q) (IncludeFields q) (ExcludeFields q) (NumTypos q) (NumTyposExplicit q) (DropTokensThreshold q)
    (TypoTokensThreshold q) (Prefix q) (InlineFuzzy q) (GroupBy q) (GroupLimit q) (PrioritizeExactMatch q) (ExhaustiveSearch q) (CaseSensitive q)
    (TermBoosts q) (HybridAlpha q) (VectorQueryStr q) (Embedding q) (GeoSortBy q) (EnableSynonyms q) (EnableStopwords q) (Aggregations q)
    (IncludeCreatedAt q) (IncludeVectorDistance q) (IncludeSearchExecution q) v (IncludeSearchQueryText q).

Definition set_IncludeSearchQueryText (v : bool) (q : ComprehensiveSearchQuery) : ComprehensiveSearchQuery :=
  mkQuery
    (Q q) (QueryBy q) (FilterBy q) (FacetBy q) (FacetQuery q) (MaxFacetValues q) (PerPage q) (Page q) (Offset q) (SortBy q) (Highlight q)
    (HighlightFields q) (HighlightFullFields q) (IncludeFields q) (ExcludeFields q) (NumTypos q) (NumTyposExplicit q) (DropTokensThreshold q)
    (TypoTokensThreshold q) (Prefix q) (InlineFuzzy q) (GroupBy q) (GroupLimit q) (PrioritizeExactMatch q) (ExhaustiveSearch q) (CaseSensitive q)
    (TermBoosts q) (HybridAlpha q) (VectorQueryStr q) (Embedding q) (GeoSortBy q) (EnableSynonyms q) (EnableStopwords q) (Aggregations q)
    (IncludeCreatedAt q) (IncludeVectorDistance q) (IncludeSearchExecution q) (IncludeSearchExecutionExplicit q) v.

End QueryObject.
