(* ===== verification/QueryParams.v ===== *)
(** * Search parameters: src/api/queryparser.cpp

    From the parameters of a request to the query object: truth values, lists,
    numbers with their bounds and defaults, JSON bodies, multi-search bodies, and the
    inline syntax of the query text (directives, ranges, boosts, fuzzy terms, loose
    operators). [ParseFilters] is in FilterLang. An expression [catch (...)] takes
    the [None] of a conversion. *)

From Stdlib Require Import SpecFloat.
From S2P Require Import Prelude CText StdMap DocValues ResultShaping DocumentStore Regex QueryObject.

Module QueryParams.
Import DocValues Regex QueryObject.

(** ** Small helpers *)

Definition ParseSearchBool (Value : bytes) (DefaultValue : bool) : bool :=
  if bool_decide (Value = []) then DefaultValue
  else
    let Lowered := tolower <$> Value in
    if bool_decide (Lowered ∈ [ #"1"; #"true"; #"yes"; #"on"]) then true
    else if bool_decide (Lowered ∈ [ #"0"; #"false"; #"no"; #"off"]) then false
    else DefaultValue.

Definition TrimCopy (Value : bytes) : bytes := trim blank Value.

(** Words with one blank between them. *)

Fixpoint unwords (ws : list bytes) : bytes :=
  match ws with
  | [] => []
  | [w] => w
  | w :: r => w ++ #" " ++ unwords r
  end.

Definition max_double (a b : double) : double := if SFltb a b then b else a.
Definition min_double (a b : double) : double := if SFltb b a then b else a.

(** ** Inline directives *)

Definition directive (Lowered : bytes) : bool :=
  bool_decide (Lowered ∈ [ #"do:casesensitive"; #"do:case_sensitive"; #"do:case-sensitive"; #"is:casesensitive"; #"is:case_sensitive"; #"is:case-sensitive"]).

Definition keep_token (st : list bytes * bool) (Token : bytes) : list bytes * bool :=
  if directive (tolower <$> Token) then (st.1, true) else (st.1 ++ [Token], st.2).

Definition ApplyInlineQueryDirectives (QueryText : bytes) (CaseSensitive : bool) : bytes * bool :=
  if bool_decide (QueryText = []) then (QueryText, CaseSensitive)
  else let (KeptTokens, CaseSensitive) := foldl keep_token ([], CaseSensitive) (ResultShaping.words [] QueryText) in (unwords KeptTokens, CaseSensitive).

Definition ApplyCaseSensitiveSearchDefaults (q : ComprehensiveSearchQuery) : ComprehensiveSearchQuery :=
  if negb (CaseSensitive q) then q
  else set_TypoTokensThreshold 0 (set_DropTokensThreshold 0 (set_NumTypos 0 (set_Prefix false q))).

(** ** Inline filters, boosts and fuzzy terms *)

Definition term_edge (c : ascii) : bool := negb (isalnum c || bool_decide (c ∈ ["*"; "?"; "_"]%char)).

Definition NormalizeInlineTerm (Term : bytes) (CaseSensitive : bool) : bytes :=
  trim term_edge (if CaseSensitive then Term else tolower <$> Term).

Definition AppendInlineFilter (Filter : bytes) (q : ComprehensiveSearchQuery) : ComprehensiveSearchQuery :=
  if bool_decide (Filter = []) then q
  else if bool_decide (FilterBy q = []) then set_FilterBy Filter q
  else set_FilterBy (FilterBy q ++ #" && " ++ Filter) q.

Definition identifier_start (c : ascii) : bool := isalpha c || bool_decide (c = "_"%char).
Definition identifier_char (c : ascii) : bool := isalnum c || bool_decide (c = "_"%char).
Definition not_closing (c : ascii) : bool := negb (bool_decide (c ∈ ["]"; "}"]%char)).

Definition blanks : regex := Star true (One isspace).
Definition some_blanks : regex := Plus true (One isspace).

Definition RangeRegex : regex :=
  Seq (Group 1 (Seq (One identifier_start) (Star true (One identifier_char))))
  (Seq blanks (Seq (Char ":"%char) (Seq blanks
  (Seq (Group 2 (One (fun c => bool_decide (c ∈ ["["; "{"]%char))))
  (Seq blanks
  (Seq (Group 3 (Plus false (One not_closing)))
  (Seq some_blanks (Seq (Letter "T"%char) (Seq (Letter "O"%char) (Seq some_blanks
  (Seq (Group 4 (Plus false (One not_closing)))
  (Seq blanks
  (Group 5 (One (fun c => bool_decide (c ∈ ["]"; "}"]%char)))))))))))))))).

Definition range_filter (m : Match) : bytes :=
  group 1 (Found m) ++ #":" ++ group 2 (Found m) ++ TrimCopy (group 3 (Found m)) ++ #" TO " ++ TrimCopy (group 4 (Found m)) ++ group 5 (Found m).

Definition ExtractInlineRangeFilters (q : ComprehensiveSearchQuery) : ComprehensiveSearchQuery :=
  if bool_decide (Q q = []) then q
  else
    let (ms, rest) := matches RangeRegex (Q q) in
    let q := foldl (fun q m => AppendInlineFilter (range_filter m) q) q ms in
    set_Q (concat (Skipped <$> ms) ++ rest) q.

(** A match of a boost or of a fuzzy term leaves its first two groups. *)

Definition boundary : regex := Group 1 (Alt Bol (One (fun c => isspace c || bool_decide (c = ":"%char)))).

Definition kept (m : Match) : bytes := Skipped m ++ group 1 (Found m) ++ group 2 (Found m).

Definition BoostRegex : regex :=
  Seq boundary
  (Seq (Group 2 (Plus true (One (fun c => isalnum c || bool_decide (c ∈ ["_"; "*"; "?"]%char)))))
  (Seq (Char "^"%char)
  (Group 3 (Seq (Plus true (One isdigit)) (Opt (Seq (Char "."%char) (Plus true (One isdigit)))))))).

Definition boost_value (s : bytes) : double :=
  match stod s with
  | Some (Boost, _) => max_double (literal 1 (-1)) (min_double (literal 10 0) Boost)
  | None => literal 2 0
  end.

Definition add_boost (CaseSensitive : bool) (TermBoosts : list (bytes * double)) (m : Match) : list (bytes * double) :=
  let Term := NormalizeInlineTerm (group 2 (Found m)) CaseSensitive in
  if bool_decide (Term = []) then TermBoosts
  else StdMap.put Term (max_double (default (S754_zero false) (StdMap.find Term TermBoosts)) (boost_value (group 3 (Found m)))) TermBoosts.

Definition ExtractInlineBoosts (q : ComprehensiveSearchQuery) : ComprehensiveSearchQuery :=
  if bool_decide (Q q = []) then q
  else
    let (ms, rest) := matches BoostRegex (Q q) in
    set_Q (concat (kept <$> ms) ++ rest) (set_TermBoosts (foldl (add_boost (CaseSensitive q)) (TermBoosts q) ms) q).

Definition FuzzyRegex : regex :=
  Seq boundary (Seq (Group 2 (Plus true (One identifier_char))) (Seq (Char "~"%char) (Group 3 (Opt (One (in_range 48 52)))))).

Definition fuzzy_typos (s : bytes) : Z := match stoi s with Some (n, _) => n | None => 2 end.

Definition ExtractInlineFuzzy (q : ComprehensiveSearchQuery) : ComprehensiveSearchQuery :=
  if bool_decide (Q q = []) then q
  else
    let (ms, rest) := matches FuzzyRegex (Q q) in
    let MaxTypos := foldl (fun t m => Z.max t (Z.max 0 (Z.min 4 (fuzzy_typos (group 3 (Found m)))))) (if NumTyposExplicit q then NumTypos q else 0) ms in
    let q := set_Q (concat (kept <$> ms) ++ rest) q in
    if bool_decide (ms = []) then q else set_InlineFuzzy true (set_NumTyposExplicit true (set_NumTypos (Z.max 0 (Z.min 4 MaxTypos)) q)).

(** ** Operators left at the ends of the query *)

Definition and_or : regex :=
  Group 1 (Alt (Seq (Letter "A"%char) (Seq (Letter "N"%char) (Letter "D"%char))) (Seq (Letter "O"%char) (Letter "R"%char))).

Definition leading_operator : regex := Seq Bol (Seq and_or some_blanks).
Definition trailing_operator : regex := Seq some_blanks (Seq and_or Eol).

Definition cleanup_round (QueryText : bytes) : bytes := TrimCopy (replace trailing_operator [] (replace leading_operator [] QueryText)).

(** Every round that changes the text shortens it. *)

Fixpoint cleanup_loop (fuel : nat) (QueryText : bytes) : bytes :=
  match fuel with
  | O => QueryText
  | S fuel =>
      let Before := QueryText in
      let QueryText := cleanup_round QueryText in
      if bool_decide (QueryText = Before) then QueryText else cleanup_loop fuel QueryText
  end.

Definition CleanupInlineQueryOperators (QueryText : bytes) : bytes :=
  let QueryText := TrimCopy (replace some_blanks #" " QueryText) in
  cleanup_loop (S (length QueryText)) QueryText.

Definition apply_directives (q : ComprehensiveSearchQuery) : ComprehensiveSearchQuery :=
  let (Text, Sensitive) := ApplyInlineQueryDirectives (Q q) (CaseSensitive q) in set_CaseSensitive Sensitive (set_Q Text q).

Definition star_if_filtered (q : ComprehensiveSearchQuery) : ComprehensiveSearchQuery :=
  if bool_decide (Q q = []) && negb (bool_decide (FilterBy q = [])) then set_Q #"*" q else q.

Definition ApplyInlineQuerySyntax (q : ComprehensiveSearchQuery) : ComprehensiveSearchQuery :=
  let q := apply_directives q in
  let q := ExtractInlineRangeFilters q in
  let q := ExtractInlineBoosts q in
  let q := ExtractInlineFuzzy q in
  let q := set_Q (CleanupInlineQueryOperators (Q q)) q in
  let q := star_if_filtered q in
  ApplyCaseSensitiveSearchDefaults q.

(** ** Lists *)

Definition MaxInputSize : Z := 1024 * 1024.
Definition MaxParts : Z := 10000.

Definition FlushItem (Result : list bytes) (Item : bytes) : list bytes :=
  let Item := trim isspace Item in
  if bool_decide (Item = []) then Result else Result ++ [Item].

Fixpoint comma_loop (Input Item : bytes) (PartCount : Z) (ParenDepth : nat) (Result : list bytes) : list bytes :=
  match Input with
  | [] => if negb (bool_decide (Item = [])) && (PartCount <? MaxParts) then FlushItem Result Item else Result
  | C :: r =>
      let ParenDepth := if bool_decide (C = "("%char) then S ParenDepth else if bool_decide (C = ")"%char) then pred ParenDepth else ParenDepth in
      if bool_decide (C = ","%char) && bool_decide (ParenDepth = O) then
        if MaxParts <=? PartCount then Result else comma_loop r [] (PartCount + 1) ParenDepth (FlushItem Result Item)
      else comma_loop r (Item ++ [C]) PartCount ParenDepth Result
  end.

Definition ParseCommaSeparated (Input : bytes) : list bytes :=
  comma_loop (if MaxInputSize <? size Input then take (Z.to_nat MaxInputSize) Input else Input) [] 0 0 [].

(** ** Sort fields *)

Record SortField := mkSortField { Field : bytes; Direction : bytes }.

Definition blank_or_tab (c : ascii) : bool := bool_decide (c ∈ [" "%char; chr 9]).

Definition sort_field (Item : bytes) : SortField :=
  match find_char (fun c => bool_decide (c = ":"%char)) Item with
  | None => mkSortField Item #"asc"
  | Some ColonPos =>
      let Direction := drop (ColonPos + 1) Item in
      mkSortField (take ColonPos Item)
        (if bool_decide (Direction ∈ [ #"asc"; #"ascending"]) then #"asc"
         else if bool_decide (Direction ∈ [ #"desc"; #"descending"]) then #"desc" else #"asc")
  end.

Definition ParseSortFields (SortString : bytes) : list SortField :=
  omap (fun Item => let Item := trim blank_or_tab Item in if bool_decide (Item = []) then None else Some (sort_field Item)) (getlines ","%char [] SortString).

(** ** Parameters of a request *)

Section Parse.

(** The JSON library, once with comments allowed, and the result of a conversion
    from a double to [int] that the standard leaves undefined. *)

Context `{Library} (parse_with_comments : bytes -> option json) (bad_cast : double -> Z).

(** [None] is the exception of the parser. *)

Definition param_text (Value : json) : bytes :=
  match Value with
  | JString s => s
  | JInteger _ | JUnsigned _ | JFloat _ => fixed6 (default S754_nan (number Value))
  | JBool b => if b then #"true" else #"false"
  | _ => dump Value
  end.

Definition ParseSearchParamsFromJSON (Json : bytes) : option (gmap bytes bytes) :=
  (fun j => foldl (fun Params (kv : bytes * json) => <[kv.1 := param_text kv.2]> Params) ∅ (DocumentStore.items j)) <$> parse_with_comments Json.

Definition clamp (lo hi v : Z) : Z := Z.max lo (Z.min hi v).

Definition to_int (s : bytes) : option Z := fst <$> stoi s.

(** [if (Params.count(k)) f(Params.at(k))]. *)

Definition on (Params : gmap bytes bytes) (k : bytes) (f : bytes -> ComprehensiveSearchQuery -> ComprehensiveSearchQuery) (q : ComprehensiveSearchQuery) : ComprehensiveSearchQuery :=
  match Params !! k with Some v => f v q | None => q end.

Definition has (Params : gmap bytes bytes) (k : bytes) : bool := bool_decide (is_Some (Params !! k)).

Definition set_query_by (v : bytes) (q : ComprehensiveSearchQuery) : ComprehensiveSearchQuery :=
  if bool_decide (v ∈ [ #"*"; #"*,"; #",*"]) then q
  else let Fields := ParseCommaSeparated v in if bool_decide ( #"*" ∈ Fields) then q else set_QueryBy Fields q.

Definition AppendFilter (Filter : bytes) (q : ComprehensiveSearchQuery) : ComprehensiveSearchQuery :=
  if bool_decide (Filter = []) then q
  else if bool_decide (FilterBy q = []) then set_FilterBy Filter q
  else set_FilterBy ( #"(" ++ FilterBy q ++ #") && (" ++ Filter ++ #")") q.

Definition set_facet_query (v : bytes) (q : ComprehensiveSearchQuery) : ComprehensiveSearchQuery :=
  match parse_with_comments v with
  | Some (JObject l) =>
      set_FacetQuery (foldl (fun m (kv : bytes * json) => match kv.2 with JString s => StdMap.put kv.1 s m | _ => m end) (FacetQuery q) l) q
  | _ => q
  end.

(** The page of an offset: a 32-bit sum. *)

Definition page_of (Offset PerPage : Z) : Z := wrap_int32 (Z.quot Offset PerPage + 1).

Definition set_offset (Parsed : option Z) (q : ComprehensiveSearchQuery) : ComprehensiveSearchQuery :=
  match Parsed with
  | Some n => let Offset := Z.max 0 n in set_Page (page_of Offset (PerPage q)) (set_Offset Offset q)
  | None => set_Page 1 (set_Offset 0 q)
  end.

(** The parameter [offset] also asks for a positive page size. *)

Definition set_offset_param (v : bytes) (q : ComprehensiveSearchQuery) : ComprehensiveSearchQuery :=
  match to_int v with
  | Some n => if 0 <? PerPage q then set_offset (Some n) q else set_Offset (Z.max 0 n) q
  | None => set_offset None q
  end.

Definition set_geo_sort (v : bytes) (q : ComprehensiveSearchQuery) : ComprehensiveSearchQuery :=
  let GeoSort := if starts_with #"_geo_distance" v then v else #"_geo_distance(" ++ v ++ #")" in
  set_SortBy (GeoSort :: SortBy q) (set_GeoSortBy GeoSort q).

Definition set_highlight (Params : gmap bytes bytes) (q : ComprehensiveSearchQuery) : ComprehensiveSearchQuery :=
  match Params !! #"highlight" with
  | Some v => set_Highlight (ParseSearchBool v false) q
  | None => if bool_decide (Q q = []) then q else set_Highlight true q
  end.

Definition hybrid_alpha (v : bytes) : float :=
  let zero := S754_zero false in
  let one := round_float (FFin false 1 10 0) in
  match stof v with
  | Some Alpha => let a := if SFltb Alpha one then Alpha else one in if SFltb zero a then a else zero
  | None => round_float (FFin false 5 10 (-1))
  end.

Definition set_vector (Params : gmap bytes bytes) (q : ComprehensiveSearchQuery) : ComprehensiveSearchQuery :=
  match Params !! #"vector_query", Params !! #"vector", Params !! #"vector_queries", Params !! #"embedding" with
  | Some v, _, _, _ | None, Some v, _, _ | None, None, Some v, _ => set_VectorQueryStr v q
  | None, None, None, Some v => set_Embedding v q
  | None, None, None, None => q
  end.

(** The text, the fields, the filter and the facets. *)

Definition parse_query_part (Params : gmap bytes bytes) (q : ComprehensiveSearchQuery) : ComprehensiveSearchQuery :=
  let q := on Params #"q" set_Q q in
  let q := on Params #"case_sensitive" (fun v => set_CaseSensitive (ParseSearchBool v false)) q in
  let q := on Params #"enable_synonyms" (fun v => set_EnableSynonyms (ParseSearchBool v true)) q in
  let q := on Params #"enable_stopwords" (fun v => set_EnableStopwords (ParseSearchBool v true)) q in
  let q := on Params #"query_by" set_query_by q in
  let q := on Params #"filter_by" set_FilterBy q in
  let q := on Params #"geo_radius" (fun v => AppendFilter ( #"_geo_radius(" ++ v ++ #")")) q in
  let q := on Params #"geo_box" (fun v => AppendFilter ( #"_geo_box(" ++ v ++ #")")) q in
  let q := on Params #"facet_by" (fun v => set_FacetBy (ParseCommaSeparated v)) q in
  let q := on Params #"facet_query" set_facet_query q in
  on Params #"max_facet_values" (fun v => set_MaxFacetValues (from_option (clamp 1 1000) 10 (to_int v))) q.

Definition parse_paging_part (Params : gmap bytes bytes) (q : ComprehensiveSearchQuery) : ComprehensiveSearchQuery :=
  let q := on Params #"per_page" (fun v => set_PerPage (from_option (clamp 1 1000) 100 (to_int v))) q in
  let q := on Params #"page" (fun v => set_Page (from_option (Z.max 1) 1 (to_int v))) q in
  let q := on Params #"limit" (fun v => set_PerPage (from_option (clamp 1 1000) 100 (to_int v))) q in
  let q := if has Params #"per_page" || has Params #"limit" then q
           else on Params #"size" (fun v => set_PerPage (from_option (clamp 1 1000) 10 (to_int v))) q in
  let q := on Params #"offset" set_offset_param q in
  let q := if has Params #"offset" then q else on Params #"from" (fun v => set_offset (to_int v)) q in
  if PerPage q <=? 0 then set_PerPage 100 q else q.

Definition parse_result_part (Params : gmap bytes bytes) (q : ComprehensiveSearchQuery) : ComprehensiveSearchQuery :=
  let q := on Params #"sort_by" (fun v => set_SortBy (ParseCommaSeparated v)) q in
  let q := on Params #"geo_sort" set_geo_sort q in
  let q := set_highlight Params q in
  let q := on Params #"highlight_fields" (fun v => set_HighlightFields (ParseCommaSeparated v)) q in
  let q := on Params #"highlight_full_fields" set_HighlightFullFields q in
  let q := on Params #"include_fields" (fun v => set_IncludeFields (ParseCommaSeparated v)) q in
  let q := on Params #"exclude_fields" (fun v => set_ExcludeFields (ParseCommaSeparated v)) q in
  let q := on Params #"group_by" (fun v => set_GroupBy (ParseCommaSeparated v)) q in
  on Params #"group_limit" (fun v => set_GroupLimit (from_option (clamp 1 1000) 3 (to_int v))) q.

Definition parse_matching_part (Params : gmap bytes bytes) (q : ComprehensiveSearchQuery) : ComprehensiveSearchQuery :=
  let q := on Params #"num_typos" (fun v q => set_NumTypos (from_option (clamp 0 4) 2 (to_int v)) (set_NumTyposExplicit true q)) q in
  let q := on Params #"drop_tokens_threshold" (fun v => set_DropTokensThreshold (default 0 (to_int v))) q in
  let q := on Params #"typo_tokens_threshold" (fun v => set_TypoTokensThreshold (default 2 (to_int v))) q in
  let q := on Params #"prefix" (fun v => set_Prefix (ParseSearchBool v false)) q in
  let q := on Params #"prioritize_exact_match" (fun v => set_PrioritizeExactMatch (ParseSearchBool v true)) q in
  on Params #"exhaustive_search" (fun v => set_ExhaustiveSearch (ParseSearchBool v false)) q.

Definition parse_extra_part (Params : gmap bytes bytes) (q : ComprehensiveSearchQuery) : ComprehensiveSearchQuery :=
  let q := on Params #"aggregations" set_Aggregations q in
  let q := on Params #"include_created_at" (fun v => set_IncludeCreatedAt (ParseSearchBool v false)) q in
  let q := on Params #"include_distance" (fun v => set_IncludeVectorDistance (ParseSearchBool v false)) q in
  let q := on Params #"include_search_execution" (fun v q => set_IncludeSearchExecution (ParseSearchBool v true) (set_IncludeSearchExecutionExplicit true q)) q in
  let q := on Params #"include_search_query_text" (fun v => set_IncludeSearchQueryText (ParseSearchBool v false)) q in
  let q := on Params #"hybrid_alpha" (fun v => set_HybridAlpha (hybrid_alpha v)) q in
  set_vector Params q.

Definition ParseComprehensiveSearchQuery (Params : gmap bytes bytes) : ComprehensiveSearchQuery :=
  let q := parse_query_part Params default_query in
  let q := parse_paging_part Params q in
  let q := parse_result_part Params q in
  let q := parse_matching_part Params q in
  let q := parse_extra_part Params q in
  ApplyInlineQuerySyntax q.

(** ** Multi-search bodies *)

(** [get<int>] of a number. *)

Definition truncated (d : double) : option Z :=
  match d with
  | S754_zero _ => Some 0
  | S754_finite neg m e =>
      let n := if 0 <=? e then Zpos m * 2 ^ e else Zpos m / 2 ^ (- e) in
      let n := if neg then - n else n in
      if (- 2 ^ 31 <=? n) && (n <? 2 ^ 31) then Some n else None
  | _ => None
  end.

Definition get_int (j : json) : option Z :=
  match j with
  | JInteger z | JUnsigned z => Some (wrap_int32 z)
  | JFloat d => Some (default (bad_cast d) (truncated d))
  | _ => None
  end.

(** A member that is read as an integer: the old value when it is neither a number
    of the accepted kind nor a string; [None] is an exception of [std::stoi]. *)

Definition int_member (integers_only : bool) (old : Z) (j : json) : option Z :=
  match j with
  | JString s => to_int s
  | JFloat _ => if integers_only then Some old else Some (default old (get_int j))
  | _ => Some (default old (get_int j))
  end.

Definition bool_member (set : bool -> ComprehensiveSearchQuery -> ComprehensiveSearchQuery) (j : json) (q : ComprehensiveSearchQuery) : ComprehensiveSearchQuery :=
  match j with JBool b => set b q | JString s => set (ParseSearchBool s false) q | _ => q end.

Definition query_by_member (j : json) (q : ComprehensiveSearchQuery) : ComprehensiveSearchQuery :=
  match j with
  | JString s => set_QueryBy (ParseCommaSeparated s) q
  | JArray l => set_QueryBy (QueryBy q ++ omap (fun f => match f with JString s => Some s | _ => None end) l) q
  | _ => q
  end.

Definition in_object (SearchObj : list (bytes * json)) (k : bytes) (f : json -> ComprehensiveSearchQuery -> ComprehensiveSearchQuery) (q : ComprehensiveSearchQuery) : ComprehensiveSearchQuery :=
  match member k SearchObj with Some j => f j q | None => q end.

Definition contains (SearchObj : list (bytes * json)) (k : bytes) : bool := bool_decide (is_Some (member k SearchObj)).

Definition string_member (SearchObj : list (bytes * json)) (k : bytes) : bytes :=
  match member k SearchObj with Some (JString s) => s | _ => [] end.

Definition set_size (integers_only : bool) (DefaultSize : Z) (j : json) (q : ComprehensiveSearchQuery) : ComprehensiveSearchQuery :=
  set_PerPage (from_option (clamp 1 1000) DefaultSize (int_member integers_only (PerPage q) j)) q.

Definition num_typos_member (j : json) (q : ComprehensiveSearchQuery) : ComprehensiveSearchQuery :=
  match int_member true (NumTypos q) j with
  | Some n => set_NumTyposExplicit true (set_NumTypos (clamp 0 4 n) q)
  | None => set_NumTypos 2 q
  end.

Definition parse_search (SearchObj : list (bytes * json)) (q : ComprehensiveSearchQuery) : ComprehensiveSearchQuery :=
  let q := in_object SearchObj #"case_sensitive" (bool_member set_CaseSensitive) q in
  let q := in_object SearchObj #"query_by" query_by_member q in
  let q := in_object SearchObj #"filter_by" (fun j q => match j with JString s => set_FilterBy s q | _ => q end) q in
  let q := in_object SearchObj #"per_page" (set_size false 100) q in
  let q := in_object SearchObj #"limit" (set_size false 100) q in
  let q := if contains SearchObj #"per_page" || contains SearchObj #"limit" then q else in_object SearchObj #"size" (set_size true 10) q in
  let q := in_object SearchObj #"page" (fun j q => set_Page (from_option (Z.max 1) 1 (int_member false (Page q) j)) q) q in
  let q := in_object SearchObj #"offset" (fun j q => set_offset (int_member false (Offset q) j) q) q in
  let q := if contains SearchObj #"offset" then q else in_object SearchObj #"from" (fun j q => set_offset (int_member true (Offset q) j) q) q in
  let q := in_object SearchObj #"highlight" (bool_member set_Highlight) q in
  let q := in_object SearchObj #"prefix" (bool_member set_Prefix) q in
  let q := in_object SearchObj #"num_typos" num_typos_member q in
  let q := in_object SearchObj #"typo_tokens_threshold" (fun j q => set_TypoTokensThreshold (default 2 (int_member true (TypoTokensThreshold q) j)) q) q in
  ApplyInlineQuerySyntax q.

Definition search_request (j : json) : option (bytes * ComprehensiveSearchQuery) :=
  match j with
  | JObject SearchObj =>
      let Collection := string_member SearchObj #"collection" in
      let QueryStr := string_member SearchObj #"q" in
      if bool_decide (Collection = []) || bool_decide (QueryStr = []) then None
      else Some (Collection, parse_search SearchObj (set_Q QueryStr default_query))
  | _ => None
  end.

Definition ParseMultiSearchRequest (JSONBody : bytes) : list (bytes * ComprehensiveSearchQuery) :=
  match parse JSONBody with
  | Some (JObject Request) =>
      match member #"searches" Request with
      | Some (JArray Searches) => omap search_request Searches
      | _ => []
      end
  | _ => []
  end.

End Parse.

End QueryParams.
