(* ===== verification/QueryParamsProps.v ===== *)
(** * Properties of the search parameters

    The bounds of a parsed query, lists with commas, and what the inline syntax does to
    some queries. *)

From Stdlib Require Import SpecFloat.
From S2P Require Import Prelude CText StdMap DocValues ResultShaping FilterLang Regex QueryObject QueryParams.

Module QueryParamsProps.
Import DocValues Regex QueryObject QueryParams.

(** ** Numbers *)

Definition int32 (n : Z) : Prop := - 2 ^ 31 <= n < 2 ^ 31.

Lemma to_int_range s n : to_int s = Some n -> int32 n.
Proof.
  unfold to_int, stoi, sto_int. destruct (read_sign _) as [neg r]. destruct (span isdigit r) as [ds r'].
  destruct ds as [|d ds]; [done|]. cbv zeta. destruct (_ && _) eqn:E; [|done]. simpl. intros [= <-].
  unfold int32. apply andb_true_iff in E as [? ?]. change (32 - 1) with 31 in *. lia.
Qed.

Lemma clamp_range lo hi v : lo <= hi -> lo <= clamp lo hi v <= hi.
Proof. unfold clamp. lia. Qed.

Lemma clamped lo hi d (v : option Z) : lo <= d <= hi -> lo <= from_option (clamp lo hi) d v <= hi.
Proof. destruct v; simpl; [|done]. intros ?. apply clamp_range. lia. Qed.

Lemma wrap_range z : int32 (wrap_int32 z).
Proof. unfold int32, wrap_int32. pose proof (Z.mod_pos_bound (z + 2 ^ 31) (2 ^ 32) ltac:(lia)). lia. Qed.

(** The page of an offset is positive, but for one overflow. *)

Definition overflowed (Offset PerPage Page : Z) : Prop := Offset = INT_MAX /\ PerPage = 1 /\ Page = - 2 ^ 31.

Lemma page_of_range Offset PerPage : 0 <= Offset <= INT_MAX -> 1 <= PerPage ->
  (page_of Offset PerPage = Offset / PerPage + 1 /\ int32 (page_of Offset PerPage)) \/ overflowed Offset PerPage (page_of Offset PerPage).
Proof.
  intros H1 H2. unfold page_of. rewrite Z.quot_div_nonneg by lia.
  destruct (Z.eq_dec (Offset / PerPage) INT_MAX) as [E|E].
  - right. assert (PerPage = 1) as ->.
    { assert (INT_MAX * PerPage <= Offset) by (rewrite <- E, Z.mul_comm; apply Z.mul_div_le; lia). unfold INT_MAX in *. nia. }
    rewrite Z.div_1_r in *. subst. repeat split; reflexivity.
  - left. split; [|apply wrap_range]. unfold wrap_int32. rewrite Z.mod_small; [lia|].
    assert (0 <= Offset / PerPage) by (apply Z.div_pos; lia).
    assert (Offset / PerPage <= Offset / 1) by (apply Z.div_le_compat_l; lia). rewrite Z.div_1_r in *. unfold INT_MAX in *. lia.
Qed.

(** ** Doubles between two bounds *)

Definition between (lo hi a : spec_float) : bool := SFleb lo a && SFleb a hi.

Lemma ltb_leb a b : SFltb a b = true -> SFleb a b = true.
Proof. unfold SFltb, SFleb. by destruct (SFcompare a b) as [[]|]. Qed.

Definition zero_float : float := S754_zero false.
Definition one_float : float := round_float (FFin false 1 10 0).

Lemma hybrid_alpha_range v : between zero_float one_float (hybrid_alpha v) = true.
Proof.
  unfold hybrid_alpha. destruct (stof v) as [a|]; [|reflexivity]. cbv zeta. fold one_float zero_float.
  destruct (SFltb a one_float) eqn:E1.
  - destruct (SFltb zero_float a) eqn:E2; [|reflexivity]. unfold between. by rewrite !ltb_leb.
  - destruct (SFltb zero_float one_float); reflexivity.
Qed.

Definition boost_ok (b : double) : bool := between (literal 1 (-1)) (literal 10 0) b.

Lemma boost_value_ok s : boost_ok (boost_value s) = true.
Proof.
  unfold boost_value. destruct (stod s) as [[b n]|]; [|reflexivity]. unfold max_double, min_double.
  destruct (SFltb b (literal 10 0)) eqn:E1.
  - destruct (SFltb (literal 1 (-1)) b) eqn:E2; [|reflexivity]. unfold boost_ok, between. by rewrite !ltb_leb.
  - vm_compute. reflexivity.
Qed.

Lemma boost_positive b : boost_ok b = true -> SFltb (S754_zero false) b = true.
Proof.
  unfold boost_ok, between. intros [H _]%andb_true_iff. destruct b as [[]|[]| |[] m e]; [| | | |discriminate|vm_compute in H; discriminate|]; try reflexivity; vm_compute in H; discriminate.
Qed.

(** ** The bounds of a query *)

Record sane (q : ComprehensiveSearchQuery) : Prop := mkSane {
  facets_ok : 1 <= MaxFacetValues q <= 1000;
  group_ok : 1 <= GroupLimit q <= 1000;
  typos_ok : 0 <= NumTypos q <= 4;
  alpha_ok : between zero_float one_float (HybridAlpha q) = true;
  boosts_ok : Forall (fun kv => boost_ok kv.2 = true) (TermBoosts q)
}.

Definition paging (q : ComprehensiveSearchQuery) : Z * Z * Z := (PerPage q, Page q, Offset q).

Lemma default_sane : sane default_query.
Proof. split; try (simpl; lia); [reflexivity|constructor]. Qed.

Section Keeping.
Context (I : ComprehensiveSearchQuery -> Prop).

Lemma on_keeps Params k f q : I q -> (forall v q, I q -> I (f v q)) -> I (on Params k f q).
Proof. unfold on. destruct (Params !! k); auto. Qed.

Lemma in_object_keeps o k f q : I q -> (forall j q, I q -> I (f j q)) -> I (in_object o k f q).
Proof. unfold in_object. destruct (member k o); auto. Qed.

End Keeping.

(** An assignment to another member keeps the bounds; [sane_tac] closes such a goal. *)

Ltac sane_tac := intros; repeat match goal with H : sane _ |- _ => destruct H end; split; simpl; auto.

Lemma add_boost_ok cs m b : Forall (fun kv => boost_ok kv.2 = true) b -> Forall (fun kv => boost_ok kv.2 = true) (add_boost cs b m).
Proof.
  intros H. unfold add_boost. cbv zeta. case_bool_decide; [done|]. apply StdMap.put_Forall; [|done]. simpl. unfold max_double.
  destruct (SFltb _ _) eqn:E; [apply boost_value_ok|]. destruct (StdMap.find _ b) as [v|] eqn:F; simpl in *.
  - by destruct (StdMap.find_Forall _ _ _ _ H F) as [k' Hk].
  - by rewrite boost_positive in E by apply boost_value_ok.
Qed.

(** The inline syntax keeps the bounds and the page. *)

Definition keeps_bounds (f : ComprehensiveSearchQuery -> ComprehensiveSearchQuery) : Prop :=
  forall q, (sane q -> sane (f q)) /\ paging (f q) = paging q.

Lemma keeps_directives : keeps_bounds apply_directives.
Proof. intros q. unfold apply_directives. destruct (ApplyInlineQueryDirectives _ _). split; [sane_tac|done]. Qed.

Lemma keeps_append f : keeps_bounds (AppendInlineFilter f).
Proof. intros q. unfold AppendInlineFilter. repeat case_bool_decide; (split; [sane_tac|done]). Qed.

Lemma keeps_ranges : keeps_bounds ExtractInlineRangeFilters.
Proof.
  intros q. unfold ExtractInlineRangeFilters. case_bool_decide; [done|]. destruct (matches RangeRegex (Q q)) as [ms rest]. cbv zeta.
  assert ((sane q -> sane (foldl (fun q m => AppendInlineFilter (range_filter m) q) q ms)) /\
          paging (foldl (fun q m => AppendInlineFilter (range_filter m) q) q ms) = paging q) as [A B].
  { clear H. generalize q. induction ms as [|m ms IH]; intros q'; [done|]. simpl.
    destruct (keeps_append (range_filter m) q') as [A B]. destruct (IH (AppendInlineFilter (range_filter m) q')) as [C D].
    split; [auto|]. by rewrite D. }
  split; [|done]. intros S%A. sane_tac.
Qed.

Lemma keeps_boosts : keeps_bounds ExtractInlineBoosts.
Proof.
  intros q. unfold ExtractInlineBoosts. case_bool_decide; [done|]. destruct (matches BoostRegex (Q q)) as [ms rest].
  split; [|done]. intros [? ? ? ? B]. split; simpl; auto. clear - B.
  revert B. generalize (TermBoosts q). induction ms as [|m ms IH]; intros b B; simpl; [done|]. by apply IH, add_boost_ok.
Qed.

Lemma keeps_fuzzy : keeps_bounds ExtractInlineFuzzy.
Proof.
  intros q. unfold ExtractInlineFuzzy. case_bool_decide; [done|]. destruct (matches FuzzyRegex (Q q)) as [ms rest]. cbv zeta.
  case_bool_decide; (split; [sane_tac; lia|done]).
Qed.

Lemma keeps_sensitive : keeps_bounds ApplyCaseSensitiveSearchDefaults.
Proof. intros q. unfold ApplyCaseSensitiveSearchDefaults. destruct (CaseSensitive q); (split; [sane_tac; lia|done]). Qed.

Lemma keeps_syntax : keeps_bounds ApplyInlineQuerySyntax.
Proof.
  intros q. unfold ApplyInlineQuerySyntax. cbv zeta.
  destruct (keeps_directives q) as [S1 P1]. set (q1 := apply_directives q) in *.
  destruct (keeps_ranges q1) as [S2 P2]. set (q2 := ExtractInlineRangeFilters q1) in *.
  destruct (keeps_boosts q2) as [S3 P3]. set (q3 := ExtractInlineBoosts q2) in *.
  destruct (keeps_fuzzy q3) as [S4 P4]. set (q4 := ExtractInlineFuzzy q3) in *.
  set (q5 := star_if_filtered (set_Q (CleanupInlineQueryOperators (Q q4)) q4)).
  destruct (keeps_sensitive q5) as [S6 P6]. rewrite P6.
  assert ((sane q4 -> sane q5) /\ paging q5 = paging q4) as [S5 P5].
  { unfold q5, star_if_filtered. destruct (_ && _); (split; [sane_tac|done]). }
  split; [auto 10|congruence].
Qed.

(** What the last two steps establish. *)

Lemma syntax_ends q : exists q5, ApplyInlineQuerySyntax q = ApplyCaseSensitiveSearchDefaults (star_if_filtered q5).
Proof. eexists. reflexivity. Qed.

Lemma sensitive_plain q : let q := ApplyInlineQuerySyntax q in
  (CaseSensitive q = true -> Prefix q = false /\ NumTypos q = 0 /\ DropTokensThreshold q = 0 /\ TypoTokensThreshold q = 0) /\
  (Q q = [] -> FilterBy q = []).
Proof.
  destruct (syntax_ends q) as [q5 ->]. cbv zeta.
  unfold ApplyCaseSensitiveSearchDefaults. split.
  - destruct (CaseSensitive (star_if_filtered q5)) eqn:E; simpl; [done|congruence].
  - assert (Q (star_if_filtered q5) = [] -> FilterBy (star_if_filtered q5) = []).
    { unfold star_if_filtered. repeat case_bool_decide; simpl in *; done. }
    destruct (CaseSensitive (star_if_filtered q5)); simpl; done.
Qed.

(** ** Pages *)

Definition sized (q : ComprehensiveSearchQuery) : Prop := 1 <= PerPage q <= 1000 /\ Offset q = 0 /\ 1 <= Page q <= INT_MAX.

Definition paged (q : ComprehensiveSearchQuery) : Prop :=
  1 <= PerPage q <= 1000 /\ 0 <= Offset q <= INT_MAX /\ (1 <= Page q <= INT_MAX \/ overflowed (Offset q) (PerPage q) (Page q)).

(** The page is the one of the offset. *)

Definition aligned (q : ComprehensiveSearchQuery) : Prop :=
  Page q = Offset q / PerPage q + 1 \/ overflowed (Offset q) (PerPage q) (Page q).

Lemma sized_paged q : sized q -> paged q.
Proof. unfold sized, paged. intros (? & -> & ?). unfold INT_MAX in *. split_and!; lia. Qed.

Lemma same_paging q q' : paging q' = paging q ->
  (sized q -> sized q') /\ (paged q -> paged q') /\ (aligned q -> aligned q') /\ (Offset q = 0 -> Offset q' = 0).
Proof. unfold paging, sized, paged, aligned. by intros [= -> -> ->]. Qed.

Lemma set_offset_paged (n : option Z) q : 1 <= PerPage q <= 1000 -> (forall x, n = Some x -> int32 x) ->
  paged (set_offset n q) /\ aligned (set_offset n q).
Proof.
  intros H Hn. unfold paged, aligned. destruct n as [n|]; cbn [set_offset PerPage Offset Page set_Page set_Offset].
  - destruct (Hn n eq_refl) as [_ Hb]. assert (B : 0 <= Z.max 0 n <= INT_MAX) by (unfold INT_MAX; lia).
    destruct (page_of_range (Z.max 0 n) (PerPage q) B ltac:(lia)) as [[E [_ R]]|O]; [|auto].
    assert (0 <= Z.max 0 n / PerPage q) by (apply Z.div_pos; lia).
    split; [|auto]. split_and!; try lia. left. unfold INT_MAX. lia.
  - rewrite Z.div_0_l by lia. unfold INT_MAX. split; [split_and!; try lia|by left].
Qed.

Lemma set_offset_param_paged v q : 1 <= PerPage q <= 1000 -> paged (set_offset_param v q) /\ aligned (set_offset_param v q).
Proof.
  intros H. unfold set_offset_param. destruct (to_int v) as [n|] eqn:E.
  - destruct (Z.ltb_spec 0 (PerPage q)); [|lia]. apply set_offset_paged; [done|]. intros x [= <-]. by apply to_int_range in E.
  - by apply set_offset_paged.
Qed.

Lemma on_paging Params k f q : (forall v q, paging (f v q) = paging q) -> paging (on Params k f q) = paging q.
Proof. unfold on. destruct (Params !! k); auto. Qed.

Lemma in_object_paging o k f q : (forall j q, paging (f j q) = paging q) -> paging (in_object o k f q) = paging q.
Proof. unfold in_object. destruct (member k o); auto. Qed.

Section Parts.
Context (pwc : bytes -> option json) (Params : gmap bytes bytes).

Ltac steps lemma := repeat (rewrite lemma by (intros; reflexivity)).

Lemma query_part_paging q : paging (parse_query_part pwc Params q) = paging q.
Proof.
  unfold parse_query_part. cbv zeta. rewrite on_paging by reflexivity.
  rewrite on_paging by (intros v q'; unfold set_facet_query; by destruct (pwc v) as [[]|]).
  rewrite on_paging by reflexivity.
  do 2 (rewrite on_paging by (intros; unfold AppendFilter; by repeat case_bool_decide)).
  rewrite on_paging by reflexivity.
  rewrite on_paging by (intros; unfold set_query_by; cbv zeta; by repeat case_bool_decide).
  by steps on_paging.
Qed.

Lemma highlight_paging q : paging (set_highlight Params q) = paging q.
Proof. unfold set_highlight. destruct (Params !! #"highlight"); [done|by case_bool_decide]. Qed.

Lemma vector_paging q : paging (set_vector Params q) = paging q.
Proof.
  unfold set_vector.
  by destruct (Params !! #"vector_query"), (Params !! #"vector"), (Params !! #"vector_queries"), (Params !! #"embedding").
Qed.

Lemma result_part_paging q : paging (parse_result_part Params q) = paging q.
Proof.
  unfold parse_result_part. cbv zeta. steps on_paging. rewrite highlight_paging. by steps on_paging.
Qed.

Lemma matching_part_paging q : paging (parse_matching_part Params q) = paging q.
Proof. unfold parse_matching_part. cbv zeta. by steps on_paging. Qed.

Lemma extra_part_paging q : paging (parse_extra_part Params q) = paging q.
Proof.
  unfold parse_extra_part. cbv zeta. rewrite vector_paging. by steps on_paging.
Qed.

Lemma default_sized : sized default_query.
Proof. unfold sized. simpl. unfold INT_MAX. lia. Qed.

Lemma paging_part_paged q : sized q ->
  let q' := parse_paging_part Params q in
  paged q' /\ (if has Params #"offset" || has Params #"from" then aligned q' else Offset q' = 0).
Proof.
  intros H. unfold parse_paging_part. cbv zeta.
  assert (S : forall d v q, 1 <= d <= 1000 -> sized q -> sized (set_PerPage (from_option (clamp 1 1000) d (to_int v)) q)).
  { intros d v q' Hd (_ & H2). unfold sized. cbn. split; [by apply clamped|done]. }
  set (q1 := on Params #"per_page" _ q). assert (H1 : sized q1) by (apply on_keeps; [done|intros; apply S; [lia|done]]).
  set (q2 := on Params #"page" _ q1).
  assert (H2 : sized q2).
  { apply on_keeps; [done|]. intros v q' (Hp & Ho & _). unfold sized. cbn. split_and!; try lia; destruct (to_int v) eqn:E; simpl;
      try (apply to_int_range in E as []); unfold INT_MAX; lia. }
  set (q3 := on Params #"limit" _ q2). assert (H3 : sized q3) by (apply on_keeps; [done|intros; apply S; [lia|done]]).
  set (q4 := if _ || _ then q3 else _).
  assert (H4 : sized q4) by (unfold q4; destruct (_ || _); [done|]; apply on_keeps; [done|intros; apply S; [lia|done]]).
  clearbody q4. clear q1 q2 q3 H1 H2 H3 H q S.
  unfold on, has. destruct (Params !! #"offset") as [v|]; cbn [is_Some]; rewrite ?bool_decide_true by (by eexists); rewrite ?bool_decide_false by (by intros []).
  - cbn [orb]. destruct (set_offset_param_paged v q4 (proj1 H4)) as [P A].
    destruct (Z.leb_spec (PerPage (set_offset_param v q4)) 0); [destruct P; lia|done].
  - cbn [orb]. destruct (Params !! #"from") as [v|]; rewrite ?bool_decide_true by (by eexists); rewrite ?bool_decide_false by (by intros []).
    + destruct (set_offset_paged (to_int v) q4 (proj1 H4)) as [P A]; [intros x; apply to_int_range|].
      destruct (Z.leb_spec (PerPage (set_offset (to_int v) q4)) 0); [destruct P; lia|done].
    + destruct (Z.leb_spec (PerPage q4) 0); [destruct H4; lia|]. split; [by apply sized_paged|]. by destruct H4 as (_ & ? & _).
Qed.

(** ** The other bounds, part by part *)

Ltac parts := repeat (apply on_keeps; [|try (sane_tac; fail)]).

Lemma query_part_sane q : sane q -> sane (parse_query_part pwc Params q).
Proof.
  intros H. unfold parse_query_part. cbv zeta. parts; [done|..].
  - intros v q' S. unfold set_query_by. cbv zeta. repeat case_bool_decide; sane_tac.
  - intros v q' S. unfold AppendFilter. repeat case_bool_decide; sane_tac.
  - intros v q' S. unfold AppendFilter. repeat case_bool_decide; sane_tac.
  - intros v q' S. unfold set_facet_query. destruct (pwc v) as [[]|]; sane_tac.
  - intros v q' []. split; simpl; auto. by apply clamped.
Qed.

Lemma set_offset_sane n q : sane q -> sane (set_offset n q).
Proof. destruct n; sane_tac. Qed.

Lemma paging_part_sane q : sane q -> sane (parse_paging_part Params q).
Proof.
  intros H. unfold parse_paging_part. cbv zeta.
  set (q1 := on Params #"limit" _ _). assert (H1 : sized q -> True) by done.
  assert (S1 : sane q1) by (unfold q1; parts; done). clearbody q1.
  set (q2 := if _ || _ then q1 else _). assert (S2 : sane q2) by (unfold q2; destruct (_ || _); [done|parts; done]). clearbody q2.
  set (q3 := on Params #"offset" _ _).
  assert (S3 : sane q3).
  { apply on_keeps; [done|]. intros v q' S. unfold set_offset_param. destruct (to_int v); [destruct (0 <? _)|]; sane_tac. }
  clearbody q3. set (q4 := if has Params #"offset" then q3 else _).
  assert (S4 : sane q4) by (unfold q4; destruct (has _ _); [done|apply on_keeps; [done|intros; by apply set_offset_sane]]).
  clearbody q4. destruct (_ <=? _); sane_tac.
Qed.

Lemma highlight_sane q : sane q -> sane (set_highlight Params q).
Proof. unfold set_highlight. destruct (Params !! #"highlight"); [|case_bool_decide]; sane_tac. Qed.

Lemma result_part_sane q : sane q -> sane (parse_result_part Params q).
Proof.
  intros H. unfold parse_result_part. cbv zeta. set (q1 := on Params #"geo_sort" _ _).
  assert (S1 : sane q1) by (unfold q1; parts; done). clearbody q1.
  apply highlight_sane in S1. set (q2 := set_highlight Params q1) in *. clearbody q2. parts; [done|].
  intros v q' []. split; simpl; auto. by apply clamped.
Qed.

Lemma matching_part_sane q : sane q -> sane (parse_matching_part Params q).
Proof.
  intros H. unfold parse_matching_part. cbv zeta. parts; [done|]. intros v q' []. split; simpl; auto. by apply clamped.
Qed.

Lemma extra_part_sane q : sane q -> sane (parse_extra_part Params q).
Proof.
  intros H. unfold parse_extra_part. cbv zeta.
  set (q1 := on Params #"hybrid_alpha" _ _).
  assert (S1 : sane q1) by (unfold q1; parts; [done|intros v q' []; split; simpl; auto; apply hybrid_alpha_range]).
  clearbody q1. unfold set_vector.
  destruct (Params !! #"vector_query"), (Params !! #"vector"), (Params !! #"vector_queries"), (Params !! #"embedding"); sane_tac.
Qed.

End Parts.

(** ** Members of a multi-search *)

Section Search.
Context (bad_cast : double -> Z) (Hcast : forall d, int32 (bad_cast d)) (o : list (bytes * json)).

Lemma get_int_range j n : get_int bad_cast j = Some n -> int32 n.
Proof.
  destruct j; simpl; try done; intros [= <-]; try apply wrap_range.
  destruct (truncated d) as [n|] eqn:E; [|apply Hcast]. simpl. revert E. unfold truncated.
  destruct d as [| | |neg m e]; try done; [intros [= <-]; unfold int32; lia|]. cbv zeta.
  set (k := if neg then _ else _). destruct (_ && _) eqn:E; [|done]. intros [= <-]. apply andb_true_iff in E as [? ?]. unfold int32. lia.
Qed.

Lemma int_member_range io old j n : int32 old -> int_member bad_cast io old j = Some n -> int32 n.
Proof.
  intros H. assert (G : int32 (default old (get_int bad_cast j))) by (destruct (get_int bad_cast j) eqn:E; [by apply get_int_range in E|done]).
  destruct j; simpl in *; try destruct io; try (by intros [= <-]); by apply to_int_range.
Qed.

Ltac steps := repeat (rewrite in_object_paging by (intros; reflexivity)).

Lemma bool_member_paging set j q : (forall b q, paging (set b q) = paging q) -> paging (bool_member set j q) = paging q.
Proof. by destruct j; simpl. Qed.

Lemma bool_member_sane set j q : (forall b q, sane q -> sane (set b q)) -> sane q -> sane (bool_member set j q).
Proof. destruct j; simpl; auto. Qed.

Lemma set_size_sized io d j q : 1 <= d <= 1000 -> sized q -> sized (set_size bad_cast io d j q).
Proof. intros Hd (_ & H). unfold sized, set_size. cbn. split; [by apply clamped|done]. Qed.

Lemma offset_aligned io k q : paged q -> contains o k = true ->
  aligned (in_object o k (fun j q => set_offset (int_member bad_cast io (Offset q) j) q) q).
Proof.
  intros P. unfold contains, in_object. rewrite bool_decide_eq_true. destruct (member k o) as [j|]; [intros _|by intros []].
  apply set_offset_paged; [by destruct P|]. intros x. apply int_member_range. destruct P as (_ & P & _). unfold int32, INT_MAX in *. lia.
Qed.

Lemma offset_absent k f q : contains o k = false -> in_object o k f q = q.
Proof. unfold contains, in_object. rewrite bool_decide_eq_false. destruct (member k o); [intros []; by eexists|done]. Qed.

Lemma keeps_offset io k q : paged q -> paged (in_object o k (fun j q => set_offset (int_member bad_cast io (Offset q) j) q) q).
Proof.
  intros P. unfold in_object. destruct (member k o) as [j|]; [|done]. apply set_offset_paged; [by destruct P|].
  intros x. apply int_member_range. destruct P as (_ & P & _). unfold int32, INT_MAX in *. lia.
Qed.

Lemma parse_search_paged q : sized q ->
  paged (parse_search bad_cast o q) /\
  (if contains o #"offset" || contains o #"from" then aligned (parse_search bad_cast o q) else Offset (parse_search bad_cast o q) = 0).
Proof.
  intros H. unfold parse_search. cbv zeta.
  set (q1 := in_object o #"filter_by" _ _).
  assert (H1 : sized q1).
  { assert (E : paging q1 = paging q).
    { unfold q1. rewrite in_object_paging by (by intros []). rewrite in_object_paging by (by intros []).
      by rewrite in_object_paging by (intros; by apply bool_member_paging). }
    by apply (same_paging _ _ E). }
  clearbody q1. set (q2 := in_object o #"limit" _ _).
  assert (H2 : sized q2) by (repeat (apply in_object_keeps; [|intros; apply set_size_sized; [lia|done]]); done).
  clearbody q2. set (q3 := if _ || _ then q2 else _).
  assert (H3 : sized q3) by (unfold q3; destruct (_ || _); [done|]; apply in_object_keeps; [done|intros; apply set_size_sized; [lia|done]]).
  clearbody q3. set (q4 := in_object o #"page" _ _).
  assert (H4 : sized q4).
  { apply in_object_keeps; [done|]. intros j q' (? & ? & ?). unfold sized. cbn. split_and!; try lia.
    - destruct (int_member _ _ _ _); simpl; lia.
    - destruct (int_member _ _ _ _) as [n|] eqn:E; simpl; [|unfold INT_MAX; lia].
      apply int_member_range in E as []; [|unfold int32, INT_MAX in *; lia]. unfold INT_MAX. lia. }
  clearbody q4. set (q5 := in_object o #"offset" _ _).
  assert (H5 : paged q5) by (by apply keeps_offset, sized_paged).
  set (q6 := if contains o #"offset" then q5 else _).
  assert (H6 : paged q6) by (unfold q6; destruct (contains _ _); [done|by apply keeps_offset]).
  assert (A6 : if contains o #"offset" || contains o #"from" then aligned q6 else Offset q6 = 0).
  { unfold q6. destruct (contains o #"offset") eqn:C1; [apply offset_aligned; [by apply sized_paged|done]|]. cbn [orb].
    destruct (contains o #"from") eqn:C2; [by apply offset_aligned|].
    unfold q5. rewrite !offset_absent by done. by destruct H4 as (_ & ? & _). }
  clearbody q6. clear q5 H5.
  set (q7 := in_object o #"typo_tokens_threshold" _ _).
  assert (E : paging (ApplyInlineQuerySyntax q7) = paging q6).
  { rewrite (proj2 (keeps_syntax q7)). unfold q7. rewrite in_object_paging by done.
    rewrite in_object_paging by (intros; unfold num_typos_member; by destruct (int_member _ _ _ _)).
    do 2 (rewrite in_object_paging by (intros; by apply bool_member_paging)). done. }
  destruct (same_paging _ _ E) as (_ & Ep & Ea & Eo). split; [auto|]. destruct (_ || _); auto.
Qed.

Lemma parse_search_sane q : sane q -> sane (parse_search bad_cast o q).
Proof.
  intros H. unfold parse_search. cbv zeta. apply (proj1 (keeps_syntax _)).
  set (q1 := in_object o #"page" _ _).
  assert (S1 : sane q1).
  { unfold q1. apply in_object_keeps; [|intros; sane_tac]. destruct (_ || _); repeat (apply in_object_keeps; [|try (intros j; intros; destruct j; sane_tac; fail)]); done. }
  clearbody q1. set (q2 := in_object o #"offset" _ _).
  assert (S2 : sane q2) by (apply in_object_keeps; [done|intros; by apply set_offset_sane]). clearbody q2.
  set (q3 := if contains o #"offset" then q2 else _).
  assert (S3 : sane q3) by (unfold q3; destruct (contains _ _); [done|apply in_object_keeps; [done|intros; by apply set_offset_sane]]). clearbody q3.
  repeat (apply in_object_keeps; [|try (intros; apply bool_member_sane; [intros|done]; sane_tac; fail); try (sane_tac; fail)]); [done|].
  intros j q' S. unfold num_typos_member. destruct (int_member _ _ _ _); sane_tac; [by apply clamp_range|lia].
Qed.

Lemma parse_search_ends q : exists q', parse_search bad_cast o q = ApplyInlineQuerySyntax q'.
Proof. eexists. reflexivity. Qed.

End Search.

(** ** The theorem on bounds *)

Definition bounded (q : ComprehensiveSearchQuery) : Prop :=
  sane q /\ paged q /\
  (CaseSensitive q = true -> Prefix q = false /\ NumTypos q = 0 /\ DropTokensThreshold q = 0 /\ TypoTokensThreshold q = 0) /\
  (Q q = [] -> FilterBy q = []).

(** The objects of a multi-search that name a collection and have a text. *)

Definition search_objects `{Library} (JSONBody : bytes) : list (list (bytes * json)) :=
  match parse JSONBody with
  | Some (JObject Request) =>
      match member #"searches" Request with
      | Some (JArray Searches) =>
          omap (fun j => match j with
                         | JObject o => if bool_decide (string_member o #"collection" = []) || bool_decide (string_member o #"q" = [])
                                        then None else Some o
                         | _ => None
                         end) Searches
      | _ => []
      end
  | _ => []
  end.

(** C36. Whatever the parameters of a search are, and whatever the body of a
    multi-search is, the numbers of every parsed query are in their ranges: page size
    1 to 1000, offset and page of 32 bits and not negative, 0 to 4 typing errors, 1 to
    1000 facet values and group members, the weight of vectors between 0 and 1, boosts
    between 0.1 and 10. With an offset the page is the one that holds it, without one
    the offset is 0, for the parameters as for each object of a multi-search, which
    gives one query for each object with a collection and a text, in order. The only exception is the offset 2^31-1 with pages of one hit,
    whose page number overflows. A case-sensitive query has no prefix search and no
    typing errors, and a query without text has no filter. *)
Theorem parameters_bounded `{Library} pwc bad_cast : (forall d, int32 (bad_cast d)) ->
  (forall Params, let q := ParseComprehensiveSearchQuery pwc Params in
     bounded q /\ (if has Params #"offset" || has Params #"from" then aligned q else Offset q = 0)) /\
  (forall JSONBody, Forall2 (fun o (cq : bytes * ComprehensiveSearchQuery) =>
     cq.1 = string_member o #"collection" /\ bounded cq.2 /\
     (if contains o #"offset" || contains o #"from" then aligned cq.2 else Offset cq.2 = 0))
     (search_objects JSONBody) (ParseMultiSearchRequest bad_cast JSONBody)).
Proof.
  intros Hc. split.
  - intros Params. cbv zeta. unfold ParseComprehensiveSearchQuery. cbv zeta.
    set (q1 := parse_query_part pwc Params default_query).
    destruct (paging_part_paged Params q1) as [P A].
    { apply (same_paging _ _ (query_part_paging pwc Params default_query)), default_sized. }
    set (q2 := parse_paging_part Params q1) in *. set (q5 := parse_extra_part Params _).
    assert (S : sane (ApplyInlineQuerySyntax q5)).
    { apply (proj1 (keeps_syntax _)). by apply extra_part_sane, matching_part_sane, result_part_sane, paging_part_sane, query_part_sane, default_sane. }
    assert (E : paging (ApplyInlineQuerySyntax q5) = paging q2).
    { rewrite (proj2 (keeps_syntax _)). unfold q5. by rewrite extra_part_paging, matching_part_paging, result_part_paging. }
    destruct (same_paging _ _ E) as (_ & Ep & Ea & Eo).
    split; [split; [done|split; [auto|exact (sensitive_plain q5)]]|]. destruct (_ || _); auto.
  - intros Body. unfold ParseMultiSearchRequest, search_objects. destruct (parse Body) as [[]|]; try constructor.
    destruct (member _ l) as [[]|]; try constructor. induction l0 as [|j l0 IH]; [constructor|]. cbn [omap list_omap].
    unfold search_request at 1. destruct j; try exact IH. cbv zeta. destruct (_ || _); [exact IH|]. constructor; [|exact IH]. cbn [fst snd].
    destruct (parse_search_paged bad_cast Hc l1 (set_Q (string_member l1 #"q") default_query)) as [P A]; [unfold sized; simpl; unfold INT_MAX; lia|].
    split; [done|]. split; [|exact A]. split; [apply parse_search_sane; sane_tac; lia|]. split; [exact P|].
    destruct (parse_search_ends bad_cast l1 (set_Q (string_member l1 #"q") default_query)) as [q5 ->]. exact (sensitive_plain q5).
Qed.

Definition an_int (d : double) : Z := - 2 ^ 31.

Definition no_comments (s : bytes) : option json := None.

Definition a_request : gmap bytes bytes :=
  list_to_map [( #"q", #"title:shoes^2.5 price:[10 TO 20] leather~1"); ( #"per_page", #"5000"); ( #"offset", #"30"); ( #"hybrid_alpha", #"7")].

#[local] Instance plain_library : Library :=
  { parse := no_comments; dump := fun _ => []; sin := id; cos := id; atan2 := fun a _ => a; get_time := fun _ => None }.

Lemma parameters_bounded_witness : (forall d, int32 (an_int d)) /\
  bounded (ParseComprehensiveSearchQuery no_comments a_request) /\
  FilterBy (ParseComprehensiveSearchQuery no_comments a_request) = #"price:[10 TO 20]".
Proof.
  assert (H : forall d, int32 (an_int d)) by (intros d; unfold int32, an_int; lia).
  split; [done|split; [exact (proj1 (proj1 (parameters_bounded no_comments an_int H) a_request))|vm_compute; reflexivity]].
Defined.

(** The overflow of the page, and what it comes from. *)

Example page_overflows :
  let q := ParseComprehensiveSearchQuery no_comments (list_to_map [( #"per_page", #"1"); ( #"offset", #"2147483647")]) in
  (Offset q, PerPage q, Page q) = (2147483647, 1, -2147483648).
Proof. vm_compute. reflexivity. Qed.

(** ** Lists with commas *)

(** The depth behind a text, [None] when it has a comma outside parentheses. *)

Definition depth_after (d : nat) (c : ascii) : nat :=
  if bool_decide (c = "("%char) then S d else if bool_decide (c = ")"%char) then pred d else d.

Fixpoint level (d : nat) (s : bytes) : option nat :=
  match s with
  | [] => Some d
  | c :: r => if bool_decide (c = ","%char) && bool_decide (depth_after d c = O) then None else level (depth_after d c) r
  end.

Fixpoint joined (ps : list bytes) : bytes :=
  match ps with
  | [] => []
  | [p] => p
  | p :: r => p ++ ","%char :: joined r
  end.

Definition clean (p : bytes) : option bytes :=
  let t := trim isspace p in if bool_decide (t = []) then None else Some t.

Lemma FlushItem_clean R p : FlushItem R p = R ++ option_list (clean p).
Proof. unfold FlushItem, clean. cbv zeta. case_bool_decide; [by rewrite app_nil_r|done]. Qed.

Lemma comma_loop_piece p : forall d rest Item n R, level d p = Some O -> n < MaxParts ->
  comma_loop (p ++ ","%char :: rest) Item n d R = comma_loop rest [] (n + 1) 0 (R ++ option_list (clean (Item ++ p))).
Proof.
  induction p as [|c p IH]; intros d rest Item n R H Hn; simpl in H.
  - injection H as ->. rewrite app_nil_r. cbn. rewrite FlushItem_clean. by destruct (Z.leb_spec MaxParts n); [lia|].
  - cbn [app comma_loop]. fold (depth_after d c). destruct (_ && _); [done|]. rewrite IH by done. by rewrite <- app_assoc.
Qed.

Lemma comma_loop_full p : forall d rest Item n R, level d p = Some O -> MaxParts <= n ->
  comma_loop (p ++ ","%char :: rest) Item n d R = R.
Proof.
  induction p as [|c p IH]; intros d rest Item n R H Hn; simpl in H.
  - injection H as ->. cbn. by destruct (Z.leb_spec MaxParts n); [|lia].
  - cbn [app comma_loop]. fold (depth_after d c). destruct (_ && _); [done|]. by rewrite IH.
Qed.

Lemma comma_loop_last p : forall d Item n R, level d p <> None ->
  comma_loop p Item n d R = if n <? MaxParts then R ++ option_list (clean (Item ++ p)) else R.
Proof.
  induction p as [|c p IH]; intros d Item n R H; simpl in H.
  - cbn. rewrite app_nil_r. case_bool_decide; cbn; [subst; rewrite app_nil_r; by destruct (n <? MaxParts)|]. by rewrite FlushItem_clean.
  - cbn [comma_loop]. fold (depth_after d c). destruct (_ && _); [done|]. rewrite IH by done. by rewrite <- app_assoc.
Qed.

Lemma comma_loop_joined ps l : Forall (fun p => level 0 p = Some O) ps -> level 0 l <> None -> forall n R, 0 <= n <= MaxParts ->
  comma_loop (joined (ps ++ [l])) [] n 0 R = R ++ omap clean (take (Z.to_nat (MaxParts - n)) (ps ++ [l])).
Proof.
  intros Hp Hl. induction Hp as [|p ps H1 Hp IH]; intros n R Hn.
  - simpl. rewrite comma_loop_last by done. destruct (Z.ltb_spec n MaxParts) as [L|L].
    + replace (Z.to_nat (MaxParts - n)) with (S (Z.to_nat (MaxParts - n - 1))) by lia. cbn. rewrite take_nil. cbn. by destruct (clean l).
    + replace (Z.to_nat (MaxParts - n)) with O by lia. cbn. by rewrite app_nil_r.
  - assert (E : joined ((p :: ps) ++ [l]) = p ++ ","%char :: joined (ps ++ [l])) by (by destruct ps). rewrite E.
    destruct (Z.ltb_spec n MaxParts) as [L|L].
    + rewrite comma_loop_piece, IH by (done || lia). replace (Z.to_nat (MaxParts - n)) with (S (Z.to_nat (MaxParts - (n + 1)))) by lia.
      rewrite <- app_assoc. cbn. by destruct (clean p).
    + rewrite comma_loop_full by done. replace (Z.to_nat (MaxParts - n)) with O by lia. cbn. by rewrite app_nil_r.
Qed.

Lemma level_snoc p : forall d d', level d p = Some d' -> forall c, ~ (c = ","%char /\ d' = O) -> level d (p ++ [c]) = Some (depth_after d' c).
Proof.
  induction p as [|x p IH]; intros d d' H c Hc; simpl in *.
  - injection H as ->. destruct (bool_decide (c = ","%char)) eqn:E; [|done]. apply bool_decide_eq_true in E. subst.
    rewrite (bool_decide_false (depth_after d' _ = O)); [done|]. intros E. apply Hc. done.
  - destruct (_ && _); [done|]. by apply IH.
Qed.

Lemma joined_cons p ps : ps <> [] -> joined (p :: ps) = p ++ ","%char :: joined ps.
Proof. by destruct ps. Qed.

(** Every text is such a join. *)

Lemma joined_exists s : forall p d, level 0 p = Some d ->
  exists ps l, Forall (fun p => level 0 p = Some O) ps /\ level 0 l <> None /\ p ++ s = joined (ps ++ [l]).
Proof.
  induction s as [|c s IH]; intros p d H.
  - exists [], p. split_and!; [constructor|by rewrite H|by rewrite app_nil_r].
  - destruct (decide (c = ","%char /\ d = O)) as [[-> ->]|N].
    + destruct (IH [] O eq_refl) as (ps & l & H1 & H2 & H3). exists (p :: ps), l. split_and!; [by constructor|done|].
      cbn [app] in *. by rewrite joined_cons, H3 by (by destruct ps).
    + destruct (IH (p ++ [c]) (depth_after d c)) as (ps & l & H1 & H2 & H3); [by apply level_snoc|].
      exists ps, l. split_and!; [done|done|]. by rewrite <- H3, <- app_assoc.
Qed.

(** A list parameter of at most a megabyte is cut at the commas outside
    parentheses: every text is the join of its pieces, and the result holds the first
    10000 pieces, trimmed and without the empty ones, in order. A list of trimmed items
    therefore comes back from its join. *)
Theorem commas_split Input : size Input <= MaxInputSize ->
  exists ps l, Forall (fun p => level 0 p = Some O) ps /\ level 0 l <> None /\ Input = joined (ps ++ [l]) /\
    ParseCommaSeparated Input = omap clean (take (Z.to_nat MaxParts) (ps ++ [l])) /\
    (Forall (fun p => clean p = Some p) (ps ++ [l]) -> Z.of_nat (length ps) < MaxParts -> ParseCommaSeparated Input = ps ++ [l]).
Proof.
  intros Hs. destruct (joined_exists Input [] O eq_refl) as (ps & l & H1 & H2 & H3). exists ps, l.
  assert (E : ParseCommaSeparated Input = omap clean (take (Z.to_nat MaxParts) (ps ++ [l]))).
  { unfold ParseCommaSeparated. destruct (Z.ltb_spec MaxInputSize (size Input)); [lia|]. cbn [app] in H3.
    rewrite H3. rewrite comma_loop_joined by (done || unfold MaxParts; lia). by rewrite Z.sub_0_r. }
  split_and!; [done..|]. intros F L. rewrite E, take_ge by (rewrite length_app; cbn [length]; lia).
  clear - F. induction F as [|p r Hp _ IH]; [done|]. cbn. by rewrite Hp, IH.
Qed.

Lemma commas_split_witness : size #" title, f(a,b) ,,x" <= MaxInputSize /\
  exists ps l, Forall (fun p => level 0 p = Some O) ps /\ level 0 l <> None /\ #" title, f(a,b) ,,x" = joined (ps ++ [l]) /\
    omap clean (take (Z.to_nat MaxParts) (ps ++ [l])) = [ #"title"; #"f(a,b)"; #"x"].
Proof.
  assert (H : size #" title, f(a,b) ,,x" <= MaxInputSize) by (vm_compute; discriminate).
  split; [done|]. destruct (commas_split _ H) as (ps & l & H1 & H2 & H3 & H4 & _). exists ps, l.
  split_and!; [done..|]. rewrite <- H4. vm_compute. reflexivity.
Defined.

(** ** What the inline syntax does to some queries *)

Definition parsed (l : list (bytes * bytes)) : ComprehensiveSearchQuery := ParseComprehensiveSearchQuery no_comments (list_to_map l).

(** Five typing errors are not taken for a number: the digit joins the term. *)

Example fuzzy_digit_joins_term : (Q (parsed [( #"q", #"laptop~5")]), NumTypos (parsed [( #"q", #"laptop~5")])) = ( #"laptop5", 2).
Proof. vm_compute. reflexivity. Qed.

(** The query syntax takes a range with brackets of two kinds, the filter language does
    not: the condition falls away, and a hit outside the range is kept. *)

Definition in_shop (c : FilterLang.FilterCondition) : bool := bool_decide (FilterLang.Field c = #"shop").

Example half_open_range_lost :
  FilterBy (parsed [( #"q", #"shoes price:[10 TO 20}"); ( #"filter_by", #"shop:1")]) = #"shop:1 && price:[10 TO 20}" /\
  FilterLang.ApplyFilters (SearchHit := nat) id (fun _ => in_shop) [7%nat] #"shop:1 && price:[10 TO 20}" = Some [7%nat].
Proof. split; vm_compute; reflexivity. Qed.

(** The range joins a filter with an alternative without parentheses and restricts only
    the last alternative. *)

Example range_after_alternative :
  FilterBy (parsed [( #"q", #"shoes price:[10 TO 20]"); ( #"filter_by", #"shop:1 || shop:2")]) = #"shop:1 || shop:2 && price:[10 TO 20]" /\
  FilterLang.ApplyFilters (SearchHit := nat) id (fun _ => in_shop) [7%nat] #"shop:1 || shop:2 && price:[10 TO 20]" = Some [7%nat].
Proof. split; vm_compute; reflexivity. Qed.

(** A list in a JSON body is read as the text of the list. *)

Definition body_parser (s : bytes) : option json := Some (JObject [( #"query_by", JArray [JString #"title"; JString #"body"])]).

Definition list_dump (j : json) : bytes :=
  match j with JArray [JString a; JString b] => #"['" ++ a ++ #"','" ++ b ++ #"']" | _ => [] end.

Example list_in_body :
  QueryBy <$> (ParseComprehensiveSearchQuery no_comments <$>
    @ParseSearchParamsFromJSON {| parse := body_parser; dump := list_dump; sin := id; cos := id; atan2 := fun a _ => a; get_time := fun _ => None |} body_parser #"body")
  = Some [ #"['title'"; #"'body']"].
Proof. vm_compute. reflexivity. Qed.

End QueryParamsProps.
