(* ===== verification/QueryCleanup.v ===== *)
(** * The clean-up of query operators, against a reference over words

    [CleanupInlineQueryOperators] works with regular expressions on the text;
    [strip] drops operators from the two ends of a list of words. *)

From S2P Require Import Prelude CText DocValues ResultShaping Regex QueryParams.

Module QueryCleanup.
Import DocValues Regex QueryParams.

(** ** The clean-up of operators, over words *)

Definition operator (w : bytes) : bool := bool_decide (tolower <$> w ∈ [ #"and"; #"or"]).

Definition drop_first (ws : list bytes) : list bytes :=
  match ws with w :: (_ :: _) as r => if operator w then r else ws | _ => ws end.

Definition drop_last (ws : list bytes) : list bytes := reverse (drop_first (reverse ws)).

(** One operator off each end, as often as there are words: a query of one word stays. *)

Definition round (ws : list bytes) : list bytes := drop_last (drop_first ws).

Definition strip (ws : list bytes) : list bytes := Nat.iter (length ws) round ws.

Definition is_word (w : bytes) : Prop := w <> [] /\ Forall (fun c => isspace c = false) w.

Lemma words_app w : Forall (fun c => isspace c = false) w -> forall cur s,
  ResultShaping.words cur (w ++ s) = ResultShaping.words (cur ++ w) s.
Proof.
  induction 1 as [|c w Hc _ IH]; intros cur s; cbn [app]; [by rewrite app_nil_r|].
  cbn [ResultShaping.words]. rewrite Hc, IH. by rewrite <- app_assoc.
Qed.

Lemma words_blank b s : Forall (fun c => isspace c = true) b -> ResultShaping.words [] (b ++ s) = ResultShaping.words [] s.
Proof. induction 1 as [|c b Hc _ IH]; [done|]. cbn [app ResultShaping.words]. rewrite Hc. done. Qed.

Lemma words_word w c s : is_word w -> isspace c = true -> ResultShaping.words [] (w ++ c :: s) = w :: ResultShaping.words [] s.
Proof.
  intros [H1 H2] Hc. rewrite words_app by done. cbn [app ResultShaping.words]. rewrite Hc. by rewrite bool_decide_false.
Qed.

Lemma words_last w : is_word w -> ResultShaping.words [] w = [w].
Proof. intros [H1 H2]. rewrite <- (app_nil_r w) at 1. rewrite words_app by done. cbn. by rewrite bool_decide_false. Qed.

Lemma words_are s : forall cur, Forall (fun c => isspace c = false) cur -> Forall is_word (ResultShaping.words cur s).
Proof.
  induction s as [|c s IH]; intros cur H; cbn [ResultShaping.words].
  - case_bool_decide; repeat constructor; done.
  - destruct (isspace c) eqn:E; [|apply IH, Forall_app; by repeat constructor].
    apply Forall_app. split; [|apply IH; constructor]. case_bool_decide; repeat constructor; done.
Qed.

(** *** The runs of blanks *)

(** A greedy repetition of one set takes the whole run when what follows accepts it. *)

Lemma run_set {X} total p c s g (k : bytes -> Groups -> option X) : run total (One p) (c :: s) g k = if p c then k s g else None.
Proof. done. Qed.

Lemma run_plus {X} total gr p c s g (k : bytes -> Groups -> option X) :
  run total (Plus gr (One p)) (c :: s) g k = if p c then run_star (run total (One p)) gr (length s) s g k else None.
Proof. done. Qed.

Lemma run_star_run {X} total p (k : bytes -> Groups -> option X) g x : forall n s, (length s <= n)%nat ->
  k (span p s).2 g = Some x -> run_star (run total (One p)) true n s g k = Some x.
Proof.
  induction n as [|n IH]; intros s Hn H.
  - destruct s; [done|simpl in *; lia].
  - cbn [run_star]. destruct s as [|c s]; [simpl in *; by rewrite H|]. rewrite run_set. simpl in H. destruct (p c) eqn:E; [|by simpl in H; rewrite H].
    destruct (span p s) as [a b] eqn:F. simpl in H. destruct (Nat.ltb_spec (length s) (length (c :: s))); [|simpl in *; lia].
    rewrite (IH s); [done|simpl in Hn; lia|by rewrite F].
Qed.

Lemma search_run total p w b skipped s : Forall (fun c => p c = false) w -> b <> [] -> Forall (fun c => p c = true) b ->
  (forall c r, s = c :: r -> p c = false) ->
  search total (Plus true (One p)) skipped (w ++ b ++ s) = Some (mkMatch (skipped ++ w) [] s).
Proof.
  intros Hw Hb Hp Hs. revert skipped. induction Hw as [|c w Hc _ IH]; intros skipped.
  - destruct b as [|c b]; [done|]. inversion_clear Hp. cbn [app search]. rewrite run_plus, H.
    rewrite (run_star_run total p _ [] (s, [] : Groups)); [by rewrite app_nil_r|done|].
    rewrite span_split by done. cbn [snd]. destruct (Nat.ltb_spec (length s) (length (c :: b ++ s))); [done|simpl in *; rewrite length_app in *; lia].
  - cbn [app search]. rewrite run_plus, Hc, IH. by rewrite <- app_assoc.
Qed.

Lemma search_no_run total p s skipped : Forall (fun c => p c = false) s -> search total (Plus true (One p)) skipped s = None.
Proof. intros H. revert skipped. induction H as [|c s Hc _ IH]; intros skipped; [done|]. cbn [search]. by rewrite run_plus, Hc. Qed.

(** *** Replacements *)

Definition replaced (fuel total : nat) (r : regex) (t s : bytes) : bytes :=
  let (ms, rest) := iterate fuel total r s in concat ((fun m => Skipped m ++ t) <$> ms) ++ rest.

Lemma replaced_some fuel total r t s m : search total r [] s = Some m ->
  replaced (S fuel) total r t s = Skipped m ++ t ++ replaced fuel total r t (Rest m).
Proof.
  intros H. unfold replaced. cbn [iterate]. rewrite H. destruct (iterate fuel total r (Rest m)) as [ms rest].
  rewrite fmap_cons. cbn [concat]. by rewrite !app_assoc.
Qed.

Lemma replaced_none fuel total r t s : search total r [] s = None -> replaced fuel total r t s = s.
Proof. intros H. unfold replaced. destruct fuel; cbn [iterate]; [done|]. by rewrite H. Qed.

(** At most one blank. *)

Definition gap (a : bytes) : Prop := a = [] \/ a = #" ".

Definition starts_blank (s : bytes) : bool := match s with c :: _ => isspace c | [] => false end.

Lemma nonblank_span s : let ws := span (fun c => negb (isspace c)) s in
  Forall (fun c => isspace c = false) ws.1 /\ s = ws.1 ++ ws.2 /\ (ws.2 = [] \/ starts_blank ws.2 = true).
Proof.
  cbv zeta. split_and!.
  - eapply Forall_impl; [apply span_all|]. intros c. simpl. by destruct (isspace c).
  - by rewrite span_app.
  - destruct (span _ s).2 as [|c r] eqn:E; [by left|right]. apply span_rest in E. simpl. by destruct (isspace c).
Qed.

Lemma no_word s : starts_blank s = false -> ResultShaping.words [] s = [] -> s = [].
Proof.
  intros H E. destruct (nonblank_span s) as (F & Es & R). destruct (span _ s) as [w r]. simpl in F, Es, R. subst s.
  rewrite words_app in E by done. destruct w as [|c w].
  - destruct R as [->|R]; [done|]. simpl in *. congruence.
  - exfalso. cbn [app] in E. revert E. clear. intros E.
    assert (N : forall r cur, cur <> [] -> ResultShaping.words cur r <> []).
    { intros r'. induction r' as [|d r' IH]; intros cur Hc; cbn [ResultShaping.words]; rewrite ?bool_decide_false by done; [done|].
      destruct (isspace d); [done|]. apply IH. by destruct cur. }
    by apply (N r (c :: w)).
Qed.

Lemma squeezed total t : forall n s fuel, (length s <= n)%nat -> (n <= fuel)%nat -> t = #" " ->
  exists a z, replaced fuel total some_blanks t s = a ++ unwords (ResultShaping.words [] s) ++ z /\
    gap a /\ gap z /\ (starts_blank s = false -> a = []).
Proof.
  induction n as [|n IH]; intros s fuel Hn Hf ->.
  - destruct s; [|simpl in *; lia]. exists [], []. rewrite replaced_none by done. unfold gap. auto.
  - destruct (nonblank_span s) as (F & E & R). destruct (span _ s) as [w r]. simpl in F, E, R.
    destruct R as [->|R].
    { rewrite app_nil_r in E. subst s. rewrite replaced_none by (by apply search_no_run). exists [], [].
      rewrite app_nil_r. destruct w; [unfold gap; auto|]. rewrite words_last by done. unfold gap. auto. }
    destruct (span isspace r) as [b s'] eqn:Er. pose proof (span_app isspace r) as A. rewrite Er in A. simpl in A.
    pose proof (span_all isspace r) as B. rewrite Er in B. simpl in B.
    assert (Hb : b <> []) by (intros ->; destruct r as [|c r]; [done|]; simpl in R, Er; rewrite R in Er; by destruct (span isspace r)).
    assert (Hs' : forall c x, s' = c :: x -> isspace c = false) by (intros c x ->; apply (span_rest isspace r c x); by rewrite Er).
    destruct fuel as [|fuel]; [lia|].
    rewrite (replaced_some fuel total some_blanks #" " s (mkMatch w [] s')) by (rewrite E, <- A; by apply (search_run total isspace w b [] s')).
    cbn [Skipped Rest]. assert (L : (length s' <= n)%nat).
    { rewrite E, <- A, !length_app in Hn. destruct b; [done|]. simpl in *. lia. }
    assert (S' : starts_blank s' = false) by (destruct s' as [|x y]; [done|]; by apply (Hs' x y)).
    assert (Ew : ResultShaping.words [] (w ++ b ++ s') = (if bool_decide (w = []) then [] else [w]) ++ ResultShaping.words [] s').
    { case_bool_decide as W0; [rewrite W0; cbn [app]; by apply words_blank|]. destruct b as [|d b]; [done|]. inversion_clear B. cbn [app].
      rewrite words_word by done. f_equal. by apply words_blank. }
    assert (Lead : forall x, starts_blank (b ++ x) = true) by (intros x; destruct b; [done|]; by inversion B).
    rewrite E, <- A, Ew. destruct (decide (s' = [])) as [->|N].
    { rewrite replaced_none by done. cbn. destruct w as [|c w]; cbn.
      - exists #" ", []. unfold gap. split_and!; auto. intros X. by rewrite Lead in X.
      - exists [], #" ". unfold gap. split_and!; auto. }
    destruct (IH s' fuel L ltac:(lia) eq_refl) as (a & z & -> & Ga & Gz & Ha). rewrite (Ha S'). cbn [app].
    destruct (ResultShaping.words [] s') as [|v vs] eqn:Ev; [by apply no_word in Ev|]. destruct w as [|c w]; cbn [bool_decide].
    + exists #" ", z. split_and!; [done|by right|done|]. intros X. cbn [app] in X. by rewrite Lead in X.
    + exists [], z. split_and!; [|by left|done|done]. cbn. by rewrite <- ?app_assoc.
Qed.

Lemma nonspace_nonblank c : isspace c = false -> blank c = false.
Proof. by_bytes (fun c => implb (negb (isspace c)) (negb (blank c))) c. by destruct (isspace c), (blank c). Qed.

Lemma trim_between p w s z : Forall (fun c => p c = true) w -> Forall (fun c => p c = true) z -> edges p s -> trim p (w ++ s ++ z) = s.
Proof.
  intros Hw Hz (c & d & Hc & Hd & Pc & Pd). unfold trim. rewrite skip_while_app by done.
  assert (Hh : head (s ++ z) = Some c) by (destruct s; [done|]; by injection Hc as ->).
  rewrite (skip_while_stays p (s ++ z)) by (rewrite Hh; by intros ? [= <-]).
  rewrite reverse_app, skip_while_app by (by apply Forall_reverse).
  rewrite skip_while_stays, reverse_involutive; [done|]. intros x. rewrite head_reverse, Hd. by intros [= <-].
Qed.

Lemma last_cons_some {A} (a : A) l d : last l = Some d -> last (a :: l) = Some d.
Proof. by destruct l. Qed.

Lemma word_last w : is_word w -> exists d, last w = Some d /\ isspace d = false.
Proof.
  intros [H1 H2]. destruct (last w) as [d|] eqn:E; [|by apply last_None in E]. exists d. split; [done|].
  apply last_Some in E as [l ->]. apply Forall_app in H2 as [_ H2]. by inversion H2.
Qed.

Lemma unwords_cons w ws : ws <> [] -> unwords (w :: ws) = w ++ #" " ++ unwords ws.
Proof. by destruct ws. Qed.

Lemma unwords_nonempty ws : Forall is_word ws -> ws <> [] -> unwords ws <> [].
Proof. intros H N. destruct H as [|w ws [Hw _] _]; [done|]. destruct ws; simpl; [done|]. by destruct w. Qed.

Lemma unwords_edges ws : Forall is_word ws -> ws <> [] -> exists c d, head (unwords ws) = Some c /\ last (unwords ws) = Some d /\ isspace c = false /\ isspace d = false.
Proof.
  intros H N. induction H as [|w ws Hw Hws IH]; [done|].
  destruct (word_last w Hw) as (d & Hd & Sd). destruct w as [|c w]; [by destruct Hw|].
  assert (Sc : isspace c = false) by (destruct Hw as [_ F]; by inversion F).
  destruct (decide (ws = [])) as [->|Ne]; [by exists c, d|].
  destruct (IH Ne) as (_ & d' & _ & Hd' & _ & Sd'). exists c, d'. rewrite unwords_cons by done. split_and!; [done| |done|done].
  rewrite !last_app, Hd'. done.
Qed.

Lemma TrimCopy_unwords a z ws : gap a -> gap z -> Forall is_word ws -> TrimCopy (a ++ unwords ws ++ z) = unwords ws.
Proof.
  intros Ga Gz H. unfold TrimCopy.
  assert (G : forall a, gap a -> Forall (fun c => blank c = true) a) by (intros ? [->| ->]; repeat constructor).
  destruct (decide (ws = [])) as [->|N]; [by destruct Ga as [->| ->], Gz as [->| ->]|].
  destruct (unwords_edges ws H N) as (c & d & Hc & Hd & Sc & Sd).
  apply trim_between; [by apply G|by apply G|]. exists c, d. split_and!; [done|done|by apply nonspace_nonblank|by apply nonspace_nonblank].
Qed.

Lemma words_unwords ws : Forall is_word ws -> ResultShaping.words [] (unwords ws) = ws.
Proof.
  induction 1 as [|w ws Hw Hws IH]; [done|]. destruct (decide (ws = [])) as [->|N]; [by apply words_last|].
  rewrite unwords_cons by done. cbn [app]. change (w ++ #" " ++ unwords ws) with (w ++ " "%char :: unwords ws).
  rewrite words_word by done. by rewrite IH.
Qed.

Lemma squeeze_trim s : TrimCopy (replace some_blanks #" " s) = unwords (ResultShaping.words [] s).
Proof.
  assert (E : replace some_blanks #" " s = replaced (length s) (length s) some_blanks #" " s) by done. rewrite E.
  destruct (squeezed (length s) #" " (length s) s (length s)) as (a & z & -> & Ga & Gz & _); [done..|].
  apply TrimCopy_unwords; [done|done|]. by apply words_are.
Qed.

(** *** An operator at the beginning *)

Lemma operator_letters w : operator w = true ->
  (exists a n d, w = [a; n; d] /\ tolower a = "a"%char /\ tolower n = "n"%char /\ tolower d = "d"%char) \/
  (exists o r, w = [o; r] /\ tolower o = "o"%char /\ tolower r = "r"%char).
Proof.
  unfold operator. rewrite bool_decide_eq_true, elem_of_cons, list_elem_of_singleton.
  intros [H|H]; destruct w as [|x [|y [|z [|? ?]]]]; try discriminate H; injection H as; [left|right]; eauto 10.
Qed.

Lemma wholes_letter total c s g s' g' : wholes total (Letter c) s g s' g' -> exists d, s = d :: s' /\ g' = g /\ tolower d = tolower c.
Proof. inversion 1; subst. eexists. split_and!; [done|done|]. by eapply bool_decide_eq_true. Qed.

Lemma wholes_and_or total s g s' g' : wholes total and_or s g s' g' -> exists w, s = w ++ s' /\ operator w = true.
Proof.
  unfold and_or. intros H. inversion H as [| | | | | | | |n a s0 g0 s1 g1 H1| |]; subst. inversion H1; subst.
  - match goal with X : wholes _ (Seq _ _) _ _ _ _ |- _ => inversion X; subst; clear X end.
    match goal with X : wholes _ (Seq _ _) _ _ _ _ |- _ => inversion X; subst; clear X end.
    repeat match goal with X : wholes _ (Letter _) _ _ _ _ |- _ => apply wholes_letter in X as (? & -> & -> & ?) end.
    eexists [_; _; _]. split; [done|]. unfold operator. rewrite bool_decide_eq_true. cbn. repeat match goal with X : tolower _ = _ |- _ => rewrite X; clear X end. vm_compute. by left.
  - match goal with X : wholes _ (Seq _ _) _ _ _ _ |- _ => inversion X; subst; clear X end.
    repeat match goal with X : wholes _ (Letter _) _ _ _ _ |- _ => apply wholes_letter in X as (? & -> & -> & ?) end.
    eexists [_; _]. split; [done|]. unfold operator. rewrite bool_decide_eq_true. cbn. repeat match goal with X : tolower _ = _ |- _ => rewrite X; clear X end. vm_compute. right. by left.
Qed.

Lemma wholes_star_set total gr p s g s' g' : wholes total (Star gr (One p)) s g s' g' ->
  exists b, s = b ++ s' /\ Forall (fun c => p c = true) b.
Proof.
  remember (Star gr (One p)) as r eqn:E. induction 1 as [| | | | | | |gr' a s g s1 g1 s2 g2 H1 _ _ _ IH| | |]; try discriminate E.
  - by exists [].
  - injection E as -> ->. destruct IH as (b & -> & Hb); [done|]. inversion H1; subst. exists (c :: b). split; [done|]. by constructor.
Qed.

Lemma wholes_some_blanks total s g s' g' : wholes total some_blanks s g s' g' ->
  exists b, s = b ++ s' /\ b <> [] /\ Forall (fun c => isspace c = true) b.
Proof.
  unfold some_blanks, Plus. intros H. inversion H as [|a b s0 g0 s1 g1 s2 g2 H1 H2| | | | | | | | |]; subst.
  apply wholes_star_set in H2 as (b & -> & Hb). inversion H1; subst. exists (c :: b). split_and!; [done|done|by constructor].
Qed.

Lemma operator_word w : operator w = true -> is_word w.
Proof.
  intros H. assert (L : forall c d, tolower c = d -> islower d = true -> isspace c = false).
  { intros c d <-. by_bytes (fun c => implb (islower (tolower c)) (negb (isspace c))) c. by destruct (islower _), (isspace c). }
  destruct (operator_letters w H) as [(a & n & d & -> & Ha & Hn & Hd)|(o & r & -> & Ho & Hr)]; (split; [done|]);
    repeat (constructor; [by (eapply L; [eassumption|reflexivity])|]); constructor.
Qed.

Lemma run_and_or {X} total w s g (k : bytes -> Groups -> option X) : operator w = true ->
  run total and_or (w ++ s) g k = k s ((1%nat, take (length w) (w ++ s)) :: g).
Proof.
  intros H. destruct (operator_letters w H) as [(a & n & d & -> & Ha & Hn & Hd)|(o & r & -> & Ho & Hr)]; cbn.
  - rewrite Ha, Hn, Hd. cbn. replace (S (S (S (length s))) - length s)%nat with 3%nat by lia. cbn. by destruct (k s _).
  - rewrite Ho, Hr. cbn. replace (S (S (length s)) - length s)%nat with 2%nat by lia. done.
Qed.

Lemma run_blank {X} total s g (k : bytes -> Groups -> option X) x : starts_blank s = false ->
  k s g = Some x -> run total some_blanks (" "%char :: s) g k = Some x.
Proof.
  intros H Hk. unfold some_blanks. rewrite run_plus. apply run_star_run; [done|].
  replace (span isspace s) with ([] : bytes, s); [done|]. destruct s as [|c s]; [done|]. simpl in *. by rewrite H.
Qed.

Lemma unwords_head ws : Forall is_word ws -> starts_blank (unwords ws) = false.
Proof.
  intros H. destruct (decide (ws = [])) as [->|N]; [done|]. destruct (unwords_edges ws H N) as (c & d & Hc & _ & Sc & _).
  destruct (unwords ws); [done|]. by injection Hc as ->.
Qed.

Lemma no_leading total s : (length s < total)%nat -> search total leading_operator [] s = None.
Proof.
  intros H. apply search_none. intros w1 w2 -> g' s' W _. unfold leading_operator in W. inversion W; subst.
  match goal with X : wholes _ Bol _ _ _ _ |- _ => inversion X; subst end. rewrite length_app in H. lia.
Qed.

(** What the search asks of a match. *)

Definition shorter (s s' : bytes) (g : Groups) : option (bytes * Groups) := if (length s' <? length s)%nat then Some (s', g) else None.

Lemma search_first total r s skipped s' g : run total r s [] (shorter s) = Some (s', g) -> search total r skipped s = Some (mkMatch skipped g s').
Proof. intros H. unfold shorter in H. destruct s; cbn [search]; by rewrite H. Qed.

Lemma run_leading w s : operator w = true -> starts_blank s = false ->
  exists g, run (length (w ++ " "%char :: s)) leading_operator (w ++ " "%char :: s) [] (shorter (w ++ " "%char :: s)) = Some (s, g).
Proof.
  intros Hw Hs. eexists. unfold leading_operator. set (total := length _).
  change (run total (Seq Bol (Seq and_or some_blanks)) ?t [] ?k) with (if (length t =? total)%nat then run total and_or t [] (fun s' g' => run total some_blanks s' g' k) else None).
  unfold total at 1. rewrite Nat.eqb_refl. rewrite run_and_or by done. apply run_blank; [done|].
  unfold shorter. rewrite length_app. cbn [length]. by destruct (Nat.ltb_spec (length s) (length w + S (length s))); [|lia].
Qed.

Lemma leading_absent s : (forall w c r, s = w ++ c :: r -> operator w = true -> isspace c = true -> False) ->
  search (length s) leading_operator [] s = None.
Proof.
  intros H. apply search_none. intros w1 w2 E g' s' W _. unfold leading_operator in W. inversion W; subst.
  repeat match goal with X : wholes _ Bol _ _ _ _ |- _ => inversion X; subst; clear X end.
  match goal with X : wholes _ (Seq _ _) _ _ _ _ |- _ => inversion X; subst; clear X end.
  match goal with X : wholes _ and_or _ _ _ _ |- _ => apply wholes_and_or in X as (w & -> & Hw) end.
  match goal with X : wholes _ some_blanks _ _ _ _ |- _ => apply wholes_some_blanks in X as (b & -> & Hb & Fb) end.
  match goal with X : length _ = length _ |- _ => rename X into L end. rewrite !length_app in L.
  assert (w1 = []) as -> by (destruct w1; [done|simpl in L; lia]).
  destruct b as [|c b]; [done|]. inversion Fb; subst. by apply (H w c (b ++ s')).
Qed.

Lemma replace_is_replaced r t s : replace r t s = replaced (length s) (length s) r t s.
Proof. done. Qed.

Lemma replace_leading ws : Forall is_word ws -> replace leading_operator [] (unwords ws) = unwords (drop_first ws).
Proof.
  intros H. rewrite replace_is_replaced.
  destruct ws as [|w [|v r]]; [done| |].
  - cbn [drop_first]. apply replaced_none, leading_absent. intros w' c r E Hw Hc. cbn [unwords] in E. subst.
    inversion_clear H as [|? ? [_ F] _]. apply Forall_app in F as [_ F]. inversion F. congruence.
  - cbn [drop_first]. inversion H as [|? ? Hw Hr]; subst. destruct (operator w) eqn:O.
    + rewrite unwords_cons by done. change (w ++ #" " ++ ?x) with (w ++ " "%char :: x).
      destruct (run_leading w (unwords (v :: r)) O (unwords_head _ Hr)) as [g E]. apply search_first with (skipped := []) in E.
      destruct (length (w ++ " "%char :: unwords (v :: r))) as [|n] eqn:L; [rewrite length_app in L; simpl in L; lia|].
      erewrite replaced_some by done. cbn [Skipped Rest app]. apply replaced_none, no_leading. rewrite length_app in L. simpl in *. lia.
    + apply replaced_none, leading_absent. intros w' c x E Hw' Hc.
      assert (X : ResultShaping.words [] (unwords (w :: v :: r)) = w' :: ResultShaping.words [] x).
      { rewrite E. apply words_word; [by apply operator_word|done]. }
      rewrite words_unwords in X by done. injection X as -> _. congruence.
Qed.

(** *** An operator at the end *)

Lemma last_word_unique a b c d (w v : bytes) : a ++ c :: w = b ++ d :: v -> isspace c = true -> isspace d = true ->
  Forall (fun c => isspace c = false) w -> Forall (fun c => isspace c = false) v -> w = v /\ a = b /\ c = d.
Proof.
  intros E Hc Hd Hw Hv.
  assert (G : forall a c (w : bytes), isspace c = true -> Forall (fun c => isspace c = false) w ->
    span (fun c => negb (isspace c)) (reverse (a ++ c :: w)) = (reverse w, c :: reverse a)).
  { intros a' c' w' Hc' Hw'. rewrite reverse_app, reverse_cons, <- app_assoc. apply span_split.
    - apply Forall_reverse. eapply Forall_impl; [exact Hw'|]. intros x. simpl. by intros ->.
    - intros x y [= <- _]. by rewrite Hc'. }
  pose proof (G a c w Hc Hw) as G1. rewrite E, (G b d v Hd Hv) in G1. injection G1 as G1 -> G2.
  apply (inj reverse) in G1, G2. done.
Qed.

Lemma trailing_shape total s g s' g' : wholes total trailing_operator s g s' g' ->
  exists b c w, s = b ++ c :: w /\ s' = [] /\ operator w = true /\ isspace c = true /\ Forall (fun c => isspace c = true) b.
Proof.
  unfold trailing_operator. intros W. inversion W; subst.
  match goal with X : wholes _ (Seq _ _) _ _ _ _ |- _ => inversion X; subst; clear X end.
  match goal with X : wholes _ and_or _ _ _ _ |- _ => apply wholes_and_or in X as (w & -> & Hw) end.
  match goal with X : wholes _ some_blanks _ _ _ _ |- _ => apply wholes_some_blanks in X as (b & -> & Hb & Fb) end.
  match goal with X : wholes _ Eol _ _ _ _ |- _ => inversion X; subst; clear X end.
  destruct b as [|c b' _] using rev_ind; [done|]. apply Forall_app in Fb as [F1 F2]. inversion F2; subst.
  exists b', c, w. rewrite app_nil_r, <- app_assoc. done.
Qed.

Lemma unwords_snoc ws w : ws <> [] -> unwords (ws ++ [w]) = unwords ws ++ " "%char :: w.
Proof.
  induction ws as [|x ws IH]; [done|]. intros _. destruct ws as [|y ws]; [done|].
  rewrite <- app_comm_cons, (unwords_cons x ((y :: ws) ++ [w])), (unwords_cons x (y :: ws)), IH by done. by rewrite <- !app_assoc.
Qed.

Lemma run_trailing w total t : operator w = true -> t = " "%char :: w ->
  exists g, run total trailing_operator t [] (shorter t) = Some ([], g).
Proof.
  intros Hw ->. eexists. unfold trailing_operator.
  change (run total (Seq some_blanks (Seq and_or Eol)) ?t [] ?k) with (run total some_blanks t [] (fun s' g' => run total and_or s' g' (fun s' g' => run total Eol s' g' k))).
  apply run_blank.
  - destruct (operator_word w Hw) as [N F]. destruct w; [done|]. by inversion F.
  - rewrite <- (app_nil_r w) at 1. rewrite run_and_or by done. cbn [run]. rewrite bool_decide_true by done. done.
Qed.

Lemma replace_trailing ws : Forall is_word ws -> replace trailing_operator [] (unwords ws) = unwords (drop_last ws).
Proof.
  intros H. rewrite replace_is_replaced. set (s := unwords ws). set (total := length s).
  destruct ws as [|w vs _] using rev_ind; [done|]. apply Forall_app in H as [Hv Hw]. inversion_clear Hw as [|? ? W _].
  unfold drop_last. rewrite reverse_snoc. destruct (decide (vs = [])) as [->|N].
  - cbn. apply replaced_none, search_none. intros w1 w2 E g' s' X _.
    apply trailing_shape in X as (b & c & v & -> & _ & _ & Hc & _). destruct W as [_ F]. unfold s in E. cbn in E. rewrite E in F.
    apply Forall_app in F as [_ F]. apply Forall_app in F as [_ F]. inversion F. congruence.
  - assert (D : drop_first (w :: reverse vs) = if operator w then reverse vs else w :: reverse vs).
    { cbn. destruct (reverse vs) eqn:R; [|done]. apply (f_equal reverse) in R. rewrite reverse_involutive in R. done. }
    rewrite D. unfold s. rewrite unwords_snoc by done. destruct (operator w) eqn:O.
    + rewrite reverse_involutive. destruct (run_trailing w total (" "%char :: w) O eq_refl) as [g E].
      apply search_first with (skipped := unwords vs) in E.
      assert (S : search total trailing_operator [] (unwords vs ++ " "%char :: w) = Some (mkMatch (unwords vs) g [])).
      { rewrite search_skips; [done|]. intros w1 w2 Ev Nw g' s' X _. apply trailing_shape in X as (b & c & v & Ex & _ & Ov & Hc & Fb).
        apply last_word_unique in Ex as (_ & -> & _); [|done|done|by destruct W|by apply operator_word in Ov as [_ F]].
        destruct (unwords_edges vs Hv N) as (_ & d & _ & Hd & _ & Sd). rewrite Ev, last_app in Hd.
        destruct (last b) as [d'|] eqn:L; [|by apply last_None in L]. injection Hd as ->. apply last_Some in L as [b' ->].
        apply Forall_app in Fb as [_ Fb]. inversion Fb. congruence. }
      destruct total eqn:L; [subst total; unfold s in L; rewrite unwords_snoc, length_app in L by done; simpl in L; lia|].
      rewrite (replaced_some _ _ _ _ _ _ S). cbn [Skipped Rest]. rewrite replaced_none by done. by rewrite app_nil_r.
    + rewrite reverse_cons, reverse_involutive, unwords_snoc by done. apply replaced_none, search_none.
      intros w1 w2 E g' s' X _. apply trailing_shape in X as (b & c & v & -> & _ & Ov & Hc & _). rewrite app_assoc in E.
      apply last_word_unique in E as (Ewv & _); [congruence|done|done|by destruct W|by apply operator_word in Ov as [_ F]].
Qed.

(** *** The rounds *)

Lemma drop_first_words ws : Forall is_word ws -> Forall is_word (drop_first ws).
Proof. intros H. destruct H as [|w [|v r] Hw Hr]; cbn; [constructor|by constructor|]. destruct (operator w); [done|by constructor]. Qed.

Lemma drop_last_words ws : Forall is_word ws -> Forall is_word (drop_last ws).
Proof. intros H. unfold drop_last. by apply Forall_reverse, drop_first_words, Forall_reverse. Qed.

Lemma round_words ws : Forall is_word ws -> Forall is_word (round ws).
Proof. intros H. by apply drop_last_words, drop_first_words. Qed.

Lemma drop_first_shorter ws : drop_first ws = ws \/ (length (drop_first ws) < length ws)%nat.
Proof. destruct ws as [|w [|v r]]; cbn; [by left|by left|]. destruct (operator w); [right; simpl; lia|by left]. Qed.

Lemma drop_last_shorter ws : drop_last ws = ws \/ (length (drop_last ws) < length ws)%nat.
Proof.
  unfold drop_last. destruct (drop_first_shorter (reverse ws)) as [E|L]; [left; by rewrite E, reverse_involutive|right].
  by rewrite length_reverse, <- (length_reverse ws).
Qed.

Lemma round_shorter ws : round ws = ws \/ (length (round ws) < length ws)%nat.
Proof.
  unfold round. destruct (drop_last_shorter (drop_first ws)) as [->|L1]; [apply drop_first_shorter|].
  destruct (drop_first_shorter ws) as [E|L2]; [rewrite E in L1 |- *; by right|right; lia].
Qed.

Lemma cleanup_round_words ws : Forall is_word ws -> cleanup_round (unwords ws) = unwords (round ws).
Proof.
  intros H. unfold cleanup_round. rewrite replace_leading, replace_trailing by (done || by apply drop_first_words).
  pose proof (TrimCopy_unwords [] [] (round ws) ltac:(by left) ltac:(by left) (round_words ws H)) as T. by rewrite app_nil_r in T.
Qed.

Lemma iter_round_fixed ws n : round ws = ws -> Nat.iter n round ws = ws.
Proof. intros E. induction n as [|n IH]; [done|]. simpl. by rewrite IH. Qed.

Lemma iter_round_enough : forall n m ws, (length ws <= n)%nat -> (length ws <= m)%nat -> Nat.iter n round ws = Nat.iter m round ws.
Proof.
  induction n as [|n IH]; intros m ws Hn Hm.
  - destruct ws; [|simpl in *; lia]. by rewrite !iter_round_fixed.
  - destruct (round_shorter ws) as [E|L]; [by rewrite !iter_round_fixed|]. destruct m as [|m]; [lia|].
    rewrite !Nat.iter_succ_r. apply IH; lia.
Qed.

Lemma cleanup_loop_words : forall fuel ws, Forall is_word ws -> (length ws < fuel)%nat ->
  cleanup_loop fuel (unwords ws) = unwords (Nat.iter (length ws) round ws).
Proof.
  induction fuel as [|fuel IH]; intros ws H Hf; [lia|]. cbn [cleanup_loop]. rewrite cleanup_round_words by done.
  pose proof (round_words ws H) as R. case_bool_decide as E.
  - apply (f_equal (ResultShaping.words [])) in E. rewrite !words_unwords in E by done. by rewrite iter_round_fixed, E.
  - destruct (round_shorter ws) as [Ew|L]; [by rewrite Ew in E|]. rewrite IH by (done || lia).
    destruct ws as [|w ws]; [done|]. cbn [length]. rewrite Nat.iter_succ_r. f_equal. apply iter_round_enough; simpl in *; lia.
Qed.

Lemma unwords_long ws : Forall is_word ws -> (length ws <= length (unwords ws))%nat.
Proof.
  induction 1 as [|w ws [Hw _] _ IH]; [done|]. destruct w; [done|]. destruct ws; [simpl; lia|].
  rewrite unwords_cons, !length_app by done. simpl in *. lia.
Qed.

Lemma strip_fixed ws : round (strip ws) = strip ws.
Proof.
  unfold strip. change (round (Nat.iter (length ws) round ws)) with (Nat.iter (S (length ws)) round ws).
  apply iter_round_enough; lia.
Qed.

Lemma strip_words ws : Forall is_word ws -> Forall is_word (strip ws).
Proof. intros H. unfold strip. induction (length ws) as [|n IH]; [done|]. by apply round_words. Qed.

Lemma drop_first_fixed ws w v r : drop_first ws = ws -> ws = w :: v :: r -> operator w = false.
Proof. intros E ->. cbn in E. destruct (operator w); [|done]. apply (f_equal length) in E. simpl in E. lia. Qed.

Lemma round_ends ws : round ws = ws -> (length ws <= 1)%nat \/
  exists a b, head ws = Some a /\ last ws = Some b /\ operator a = false /\ operator b = false.
Proof.
  intros E. assert (F : drop_first ws = ws).
  { destruct (drop_first_shorter ws) as [?|L]; [done|]. exfalso. apply (f_equal length) in E. unfold round in E.
    destruct (drop_last_shorter (drop_first ws)) as [G|G]; [rewrite G in E|]; lia. }
  unfold round in E. rewrite F in E. unfold drop_last in E. apply (f_equal reverse) in E. rewrite reverse_involutive in E.
  destruct ws as [|w [|v r]]; [left; simpl; lia..|right].
  destruct (last (w :: v :: r)) as [b|] eqn:L; [|by apply last_None in L]. exists w, b. split_and!; [done|done|exact (drop_first_fixed _ _ _ _ F eq_refl)|].
  apply last_Some in L as [l Hl]. rewrite Hl, reverse_snoc in E. destruct (reverse l) as [|x y] eqn:R; [|exact (drop_first_fixed _ _ _ _ E eq_refl)].
  apply (f_equal reverse) in R. rewrite reverse_involutive in R. subst. done.
Qed.

(** C26. The clean-up of the query text ends and is this on words: the words of the text,
    one blank between them, without the operators and and or, in any case of letters, at
    the two ends, but never less than one word. So the result starts and ends with a word
    that is not an operator, or is one word, and cleaning it up again changes nothing. *)
Theorem cleanup_words QueryText :
  let ws := strip (ResultShaping.words [] QueryText) in
  CleanupInlineQueryOperators QueryText = unwords ws /\
  ((length ws <= 1)%nat \/ exists a b, head ws = Some a /\ last ws = Some b /\ operator a = false /\ operator b = false) /\
  CleanupInlineQueryOperators (unwords ws) = unwords ws.
Proof.
  cbv zeta. pose proof (words_are QueryText [] ltac:(constructor)) as H.
  assert (C : forall ws, Forall is_word ws -> cleanup_loop (S (length (unwords ws))) (unwords ws) = unwords (strip ws)).
  { intros ws Hws. rewrite cleanup_loop_words; [done|done|]. pose proof (unwords_long ws Hws). lia. }
  pose proof (strip_words _ H) as S1. set (ws := strip _) in *.
  split_and!.
  - unfold CleanupInlineQueryOperators. rewrite squeeze_trim. by apply C.
  - apply round_ends, strip_fixed.
  - unfold CleanupInlineQueryOperators. rewrite squeeze_trim, words_unwords by done. cbv zeta. rewrite C by done. f_equal.
    unfold strip. apply iter_round_fixed, strip_fixed.
Qed.

End QueryCleanup.
